(* ===== verification/_CoqProject ===== *)
-Q . S2P
Prelude.v
GoTime.v
Netip.v
Lru.v
Float64.v
RateLimit.v
BanList.v
Offenders.v
AorStrikes.v
GoText.v
Config.v
Shield.v
ShieldSafety.v
PortPool.v
Latch.v
MediaSession.v
Hep.v
Cooldown.v
Location.v
StreamFramer.v
WsFramer.v
StreamConn.v
Carriers.v
Enum.v
Admission.v
GoEncoding.v
SdpCodec.v
SdpCrypto.v
SdpFmtp.v
SdpParse.v
SdpBuild.v
SipAddr.v
SipScan.v
SipMalformed.v
SipMsg.v
SipRequest.v
Arrival.v
EdgeSdes.v
Topology.v
Dialog.v
DialogInv.v
DialogSafety.v
Subs.v
AckMiss.v
Forward.v
RegisterText.v
RegGuard.v
GoHash.v
WebRtcLeg.v
WebRtcSession.v
Hide.v
CarrierRoute.v
Registration.v
MediaAnchor.v
AnchorSafety.v
AnchorRun.v
AnchorBody.v
AnchorDemo.v
InviteFlow.v
InviteLogic.v
InviteSafety.v
InviteDemo.v
Subscribe.v
InDialog.v
Dispatch.v
InDialogLogic.v
InDialogSafety.v
InDialogDemo.v
ConfigSchema.v
EnvExpand.v
Validate.v
ValidConfig.v
NatForwards.v
ConfigReload.v
ConfigServe.v
AdminAuth.v
AdminSafety.v
AdminGuess.v
AdminDemo.v
