(* ===== verification/Prelude.v ===== *)
(** * FreeSBC: a verification development

    FreeSBC is a session border controller in Go: it stands between a private
    telephone switch (one or several nodes) and the public internet, where its
    SIP clients and the operator's carriers are.  It forwards SIP between the
    two planes, hides the private one, relays the media (RTP, SRTP), and
    defends itself against scanners and guessers.  This library models its
    core logic, file by file, as executable functions on explicit state and
    proves what makes each part correct.

    ** The parts and how they interact

    A packet on a public socket is framed ([StreamFramer], [WsFramer], on
    connections kept by [StreamConn]), filtered ([SipMalformed], [Arrival]) and
    judged by the security plane ([Shield] with its tables [RateLimit],
    [BanList], [Offenders], [AorStrikes]) and by the admission policy
    ([Admission], [Enum]), which asks the binding table ([Location]) and the
    carrier directory ([Carriers]) whether the source is known.  A REGISTER
    goes through the credential guard ([RegGuard]) to a switch node chosen by
    [Topology] under the breaker of [Cooldown], and its answer may change the
    binding table ([Registration]).  A call lives in the dialog table
    ([Dialog]); its requests and responses are rewritten by [Forward] and
    [Hide], addressed by [CarrierRoute] and [Topology]; its SDP is parsed,
    negotiated and printed by the [Sdp*] files, its keys planned by
    [EdgeSdes], its media relayed by [MediaSession] through [Latch] on ports
    of [PortPool]; [Hep] encodes what is mirrored.

    ** Files, and the sources they model

    - [Prelude], [GoTime], [Netip], [GoText], [GoEncoding], [GoHash],
      [Float64], [Lru]: no file of the repository but the language and standard
      library its files use: bytes and strings, time, net/netip, strings and
      strconv, base64, the SHA-2 family and base32, float64, the container/list LRU idiom.
    - internal/shield: [RateLimit] (ratelimit.go), [BanList] (banlist.go),
      [Offenders] (offenders.go), [AorStrikes] (aorstrikes.go), [Shield]
      (shield.go, scanner.go, banned.go); [ShieldSafety] holds the theorems on
      traces of the whole plane.  [BanList] gives the interface [BanTable] the
      plane is proved against.
    - internal/config: [Config] (types.go: rates, strike limits, durations,
      port ranges), [ConfigSchema] (schema.go), [EnvExpand] (expand.go),
      [Validate] (validate.go, Parse of loader.go) with what a valid
      configuration is in [ValidConfig], [NatForwards] (nat.go), [ConfigReload]
      (restart.go, store.go, the watcher of reload.go as a state machine);
      [ConfigServe] joins them to the edge and holds configurations that are
      run.
    - internal/media: [PortPool] (portpool.go), [Latch] (the latch of
      session.go), [MediaSession] (session.go, relay.go, sdes.go, stats.go,
      mux.go), [WebRtcLeg] (webrtcleg.go), [WebRtcSession]
      (webrtcsession.go, the read loop of mux.go).
    - internal/hep: [Hep] (hep.go).
    - internal/sip: [SipAddr] (addr.go), [SipScan] (regscan.go),
      [SipMalformed] (malformed.go, readfilter.go), [SipMsg] (header.go,
      message.go), [SipRequest] (register.go, request.go).  sipgo's message
      types are the classes [SipParams] and [SipHeaders] with their laws; both
      have an instance on lists, where the witnesses run.
    - internal/sip/sdp: [SdpCodec] (codec.go), [SdpCrypto] (crypto.go),
      [SdpFmtp] (fmtp.go), [SdpParse] (sdp.go), [SdpBuild] (build.go).
    - internal/edge: [Cooldown] (cooldown.go), [Location] (location.go),
      [StreamFramer], [WsFramer], [StreamConn] (stream.go, part of
      carrierconn.go), [Carriers] (carrierdns.go), [Enum], [Admission]
      (admission.go), [Arrival] (arrival.go), [EdgeSdes] (sdes.go), [Topology]
      (topology.go), [Dialog] (dialog.go, offerless.go, ack.go) with its
      invariant in [DialogInv] and its theorems in [DialogSafety], [Forward]
      (forward.go, extensions.go), [RegisterText] and [Registration]
      (register.go, registerproof.go, the deciding half of regguard.go),
      [RegGuard] (the table of regguard.go), [Hide] (hide.go), [CarrierRoute]
      (carrier.go, carrierreg.go and the token lookups of invite.go),
      [MediaAnchor] (media.go, mediapool.go, codecs.go, the exchanges of
      offerless.go, applyReInvite of indialog.go): programs of a
      state-and-error monad over the dialog table, the media sessions and the
      pools.  [AnchorSafety] holds their Hoare logic and invariant,
      [AnchorRun] runs of them, [AnchorBody] what their bodies say,
      [AnchorDemo] a call that is run.  [InviteFlow] (invite.go, invite_leg.go,
      the INVITE of carrier.go) places a call: programs of a state monad over
      all of that and over what is on the wire.  [InviteLogic] is their logic,
      [InviteSafety] what they owe, [InviteDemo] calls that are run.  [Subs] is
      the subscription table of subscribe.go, [AckMiss] the memory of missing
      ACKs of ack.go.  [Subscribe] (forwardAndRelay of forward.go, the handlers
      of subscribe.go, OPTIONS to a carrier), [InDialog] (indialog.go,
      update.go, prack.go, message.go, the handlers of offerless.go and ack.go)
      and [Dispatch] (guard and OPTIONS of edge.go, onInvite, drain.go) take a
      request from the socket to its handler, in the state monad of
      [InviteFlow].  [InDialogLogic] is their logic, [InDialogSafety] what they
      owe, [InDialogDemo] requests that are run.
    - internal/admin: [AdminAuth] (guard.go, session.go, and of server.go the
      routes, requireAuth, the failure limiter and the verified credentials).
      [AdminSafety] and [AdminGuess] hold the theorems on runs of interleaved
      requests, [AdminDemo] runs.

    ** How the code is modelled

    A Go method on a struct is a function from the struct's record to a result
    and the record; what runs under one mutex is one function, so that an
    interleaving of callers is a list of operations.  Pointers that are
    shared (bindings, dialogs, forks, attempts) live on a heap, a [gmap] from
    addresses.  Errors are sums or options with a constructor per cause.
    Machine integers are [Z] with the wrap-around written out where the code
    can reach it; float64 token counts are the standard library's spec_float.
    Clocks, random bytes, resolvers, sockets, pion's SRTP and SDP decoder and
    sipgo's parser and transactions are arguments.  What a flow waits for (the
    responses of a transaction, a CANCEL, a deadline, anything else that
    happens to the edge meanwhile) is a script, in any order, and the theorems
    hold of every script; one flow reads the clock once.

    ** What the theorems show

    - Security plane: a ban is earned, never lifted early and never laid on a
      vouched source ([ShieldSafety], [Admission]); strikes count what an unbounded
      record of times would count ([Offenders]); a guess counts once and only
      under a challenge the edge took note of, by its nonce's hash ([RegGuard],
      [Registration]).
    - Registration: a REGISTER has one final answer whatever the switch does;
      a binding needs a proof; the indexes of the binding table agree after
      any operations ([Registration], [Location]).
    - Topology: the headers that name the private plane are taken off or masked
      in what leaves, as long as their names are spelled the way the parser
      spells them and identity headers of one name alike; the switch gets its
      own names back; for the switch's requests outside a dialog the proxy is no
      open relay ([Hide], [Forward], [CarrierRoute]).
    - Calls: over every interleaving the table's accounts agree, a CANCEL goes
      out once, a cancelled call never connects, offers do not cross,
      shutdown leaves nothing ([DialogInv], [DialogSafety]).
    - Placing a call: an INVITE is answered once, a 2xx is confirmed or acked
      and its branch ended with one BYE, the far end's SDP never passes, no node is dialed after an answer,
      a call that comes to nothing keeps no port ([InviteSafety]).
    - Inside a call: a re-INVITE is answered once, no request is answered
      twice, SDP that crosses is the proxy's own (a 2xx sent again included), a
      stranger's request is refused where its method has to belong to a call
      ([InDialogSafety]); a subscription is found by its own ends
      only, is bounded, and ends with its binding ([Subs]).
    - Media: a latch only moves up, an SRTP side never passes plain packets,
      ports are neither lost nor doubled ([Latch], [MediaSession], [PortPool]);
      over any run of the anchoring handlers the ports in use are those of the
      open sessions of live calls, every body names the proxy's own address and
      the session's own port, the switch is offered plain RTP only, and a
      callee branch has one answer, whichever branches respond in between
      ([AnchorRun], [AnchorBody]);
      a browser's media flows only between parties whose certificate was the
      signalled one ([WebRtcLeg], [WebRtcSession]).
    - Configuration: validation accepts exactly the configurations that are
      valid by a declarative account, a valid one gives every call a switch
      node and every listener its side, expansion is one pass, a reload that
      fails changes nothing and no change of the file is missed
      ([ValidConfig], [ConfigServe], [EnvExpand], [ConfigReload], [NatForwards]).
    - The admin server: whatever is served behind the login was authenticated,
      however requests interleave ([AdminSafety]); the password is guessed at
      most twenty times a minute and source ([AdminGuess]).
    - Text: framing does not depend on segmentation, scans terminate, what is
      printed parses back, IPv4 and IPv6 addresses included ([StreamFramer],
      [WsFramer], [SipScan], [GoEncoding], [SdpBuild], [Hep]).

    ** Fuel and bounds

    Loops that are not structural take fuel, always an expression of the input
    (the length of what is left to read, the number of ports) and each has a
    lemma that this fuel is enough: [SipScan.each_param_terminates],
    [StreamFramer.sip_loop_bytes], [WsFramer.ws_loop_bytes],
    [PortPool.sweep_spec], [EnvExpand.pieces_render].  No theorem assumes that a run ends.

    ** Not modelled

    - The wire: sockets, TLS, sipgo's transactions, pion's ICE, DTLS and SRTP;
      process start-up (internal/app, cmd), the test tools.
    - YAML decoding (a third-party parser; [Validate.Parse] starts from the
      decoded document), fsnotify and the file system under the watcher (its
      events are arguments), the wording of the validator's messages.
    - The start-up and the listeners of internal/edge/edge.go; of
      internal/admin everything behind the login (the WebUI, the API's views,
      metrics, health), the audit log and the HTTP server itself.  bcrypt's
      comparison is an argument.
    - The certificate file of the WebRTC legs (dtlscert.go).
    - Log lines, metrics labels and operator views throughout. *)

From Stdlib Require Export ZArith Lia Bool ZifyBool ZifyNat.
From Stdlib Require Import String Ascii.
From stdpp Require Export gmap.

#[export] Set Default Goal Selector "!".

Declare Scope gostr_scope.
Delimit Scope gostr_scope with gostr.

(** ** Bytes and strings

    A Go [byte] is a [Z] (0..255); a Go [string] and a Go [[]byte] are both a
    list of bytes.  [str] turns a literal into one. *)

Abbreviation gostring := (list Z).

Definition byte_of_ascii (c : ascii) : Z := Z.of_N (N_of_ascii c).

Fixpoint str (s : string) : list Z :=
  match s with
  | EmptyString => []
  | String c s' => byte_of_ascii c :: str s'
  end.

Export StringSyntax.

#[global] Arguments str _%_string_scope : simpl never.

Definition byte_ok (b : Z) : Prop := (0 <= b < 256)%Z.

#[export] Instance byte_ok_dec b : Decision (byte_ok b).
Proof. unfold byte_ok. apply _. Defined.

Abbreviation bytes_ok := (Forall byte_ok).

(** String equality as the boolean the code branches on. *)
Definition beq (a b : list Z) : bool := bool_decide (a = b).

(** ** Machine integers *)

Definition two63 : Z := 9223372036854775808.
Definition two64 : Z := 18446744073709551616.
Definition max_int64 : Z := two63 - 1.
Definition min_int64 : Z := - two63.

(** Wrap-around of a mathematical integer to a signed 64-bit one. *)
Definition wrap_int64 (z : Z) : Z := ((z + two63) mod two64 - two63)%Z.

(** Wrap-around to an unsigned [w]-bit integer. *)
Definition wrap_uint (w : Z) (z : Z) : Z := (z mod 2 ^ w)%Z.

Definition len {A} (l : list A) : Z := Z.of_nat (length l).

(** ** Automation *)

Create HintDb sbc.

Ltac case_if :=
  match goal with
  | |- context [if ?b then _ else _] => destruct b eqn:?
  end.

Ltac case_if_in H :=
  match type of H with
  | context [if ?b then _ else _] => destruct b eqn:?
  end.

(** Turn the boolean tests left in the context into propositions. *)
Ltac breflect :=
  repeat match goal with
  | H : (_ && _)%bool = true |- _ => apply andb_true_iff in H; destruct H
  | H : (_ && _)%bool = false |- _ => apply andb_false_iff in H
  | H : (_ || _)%bool = true |- _ => apply orb_true_iff in H
  | H : (_ || _)%bool = false |- _ => apply orb_false_iff in H; destruct H
  | H : negb _ = true |- _ => apply negb_true_iff in H
  | H : negb _ = false |- _ => apply negb_false_iff in H
  | H : bool_decide _ = true |- _ => apply bool_decide_eq_true in H
  | H : bool_decide _ = false |- _ => apply bool_decide_eq_false in H
  | H : beq _ _ = true |- _ => unfold beq in H
  | H : beq _ _ = false |- _ => unfold beq in H
  end.

(** Split every pair bound by a [let] or a [match] in the goal. *)
Ltac split_pairs :=
  repeat match goal with
  | |- context [let '(_, _) := ?e in _] => destruct e eqn:?
  end.

(** ** Lemmas on integers *)

Lemma wrap_int64_id z : (min_int64 <= z <= max_int64)%Z -> wrap_int64 z = z.
Proof.
  unfold wrap_int64, min_int64, max_int64, two63, two64. intros H.
  rewrite Z.mod_small; lia.
Qed.

Lemma wrap_int64_range z : (min_int64 <= wrap_int64 z <= max_int64)%Z.
Proof.
  unfold wrap_int64, min_int64, max_int64, two63, two64.
  pose proof (Z.mod_pos_bound (z + 9223372036854775808) 18446744073709551616).
  lia.
Qed.

(** ** Lemmas on lists *)

Lemma len_nil {A} : len ([] : list A) = 0%Z.
Proof. reflexivity. Qed.

Lemma len_cons {A} (x : A) l : len (x :: l) = (1 + len l)%Z.
Proof. unfold len. simpl. lia. Qed.

Lemma len_app {A} (l k : list A) : len (l ++ k) = (len l + len k)%Z.
Proof. unfold len. rewrite length_app. lia. Qed.

Lemma len_take {A} n (l : list A) : len (take n l) = Z.min (Z.of_nat n) (len l).
Proof. unfold len. rewrite length_take. lia. Qed.

Lemma len_drop {A} n (l : list A) : len (drop n l) = Z.max 0 (len l - Z.of_nat n).
Proof. unfold len. rewrite length_drop. lia. Qed.

Lemma len_nonneg {A} (l : list A) : (0 <= len l)%Z.
Proof. unfold len. lia. Qed.

Create Rewrite HintDb sbc_len.
#[export] Hint Resolve len_nonneg : sbc.

Lemma beq_refl a : beq a a = true.
Proof. unfold beq. by rewrite bool_decide_true. Qed.

Lemma beq_eq a b : beq a b = true <-> a = b.
Proof. unfold beq. by rewrite bool_decide_eq_true. Qed.

Lemma nodup_map_eq {A B} (f : A -> B) l x y :
  NoDup (map f l) -> x ∈ l -> y ∈ l -> f x = f y -> x = y.
Proof.
  induction l as [|z l IH]; [by intros _ ?%elem_of_nil|]. cbn. rewrite NoDup_cons, !elem_of_cons.
  intros [Hz Hnd] Hx Hy E.
  assert (Hf : forall w, w ∈ l -> f w ∈ map f l) by (intros w Hw; apply list_elem_of_In, in_map; by apply list_elem_of_In).
  destruct Hx as [->|Hx], Hy as [->|Hy]; [done| | |by apply IH].
  - exfalso. apply Hz. rewrite E. by apply Hf.
  - exfalso. apply Hz. rewrite <- E. by apply Hf.
Qed.

(** ** Big-endian integers *)

Section BigEndian.
Local Open Scope Z_scope.

(** [n] bytes of [z], most significant first. *)
Fixpoint be (n : nat) (z : Z) : list Z :=
  match n with
  | O => []
  | S n' => (z / 256 ^ Z.of_nat n') mod 256 :: be n' z
  end.

Definition be_value (bs : list Z) : Z := fold_left (fun n b => 256 * n + b) bs 0.

Lemma be_length n z : length (be n z) = n.
Proof. induction n; cbn [be length]; congruence. Qed.

Lemma be_ok n z : bytes_ok (be n z).
Proof. induction n; cbn [be]; constructor; [|done]. apply Z.mod_pos_bound. lia. Qed.

Lemma fold_be n z : forall acc,
  fold_left (fun n b => 256 * n + b) (be n z) acc = acc * 256 ^ Z.of_nat n + z mod 256 ^ Z.of_nat n.
Proof.
  induction n as [|n IH]; intros acc; cbn [be fold_left].
  - change (256 ^ Z.of_nat 0) with 1. rewrite Z.mod_1_r. lia.
  - rewrite IH, Nat2Z.inj_succ, Z.pow_succ_r by lia.
    rewrite (Z.mul_comm 256 (256 ^ _)), Z.rem_mul_r by lia. lia.
Qed.

Lemma be_value_be n z : 0 <= z < 256 ^ Z.of_nat n -> be_value (be n z) = z.
Proof. intros H. unfold be_value. rewrite fold_be, Z.mod_small by done. lia. Qed.
End BigEndian.

(** ** Reachability *)

(** States reachable from [init] by [step]. *)
Inductive reachable {S : Type} (init : S -> Prop) (step : S -> S -> Prop) : S -> Prop :=
  | reach_init s : init s -> reachable init step s
  | reach_step s s' : reachable init step s -> step s s' -> reachable init step s'.

(** An inductive invariant holds in every reachable state. *)
Lemma reachable_inv {S} (init : S -> Prop) (step : S -> S -> Prop) (I : S -> Prop) :
  (forall s, init s -> I s) ->
  (forall s s', I s -> step s s' -> I s') ->
  forall s, reachable init step s -> I s.
Proof. intros Hi Hs s H. induction H; eauto. Qed.

(** Running a list of operations from a state. *)
Definition run_ops {S O : Type} (f : S -> O -> S) (s : S) (os : list O) : S :=
  fold_left f os s.

Lemma run_ops_inv {S O} (f : S -> O -> S) (I : S -> Prop) :
  (forall s o, I s -> I (f s o)) ->
  forall os s, I s -> I (run_ops f s os).
Proof. intros H os. induction os; intros s Hs; simpl; auto. Qed.
