(* ===== verification/GoTime.v ===== *)
(** Go's [time.Time] and [time.Duration], as far as the sources use them.

    An instant is a [Z]: nanoseconds since Go's zero time (January 1, year 1,
    UTC), so that [IsZero] is equality with 0.  A duration is a [Z] in
    nanoseconds that fits an int64; [time_sub] saturates as [Time.Sub] does, which
    is what makes "long after the zero time" come out as the largest
    duration.  The monotonic clock reading of a [Time] is not modelled: one
    clock gives both. *)

From S2P Require Import Prelude.

Open Scope Z_scope.

Definition zero_time : Z := 0.
Definition is_zero (t : Z) : bool := t =? zero_time.

Definition nanosecond : Z := 1.
Definition millisecond : Z := 1000000.
Definition second : Z := 1000000000.
Definition minute : Z := 60 * second.
Definition hour : Z := 60 * minute.

(** [t.Sub(u)] *)
Definition time_sub (t u : Z) : Z := Z.max min_int64 (Z.min max_int64 (t - u)).

(** [t.Add(d)] *)
Definition time_add (t d : Z) : Z := t + d.

(** [t.Before(u)] and [t.After(u)] *)
Definition time_before (t u : Z) : bool := t <? u.
Definition time_after (t u : Z) : bool := u <? t.

(** A wall-clock instant the process can see: after the zero time and within
    the range [Time.Sub] measures from another one (292 years). *)
Definition duration_ok (d : Z) : Prop := min_int64 <= d <= max_int64.

Lemma time_sub_exact t u : duration_ok (t - u) -> time_sub t u = t - u.
Proof. unfold duration_ok, time_sub. lia. Qed.

Lemma time_sub_range t u : duration_ok (time_sub t u).
Proof. unfold duration_ok, time_sub, min_int64, max_int64, two63. lia. Qed.

(** Comparing a saturated difference with a duration is comparing the exact
    difference with it, except at the upper limit. *)
Lemma time_sub_ge_iff t u d : min_int64 < d <= max_int64 -> d <= time_sub t u <-> d <= t - u.
Proof. unfold time_sub. lia. Qed.

Lemma time_sub_lt_iff t u d : min_int64 < d <= max_int64 -> time_sub t u < d <-> t - u < d.
Proof. unfold time_sub. lia. Qed.

Lemma time_sub_same t : time_sub t t = 0.
Proof. unfold time_sub, min_int64, max_int64, two63. lia. Qed.
