(* ===== verification/Netip.v ===== *)
(** Go's [net/netip] addresses, as far as the sources use them.

    An [Addr] is the zero (invalid) address, an IPv4 address (a 32-bit [Z]) or
    an IPv6 address (a 128-bit [Z] and a zone).  [AddrPort] adds a 16-bit
    port.  The classification predicates follow the Go implementation, the
    handling of IPv4-mapped IPv6 addresses included. *)

From S2P Require Import Prelude.

Open Scope Z_scope.

Create Rewrite HintDb sbc_netip.

Inductive Addr :=
  | AddrZero
  | V4 (a : Z)
  | V6 (a : Z) (zone : list Z).

#[export] Instance Addr_eq_dec : EqDecision Addr.
Proof. solve_decision. Defined.

Definition addr_encode (a : Addr) : option (Z + Z * list Z) :=
  match a with
  | AddrZero => None
  | V4 n => Some (inl n)
  | V6 n z => Some (inr (n, z))
  end.

Definition addr_decode (c : option (Z + Z * list Z)) : Addr :=
  match c with
  | None => AddrZero
  | Some (inl n) => V4 n
  | Some (inr (n, z)) => V6 n z
  end.

#[export] Instance Addr_countable : Countable Addr.
Proof. apply (inj_countable' addr_encode addr_decode). by intros []. Defined.

Record AddrPort := mkAddrPort { ap_addr : Addr; ap_port : Z }.

#[export] Instance AddrPort_eq_dec : EqDecision AddrPort.
Proof. solve_decision. Defined.

#[export] Instance AddrPort_countable : Countable AddrPort.
Proof.
  apply (inj_countable' (fun p => (ap_addr p, ap_port p)) (fun q => mkAddrPort q.1 q.2)).
  by intros [].
Defined.

(** The zero [AddrPort]. *)
Definition ap_zero : AddrPort := mkAddrPort AddrZero 0.

Definition addr_eqb (a b : Addr) : bool := bool_decide (a = b).

Definition is_valid (a : Addr) : bool := match a with AddrZero => false | _ => true end.
Definition ap_valid (p : AddrPort) : bool := is_valid (ap_addr p).

Definition is4 (a : Addr) : bool := match a with V4 _ => true | _ => false end.
Definition is6 (a : Addr) : bool := match a with V6 _ _ => true | _ => false end.

(** [Is4In6]: the high 64 bits are 0 and the next 32 are 0x0000ffff. *)
Definition is4in6 (a : Addr) : bool :=
  match a with V6 n _ => Z.shiftr n 32 =? 65535 | _ => false end.

Definition low32 (n : Z) : Z := n mod 2 ^ 32.

(** [Unmap]: an IPv4-mapped IPv6 address becomes the IPv4 one, zone dropped. *)
Definition unmap (a : Addr) : Addr :=
  match a with
  | V6 n z => if is4in6 a then V4 (low32 n) else a
  | _ => a
  end.

(** [WithZone]: no effect on an IPv4 address. *)
Definition with_zone (a : Addr) (z : list Z) : Addr :=
  match a with V6 n _ => V6 n z | _ => a end.

(** [PrefixFrom(a, 64).Masked().Addr()] of an IPv6 address; a prefix carries
    no zone. *)
Definition mask64 (a : Addr) : Addr :=
  match a with V6 n _ => V6 (Z.shiftl (Z.shiftr n 64) 64) [] | _ => a end.

(** Byte [i] (0 = most significant) of an IPv4 address. *)
Definition v4byte (n i : Z) : Z := Z.shiftr n (8 * (3 - i)) mod 256.

(** 16-bit group [i] of an IPv6 address. *)
Definition v6u16 (n i : Z) : Z := Z.shiftr n (16 * (7 - i)) mod 65536.

Definition is_loopback (a : Addr) : bool :=
  match unmap a with
  | V4 n => v4byte n 0 =? 127
  | V6 n _ => n =? 1
  | AddrZero => false
  end.

Definition is_private (a : Addr) : bool :=
  match unmap a with
  | V4 n => (v4byte n 0 =? 10)
      || ((v4byte n 0 =? 172) && (Z.land (v4byte n 1) 240 =? 16))
      || ((v4byte n 0 =? 192) && (v4byte n 1 =? 168))
  | V6 n _ => Z.land (v6u16 n 0) 65024 =? 64512
  | AddrZero => false
  end.

Definition is_unspecified (a : Addr) : bool := bool_decide (a = V4 0 \/ a = V6 0 []).

Definition is_multicast (a : Addr) : bool :=
  match unmap a with
  | V4 n => Z.land (v4byte n 0) 240 =? 224
  | V6 n _ => Z.shiftr (v6u16 n 0) 8 =? 255
  | AddrZero => false
  end.

Definition is_link_local_unicast (a : Addr) : bool :=
  match unmap a with
  | V4 n => (v4byte n 0 =? 169) && (v4byte n 1 =? 254)
  | V6 n _ => Z.land (v6u16 n 0) 65472 =? 65152
  | AddrZero => false
  end.

Definition is_link_local_multicast (a : Addr) : bool :=
  match unmap a with
  | V4 n => (v4byte n 0 =? 224) && (v4byte n 1 =? 0) && (v4byte n 2 =? 0)
  | V6 n _ => Z.land (v6u16 n 0) 65295 =? 65282
  | AddrZero => false
  end.

Definition is_interface_local_multicast (a : Addr) : bool :=
  match unmap a with
  | V6 n _ => Z.land (v6u16 n 0) 65295 =? 65281
  | _ => false
  end.

(** [Prefix.Contains] for an IPv4 prefix; a 4in6 address is in no IPv4 prefix. *)
Definition v4prefix_contains (base bits : Z) (a : Addr) : bool :=
  match a with
  | V4 n => Z.shiftr n (32 - bits) =? Z.shiftr base (32 - bits)
  | _ => false
  end.

(** Dotted IPv4. *)
Definition ip4 (a b c d : Z) : Addr := V4 (a * 2 ^ 24 + b * 2 ^ 16 + c * 2 ^ 8 + d).

(** A representable address. *)
Definition addr_ok (a : Addr) : Prop :=
  match a with
  | AddrZero => True
  | V4 n => 0 <= n < 2 ^ 32
  | V6 n _ => 0 <= n < 2 ^ 128
  end.

Definition port_ok (p : Z) : Prop := 0 <= p < 65536.

Lemma is4in6_V4 n : is4in6 (V4 n) = false.
Proof. reflexivity. Qed.

Lemma unmap_V6 n z : unmap (V6 n z) = if is4in6 (V6 n z) then V4 (low32 n) else V6 n z.
Proof. reflexivity. Qed.

(** The zone plays no part in being IPv4-mapped. *)
Lemma is4in6_zone n z z' : is4in6 (V6 n z) = is4in6 (V6 n z').
Proof. reflexivity. Qed.

#[global] Arguments is4in6 : simpl never.
#[global] Arguments unmap : simpl never.
#[global] Arguments low32 : simpl never.

Lemma is4in6_unmap a : is4in6 (unmap a) = false.
Proof.
  destruct a as [|n|n z]; [done..|]. rewrite unmap_V6.
  by destruct (is4in6 (V6 n z)) eqn:E.
Qed.

(** A result of [unmap] is never an IPv4-mapped address, so unmapping again
    changes nothing. *)
Lemma unmap_fix a : is4in6 a = false -> unmap a = a.
Proof. destruct a as [|n|n z]; [done..|]. intros E. by rewrite unmap_V6, E. Qed.

Lemma unmap_idem a : unmap (unmap a) = unmap a.
Proof. apply unmap_fix, is4in6_unmap. Qed.

Lemma unmap_valid a : is_valid (unmap a) = is_valid a.
Proof. destruct a as [|n|n z]; [done..|]. rewrite unmap_V6. by case_if. Qed.

Lemma with_zone_unmap a : unmap (with_zone (unmap a) []) = with_zone (unmap a) [].
Proof.
  pose proof (is4in6_unmap a) as H.
  apply unmap_fix. by destruct (unmap a).
Qed.

Lemma is_loopback_unmap a : is_loopback (unmap a) = is_loopback a.
Proof. unfold is_loopback. by rewrite unmap_idem. Qed.

#[export] Hint Rewrite unmap_idem unmap_valid with_zone_unmap is_loopback_unmap : sbc_netip.
