(* ===== verification/Lru.v ===== *)
(** The bounded "least recently used" table of [container/list] plus a map.

    Four tables of the sources keep a [map[K]*list.Element] next to a
    [*list.List] whose front is the most recently used element: the shield's
    rate limiter, offender table and AoR table, and the edge's REGISTER
    enumeration limiter.  An element's value is reached from both, so a table
    is a map from the key to the (current) value plus the order of the keys;
    the value's own [key] field is the key it is stored under.  [wf] says map
    and list hold the same keys. *)

From S2P Require Import Prelude.

Open Scope Z_scope.

Section Lru.
Context {K V : Type} `{Countable K}.

Record Lru := mkLru {
  entries : gmap K V;
  order : list K   (* front = most recently used *)
}.

Definition lru_empty : Lru := mkLru ∅ [].

(** [l.Len()] *)
Definition lru_len (l : Lru) : Z := len (order l).

Definition lru_get (k : K) (l : Lru) : option V := entries l !! k.

Definition without (k : K) (o : list K) : list K := filter (.≠ k) o.

(** [l.MoveToFront(e)] *)
Definition move_to_front (k : K) (l : Lru) : Lru :=
  mkLru (entries l) (k :: without k (order l)).

(** [m[k] = l.PushFront(v)] *)
Definition push_front (k : K) (v : V) (l : Lru) : Lru :=
  mkLru (<[k := v]> (entries l)) (k :: order l).

(** [l.Back()] *)
Definition back (l : Lru) : option K := list.last (order l).

(** [delete(m, k); l.Remove(e)] *)
Definition remove (k : K) (l : Lru) : Lru :=
  mkLru (delete k (entries l)) (without k (order l)).

(** A write through the element: the value changes, its position does not. *)
Definition set_value (k : K) (v : V) (l : Lru) : Lru :=
  mkLru (<[k := v]> (entries l)) (order l).

(** Find [k] and make it the most recent, or make room (dropping [victim])
    when the table holds [cap] entries and add [fresh] in front.  The result
    is the entry and whether it was there before. *)
Definition enter (victim : Lru -> option K) (cap : Z) (k : K) (fresh : V) (l : Lru)
  : V * bool * Lru :=
  match lru_get k l with
  | Some v => (v, true, move_to_front k l)
  | None =>
      let l1 := if cap <=? lru_len l
                then match victim l with Some o => remove o l | None => l end
                else l in
      (fresh, false, push_front k fresh l1)
  end.

(** One pass over [ks] dropping the expired entries. *)
Fixpoint sweep_keys (expired : V -> bool) (ks : list K) (l : Lru) : Lru :=
  match ks with
  | [] => l
  | k :: ks' =>
      let l1 := match lru_get k l with
                | Some v => if expired v then remove k l else l
                | None => l
                end in
      sweep_keys expired ks' l1
  end.

Record wf (l : Lru) : Prop := {
  wf_nodup : NoDup (order l);
  wf_keys : forall k, k ∈ order l <-> is_Some (entries l !! k)
}.

(** A victim chooser is sound when it names an entry of the table whenever the
    table is not empty. *)
Definition sound_victim (victim : Lru -> option K) : Prop :=
  forall l, wf l -> order l <> [] -> exists k, victim l = Some k /\ k ∈ order l.

Lemma elem_of_without k x o : x ∈ without k o <-> x ∈ o /\ x <> k.
Proof. unfold without. rewrite list_elem_of_filter. tauto. Qed.

Lemma without_nodup k o : NoDup o -> NoDup (without k o).
Proof. apply NoDup_filter. Qed.

Lemma without_notin k o : k ∉ o -> without k o = o.
Proof.
  unfold without. induction o as [|x o IH]; [done|].
  intros Hk. apply not_elem_of_cons in Hk as [Hx Ho].
  rewrite filter_cons_True by congruence. by rewrite IH.
Qed.

Lemma without_length k o : NoDup o -> k ∈ o -> length o = S (length (without k o)).
Proof.
  unfold without. induction o as [|x o IH]; intros Hnd Hin; [by inversion Hin|].
  apply NoDup_cons in Hnd as [Hx Hnd].
  destruct (decide (x = k)) as [->|Hne].
  - rewrite filter_cons_False by tauto.
    fold (without k o). by rewrite without_notin.
  - rewrite filter_cons_True by done. simpl. f_equal. apply IH; [done|].
    apply elem_of_cons in Hin as [->|]; done.
Qed.

Lemma wf_empty : wf lru_empty.
Proof.
  split; simpl; [constructor|]. intros k. rewrite lookup_empty.
  split; [by inversion 1|by intros [? ?]].
Qed.

Lemma wf_move_to_front k l : wf l -> is_Some (entries l !! k) -> wf (move_to_front k l).
Proof.
  intros [Hnd Hk] Hin. split; simpl.
  - apply NoDup_cons. split; [rewrite elem_of_without; tauto|by apply without_nodup].
  - intros x. rewrite elem_of_cons, elem_of_without, Hk.
    destruct (decide (x = k)) as [->|]; naive_solver.
Qed.

Lemma wf_remove k l : wf l -> wf (remove k l).
Proof.
  intros [Hnd Hk]. split; simpl; [by apply without_nodup|].
  intros x. rewrite elem_of_without, Hk.
  destruct (decide (x = k)) as [->|Hne].
  - rewrite lookup_delete_eq. split; [tauto|by intros [? ?]].
  - rewrite lookup_delete_ne by done. tauto.
Qed.

Lemma wf_push_front k v l : wf l -> entries l !! k = None -> wf (push_front k v l).
Proof.
  intros [Hnd Hk] Hnone. split; simpl.
  - apply NoDup_cons. split; [|done]. rewrite Hk, Hnone. by intros [? ?].
  - intros x. rewrite elem_of_cons, Hk.
    destruct (decide (x = k)) as [->|].
    + rewrite lookup_insert_eq. naive_solver.
    + rewrite lookup_insert_ne by done. naive_solver.
Qed.

Lemma wf_set_value k v l : wf l -> is_Some (entries l !! k) -> wf (set_value k v l).
Proof.
  intros [Hnd Hk] Hin. split; simpl; [done|]. intros x. rewrite Hk.
  destruct (decide (x = k)) as [->|].
  - rewrite lookup_insert_eq. naive_solver.
  - by rewrite lookup_insert_ne.
Qed.

Lemma wf_size l : wf l -> lru_len l = Z.of_nat (size (entries l)).
Proof.
  intros [Hnd Hk]. unfold lru_len, len. f_equal.
  rewrite <- size_dom.
  assert (dom (entries l) = list_to_set (order l)) as ->.
  { apply set_eq. intros x. rewrite elem_of_dom, elem_of_list_to_set. symmetry. apply Hk. }
  by rewrite size_list_to_set.
Qed.

Lemma remove_len k l : wf l -> is_Some (entries l !! k) -> lru_len (remove k l) = lru_len l - 1.
Proof.
  intros [Hnd Hk] Hin. apply Hk in Hin.
  unfold lru_len, len. simpl. rewrite (without_length k (order l)) by done. lia.
Qed.

Lemma remove_len_le k l : lru_len (remove k l) <= lru_len l.
Proof.
  unfold lru_len, len. simpl. unfold without.
  pose proof (length_filter (.≠ k) (order l)). lia.
Qed.

Lemma move_to_front_len k l :
  wf l -> is_Some (entries l !! k) -> lru_len (move_to_front k l) = lru_len l.
Proof.
  intros [Hnd Hk] Hin. apply Hk in Hin. unfold lru_len, len. simpl.
  rewrite (without_length k (order l)) by done. lia.
Qed.

Lemma push_front_len k v l : lru_len (push_front k v l) = lru_len l + 1.
Proof. unfold lru_len, len, push_front. cbn [order length]. lia. Qed.

Lemma back_sound : sound_victim back.
Proof.
  intros l _ Hne. unfold back. destruct (list.last (order l)) as [k|] eqn:E.
  - exists k. split; [done|]. by apply last_Some_elem_of.
  - by apply last_None in E.
Qed.

(** [enter] keeps the table well formed and within its cap. *)
Lemma enter_spec victim cap k fresh l v found l' :
  sound_victim victim -> 1 <= cap -> wf l -> lru_len l <= cap ->
  enter victim cap k fresh l = (v, found, l') ->
  wf l' /\ lru_len l' <= cap /\ entries l' !! k = Some v /\
  list.head (order l') = Some k /\
  (found = true -> entries l !! k = Some v) /\
  (found = false -> entries l !! k = None /\ v = fresh).
Proof.
  intros Hs Hcap Hwf Hlen. unfold enter, lru_get.
  destruct (entries l !! k) as [w|] eqn:Ek; intros [= <- <- <-].
  - split; [apply wf_move_to_front; [done|by eexists]|].
    split; [rewrite move_to_front_len; [done..|by eexists]|].
    repeat split; done.
  - set (l1 := if cap <=? lru_len l then _ else _).
    assert (wf l1 /\ entries l1 !! k = None /\ lru_len l1 <= cap - 1) as (Hw1 & He1 & Hl1).
    { unfold l1. destruct (cap <=? lru_len l) eqn:Hc.
      - destruct (Hs l Hwf) as (o & -> & Ho).
        { intros E. assert (lru_len l = 0) by (unfold lru_len, len; by rewrite E). lia. }
        split; [by apply wf_remove|]. split.
        + simpl. by rewrite lookup_delete_None; right.
        + rewrite remove_len; [lia|done|]. by apply wf_keys.
      - split; [done|]. split; [done|]. lia. }
    split; [by apply wf_push_front|].
    rewrite push_front_len. simpl. rewrite lookup_insert_eq.
    simpl in *. split; [lia|]. naive_solver.
Qed.

(** Adding an entry leaves every other entry's value alone or drops it. *)
Lemma enter_other victim cap k fresh l v found l' x :
  enter victim cap k fresh l = (v, found, l') -> x <> k ->
  entries l' !! x = entries l !! x \/
  (found = false /\ cap <= lru_len l /\ victim l = Some x /\ entries l' !! x = None).
Proof.
  unfold enter, lru_get.
  destruct (entries l !! k) as [w|] eqn:Ek; intros [= <- <- <-] Hne; [by left|].
  simpl. rewrite lookup_insert_ne by done.
  destruct (cap <=? lru_len l) eqn:Hc; [|by left].
  destruct (victim l) as [o|]; [|by left]. simpl.
  destruct (decide (o = x)) as [->|].
  - right. rewrite lookup_delete_eq. repeat split; [lia|done..].
  - left. by rewrite lookup_delete_ne.
Qed.

(** While every key fits, entering evicts nothing. *)
Lemma enter_fits victim cap k fresh l :
  wf l -> Z.of_nat (size (dom (entries l) ∪ {[ k ]})) <= cap ->
  enter victim cap k fresh l =
  match entries l !! k with
  | Some v => (v, true, move_to_front k l)
  | None => (fresh, false, push_front k fresh l)
  end.
Proof.
  intros Hwf Hfit. unfold enter, lru_get. destruct (entries l !! k) eqn:E; [done|].
  rewrite (wf_size l Hwf), <- (size_dom (D:=gset K)).
  rewrite size_union, size_singleton in Hfit.
  - replace (cap <=? _) with false by lia. done.
  - apply disjoint_singleton_r. by apply not_elem_of_dom.
Qed.

Lemma sweep_keys_wf expired ks : forall l, wf l -> wf (sweep_keys expired ks l).
Proof.
  induction ks as [|k ks IH]; intros l Hl; simpl; [done|]. apply IH.
  destruct (lru_get k l) as [v|]; [|done]. case_if; [by apply wf_remove|done].
Qed.

Lemma sweep_keys_len expired ks : forall l, lru_len (sweep_keys expired ks l) <= lru_len l.
Proof.
  induction ks as [|k ks IH]; intros l; simpl; [lia|].
  etrans; [apply IH|]. destruct (lru_get k l) as [v|]; [|lia].
  case_if; [apply remove_len_le|lia].
Qed.

(** What a pass over [ks] leaves: an entry goes when it is expired and its key
    is among [ks]. *)
Lemma sweep_keys_lookup expired ks : forall l x,
  entries (sweep_keys expired ks l) !! x =
  match entries l !! x with
  | Some v => if expired v && bool_decide (x ∈ ks) then None else Some v
  | None => None
  end.
Proof.
  induction ks as [|k ks IH]; intros l x; cbn [sweep_keys].
  - destruct (entries l !! x) as [v|]; [|done].
    rewrite (bool_decide_eq_false_2 (x ∈ [])) by (by inversion 1). by rewrite andb_false_r.
  - rewrite IH. clear IH. unfold lru_get.
    assert (Hother : x <> k -> bool_decide (x ∈ k :: ks) = bool_decide (x ∈ ks)).
    { intros Hne. apply bool_decide_ext. set_solver. }
    destruct (decide (x = k)) as [->|Hne].
    + destruct (entries l !! k) as [w|] eqn:Ek; [|by rewrite Ek].
      rewrite (bool_decide_eq_true_2 (k ∈ k :: ks)) by set_solver.
      destruct (expired w) eqn:Ew; simpl.
      * by rewrite lookup_delete_eq.
      * by rewrite Ek, Ew.
    + rewrite Hother by done.
      destruct (entries l !! k) as [w|]; [|done].
      case_if; simpl; [by rewrite lookup_delete_ne|done].
Qed.

(** A pass that visits every key drops exactly the expired entries. *)
Lemma sweep_all expired ks l x :
  (forall k, is_Some (entries l !! k) -> k ∈ ks) ->
  entries (sweep_keys expired ks l) !! x =
  match entries l !! x with
  | Some v => if expired v then None else Some v
  | None => None
  end.
Proof.
  intros Hall. rewrite sweep_keys_lookup.
  destruct (entries l !! x) as [v|] eqn:Ex; [|done].
  rewrite (bool_decide_eq_true_2 (x ∈ ks)) by (apply Hall; by eexists).
  by rewrite andb_true_r.
Qed.

(** The keys of the map, in the (unspecified) order of a Go [range] over it. *)
Definition range_keys (l : Lru) : list K := (map_to_list (entries l)).*1.

Lemma range_keys_all l k : is_Some (entries l !! k) -> k ∈ range_keys l.
Proof.
  intros [v Hv]. unfold range_keys. apply list_elem_of_fmap.
  exists (k, v). split; [done|]. by apply elem_of_map_to_list.
Qed.

End Lru.

Arguments Lru K V {_ _}.
Arguments mkLru {K V _ _}.
Arguments wf {K V _ _} l.

#[export] Hint Resolve wf_empty wf_remove sweep_keys_wf back_sound : sbc.
