(* ===== verification/Float64.v ===== *)
(** Go's [float64], as the rate limiter uses it: IEEE 754 binary64 through the
    Standard Library's executable specification ([SpecFloat], round to nearest
    even), so token counts are the very numbers the code computes. *)

From Corelib Require Import SpecFloat.
From S2P Require Import Prelude GoTime.

Open Scope Z_scope.

Definition prec : Z := 53.
Definition emax : Z := 1024.

Definition float64 : Type := spec_float.

Definition fadd : float64 -> float64 -> float64 := SFadd prec emax.
Definition fsub : float64 -> float64 -> float64 := SFsub prec emax.
Definition fmul : float64 -> float64 -> float64 := SFmul prec emax.
Definition fdiv : float64 -> float64 -> float64 := SFdiv prec emax.
Definition fleb : float64 -> float64 -> bool := SFleb.
Definition fltb : float64 -> float64 -> bool := SFltb.

(** [float64(n)] for an integer *)
Definition of_int (n : Z) : float64 := binary_normalize prec emax n 0 false.

Definition fone : float64 := of_int 1.

Definition is_nan (x : float64) : bool := match x with S754_nan => true | _ => false end.

(** [math.Min] *)
Definition fmin (x y : float64) : float64 :=
  match x, y with
  | S754_infinity true, _ | _, S754_infinity true => S754_infinity true
  | S754_nan, _ | _, S754_nan => S754_nan
  | S754_zero sx, S754_zero sy => if sx then x else y
  | _, _ => if fltb x y then x else y
  end.

(** [Duration.Seconds]: whole seconds plus the fraction, each converted on its
    own. *)
Definition seconds (d : Z) : float64 :=
  fadd (of_int (Z.quot d second)) (fdiv (of_int (Z.rem d second)) (of_int 1000000000)).

(** ** Small integers are exact *)

Lemma iter_pos_nat {A} (f : A -> A) n x : SpecFloat.iter_pos f n x = Nat.iter (Pos.to_nat n) f x.
Proof.
  revert x. induction n as [n IH|n IH|]; intros x; cbn [SpecFloat.iter_pos]; [..|done].
  - rewrite !IH, Pos2Nat.inj_xI, Nat.iter_succ_r, <- Nat.iter_add. f_equal. lia.
  - rewrite !IH, Pos2Nat.inj_xO, <- Nat.iter_add. f_equal. lia.
Qed.

Lemma shr_1_double m : 0 <= m ->
  shr_1 (Build_shr_record (2 * m) false false) = Build_shr_record m false false.
Proof. by destruct m. Qed.

Lemma shr_exact n m : 0 <= m ->
  SpecFloat.iter_pos shr_1 n (Build_shr_record (m * 2 ^ Z.pos n) false false)
  = Build_shr_record m false false.
Proof.
  intros Hm. rewrite iter_pos_nat, <- (positive_nat_Z n).
  induction (Pos.to_nat n) as [|k IH].
  - simpl. by rewrite Z.mul_1_r.
  - rewrite Nat.iter_succ_r.
    replace (m * 2 ^ Z.of_nat (S k)) with (2 * (m * 2 ^ Z.of_nat k)).
    + rewrite shr_1_double; [done|]. apply Z.mul_nonneg_nonneg; [done|]. by apply Z.pow_nonneg.
    + rewrite Nat2Z.inj_succ, Z.pow_succ_r by lia. ring.
Qed.

Lemma digits_log2 p : Z.pos (digits2_pos p) = Z.log2 (Z.pos p) + 1.
Proof.
  induction p as [p IH|p IH|]; cbn [digits2_pos]; [..|done].
  - rewrite Pos2Z.inj_succ, IH, (Pos2Z.inj_xI p), Z.log2_succ_double by lia. lia.
  - rewrite Pos2Z.inj_succ, IH, (Pos2Z.inj_xO p), Z.log2_double by lia. lia.
Qed.

Lemma pos_iter_xO k p : Z.pos (Pos.iter xO p k) = Z.pos p * 2 ^ Z.pos k.
Proof.
  induction k as [|k IH] using Pos.peano_ind; [cbn; lia|].
  rewrite Pos.iter_succ, Pos2Z.inj_succ, Z.pow_succ_r by lia.
  rewrite Pos2Z.inj_xO, IH. ring.
Qed.

(** The canonical representation of a positive integer below 2^53. *)
Lemma shl_align_spec p e e' : e' <= e ->
  exists q, shl_align p e e' = (q, e') /\ Z.pos q = Z.pos p * 2 ^ (e - e').
Proof.
  intros He. unfold shl_align. destruct (e' - e) as [|d|d] eqn:E; [| |].
  - exists p. replace e' with e by lia. rewrite Z.sub_diag. split; [done|lia].
  - lia.
  - exists (Pos.iter xO p d). split; [done|]. rewrite pos_iter_xO. do 2 f_equal. lia.
Qed.

(** Rounding a mantissa of [k] surplus zero bits. *)
Lemma round_aux_exact q m e k :
  Z.pos q = m * 2 ^ k -> 0 <= k -> 0 < m < 2 ^ 53 -> Z.log2 m = 52 -> -1074 <= e + k <= 0 ->
  exists q', binary_round_aux prec emax false (Z.pos q) e loc_Exact
             = S754_finite false q' (e + k) /\ Z.pos q' = m.
Proof.
  intros Hq Hk Hm Hlog He.
  assert (Hd : Z.pos (digits2_pos q) = 53 + k).
  { rewrite digits_log2, Hq, Z.log2_mul_pow2 by lia. lia. }
  assert (Hfe : fexp prec emax (53 + k + e) = e + k).
  { unfold fexp, emin, prec, emax. lia. }
  assert (Hshr : shr_fexp prec emax (Z.pos q) e loc_Exact = (Build_shr_record m false false, e + k)).
  { unfold shr_fexp. cbn [Zdigits2 shr_record_of_loc]. rewrite Hd, Hfe.
    replace (e + k - e) with k by lia. unfold shr.
    destruct k as [|k|k]; [| |lia].
    - rewrite Hq. repeat f_equal; lia.
    - rewrite Hq. rewrite shr_exact by lia. done. }
  unfold binary_round_aux. rewrite Hshr. cbn [shr_m loc_of_shr_record round_nearest_even].
  destruct m as [|q'|]; [lia| |lia]. exists q'.
  assert (Hfe2 : fexp prec emax (Z.pos (digits2_pos q') + (e + k)) = e + k).
  { rewrite digits_log2, Hlog. unfold fexp, emin, prec, emax. lia. }
  unfold shr_fexp. cbn [Zdigits2 shr_record_of_loc]. rewrite Hfe2, Z.sub_diag. cbn [shr shr_m].
  replace (e + k <=? emax - prec) with true by (unfold emax, prec; lia). done.
Qed.

Definition small_int (n : Z) : Prop := 0 < n < 2 ^ 53.

Lemma small_int_log n : small_int n -> 0 <= Z.log2 n <= 52.
Proof.
  intros [H1 H2]. split; [apply Z.log2_nonneg|].
  apply Z.log2_lt_pow2 in H2; lia.
Qed.

Lemma small_int_scaled n : small_int n ->
  0 < n * 2 ^ (52 - Z.log2 n) < 2 ^ 53 /\ Z.log2 (n * 2 ^ (52 - Z.log2 n)) = 52.
Proof.
  intros Hn. pose proof (small_int_log n Hn) as Hl. destruct Hn as [Hn _].
  assert (Hlog : Z.log2 (n * 2 ^ (52 - Z.log2 n)) = 52).
  { rewrite Z.log2_mul_pow2 by lia. lia. }
  assert (0 < n * 2 ^ (52 - Z.log2 n)) by (apply Z.mul_pos_pos; [lia|apply Z.pow_pos_nonneg; lia]).
  split; [|done]. split; [done|]. apply Z.log2_lt_pow2; lia.
Qed.

Lemma of_int_canon n : small_int n ->
  exists q, of_int n = S754_finite false q (Z.log2 n - 52) /\
            Z.pos q = n * 2 ^ (52 - Z.log2 n).
Proof.
  intros Hn. pose proof (small_int_log n Hn) as Hl.
  pose proof (small_int_scaled n Hn) as [Hb Hlog].
  unfold of_int. destruct n as [|p|p]; [destruct Hn; lia| |destruct Hn; lia].
  cbn [binary_normalize]. unfold binary_round.
  assert (Hf : fexp prec emax (Z.pos (digits2_pos p) + 0) = Z.log2 (Z.pos p) - 52).
  { rewrite digits_log2. unfold fexp, emin, prec, emax. lia. }
  rewrite Hf.
  destruct (shl_align_spec p 0 (Z.log2 (Z.pos p) - 52)) as (q & -> & Hq); [lia|].
  replace (0 - (Z.log2 (Z.pos p) - 52)) with (52 - Z.log2 (Z.pos p)) in Hq by lia.
  rewrite <- Hq in Hb, Hlog.
  destruct (round_aux_exact q (Z.pos q) (Z.log2 (Z.pos p) - 52) 0) as (q' & -> & Hq'); try lia.
  exists q'. split; [f_equal; lia|]. lia.
Qed.

Lemma fone_canon : fone = S754_finite false 4503599627370496 (-52).
Proof. vm_compute. reflexivity. Qed.

(** [x - 1] on an integral token count is exact. *)
Lemma of_int_pred n : small_int n -> fsub (of_int n) fone = of_int (n - 1).
Proof.
  intros Hn. destruct (of_int_canon n Hn) as (q & -> & Hq). rewrite fone_canon.
  pose proof (small_int_log n Hn) as Hl.
  unfold fsub, SFsub. replace (Z.min (Z.log2 n - 52) (-52)) with (-52) by lia.
  destruct (shl_align_spec q (Z.log2 n - 52) (-52)) as (q1 & -> & Hq1); [lia|].
  change (shl_align 4503599627370496 (-52) (-52)) with (4503599627370496%positive, -52).
  cbn [fst cond_Zopp].
  assert (Hv : Z.pos q1 - 4503599627370496 = (n - 1) * 2 ^ 52).
  { rewrite Hq1, Hq, <- Z.mul_assoc, <- Z.pow_add_r by lia.
    replace (52 - Z.log2 n + (Z.log2 n - 52 - -52)) with 52 by lia.
    change 4503599627370496 with (2 ^ 52). ring. }
  rewrite Hv. destruct (decide (n = 1)) as [->|Hne]; [done|].
  assert (Hn' : small_int (n - 1)) by (destruct Hn; split; lia).
  destruct (of_int_canon _ Hn') as (q2 & -> & Hq2).
  pose proof (small_int_log _ Hn') as Hl'. pose proof (small_int_scaled _ Hn') as [Hb Hlog].
  destruct ((n - 1) * 2 ^ 52) as [|r|r] eqn:Er; [destruct Hn'; lia| |destruct Hn'; lia].
  cbn [binary_normalize]. unfold binary_round.
  assert (Hlr : Z.log2 (Z.pos r) = Z.log2 (n - 1) + 52).
  { rewrite <- Er, Z.log2_mul_pow2 by (destruct Hn'; lia). lia. }
  replace (shl_align r (-52) _) with (r, -52).
  2:{ unfold shl_align. rewrite digits_log2, Hlr. unfold fexp, emin, prec, emax.
      rewrite Z.max_l by lia.
      destruct (Z.log2 (n - 1) + 52 + 1 + -52 - 53 - -52) eqn:E; [done|done|lia]. }
  destruct (round_aux_exact r ((n - 1) * 2 ^ (52 - Z.log2 (n - 1))) (-52) (Z.log2 (n - 1)))
    as (q' & -> & Hq'); try lia.
  { rewrite <- Er, <- Z.mul_assoc, <- Z.pow_add_r by lia. do 2 f_equal. lia. }
  f_equal; lia.
Qed.

Lemma of_int_ge_one n : small_int n -> fleb fone (of_int n) = true.
Proof.
  intros Hn. destruct (of_int_canon n Hn) as (q & -> & Hq). rewrite fone_canon.
  pose proof (small_int_log n Hn) as Hl.
  unfold fleb, SFleb, SFcompare.
  destruct (Z.compare_spec (-52) (Z.log2 n - 52)) as [E|E|E]; [|done|lia].
  replace (Z.log2 n) with 0 in Hq by lia. destruct Hn.
  change (Pos.compare_cont Eq 4503599627370496 q) with (Pos.compare 4503599627370496 q).
  destruct (Pos.compare_spec 4503599627370496 q); [reflexivity|reflexivity|].
  exfalso. rewrite Z.sub_0_r in Hq. apply Pos2Z.pos_lt_pos in H1. rewrite Hq in H1.
  change 4503599627370496 with (1 * 2 ^ 52) in H1.
  apply Z.mul_lt_mono_pos_r in H1; lia.
Qed.

Lemma fmin_self n : small_int n \/ n = 0 -> fmin (of_int n) (of_int n) = of_int n.
Proof.
  intros [Hn| ->]; [|done]. destruct (of_int_canon n Hn) as (q & -> & Hq).
  unfold fmin. by case_if.
Qed.

Lemma fltb_irrefl x : fltb x x = false.
Proof.
  destruct x as [[]|[]| |[] m e]; try done; unfold fltb, SFltb, SFcompare;
    rewrite Z.compare_refl;
    change (Pos.compare_cont Eq m m) with (Pos.compare m m);
    by rewrite Pos.compare_refl.
Qed.

(** The capped level never exceeds the cap. *)
Lemma fmin_le n x : small_int n -> is_nan x = false -> fltb (of_int n) (fmin (of_int n) x) = false.
Proof.
  intros Hn Hx. destruct (of_int_canon n Hn) as (q & E & _). rewrite E.
  destruct x as [s|[]| |s m e]; try done.
  all: unfold fmin; case_if; [apply fltb_irrefl|done].
Qed.

(** Adding the refill of no time at all changes nothing. *)
Lemma refill_nothing n rate interval :
  small_int n \/ n = 0 -> small_int rate -> 0 < interval ->
  is_nan (seconds interval) = false ->
  (forall s, seconds interval <> S754_zero s) ->
  (forall s, seconds interval <> S754_infinity s) ->
  fadd (of_int n) (fdiv (fmul (seconds 0) (of_int rate)) (seconds interval)) = of_int n.
Proof.
  intros Hn Hr Hi Hnan Hz Hinf.
  destruct (of_int_canon rate Hr) as (q & -> & _).
  change (seconds 0) with (S754_zero false).
  destruct (seconds interval) as [s|s| |s m e] eqn:E; [by edestruct Hz|by edestruct Hinf|done|].
  unfold fmul, fdiv. cbn [SFmul SFdiv xorb].
  destruct Hn as [Hn| ->].
  - by destruct (of_int_canon n Hn) as (q' & -> & _).
  - cbn. by destruct s.
Qed.

(** The order on small integers is kept. *)
Lemma of_int_not_lt n m : small_int n -> small_int m -> m <= n -> fltb (of_int n) (of_int m) = false.
Proof.
  intros Hn Hm Hle.
  destruct (of_int_canon n Hn) as (q & -> & Hq). destruct (of_int_canon m Hm) as (p & -> & Hp).
  pose proof (Z.log2_le_mono m n Hle) as Hl.
  pose proof (small_int_log n Hn). pose proof (small_int_log m Hm).
  unfold fltb, SFltb, SFcompare.
  destruct (Z.compare_spec (Z.log2 n - 52) (Z.log2 m - 52)) as [E|E|E]; [|lia|done].
  change (Pos.compare_cont Eq q p) with (Pos.compare q p).
  destruct (Pos.compare_spec q p) as [|Hlt|]; [done| |done].
  exfalso. apply Pos2Z.pos_lt_pos in Hlt. rewrite Hq, Hp in Hlt.
  replace (Z.log2 m) with (Z.log2 n) in Hlt by lia.
  apply Z.mul_lt_mono_pos_r in Hlt; [lia|apply Z.pow_pos_nonneg; lia].
Qed.

Lemma fmin_int n m : small_int n -> small_int m \/ m = 0 -> m <= n ->
  fmin (of_int n) (of_int m) = of_int m.
Proof.
  intros Hn [Hm| ->] Hle.
  - pose proof (of_int_not_lt n m Hn Hm Hle) as Hlt.
    destruct (of_int_canon n Hn) as (q & Eq & _). destruct (of_int_canon m Hm) as (p & Ep & _).
    rewrite Eq, Ep in *. unfold fmin. by rewrite Hlt.
  - destruct (of_int_canon n Hn) as (q & -> & _). reflexivity.
Qed.
