(* ===== verification/RateLimit.v ===== *)
(** internal/shield/ratelimit.go: per-source token buckets in an LRU table.

    A [bucket] holds the float64 token count the code holds.  The clock is an
    argument ([now]), as the code's injectable one; the mutex makes every
    operation one step. *)

From S2P Require Import Prelude GoTime Netip Lru Float64.

Open Scope Z_scope.

(** The ceiling on per-source buckets (banCap). *)
Definition bucketCap : Z := 65536.

Record bucket := mkBucket { tokens : float64; last : Z; interval : Z }.

Record rateKey := mkRateKey { rk_src : AddrPort; rk_stream : bool; rk_socket : bool }.

#[export] Instance rateKey_eq_dec : EqDecision rateKey.
Proof. solve_decision. Defined.

#[export] Instance rateKey_countable : Countable rateKey.
Proof.
  apply (inj_countable' (fun k => (rk_src k, rk_stream k, rk_socket k))
           (fun t => mkRateKey t.1.1 t.1.2 t.2)).
  by intros [].
Defined.

Record rateLimiter := mkLimiter {
  buckets : Lru rateKey bucket;
  global : option bucket
}.

Definition newRateLimiter : rateLimiter := mkLimiter lru_empty None.

(** The per-source key: an IPv4 address as is, an IPv6 address by its /64. *)
Definition bucketKey (src : Addr) : Addr :=
  let src := unmap src in
  if is6 src then mask64 (with_zone src []) else src.

(** The level after refilling for the time since the last use. *)
Definition refilled (now : Z) (rate ivl : Z) (b : bucket) : float64 :=
  let elapsed := seconds (time_sub now (last b)) in
  fmin (of_int rate)
       (fadd (tokens b) (fdiv (fmul elapsed (of_int rate)) (seconds ivl))).

(** Refill, then consume one token if there is one. *)
Definition spend (now rate ivl : Z) (b : bucket) : bool * bucket :=
  let t := refilled now rate ivl b in
  if fleb fone t
  then (true, mkBucket (fsub t fone) now ivl)
  else (false, mkBucket t now ivl).

Definition take (now : Z) (key : rateKey) (rate ivl : Z) (perIP : bool) (r : rateLimiter)
  : bool * rateLimiter :=
  if (rate <=? 0) || (ivl <=? 0) then (true, r)
  else
    let fresh := mkBucket (of_int rate) now 0 in
    if perIP then
      let '(b, _, bs) := enter back bucketCap key fresh (buckets r) in
      let '(ok, b') := spend now rate ivl b in
      (ok, mkLimiter (set_value key b' bs) (global r))
    else
      let b := match global r with Some b => b | None => fresh end in
      let '(ok, b') := spend now rate ivl b in
      (ok, mkLimiter (buckets r) (Some b')).

Definition allow (now : Z) (src : Addr) (rate ivl : Z) (perIP : bool) (r : rateLimiter)
  : bool * rateLimiter :=
  take now (mkRateKey (mkAddrPort (bucketKey src) 0) false false) rate ivl perIP r.

(** Idle for at least its own refill interval. *)
Definition bucket_idle (now : Z) (b : bucket) : bool := interval b <=? time_sub now (last b).

(** The walk from the back of the list. *)
Definition prune (now : Z) (r : rateLimiter) : rateLimiter :=
  mkLimiter (sweep_keys (bucket_idle now) (rev (order (buckets r))) (buckets r)) (global r).

(** ** Invariant *)

Definition limiter_wf (r : rateLimiter) : Prop :=
  wf (buckets r) /\ lru_len (buckets r) <= bucketCap.

Lemma newRateLimiter_wf : limiter_wf newRateLimiter.
Proof. split; [apply wf_empty|vm_compute; discriminate]. Qed.

Lemma take_wf now key rate ivl perIP r ok r' :
  limiter_wf r -> take now key rate ivl perIP r = (ok, r') -> limiter_wf r'.
Proof.
  intros [Hwf Hlen]. unfold take. case_if; [by intros [= <- <-]|]. destruct perIP.
  - destruct (enter _ _ _ _ _) as [[b found] bs] eqn:E.
    destruct (spend now rate ivl b) as [ok' b'] eqn:Es. intros [= <- <-].
    eapply enter_spec in E as (Hwf' & Hlen' & Hk & _); [|apply back_sound|done..].
    split; cbn [buckets]; [apply wf_set_value; [done|by eexists]|exact Hlen'].
  - destruct (spend _ _ _ _) as [ok' b'] eqn:Es. by intros [= <- <-].
Qed.

Lemma limiter_prune_wf now r : limiter_wf r -> limiter_wf (prune now r).
Proof.
  intros [Hwf Hlen]. split; cbn [prune buckets].
  - by apply sweep_keys_wf.
  - etrans; [apply sweep_keys_len|done].
Qed.

(** What a call does to the bucket of its key. *)
Lemma take_bucket now key rate ivl r ok r' :
  limiter_wf r -> 0 < rate -> 0 < ivl ->
  take now key rate ivl true r = (ok, r') ->
  let b := match entries (buckets r) !! key with
           | Some b => b | None => mkBucket (of_int rate) now 0 end in
  ok = (spend now rate ivl b).1 /\
  entries (buckets r') !! key = Some (spend now rate ivl b).2.
Proof.
  intros [Hwf Hlen] Hr Hi. unfold take.
  replace ((rate <=? 0) || (ivl <=? 0)) with false by lia.
  destruct (enter _ _ _ _ _) as [[b found] bs] eqn:E.
  eapply enter_spec in E as (_ & _ & Hk & _ & Ht & Hf); [|apply back_sound|done..].
  assert (b = match entries (buckets r) !! key with
              | Some b => b | None => mkBucket (of_int rate) now 0 end) as <-.
  { destruct found; [by rewrite Ht|]. by destruct Hf as [-> ->]. }
  destruct (spend now rate ivl b) as [ok' b']. intros [= <- <-].
  cbn [buckets set_value entries]. by rewrite lookup_insert_eq.
Qed.

(** A call leaves the bucket of any other key as it was, unless it evicted it
    to stay within the cap. *)
Lemma take_other now key rate ivl perIP r ok r' k :
  take now key rate ivl perIP r = (ok, r') -> k <> key ->
  entries (buckets r') !! k = entries (buckets r) !! k \/
  (bucketCap <= lru_len (buckets r) /\ back (buckets r) = Some k /\
   entries (buckets r') !! k = None).
Proof.
  unfold take. case_if; [intros [= <- <-]; by left|]. destruct perIP.
  - destruct (enter _ _ _ _ _) as [[b found] bs] eqn:E.
    destruct (spend now rate ivl b) as [ok' b'] eqn:Es. intros [= <- <-] Hne.
    cbn [buckets set_value entries]. rewrite lookup_insert_ne by done.
    destruct (enter_other _ _ _ _ _ _ _ _ k E Hne) as [?|(? & ? & ? & ?)]; [by left|by right].
  - destruct (spend _ _ _ _) as [ok' b'] eqn:Es. intros [= <- <-] _. by left.
Qed.

Lemma prune_lookup now r k :
  limiter_wf r ->
  entries (buckets (prune now r)) !! k =
  match entries (buckets r) !! k with
  | Some b => if bucket_idle now b then None else Some b
  | None => None
  end.
Proof.
  intros [Hwf _]. cbn [prune buckets]. apply sweep_all.
  intros x Hx. apply wf_keys in Hx; [|done]. apply list_elem_of_In, in_rev.
  rewrite rev_involutive. by apply list_elem_of_In.
Qed.

(** ** Bursts *)

(** The refill intervals a configuration can name ("s", "m", "h"). *)
Definition unit_interval (i : Z) : Prop := i = second \/ i = minute \/ i = hour.

Lemma unit_interval_pos i : unit_interval i -> 0 < i.
Proof. intros [-> |[-> | ->]]; reflexivity. Qed.

Lemma refilled_same now rate ivl m i0 :
  small_int m \/ m = 0 -> small_int rate -> m <= rate -> unit_interval ivl ->
  refilled now rate ivl (mkBucket (of_int m) now i0)
  = fmin (of_int rate) (of_int m).
Proof.
  intros Hm Hr Hle Hi. unfold refilled. cbn [last tokens]. rewrite time_sub_same.
  rewrite refill_nothing; [done|done|done| | | | ].
  - by apply unit_interval_pos.
  - destruct Hi as [-> |[-> | ->]]; reflexivity.
  - destruct Hi as [-> |[-> | ->]]; vm_compute; discriminate.
  - destruct Hi as [-> |[-> | ->]]; vm_compute; discriminate.
Qed.

(** Repeated calls for one key at one instant. *)
Fixpoint take_n (n : nat) (now : Z) (key : rateKey) (rate ivl : Z) (r : rateLimiter)
  : list bool * rateLimiter :=
  match n with
  | O => ([], r)
  | S n' =>
      let '(ok, r1) := take now key rate ivl true r in
      let '(oks, r2) := take_n n' now key rate ivl r1 in
      (ok :: oks, r2)
  end.

Lemma spend_int now rate ivl m i0 :
  small_int m \/ m = 0 -> small_int rate -> m <= rate -> unit_interval ivl ->
  spend now rate ivl (mkBucket (of_int m) now i0)
  = (0 <? m, mkBucket (of_int (Z.max 0 (m - 1))) now ivl).
Proof.
  intros Hm Hr Hle Hi. unfold spend.
  rewrite refilled_same, fmin_int by done.
  destruct Hm as [Hm| ->]; [|reflexivity].
  rewrite of_int_ge_one, of_int_pred by done. destruct Hm.
  replace (0 <? m) with true by lia. by rewrite Z.max_r by lia.
Qed.

Lemma take_n_int now key rate ivl : small_int rate -> unit_interval ivl ->
  forall n m i0 r, limiter_wf r -> small_int m \/ m = 0 -> m <= rate ->
  entries (buckets r) !! key = Some (mkBucket (of_int m) now i0) ->
  (take_n n now key rate ivl r).1 =
  repeat true (min n (Z.to_nat m)) ++ repeat false (n - Z.to_nat m).
Proof.
  intros Hr Hi. induction n as [|n IH]; intros m i0 r Hwf Hm Hle Hk; cbn [take_n]; [done|].
  destruct (take now key rate ivl true r) as [ok r1] eqn:Et.
  pose proof (take_wf _ _ _ _ _ _ _ _ Hwf Et) as Hwf1.
  apply take_bucket in Et; [|done|by destruct Hr|by apply unit_interval_pos].
  rewrite Hk, spend_int in Et by done. destruct Et as [-> Hk1]. cbn [snd fst] in *.
  destruct (take_n n now key rate ivl r1) as [oks r2] eqn:En.
  replace oks with (take_n n now key rate ivl r1).1 by by rewrite En.
  destruct Hm as [Hm| ->].
  - destruct Hm as [Hm1 Hm2]. cbn [fst].
    rewrite (IH (Z.max 0 (m - 1)) ivl r1) by (try done; unfold small_int; lia).
    rewrite Z.max_r by lia. replace (0 <? m) with true by lia.
    replace (Z.to_nat m) with (S (Z.to_nat (m - 1))) by lia. done.
  - cbn [fst]. rewrite (IH (Z.max 0 (0 - 1)) ivl r1); [|done|by right|destruct Hr; cbn; lia|done].
    cbn. by rewrite Nat.min_0_r, Nat.sub_0_r.
Qed.

(** ** Properties *)

(** a source with no bucket yet gets a burst of exactly [rate] requests.
    Of any number of requests charged to one key at one instant the first
    [rate] are allowed and every later one is refused, in the code's own
    float64 arithmetic, whatever other buckets the table holds. *)
Theorem burst_is_rate now key rate ivl r n :
  limiter_wf r -> small_int rate -> unit_interval ivl ->
  entries (buckets r) !! key = None ->
  (take_n n now key rate ivl r).1 =
  repeat true (min n (Z.to_nat rate)) ++ repeat false (n - Z.to_nat rate).
Proof.
  intros Hwf Hr Hi Hk. destruct n as [|n]; [done|]. cbn [take_n].
  destruct (take now key rate ivl true r) as [ok r1] eqn:Et.
  pose proof (take_wf _ _ _ _ _ _ _ _ Hwf Et) as Hwf1.
  apply take_bucket in Et; [|done|by destruct Hr|by apply unit_interval_pos].
  rewrite Hk, spend_int in Et by (try done; by left). destruct Et as [-> Hk1]. cbn [snd fst] in *.
  destruct (take_n n now key rate ivl r1) as [oks r2] eqn:En.
  replace oks with (take_n n now key rate ivl r1).1 by by rewrite En.
  destruct Hr as [Hr1 Hr2]. cbn [fst].
  rewrite (take_n_int now key rate ivl (conj Hr1 Hr2) Hi n (Z.max 0 (rate - 1)) ivl r1);
    [|done|unfold small_int; lia|lia|done].
  rewrite Z.max_r by lia. replace (0 <? rate) with true by lia.
  replace (Z.to_nat rate) with (S (Z.to_nat (rate - 1))) by lia. done.
Qed.

Lemma burst_is_rate_witness :
  (take_n 3 7 (mkRateKey (mkAddrPort (ip4 192 0 2 1) 0) false false) 2 second newRateLimiter).1
  = [true; true; false].
Proof.
  rewrite (burst_is_rate 7 (mkRateKey (mkAddrPort (ip4 192 0 2 1) 0) false false) 2 second newRateLimiter 3).
  - reflexivity.
  - apply newRateLimiter_wf.
  - split; reflexivity.
  - by left.
  - reflexivity.
Defined.
