(* ===== verification/BanList.v ===== *)
(** internal/shield/banlist.go: an in-memory ban table with lazy expiry and a
    hard cap.

    What a client of the table may rely on is the interface [BanTable]: which
    keys are blocked at which instant, and how the operations change that.
    [banList_BanTable] shows that the code's table implements it. *)

From S2P Require Import Prelude GoTime.

Open Scope Z_scope.

Definition banCap : Z := 65536.
Definition sweepEvery : Z := second.

Definition BanReasonScanner : gostring := str "scanner".
Definition BanReasonRegister : gostring := str "register".
Definition BanReasonAdmission : gostring := str "admission".
Definition BanReasonMalformed : gostring := str "malformed".

Definition BanKindIP : gostring := str "ip".
Definition BanKindUDPSocket : gostring := str "udp_socket".
Definition BanKindUDPIP : gostring := str "udp_ip".

Record banEntry := mkBan { until : Z; since : Z; reason : gostring }.

#[export] Instance banEntry_eq_dec : EqDecision banEntry.
Proof. solve_decision. Defined.

(** The interface: a table of keys blocked over time.  [blocked t k tbl] says
    that [k] is banned at [t]. *)
Class BanTable (T K : Type) := {
  bt_ok : T -> Prop;
  blocked : Z -> K -> T -> bool;
  bt_new : T;
  bt_ban : Z -> K -> Z -> gostring -> T -> bool * T;
  bt_banned : Z -> K -> T -> bool * T;
  bt_prune : Z -> T -> T
}.

Class BanTableLaws (T K : Type) `{EqDecision K} `{BanTable T K} := {
  bt_new_ok : bt_ok bt_new;
  bt_new_free : forall t k, blocked t k bt_new = false;
  bt_ban_ok : forall now k d r tbl ok tbl',
    bt_ok tbl -> bt_ban now k d r tbl = (ok, tbl') -> bt_ok tbl';
  (** A recorded ban blocks its key until [now + d] and changes nothing else. *)
  bt_ban_blocked : forall now k d r tbl tbl' t k',
    bt_ok tbl -> now <= t -> bt_ban now k d r tbl = (true, tbl') ->
    blocked t k' tbl' = blocked t k' tbl || (bool_decide (k' = k) && (t <? now + d));
  (** A refused one changes nothing. *)
  bt_ban_refused : forall now k d r tbl tbl' t k',
    bt_ok tbl -> now <= t -> bt_ban now k d r tbl = (false, tbl') ->
    blocked t k' tbl' = blocked t k' tbl;
  bt_banned_ok : forall now k tbl b tbl',
    bt_ok tbl -> bt_banned now k tbl = (b, tbl') -> bt_ok tbl';
  (** The query answers [blocked], and querying changes nothing. *)
  bt_banned_blocked : forall now k tbl, (bt_banned now k tbl).1 = blocked now k tbl;
  bt_banned_same : forall now k tbl t k',
    now <= t -> blocked t k' (bt_banned now k tbl).2 = blocked t k' tbl;
  bt_prune_ok : forall now tbl, bt_ok tbl -> bt_ok (bt_prune now tbl);
  bt_prune_same : forall now tbl t k',
    now <= t -> blocked t k' (bt_prune now tbl) = blocked t k' tbl
}.

Section BanList.
Context {K : Type} `{Countable K}.

Record banList := mkBanList {
  bans : gmap K banEntry;
  lastSweep : Z;      (* zero time: never *)
  overflow : Z
}.

Definition newBanTable : banList := mkBanList ∅ zero_time 0.

Definition expired (now : Z) (e : banEntry) : bool := negb (time_before now (until e)).

(** Delete every expired entry. *)
Definition drop_expired (now : Z) (m : gmap K banEntry) : gmap K banEntry :=
  filter (fun ke => expired now ke.2 = false) m.

Definition count (b : banList) : Z := Z.of_nat (size (bans b)).

(** The code reads the clock up to three times: before the sweep, at the
    sweep, and for the entry. *)
Definition ban (t1 t2 t3 : Z) (key : K) (dur : Z) (why : gostring) (b : banList)
  : bool * banList :=
  let old := bans b !! key in
  let record (b : banList) :=
    match old with
    | None => (true, mkBanList (<[key := mkBan (time_add t3 dur) t3 why]> (bans b))
                               (lastSweep b) (overflow b))
    | Some e =>
        if time_after (time_add t3 dur) (until e)
        then (true, mkBanList (<[key := mkBan (time_add t3 dur) (since e) (reason e)]> (bans b))
                              (lastSweep b) (overflow b))
        else (true, b)
    end in
  if bool_decide (old = None) && (banCap <=? count b) then
    let b1 := if sweepEvery <=? time_sub t1 (lastSweep b)
              then mkBanList (drop_expired t2 (bans b)) t2 (overflow b) else b in
    if banCap <=? count b1
    then (false, mkBanList (bans b1) (lastSweep b1) (overflow b1 + 1))
    else record b1
  else record b.

Definition overflowed (b : banList) : Z := overflow b.

Definition banned (now : Z) (key : K) (b : banList) : bool * banList :=
  match bans b !! key with
  | None => (false, b)
  | Some e =>
      if negb (time_before now (until e))
      then (false, mkBanList (delete key (bans b)) (lastSweep b) (overflow b))
      else (true, b)
  end.

Definition ban_size (b : banList) : Z := count b.

Definition liveCount (now : Z) (b : banList) : Z :=
  Z.of_nat (size (filter (fun ke => time_before now (until ke.2) = true) (bans b))).

Definition prune (now : Z) (b : banList) : banList :=
  mkBanList (drop_expired now (bans b)) (lastSweep b) (overflow b).

Definition blocked_at (t : Z) (key : K) (b : banList) : bool :=
  match bans b !! key with Some e => t <? until e | None => false end.

Definition within_cap (b : banList) : Prop := count b <= banCap.

Lemma drop_expired_lookup now m k :
  drop_expired now m !! k =
  match m !! k with Some e => if expired now e then None else Some e | None => None end.
Proof.
  unfold drop_expired. rewrite map_lookup_filter.
  destruct (m !! k) as [e|]; simpl; [|done].
  destruct (expired now e) eqn:E; [|by rewrite option_guard_True].
  by rewrite option_guard_False by congruence.
Qed.

Lemma drop_expired_size now m : (size (drop_expired now m) <= size m)%nat.
Proof.
  unfold drop_expired. apply map_subseteq_size, map_filter_subseteq.
Qed.

Lemma drop_expired_blocked now t m k : now <= t ->
  match drop_expired now m !! k with Some e => t <? until e | None => false end =
  match m !! k with Some e => t <? until e | None => false end.
Proof.
  intros Ht. rewrite drop_expired_lookup. destruct (m !! k) as [e|]; [|done].
  unfold expired, time_before. destruct (now <? until e) eqn:E; simpl; [done|]. lia.
Qed.

Lemma size_insert_le (m : gmap K banEntry) k e :
  (size (<[k := e]> m) <= S (size m))%nat.
Proof.
  destruct (m !! k) eqn:E.
  - rewrite map_size_insert_Some by by eexists. lia.
  - by rewrite map_size_insert_None.
Qed.

Lemma ban_within_cap t1 t2 t3 key dur why b ok b' :
  within_cap b -> ban t1 t2 t3 key dur why b = (ok, b') -> within_cap b'.
Proof.
  unfold within_cap, ban, count. intros Hb.
  destruct (bans b !! key) as [e|] eqn:Ek.
  - rewrite bool_decide_eq_false_2 by done. cbn [andb].
    case_if; intros [= <- <-]; [|done]. simpl.
    rewrite map_size_insert_Some by by eexists. done.
  - rewrite bool_decide_eq_true_2 by done. cbn [andb].
    destruct (banCap <=? Z.of_nat (size (bans b))) eqn:Ec.
    + match goal with |- context [if ?c then mkBanList _ _ _ else _] => destruct c eqn:Es end; simpl.
      * pose proof (drop_expired_size t2 (bans b)).
        case_if; intros [= <- <-]; simpl; [lia|].
        pose proof (size_insert_le (drop_expired t2 (bans b)) key (mkBan (time_add t3 dur) t3 why)). lia.
      * rewrite Ec. intros [= <- <-]. simpl. lia.
    + intros [= <- <-]. simpl.
      pose proof (size_insert_le (bans b) key (mkBan (time_add t3 dur) t3 why)). lia.
Qed.

(** The body of [ban] up to the entry: either refused, or the entry is
    recorded in a table that only lost entries expired at [t2]. *)
Lemma ban_cases t1 t2 t3 key dur why b ok b' :
  ban t1 t2 t3 key dur why b = (ok, b') ->
  exists m, (m = bans b \/ (m = drop_expired t2 (bans b) /\ bans b !! key = None)) /\
  if ok then
    match bans b !! key with
    | None => bans b' = <[key := mkBan (t3 + dur) t3 why]> m
    | Some e => bans b' = if until e <? t3 + dur
                          then <[key := mkBan (t3 + dur) (since e) (reason e)]> m else m
    end /\ overflow b' = overflow b
  else bans b !! key = None /\ bans b' = m /\ banCap <= Z.of_nat (size m) /\
       overflow b' = overflow b + 1.
Proof.
  unfold ban, count, time_add, time_after.
  destruct (bans b !! key) as [e|] eqn:Ek.
  - rewrite bool_decide_eq_false_2 by done. cbn [andb]. intros E. exists (bans b). split; [by left|]. case_if_in E; by injection E as <- <-.
  - rewrite bool_decide_eq_true_2 by done. cbn [andb].
    destruct (banCap <=? Z.of_nat (size (bans b))) eqn:Ec.
    + match goal with |- context [if ?c then mkBanList _ _ _ else _] => destruct c eqn:Es end; simpl.
      * intros E. exists (drop_expired t2 (bans b)). split; [by right|].
        case_if_in E; injection E as <- <-; simpl; [|done]. repeat split; lia.
      * rewrite Ec. intros [= <- <-]. exists (bans b). split; [by left|]. simpl.
        repeat split; lia.
    + intros [= <- <-]. exists (bans b). split; [by left|]. done.
Qed.

Lemma ban_blocked t1 t2 t3 key dur why b ok b' t k :
  t2 <= t -> ban t1 t2 t3 key dur why b = (ok, b') ->
  blocked_at t k b' =
  blocked_at t k b || (ok && (bool_decide (k = key) && (t <? t3 + dur))).
Proof.
  intros Ht Hb. apply ban_cases in Hb as (m & Hm & Hb).
  assert (Hsame : match m !! k with Some e => t <? until e | None => false end
                  = blocked_at t k b).
  { unfold blocked_at. destruct Hm as [->|[-> _]]; [done|by apply drop_expired_blocked]. }
  destruct ok; cbn [andb]; [destruct Hb as [Hb _]|].
  - destruct (decide (k = key)) as [->|Hne].
    + rewrite bool_decide_eq_true_2 by done. cbn [andb]. rewrite <- Hsame.
      unfold blocked_at. destruct (bans b !! key) as [e|] eqn:Ek.
      * destruct Hm as [->|[_ ?]]; [|done]. rewrite Hb.
        destruct (until e <? t3 + dur) eqn:E; [rewrite lookup_insert_eq|]; rewrite Ek; simpl; lia.
      * rewrite Hb, lookup_insert_eq. simpl.
        destruct Hm as [->|[-> _]]; [by rewrite Ek|]. by rewrite drop_expired_lookup, Ek.
    + rewrite (bool_decide_eq_false_2 (k = key)) by done. cbn [andb]. rewrite orb_false_r, <- Hsame.
      unfold blocked_at. destruct (bans b !! key) as [e|].
      * rewrite Hb. case_if; [by rewrite lookup_insert_ne|done].
      * by rewrite Hb, lookup_insert_ne.
  - rewrite orb_false_r, <- Hsame. destruct Hb as (_ & Hb & _). unfold blocked_at. by rewrite Hb.
Qed.

Lemma banned_spec now k b :
  (banned now k b).1 = blocked_at now k b.
Proof.
  unfold banned, blocked_at, time_before. destruct (bans b !! k) as [e|]; [|done].
  destruct (now <? until e); done.
Qed.

Lemma banned_same now k b t k' : now <= t ->
  blocked_at t k' (banned now k b).2 = blocked_at t k' b.
Proof.
  intros Ht. unfold banned, time_before. destruct (bans b !! k) as [e|] eqn:Ek; [|done].
  destruct (now <? until e) eqn:E; [done|]. unfold blocked_at. simpl.
  destruct (decide (k' = k)) as [->|]; [|by rewrite lookup_delete_ne].
  rewrite lookup_delete_eq, Ek. lia.
Qed.

Lemma banned_within_cap now k b : within_cap b -> within_cap (banned now k b).2.
Proof.
  unfold within_cap, banned, count. destruct (bans b !! k); [|done].
  case_if; [|done]. simpl. intros Hb.
  assert (size (delete k (bans b)) <= size (bans b))%nat
    by (apply map_subseteq_size, delete_subseteq). lia.
Qed.

Lemma prune_within_cap now b : within_cap b -> within_cap (prune now b).
Proof.
  unfold within_cap, prune, count. simpl. pose proof (drop_expired_size now (bans b)). lia.
Qed.

Lemma prune_same now b t k : now <= t -> blocked_at t k (prune now b) = blocked_at t k b.
Proof. intros Ht. unfold blocked_at, prune. simpl. by apply drop_expired_blocked. Qed.

#[export] Instance banList_BanTable : BanTable banList K := {
  bt_ok := within_cap;
  blocked := blocked_at;
  bt_new := newBanTable;
  bt_ban now := ban now now now;
  bt_banned := banned;
  bt_prune := prune
}.

#[export] Instance banList_BanTableLaws : BanTableLaws banList K.
Proof.
  split.
  - vm_compute. discriminate.
  - intros t k. unfold blocked, banList_BanTable, blocked_at. cbn. by rewrite lookup_empty.
  - intros *. apply ban_within_cap.
  - intros * _ Ht Hb. exact (ban_blocked _ _ _ _ _ _ _ _ _ _ k' Ht Hb).
  - intros * _ Ht Hb. pose proof (ban_blocked _ _ _ _ _ _ _ _ _ _ k' Ht Hb) as E.
    cbn [andb] in E. by rewrite orb_false_r in E.
  - intros * Hok E. cbn in *. replace tbl' with (banned now k tbl).2 by by rewrite E.
    by apply banned_within_cap.
  - apply banned_spec.
  - intros. by apply banned_same.
  - intros. by apply prune_within_cap.
  - intros. by apply prune_same.
Qed.

End BanList.

Arguments banList K {_ _}.
