(* ===== verification/Offenders.v ===== *)
(** internal/shield/offenders.go: the LRU-capped table of per-source strike
    counters, each over a fixed window that opens at its first strike.
    (What a strike does to the ban tables is in Shield.v.) *)

From S2P Require Import Prelude GoTime Netip Lru BanList.

Open Scope Z_scope.

Definition StrikeRegister : gostring := BanReasonRegister.
Definition StrikeAdmission : gostring := BanReasonAdmission.
Definition StrikeAdmissionUDP : gostring := StrikeAdmission ++ str "_udp".
Definition StrikeMalformed : gostring := BanReasonMalformed.
Definition StrikeMalformedUDP : gostring := StrikeMalformed ++ str "_udp".

Definition offenderCap : Z := 16384.

(** config.StrikeLimit *)
Record StrikeLimit := mkLimit { lim_N : Z; lim_Window : Z; lim_Off : bool }.

Record offenderKey := mkOKey { ok_src : Addr; ok_reason : gostring }.

#[export] Instance offenderKey_eq_dec : EqDecision offenderKey.
Proof. solve_decision. Defined.

#[export] Instance offenderKey_countable : Countable offenderKey.
Proof.
  apply (inj_countable' (fun k => (ok_src k, ok_reason k)) (fun t => mkOKey t.1 t.2)).
  by intros [].
Defined.

Record offender := mkOff {
  start : Z;
  window : Z;
  strikes : Z;                        (* all strikes of the budget *)
  over : bool;                        (* the threshold was crossed *)
  parts : option (gmap gostring Z)    (* nil until a strike names a part *)
}.

Record offenderTable := mkOTable { otab : Lru offenderKey offender; omax : Z }.

Definition newOffenderTable : offenderTable := mkOTable lru_empty offenderCap.

Definition bump_part (part : gostring) (ps : option (gmap gostring Z)) : option (gmap gostring Z) :=
  if bool_decide (part = []) then ps
  else let m := default ∅ ps in
       Some (<[part := default 0 (m !! part) + 1]> m).

Record verdict := mkVerdict { v_count : Z; v_over : bool; v_crossed : bool }.

(** The effect of one strike on the entry it found ([found]) or made. *)
Definition strike_entry (now : Z) (part : gostring) (lim : StrikeLimit) (found : bool) (o : offender)
  : verdict * offender :=
  let o := if found && (lim_Window lim <=? time_sub now (start o))
           then mkOff now (window o) 0 false None else o in
  let n := strikes o + 1 in
  let ps := bump_part part (parts o) in
  if n <=? lim_N lim
  then (mkVerdict n false false, mkOff (start o) (lim_Window lim) n (over o) ps)
  else (mkVerdict n true (negb (over o)), mkOff (start o) (lim_Window lim) n true ps).

Definition strike (now : Z) (key : offenderKey) (part : gostring) (lim : StrikeLimit) (t : offenderTable)
  : verdict * offenderTable :=
  let fresh := mkOff now 0 0 false None in
  let '(o, found, l) := enter back (omax t) key fresh (otab t) in
  let '(v, o') := strike_entry now part lim found o in
  (v, mkOTable (set_value key o' l) (omax t)).

Definition clear (key : offenderKey) (t : offenderTable) : offenderTable :=
  match lru_get key (otab t) with
  | Some _ => mkOTable (remove key (otab t)) (omax t)
  | None => t
  end.

Definition window_over (now : Z) (o : offender) : bool := window o <=? time_sub now (start o).

Definition prune (now : Z) (t : offenderTable) : offenderTable :=
  mkOTable (sweep_keys (window_over now) (range_keys (otab t)) (otab t)) (omax t).

Definition osize (t : offenderTable) : Z := Z.of_nat (size (entries (otab t))).

(** The rows of the operator view: an entry whose window is open, one row per
    part, or one for the whole budget when no strike named a part. *)
Definition live_rows (key : offenderKey) (o : offender) : list (offenderKey * offender) :=
  let row := mkOff (start o) (window o) (strikes o) (over o) None in
  match map_to_list (default ∅ (parts o)) with
  | [] => [(key, row)]
  | ps => map (fun p => (mkOKey (ok_src key) p.1,
                         mkOff (start o) (window o) p.2 (over o) None)) ps
  end.

Definition live (now : Z) (t : offenderTable) : list (offenderKey * offender) :=
  flat_map (fun ko => if window_over now ko.2 then [] else live_rows ko.1 ko.2)
           (map_to_list (entries (otab t))).

(** ** Invariant *)

Definition otable_wf (t : offenderTable) : Prop :=
  1 <= omax t /\ wf (otab t) /\ lru_len (otab t) <= omax t.

Lemma newOffenderTable_wf : otable_wf newOffenderTable.
Proof. split; [done|]. split; [apply wf_empty|done]. Qed.

Lemma off_strike_wf now key part lim t v t' :
  otable_wf t -> strike now key part lim t = (v, t') -> otable_wf t' /\ omax t' = omax t.
Proof.
  intros (Hmax & Hwf & Hlen). unfold strike.
  destruct (enter _ _ _ _ _) as [[o found] l] eqn:E.
  destruct (strike_entry now part lim found o) as [v0 o'] eqn:Es. intros [= <- <-].
  eapply enter_spec in E as (Hwf' & Hlen' & Hk & _); [|apply back_sound|done..].
  split; [|done]. split; [done|]. split; cbn [otab omax].
  - apply wf_set_value; [done|by eexists].
  - exact Hlen'.
Qed.

Lemma off_clear_wf key t : otable_wf t -> otable_wf (clear key t).
Proof.
  intros (Hmax & Hwf & Hlen). unfold clear. destruct (lru_get key (otab t)); [|done].
  split; [done|]. split; cbn [otab omax]; [by apply wf_remove|].
  etrans; [apply remove_len_le|done].
Qed.

Lemma off_prune_wf now t : otable_wf t -> otable_wf (prune now t).
Proof.
  intros (Hmax & Hwf & Hlen). split; [done|]. split; cbn [prune otab omax].
  - by apply sweep_keys_wf.
  - etrans; [apply sweep_keys_len|done].
Qed.

(** ** The table without its cap *)

(** The same counting over an unbounded map: what the table stands for. *)
Definition spec_strike (now : Z) (key : offenderKey) (part : gostring) (lim : StrikeLimit)
  (m : gmap offenderKey offender) : verdict * gmap offenderKey offender :=
  let '(v, o') := match m !! key with
                  | Some o => strike_entry now part lim true o
                  | None => strike_entry now part lim false (mkOff now 0 0 false None)
                  end in
  (v, <[key := o']> m).

Record strike_op := mkStrike { s_now : Z; s_key : offenderKey; s_part : gostring; s_lim : StrikeLimit }.

Fixpoint strike_all (os : list strike_op) (t : offenderTable) : list verdict * offenderTable :=
  match os with
  | [] => ([], t)
  | o :: os' =>
      let '(v, t1) := strike (s_now o) (s_key o) (s_part o) (s_lim o) t in
      let '(vs, t2) := strike_all os' t1 in (v :: vs, t2)
  end.

Fixpoint spec_strike_all (os : list strike_op) (m : gmap offenderKey offender)
  : list verdict * gmap offenderKey offender :=
  match os with
  | [] => ([], m)
  | o :: os' =>
      let '(v, m1) := spec_strike (s_now o) (s_key o) (s_part o) (s_lim o) m in
      let '(vs, m2) := spec_strike_all os' m1 in (v :: vs, m2)
  end.

(** Every source the table knows or is about to hear of fits in it. *)
Definition fits (os : list strike_op) (t : offenderTable) : Prop :=
  Z.of_nat (size (dom (entries (otab t)) ∪ list_to_set (map s_key os))) <= omax t.

Lemma strike_spec now key part lim t v t' :
  otable_wf t -> Z.of_nat (size (dom (entries (otab t)) ∪ {[ key ]})) <= omax t ->
  strike now key part lim t = (v, t') ->
  spec_strike now key part lim (entries (otab t)) = (v, entries (otab t')).
Proof.
  intros (_ & Hwf & _) Hfit. unfold strike, spec_strike. rewrite enter_fits by done.
  destruct (entries (otab t) !! key) as [o|] eqn:E.
  - destruct (strike_entry now part lim true o) as [v0 o'] eqn:Es. by intros [= <- <-].
  - destruct (strike_entry now part lim false _) as [v0 o'] eqn:Es. intros [= <- <-].
    cbn [otab set_value push_front entries]. by rewrite insert_insert_eq.
Qed.

Lemma strike_dom now key part lim t v t' :
  otable_wf t -> Z.of_nat (size (dom (entries (otab t)) ∪ {[ key ]})) <= omax t ->
  strike now key part lim t = (v, t') ->
  dom (entries (otab t')) = dom (entries (otab t)) ∪ {[ key ]}.
Proof.
  intros Hwf Hfit Hs. apply strike_spec in Hs; [|done..].
  revert Hs. unfold spec_strike. destruct (entries (otab t) !! key) as [o|].
  all: destruct (strike_entry _ _ _ _ _) as [v0 o']; intros [= _ <-]; rewrite dom_insert_L; set_solver.
Qed.

(** ** Properties *)

(** as long as the sources in play fit the table, the bounded LRU table
    counts exactly as an unbounded one: the same verdict for every strike of
    any interleaving of sources, and the same entries afterwards. *)
Theorem strikes_refine_unbounded os t :
  otable_wf t -> fits os t ->
  (strike_all os t).1 = (spec_strike_all os (entries (otab t))).1 /\
  entries (otab (strike_all os t).2) = (spec_strike_all os (entries (otab t))).2.
Proof.
  revert t. induction os as [|o os IH]; intros t Hwf Hfit; [done|]. cbn [strike_all spec_strike_all].
  destruct (strike (s_now o) (s_key o) (s_part o) (s_lim o) t) as [v t1] eqn:Es.
  unfold fits in Hfit. cbn [map list_to_set] in Hfit.
  assert (Hfit1 : Z.of_nat (size (dom (entries (otab t)) ∪ {[ s_key o ]})) <= omax t).
  { etrans; [|exact Hfit]. apply inj_le, subseteq_size. set_solver. }
  destruct (off_strike_wf _ _ _ _ _ _ _ Hwf Es) as [Hwf1 Hmax].
  pose proof (strike_dom _ _ _ _ _ _ _ Hwf Hfit1 Es) as Hdom.
  pose proof (strike_spec _ _ _ _ _ _ _ Hwf Hfit1 Es) as ->.
  destruct (IH t1 Hwf1) as [E1 E2].
  { unfold fits. rewrite Hmax, Hdom. etrans; [|exact Hfit].
    apply inj_le, subseteq_size. set_solver. }
  destruct (strike_all os t1) as [vs t2]. destruct (spec_strike_all os (entries (otab t1))) as [vs' m2].
  cbn in *. by subst.
Qed.

Lemma strikes_refine_unbounded_witness :
  let k := mkOKey (ip4 192 0 2 1) StrikeRegister in
  let lim := mkLimit 1 minute false in
  let os := [mkStrike 5 k [] lim; mkStrike 6 k [] lim; mkStrike 7 k [] lim] in
  (strike_all os newOffenderTable).1 =
  [mkVerdict 1 false false; mkVerdict 2 true true; mkVerdict 3 true false].
Proof.
  intros k lim os.
  destruct (strikes_refine_unbounded os newOffenderTable) as [-> _].
  - apply newOffenderTable_wf.
  - vm_compute. discriminate.
  - vm_compute. reflexivity.
Defined.

(** The counters of one source struck repeatedly, from an entry of [n]
    strikes whose window is open throughout. *)
Fixpoint strike_times (key : offenderKey) (lim : StrikeLimit) (ts : list Z) (m : gmap offenderKey offender)
  : list verdict :=
  match ts with
  | [] => []
  | now :: ts' => let '(v, m') := spec_strike now key [] lim m in v :: strike_times key lim ts' m'
  end.

Lemma strike_times_open key lim ts : forall m o,
  m !! key = Some o ->
  Forall (fun now => time_sub now (start o) < lim_Window lim) ts ->
  over o = (lim_N lim <? strikes o) ->
  strike_times key lim ts m =
  imap (fun i _ => let n := strikes o + Z.of_nat i + 1 in
                   mkVerdict n (lim_N lim <? n) (n =? lim_N lim + 1)) ts.
Proof.
  induction ts as [|now ts IH]; intros m o Hm Hts Hover; [done|].
  apply Forall_cons in Hts as [Hnow Hts]. cbn [strike_times]. unfold spec_strike.
  rewrite Hm. unfold strike_entry.
  replace (lim_Window lim <=? time_sub now (start o)) with false by lia. cbn [andb].
  rewrite imap_cons.
  destruct (strikes o + 1 <=? lim_N lim) eqn:E.
  all: f_equal; [cbv zeta; change (Z.of_nat 0) with 0; f_equal; rewrite ?Hover; lia|].
  all: erewrite IH; [|apply lookup_insert_eq|done|cbn; rewrite ?Hover; lia].
  all: cbn [strikes]; apply imap_ext; intros i x _; unfold compose; cbv beta zeta; f_equal; lia.
Qed.

(** The fixed window counts exactly.  A source with no open window that is
    struck at instants that all fall within one window of the first has its
    [i]-th strike counted as [i]; the strikes over the threshold are the ones
    after the [N]-th, and exactly one of them, the [N+1]-th, is reported as
    the one that crossed it. *)
Lemma window_counts_exactly key lim now ts m :
  0 < lim_Window lim -> 0 <= lim_N lim ->
  match m !! key with Some o => lim_Window lim <= time_sub now (start o) | None => True end ->
  Forall (fun t => time_sub t now < lim_Window lim) ts ->
  strike_times key lim (now :: ts) m =
  imap (fun i _ => let n := Z.of_nat i + 1 in
                   mkVerdict n (lim_N lim <? n) (n =? lim_N lim + 1)) (now :: ts).
Proof.
  intros Hw HN Hm Hts. cbn [strike_times]. unfold spec_strike.
  assert (exists w, match m !! key with
                    | Some o => strike_entry now [] lim true o
                    | None => strike_entry now [] lim false (mkOff now 0 0 false None)
                    end = strike_entry now [] lim false (mkOff now w 0 false None)) as [w ->].
  { unfold strike_entry. destruct (m !! key) as [o|]; [|by exists 0].
    exists (window o). by replace (lim_Window lim <=? time_sub now (start o)) with true by lia. }
  unfold strike_entry. cbn [andb strikes over parts start].
  rewrite imap_cons. destruct (0 + 1 <=? lim_N lim) eqn:E.
  all: f_equal; [cbv zeta; change (Z.of_nat 0) with 0; f_equal; lia|].
  all: erewrite strike_times_open; [|apply lookup_insert_eq|done|cbn; lia].
  all: cbn [strikes]; apply imap_ext; intros i x _; unfold compose; cbv beta zeta; f_equal; lia.
Qed.
