(* ===== verification/AorStrikes.v ===== *)
(** internal/shield/aorstrikes.go: refused REGISTER credentials counted per
    address-of-record, and the lock an AoR gets over the threshold. *)

From S2P Require Import Prelude GoTime Lru Offenders.

Open Scope Z_scope.

Definition StrikeRegisterAOR : gostring := str "register_aor".

Definition aorCap : Z := 16384.
Definition aorEvictScan : nat := 64.
Definition aorKeyMax : nat := 384.

Record aorEntry := mkAor { a_start : Z; a_window : Z; a_count : Z; a_locked : Z (* zero: not locked *) }.

Record aorTable := mkATable { atab : Lru gostring aorEntry; amax : Z }.

Definition newAORTable : aorTable := mkATable lru_empty aorCap.

Definition aorKey (aor : gostring) : gostring :=
  if Z.of_nat aorKeyMax <? len aor then take aorKeyMax aor else aor.

(** Locked at [now], or not locked any more. *)
Definition unlocked (now : Z) (e : aorEntry) : bool :=
  is_zero (a_locked e) || negb (time_before now (a_locked e)).

(** The last [aorEvictScan] keys, back first, searched for one that is not
    locked; the back entry otherwise. *)
Definition evictable (now : Z) (l : Lru gostring aorEntry) : option gostring :=
  let not_locked k := match lru_get k l with Some e => unlocked now e | None => false end in
  match find not_locked (take aorEvictScan (rev (order l))) with
  | Some k => Some k
  | None => back l
  end.

Record aorVerdict := mkAV { av_count : Z; av_locked : bool; av_opened : bool }.

Definition aor_strike_entry (now : Z) (lim : StrikeLimit) (ban : Z) (found : bool) (e : aorEntry)
  : aorVerdict * aorEntry :=
  let e :=
    if found then
      if is_zero (a_locked e) && (lim_Window lim <=? time_sub now (a_start e))
      then mkAor now (a_window e) 0 (a_locked e)
      else if negb (is_zero (a_locked e)) && negb (time_before now (a_locked e))
      then mkAor now (a_window e) 0 zero_time
      else e
    else e in
  let n := a_count e + 1 in
  if negb (is_zero (a_locked e)) then
    (mkAV n true false, mkAor (a_start e) (lim_Window lim) n (a_locked e))
  else if lim_N lim <? n then
    (mkAV n true true, mkAor (a_start e) (lim_Window lim) n (time_add now ban))
  else
    (mkAV n false false, mkAor (a_start e) (lim_Window lim) n (a_locked e)).

Definition strike (now : Z) (aor : gostring) (lim : StrikeLimit) (ban : Z) (t : aorTable)
  : aorVerdict * aorTable :=
  let key := aorKey aor in
  let '(e, found, l) := enter (evictable now) (amax t) key (mkAor now 0 0 zero_time) (atab t) in
  let '(v, e') := aor_strike_entry now lim ban found e in
  (v, mkATable (set_value key e' l) (amax t)).

Definition isLocked (now : Z) (aor : gostring) (t : aorTable) : bool :=
  match lru_get (aorKey aor) (atab t) with
  | None => false
  | Some e => negb (is_zero (a_locked e)) && time_before now (a_locked e)
  end.

Definition clear (aor : gostring) (t : aorTable) : aorTable :=
  match lru_get (aorKey aor) (atab t) with
  | Some _ => mkATable (remove (aorKey aor) (atab t)) (amax t)
  | None => t
  end.

Definition aor_expired (now : Z) (e : aorEntry) : bool :=
  if negb (is_zero (a_locked e)) then negb (time_before now (a_locked e))
  else a_window e <=? time_sub now (a_start e).

Definition prune (now : Z) (t : aorTable) : aorTable :=
  mkATable (sweep_keys (aor_expired now) (range_keys (atab t)) (atab t)) (amax t).

Definition asize (t : aorTable) : Z := Z.of_nat (size (entries (atab t))).

Definition live (now : Z) (t : aorTable) : list (gostring * aorEntry) :=
  List.filter (fun ke => negb (aor_expired now ke.2)) (map_to_list (entries (atab t))).

(** ** Invariant *)

Definition atable_wf (t : aorTable) : Prop :=
  1 <= amax t /\ wf (atab t) /\ lru_len (atab t) <= amax t.

Lemma newAORTable_wf : atable_wf newAORTable.
Proof. split; [done|]. split; [apply wf_empty|done]. Qed.

Lemma find_take_in {A} (f : A -> bool) n l x : find f (take n l) = Some x -> x ∈ l /\ f x = true.
Proof.
  intros E. apply find_some in E as [Hin Hf]. split; [|done].
  apply list_elem_of_In in Hin. by apply elem_of_take in Hin as (i & Hi & _);
    apply list_elem_of_lookup_2 in Hi.
Qed.

Lemma evictable_sound now : sound_victim (evictable now).
Proof.
  intros l Hwf Hne. unfold evictable.
  destruct (find _ _) as [k|] eqn:E; [|by apply back_sound].
  exists k. split; [done|]. apply find_take_in in E as [Hin _].
  apply list_elem_of_In. apply in_rev. by apply list_elem_of_In.
Qed.

Lemma aor_strike_wf now aor lim ban t v t' :
  atable_wf t -> strike now aor lim ban t = (v, t') -> atable_wf t' /\ amax t' = amax t.
Proof.
  intros (Hmax & Hwf & Hlen). unfold strike.
  destruct (enter _ _ _ _ _) as [[e found] l] eqn:E.
  destruct (aor_strike_entry now lim ban found e) as [v0 e'] eqn:Es. intros [= <- <-].
  eapply enter_spec in E as (Hwf' & Hlen' & Hk & _); [|apply evictable_sound|done..].
  split; [|done]. split; [done|]. split; cbn [atab amax].
  - apply wf_set_value; [done|by eexists].
  - exact Hlen'.
Qed.

Lemma aor_clear_wf aor t : atable_wf t -> atable_wf (clear aor t).
Proof.
  intros (Hmax & Hwf & Hlen). unfold clear. destruct (lru_get _ (atab t)); [|done].
  split; [done|]. split; cbn [atab amax]; [by apply wf_remove|].
  etrans; [apply remove_len_le|done].
Qed.

Lemma aor_prune_wf now t : atable_wf t -> atable_wf (prune now t).
Proof.
  intros (Hmax & Hwf & Hlen). split; [done|]. split; cbn [prune atab amax].
  - by apply sweep_keys_wf.
  - etrans; [apply sweep_keys_len|done].
Qed.

(** What a strike does to the entry of its AoR. *)
Lemma strike_lookup now aor lim ban t v t' :
  atable_wf t -> strike now aor lim ban t = (v, t') ->
  let r := match entries (atab t) !! aorKey aor with
           | Some e => aor_strike_entry now lim ban true e
           | None => aor_strike_entry now lim ban false (mkAor now 0 0 zero_time)
           end in
  v = r.1 /\ entries (atab t') !! aorKey aor = Some r.2.
Proof.
  intros (Hmax & Hwf & Hlen). unfold strike.
  destruct (enter _ _ _ _ _) as [[e found] l] eqn:E.
  eapply enter_spec in E as (_ & _ & _ & _ & Ht & Hf); [|apply evictable_sound|done..].
  destruct found.
  - rewrite Ht by done. destruct (aor_strike_entry now lim ban true e) as [v0 e'].
    intros [= <- <-]. cbn [atab set_value entries]. by rewrite lookup_insert_eq.
  - destruct Hf as [-> ->]; [done|]. destruct (aor_strike_entry now lim ban false _) as [v0 e'].
    intros [= <- <-]. cbn [atab set_value entries]. by rewrite lookup_insert_eq.
Qed.

(** Whether the AoR's entry, if any, holds a lock that is open at [now]. *)
Definition locked_until (aor : gostring) (t : aorTable) : Z :=
  match entries (atab t) !! aorKey aor with Some e => a_locked e | None => zero_time end.

Lemma isLocked_until now aor t :
  isLocked now aor t = negb (is_zero (locked_until aor t)) && time_before now (locked_until aor t).
Proof. unfold isLocked, locked_until, lru_get. by destruct (entries (atab t) !! aorKey aor). Qed.

(** ** Properties *)

(** a lock, once open, keeps its end.  A strike against an AoR whose lock
    is open says "locked" without opening it again and leaves the end of the
    lock where it was (a source that keeps trying cannot extend it); a strike
    that opens the lock locks the AoR from that instant until exactly the
    configured time later. *)
Theorem aor_lock_not_extended now aor lim ban t v t' :
  atable_wf t -> 0 < now -> 0 < ban -> strike now aor lim ban t = (v, t') ->
  (isLocked now aor t = true ->
     av_locked v = true /\ av_opened v = false /\ locked_until aor t' = locked_until aor t) /\
  (isLocked now aor t = false ->
     av_opened v = av_locked v /\
     (av_locked v = true -> locked_until aor t' = now + ban) /\
     (av_locked v = false -> locked_until aor t' = zero_time)) /\
  isLocked now aor t' = av_locked v.
Proof.
  intros Hwf Hnow Hban Hs. apply strike_lookup in Hs; [|done]. destruct Hs as [Hv Hk].
  rewrite !isLocked_until. unfold locked_until. rewrite Hk. subst v.
  destruct (entries (atab t) !! aorKey aor) as [e|].
  - unfold aor_strike_entry, is_zero, time_before, time_add, zero_time.
    destruct (a_locked e =? 0) eqn:Ez; cbn [negb andb].
    + destruct (lim_Window lim <=? time_sub now (a_start e)); cbn [a_locked a_count a_start];
        rewrite Ez; cbn [negb]; (destruct (lim_N lim <? _) eqn:En; cbn);
        repeat split; try done; lia.
    + destruct (now <? a_locked e) eqn:El; cbn [negb andb a_locked a_count a_start].
      * rewrite Ez. cbn. repeat split; try done; lia.
      * change (0 =? 0) with true. cbn [negb].
        destruct (lim_N lim <? _) eqn:En; cbn; repeat split; try done; lia.
  - unfold aor_strike_entry, is_zero, time_before, time_add, zero_time. cbn [a_locked a_count].
    change (0 =? 0) with true. cbn [negb].
    destruct (lim_N lim <? _) eqn:En; cbn; repeat split; try done; lia.
Qed.

Lemma aor_lock_not_extended_witness :
  let t := (strike 100 (str "a@b") (mkLimit 0 minute false) hour newAORTable).2 in
  isLocked 200 (str "a@b") t = true /\
  locked_until (str "a@b") (strike 200 (str "a@b") (mkLimit 0 minute false) hour t).2
  = locked_until (str "a@b") t.
Proof.
  intros t. split; [vm_compute; reflexivity|].
  destruct (aor_lock_not_extended 200 (str "a@b") (mkLimit 0 minute false) hour t
              (strike 200 (str "a@b") (mkLimit 0 minute false) hour t).1
              (strike 200 (str "a@b") (mkLimit 0 minute false) hour t).2) as [H _].
  - apply (aor_strike_wf 100 (str "a@b") (mkLimit 0 minute false) hour newAORTable
             (strike 100 (str "a@b") (mkLimit 0 minute false) hour newAORTable).1);
      [apply newAORTable_wf|reflexivity].
  - reflexivity.
  - reflexivity.
  - reflexivity.
  - apply H. vm_compute. reflexivity.
Defined.

(** a full table gives up a locked AoR only when it must.  The entry that
    makes room is one of the table's, and when it is a locked one then every
    one of the [aorEvictScan] least recently struck entries is locked too, and
    it is the very last of them. *)
Theorem eviction_spares_locked now l k e :
  wf l -> evictable now l = Some k -> lru_get k l = Some e ->
  k ∈ order l /\
  (unlocked now e = false ->
     back l = Some k /\
     Forall (fun k' => match lru_get k' l with Some e' => unlocked now e' = false | None => False end)
            (take aorEvictScan (rev (order l)))).
Proof.
  intros Hwf He Hk. split.
  - apply wf_keys; [done|by eexists].
  - intros Hu. revert He. unfold evictable.
    destruct (find _ _) as [k'|] eqn:E.
    + intros [= ->]. apply find_some in E as [_ E]. rewrite Hk in E. congruence.
    + intros Hb. split; [done|]. apply Forall_forall. intros x Hx.
      assert (x ∈ order l) as Hin.
      { apply elem_of_take in Hx as (i & Hi & _). apply list_elem_of_lookup_2 in Hi.
        apply list_elem_of_In, in_rev. by apply list_elem_of_In. }
      apply list_elem_of_In in Hx. apply (find_none _ _ E) in Hx.
      apply (wf_keys l Hwf) in Hin as [e' He']. unfold lru_get in *. by rewrite He' in *.
Qed.

Lemma eviction_spares_locked_witness :
  let t := (strike 100 (str "a@b") (mkLimit 0 minute false) hour newAORTable).2 in
  back (atab t) = Some (str "a@b").
Proof.
  intros t.
  refine (proj1 (proj2 (eviction_spares_locked 200 (atab t) (str "a@b")
            (mkAor 100 minute 1 (100 + hour)) _ _ _) _)).
  - apply (aor_strike_wf 100 (str "a@b") (mkLimit 0 minute false) hour newAORTable
             (strike 100 (str "a@b") (mkLimit 0 minute false) hour newAORTable).1);
      [apply newAORTable_wf|reflexivity].
  - vm_compute. reflexivity.
  - vm_compute. reflexivity.
  - vm_compute. reflexivity.
Defined.
