(* ===== verification/GoText.v ===== *)
(** Go's [strings], [bytes] and [strconv], as far as the sources use them.

    Strings are byte lists.  [to_lower], [equal_fold], [trim_space] and
    [fields] are the ASCII behaviour: on text with no byte above 127 they are
    what the library computes; the Unicode cases (folding of the Kelvin sign,
    U+0085 as white space) are outside the model. *)

From S2P Require Import Prelude.

Open Scope Z_scope.

Definition lower_byte (c : Z) : Z := if (65 <=? c) && (c <=? 90) then c + 32 else c.
Definition upper_byte (c : Z) : Z := if (97 <=? c) && (c <=? 122) then c - 32 else c.

(** [strings.ToLower], [strings.ToUpper], [strings.EqualFold] *)
Definition to_lower (s : gostring) : gostring := map lower_byte s.
Definition to_upper (s : gostring) : gostring := map upper_byte s.
Definition equal_fold (a b : gostring) : bool := beq (to_lower a) (to_lower b).

(** [strings.HasPrefix] *)
Fixpoint has_prefix (s p : gostring) {struct p} : bool :=
  match p, s with
  | [], _ => true
  | _ :: _, [] => false
  | x :: p', y :: s' => (x =? y) && has_prefix s' p'
  end.

(** [strings.CutPrefix] *)
Definition cut_prefix (s p : gostring) : option gostring :=
  if has_prefix s p then Some (drop (length p) s) else None.

(** [strings.IndexByte]; [None] is -1. *)
Fixpoint index_byte (s : gostring) (c : Z) : option nat :=
  match s with
  | [] => None
  | x :: s' => if x =? c then Some O else S <$> index_byte s' c
  end.

(** [strings.IndexAny] and [strings.IndexFunc] *)
Fixpoint index_fun (f : Z -> bool) (s : gostring) : option nat :=
  match s with
  | [] => None
  | x :: s' => if f x then Some O else S <$> index_fun f s'
  end.

Definition mem (c : Z) (cs : gostring) : bool := existsb (Z.eqb c) cs.
Definition index_any (s cs : gostring) : option nat := index_fun (fun c => mem c cs) s.
Definition contains_any (s cs : gostring) : bool := existsb (fun c => mem c cs) s.

(** [strings.LastIndexByte] *)
Fixpoint last_index_byte (s : gostring) (c : Z) : option nat :=
  match s with
  | [] => None
  | x :: s' =>
      match last_index_byte s' c with
      | Some i => Some (S i)
      | None => if x =? c then Some O else None
      end
  end.

(** [strings.Index] *)
Fixpoint index (s sub : gostring) : option nat :=
  if has_prefix s sub then Some O
  else match s with
       | [] => None
       | _ :: s' => S <$> index s' sub
       end.

Definition contains (s sub : gostring) : bool :=
  match index s sub with Some _ => true | None => false end.

(** [strings.Cut] with a one-byte separator: before, after, found. *)
Definition cut (s : gostring) (sep : Z) : gostring * gostring * bool :=
  match index_byte s sep with
  | Some i => (take i s, drop (S i) s, true)
  | None => (s, [], false)
  end.

(** [strings.Split] with a one-byte separator; never empty. *)
Fixpoint split (s : gostring) (sep : Z) : list gostring :=
  match s with
  | [] => [[]]
  | x :: s' =>
      if x =? sep then [] :: split s' sep
      else match split s' sep with
           | [] => [[x]]
           | f :: fs => (x :: f) :: fs
           end
  end.

(** [strings.Join] with a one-byte separator. *)
Fixpoint join (fs : list gostring) (sep : Z) : gostring :=
  match fs with
  | [] => []
  | [f] => f
  | f :: fs' => f ++ sep :: join fs' sep
  end.

Definition is_space (c : Z) : bool := (c =? 32) || ((9 <=? c) && (c <=? 13)).

(** [strings.TrimLeftFunc], [strings.TrimSpace] *)
Fixpoint trim_left (f : Z -> bool) (s : gostring) : gostring :=
  match s with
  | [] => []
  | x :: s' => if f x then trim_left f s' else s
  end.

Definition trim_right (f : Z -> bool) (s : gostring) : gostring := rev (trim_left f (rev s)).
Definition trim_space (s : gostring) : gostring := trim_right is_space (trim_left is_space s).

(** [strings.Fields] *)
Fixpoint fields_aux (s cur : gostring) : list gostring :=
  let flush := match cur with [] => [] | _ => [rev cur] end in
  match s with
  | [] => flush
  | x :: s' => if is_space x then flush ++ fields_aux s' [] else fields_aux s' (x :: cur)
  end.
Definition fields (s : gostring) : list gostring := fields_aux s [].

Definition is_digit (c : Z) : bool := (48 <=? c) && (c <=? 57).
Definition is_alnum (c : Z) : bool :=
  ((97 <=? c) && (c <=? 122)) || ((65 <=? c) && (c <=? 90)) || is_digit c.

(** The value of a string of digits. *)
Definition digits_val (s : gostring) : Z := fold_left (fun n c => 10 * n + (c - 48)) s 0.

(** [strconv.ParseUint(s, 10, bits)]: digits only, within [bits] bits. *)
Definition parse_uint (s : gostring) (bits : Z) : option Z :=
  if bool_decide (s = []) then None
  else if negb (forallb is_digit s) then None
  else let n := digits_val s in if n <? 2 ^ bits then Some n else None.

(** [strconv.Atoi]: an optional sign, digits, within an int64. *)
Definition atoi (s : gostring) : option Z :=
  let '(neg, ds) := match s with
                    | 45 :: ds => (true, ds)
                    | 43 :: ds => (false, ds)
                    | _ => (false, s)
                    end in
  if bool_decide (ds = []) then None
  else if negb (forallb is_digit ds) then None
  else let n := if (neg : bool) then - digits_val ds else digits_val ds in
       if (min_int64 <=? n) && (n <=? max_int64) then Some n else None.

(** [strconv.Itoa] / [FormatUint] of a number that is not negative: its
    decimal digits.  64 digits are more than any 64-bit number needs. *)
Fixpoint digits_of (fuel : nat) (n : Z) (acc : gostring) : gostring :=
  match fuel with
  | O => acc
  | S fuel' => let acc := (48 + n mod 10) :: acc in
               if n <? 10 then acc else digits_of fuel' (n / 10) acc
  end.
Definition itoa (n : Z) : gostring := digits_of 64 n [].

(** ** Lemmas *)

Lemma lower_byte_idem c : lower_byte (lower_byte c) = lower_byte c.
Proof. unfold lower_byte. destruct ((65 <=? c) && (c <=? 90)) eqn:E; [|by rewrite E]. case_if; lia. Qed.

Lemma to_lower_idem s : to_lower (to_lower s) = to_lower s.
Proof. unfold to_lower. rewrite map_map. apply map_ext, lower_byte_idem. Qed.

Lemma to_lower_app a b : to_lower (a ++ b) = to_lower a ++ to_lower b.
Proof. apply map_app. Qed.

Lemma to_lower_length s : length (to_lower s) = length s.
Proof. apply length_map. Qed.

Lemma equal_fold_refl s : equal_fold s s = true.
Proof. apply beq_refl. Qed.

Lemma equal_fold_lower a b : equal_fold (to_lower a) b = equal_fold a b.
Proof. unfold equal_fold. by rewrite to_lower_idem. Qed.

Lemma equal_fold_sym a b : equal_fold a b = equal_fold b a.
Proof. unfold equal_fold, beq. apply bool_decide_ext. naive_solver. Qed.

Lemma equal_fold_trans a b c : equal_fold a b = true -> equal_fold b c = true -> equal_fold a c = true.
Proof. unfold equal_fold. rewrite !beq_eq. congruence. Qed.

Lemma has_prefix_spec s p : has_prefix s p = true <-> exists r, s = p ++ r.
Proof.
  revert s. induction p as [|x p IH]; intros s; simpl; [split; [by eexists|done]|].
  destruct s as [|y s]; simpl; [split; [done|by intros [? ?]]|].
  rewrite andb_true_iff, Z.eqb_eq, IH. split.
  - intros [-> [r ->]]. by exists r.
  - intros [r [= -> ->]]. split; [done|by exists r].
Qed.

Lemma has_prefix_app p r : has_prefix (p ++ r) p = true.
Proof. apply has_prefix_spec. by exists r. Qed.

Lemma cut_prefix_app p r : cut_prefix (p ++ r) p = Some r.
Proof. unfold cut_prefix. by rewrite has_prefix_app, drop_app_length. Qed.

Lemma index_byte_spec s c i :
  index_byte s c = Some i <-> exists a b, s = a ++ c :: b /\ length a = i /\ c ∉ a.
Proof.
  revert i. induction s as [|x s IH]; intros i; simpl.
  - split; [done|]. by intros ([|? ?] & ? & ? & _).
  - destruct (x =? c) eqn:E.
    + apply Z.eqb_eq in E as ->. split.
      * intros [= <-]. exists [], s. repeat split. apply not_elem_of_nil.
      * intros ([|y a] & b & E & <- & Hn); [done|]. injection E as -> ->. set_solver.
    + apply Z.eqb_neq in E. rewrite fmap_Some. split.
      * intros (j & Hj & ->). apply IH in Hj as (a & b & -> & <- & Hn).
        exists (x :: a), b. repeat split. set_solver.
      * intros ([|y a] & b & Hs & <- & Hn); injection Hs as -> ->; [done|].
        exists (length a). split; [|done]. apply IH. exists a, b. repeat split. set_solver.
Qed.

Lemma index_byte_none s c : index_byte s c = None <-> c ∉ s.
Proof.
  induction s as [|x s IH]; simpl; [split; [intros _; apply not_elem_of_nil|done]|].
  destruct (x =? c) eqn:E.
  - apply Z.eqb_eq in E as ->. split; [done|]. set_solver.
  - apply Z.eqb_neq in E. rewrite fmap_None, IH. set_solver.
Qed.

Lemma index_byte_app a c b : c ∉ a -> index_byte (a ++ c :: b) c = Some (length a).
Proof. intros H. apply index_byte_spec. by exists a, b. Qed.

Lemma cut_app a c b : c ∉ a -> cut (a ++ c :: b) c = (a, b, true).
Proof.
  intros H. unfold cut. rewrite index_byte_app by done.
  rewrite take_app_length. f_equal. f_equal.
  replace (S (length a)) with (length (a ++ [c])) by (rewrite length_app; simpl; lia).
  change (a ++ c :: b) with (a ++ [c] ++ b). by rewrite app_assoc, drop_app_length.
Qed.

Lemma cut_none s c : c ∉ s -> cut s c = (s, [], false).
Proof. intros H. unfold cut. by rewrite (proj2 (index_byte_none s c) H). Qed.

Lemma split_none s c : c ∉ s -> split s c = [s].
Proof.
  induction s as [|x s IH]; simpl; [done|]. intros H.
  apply not_elem_of_cons in H as [Hx Hs]. destruct (x =? c) eqn:E; [lia|]. by rewrite IH.
Qed.

Lemma split_app a c b : c ∉ a -> split (a ++ c :: b) c = a :: split b c.
Proof.
  induction a as [|x a IH]; simpl; intros H.
  - by rewrite Z.eqb_refl.
  - apply not_elem_of_cons in H as [Hx Hs]. destruct (x =? c) eqn:E; [lia|]. by rewrite IH.
Qed.

Lemma split_not_nil s c : split s c <> [].
Proof. destruct s as [|x s]; simpl; [done|]. case_if; [done|]. by destruct (split s c). Qed.

Lemma join_split s c : join (split s c) c = s.
Proof.
  induction s as [|x s IH]; [done|]. cbn [split].
  pose proof (split_not_nil s c) as Hn.
  destruct (x =? c) eqn:E.
  - apply Z.eqb_eq in E as ->. destruct (split s c) as [|f fs]; [done|].
    change (c :: join (f :: fs) c = c :: s). by rewrite IH.
  - destruct (split s c) as [|f fs]; [done|].
    destruct fs as [|g fs]; cbn [join] in *; rewrite <- IH; done.
Qed.

Lemma split_join fs c : fs <> [] -> Forall (fun f => c ∉ f) fs -> split (join fs c) c = fs.
Proof.
  induction fs as [|f fs IH]; [done|]. intros _ H. apply Forall_cons in H as [Hf Hfs].
  destruct fs as [|g fs]; [by apply split_none|].
  change (join (f :: g :: fs) c) with (f ++ c :: join (g :: fs) c).
  rewrite split_app by done. by rewrite IH.
Qed.

Lemma trim_left_id f s : match s with [] => True | x :: _ => f x = false end -> trim_left f s = s.
Proof. destruct s as [|x s]; [done|]. simpl. by intros ->. Qed.

Lemma trim_space_id s : Forall (fun c => is_space c = false) s -> trim_space s = s.
Proof.
  intros H. unfold trim_space, trim_right.
  rewrite (trim_left_id is_space s); [|by inversion H].
  rewrite trim_left_id; [apply rev_involutive|].
  apply Forall_rev in H. by inversion H.
Qed.

Lemma trim_left_length f s : (length (trim_left f s) <= length s)%nat.
Proof. induction s as [|x s IH]; cbn; [lia|]. case_if; cbn; lia. Qed.

Lemma fields_aux_app_space w s cur : Forall (fun c => is_space c = false) w ->
  fields_aux (w ++ 32 :: s) cur =
  match rev w ++ cur with [] => [] | l => [rev l] end ++ fields_aux s [].
Proof.
  revert cur. induction w as [|x w IH]; intros cur H; [by destruct cur|].
  apply Forall_cons in H as [Hx Hw]. cbn [app fields_aux]. rewrite Hx, IH by done.
  simpl. by rewrite <- app_assoc.
Qed.

Lemma fields_word w s : w <> [] -> Forall (fun c => is_space c = false) w ->
  fields (w ++ 32 :: s) = w :: fields s.
Proof.
  intros Hne H. unfold fields. rewrite fields_aux_app_space by done.
  rewrite app_nil_r. destruct (rev w) as [|y l] eqn:E.
  - apply (f_equal (@rev Z)) in E. by rewrite rev_involutive in E.
  - rewrite <- E, rev_involutive. done.
Qed.

Lemma fields_aux_last w cur : Forall (fun c => is_space c = false) w ->
  fields_aux w cur = match rev w ++ cur with [] => [] | l => [rev l] end.
Proof.
  revert cur. induction w as [|x w IH]; intros cur H; [by destruct cur|].
  apply Forall_cons in H as [Hx Hw]. cbn [fields_aux]. rewrite Hx, IH by done.
  simpl. by rewrite <- app_assoc.
Qed.

Lemma fields_last w : w <> [] -> Forall (fun c => is_space c = false) w -> fields w = [w].
Proof.
  intros Hne H. unfold fields. rewrite fields_aux_last, app_nil_r by done.
  destruct (rev w) as [|y l] eqn:E.
  - apply (f_equal (@rev Z)) in E. by rewrite rev_involutive in E.
  - by rewrite <- E, rev_involutive.
Qed.

(** *** Decimal round trip *)

Lemma digits_val_app s c : digits_val (s ++ [c]) = 10 * digits_val s + (c - 48).
Proof. unfold digits_val. by rewrite fold_left_app. Qed.

Lemma fold_digits s n : fold_left (fun n c => 10 * n + (c - 48)) s n = n * 10 ^ len s + digits_val s.
Proof.
  unfold digits_val. revert n. induction s as [|c s IH]; intros n; cbn [fold_left].
  - rewrite len_nil. lia.
  - rewrite (IH (10 * n + (c - 48))), (IH (10 * 0 + (c - 48))), len_cons, Z.pow_add_r by (pose proof (len_nonneg s); lia). ring.
Qed.

Lemma digits_of_spec fuel : forall n acc, 0 <= n < 10 ^ Z.of_nat fuel -> (0 < fuel)%nat ->
  exists ds, digits_of fuel n acc = ds ++ acc /\ ds <> [] /\ forallb is_digit ds = true /\
             digits_val ds = n /\ Z.of_nat (length ds) <= Z.of_nat fuel.
Proof.
  induction fuel as [|fuel IH]; intros n acc Hn Hf; [lia|]. cbn [digits_of].
  assert (Hd : is_digit (48 + n mod 10) = true).
  { unfold is_digit. pose proof (Z.mod_pos_bound n 10). lia. }
  destruct (n <? 10) eqn:E.
  - exists [48 + n mod 10]. split; [done|]. split; [done|].
    split; [by cbn [forallb]; rewrite Hd|]. split; [|cbn; lia].
    unfold digits_val. cbn [fold_left]. rewrite Z.mod_small by lia. lia.
  - assert (0 < fuel)%nat as Hf'.
    { destruct fuel; [|lia]. change (10 ^ Z.of_nat 1) with 10 in Hn. lia. }
    destruct (IH (n / 10) ((48 + n mod 10) :: acc)) as (ds & -> & Hne & Hds & Hv & Hl); [|done|].
    + split; [apply Z.div_pos; lia|]. apply Z.div_lt_upper_bound; [lia|].
      rewrite <- Z.pow_succ_r by lia. rewrite <- Nat2Z.inj_succ. lia.
    + exists (ds ++ [48 + n mod 10]). rewrite <- app_assoc. split; [done|].
      split; [by destruct ds|]. split.
      * rewrite forallb_app, Hds. cbn [forallb]. by rewrite Hd.
      * split; [|rewrite length_app; cbn; lia].
        rewrite digits_val_app, Hv. pose proof (Z.div_mod n 10). lia.
Qed.

Lemma itoa_spec n : 0 <= n < 10 ^ 64 ->
  itoa n <> [] /\ forallb is_digit (itoa n) = true /\ digits_val (itoa n) = n.
Proof.
  intros Hn. unfold itoa. destruct (digits_of_spec 64 n []) as (ds & -> & ? & ? & ? & _); [done|lia|].
  rewrite app_nil_r. done.
Qed.

Lemma parse_uint_itoa n bits : 0 <= n < 10 ^ 64 -> n < 2 ^ bits -> parse_uint (itoa n) bits = Some n.
Proof.
  intros Hn Hb. destruct (itoa_spec n Hn) as (Hne & Hd & Hv). unfold parse_uint.
  rewrite bool_decide_eq_false_2, Hd, Hv by done. cbn [negb]. by replace (n <? 2 ^ bits) with true by lia.
Qed.

Lemma atoi_digits ds : ds <> [] -> forallb is_digit ds = true -> digits_val ds <= max_int64 ->
  0 <= digits_val ds -> atoi ds = Some (digits_val ds).
Proof.
  intros Hne Hd Hm H0. unfold atoi.
  assert (match ds with 45 :: ds => (true, ds) | 43 :: ds => (false, ds) | _ => (false, ds) end = (false, ds)) as ->.
  { destruct ds as [|c ds]; [done|]. cbn [forallb] in Hd. unfold is_digit in Hd at 1.
    destruct c as [|p|p]; try done. do 6 (destruct p; try done; try lia). }
  rewrite bool_decide_eq_false_2, Hd by done. cbn [negb].
  replace ((min_int64 <=? digits_val ds) && (digits_val ds <=? max_int64)) with true
    by (unfold min_int64, two63; lia). done.
Qed.

Lemma atoi_itoa n : 0 <= n <= max_int64 -> atoi (itoa n) = Some n.
Proof.
  intros Hn. destruct (itoa_spec n) as (Hne & Hd & Hv).
  { unfold max_int64, two63 in Hn. lia. }
  rewrite atoi_digits; rewrite ?Hv; [done|done|done|lia|lia].
Qed.

Lemma digit_not_space c : is_digit c = true -> is_space c = false.
Proof. unfold is_digit, is_space. lia. Qed.

Lemma itoa_no_space n : 0 <= n < 10 ^ 64 -> Forall (fun c => is_space c = false) (itoa n).
Proof.
  intros Hn. destruct (itoa_spec n Hn) as (_ & Hd & _). rewrite forallb_forall in Hd.
  apply List.Forall_forall. intros c Hc. by apply digit_not_space, Hd.
Qed.

#[global] Arguments itoa : simpl never.
#[export] Hint Resolve equal_fold_refl digit_not_space : sbc.
