(* ===== verification/Config.v ===== *)
(** internal/config/types.go: the scalar values of the configuration, and the
    [time.ParseDuration] they rely on. *)

From Corelib Require Import SpecFloat.
From S2P Require Import Prelude GoTime GoText Float64 Offenders.

Open Scope Z_scope.

(** ** [time.ParseDuration] *)

Definition two63' : Z := 2 ^ 63.

(** [leadingInt]: the value of the leading digits and the rest; [None] on
    overflow. *)
Fixpoint leading_int (s : gostring) (x : Z) : option (Z * gostring) :=
  match s with
  | [] => Some (x, [])
  | c :: s' =>
      if is_digit c then
        if two63' / 10 <? x then None
        else let x := 10 * x + (c - 48) in
             if two63' <? x then None else leading_int s' x
      else Some (x, s)
  end.

(** [leadingFraction]: digits after the point as [x / scale]; digits past the
    overflow are read and ignored. *)
Fixpoint leading_fraction (s : gostring) (x : Z) (scale : float64) (overflow : bool)
  : Z * float64 * gostring :=
  match s with
  | [] => (x, scale, [])
  | c :: s' =>
      if is_digit c then
        if overflow then leading_fraction s' x scale true
        else if (two63' - 1) / 10 <? x then leading_fraction s' x scale true
        else let y := 10 * x + (c - 48) in
             if two63' <? y then leading_fraction s' x scale true
             else leading_fraction s' y (fmul scale (of_int 10)) false
      else (x, scale, s)
  end.

Definition unit_of (u : gostring) : option Z :=
  if beq u (str "ns") then Some nanosecond
  else if beq u (str "us") then Some 1000
  else if beq u [194; 181; 115] then Some 1000
  else if beq u [206; 188; 115] then Some 1000
  else if beq u (str "ms") then Some millisecond
  else if beq u (str "s") then Some second
  else if beq u (str "m") then Some minute
  else if beq u (str "h") then Some hour
  else None.

(** [uint64(f)] of a non-negative float64. *)
Definition float_to_uint (f : float64) : Z :=
  match f with
  | S754_finite false m e => if 0 <=? e then Z.pos m * 2 ^ e else Z.pos m / 2 ^ (- e)
  | _ => 0
  end.

Fixpoint until_digit_or_dot (s : gostring) : gostring * gostring :=
  match s with
  | [] => ([], [])
  | c :: s' => if (c =? 46) || is_digit c then ([], s)
               else let '(u, r) := until_digit_or_dot s' in (c :: u, r)
  end.

(** One "number unit" element. *)
Definition duration_element (s : gostring) : option (Z * gostring) :=
  match s with
  | [] => None
  | c :: _ =>
      if negb ((c =? 46) || is_digit c) then None
      else
        match leading_int s 0 with
        | None => None
        | Some (v, s1) =>
            let pre := negb (Nat.eqb (length s1) (length s)) in
            let '(f, scale, s2, post) :=
              match s1 with
              | 46 :: s1' => let '(f, scale, s2) := leading_fraction s1' 0 fone false in
                             (f, scale, s2, negb (Nat.eqb (length s2) (length s1')))
              | _ => (0, fone, s1, false)
              end in
            if negb pre && negb post then None
            else
              let '(u, s3) := until_digit_or_dot s2 in
              match unit_of u with
              | None => None
              | Some unit =>
                  if two63' / unit <? v then None
                  else
                    let v := v * unit in
                    let v := if 0 <? f
                             then v + float_to_uint (fmul (of_int f) (fdiv (of_int unit) scale))
                             else v in
                    if (0 <? f) && (two63' <? v) then None else Some (v, s3)
              end
        end
  end.

(** Every element consumes at least one byte, so the length of the text is
    fuel enough. *)
Fixpoint duration_elements (fuel : nat) (s : gostring) (d : Z) : option Z :=
  match s with
  | [] => Some d
  | _ =>
      match fuel with
      | O => None
      | S fuel' =>
          match duration_element s with
          | None => None
          | Some (v, s') => if two63' <? d + v then None else duration_elements fuel' s' (d + v)
          end
      end
  end.

Definition ParseDuration (s : gostring) : option Z :=
  let '(neg, s) := match s with
                   | 45 :: s' => (true, s')
                   | 43 :: s' => (false, s')
                   | _ => (false, s)
                   end in
  if beq s (str "0") then Some 0
  else if bool_decide (s = []) then None
  else match duration_elements (length s) s 0 with
       | None => None
       | Some d => if (neg : bool) then Some (- d)
                   else if two63' - 1 <? d then None else Some d
       end.

(** ** Rate and strike limits *)

Record RateLimit := mkRate { Rate : Z; Interval : Z; PerIP : bool }.

Definition zero_rate : RateLimit := mkRate 0 0 false.

Definition ParseRateLimit (s : gostring) : option RateLimit :=
  match fields s with
  | [] => None
  | f0 :: rest =>
      let scope := match rest with
                   | [] => Some false
                   | [f1] => if beq f1 (str "per_ip") then Some true else None
                   | _ => None
                   end in
      match scope with
      | None => None
      | Some perIP =>
          let '(num, unit, ok) := cut f0 47 in
          if negb ok then None
          else match atoi num with
               | None => None
               | Some n =>
                   if n <=? 0 then None
                   else if beq unit (str "s") then Some (mkRate n second perIP)
                   else if beq unit (str "m") then Some (mkRate n minute perIP)
                   else if beq unit (str "h") then Some (mkRate n hour perIP)
                   else None
               end
      end
  end.

Definition maxStrikeN : Z := 100000.
Definition maxStrikeWindow : Z := 24 * hour.

Definition ParseStrikeLimit (s : gostring) : option StrikeLimit :=
  let s := trim_space s in
  if beq s (str "off") then Some (mkLimit 0 0 true)
  else
    let '(num, win, ok) := cut s 47 in
    if negb ok then None
    else match atoi num with
         | None => None
         | Some n =>
             if (n <? 1) || (maxStrikeN <? n) then None
             else match ParseDuration win with
                  | None => None
                  | Some d => if (d <? second) || (maxStrikeWindow <? d) then None
                              else Some (mkLimit n d false)
                  end
         end.

(** ** Port ranges *)

Record PortRange := mkRange { Min : Z; Max : Z }.

Definition Pairs (p : PortRange) : Z :=
  let lo := if Z.rem (Min p) 2 =? 0 then Min p else Min p + 1 in
  if Max p <? lo then 0 else Z.quot (Max p - lo + 1) 2.

(** The text of [PortRange.UnmarshalYAML], the YAML scalar already decoded. *)
Definition parse_port_range (s : gostring) : option PortRange :=
  let '(lo, hi, ok) := cut s 45 in
  if negb ok then None
  else match parse_uint (trim_space lo) 16, parse_uint (trim_space hi) 16 with
       | Some a, Some b => if (a =? 0) || (b <=? a) then None else Some (mkRange a b)
       | _, _ => None
       end.

Example duration_90m : ParseDuration (str "1h30m") = Some (90 * minute).
Proof. vm_compute. reflexivity. Qed.
Example duration_fraction : ParseDuration (str "1.5s") = Some 1500000000.
Proof. vm_compute. reflexivity. Qed.
Example duration_bad : ParseDuration (str "10") = None.
Proof. vm_compute. reflexivity. Qed.
Example rate_20 : ParseRateLimit (str "20/s per_ip") = Some (mkRate 20 second true).
Proof. vm_compute. reflexivity. Qed.
Example strike_default : ParseStrikeLimit (str "10/10m") = Some (mkLimit 10 (10 * minute) false).
Proof. vm_compute. reflexivity. Qed.

(** ** Lemmas *)

Lemma ParseRateLimit_ok s rl : ParseRateLimit s = Some rl ->
  0 < Rate rl <= max_int64 /\ (Interval rl = second \/ Interval rl = minute \/ Interval rl = hour).
Proof.
  unfold ParseRateLimit. destruct (fields s) as [|f0 rest]; [done|].
  destruct (match rest with [] => _ | _ => _ end) as [perIP|]; [|done].
  destruct (cut f0 47) as [[num unit] ok]. destruct ok; [|done]. cbn [negb].
  destruct (atoi num) as [n|] eqn:En; [|done].
  destruct (n <=? 0) eqn:E0; [done|].
  assert (n <= max_int64).
  { revert En. unfold atoi. destruct (match num with 45 :: _ => _ | _ => _ end) as [neg ds].
    case_if; [done|]. case_if; [done|]. case_if; [|done]. intros [= <-]. lia. }
  repeat case_if; intros [= <-]; cbn; split; try lia; auto.
Qed.

Lemma ParseStrikeLimit_ok s lim : ParseStrikeLimit s = Some lim -> lim_Off lim = false ->
  1 <= lim_N lim <= maxStrikeN /\ second <= lim_Window lim <= maxStrikeWindow.
Proof.
  unfold ParseStrikeLimit. case_if; [by intros [= <-]|].
  destruct (cut (trim_space s) 47) as [[num win] ok]. destruct ok; [|done]. cbn [negb].
  destruct (atoi num) as [n|]; [|done]. case_if; [done|].
  destruct (ParseDuration win) as [d|]; [|done]. case_if; [done|].
  intros [= <-] _. cbn. lia.
Qed.
