(* ===== verification/Shield.v ===== *)
(** internal/shield/{shield,scanner,banned}.go and the Shield methods of
    offenders.go and aorstrikes.go: the front-door security plane.

    The plane is generic in its ban tables: it is built against the interface
    [BanTable] of BanList.v, and its theorems use only the laws of that
    interface.  Every handler reads the clock, the configuration and the two
    predicates of the edge from an [env]: one instant per handler call.  The
    counters are unbounded integers; the log lines are left out. *)

From S2P Require Import Prelude GoTime Netip Lru Float64 RateLimit BanList Offenders AorStrikes GoText Config.

Open Scope Z_scope.

Inductive Verdict := Allow | Drop.

#[export] Instance Verdict_eq_dec : EqDecision Verdict.
Proof. solve_decision. Defined.

Definition scannerSignatures : list gostring :=
  [ str "friendly-scanner"; str "sipvicious"; str "sipcli"; str "sip-scan"; str "sundayddr";
    str "vaxsipuseragent"; str "sipsak"; str "iwar"; str "sivus"; str "smap"; str "pplsip" ].

Definition isScanner (ua : gostring) : bool :=
  if bool_decide (ua = []) then false
  else let lower := to_lower ua in existsb (fun sig => contains lower sig) scannerSignatures.

Definition bannableTransport (transport : gostring) : bool :=
  let tr := to_lower transport in
  beq tr (str "tcp") || beq tr (str "tls") || beq tr (str "ws") || beq tr (str "wss").

Definition isUDP (transport : gostring) : bool := equal_fold transport (str "udp").

Definition socketBanMax : Z := minute.

(** The part of config.ShieldConfig the plane reads. *)
Record ShieldConfig := mkSCfg {
  cfg_RateLimit : gostring;
  cfg_CarrierRateLimit : gostring;
  cfg_Ban : Z;
  cfg_RegisterBan : gostring;
  cfg_RegisterBanAOR : gostring;
  cfg_AdmissionBan : gostring
}.

(** What a handler call sees of its surroundings. *)
Record env := mkEnv {
  now : Z;
  cfg : ShieldConfig;
  isCarrier : Addr -> bool;
  vouched : gostring -> AddrPort -> bool
}.

(** The cached parses of the limit strings. *)
Record parses := mkParses {
  rlStr : gostring; rlOpts : RateLimit;
  carStr : gostring; carOpts : RateLimit;
  strikeStr : gmap gostring gostring; strikeOpts : gmap gostring StrikeLimit
}.

Record drops := mkDrops { dropsBanned : Z; dropsScanner : Z; dropsRate : Z }.

Definition count_banned (d : drops) : drops := mkDrops (dropsBanned d + 1) (dropsScanner d) (dropsRate d).
Definition count_scanner (d : drops) : drops := mkDrops (dropsBanned d) (dropsScanner d + 1) (dropsRate d).
Definition count_rate (d : drops) : drops := mkDrops (dropsBanned d) (dropsScanner d) (dropsRate d + 1).

(** [rateLimit]: a string that does not parse leaves the limit in force. *)
Definition rateLimit (c : ShieldConfig) (carrier : bool) (p : parses) : RateLimit * parses :=
  if carrier then
    if beq (cfg_CarrierRateLimit c) (carStr p) then (carOpts p, p)
    else match ParseRateLimit (cfg_CarrierRateLimit c) with
         | Some rl => (rl, mkParses (rlStr p) (rlOpts p) (cfg_CarrierRateLimit c) rl
                                    (strikeStr p) (strikeOpts p))
         | None => (carOpts p, p)
         end
  else
    if beq (cfg_RateLimit c) (rlStr p) then (rlOpts p, p)
    else match ParseRateLimit (cfg_RateLimit c) with
         | Some rl => (rl, mkParses (cfg_RateLimit c) rl (carStr p) (carOpts p)
                                    (strikeStr p) (strikeOpts p))
         | None => (rlOpts p, p)
         end.

Definition off_limit : StrikeLimit := mkLimit 0 0 true.
Definition zero_limit : StrikeLimit := mkLimit 0 0 false.

(** [strikeLimit]: a string that does not parse turns the threshold off. *)
Definition strikeLimit (c : ShieldConfig) (why : gostring) (p : parses) : StrikeLimit * parses :=
  let cached (s why : gostring) :=
    if beq (default [] (strikeStr p !! why)) s
    then (default zero_limit (strikeOpts p !! why), p)
    else let lim := default off_limit (ParseStrikeLimit s) in
         (lim, mkParses (rlStr p) (rlOpts p) (carStr p) (carOpts p)
                        (<[why := s]> (strikeStr p)) (<[why := lim]> (strikeOpts p))) in
  if beq why StrikeRegister then cached (cfg_RegisterBan c) StrikeRegister
  else if beq why StrikeAdmission || beq why StrikeMalformed
       then cached (cfg_AdmissionBan c) StrikeAdmission
  else if beq why StrikeRegisterAOR then cached (cfg_RegisterBanAOR c) StrikeRegisterAOR
  else (off_limit, p).

(** A limit that counts nothing. *)
Definition no_limit (lim : StrikeLimit) : bool :=
  lim_Off lim || (lim_N lim <=? 0) || (lim_Window lim <=? 0).

(** The budget a strike reason is charged to, and the key and part of the
    offender table it is counted under. *)
Definition budget_of (why : gostring) : gostring :=
  if beq why StrikeMalformed then StrikeAdmission else why.

Definition udp_suffix : gostring := str "_udp".

Definition strike_key (src : Addr) (why : gostring) (udp : bool) : offenderKey :=
  mkOKey (bucketKey src) (if udp then budget_of why ++ udp_suffix else budget_of why).

Definition strike_part (why : gostring) (udp : bool) : gostring :=
  if beq (budget_of why) StrikeAdmission
  then (if udp then why ++ udp_suffix else why) else [].

Definition unmap_ap (p : AddrPort) : AddrPort := mkAddrPort (unmap (ap_addr p)) (ap_port p).

Section Shield.
Context {TI TS : Type} `{BanTable TI Addr} `{BanTable TS AddrPort}.

Record Shield := mkShield {
  limiter : rateLimiter;
  ipBans : TI;
  socketBans : TS;
  udpBans : TI;
  offenders : offenderTable;
  aors : aorTable;
  counters : drops;
  cache : parses
}.

Definition New : Shield :=
  mkShield newRateLimiter bt_new bt_new bt_new newOffenderTable newAORTable
           (mkDrops 0 0 0) (mkParses [] zero_rate [] zero_rate ∅ ∅).

Definition set_limiter x s := mkShield x (ipBans s) (socketBans s) (udpBans s) (offenders s) (aors s) (counters s) (cache s).
Definition set_ipBans x s := mkShield (limiter s) x (socketBans s) (udpBans s) (offenders s) (aors s) (counters s) (cache s).
Definition set_socketBans x s := mkShield (limiter s) (ipBans s) x (udpBans s) (offenders s) (aors s) (counters s) (cache s).
Definition set_udpBans x s := mkShield (limiter s) (ipBans s) (socketBans s) x (offenders s) (aors s) (counters s) (cache s).
Definition set_offenders x s := mkShield (limiter s) (ipBans s) (socketBans s) (udpBans s) x (aors s) (counters s) (cache s).
Definition set_aors x s := mkShield (limiter s) (ipBans s) (socketBans s) (udpBans s) (offenders s) x (counters s) (cache s).
Definition set_counters x s := mkShield (limiter s) (ipBans s) (socketBans s) (udpBans s) (offenders s) (aors s) x (cache s).
Definition set_cache x s := mkShield (limiter s) (ipBans s) (socketBans s) (udpBans s) (offenders s) (aors s) (counters s) x.

Definition BannedFrom (e : env) (src : AddrPort) (transport : gostring) (s : Shield) : bool * Shield :=
  let src := unmap_ap src in
  let '(hit, tbl) := bt_banned (now e) (ap_addr src) (ipBans s) in
  let s := set_ipBans tbl s in
  if hit then (true, s)
  else if negb (isUDP transport) then (false, s)
  else
    let '(hit, tbl) := bt_banned (now e) (ap_addr src) (udpBans s) in
    let s := set_udpBans tbl s in
    if hit then (true, s)
    else if ap_port src =? 0 then (false, s)
    else let '(hit, tbl) := bt_banned (now e) src (socketBans s) in
         (hit, set_socketBans tbl s).

(** banned.go *)
Definition Banned (e : env) (src : Addr) (s : Shield) : bool * Shield :=
  let '(hit, tbl) := bt_banned (now e) (unmap src) (ipBans s) in (hit, set_ipBans tbl s).

Definition DropBanned (e : env) (src : AddrPort) (transport : gostring) (s : Shield) : bool * Shield :=
  let '(hit, s) := BannedFrom e src transport s in
  if hit then (true, set_counters (count_banned (counters s)) s) else (false, s).

Definition AllowRate (e : env) (src : AddrPort) (transport : gostring) (s : Shield) : bool * Shield :=
  let src := mkAddrPort (with_zone (unmap (ap_addr src)) []) (ap_port src) in
  let '(rl, p) := rateLimit (cfg e) (isCarrier e (ap_addr src)) (cache s) in
  let s := set_cache p s in
  let stream := bannableTransport transport in
  let ipKey := mkRateKey (mkAddrPort (bucketKey (ap_addr src)) 0) stream false in
  let '(ok, l) := RateLimit.take (now e) ipKey (Rate rl) (Interval rl) (PerIP rl) (limiter s) in
  let s := set_limiter l s in
  if ok then (true, s)
  else
    let '(ok, s) :=
      if PerIP rl && vouched e transport src
      then let '(ok, l) := RateLimit.take (now e) (mkRateKey src stream true)
                                          (Rate rl) (Interval rl) true (limiter s) in
           (ok, set_limiter l s)
      else (false, s) in
    if (ok : bool) then (true, s)
    else (false, set_counters (count_rate (counters s)) s).

Definition CheckScanner (e : env) (src : AddrPort) (ua transport : gostring) (s : Shield)
  : Verdict * Shield :=
  let src := unmap_ap src in
  let '(hit, s) := BannedFrom e src transport s in
  if hit then (Drop, set_counters (count_banned (counters s)) s)
  else if negb (isCarrier e (ap_addr src)) && isScanner ua then
    let s := set_counters (count_scanner (counters s)) s in
    if negb (bannableTransport transport) then
      if isUDP transport && negb (ap_port src =? 0) then
        let '(_, tbl) := bt_ban (now e) src (Z.min (cfg_Ban (cfg e)) socketBanMax)
                                BanReasonScanner (socketBans s) in
        (Drop, set_socketBans tbl s)
      else (Drop, s)
    else
      let '(_, tbl) := bt_ban (now e) (ap_addr src) (cfg_Ban (cfg e)) BanReasonScanner (ipBans s) in
      (Drop, set_ipBans tbl s)
  else (Allow, s).

Definition CheckFrom (e : env) (src : AddrPort) (ua transport : gostring) (s : Shield)
  : Verdict * Shield :=
  let src := unmap_ap src in
  let '(hit, s) := BannedFrom e src transport s in
  if hit then (Drop, set_counters (count_banned (counters s)) s)
  else
    let '(ok, s) := AllowRate e src transport s in
    if negb ok then (Drop, s) else CheckScanner e src ua transport s.

Definition Check (e : env) (src : Addr) (ua transport : gostring) (s : Shield) : Verdict * Shield :=
  CheckFrom e (mkAddrPort src 0) ua transport s.

Definition strike (e : env) (src : Addr) (why : gostring) (udp : bool) (s : Shield) : bool * Shield :=
  let src := unmap src in
  if isCarrier e src then (false, s)
  else
    let '(lim, p) := strikeLimit (cfg e) why (cache s) in
    let s := set_cache p s in
    if no_limit lim then (false, s)
    else
      let '(v, o) := Offenders.strike (now e) (strike_key src why udp) (strike_part why udp) lim
                                      (offenders s) in
      let s := set_offenders o s in
      if negb (v_over v) then (false, s)
      else if udp then
        let '(ok, tbl) := bt_ban (now e) src (cfg_Ban (cfg e)) why (udpBans s) in
        (ok, set_udpBans tbl s)
      else
        let '(ok, tbl) := bt_ban (now e) src (cfg_Ban (cfg e)) why (ipBans s) in
        (ok, set_ipBans tbl s).

Definition Strike (e : env) (src : Addr) (why : gostring) (s : Shield) : bool * Shield :=
  strike e src why false s.

Definition StrikeOn (e : env) (src : Addr) (why transport : gostring) (s : Shield) : bool * Shield :=
  strike e src why (negb (bannableTransport transport)) s.

Definition ClearStrikes (src : Addr) (why : gostring) (s : Shield) : Shield :=
  let o := Offenders.clear (mkOKey (bucketKey src) why) (offenders s) in
  let o := if beq why StrikeAdmission
           then Offenders.clear (mkOKey (bucketKey src) StrikeAdmissionUDP) o else o in
  set_offenders o s.

Definition StrikeAOR (e : env) (aor : gostring) (s : Shield) : bool * Shield :=
  if bool_decide (aor = []) then (false, s)
  else
    let '(lim, p) := strikeLimit (cfg e) StrikeRegisterAOR (cache s) in
    let s := set_cache p s in
    if no_limit lim then (false, s)
    else let '(v, a) := AorStrikes.strike (now e) aor lim (cfg_Ban (cfg e)) (aors s) in
         (av_locked v, set_aors a s).

Definition AORLocked (e : env) (aor : gostring) (s : Shield) : bool * Shield :=
  if bool_decide (aor = []) then (false, s)
  else
    let '(lim, p) := strikeLimit (cfg e) StrikeRegisterAOR (cache s) in
    let s := set_cache p s in
    if no_limit lim then (false, s) else (isLocked (now e) aor (aors s), s).

Definition ClearAOR (aor : gostring) (s : Shield) : Shield :=
  set_aors (AorStrikes.clear aor (aors s)) s.

(** One tick of [pruneLoop]. *)
Definition prune_tick (e : env) (s : Shield) : Shield :=
  mkShield (RateLimit.prune (now e) (limiter s))
           (bt_prune (now e) (ipBans s)) (bt_prune (now e) (socketBans s)) (bt_prune (now e) (udpBans s))
           (Offenders.prune (now e) (offenders s)) (AorStrikes.prune (now e) (aors s))
           (counters s) (cache s).

(** A call on the plane, as the edge makes it. *)
Inductive event :=
  | EvCheckFrom (src : AddrPort) (ua transport : gostring)
  | EvAllowRate (src : AddrPort) (transport : gostring)
  | EvCheckScanner (src : AddrPort) (ua transport : gostring)
  | EvDropBanned (src : AddrPort) (transport : gostring)
  | EvStrikeOn (src : Addr) (why transport : gostring)
  | EvClearStrikes (src : Addr) (why : gostring)
  | EvStrikeAOR (aor : gostring)
  | EvAORLocked (aor : gostring)
  | EvClearAOR (aor : gostring)
  | EvPrune.

Definition step (s : Shield) (ev : env * event) : Shield :=
  let '(e, ev) := ev in
  match ev with
  | EvCheckFrom src ua tr => (CheckFrom e src ua tr s).2
  | EvAllowRate src tr => (AllowRate e src tr s).2
  | EvCheckScanner src ua tr => (CheckScanner e src ua tr s).2
  | EvDropBanned src tr => (DropBanned e src tr s).2
  | EvStrikeOn src why tr => (StrikeOn e src why tr s).2
  | EvClearStrikes src why => ClearStrikes src why s
  | EvStrikeAOR aor => (StrikeAOR e aor s).2
  | EvAORLocked aor => (AORLocked e aor s).2
  | EvClearAOR aor => ClearAOR aor s
  | EvPrune => prune_tick e s
  end.


(** ** What a call can do to the ban tables *)

Context `{!BanTableLaws TI Addr} `{!BanTableLaws TS AddrPort}.

(** From [x] to [x'] (seen from [t0] on) no ban is lifted or shortened, and
    one that was not there has cause [c]. *)
Definition grows {T K} `{BanTable T K} (t0 : Z) (c : Z -> K -> bool) (x x' : T) : Prop :=
  bt_ok x -> bt_ok x' /\
  forall t k, t0 <= t ->
    (blocked t k x = true -> blocked t k x' = true) /\
    (blocked t k x' = true -> blocked t k x = true \/ c t k = true).

Section grows.
Context {T K : Type} `{BanTableLaws T K}.
Implicit Types (x : T) (c : Z -> K -> bool).

Lemma grows_refl t0 c x : grows t0 c x x.
Proof. intros Hx. split; [done|]. auto. Qed.

Lemma grows_trans t0 c x y z : grows t0 c x y -> grows t0 c y z -> grows t0 c x z.
Proof.
  intros Hxy Hyz Hx. destruct (Hxy Hx) as [Hy G1]. destruct (Hyz Hy) as [Hz G2].
  split; [done|]. intros t k Ht. destruct (G1 t k Ht), (G2 t k Ht). intuition.
Qed.

Lemma grows_banned now k c x : grows now c x (bt_banned now k x).2.
Proof.
  intros Hx. destruct (bt_banned now k x) as [b x'] eqn:E. split; [by eapply bt_banned_ok|].
  intros t k' Ht. replace (blocked t k' (b, x').2) with (blocked t k' x); [auto|].
  rewrite <- E. symmetry. by apply bt_banned_same.
Qed.

Lemma grows_prune now c x : grows now c x (bt_prune now x).
Proof.
  intros Hx. split; [by apply bt_prune_ok|]. intros t k Ht.
  rewrite bt_prune_same by done. auto.
Qed.

Lemma grows_ban now k d why c x :
  (forall t, now <= t < now + d -> c t k = true) -> grows now c x (bt_ban now k d why x).2.
Proof.
  intros Hc Hx. destruct (bt_ban now k d why x) as [ok x'] eqn:E. split; [by eapply bt_ban_ok|].
  intros t k' Ht. cbn [snd]. destruct ok.
  - rewrite (bt_ban_blocked now k d why x x' t k') by done.
    split; [by intros ->|]. destruct (blocked t k' x); [by left|]. cbn. intros Hb. right.
    breflect. subst. apply Hc. lia.
  - rewrite (bt_ban_refused now k d why x x' t k') by done. auto.
Qed.
End grows.

(** The scanner verdict of [CheckScanner]. *)
Definition scanner_verdict (e : env) (src : AddrPort) (ua : gostring) : bool :=
  negb (isCarrier e (unmap (ap_addr src))) && isScanner ua.

(** Events that may ban the IP [a] at [t] on every transport. *)
Definition causes_ip (e : env) (ev : event) (t : Z) (a : Addr) : bool :=
  (t <? now e + cfg_Ban (cfg e)) && negb (isCarrier e a) &&
  match ev with
  | EvCheckFrom src ua tr | EvCheckScanner src ua tr =>
      bannableTransport tr && isScanner ua && bool_decide (a = unmap (ap_addr src))
  | EvStrikeOn src _ tr => bannableTransport tr && bool_decide (a = unmap src)
  | _ => false
  end.

(** Events that may ban the IP [a] on UDP only. *)
Definition causes_udp (e : env) (ev : event) (t : Z) (a : Addr) : bool :=
  (t <? now e + cfg_Ban (cfg e)) && negb (isCarrier e a) &&
  match ev with
  | EvStrikeOn src _ tr => negb (bannableTransport tr) && bool_decide (a = unmap src)
  | _ => false
  end.

(** Events that may ban the UDP socket [k]. *)
Definition causes_socket (e : env) (ev : event) (t : Z) (k : AddrPort) : bool :=
  (t <? now e + Z.min (cfg_Ban (cfg e)) socketBanMax) && negb (isCarrier e (ap_addr k)) &&
  match ev with
  | EvCheckFrom src ua tr | EvCheckScanner src ua tr =>
      isUDP tr && isScanner ua && negb (ap_port k =? 0) && bool_decide (k = unmap_ap src)
  | _ => false
  end.

Definition bans_ok (s : Shield) : Prop :=
  bt_ok (ipBans s) /\ bt_ok (socketBans s) /\ bt_ok (udpBans s).

Record sgrows (e : env) (ev : event) (s s' : Shield) : Prop := {
  sg_ip : grows (now e) (causes_ip e ev) (ipBans s) (ipBans s');
  sg_sock : grows (now e) (causes_socket e ev) (socketBans s) (socketBans s');
  sg_udp : grows (now e) (causes_udp e ev) (udpBans s) (udpBans s')
}.

Lemma sgrows_same e ev s s' :
  ipBans s' = ipBans s -> socketBans s' = socketBans s -> udpBans s' = udpBans s -> sgrows e ev s s'.
Proof. intros E1 E2 E3. split; rewrite ?E1, ?E2, ?E3; apply grows_refl. Qed.

Lemma sgrows_trans e ev s1 s2 s3 : sgrows e ev s1 s2 -> sgrows e ev s2 s3 -> sgrows e ev s1 s3.
Proof. intros [] []. split; by eapply grows_trans. Qed.

Lemma BannedFrom_grows e ev src tr s : sgrows e ev s (BannedFrom e src tr s).2.
Proof.
  unfold BannedFrom.
  pose proof (fun c => grows_banned (now e) (ap_addr (unmap_ap src)) c (ipBans s)) as G1.
  destruct (bt_banned _ _ (ipBans s)) as [h1 x1]. cbn [snd] in G1.
  pose proof (fun c => grows_banned (now e) (ap_addr (unmap_ap src)) c (udpBans s)) as G2.
  pose proof (fun c => grows_banned (now e) (unmap_ap src) c (socketBans s)) as G3.
  destruct h1; [|destruct (isUDP tr); cbn [negb]].
  - split; cbn; (apply G1 || apply grows_refl).
  - cbn [udpBans set_ipBans socketBans].
    destruct (bt_banned _ _ (udpBans s)) as [h2 x2]. cbn [snd] in G2.
    destruct h2; [split; cbn; (apply G1 || apply G2 || apply grows_refl)|].
    case_if; [split; cbn; (apply G1 || apply G2 || apply grows_refl)|].
    cbn [udpBans set_ipBans set_udpBans socketBans].
    destruct (bt_banned _ _ (socketBans s)) as [h3 x3]. cbn [snd] in G3.
    split; cbn; [apply G1|apply G3|apply G2].
  - split; cbn; (apply G1 || apply grows_refl).
Qed.

(** [BannedFrom] answers what the tables say. *)
Lemma BannedFrom_blocked e src tr s :
  (BannedFrom e src tr s).1 =
  blocked (now e) (unmap (ap_addr src)) (ipBans s)
  || isUDP tr && (blocked (now e) (unmap (ap_addr src)) (udpBans s)
                  || negb (ap_port src =? 0) && blocked (now e) (unmap_ap src) (socketBans s)).
Proof.
  unfold BannedFrom. cbn [ap_addr unmap_ap].
  pose proof (bt_banned_blocked (now e) (unmap (ap_addr src)) (ipBans s)) as G1.
  destruct (bt_banned _ _ (ipBans s)) as [h1 x1]. cbn [fst] in G1. subst h1.
  destruct (blocked _ _ (ipBans s)); [done|].
  destruct (isUDP tr); [|done]. cbn [negb orb andb udpBans set_ipBans].
  pose proof (bt_banned_blocked (now e) (unmap (ap_addr src)) (udpBans s)) as G2.
  destruct (bt_banned _ _ (udpBans s)) as [h2 x2]. cbn [fst] in G2. subst h2.
  destruct (blocked _ _ (udpBans s)); [done|].
  unfold unmap_ap. cbn [ap_port negb orb andb].
  destruct (ap_port src =? 0); [reflexivity|]. cbn [negb orb andb socketBans set_udpBans set_ipBans].
  pose proof (bt_banned_blocked (now e) (mkAddrPort (unmap (ap_addr src)) (ap_port src)) (socketBans s)) as G3.
  destruct (bt_banned _ _ (socketBans s)) as [h3 x3]. cbn [fst] in G3. by subst h3.
Qed.

Lemma AllowRate_tables e src tr s :
  let s' := (AllowRate e src tr s).2 in
  ipBans s' = ipBans s /\ socketBans s' = socketBans s /\ udpBans s' = udpBans s.
Proof.
  unfold AllowRate. destruct (rateLimit _ _ _) as [rl p]. cbv zeta.
  destruct (take _ _ _ _ _ (limiter _)) as [ok l]. destruct ok; [done|].
  case_if; [|done]. destruct (take _ _ _ _ _ (limiter _)) as [[] l']; done.
Qed.

Lemma AllowRate_grows e ev src tr s : sgrows e ev s (AllowRate e src tr s).2.
Proof. destruct (AllowRate_tables e src tr s) as (? & ? & ?). by apply sgrows_same. Qed.

Lemma unmap_ap_idem p : unmap_ap (unmap_ap p) = unmap_ap p.
Proof. unfold unmap_ap. cbn. by rewrite unmap_idem. Qed.

Lemma CheckScanner_grows e ev src ua tr s :
  (forall t a, causes_ip e (EvCheckScanner src ua tr) t a = true -> causes_ip e ev t a = true) ->
  (forall t a, causes_socket e (EvCheckScanner src ua tr) t a = true -> causes_socket e ev t a = true) ->
  sgrows e ev s (CheckScanner e src ua tr s).2.
Proof.
  intros Cip Csock. unfold CheckScanner.
  pose proof (BannedFrom_grows e ev (unmap_ap src) tr s) as G.
  destruct (BannedFrom e (unmap_ap src) tr s) as [hit s1]. cbn [snd] in G.
  eapply sgrows_trans; [exact G|]. clear G.
  destruct hit; [by apply sgrows_same|].
  destruct (negb _ && isScanner ua) eqn:Es; [|by apply sgrows_same].
  apply andb_true_iff in Es as [Ec Es]. destruct (bannableTransport tr) eqn:Eb; cbn [negb].
  - pose proof (grows_ban (now e) (ap_addr (unmap_ap src)) (cfg_Ban (cfg e)) BanReasonScanner
                  (causes_ip e ev) (ipBans s1)) as G.
    cbn [ipBans set_counters]. destruct (bt_ban _ _ _ _ (ipBans s1)) as [ok tbl].
    split; cbn; try apply grows_refl. apply G. intros t Ht. apply Cip.
    unfold causes_ip. cbn [ap_addr unmap_ap] in *. rewrite bool_decide_eq_true_2 by done.
    replace (t <? _) with true by lia. by rewrite Ec, Eb, Es.
  - destruct (isUDP tr && _) eqn:Eu; [|by apply sgrows_same].
    apply andb_true_iff in Eu as [Eu Ep].
    pose proof (grows_ban (now e) (unmap_ap src) (Z.min (cfg_Ban (cfg e)) socketBanMax) BanReasonScanner
                  (causes_socket e ev) (socketBans s1)) as G.
    cbn [socketBans set_counters]. destruct (bt_ban _ _ _ _ (socketBans s1)) as [ok tbl].
    split; cbn; try apply grows_refl. apply G. intros t Ht. apply Csock.
    unfold causes_socket. rewrite bool_decide_eq_true_2 by done.
    replace (t <? _) with true by lia. by rewrite Ec, Eu, Es, Ep.
Qed.

Lemma CheckFrom_grows e src ua tr s :
  sgrows e (EvCheckFrom src ua tr) s (CheckFrom e src ua tr s).2.
Proof.
  unfold CheckFrom.
  pose proof (BannedFrom_grows e (EvCheckFrom src ua tr) (unmap_ap src) tr s) as G.
  destruct (BannedFrom e (unmap_ap src) tr s) as [hit s1]. cbn [snd] in G.
  eapply sgrows_trans; [exact G|]. clear G. destruct hit; [by apply sgrows_same|].
  pose proof (AllowRate_grows e (EvCheckFrom src ua tr) (unmap_ap src) tr s1) as G.
  destruct (AllowRate e (unmap_ap src) tr s1) as [ok s2]. cbn [snd] in G.
  eapply sgrows_trans; [exact G|]. clear G. destruct ok; cbn [negb]; [|by apply sgrows_same].
  apply CheckScanner_grows; intros t a; unfold causes_ip, causes_socket.
  - cbn [ap_addr unmap_ap]. by rewrite unmap_idem.
  - by rewrite unmap_ap_idem.
Qed.

Lemma StrikeOn_grows e src why tr s :
  sgrows e (EvStrikeOn src why tr) s (StrikeOn e src why tr s).2.
Proof.
  unfold StrikeOn, strike. destruct (isCarrier e (unmap src)) eqn:Ec; [by apply sgrows_same|].
  destruct (strikeLimit _ _ _) as [lim p]. cbv zeta. case_if; [by apply sgrows_same|].
  destruct (Offenders.strike _ _ _ _ _) as [v o]. destruct (v_over v); cbn [negb]; [|by apply sgrows_same].
  destruct (bannableTransport tr) eqn:Eb; cbn [negb].
  - pose proof (grows_ban (now e) (unmap src) (cfg_Ban (cfg e)) why
                  (causes_ip e (EvStrikeOn src why tr)) (ipBans s)) as G.
    cbn [ipBans set_offenders set_cache]. destruct (bt_ban _ _ _ _ (ipBans s)) as [ok tbl].
    split; cbn; try apply grows_refl. apply G. intros t Ht.
    unfold causes_ip. rewrite bool_decide_eq_true_2 by done.
    replace (t <? _) with true by lia. by rewrite Eb, Ec.
  - pose proof (grows_ban (now e) (unmap src) (cfg_Ban (cfg e)) why
                  (causes_udp e (EvStrikeOn src why tr)) (udpBans s)) as G.
    cbn [udpBans set_offenders set_cache]. destruct (bt_ban _ _ _ _ (udpBans s)) as [ok tbl].
    split; cbn; try apply grows_refl. apply G. intros t Ht.
    unfold causes_udp. rewrite bool_decide_eq_true_2 by done.
    replace (t <? _) with true by lia. by rewrite Eb, Ec.
Qed.

(** Every call grows the ban tables, by its own causes only. *)
Lemma step_grows s e ev : sgrows e ev s (step s (e, ev)).
Proof.
  destruct ev as [src ua tr|src tr|src ua tr|src tr|src why tr|src why|aor|aor|aor|]; cbn [step].
  - apply CheckFrom_grows.
  - apply AllowRate_grows.
  - by apply CheckScanner_grows.
  - unfold DropBanned. pose proof (BannedFrom_grows e (EvDropBanned src tr) src tr s) as G.
    destruct (BannedFrom e src tr s) as [hit s1]. cbn [snd] in G.
    eapply sgrows_trans; [exact G|]. destruct hit; by apply sgrows_same.
  - apply StrikeOn_grows.
  - by apply sgrows_same.
  - unfold StrikeAOR. case_if; [by apply sgrows_same|].
    destruct (strikeLimit _ _ _) as [lim p]. cbv zeta. case_if; [by apply sgrows_same|].
    destruct (AorStrikes.strike _ _ _ _ _) as [v a]. by apply sgrows_same.
  - unfold AORLocked. case_if; [by apply sgrows_same|].
    destruct (strikeLimit _ _ _) as [lim p]. cbv zeta. case_if; by apply sgrows_same.
  - by apply sgrows_same.
  - split; cbn; apply grows_prune.
Qed.

(** ** Histories *)

(** The calls are made at instants up to [t]. *)
Definition up_to (t : Z) (evs : list (env * event)) : Prop := Forall (fun ev => now ev.1 <= t) evs.

Definition some_cause (c : env -> event -> bool) (evs : list (env * event)) : Prop :=
  exists e ev, (e, ev) ∈ evs /\ c e ev = true.

Lemma some_cause_cons c ev evs : some_cause c evs -> some_cause c (ev :: evs).
Proof. intros (e & v & Hin & Hc). exists e, v. split; [by right|done]. Qed.

Record explained (t : Z) (evs : list (env * event)) (s s' : Shield) : Prop := {
  ex_ip : forall a, (blocked t a (ipBans s) = true -> blocked t a (ipBans s') = true) /\
    (blocked t a (ipBans s') = true ->
     blocked t a (ipBans s) = true \/ some_cause (fun e ev => causes_ip e ev t a) evs);
  ex_sock : forall k, (blocked t k (socketBans s) = true -> blocked t k (socketBans s') = true) /\
    (blocked t k (socketBans s') = true ->
     blocked t k (socketBans s) = true \/ some_cause (fun e ev => causes_socket e ev t k) evs);
  ex_udp : forall a, (blocked t a (udpBans s) = true -> blocked t a (udpBans s') = true) /\
    (blocked t a (udpBans s') = true ->
     blocked t a (udpBans s) = true \/ some_cause (fun e ev => causes_udp e ev t a) evs)
}.

Lemma explain_step (b b1 b2 : bool) (c : env -> event -> bool) e ev evs :
  (b = true -> b1 = true) /\ (b1 = true -> b = true \/ c e ev = true) ->
  (b1 = true -> b2 = true) /\ (b2 = true -> b1 = true \/ some_cause c evs) ->
  (b = true -> b2 = true) /\ (b2 = true -> b = true \/ some_cause c ((e, ev) :: evs)).
Proof.
  intros [M1 C1] [M2 C2]. split; [auto|]. intros Hb.
  destruct (C2 Hb) as [Hb'|Hc]; [|by right; apply some_cause_cons].
  destruct (C1 Hb') as [?|?]; [by left|right]. exists e, ev. split; [by left|done].
Qed.

Lemma run_explained t evs : forall s, bans_ok s -> up_to t evs ->
  bans_ok (run_ops step s evs) /\ explained t evs s (run_ops step s evs).
Proof.
  induction evs as [|[e ev] evs IH]; intros s Hok Hup; [split; [done|split; auto]|].
  apply Forall_cons in Hup as [Ht Hup]. cbn [fst] in Ht.
  destruct (step_grows s e ev) as [G1 G2 G3]. destruct Hok as (K1 & K2 & K3).
  destruct (G1 K1) as [K1' B1], (G2 K2) as [K2' B2], (G3 K3) as [K3' B3].
  destruct (IH (step s (e, ev)) ltac:(done) Hup) as [Hok' [E1 E2 E3]].
  change (run_ops step s ((e, ev) :: evs)) with (run_ops step (step s (e, ev)) evs).
  split; [done|]. split; intros k.
  - exact (explain_step _ _ _ (fun e ev => causes_ip e ev t k) _ _ _ (B1 t k Ht) (E1 k)).
  - exact (explain_step _ _ _ (fun e ev => causes_socket e ev t k) _ _ _ (B2 t k Ht) (E2 k)).
  - exact (explain_step _ _ _ (fun e ev => causes_udp e ev t k) _ _ _ (B3 t k Ht) (E3 k)).
Qed.

Lemma New_ok : bans_ok New.
Proof. repeat split; apply bt_new_ok. Qed.

End Shield.

Arguments Shield : clear implicits.
