(* ===== verification/ShieldSafety.v ===== *)
(** The security plane's theorems: what a history of calls can do to the ban
    tables, which drops are counted, when strikes ban, and which limits are in
    force.  The first group is proved against the ban-table interface. *)

From S2P Require Import Prelude GoTime Netip Lru Float64 RateLimit BanList Offenders AorStrikes GoText Config Shield.

Open Scope Z_scope.

Section Histories.
Context {TI TS : Type} `{BanTable TI Addr} `{BanTable TS AddrPort}.
Context `{!BanTableLaws TI Addr} `{!BanTableLaws TS AddrPort}.
Implicit Types s : Shield TI TS.

(** Some call of the history is a reason for banning the socket [src], for a
    request on [tr] at [t]. *)
Definition earned (t : Z) (src : AddrPort) (tr : gostring) (evs : list (env * event)) : Prop :=
  exists e ev, (e, ev) ∈ evs /\
  (causes_ip e ev t (unmap (ap_addr src))
   || isUDP tr && (causes_udp e ev t (unmap (ap_addr src))
                   || negb (ap_port src =? 0) && causes_socket e ev t (unmap_ap src))) = true.

(** C23: every ban is earned.  Whatever calls the edge makes on a fresh plane,
    a source found banned was named, by one of them, in a scanner User-Agent
    over a stream transport or in a strike over one (any transport), in a
    strike over UDP (UDP only), or in a scanner datagram from that very
    socket (UDP only) - and was not a carrier then, and the ban has not
    outlived shield.ban, or one minute for the socket. *)
Theorem bans_are_earned (evs : list (env * event)) e src tr :
  up_to (now e) evs ->
  (BannedFrom e src tr (run_ops step (New : Shield TI TS) evs)).1 = true ->
  earned (now e) src tr evs.
Proof.
  intros Hup. destruct (run_explained (now e) evs New New_ok Hup) as [_ [E1 E2 E3]].
  rewrite BannedFrom_blocked. intros Hb. unfold earned.
  apply orb_true_iff in Hb as [Hb|Hb]; [|apply andb_true_iff in Hb as [Hu Hb];
    apply orb_true_iff in Hb as [Hb|Hb]; [|apply andb_true_iff in Hb as [Hp Hb]]].
  - destruct (E1 (unmap (ap_addr src))) as [_ C]. destruct (C Hb) as [F|(e' & ev & Hin & Hc)].
    + cbn in F. by rewrite bt_new_free in F.
    + exists e', ev. split; [done|]. by rewrite Hc.
  - destruct (E3 (unmap (ap_addr src))) as [_ C]. destruct (C Hb) as [F|(e' & ev & Hin & Hc)].
    + cbn in F. by rewrite bt_new_free in F.
    + exists e', ev. split; [done|]. by rewrite Hc, Hu, orb_true_r.
  - destruct (E2 (unmap_ap src)) as [_ C]. destruct (C Hb) as [F|(e' & ev & Hin & Hc)].
    + cbn in F. by rewrite bt_new_free in F.
    + exists e', ev. split; [done|]. by rewrite Hc, Hu, Hp, !orb_true_r.
Qed.

(** A call about a request that arrived on a transport whose source address
    is forgeable, or about no request at all. *)
Definition datagram_event (ev : event) : bool :=
  match ev with
  | EvCheckFrom _ _ tr | EvCheckScanner _ _ tr | EvStrikeOn _ _ tr
  | EvAllowRate _ tr | EvDropBanned _ tr => negb (bannableTransport tr)
  | _ => true
  end.

Lemma datagram_no_cause e ev t a : datagram_event ev = true -> causes_ip e ev t a = false.
Proof.
  unfold causes_ip. destruct ev; cbn; intros Hd; try apply negb_true_iff in Hd;
    rewrite ?Hd; apply andb_false_r.
Qed.

(** datagrams never touch streams.  No sequence of calls about datagrams,
    forged source addresses included, changes the ban verdict of any source on
    a transport other than UDP. *)
Theorem datagrams_spare_streams s evs e src tr :
  bans_ok s -> up_to (now e) evs -> isUDP tr = false ->
  Forall (fun ev => datagram_event ev.2 = true) evs ->
  (BannedFrom e src tr (run_ops step s evs)).1 = (BannedFrom e src tr s).1.
Proof.
  intros Hok Hup Htr Hev. destruct (run_explained (now e) evs s Hok Hup) as [_ [E1 _ _]].
  rewrite !BannedFrom_blocked, Htr. cbn [andb]. rewrite !orb_false_r.
  destruct (E1 (unmap (ap_addr src))) as [M C].
  destruct (blocked _ _ (ipBans s)) eqn:Eb; [auto|].
  destruct (blocked _ _ (ipBans (run_ops step s evs))) eqn:Eb'; [|done].
  destruct (C eq_refl) as [?|(e' & ev & Hin & Hc)]; [done|].
  rewrite Forall_forall in Hev. specialize (Hev _ Hin). cbn in Hev.
  by rewrite datagram_no_cause in Hc.
Qed.

(** a ban is never lifted early.  Once a source is banned until after [t],
    no sequence of calls made up to [t] (clears of its strikes and prunes
    included) makes it appear free at [t]. *)
Theorem bans_are_never_lifted s evs e src tr :
  bans_ok s -> up_to (now e) evs ->
  (BannedFrom e src tr s).1 = true ->
  (BannedFrom e src tr (run_ops step s evs)).1 = true.
Proof.
  intros Hok Hup. destruct (run_explained (now e) evs s Hok Hup) as [_ [E1 E2 E3]].
  rewrite !BannedFrom_blocked.
  destruct (E1 (unmap (ap_addr src))) as [M1 _], (E2 (unmap_ap src)) as [M2 _],
    (E3 (unmap (ap_addr src))) as [M3 _].
  destruct (blocked _ _ (ipBans s)); [by rewrite M1|]. cbn [orb].
  destruct (isUDP tr); [|done]. cbn [andb].
  destruct (blocked _ _ (udpBans s)); [by rewrite M3, orb_true_r|]. cbn [orb].
  destruct (negb _); [|done]. cbn [andb]. intros Hb. by rewrite M2, !orb_true_r.
Qed.

Definition total_drops (d : drops) : Z := dropsBanned d + dropsScanner d + dropsRate d.

Lemma BannedFrom_counters e src tr s : counters (BannedFrom e src tr s).2 = counters s.
Proof.
  unfold BannedFrom. destruct (bt_banned _ _ (ipBans s)) as [[] x]; [done|].
  case_if; [done|]. destruct (bt_banned _ _ (udpBans _)) as [[] y]; [done|].
  case_if; [done|]. by destruct (bt_banned _ _ (socketBans _)).
Qed.

Lemma AllowRate_counters e src tr s :
  counters (AllowRate e src tr s).2 =
  if (AllowRate e src tr s).1 then counters s else count_rate (counters s).
Proof.
  unfold AllowRate. destruct (rateLimit _ _ _) as [rl p]. cbv zeta.
  destruct (RateLimit.take _ _ _ _ _ (limiter _)) as [ok l]. destruct ok; [done|].
  case_if; [|done]. destruct (RateLimit.take _ _ _ _ _ (limiter _)) as [[] l']; done.
Qed.

(** The reason a request is dropped for, in the order the code asks. *)
Definition CheckScanner_spec e src ua tr s : Verdict * (drops -> drops) :=
  if (BannedFrom e (unmap_ap src) tr s).1 then (Drop, count_banned)
  else if scanner_verdict e src ua then (Drop, count_scanner)
  else (Allow, id).

Lemma CheckScanner_result e src ua tr s :
  (CheckScanner e src ua tr s).1 = (CheckScanner_spec e src ua tr s).1 /\
  counters (CheckScanner e src ua tr s).2 = (CheckScanner_spec e src ua tr s).2 (counters s).
Proof.
  unfold CheckScanner, CheckScanner_spec, scanner_verdict.
  pose proof (BannedFrom_counters e (unmap_ap src) tr s) as C.
  destruct (BannedFrom e (unmap_ap src) tr s) as [hit s1]. cbn [fst snd] in *. rewrite <- C.
  destruct hit; [done|]. cbn [ap_addr unmap_ap].
  destruct (negb _ && isScanner ua); [|done].
  destruct (bannableTransport tr); cbn [negb].
  - by destruct (bt_ban _ _ _ _ (ipBans _)).
  - case_if; [|done]. by destruct (bt_ban _ _ _ _ (socketBans _)).
Qed.

(** the gate's decision and its accounting.  A request passes exactly when
    its source is not banned, the rate limiter grants it and it is not a
    scanner's (carriers excepted); and every dropped request, and no passed
    one, is counted once, under the first of those reasons. *)
Theorem CheckFrom_verdict e src ua tr s :
  let src' := unmap_ap src in
  let banned := (BannedFrom e src' tr s).1 in
  let s1 := (BannedFrom e src' tr s).2 in
  let admitted := (AllowRate e src' tr s1).1 in
  let s2 := (AllowRate e src' tr s1).2 in
  let banned2 := (BannedFrom e src' tr s2).1 in
  (CheckFrom e src ua tr s).1 =
    (if banned || negb admitted || banned2 || scanner_verdict e src ua then Drop else Allow) /\
  counters (CheckFrom e src ua tr s).2 =
    (if banned then count_banned (counters s)
     else if negb admitted then count_rate (counters s)
     else if banned2 then count_banned (counters s)
     else if scanner_verdict e src ua then count_scanner (counters s)
     else counters s).
Proof.
  cbv zeta. unfold CheckFrom.
  pose proof (BannedFrom_counters e (unmap_ap src) tr s) as C1.
  destruct (BannedFrom e (unmap_ap src) tr s) as [hit s1]. cbn [fst snd] in *. rewrite <- C1.
  destruct hit; [done|]. cbn [orb].
  pose proof (AllowRate_counters e (unmap_ap src) tr s1) as C2.
  destruct (AllowRate e (unmap_ap src) tr s1) as [ok s2]. cbn [fst snd] in *.
  destruct ok; cbn [negb orb]; [|done]. rewrite <- C2.
  destruct (CheckScanner_result e (unmap_ap src) ua tr s2) as [-> ->].
  unfold CheckScanner_spec, scanner_verdict. rewrite unmap_ap_idem. cbn [ap_addr unmap_ap].
  rewrite unmap_idem. destruct (BannedFrom _ _ _ s2).1; [done|]. by destruct (negb _ && _).
Qed.

(** what a strike's answer means.  When [StrikeOn] reports a ban, the
    source is banned from then for the whole of shield.ban: on every transport
    when the request came over a stream, on UDP when it came in a datagram. *)
Theorem reported_strike_bans e e' src port why tr tr' s :
  bans_ok s ->
  (StrikeOn e src why tr s).1 = true ->
  now e <= now e' < now e + cfg_Ban (cfg e) ->
  bannableTransport tr = true \/ isUDP tr' = true ->
  (BannedFrom e' (mkAddrPort src port) tr' (StrikeOn e src why tr s).2).1 = true.
Proof.
  intros (Hip & Hsock & Hudp). unfold StrikeOn, strike.
  destruct (isCarrier e (unmap src)); [done|].
  destruct (strikeLimit _ _ _) as [lim p]. cbv zeta. case_if; [done|].
  destruct (Offenders.strike _ _ _ _ _) as [v o]. destruct (v_over v); cbn [negb]; [|done].
  destruct (bannableTransport tr); cbn [negb].
  all: cbn [ipBans udpBans set_offenders set_cache];
       destruct (bt_ban _ _ _ _ _) as [ok tbl] eqn:Eb; cbn [fst snd]; intros -> [Ht Ht'] Htr;
       rewrite BannedFrom_blocked; cbn [ap_addr ap_port ipBans udpBans set_ipBans set_udpBans];
       first [rewrite (bt_ban_blocked _ _ _ _ _ _ (now e') _ Hip Ht Eb)
             |rewrite (bt_ban_blocked _ _ _ _ _ _ (now e') _ Hudp Ht Eb)];
       rewrite bool_decide_eq_true_2 by done; replace (now e' <? _) with true by lia.
  - by rewrite orb_true_r.
  - destruct Htr as [|Htr]; [done|]. by rewrite Htr, !orb_true_r.
Qed.

End Histories.

(** ** Witnesses and theorems on the code's own tables *)

Abbreviation plane := (Shield (banList Addr) (banList AddrPort)).

Definition demo_cfg : ShieldConfig :=
  mkSCfg (str "20/s per_ip") (str "200/s per_ip") hour (str "2/10m") (str "10/10m") (str "50/5m").

Definition demo_env (t : Z) : env := mkEnv t demo_cfg (fun _ => false) (fun _ _ => false).

Definition demo_src : AddrPort := mkAddrPort (ip4 198 51 100 7) 5060.

Definition demo_scan : list (env * event) :=
  [(demo_env (2 * hour), EvCheckFrom demo_src (str "friendly-scanner") (str "UDP"))].

Lemma bans_are_earned_witness :
  let e := demo_env (2 * hour + second) in
  (BannedFrom e demo_src (str "udp") (run_ops step (New : plane) demo_scan)).1 = true /\
  earned (now e) demo_src (str "udp") demo_scan.
Proof.
  intros e. assert (B : (BannedFrom e demo_src (str "udp") (run_ops step (New : plane) demo_scan)).1 = true)
    by (vm_compute; reflexivity).
  split; [exact B|]. apply (bans_are_earned demo_scan e demo_src (str "udp")); [|exact B].
  repeat constructor. vm_compute. discriminate.
Defined.

Lemma datagrams_spare_streams_witness :
  let e := demo_env (2 * hour + second) in
  (BannedFrom e demo_src (str "tcp") (run_ops step (New : plane) demo_scan)).1 = false.
Proof.
  intros e. rewrite (datagrams_spare_streams (New : plane) demo_scan e demo_src (str "tcp")).
  - vm_compute. reflexivity.
  - apply New_ok.
  - repeat constructor. vm_compute. discriminate.
  - vm_compute. reflexivity.
  - repeat constructor.
Defined.

Lemma bans_are_never_lifted_witness :
  let e := demo_env (2 * hour + second) in
  (BannedFrom e demo_src (str "udp")
     (run_ops step (step (New : plane) (demo_env (2 * hour), EvCheckFrom demo_src (str "sipcli") (str "udp")))
              [(e, EvPrune); (e, EvClearStrikes (ap_addr demo_src) StrikeAdmission)])).1 = true.
Proof.
  intros e. apply bans_are_never_lifted.
  - match goal with |- bans_ok (step New ?x) => change (step New x) with (run_ops step (New : plane) [x]) end.
    apply (run_explained (2 * hour)); [apply New_ok|]. repeat constructor. vm_compute. discriminate.
  - repeat constructor; vm_compute; discriminate.
  - vm_compute. reflexivity.
Defined.

(** ** The limits in force *)

Definition set_rate_strings (rl car : gostring) (c : ShieldConfig) : ShieldConfig :=
  mkSCfg rl car (cfg_Ban c) (cfg_RegisterBan c) (cfg_RegisterBanAOR c) (cfg_AdmissionBan c).

(** The limits a sequence of configurations leaves in force: each is read for
    a source that is a carrier or not. *)
Fixpoint rate_limits (cs : list (ShieldConfig * bool)) (p : parses) : list RateLimit :=
  match cs with
  | [] => []
  | (c, carrier) :: cs' => let '(rl, p') := rateLimit c carrier p in rl :: rate_limits cs' p'
  end.

(** The same without a cache: the last string that parsed, per plane. *)
Fixpoint last_valid (cs : list (ShieldConfig * bool)) (pub car : RateLimit) : list RateLimit :=
  match cs with
  | [] => []
  | (c, true) :: cs' => let rl := default car (ParseRateLimit (cfg_CarrierRateLimit c)) in
                        rl :: last_valid cs' pub rl
  | (c, false) :: cs' => let rl := default pub (ParseRateLimit (cfg_RateLimit c)) in
                         rl :: last_valid cs' rl car
  end.

(** What a cached string and its parse have to do with each other. *)
Definition cache_ok (s : gostring) (rl : RateLimit) : Prop :=
  match ParseRateLimit s with Some rl' => rl' = rl | None => True end.

Lemma rate_limits_cached cs : forall p,
  cache_ok (rlStr p) (rlOpts p) -> cache_ok (carStr p) (carOpts p) ->
  rate_limits cs p = last_valid cs (rlOpts p) (carOpts p).
Proof.
  induction cs as [|[c []] cs IH]; intros p H1 H2; [done|..]; cbn [rate_limits last_valid]; unfold rateLimit.
  - destruct (beq _ _) eqn:E.
    + apply beq_eq in E. rewrite E. unfold cache_ok in H2.
      replace (default (carOpts p) (ParseRateLimit (carStr p))) with (carOpts p)
        by (by destruct (ParseRateLimit (carStr p))).
      f_equal. by apply IH.
    + destruct (ParseRateLimit (cfg_CarrierRateLimit c)) as [rl|] eqn:Ep; cbn [default]; f_equal; [|by apply IH].
      match goal with |- rate_limits cs ?q = _ => apply (IH q); cbn; [done|] end.
      unfold cache_ok. by rewrite Ep.
  - destruct (beq _ _) eqn:E.
    + apply beq_eq in E. rewrite E. unfold cache_ok in H1.
      replace (default (rlOpts p) (ParseRateLimit (rlStr p))) with (rlOpts p)
        by (by destruct (ParseRateLimit (rlStr p))).
      f_equal. by apply IH.
    + destruct (ParseRateLimit (cfg_RateLimit c)) as [rl|] eqn:Ep; cbn [default]; f_equal; [|by apply IH].
      match goal with |- rate_limits cs ?q = _ => apply (IH q); cbn; [|done] end.
      unfold cache_ok. by rewrite Ep.
Qed.

(** a reload that does not parse keeps the limit in force.  Over any
    sequence of configurations, the limit applied to a source is the last
    string of its plane that parsed, and the cache of parses is invisible. *)
Theorem bad_rate_limit_keeps_last cs :
  rate_limits cs (cache (New : plane)) = last_valid cs zero_rate zero_rate.
Proof. by apply rate_limits_cached. Qed.

(** ** The vouched floor *)

Lemma take_floor now key rate ivl r :
  limiter_wf r -> small_int rate -> unit_interval ivl ->
  match entries (buckets r) !! key with Some b => (spend now rate ivl b).1 = true | None => True end ->
  (RateLimit.take now key rate ivl true r).1 = true.
Proof.
  intros Hwf Hr Hi Hb. pose proof (unit_interval_pos _ Hi). pose proof Hr as [? _].
  destruct (RateLimit.take now key rate ivl true r) as [ok r'] eqn:E.
  apply take_bucket in E as [-> _]; [|done..]. cbn [fst].
  destruct (entries (buckets r) !! key); [done|].
  rewrite spend_int by (auto; lia). cbn [fst]. lia.
Qed.

(** a proven socket keeps its own rate during a flood.  Under a per-IP
    limit, a request from a socket the edge vouches for is admitted whatever
    the state of its IP's bucket, as long as the socket's own bucket (if it
    has one) holds a token. *)
Theorem vouched_socket_keeps_its_rate e addr port tr (s : plane) :
  let src := mkAddrPort addr port in
  let src' := mkAddrPort (with_zone (unmap addr) []) port in
  let rl := (rateLimit (cfg e) (isCarrier e (ap_addr src')) (cache s)).1 in
  let key := mkRateKey src' (bannableTransport tr) true in
  limiter_wf (limiter s) -> PerIP rl = true -> small_int (Rate rl) -> unit_interval (Interval rl) ->
  vouched e tr src' = true ->
  match entries (buckets (limiter s)) !! key with
  | Some b => (spend (now e) (Rate rl) (Interval rl) b).1 = true | None => True end ->
  (AllowRate e src tr s).1 = true.
Proof.
  cbv zeta. intros Hwf Hper Hr Hi Hv Hb. unfold AllowRate. cbn [ap_addr ap_port] in *.
  destruct (rateLimit _ _ _) as [rl p]. cbn [fst] in *. cbv zeta. rewrite Hper, Hv. cbn [andb].
  destruct (RateLimit.take _ _ _ _ _ (limiter _)) as [ok l] eqn:E1. destruct ok; [done|].
  cbn [limiter set_cache set_limiter] in *.
  pose proof (take_wf _ _ _ _ _ _ _ _ Hwf E1) as Hwf1.
  pose proof (take_floor (now e) (mkRateKey (mkAddrPort (with_zone (unmap addr) []) port)
                (bannableTransport tr) true) _ _ l Hwf1 Hr Hi) as F.
  destruct (RateLimit.take _ _ _ _ true l) as [ok2 l2]. cbn [fst] in F.
  rewrite F; [done|]. eapply take_other in E1 as [->|(_ & _ & ->)]; [exact Hb|done|discriminate].
Qed.

(** ** Strikes to a ban *)

(** Strikes of one source for refused REGISTERs, over a stream, at the
    instants of [es]: what each call reports. *)
Fixpoint strike_seq (es : list env) (src : Addr) (s : plane) : list bool :=
  match es with
  | [] => []
  | e :: es' => let '(b, s') := strike e src StrikeRegister false s in b :: strike_seq es' src s'
  end.

Definition strike_cached (c : gostring) (lim : StrikeLimit) (p : parses) : Prop :=
  default [] (strikeStr p !! StrikeRegister) = c /\
  default zero_limit (strikeOpts p !! StrikeRegister) = lim.

Lemma strikeLimit_register c p lim :
  (default [] (strikeStr p !! StrikeRegister) = [] \/ strike_cached (cfg_RegisterBan c) lim p) ->
  ParseStrikeLimit (cfg_RegisterBan c) = Some lim -> cfg_RegisterBan c <> [] ->
  exists p', strikeLimit c StrikeRegister p = (lim, p') /\ strike_cached (cfg_RegisterBan c) lim p'.
Proof.
  intros Hp Hlim Hne. unfold strikeLimit. rewrite beq_refl.
  destruct (beq (default [] (strikeStr p !! StrikeRegister)) (cfg_RegisterBan c)) eqn:E.
  - apply beq_eq in E. destruct Hp as [Hp|[H1 H2]]; [congruence|]. exists p. by rewrite H2.
  - eexists. split; [by rewrite Hlim|]. split; cbn; by rewrite lookup_insert_eq.
Qed.

(** A table that holds no key but [k]. *)
Definition only {K A} `{Countable K} (k : K) (m : gmap K A) : Prop := forall x, x <> k -> m !! x = None.

Lemma only_size {K A} `{Countable K} (k : K) (m : gmap K A) : only k m -> (size m <= 1)%nat.
Proof.
  intros Ho. rewrite <- (size_dom (D:=gset K)). transitivity (size ({[ k ]} : gset K)).
  - apply subseteq_size. intros x Hx. apply elem_of_dom in Hx as [v Hv].
    destruct (decide (x = k)); [set_solver|]. by rewrite Ho in Hv.
  - by rewrite size_singleton.
Qed.

Lemma ban_only t key d why (b : banList Addr) :
  only key (bans b) -> (ban t t t key d why b).1 = true /\ only key (bans (ban t t t key d why b).2).
Proof.
  intros Ho. pose proof (only_size _ _ Ho) as Hs.
  assert (Hc : banCap <=? count b = false).
  { unfold count. assert (banCap = 65536) by reflexivity. lia. }
  assert (Hi : forall e, only key (<[key := e]> (bans b))).
  { intros e x Hx. rewrite lookup_insert_ne by done. by apply Ho. }
  unfold ban. rewrite Hc, andb_false_r. destruct (bans b !! key); [case_if|]; split; cbn [fst snd bans]; auto.
Qed.

Lemma strike_only e src s lim c :
  let key := strike_key (unmap src) StrikeRegister false in
  isCarrier e (unmap src) = false -> cfg_RegisterBan (cfg e) = c -> c <> [] ->
  ParseStrikeLimit c = Some lim -> lim_Off lim = false ->
  default [] (strikeStr (cache s) !! StrikeRegister) = [] \/ strike_cached c lim (cache s) ->
  otable_wf (offenders s) -> 1 <= omax (offenders s) ->
  only key (entries (otab (offenders s))) -> only (unmap src) (bans (ipBans s)) ->
  let '(v, m) := spec_strike (now e) key [] lim (entries (otab (offenders s))) in
  let '(b, s') := strike e src StrikeRegister false (s : plane) in
  b = v_over v /\ strike_cached c lim (cache s') /\ otable_wf (offenders s') /\
  omax (offenders s') = omax (offenders s) /\ entries (otab (offenders s')) = m /\
  only key m /\ only (unmap src) (bans (ipBans s')).
Proof.
  intros key Hcar Hc Hne Hlim Hoff Hp Hwf Hmax Hk Hban. subst c.
  destruct (spec_strike _ _ _ _ _) as [v m] eqn:Espec. unfold strike. rewrite Hcar.
  destruct (strikeLimit_register (cfg e) (cache s) lim Hp Hlim Hne) as (p' & -> & Hp').
  destruct (ParseStrikeLimit_ok _ _ Hlim Hoff) as [HN HW].
  assert (second = 1000000000) by reflexivity.
  replace (no_limit lim) with false by (unfold no_limit; rewrite Hoff; lia). fold key.
  change (strike_part StrikeRegister false) with ([] : gostring).
  cbn [offenders set_cache]. destruct (Offenders.strike _ _ _ _ _) as [v' o] eqn:Es.
  assert (Hfit : Z.of_nat (size (dom (entries (otab (offenders s))) ∪ {[ key ]})) <= omax (offenders s)).
  { transitivity 1; [|done]. change 1 with (Z.of_nat 1). apply inj_le.
    transitivity (size ({[ key ]} : gset offenderKey)); [|by rewrite size_singleton].
    apply subseteq_size. intros x Hx. apply elem_of_union in Hx as [Hx|?]; [|done].
    apply elem_of_dom in Hx as [w Hw]. destruct (decide (x = key)); [set_solver|]. by rewrite Hk in Hw. }
  destruct (off_strike_wf _ _ _ _ _ _ _ Hwf Es) as [Hwf' Hmax'].
  pose proof (strike_spec _ _ _ _ _ _ _ Hwf Hfit Es) as E. rewrite Espec in E. injection E as -> ->.
  assert (Ho : only key (entries (otab o))).
  { revert Espec. unfold spec_strike. destruct (match _ !! key with Some o => _ | None => _ end) as [v0 o0].
    intros [= _ <-] x Hx. rewrite lookup_insert_ne by done. by apply Hk. }
  destruct (v_over v') eqn:Ev; cbn [negb].
  - pose proof (ban_only (now e) (unmap src) (cfg_Ban (cfg e)) StrikeRegister (ipBans s) Hban) as [B1 B2].
    unfold bt_ban, banList_BanTable. cbn [ipBans set_offenders set_cache].
    destruct (ban _ _ _ _ _ _ _) as [ok tbl]. cbn [fst snd] in *. subst ok. split_and!; try done.
  - split_and!; try done.
Qed.

Lemma strike_seq_counts es src c lim : forall s,
  let key := strike_key (unmap src) StrikeRegister false in
  Forall (fun e => isCarrier e (unmap src) = false /\ cfg_RegisterBan (cfg e) = c) es ->
  c <> [] -> ParseStrikeLimit c = Some lim -> lim_Off lim = false ->
  default [] (strikeStr (cache s) !! StrikeRegister) = [] \/ strike_cached c lim (cache s) ->
  otable_wf (offenders s) -> 1 <= omax (offenders s) ->
  only key (entries (otab (offenders s))) -> only (unmap src) (bans (ipBans s)) ->
  strike_seq es src s =
  map v_over (strike_times key lim (map now es) (entries (otab (offenders s)))).
Proof.
  induction es as [|e es IH]; intros s key Hes Hne Hlim Hoff Hp Hwf Hmax Hk Hban; [done|].
  apply Forall_cons in Hes as [[Hcar Hc] Hes]. cbn [strike_seq map strike_times].
  pose proof (strike_only e src s lim c Hcar Hc Hne Hlim Hoff Hp Hwf Hmax Hk Hban) as R.
  cbv zeta in R. fold key in R.
  destruct (spec_strike _ _ _ _ _) as [v m]. destruct (strike e src _ _ s) as [b s'].
  destruct R as (-> & Hp' & Hwf' & Hmax' & <- & Hk' & Hban'). cbn [map]. f_equal.
  apply IH; try done; [by right|by rewrite Hmax'].
Qed.

(** strikes ban exactly over the threshold.  With shield.register_ban =
    "n/window" a source that is not a carrier and was never struck is banned
    by the strike after its [n]-th within one window, and by every further
    one in that window; the first [n] ban nothing. *)
Theorem strikes_ban_over_threshold e es src c lim :
  c <> [] -> ParseStrikeLimit c = Some lim -> lim_Off lim = false ->
  Forall (fun e => isCarrier e (unmap src) = false /\ cfg_RegisterBan (cfg e) = c) (e :: es) ->
  Forall (fun e' => time_sub (now e') (now e) < lim_Window lim) es ->
  strike_seq (e :: es) src New = imap (fun i _ => lim_N lim <? Z.of_nat i + 1) (e :: es).
Proof.
  intros Hne Hlim Hoff Hes Hwin. rewrite (strike_seq_counts _ _ c lim); try done.
  - destruct (ParseStrikeLimit_ok _ _ Hlim Hoff) as [HN HW]. cbn [map].
    assert (second = 1000000000) by reflexivity.
    rewrite window_counts_exactly; [|lia|lia| |by rewrite Forall_map].
    + change (now e :: map now es) with (now <$> e :: es). rewrite imap_fmap.
      change (map v_over ?l) with (v_over <$> l). rewrite fmap_imap.
      apply imap_ext. by intros i x _.
    + done.
  - by left.
  - apply newOffenderTable_wf.
Qed.

Lemma strikes_ban_over_threshold_witness :
  let a := V6 1 [] in
  strike_seq [demo_env 5; demo_env 6; demo_env 7; demo_env 8] a New = [false; false; true; true].
Proof.
  intros a. rewrite (strikes_ban_over_threshold (demo_env 5) [demo_env 6; demo_env 7; demo_env 8] a
                       (str "2/10m") (mkLimit 2 (10 * minute) false)).
  - reflexivity.
  - discriminate.
  - vm_compute. reflexivity.
  - reflexivity.
  - repeat constructor.
  - repeat constructor.
Defined.

Lemma reported_strike_bans_witness :
  let a := ap_addr demo_src in
  let s0 := run_ops step (New : plane) [(demo_env 5, EvStrikeOn a StrikeRegister (str "tcp"));
                                        (demo_env 6, EvStrikeOn a StrikeRegister (str "tcp"))] in
  (BannedFrom (demo_env hour) (mkAddrPort a 9) (str "wss")
     (StrikeOn (demo_env 7) a StrikeRegister (str "tcp") s0).2).1 = true.
Proof.
  intros a s0. apply (reported_strike_bans (demo_env 7) (demo_env hour) a 9 StrikeRegister (str "tcp")).
  - apply (run_explained 7); [apply New_ok|]. repeat constructor; vm_compute; discriminate.
  - vm_compute. reflexivity.
  - vm_compute. split; [discriminate|reflexivity].
  - left. vm_compute. reflexivity.
Defined.

Lemma vouched_socket_keeps_its_rate_witness :
  let e := mkEnv 5 demo_cfg (fun _ => false) (fun _ _ => true) in
  (AllowRate e (mkAddrPort (ip4 198 51 100 7) 5060) (str "udp") (New : plane)).1 = true.
Proof.
  intros e. apply (vouched_socket_keeps_its_rate e (ip4 198 51 100 7) 5060 (str "udp") New).
  - apply newRateLimiter_wf.
  - vm_compute. reflexivity.
  - vm_compute. split; reflexivity.
  - vm_compute. by left.
  - reflexivity.
  - vm_compute. exact I.
Defined.
