(* ===== verification/PortPool.v ===== *)
(** internal/media/portpool.go: the RTP/RTCP port pools of the two planes.

    The sockets the process holds are a set of (bind address, port); whether
    the system lets a socket be bound is the oracle [listen_ok], an argument of
    the definitions that bind.  [PoolConcurrency] is the pool as the code's
    concurrent callers see it: [reserveNext] and [release] are its atomic
    steps, and binding happens between them. *)

From S2P Require Import Prelude Netip.

Open Scope Z_scope.

Record DestPolicy := mkPolicy { Restrict : bool; AllowPrivate : bool; Own : list Addr }.

(** 100.64.0.0/10 *)
Definition in_cgnat (ip : Addr) : bool := v4prefix_contains 1681915904 10 ip.

Definition refuses (p : DestPolicy) (ip : Addr) : bool :=
  if negb (Restrict p) || is_loopback ip then false
  else if is_private ip || in_cgnat ip then negb (AllowPrivate p)
  else existsb (fun o => addr_eqb (unmap o) ip) (Own p).

Record PlaneParams := mkParams {
  MinPort : Z; MaxPort : Z;
  BindIP : Addr;
  Timeout : Z;
  AllowLoopback : bool;
  Dest : DestPolicy
}.

Record PlanePool := mkPool { inUse : gset Z; cursor : Z }.

Definition NewPlanePool : PlanePool := mkPool ∅ 0.

Definition range_lo (par : PlaneParams) : Z :=
  if Z.rem (MinPort par) 2 =? 0 then MinPort par else MinPort par + 1.

(** [(hi - lo + 1) / 2], truncated towards zero. *)
Definition range_pairs (par : PlaneParams) : Z := Z.quot (MaxPort par - range_lo par + 1) 2.

Definition reserveNext (lo hi : Z) (p : PlanePool) : Z * bool * PlanePool :=
  let c := if (cursor p <? lo) || (hi <? cursor p + 1) then lo else cursor p in
  let port := c in
  let c' := c + 2 in
  let c' := if hi <? c' + 1 then lo else c' in
  if bool_decide (port ∈ inUse p)
  then (port, false, mkPool (inUse p) c')
  else (port, true, mkPool ({[ port ]} ∪ inUse p) c').

Definition release (port : Z) (p : PlanePool) : PlanePool :=
  mkPool (inUse p ∖ {[ port ]}) (cursor p).

(** The sockets the process holds. *)
Abbreviation sockets := (gset (Addr * Z)).

Section Sweep.
Variable bind : Z -> sockets -> option sockets.

(** The loop of [sweep]: [n] candidates left. *)
Fixpoint sweep_loop (n : nat) (lo hi : Z) (p : PlanePool) (w : sockets)
  : option Z * PlanePool * sockets :=
  match n with
  | O => (None, p, w)
  | S n' =>
      let '(port, ok, p1) := reserveNext lo hi p in
      if negb ok then sweep_loop n' lo hi p1 w
      else match bind port w with
           | Some w' => (Some port, p1, w')
           | None => sweep_loop n' lo hi (release port p1) w
           end
  end.

Definition sweep (par : PlaneParams) (p : PlanePool) (w : sockets) : option Z * PlanePool * sockets :=
  sweep_loop (Z.to_nat (range_pairs par)) (range_lo par) (MaxPort par) p w.
End Sweep.

Section Binding.
(** Whether the system binds (address, port) when this process does not hold it. *)
Variable listen_ok : Addr -> Z -> bool.

Definition listenUDP (ip : Addr) (port : Z) (w : sockets) : option sockets :=
  if bool_decide ((ip, port) ∈ w) || negb (listen_ok ip port) then None
  else Some ({[ (ip, port) ]} ∪ w).

Definition close_socket (ip : Addr) (port : Z) (w : sockets) : sockets := w ∖ {[ (ip, port) ]}.

Definition bindPair (ip : Addr) (port : Z) (w : sockets) : option sockets :=
  match listenUDP ip port w with
  | None => None
  | Some w1 => match listenUDP ip (port + 1) w1 with
               | None => None       (* the RTP socket is closed again: [w] *)
               | Some w2 => Some w2
               end
  end.

Definition allocatePairWith (par : PlaneParams) : PlanePool -> sockets -> option Z * PlanePool * sockets :=
  sweep (bindPair (BindIP par)) par.

Definition allocateSingle (par : PlaneParams) : PlanePool -> sockets -> option Z * PlanePool * sockets :=
  sweep (listenUDP (BindIP par)) par.
End Binding.

(** portPair.Close *)
Definition close_pair (ip : Addr) (port : Z) (w : sockets) : sockets :=
  close_socket ip (port + 1) (close_socket ip port w).

Definition Stats (par : PlaneParams) (p : PlanePool) : Z * Z :=
  let lo := range_lo par in
  let hi := MaxPort par in
  let total := range_pairs par in
  let total := if total <? 0 then 0 else total in
  (Z.of_nat (size (filter (fun port => lo <= port /\ port + 1 <= hi) (inUse p))), total).

(** ** The candidates of a sweep *)

Definition params_ok (par : PlaneParams) : Prop :=
  0 <= MinPort par <= 65535 /\ 0 <= MaxPort par <= 65535.

Definition pool_ok (p : PlanePool) : Prop :=
  Z.even (cursor p) = true /\ forall port, port ∈ inUse p -> Z.even port = true.

Lemma range_lo_even par : params_ok par -> Z.even (range_lo par) = true.
Proof.
  intros [? _]. unfold range_lo. rewrite Zeven_mod, Z.rem_mod_nonneg by lia.
  case_if; apply Z.eqb_eq; Z.to_euclidean_division_equations; lia.
Qed.

Lemma even_half z : Z.even z = true -> z = 2 * (z / 2).
Proof. intros H. rewrite Zeven_mod in H. pose proof (Z.div_mod z 2). lia. Qed.

(** The [k]-th even port of the range. *)
Definition cand (lo k : Z) : Z := lo + 2 * k.

Lemma range_pairs_spec par : 0 < range_pairs par ->
  forall k, (0 <= k < range_pairs par <-> range_lo par <= cand (range_lo par) k /\ cand (range_lo par) k + 1 <= MaxPort par).
Proof.
  unfold range_pairs, cand. intros Hn k.
  destruct (Z.le_gt_cases 0 (MaxPort par - range_lo par + 1)) as [H|H].
  - rewrite Z.quot_div_nonneg in * by lia.
    pose proof (Z.div_mod (MaxPort par - range_lo par + 1) 2).
    pose proof (Z.mod_pos_bound (MaxPort par - range_lo par + 1) 2). lia.
  - assert (Z.quot (MaxPort par - range_lo par + 1) 2 <= 0); [|lia].
    apply Z.quot_le_upper_bound; lia.
Qed.

(** Where the cursor stands: the candidate index the next reservation tries. *)
Definition at_index (lo hi j : Z) (p : PlanePool) : Prop :=
  (if (cursor p <? lo) || (hi <? cursor p + 1) then lo else cursor p) = cand lo j.

Section Walk.
Variables (par : PlaneParams).
Hypothesis (Hpar : params_ok par) (Hn : 0 < range_pairs par).
Let lo := range_lo par.
Let hi := MaxPort par.
Let n := range_pairs par.

Lemma reserve_at j p : 0 <= j < n -> at_index lo hi j p -> pool_ok p ->
  let '(port, ok, p') := reserveNext lo hi p in
  port = cand lo j /\ ok = bool_decide (cand lo j ∉ inUse p) /\
  inUse p' = (if ok then {[ port ]} ∪ inUse p else inUse p) /\
  at_index lo hi ((j + 1) mod n) p' /\ pool_ok p'.
Proof.
  intros Hj Hat [Hc Hu]. unfold reserveNext. rewrite Hat.
  set (c' := if hi <? cand lo j + 2 + 1 then lo else cand lo j + 2).
  assert (Hc' : c' = cand lo ((j + 1) mod n)).
  { unfold c'. pose proof (range_pairs_spec par Hn (j + 1)) as S1. fold lo hi n in S1.
    destruct (decide (j + 1 < n)) as [Hlt|Hge].
    - rewrite Z.mod_small by lia. unfold cand in *. replace (hi <? _) with false by lia. lia.
    - replace (j + 1) with n by lia. rewrite Z.mod_same by lia. unfold cand in *.
      replace (hi <? _) with true by lia. lia. }
  assert (Hrange : 0 <= (j + 1) mod n < n) by (apply Z.mod_pos_bound; lia).
  assert (Heven : forall k, Z.even (cand lo k) = true).
  { intros k. unfold cand. rewrite Z.even_add_mul_2. by apply range_lo_even. }
  assert (Hat' : forall q, cursor q = c' -> at_index lo hi ((j + 1) mod n) q).
  { intros q Hq. unfold at_index. rewrite Hq, Hc'.
    pose proof (range_pairs_spec par Hn ((j + 1) mod n)) as S1. fold lo hi n in S1.
    replace ((cand lo ((j + 1) mod n) <? lo) || _) with false by lia. done. }
  destruct (bool_decide (cand lo j ∈ inUse p)) eqn:E; breflect.
  - split_and!; [done| |done|by apply Hat'|split; cbn; [by rewrite Hc'|done]].
    symmetry. apply bool_decide_eq_false. by intros ?.
  - split_and!; [done| |done|by apply Hat'|split; cbn; [by rewrite Hc'|]].
    + symmetry. by apply bool_decide_eq_true.
    + intros port Hin. apply elem_of_union in Hin as [Hin|Hin]; [|by apply Hu].
      apply elem_of_singleton in Hin as ->. apply Heven.
Qed.

Lemma index_of p : pool_ok p -> exists j, 0 <= j < n /\ at_index lo hi j p.
Proof.
  intros [Hc _]. unfold at_index. destruct ((cursor p <? lo) || _) eqn:E.
  - exists 0. unfold cand. lia.
  - exists ((cursor p - lo) / 2).
    assert (He : Z.even (cursor p - lo) = true).
    { rewrite Z.even_sub, Hc. unfold lo. by rewrite range_lo_even. }
    apply even_half in He. split; [|unfold cand; lia].
    apply (range_pairs_spec par Hn). fold lo hi. unfold cand. lia.
Qed.

(** A port this pool could hand out. *)
Definition available (bind : Z -> sockets -> option sockets) (p : PlanePool) (w : sockets) (port : Z) : Prop :=
  port ∉ inUse p /\ exists w', bind port w = Some w'.

Lemma sweep_loop_spec bind w m : forall j p,
  0 <= j < n -> at_index lo hi j p -> pool_ok p ->
  let '(r, p', w') := sweep_loop bind m lo hi p w in
  pool_ok p' /\
  match r with
  | Some port => exists i, 0 <= i < Z.of_nat m /\ port = cand lo ((j + i) mod n) /\
      port ∉ inUse p /\ bind port w = Some w' /\ inUse p' = {[ port ]} ∪ inUse p
  | None => inUse p' = inUse p /\ w' = w /\
      forall i, 0 <= i < Z.of_nat m -> ~ available bind p w (cand lo ((j + i) mod n))
  end.
Proof.
  induction m as [|m IH]; intros j p Hj Hat Hok; cbn [sweep_loop].
  { split; [done|]. split; [done|]. split; [done|]. intros i Hi. lia. }
  pose proof (reserve_at j p Hj Hat Hok) as R.
  destruct (reserveNext lo hi p) as [[port ok] p1]. destruct R as (-> & -> & Hin & Hat1 & Hok1).
  assert (Hj1 : 0 <= (j + 1) mod n < n) by (apply Z.mod_pos_bound; lia).
  assert (Hshift : forall i, ((j + 1) mod n + i) mod n = (j + (1 + i)) mod n).
  { intros i. rewrite Zplus_mod_idemp_l. f_equal. lia. }
  assert (H0 : (j + 0) mod n = j) by (rewrite Z.mod_small; lia).
  (* what is left once this candidate has failed, leaving the pool [q] *)
  assert (Hrest : forall q, inUse q = inUse p -> at_index lo hi ((j + 1) mod n) q -> pool_ok q ->
            ~ available bind p w (cand lo j) ->
            let '(r, p', w') := sweep_loop bind m lo hi q w in
            pool_ok p' /\
            match r with
            | Some port => exists i, 0 <= i < Z.of_nat (S m) /\ port = cand lo ((j + i) mod n) /\
                port ∉ inUse p /\ bind port w = Some w' /\ inUse p' = {[ port ]} ∪ inUse p
            | None => inUse p' = inUse p /\ w' = w /\
                forall i, 0 <= i < Z.of_nat (S m) -> ~ available bind p w (cand lo ((j + i) mod n))
            end).
  { intros q Hq Hatq Hokq Hno. pose proof (IH _ q Hj1 Hatq Hokq) as R.
    destruct (sweep_loop bind m lo hi q w) as [[r p'] w']. destruct R as [Hok' R].
    split; [done|]. rewrite Hq in R. destruct r as [port|].
    - destruct R as (i & Hi & -> & R). exists (1 + i). rewrite <- Hshift. split; [lia|]. done.
    - destruct R as (R1 & R2 & R3). split; [done|]. split; [done|]. intros i Hi.
      destruct (decide (i = 0)) as [->|]; [by rewrite H0|].
      replace i with (1 + (i - 1)) by lia. rewrite <- Hshift.
      unfold available in *. rewrite <- Hq in *. apply R3. lia. }
  destruct (bool_decide (cand lo j ∉ inUse p)) eqn:Efree; breflect; cbn [negb].
  - destruct (bind (cand lo j) w) as [w1|] eqn:Eb.
    + split; [done|]. exists 0. rewrite H0. split; [lia|]. done.
    + apply Hrest; [|done| |].
      * cbn [release inUse]. rewrite Hin. set_solver.
      * destruct Hok1 as [C1 C2]. split; [done|]. intros port Hp. apply C2. cbn [release inUse] in Hp. set_solver.
      * intros [_ [w1 Hw1]]. congruence.
  - apply Hrest; [done..|]. by intros [? _].
Qed.

End Walk.

(** ** What a sweep finds *)

(** An RTP port of the range: even, with its RTCP port inside the range too. *)
Definition in_range (par : PlaneParams) (port : Z) : Prop :=
  Z.even port = true /\ MinPort par <= port /\ port + 1 <= MaxPort par.

Lemma in_range_cand par port : params_ok par -> in_range par port ->
  0 < range_pairs par /\ exists k, 0 <= k < range_pairs par /\ port = cand (range_lo par) k.
Proof.
  intros Hpar (He & Hlo & Hhi). pose proof (range_lo_even par Hpar) as Hel.
  assert (Hl : range_lo par <= port).
  { unfold range_lo in *. case_if; [done|].
    assert (port <> MinPort par); [|lia]. intros ->.
    rewrite Z.even_add in Hel. rewrite He in Hel. done. }
  assert (Hd : Z.even (port - range_lo par) = true) by (by rewrite Z.even_sub, He, Hel).
  apply even_half in Hd.
  assert (0 < range_pairs par).
  { unfold range_pairs. rewrite Z.quot_div_nonneg by lia.
    apply Z.div_str_pos. lia. }
  split; [done|]. exists ((port - range_lo par) / 2). unfold cand. split; [|lia].
  apply range_pairs_spec; [done|]. unfold cand. lia.
Qed.

Lemma cand_in_range par k : params_ok par -> 0 <= k < range_pairs par -> in_range par (cand (range_lo par) k).
Proof.
  intros Hpar Hk. destruct (range_pairs_spec par ltac:(lia) k) as [S1 _]. destruct (S1 Hk) as [H1 H2].
  split_and!; [|unfold range_lo in *; case_if_in H1; lia|done].
  unfold cand. rewrite Z.even_add_mul_2. by apply range_lo_even.
Qed.

Lemma sweep_spec bind par p w : params_ok par -> pool_ok p ->
  let '(r, p', w') := sweep bind par p w in
  pool_ok p' /\
  match r with
  | Some port => in_range par port /\ port ∉ inUse p /\ bind port w = Some w' /\
                 inUse p' = {[ port ]} ∪ inUse p
  | None => inUse p' = inUse p /\ w' = w /\
            forall port, in_range par port -> port ∉ inUse p -> bind port w = None
  end.
Proof.
  intros Hpar Hok. unfold sweep. destruct (decide (0 < range_pairs par)) as [Hn|Hn].
  - destruct (index_of par Hpar Hn p Hok) as (j & Hj & Hat).
    pose proof (sweep_loop_spec par Hpar Hn bind w (Z.to_nat (range_pairs par)) j p Hj Hat Hok) as R.
    destruct (sweep_loop _ _ _ _ _ _) as [[r p'] w']. destruct R as [Hok' R]. split; [done|].
    destruct r as [port|].
    + destruct R as (i & Hi & -> & R). split; [|done].
      apply cand_in_range; [done|]. apply Z.mod_pos_bound. lia.
    + destruct R as (R1 & R2 & R3). split; [done|]. split; [done|]. intros port Hr Hu.
      destruct (in_range_cand par port Hpar Hr) as (_ & k & Hk & ->).
      assert (Hi : (j + (k - j) mod range_pairs par) mod range_pairs par = k).
      { rewrite Zplus_mod_idemp_r. replace (j + (k - j)) with k by lia. by apply Z.mod_small. }
      assert (0 <= (k - j) mod range_pairs par < range_pairs par) by (apply Z.mod_pos_bound; lia).
      specialize (R3 ((k - j) mod range_pairs par)). rewrite Hi in R3.
      destruct (bind _ w) eqn:Eb; [|done]. exfalso. apply R3; [lia|]. split; [done|by eexists].
  - replace (Z.to_nat (range_pairs par)) with O by lia. cbn [sweep_loop].
    split; [done|]. split; [done|]. split; [done|]. intros port Hr _.
    destruct (in_range_cand par port Hpar Hr) as [? _]. lia.
Qed.

Lemma bindPair_spec listen_ok ip port w w' : bindPair listen_ok ip port w = Some w' ->
  (ip, port) ∉ w /\ (ip, port + 1) ∉ w /\ w' = {[ (ip, port); (ip, port + 1) ]} ∪ w.
Proof.
  unfold bindPair, listenUDP. case_if; [done|]. case_if; [done|]. breflect. intros [= <-].
  split; [done|]. split; set_solver.
Qed.

(** allocation finds a pair exactly when there is one.  From any cursor
    position, an allocation takes an even port of the configured range whose
    RTCP port is in the range too, reserved by no one before, and leaves
    exactly its two sockets and its reservation behind; it reports exhaustion
    only when every pair of the range is reserved or cannot be bound, and then
    it leaves nothing behind. *)
Theorem allocatePair_complete listen_ok par p w :
  params_ok par -> pool_ok p ->
  let '(r, p', w') := allocatePairWith listen_ok par p w in
  match r with
  | Some port =>
      in_range par port /\ port ∉ inUse p /\ inUse p' = {[ port ]} ∪ inUse p /\
      (BindIP par, port) ∉ w /\ (BindIP par, port + 1) ∉ w /\
      w' = {[ (BindIP par, port); (BindIP par, port + 1) ]} ∪ w
  | None => inUse p' = inUse p /\ w' = w /\
      forall port, in_range par port -> port ∉ inUse p -> bindPair listen_ok (BindIP par) port w = None
  end.
Proof.
  intros Hpar Hok. unfold allocatePairWith.
  pose proof (sweep_spec (bindPair listen_ok (BindIP par)) par p w Hpar Hok) as R.
  destruct (sweep _ _ _ _) as [[r p'] w']. destruct R as [_ R]. destruct r as [port|]; [|done].
  destruct R as (R1 & R2 & R3 & R4). apply bindPair_spec in R3 as (? & ? & ?). done.
Qed.

Definition lab : PlaneParams := mkParams 16385 16391 (ip4 127 0 0 1) 0 true (mkPolicy false false []).

Lemma allocatePair_complete_witness :
  let '(r, p', w') := allocatePairWith (fun _ port => negb (port =? 16387)) lab NewPlanePool ∅ in
  r = Some 16388 /\ inUse p' = {[ 16388 ]}.
Proof.
  assert (Hpar : params_ok lab) by (split; vm_compute; split; discriminate).
  assert (Hok : pool_ok NewPlanePool) by (split; [reflexivity|]; intros ? H; by apply elem_of_empty in H).
  pose proof (allocatePair_complete (fun _ port => negb (port =? 16387)) lab NewPlanePool ∅ Hpar Hok) as R.
  assert (E : (allocatePairWith (fun _ port => negb (port =? 16387)) lab NewPlanePool ∅).1.1 = Some 16388)
    by (vm_compute; reflexivity).
  destruct (allocatePairWith _ _ _ _) as [[r p'] w']. cbn in E. subst r.
  destruct R as (_ & _ & -> & _). split; [reflexivity|]. cbn. set_solver.
Defined.

(** ** Capacity *)

(** the pool never reports more pairs in use than the range holds,
    whatever was reserved under the ranges of earlier configurations, and
    never a negative capacity, an inverted range included. *)
Theorem Stats_within_capacity par p :
  params_ok par -> pool_ok p -> 0 <= (Stats par p).1 <= (Stats par p).2.
Proof.
  intros Hpar [_ Heven]. cbn [Stats fst snd]. split; [lia|].
  set (used := filter _ (inUse p)).
  set (all := list_to_set (cand (range_lo par) <$> (Z.of_nat <$> seq 0 (Z.to_nat (range_pairs par)))) : gset Z).
  assert (Hsub : used ⊆ all).
  { intros port Hin. apply elem_of_filter in Hin as [[Hlo Hhi] Hin].
    destruct (in_range_cand par port Hpar) as (_ & k & Hk & ->).
    - split_and!; [by apply Heven| |done]. unfold range_lo in *. case_if_in Hlo; lia.
    - apply elem_of_list_to_set, list_elem_of_fmap_2, list_elem_of_fmap.
      exists (Z.to_nat k). split; [lia|]. apply elem_of_seq. lia. }
  apply subseteq_size in Hsub. etrans; [apply inj_le, Hsub|].
  assert (Hsz : forall l : list Z, (size (list_to_set l : gset Z) <= length l)%nat).
  { induction l as [|x l IH]; cbn [list_to_set length]; [by rewrite size_empty|].
    rewrite size_union_alt, size_singleton.
    assert (size (list_to_set l ∖ {[x]} : gset Z) <= size (list_to_set l : gset Z))%nat by (apply subseteq_size; set_solver).
    lia. }
  unfold all. specialize (Hsz (cand (range_lo par) <$> (Z.of_nat <$> seq 0 (Z.to_nat (range_pairs par))))).
  rewrite !length_fmap, length_seq in Hsz. case_if; lia.
Qed.

Lemma Stats_within_capacity_witness :
  0 <= (Stats lab (mkPool {[ 16386; 20000 ]} 0)).1 <= 3.
Proof.
  apply (Stats_within_capacity lab (mkPool {[ 16386; 20000 ]} 0)).
  - split; vm_compute; split; discriminate.
  - split; [reflexivity|]. intros port Hp. cbn in Hp.
    apply elem_of_union in Hp as [Hp|Hp]; apply elem_of_singleton in Hp as ->; reflexivity.
Defined.

(** ** Concurrent callers *)

(** The pool and who holds which reservation. *)
Record holders := mkHolders { the_pool : PlanePool; held : list (nat * Z) }.

Inductive pool_step : holders -> holders -> Prop :=
  (** A caller, under the range in force, takes the next candidate. *)
  | PReserve c par p hs port ok p' :
      params_ok par -> 0 < range_pairs par ->
      reserveNext (range_lo par) (MaxPort par) p = (port, ok, p') ->
      pool_step (mkHolders p hs) (mkHolders p' (if ok then (c, port) :: hs else hs))
  (** A holder whose bind failed, or whose session ended, gives a port back. *)
  | PRelease c port p hs1 hs2 :
      pool_step (mkHolders p (hs1 ++ (c, port) :: hs2)) (mkHolders (release port p) (hs1 ++ hs2)).

Definition holders_init (s : holders) : Prop := s = mkHolders NewPlanePool [].

Definition holders_inv (s : holders) : Prop :=
  pool_ok (the_pool s) /\ NoDup (map snd (held s)) /\
  forall port, port ∈ inUse (the_pool s) <-> port ∈ map snd (held s).

Lemma pool_step_inv s s' : holders_inv s -> pool_step s s' -> holders_inv s'.
Proof.
  intros (Hok & Hnd & Hin) Hs. destruct Hs as [c par p hs port ok p' Hpar Hn E|c port p hs1 hs2];
    cbn [the_pool held] in *.
  - destruct (index_of par Hpar Hn p Hok) as (j & Hj & Hat).
    pose proof (reserve_at par Hpar Hn j p Hj Hat Hok) as R. rewrite E in R.
    destruct R as (-> & Ho & Hi & _ & Hok').
    split; [done|]. cbn [the_pool held]. rewrite Hi. destruct ok; [|done].
    symmetry in Ho. apply bool_decide_eq_true in Ho. cbn [map]. split.
    + apply NoDup_cons. split; [|done]. by rewrite <- Hin.
    + intros x. rewrite elem_of_union, elem_of_singleton, elem_of_cons. cbn [snd]. by rewrite Hin.
  - rewrite map_app in *. cbn [map snd] in *. apply NoDup_app in Hnd as (N1 & N2 & N3).
    apply NoDup_cons in N3 as [N3 N4]. split; [|split].
    + destruct Hok as [Hc Hu]. split; [done|]. intros x Hx. apply Hu. cbn in Hx. set_solver.
    + cbn [held]. rewrite map_app. apply NoDup_app. split_and!; [done| |done]. intros x Hx Hx'. apply (N2 x Hx). by right.
    + intros x. cbn [the_pool held release inUse]. rewrite map_app, elem_of_difference, Hin, elem_of_singleton, !elem_of_app, elem_of_cons.
      split; [tauto|]. intros Hx. split; [tauto|]. intros ->. destruct Hx as [Hx|Hx]; [|done].
      apply (N2 port Hx). by left.
Qed.

(** two callers never get overlapping pairs.  However their reservations,
    failed binds and releases interleave, and however the configured range is
    moved in between, two reservations held at the same time share neither an
    RTP nor an RTCP port, and the pool knows exactly the ports that are held. *)
Theorem reservations_never_overlap s i j c c' port port' :
  reachable holders_init pool_step s ->
  held s !! i = Some (c, port) -> held s !! j = Some (c', port') -> i <> j ->
  port ∈ inUse (the_pool s) /\ port <> port' /\ port + 1 <> port' /\ port <> port' + 1.
Proof.
  intros Hr Hi Hj Hne.
  assert (holders_inv s) as ([_ Heven] & Hnd & Hin).
  { apply (reachable_inv holders_init pool_step); [|apply pool_step_inv|done].
    intros ? ->. split_and!; [split; [done|]; intros x Hx; by apply elem_of_empty in Hx|by apply NoDup_nil|].
    intros x. split; intros Hx; [by apply elem_of_empty in Hx|by apply elem_of_nil in Hx]. }
  assert (Li : map snd (held s) !! i = Some port) by (change (map snd) with (fmap (M:=list) (@snd nat Z)); by rewrite list_lookup_fmap, Hi).
  assert (Lj : map snd (held s) !! j = Some port') by (change (map snd) with (fmap (M:=list) (@snd nat Z)); by rewrite list_lookup_fmap, Hj).
  assert (Ii : port ∈ inUse (the_pool s)) by (apply Hin; by eapply list_elem_of_lookup_2).
  assert (Ij : port' ∈ inUse (the_pool s)) by (apply Hin; by eapply list_elem_of_lookup_2).
  pose proof (Heven _ Ii) as E1. pose proof (Heven _ Ij) as E2.
  assert (port <> port').
  { intros ->. apply Hne. by eapply NoDup_lookup. }
  apply even_half in E1, E2. split_and!; [done|done|lia|lia].
Qed.

Lemma reservations_never_overlap_witness :
  exists s, reachable holders_init pool_step s /\ held s = [(1%nat, 16388); (0%nat, 16386)] /\ 16388 + 1 <> 16386.
Proof.
  assert (Hpar : params_ok lab) by (split; vm_compute; split; discriminate).
  assert (Hr : reachable holders_init pool_step (mkHolders (mkPool {[ 16388; 16386 ]} 16390) [(1%nat, 16388); (0%nat, 16386)])).
  { eapply reach_step; [eapply reach_step; [apply reach_init; reflexivity|]|].
    - apply (PReserve 0 lab _ _ 16386 true (mkPool {[ 16386 ]} 16388)); [done|reflexivity|vm_compute; reflexivity].
    - apply (PReserve 1 lab _ _ 16388 true _); [done|reflexivity|vm_compute; reflexivity]. }
  eexists. split; [exact Hr|]. split; [reflexivity|].
  apply (reservations_never_overlap _ 0 1 1%nat 0%nat 16388 16386 Hr eq_refl eq_refl). discriminate.
Defined.
