(* ===== verification/Latch.v ===== *)
(** internal/media/session.go, the [latch]: which packet sources a stream
    accepts, and where its reverse direction is sent.

    Every operation is one critical section of the latch's mutex, except
    [relatch], which the code runs as two ([relatch_reset], then [seed]); a
    packet may come in between, so histories are made of the two halves. *)

From S2P Require Import Prelude GoTime Netip PortPool.

Open Scope Z_scope.

Inductive LatchMode := LatchStrict | LatchLoose.

#[export] Instance LatchMode_eq_dec : EqDecision LatchMode.
Proof. solve_decision. Defined.

(** latchRank, a uint8 compared by [<=]. *)
Definition rankNone : Z := 0.
Definition rankAny : Z := 1.
Definition rankSignalled : Z := 2.
Definition rankExact : Z := 3.

Definition LearnDelay : Z := 3 * second.

Record latch := mkLatch {
  mode : LatchMode;
  expected : Addr;
  signalled : AddrPort;
  sigSource : Addr;
  dst : AddrPort;
  remote : AddrPort;
  rank : Z;
  learnedAt : Z;
  allowLoopback : bool;
  policy : DestPolicy;
  pinSeed : bool
}.

(** The latch [allocateAcross] builds for one stream of a side. *)
Definition new_latch (m : LatchMode) (par : PlaneParams) : latch :=
  mkLatch m AddrZero ap_zero AddrZero ap_zero ap_zero rankNone zero_time
          (AllowLoopback par) (Dest par) false.

Definition unicastMediaAddr (ip : Addr) : bool :=
  if negb (is_valid ip) || is_unspecified ip || is_multicast ip || is_link_local_unicast ip
     || is_link_local_multicast ip || is_interface_local_multicast ip then false
  else if addr_eqb ip (ip4 255 255 255 255) then false
  else true.

Definition hostOf (src : AddrPort) : Addr := with_zone (unmap (ap_addr src)) [].

Definition setExpected (ip : Addr) (l : latch) : latch :=
  mkLatch (mode l) ip (signalled l) (sigSource l) (dst l) (remote l) (rank l) (learnedAt l)
          (allowLoopback l) (policy l) (pinSeed l).

Definition set_dst (d : AddrPort) (l : latch) : latch :=
  mkLatch (mode l) (expected l) (signalled l) (sigSource l) d (remote l) (rank l) (learnedAt l)
          (allowLoopback l) (policy l) (pinSeed l).

Definition pinnedOK (l : latch) (ip : Addr) : bool :=
  is_valid ip && unicastMediaAddr ip && (negb (is_loopback ip) || allowLoopback l).

Definition setSignallingSource (ip : Addr) (l : latch) : latch :=
  let l := mkLatch (mode l) (expected l) (signalled l) (unmap ip) (dst l) (remote l) (rank l)
                   (learnedAt l) (allowLoopback l) (policy l) (pinSeed l) in
  if pinSeed l && ap_valid (signalled l) && (rank l =? rankNone)
  then if pinnedOK l (sigSource l)
       then set_dst (mkAddrPort (with_zone (sigSource l) []) (ap_port (signalled l))) l
       else set_dst ap_zero l
  else l.

Definition setPinSeed (on : bool) (l : latch) : latch :=
  mkLatch (mode l) (expected l) (signalled l) (sigSource l) (dst l) (remote l) (rank l) (learnedAt l)
          (allowLoopback l) (policy l) on.

Definition setMode (m : LatchMode) (l : latch) : latch :=
  mkLatch m (expected l) (signalled l) (sigSource l) (dst l) (remote l) (rank l) (learnedAt l)
          (allowLoopback l) (policy l) (pinSeed l).

Definition seed (addr : AddrPort) (l : latch) : latch :=
  if negb (ap_valid addr) || (ap_port addr =? 0) then l
  else
    let ip := unmap (ap_addr addr) in
    if negb (unicastMediaAddr ip) then l
    else
      let l := mkLatch (mode l) ip (mkAddrPort ip (ap_port addr)) (sigSource l) (dst l) (remote l)
                       (rank l) (learnedAt l) (allowLoopback l) (policy l) (pinSeed l) in
      if (if pinSeed l then negb (pinnedOK l (sigSource l)) else refuses (policy l) ip) then l
      else
        let send := if pinSeed l then sigSource l else ip in
        if is_loopback send && negb (allowLoopback l) then l
        else set_dst (mkAddrPort (with_zone send []) (ap_port addr)) l.

(** The first critical section of [relatch]. *)
Definition relatch_reset (addr : AddrPort) (l : latch) : latch :=
  mkLatch (mode l) (ap_addr addr) ap_zero (sigSource l) ap_zero ap_zero rankNone (learnedAt l)
          (allowLoopback l) (policy l) (pinSeed l).

Definition relatch (addr : AddrPort) (l : latch) : latch := seed addr (relatch_reset addr l).

Definition sameSource (l : latch) (src : AddrPort) : bool :=
  negb (rank l =? rankNone) && addr_eqb (hostOf (remote l)) (hostOf src)
  && (ap_port (remote l) =? ap_port src).

Definition rankOf (l : latch) (src : AddrPort) : Z :=
  if negb (ap_valid src) then rankNone
  else
    let ip := hostOf src in
    if bool_decide (mode l = LatchStrict)
       && (negb (is_valid (expected l)) || negb (addr_eqb ip (unmap (expected l))))
    then rankNone
    else if ap_valid (signalled l) && addr_eqb ip (ap_addr (signalled l))
            && (ap_port src =? ap_port (signalled l)) then rankExact
    else if (is_valid (expected l) && addr_eqb ip (unmap (expected l)))
            || (is_valid (sigSource l) && addr_eqb ip (sigSource l)) then rankSignalled
    else rankAny.

Definition acceptFrom (now : Z) (src : AddrPort) (l : latch) : bool * latch :=
  if sameSource l src then (true, l)
  else
    let r := rankOf l src in
    if r <=? rank l then (false, l)
    else (true, mkLatch (mode l) (expected l) (signalled l) (sigSource l) (dst l)
                        (mkAddrPort (unmap (ap_addr src)) (ap_port src)) r now
                        (allowLoopback l) (policy l) (pinSeed l)).

Definition permitsFrom (src : AddrPort) (l : latch) : bool :=
  if sameSource l src then true else rank l <? rankOf l src.

Definition learningDelayed (l : latch) : bool :=
  ap_valid (dst l) && is_valid (sigSource l) && addr_eqb (ap_addr (signalled l)) (sigSource l).

Definition dest (now : Z) (l : latch) : AddrPort :=
  if rank l =? rankNone then dst l
  else if (rank l <? rankExact) && learningDelayed l && (time_sub now (learnedAt l) <? LearnDelay)
  then dst l
  else remote l.

(** ** Histories *)

Inductive latch_op :=
  | LPacket (now : Z) (src : AddrPort)
  | LSeed (addr : AddrPort)
  | LReset (addr : AddrPort)
  | LExpect (ip : Addr)
  | LSignalling (ip : Addr)
  | LPin (on : bool)
  | LMode (m : LatchMode).

Definition latch_step (l : latch) (o : latch_op) : latch :=
  match o with
  | LPacket now src => (acceptFrom now src l).2
  | LSeed addr => seed addr l
  | LReset addr => relatch_reset addr l
  | LExpect ip => setExpected ip l
  | LSignalling ip => setSignallingSource ip l
  | LPin on => setPinSeed on l
  | LMode m => setMode m l
  end.

Definition is_reset (o : latch_op) : bool := match o with LReset _ => true | _ => false end.

Definition rank_ok (l : latch) : Prop := rankNone <= rank l <= rankExact.

Lemma rankOf_range l src : rankNone <= rankOf l src <= rankExact.
Proof.
  unfold rankOf, rankNone, rankAny, rankSignalled, rankExact. repeat case_if; lia.
Qed.

(** Signalling other than a relatch moves neither the latched source nor its rank. *)
Lemma seed_keeps addr l :
  let l' := seed addr l in rank l' = rank l /\ remote l' = remote l /\ learnedAt l' = learnedAt l /\
  allowLoopback l' = allowLoopback l /\ policy l' = policy l /\ pinSeed l' = pinSeed l.
Proof. unfold seed. repeat case_if; by cbn. Qed.

Lemma setSignallingSource_keeps ip l :
  let l' := setSignallingSource ip l in rank l' = rank l /\ remote l' = remote l /\
  allowLoopback l' = allowLoopback l /\ policy l' = policy l /\ pinSeed l' = pinSeed l.
Proof. unfold setSignallingSource. cbv zeta. repeat case_if; by cbn. Qed.

(** One step of a history without relatches: the latch stays where it is, or
    moves up to a source signalling vouches for better. *)
Lemma latch_step_up l o : is_reset o = false ->
  let l' := latch_step l o in
  (rank l' = rank l /\ remote l' = remote l) \/
  (exists now src, o = LPacket now src /\ rank l < rank l' /\ rank l' = rankOf l src /\
                   remote l' = mkAddrPort (unmap (ap_addr src)) (ap_port src)).
Proof.
  destruct o as [now src|addr|addr|ip|ip|on|m]; intros Hr; cbn [latch_step]; try done.
  - unfold acceptFrom. case_if; [by left|]. case_if; [by left|]. right.
    exists now, src. cbn. split_and!; [done|lia|done|done].
  - left. by destruct (seed_keeps addr l) as (? & ? & _).
  - by left.
  - left. by destruct (setSignallingSource_keeps ip l) as (? & ? & _).
  - by left.
  - by left.
Qed.

Lemma latch_run_up os : forall l, rank_ok l -> Forall (fun o => is_reset o = false) os ->
  let l' := run_ops latch_step l os in
  rank_ok l' /\ rank l <= rank l' /\ (rank l' = rank l -> remote l' = remote l).
Proof.
  induction os as [|o os IH]; intros l Hl Hos; [cbn; split; [done|]; split; [lia|done]|].
  apply Forall_cons in Hos as [Ho Hos].
  change (run_ops latch_step l (o :: os)) with (run_ops latch_step (latch_step l o) os). cbv zeta.
  destruct (latch_step_up l o Ho) as [[E1 E2]|(now & src & -> & Hlt & Hr & _)].
  - destruct (IH (latch_step l o)) as (I1 & I2 & I3); [unfold rank_ok in *; by rewrite E1|done|].
    rewrite E1, E2 in *. done.
  - destruct (IH (latch_step l (LPacket now src))) as (I1 & I2 & I3); [|done|].
    { unfold rank_ok. rewrite Hr. apply rankOf_range. }
    split; [done|]. split; [lia|]. intros E. lia.
Qed.

(** C25: only a better-vouched source takes a latch over.  Whatever packets
    arrive from whatever sources, and whatever signalling other than an
    authorised relatch happens in between, the rank of a latched stream never
    drops; if it is the same afterwards the stream is still latched to the same
    source, and a stream latched to the exact signalled address stays there. *)
Theorem latch_only_moves_up os l :
  rank_ok l -> Forall (fun o => is_reset o = false) os ->
  let l' := run_ops latch_step l os in
  rank l <= rank l' /\
  (rank l' = rank l -> remote l' = remote l) /\
  (rank l = rankExact -> rank l' = rankExact /\ remote l' = remote l).
Proof.
  intros Hl Hos. destruct (latch_run_up os l Hl Hos) as (H1 & H2 & H3). cbv zeta.
  split; [done|]. split; [done|]. intros E. unfold rank_ok in *.
  assert (E' : rank (run_ops latch_step l os) = rank l) by lia. by rewrite E', H3.
Qed.

(** In strict mode only the expected address has a rank. *)
Lemma strict_expected l src :
  mode l = LatchStrict -> rankNone < rankOf l src ->
  is_valid (expected l) = true /\ hostOf src = unmap (expected l).
Proof.
  intros Hm. unfold rankOf. rewrite Hm, bool_decide_eq_true_2 by done. cbn [andb].
  case_if; [unfold rankNone; lia|].
  destruct (negb (is_valid (expected l)) || _) eqn:E; [unfold rankNone; lia|]. intros _.
  apply orb_false_iff in E as [E1 E2]. apply negb_false_iff in E1, E2.
  split; [done|]. unfold addr_eqb in E2. by apply bool_decide_eq_true in E2.
Qed.

(** a packet that does not win is refused and changes nothing; one that
    is accepted comes from the latched source or is vouched for better.  The
    read-only test agrees with the decision.  A strict latch accepts, besides
    the source it latched, only the address signalling told it to expect, and
    nothing at all until it is told. *)
Theorem acceptFrom_spec now src l :
  rank_ok l ->
  let '(ok, l') := acceptFrom now src l in
  ok = permitsFrom src l /\
  (ok = false -> l' = l) /\
  (ok = true -> sameSource l src = true \/
     (rank l < rankOf l src /\
      (mode l = LatchStrict -> is_valid (expected l) = true /\ hostOf src = unmap (expected l)))) /\
  dst l' = dst l.
Proof.
  intros Hl. unfold acceptFrom, permitsFrom. destruct (sameSource l src) eqn:Es.
  { split; [done|]. split; [done|]. split; [by left|done]. }
  destruct (rankOf l src <=? rank l) eqn:Er.
  { split; [lia|]. split; [done|]. by split. }
  cbn. split; [lia|]. split; [done|]. split; [|done]. intros _. right. split; [lia|]. intros Hm.
  apply strict_expected; [done|]. unfold rank_ok, rankNone in *. lia.
Qed.

Lemma acceptFrom_spec_witness :
  let l := seed (mkAddrPort (ip4 192 0 2 9) 4000) (new_latch LatchStrict lab) in
  (acceptFrom 7 (mkAddrPort (ip4 203 0 113 5) 4000) l).1 = false /\
  permitsFrom (mkAddrPort (ip4 203 0 113 5) 4000) l = false.
Proof.
  intros l. pose proof (acceptFrom_spec 7 (mkAddrPort (ip4 203 0 113 5) 4000) l) as R.
  assert (E : (acceptFrom 7 (mkAddrPort (ip4 203 0 113 5) 4000) l).1 = false) by (vm_compute; reflexivity).
  split; [exact E|]. destruct (acceptFrom _ _ l) as [ok l']. cbn in E. subst ok.
  destruct R as [<- _]; [|reflexivity]. vm_compute. split; discriminate.
Defined.

Lemma latch_only_moves_up_witness :
  let src := mkAddrPort (ip4 192 0 2 9) 4000 in
  let l := (acceptFrom 7 src (seed src (new_latch LatchLoose lab))).2 in
  remote (run_ops latch_step l [LPacket 8 (mkAddrPort (ip4 203 0 113 5) 9); LMode LatchStrict; LSeed (mkAddrPort (ip4 203 0 113 5) 9);
                               LPacket 9 (mkAddrPort (ip4 203 0 113 5) 9)]) = src.
Proof.
  intros src l.
  destruct (latch_only_moves_up [LPacket 8 (mkAddrPort (ip4 203 0 113 5) 9); LMode LatchStrict; LSeed (mkAddrPort (ip4 203 0 113 5) 9);
                               LPacket 9 (mkAddrPort (ip4 203 0 113 5) 9)] l) as (_ & _ & H).
  - vm_compute. split; discriminate.
  - repeat constructor.
  - destruct H as [_ ->]; vm_compute; reflexivity.
Defined.

(** ** Destinations *)

(** No IPv6 zone. *)
Definition zone_free (a : Addr) : Prop := match a with V6 _ z => z = [] | _ => True end.

Lemma zone_free_id a : zone_free a -> with_zone a [] = a.
Proof. by destruct a as [| |n z]; cbn; intros; subst. Qed.

Lemma zone_free_unmap a : zone_free a -> zone_free (unmap a).
Proof. destruct a as [| |n z]; [done..|]. intros Hz. rewrite unmap_V6. by case_if. Qed.

Definition op_zone_free (o : latch_op) : Prop :=
  match o with LSeed a => zone_free (ap_addr a) | LSignalling ip => zone_free ip | _ => True end.

(** What may be installed as a destination before any packet has latched. *)
Definition sendable (l : latch) (a : Addr) : Prop :=
  unicastMediaAddr a = true /\ (is_loopback a = true -> allowLoopback l = true).

Definition dst_inv (l : latch) : Prop :=
  zone_free (sigSource l) /\ (ap_valid (dst l) = true -> sendable l (ap_addr (dst l))).

(** The same with the pool's destination policy, on a side never pinned. *)
Definition policy_inv (l : latch) : Prop :=
  pinSeed l = false /\ (ap_valid (dst l) = true -> refuses (policy l) (ap_addr (dst l)) = false).

Lemma pinnedOK_sendable l ip : pinnedOK l ip = true -> sendable l ip.
Proof.
  unfold pinnedOK. intros H. apply andb_true_iff in H as [H Hl]. apply andb_true_iff in H as [_ Hu].
  split; [done|]. intros E. rewrite E in Hl. done.
Qed.

Lemma seed_dst_inv addr l : zone_free (ap_addr addr) -> dst_inv l -> dst_inv (seed addr l).
Proof.
  intros Hz [Hs Hd]. unfold seed. case_if; [done|].
  destruct (unicastMediaAddr (unmap (ap_addr addr))) eqn:Eu; cbn [negb]; [|done].
  cbn [pinSeed pinnedOK sigSource allowLoopback policy].
  destruct (pinSeed l).
  - destruct (negb (pinnedOK _ _)) eqn:Ep; [by split|]. apply negb_false_iff in Ep.
    apply pinnedOK_sendable in Ep. case_if; [by split|].
    split; cbn; [done|]. rewrite zone_free_id by done. by intros _.
  - destruct (refuses (policy l) (unmap (ap_addr addr))) eqn:Er; [by split|].
    case_if; [by split|]. split; cbn; [done|].
    rewrite zone_free_id by (by apply zone_free_unmap). intros _. split; [done|].
    cbn. intros E. rewrite E in *. by destruct (allowLoopback l).
Qed.

Lemma latch_step_dst_inv l o : op_zone_free o -> dst_inv l -> dst_inv (latch_step l o).
Proof.
  intros Hz Hl. pose proof Hl as [Hs Hd]. destruct o as [now src|addr|addr|ip|ip|on|m]; cbn [latch_step op_zone_free] in *.
  - unfold acceptFrom. case_if; [done|]. by case_if.
  - by apply seed_dst_inv.
  - by split.
  - done.
  - apply zone_free_unmap in Hz. unfold setSignallingSource. cbv zeta. case_if; [|by split].
    destruct (pinnedOK _ _) eqn:Ep; [|by split].
    apply pinnedOK_sendable in Ep. split; cbn; [done|]. by rewrite zone_free_id.
  - done.
  - done.
Qed.

Lemma latch_step_policy_inv l o : op_zone_free o -> o <> LPin true ->
  dst_inv l -> policy_inv l -> policy_inv (latch_step l o).
Proof.
  intros Hz Hpin [Hs _] [Hp Hd]. destruct o as [now src|addr|addr|ip|ip|on|m]; cbn [latch_step op_zone_free] in *.
  - unfold acceptFrom. case_if; [done|]. by case_if.
  - unfold seed. case_if; [done|]. case_if; [done|]. cbn [pinSeed policy]. rewrite Hp.
    destruct (refuses (policy l) (unmap (ap_addr addr))) eqn:Er; [by split|]. case_if; [by split|].
    split; cbn; [done|]. by rewrite zone_free_id by (by apply zone_free_unmap).
  - by split.
  - done.
  - unfold setSignallingSource. cbn [pinSeed]. rewrite Hp. by split.
  - by destruct on.
  - done.
Qed.

Lemma latch_run_inv os : forall l, Forall op_zone_free os -> dst_inv l ->
  dst_inv (run_ops latch_step l os) /\
  (LPin true ∉ os -> policy_inv l -> policy_inv (run_ops latch_step l os)).
Proof.
  induction os as [|o os IH]; intros l Hz Hd; [done|]. apply Forall_cons in Hz as [Ho Hz].
  change (run_ops latch_step l (o :: os)) with (run_ops latch_step (latch_step l o) os).
  destruct (IH (latch_step l o) Hz (latch_step_dst_inv l o Ho Hd)) as [I1 I2].
  split; [done|]. intros Hp Hl. apply not_elem_of_cons in Hp as [Hp1 Hp2].
  apply I2; [done|]. by apply latch_step_policy_inv.
Qed.

Lemma new_latch_inv m par : dst_inv (new_latch m par) /\ policy_inv (new_latch m par).
Proof. by repeat split. Qed.

(** SDP cannot point the media socket at a local service.  Whatever the
    signalling and packets, a destination that is not a latched source is a
    unicast address, and loopback only where the pool allows it; on a side
    never pinned to its signalling source it is also outside the classes the
    pool's policy refuses.  (For addresses without an IPv6 zone; with one the
    code goes wrong, see [zoned_unspecified_is_installed].) *)
Theorem destinations_are_safe m par os now :
  Forall op_zone_free os ->
  let l := run_ops latch_step (new_latch m par) os in
  ap_valid (dest now l) = true ->
  (rank l <> rankNone /\ dest now l = remote l) \/
  (sendable l (ap_addr (dest now l)) /\
   (LPin true ∉ os -> refuses (policy l) (ap_addr (dest now l)) = false)).
Proof.
  intros Hz l. destruct (new_latch_inv m par) as [N1 N2].
  destruct (latch_run_inv os (new_latch m par) Hz N1) as [[_ I1] I2]. fold l in I1, I2.
  unfold dest. destruct (rank l =? rankNone) eqn:Er.
  - intros Hv. right. split; [by apply I1|]. intros Hp. by apply I2.
  - case_if; intros Hv; [right|left; split; [lia|done]].
    split; [by apply I1|]. intros Hp. by apply I2.
Qed.

Definition public_plane : PlaneParams :=
  mkParams 16384 32767 (ip4 203 0 113 1) (60 * second) false (mkPolicy true false [ip4 203 0 113 1]).

Lemma destinations_are_safe_witness :
  let l := run_ops latch_step (new_latch LatchStrict public_plane)
             [LSeed (mkAddrPort (ip4 192 0 2 9) 4000); LReset (mkAddrPort (ip4 10 0 0 1) 80);
              LSeed (mkAddrPort (ip4 198 51 100 9) 4000)] in
  dest 5 l = mkAddrPort (ip4 198 51 100 9) 4000 /\ refuses (policy l) (ap_addr (dest 5 l)) = false.
Proof.
  intros l. split; [vm_compute; reflexivity|].
  destruct (destinations_are_safe LatchStrict public_plane
             [LSeed (mkAddrPort (ip4 192 0 2 9) 4000); LReset (mkAddrPort (ip4 10 0 0 1) 80);
              LSeed (mkAddrPort (ip4 198 51 100 9) 4000)] 5) as [[E _]|[_ E]].
  - repeat constructor.
  - vm_compute. reflexivity.
  - exfalso. apply E. vm_compute. reflexivity.
  - apply E. intros H. repeat (apply elem_of_cons in H as [H|H]; [done|]). by apply elem_of_nil in H.
Defined.

(** Not so with an IPv6 zone: "::%eth0" is not the unspecified address for
    netip, so the check passes, and the zone is dropped only when the
    destination is installed - which is then "::", refused outright when it is
    written without the zone. *)
Lemma zoned_unspecified_is_installed :
  let l := new_latch LatchStrict public_plane in
  dst (seed (mkAddrPort (V6 0 (str "eth0")) 4000) l) = mkAddrPort (V6 0 []) 4000 /\
  dst (seed (mkAddrPort (V6 0 []) 4000) l) = ap_zero.
Proof. split; vm_compute; reflexivity. Qed.

(** Nor is a refused address a stop order: the destination of an earlier seed
    stays, although the source check has moved on to the new address. *)
Lemma refused_seed_keeps_destination :
  let l := seed (mkAddrPort (ip4 10 0 0 1) 4002)
             (seed (mkAddrPort (ip4 198 51 100 9) 4000) (new_latch LatchStrict public_plane)) in
  dest 5 l = mkAddrPort (ip4 198 51 100 9) 4000 /\ expected l = ip4 10 0 0 1.
Proof. split; vm_compute; reflexivity. Qed.

(** ** Pinned sides *)

(** The signalling sources a history names. *)
Definition told (os : list latch_op) (a : Addr) : Prop :=
  exists ip, LSignalling ip ∈ os /\ a = with_zone (unmap ip) [].

Definition pin_inv (os : list latch_op) (l : latch) : Prop :=
  pinSeed l = true /\
  (is_valid (sigSource l) = true -> told os (with_zone (sigSource l) [])) /\
  (ap_valid (dst l) = true -> told os (ap_addr (dst l))).

Lemma pin_step os l o : o <> LPin false -> pin_inv os l -> pin_inv (os ++ [o]) (latch_step l o).
Proof.
  intros Hp (Hpin & Hs & Hd).
  assert (Hmon : forall a, told os a -> told (os ++ [o]) a).
  { intros a (ip & Hin & ->). exists ip. split; [|done]. apply elem_of_app. by left. }
  assert (Hl : pin_inv (os ++ [o]) l) by (split; [done|]; split; auto).
  destruct o as [now src|addr|addr|ip|ip|on|m]; cbn [latch_step].
  - unfold acceptFrom. case_if; [done|]. by case_if.
  - unfold seed. case_if; [done|]. case_if; [done|]. cbn [pinSeed sigSource]. rewrite Hpin.
    destruct Hl as (_ & Hl1 & Hl2).
    destruct (negb (pinnedOK _ _)) eqn:Ep; [by split; [|split]|]. apply negb_false_iff in Ep.
    case_if; [by split; [|split]|]. split; [done|]. split; [cbn; auto|]. cbn. intros _. apply Hmon, Hs.
    unfold pinnedOK in Ep. by destruct (is_valid (sigSource l)).
  - split; [done|]. split; [cbn; auto|done].
  - done.
  - assert (Ht : told (os ++ [LSignalling ip]) (with_zone (unmap ip) [])).
    { exists ip. split; [|done]. apply elem_of_app. right. by left. }
    destruct Hl as (_ & _ & Hl).
    unfold setSignallingSource. cbv zeta. repeat case_if; (split; [done|]); split; cbn; auto; done.
  - destruct on; [|done]. by split; [|apply Hl].
  - done.
Qed.

(** a registered client's SDP cannot steer media to another host.  On a
    side pinned to its signalling source, the destination before a packet has
    latched (or while learning is delayed) is always an address the edge named
    as the source of the side's signalling, whatever addresses the SDP bodies
    carried. *)
Theorem pinned_side_sends_to_signalling_source m par os now :
  LPin false ∉ os ->
  let l := run_ops latch_step (setPinSeed true (new_latch m par)) os in
  ap_valid (dest now l) = true ->
  (rank l <> rankNone /\ dest now l = remote l) \/ told os (ap_addr (dest now l)).
Proof.
  intros Hp l. assert (Hi : pin_inv os l).
  { unfold l. clear l. induction os as [|o os IH] using rev_ind; [by repeat split|].
    unfold run_ops. rewrite fold_left_app. cbn [fold_left]. apply pin_step.
    - intros ->. apply Hp. apply elem_of_app. right. by left.
    - apply IH. intros Hin. apply Hp. apply elem_of_app. by left. }
  destruct Hi as (_ & _ & Hd). unfold dest. destruct (rank l =? rankNone) eqn:Er.
  - intros Hv. right. by apply Hd.
  - case_if; intros Hv; [right; by apply Hd|left; split; [lia|done]].
Qed.

Lemma pinned_side_sends_to_signalling_source_witness :
  let l := run_ops latch_step (setPinSeed true (new_latch LatchLoose public_plane))
             [LSignalling (ip4 198 51 100 20); LSeed (mkAddrPort (ip4 192 0 2 77) 9000)] in
  dest 5 l = mkAddrPort (ip4 198 51 100 20) 9000 /\
  told [LSignalling (ip4 198 51 100 20); LSeed (mkAddrPort (ip4 192 0 2 77) 9000)] (ap_addr (dest 5 l)).
Proof.
  intros l. split; [vm_compute; reflexivity|].
  destruct (pinned_side_sends_to_signalling_source LatchLoose public_plane
             [LSignalling (ip4 198 51 100 20); LSeed (mkAddrPort (ip4 192 0 2 77) 9000)] 5) as [[E _]|E].
  - intros H. repeat (apply elem_of_cons in H as [H|H]; [done|]). by apply elem_of_nil in H.
  - vm_compute. reflexivity.
  - exfalso. apply E. vm_compute. reflexivity.
  - exact E.
Defined.
