(* ===== verification/MediaSession.v ===== *)
(** internal/media/{session,relay,sdes,stats,mux}.go: one relayed call.

    A session owns two port pairs, one of each plane's pool, and relays RTP and
    RTCP between its two sides.  What is outside src/ is an argument: which
    sockets the system binds, whether a datagram can be written, and the SRTP
    contexts (pion), whose operations may change the context they run on.  The
    four read loops, the watchdog and the signalling calls are steps on the
    session; each packet is one step. *)

From S2P Require Import Prelude GoTime Netip PortPool Latch.

Open Scope Z_scope.

(** ** Demultiplexing *)

Inductive muxKind := muxUnknown | muxDTLS | muxSRTP.

Definition classify (b : list Z) : muxKind :=
  match b with
  | [] => muxUnknown
  | c :: _ => if (20 <=? c) && (c <=? 63) then muxDTLS
              else if (128 <=? c) && (c <=? 191) then muxSRTP
              else muxUnknown
  end.

Definition isRTCP (pkt : list Z) : bool :=
  match pkt with
  | _ :: b :: _ => let pt := Z.land b 127 in (64 <=? pt) && (pt <=? 95)
  | _ => false
  end.

Definition maxPacketSize : Z := 1500 + 8.

(** ** Sides *)

Inductive Side := SideA | SideB.

Definition other (x : Side) : Side := match x with SideA => SideB | SideB => SideA end.

(** A Go [[2]T] indexed by side. *)
Record two (T : Type) := mkTwo { of_A : T; of_B : T }.
Arguments mkTwo {T} _ _.
Arguments of_A {T} _.
Arguments of_B {T} _.

Definition at_side {T} (x : Side) (t : two T) : T := match x with SideA => of_A t | SideB => of_B t end.

Definition upd_side {T} (x : Side) (f : T -> T) (t : two T) : two T :=
  match x with SideA => mkTwo (f (of_A t)) (of_B t) | SideB => mkTwo (of_A t) (f (of_B t)) end.

(** ** Counters *)

Record LegStats := mkLeg {
  RTPPacketsRx : Z; RTPPacketsTx : Z; RTPBytesRx : Z; RTPBytesTx : Z;
  SRTPRxDrops : Z; SRTPTxDrops : Z
}.

Definition uadd (a b : Z) : Z := wrap_uint 64 (a + b).

Definition zero_leg : LegStats := mkLeg 0 0 0 0 0 0.

(** Stats.Total *)
Definition Total (s : two LegStats) : LegStats :=
  let a := of_A s in let b := of_B s in
  mkLeg (uadd (RTPPacketsRx a) (RTPPacketsRx b)) (uadd (RTPPacketsTx a) (RTPPacketsTx b))
        (uadd (RTPBytesRx a) (RTPBytesRx b)) (uadd (RTPBytesTx a) (RTPBytesTx b))
        (uadd (SRTPRxDrops a) (SRTPRxDrops b)) (uadd (SRTPTxDrops a) (SRTPTxDrops b)).

Definition recordRx (x : Side) (rtp : bool) (n : Z) (c : two LegStats) : two LegStats :=
  if negb rtp then c
  else upd_side x (fun l => mkLeg (uadd (RTPPacketsRx l) 1) (RTPPacketsTx l)
                                  (uadd (RTPBytesRx l) n) (RTPBytesTx l)
                                  (SRTPRxDrops l) (SRTPTxDrops l)) c.

Definition recordTx (x : Side) (rtp : bool) (n : Z) (c : two LegStats) : two LegStats :=
  if negb rtp then c
  else upd_side x (fun l => mkLeg (RTPPacketsRx l) (uadd (RTPPacketsTx l) 1)
                                  (RTPBytesRx l) (uadd (RTPBytesTx l) n)
                                  (SRTPRxDrops l) (SRTPTxDrops l)) c.

Definition drop_rx (x : Side) (c : two LegStats) : two LegStats :=
  upd_side x (fun l => mkLeg (RTPPacketsRx l) (RTPPacketsTx l) (RTPBytesRx l) (RTPBytesTx l)
                             (uadd (SRTPRxDrops l) 1) (SRTPTxDrops l)) c.

Definition drop_tx (x : Side) (c : two LegStats) : two LegStats :=
  upd_side x (fun l => mkLeg (RTPPacketsRx l) (RTPPacketsTx l) (RTPBytesRx l) (RTPBytesTx l)
                             (SRTPRxDrops l) (uadd (SRTPTxDrops l) 1)) c.

(** ** SDES keys *)

Inductive SDESSuite := AES_CM_128_HMAC_SHA1_80 | AES_CM_128_HMAC_SHA1_32 | AEAD_AES_128_GCM
  | OtherSuite (name : list Z).

#[export] Instance SDESSuite_eq_dec : EqDecision SDESSuite.
Proof. solve_decision. Defined.

Record SDESKey := mkKey { Suite : SDESSuite; Key : list Z; Salt : list Z }.

(** SDESKey.profile: the pion protection profile, or the error. *)
Definition profile (k : SDESKey) : option SDESSuite :=
  match Suite k with OtherSuite _ => None | s => Some s end.

Definition key_equal (k o : SDESKey) : bool :=
  bool_decide (Suite k = Suite o) && beq (Key k) (Key o) && beq (Salt k) (Salt o).

(** ** The session's lifecycle and state *)

Definition CloseNone : Z := 0.
Definition CloseRequested : Z := 1.
Definition CloseSilence : Z := 2.
Definition CloseLegFailed : Z := 3.
Definition CloseFault : Z := 4.

Inductive sessState := sessAllocated | sessRunning | sessClosed.

#[export] Instance sessState_eq_dec : EqDecision sessState.
Proof. solve_decision. Defined.

(** The pools, by identity, and the sockets of the process. *)
Record world := mkWorld { wpools : nat -> PlanePool; socks : sockets }.

Definition set_pool (i : nat) (p : PlanePool) (w : nat -> PlanePool) : nat -> PlanePool :=
  fun j => if Nat.eqb j i then p else w j.

Section Session.
Context {Ctx : Type}.
(** newSRTPContextFromKeys, and the context's packet operations. *)
Variable newContext : SDESSuite -> list Z -> list Z -> option Ctx.
Variables (unprotectRTP unprotectRTCP protectRTP protectRTCP : Ctx -> list Z -> option (list Z) * Ctx).
(** Whether the system binds a port, and the bytes a datagram write reports. *)
Variable listen_ok : Addr -> Z -> bool.
Variable write_udp : list Z -> AddrPort -> option Z.

Record sdesDir := mkDir { dkey : option SDESKey; ctx : option Ctx }.
Record sdesLeg := mkSdes { sin : sdesDir; sout : sdesDir }.

Definition new_sdes : sdesLeg := mkSdes (mkDir None None) (mkDir None None).

(** sdesDir.set: [false] is an error. *)
Definition dir_set (k : SDESKey) (d : sdesDir) : bool * sdesDir :=
  let same := match ctx d, dkey d with Some _, Some k0 => key_equal k0 k | _, _ => false end in
  if same then (true, d)
  else match profile k with
       | None => (false, d)
       | Some p => match newContext p (Key k) (Salt k) with
                   | None => (false, d)
                   | Some c => (true, mkDir (Some k) (Some c))
                   end
       end.

Record Session := mkSession {
  pools : two nat;
  ports : two Z;             (* pairs[side].RTPPort() *)
  binds : two Addr;          (* the address its sockets are bound to *)
  rtp : two latch;
  rtcp : two latch;
  timeout : Z;
  sdes : two (option sdesLeg);
  lastRx : two Z;
  counters : two LegStats;
  cause : Z;
  state : sessState;
  done : bool
}.

Definition set_latches (r c : two latch) (s : Session) : Session :=
  mkSession (pools s) (ports s) (binds s) r c (timeout s) (sdes s) (lastRx s) (counters s) (cause s) (state s) (done s).
Definition set_sdes (d : two (option sdesLeg)) (s : Session) : Session :=
  mkSession (pools s) (ports s) (binds s) (rtp s) (rtcp s) (timeout s) d (lastRx s) (counters s) (cause s) (state s) (done s).
Definition set_lastRx (l : two Z) (s : Session) : Session :=
  mkSession (pools s) (ports s) (binds s) (rtp s) (rtcp s) (timeout s) (sdes s) l (counters s) (cause s) (state s) (done s).
Definition set_counters (c : two LegStats) (s : Session) : Session :=
  mkSession (pools s) (ports s) (binds s) (rtp s) (rtcp s) (timeout s) (sdes s) (lastRx s) c (cause s) (state s) (done s).
Definition set_state (st : sessState) (s : Session) : Session :=
  mkSession (pools s) (ports s) (binds s) (rtp s) (rtcp s) (timeout s) (sdes s) (lastRx s) (counters s) (cause s) st (done s).

(** ** Allocation and teardown *)

Record SessionConfig := mkSConf { cfg_Latch : two LatchMode; cfg_Timeout : Z }.

Definition allocateAcross (a : nat) (parA : PlaneParams) (b : nat) (parB : PlaneParams)
  (cfg : SessionConfig) (w : world) : option Session * world :=
  let tmo := if cfg_Timeout cfg <=? 0 then Timeout parA else cfg_Timeout cfg in
  let '(ra, pa, s1) := allocatePairWith listen_ok parA (wpools w a) (socks w) in
  let w1 := mkWorld (set_pool a pa (wpools w)) s1 in
  match ra with
  | None => (None, w1)
  | Some porta =>
      let '(rb, pb, s2) := allocatePairWith listen_ok parB (wpools w1 b) (socks w1) in
      let w2 := mkWorld (set_pool b pb (wpools w1)) s2 in
      match rb with
      | None => (None, mkWorld (set_pool a (release porta (wpools w2 a)) (wpools w2))
                               (close_pair (BindIP parA) porta (socks w2)))
      | Some portb =>
          let latches := mkTwo (new_latch (of_A (cfg_Latch cfg)) parA) (new_latch (of_B (cfg_Latch cfg)) parB) in
          (Some (mkSession (mkTwo a b) (mkTwo porta portb) (mkTwo (BindIP parA) (BindIP parB))
                           latches latches tmo (mkTwo None None) (mkTwo 0 0) (mkTwo zero_leg zero_leg)
                           CloseNone sessAllocated false), w2)
      end
  end.

Definition AllocateAcross (a : nat) (params : nat -> PlaneParams) (b : nat) (cfg : SessionConfig) (w : world)
  : option Session * world := allocateAcross a (params a) b (params b) cfg w.

Definition closeWith (c : Z) (s : Session) (w : world) : Session * world :=
  if bool_decide (state s = sessClosed) then (s, w)
  else
    let s' := mkSession (pools s) (ports s) (binds s) (rtp s) (rtcp s) (timeout s) (sdes s) (lastRx s)
                        (counters s) c sessClosed true in
    let w1 := mkWorld (wpools w)
                (close_pair (of_B (binds s)) (of_B (ports s))
                  (close_pair (of_A (binds s)) (of_A (ports s)) (socks w))) in
    let w2 := mkWorld (set_pool (of_A (pools s)) (release (of_A (ports s)) (wpools w1 (of_A (pools s)))) (wpools w1))
                      (socks w1) in
    let w3 := mkWorld (set_pool (of_B (pools s)) (release (of_B (ports s)) (wpools w2 (of_B (pools s)))) (wpools w2))
                      (socks w2) in
    (s', w3).

Definition Start (now : Z) (s : Session) : bool * Session :=
  if bool_decide (state s = sessAllocated)
  then (true, set_lastRx (mkTwo now now) (set_state sessRunning s))
  else (false, s).

(** ** Signalling *)

Definition rtcpAddr (addr : AddrPort) : option AddrPort :=
  if ap_port addr <? 65535 then Some (mkAddrPort (ap_addr addr) (ap_port addr + 1)) else None.

Definition seedPair (addr : AddrPort) (r c : latch) : latch * latch :=
  (seed addr r, match rtcpAddr addr with Some a => seed a c | None => c end).

Definition relatchPair (addr : AddrPort) (r c : latch) : latch * latch :=
  (relatch addr r,
   relatch (match rtcpAddr addr with Some a => a | None => mkAddrPort (ap_addr addr) 0 end) c).

Definition on_latches (x : Side) (f : latch -> latch -> latch * latch) (s : Session) : Session :=
  let '(r, c) := f (at_side x (rtp s)) (at_side x (rtcp s)) in
  set_latches (upd_side x (fun _ => r) (rtp s)) (upd_side x (fun _ => c) (rtcp s)) s.

Definition SetExpectedRemote (x : Side) (ip : Addr) : Session -> Session :=
  on_latches x (fun r c => (setExpected ip r, setExpected ip c)).
Definition SetSignallingSource (x : Side) (ip : Addr) : Session -> Session :=
  on_latches x (fun r c => (setSignallingSource ip r, setSignallingSource ip c)).
Definition PinSeedToSignallingSource (x : Side) (on : bool) : Session -> Session :=
  on_latches x (fun r c => (setPinSeed on r, setPinSeed on c)).
Definition SetRemote (x : Side) (addr : AddrPort) : Session -> Session := on_latches x (seedPair addr).
Definition SetRTCPRemote (x : Side) (addr : AddrPort) : Session -> Session :=
  on_latches x (fun r c => (r, seed addr c)).
Definition Relatch (x : Side) (addr : AddrPort) : Session -> Session := on_latches x (relatchPair addr).
Definition SendTarget (now : Z) (x : Side) (s : Session) : AddrPort := dest now (at_side x (rtp s)).

Definition SetSDESRemote (x : Side) (k : SDESKey) (s : Session) : bool * Session :=
  let leg := default new_sdes (at_side x (sdes s)) in
  let '(ok, d) := dir_set k (sin leg) in
  (ok, set_sdes (upd_side x (fun _ => Some (mkSdes d (sout leg))) (sdes s)) s).

Definition SetSDESLocal (x : Side) (k : SDESKey) (s : Session) : bool * Session :=
  let leg := default new_sdes (at_side x (sdes s)) in
  let '(ok, d) := dir_set k (sout leg) in
  (ok, set_sdes (upd_side x (fun _ => Some (mkSdes (sin leg) d)) (sdes s)) s).

(** ** One packet through [forward] *)

Definition in_latch (rtpKind : bool) (x : Side) (s : Session) : latch :=
  at_side x (if rtpKind then rtp s else rtcp s).

Definition set_latch (rtpKind : bool) (x : Side) (l : latch) (s : Session) : Session :=
  if rtpKind then set_latches (upd_side x (fun _ => l) (rtp s)) (rtcp s) s
  else set_latches (rtp s) (upd_side x (fun _ => l) (rtcp s)) s.

(** Unprotect with side [x]'s context, which may change it. *)
Definition unprotect (rtpKind : bool) (x : Side) (leg : sdesLeg) (pkt : list Z) (s : Session)
  : option (list Z) * Session :=
  match ctx (sin leg) with
  | None => (None, s)
  | Some c =>
      let '(r, c') := (if rtpKind then unprotectRTP else unprotectRTCP) c pkt in
      (r, set_sdes (upd_side x (fun _ => Some (mkSdes (mkDir (dkey (sin leg)) (Some c')) (sout leg))) (sdes s)) s)
  end.

Definition protect (rtpKind : bool) (x : Side) (leg : sdesLeg) (pkt : list Z) (s : Session)
  : option (list Z) * Session :=
  match ctx (sout leg) with
  | None => (None, s)
  | Some c =>
      let '(r, c') := (if rtpKind then protectRTP else protectRTCP) c pkt in
      (r, set_sdes (upd_side x (fun _ => Some (mkSdes (sin leg) (mkDir (dkey (sout leg)) (Some c')))) (sdes s)) s)
  end.

(** The latch decision, on either path: the accepted plaintext. *)
Definition admit_packet (now : Z) (from : Side) (rtpKind : bool) (pkt : list Z) (src : AddrPort) (s : Session)
  : option (list Z) * Session :=
  let accept (pkt : list Z) (s : Session) :=
    let '(ok, l) := acceptFrom now src (in_latch rtpKind from s) in
    (if ok then Some pkt else None, set_latch rtpKind from l s) in
  match at_side from (sdes s) with
  | Some leg =>
      if negb (permitsFrom src (in_latch rtpKind from s)) then (None, s)
      else
        let '(r, s) := unprotect rtpKind from leg pkt s in
        match r with
        | None => (None, set_counters (drop_rx from (counters s)) s)
        | Some plain => accept plain s
        end
  | None => accept pkt s
  end.

(** What goes out to the [to] side, if anything. *)
Definition send_packet (now : Z) (to : Side) (rtpKind : bool) (pkt : list Z) (s : Session)
  : option (list Z * AddrPort) * Session :=
  let dst := dest now (in_latch rtpKind to s) in
  if negb (ap_valid dst) then (None, s)
  else
    let '(out, s) :=
      match at_side to (sdes s) with
      | Some leg =>
          let '(r, s) := protect rtpKind to leg pkt s in
          match r with
          | None => (None, set_counters (drop_tx to (counters s)) s)
          | Some c => (Some c, s)
          end
      | None => (Some pkt, s)
      end in
    match out with
    | None => (None, s)
    | Some out =>
        match write_udp out dst with
        | Some n => (Some (out, dst), set_counters (recordTx to rtpKind n (counters s)) s)
        | None => (Some (out, dst), s)
        end
    end.

Definition forward_packet (now : Z) (from : Side) (rtpKind : bool) (pkt : list Z) (src : AddrPort) (s : Session)
  : option (list Z * AddrPort) * Session :=
  if maxPacketSize <? len pkt then (None, s)
  else
    let '(r, s) := admit_packet now from rtpKind pkt src s in
    match r with
    | None => (None, s)
    | Some plain =>
        let s := set_lastRx (upd_side from (fun _ => now) (lastRx s)) s in
        let s := set_counters (recordRx from rtpKind (len plain) (counters s)) s in
        send_packet now (other from) rtpKind plain s
    end.

(** One tick of [watchdog]: whether it closes the session. *)
Definition watchdog_fires (now : Z) (s : Session) : bool :=
  timeout s <? time_sub now (Z.min (of_A (lastRx s)) (of_B (lastRx s))).

(** The interval between two ticks. *)
Definition watchdog_interval (tmo : Z) : Z :=
  let i := Z.quot tmo 4 in if i <? 10 * millisecond then 10 * millisecond else i.

(** ** Steps *)

Inductive sess_op :=
  | OStart (now : Z)
  | OExpect (x : Side) (ip : Addr)
  | OSignalling (x : Side) (ip : Addr)
  | OPin (x : Side) (on : bool)
  | ORemote (x : Side) (addr : AddrPort)
  | ORTCPRemote (x : Side) (addr : AddrPort)
  | ORelatch (x : Side) (addr : AddrPort)
  | OSDESRemote (x : Side) (k : SDESKey)
  | OSDESLocal (x : Side) (k : SDESKey)
  | OPacket (now : Z) (from : Side) (rtpKind : bool) (pkt : list Z) (src : AddrPort).

Definition sess_step (s : Session) (o : sess_op) : Session :=
  match o with
  | OStart now => (Start now s).2
  | OExpect x ip => SetExpectedRemote x ip s
  | OSignalling x ip => SetSignallingSource x ip s
  | OPin x on => PinSeedToSignallingSource x on s
  | ORemote x addr => SetRemote x addr s
  | ORTCPRemote x addr => SetRTCPRemote x addr s
  | ORelatch x addr => Relatch x addr s
  | OSDESRemote x k => (SetSDESRemote x k s).2
  | OSDESLocal x k => (SetSDESLocal x k s).2
  | OPacket now from kind pkt src => (forward_packet now from kind pkt src s).2
  end.

(** The ports and sockets the session answers for. *)
Definition resources (s : Session) : two nat * two Z * two Addr := (pools s, ports s, binds s).

(** What only the lifecycle may change. *)
Definition lifecycle (s : Session) := (resources s, timeout s, cause s, state s, done s).

Lemma on_latches_lifecycle x f s : lifecycle (on_latches x f s) = lifecycle s.
Proof. unfold on_latches. by destruct (f _ _). Qed.

Lemma set_latch_fields kind x l s :
  lifecycle (set_latch kind x l s) = lifecycle s /\ sdes (set_latch kind x l s) = sdes s /\
  lastRx (set_latch kind x l s) = lastRx s /\ counters (set_latch kind x l s) = counters s.
Proof. by destruct kind. Qed.

Lemma unprotect_fields kind x leg pkt s :
  let s' := (unprotect kind x leg pkt s).2 in
  lifecycle s' = lifecycle s /\ rtp s' = rtp s /\ rtcp s' = rtcp s /\ lastRx s' = lastRx s /\
  counters s' = counters s /\ at_side (other x) (sdes s') = at_side (other x) (sdes s).
Proof.
  unfold unprotect. destruct (ctx (sin leg)) as [c|]; [|done].
  destruct ((if kind then unprotectRTP else unprotectRTCP) c pkt) as [r c']. by destruct x.
Qed.

Lemma protect_fields kind x leg pkt s :
  let s' := (protect kind x leg pkt s).2 in
  lifecycle s' = lifecycle s /\ rtp s' = rtp s /\ rtcp s' = rtcp s /\ lastRx s' = lastRx s /\
  counters s' = counters s.
Proof.
  unfold protect. destruct (ctx (sout leg)) as [c|]; [|done].
  by destruct ((if kind then protectRTP else protectRTCP) c pkt) as [r c'].
Qed.

Lemma admit_fields now from kind pkt src s :
  let s' := (admit_packet now from kind pkt src s).2 in
  lifecycle s' = lifecycle s /\ lastRx s' = lastRx s /\
  at_side (other from) (sdes s') = at_side (other from) (sdes s).
Proof.
  unfold admit_packet. destruct (at_side from (sdes s)) as [leg|].
  - case_if; [done|].
    pose proof (unprotect_fields kind from leg pkt s) as F. cbv zeta in F.
    destruct (unprotect kind from leg pkt s) as [r s1]. cbn [snd] in F.
    destruct F as (F1 & F2 & F3 & F4 & F5 & F6). destruct r as [plain|]; [|done].
    destruct (acceptFrom _ _ _) as [ok l]. cbn [snd].
    destruct (set_latch_fields kind from l s1) as (-> & -> & -> & _). by rewrite F1, F4, F6.
  - destruct (acceptFrom _ _ _) as [ok l]. cbn [snd].
    by destruct (set_latch_fields kind from l s) as (-> & -> & -> & _).
Qed.

Lemma send_fields now to kind pkt s :
  let s' := (send_packet now to kind pkt s).2 in
  lifecycle s' = lifecycle s /\ lastRx s' = lastRx s.
Proof.
  unfold send_packet. case_if; [done|]. destruct (at_side to (sdes s)) as [leg|].
  - pose proof (protect_fields kind to leg pkt s) as F. cbv zeta in F.
    destruct (protect kind to leg pkt s) as [r s1]. cbn [snd] in F.
    destruct F as (F1 & _ & _ & F4 & _). destruct r as [c|]; [|done].
    by destruct (write_udp c _).
  - by destruct (write_udp pkt _).
Qed.

Lemma forward_lifecycle now from kind pkt src s :
  lifecycle (forward_packet now from kind pkt src s).2 = lifecycle s.
Proof.
  unfold forward_packet. case_if; [done|].
  destruct (admit_fields now from kind pkt src s) as (F1 & _).
  destruct (admit_packet _ _ _ _ _ _) as [r s1]. cbn [snd] in F1. destruct r as [plain|]; [|done].
  rewrite <- F1. cbv zeta. by rewrite (proj1 (send_fields _ _ _ _ _)).
Qed.

(** No signalling and no packet changes what the session answers for. *)
Lemma sess_step_resources s o : resources (sess_step s o) = resources s.
Proof.
  assert (L : forall s', lifecycle s' = lifecycle s -> resources s' = resources s).
  { intros s' E. unfold lifecycle in E. congruence. }
  destruct o; cbn [sess_step]; try (apply L, on_latches_lifecycle).
  - unfold Start. by case_if.
  - unfold SetSDESRemote. by destruct (dir_set _ _).
  - unfold SetSDESLocal. by destruct (dir_set _ _).
  - apply L, forward_lifecycle.
Qed.

Lemma sess_step_open s o : state s <> sessClosed -> state (sess_step s o) <> sessClosed.
Proof.
  intros Hs. assert (L : forall s', lifecycle s' = lifecycle s -> state s' <> sessClosed).
  { intros s' E. unfold lifecycle in E. congruence. }
  destruct o; cbn [sess_step]; try (apply L, on_latches_lifecycle).
  - unfold Start. by case_if.
  - unfold SetSDESRemote. by destruct (dir_set _ _).
  - unfold SetSDESLocal. by destruct (dir_set _ _).
  - apply L, forward_lifecycle.
Qed.

Lemma run_sess_keeps os : forall s, state s <> sessClosed ->
  resources (run_ops sess_step s os) = resources s /\ state (run_ops sess_step s os) <> sessClosed.
Proof.
  induction os as [|o os IH]; intros s Hs; [done|].
  change (run_ops sess_step s (o :: os)) with (run_ops sess_step (sess_step s o) os).
  destruct (IH _ (sess_step_open s o Hs)) as [-> ?]. by rewrite sess_step_resources.
Qed.

(** ** Nothing leaks *)

Definition world_ok (w : world) : Prop := forall i, pool_ok (wpools w i).

(** Same reservations in every pool, same sockets. *)
Definition same_holdings (w w' : world) : Prop :=
  (forall i, inUse (wpools w' i) = inUse (wpools w i)) /\ socks w' = socks w.

Lemma alloc_pair_spec par p w : params_ok par -> pool_ok p ->
  let '(r, p', w') := allocatePairWith listen_ok par p w in
  pool_ok p' /\
  match r with
  | Some port => port ∉ inUse p /\ inUse p' = {[ port ]} ∪ inUse p /\
      (BindIP par, port) ∉ w /\ (BindIP par, port + 1) ∉ w /\
      w' = {[ (BindIP par, port); (BindIP par, port + 1) ]} ∪ w
  | None => inUse p' = inUse p /\ w' = w
  end.
Proof.
  intros Hpar Hok. unfold allocatePairWith.
  pose proof (sweep_spec (bindPair listen_ok (BindIP par)) par p w Hpar Hok) as R.
  destruct (sweep _ _ _ _) as [[r p'] w']. destruct R as [Hok' R]. split; [done|].
  destruct r as [port|]; [|by destruct R as (? & ? & _)].
  destruct R as (_ & R2 & R3 & R4). apply bindPair_spec in R3 as (? & ? & ?). done.
Qed.

Lemma close_pair_undo (ip : Addr) (port : Z) (w : sockets) : (ip, port) ∉ w -> (ip, port + 1) ∉ w ->
  close_pair ip port ({[ (ip, port); (ip, port + 1) ]} ∪ w) = w.
Proof. unfold close_pair, close_socket. set_solver. Qed.

Lemma release_undo (port : Z) (u : gset Z) : port ∉ u -> ({[ port ]} ∪ u) ∖ {[ port ]} = u.
Proof. set_solver. Qed.

Lemma set_pool_eq i p f : set_pool i p f i = p.
Proof. unfold set_pool. by rewrite Nat.eqb_refl. Qed.

Lemma set_pool_inUse i p f j : inUse (set_pool i p f j) = if Nat.eqb j i then inUse p else inUse (f j).
Proof. unfold set_pool. by case_if. Qed.

(** a failed allocation leaks nothing.  When either plane has no pair to
    give, the reservations of every pool and the sockets of the process are
    what they were; the two planes may be one pool. *)
Theorem allocateAcross_no_leak a parA b parB cfg w :
  params_ok parA -> params_ok parB -> world_ok w ->
  (allocateAcross a parA b parB cfg w).1 = None ->
  same_holdings w (allocateAcross a parA b parB cfg w).2.
Proof.
  intros HA HB Hw. unfold allocateAcross.
  pose proof (alloc_pair_spec parA (wpools w a) (socks w) HA (Hw a)) as RA.
  destruct (allocatePairWith listen_ok parA _ _) as [[ra pa] s1]. destruct RA as [Hpa RA].
  destruct ra as [porta|].
  - destruct RA as (A1 & A2 & A3 & A4 & A5).
    assert (Hb : pool_ok (set_pool a pa (wpools w) b)).
    { unfold set_pool. case_if; [done|apply Hw]. }
    pose proof (alloc_pair_spec parB _ s1 HB Hb) as RB. cbn [wpools socks].
    destruct (allocatePairWith listen_ok parB _ _) as [[rb pb] s2]. destruct RB as [Hpb RB].
    destruct rb as [portb|]; [done|]. destruct RB as [B1 B2]. intros _. split; cbn [snd wpools socks].
    + intros i. rewrite !set_pool_inUse. cbn [release inUse]. rewrite set_pool_inUse, !B1, !set_pool_inUse, Nat.eqb_refl.
      destruct (Nat.eqb i a) eqn:Ei; [|destruct (Nat.eqb i b) eqn:Eb; [|done]].
      * apply Nat.eqb_eq in Ei as ->. replace (if Nat.eqb a b then _ else inUse pa) with (inUse pa).
        -- rewrite A2. by apply release_undo.
        -- destruct (Nat.eqb a b) eqn:Eab; [|done]. apply Nat.eqb_eq in Eab as ->. by rewrite Nat.eqb_refl.
      * apply Nat.eqb_eq in Eb as ->. by rewrite Ei.
    + rewrite B2, A5. by apply close_pair_undo.
  - destruct RA as [A1 A2]. intros _. split; cbn [snd wpools socks]; [|done].
    intros i. rewrite set_pool_inUse. case_if; [|done]. breflect. apply Nat.eqb_eq in Heqb0 as ->. done.
Qed.

(** a call gives back exactly what it took, once.  After a successful
    allocation, whatever signalling and packets the session sees, the first
    close returns its two pairs and closes its four sockets - no other
    reservation or socket is touched - and records its cause; any further
    close does nothing. *)
Theorem close_returns_everything a parA b parB cfg w s w1 os c1 c2 :
  params_ok parA -> params_ok parB -> world_ok w ->
  allocateAcross a parA b parB cfg w = (Some s, w1) ->
  let '(s2, w2) := closeWith c1 (run_ops sess_step s os) w1 in
  same_holdings w w2 /\ cause s2 = c1 /\ done s2 = true /\ closeWith c2 s2 w2 = (s2, w2).
Proof.
  intros HA HB Hw. unfold allocateAcross.
  pose proof (alloc_pair_spec parA (wpools w a) (socks w) HA (Hw a)) as RA.
  destruct (allocatePairWith listen_ok parA _ _) as [[ra pa] sk1]. destruct RA as [Hpa RA].
  destruct ra as [porta|]; [|done]. destruct RA as (A1 & A2 & A3 & A4 & A5).
  assert (Hb : pool_ok (set_pool a pa (wpools w) b)).
  { unfold set_pool. case_if; [done|apply Hw]. }
  pose proof (alloc_pair_spec parB _ sk1 HB Hb) as RB. cbn [wpools socks].
  destruct (allocatePairWith listen_ok parB _ _) as [[rb pb] sk2]. destruct RB as [Hpb RB].
  destruct rb as [portb|]; [|done]. destruct RB as (B1 & B2 & B3 & B4 & B5).
  intros [= <- <-].
  match goal with |- context [run_ops sess_step ?s0 os] => set (s := s0) end.
  destruct (run_sess_keeps os s ltac:(done)) as [Hres Hst].
  unfold closeWith. rewrite bool_decide_eq_false_2 by done.
  unfold resources in Hres. injection Hres as -> -> ->. cbn [s pools ports binds of_A of_B wpools socks].
  split; [|by rewrite bool_decide_eq_true_2]. rewrite set_pool_inUse in B1, B2. split; cbn [wpools socks].
  - intros i. rewrite !set_pool_inUse. cbn [release inUse]. rewrite !set_pool_inUse. cbn [release inUse].
    rewrite !set_pool_inUse.
    destruct (Nat.eqb b a) eqn:Eab.
    + apply Nat.eqb_eq in Eab as ->. rewrite !Nat.eqb_refl in *.
      destruct (Nat.eqb i a) eqn:Ei; [|done]. apply Nat.eqb_eq in Ei as ->. rewrite B2, A2 in *. set_solver.
    + rewrite (Nat.eqb_sym a b), Eab, !Nat.eqb_refl.
      destruct (Nat.eqb i b) eqn:Ei; [|destruct (Nat.eqb i a) eqn:Ei'; [|done]].
      * apply Nat.eqb_eq in Ei as ->. rewrite B2. by apply release_undo.
      * apply Nat.eqb_eq in Ei' as ->. rewrite A2. by apply release_undo.
  - rewrite B5, A5 in *. unfold close_pair, close_socket. set_solver.
Qed.

(** ** SDES sides *)

Definition opened (kind : bool) (leg : sdesLeg) (pkt plain : list Z) : Prop :=
  exists c c', ctx (sin leg) = Some c /\
    (if kind then unprotectRTP else unprotectRTCP) c pkt = (Some plain, c').

Definition sealed (kind : bool) (leg : sdesLeg) (plain out : list Z) : Prop :=
  exists c c', ctx (sout leg) = Some c /\
    (if kind then protectRTP else protectRTCP) c plain = (Some out, c').

Lemma admit_sdes now from kind pkt src s leg plain s' :
  at_side from (sdes s) = Some leg -> admit_packet now from kind pkt src s = (Some plain, s') ->
  opened kind leg pkt plain.
Proof.
  intros Hs. unfold admit_packet. rewrite Hs. case_if; [done|]. unfold unprotect.
  destruct (ctx (sin leg)) as [c|] eqn:Ec; [|done].
  destruct ((if kind then unprotectRTP else unprotectRTCP) c pkt) as [[p|] c'] eqn:Eu; [|done].
  destruct (acceptFrom _ _ _) as [ok l]. destruct ok; [|done]. intros [= <- _]. by exists c, c'.
Qed.

Lemma send_sdes now to kind pkt s leg out d s' :
  at_side to (sdes s) = Some leg -> send_packet now to kind pkt s = (Some (out, d), s') ->
  sealed kind leg pkt out.
Proof.
  intros Hs. unfold send_packet. case_if; [done|]. rewrite Hs. unfold protect.
  destruct (ctx (sout leg)) as [c|] eqn:Ec; [|done].
  destruct ((if kind then protectRTP else protectRTCP) c pkt) as [[p|] c'] eqn:Eu; [|done].
  destruct (write_udp p _); intros [= <- <- _]; by exists c, c'.
Qed.

(** C2: an SDES side never carries plaintext.  A packet that is relayed from
    an SDES side is what the side's decrypt context authenticated, and one
    relayed to an SDES side is what its encrypt context produced from the
    packet; while either key is missing, nothing is relayed that way. *)
Theorem sdes_sides_fail_closed now from kind pkt src s out d s' :
  forward_packet now from kind pkt src s = (Some (out, d), s') ->
  exists plain,
    match at_side from (sdes s) with Some leg => opened kind leg pkt plain | None => plain = pkt end /\
    match at_side (other from) (sdes s) with Some leg => sealed kind leg plain out | None => out = plain end.
Proof.
  unfold forward_packet. case_if; [done|].
  destruct (admit_fields now from kind pkt src s) as (_ & _ & F).
  destruct (admit_packet now from kind pkt src s) as [r s1] eqn:Ea. cbn [snd] in F.
  destruct r as [plain|]; [|done]. intros Hsend. exists plain. split.
  - destruct (at_side from (sdes s)) as [leg|] eqn:Es; [by eapply admit_sdes|].
    revert Ea. unfold admit_packet. rewrite Es. destruct (acceptFrom _ _ _) as [ok l].
    by destruct ok; intros [= <- _].
  - rewrite <- F. destruct (at_side (other from) (sdes s1)) as [leg|] eqn:Es.
    + eapply send_sdes; [|exact Hsend]. exact Es.
    + revert Hsend. unfold send_packet. case_if; [done|].
      change (sdes (set_counters _ (set_lastRx _ s1))) with (sdes s1). rewrite Es.
      destruct (write_udp plain _); by intros [= -> _ _].
Qed.

(** a forged packet does nothing on an SDES side.  One that does not
    authenticate - or comes before the key, or from a source the latch refuses
    - is not relayed, moves neither latch, does not keep the call alive, and
    at most adds one to the side's drop counter. *)
Theorem forged_packet_does_nothing now from kind pkt src s leg :
  at_side from (sdes s) = Some leg ->
  (forall plain, ~ opened kind leg pkt plain) ->
  let '(r, s') := forward_packet now from kind pkt src s in
  r = None /\ rtp s' = rtp s /\ rtcp s' = rtcp s /\ lastRx s' = lastRx s /\
  (counters s' = counters s \/ counters s' = drop_rx from (counters s)).
Proof.
  intros Hs Hno. unfold forward_packet. case_if; [by split_and!; [..|left]|].
  destruct (admit_packet now from kind pkt src s) as [r s1] eqn:Ea.
  destruct r as [plain|].
  { exfalso. eapply Hno, admit_sdes; done. }
  revert Ea. unfold admit_packet. rewrite Hs. case_if.
  { intros [= <-]. by split_and!; [..|left]. }
  pose proof (unprotect_fields kind from leg pkt s) as F. cbv zeta in F.
  destruct (unprotect kind from leg pkt s) as [r s2] eqn:Eu. cbn [snd] in F.
  destruct F as (_ & F2 & F3 & F4 & F5 & _). destruct r as [plain|].
  - exfalso. revert Eu. unfold unprotect. destruct (ctx (sin leg)) as [c|] eqn:Ec; [|done].
    destruct ((if kind then unprotectRTP else unprotectRTCP) c pkt) as [r' c'] eqn:Ep.
    intros [= -> _]. apply (Hno plain). by exists c, c'.
  - intros [= <-]. cbn. rewrite F5. by split_and!; [..|right].
Qed.

(** ** The watchdog *)

(** No packet of the history from side [x] passes the latch (or, on an SDES
    side, authenticates). *)
Fixpoint silent (x : Side) (s : Session) (os : list sess_op) : Prop :=
  match os with
  | [] => True
  | o :: os' =>
      match o with
      | OStart _ => False
      | OPacket now from kind pkt src => from = x -> (admit_packet now from kind pkt src s).1 = None
      | _ => True
      end /\ silent x (sess_step s o) os'
  end.

Lemma on_latches_lastRx x f s : lastRx (on_latches x f s) = lastRx s.
Proof. unfold on_latches. by destruct (f _ _). Qed.

Lemma forward_lastRx x now from kind pkt src s :
  (from = x -> (admit_packet now from kind pkt src s).1 = None) ->
  at_side x (lastRx (forward_packet now from kind pkt src s).2) = at_side x (lastRx s).
Proof.
  intros Hx. unfold forward_packet. case_if; [done|].
  destruct (admit_fields now from kind pkt src s) as (_ & F & _).
  destruct (admit_packet now from kind pkt src s) as [r s1]. cbn [fst snd] in *.
  destruct r as [plain|]; [|cbn; by rewrite F]. cbv zeta.
  rewrite (proj2 (send_fields _ _ _ _ _)). cbn [lastRx set_counters set_lastRx]. rewrite F.
  destruct from, x; try done; exfalso; by specialize (Hx eq_refl).
Qed.

Lemma silent_lastRx x os : forall s, silent x s os ->
  at_side x (lastRx (run_ops sess_step s os)) = at_side x (lastRx s) /\
  timeout (run_ops sess_step s os) = timeout s.
Proof.
  induction os as [|o os IH]; intros s Hs; [done|]. destruct Hs as [Ho Hs].
  change (run_ops sess_step s (o :: os)) with (run_ops sess_step (sess_step s o) os).
  destruct (IH _ Hs) as [-> ->].
  assert (L : forall f y, timeout (on_latches y f s) = timeout s).
  { intros f y. pose proof (on_latches_lifecycle y f s) as E. unfold lifecycle in E. congruence. }
  destruct o; cbn [sess_step]; try done; try (by split; [f_equal; apply on_latches_lastRx|apply L]).
  - unfold SetSDESRemote. by destruct (dir_set _ _).
  - unfold SetSDESLocal. by destruct (dir_set _ _).
  - split; [by apply forward_lastRx|].
    pose proof (forward_lifecycle now from rtpKind pkt src s) as E. unfold lifecycle in E. congruence.
Qed.

(** a half-dead call is reclaimed.  If after the start no packet of one
    side passes the latch (or authenticates), the watchdog fires once rtp_timeout
    has passed, however much the other side - or a forger - keeps sending. *)
Theorem half_dead_call_is_reclaimed x t0 now s os :
  state s = sessAllocated -> 0 <= timeout s < max_int64 ->
  silent x (Start t0 s).2 os -> t0 + timeout s < now ->
  watchdog_fires now (run_ops sess_step (Start t0 s).2 os) = true.
Proof.
  intros Hst Ht Hs Hnow. destruct (silent_lastRx x os _ Hs) as [E1 E2].
  unfold Start in *. rewrite bool_decide_eq_true_2 in * by done. cbn [snd] in *.
  unfold watchdog_fires. rewrite E2. cbn [timeout set_lastRx set_state] in *.
  apply Z.ltb_lt. set (l := lastRx (run_ops _ _ _)) in *.
  assert (Hm : Z.min (of_A l) (of_B l) <= t0).
  { destruct x; cbn [at_side lastRx set_lastRx of_A of_B] in E1; lia. }
  unfold time_sub. lia.
Qed.

End Session.

(** ** Witnesses *)

(** A toy cipher: a tag byte after the payload. *)
Definition toy_seal (c : unit) (p : list Z) : option (list Z) * unit := (Some (p ++ [99]), c).
Definition toy_open (c : unit) (p : list Z) : option (list Z) * unit :=
  match rev p with 99 :: r => (Some (rev r), c) | _ => (None, c) end.
Definition toy_context (_ : SDESSuite) (_ _ : list Z) : option unit := Some tt.

Abbreviation toy_step := (sess_step toy_context toy_open toy_open toy_seal toy_seal (fun p _ => Some (len p))).
Abbreviation toy_forward := (forward_packet toy_open toy_open toy_seal toy_seal (fun p _ => Some (len p))).

Definition demo_world : world := mkWorld (fun _ => NewPlanePool) ∅.
Definition demo_conf : SessionConfig := mkSConf (mkTwo LatchStrict LatchStrict) (60 * second).
Definition private_plane : PlaneParams :=
  mkParams 40000 40099 (ip4 10 0 0 1) (60 * second) false (mkPolicy false false []).

Definition demo_key : SDESKey := mkKey AEAD_AES_128_GCM [1; 2] [3].

Definition demo_ops : list sess_op :=
  [ORemote SideA (mkAddrPort (ip4 198 51 100 9) 4000); ORemote SideB (mkAddrPort (ip4 10 0 0 2) 5000);
   OSDESRemote SideA demo_key; OStart 7].

Lemma demo_planes_ok : params_ok public_plane /\ params_ok private_plane /\ world_ok demo_world.
Proof.
  split; [split; vm_compute; split; discriminate|]. split; [split; vm_compute; split; discriminate|].
  intros i. split; [reflexivity|]. intros port H. by apply elem_of_empty in H.
Qed.

Lemma allocateAcross_no_leak_witness :
  let w1 := (allocateAcross (Ctx:=unit) (fun _ port => port <? 40000) 0 public_plane 1 private_plane demo_conf demo_world).2 in
  inUse (wpools w1 0) = ∅ /\ socks w1 = ∅.
Proof.
  intros w1. destruct demo_planes_ok as (H1 & H2 & H3).
  destruct (allocateAcross_no_leak (Ctx:=unit) (fun _ port => port <? 40000) 0 public_plane 1 private_plane demo_conf demo_world H1 H2 H3) as [L1 L2].
  - vm_compute. reflexivity.
  - split; [apply (L1 0%nat)|exact L2].
Defined.

Lemma close_returns_everything_witness :
  match allocateAcross (Ctx:=unit) (fun _ _ => true) 0 public_plane 1 private_plane demo_conf demo_world with
  | (Some s, w1) =>
      cause (closeWith CloseSilence (run_ops toy_step s demo_ops) w1).1 = CloseSilence /\
      socks (closeWith CloseSilence (run_ops toy_step s demo_ops) w1).2 = ∅
  | (None, _) => False
  end.
Proof.
  destruct demo_planes_ok as (H1 & H2 & H3).
  assert (Hsome : is_Some (allocateAcross (Ctx:=unit) (fun _ _ => true) 0 public_plane 1 private_plane demo_conf demo_world).1)
    by (vm_compute; eexists; reflexivity).
  destruct (allocateAcross _ _ _ _ _ _ _) as [[s|] w1] eqn:E; [|by destruct Hsome].
  pose proof (close_returns_everything toy_context toy_open toy_open toy_seal toy_seal (fun _ _ => true)
    (fun p _ => Some (len p)) 0 public_plane 1 private_plane demo_conf demo_world s w1 demo_ops
    CloseSilence CloseRequested H1 H2 H3 E) as R.
  destruct (closeWith _ _ _) as [s2 w2]. destruct R as ([_ R1] & R2 & _). by split.
Defined.

Definition demo_session : @Session unit :=
  run_ops toy_step
    (mkSession (mkTwo 0%nat 1%nat) (mkTwo 16384 40000) (mkTwo (BindIP public_plane) (BindIP private_plane))
       (mkTwo (new_latch LatchStrict public_plane) (new_latch LatchStrict private_plane))
       (mkTwo (new_latch LatchStrict public_plane) (new_latch LatchStrict private_plane))
       (60 * second) (mkTwo None None) (mkTwo 0 0) (mkTwo zero_leg zero_leg) CloseNone sessAllocated false)
    (take 3 demo_ops).

Lemma sdes_sides_fail_closed_witness :
  exists out d s', toy_forward 9 SideA true [1; 2; 99] (mkAddrPort (ip4 198 51 100 9) 4000) demo_session = (Some (out, d), s') /\
  out = [1; 2].
Proof.
  destruct (toy_forward 9 SideA true [1; 2; 99] (mkAddrPort (ip4 198 51 100 9) 4000) demo_session) as [[[out d]|] s'] eqn:E;
    [|exfalso; vm_compute in E; discriminate].
  exists out, d, s'. split; [reflexivity|].
  destruct (sdes_sides_fail_closed _ _ _ _ _ _ _ _ _ _ _ _ _ _ E) as (plain & H1 & H2).
  assert (E2 : at_side (other SideA) (sdes demo_session) = None) by (vm_compute; reflexivity).
  rewrite E2 in H2. subst out.
  destruct (at_side SideA (sdes demo_session)) as [leg|] eqn:El; [|exfalso; vm_compute in El; discriminate].
  destruct H1 as (c & c' & _ & H). vm_compute in H. by injection H.
Defined.

Lemma forged_packet_does_nothing_witness :
  (toy_forward 9 SideA true [1; 2; 3] (mkAddrPort (ip4 198 51 100 9) 4000) demo_session).1 = None.
Proof.
  destruct (at_side SideA (sdes demo_session)) as [leg|] eqn:El; [|exfalso; vm_compute in El; discriminate].
  pose proof (forged_packet_does_nothing toy_open toy_open toy_seal toy_seal (fun p _ => Some (len p)) 9 SideA true
    [1; 2; 3] (mkAddrPort (ip4 198 51 100 9) 4000) demo_session leg El) as R.
  destruct (toy_forward _ _ _ _ _ _) as [r s']. apply R.
  intros plain (c & c' & _ & H). vm_compute in H. discriminate.
Defined.

Lemma half_dead_call_is_reclaimed_witness :
  watchdog_fires (100 * second)
    (run_ops toy_step (Start 7 demo_session).2
       [OPacket (99 * second) SideA true [1; 2; 3] (mkAddrPort (ip4 198 51 100 9) 4000)]) = true.
Proof.
  apply (half_dead_call_is_reclaimed toy_context toy_open toy_open toy_seal toy_seal (fun _ _ => true) (fun p _ => Some (len p)) SideA 7).
  - reflexivity.
  - vm_compute. split; [discriminate|reflexivity].
  - split; [intros _; vm_compute; reflexivity|exact I].
  - vm_compute. reflexivity.
Defined.
