(* ===== verification/Hep.v ===== *)
(** internal/hep/hep.go: the HEPv3 packet encoder.

    A packet is a header ("HEP3", total length) and a sequence of chunks
    (vendor, type, length, data), all numbers big-endian.  [decode] reads one
    back; it is not part of the program, and is what the encoder is checked
    against. *)

From S2P Require Import Prelude GoTime Netip.

Open Scope Z_scope.

Definition MaxPacketSize : Z := 65507.

Definition chunkFamily : Z := 1.
Definition chunkProto : Z := 2.
Definition chunkSrc4 : Z := 3.
Definition chunkDst4 : Z := 4.
Definition chunkSrc6 : Z := 5.
Definition chunkDst6 : Z := 6.
Definition chunkSrcPort : Z := 7.
Definition chunkDstPort : Z := 8.
Definition chunkTimeSec : Z := 9.
Definition chunkTimeUsec : Z := 10.
Definition chunkPayType : Z := 11.
Definition chunkCaptureID : Z := 12.
Definition chunkPayload : Z := 15.
Definition chunkCorrID : Z := 17.
Definition chunkNodeName : Z := 19.

Definition familyIPv4 : Z := 2.
Definition familyIPv6 : Z := 10.
Definition headerLen : Z := 6.
Definition chunkHeaderLen : Z := 6.

Inductive hepError := ErrTooLarge | ErrFamilyMismatch | ErrBadAddr | ErrBadType | ErrSizeMismatch.

#[export] Instance hepError_eq_dec : EqDecision hepError.
Proof. solve_decision. Defined.

Record Packet := mkPacket {
  Src : AddrPort; Dst : AddrPort;
  Proto : Z;                 (* uint8 *)
  Time : Z;
  Type_ : Z;                 (* uint8 *)
  CorrelationID : list Z;
  Payload : list Z
}.

Definition as_bytes (a : Addr) : list Z :=
  match a with V4 n => be 4 n | V6 n _ => be 16 n | AddrZero => [] end.

(** [t.Unix()]: seconds since 1970; 62135596800 of them from Go's zero time. *)
Definition unix_sec (t : Z) : Z := t / second - 62135596800.
Definition nanosecond_of (t : Z) : Z := t mod second.

Definition appendChunkHeader (dst : list Z) (typ n : Z) : list Z :=
  dst ++ be 2 0 ++ be 2 typ ++ be 2 (wrap_uint 16 (chunkHeaderLen + n)).

Definition appendChunk (dst : list Z) (typ : Z) (data : list Z) : list Z :=
  appendChunkHeader dst typ (len data) ++ data.

(** The size computed before anything is written. *)
Definition packet_size (v4 : bool) (p : Packet) (node : list Z) : Z :=
  let addrLen := if v4 then 4 else 16 in
  let size := headerLen + (chunkHeaderLen + 1) + (chunkHeaderLen + 1)
              + 2 * (chunkHeaderLen + addrLen) + 2 * (chunkHeaderLen + 2) + 2 * (chunkHeaderLen + 4)
              + (chunkHeaderLen + 1) + (chunkHeaderLen + 4) + chunkHeaderLen + len (Payload p) in
  let size := if bool_decide (CorrelationID p = []) then size else size + chunkHeaderLen + len (CorrelationID p) in
  if bool_decide (node = []) then size else size + chunkHeaderLen + len node.

Definition AppendPacket (now : Z) (dst : list Z) (p : Packet) (captureID : Z) (node : list Z)
  : list Z * option hepError :=
  if negb (ap_valid (Src p)) || negb (ap_valid (Dst p)) then (dst, Some ErrBadAddr)
  else if Type_ p =? 0 then (dst, Some ErrBadType)
  else
    let src := unmap (ap_addr (Src p)) in
    let dstA := unmap (ap_addr (Dst p)) in
    if negb (eqb (is4 src) (is4 dstA)) then (dst, Some ErrFamilyMismatch)
    else
      let v4 := is4 src in
      let size := packet_size v4 p node in
      if (MaxPacketSize <? size) || (65535 <? chunkHeaderLen + len (Payload p))
         || (65535 <? chunkHeaderLen + len (CorrelationID p)) || (65535 <? chunkHeaderLen + len node)
      then (dst, Some ErrTooLarge)
      else
        let t := if is_zero (Time p) then now else Time p in
        let start := len dst in
        let out := dst ++ str "HEP3" ++ [wrap_uint 8 (Z.shiftr size 8); wrap_uint 8 size] in
        let fam := if v4 then familyIPv4 else familyIPv6 in
        let out := appendChunkHeader out chunkFamily 1 ++ [fam] in
        let out := appendChunkHeader out chunkProto 1 ++ [Proto p] in
        let out := appendChunk out (if v4 then chunkSrc4 else chunkSrc6) (as_bytes src) in
        let out := appendChunk out (if v4 then chunkDst4 else chunkDst6) (as_bytes dstA) in
        let out := appendChunkHeader out chunkSrcPort 2 ++ be 2 (ap_port (Src p)) in
        let out := appendChunkHeader out chunkDstPort 2 ++ be 2 (ap_port (Dst p)) in
        let out := appendChunkHeader out chunkTimeSec 4 ++ be 4 (wrap_uint 32 (unix_sec t)) in
        let out := appendChunkHeader out chunkTimeUsec 4 ++ be 4 (wrap_uint 32 (nanosecond_of t / 1000)) in
        let out := appendChunkHeader out chunkPayType 1 ++ [Type_ p] in
        let out := appendChunkHeader out chunkCaptureID 4 ++ be 4 captureID in
        let out := appendChunk out chunkPayload (Payload p) in
        let out := if bool_decide (CorrelationID p = []) then out
                   else appendChunkHeader out chunkCorrID (len (CorrelationID p)) ++ CorrelationID p in
        let out := if bool_decide (node = []) then out
                   else appendChunkHeader out chunkNodeName (len node) ++ node in
        if negb (len out - start =? size) then (take (Z.to_nat start) out, Some ErrSizeMismatch)
        else (out, None).

(** ** The reference decoder *)

Record chunk := mkChunk { c_vendor : Z; c_type : Z; c_data : list Z }.

(** The chunks of a packet body; every chunk takes at least six bytes, so the
    length of the body is fuel enough. *)
Fixpoint decode_chunks (fuel : nat) (b : list Z) : option (list chunk) :=
  match b with
  | [] => Some []
  | _ =>
      match fuel with
      | O => None
      | S fuel' =>
          match b with
          | v1 :: v0 :: t1 :: t0 :: l1 :: l0 :: rest =>
              let n := be_value [l1; l0] - 6 in
              if (n <? 0) || (len rest <? n) then None
              else match decode_chunks fuel' (drop (Z.to_nat n) rest) with
                   | None => None
                   | Some cs => Some (mkChunk (be_value [v1; v0]) (be_value [t1; t0]) (take (Z.to_nat n) rest) :: cs)
                   end
          | _ => None
          end
      end
  end.

Definition decode (b : list Z) : option (list chunk) :=
  match b with
  | 72 :: 69 :: 80 :: 51 :: l1 :: l0 :: rest =>
      if be_value [l1; l0] =? len b then decode_chunks (length rest) rest else None
  | _ => None
  end.

(** The chunks a packet stands for. *)
Definition chunks_of (now : Z) (p : Packet) (captureID : Z) (node : list Z) : list chunk :=
  let src := unmap (ap_addr (Src p)) in
  let dstA := unmap (ap_addr (Dst p)) in
  let v4 := is4 src in
  let t := if is_zero (Time p) then now else Time p in
  [ mkChunk 0 chunkFamily [if v4 then familyIPv4 else familyIPv6];
    mkChunk 0 chunkProto [Proto p];
    mkChunk 0 (if v4 then chunkSrc4 else chunkSrc6) (as_bytes src);
    mkChunk 0 (if v4 then chunkDst4 else chunkDst6) (as_bytes dstA);
    mkChunk 0 chunkSrcPort (be 2 (ap_port (Src p)));
    mkChunk 0 chunkDstPort (be 2 (ap_port (Dst p)));
    mkChunk 0 chunkTimeSec (be 4 (wrap_uint 32 (unix_sec t)));
    mkChunk 0 chunkTimeUsec (be 4 (wrap_uint 32 (nanosecond_of t / 1000)));
    mkChunk 0 chunkPayType [Type_ p];
    mkChunk 0 chunkCaptureID (be 4 captureID);
    mkChunk 0 chunkPayload (Payload p) ]
  ++ (if bool_decide (CorrelationID p = []) then [] else [mkChunk 0 chunkCorrID (CorrelationID p)])
  ++ (if bool_decide (node = []) then [] else [mkChunk 0 chunkNodeName node]).

(** ** Lemmas *)

Lemma as_bytes_length a : is_valid a = true -> len (as_bytes a) = if is4 a then 4 else 16.
Proof. destruct a as [|n|n z]; [done| |]; intros _; unfold len, as_bytes; by rewrite be_length. Qed.

Lemma be2_value z : 0 <= z < 65536 -> be 2 z = [z / 256; z mod 256] /\ be_value [z / 256; z mod 256] = z.
Proof.
  intros Hz. split.
  - cbn [be]. change (256 ^ Z.of_nat 1) with 256. change (256 ^ Z.of_nat 0) with 1.
    rewrite Z.div_1_r, (Z.mod_small (z / 256)); [done|]. split; [apply Z.div_pos; lia|apply Z.div_lt_upper_bound; lia].
  - unfold be_value. cbn [fold_left]. pose proof (Z.div_mod z 256). lia.
Qed.

(** A chunk, as bytes. *)
Definition enc (c : chunk) : list Z :=
  be 2 0 ++ be 2 (c_type c) ++ be 2 (wrap_uint 16 (chunkHeaderLen + len (c_data c))) ++ c_data c.

Definition chunk_ok (c : chunk) : Prop :=
  c_vendor c = 0 /\ 0 <= c_type c < 65536 /\ chunkHeaderLen + len (c_data c) < 65536.

Lemma enc_eq c : chunk_ok c ->
  let l := chunkHeaderLen + len (c_data c) in
  enc c = 0 :: 0 :: c_type c / 256 :: c_type c mod 256 :: l / 256 :: l mod 256 :: c_data c.
Proof.
  intros (_ & Ht & Hl) l. unfold enc. pose proof (len_nonneg (c_data c)). unfold chunkHeaderLen in *.
  unfold wrap_uint. rewrite (Z.mod_small _ (2 ^ 16)) by lia.
  rewrite (proj1 (be2_value (c_type c) Ht)). fold l.
  rewrite (proj1 (be2_value l ltac:(lia))). done.
Qed.

Lemma enc_length c : len (enc c) = chunkHeaderLen + len (c_data c).
Proof. unfold enc, len. rewrite !length_app, !be_length. unfold chunkHeaderLen. lia. Qed.

Lemma decode_chunks_enc cs : forall fuel, Forall chunk_ok cs ->
  (length (concat (map enc cs)) <= fuel)%nat ->
  decode_chunks fuel (concat (map enc cs)) = Some cs.
Proof.
  induction cs as [|c cs IH]; intros fuel Hok Hf; [by destruct fuel|].
  apply Forall_cons in Hok as [Hc Hok]. cbn [map concat] in *.
  rewrite (enc_eq c Hc) in *. cbv zeta in *. rewrite length_app in Hf.
  destruct fuel as [|fuel]; [cbn [length] in Hf; lia|].
  cbn [length] in Hf. cbn [app decode_chunks].
  destruct Hc as (Hv & Ht & Hl). pose proof (len_nonneg (c_data c)). unfold chunkHeaderLen in *.
  rewrite (proj2 (be2_value (6 + len (c_data c)) ltac:(lia))).
  replace (6 + len (c_data c) - 6) with (len (c_data c)) by lia.
  rewrite len_app. pose proof (len_nonneg (concat (map enc cs))).
  replace ((len (c_data c) <? 0) || _) with false by lia.
  unfold len. rewrite Nat2Z.id, drop_app_length, take_app_length.
  rewrite IH by (done || lia).
  rewrite (proj2 (be2_value (c_type c) Ht)). destruct c as [v ty d]. cbn [c_vendor c_type c_data] in *. subst v.
  done.
Qed.

Lemma concat_length_fold cs : len (concat (map enc cs)) = fold_right (fun c a => len (enc c) + a) 0 cs.
Proof. induction cs as [|c cs IH]; cbn [map concat fold_right]; [done|]. by rewrite len_app, IH. Qed.

(** The body of an accepted packet is the encoding of its chunks, and the size
    computed beforehand is its length. *)
Lemma body_length now p captureID node :
  is_valid (unmap (ap_addr (Src p))) = true -> is_valid (unmap (ap_addr (Dst p))) = true ->
  is4 (unmap (ap_addr (Src p))) = is4 (unmap (ap_addr (Dst p))) ->
  6 + len (concat (map enc (chunks_of now p captureID node))) =
  packet_size (is4 (unmap (ap_addr (Src p)))) p node.
Proof.
  intros Hs Hd H4. rewrite concat_length_fold. unfold chunks_of. cbv zeta.
  pose proof (as_bytes_length _ Hs) as Ls. pose proof (as_bytes_length _ Hd) as Ld. rewrite <- H4 in Ld.
  assert (B2 : forall z, len (be 2 z) = 2) by (intros; unfold len; by rewrite be_length).
  assert (B4 : forall z, len (be 4 z) = 4) by (intros; unfold len; by rewrite be_length).
  unfold packet_size, headerLen.
  destruct (is4 (unmap (ap_addr (Src p)))), (bool_decide (CorrelationID p = [])), (bool_decide (node = [])).
  all: cbn [app fold_right]; rewrite !enc_length; cbn [c_data]; rewrite ?Ls, ?Ld, ?B2, ?B4, ?len_cons, ?len_nil;
    unfold chunkHeaderLen; lia.
Qed.

Lemma AppendPacket_accepts now dst p captureID node :
  let src := unmap (ap_addr (Src p)) in
  let dstA := unmap (ap_addr (Dst p)) in
  let size := packet_size (is4 src) p node in
  ap_valid (Src p) = true -> ap_valid (Dst p) = true -> Type_ p <> 0 -> is4 src = is4 dstA ->
  (MaxPacketSize <? size) || (65535 <? chunkHeaderLen + len (Payload p))
     || (65535 <? chunkHeaderLen + len (CorrelationID p)) || (65535 <? chunkHeaderLen + len node) = false ->
  AppendPacket now dst p captureID node =
  (dst ++ str "HEP3" ++ [wrap_uint 8 (Z.shiftr size 8); wrap_uint 8 size]
     ++ concat (map enc (chunks_of now p captureID node)), None).
Proof.
  intros src dstA size Hs Hd Ht H4 Hsz. unfold AppendPacket. rewrite Hs, Hd. cbn [negb orb].
  replace (Type_ p =? 0) with false by lia. fold src dstA. rewrite H4, eqb_reflx. cbn [negb].
  rewrite <- H4. fold size. rewrite Hsz. cbv zeta.
  match goal with |- (if negb (len ?o - _ =? _) then _ else _) = _ =>
    assert (E : o = dst ++ str "HEP3" ++ [wrap_uint 8 (Z.shiftr size 8); wrap_uint 8 size]
                    ++ concat (map enc (chunks_of now p captureID node))) end.
  { unfold chunks_of. cbv zeta. fold src dstA.
    destruct (bool_decide (CorrelationID p = [])), (bool_decide (node = [])).
    all: unfold appendChunk, appendChunkHeader, enc; cbn [map concat app c_type c_data];
      rewrite <- !app_assoc; cbn [app]; rewrite ?app_nil_r; repeat f_equal. 
    all: done. }
  rewrite E. replace (len _ - len dst =? size) with true; [done|].
  symmetry. apply Z.eqb_eq. rewrite !len_app.
  pose proof (body_length now p captureID node) as B. unfold ap_valid in Hs, Hd.
  rewrite !unmap_valid in B. specialize (B Hs Hd H4). fold src in B. fold size in B.
  change (len (str "HEP3")) with 4. rewrite !len_cons, len_nil. lia.
Qed.

(** The call either refuses the packet, writing nothing, or accepts it. *)
Lemma AppendPacket_cases now dst p captureID node :
  let src := unmap (ap_addr (Src p)) in
  let size := packet_size (is4 src) p node in
  (exists e, e <> ErrSizeMismatch /\ AppendPacket now dst p captureID node = (dst, Some e)) \/
  (ap_valid (Src p) = true /\ ap_valid (Dst p) = true /\ is4 src = is4 (unmap (ap_addr (Dst p))) /\
   (MaxPacketSize <? size) || (65535 <? chunkHeaderLen + len (Payload p))
     || (65535 <? chunkHeaderLen + len (CorrelationID p)) || (65535 <? chunkHeaderLen + len node) = false /\
   AppendPacket now dst p captureID node =
   (dst ++ str "HEP3" ++ [wrap_uint 8 (Z.shiftr size 8); wrap_uint 8 size]
      ++ concat (map enc (chunks_of now p captureID node)), None)).
Proof.
  intros src size.
  destruct (negb (ap_valid (Src p)) || negb (ap_valid (Dst p))) eqn:E1;
    [left; exists ErrBadAddr; split; [done|]; unfold AppendPacket; by rewrite E1|].
  destruct (Type_ p =? 0) eqn:E2;
    [left; exists ErrBadType; split; [done|]; unfold AppendPacket; by rewrite E1, E2|].
  destruct (negb (eqb (is4 src) (is4 (unmap (ap_addr (Dst p)))))) eqn:E3;
    [left; exists ErrFamilyMismatch; split; [done|]; unfold AppendPacket; by rewrite E1, E2; fold src; rewrite E3|].
  match goal with |- _ \/ (_ /\ _ /\ _ /\ ?b = false /\ _) => destruct b eqn:E4 end.
  { left; exists ErrTooLarge; split; [done|]. unfold AppendPacket. rewrite E1, E2. fold src. rewrite E3.
    fold size. by rewrite E4. }
  right. apply orb_false_iff in E1 as [E1 E1']. apply negb_false_iff in E1, E1', E3. apply eqb_prop in E3.
  split_and!; [done..|]. apply AppendPacket_accepts; [done|done|lia|done|done].
Qed.

(** an encoded packet is well formed and says what was captured.  On
    success exactly one packet is appended, no larger than HOMER accepts; its
    length field is its length, and reading its chunks back gives the family,
    addresses, ports, time, type, ids and payload of the message, byte for
    byte. *)
Theorem AppendPacket_roundtrip now dst p captureID node out :
  AppendPacket now dst p captureID node = (out, None) ->
  exists msg, out = dst ++ msg /\ len msg <= MaxPacketSize /\
  decode msg = Some (chunks_of now p captureID node).
Proof.
  intros H. destruct (AppendPacket_cases now dst p captureID node) as [(e & _ & E)|(Hs & Hd & H4 & Hsz & E)];
    [congruence|]. rewrite E in H. injection H as <-. clear E.
  set (size := packet_size _ p node) in *. set (cs := chunks_of now p captureID node) in *.
  exists (72 :: 69 :: 80 :: 51 :: wrap_uint 8 (Z.shiftr size 8) :: wrap_uint 8 size :: concat (map enc cs)).
  split; [reflexivity|].
  pose proof (body_length now p captureID node) as B. unfold ap_valid in Hs, Hd.
  rewrite !unmap_valid in B. specialize (B Hs Hd H4). fold size cs in B.
  unfold MaxPacketSize, chunkHeaderLen in *.
  assert (Hlen : len (72 :: 69 :: 80 :: 51 :: wrap_uint 8 (Z.shiftr size 8) :: wrap_uint 8 size
                      :: concat (map enc cs)) = size) by (rewrite !len_cons; lia).
  pose proof (len_nonneg (concat (map enc cs))).
  split; [rewrite Hlen; lia|].
  unfold decode. rewrite Hlen.
  assert (Hhi : wrap_uint 8 (Z.shiftr size 8) = size / 256).
  { unfold wrap_uint. rewrite Z.shiftr_div_pow2 by lia. change (2 ^ 8) with 256.
    apply Z.mod_small. split; [apply Z.div_pos; lia|apply Z.div_lt_upper_bound; lia]. }
  rewrite Hhi. change (wrap_uint 8 size) with (size mod 256).
  rewrite (proj2 (be2_value size ltac:(lia))), Z.eqb_refl.
  apply decode_chunks_enc; [|lia].
  assert (B2 : forall z, len (be 2 z) = 2) by (intros; unfold len; by rewrite be_length).
  assert (B4 : forall z, len (be 4 z) = 4) by (intros; unfold len; by rewrite be_length).
  pose proof (as_bytes_length (unmap (ap_addr (Src p)))) as Ls. rewrite unmap_valid in Ls. specialize (Ls Hs).
  pose proof (as_bytes_length (unmap (ap_addr (Dst p)))) as Ld. rewrite unmap_valid in Ld. specialize (Ld Hd).
  rewrite <- H4 in Ld.
  unfold cs, chunks_of, chunk_ok, chunkHeaderLen. cbv zeta.
  destruct (is4 (unmap (ap_addr (Src p)))), (bool_decide (CorrelationID p = [])), (bool_decide (node = [])).
  all: cbn [app]; repeat (apply Forall_cons; split); try apply Forall_nil; try done; cbn [c_vendor c_type c_data].
  all: (split; [reflexivity|]; split; [split; [discriminate|reflexivity]|]).
  all: rewrite ?Ls, ?Ld, ?B2, ?B4, ?len_cons, ?len_nil; lia.
Qed.

(** a refused packet writes nothing, and the encoder's own size
    arithmetic is never wrong. *)
Theorem AppendPacket_error now dst p captureID node out e :
  AppendPacket now dst p captureID node = (out, Some e) -> out = dst /\ e <> ErrSizeMismatch.
Proof.
  intros H. destruct (AppendPacket_cases now dst p captureID node) as [(e' & He & E)|(_ & _ & _ & _ & E)];
    rewrite E in H; [|discriminate]. by injection H as <- <-.
Qed.

Definition demo_packet : Packet :=
  mkPacket (mkAddrPort (ip4 192 0 2 1) 5060) (mkAddrPort (V6 281471130763266 []) 5080) 17 5 1 [97] [79; 80].

Lemma AppendPacket_roundtrip_witness :
  exists msg, (AppendPacket 7 [1] demo_packet 42 [110]).1 = [1] ++ msg /\
  decode msg = Some (chunks_of 7 demo_packet 42 [110]).
Proof.
  destruct (AppendPacket 7 [1] demo_packet 42 [110]) as [out [e|]] eqn:E; [exfalso; vm_compute in E; discriminate|].
  destruct (AppendPacket_roundtrip 7 [1] demo_packet 42 [110] out E) as (msg & -> & _ & H).
  exists msg. split; [reflexivity|exact H].
Defined.

Lemma AppendPacket_error_witness :
  (AppendPacket 7 [1] (mkPacket ap_zero ap_zero 17 5 1 [] []) 42 []).1 = [1].
Proof.
  destruct (AppendPacket 7 [1] (mkPacket ap_zero ap_zero 17 5 1 [] []) 42 []) as [out [e|]] eqn:E;
    [|exfalso; vm_compute in E; discriminate].
  by destruct (AppendPacket_error _ _ _ _ _ _ _ E) as [-> _].
Defined.
