(* ===== verification/Cooldown.v ===== *)
(** internal/edge/cooldown.go: passive cooldowns of the switch nodes and the
    per-node REGISTER circuit breaker.

    One operation is one critical section; the clock is an argument. *)

From S2P Require Import Prelude GoTime.

Open Scope Z_scope.

Record regBreaker := mkBreaker {
  fails : Z;
  level : Z;
  open : bool;
  openUntil : Z;
  probeBy : Z;
  lastWarn : Z
}.

Definition new_breaker : regBreaker := mkBreaker 0 0 false zero_time zero_time zero_time.

Definition registerBreakerThreshold : Z := 3.
Definition registerWarnWindow : Z := 30 * second.
Definition registerBreakerBackoff : list Z := [30 * second; minute; 5 * minute].

Definition backoff (level : Z) : Z :=
  nth (Z.to_nat (Z.min level (len registerBreakerBackoff - 1))) registerBreakerBackoff 0.

Record cooldownTable := mkCooldown {
  until : gmap gostring Z;
  lastFail : gmap gostring Z;
  reg : gmap gostring regBreaker
}.

Definition newCooldownTable : cooldownTable := mkCooldown ∅ ∅ ∅.

Definition set_reg (name : gostring) (b : regBreaker) (h : cooldownTable) : cooldownTable :=
  mkCooldown (until h) (lastFail h) (<[name := b]> (reg h)).

(** allow and probe. *)
Definition RegisterAllow (now : Z) (name : gostring) (probeBudget : Z) (h : cooldownTable)
  : bool * bool * cooldownTable :=
  match reg h !! name with
  | None => (true, false, h)
  | Some b =>
      if negb (open b) then (true, false, h)
      else if time_before now (openUntil b) || time_before now (probeBy b) then (false, false, h)
      else (true, true, set_reg name (mkBreaker (fails b) (level b) (open b) (openUntil b)
                                                (time_add now probeBudget) (lastWarn b)) h)
  end.

Definition RegisterRelease (name : gostring) (h : cooldownTable) : cooldownTable :=
  match reg h !! name with
  | None => h
  | Some b => set_reg name (mkBreaker (fails b) (level b) (open b) (openUntil b) zero_time (lastWarn b)) h
  end.

Definition RegisterAnswered (name : gostring) (h : cooldownTable) : cooldownTable :=
  match reg h !! name with
  | None => h
  | Some b => set_reg name (mkBreaker 0 0 false zero_time zero_time (lastWarn b)) h
  end.

Record unanswered := mkUnanswered { u_opened : bool; u_window : Z; u_warn : bool }.

Definition RegisterUnanswered (now : Z) (name : gostring) (probe : bool) (h : cooldownTable)
  : unanswered * cooldownTable :=
  let b := default new_breaker (reg h !! name) in
  let n := fails b + 1 in
  let opens := (open b && probe) || (negb (open b) && (registerBreakerThreshold <=? n)) in
  let window := if opens then backoff (level b) else 0 in
  let warn := opens || (registerWarnWindow <=? time_sub now (lastWarn b)) in
  let lw := if warn then now else lastWarn b in
  let b' := if opens then mkBreaker n (level b + 1) true (time_add now window) zero_time lw
            else mkBreaker n (level b) (open b) (openUntil b) (probeBy b) lw in
  (mkUnanswered opens window warn, set_reg name b' h).

Definition Available (now : Z) (name : gostring) (h : cooldownTable) : bool :=
  match until h !! name with None => true | Some t => negb (time_before now t) end.

Definition Penalize (now : Z) (name : gostring) (cooldown : Z) (h : cooldownTable) : cooldownTable :=
  mkCooldown (<[name := time_add now cooldown]> (until h)) (<[name := now]> (lastFail h)) (reg h).

Definition Recover (name : gostring) (h : cooldownTable) : cooldownTable :=
  mkCooldown (delete name (until h)) (lastFail h) (reg h).

Definition NodeHealthy : gostring := str "healthy".
Definition NodeCoolingDown : gostring := str "cooling_down".

Record SwitchNodeInfo := mkInfo {
  Address : gostring; State : gostring; CooldownRemaining : Z; CooldownUntil : Z; LastFailure : Z
}.

Definition node_info (now : Z) (h : cooldownTable) (n : gostring) : SwitchNodeInfo :=
  let failed := default zero_time (lastFail h !! n) in
  let u := default zero_time (until h !! n) in
  let ok := match until h !! n with Some _ => true | None => false end in
  let '(u, ok) := match reg h !! n with
                  | Some b => if open b && time_after (openUntil b) u then (openUntil b, true) else (u, ok)
                  | None => (u, ok)
                  end in
  if ok && time_before now u
  then mkInfo n NodeCoolingDown (time_sub u now) u failed
  else mkInfo n NodeHealthy 0 zero_time failed.

Definition snapshot (names : list gostring) (now : Z) (h : cooldownTable) : list SwitchNodeInfo :=
  map (node_info now h) names.

(** ** Histories *)

Inductive cool_op :=
  | CAllow (now : Z) (name : gostring) (budget : Z)
  | CRelease (name : gostring)
  | CAnswered (name : gostring)
  | CUnanswered (now : Z) (name : gostring) (probe : bool)
  | CPenalize (now : Z) (name : gostring) (cooldown : Z)
  | CRecover (name : gostring).

Definition cool_step (h : cooldownTable) (o : cool_op) : cooldownTable :=
  match o with
  | CAllow now name budget => (RegisterAllow now name budget h).2
  | CRelease name => RegisterRelease name h
  | CAnswered name => RegisterAnswered name h
  | CUnanswered now name probe => (RegisterUnanswered now name probe h).2
  | CPenalize now name cooldown => Penalize now name cooldown h
  | CRecover name => Recover name h
  end.

(** What leaves an open breaker of [name] as it is until its window is over:
    neither an answer nor the failure of its probe. *)
Definition no_verdict (name : gostring) (o : cool_op) : Prop :=
  match o with
  | CAnswered n => n <> name
  | CUnanswered _ n probe => n = name -> probe = false
  | _ => True
  end.

(** Nothing that ends a probe of [name] early. *)
Definition probe_pending (name : gostring) (o : cool_op) : Prop :=
  no_verdict name o /\ (forall n, o = CRelease n -> n <> name).

(** The breaker an operation touches. *)
Definition op_name (o : cool_op) : option gostring :=
  match o with
  | CAllow _ n _ | CRelease n | CAnswered n | CUnanswered _ n _ => Some n
  | _ => None
  end.

Lemma cool_step_other h o name : op_name o <> Some name -> reg (cool_step h o) !! name = reg h !! name.
Proof.
  destruct o as [now n budget|n|n|now n probe|now n c|n]; cbn [cool_step op_name]; intros Hn; try done.
  all: assert (n <> name) by congruence.
  - unfold RegisterAllow. destruct (reg h !! n); [|done]. repeat case_if; try done.
    cbn. by rewrite lookup_insert_ne.
  - unfold RegisterRelease. destruct (reg h !! n); [|done]. cbn. by rewrite lookup_insert_ne.
  - unfold RegisterAnswered. destruct (reg h !! n); [|done]. cbn. by rewrite lookup_insert_ne.
  - unfold RegisterUnanswered. cbn. by rewrite lookup_insert_ne.
Qed.

Definition open_until (name : gostring) (t : Z) (lvl : Z) (h : cooldownTable) : Prop :=
  exists b, reg h !! name = Some b /\ open b = true /\ openUntil b = t /\ level b = lvl.

Lemma cool_step_open name t lvl h o : open_until name t lvl h -> no_verdict name o ->
  open_until name t lvl (cool_step h o).
Proof.
  intros (b & Hb & Ho & Ht & Hl) Hv. unfold open_until.
  destruct (decide (op_name o = Some name)) as [E|E].
  - destruct o as [now n budget|n|n|now n probe|now n c|n]; cbn [no_verdict op_name] in *; simplify_eq; try done; cbn [cool_step].
    + unfold RegisterAllow. rewrite Hb, Ho. cbn [negb]. case_if; [by exists b|].
      eexists. split; [apply lookup_insert_eq|]. by cbn.
    + unfold RegisterRelease. rewrite Hb. eexists. split; [apply lookup_insert_eq|]. by cbn.
    + unfold RegisterUnanswered. rewrite Hb. cbn [default from_option]. cbv zeta. unfold id. rewrite Ho, Hv by done. cbn [andb orb negb snd].
      eexists. split; [apply lookup_insert_eq|]. by cbn.
  - rewrite cool_step_other by done. by exists b.
Qed.

Lemma run_open name t lvl os : forall h, open_until name t lvl h -> Forall (no_verdict name) os ->
  open_until name t lvl (run_ops cool_step h os).
Proof.
  induction os as [|o os IH]; intros h Hh Hos; [done|]. apply Forall_cons in Hos as [Ho Hos].
  change (run_ops cool_step h (o :: os)) with (run_ops cool_step (cool_step h o) os).
  apply IH; [by apply cool_step_open|done].
Qed.

(** an open breaker stops the dialing for exactly its window.  When a
    silence opens a node's REGISTER breaker for [w], then - until an answer, or
    the failure of a probe - whatever else happens (late failures of attempts
    dialed before, releases, other nodes, cooldowns), no REGISTER is allowed
    to the node before [w] has passed, and the node is not reported healthy. *)
Theorem open_breaker_refuses t name probe h r h1 os now budget :
  zero_time <= t ->
  RegisterUnanswered t name probe h = (r, h1) -> u_opened r = true ->
  Forall (no_verdict name) os -> t <= now < t + u_window r ->
  let h' := run_ops cool_step h1 os in
  (RegisterAllow now name budget h').1 = (false, false) /\
  State (node_info now h' name) = NodeCoolingDown.
Proof.
  intros Ht Hr Hop Hos Hnow h'.
  assert (Ho : exists lvl, open_until name (t + u_window r) lvl h1).
  { unfold RegisterUnanswered in Hr.
    destruct ((open _ && probe) || _) eqn:Eo; injection Hr as <- <-; [|done].
    eexists. eexists. split; [apply lookup_insert_eq|]. by cbn. }
  destruct Ho as [lvl Ho]. apply (run_open _ _ _ os) in Ho; [|done]. fold h' in Ho.
  destruct Ho as (b & Hb & Hopen & Hu & _). split.
  - unfold RegisterAllow. rewrite Hb, Hopen. cbn [negb]. unfold time_before. rewrite Hu.
    by replace (now <? t + u_window r) with true by lia.
  - unfold node_info. rewrite Hb, Hopen. cbn [andb]. unfold time_after, time_before. rewrite Hu.
    destruct (default zero_time (until h' !! name) <? t + u_window r) eqn:E.
    + cbn [andb]. by replace (now <? t + u_window r) with true by lia.
    + destruct (until h' !! name) as [u|] eqn:Eu; cbn in E; unfold id in E.
      * cbn [andb default from_option]. unfold id. by replace (now <? u) with true by lia.
      * unfold zero_time in *. lia.
Qed.

(** one probe at a time.  Once the window of an open breaker has passed,
    the first caller is admitted as the probe; until its budget is spent, its
    verdict is in or it is released, every other caller is refused. *)
Theorem single_probe t name budget h h1 os now budget' :
  RegisterAllow t name budget h = (true, true, h1) ->
  Forall (probe_pending name) os -> Forall (fun o => match o with CAllow u n _ => n = name -> t <= u < t + budget | _ => True end) os ->
  t <= now < t + budget ->
  (RegisterAllow now name budget' (run_ops cool_step h1 os)).1 = (false, false).
Proof.
  intros Hal Hos Htimes Hnow.
  assert (Hp : exists b, reg h1 !! name = Some b /\ open b = true /\ probeBy b = t + budget).
  { unfold RegisterAllow in Hal. destruct (reg h !! name) as [b|]; [|done]. case_if_in Hal; [done|].
    case_if_in Hal; [done|]. injection Hal as <-. eexists. split; [apply lookup_insert_eq|]. cbn.
    by apply negb_false_iff in Heqb0. }
  clear Hal h. revert h1 Hp. induction os as [|o os IH]; intros h1 (b & Hb & Ho & Hby).
  - cbn. unfold RegisterAllow. rewrite Hb, Ho. cbn [negb]. unfold time_before. rewrite Hby.
    replace (now <? t + budget) with true by lia. by rewrite orb_true_r.
  - apply Forall_cons in Hos as [[Hv Hrel] Hos]. apply Forall_cons in Htimes as [Hto Htimes].
    change (run_ops cool_step h1 (o :: os)) with (run_ops cool_step (cool_step h1 o) os).
    apply IH; [done..|].
    destruct (decide (op_name o = Some name)) as [E|E].
    + destruct o as [u n bu|n|n|u n probe|u n c|n]; cbn [no_verdict op_name] in *; simplify_eq; try done; cbn [cool_step].
      * exists b. unfold RegisterAllow. rewrite Hb, Ho. cbn [negb]. unfold time_before. rewrite Hby.
        replace (u <? t + budget) with true by (specialize (Hto eq_refl); lia). rewrite orb_true_r. done.
      * exfalso. by apply (Hrel name).
      * unfold RegisterUnanswered. rewrite Hb. cbn [default from_option]. cbv zeta. unfold id. rewrite Ho, Hv by done. cbn [andb orb negb snd].
        eexists. split; [apply lookup_insert_eq|]. by cbn.
    + exists b. by rewrite cool_step_other.
Qed.

(** The verdicts of [ts], silences of attempts to [name] with no answer between. *)
Fixpoint silences (name : gostring) (ts : list (Z * bool)) (h : cooldownTable) : list (bool * Z) :=
  match ts with
  | [] => []
  | (t, probe) :: ts' => let '(r, h') := RegisterUnanswered t name probe h in
                         (u_opened r, u_window r) :: silences name ts' h'
  end.

Definition opened_windows (rs : list (bool * Z)) : list Z := map snd (List.filter fst rs).

Lemma backoff_steps l : 0 <= l -> backoff l = if l =? 0 then 30 * second else if l =? 1 then minute else 5 * minute.
Proof.
  intros Hl. unfold backoff. change (len registerBreakerBackoff - 1) with 2.
  destruct (l =? 0) eqn:E0; [by replace l with 0 by lia|].
  destruct (l =? 1) eqn:E1; [by replace l with 1 by lia|]. by replace (Z.min l 2) with 2 by lia.
Qed.

Lemma silences_windows name ts : forall h b,
  reg h !! name = Some b -> 0 <= level b ->
  opened_windows (silences name ts h) =
  imap (fun i _ => backoff (level b + Z.of_nat i)) (opened_windows (silences name ts h)).
Proof.
  unfold opened_windows. induction ts as [|[t probe] ts IH]; intros h b Hb Hl; [done|]. cbn [silences].
  destruct (RegisterUnanswered t name probe h) as [r h'] eqn:E.
  unfold RegisterUnanswered in E. rewrite Hb in E. cbn [default from_option] in E. cbv zeta in E. unfold id in E.
  injection E as <- <-. cbn [u_opened u_window List.filter fst].
  destruct ((open b && probe) || _) eqn:Eo; cbn [map snd].
  - rewrite imap_cons. f_equal; [f_equal; lia|].
    rewrite (IH _ _ (lookup_insert_eq _ _ _)) at 1 by (cbn; lia).
    apply imap_ext. intros i x _. unfold compose. cbn [level]. f_equal. lia.
  - match goal with |- context [set_reg name ?b1 h] =>
      exact (IH (set_reg name b1 h) b1 (lookup_insert_eq _ _ _) Hl) end.
Qed.

(** the breaker opens on the third silence in a row and backs off.  The
    first two unanswered attempts to a node never open its breaker, the third
    does (each of them not a probe); and however the silences that follow are
    interleaved, the successive openings last 30 s, 1 min, then 5 min each. *)
Theorem breaker_opens_and_backs_off name t1 t2 t3 ts h :
  reg h !! name = None ->
  exists rest,
  silences name ((t1, false) :: (t2, false) :: (t3, false) :: ts) h =
    (false, 0) :: (false, 0) :: (true, 30 * second) :: rest /\
  opened_windows rest = imap (fun i _ => if Nat.eqb i 0 then minute else 5 * minute) (opened_windows rest).
Proof.
  intros Hn. cbn [silences]. unfold RegisterUnanswered at 1. rewrite Hn. cbn [default from_option id new_breaker fails open level andb negb orb].
  change (registerBreakerThreshold <=? 0 + 1) with false. cbn [u_opened u_window].
  unfold RegisterUnanswered at 1. cbn [set_reg reg]. rewrite lookup_insert_eq.
  cbn [default from_option id fails open level andb negb orb].
  change (registerBreakerThreshold <=? 0 + 1 + 1) with false. cbn [u_opened u_window].
  unfold RegisterUnanswered at 1. cbn [set_reg reg]. rewrite lookup_insert_eq.
  cbn [default from_option id fails open level andb negb orb].
  change (registerBreakerThreshold <=? 0 + 1 + 1 + 1) with true. cbn [u_opened u_window].
  eexists. split; [reflexivity|].
  rewrite (silences_windows name ts _ _ (lookup_insert_eq _ _ _)) at 1 by (cbn; lia). cbn [level].
  apply imap_ext. intros i x _. rewrite backoff_steps by lia.
  replace (0 + 1 + Z.of_nat i =? 0) with false by lia.
  destruct (Nat.eqb i 0) eqn:E; [apply Nat.eqb_eq in E as ->; done|].
  apply Nat.eqb_neq in E. by replace (0 + 1 + Z.of_nat i =? 1) with false by lia.
Qed.

Lemma open_breaker_refuses_witness :
  let h := run_ops cool_step newCooldownTable [CUnanswered 10 [1] false; CUnanswered 11 [1] false] in
  let h1 := (RegisterUnanswered (hour) [1] false h).2 in
  (RegisterAllow (hour + second) [1] 5 (run_ops cool_step h1 [CUnanswered (hour + 3) [1] false; CRelease [1]; CRecover [1]])).1
  = (false, false).
Proof.
  intros h h1. destruct (RegisterUnanswered hour [1] false h) as [r h1'] eqn:E.
  destruct (open_breaker_refuses hour [1] false h r h1'
              [CUnanswered (hour + 3) [1] false; CRelease [1]; CRecover [1]] (hour + second) 5) as [H _].
  - vm_compute. discriminate.
  - exact E.
  - assert (E1 : u_opened (RegisterUnanswered hour [1] false h).1 = true) by (vm_compute; reflexivity).
    by rewrite E in E1.
  - repeat constructor.
  - assert (E1 : u_window (RegisterUnanswered hour [1] false h).1 = 30 * second) by (vm_compute; reflexivity).
    rewrite E in E1. cbn in E1. rewrite E1. vm_compute. split; [discriminate|reflexivity].
  - exact H.
Defined.

Lemma single_probe_witness :
  let h := run_ops cool_step newCooldownTable
             [CUnanswered 10 [1] false; CUnanswered 11 [1] false; CUnanswered 12 [1] false] in
  let h1 := (RegisterAllow hour [1] 100 h).2 in
  (RegisterAllow (hour + 50) [1] 100 (run_ops cool_step h1 [CAllow (hour + 1) [1] 100; CUnanswered (hour + 2) [1] false])).1
  = (false, false).
Proof.
  intros h h1. apply (single_probe hour [1] 100 h h1).
  - vm_compute. reflexivity.
  - repeat constructor; intros n; discriminate.
  - repeat constructor; vm_compute; discriminate.
  - vm_compute. split; [discriminate|reflexivity].
Defined.

Lemma breaker_opens_and_backs_off_witness :
  exists rest, silences [1] [(5, false); (6, false); (7, false); (hour, true); (2 * hour, true)] newCooldownTable
  = (false, 0) :: (false, 0) :: (true, 30 * second) :: rest.
Proof.
  destruct (breaker_opens_and_backs_off [1] 5 6 7 [(hour, true); (2 * hour, true)] newCooldownTable) as (rest & E & _).
  - apply lookup_empty.
  - exists rest. exact E.
Defined.
