(* ===== verification/Location.v ===== *)
(** internal/edge/location.go: the table of registration bindings.

    The code's three maps share pointers to mutable bindings.  The model has
    them too: a binding lives in [heap] under an identity, the indexes hold
    identities, and a refresh changes the binding in place.  A binding that
    left every index is unreachable and leaves the heap. *)

From S2P Require Import Prelude GoTime Netip GoText.

Open Scope Z_scope.

Record Binding := mkBinding {
  Token : gostring;
  AOR : gostring;
  User : gostring;
  Transport : gostring;
  Source : AddrPort;
  ExpiresAt : Z;
  CallID : gostring
}.

Definition set_token (t : gostring) (b : Binding) : Binding :=
  mkBinding t (AOR b) (User b) (Transport b) (Source b) (ExpiresAt b) (CallID b).

Definition Expired (now : Z) (b : Binding) : bool := negb (time_before now (ExpiresAt b)).

Inductive scope := PerAOR | TotalScope.

Record Location := mkLocation {
  heap : gmap nat Binding;
  next : nat;
  byToken : gmap gostring nat;
  byAOR : gmap gostring (list nat);
  bySource : gmap AddrPort (list nat);
  byIP : gmap Addr Z;
  maxTotal : Z;
  maxPerAOR : Z;
  onRemove : bool;              (* a hook is set *)
  removed : list gostring
}.

Definition defaultMaxBindings : Z := 20000.
Definition defaultMaxPerAOR : Z := 10.

Definition NewLocation : Location :=
  mkLocation ∅ 0 ∅ ∅ ∅ ∅ defaultMaxBindings defaultMaxPerAOR false [].

Definition lookup_list {K} `{Countable K} (k : K) (m : gmap K (list nat)) : list nat := default [] (m !! k).

(** Store an index list, or drop the key of an empty one. *)
Definition store_list {K} `{Countable K} (k : K) (l : list nat) (m : gmap K (list nat)) : gmap K (list nat) :=
  match l with [] => delete k m | _ => <[k := l]> m end.

Definition remove_first (i : nat) : list nat -> list nat :=
  fix go l := match l with [] => [] | x :: l' => if Nat.eqb x i then l' else x :: go l' end.

Definition source_ip (b : Binding) : Addr := unmap (ap_addr (Source b)).

(** indexSourceLocked and unindexSourceLocked, on the two source indexes. *)
Definition index_source (i : nat) (b : Binding) (src : gmap AddrPort (list nat)) (ips : gmap Addr Z)
  : gmap AddrPort (list nat) * gmap Addr Z :=
  (<[Source b := lookup_list (Source b) src ++ [i]]> src,
   <[source_ip b := default 0 (ips !! source_ip b) + 1]> ips).

Definition unindex_source (i : nat) (b : Binding) (src : gmap AddrPort (list nat)) (ips : gmap Addr Z)
  : gmap AddrPort (list nat) * gmap Addr Z :=
  let ip := source_ip b in
  (store_list (Source b) (remove_first i (lookup_list (Source b) src)) src,
   if default 0 (ips !! ip) <=? 1 then delete ip ips else <[ip := default 0 (ips !! ip) - 1]> ips).

(** Delete index [i] of an AoR's list. *)
Definition deleteLocked (aor : gostring) (i : nat) (l : Location) : Location :=
  let lst := lookup_list aor (byAOR l) in
  match lst !! i with
  | None => l
  | Some id =>
      match heap l !! id with
      | None => l
      | Some b =>
          let '(src, ips) := unindex_source id b (bySource l) (byIP l) in
          mkLocation (delete id (heap l)) (next l) (delete (Token b) (byToken l))
            (store_list aor (delete i lst) (byAOR l)) src ips
            (maxTotal l) (maxPerAOR l) (onRemove l)
            (if onRemove l then removed l ++ [Token b] else removed l)
      end
  end.

(** The loop of pruneAORLocked, from index [i - 1] down. *)
Fixpoint prune_aor_from (i : nat) (now : Z) (aor : gostring) (l : Location) : Z * Location :=
  match i with
  | O => (0, l)
  | S i' =>
      match lookup_list aor (byAOR l) !! i' ≫= (fun id => heap l !! id) with
      | Some b => if Expired now b
                  then let '(n, l') := prune_aor_from i' now aor (deleteLocked aor i' l) in (n + 1, l')
                  else prune_aor_from i' now aor l
      | None => prune_aor_from i' now aor l
      end
  end.

Definition pruneAORLocked (now : Z) (aor : gostring) (l : Location) : Z * Location :=
  prune_aor_from (length (lookup_list aor (byAOR l))) now aor l.

(** The walk over the AoRs, in the order [aors] of the map's iteration. *)
Fixpoint prune_aors (now : Z) (aors : list gostring) (l : Location) : Z * Location :=
  match aors with
  | [] => (0, l)
  | a :: aors' => let '(n, l1) := pruneAORLocked now a l in
                  let '(m, l2) := prune_aors now aors' l1 in (n + m, l2)
  end.

Definition Prune (now : Z) (l : Location) : Z * Location := prune_aors now (elements (dom (byAOR l))) l.

(** flushRemoved: the tokens handed to the hook. *)
Definition flushRemoved (l : Location) : list gostring * Location :=
  (removed l, mkLocation (heap l) (next l) (byToken l) (byAOR l) (bySource l) (byIP l)
                         (maxTotal l) (maxPerAOR l) (onRemove l) []).

Definition SetOnRemove (l : Location) : Location :=
  mkLocation (heap l) (next l) (byToken l) (byAOR l) (bySource l) (byIP l)
             (maxTotal l) (maxPerAOR l) true (removed l).

Definition binding_at (l : Location) (id : nat) : option Binding := heap l !! id.

Definition has_call (l : Location) (callID : gostring) (id : nat) : bool :=
  match heap l !! id with Some e => beq (CallID e) callID | None => false end.

(** [fresh] is the token fsip.NewToken would return. *)
Definition Put (now : Z) (fresh : gostring) (b : Binding) (l : Location) : (Binding + scope) * Location :=
  let l := (pruneAORLocked now (AOR b) l).2 in
  let existing := lookup_list (AOR b) (byAOR l) in
  match find (has_call l (CallID b)) existing with
  | Some id =>
      match heap l !! id with
      | None => (inl b, l)
      | Some e =>
          let b := set_token (Token e) b in
          let '(src, ips) := unindex_source id e (bySource l) (byIP l) in
          let '(src, ips) := index_source id b src ips in
          (inl b, mkLocation (<[id := b]> (heap l)) (next l) (byToken l) (byAOR l) src ips
                             (maxTotal l) (maxPerAOR l) (onRemove l) (removed l))
      end
  | None =>
      if maxPerAOR l <=? len existing then (inr PerAOR, l)
      else if maxTotal l <=? Z.of_nat (size (byToken l)) then (inr TotalScope, l)
      else
        let b := if bool_decide (Token b = []) then set_token fresh b else b in
        let id := next l in
        let '(src, ips) := index_source id b (bySource l) (byIP l) in
        (inl b, mkLocation (<[id := b]> (heap l)) (S id) (<[Token b := id]> (byToken l))
                           (<[AOR b := lookup_list (AOR b) (byAOR l) ++ [id]]> (byAOR l)) src ips
                           (maxTotal l) (maxPerAOR l) (onRemove l) (removed l))
  end.

(** The index of the first element satisfying [f]. *)
Fixpoint find_index (f : nat -> bool) (l : list nat) : option nat :=
  match l with
  | [] => None
  | x :: l' => if f x then Some O else option_map S (find_index f l')
  end.

Definition Remove (aor callID : gostring) (l : Location) : option Binding * Location :=
  let lst := lookup_list aor (byAOR l) in
  match find_index (has_call l callID) lst with
  | None => (None, l)
  | Some i => (lst !! i ≫= binding_at l, deleteLocked aor i l)
  end.

Definition on_transport (transport : gostring) (b : Binding) : bool :=
  bool_decide (transport = []) || equal_fold (Transport b) transport.

(** Delete the victims, by identity. *)
Definition delete_victim (l : Location) (id : nat) : Location :=
  match heap l !! id with
  | None => l
  | Some b => match find_index (Nat.eqb id) (lookup_list (AOR b) (byAOR l)) with
              | Some i => deleteLocked (AOR b) i l
              | None => l
              end
  end.

Definition victims (transport : gostring) (src : AddrPort) (l : Location) : list nat :=
  List.filter (fun id => match heap l !! id with Some b => on_transport transport b | None => false end)
              (lookup_list src (bySource l)).

Definition removeBySource (transport : gostring) (src : AddrPort) (l : Location) : Z * Location :=
  let vs := victims transport src l in (len vs, fold_left delete_victim vs l).

Definition RemoveBySource (src : AddrPort) : Location -> Z * Location := removeBySource [] src.
Definition RemoveBySourceOn (transport : gostring) (src : AddrPort) : Location -> Z * Location :=
  removeBySource transport src.

Definition live_on (now : Z) (transport : gostring) (b : Binding) : bool :=
  equal_fold (Transport b) transport && negb (Expired now b).

Definition bindings (l : Location) (ids : list nat) : list Binding := omap (binding_at l) ids.

Definition HasSource (now : Z) (transport : gostring) (src : AddrPort) (l : Location) : bool :=
  existsb (live_on now transport) (bindings l (lookup_list src (bySource l))).

Definition HasIP (ip : Addr) (l : Location) : bool := 0 <? default 0 (byIP l !! unmap ip).

(** The loop of SourceBinding. *)
Fixpoint source_binding (now : Z) (transport user : gostring) (bs : list Binding) (first : option Binding)
  : option Binding :=
  match bs with
  | [] => first
  | b :: bs' =>
      if negb (equal_fold (Transport b) transport) || Expired now b
      then source_binding now transport user bs' first
      else if negb (bool_decide (user = [])) && equal_fold (User b) user then Some b
      else source_binding now transport user bs' (match first with None => Some b | _ => first end)
  end.

Definition SourceBinding (now : Z) (transport : gostring) (src : AddrPort) (user : gostring) (l : Location)
  : option Binding :=
  source_binding now transport user (bindings l (lookup_list src (bySource l))) None.

Definition ByToken (now : Z) (token : gostring) (l : Location) : option Binding :=
  match byToken l !! token ≫= binding_at l with
  | Some b => if Expired now b then None else Some b
  | None => None
  end.

Definition ByAOR (now : Z) (aor : gostring) (l : Location) : list Binding :=
  List.filter (fun b => negb (Expired now b)) (bindings l (lookup_list (to_lower aor) (byAOR l))).

Definition Count (l : Location) : Z := Z.of_nat (size (byToken l)).

(** ** Index lemmas *)

Lemma lookup_list_insert {K} `{Countable K} (k k' : K) l m :
  lookup_list k' (<[k := l]> m) = if decide (k' = k) then l else lookup_list k' m.
Proof.
  unfold lookup_list. case_decide as E; [by rewrite E, lookup_insert_eq|by rewrite lookup_insert_ne].
Qed.

Lemma lookup_list_store {K} `{Countable K} (k k' : K) l m :
  lookup_list k' (store_list k l m) = if decide (k' = k) then l else lookup_list k' m.
Proof.
  destruct l as [|x l]; [|apply lookup_list_insert]. unfold store_list, lookup_list.
  case_decide as E; [by rewrite E, lookup_delete_eq|by rewrite lookup_delete_ne].
Qed.

Lemma remove_first_notin i l : i ∉ l -> remove_first i l = l.
Proof.
  induction l as [|x l IH]; [done|]. intros Hn. apply not_elem_of_cons in Hn as [Hx Hn]. cbn.
  destruct (Nat.eqb x i) eqn:E; [apply Nat.eqb_eq in E; congruence|]. f_equal. by apply IH.
Qed.

Lemma remove_first_elem i l : NoDup l ->
  NoDup (remove_first i l) /\ forall j, j ∈ remove_first i l <-> j ∈ l /\ j <> i.
Proof.
  induction l as [|x l IH]; intros Hnd; [split; [done|]; cbn; set_solver|].
  apply NoDup_cons in Hnd as [Hx Hnd]. destruct (IH Hnd) as [IH1 IH2]. cbn.
  destruct (Nat.eqb x i) eqn:E.
  - apply Nat.eqb_eq in E as ->. split; [done|]. intros j. rewrite elem_of_cons. set_solver.
  - apply Nat.eqb_neq in E. split.
    + apply NoDup_cons. split; [|done]. rewrite IH2. tauto.
    + intros j. rewrite !elem_of_cons, IH2. split; [|tauto]. intros [->|[? ?]]; tauto.
Qed.

Lemma delete_position (lst : list nat) pos id : NoDup lst -> lst !! pos = Some id ->
  delete pos lst = remove_first id lst.
Proof.
  revert pos. induction lst as [|x lst IH]; intros pos Hnd Hpos; [done|].
  apply NoDup_cons in Hnd as [Hx Hnd]. destruct pos as [|pos]; cbn in *.
  - injection Hpos as ->. by rewrite Nat.eqb_refl.
  - destruct (Nat.eqb x id) eqn:E; [|f_equal; by apply IH].
    apply Nat.eqb_eq in E as ->. exfalso. apply Hx. by eapply list_elem_of_lookup_2.
Qed.

Section Index.
Context {V K : Type} `{Countable K} (key : V -> K).
Implicit Types (h : gmap nat V) (m : gmap K (list nat)).

(** The index holds exactly the values of the heap, under their key. *)
Definition idx_ok h m : Prop :=
  (forall k i, i ∈ lookup_list k m <-> exists b, h !! i = Some b /\ key b = k) /\
  (forall k, NoDup (lookup_list k m)) /\
  (forall k, m !! k <> Some []).

Lemma idx_remove h m i b : idx_ok h m -> h !! i = Some b ->
  idx_ok (delete i h) (store_list (key b) (remove_first i (lookup_list (key b) m)) m).
Proof.
  intros (H1 & H2 & H3) Hi. pose proof (remove_first_elem i _ (H2 (key b))) as [R1 R2].
  split; [|split].
  - intros k j. rewrite lookup_list_store. case_decide as E.
    + subst k. rewrite R2, H1. split.
      * intros [(b' & Hb' & Hk) Hne]. exists b'. by rewrite lookup_delete_ne by done.
      * intros (b' & Hb' & Hk). apply lookup_delete_Some in Hb' as [? ?]. split; [by exists b'|done].
    + rewrite H1. split; intros (b' & Hb' & Hk); exists b'; (split; [|done]).
      * rewrite lookup_delete_ne; [done|]. intros ->. congruence.
      * by apply lookup_delete_Some in Hb' as [_ ?].
  - intros k. rewrite lookup_list_store. by case_decide.
  - intros k. unfold store_list. destruct (remove_first i _) as [|x l] eqn:E.
    + destruct (decide (k = key b)) as [->|]; [by rewrite lookup_delete_eq|by rewrite lookup_delete_ne].
    + destruct (decide (k = key b)) as [->|]; [by rewrite lookup_insert_eq|by rewrite lookup_insert_ne].
Qed.

Lemma idx_insert h m i b : idx_ok h m -> h !! i = None ->
  idx_ok (<[i := b]> h) (<[key b := lookup_list (key b) m ++ [i]]> m).
Proof.
  intros (H1 & H2 & H3) Hi.
  assert (Hnot : forall k, i ∉ lookup_list k m) by (intros k; rewrite H1; intros (b' & ? & _); congruence).
  split; [|split].
  - intros k j. rewrite lookup_list_insert. case_decide as E.
    + subst k. rewrite elem_of_app, list_elem_of_singleton, H1. split.
      * intros [(b' & Hb' & Hk)| ->].
        -- exists b'. rewrite lookup_insert_ne by congruence. done.
        -- exists b. by rewrite lookup_insert_eq.
      * intros (b' & Hb' & Hk). destruct (decide (j = i)) as [->|Hne]; [by right|left].
        exists b'. by rewrite lookup_insert_ne in Hb' by done.
    + rewrite H1. split; intros (b' & Hb' & Hk); exists b'; (split; [|done]).
      * rewrite lookup_insert_ne; [done|]. congruence.
      * destruct (decide (j = i)) as [->|Hne]; [|by rewrite lookup_insert_ne in Hb' by done].
        rewrite lookup_insert_eq in Hb'. congruence.
  - intros k. rewrite lookup_list_insert. case_decide; [|done].
    apply NoDup_app. split; [done|]. split; [|apply NoDup_singleton].
    intros x Hx ->%list_elem_of_singleton. by apply (Hnot (key b)).
  - intros k. destruct (decide (k = key b)) as [->|]; [|by rewrite lookup_insert_ne].
    rewrite lookup_insert_eq. destruct (lookup_list (key b) m); done.
Qed.

Lemma idx_replace h m i b0 b : idx_ok h m -> h !! i = Some b0 -> key b0 = key b ->
  idx_ok (<[i := b]> h) m.
Proof.
  intros (H1 & H2 & H3) Hi Hk. split; [|by split].
  intros k j. rewrite H1. split; intros (b' & Hb' & Hk').
  - destruct (decide (j = i)) as [->|Hne].
    + exists b. rewrite lookup_insert_eq. split; [done|]. congruence.
    + exists b'. by rewrite lookup_insert_ne.
  - destruct (decide (j = i)) as [->|Hne].
    + rewrite lookup_insert_eq in Hb'. injection Hb' as <-. exists b0. split; [done|congruence].
    + exists b'. by rewrite lookup_insert_ne in Hb' by done.
Qed.
End Index.

(** The bindings of one source IP. *)
Definition ip_count (ip : Addr) (h : gmap nat Binding) : nat :=
  size (filter (fun ib => source_ip ib.2 = ip) h).

Definition ip_ok (h : gmap nat Binding) (m : gmap Addr Z) : Prop :=
  forall ip, default 0 (m !! ip) = Z.of_nat (ip_count ip h) /\ (forall n, m !! ip = Some n -> 0 < n).

Lemma ip_count_insert ip h i b : h !! i = None ->
  ip_count ip (<[i := b]> h) = (ip_count ip h + if decide (source_ip b = ip) then 1 else 0)%nat.
Proof.
  intros Hi. unfold ip_count. case_decide as E.
  - rewrite map_filter_insert_True by done.
    rewrite map_size_insert_None; [lia|]. rewrite map_lookup_filter, Hi. done.
  - rewrite map_filter_insert_False by done. rewrite delete_id by done. lia.
Qed.

Lemma ip_count_delete ip h i b : h !! i = Some b ->
  ip_count ip h = (ip_count ip (delete i h) + if decide (source_ip b = ip) then 1 else 0)%nat.
Proof.
  intros Hi. rewrite <- (insert_delete_id h i b Hi) at 1.
  apply ip_count_insert, lookup_delete_eq.
Qed.

Lemma ip_insert h m i b : ip_ok h m -> h !! i = None ->
  ip_ok (<[i := b]> h) (<[source_ip b := default 0 (m !! source_ip b) + 1]> m).
Proof.
  intros Hm Hi ip. rewrite ip_count_insert by done. destruct (Hm ip) as [M1 M2].
  destruct (decide (source_ip b = ip)) as [<-|Hne].
  - rewrite lookup_insert_eq. cbn [default from_option id]. split; [lia|]. intros n [= <-]. lia.
  - rewrite lookup_insert_ne by done. split; [lia|done].
Qed.

Lemma ip_remove h m i b : ip_ok h m -> h !! i = Some b ->
  ip_ok (delete i h) (if default 0 (m !! source_ip b) <=? 1 then delete (source_ip b) m
                      else <[source_ip b := default 0 (m !! source_ip b) - 1]> m).
Proof.
  intros Hm Hi ip. pose proof (ip_count_delete ip h i b Hi) as C. destruct (Hm ip) as [M1 M2].
  destruct (decide (source_ip b = ip)) as [<-|Hne].
  - destruct (default 0 (m !! source_ip b) <=? 1) eqn:E.
    + rewrite lookup_delete_eq. cbn [default from_option]. split; [lia|done].
    + rewrite lookup_insert_eq. cbn [default from_option id]. split; [lia|]. intros n [= <-]. lia.
  - case_if; [rewrite lookup_delete_ne by done|rewrite lookup_insert_ne by done]; (split; [lia|done]).
Qed.

(** ** The invariant *)

Record loc_ok (l : Location) : Prop := {
  lo_token : forall tok i, byToken l !! tok = Some i <-> exists b, heap l !! i = Some b /\ Token b = tok;
  lo_aor : idx_ok AOR (heap l) (byAOR l);
  lo_source : idx_ok Source (heap l) (bySource l);
  lo_ip : ip_ok (heap l) (byIP l);
  lo_next : forall i b, heap l !! i = Some b -> (i < next l)%nat;
  (** one binding per registration flow *)
  lo_flow : forall i j b b', heap l !! i = Some b -> heap l !! j = Some b' ->
            AOR b = AOR b' -> CallID b = CallID b' -> i = j;
  lo_total : Z.of_nat (size (byToken l)) <= Z.max 0 (maxTotal l);
  lo_per_aor : forall aor, len (lookup_list aor (byAOR l)) <= Z.max 0 (maxPerAOR l)
}.

Lemma NewLocation_ok : loc_ok NewLocation.
Proof.
  assert (Hidx : forall K `(Countable K) (key : Binding -> K), idx_ok key ∅ (∅ : gmap K (list nat))).
  { intros K ? ? key. split; [|split].
    - intros k i. unfold lookup_list. rewrite lookup_empty. cbn. split; [by intros ?%elem_of_nil|].
      intros (b & Hb & _). by rewrite lookup_empty in Hb.
    - intros k. unfold lookup_list. rewrite lookup_empty. apply NoDup_nil_2.
    - intros k. by rewrite lookup_empty. }
  split; cbn; try apply Hidx; try done.
  intros tok i. rewrite lookup_empty. split; [done|]. intros (b & Hb & _). by rewrite lookup_empty in Hb.
Qed.

Lemma lookup_list_len_store {K} `{Countable K} (k k' : K) l m c :
  len l <= c -> len (lookup_list k' m) <= c -> len (lookup_list k' (store_list k l m)) <= c.
Proof. intros. rewrite lookup_list_store. by case_decide. Qed.

Lemma remove_first_len i l : len (remove_first i l) <= len l.
Proof.
  induction l as [|x l IH]; [done|]. cbn. destruct (Nat.eqb x i); rewrite ?len_cons; lia.
Qed.

(** What a deletion does. *)
Lemma deleteLocked_spec aor pos l : loc_ok l ->
  match lookup_list aor (byAOR l) !! pos with
  | None => deleteLocked aor pos l = l
  | Some id => exists b, heap l !! id = Some b /\ AOR b = aor /\
      let l' := deleteLocked aor pos l in
      loc_ok l' /\ heap l' = delete id (heap l) /\ next l' = next l /\
      byAOR l' = store_list aor (delete pos (lookup_list aor (byAOR l))) (byAOR l) /\
      maxTotal l' = maxTotal l /\ maxPerAOR l' = maxPerAOR l /\ onRemove l' = onRemove l /\
      removed l' = (if onRemove l then removed l ++ [Token b] else removed l)
  end.
Proof.
  intros Hl. destruct (lookup_list aor (byAOR l) !! pos) as [id|] eqn:Epos;
    [|unfold deleteLocked; by rewrite Epos].
  destruct (lo_aor l Hl) as (A1 & A2 & A3).
  assert (Hin : id ∈ lookup_list aor (byAOR l)) by by eapply list_elem_of_lookup_2.
  apply A1 in Hin as (b & Hb & Ha). exists b. split; [done|]. split; [done|].
  unfold deleteLocked. rewrite Epos, Hb. unfold unindex_source. cbv zeta.
  split; [|done]. split; cbn [heap next byToken byAOR bySource byIP maxTotal maxPerAOR].
  - intros tok i. split.
    + intros Ht. apply lookup_delete_Some in Ht as [Hne Ht]. apply (lo_token l Hl) in Ht as (b' & Hb' & Ht).
      exists b'. split; [|done]. rewrite lookup_delete_ne; [done|]. intros ->. congruence.
    + intros (b' & Hb' & Ht). apply lookup_delete_Some in Hb' as [Hne Hb'].
      assert (Hi : byToken l !! tok = Some i) by (apply (lo_token l Hl); by exists b').
      rewrite lookup_delete_ne; [done|]. intros <-. apply Hne.
      assert (Hi2 : byToken l !! Token b = Some id) by (apply (lo_token l Hl); by exists b). congruence.
  - rewrite (delete_position _ pos id) by done. subst aor. by apply idx_remove; [apply Hl|].
  - by apply idx_remove; [apply Hl|].
  - by apply ip_remove; [apply Hl|].
  - intros i b' Hb'. apply lookup_delete_Some in Hb' as [_ Hb']. by eapply lo_next.
  - intros i j b1 b2 H1 H2. apply lookup_delete_Some in H1 as [_ H1]. apply lookup_delete_Some in H2 as [_ H2].
    by eapply lo_flow.
  - assert (size (delete (Token b) (byToken l)) <= size (byToken l))%nat by (apply map_subseteq_size, delete_subseteq).
    pose proof (lo_total l Hl). lia.
  - intros a. pose proof (lo_per_aor l Hl) as Hp. apply lookup_list_len_store; [|apply Hp].
    rewrite (delete_position _ pos id) by done. etrans; [apply remove_first_len|apply Hp].
Qed.

(** ** Deleting steps

    [shrinks P l l']: the step removed exactly the bindings satisfying [P],
    everything is consistent, and the hook (if set) is told exactly their
    tokens. *)
Record shrinks (P : nat -> Binding -> bool) (l l' : Location) : Prop := {
  sk_ok : loc_ok l';
  sk_heap : forall id b, heap l' !! id = Some b <-> heap l !! id = Some b /\ P id b = false;
  sk_next : next l' = next l;
  sk_total : maxTotal l' = maxTotal l;
  sk_aor : maxPerAOR l' = maxPerAOR l;
  sk_hook : onRemove l' = onRemove l;
  sk_removed : forall tok, tok ∈ removed l' <->
    tok ∈ removed l \/ (onRemove l = true /\ exists id b, heap l !! id = Some b /\ P id b = true /\ Token b = tok)
}.

Lemma shrinks_none P l : loc_ok l -> (forall id b, heap l !! id = Some b -> P id b = false) -> shrinks P l l.
Proof.
  intros Hl HP. split; try done.
  - intros id b. split; [|tauto]. auto.
  - intros tok. split; [by left|]. intros [?|(_ & id & b & Hb & Hp & _)]; [done|].
    rewrite (HP id b Hb) in Hp. done.
Qed.

Lemma shrinks_ext P Q l l' : shrinks P l l' -> (forall id b, heap l !! id = Some b -> P id b = Q id b) -> shrinks Q l l'.
Proof.
  intros [] HPQ. split; try done.
  - intros id b. rewrite sk_heap0. split; intros [Hb Hp]; (split; [done|]); [rewrite <- HPQ|rewrite HPQ]; done.
  - intros tok. rewrite sk_removed0. split; (intros [?|(Hh & id & b & Hb & Hp & Ht)]; [by left|]); right;
      (split; [done|]); exists id, b; (split; [done|]); (split; [|done]); [rewrite <- HPQ|rewrite HPQ]; done.
Qed.

Lemma shrinks_trans P Q l l1 l2 : shrinks P l l1 -> shrinks Q l1 l2 ->
  shrinks (fun id b => P id b || Q id b) l l2.
Proof.
  intros [] [].
  split; try done; try congruence.
  - intros id b. rewrite sk_heap1, sk_heap0, orb_false_iff. tauto.
  - intros tok. rewrite sk_removed1, sk_removed0, sk_hook0. split.
    + intros [[?|(Hh & id & b & Hb & Hp & Ht)]|(Hh & id & b & Hb & Hq & Ht)]; [by left|right..];
        (split; [done|]); exists id, b.
      * by rewrite Hp.
      * apply sk_heap0 in Hb as [Hb _]. by rewrite Hq, orb_true_r.
    + intros [?|(Hh & id & b & Hb & Hpq & Ht)]; [left; by left|].
      destruct (P id b) eqn:Ep; [left; right|right]; (split; [done|]); exists id, b; [done|].
      rewrite sk_heap0. done.
Qed.

Lemma deleteLocked_shrinks aor pos id l : loc_ok l ->
  lookup_list aor (byAOR l) !! pos = Some id ->
  shrinks (fun i _ => Nat.eqb i id) l (deleteLocked aor pos l) /\
  lookup_list aor (byAOR (deleteLocked aor pos l)) = delete pos (lookup_list aor (byAOR l)).
Proof.
  intros Hl Hpos. pose proof (deleteLocked_spec aor pos l Hl) as S. rewrite Hpos in S.
  destruct S as (b & Hb & Ha & Hok & Hh & Hn & Hby & Ht & Hp & Hk & Hr). split.
  - split; try done.
    + intros i b'. rewrite Hh, lookup_delete_Some, Nat.eqb_neq. split; intros [? ?]; split; congruence.
    + intros tok. rewrite Hr. destruct (onRemove l).
      * rewrite elem_of_app, list_elem_of_singleton. split.
        -- intros [?| ->]; [by left|right]. split; [done|]. exists id, b. by rewrite Nat.eqb_refl.
        -- intros [?|(_ & i & b' & Hb' & Hi & <-)]; [by left|right].
           apply Nat.eqb_eq in Hi as ->. congruence.
      * split; [by left|]. by intros [?|[? _]].
  - rewrite Hby, lookup_list_store. by rewrite decide_True.
Qed.

Lemma in_list aor l id : loc_ok l ->
  id ∈ lookup_list aor (byAOR l) <-> exists b, heap l !! id = Some b /\ AOR b = aor.
Proof. intros Hl. apply (lo_aor l Hl). Qed.

Definition in_take (i : nat) (lst : list nat) (id : nat) : bool := bool_decide (id ∈ take i lst).

Lemma prune_from_shrinks now aor i : forall l, loc_ok l -> (i <= length (lookup_list aor (byAOR l)))%nat ->
  shrinks (fun id b => in_take i (lookup_list aor (byAOR l)) id && Expired now b) l
          (prune_aor_from i now aor l).2.
Proof.
  induction i as [|i IH]; intros l Hl Hi; cbn [prune_aor_from].
  { apply shrinks_none; [done|]. intros id b _. unfold in_take. cbn [take]. 
    by rewrite bool_decide_eq_false_2 by apply not_elem_of_nil. }
  destruct (lookup_list aor (byAOR l) !! i) as [id|] eqn:Eid.
  2: { apply lookup_ge_None in Eid. lia. }
  assert (Hin : exists b, heap l !! id = Some b /\ AOR b = aor).
  { apply in_list; [done|]. by eapply list_elem_of_lookup_2. }
  destruct Hin as (b & Hb & Ha). cbn [mbind option_bind]. rewrite Hb.
  assert (Htake : forall j, in_take (S i) (lookup_list aor (byAOR l)) j =
                            in_take i (lookup_list aor (byAOR l)) j || Nat.eqb j id).
  { intros j. unfold in_take. rewrite (take_S_r _ _ id) by done. apply eq_true_iff_eq.
    rewrite orb_true_iff, !bool_decide_eq_true, elem_of_app, list_elem_of_singleton, Nat.eqb_eq. done. }
  destruct (Expired now b) eqn:Ee.
  - destruct (deleteLocked_shrinks aor i id l Hl Eid) as [D1 D2].
    assert (Hi' : (i <= length (lookup_list aor (byAOR (deleteLocked aor i l))))%nat).
    { rewrite D2, length_delete by (by eexists). lia. }
    pose proof (IH _ (sk_ok _ _ _ D1) Hi') as R.
    destruct (prune_aor_from i now aor (deleteLocked aor i l)) as [n l']. cbn [snd] in *.
    eapply shrinks_ext; [eapply shrinks_trans; [exact D1|exact R]|].
    intros j b' Hb'. cbn beta. rewrite Htake, D2.
    replace (in_take i (delete i (lookup_list aor (byAOR l))) j) with (in_take i (lookup_list aor (byAOR l)) j)
      by (unfold in_take; rewrite delete_take_drop, take_app_length'; [done|rewrite length_take; lia]).
    destruct (Nat.eqb j id) eqn:Ej; [apply Nat.eqb_eq in Ej as ->; rewrite orb_true_r; replace b' with b by congruence; by rewrite Ee|].
    by rewrite orb_false_r.
  - eapply shrinks_ext; [apply IH; [done|lia]|]. intros j b' Hb'. cbn beta. rewrite Htake.
    destruct (Nat.eqb j id) eqn:Ej; [|by rewrite orb_false_r].
    apply Nat.eqb_eq in Ej as ->. replace b' with b by congruence. by rewrite Ee, !andb_false_r.
Qed.

Lemma pruneAOR_shrinks now aor l : loc_ok l ->
  shrinks (fun _ b => bool_decide (AOR b = aor) && Expired now b) l (pruneAORLocked now aor l).2.
Proof.
  intros Hl. unfold pruneAORLocked. eapply shrinks_ext; [apply prune_from_shrinks; [done|lia]|].
  intros id b Hb. cbn beta. f_equal. unfold in_take. rewrite take_ge by lia.
  apply bool_decide_ext. rewrite in_list by done. split.
  - intros (b' & Hb' & Ha). congruence.
  - intros Ha. by exists b.
Qed.

Lemma prune_aors_shrinks now aors : forall l, loc_ok l ->
  shrinks (fun _ b => bool_decide (AOR b ∈ aors) && Expired now b) l (prune_aors now aors l).2.
Proof.
  induction aors as [|a aors IH]; intros l Hl; cbn [prune_aors].
  { apply shrinks_none; [done|]. intros id b _. by rewrite bool_decide_eq_false_2 by apply not_elem_of_nil. }
  pose proof (pruneAOR_shrinks now a l Hl) as S1. destruct (pruneAORLocked now a l) as [n l1]. cbn [snd] in S1.
  pose proof (IH l1 (sk_ok _ _ _ S1)) as S2. destruct (prune_aors now aors l1) as [m l2]. cbn [snd] in *.
  eapply shrinks_ext; [eapply shrinks_trans; [exact S1|exact S2]|].
  intros id b Hb. cbn beta. rewrite <- andb_orb_distrib_l. f_equal.
  apply eq_true_iff_eq. rewrite orb_true_iff, !bool_decide_eq_true, elem_of_cons. done.
Qed.

Lemma Prune_shrinks now l : loc_ok l -> shrinks (fun _ b => Expired now b) l (Prune now l).2.
Proof.
  intros Hl. eapply shrinks_ext; [by apply prune_aors_shrinks|].
  intros id b Hb. cbn beta. rewrite bool_decide_eq_true_2; [done|].
  apply elem_of_elements, elem_of_dom.
  assert (Hin : id ∈ lookup_list (AOR b) (byAOR l)) by (apply in_list; [done|by exists b]).
  unfold lookup_list in Hin. destruct (byAOR l !! AOR b); [by eexists|]. by apply elem_of_nil in Hin.
Qed.

Lemma find_index_spec f lst :
  match find_index f lst with
  | Some i => exists id, lst !! i = Some id /\ f id = true
  | None => forall id, id ∈ lst -> f id = false
  end.
Proof.
  induction lst as [|x lst IH]; cbn [find_index]; [intros id H; by apply elem_of_nil in H|].
  destruct (f x) eqn:Ex; [by exists x|].
  destruct (find_index f lst) as [i|]; cbn [option_map].
  - exact IH.
  - intros id [->|H]%elem_of_cons; [done|by apply IH].
Qed.

Lemma delete_victim_shrinks id b l : loc_ok l -> heap l !! id = Some b ->
  shrinks (fun i _ => Nat.eqb i id) l (delete_victim l id).
Proof.
  intros Hl Hb. unfold delete_victim. rewrite Hb.
  pose proof (find_index_spec (Nat.eqb id) (lookup_list (AOR b) (byAOR l))) as F.
  destruct (find_index _ _) as [i|].
  - destruct F as (j & Hj & E). apply Nat.eqb_eq in E as <-. by apply deleteLocked_shrinks.
  - exfalso. assert (Hin : id ∈ lookup_list (AOR b) (byAOR l)) by (apply in_list; [done|by exists b]).
    specialize (F id Hin). by rewrite Nat.eqb_refl in F.
Qed.

Lemma delete_victims_shrinks vs : forall l, loc_ok l -> NoDup vs ->
  (forall id, id ∈ vs -> is_Some (heap l !! id)) ->
  shrinks (fun i _ => bool_decide (i ∈ vs)) l (fold_left delete_victim vs l).
Proof.
  induction vs as [|v vs IH]; intros l Hl Hnd Hin; cbn [fold_left].
  { apply shrinks_none; [done|]. intros id b _. by rewrite bool_decide_eq_false_2 by apply not_elem_of_nil. }
  apply NoDup_cons in Hnd as [Hv Hnd]. destruct (Hin v) as [b Hb]; [by left|].
  pose proof (delete_victim_shrinks v b l Hl Hb) as S1.
  assert (Hin' : forall id, id ∈ vs -> is_Some (heap (delete_victim l v) !! id)).
  { intros id Hid. destruct (Hin id) as [b' Hb']; [by right|]. exists b'. apply (sk_heap _ _ _ S1).
    split; [done|]. apply Nat.eqb_neq. by intros ->. }
  pose proof (IH _ (sk_ok _ _ _ S1) Hnd Hin') as S2.
  eapply shrinks_ext; [eapply shrinks_trans; [exact S1|exact S2]|].
  intros id b' _. cbn beta. apply eq_true_iff_eq.
  rewrite orb_true_iff, !bool_decide_eq_true, elem_of_cons, Nat.eqb_eq. done.
Qed.

Lemma removeBySource_shrinks tr src l : loc_ok l ->
  shrinks (fun _ b => on_transport tr b && bool_decide (Source b = src)) l (removeBySource tr src l).2.
Proof.
  intros Hl. destruct (lo_source l Hl) as (S1 & S2 & _). cbn [removeBySource snd].
  assert (Hv : forall id, id ∈ victims tr src l <-> exists b, heap l !! id = Some b /\ on_transport tr b = true /\ Source b = src).
  { intros id. unfold victims. rewrite list_elem_of_In, filter_In, <- list_elem_of_In, S1. split.
    - intros [(b & Hb & Hs) Ht]. rewrite Hb in Ht. by exists b.
    - intros (b & Hb & Ht & Hs). split; [by exists b|]. by rewrite Hb. }
  eapply shrinks_ext; [apply delete_victims_shrinks; [done| |]|].
  - unfold victims. apply NoDup_ListNoDup, List.NoDup_filter, NoDup_ListNoDup, S2.
  - intros id (b & Hb & _)%Hv. by exists b.
  - intros id b Hb. cbn beta. apply eq_true_iff_eq. rewrite andb_true_iff, !bool_decide_eq_true, Hv.
    split; [|intros [? ?]; by exists b]. intros (b' & Hb' & ? & ?). replace b with b' by congruence. done.
Qed.

Lemma Remove_shrinks aor callID l : loc_ok l ->
  shrinks (fun _ b => bool_decide (AOR b = aor) && beq (CallID b) callID) l (Remove aor callID l).2.
Proof.
  intros Hl. unfold Remove. pose proof (find_index_spec (has_call l callID) (lookup_list aor (byAOR l))) as F.
  destruct (find_index _ _) as [i|]; cbn [snd].
  - destruct F as (id & Hid & Hc). destruct (deleteLocked_shrinks aor i id l Hl Hid) as [D _].
    eapply shrinks_ext; [exact D|]. intros j b Hb. cbn beta.
    assert (Hin : exists b0, heap l !! id = Some b0 /\ AOR b0 = aor) by (apply in_list; [done|by eapply list_elem_of_lookup_2]).
    destruct Hin as (b0 & Hb0 & Ha). unfold has_call in Hc. rewrite Hb0 in Hc. apply beq_eq in Hc.
    apply eq_true_iff_eq. rewrite andb_true_iff, bool_decide_eq_true, beq_eq, Nat.eqb_eq. split.
    + intros ->. by replace b with b0 by congruence.
    + intros [Ha' Hc']. eapply (lo_flow l Hl); [done..|congruence|congruence].
  - apply shrinks_none; [done|]. intros id b Hb. destruct (bool_decide (AOR b = aor)) eqn:Ea; [|done]. breflect.
    assert (Hin : id ∈ lookup_list aor (byAOR l)) by (apply in_list; [done|by exists b]).
    specialize (F id Hin). unfold has_call in F. by rewrite Hb in F.
Qed.

(** ** Insertion *)

Definition put_token (fresh : gostring) (b : Binding) : gostring :=
  if bool_decide (Token b = []) then fresh else Token b.

(** The token to be inserted is not another registration's: it comes from
    fsip.NewToken, or is the one the same registration already has. *)
Definition put_token_ok (fresh : gostring) (b : Binding) (l : Location) : Prop :=
  forall id e, heap l !! id = Some e -> Token e = put_token fresh b -> AOR e = AOR b /\ CallID e = CallID b.

Definition put_result (fresh : gostring) (b b' : Binding) (id : nat) (l1 l' : Location) : Prop :=
  loc_ok l' /\ heap l' = <[id := b']> (heap l1) /\ maxTotal l' = maxTotal l1 /\ maxPerAOR l' = maxPerAOR l1 /\
  onRemove l' = onRemove l1 /\ removed l' = removed l1 /\
  ((exists e, heap l1 !! id = Some e /\ AOR e = AOR b /\ CallID e = CallID b /\ b' = set_token (Token e) b) \/
   (heap l1 !! id = None /\ b' = set_token (put_token fresh b) b /\
    forall i e, heap l1 !! i = Some e -> AOR e = AOR b -> CallID e <> CallID b)).

Lemma put_refresh_ok fresh b l id e : loc_ok l -> heap l !! id = Some e -> AOR e = AOR b -> CallID e = CallID b ->
  let b' := set_token (Token e) b in
  let '(src, ips) := unindex_source id e (bySource l) (byIP l) in
  let '(src, ips) := index_source id b' src ips in
  put_result fresh b b' id l
    (mkLocation (<[id := b']> (heap l)) (next l) (byToken l) (byAOR l) src ips
                (maxTotal l) (maxPerAOR l) (onRemove l) (removed l)).
Proof.
  intros Hl He Ha Hc b'. unfold unindex_source, index_source. cbv zeta.
  split; [|split_and!; try done; left; by exists e].
  pose proof (idx_remove Source _ _ id e (lo_source l Hl) He) as S1.
  pose proof (ip_remove _ _ id e (lo_ip l Hl) He) as P1.
  pose proof (lookup_delete_eq (heap l) id) as Hd.
  pose proof (idx_insert Source _ _ id b' S1 Hd) as S2.
  pose proof (ip_insert _ _ id b' P1 Hd) as P2.
  rewrite insert_delete_eq in S2, P2.
  split; cbn [heap next byToken byAOR bySource byIP maxTotal maxPerAOR].
  - intros tok i. rewrite (lo_token l Hl). split; intros (x & Hx & Ht).
    + destruct (decide (i = id)) as [->|Hne].
      * exists b'. rewrite lookup_insert_eq. split; [done|]. cbn. congruence.
      * exists x. by rewrite lookup_insert_ne.
    + destruct (decide (i = id)) as [->|Hne].
      * rewrite lookup_insert_eq in Hx. injection Hx as <-. by exists e.
      * exists x. by rewrite lookup_insert_ne in Hx.
  - eapply idx_replace; [apply Hl|done|done].
  - exact S2.
  - exact P2.
  - intros i x Hx. destruct (decide (i = id)) as [->|Hne]; [by eapply lo_next|].
    rewrite lookup_insert_ne in Hx by done. by eapply lo_next.
  - intros i j x y Hx Hy Hxy Hcc.
    assert (Hget : forall k z, <[id:=b']> (heap l) !! k = Some z ->
              exists z0, heap l !! k = Some z0 /\ AOR z0 = AOR z /\ CallID z0 = CallID z).
    { intros k z Hz. destruct (decide (k = id)) as [->|Hne].
      - rewrite lookup_insert_eq in Hz. injection Hz as <-. by exists e.
      - rewrite lookup_insert_ne in Hz by done. by exists z. }
    destruct (Hget _ _ Hx) as (x0 & ? & ? & ?), (Hget _ _ Hy) as (y0 & ? & ? & ?).
    eapply (lo_flow l Hl); [done..|congruence|congruence].
  - apply (lo_total l Hl).
  - apply (lo_per_aor l Hl).
Qed.

Lemma put_insert_ok fresh b l : loc_ok l -> put_token_ok fresh b l ->
  (forall i e, heap l !! i = Some e -> AOR e = AOR b -> CallID e <> CallID b) ->
  len (lookup_list (AOR b) (byAOR l)) < maxPerAOR l -> Z.of_nat (size (byToken l)) < maxTotal l ->
  let b' := set_token (put_token fresh b) b in
  let id := next l in
  let '(src, ips) := index_source id b' (bySource l) (byIP l) in
  put_result fresh b b' id l
    (mkLocation (<[id := b']> (heap l)) (S id) (<[Token b' := id]> (byToken l))
                (<[AOR b := lookup_list (AOR b) (byAOR l) ++ [id]]> (byAOR l)) src ips
                (maxTotal l) (maxPerAOR l) (onRemove l) (removed l)).
Proof.
  intros Hl Htok Hflow Hper Htot b' id. unfold index_source. cbv zeta.
  assert (Hid : heap l !! id = None).
  { destruct (heap l !! id) as [x|] eqn:E; [|done]. apply (lo_next l Hl) in E. unfold id in E. lia. }
  split; [|split_and!; try done; by right].
  assert (Hfresh : byToken l !! Token b' = None).
  { destruct (byToken l !! Token b') as [i|] eqn:E; [|done].
    apply (lo_token l Hl) in E as (x & Hx & Ht). destruct (Htok i x Hx Ht) as [H1 H2].
    exfalso. by apply (Hflow i x Hx H1). }
  split; cbn [heap next byToken byAOR bySource byIP maxTotal maxPerAOR].
  - intros tok i. split.
    + intros Ht. destruct (decide (tok = Token b')) as [->|Hne].
      * rewrite lookup_insert_eq in Ht. injection Ht as <-. exists b'. by rewrite lookup_insert_eq.
      * rewrite lookup_insert_ne in Ht by done. apply (lo_token l Hl) in Ht as (x & Hx & Ht).
        exists x. rewrite lookup_insert_ne by congruence. done.
    + intros (x & Hx & Ht). destruct (decide (i = id)) as [->|Hne].
      * rewrite lookup_insert_eq in Hx. injection Hx as <-. by rewrite <- Ht, lookup_insert_eq.
      * rewrite lookup_insert_ne in Hx by done.
        assert (Hi : byToken l !! tok = Some i) by (apply (lo_token l Hl); by exists x).
        rewrite lookup_insert_ne; [done|]. intros <-. congruence.
  - change (AOR b) with (AOR b'). by apply idx_insert; [apply Hl|].
  - by apply idx_insert; [apply Hl|].
  - by apply ip_insert; [apply Hl|].
  - intros i x Hx. destruct (decide (i = id)) as [->|Hne]; [lia|].
    rewrite lookup_insert_ne in Hx by done. apply (lo_next l Hl) in Hx. lia.
  - intros i j x y Hx Hy Hxy Hcc.
    destruct (decide (i = id)) as [->|Hi], (decide (j = id)) as [->|Hj]; [done|..].
    + rewrite lookup_insert_eq in Hx. injection Hx as <-. rewrite lookup_insert_ne in Hy by done.
      exfalso. by apply (Hflow j y Hy).
    + rewrite lookup_insert_eq in Hy. injection Hy as <-. rewrite lookup_insert_ne in Hx by done.
      exfalso. by apply (Hflow i x Hx).
    + rewrite lookup_insert_ne in Hx, Hy by done. by eapply (lo_flow l Hl).
  - rewrite map_size_insert_None by done. lia.
  - intros a. pose proof (lo_per_aor l Hl a). rewrite lookup_list_insert. case_decide; [|done].
    rewrite len_app, len_cons, len_nil. lia.
Qed.

Lemma put_token_ok_shrinks P fresh b l l1 : shrinks P l l1 -> put_token_ok fresh b l -> put_token_ok fresh b l1.
Proof. intros S Hp id e He. apply (sk_heap _ _ _ S) in He as [He _]. exact (Hp id e He). Qed.

Lemma Put_spec now fresh b l : loc_ok l -> put_token_ok fresh b l ->
  exists l1, shrinks (fun _ x => bool_decide (AOR x = AOR b) && Expired now x) l l1 /\
  let '(r, l') := Put now fresh b l in
  match r with
  | inl b' => exists id, put_result fresh b b' id l1 l'
  | inr PerAOR => l' = l1 /\ maxPerAOR l <= len (lookup_list (AOR b) (byAOR l1))
  | inr TotalScope => l' = l1 /\ maxTotal l <= Z.of_nat (size (byToken l1))
  end.
Proof.
  intros Hl Htok. exists (pruneAORLocked now (AOR b) l).2.
  pose proof (pruneAOR_shrinks now (AOR b) l Hl) as S. split; [done|]. unfold Put. cbv zeta.
  set (l1 := (pruneAORLocked now (AOR b) l).2) in *.
  pose proof (sk_ok _ _ _ S) as Hl1. pose proof (put_token_ok_shrinks _ _ _ _ _ S Htok) as Htok1.
  destruct (find (has_call l1 (CallID b)) (lookup_list (AOR b) (byAOR l1))) as [id|] eqn:Ef.
  - apply find_some in Ef as [Hin Hc]. apply list_elem_of_In in Hin.
    apply (in_list _ _ _ Hl1) in Hin as (e & He & Ha). rewrite He.
    unfold has_call in Hc. rewrite He in Hc. apply beq_eq in Hc.
    pose proof (put_refresh_ok fresh b l1 id e Hl1 He Ha Hc) as R. cbv zeta in R.
    destruct (unindex_source _ _ _ _) as [src ips]. destruct (index_source _ _ _ _) as [src' ips'].
    by exists id.
  - rewrite (sk_aor _ _ _ S), (sk_total _ _ _ S).
    destruct (maxPerAOR l <=? _) eqn:E1; [split; [done|lia]|].
    destruct (maxTotal l <=? _) eqn:E2; [split; [done|lia]|].
    assert (Hb' : (if bool_decide (Token b = []) then set_token fresh b else b) = set_token (put_token fresh b) b).
    { unfold put_token. case_if; [done|]. by destruct b. }
    rewrite Hb'.
    assert (Hflow : forall i e, heap l1 !! i = Some e -> AOR e = AOR b -> CallID e <> CallID b).
    { intros i e He Ha Hc. pose proof (find_none _ _ Ef i) as F.
      assert (Hin : i ∈ lookup_list (AOR b) (byAOR l1)) by (apply in_list; [done|by exists e]).
      apply list_elem_of_In in Hin. specialize (F Hin). unfold has_call in F. rewrite He, Hc, beq_refl in F. done. }
    pose proof (put_insert_ok fresh b l1 Hl1 Htok1 Hflow) as R.
    rewrite (sk_aor _ _ _ S), (sk_total _ _ _ S) in R. specialize (R ltac:(lia) ltac:(lia)). cbv zeta in R.
    destruct (index_source _ _ _ _) as [src' ips']. by exists (next l1).
Qed.

(** ** Histories *)

Inductive loc_step : Location -> Location -> Prop :=
  | LPut now fresh b l : put_token_ok fresh b l -> loc_step l (Put now fresh b l).2
  | LRemove aor callID l : loc_step l (Remove aor callID l).2
  | LClosed tr src l : loc_step l (removeBySource tr src l).2
  | LPrune now l : loc_step l (Prune now l).2
  | LFlush l : loc_step l (flushRemoved l).2
  | LHook l : loc_step l (SetOnRemove l).

Lemma loc_step_ok l l' : loc_ok l -> loc_step l l' ->
  loc_ok l' /\ maxTotal l' = maxTotal l /\ maxPerAOR l' = maxPerAOR l.
Proof.
  intros Hl Hs. destruct Hs as [now fresh b l Ht|aor callID l|tr src l|now l|l|l].
  - destruct (Put_spec now fresh b l Hl Ht) as (l1 & S & R).
    destruct (Put now fresh b l) as [[b'|[]] l']; cbn [snd].
    + destruct R as (id & R1 & R2 & R3 & R4 & _). by rewrite R3, R4, (sk_total _ _ _ S), (sk_aor _ _ _ S).
    + destruct R as [-> _]. destruct S. done.
    + destruct R as [-> _]. destruct S. done.
  - destruct (Remove_shrinks aor callID l Hl). done.
  - destruct (removeBySource_shrinks tr src l Hl). done.
  - destruct (Prune_shrinks now l Hl). done.
  - by destruct Hl.
  - by destruct Hl.
Qed.

(** C26: the indexes never disagree.  Whatever sequence of registrations,
    refreshes (from a new source included), removals, closed connections and
    prunes a table has seen, its maps hold the same bindings under the right
    token, address-of-record, source and source IP, one binding per
    registration flow, and the caps on devices per user and on the table hold. *)
Theorem location_indexes_agree l :
  reachable (fun l => l = NewLocation) loc_step l ->
  loc_ok l /\ Count l <= defaultMaxBindings /\
  (forall aor, len (lookup_list aor (byAOR l)) <= defaultMaxPerAOR).
Proof.
  intros Hr. assert (H : loc_ok l /\ maxTotal l = defaultMaxBindings /\ maxPerAOR l = defaultMaxPerAOR).
  { refine (reachable_inv (fun l => l = NewLocation) loc_step
      (fun l => loc_ok l /\ maxTotal l = defaultMaxBindings /\ maxPerAOR l = defaultMaxPerAOR) _ _ l Hr).
    - intros ? ->. split; [apply NewLocation_ok|done].
    - intros s s' (H1 & H2 & H3) Hs. destruct (loc_step_ok s s' H1 Hs) as (? & -> & ->). done. }
  destruct H as (Hl & Ht & Hp). split; [done|].
  pose proof (lo_total l Hl) as Hc. rewrite Ht in Hc. split; [exact Hc|].
  intros aor. pose proof (lo_per_aor l Hl aor) as Ha. rewrite Hp in Ha. exact Ha.
Qed.

Lemma in_bindings_source l src b : loc_ok l ->
  b ∈ bindings l (lookup_list src (bySource l)) <-> exists id, heap l !! id = Some b /\ Source b = src.
Proof.
  intros Hl. unfold bindings. rewrite list_elem_of_omap. destruct (lo_source l Hl) as (S1 & _). split.
  - intros (id & Hin & Hb). apply S1 in Hin as (b' & Hb' & Hs). exists id. unfold binding_at in Hb.
    replace b with b' by congruence. done.
  - intros (id & Hb & Hs). exists id. split; [|done]. apply S1. by exists b.
Qed.

(** the lookups see exactly the table.  A token resolves to the live
    binding that carries it; a source is admitted exactly when a live binding
    was registered from that very address over that transport; a source IP is
    known exactly when some binding came from it. *)
Theorem lookups_are_exact l now :
  loc_ok l ->
  (forall tok b, ByToken now tok l = Some b <->
     exists id, heap l !! id = Some b /\ Token b = tok /\ Expired now b = false) /\
  (forall tr src, HasSource now tr src l = true <->
     exists id b, heap l !! id = Some b /\ Source b = src /\ equal_fold (Transport b) tr = true /\ Expired now b = false) /\
  (forall ip, HasIP ip l = true <-> exists id b, heap l !! id = Some b /\ source_ip b = unmap ip).
Proof.
  intros Hl. split; [|split].
  - intros tok b. unfold ByToken. split.
    + destruct (byToken l !! tok) as [id|] eqn:E; [|done]. cbn [mbind option_bind].
      apply (lo_token l Hl) in E as (b' & Hb' & Ht). unfold binding_at. rewrite Hb'.
      case_if; [done|]. intros [= <-]. by exists id.
    + intros (id & Hb & Ht & He). assert (E : byToken l !! tok = Some id) by (apply (lo_token l Hl); by exists b).
      rewrite E. cbn [mbind option_bind]. unfold binding_at. by rewrite Hb, He.
  - intros tr src. unfold HasSource. rewrite existsb_exists. split.
    + intros (b & Hin & Hb). apply list_elem_of_In, in_bindings_source in Hin as (id & Hid & Hs); [|done].
      unfold live_on in Hb. apply andb_true_iff in Hb as [? Hb]. apply negb_true_iff in Hb. by exists id, b.
    + intros (id & b & Hb & Hs & Ht & He). exists b. unfold live_on. rewrite Ht, He. split; [|done].
      apply list_elem_of_In, in_bindings_source; [done|]. by exists id.
  - intros ip. unfold HasIP. destruct (lo_ip l Hl (unmap ip)) as [-> _].
    rewrite Z.ltb_lt. unfold ip_count. split.
    + intros Hn. destruct (map_choose (filter (fun ib => source_ip ib.2 = unmap ip) (heap l))) as (id & b & Hb).
      { intros E. rewrite E, map_size_empty in Hn. lia. }
      apply map_lookup_filter_Some in Hb as [Hb Hs]. by exists id, b.
    + intros (id & b & Hb & Hs).
      assert (E : filter (fun ib => source_ip ib.2 = unmap ip) (heap l) !! id = Some b) by by apply map_lookup_filter_Some.
      destruct (decide (size (filter (fun ib => source_ip ib.2 = unmap ip) (heap l)) = 0%nat)) as [Ez|]; [|lia].
      apply map_size_empty_iff in Ez. rewrite Ez, lookup_empty in E. done.
Qed.

(** a registration is reachable by the token it got, and a refresh keeps
    the token.  When [Put] succeeds, the token of the binding it returns
    resolves to that binding; a flow that was live before keeps its token,
    whatever token came with the refresh; and every other binding stays as it
    was, unless it was an expired one of the same user. *)
Theorem put_is_found_and_keeps_token now fresh b l :
  loc_ok l -> put_token_ok fresh b l ->
  match Put now fresh b l with
  | (inl b', l') =>
      (Expired now b = false -> ByToken now (Token b') l' = Some b') /\
      (forall e id, heap l !! id = Some e -> AOR e = AOR b -> CallID e = CallID b -> Expired now e = false ->
         Token b' = Token e) /\
      (forall e id, heap l !! id = Some e -> ~ (AOR e = AOR b /\ (CallID e = CallID b \/ Expired now e = true)) ->
         heap l' !! id = Some e)
  | (inr _, l') => forall id e, heap l' !! id = Some e -> heap l !! id = Some e
  end.
Proof.
  intros Hl Ht. destruct (Put_spec now fresh b l Hl Ht) as (l1 & S & R).
  destruct (Put now fresh b l) as [[b'|[]] l'].
  - destruct R as (id & Hok & Hh & _ & _ & _ & _ & Hcase).
    assert (Hb' : Expired now b' = Expired now b) by (by destruct Hcase as [(e & _ & _ & _ & ->)|(_ & -> & _)]).
    split; [|split].
    + intros He. unfold ByToken.
      assert (E : byToken l' !! Token b' = Some id).
      { apply (lo_token l' Hok). exists b'. by rewrite Hh, lookup_insert_eq. }
      rewrite E. cbn [mbind option_bind]. unfold binding_at. rewrite Hh, lookup_insert_eq. by rewrite Hb', He.
    + intros e i He Ha Hc Hex. assert (He1 : heap l1 !! i = Some e).
      { apply (sk_heap _ _ _ S). by rewrite Hex, andb_false_r. }
      destruct Hcase as [(e' & He' & Ha' & Hc' & ->)|(_ & _ & Hno)].
      * assert (i = id) as -> by (eapply (lo_flow l1 (sk_ok _ _ _ S)); [done..|congruence|congruence]).
        cbn. congruence.
      * exfalso. by apply (Hno i e).
    + intros e i He Hno. assert (He1 : heap l1 !! i = Some e).
      { apply (sk_heap _ _ _ S). split; [done|]. apply andb_false_iff. rewrite bool_decide_eq_false.
        destruct (decide (AOR e = AOR b)); [|by left]. right. destruct (Expired now e) eqn:Ex; [|done].
        exfalso. apply Hno. tauto. }
      rewrite Hh, lookup_insert_ne; [done|]. intros <-.
      destruct Hcase as [(e' & He' & Ha' & Hc' & _)|(Hnone & _)]; [|congruence].
      apply Hno. replace e with e' by congruence. tauto.
  - destruct R as [-> _]. intros id e He. by apply (sk_heap _ _ _ S) in He as [? _].
  - destruct R as [-> _]. intros id e He. by apply (sk_heap _ _ _ S) in He as [? _].
Qed.

(** a closing connection takes exactly its own bindings.  Closing a
    stream connection removes the bindings registered over that transport from
    that address and no other - not a UDP binding of the same address - and the
    hook is told exactly their tokens. *)
Theorem close_takes_only_its_own tr src l :
  loc_ok l -> tr <> [] ->
  let '(_, l') := RemoveBySourceOn tr src l in
  loc_ok l' /\
  (forall id b, heap l' !! id = Some b <->
     heap l !! id = Some b /\ ~ (equal_fold (Transport b) tr = true /\ Source b = src)) /\
  (onRemove l = true -> forall tok, tok ∈ removed l' <->
     tok ∈ removed l \/
     exists id b, heap l !! id = Some b /\ equal_fold (Transport b) tr = true /\ Source b = src /\ Token b = tok).
Proof.
  intros Hl Htr. unfold RemoveBySourceOn. pose proof (removeBySource_shrinks tr src l Hl) as S.
  destruct (removeBySource tr src l) as [n l']. cbn [snd] in S. destruct S as [S1 S2 _ _ _ _ S7].
  unfold on_transport in *. setoid_rewrite (bool_decide_eq_false_2 (tr = [])) in S2; [|done..].
  setoid_rewrite (bool_decide_eq_false_2 (tr = [])) in S7; [|done..]. cbn [orb] in *.
  split; [done|]. split.
  - intros id b. rewrite S2, andb_false_iff, bool_decide_eq_false.
    destruct (equal_fold (Transport b) tr); split; intros [H1 H2]; (split; [done|]).
    + destruct H2 as [?|H2]; [done|]. by intros [_ ?].
    + right. intros ?. by apply H2.
    + by intros [? _].
    + by left.
  - intros Hh tok. rewrite S7, Hh. split; (intros [?|H]; [by left|right]).
    + destruct H as (_ & id & b & Hb & H & Ht). apply andb_true_iff in H as [H1 H2]. breflect. by exists id, b.
    + destruct H as (id & b & Hb & H1 & H2 & Ht). split; [done|]. exists id, b. rewrite H1.
      by rewrite bool_decide_eq_true_2.
Qed.

(** ** Witnesses *)

Definition demo_binding (call : gostring) (port : Z) : Binding :=
  mkBinding [] (str "a@x") (str "a") (str "ws") (mkAddrPort (ip4 192 0 2 1) port) 100 call.

Definition demo_loc : Location := (Put 5 (str "t1") (demo_binding (str "c1") 4000) (SetOnRemove NewLocation)).2.

Lemma put_ok_new fresh b : put_token_ok fresh b (SetOnRemove NewLocation).
Proof. intros id e He. cbn in He. by rewrite lookup_empty in He. Qed.

Lemma demo_loc_reachable : reachable (fun l => l = NewLocation) loc_step demo_loc.
Proof.
  eapply reach_step; [eapply reach_step; [by apply reach_init|apply LHook]|].
  apply LPut, put_ok_new.
Qed.

Lemma demo_loc_ok : loc_ok demo_loc.
Proof.
  refine (proj1 (loc_step_ok (SetOnRemove NewLocation) _ _ _)).
  - refine (proj1 (loc_step_ok NewLocation _ NewLocation_ok _)). apply LHook.
  - apply LPut, put_ok_new.
Qed.

Lemma location_indexes_agree_witness : Count demo_loc = 1 /\ Count demo_loc <= defaultMaxBindings.
Proof.
  split; [vm_compute; reflexivity|]. exact (proj1 (proj2 (location_indexes_agree demo_loc demo_loc_reachable))).
Defined.

Lemma lookups_are_exact_witness :
  HasSource 6 (str "WS") (mkAddrPort (ip4 192 0 2 1) 4000) demo_loc = true /\
  exists id b, heap demo_loc !! id = Some b /\ Source b = mkAddrPort (ip4 192 0 2 1) 4000 /\
    equal_fold (Transport b) (str "WS") = true /\ Expired 6 b = false.
Proof.
  assert (E : HasSource 6 (str "WS") (mkAddrPort (ip4 192 0 2 1) 4000) demo_loc = true) by (vm_compute; reflexivity).
  split; [exact E|]. destruct (lookups_are_exact demo_loc 6 demo_loc_ok) as (_ & H & _).
  by apply H.
Defined.

Lemma put_is_found_and_keeps_token_witness :
  match Put 7 (str "t2") (demo_binding (str "c1") 4001) demo_loc with
  | (inl b', l') => ByToken 7 (Token b') l' = Some b'
  | _ => False
  end.
Proof.
  assert (Ht : put_token_ok (str "t2") (demo_binding (str "c1") 4001) demo_loc).
  { intros id e He Ht. assert (Hid : byToken demo_loc !! Token e = Some id) by (apply (lo_token _ demo_loc_ok); by exists e).
    rewrite Ht in Hid. vm_compute in Hid. discriminate. }
  pose proof (put_is_found_and_keeps_token 7 (str "t2") (demo_binding (str "c1") 4001) demo_loc demo_loc_ok Ht) as R.
  assert (E : match (Put 7 (str "t2") (demo_binding (str "c1") 4001) demo_loc).1 with inl _ => true | inr _ => false end = true)
    by (vm_compute; reflexivity).
  destruct (Put 7 _ _ _) as [[b'|r] l']; [|discriminate]. apply R. vm_compute. reflexivity.
Defined.

Lemma close_takes_only_its_own_witness :
  Count (RemoveBySourceOn (str "udp") (mkAddrPort (ip4 192 0 2 1) 4000) demo_loc).2 = 1 /\
  loc_ok (RemoveBySourceOn (str "udp") (mkAddrPort (ip4 192 0 2 1) 4000) demo_loc).2.
Proof.
  split; [vm_compute; reflexivity|].
  assert (Htr : str "udp" <> []) by discriminate.
  pose proof (close_takes_only_its_own (str "udp") (mkAddrPort (ip4 192 0 2 1) 4000) demo_loc demo_loc_ok Htr) as R.
  revert R. generalize (RemoveBySourceOn (str "udp") (mkAddrPort (ip4 192 0 2 1) 4000) demo_loc).
  intros [n l'] R. apply R.
Defined.
