(* ===== verification/StreamFramer.v ===== *)
(** internal/edge/stream.go, [sipFramer] and [contentLength]: where SIP messages
    end in the bytes of a TCP or TLS connection, and what they cost the shield.

    [sip_loop] is the loop of the code's [feed], with the fuel [sip_fuel];
    [sip_bytes] is the same automaton one byte at a time, which the loop is
    proved to agree with whatever the reads are. *)

From S2P Require Import Prelude GoText.

Open Scope Z_scope.

Inductive streamClose :=
  closeNone | closeIdle | closeSlow | closeOversize | closeMalformed | closeHandshake | closeRate.

#[export] Instance streamClose_eq_dec : EqDecision streamClose.
Proof. solve_decision. Defined.

Definition crlfcrlf : gostring := [13; 10; 13; 10].

(** [bytes.SplitSeq(s, "\r\n")] *)
Fixpoint split_crlf (s : gostring) : list gostring :=
  match s with
  | [] => [[]]
  | 13 :: ((10 :: s') as _) => [] :: split_crlf s'
  | x :: s' => match split_crlf s' with
               | [] => [[x]]
               | l :: ls => (x :: l) :: ls
               end
  end.

(** The loop over the lines: the length so far, if one was seen. *)
Fixpoint content_length_lines (ls : list gostring) (n : Z) (seen : bool) : Z * bool :=
  match ls with
  | [] => (n, true)
  | line :: ls' =>
      match line with
      | [] => content_length_lines ls' n seen
      | c :: _ =>
          if (c =? 32) || (c =? 9) then content_length_lines ls' n seen
          else match index_byte line 58 with
               | None => content_length_lines ls' n seen
               | Some colon =>
                   let name := to_lower (trim_space (take colon line)) in
                   if negb (beq name (str "content-length")) && negb (beq name (str "l"))
                   then content_length_lines ls' n seen
                   else match atoi (trim_space (drop (S colon) line)) with
                        | None => (0, false)
                        | Some v =>
                            if v <? 0 then (0, false)
                            else if seen && negb (v =? n) then (0, false)
                            else content_length_lines ls' v true
                        end
               end
      end
  end.

Definition contentLength (head : gostring) : Z * bool := content_length_lines (split_crlf head) 0 false.

(** ** The SIP framer *)

Inductive sipState := sipIdle | sipHead | sipBody.

#[export] Instance sipState_eq_dec : EqDecision sipState.
Proof. solve_decision. Defined.

Record sipFramer := mkSip { smax : Z; sstate : sipState; head : gostring; left : Z; sbegan : bool }.

Definition sip_partial (f : sipFramer) : bool := negb (bool_decide (sstate f = sipIdle)).
Definition sip_started (f : sipFramer) : bool * bool := (sbegan f && sip_partial f, sbegan f).

Definition is_crlf (c : Z) : bool := (c =? 13) || (c =? 10).

(** The message whose header block is [h] (its empty line included): the body
    length to skip, or the violation. *)
Definition head_done (max : Z) (h : gostring) : streamClose * Z :=
  let '(n, ok) := contentLength h in
  if negb ok then (closeMalformed, 0)
  else if max <? wrap_int64 (len h + n) then (closeOversize, 0)
  else (closeNone, n).

Fixpoint sip_loop (fuel : nat) (f : sipFramer) (p : gostring) (charges : Z) : Z * streamClose * sipFramer :=
  match fuel with
  | O => (charges, closeNone, f)
  | S fuel' =>
      match p with
      | [] => (charges, closeNone, f)
      | _ =>
          match sstate f with
          | sipIdle =>
              let p := trim_left is_crlf p in
              match p with
              | [] => (charges, closeNone, f)
              | _ => sip_loop fuel' (mkSip (smax f) sipHead [] (left f) true) p (charges + 1)
              end
          | sipHead =>
              let old := length (head f) in
              let n := Z.to_nat (Z.min (len p) (smax f - Z.of_nat old)) in
              let h := head f ++ take n p in
              let from := (old - 3)%nat in
              match index (drop from h) crlfcrlf with
              | None =>
                  if (Z.of_nat n <? len p) || (smax f <=? len h) then (charges, closeOversize, f)
                  else sip_loop fuel' (mkSip (smax f) sipHead h (left f) (sbegan f)) [] charges
              | Some idx =>
                  let stop := (from + idx + 4)%nat in
                  let '(bad, body) := head_done (smax f) (take stop h) in
                  match bad with
                  | closeNone =>
                      sip_loop fuel' (mkSip (smax f) (if body =? 0 then sipIdle else sipBody) [] body (sbegan f))
                               (drop (stop - old) p) charges
                  | _ => (charges, bad, f)
                  end
              end
          | sipBody =>
              let n := Z.min (left f) (len p) in
              let l := left f - n in
              sip_loop fuel' (mkSip (smax f) (if l =? 0 then sipIdle else sipBody) (head f) l (sbegan f))
                       (drop (Z.to_nat n) p) charges
          end
      end
  end.

(** Each round but the one that starts a message consumes a byte. *)
Definition sip_fuel (p : gostring) : nat := (2 * length p + 1)%nat.

Definition sip_feed (f : sipFramer) (p : gostring) : Z * streamClose * sipFramer :=
  let f := mkSip (smax f) (sstate f) (head f) (left f) false in
  let '(charges, bad, f') := sip_loop (sip_fuel p) f p 0 in
  match bad with
  | closeNone =>
      let content := negb (bool_decide (sstate f = sipIdle)) || existsb (fun c => negb (is_crlf c)) p in
      (if content then charges else charges + 1, closeNone, f')
  | _ => (charges, bad, f')
  end.

(** ** One byte at a time *)

(** The framer's memory between bytes. *)
Inductive sipMem := MIdle | MHead (h : gostring) | MBody (left : Z).

Definition head_byte (max : Z) (h : gostring) (b : Z) : sipMem + streamClose :=
  let h := h ++ [b] in
  match index h crlfcrlf with
  | Some _ =>
      let '(bad, n) := head_done max h in
      match bad with closeNone => inl (if n =? 0 then MIdle else MBody n) | _ => inr bad end
  | None => if max <=? len h then inr closeOversize else inl (MHead h)
  end.

(** The messages it starts, and the memory or the violation. *)
Definition sip_byte (max : Z) (m : sipMem) (b : Z) : Z * (sipMem + streamClose) :=
  match m with
  | MIdle => if is_crlf b then (0, inl MIdle) else (1, head_byte max [] b)
  | MHead h => (0, head_byte max h b)
  | MBody n => (0, inl (if n - 1 =? 0 then MIdle else MBody (n - 1)))
  end.

Fixpoint sip_bytes (max : Z) (m : sipMem) (p : gostring) : Z * (sipMem + streamClose) :=
  match p with
  | [] => (0, inl m)
  | b :: p' =>
      let '(c, r) := sip_byte max m b in
      match r with
      | inr bad => (c, inr bad)
      | inl m' => let '(c', r') := sip_bytes max m' p' in (c + c', r')
      end
  end.

Definition mem_of (f : sipFramer) : sipMem :=
  match sstate f with sipIdle => MIdle | sipHead => MHead (head f) | sipBody => MBody (left f) end.

Definition mem_ok (max : Z) (m : sipMem) : Prop :=
  match m with
  | MIdle => True
  | MHead h => index h crlfcrlf = None /\ len h < max
  | MBody n => 0 < n
  end.

(** ** Lemmas on [index] *)

Definition occurs (s : gostring) (i : nat) : Prop := has_prefix (drop i s) crlfcrlf = true.

Lemma occurs_app s t i : occurs s i -> occurs (s ++ t) i.
Proof.
  unfold occurs. rewrite !has_prefix_spec. intros [r Hr]. exists (r ++ t).
  assert (i <= length s)%nat.
  { assert (L : length (drop i s) = (4 + length r)%nat) by (by rewrite Hr). rewrite length_drop in L. lia. }
  rewrite drop_app_le by lia. rewrite Hr. done.
Qed.

Lemma occurs_bound s i : occurs s i -> (i + 4 <= length s)%nat.
Proof.
  unfold occurs. rewrite has_prefix_spec. intros [r Hr].
  assert (L : length (drop i s) = (4 + length r)%nat) by (by rewrite Hr). rewrite length_drop in L. lia.
Qed.

Lemma occurs_prefix s t i : occurs (s ++ t) i -> (i + 4 <= length s)%nat -> occurs s i.
Proof.
  unfold occurs. rewrite !has_prefix_spec. intros [r Hr] Hi. rewrite drop_app_le in Hr by lia.
  exists (drop 4 (drop i s)). rewrite <- (take_drop 4 (drop i s)) at 1. f_equal.
  assert (L : length (take 4 (drop i s)) = 4%nat) by (rewrite length_take, length_drop; lia).
  rewrite <- (take_drop 4 (drop i s)), <- app_assoc in Hr.
  apply (f_equal (take 4)) in Hr. rewrite (take_app_length' _ _ 4) in Hr by lia. exact Hr.
Qed.

Lemma index_some s i : index s crlfcrlf = Some i -> occurs s i /\ forall j, (j < i)%nat -> ~ occurs s j.
Proof.
  unfold occurs. revert i. induction s as [|x s IH]; intros i; [done|]. cbn [index].
  destruct (has_prefix (x :: s) crlfcrlf) eqn:E.
  - intros [= <-]. split; [done|]. intros j Hj. lia.
  - destruct (index s crlfcrlf) as [k|]; [|done]. intros [= <-]. destruct (IH k eq_refl) as [H1 H2].
    split; [done|]. intros [|j] Hj; [cbn [drop]; congruence|]. apply H2. lia.
Qed.

Lemma index_none s : index s crlfcrlf = None -> forall i, ~ occurs s i.
Proof.
  unfold occurs. induction s as [|x s IH]; intros H i.
  - rewrite drop_nil. done.
  - cbn [index] in H. destruct (has_prefix (x :: s) crlfcrlf) eqn:E; [done|].
    destruct (index s crlfcrlf) eqn:Es; [done|]. destruct i as [|i]; [cbn [drop]; congruence|]. by apply IH.
Qed.

Lemma index_intro s i : occurs s i -> (forall j, (j < i)%nat -> ~ occurs s j) -> index s crlfcrlf = Some i.
Proof.
  intros H1 H2. destruct (index s crlfcrlf) as [k|] eqn:E; [|by apply (index_none s E) in H1].
  apply index_some in E as [E1 E2]. f_equal.
  destruct (Nat.lt_trichotomy i k) as [Hl|[->|Hl]]; [by apply E2 in Hl|done|by apply H2 in Hl].
Qed.

Lemma index_intro_none s : (forall i, ~ occurs s i) -> index s crlfcrlf = None.
Proof.
  intros H. destruct (index s crlfcrlf) as [k|] eqn:E; [|done]. apply index_some in E as [E _]. by apply H in E.
Qed.

Lemma occurs_drop s k i : occurs (drop k s) i <-> occurs s (k + i).
Proof. unfold occurs. by rewrite drop_drop. Qed.

(** Searching from three bytes before the new data misses nothing. *)
Lemma index_from h c : index h crlfcrlf = None ->
  index (h ++ c) crlfcrlf =
  (fun i => (length h - 3) + i)%nat <$> index (drop (length h - 3) (h ++ c)) crlfcrlf.
Proof.
  intros Hh. pose proof (index_none h Hh) as Hno.
  assert (Hearly : forall j, (j < length h - 3)%nat -> ~ occurs (h ++ c) j).
  { intros j Hj Hocc. apply (Hno j). eapply occurs_prefix; [exact Hocc|lia]. }
  destruct (index (drop _ (h ++ c)) crlfcrlf) as [i|] eqn:E; cbn [fmap option_fmap option_map].
  - apply index_some in E as [E1 E2]. apply index_intro; [by apply occurs_drop|].
    intros j Hj Hocc. destruct (decide (j < length h - 3)%nat) as [|Hge]; [by eapply Hearly|].
    apply (E2 (j - (length h - 3))%nat); [lia|]. apply occurs_drop.
    by replace (length h - 3 + (j - (length h - 3)))%nat with j by lia.
  - apply index_intro_none. intros j Hocc.
    destruct (decide (j < length h - 3)%nat) as [|Hge]; [by eapply Hearly|].
    apply (index_none _ E (j - (length h - 3))%nat). apply occurs_drop.
    by replace (length h - 3 + (j - (length h - 3)))%nat with j by lia.
Qed.

(** The first empty line that ends with the last byte is found by the byte
    automaton at that byte. *)
Lemma index_snoc h b : index h crlfcrlf = None ->
  index (h ++ [b]) crlfcrlf = None \/
  (index (h ++ [b]) crlfcrlf = Some (length h - 3)%nat /\ (3 <= length h)%nat).
Proof.
  intros Hh. destruct (index (h ++ [b]) crlfcrlf) as [i|] eqn:E; [right|by left].
  apply index_some in E as [E _]. pose proof (occurs_bound _ _ E) as Hb. rewrite length_app in Hb. cbn in Hb.
  destruct (decide (i + 4 <= length h)%nat) as [Hl|Hl].
  - apply occurs_prefix in E; [|done]. by apply (index_none h Hh) in E.
  - split; [f_equal|]; lia.
Qed.

Lemma index_late h p i : index h crlfcrlf = None -> index (h ++ p) crlfcrlf = Some i ->
  (length h < i + 4)%nat.
Proof.
  intros Hh Hi. apply index_some in Hi as [Hi _].
  destruct (decide (i + 4 <= length h)%nat) as [Hl|]; [|lia].
  apply occurs_prefix in Hi; [|done]. by apply (index_none h Hh) in Hi.
Qed.

Lemma index_stable h p i : index h crlfcrlf = Some i -> index (h ++ p) crlfcrlf = Some i.
Proof.
  intros Hi. apply index_some in Hi as [H1 H2]. apply index_intro; [by apply occurs_app|].
  intros j Hj Hocc. apply (H2 j Hj). eapply occurs_prefix; [exact Hocc|].
  apply occurs_bound in H1. lia.
Qed.

(** What is left to do once a header block is complete. *)
Definition after_head (max : Z) (t rest : gostring) : Z * (sipMem + streamClose) :=
  let '(bad, n) := head_done max t in
  match bad with
  | closeNone => sip_bytes max (if n =? 0 then MIdle else MBody n) rest
  | _ => (0, inr bad)
  end.

(** A header block read byte by byte is one search. *)
Lemma bytes_head max p : forall h, index h crlfcrlf = None -> len h < max ->
  sip_bytes max (MHead h) p =
  match index (h ++ p) crlfcrlf with
  | Some i => if max <? Z.of_nat (i + 4) then (0, inr closeOversize)
              else after_head max (take (i + 4) (h ++ p)) (drop (i + 4 - length h) p)
  | None => if max <=? len (h ++ p) then (0, inr closeOversize) else (0, inl (MHead (h ++ p)))
  end.
Proof.
  induction p as [|b p IH]; intros h Hh Hlen; cbn [sip_bytes].
  { rewrite app_nil_r, Hh. by replace (max <=? len h) with false by lia. }
  cbn [sip_byte]. unfold head_byte.
  assert (Happ : h ++ b :: p = (h ++ [b]) ++ p) by (by rewrite <- app_assoc). rewrite Happ.
  destruct (index_snoc h b Hh) as [Hn|[Hs Hge]].
  - rewrite Hn. destruct (max <=? len (h ++ [b])) eqn:Em.
    + destruct (index ((h ++ [b]) ++ p) crlfcrlf) as [i|] eqn:Ei.
      * pose proof (index_late _ _ _ Hn Ei). unfold len in Em.
        by replace (max <? Z.of_nat (i + 4)) with true by lia.
      * rewrite len_app. pose proof (len_nonneg p). by replace (max <=? len (h ++ [b]) + len p) with true by lia.
    + cbn [fst snd]. rewrite IH by (done || lia).
      destruct (index ((h ++ [b]) ++ p) crlfcrlf) as [i|] eqn:Ei; [|by case_if].
      pose proof (index_late _ _ _ Hn Ei) as Hl. rewrite length_app in *. cbn [length] in *.
      case_if; [done|]. replace (i + 4 - length h)%nat with (S (i + 4 - (length h + 1))) by lia.
      cbn [drop]. by destruct (after_head _ _ _).
  - rewrite Hs, (index_stable _ p _ Hs). unfold len in Hlen.
    replace (max <? Z.of_nat (length h - 3 + 4)) with false by lia.
    rewrite take_app_length' by (rewrite length_app; cbn [length]; lia).
    replace (length h - 3 + 4 - length h)%nat with 1%nat by lia. cbn [drop]. unfold after_head.
    destruct (head_done max (h ++ [b])) as [bad n]. destruct bad; try done.
    rewrite drop_0. by destruct (sip_bytes _ _ p).
Qed.

Lemma bytes_body max n p : 0 < n ->
  sip_bytes max (MBody n) p =
  let k := Z.min n (len p) in
  sip_bytes max (if n - k =? 0 then MIdle else MBody (n - k)) (drop (Z.to_nat k) p).
Proof.
  revert n. induction p as [|b p IH]; intros n Hn.
  - cbv zeta. rewrite len_nil. replace (Z.min n 0) with 0 by lia.
    replace (n - 0 =? 0) with false by lia. by rewrite Z.sub_0_r.
  - cbn [sip_bytes sip_byte]. cbv zeta. rewrite len_cons. pose proof (len_nonneg p).
    destruct (n - 1 =? 0) eqn:E.
    + replace (Z.min n (1 + len p)) with 1 by lia. rewrite E.
      change (Z.to_nat 1) with 1%nat. cbn [drop]. rewrite ?drop_0. by destruct (sip_bytes max MIdle p).
    + rewrite IH by lia. cbv zeta.
      replace (Z.min n (1 + len p)) with (1 + Z.min (n - 1) (len p)) by lia.
      replace (n - (1 + Z.min (n - 1) (len p))) with (n - 1 - Z.min (n - 1) (len p)) by lia.
      replace (Z.to_nat (1 + Z.min (n - 1) (len p))) with (S (Z.to_nat (Z.min (n - 1) (len p)))) by lia.
      cbn [drop]. by destruct (sip_bytes _ _ _).
Qed.

Lemma bytes_idle max p :
  sip_bytes max MIdle p =
  match trim_left is_crlf p with
  | [] => (0, inl MIdle)
  | p' => let '(c, r) := sip_bytes max (MHead []) p' in (1 + c, r)
  end.
Proof.
  induction p as [|b p IH]; [done|]. cbn [sip_bytes sip_byte trim_left].
  destruct (is_crlf b); cbn [fst snd].
  - rewrite IH. destruct (trim_left is_crlf p) as [|z l]; [done|]. cbn [sip_bytes sip_byte].
    destruct (head_byte max [] z) as [m|bad]; [|done]. by destruct (sip_bytes max m l).
  - cbn [sip_bytes sip_byte]. destruct (head_byte max [] b) as [m|bad]; [|done].
    by destruct (sip_bytes max m p).
Qed.

Lemma trim_left_len f s : (length (trim_left f s) <= length s)%nat.
Proof. induction s as [|x s IH]; [done|]. cbn. case_if; cbn; lia. Qed.

(** What the loop returns, seen as the byte automaton returns it. *)
Definition sip_view (r : Z * streamClose * sipFramer) : Z * (sipMem + streamClose) :=
  let '(c, bad, f) := r in
  (c, match bad with closeNone => inl (mem_of f) | _ => inr bad end).

Definition add_charge (c : Z) (r : Z * (sipMem + streamClose)) : Z * (sipMem + streamClose) := (c + r.1, r.2).

Lemma head_done_ok max h : let '(bad, n) := head_done max h in bad = closeNone -> 0 <= n.
Proof.
  unfold head_done. destruct (contentLength h) as [n ok] eqn:E. destruct ok; cbn [negb]; [|done].
  case_if; [done|]. intros _. revert E. unfold contentLength.
  generalize (split_crlf h). assert (H0 : 0 <= 0) by lia. revert H0. generalize 0 at 2 3 as m. generalize false as seen.
  intros seen m Hm ls. revert seen m Hm. induction ls as [|line ls IH]; intros seen m Hm E; cbn [content_length_lines] in E.
  - by injection E as ->.
  - destruct line as [|c line]; [by eapply IH|]. case_if_in E; [by eapply IH|].
    destruct (index_byte _ 58) as [colon|]; [|by eapply IH]. cbv zeta in E. case_if_in E; [by eapply IH|].
    destruct (atoi _) as [v|]; [|done]. destruct (v <? 0) eqn:Ev; [done|]. case_if_in E; [done|].
    eapply IH; [|exact E]. lia.
Qed.

(** What one round of the loop must do to agree with the automaton, given that
    the rounds after it do. *)
Definition loop_ok (fuel : nat) : Prop := forall f p charges,
  mem_ok (smax f) (mem_of f) -> 0 < smax f ->
  (2 * length p + (if bool_decide (sstate f = sipIdle) then 1 else 0) <= fuel)%nat -> (1 <= fuel)%nat ->
  sip_view (sip_loop fuel f p charges) = add_charge charges (sip_bytes (smax f) (mem_of f) p).

Definition fuel_of (f : sipFramer) (p : gostring) : nat :=
  (2 * length p + (if bool_decide (sstate f = sipIdle) then 1 else 0))%nat.

Lemma fuel_other f p : sstate f <> sipIdle -> fuel_of f p = (2 * length p)%nat.
Proof. intros H. unfold fuel_of. rewrite bool_decide_eq_false_2 by done. lia. Qed.

Lemma fuel_idle f p : sstate f = sipIdle -> fuel_of f p = (2 * length p + 1)%nat.
Proof. intros H. unfold fuel_of. by rewrite bool_decide_eq_true_2. Qed.

Lemma fuel_le f p : (fuel_of f p <= 2 * length p + 1)%nat.
Proof. unfold fuel_of. destruct (bool_decide _); lia. Qed.

Lemma loop_idle fuel f b p charges : loop_ok fuel -> sstate f = sipIdle -> 0 < smax f ->
  (2 * length (b :: p) <= fuel)%nat ->
  sip_view (sip_loop (S fuel) f (b :: p) charges) = add_charge charges (sip_bytes (smax f) MIdle (b :: p)).
Proof.
  intros IH Es Hmax Hf. cbn [sip_loop]. rewrite Es, bytes_idle.
  pose proof (trim_left_len is_crlf (b :: p)) as Ht. cbn [length] in Hf.
  destruct (trim_left is_crlf (b :: p)) as [|x t] eqn:Et.
  { unfold add_charge, sip_view, mem_of. rewrite Es. cbn. f_equal. lia. }
  cbn [length] in Ht. rewrite IH; cbn [smax mem_of sstate head].
  - unfold mem_of. cbn [sstate head]. destruct (sip_bytes _ _ (x :: t)) as [c r]. unfold add_charge. cbn. f_equal. lia.
  - split; [done|]. by rewrite len_nil.
  - done.
  - change (bool_decide (sipHead = sipIdle)) with false. cbv iota. cbn [length]. lia.
  - lia.
Qed.

Lemma loop_body fuel f b p charges : loop_ok fuel -> sstate f = sipBody -> 0 < smax f -> 0 < left f ->
  (2 * length (b :: p) <= S fuel)%nat ->
  sip_view (sip_loop (S fuel) f (b :: p) charges) = add_charge charges (sip_bytes (smax f) (MBody (left f)) (b :: p)).
Proof.
  intros IH Es Hmax Hleft Hf. cbn [sip_loop]. rewrite Es, bytes_body by done. cbv zeta.
  set (k := Z.min (left f) (len (b :: p))).
  assert (Hk : 1 <= k) by (unfold k; rewrite len_cons; pose proof (len_nonneg p); lia).
  assert (Hdl : (length (drop (Z.to_nat k) (b :: p)) <= length p)%nat) by (rewrite length_drop; cbn [length]; lia).
  cbn [length] in Hf. rewrite IH; cbn [smax].
  - f_equal. unfold mem_of. cbn [sstate left]. by destruct (left f - k =? 0).
  - unfold mem_of. cbn [sstate left]. destruct (left f - k =? 0) eqn:Eb; [done|]. cbn. unfold k. lia.
  - done.
  - cbn [sstate]. destruct (bool_decide _); lia.
  - lia.
Qed.

(** A block that the data completes: the search of the loop finds what a search
    of the whole would. *)
Lemma loop_head_found fuel f q idx charges : loop_ok fuel -> 0 < smax f -> (2 * length q <= S fuel)%nat -> (1 <= length q)%nat ->
  index (head f) crlfcrlf = None -> len (head f) < smax f ->
  let n := Z.to_nat (Z.min (len q) (smax f - Z.of_nat (length (head f)))) in
  index (drop (length (head f) - 3) (head f ++ take n q)) crlfcrlf = Some idx ->
  let stop := (length (head f) - 3 + idx + 4)%nat in
  sip_view (let '(bad, body) := head_done (smax f) (take stop (head f ++ take n q)) in
            match bad with
            | closeNone => sip_loop fuel (mkSip (smax f) (if body =? 0 then sipIdle else sipBody) [] body (sbegan f))
                             (drop (stop - length (head f)) q) charges
            | _ => (charges, bad, f)
            end) = add_charge charges (sip_bytes (smax f) (MHead (head f)) q).
Proof.
  intros IH Hmax Hf Hq1 Hh Hlen n Ei stop. pose proof (index_from (head f) (take n q) Hh) as Hfrom.
  rewrite Ei in Hfrom. cbn [fmap option_fmap option_map] in Hfrom.
  assert (Hst : (4 <= stop)%nat) by (unfold stop; lia).
  replace (length (head f) - 3 + idx)%nat with (stop - 4)%nat in Hfrom by (unfold stop; lia).
  pose proof (index_late _ _ _ Hh Hfrom) as Hlate.
  assert (Hbd : (stop <= length (head f ++ take n q))%nat).
  { pose proof (index_some _ _ Hfrom) as [Ho _]. apply occurs_bound in Ho. lia. }
  rewrite bytes_head by done.
  assert (Hwhole : index (head f ++ q) crlfcrlf = Some (stop - 4)%nat).
  { rewrite <- (take_drop n q) at 1. rewrite app_assoc. by apply index_stable. }
  rewrite Hwhole. replace (stop - 4 + 4)%nat with stop by lia.
  assert (Hn : Z.of_nat stop <= smax f).
  { rewrite length_app, length_take in Hbd. unfold n, len in *. lia. }
  replace (smax f <? Z.of_nat stop) with false by lia.
  assert (Htake : take stop (head f ++ take n q) = take stop (head f ++ q)).
  { rewrite <- (take_drop n q) at 2. by rewrite app_assoc, (take_app_le (head f ++ take n q)) by lia. }
  rewrite Htake. unfold after_head. pose proof (head_done_ok (smax f) (take stop (head f ++ q))) as Hpos.
  destruct (head_done _ _) as [bad body].
  destruct bad; try (unfold add_charge; cbn; f_equal; lia). specialize (Hpos eq_refl).
  assert (Hdl : (length (drop (stop - length (head f)) q) < length q)%nat) by (rewrite length_drop; lia).
  rewrite IH; cbn [smax].
  - f_equal. unfold mem_of. cbn [sstate left]. by destruct (body =? 0).
  - unfold mem_of. cbn [sstate left]. destruct (body =? 0) eqn:Eb; [done|]. cbn. lia.
  - done.
  - cbn [sstate]. destruct (bool_decide _); lia.
  - lia.
Qed.

Lemma loop_head fuel f b p charges : loop_ok fuel -> sstate f = sipHead -> 0 < smax f ->
  index (head f) crlfcrlf = None -> len (head f) < smax f ->
  (2 * length (b :: p) <= S fuel)%nat ->
  sip_view (sip_loop (S fuel) f (b :: p) charges) = add_charge charges (sip_bytes (smax f) (MHead (head f)) (b :: p)).
Proof.
  intros IH Es Hmax Hh Hlen Hf. cbn [sip_loop]. rewrite Es. cbv zeta. set (q := b :: p) in *.
  assert (Hq1 : (1 <= length q)%nat) by (cbn; lia).
  pose proof (loop_head_found fuel f q) as Hfound. cbv zeta in Hfound.
  pose proof (index_from (head f) (take (Z.to_nat (Z.min (len q) (smax f - Z.of_nat (length (head f))))) q) Hh) as Hfrom.
  set (n := Z.to_nat _) in *.
  assert (Hn : Z.of_nat n = Z.min (len q) (smax f - len (head f))) by (unfold n, len in *; lia).
  assert (Hlt : len (take n q) = Z.of_nat n) by (unfold len in *; rewrite length_take; lia).
  destruct (index (drop _ (head f ++ take n q)) crlfcrlf) as [idx|] eqn:Ei; [by apply Hfound|].
  cbn [fmap option_fmap option_map] in Hfrom. rewrite bytes_head by done.
  pose proof (index_late (head f ++ take n q) (drop n q)) as Hlate.
  rewrite <- app_assoc, take_drop in Hlate.
  destruct ((Z.of_nat n <? len q) || (smax f <=? len (head f ++ take n q))) eqn:Eo.
  - assert (Hfull : smax f <= len (head f ++ take n q)) by (rewrite len_app in *; lia).
    assert (Hall : smax f <= len (head f ++ q)) by (rewrite len_app in *; lia).
    destruct (index (head f ++ q) crlfcrlf) as [i|] eqn:Ew.
    + specialize (Hlate i Hfrom eq_refl). unfold len in Hfull.
      replace (smax f <? Z.of_nat (i + 4)) with true by lia. unfold add_charge. cbn. f_equal. lia.
    + replace (smax f <=? len (head f ++ q)) with true by lia. unfold add_charge. cbn. f_equal. lia.
  - assert (Hall : take n q = q) by (apply take_ge; unfold len in *; lia).
    rewrite Hall in *. rewrite Hfrom. replace (smax f <=? len (head f ++ q)) with false by lia.
    rewrite IH; cbn [smax]; [reflexivity|split; cbn [mem_of sstate head]; [done|lia]|done| |unfold q in Hf; cbn [length] in Hf; lia].
    cbn [sstate]. change (bool_decide (sipHead = sipIdle)) with false. cbv iota. cbn [length]. lia.
Qed.

(** The loop, with enough fuel, is the byte automaton. *)
Lemma sip_loop_bytes fuel : loop_ok fuel.
Proof.
  induction fuel as [|fuel IH]; intros f p charges Hok Hmax Hf Hf1; [lia|].
  change (fuel_of f p <= S fuel)%nat in Hf.
  destruct p as [|b p]; [cbn; unfold add_charge; cbn; f_equal; lia|].
  destruct (sstate f) eqn:Es; unfold mem_of in Hok |- *; rewrite Es in Hok |- *.
  - rewrite fuel_idle in Hf by done. apply loop_idle; [done..|lia].
  - rewrite fuel_other in Hf by (by rewrite Es). destruct Hok as [Hh Hlen]. by apply loop_head.
  - rewrite fuel_other in Hf by (by rewrite Es). by apply loop_body.
Qed.

(** ** Reads *)

(** A read of nothing but CRLFs between messages. *)
Definition keep_alive (m : sipMem) (p : gostring) : Z :=
  match m with
  | MIdle => if existsb (fun c => negb (is_crlf c)) p then 0 else 1
  | _ => 0
  end.

Lemma trim_left_all f p : trim_left f p = [] <-> existsb (fun c => negb (f c)) p = false.
Proof.
  induction p as [|x p IH]; [done|]. cbn. destruct (f x); cbn; [done|]. by split.
Qed.

(** One read: the messages begun, and one more token if it was a keep-alive. *)
Lemma sip_feed_bytes f p : mem_ok (smax f) (mem_of f) -> 0 < smax f ->
  sip_view (sip_feed f p) =
  let '(c, r) := sip_bytes (smax f) (mem_of f) p in
  (match r with inl _ => c + keep_alive (mem_of f) p | inr _ => c end, r).
Proof.
  intros Hok Hmax. unfold sip_feed. set (f0 := mkSip _ _ _ _ _).
  assert (Hm : mem_of f0 = mem_of f) by done.
  pose proof (sip_loop_bytes (sip_fuel p) f0 p 0) as L. rewrite Hm in L.
  cbn [smax f0] in L. specialize (L Hok Hmax).
  destruct (sip_loop (sip_fuel p) f0 p 0) as [[charges bad] f'].
  assert (L' : sip_view (charges, bad, f') = add_charge 0 (sip_bytes (smax f) (mem_of f) p)).
  { apply L; unfold sip_fuel; clear; [destruct (bool_decide _)|]; lia. }
  clear L. destruct (sip_bytes (smax f) (mem_of f) p) as [c r] eqn:Eb. unfold add_charge in L'. cbn in L'.
  injection L' as -> Hr. destruct bad; subst r; try done. cbn.
  f_equal. unfold keep_alive, mem_of. cbn [f0 sstate]. destruct (sstate f) eqn:Es; cbn -[Z.add].
  - change (bool_decide (sipIdle = sipIdle)) with true. cbn [negb orb]. case_if; lia.
  - change (bool_decide (sipHead = sipIdle)) with false. cbn [negb orb]. lia.
  - change (bool_decide (sipBody = sipIdle)) with false. cbn [negb orb]. lia.
Qed.

Lemma byte_ok_mem max m b : mem_ok max m -> 0 < max ->
  match (sip_byte max m b).2 with inl m' => mem_ok max m' | inr _ => True end.
Proof.
  intros Hm Hmax.
  assert (Hh : forall h, match head_byte max h b with inl m' => mem_ok max m' | inr _ => True end).
  { intros h. unfold head_byte. destruct (index (h ++ [b]) crlfcrlf) as [i|] eqn:E.
    - pose proof (head_done_ok max (h ++ [b])) as Hpos. destruct (head_done _ _) as [bad n].
      destruct bad; try done. specialize (Hpos eq_refl). destruct (n =? 0) eqn:En; [done|]. cbn. lia.
    - case_if; [done|]. cbn. split; [done|]. lia. }
  destruct m as [|h|n]; cbn [sip_byte].
  - case_if; [done|]. apply Hh.
  - apply Hh.
  - cbn in Hm |- *. destruct (n - 1 =? 0) eqn:E; [done|]. cbn. lia.
Qed.

Lemma bytes_ok_mem max p : forall m, mem_ok max m -> 0 < max ->
  match (sip_bytes max m p).2 with inl m' => mem_ok max m' | inr _ => True end.
Proof.
  induction p as [|b p IH]; intros m Hm Hmax; [done|]. cbn [sip_bytes].
  pose proof (byte_ok_mem max m b Hm Hmax) as Hb. destruct (sip_byte max m b) as [c [m'|bad]]; [|done].
  cbn [snd] in Hb. specialize (IH m' Hb Hmax). by destruct (sip_bytes max m' p) as [c' [m''|bad]].
Qed.

Lemma bytes_app max p q : forall m,
  sip_bytes max m (p ++ q) =
  let '(c, r) := sip_bytes max m p in
  match r with
  | inr bad => (c, inr bad)
  | inl m' => add_charge c (sip_bytes max m' q)
  end.
Proof.
  induction p as [|b p IH]; intros m; cbn [app sip_bytes].
  - by destruct (sip_bytes max m q) as [c r].
  - destruct (sip_byte max m b) as [c [m'|bad]]; [|done]. rewrite IH.
    destruct (sip_bytes max m' p) as [c' [m''|bad]]; [|done].
    destruct (sip_bytes max m'' q) as [c'' r]. unfold add_charge. cbn. f_equal. lia.
Qed.

(** Reading [chunks] one after the other, until a violation closes the
    connection: the tokens, and the memory or the violation. *)
Fixpoint sip_feeds (f : sipFramer) (chunks : list gostring) : Z * (sipMem + streamClose) :=
  match chunks with
  | [] => (0, inl (mem_of f))
  | p :: ps =>
      let '(c, bad, f') := sip_feed f p in
      match bad with
      | closeNone => add_charge c (sip_feeds f' ps)
      | _ => (c, inr bad)
      end
  end.

(** The keep-alive reads among [chunks]. *)
Fixpoint keep_alives (max : Z) (m : sipMem) (chunks : list gostring) : Z :=
  match chunks with
  | [] => 0
  | p :: ps => match (sip_bytes max m p).2 with
               | inl m' => keep_alive m p + keep_alives max m' ps
               | inr _ => 0
               end
  end.

Lemma sip_loop_smax fuel : forall f p c, smax (sip_loop fuel f p c).2 = smax f.
Proof.
  induction fuel as [|fuel IH]; intros f p c; [done|]. cbn [sip_loop]. destruct p as [|b p]; [done|].
  destruct (sstate f).
  - destruct (trim_left is_crlf (b :: p)); [done|]. by rewrite IH.
  - destruct (index _ crlfcrlf).
    + destruct (head_done _ _) as [bad body]. destruct bad; try done. by rewrite IH.
    + case_if; [done|]. by rewrite IH.
  - by rewrite IH.
Qed.

Lemma sip_feed_smax f p : smax (sip_feed f p).2 = smax f.
Proof.
  unfold sip_feed. set (f0 := mkSip _ _ _ _ _). pose proof (sip_loop_smax (sip_fuel p) f0 p 0) as L.
  destruct (sip_loop _ _ _ _) as [[c bad] f']. cbn in L. by destruct bad.
Qed.

(** Reads are the byte automaton on their concatenation. *)
Lemma sip_feeds_bytes chunks f :
  mem_ok (smax f) (mem_of f) -> 0 < smax f ->
  sip_feeds f chunks =
  (let '(c, r) := sip_bytes (smax f) (mem_of f) (concat chunks) in
   (c + keep_alives (smax f) (mem_of f) chunks, r)).
Proof.
  revert f. induction chunks as [|p ps IH]; intros f Hok Hmax; [done|]. cbn [sip_feeds concat keep_alives].
  pose proof (sip_feed_bytes f p Hok Hmax) as F. pose proof (sip_feed_smax f p) as Hs.
  pose proof (bytes_ok_mem (smax f) p (mem_of f) Hok Hmax) as Hm. rewrite bytes_app.
  destruct (sip_feed f p) as [[c bad] f']. cbn [snd] in Hs.
  destruct (sip_bytes (smax f) (mem_of f) p) as [c0 r0]. cbn [snd] in *. cbn in F.
  injection F as Hc Hr. destruct bad; subst r0; try (f_equal; lia).
  rewrite IH; rewrite ?Hs; [|done..].
  destruct (sip_bytes (smax f) (mem_of f') (concat ps)) as [c1 r1]. unfold add_charge. cbn. f_equal. lia.
Qed.

(** C31: framing does not depend on how TCP cuts the stream.  However the bytes
    of a connection are split into reads, the framer ends in the same place
    inside (or between) the same messages, closes for the same violation, and
    charges the same tokens, but for one per read that carried only
    keep-alive CRLFs. *)
Theorem framing_ignores_segmentation chunks chunks' f :
  mem_ok (smax f) (mem_of f) -> 0 < smax f -> concat chunks = concat chunks' ->
  (sip_feeds f chunks).2 = (sip_feeds f chunks').2 /\
  (sip_feeds f chunks).1 - keep_alives (smax f) (mem_of f) chunks =
  (sip_feeds f chunks').1 - keep_alives (smax f) (mem_of f) chunks'.
Proof.
  intros Hok Hmax Hc. rewrite !sip_feeds_bytes by done. rewrite Hc.
  destruct (sip_bytes _ _ _) as [c r]. cbn. split; [done|lia].
Qed.

Lemma framing_ignores_segmentation_witness :
  let m := str "MESSAGE sip:a SIP/2.0" ++ [13; 10] ++ str "l: 2" ++ [13; 10; 13; 10] ++ str "hi" in
  let f := mkSip 65535 sipIdle [] 0 false in
  let chunks := [take 5 m; drop 5 (take 27 m); drop 27 m ++ [13; 10; 77]] in
  (sip_feeds f chunks).2 = (sip_feeds f [m ++ [13; 10; 77]]).2 /\
  (sip_feeds f chunks).1 - 0 = (sip_feeds f [m ++ [13; 10; 77]]).1 - 0 /\
  sip_feeds f chunks = (2, inl (MHead [77])).
Proof.
  intros m f chunks. pose proof (framing_ignores_segmentation chunks [m ++ [13; 10; 77]] f) as H.
  destruct H as [H1 H2].
  - exact I.
  - reflexivity.
  - vm_compute. reflexivity.
  - split; [exact H1|]. split; [exact H2|]. vm_compute. reflexivity.
Defined.

(** pipelined messages are separated and each charged once.  A message
    whose header block [h] ends with its first empty line, fits the limit and
    announces the length of its body, costs one token and leaves the framer
    between messages at the first byte of what follows, whatever the reads. *)
Theorem message_is_framed max h body rest chunks :
  concat chunks = h ++ body ++ rest ->
  (exists c h', h = c :: h' /\ is_crlf c = false) ->
  index h crlfcrlf = Some (length h - 4)%nat -> (4 <= length h)%nat ->
  contentLength h = (len body, true) -> len h + len body <= max -> max <= max_int64 ->
  sip_feeds (mkSip max sipIdle [] 0 false) chunks =
  add_charge (1 + keep_alives max MIdle chunks) (sip_bytes max MIdle rest).
Proof.
  intros Hcc (c & h' & Hh & Hc) Hidx Hlen Hcl Hmax Hmm.
  pose proof (len_nonneg body). pose proof (len_nonneg h).
  assert (Hhl : len h = Z.of_nat (length h)) by done.
  assert (Hdone : head_done max h = (closeNone, len body)).
  { unfold head_done. rewrite Hcl. cbn [negb]. rewrite wrap_int64_id by (unfold min_int64, max_int64, two63 in *; lia).
    by replace (max <? len h + len body) with false by lia. }
  rewrite sip_feeds_bytes; [|done|cbn; lia]. unfold mem_of. cbn [smax sstate]. rewrite Hcc.
  enough (E : sip_bytes max MIdle (h ++ body ++ rest) = add_charge 1 (sip_bytes max MIdle rest)).
  { rewrite E. unfold add_charge. cbn. f_equal. lia. }
  rewrite bytes_idle. rewrite Hh at 1. cbn [app trim_left]. rewrite Hc.
  change (c :: h' ++ body ++ rest) with ((c :: h') ++ body ++ rest). rewrite <- Hh.
  rewrite bytes_head; [|done|rewrite len_nil; lia]. rewrite app_nil_l, (index_stable _ (body ++ rest) _ Hidx).
  replace (length h - 4 + 4)%nat with (length h) by lia.
  replace (max <? Z.of_nat (length h)) with false by lia. cbn [length]. rewrite Nat.sub_0_r.
  rewrite take_app_length, drop_app_length. unfold after_head. rewrite Hdone.
  destruct (len body =? 0) eqn:Eb.
  - destruct body as [|x body]; [|rewrite len_cons in Eb; pose proof (len_nonneg body); lia].
    cbn [app]. by destruct (sip_bytes max MIdle rest).
  - rewrite bytes_body by lia. cbv zeta. rewrite len_app. pose proof (len_nonneg rest).
    replace (Z.min (len body) (len body + len rest)) with (len body) by lia.
    rewrite Z.sub_diag. unfold len at 1. rewrite Nat2Z.id, drop_app_length. cbn [Z.eqb].
    by destruct (sip_bytes max MIdle rest).
Qed.

Lemma message_is_framed_witness :
  let h := str "MESSAGE sip:a SIP/2.0" ++ [13; 10] ++ str "Content-Length: 2" ++ [13; 10; 13; 10] in
  sip_feeds (mkSip 65535 sipIdle [] 0 false) [take 30 h; drop 30 h ++ str "hiX"] = (2, inl (MHead (str "X"))).
Proof.
  intros h. rewrite (message_is_framed 65535 h (str "hi") (str "X")).
  - vm_compute. reflexivity.
  - vm_compute. reflexivity.
  - eexists _, _. split; [reflexivity|]. vm_compute. reflexivity.
  - vm_compute. reflexivity.
  - vm_compute. repeat constructor.
  - vm_compute. reflexivity.
  - vm_compute. discriminate.
  - vm_compute. discriminate.
Defined.

(** the size check overflows.  [end + n] is computed in an int, so a
    Content-Length near the largest int64 wraps to a negative sum, passes the
    limit, and makes the framer take everything that follows for the body of
    that message, while a length whose sum does not wrap is refused. *)
Theorem huge_content_length_passes :
  let msg n := str "MESSAGE sip:a SIP/2.0" ++ [13; 10] ++ str "Content-Length: " ++ n ++ [13; 10; 13; 10] in
  sip_feeds (mkSip 65535 sipIdle [] 0 false) [msg (str "9223372036854775807")] = (1, inl (MBody 9223372036854775807)) /\
  sip_feeds (mkSip 65535 sipIdle [] 0 false) [msg (str "9223372036854775700")] = (1, inr closeOversize).
Proof. split; vm_compute; reflexivity. Qed.
