(* ===== verification/WsFramer.v ===== *)
(** internal/edge/stream.go, [wsFramer]: the WebSocket upgrade request and the
    frames (RFC 6455) of a ws or wss connection, and what they cost the shield.

    [ws_round] is one round of the loop of the code's [feed] and [ws_loop] the
    loop, with one unit of fuel for every byte, since each round consumes at
    least one. *)

From S2P Require Import Prelude GoText StreamFramer.

Open Scope Z_scope.

Definition streamUpgradeMax : Z := 8192.

Inductive wsState := wsHTTP | wsHead | wsPayload.

#[export] Instance wsState_eq_dec : EqDecision wsState.
Proof. solve_decision. Defined.

(** [whdr] holds the bytes of the code's [hdr] array that were written for the
    current frame, so its length is the code's [hn]. *)
Record wsFramer := mkWs {
  wmax : Z;
  wstate : wsState;
  wmatch : Z;
  wread : Z;
  whdr : gostring;
  wneed : Z;
  wleft : Z;
  wbegan : bool;
  wdata : bool
}.

Definition ws_partial (f : wsFramer) : bool :=
  match wstate f with
  | wsHTTP => 0 <? wread f
  | wsHead => 0 <? len (whdr f)
  | wsPayload => true
  end.

Definition ws_started (f : wsFramer) : bool * bool := (wbegan f && ws_partial f, wdata f).

(** Progress through the final CRLFCRLF of the upgrade request. *)
Definition next_match (m b : Z) : Z :=
  if (b =? 13) && ((m =? 0) || (m =? 2)) then m + 1
  else if (b =? 10) && ((m =? 1) || (m =? 3)) then m + 1
  else if b =? 13 then 1 else 0.

Definition ws_http (f : wsFramer) (b : Z) : wsFramer * streamClose :=
  let began := wbegan f || (wread f =? 0) in
  let read := wread f + 1 in
  let m := next_match (wmatch f) b in
  if m =? 4 then (mkWs (wmax f) wsHead m 0 [] 2 (wleft f) began (wdata f), closeNone)
  else (mkWs (wmax f) wsHTTP m read (whdr f) (wneed f) (wleft f) began (wdata f),
        if streamUpgradeMax <? read then closeMalformed else closeNone).

Definition hdr_byte (h : gostring) (i : nat) : Z := nth i h 0.

(** The size of a header whose first two bytes are [h]'s. *)
Definition header_need (h : gostring) : Z :=
  let l7 := Z.land (hdr_byte h 1) 127 in
  2 + (if l7 =? 126 then 2 else if l7 =? 127 then 8 else 0)
    + (if Z.land (hdr_byte h 1) 128 =? 0 then 0 else 4).

(** The payload length a complete header announces, in an int64. *)
Definition frame_len (h : gostring) : Z :=
  let n := Z.land (hdr_byte h 1) 127 in
  if n =? 126 then Z.lor (Z.shiftl (hdr_byte h 2) 8) (hdr_byte h 3)
  else if n =? 127 then
    fold_left (fun n b => Z.lor (wrap_int64 (Z.shiftl n 8)) b) (take 8 (drop 2 h)) 0
  else n.

Definition data_frame (h : gostring) : bool :=
  let op := Z.land (hdr_byte h 0) 15 in (op =? 1) || (op =? 2).

(** All of the header bytes known to be needed have arrived. *)
Definition ws_header (f : wsFramer) (h : gostring) (began : bool) : wsFramer * Z * streamClose :=
  let need := if wneed f =? 2 then header_need h else wneed f in
  if len h <? need then
    (mkWs (wmax f) wsHead (wmatch f) (wread f) h need (wleft f) began (wdata f), 0, closeNone)
  else
    let n := frame_len h in
    if (n <? 0) || (wmax f <? n) then
      (mkWs (wmax f) wsHead (wmatch f) (wread f) h need (wleft f) began (wdata f), 0, closeOversize)
    else
      (mkWs (wmax f) (if n =? 0 then wsHead else wsPayload) (wmatch f) (wread f) [] 2 n began
            (wdata f || data_frame h),
       if data_frame h then 0 else 1, closeNone).

(** One round of the loop, on data that is not empty: what is left of it. *)
Definition ws_round (f : wsFramer) (p : gostring) : wsFramer * gostring * Z * streamClose :=
  match wstate f with
  | wsHTTP =>
      match p with
      | [] => (f, [], 0, closeNone)
      | b :: p => let '(f, bad) := ws_http f b in (f, p, 0, bad)
      end
  | wsHead =>
      let began := wbegan f || (len (whdr f) =? 0) in
      let n := Z.to_nat (Z.min (wneed f - len (whdr f)) (len p)) in
      let h := whdr f ++ take n p in
      let p := drop n p in
      if len h <? wneed f then
        (mkWs (wmax f) wsHead (wmatch f) (wread f) h (wneed f) (wleft f) began (wdata f), p, 0, closeNone)
      else let '(f, c, bad) := ws_header f h began in (f, p, c, bad)
  | wsPayload =>
      let n := Z.min (wleft f) (len p) in
      let l := wleft f - n in
      (mkWs (wmax f) (if l =? 0 then wsHead else wsPayload) (wmatch f) (wread f) (whdr f) (wneed f) l
            (wbegan f) (wdata f), drop (Z.to_nat n) p, 0, closeNone)
  end.

Fixpoint ws_loop (fuel : nat) (f : wsFramer) (p : gostring) (charges : Z) : Z * streamClose * wsFramer :=
  match fuel with
  | O => (charges, closeNone, f)
  | S fuel' =>
      match p with
      | [] => (charges, closeNone, f)
      | _ =>
          let '(f, p, c, bad) := ws_round f p in
          match bad with
          | closeNone => ws_loop fuel' f p (charges + c)
          | _ => (charges + c, bad, f)
          end
      end
  end.

Definition ws_clear (f : wsFramer) : wsFramer :=
  mkWs (wmax f) (wstate f) (wmatch f) (wread f) (whdr f) (wneed f) (wleft f) false false.

Definition ws_feed (f : wsFramer) (p : gostring) : Z * streamClose * wsFramer :=
  ws_loop (length p) (ws_clear f) p 0.

(** The framer prepare gives a new connection. *)
Definition new_ws (max : Z) : wsFramer := mkWs max wsHTTP 0 0 [] 0 0 false false.

(** Reading [chunks] one after the other, until a violation. *)
Fixpoint ws_feeds (f : wsFramer) (chunks : list gostring) : Z * (wsFramer + streamClose) :=
  match chunks with
  | [] => (0, inl (ws_clear f))
  | p :: ps =>
      let '(c, bad, f) := ws_feed f p in
      match bad with
      | closeNone => let '(c', r) := ws_feeds f ps in (c + c', r)
      | _ => (c, inr bad)
      end
  end.

(** ** The loop, one byte at a time *)

(** The framer between two bytes: in a header the bytes it still needs are at
    least one, in a payload too. *)
Definition ws_ok (f : wsFramer) : Prop :=
  match wstate f with
  | wsHTTP => True
  | wsHead => len (whdr f) < wneed f /\ 2 <= wneed f
  | wsPayload => 0 < wleft f /\ whdr f = [] /\ wneed f = 2
  end.

Fixpoint ws_bytes (f : wsFramer) (p : gostring) : Z * (wsFramer + streamClose) :=
  match p with
  | [] => (0, inl (ws_clear f))
  | b :: p =>
      let '(f, _, c, bad) := ws_round f [b] in
      match bad with
      | closeNone => let '(c', r) := ws_bytes f p in (c + c', r)
      | _ => (c, inr bad)
      end
  end.

(** Only what [started] reports depends on the flags of the last read. *)
Definition same_core (f g : wsFramer) : Prop := ws_clear f = ws_clear g.

#[export] Instance same_core_equiv : Equivalence same_core.
Proof. unfold same_core. split; [by intros ?|by intros ???|]. intros ??? H1 H2. by etrans. Qed.

Definition core_view (r : wsFramer * gostring * Z * streamClose) : wsFramer * gostring * Z * streamClose :=
  let '(f, p, c, bad) := r in (ws_clear f, p, c, bad).

Lemma core_view_inj' f1 f2 p1 p2 c1 c2 b1 b2 :
  core_view (f1, p1, c1, b1) = core_view (f2, p2, c2, b2) -> same_core f1 f2 /\ p1 = p2 /\ c1 = c2 /\ b1 = b2.
Proof. unfold core_view, same_core. intros H. pose proof (f_equal (fun x => x.1.1.1) H) as H1. by simplify_eq H. Qed.

Lemma core_view_inj f1 f2 p1 p2 c1 c2 b1 b2 :
  core_view (f1, p1, c1, b1) = core_view (f2, p2, c2, b2) -> same_core f1 f2 /\ c1 = c2 /\ b1 = b2.
Proof. intros H. by apply core_view_inj' in H as (? & _ & ? & ?). Qed.

(** What a header decides depends on the limit and what was known of it. *)
Lemma ws_header_core f g h b b' :
  wmax f = wmax g -> wmatch f = wmatch g -> wread f = wread g -> wneed f = wneed g -> wleft f = wleft g ->
  core_view (let '(f, c, bad) := ws_header f h b in (f, [], c, bad)) =
  core_view (let '(f, c, bad) := ws_header g h b' in (f, [], c, bad)).
Proof.
  destruct f, g. cbn. intros -> -> -> -> ->. unfold ws_header. cbn.
  case_if; [by cbn|]. case_if; by cbn.
Qed.

Lemma ws_round_core f g p : same_core f g -> core_view (ws_round f p) = core_view (ws_round g p).
Proof.
  intros H. pose proof H as H'. unfold same_core, ws_clear in H.
  destruct f as [mx st m rd hd nd lf bg dt], g as [mx' st' m' rd' hd' nd' lf' bg' dt']. cbn in H.
  injection H as -> -> -> -> -> -> ->. unfold ws_round. cbn [wstate].
  destruct st'.
  - destruct p as [|b p]; [by cbn|]. unfold ws_http. cbn. by case_if.
  - cbn [whdr wneed wbegan]. cbv zeta. case_if; [by cbn|].
    pose proof (ws_header_core (mkWs mx' wsHead m' rd' hd' nd' lf' bg dt) (mkWs mx' wsHead m' rd' hd' nd' lf' bg' dt')
                  (hd' ++ take (Z.to_nat (Z.min (nd' - len hd') (len p))) p)
                  (bg || (len hd' =? 0)) (bg' || (len hd' =? 0)) eq_refl eq_refl eq_refl eq_refl eq_refl) as E.
    cbn [whdr wneed wbegan wmax wmatch wread wleft wdata] in *.
    destruct (ws_header _ _ (bg || _)) as [[f1 c1] b1], (ws_header _ _ (bg' || _)) as [[f2 c2] b2].
    apply core_view_inj in E as (E & -> & ->). cbn [core_view]. by rewrite E.
  - by cbn.
Qed.

Lemma ws_bytes_core p : forall f g, same_core f g -> ws_bytes f p = ws_bytes g p.
Proof.
  induction p as [|b p IH]; intros f g H; cbn [ws_bytes]; [by do 2 f_equal|].
  pose proof (ws_round_core f g [b] H) as E.
  destruct (ws_round f [b]) as [[[f1 p1] c1] b1], (ws_round g [b]) as [[[f2 p2] c2] b2].
  apply core_view_inj' in E as (E & _ & -> & ->). by rewrite (IH f1 f2).
Qed.

Lemma ws_header_ok f h b : len h = wneed f -> 2 <= wneed f ->
  let '(f', _, bad) := ws_header f h b in bad = closeNone -> ws_ok f'.
Proof.
  intros Hh Hn. unfold ws_header. case_if; [|case_if]; [intros _|done|intros _]; cbn.
  - split; [lia|]. assert (wneed f =? 2 = true -> 2 <= header_need h); [|lia].
    unfold header_need. intros _. repeat case_if; lia.
  - destruct (frame_len h =? 0) eqn:E; cbn; [change (len []) with 0; lia|]. split; [lia|done].
Qed.

(** The header bytes up to the last one needed are only stored. *)
Lemma ws_head_bytes p : forall f, wstate f = wsHead -> len (whdr f) < wneed f ->
  ws_bytes f p =
  if len (whdr f) + len p <? wneed f then
    (0, inl (mkWs (wmax f) wsHead (wmatch f) (wread f) (whdr f ++ p) (wneed f) (wleft f) false false))
  else
    let n := Z.to_nat (wneed f - len (whdr f)) in
    let '(f', c, bad) := ws_header f (whdr f ++ take n p) false in
    match bad with
    | closeNone => let '(c', r) := ws_bytes f' (drop n p) in (c + c', r)
    | _ => (c, inr bad)
    end.
Proof.
  induction p as [|b p IH]; intros f Es Hl.
  - cbn [ws_bytes]. change (len (@nil Z)) with 0. replace (len (whdr f) + 0 <? wneed f) with true by lia.
    rewrite (app_nil_r (whdr f)). unfold ws_clear. by rewrite Es.
  - cbn [ws_bytes]. unfold ws_round. rewrite Es. cbv zeta. rewrite (len_cons b p).
    replace (Z.to_nat (Z.min (wneed f - len (whdr f)) (len [b]))) with 1%nat
      by (change (len [b]) with 1; lia).
    cbn [take drop]. rewrite len_app. change (len [b]) with 1.
    destruct (len (whdr f) + 1 <? wneed f) eqn:E1.
    + rewrite IH; cbn [whdr wneed wstate wmax wmatch wread wleft]; [|done|rewrite len_app; change (len [b]) with 1; lia].
      rewrite len_app. change (len [b]) with 1. rewrite <- !app_assoc, <- !Z.add_assoc. cbn [app].
      destruct (len (whdr f) + (1 + len p) <? wneed f); [done|].
      replace (Z.to_nat (wneed f - len (whdr f))) with (S (Z.to_nat (wneed f - (len (whdr f) + 1)))) by lia.
      cbn [take drop].
      set (h := whdr f ++ b :: take _ _). set (g := mkWs _ _ _ _ _ _ _ _ _).
      pose proof (ws_header_core g f h false false eq_refl eq_refl eq_refl eq_refl eq_refl) as E.
      destruct (ws_header g h false) as [[f1 c1] b1], (ws_header f h false) as [[f2 c2] b2].
      apply core_view_inj in E as (E & -> & ->). destruct b2; try done.
      rewrite (ws_bytes_core _ f1 f2 E). by destruct (ws_bytes f2 _).
    + replace (len (whdr f) + (1 + len p) <? wneed f) with false by (pose proof (len_nonneg p); lia).
      replace (Z.to_nat (wneed f - len (whdr f))) with 1%nat by lia. cbn [take drop]. rewrite drop_0.
      pose proof (ws_header_core f f (whdr f ++ [b]) (wbegan f || (len (whdr f) =? 0)) false
                    eq_refl eq_refl eq_refl eq_refl eq_refl) as E.
      destruct (ws_header f _ (wbegan f || _)) as [[f1 c1] b1], (ws_header f _ false) as [[f2 c2] b2].
      apply core_view_inj in E as (E & -> & ->). by rewrite (ws_bytes_core p f1 f2).
Qed.

Lemma ws_payload_bytes p : forall f, wstate f = wsPayload -> 0 < wleft f ->
  ws_bytes f p =
  let n := Z.min (wleft f) (len p) in
  let l := wleft f - n in
  ws_bytes (mkWs (wmax f) (if l =? 0 then wsHead else wsPayload) (wmatch f) (wread f) (whdr f) (wneed f) l
              (wbegan f) (wdata f)) (drop (Z.to_nat n) p).
Proof.
  induction p as [|b p IH]; intros f Es Hl; cbv zeta.
  - change (len (@nil Z)) with 0. replace (Z.min (wleft f) 0) with 0 by lia. rewrite Z.sub_0_r.
    replace (wleft f =? 0) with false by lia. destruct f. cbn in *. by subst.
  - rewrite (len_cons b p). pose proof (len_nonneg p). cbn [ws_bytes]. unfold ws_round. rewrite Es. cbv zeta.
    change (len [b]) with 1. replace (Z.min (wleft f) 1) with 1 by lia.
    destruct (wleft f - 1 =? 0) eqn:E.
    + replace (Z.min (wleft f) (1 + len p)) with 1 by lia. rewrite E. change (Z.to_nat 1) with 1%nat. cbn [drop].
      rewrite ?drop_0. by destruct (ws_bytes _ p).
    + rewrite IH by (done || cbn; lia). cbn [wleft wmax wmatch wread whdr wneed wbegan wdata]. cbv zeta.
      replace (Z.min (wleft f) (1 + len p)) with (1 + Z.min (wleft f - 1) (len p)) by lia.
      replace (wleft f - 1 - Z.min (wleft f - 1) (len p)) with (wleft f - (1 + Z.min (wleft f - 1) (len p))) by lia.
      replace (Z.to_nat (1 + Z.min (wleft f - 1) (len p))) with (S (Z.to_nat (Z.min (wleft f - 1) (len p)))) by lia.
      cbn [drop]. by destruct (ws_bytes _ (drop _ p)).
Qed.

(** One round of the loop is the automaton on the bytes the round consumes. *)
Lemma ws_round_bytes f b p : ws_ok f ->
  let '(f', p', c, bad) := ws_round f (b :: p) in
  ws_bytes f (b :: p) =
    match bad with
    | closeNone => let '(c', r) := ws_bytes f' p' in (c + c', r)
    | _ => (c, inr bad)
    end /\
  (bad = closeNone -> ws_ok f') /\ (length p' <= length p)%nat.
Proof.
  intros Hok. unfold ws_ok in Hok. destruct (wstate f) eqn:Es.
  - cbn [ws_bytes]. unfold ws_round. rewrite Es. destruct (ws_http f b) as [f' bad] eqn:E.
    split; [done|]. split; [|lia]. unfold ws_http in E. case_if_in E; injection E as <- <-; intros _; cbn; [|done].
    change (len []) with 0. lia.
  - destruct Hok as [Hl Hn]. rewrite ws_head_bytes by done. unfold ws_round. rewrite Es. cbv zeta.
    set (q := b :: p). assert (Hq : len q = 1 + len p) by (unfold q; by rewrite len_cons). pose proof (len_nonneg p).
    set (n := Z.to_nat (Z.min (wneed f - len (whdr f)) (len q))).
    rewrite len_app, len_take.
    destruct (len (whdr f) + len q <? wneed f) eqn:E1.
    + replace (Z.min (Z.of_nat n) (len q)) with (len q) by lia. rewrite E1.
      rewrite take_ge, drop_ge by (unfold n, len in *; lia). split; [done|]. split; [|cbn; lia].
      intros _. cbn. rewrite len_app. lia.
    + replace (Z.to_nat (wneed f - len (whdr f))) with n by lia.
      replace (len (whdr f) + Z.min (Z.of_nat n) (len q) <? wneed f) with false by lia.
      pose proof (ws_header_core f f (whdr f ++ take n q) (wbegan f || (len (whdr f) =? 0)) false
                    eq_refl eq_refl eq_refl eq_refl eq_refl) as E.
      pose proof (ws_header_ok f (whdr f ++ take n q) (wbegan f || (len (whdr f) =? 0))) as Ho.
      destruct (ws_header f _ (wbegan f || _)) as [[f1 c1] b1], (ws_header f _ false) as [[f2 c2] b2].
      apply core_view_inj in E as (E & -> & ->). rewrite (ws_bytes_core _ f1 f2 E). split; [done|].
      split; [apply Ho; [rewrite len_app, len_take; lia|done]|].
      rewrite length_drop. unfold q. cbn [length]. lia.
  - destruct Hok as (Hok & Hh & Hn). rewrite ws_payload_bytes by done. unfold ws_round. rewrite Es. cbv zeta. rewrite len_cons.
    pose proof (len_nonneg p). split; [by destruct (ws_bytes _ _)|]. split; [|rewrite length_drop; cbn [length]; lia].
    intros _. cbn. rewrite Hh, Hn.
    destruct (wleft f - Z.min (wleft f) (1 + len p) =? 0) eqn:E; cbn; [done|]. split; [lia|done].
Qed.

Definition ws_view (r : Z * streamClose * wsFramer) : Z * (wsFramer + streamClose) :=
  let '(c, bad, f) := r in (c, match bad with closeNone => inl (ws_clear f) | _ => inr bad end).

Lemma ws_loop_bytes fuel : forall f p c, ws_ok f -> (length p <= fuel)%nat ->
  ws_view (ws_loop fuel f p c) = (let '(c', r) := ws_bytes f p in (c + c', r)) /\
  ((ws_loop fuel f p c).1.2 = closeNone -> ws_ok (ws_loop fuel f p c).2).
Proof.
  induction fuel as [|fuel IH]; intros f p c Hok Hf.
  - destruct p; [|cbn in Hf; lia]. cbn. split; [|done]. f_equal. lia.
  - destruct p as [|b p]; [cbn; split; [|done]; f_equal; lia|].
    pose proof (ws_round_bytes f b p Hok) as R. cbn [ws_loop].
    destruct (ws_round f (b :: p)) as [[[f' p'] c'] bad]. destruct R as (-> & Ho & Hp). cbn [length] in Hf.
    destruct bad; try (split; [done|intros [=]]).
    destruct (IH f' p' (c + c') (Ho eq_refl) ltac:(lia)) as [E1 E2]. rewrite E1. split; [|done].
    destruct (ws_bytes f' p') as [c2 r]. f_equal. lia.
Qed.

Lemma ws_bytes_app p q : forall f,
  ws_bytes f (p ++ q) =
  let '(c, r) := ws_bytes f p in
  match r with
  | inr bad => (c, inr bad)
  | inl f' => let '(c', r') := ws_bytes f' q in (c + c', r')
  end.
Proof.
  induction p as [|b p IH]; intros f; cbn [app ws_bytes].
  - rewrite (ws_bytes_core q f (ws_clear f) eq_refl). by destruct (ws_bytes _ q).
  - destruct (ws_round f [b]) as [[[f' p'] c'] bad]. destruct bad; try done. rewrite IH.
    destruct (ws_bytes f' p) as [c1 [f1|bad]]; [|done]. destruct (ws_bytes f1 q). f_equal. lia.
Qed.

Lemma ws_clear_ok f : ws_ok f <-> ws_ok (ws_clear f).
Proof. done. Qed.

(** Reads are the automaton on their concatenation. *)
Lemma ws_feeds_bytes chunks : forall f, ws_ok f -> ws_feeds f chunks = ws_bytes f (concat chunks).
Proof.
  induction chunks as [|p ps IH]; intros f Hok; [done|]. cbn [ws_feeds concat]. rewrite ws_bytes_app.
  unfold ws_feed. pose proof (ws_loop_bytes (length p) (ws_clear f) p 0 Hok ltac:(lia)) as [E1 E2].
  rewrite (ws_bytes_core p (ws_clear f) f eq_refl) in E1.
  destruct (ws_loop _ _ _ _) as [[c bad] f']. destruct (ws_bytes f p) as [c' r']. cbn in E1, E2.
  destruct bad; simplify_eq; try done. rewrite IH by (by apply E2).
  by rewrite (ws_bytes_core _ f' (ws_clear f') eq_refl).
Qed.

(** WebSocket framing does not depend on how TCP cuts the stream.  However
    the bytes of a connection are split into reads, the framer ends in the same
    place, closes for the same violation and charges the same tokens. *)
Theorem ws_framing_ignores_segmentation f chunks chunks' :
  ws_ok f -> concat chunks = concat chunks' -> ws_feeds f chunks = ws_feeds f chunks'.
Proof. intros Hok H. rewrite !ws_feeds_bytes by done. by rewrite H. Qed.

Lemma ws_framing_ignores_segmentation_witness :
  let up := str "GET / HTTP/1.1" ++ crlfcrlf in
  let bytes := up ++ [129; 133; 1; 2; 3; 4; 72; 101; 108; 108; 111; 137; 0] in
  ws_feeds (new_ws 65535) [bytes] = ws_feeds (new_ws 65535) [take 3 bytes; drop 3 (take 20 bytes); drop 20 bytes] /\
  (ws_feeds (new_ws 65535) [bytes]).1 = 1.
Proof.
  intros up bytes. split.
  - apply (ws_framing_ignores_segmentation (new_ws 65535) [bytes] [take 3 bytes; drop 3 (take 20 bytes); drop 20 bytes]).
    + exact I.
    + vm_compute. reflexivity.
  - vm_compute. reflexivity.
Defined.

(** ** What a client's stream costs *)

(** A client frame of RFC 6455: its first byte (FIN, the reserved bits and the
    opcode), the mask key if it is masked, and its payload as sent. *)
Record frame := mkFrame { f_first : Z; f_mask : option gostring; f_payload : gostring }.

Definition frame_ok (max : Z) (fr : frame) : Prop :=
  match f_mask fr with Some key => length key = 4%nat | None => True end /\ len (f_payload fr) <= max.

Definition len7 (n : Z) : Z := if n <? 126 then n else if n <? 65536 then 126 else 127.

Definition frame_header (fr : frame) : gostring :=
  let n := len (f_payload fr) in
  let l7 := len7 n in
  f_first fr :: (l7 + match f_mask fr with Some _ => 128 | None => 0 end) ::
  (if l7 =? 126 then be 2 n else if l7 =? 127 then be 8 n else []) ++
  match f_mask fr with Some key => key | None => [] end.

Definition frame_bytes (fr : frame) : gostring := frame_header fr ++ f_payload fr.

(** A continuation or control frame. *)
Definition charged (fr : frame) : bool := negb (data_frame [f_first fr]).

Lemma len7_range n : 0 <= n -> 0 <= len7 n < 128.
Proof. unfold len7. intros H. repeat case_if; lia. Qed.

Lemma land_len7 l : 0 <= l < 128 ->
  Z.land l 127 = l /\ Z.land (l + 128) 127 = l /\ Z.land l 128 = 0 /\ Z.land (l + 128) 128 = 128.
Proof.
  intros H.
  assert (A : forallb (fun l => (Z.land l 127 =? l) && (Z.land (l + 128) 127 =? l) &&
                                (Z.land l 128 =? 0) && (Z.land (l + 128) 128 =? 128))
                (map Z.of_nat (seq 0 128)) = true) by (vm_compute; reflexivity).
  rewrite forallb_forall in A. specialize (A l). rewrite !andb_true_iff, !Z.eqb_eq in A.
  destruct A as [[[A1 A2] A3] A4]; [|done]. apply in_map_iff. exists (Z.to_nat l). split; [lia|].
  apply in_seq. lia.
Qed.

Lemma lor_byte n b : 0 <= b < 256 -> Z.lor (Z.shiftl n 8) b = 256 * n + b.
Proof.
  intros Hb. assert (Hl : Z.land (Z.shiftl n 8) b = 0).
  { apply Z.bits_inj'. intros i Hi. rewrite Z.land_spec, Z.bits_0.
    destruct (decide (i < 8)) as [Hs|Hs]; [by rewrite Z.shiftl_spec_low|].
    replace b with (b mod 2 ^ 8) by (by apply Z.mod_small). rewrite Z.mod_pow2_bits_high by lia. by destruct (Z.testbit _ _). }
  rewrite <- Z.lxor_lor by done. rewrite <- Z.add_nocarry_lxor by done. rewrite Z.shiftl_mul_pow2 by lia.
  change (2 ^ 8) with 256. lia.
Qed.

(** The eight-byte length is read back without overflow. *)
Lemma fold_length n z : 0 <= z <= max_int64 ->
  fold_left (fun n b => Z.lor (wrap_int64 (Z.shiftl n 8)) b) (be n z) (z / 256 ^ Z.of_nat n) = z.
Proof.
  intros Hz. induction n as [|n IH]; cbn [be fold_left].
  - change (256 ^ Z.of_nat 0) with 1. apply Z.div_1_r.
  - set (a := z / 256 ^ Z.of_nat n) in *.
    assert (Ha : z / 256 ^ Z.of_nat (S n) = a / 256).
    { rewrite Nat2Z.inj_succ, Z.pow_succ_r, Z.mul_comm by lia. unfold a. rewrite Z.div_div by lia. done. }
    assert (Hpos : 0 <= a <= z).
    { unfold a. split; [apply Z.div_pos; lia|]. apply Z.div_le_upper_bound; [lia|]. assert (0 < 256 ^ Z.of_nat n) by lia. nia. }
    rewrite Ha. pose proof (Z.div_mod a 256 ltac:(lia)). pose proof (Z.mod_pos_bound a 256 ltac:(lia)).
    rewrite wrap_int64_id.
    + rewrite lor_byte by lia. replace (256 * (a / 256) + a mod 256) with a by lia. exact IH.
    + rewrite Z.shiftl_mul_pow2 by lia. change (2 ^ 8) with 256. unfold min_int64, max_int64, two63 in *. lia.
Qed.

Lemma frame_header_read fr : frame_ok max_int64 fr ->
  let h := frame_header fr in
  header_need h = len h /\ frame_len h = len (f_payload fr) /\ data_frame h = negb (charged fr) /\
  2 <= len h.
Proof.
  intros [Hm Hl]. cbv zeta. pose proof (len_nonneg (f_payload fr)) as Hn.
  pose proof (len7_range _ Hn) as H7. destruct (land_len7 _ H7) as (L1 & L2 & L3 & L4).
  unfold header_need, frame_len, frame_header. cbn [hdr_byte nth].
  assert (E1 : Z.land (len7 (len (f_payload fr)) + match f_mask fr with Some _ => 128 | None => 0 end) 127
               = len7 (len (f_payload fr))) by (destruct (f_mask fr); [done|by rewrite Z.add_0_r]).
  assert (E2 : (Z.land (len7 (len (f_payload fr)) + match f_mask fr with Some _ => 128 | None => 0 end) 128 =? 0)
               = match f_mask fr with Some _ => false | None => true end)
    by (destruct (f_mask fr); [by rewrite L4|by rewrite Z.add_0_r, L3]).
  rewrite E1, E2, !len_cons, len_app.
  assert (Ek : len (match f_mask fr with Some key => key | None => [] end) = match f_mask fr with Some _ => 4 | None => 0 end).
  { destruct (f_mask fr); [unfold len; by rewrite Hm|done]. }
  rewrite Ek. set (mk := match f_mask fr with Some key => key | None => [] end).
  split; [|split; [|split; [unfold charged; by rewrite negb_involutive|]]].
  - destruct (f_mask fr), (len7 (len (f_payload fr)) =? 126), (len7 (len (f_payload fr)) =? 127);
      unfold len; cbn [length]; rewrite ?be_length; lia.
  - unfold len7 in *. destruct (len (f_payload fr) <? 126) eqn:C1; [|destruct (len (f_payload fr) <? 65536) eqn:C2].
    + replace (len (f_payload fr) =? 126) with false by lia. by replace (len (f_payload fr) =? 127) with false by lia.
    + cbn [Z.eqb Pos.eqb be app hdr_byte nth]. rewrite lor_byte by (apply Z.mod_pos_bound; lia).
      change (256 ^ Z.of_nat 1) with 256. change (256 ^ Z.of_nat 0) with 1. rewrite Z.div_1_r.
      rewrite (Z.mod_small (_ / 256)) by (split; [apply Z.div_pos; lia|apply Z.div_lt_upper_bound; lia]).
      pose proof (Z.div_mod (len (f_payload fr)) 256). lia.
    + change (127 =? 126) with false. change (127 =? 127) with true. cbv iota. cbn [drop].
      rewrite drop_0, take_app_length' by (by rewrite be_length).
      etrans; [|apply (fold_length 8 (len (f_payload fr))); lia]. f_equal. rewrite Z.div_small; [done|].
      change (256 ^ Z.of_nat 8) with 18446744073709551616. unfold max_int64, two63 in *. lia.
  - destruct (f_mask fr); pose proof (len_nonneg (if len7 (len (f_payload fr)) =? 126 then be 2 (len (f_payload fr)) else
      if len7 (len (f_payload fr)) =? 127 then be 8 (len (f_payload fr)) else [])); lia.
Qed.

(** The framer between two frames. *)
Definition between (max : Z) : wsFramer := mkWs max wsHead 4 0 [] 2 0 false false.

Lemma ws_bytes_payload max n p rest : 0 < n -> len p = n ->
  ws_bytes (mkWs max wsPayload 4 0 [] 2 n false false) (p ++ rest) = ws_bytes (between max) rest.
Proof.
  intros Hn Hp. rewrite ws_payload_bytes by done. cbn [wleft wmax wmatch wread whdr wneed wbegan wdata]. cbv zeta.
  rewrite len_app, Hp. pose proof (len_nonneg rest). rewrite Z.min_l, Z.sub_diag by lia. cbn [Z.eqb].
  by rewrite drop_app_length' by (unfold len in Hp; lia).
Qed.

(** A complete header, its payload, and what follows. *)
Lemma header_final max f h p rest :
  wmax f = max -> wmatch f = 4 -> wread f = 0 ->
  (if wneed f =? 2 then header_need h else wneed f) = len h -> frame_len h = len p -> len p <= max ->
  (let '(f', c, bad) := ws_header f h false in
   match bad with
   | closeNone => let '(c', r) := ws_bytes f' (p ++ rest) in (c + c', r)
   | _ => (c, inr bad)
   end) =
  let '(c, r) := ws_bytes (between max) rest in ((if data_frame h then 0 else 1) + c, r).
Proof.
  intros Hm Hma Hr Hneed Hfl Hp. pose proof (len_nonneg p). unfold ws_header. rewrite Hneed, Hfl, Hm, Hma, Hr.
  rewrite Z.ltb_irrefl. replace ((len p <? 0) || (max <? len p)) with false by lia.
  destruct (len p =? 0) eqn:E.
  - destruct p as [|x p]; [|rewrite len_cons in E; pose proof (len_nonneg p); lia]. cbn [app].
    set (g := mkWs _ _ _ _ _ _ _ _ _). assert (E' : ws_bytes g rest = ws_bytes (between max) rest) by by apply ws_bytes_core.
    by rewrite E'.
  - set (g := mkWs _ _ _ _ _ _ _ _ _).
    assert (E' : ws_bytes g (p ++ rest) = ws_bytes (between max) rest).
    { etrans; [|apply (ws_bytes_payload max (len p) p rest); lia]. by apply ws_bytes_core. }
    by rewrite E'.
Qed.

Lemma ws_bytes_frame max fr rest : max <= max_int64 -> frame_ok max fr ->
  ws_bytes (between max) (frame_bytes fr ++ rest) =
  let '(c, r) := ws_bytes (between max) rest in ((if charged fr then 1 else 0) + c, r).
Proof.
  intros Hmax [Hm Hl].
  destruct (frame_header_read fr) as (R1 & R2 & R3 & R4); [split; [done|lia]|].
  assert (Hc : (if charged fr then 1 else 0) = if data_frame (frame_header fr) then 0 else 1).
  { rewrite R3. by destruct (charged fr). }
  rewrite Hc. unfold frame_bytes. rewrite <- app_assoc.
  destruct (frame_header fr) as [|b0 [|b1 ext]]; [by change (2 <= 0) in R4; lia|by change (2 <= 1) in R4; lia|].
  assert (Hn2 : header_need [b0; b1] = 2 + len ext) by (change (header_need [b0; b1]) with (header_need (b0 :: b1 :: ext)); rewrite R1, !len_cons; lia).
  pose proof (len_nonneg ext) as Hext. pose proof (len_nonneg (f_payload fr ++ rest)) as Hq.
  rewrite ws_head_bytes; [|done..]. cbn [between whdr wneed]. change (len (@nil Z)) with 0.
  cbn [app]. rewrite !len_cons, len_app.
  replace (0 + (1 + (1 + (len ext + len (f_payload fr ++ rest)))) <? 2) with false by lia.
  change (Z.to_nat (2 - 0)) with 2%nat. cbn [take drop app]. cbv zeta. rewrite take_0, drop_0.
  destruct ext as [|x ext].
  { cbn [app]. by apply header_final. }
  unfold ws_header at 1. cbn [between wneed]. change (2 =? 2) with true. cbv iota. rewrite Hn2.
  change (len [b0; b1]) with 2. rewrite len_cons in Hn2, Hext |- *. pose proof (len_nonneg ext).
  replace (2 <? 2 + (1 + len ext)) with true by lia.
  cbn [wmax wmatch wread wleft wdata]. rewrite ws_head_bytes; [|done|cbn [whdr wneed]; change (len [b0; b1]) with 2; lia].
  cbn [whdr wneed]. change (len [b0; b1]) with 2. rewrite len_app, len_cons.
  replace (2 + (1 + len ext + len (f_payload fr ++ rest)) <? 2 + (1 + len ext)) with false by lia.
  cbv zeta. rewrite take_app_length', drop_app_length' by (unfold len; cbn [length]; lia).
  rewrite (header_final max); try done; [by destruct (ws_bytes _ rest)|]. cbn [wneed].
  replace (2 + (1 + len ext) =? 2) with false by lia. unfold len. cbn [length app]. lia.
Qed.

(** The progress [m] stands for the first [m] bytes of the empty line: with one
    more byte either it is complete, or the search goes on from the new
    progress. *)
Ltac search_step :=
  repeat match goal with
  | |- context [take (Z.to_nat ?z) crlfcrlf] =>
      let v := eval vm_compute in (take (Z.to_nat z) crlfcrlf) in change (take (Z.to_nat z) crlfcrlf) with v
  end;
  unfold crlfcrlf; cbn -[Z.eqb];
  change (13 =? 13) with true; change (10 =? 10) with true; change (10 =? 13) with false; change (13 =? 10) with false; cbn -[Z.eqb].

Lemma next_match_index m b p : 0 <= m < 4 ->
  let s := take (Z.to_nat m) crlfcrlf ++ b :: p in
  let m' := next_match m b in
  (m' = 4 /\ m = 3 /\ index s crlfcrlf = Some 0%nat) \/
  (0 <= m' < 4 /\ exists k,
     index s crlfcrlf = Nat.add k <$> index (take (Z.to_nat m') crlfcrlf ++ p) crlfcrlf /\
     (k + Z.to_nat m' = S (Z.to_nat m))%nat).
Proof.
  intros Hm. assert (Hc : m = 0 \/ m = 1 \/ m = 2 \/ m = 3) by lia.
  destruct (decide (b = 13)) as [->|N1]; [|destruct (decide (b = 10)) as [->|N2]].
  - destruct Hc as [-> | [-> | [-> | ->]]]; right; (split; [vm_compute; done|]);
      [exists 0%nat|exists 1%nat|exists 0%nat|exists 3%nat]; (split; [|done]); search_step; repeat case_if; by try destruct (index p _).
  - destruct Hc as [-> | [-> | [-> | ->]]]; [right|right|right|left];
      [split; [vm_compute; done|exists 1%nat]|split; [vm_compute; done|exists 0%nat]|split; [vm_compute; done|exists 3%nat]|by split];
      (split; [|done]); search_step; repeat case_if; by try destruct (index p _).
  - assert (E1 : (13 =? b) = false) by lia. assert (E2 : (10 =? b) = false) by lia.
    assert (En : next_match m b = 0) by (unfold next_match; repeat case_if; lia). cbv zeta. rewrite En.
    right. split; [lia|]. exists (S (Z.to_nat m)).
    destruct Hc as [-> | [-> | [-> | ->]]]; (split; [|done]); search_step;
      rewrite ?E1, ?E2; cbn -[Z.eqb]; repeat case_if; by try destruct (index p _).
Qed.

(** The end of the upgrade request is the first empty line. *)
Lemma ws_bytes_upgrade max rest p : forall m read,
  0 <= m < 4 -> index (take (Z.to_nat m) crlfcrlf ++ p) crlfcrlf = Some (Z.to_nat m + length p - 4)%nat ->
  (4 <= Z.to_nat m + length p)%nat -> read + len p <= streamUpgradeMax + 1 ->
  ws_bytes (mkWs max wsHTTP m read [] 0 0 false false) (p ++ rest) = ws_bytes (between max) rest.
Proof.
  induction p as [|b p IH]; intros m read Hm Hi Hl Hr.
  { exfalso. cbn [length] in Hl. lia. }
  rewrite len_cons in Hr. pose proof (len_nonneg p) as Hp. cbn [app ws_bytes]. unfold ws_round. cbn [wstate].
  unfold ws_http. cbn [wmatch wread wbegan wdata wmax wleft whdr wneed].
  destruct (next_match_index m b p Hm) as [(E4 & -> & E0)|(Em & k & E0 & Ek)].
  - rewrite E4. cbn [Z.eqb Pos.eqb]. rewrite E0 in Hi. injection Hi as Hi.
    destruct p as [|x p]; [|cbn [length] in *; lia]. cbn [app].
    set (g := mkWs _ _ _ _ _ _ _ _ _). assert (E' : ws_bytes g rest = ws_bytes (between max) rest) by by apply ws_bytes_core.
    rewrite E'. by destruct (ws_bytes _ rest).
  - replace (next_match m b =? 4) with false by lia. rewrite E0 in Hi. cbn [length] in *.
    destruct (index (take (Z.to_nat (next_match m b)) crlfcrlf ++ p) crlfcrlf) as [i|] eqn:Ei; [|done].
    cbn [fmap option_fmap option_map] in Hi. injection Hi as Hi.
    pose proof (index_some _ _ Ei) as [Ho _]. apply occurs_bound in Ho. rewrite length_app, length_take in Ho. change (length crlfcrlf) with 4%nat in Ho.
    unfold len in Hr. replace (streamUpgradeMax <? read + 1) with false by lia.
    set (g := mkWs _ _ _ _ _ _ _ _ _).
    assert (E' : ws_bytes g (p ++ rest) = ws_bytes (between max) rest).
    { etrans; [|apply (IH (next_match m b) (read + 1)); [lia|rewrite Ei; f_equal; lia|lia|unfold len; lia]]. by apply ws_bytes_core. }
    rewrite E'. by destruct (ws_bytes _ rest).
Qed.

(** what a client's WebSocket stream costs.  After an upgrade request that
    ends with its first empty line, within the limit, however the stream is cut
    into reads, every continuation or control frame costs one token and every
    data frame none, each frame - masked or not, with a length of any of the
    three encodings, up to the limit - is skipped exactly, and the framer ends
    between two frames. *)
Theorem ws_stream_cost max req frs chunks :
  max <= max_int64 -> index req crlfcrlf = Some (length req - 4)%nat -> (4 <= length req)%nat ->
  len req <= streamUpgradeMax + 1 -> Forall (frame_ok max) frs ->
  concat chunks = req ++ concat (map frame_bytes frs) ->
  ws_feeds (new_ws max) chunks = (len (List.filter charged frs), inl (between max)).
Proof.
  intros Hmax Hi Hl Hreq Hfrs Hc. rewrite ws_feeds_bytes, Hc by exact I. unfold new_ws.
  rewrite ws_bytes_upgrade by (done || lia). clear Hc. induction Hfrs as [|fr frs Hfr Hfrs IH]; [done|].
  cbn [map concat List.filter]. rewrite ws_bytes_frame by done. rewrite IH.
  destruct (charged fr); rewrite ?len_cons; done.
Qed.

Lemma ws_stream_cost_witness :
  let req := str "GET /sip HTTP/1.1" ++ [13; 10] ++ str "Upgrade: websocket" ++ crlfcrlf in
  let frs := [mkFrame 129 (Some [1; 2; 3; 4]) (str "hello"); mkFrame 137 None []; mkFrame 130 None (repeat 65 300)] in
  let bytes := req ++ concat (map frame_bytes frs) in
  ws_feeds (new_ws 65535) [take 10 bytes; drop 10 (take 100 bytes); drop 100 bytes] = (1, inl (between 65535)).
Proof.
  intros req frs bytes. apply (ws_stream_cost 65535 req frs).
  - vm_compute. discriminate.
  - vm_compute. reflexivity.
  - vm_compute. repeat constructor.
  - vm_compute. discriminate.
  - repeat constructor; vm_compute; try discriminate; reflexivity.
  - vm_compute. reflexivity.
Defined.
