(* ===== verification/StreamConn.v ===== *)
(** internal/edge/stream.go (and the dial of carrierconn.go): the connection
    plane of the stream transports.

    - [streamTable]: the slots, [acquire] and [release];
    - [plane]: the connections of a server with the table they are counted in,
      [prepare] (accepted ones), [dial] (ones opened to a carrier), [Close];
    - [streamConn]: one connection as its reader sees it, over any [Framer]
      (the interface the code's [framer] is): [observe], [arm], [Read]. *)

From S2P Require Import Prelude GoTime Netip GoText StreamFramer WsFramer.

Open Scope Z_scope.

Record streamLimits := mkLimits {
  maxPerIP : Z; maxTotal : Z; maxCarrier : Z;
  handshake : Z; idle : Z; message : Z; write : Z;
  maxMessage : Z
}.

(** [maxMessage] is sip.MaxReadSize. *)
Definition defaultStreamLimits : streamLimits :=
  mkLimits 256 10000 1024 (10 * second) (60 * second) (15 * second) (10 * second) (24 * 1024).

Inductive streamRefusal := refuseGlobalCap | refuseIPCap | refuseBanned | refuseRate.

#[export] Instance streamRefusal_eq_dec : EqDecision streamRefusal.
Proof. solve_decision. Defined.

(** ** The slots *)

Record streamTable := mkTable { total : Z; carrier_n : Z; perIP : gmap Addr Z }.

Definition newStreamTable : streamTable := mkTable 0 0 ∅.

Definition streamKey (ip : Addr) : Addr :=
  let ip := unmap ip in
  if is6 ip then mask64 (with_zone ip []) else ip.

(** Reading a Go map of ints: 0 where there is no entry. *)
Definition at_key (m : gmap Addr Z) (k : Addr) : Z := default 0 (m !! k).

Definition acquire (ip : Addr) (carrier : bool) (lim : streamLimits) (t : streamTable)
  : option streamRefusal * streamTable :=
  let k := streamKey ip in
  if (if carrier then maxCarrier lim <=? carrier_n t else maxTotal lim <=? total t - carrier_n t)
  then (Some refuseGlobalCap, t)
  else if maxPerIP lim <=? at_key (perIP t) k then (Some refuseIPCap, t)
  else (None, mkTable (total t + 1) (if carrier then carrier_n t + 1 else carrier_n t)
                      (<[k := at_key (perIP t) k + 1]> (perIP t))).

Definition release (ip : Addr) (carrier : bool) (t : streamTable) : streamTable :=
  let k := streamKey ip in
  mkTable (total t - 1) (if carrier then carrier_n t - 1 else carrier_n t)
          (if at_key (perIP t) k <=? 1 then delete k (perIP t)
           else <[k := at_key (perIP t) k - 1]> (perIP t)).

(** ** The connections of a server *)

(** What the plane knows of a connection; [c_closed] is its [closeOnce]. *)
Record conn := mkConn { c_ip : Addr; c_carrier : bool; c_closed : bool }.

Record plane := mkPlane { table : streamTable; conns : list conn }.

Definition newPlane : plane := mkPlane newStreamTable [].

(** [streamConn.Close]: the slot goes back once. *)
Definition Close (i : nat) (p : plane) : plane :=
  match conns p !! i with
  | Some c =>
      if c_closed c then p
      else mkPlane (release (c_ip c) (c_carrier c) (table p))
                   (<[i := mkConn (c_ip c) (c_carrier c) true]> (conns p))
  | None => p
  end.

(** A slot taken for a connection that now exists, or the refusal. *)
Definition admit_conn (ip : Addr) (carrier : bool) (lim : streamLimits) (p : plane) : streamRefusal + nat * plane :=
  match acquire ip carrier lim (table p) with
  | (Some why, _) => inl why
  | (None, t) => inr (length (conns p), mkPlane t (conns p ++ [mkConn ip carrier false]))
  end.

(** [readUpgrade]: the data read so far, then what each read of the connection
    returns: data and whether an error (the deadline included) came with it. *)
Fixpoint readUpgrade (buf : gostring) (reads : list (gostring * bool)) : gostring + streamClose :=
  if contains buf crlfcrlf then inl buf
  else if streamUpgradeMax <=? len buf then inr closeMalformed
  else match reads with
       | [] => inr closeHandshake
       | (data, err) :: reads => if (err : bool) then inr closeHandshake else readUpgrade (buf ++ data) reads
       end.

Inductive transport := TCP | TLS | WS | WSS.

Definition is_tls (tr : transport) : bool := match tr with TLS | WSS => true | _ => false end.
Definition is_ws (tr : transport) : bool := match tr with WS | WSS => true | _ => false end.

Inductive prepared :=
  | Refused (why : streamRefusal)
  | ClosedFor (why : streamClose)
  | Ready (i : nat) (pending : gostring)
  | Dropped.   (* the listener is shut *)

(** What [prepare] asks of its surroundings, in the order it asks: the shield,
    the carrier sources, the shield's rate, the TLS handshake, the client's
    upgrade request, and whether the listener still takes the connection. *)
Record answers := mkAnswers {
  a_banned : bool; a_carrier : bool; a_rate : bool; a_tls : bool;
  a_upgrade : list (gostring * bool); a_taken : bool
}.

Definition prepare (tr : transport) (ip : Addr) (a : answers) (lim : streamLimits) (p : plane) : prepared * plane :=
  let ip := unmap ip in
  if a_banned a then (Refused refuseBanned, p)
  else match admit_conn ip (a_carrier a) lim p with
       | inl why => (Refused why, p)
       | inr (i, p) =>
           if negb (a_rate a) then (Refused refuseRate, Close i p)
           else if is_tls tr && negb (a_tls a) then (ClosedFor closeHandshake, Close i p)
           else match (if is_ws tr then readUpgrade [] (a_upgrade a) else inl []) with
                | inr why => (ClosedFor why, Close i p)
                | inl pending => if a_taken a then (Ready i pending, p) else (Dropped, Close i p)
                end
       end.

(** [carrierConns.dial], from the connection being up: the cap, the handshake
    (tls only) and the hand-over. *)
Definition dial (ip : Addr) (tls_ok taken : bool) (lim : streamLimits) (p : plane) : option nat * plane :=
  match admit_conn ip true lim p with
  | inl _ => (None, p)
  | inr (i, p) => if tls_ok && taken then (Some i, p) else (None, Close i p)
  end.

Inductive plane_step (lim : streamLimits) : plane -> plane -> Prop :=
  | step_prepare tr ip a p : plane_step lim p (prepare tr ip a lim p).2
  | step_dial ip tls_ok taken p : plane_step lim p (dial ip tls_ok taken lim p).2
  | step_close i p : plane_step lim p (Close i p).

(** ** Counting *)

Definition open_by (f : conn -> bool) (p : plane) : Z := len (List.filter (fun c => negb (c_closed c) && f c) (conns p)).

Definition any_conn (c : conn) : bool := true.
Definition public (c : conn) : bool := negb (c_carrier c).
Definition from_key (k : Addr) (c : conn) : bool := bool_decide (streamKey (c_ip c) = k).

(** The table counts the open connections, and only them. *)
Definition plane_ok (lim : streamLimits) (p : plane) : Prop :=
  total (table p) = open_by any_conn p /\
  carrier_n (table p) = open_by c_carrier p /\
  (forall k, perIP (table p) !! k = let n := open_by (from_key k) p in if n =? 0 then None else Some n) /\
  open_by public p <= maxTotal lim /\
  open_by c_carrier p <= maxCarrier lim /\
  (forall k, open_by (from_key k) p <= maxPerIP lim).

Definition limits_ok (lim : streamLimits) : Prop := 0 <= maxTotal lim /\ 0 <= maxCarrier lim /\ 0 <= maxPerIP lim.

Definition one (b : bool) : Z := if b then 1 else 0.

Lemma open_by_add f t p ip ca :
  open_by f (mkPlane t (conns p ++ [mkConn ip ca false])) = open_by f p + one (f (mkConn ip ca false)).
Proof.
  unfold open_by. cbn [conns]. rewrite List.filter_app, len_app. f_equal. cbn. by destruct (f _).
Qed.

Lemma filter_insert_false {A} (P : A -> bool) (l : list A) i x y :
  l !! i = Some x -> P y = false -> len (List.filter P (<[i := y]> l)) = len (List.filter P l) - one (P x).
Proof.
  intros Hi Hy. revert i Hi. induction l as [|z l IH]; intros [|i] Hi; [done|done| |].
  - injection Hi as ->. cbn. rewrite Hy. destruct (P x); rewrite ?len_cons; cbn; lia.
  - cbn. destruct (P z); rewrite ?len_cons, IH by done; lia.
Qed.

Lemma open_by_close f t p i c : conns p !! i = Some c -> c_closed c = false ->
  open_by f (mkPlane t (<[i := mkConn (c_ip c) (c_carrier c) true]> (conns p))) = open_by f p - one (f c).
Proof.
  intros Hi Hc. unfold open_by. cbn [conns]. rewrite (filter_insert_false _ _ _ _ _ Hi); [|done]. by rewrite Hc.
Qed.

Lemma open_by_pos f p i c : conns p !! i = Some c -> c_closed c = false -> f c = true -> 1 <= open_by f p.
Proof.
  intros Hi Hc Hf. unfold open_by. apply list_elem_of_lookup_2, list_elem_of_In in Hi.
  assert (Hin : In c (List.filter (fun c => negb (c_closed c) && f c) (conns p))).
  { apply filter_In. split; [done|]. by rewrite Hc, Hf. }
  destruct (List.filter _ _); [done|]. rewrite len_cons. pose proof (len_nonneg l). lia.
Qed.

Lemma open_by_nonneg f p : 0 <= open_by f p.
Proof. apply len_nonneg. Qed.

Lemma open_by_split p : open_by any_conn p = open_by public p + open_by c_carrier p.
Proof.
  unfold open_by. induction (conns p) as [|c l IH]; [done|]. cbn. unfold any_conn, public in *.
  destruct (c_closed c), (c_carrier c); cbn; rewrite ?len_cons; lia.
Qed.

Lemma at_key_count lim p k : plane_ok lim p -> at_key (perIP (table p)) k = open_by (from_key k) p.
Proof.
  intros (_ & _ & Hk & _). unfold at_key. rewrite Hk. cbv zeta. case_if; cbn [default from_option id]; lia.
Qed.

Lemma newPlane_ok lim : limits_ok lim -> plane_ok lim newPlane.
Proof. intros (H1 & H2 & H3). by repeat (split; [by cbn|]). Qed.

(** Admission is decided by the open connections alone. *)
Lemma acquire_counts lim p ip ca : plane_ok lim p ->
  (acquire ip ca lim (table p)).1 =
  if (if ca then maxCarrier lim <=? open_by c_carrier p else maxTotal lim <=? open_by public p) then Some refuseGlobalCap
  else if maxPerIP lim <=? open_by (from_key (streamKey ip)) p then Some refuseIPCap
  else None.
Proof.
  intros Hok. pose proof (at_key_count _ _ (streamKey ip) Hok) as Hk. destruct Hok as (Ht & Hc & _).
  unfold acquire. rewrite Hk, Ht, Hc, (open_by_split p).
  replace (open_by public p + open_by c_carrier p - open_by c_carrier p) with (open_by public p) by lia.
  destruct ca; repeat case_if; done.
Qed.

Lemma admit_conn_ok lim ip ca p : plane_ok lim p ->
  match admit_conn ip ca lim p with inl _ => True | inr (i, p') => plane_ok lim p' end.
Proof.
  intros Hok. pose proof (acquire_counts lim p ip ca Hok) as Hv. unfold admit_conn.
  pose proof (at_key_count _ _ (streamKey ip) Hok) as Hat.
  destruct (acquire ip ca lim (table p)) as [v t] eqn:E. cbn [fst] in Hv. subst v.
  unfold acquire in E. rewrite Hat in E. destruct Hok as (Ht & Hc & Hk & H1 & H2 & H3).
  destruct (if ca then maxCarrier lim <=? open_by c_carrier p else maxTotal lim <=? open_by public p) eqn:E1; [done|].
  destruct (maxPerIP lim <=? open_by (from_key (streamKey ip)) p) eqn:E2; [done|].
  case_if_in E; [done|]. injection E as <-.
  unfold plane_ok. cbv zeta. set (p' := mkPlane _ _).
  assert (Hadd : forall f, open_by f p' = open_by f p + one (f (mkConn ip ca false))) by (intros f; by apply open_by_add).
  change (table p') with (mkTable (total (table p) + 1) (if ca then carrier_n (table p) + 1 else carrier_n (table p))
    (<[streamKey ip := open_by (from_key (streamKey ip)) p + 1]> (perIP (table p)))).
  cbn [table total carrier_n perIP]. clearbody p'. rewrite !Hadd, Ht, Hc.
  split; [done|]. split; [by destruct ca; cbn; lia|]. split.
  { intros k. rewrite Hadd. change (from_key k (mkConn ip ca false)) with (bool_decide (streamKey ip = k)). destruct (decide (streamKey ip = k)) as [<-|N].
    - rewrite lookup_insert_eq, bool_decide_eq_true_2 by done. cbn [one].
      pose proof (open_by_nonneg (from_key (streamKey ip)) p). case_if; [lia|done].
    - rewrite lookup_insert_ne, bool_decide_eq_false_2 by done. cbn [one]. rewrite Z.add_0_r. apply Hk. }
  split; [change (public (mkConn ip ca false)) with (negb ca); destruct ca; cbn; lia|]. split; [destruct ca; cbn; lia|].
  intros k. rewrite Hadd. change (from_key k (mkConn ip ca false)) with (bool_decide (streamKey ip = k)). specialize (H3 k).
  destruct (decide (streamKey ip = k)) as [<-|N].
  - rewrite bool_decide_eq_true_2 by done. cbn. lia.
  - rewrite bool_decide_eq_false_2 by done. cbn. lia.
Qed.

Lemma Close_ok lim i p : plane_ok lim p -> plane_ok lim (Close i p).
Proof.
  intros Hok. unfold Close. destruct (conns p !! i) as [c|] eqn:Ei; [|done]. destruct (c_closed c) eqn:Ec; [done|].
  pose proof (at_key_count _ _ (streamKey (c_ip c)) Hok) as Hat.
  assert (H1c : 1 <= open_by (from_key (streamKey (c_ip c))) p).
  { eapply open_by_pos; [done|done|]. unfold from_key. by apply bool_decide_eq_true_2. }
  destruct Hok as (Ht & Hc & Hk & H1 & H2 & H3).
  unfold plane_ok. cbv zeta. set (p' := mkPlane _ _).
  assert (Hsub : forall f, open_by f p' = open_by f p - one (f c)) by (intros f; by apply open_by_close).
  change (table p') with (release (c_ip c) (c_carrier c) (table p)). clearbody p'.
  unfold release. cbn [table total carrier_n perIP]. rewrite !Hsub, Hat, Ht, Hc.
  split; [done|]. split; [by destruct (c_carrier c); cbn; lia|]. split.
  { intros k. rewrite Hsub. change (from_key k c) with (bool_decide (streamKey (c_ip c) = k)). destruct (decide (streamKey (c_ip c) = k)) as [<-|N].
    - rewrite (bool_decide_eq_true_2 (streamKey _ = _)) by done. cbn [one].
      case_if; [rewrite lookup_delete_eq|rewrite lookup_insert_eq]; case_if; (done || lia).
    - rewrite (bool_decide_eq_false_2 (streamKey _ = _)) by done. cbn [one]. rewrite Z.sub_0_r.
      case_if; [rewrite lookup_delete_ne|rewrite lookup_insert_ne]; done. }
  assert (Ho : forall f, 0 <= one (f c)) by (intros f; destruct (f c); cbn; lia).
  pose proof (Ho public). pose proof (Ho c_carrier). split; [lia|]. split; [lia|].
  intros k. rewrite Hsub. specialize (H3 k). pose proof (Ho (from_key k)). lia.
Qed.

Lemma plane_step_ok lim p p' : plane_ok lim p -> plane_step lim p p' -> plane_ok lim p'.
Proof.
  intros Hok H. destruct H as [tr ip a p|ip tls_ok taken p|i p]; [| |by apply Close_ok].
  - unfold prepare. destruct (a_banned a); [done|].
    pose proof (admit_conn_ok lim (unmap ip) (a_carrier a) p Hok) as Ha.
    destruct (admit_conn _ _ _ p) as [why|[i p']]; [done|].
    case_if; [by apply Close_ok|]. case_if; [by apply Close_ok|].
    destruct (if is_ws tr then readUpgrade [] (a_upgrade a) else inl []) as [pending|why]; [|by apply Close_ok].
    case_if; [done|by apply Close_ok].
  - unfold dial. pose proof (admit_conn_ok lim ip true p Hok) as Ha.
    destruct (admit_conn _ _ _ p) as [why|[i p']]; [done|]. case_if; [done|by apply Close_ok].
Qed.

(** stream slots are exact.  Whatever connections were refused, failed
    their handshake, were dialed to carriers, or were closed (any number of
    times), the table counts exactly the open ones, in all, per source and for
    carriers; no cap is ever exceeded; and the next connection is admitted
    exactly when its own pool and its own source are below their caps, so a
    flood of public connections never takes a carrier's slot. *)
Theorem stream_slots_are_exact lim p ip ca :
  limits_ok lim -> reachable (fun p => p = newPlane) (plane_step lim) p ->
  plane_ok lim p /\
  ((acquire ip ca lim (table p)).1 = None <->
   (if ca then open_by c_carrier p < maxCarrier lim else open_by public p < maxTotal lim) /\
   open_by (from_key (streamKey ip)) p < maxPerIP lim).
Proof.
  intros Hl Hr. assert (Hok : plane_ok lim p).
  { refine (reachable_inv _ _ (plane_ok lim) _ _ p Hr); [intros ? ->; by apply newPlane_ok|by apply plane_step_ok]. }
  split; [done|]. rewrite acquire_counts by done. destruct ca; repeat case_if; split; (done || lia).
Qed.

Lemma stream_slots_are_exact_witness :
  let lim := mkLimits 2 3 1 1 1 1 1 65535 in
  let ok := mkAnswers false false true true [] true in
  let p1 := (prepare TCP (ip4 192 0 2 1) ok lim newPlane).2 in
  let p2 := Close 0 (Close 0 (prepare TLS (ip4 192 0 2 1) ok lim p1).2) in
  (table p2 = mkTable 1 0 {[ ip4 192 0 2 1 := 1 ]}) /\
  (acquire (ip4 192 0 2 9) true lim (table p2)).1 = None.
Proof.
  intros lim ok p1 p2.
  assert (R : reachable (fun p => p = newPlane) (plane_step lim) p2).
  { eapply reach_step; [|apply step_close]. eapply reach_step; [|apply step_close].
    eapply reach_step; [|apply step_prepare]. eapply reach_step; [|apply step_prepare]. by apply reach_init. }
  split; [vm_compute; reflexivity|].
  apply (stream_slots_are_exact lim p2 (ip4 192 0 2 9) true).
  - vm_compute. repeat split; discriminate.
  - exact R.
  - vm_compute. split; reflexivity.
Defined.

(** ** One connection *)

(** The code's [framer] interface, and what its callers rely on: a message in
    progress after a read that found none in progress began in that read. *)
Class Framer (F : Type) := {
  feed : F -> gostring -> Z * streamClose * F;
  fpartial : F -> bool;
  started : F -> bool * bool
}.

Class FramerLaws (F : Type) `{Framer F} := {
  fok : F -> Prop;
  feed_ok f p c bad f' : fok f -> feed f p = (c, bad, f') -> fok f';
  feed_began f p c f' :
    fok f -> fpartial f = false -> feed f p = (c, closeNone, f') -> fpartial f' = true -> (started f').1 = true
}.

#[export] Instance sip_framer : Framer sipFramer := {| feed := sip_feed; fpartial := sip_partial; started := sip_started |}.
#[export] Instance ws_framer : Framer wsFramer := {| feed := ws_feed; fpartial := ws_partial; started := ws_started |}.

Lemma sip_loop_began fuel : forall f p c, (sip_partial f = true -> sbegan f = true) ->
  let f' := (sip_loop fuel f p c).2 in sip_partial f' = true -> sbegan f' = true.
Proof.
  induction fuel as [|fuel IH]; intros f p c Hf; [done|]. cbn [sip_loop]. destruct p as [|b p]; [done|].
  unfold sip_partial in *. destruct (sstate f) eqn:Es.
  - destruct (trim_left is_crlf (b :: p)); [cbn; by rewrite Es|]. by apply IH.
  - destruct (index _ crlfcrlf).
    + destruct (head_done _ _) as [bad body]. destruct bad; try (cbn; rewrite Es; exact Hf). apply IH. cbn. auto.
    + case_if; [cbn; rewrite Es; exact Hf|]. apply IH. cbn. auto.
  - apply IH. cbn. auto.
Qed.

Lemma sip_feed_began f p c f' :
  sip_partial f = false -> sip_feed f p = (c, closeNone, f') -> sip_partial f' = true -> (sip_started f').1 = true.
Proof.
  intros Hf E Hp. unfold sip_started. cbn [fst]. rewrite Hp, andb_true_r. unfold sip_feed in E.
  set (f0 := mkSip _ _ _ _ _) in E. pose proof (sip_loop_began (sip_fuel p) f0 p 0) as L.
  destruct (sip_loop _ _ _ _) as [[n bad] f1]. cbn [snd] in L. cbv zeta in L.
  destruct bad; try discriminate E. injection E as <- <-. apply L; [|done].
  change (sip_partial f0) with (sip_partial f). by rewrite Hf.
Qed.

#[export] Instance sip_framer_laws : FramerLaws sipFramer.
Proof.
  refine {| fok := fun _ => True |}; [done|]. intros f p c f' _. apply sip_feed_began.
Defined.

Definition read_ok (f : wsFramer) : Prop := 0 <= wread f.

Lemma ws_round_began f b p : read_ok f -> (ws_partial f = true -> wbegan f = true) ->
  let f' := (ws_round f (b :: p)).1.1.1 in read_ok f' /\ (ws_partial f' = true -> wbegan f' = true).
Proof.
  unfold read_ok. intros Hr Hf. unfold ws_round, ws_partial in *. destruct (wstate f) eqn:Es.
  - unfold ws_http. case_if; cbn; [by split|]. split; [lia|]. intros _. destruct (wbegan f); [done|].
    cbn. destruct (0 <? wread f) eqn:E1; [by specialize (Hf eq_refl)|lia].
  - pose proof (len_nonneg (whdr f)).
    assert (Hb : wbegan f || (len (whdr f) =? 0) = true).
    { destruct (wbegan f); [done|]. destruct (0 <? len (whdr f)) eqn:E; [by specialize (Hf eq_refl)|]. cbn. lia. }
    rewrite Hb. case_if; cbn; [by split|]. unfold ws_header. repeat case_if; by split.
  - cbn. split; [done|]. auto.
Qed.

Lemma ws_loop_began fuel : forall f p c, read_ok f -> (ws_partial f = true -> wbegan f = true) ->
  let f' := (ws_loop fuel f p c).2 in read_ok f' /\ (ws_partial f' = true -> wbegan f' = true).
Proof.
  induction fuel as [|fuel IH]; intros f p c Hr Hf; [done|]. cbn [ws_loop]. destruct p as [|b p]; [done|].
  pose proof (ws_round_began f b p Hr Hf) as R. destruct (ws_round f (b :: p)) as [[[f' p'] n] bad].
  cbn [fst] in R. destruct R as [R1 R2]. destruct bad; try (by split). by apply IH.
Qed.

Lemma ws_loop_ok fuel : forall f p c, read_ok f -> read_ok (ws_loop fuel f p c).2.
Proof.
  induction fuel as [|fuel IH]; intros f p c Hr; [done|]. cbn [ws_loop]. destruct p as [|b p]; [done|].
  assert (R : read_ok (ws_round f (b :: p)).1.1.1).
  { unfold read_ok, ws_round, ws_http, ws_header in *. destruct (wstate f); repeat case_if; cbn; lia. }
  destruct (ws_round f (b :: p)) as [[[f' p'] n] bad]. cbn [fst] in R. destruct bad; try done. by apply IH.
Qed.

#[export] Instance ws_framer_laws : FramerLaws wsFramer.
Proof.
  refine {| fok := read_ok |}.
  - intros f p c bad f' Hr E. cbn [feed ws_framer] in E. unfold ws_feed in E.
    pose proof (ws_loop_ok (length p) (ws_clear f) p 0 Hr) as L. by rewrite E in L.
  - intros f p c f' Hr Hf E Hp. cbn [fpartial started ws_framer] in *. unfold ws_started. cbn [fst].
    rewrite Hp, andb_true_r. cbn [feed ws_framer] in E. unfold ws_feed in E.
    destruct (ws_loop_began (length p) (ws_clear f) p 0 Hr) as [_ L]; [|by rewrite E in L; apply L].
    change (ws_partial (ws_clear f)) with (ws_partial f). by rewrite Hf.
Defined.

Record streamConn (F : Type) := mkStream {
  fr : F;
  pending : gostring;
  partial : bool;
  since : Z;
  lastMsg : Z;
  closed_for : option streamClose
}.

Arguments mkStream {F} _ _ _ _ _ _.
Arguments fr {F} _.
Arguments pending {F} _.
Arguments partial {F} _.
Arguments since {F} _.
Arguments lastMsg {F} _.
Arguments closed_for {F} _.

(** What a read of the network gives: data (with or without an error after
    it), the deadline, or another error. *)
Inductive netRead := NData (p : gostring) (err : bool) | NTimeout | NErr.

(** What sipgo's loop is given. *)
Inductive readResult := RData (p : gostring) (err : bool) | REOF | RErr.

Section Connection.
Context {F : Type} `{!Framer F}.
(** The shield, and its AllowRate for this connection's source. *)
Context {S : Type} (AllowRate : S -> bool * S).
Context (lim : streamLimits).

Definition new_conn (f : F) (pend : gostring) : streamConn F := mkStream f pend false zero_time zero_time None.

Definition closeFor (why : streamClose) (c : streamConn F) : streamConn F :=
  mkStream (fr c) (pending c) (partial c) (since c) (lastMsg c) (Some why).

(** [for range charges]: one token each, until one is refused. *)
Fixpoint charge (n : nat) (s : S) : bool * S :=
  match n with
  | O => (true, s)
  | Datatypes.S n => let '(ok, s) := AllowRate s in if ok then charge n s else (false, s)
  end.

(** [busy] is what streamBusy answers. *)
Definition observe (now : Z) (busy : bool) (data : gostring) (c : streamConn F) (s : S) : bool * streamConn F * S :=
  let '(charges, bad, f) := feed (fr c) data in
  let c := mkStream f (pending c) (partial c) (since c) (lastMsg c) (closed_for c) in
  if bool_decide (bad = closeNone) then
    let '(ok, s) := charge (Z.to_nat charges) s in
    if negb ok then (false, closeFor closeRate c, s)
    else
      let '(began, msg) := started f in
      let last := if (msg : bool) || is_zero (lastMsg c) then now else lastMsg c in
      if fpartial f then
        (true, mkStream f (pending c) true (if negb (partial c) || began then now else since c) last (closed_for c), s)
      else
        let c := mkStream f (pending c) false (since c) last (closed_for c) in
        if (idle lim <? time_sub now last) && negb busy then (false, closeFor closeIdle c, s)
        else (true, c, s)
  else (false, closeFor bad c, s).

(** The read deadline set before a read at [now]. *)
Definition arm (now : Z) (c : streamConn F) : Z :=
  if partial c then time_add (since c) (message lim) else time_add now (idle lim).

(** One round of the loop of [Read] with a buffer of [room] bytes; [None] is
    [continue]. *)
Definition Read_round (now : Z) (busy : bool) (room : nat) (r : netRead) (c : streamConn F) (s : S)
  : option readResult * streamConn F * S :=
  match pending c with
  | _ :: _ =>
      let p := take room (pending c) in
      let c := mkStream (fr c) (drop room (pending c)) (partial c) (since c) (lastMsg c) (closed_for c) in
      let '(ok, c, s) := observe now busy p c s in
      (Some (if ok then RData p false else REOF), c, s)
  | [] =>
      match r with
      | NData p err =>
          let '(ok, c, s) := observe now busy p c s in
          (Some (if ok then RData p err else REOF), c, s)
      | NTimeout =>
          if partial c then (Some REOF, closeFor closeSlow c, s)
          else if busy then (None, c, s)
          else (Some REOF, closeFor closeIdle c, s)
      | NErr => (Some RErr, c, s)
      end
  end.

(** A connection over time: what each read of the network (no data is pending)
    gives, when, and whether the connection is in use then.  The log says of
    every read with data whether a unit began in it and is still in progress,
    and whether a message started in it. *)
Record read_event := mkRead { at_ : Z; in_use : bool; got : netRead }.
Record log_entry := mkLog { l_at : Z; l_began : bool; l_msg : bool }.

Fixpoint run_reads (es : list read_event) (c : streamConn F) (s : S) : list log_entry * streamConn F * S :=
  match es with
  | [] => ([], c, s)
  | e :: es =>
      let '(_, c, s) := Read_round (at_ e) (in_use e) 0 (got e) c s in
      let entry := match got e with NData _ _ => [mkLog (at_ e) (started (fr c)).1 (started (fr c)).2] | _ => [] end in
      match closed_for c with
      | Some _ => (entry, c, s)
      | None => let '(log, c, s) := run_reads es c s in (entry ++ log, c, s)
      end
  end.

(** The reads end in the order they are made, and the network returns data by
    the deadline of the read or not at all. *)
Fixpoint in_time (t : Z) (es : list read_event) (c : streamConn F) (s : S) : Prop :=
  match es with
  | [] => True
  | e :: es =>
      t <= at_ e /\ (match got e with NData _ _ => at_ e <= arm t c | _ => True end) /\
      let '(_, c, s) := Read_round (at_ e) (in_use e) 0 (got e) c s in in_time (at_ e) es c s
  end.

(** ** The deadlines hold *)

Context `{!FramerLaws F}.

(** The connection's [partial] is its framer's. *)
Definition conn_ok (c : streamConn F) : Prop :=
  fok (fr c) /\ partial c = fpartial (fr c) /\ pending c = [] /\ closed_for c = None.

Lemma observe_spec now busy data c s : conn_ok c ->
  let '(ok, c', _) := observe now busy data c s in
  if ok then
    conn_ok c' /\
    lastMsg c' = (if (started (fr c')).2 || is_zero (lastMsg c) then now else lastMsg c) /\
    (partial c' = true -> since c' = if (started (fr c')).1 then now else since c) /\
    (partial c = false -> partial c' = true -> (started (fr c')).1 = true) /\
    (partial c' = false -> busy = false -> time_sub now (lastMsg c') <= idle lim)
  else closed_for c' <> None.
Proof.
  intros (Hf & Hp & Hpe & Hcl). unfold observe. destruct (feed (fr c) data) as [[charges bad] f] eqn:E.
  pose proof (feed_ok (fr c) data charges bad f Hf E) as Hf'. case_bool_decide as Hb; [subst bad|done].
  pose proof (fun H => feed_began (fr c) data charges f Hf H E) as Hbegan. rewrite <- Hp in Hbegan.
  destruct (charge _ _) as [ok s']. destruct ok; [|done]. cbn [negb lastMsg pending partial since closed_for].
  destruct (started f) as [began msg] eqn:Es. destruct (fpartial f) eqn:Ef; cbn [fst] in Hbegan.
  - split; [by repeat split|]. cbn [lastMsg since partial fr]. rewrite Es. split; [done|]. split; [|by split; [auto|]].
    intros _. destruct (partial c); cbn; [by destruct began|]. by rewrite Hbegan.
  - destruct (_ && negb busy) eqn:Ei; [done|]. split; [by repeat split|]. cbn [lastMsg since partial fr]. rewrite Es.
    split; [done|]. split; [done|]. split; [done|]. intros _ ->. rewrite andb_true_r in Ei. lia.
Qed.

(** One event of a connection that stays open. *)
Lemma read_event_spec e c s : conn_ok c ->
  let '(_, c', _) := Read_round (at_ e) (in_use e) 0 (got e) c s in
  closed_for c' = None ->
  match got e with
  | NData p _ => let '(ok, c1, _) := observe (at_ e) (in_use e) p c s in ok = true /\ c' = c1
  | NTimeout => partial c = false /\ c' = c
  | NErr => c' = c
  end.
Proof.
  intros Hok. pose proof Hok as (Hf & Hp & Hpe & Hcl). unfold Read_round. rewrite Hpe.
  destruct (got e) as [p err| |]; [| |done].
  - pose proof (observe_spec (at_ e) (in_use e) p c s Hok) as O. destruct (observe _ _ p c s) as [[ok c1] s1].
    destruct ok; [by split|done].
  - destruct (partial c); [done|]. by destruct (in_use e).
Qed.

(** The message in progress began in the read at [since], no other began after
    it, and every read since came within the message timeout. *)
Definition message_clock (log : list log_entry) (c : streamConn F) : Prop :=
  partial c = true ->
  exists log1 m log2, log = log1 ++ mkLog (since c) true m :: log2 /\
    Forall (fun e => l_began e = false /\ l_at e <= since c + message lim) log2.

Lemma message_clock_event t e c s log c' s' r : conn_ok c -> closed_for c' = None ->
  (match got e with NData _ _ => at_ e <= arm t c | _ => True end) ->
  Read_round (at_ e) (in_use e) 0 (got e) c s = (r, c', s') ->
  message_clock log c ->
  conn_ok c' /\
  message_clock (log ++ match got e with NData _ _ => [mkLog (at_ e) (started (fr c')).1 (started (fr c')).2] | _ => [] end) c'.
Proof.
  intros Hok Hcl Ht E Hm. pose proof (read_event_spec e c s Hok) as R. rewrite E in R. specialize (R Hcl).
  destruct (got e) as [p err| |]; [|destruct R as [_ ->]; by rewrite app_nil_r|subst c'; by rewrite app_nil_r].
  pose proof (observe_spec (at_ e) (in_use e) p c s Hok) as O.
  destruct (observe _ _ p c s) as [[ok c1] s1]. destruct R as [-> ->]. destruct O as (Ho & _ & Hs & Hb & _).
  split; [done|]. intros Hp. specialize (Hs Hp). destruct (started (fr c1)).1 eqn:Eb.
  - rewrite Hs. by exists log, (started (fr c1)).2, [].
  - destruct (partial c) eqn:Ep; [|by specialize (Hb eq_refl Hp)].
    destruct (Hm Ep) as (log1 & m & log2 & -> & Hall). rewrite Hs.
    exists log1, m, (log2 ++ [mkLog (at_ e) false (started (fr c1)).2]). split; [by rewrite <- app_assoc|].
    apply Forall_app. split; [done|]. constructor; [|done]. cbn. split; [done|].
    unfold arm in Ht. rewrite Ep in Ht. exact Ht.
Qed.

Lemma message_clock_run es : forall t c s pre log c' s', conn_ok c -> message_clock pre c ->
  in_time t es c s -> run_reads es c s = (log, c', s') -> closed_for c' = None ->
  conn_ok c' /\ message_clock (pre ++ log) c'.
Proof.
  induction es as [|e es IH]; intros t c s pre log c' s' Hok Hm Ht Er Hcl; cbn [run_reads] in Er.
  - injection Er as <- <- <-. by rewrite app_nil_r.
  - cbn [in_time] in Ht. destruct Ht as (Hle & Ha & Ht).
    destruct (Read_round (at_ e) (in_use e) 0 (got e) c s) as [[r c1] s1] eqn:E.
    destruct (closed_for c1) eqn:Ec; [injection Er as _ -> _; congruence|].
    pose proof (message_clock_event t e c s pre c1 s1 r Hok Ec Ha E Hm) as [Hok1 Hm1].
    destruct (run_reads es c1 s1) as [[log2 c2] s2] eqn:E2. injection Er as <- <- <-.
    rewrite app_assoc. by eapply IH.
Qed.

(** [lastMsg] is when the last message started, or the first read. *)
Definition message_seen (log : list log_entry) (c : streamConn F) : Prop :=
  (log = [] /\ lastMsg c = zero_time) \/
  (0 < lastMsg c /\ exists e, e ∈ log /\ l_at e = lastMsg c /\ (l_msg e = true \/ hd_error log = Some e)).

Lemma message_seen_event e c s log c' s' r : conn_ok c -> closed_for c' = None -> 0 < at_ e ->
  Read_round (at_ e) (in_use e) 0 (got e) c s = (r, c', s') ->
  message_seen log c ->
  conn_ok c' /\
  message_seen (log ++ match got e with NData _ _ => [mkLog (at_ e) (started (fr c')).1 (started (fr c')).2] | _ => [] end) c' /\
  match got e with
  | NData _ _ => partial c' = false -> in_use e = false -> time_sub (at_ e) (lastMsg c') <= idle lim
  | _ => True
  end.
Proof.
  intros Hok Hcl Hpos E Hm. pose proof (read_event_spec e c s Hok) as R. rewrite E in R. specialize (R Hcl).
  destruct (got e) as [p err| |]; [|destruct R as [_ ->]; by rewrite app_nil_r|subst c'; by rewrite app_nil_r].
  pose proof (observe_spec (at_ e) (in_use e) p c s Hok) as O.
  destruct (observe _ _ p c s) as [[ok c1] s1]. destruct R as [-> ->]. destruct O as (Ho & Hl & _ & _ & Hi).
  split; [done|]. split; [|done]. right. rewrite Hl. unfold is_zero in *.
  set (entry := mkLog (at_ e) _ _).
  destruct Hm as [[-> Hz]|(Hgt & e0 & Hin & Hat & Hor)].
  - rewrite Hz, Z.eqb_refl, orb_true_r. split; [done|]. exists entry. split; [by apply list_elem_of_singleton|]. split; [done|by right].
  - replace (lastMsg c =? zero_time) with false by (unfold zero_time; lia). rewrite orb_false_r.
    destruct (started (fr c1)).2 eqn:Em.
    + split; [done|]. exists entry. split; [apply elem_of_app; right; by apply list_elem_of_singleton|]. split; [done|by left].
    + split; [done|]. exists e0. split; [apply elem_of_app; by left|]. split; [done|].
      destruct Hor as [?|Hh]; [by left|right]. by destruct log.
Qed.

Lemma message_seen_run es : forall c s pre log c' s', conn_ok c -> message_seen pre c ->
  Forall (fun e => 0 < at_ e) es -> run_reads es c s = (log, c', s') -> closed_for c' = None ->
  conn_ok c' /\ message_seen (pre ++ log) c'.
Proof.
  induction es as [|e es IH]; intros c s pre log c' s' Hok Hm Hpos Er Hcl; cbn [run_reads] in Er.
  - injection Er as <- <- <-. by rewrite app_nil_r.
  - inversion Hpos as [|? ? Hp Hps]; subst.
    destruct (Read_round (at_ e) (in_use e) 0 (got e) c s) as [[r c1] s1] eqn:E.
    destruct (closed_for c1) eqn:Ec; [injection Er as _ -> _; congruence|].
    pose proof (message_seen_event e c s pre c1 s1 r Hok Ec Hp E Hm) as (Hok1 & Hm1 & _).
    destruct (run_reads es c1 s1) as [[log2 c2] s2] eqn:E2. injection Er as <- <- <-.
    rewrite app_assoc. by eapply IH.
Qed.


(** a started message cannot hold a connection.  In the reads of a
    connection that stays open, a message still arriving began at [since], no
    other began after it, every read since came within the message timeout of
    that instant, and the next read's deadline is that instant plus the
    timeout; if it passes, the connection is closed for it. *)
Theorem started_message_is_bounded t0 es f s log c s' :
  fok f -> fpartial f = false ->
  in_time t0 es (new_conn f []) s -> run_reads es (new_conn f []) s = (log, c, s') ->
  closed_for c = None -> partial c = true ->
  (exists log1 m log2, log = log1 ++ mkLog (since c) true m :: log2 /\
     Forall (fun e => l_began e = false /\ l_at e <= since c + message lim) log2) /\
  (forall now, arm now c = since c + message lim) /\
  (forall now busy room, Read_round now busy room NTimeout c s' = (Some REOF, closeFor closeSlow c, s')).
Proof.
  intros Hf Hp Ht Er Hcl Hpart.
  destruct (message_clock_run es t0 (new_conn f []) s [] log c s') as [Hok Hm]; try done.
  split; [by apply Hm|]. unfold arm, Read_round. rewrite Hpart. split; [done|].
  intros now busy room. destruct Hok as (_ & _ & -> & _). done.
Qed.

(** keep-alives do not hold a connection.  A connection that carries
    nothing survives a read that leaves no message in progress only within the
    idle timeout of the last read in which a message started (or of its first
    read), whatever keep-alives and control frames came in between. *)
Theorem keepalives_hold_nothing es f s log c s' e p err r c2 s2 :
  fok f -> fpartial f = false -> Forall (fun e => 0 < at_ e) (e :: es) ->
  run_reads es (new_conn f []) s = (log, c, s') -> closed_for c = None ->
  got e = NData p err -> in_use e = false ->
  Read_round (at_ e) (in_use e) 0 (got e) c s' = (r, c2, s2) -> closed_for c2 = None -> partial c2 = false ->
  time_sub (at_ e) (lastMsg c2) <= idle lim /\
  exists entry, entry ∈ log ++ [mkLog (at_ e) (started (fr c2)).1 (started (fr c2)).2] /\
    l_at entry = lastMsg c2 /\ (l_msg entry = true \/ hd_error (log ++ [mkLog (at_ e) (started (fr c2)).1 (started (fr c2)).2]) = Some entry).
Proof.
  intros Hf Hp Hpos Er Hcl Hg Hu E Hcl2 Hpart. inversion Hpos as [|? ? Hpe Hps]; subst.
  destruct (message_seen_run es (new_conn f []) s [] log c s') as [Hok Hm]; try done.
  { by left. }
  pose proof (message_seen_event e c s' log c2 s2 r Hok Hcl2 Hpe E Hm) as (_ & Hm2 & Hi). rewrite Hg in Hm2, Hi.
  split; [by apply Hi|]. destruct Hm2 as [[Hn _]|(_ & Hex)]; [by destruct log|exact Hex].
Qed.
End Connection.

(** A client that trickles a message, one that sends keep-alives only, over a
    shield that lets everything through. *)
Definition grant (s : unit) : bool * unit := (true, s).

Lemma started_message_is_bounded_witness :
  let es := [mkRead second false (NData (str "INVITE sip:a") false); mkRead (14 * second) false (NData (str "x") false)] in
  let '(log, c, s) := run_reads grant defaultStreamLimits es (new_conn (mkSip 24576 sipIdle [] 0 false) []) tt in
  log = [mkLog second true true; mkLog (14 * second) false false] /\
  arm defaultStreamLimits (20 * second) c = 16 * second /\
  (Read_round grant defaultStreamLimits (16 * second) true 0 NTimeout c s).1.2 = closeFor closeSlow c.
Proof.
  intros es. destruct (run_reads grant defaultStreamLimits es _ tt) as [[log c] s] eqn:E.
  pose proof (started_message_is_bounded grant defaultStreamLimits 0 es (mkSip 24576 sipIdle [] 0 false) tt log c s) as T.
  specialize (T I eq_refl). pose proof E as E0. vm_compute in E0. injection E0 as <- <- <-.
  destruct T as (_ & T1 & T2).
  - vm_compute. repeat split; discriminate.
  - exact E.
  - reflexivity.
  - reflexivity.
  - split; [reflexivity|]. split; [exact (T1 _)|]. exact (f_equal (fun x => x.1.2) (T2 _ _ _)).
Defined.

Lemma keepalives_hold_nothing_witness :
  let es := [mkRead second false (NData [13; 10] false); mkRead (50 * second) false (NData [13; 10] false)] in
  let e := mkRead (61 * second) false (NData [13; 10] false) in
  let '(log, c, s) := run_reads grant defaultStreamLimits es (new_conn (mkSip 24576 sipIdle [] 0 false) []) tt in
  let c2 := (Read_round grant defaultStreamLimits (at_ e) (in_use e) 0 (got e) c s).1.2 in
  closed_for c2 = None /\ time_sub (at_ e) (lastMsg c2) <= 60 * second /\
  closed_for (Read_round grant defaultStreamLimits (62 * second) false 0 (NData [13; 10] false) c s).1.2 = Some closeIdle.
Proof.
  intros es e. destruct (run_reads grant defaultStreamLimits es _ tt) as [[log c] s] eqn:E.
  pose proof (keepalives_hold_nothing grant defaultStreamLimits es (mkSip 24576 sipIdle [] 0 false) tt log c s e [13; 10] false) as T.
  destruct (Read_round grant defaultStreamLimits (at_ e) (in_use e) 0 (got e) c s) as [[r c2] s2] eqn:E2.
  specialize (T r c2 s2). intros c2'. subst c2'. cbn [fst snd].
  assert (Hc2 : closed_for c2 = None /\ partial c2 = false /\ closed_for c = None /\
                closed_for (Read_round grant defaultStreamLimits (62 * second) false 0 (NData [13; 10] false) c s).1.2 = Some closeIdle).
  { revert E2. vm_compute in E. injection E as <- <- <-. vm_compute. intros E2. injection E2 as <- <- <-. by repeat split. }
  destruct Hc2 as (H1 & H2 & H3 & H4). split; [exact H1|]. split; [|exact H4].
  apply T; try done.
  - repeat constructor.
Defined.
