(* ===== verification/Carriers.v ===== *)
(** internal/edge/carrierdns.go: who the carriers are.

    - [carrierSnapshot]: the published view, with [isSource], [isAddress] and
      [carrierFor], which name the carrier of a source;
    - [carrierDirectory]: the literal carriers, the cached DNS resolutions,
      and [publish], [apply] and [refresh], which keep the view;
    - [resolve], [hostAddrs], [orderSRV]: what one DNS name resolves to.

    The resolver and the random source are parameters. *)

From stdpp Require Import sorting.
From S2P Require Import Prelude GoTime Netip GoText.

Open Scope Z_scope.

(** ** netip.Prefix *)

Record Prefix := mkPrefix { p_addr : Addr; p_bits : Z }.

#[export] Instance Prefix_eq_dec : EqDecision Prefix.
Proof. solve_decision. Defined.

Definition bit_len (a : Addr) : Z := match a with AddrZero => 0 | V4 _ => 32 | V6 _ _ => 128 end.

(** [netip.PrefixFrom(a, a.BitLen())]: one host. *)
Definition host_prefix (a : Addr) : Prefix := mkPrefix (with_zone a []) (bit_len a).

(** [Prefix.Contains]: same family, no zone, the leading bits equal. *)
Definition prefix_contains (p : Prefix) (ip : Addr) : bool :=
  match p_addr p, ip with
  | V4 b, V4 n => (0 <=? p_bits p) && (p_bits p <=? 32) &&
                  (Z.shiftr n (32 - p_bits p) =? Z.shiftr b (32 - p_bits p))
  | V6 b _, V6 n [] => (0 <=? p_bits p) && (p_bits p <=? 128) &&
                       (Z.shiftr n (128 - p_bits p) =? Z.shiftr b (128 - p_bits p))
  | _, _ => false
  end.

Lemma host_prefix_contains a : is_valid a = true -> prefix_contains (host_prefix a) (with_zone a []) = true.
Proof. destruct a as [|n|n z]; [done| |]; intros _; unfold prefix_contains; cbn; rewrite Z.eqb_refl; reflexivity. Qed.

(** ** The published view *)

(** config.CarrierUDP, CarrierTCP and CarrierTLS *)
Definition CarrierUDP : gostring := str "udp".
Definition CarrierTCP : gostring := str "tcp".
Definition CarrierTLS : gostring := str "tls".

Definition carrierUnknown : gostring := str "unknown".

Record carrierSnapshot := mkSnap {
  names : list gostring;
  addrs : gmap gostring (list AddrPort);
  nets : list Prefix;
  extra : list Prefix;
  transports : gmap gostring gostring
}.

Definition addrs_of (c : carrierSnapshot) (n : gostring) : list AddrPort := default [] (addrs c !! n).
Definition transport_of (c : carrierSnapshot) (n : gostring) : gostring := default [] (transports c !! n).

Definition plain (ip : Addr) : Addr := with_zone (unmap ip) [].

Definition isSource (c : carrierSnapshot) (ip : Addr) : bool :=
  existsb (fun p => prefix_contains p (plain ip)) (nets c).

Definition ap_eqb (a b : AddrPort) : bool := bool_decide (a = b).

Definition isAddress (c : carrierSnapshot) (src : AddrPort) (network : gostring) : bool :=
  let src := mkAddrPort (plain (ap_addr src)) (ap_port src) in
  let network := to_lower network in
  existsb (fun n => beq (transport_of c n) network && existsb (ap_eqb src) (addrs_of c n)) (names c).

(** The inner loop of [carrierFor]: an exact match ends it, the first address
    with the right IP sets [byIP] if nothing has yet. *)
Fixpoint match_addrs (src : AddrPort) (n : gostring) (l : list AddrPort) (byIP : gostring) : bool * gostring :=
  match l with
  | [] => (false, byIP)
  | a :: l =>
      if ap_eqb a src then (true, byIP)
      else match_addrs src n l (if beq byIP [] && addr_eqb (ap_addr a) (ap_addr src) then n else byIP)
  end.

(** The outer loop: the exact carrier, or [byIP] at its end. *)
Fixpoint match_names (c : carrierSnapshot) (src : AddrPort) (network : gostring) (ns : list gostring) (byIP : gostring)
  : gostring + gostring :=
  match ns with
  | [] => inr byIP
  | n :: ns =>
      if negb (beq (transport_of c n) network) then match_names c src network ns byIP
      else let '(exact, byIP) := match_addrs src n (addrs_of c n) byIP in
           if exact then inl n else match_names c src network ns byIP
  end.

Definition carrierFor (c : carrierSnapshot) (src : AddrPort) (network : gostring) : option gostring :=
  let ip := plain (ap_addr src) in
  let src := mkAddrPort ip (ap_port src) in
  match match_names c src network (names c) [] with
  | inl n => Some n
  | inr byIP =>
      if negb (beq byIP []) then Some byIP
      else if existsb (fun p => prefix_contains p ip) (extra c) then Some carrierUnknown
      else None
  end.

(** ** Resolving a name *)

(** config.Carrier, as far as the directory reads it. *)
Record Carrier := mkCarrier {
  c_name : gostring; c_host : gostring; c_port : Z; c_explicit : bool; c_addr : Addr; c_transport : gostring
}.

Definition Literal (c : Carrier) : bool := is_valid (c_addr c).

Definition DialPort (c : Carrier) : Z :=
  if negb (c_explicit c) && beq (c_transport c) CarrierTLS then 5061 else c_port c.

(** [uint16(p)] *)
Definition to_port (p : Z) : Z := wrap_uint 16 p.

Record SRV := mkSRV { s_target : gostring; s_port : Z; s_prio : Z; s_weight : Z }.
Record srvTarget := mkTarget { t_host : gostring; t_port : Z }.

Definition usable (r : SRV) : bool := negb (beq (s_target r) (str ".") || (s_port r =? 0)).

(** [strings.TrimSuffix(s, ".")] *)
Definition trim_dot (s : gostring) : gostring :=
  match rev s with 46 :: s' => rev s' | _ => s end.

Definition target_of (r : SRV) : srvTarget := mkTarget (trim_dot (s_target r)) (s_port r).

(** A resolver's error: its text, and whether it is a not-found answer. *)
Record dnsError := mkDnsError { IsNotFound : bool; dns_text : gostring }.

Section Resolver.
(** rand.Intn on the directory's random source. *)
Context {R : Type} (Intn : R -> Z -> Z * R).

(** The weighted pick: the first record whose running weight reaches
    [target], the first of all if none does. *)
Fixpoint pick_at (target acc : Z) (i : nat) (g : list SRV) : nat :=
  match g with
  | [] => 0
  | r :: g => let acc := acc + s_weight r in
              if target <=? acc then i else pick_at target acc (S i) g
  end.

Definition total_weight (g : list SRV) : Z := fold_left (fun t r => t + s_weight r) g 0.

(** One group, drawn without replacement. *)
Fixpoint draw (n : nat) (g : list SRV) (rnd : R) : list SRV * R :=
  match n, g with
  | O, _ | _, [] => ([], rnd)
  | S n, _ =>
      let total := total_weight g in
      let '(k, rnd) := if total =? 0 then Intn rnd (len g) else Intn rnd (total + 1) in
      let pick := if total =? 0 then Z.to_nat k else pick_at k 0 0 g in
      match g !! pick with
      | None => ([], rnd)   (* the code would panic *)
      | Some r => let '(rs, rnd) := draw n (take pick g ++ drop (S pick) g) rnd in (r :: rs, rnd)
      end
  end.

Definition group_of (p : Z) (recs : list SRV) : list SRV :=
  let g := List.filter (fun r => s_prio r =? p) recs in
  List.filter (fun r => s_weight r =? 0) g ++ List.filter (fun r => negb (s_weight r =? 0)) g.

Fixpoint draw_all (prios : list Z) (recs : list SRV) (rnd : R) : list SRV * R :=
  match prios with
  | [] => ([], rnd)
  | p :: ps =>
      let g := group_of p recs in
      let '(out, rnd) := draw (length g) g rnd in
      let '(rest, rnd) := draw_all ps recs rnd in (out ++ rest, rnd)
  end.

(** The records in the order they are tried. *)
Definition order_records (recs : list SRV) (rnd : R) : list SRV * R :=
  let recs := List.filter usable recs in
  draw_all (merge_sort Z.le (remove_dups (map s_prio recs))) recs rnd.

Definition orderSRV (recs : list SRV) (rnd : R) : list srvTarget * R :=
  let '(out, rnd) := order_records recs rnd in (map target_of out, rnd).

Context (lookupSRV : gostring -> gostring -> gostring -> list SRV + dnsError).
Context (lookupIP : gostring -> list Addr + dnsError).

(** The addresses, or the error text. *)
Definition hostAddrs (host : gostring) (port : Z) : list AddrPort + gostring :=
  match lookupIP host with
  | inr e => inr (str "lookup " ++ host ++ str ": " ++ dns_text e)
  | inl ips =>
      match map (fun ip => mkAddrPort ip port) (List.filter (fun ip => negb (is_unspecified ip)) (map plain ips)) with
      | [] => inr (str "lookup " ++ host ++ str ": no addresses")
      | out => inl out
      end
  end.

(** Keep the first of each. *)
Fixpoint dedupe (seen : gset AddrPort) (l : list AddrPort) : list AddrPort :=
  match l with
  | [] => []
  | a :: l => if bool_decide (a ∈ seen) then dedupe seen l else a :: dedupe ({[ a ]} ∪ seen) l
  end.
Definition dedupeAddrPorts (l : list AddrPort) : list AddrPort := dedupe ∅ l.

Definition srvName (transport : gostring) : gostring * gostring :=
  if beq transport CarrierTLS then (str "sips", str "tcp")
  else if beq transport CarrierTCP then (str "sip", str "tcp")
  else (str "sip", str "udp").

(** The loop over the targets: the addresses found, and the last error. *)
Fixpoint all_targets (ts : list srvTarget) (out : list AddrPort) (lastErr : option gostring)
  : list AddrPort * option gostring :=
  match ts with
  | [] => (out, lastErr)
  | t :: ts => match hostAddrs (t_host t) (t_port t) with
               | inr e => all_targets ts out (Some e)
               | inl a => all_targets ts (out ++ a) lastErr
               end
  end.

Definition carrierModeSRV : gostring := str "srv".
Definition carrierModeA : gostring := str "a".

(** The destinations and the mode, or the error text. *)
Definition resolve (c : Carrier) (rnd : R) : (list AddrPort * gostring + gostring) * R :=
  let direct port := match hostAddrs (c_host c) port with
                     | inl a => inl (a, carrierModeA)
                     | inr e => inr e
                     end in
  let from_records recs rnd :=
    let '(ts, rnd) := orderSRV recs rnd in
    let '(out, lastErr) := all_targets ts [] None in
    (match out, recs, lastErr with
     | _ :: _, _, _ => inl (dedupeAddrPorts out, carrierModeSRV)
     | [], _ :: _, Some e => inr e
     | [], _, _ => direct (to_port (DialPort c))
     end, rnd) in
  if c_explicit c then (direct (to_port (c_port c)), rnd)
  else
    let '(service, proto) := srvName (c_transport c) in
    let r := lookupSRV service proto (c_host c) in
    match r with
    | inr e => if negb (IsNotFound e) then (inr (str "srv lookup: " ++ dns_text e), rnd) else from_records [] rnd
    | inl recs => from_records recs rnd
    end.
End Resolver.

(** ** The directory *)

Record carrierEntry := mkEntry {
  e_addrs : list AddrPort;    (* the last good set *)
  e_expiry : Z;
  e_failing : bool;
  e_resolvedAt : Z;
  e_mode : gostring;
  e_lastErr : gostring
}.

Definition new_entry : carrierEntry := mkEntry [] zero_time false zero_time [] [].

Record carrierDirectory := mkDir {
  d_carriers : list Carrier;
  d_static : list Prefix;
  d_extra : list Prefix;
  d_entries : gmap gostring carrierEntry;
  d_snap : carrierSnapshot
}.

Definition carrierDNSTTL : Z := 300 * second.
Definition carrierDNSNegTTL : Z := 10 * second.

(** [sort.Strings] *)
Fixpoint str_leb (a b : gostring) : bool :=
  match a, b with
  | [], _ => true
  | _ :: _, [] => false
  | x :: a, y :: b => (x <? y) || ((x =? y) && str_leb a b)
  end.
Definition str_le (a b : gostring) : Prop := str_leb a b = true.

(** The order of the prefixes: [netip.Addr.Compare], then the bits. *)
Definition addr_num (a : Addr) : Z := match a with AddrZero => 0 | V4 n => n | V6 n _ => n end.
Definition prefix_leb (p q : Prefix) : bool :=
  let a := p_addr p in let b := p_addr q in
  (bit_len a <? bit_len b) ||
  ((bit_len a =? bit_len b) && ((addr_num a <? addr_num b) ||
   ((addr_num a =? addr_num b) && (p_bits p <=? p_bits q)))).
Definition prefix_le (p q : Prefix) : Prop := prefix_leb p q = true.

#[export] Instance str_le_dec : RelDecision str_le.
Proof. intros a b. unfold str_le. apply _. Defined.
#[export] Instance prefix_le_dec : RelDecision prefix_le.
Proof. intros a b. unfold prefix_le. apply _. Defined.

(** [add]: a prefix once. *)
Definition add_net (ns : list Prefix) (p : Prefix) : list Prefix :=
  if bool_decide (p ∈ ns) then ns else ns ++ [p].

(** What [publish] takes from one carrier. *)
Definition publish_one (entries : gmap gostring carrierEntry) (s : carrierSnapshot) (c : Carrier) : carrierSnapshot :=
  let tr := if bool_decide (c_transport c = []) then CarrierUDP else c_transport c in
  let s := mkSnap (names s ++ [c_name c]) (addrs s) (nets s) (extra s) (<[c_name c := tr]> (transports s)) in
  if Literal c then
    mkSnap (names s) (<[c_name c := [mkAddrPort (c_addr c) (to_port (DialPort c))]]> (addrs s))
           (add_net (nets s) (host_prefix (c_addr c))) (extra s) (transports s)
  else match entries !! c_name c with
       | None => s
       | Some e =>
           mkSnap (names s) (<[c_name c := e_addrs e]> (addrs s))
                  (fold_left (fun ns a => add_net ns (host_prefix (ap_addr a))) (e_addrs e) (nets s))
                  (extra s) (transports s)
       end.

Definition publish (d : carrierDirectory) : carrierDirectory :=
  let s := fold_left (publish_one (d_entries d)) (d_carriers d)
             (mkSnap [] ∅ (fold_left add_net (d_static d) []) (d_extra d) ∅) in
  mkDir (d_carriers d) (d_static d) (d_extra d) (d_entries d)
        (mkSnap (merge_sort str_le (names s)) (addrs s) (merge_sort prefix_le (nets s)) (extra s) (transports s)).

Definition newCarrierDirectory (carriers : list Carrier) (static extra : list Prefix) : carrierDirectory :=
  publish (mkDir carriers static extra ∅ (mkSnap [] ∅ [] [] ∅)).

(** One outcome of a lookup recorded: whether there are addresses to publish. *)
Definition apply_lookup (c : Carrier) (now : Z) (r : list AddrPort * gostring + gostring) (d : carrierDirectory)
  : bool * carrierDirectory :=
  let e := default new_entry (d_entries d !! c_name c) in
  let set e := mkDir (d_carriers d) (d_static d) (d_extra d) (<[c_name c := e]> (d_entries d)) (d_snap d) in
  let failed text := (false, set (mkEntry (e_addrs e) (time_add now carrierDNSNegTTL) true (e_resolvedAt e) (e_mode e) text)) in
  match r with
  | inr text => failed text
  | inl ([], _) => failed (str "no addresses")
  | inl (l, mode) => (true, set (mkEntry l (time_add now carrierDNSTTL) false now mode []))
  end.

(** The loop of [refresh]: [now] is the time read for a carrier, [look] the
    outcome of resolving it then. *)
Fixpoint refresh_all (now : Carrier -> Z) (look : Carrier -> list AddrPort * gostring + gostring) (cs : list Carrier)
  (changed : bool) (d : carrierDirectory) : bool * carrierDirectory :=
  match cs with
  | [] => (changed, d)
  | c :: cs =>
      let fresh := match d_entries d !! c_name c with Some e => time_before (now c) (e_expiry e) | None => false end in
      if Literal c || fresh then refresh_all now look cs changed d
      else let '(ch, d) := apply_lookup c (now c) (look c) d in refresh_all now look cs (changed || ch) d
  end.

Definition refresh (now : Carrier -> Z) (look : Carrier -> list AddrPort * gostring + gostring) (d : carrierDirectory) : carrierDirectory :=
  let '(changed, d) := refresh_all now look (d_carriers d) false d in
  if changed then publish d else d.

(** ** Who a source is *)

Lemma match_addrs_spec src n l byIP : n <> [] ->
  let '(exact, byIP') := match_addrs src n l byIP in
  (exact = true <-> src ∈ l) /\
  (exact = false ->
     byIP' = if beq byIP [] && existsb (fun a => addr_eqb (ap_addr a) (ap_addr src)) l then n else byIP).
Proof.
  intros Hn. revert byIP. induction l as [|a l IH]; intros byIP; cbn [match_addrs existsb].
  - split; [split; [done|by intros ?%elem_of_nil]|]. intros _. by rewrite andb_false_r.
  - unfold ap_eqb at 1. case_bool_decide as Ha; [subst a; split; [split; [by left|done]|done]|].
    specialize (IH (if beq byIP [] && addr_eqb (ap_addr a) (ap_addr src) then n else byIP)).
    destruct (match_addrs _ _ _ _) as [exact byIP']. destruct IH as [IH1 IH2]. split.
    + rewrite IH1, elem_of_cons. split; [by right|by intros [->|]].
    + intros E. rewrite IH2 by done. destruct (beq byIP []) eqn:Eb; cbn [andb]; [|by rewrite Eb].
      destruct (addr_eqb (ap_addr a) (ap_addr src)); cbn [orb]; [|by rewrite Eb].
      assert (Ez : beq n [] = false) by (apply not_true_is_false; by rewrite beq_eq). by rewrite Ez.
Qed.

(** A carrier of this transport with this address, or with this very socket. *)
Definition has_ip (c : carrierSnapshot) (network : gostring) (ip : Addr) (n : gostring) : Prop :=
  transport_of c n = network /\ exists a, a ∈ addrs_of c n /\ ap_addr a = ip.
Definition has_socket (c : carrierSnapshot) (network : gostring) (src : AddrPort) (n : gostring) : Prop :=
  transport_of c n = network /\ src ∈ addrs_of c n.

Lemma existsb_ip l ip : existsb (fun a => addr_eqb (ap_addr a) ip) l = true <-> exists a, a ∈ l /\ ap_addr a = ip.
Proof.
  rewrite existsb_exists. split; intros (a & H1 & H2); exists a; (split; [by apply list_elem_of_In|]).
  - by apply bool_decide_eq_true in H2.
  - by apply bool_decide_eq_true_2.
Qed.

Lemma match_names_spec c src network ns : forall byIP, [] ∉ ns ->
  match match_names c src network ns byIP with
  | inl n => n ∈ ns /\ has_socket c network src n
  | inr byIP' =>
      (forall n, n ∈ ns -> ~ has_socket c network src n) /\
      (byIP' = byIP /\ (byIP = [] -> forall n, n ∈ ns -> ~ has_ip c network (ap_addr src) n) \/
       byIP = [] /\ byIP' ∈ ns /\ has_ip c network (ap_addr src) byIP')
  end.
Proof.
  induction ns as [|n ns IH]; intros byIP Hne; cbn [match_names].
  - split; [by intros ? ?%elem_of_nil|]. left. split; [done|]. by intros _ ? ?%elem_of_nil.
  - apply not_elem_of_cons in Hne as [Hn Hns].
    destruct (beq (transport_of c n) network) eqn:Et; cbn [negb].
    + apply beq_eq in Et. pose proof (match_addrs_spec src n (addrs_of c n) byIP (not_eq_sym Hn)) as M.
      destruct (match_addrs _ _ _ _) as [exact b1]. destruct M as [M1 M2]. destruct exact.
      { split; [by left|]. split; [done|by apply M1]. }
      specialize (M2 eq_refl). assert (Hno : ~ has_socket c network src n) by (intros [_ H]; by apply M1 in H).
      specialize (IH b1 Hns). destruct (match_names c src network ns b1) as [m|b2].
      { destruct IH as [H1 H2]. split; [by right|done]. }
      destruct IH as [Hs Hb]. split; [intros m [->|Hm]%elem_of_cons; [done|by apply Hs]|].
      destruct (beq byIP [] && existsb _ (addrs_of c n)) eqn:Ef.
      * apply andb_true_iff in Ef as [Ee Ex]. apply beq_eq in Ee. apply existsb_ip in Ex. right.
        destruct Hb as [[-> _]|[Hb _]]; [|congruence]. subst b1. split; [done|]. split; [by left|]. by split.
      * subst b1. destruct Hb as [[-> Hb]|(Hb & Hin & Hip)].
        -- left. split; [done|]. intros -> m [->|Hm]%elem_of_cons; [|by apply Hb].
           intros [_ Hex]. apply existsb_ip in Hex. by rewrite Hex in Ef.
        -- right. split; [done|]. split; [by right|done].
    + assert (Ht : transport_of c n <> network) by (rewrite <- beq_eq; by rewrite Et).
      specialize (IH byIP Hns). destruct (match_names c src network ns byIP) as [m|b2].
      { destruct IH as [H1 H2]. split; [by right|done]. }
      destruct IH as [Hs Hb]. split; [intros m [->|Hm]%elem_of_cons; [by intros [? _]|by apply Hs]|].
      destruct Hb as [[-> Hb]|(Hb & Hin & Hip)].
      * left. split; [done|]. intros Hbe m [->|Hm]%elem_of_cons; [by intros [? _]|by apply Hb].
      * right. split; [done|]. split; [by right|done].
Qed.

(** a source is named as a carrier only over that carrier's transport.  An
    entry that holds the very socket wins; failing that an entry that holds
    the address; failing that a source inside edge.carrier_sources is
    "unknown"; any other source is nobody. *)
Theorem carrierFor_spec c src network :
  [] ∉ names c ->
  let ip := plain (ap_addr src) in
  let sock := mkAddrPort ip (ap_port src) in
  match carrierFor c src network with
  | Some n =>
      (n ∈ names c /\ has_socket c network sock n) \/
      ((forall m, m ∈ names c -> ~ has_socket c network sock m) /\
       ((n ∈ names c /\ has_ip c network ip n) \/
        (n = carrierUnknown /\ (forall m, m ∈ names c -> ~ has_ip c network ip m) /\
         exists p, p ∈ extra c /\ prefix_contains p ip = true)))
  | None =>
      (forall m, m ∈ names c -> ~ has_ip c network ip m) /\
      (forall p, p ∈ extra c -> prefix_contains p ip = false)
  end.
Proof.
  intros Hne ip sock. unfold carrierFor. fold ip. fold sock.
  pose proof (match_names_spec c sock network (names c) [] Hne) as M.
  destruct (match_names c sock network (names c) []) as [n|b]; [by left|].
  destruct M as [Hs [[-> Hb]|(_ & Hin & Hip)]].
  - specialize (Hb eq_refl). change (negb (beq [] [])) with false. cbv iota.
    destruct (existsb _ (extra c)) eqn:Ex.
    + right. split; [done|]. right. split; [done|]. split; [done|].
      apply existsb_exists in Ex as (p & Hp & Hc). exists p. split; [by apply list_elem_of_In|done].
    + split; [done|]. intros p Hp. destruct (prefix_contains p ip) eqn:E; [|done].
      assert (existsb (fun p => prefix_contains p ip) (extra c) = true); [|congruence].
      apply existsb_exists. exists p. split; [by apply list_elem_of_In|done].
  - destruct (beq b []) eqn:Eb; [apply beq_eq in Eb; by subst b|]. cbn [negb]. right. split; [done|]. by left.
Qed.

(** Over TLS the carrier's address is its carrier, over UDP it is nobody. *)
Definition demo_carriers : list Carrier :=
  [mkCarrier (str "acme") (str "sip.acme.test") 5060 false AddrZero CarrierTLS;
   mkCarrier (str "beta") (str "192.0.2.9") 5060 false (ip4 192 0 2 9) CarrierUDP].

Definition demo_dir : carrierDirectory :=
  refresh (fun _ => second) (fun _ => inl ([mkAddrPort (ip4 203 0 113 1) 5061], carrierModeSRV))
    (newCarrierDirectory demo_carriers [mkPrefix (ip4 198 51 100 0) 24] [mkPrefix (ip4 198 51 100 0) 24]).

Lemma carrierFor_spec_witness :
  let c := d_snap demo_dir in
  ([] ∉ names c) /\
  carrierFor c (mkAddrPort (ip4 203 0 113 1) 40000) CarrierTLS = Some (str "acme") /\
  carrierFor c (mkAddrPort (ip4 203 0 113 1) 40000) CarrierUDP = None /\
  (forall m, m ∈ names c -> ~ has_ip c CarrierUDP (ip4 203 0 113 1) m).
Proof.
  assert (Hne : [] ∉ names (d_snap demo_dir)) by (apply (bool_decide_unpack _); vm_compute; exact I).
  pose proof (carrierFor_spec (d_snap demo_dir) (mkAddrPort (ip4 203 0 113 1) 40000) CarrierUDP Hne) as T.
  split; [exact Hne|]. split; [vm_compute; reflexivity|]. split; [vm_compute; reflexivity|].
  destruct (carrierFor (d_snap demo_dir) (mkAddrPort (ip4 203 0 113 1) 40000) CarrierUDP) eqn:E.
  { vm_compute in E. discriminate E. }
  exact (proj1 T).
Defined.

(** ** Outages *)

Lemma add_net_in ns p q : q ∈ add_net ns p <-> q ∈ ns \/ q = p.
Proof.
  unfold add_net. case_bool_decide as H; [split; [by left|intros [?| ->]; done]|].
  rewrite elem_of_app, list_elem_of_singleton. done.
Qed.

Lemma fold_add_hosts l : forall ns q,
  q ∈ fold_left (fun ns a => add_net ns (host_prefix (ap_addr a))) l ns <->
  q ∈ ns \/ exists a, a ∈ l /\ q = host_prefix (ap_addr a).
Proof.
  induction l as [|a l IH]; intros ns q; cbn [fold_left].
  - split; [by left|]. intros [?|(a & ?%elem_of_nil & _)]; done.
  - rewrite IH, add_net_in. split.
    + intros [[?| ->]|(b & Hb & ->)]; [by left|right; exists a; split; [by left|done]|right; exists b; split; [by right|done]].
    + intros [?|(b & [->|Hb]%elem_of_cons & ->)]; [by left; left|by left; right|right; by exists b].
Qed.

(** What the snapshot being built says about carrier [c] and its set [l]. *)
Definition snap_lists (s : carrierSnapshot) (c : Carrier) (l : list AddrPort) : Prop :=
  c_name c ∈ names s /\ addrs s !! c_name c = Some l /\
  transports s !! c_name c = Some (if bool_decide (c_transport c = []) then CarrierUDP else c_transport c) /\
  forall a, a ∈ l -> host_prefix (ap_addr a) ∈ nets s.

Lemma publish_one_keeps entries s c c' l : c_name c <> c_name c' ->
  snap_lists s c' l -> snap_lists (publish_one entries s c) c' l.
Proof.
  intros Hne (H1 & H2 & H3 & H4). unfold publish_one, snap_lists.
  destruct (Literal c); [|destruct (entries !! c_name c) as [e|]]; cbn [names addrs nets transports];
    rewrite ?lookup_insert_ne by done; (split; [by apply elem_of_app; left|]); (split; [done|]); (split; [done|]);
    intros a Ha; specialize (H4 a Ha); [apply add_net_in; by left|apply fold_add_hosts; by left|done].
Qed.

Lemma publish_one_lists entries s c e : Literal c = false -> entries !! c_name c = Some e ->
  snap_lists (publish_one entries s c) c (e_addrs e).
Proof.
  intros Hl He. unfold publish_one, snap_lists. rewrite Hl, He. cbn [names addrs nets transports].
  split; [apply elem_of_app; right; by left|]. rewrite !lookup_insert_eq. split; [done|]. split; [done|].
  intros a Ha. apply fold_add_hosts. right. by exists a.
Qed.

Lemma publish_fold entries cs : forall s c e,
  NoDup (map c_name cs) -> c ∈ cs -> Literal c = false -> entries !! c_name c = Some e ->
  snap_lists (fold_left (publish_one entries) cs s) c (e_addrs e).
Proof.
  induction cs as [|c0 cs IH]; intros s c e Hnd Hin Hl He; [by apply elem_of_nil in Hin|].
  cbn [map fold_left] in *. apply NoDup_cons in Hnd as [Hn Hnd].
  apply elem_of_cons in Hin as [<-|Hin]; [|by eapply IH].
  pose proof (publish_one_lists entries s c e Hl He) as H0. clear IH. revert H0.
  generalize (publish_one entries s c). intros s0 H0. revert s0 H0.
  induction cs as [|c1 cs IH]; intros s0 H0; [done|]. cbn [fold_left map] in *.
  apply not_elem_of_cons in Hn as [Hne Hn]. apply NoDup_cons in Hnd as [_ Hnd].
  apply IH; [done..|]. by apply publish_one_keeps.
Qed.

(** After a publish the snapshot lists the cached set of every DNS carrier. *)
Lemma publish_lists d c e :
  NoDup (map c_name (d_carriers d)) -> c ∈ d_carriers d -> Literal c = false -> d_entries d !! c_name c = Some e ->
  snap_lists (d_snap (publish d)) c (e_addrs e).
Proof.
  intros Hnd Hin Hl He.
  destruct (publish_fold (d_entries d) (d_carriers d) (mkSnap [] ∅ (fold_left add_net (d_static d) []) (d_extra d) ∅) c e)
    as (H1 & H2 & H3 & H4); [done..|].
  unfold publish, snap_lists. cbn [d_snap names addrs nets transports].
  split; [by rewrite merge_sort_Permutation|]. split; [done|]. split; [done|].
  intros a Ha. rewrite merge_sort_Permutation. by apply H4.
Qed.

(** The directory holds the set [l] for [c], cached and published. *)
Definition holds (d : carrierDirectory) (c : Carrier) (l : list AddrPort) : Prop :=
  snap_lists (d_snap d) c l /\ exists e, d_entries d !! c_name c = Some e /\ e_addrs e = l.

Lemma apply_lookup_fields c now r d :
  let d' := (apply_lookup c now r d).2 in
  d_carriers d' = d_carriers d /\ d_snap d' = d_snap d /\
  (forall n, n <> c_name c -> d_entries d' !! n = d_entries d !! n) /\
  (forall e, d_entries d !! c_name c = Some e ->
     (match r with inl (_ :: _, _) => False | _ => True end) ->
     exists e', d_entries d' !! c_name c = Some e' /\ e_addrs e' = e_addrs e).
Proof.
  unfold apply_lookup. destruct r as [[[|a l] mode]|text]; cbn; (split; [done|]); (split; [done|]);
    (split; [intros n Hn; by rewrite lookup_insert_ne|]); intros e He Hr; try done;
    rewrite He; cbn [default from_option id]; eexists; (split; [by rewrite lookup_insert_eq|done]).
Qed.

Lemma refresh_all_fields now look cs : forall ch d,
  let d' := (refresh_all now look cs ch d).2 in
  d_carriers d' = d_carriers d /\ d_snap d' = d_snap d.
Proof.
  induction cs as [|c cs IH]; intros ch d; [done|]. cbn [refresh_all]. destruct (Literal c || _); [by apply IH|].
  pose proof (apply_lookup_fields c (now c) (look c) d) as (F1 & F2 & _).
  destruct (apply_lookup c (now c) (look c) d) as [ch' d']. cbn [snd] in F1, F2.
  destruct (IH (ch || ch') d') as [-> ->]. by split.
Qed.

(** A failed lookup of [c] leaves its cached addresses, whatever the others do. *)
Lemma refresh_all_keeps now look c cs : forall ch d e,
  (forall c', c' ∈ cs -> c_name c' = c_name c -> match look c' with inl (_ :: _, _) => False | _ => True end) ->
  d_entries d !! c_name c = Some e ->
  exists e', d_entries (refresh_all now look cs ch d).2 !! c_name c = Some e' /\ e_addrs e' = e_addrs e.
Proof.
  induction cs as [|c1 cs IH]; intros ch d e Hlook He; cbn [refresh_all]; [by exists e|].
  destruct (Literal c1 || _); [apply IH; [|done]; intros; apply Hlook; [by right|done]|].
  pose proof (apply_lookup_fields c1 (now c1) (look c1) d) as (_ & _ & F3 & F4).
  destruct (apply_lookup c1 (now c1) (look c1) d) as [ch' d']. cbn [snd] in F3, F4.
  assert (He' : exists e', d_entries d' !! c_name c = Some e' /\ e_addrs e' = e_addrs e).
  { destruct (decide (c_name c = c_name c1)) as [Hn|Hn].
    - rewrite Hn in He |- *. apply F4; [done|]. apply Hlook; [by left|done].
    - exists e. by rewrite F3. }
  destruct He' as (e' & He' & Ha). destruct (IH (ch || ch') d' e') as (e2 & He2 & Ha2); [|done|].
  - intros. apply Hlook; [by right|done].
  - exists e2. split; [done|congruence].
Qed.

Lemma refresh_holds now look c l d :
  NoDup (map c_name (d_carriers d)) -> c ∈ d_carriers d -> Literal c = false ->
  (match look c with inl (_ :: _, _) => False | _ => True end) ->
  holds d c l ->
  let d' := refresh now look d in holds d' c l /\ d_carriers d' = d_carriers d.
Proof.
  intros Hnd Hin Hl Hlook [Hs (e & He & Hel)]. unfold refresh.
  pose proof (refresh_all_fields now look (d_carriers d) false d) as [F1 F2].
  destruct (refresh_all_keeps now look c (d_carriers d) false d e) as (e' & He' & Ha); [|done|].
  { intros c' Hc' Hn. assert (c' = c) as ->; [|done]. by eapply (nodup_map_eq c_name). }
  destruct (refresh_all now look (d_carriers d) false d) as [changed d']. cbn [snd] in *.
  assert (He2 : e_addrs e' = l) by congruence.
  destruct changed.
  - split; [|exact F1]. split; [|by exists e'].
    rewrite <- He2. apply publish_lists; rewrite ?F1; done.
  - split; [|done]. split; [by rewrite F2|by exists e'].
Qed.

(** Refreshing [n] times, with the clock and the resolver of each time. *)
Definition refreshes (rs : list ((Carrier -> Z) * (Carrier -> list AddrPort * gostring + gostring))) (d : carrierDirectory)
  : carrierDirectory := fold_left (fun d r => refresh r.1 r.2 d) rs d.

Lemma refreshes_hold c l rs : forall d,
  NoDup (map c_name (d_carriers d)) -> c ∈ d_carriers d -> Literal c = false ->
  Forall (fun r => match r.2 c with inl (_ :: _, _) => False | _ => True end) rs ->
  holds d c l -> holds (refreshes rs d) c l /\ d_carriers (refreshes rs d) = d_carriers d.
Proof.
  induction rs as [|r rs IH]; intros d Hnd Hin Hl Hrs Hh; [done|].
  inversion Hrs as [|? ? Hr Hrs']; subst. cbn [refreshes fold_left].
  pose proof (refresh_holds r.1 r.2 c l d Hnd Hin Hl Hr Hh) as [Hh' Hc].
  unfold refreshes in IH. destruct (IH (refresh r.1 r.2 d)) as [H1 H2]; rewrite ?Hc; try done. split; [done|congruence].
Qed.

Definition expired_entry (now : Carrier -> Z) (c : Carrier) (d : carrierDirectory) : Prop :=
  match d_entries d !! c_name c with Some e => time_before (now c) (e_expiry e) = false | None => True end.

Lemma refresh_all_changed now look cs : forall d, (refresh_all now look cs true d).1 = true.
Proof.
  induction cs as [|c1 cs IH]; intros d; [done|]. cbn [refresh_all]. destruct (Literal c1 || _); [apply IH|].
  destruct (apply_lookup _ _ _ _) as [ch' d']. apply IH.
Qed.

Lemma name_in (c : Carrier) cs : c ∈ cs -> c_name c ∈ map c_name cs.
Proof. intros H. apply list_elem_of_In, in_map. by apply list_elem_of_In. Qed.

(** A successful lookup of [c] is cached. *)
Lemma refresh_all_success now look c a l mode cs : forall ch d,
  c ∈ cs -> NoDup (map c_name cs) -> Literal c = false -> expired_entry now c d -> look c = inl (a :: l, mode) ->
  (refresh_all now look cs ch d).1 = true /\
  exists e, d_entries (refresh_all now look cs ch d).2 !! c_name c = Some e /\ e_addrs e = a :: l.
Proof.
  induction cs as [|c1 cs IH]; intros ch d Hin Hnd Hl Hexp Hlook; [by apply elem_of_nil in Hin|].
  cbn [map] in Hnd. apply NoDup_cons in Hnd as [Hn Hnd]. cbn [refresh_all]. apply elem_of_cons in Hin as [<-|Hin].
  - rewrite Hl. unfold expired_entry in Hexp.
    replace (match d_entries d !! c_name c with Some e => time_before (now c) (e_expiry e) | None => false end)
      with false by (destruct (d_entries d !! c_name c); [by rewrite Hexp|done]).
    cbn [orb]. rewrite Hlook. cbn [apply_lookup]. set (d1 := mkDir _ _ _ _ _). rewrite orb_true_r.
    split; [apply refresh_all_changed|].
    edestruct (refresh_all_keeps now look c cs true d1) as (e' & He' & Ha); [|cbn; by rewrite lookup_insert_eq|by exists e'].
    intros c' Hc' Hnn. exfalso. apply Hn. rewrite <- Hnn. by apply name_in.
  - assert (Hne : c_name c <> c_name c1) by (intros E; apply Hn; rewrite <- E; by apply name_in).
    destruct (Literal c1 || _); [by apply IH|].
    pose proof (apply_lookup_fields c1 (now c1) (look c1) d) as (_ & _ & F3 & _).
    destruct (apply_lookup c1 (now c1) (look c1) d) as [ch' d']. cbn [snd] in F3. apply IH; try done.
    unfold expired_entry. by rewrite F3.
Qed.

(** The first success publishes the set. *)
Lemma success_holds now look c l a mode d :
  NoDup (map c_name (d_carriers d)) -> c ∈ d_carriers d -> Literal c = false -> expired_entry now c d ->
  look c = inl (a :: l, mode) -> holds (refresh now look d) c (a :: l).
Proof.
  intros Hnd Hin Hl Hexp Hlook. unfold refresh.
  destruct (refresh_all_success now look c a l mode (d_carriers d) false d) as [Hch (e & He & Ha)]; try done.
  pose proof (refresh_all_fields now look (d_carriers d) false d) as [F1 _].
  destruct (refresh_all now look (d_carriers d) false d) as [changed d']. cbn [fst snd] in *. subst changed.
  split; [|by exists e]. rewrite <- Ha. apply publish_lists; rewrite ?F1; done.
Qed.

(** C38: a resolver outage never makes a carrier unknown.  Once a carrier's name
    resolved, then - through any number of refreshes in which its lookup fails
    or comes back empty, whatever the other carriers' lookups give - every
    address of that set is still a carrier source and is still named as a
    carrier that holds it over the carrier's transport. *)
Theorem outage_keeps_carrier now look c l mode rs d src :
  NoDup (map c_name (d_carriers d)) -> c ∈ d_carriers d -> Literal c = false ->
  expired_entry now c d -> look c = inl (l, mode) -> src ∈ l -> is_valid (ap_addr src) = true -> plain (ap_addr src) = ap_addr src ->
  Forall (fun r => match r.2 c with inl (_ :: _, _) => False | _ => True end) rs ->
  [] ∉ names (d_snap (refreshes rs (refresh now look d))) -> c_transport c <> [] ->
  let s := d_snap (refreshes rs (refresh now look d)) in
  isSource s (ap_addr src) = true /\
  exists n, carrierFor s src (c_transport c) = Some n /\ has_socket s (c_transport c) src n.
Proof.
  intros Hnd Hin Hl Hexp Hlook Hsrc Hv Hp Hrs Hne Htr s.
  destruct l as [|a l]; [by apply elem_of_nil in Hsrc|].
  pose proof (success_holds now look c l a mode d Hnd Hin Hl Hexp Hlook) as Hh.
  assert (Hc : d_carriers (refresh now look d) = d_carriers d).
  { unfold refresh. pose proof (refresh_all_fields now look (d_carriers d) false d) as [F1 _].
    destruct (refresh_all _ _ _ _ d) as [[] d']; exact F1. }
  destruct (refreshes_hold c (a :: l) rs (refresh now look d)) as [[(H1 & H2 & H3 & H4) _] _]; rewrite ?Hc; try done.
  fold s in H1, H2, H3, H4. rewrite bool_decide_eq_false_2 in H3 by done.
  split.
  - unfold isSource. apply existsb_exists. exists (host_prefix (ap_addr src)).
    split; [apply list_elem_of_In; by apply H4|]. rewrite Hp. rewrite <- Hp at 2. unfold plain.
    rewrite <- Hp. unfold plain. rewrite with_zone_unmap. apply host_prefix_contains. rewrite <- Hp in Hv. exact Hv.
  - assert (Hsock : has_socket s (c_transport c) src (c_name c)).
    { split; [unfold transport_of; by rewrite H3|unfold addrs_of; by rewrite H2]. }
    unfold carrierFor. rewrite Hp. replace (mkAddrPort (ap_addr src) (ap_port src)) with src by (by destruct src).
    pose proof (match_names_spec s src (c_transport c) (names s) [] Hne) as M.
    destruct (match_names s src (c_transport c) (names s) []) as [n|b].
    + exists n. by destruct M.
    + destruct M as [M _]. by apply M in Hsock.
Qed.

Definition demo_look : Carrier -> list AddrPort * gostring + gostring :=
  fun _ => inl ([mkAddrPort (ip4 203 0 113 1) 5061], carrierModeSRV).

Lemma outage_keeps_carrier_witness :
  let acme := mkCarrier (str "acme") (str "sip.acme.test") 5060 false AddrZero CarrierTLS in
  let d := newCarrierDirectory demo_carriers [] [] in
  let fails := (fun _ : Carrier => 400 * second, fun _ : Carrier => inr (str "timeout") : list AddrPort * gostring + gostring) in
  let s := d_snap (refreshes [fails; fails] (refresh (fun _ => second) demo_look d)) in
  isSource s (ip4 203 0 113 1) = true /\
  exists n, carrierFor s (mkAddrPort (ip4 203 0 113 1) 5061) CarrierTLS = Some n /\
            has_socket s CarrierTLS (mkAddrPort (ip4 203 0 113 1) 5061) n.
Proof.
  intros acme d fails s.
  apply (outage_keeps_carrier (fun _ => second) demo_look acme [mkAddrPort (ip4 203 0 113 1) 5061] carrierModeSRV
           [fails; fails] d (mkAddrPort (ip4 203 0 113 1) 5061)).
  - apply (bool_decide_unpack _). vm_compute. exact I.
  - left.
  - reflexivity.
  - exact I.
  - reflexivity.
  - left.
  - reflexivity.
  - reflexivity.
  - repeat constructor.
  - apply (bool_decide_unpack _). vm_compute. exact I.
  - discriminate.
Defined.

(** ** SRV order *)

Section SrvOrder.
Context {R : Type} (Intn : R -> Z -> Z * R).
(** rand.Intn(n) is in [0, n). *)
Context (Intn_range : forall rnd n, 0 < n -> 0 <= (Intn rnd n).1 < n).

Definition weights_ok (recs : list SRV) : Prop := Forall (fun r => 0 <= s_weight r) recs.

Lemma total_weight_nonneg g : weights_ok g -> 0 <= total_weight g.
Proof.
  unfold total_weight. assert (H0 : 0 <= 0) by lia. revert H0. generalize 0 at 2 4 as t.
  induction g as [|r g IH]; intros t Ht Hg; [done|]. inversion Hg; subst. cbn. apply IH; [lia|done].
Qed.

Lemma pick_at_bound target g : forall acc i, g <> [] -> (pick_at target acc i g < i + length g)%nat.
Proof.
  induction g as [|r g IH]; intros acc i Hg; [done|]. cbn [pick_at length]. case_if; [lia|].
  destruct g as [|r' g]; [cbn; lia|]. specialize (IH (acc + s_weight r) (S i)). cbn [length] in *.
  assert (r' :: g <> []) by done. specialize (IH H). lia.
Qed.

Lemma draw_perm n : forall g rnd, length g = n -> weights_ok g -> (draw Intn n g rnd).1 ≡ₚ g.
Proof.
  induction n as [|n IH]; intros g rnd Hn Hg; [by destruct g|].
  destruct g as [|r0 g0]; [done|]. set (g := r0 :: g0) in *. cbn [draw]. fold g. unfold g at 1.
  pose proof (total_weight_nonneg g Hg) as Ht.
  assert (Hlen : 0 < len g) by (unfold g; rewrite len_cons; pose proof (len_nonneg g0); lia).
  pose proof (Intn_range rnd (len g) Hlen) as Hr1. pose proof (Intn_range rnd (total_weight g + 1) ltac:(lia)) as Hr2.
  destruct (if total_weight g =? 0 then Intn rnd (len g) else Intn rnd (total_weight g + 1)) as [k rnd'] eqn:Ek.
  set (pick := if total_weight g =? 0 then Z.to_nat k else pick_at k 0 0 g).
  assert (Hp : (pick < length g)%nat).
  { unfold pick. destruct (total_weight g =? 0).
    - rewrite Ek in Hr1. cbn in Hr1. unfold len in Hr1. lia.
    - pose proof (pick_at_bound k g 0 0) as Hb. assert (g <> []) by done. specialize (Hb H). lia. }
  destruct (g !! pick) as [r|] eqn:Er; [|apply lookup_ge_None_1 in Er; lia].
  specialize (IH (take pick g ++ drop (S pick) g) rnd').
  destruct (draw Intn n _ rnd') as [rs rnd'']. cbn [fst] in *.
  rewrite IH.
  - rewrite <- delete_take_drop. symmetry. by apply delete_Permutation.
  - rewrite length_app, length_take, length_drop. lia.
  - unfold weights_ok. rewrite <- delete_take_drop. apply Forall_delete. exact Hg.
Qed.

Lemma group_of_perm p recs : group_of p recs ≡ₚ List.filter (fun r => s_prio r =? p) recs.
Proof.
  unfold group_of. generalize (List.filter (fun r => s_prio r =? p) recs). intros g.
  induction g as [|r g IH]; [done|]. cbn. destruct (s_weight r =? 0); cbn; [by rewrite IH|].
  rewrite <- Permutation_middle. by rewrite IH.
Qed.

Lemma group_of_ok p recs : weights_ok recs -> weights_ok (group_of p recs).
Proof.
  unfold weights_ok. intros H. rewrite group_of_perm, Forall_forall. intros r Hr.
  apply list_elem_of_In, filter_In in Hr as [Hr _]. apply (proj1 (Forall_forall _ _) H). by apply list_elem_of_In.
Qed.

Lemma draw_all_spec ps recs : forall rnd, weights_ok recs -> StronglySorted Z.le ps -> NoDup ps ->
  (draw_all Intn ps recs rnd).1 ≡ₚ List.filter (fun r => bool_decide (s_prio r ∈ ps)) recs /\
  StronglySorted (fun a b => s_prio a <= s_prio b) (draw_all Intn ps recs rnd).1.
Proof.
  induction ps as [|p ps IH]; intros rnd Hw Hs Hnd; cbn [draw_all].
  - split; [|constructor]. clear. induction recs as [|r recs IH]; [done|]. cbn [List.filter].
    by rewrite bool_decide_eq_false_2 by (by intros ?%elem_of_nil).
  - inversion Hs as [|? ? Hs' Hle]; subst. apply NoDup_cons in Hnd as [Hp Hnd].
    pose proof (draw_perm (length (group_of p recs)) (group_of p recs) rnd eq_refl (group_of_ok p recs Hw)) as Hd.
    destruct (draw Intn _ (group_of p recs) rnd) as [out rnd'] eqn:Ed. cbn [fst] in Hd.
    rewrite group_of_perm in Hd. destruct (IH rnd' Hw Hs' Hnd) as [Hperm Hsort].
    destruct (draw_all Intn ps recs rnd') as [rest rnd'']. cbn [fst] in *. split.
    + rewrite Hd, Hperm. clear -Hp. induction recs as [|r recs IH]; [done|]. cbn [List.filter].
      destruct (s_prio r =? p) eqn:E1.
      * apply Z.eqb_eq in E1. rewrite (bool_decide_eq_false_2 (s_prio r ∈ ps)) by (by rewrite E1).
        rewrite (bool_decide_eq_true_2 (s_prio r ∈ p :: ps)) by (rewrite E1; by left). cbn [app]. by rewrite IH.
      * assert (Hb : bool_decide (s_prio r ∈ p :: ps) = bool_decide (s_prio r ∈ ps)).
        { apply bool_decide_ext. rewrite elem_of_cons. split; [intros [?|?]; [lia|done]|by right]. }
        rewrite Hb. destruct (bool_decide (s_prio r ∈ ps)); [|exact IH].
        rewrite <- Permutation_middle. by rewrite IH.
    + assert (Hout : Forall (fun r => s_prio r = p) out).
      { rewrite Hd, Forall_forall. intros r Hr. apply list_elem_of_In, filter_In in Hr as [_ Hr]. lia. }
      assert (Hrest : Forall (fun r => p <= s_prio r) rest).
      { rewrite Hperm, Forall_forall. intros r Hr. apply list_elem_of_In, filter_In in Hr as [_ Hr].
        apply bool_decide_eq_true in Hr. by apply (proj1 (Forall_forall _ _) Hle). }
      clear -Hsort Hout Hrest. induction out as [|r out IH]; [done|]. inversion Hout; subst. cbn [app].
      constructor; [by apply IH|]. apply Forall_app. split.
      * eapply Forall_impl; [exact H2|]. cbn. lia.
      * eapply Forall_impl; [exact Hrest|]. cbn. lia.
Qed.

(** the SRV order is RFC 2782's.  Whatever the random numbers, every usable
    record is tried exactly once, no other is, and none before one of a lower
    priority value. *)
Theorem orderSRV_order recs rnd :
  weights_ok recs ->
  exists out, (orderSRV Intn recs rnd).1 = map target_of out /\
    out ≡ₚ List.filter usable recs /\ StronglySorted (fun a b => s_prio a <= s_prio b) out.
Proof.
  intros Hw. unfold orderSRV. destruct (order_records Intn recs rnd) as [out rnd'] eqn:E. exists out.
  split; [done|]. unfold order_records in E. set (us := List.filter usable recs) in *.
  set (ps := merge_sort Z.le (remove_dups (map s_prio us))) in *.
  destruct (draw_all_spec ps us rnd) as [H1 H2].
  - unfold us, weights_ok. rewrite Forall_forall. intros r Hr. apply list_elem_of_In, filter_In in Hr as [Hr _].
    apply (proj1 (Forall_forall _ _) Hw). by apply list_elem_of_In.
  - apply StronglySorted_merge_sort; apply _.
  - unfold ps. rewrite merge_sort_Permutation. apply NoDup_remove_dups.
  - rewrite E in H1, H2. cbn [fst] in H1, H2. split; [|done]. rewrite H1. apply reflexive_eq.
    clear -us. assert (H : forall r, r ∈ us -> s_prio r ∈ ps).
    { intros r Hr. unfold ps. rewrite merge_sort_Permutation. apply elem_of_remove_dups. apply list_elem_of_In, in_map.
      by apply list_elem_of_In. }
    revert H. generalize us as l. induction l as [|r l IH]; intros H; [done|]. cbn [List.filter].
    rewrite bool_decide_eq_true_2 by (apply H; by left). f_equal. apply IH. intros; apply H; by right.
Qed.
End SrvOrder.

(** Always the last of the range. *)
Definition last_pick (rnd : unit) (n : Z) : Z * unit := (n - 1, rnd).

Lemma orderSRV_order_witness :
  let recs := [mkSRV (str "b.test.") 5061 20 0; mkSRV (str ".") 5061 1 0;
               mkSRV (str "a.test.") 5061 10 1; mkSRV (str "c.test.") 5060 10 3] in
  (orderSRV last_pick recs tt).1 = [mkTarget (str "c.test") 5060; mkTarget (str "a.test") 5061; mkTarget (str "b.test") 5061] /\
  exists out, (orderSRV last_pick recs tt).1 = map target_of out /\
    out ≡ₚ List.filter usable recs /\ StronglySorted (fun a b => s_prio a <= s_prio b) out.
Proof.
  intros recs. split; [vm_compute; reflexivity|]. apply (orderSRV_order last_pick).
  - intros rnd n Hn. cbn. lia.
  - repeat constructor; cbn; lia.
Defined.

(** ** A partial outage *)

Definition two_targets (service proto host : gostring) : list SRV + dnsError :=
  inl [mkSRV (str "a.test.") 5061 10 0; mkSRV (str "b.test.") 5061 20 0].

Definition both_up (host : gostring) : list Addr + dnsError :=
  inl [if beq host (str "a.test") then ip4 203 0 113 1 else ip4 203 0 113 2].

Definition a_down (host : gostring) : list Addr + dnsError :=
  if beq host (str "a.test") then inr (mkDnsError false (str "i/o timeout")) else both_up host.

(** a partial outage drops an address: the carrier's name has two SRV targets.  When one of
    them stops resolving, the lookup of the carrier still succeeds with the
    other's address, so the set is replaced and the first address is a carrier
    source no more. *)
Theorem partial_outage_drops_address :
  let look ip := fun c => (resolve last_pick two_targets ip c tt).1 in
  let d0 := newCarrierDirectory demo_carriers [] [] in
  let d1 := refresh (fun _ => second) (look both_up) d0 in
  let d2 := refresh (fun _ => 400 * second) (look a_down) d1 in
  isSource (d_snap d1) (ip4 203 0 113 1) = true /\ isSource (d_snap d2) (ip4 203 0 113 1) = false /\
  carrierFor (d_snap d2) (mkAddrPort (ip4 203 0 113 1) 5061) CarrierTLS = None.
Proof. split; [|split]; vm_compute; reflexivity. Qed.
