(* ===== verification/Enum.v ===== *)
(** internal/edge/admission.go, [enumLimiter]: the REGISTER enumeration limit.
    A source whose REGISTERs were refused 403/404 for [enumMaxAORs] distinct
    AoRs within [enumWindow] is dropped until the window ends. *)

From S2P Require Import Prelude GoTime Netip Lru.

Open Scope Z_scope.

Definition enumWindow : Z := 10 * minute.
Definition enumMaxAORs : Z := 10.
Definition enumMaxSources : Z := 4096.

Record enumEntry := mkEnum { e_start : Z; e_aors : list gostring }.

Record enumLimiter := mkLimiterE { etab : Lru Addr enumEntry; emax : Z }.

Definition newEnumLimiter : enumLimiter := mkLimiterE lru_empty enumMaxSources.

Definition enumKey (ip : Addr) : Addr :=
  let ip := with_zone (unmap ip) [] in
  if is6 ip then mask64 ip else ip.

Definition blocked (now : Z) (ip : Addr) (l : enumLimiter) : bool :=
  match lru_get (enumKey ip) (etab l) with
  | None => false
  | Some e => (time_sub now (e_start e) <? enumWindow) && (enumMaxAORs <=? len (e_aors e))
  end.

(** The entry [rejected] works on once it is found or made. *)
Definition reject_entry (now : Z) (aor : gostring) (found : bool) (e : enumEntry) : bool * enumEntry :=
  let e := if found && (enumWindow <=? time_sub now (e_start e)) then mkEnum now [] else e in
  if enumMaxAORs <=? len (e_aors e) then (false, e)
  else if existsb (beq aor) (e_aors e) then (false, e)
  else let l := e_aors e ++ [aor] in (len l =? enumMaxAORs, mkEnum (e_start e) l).

Definition rejected (now : Z) (ip : Addr) (aor : gostring) (l : enumLimiter) : bool * enumLimiter :=
  let key := enumKey ip in
  let '(e, found, t) := enter back (emax l) key (mkEnum now []) (etab l) in
  let '(reached, e) := reject_entry now aor found e in
  (reached, mkLimiterE (set_value key e t) (emax l)).

Definition countsAsEnumeration (code : Z) : bool := (code =? 403) || (code =? 404).

(** ** What it counts *)

Definition enum_wf (l : enumLimiter) : Prop := 1 <= emax l /\ wf (etab l) /\ lru_len (etab l) <= emax l.

Lemma newEnumLimiter_wf : enum_wf newEnumLimiter.
Proof. split; [done|]. split; [apply wf_empty|done]. Qed.

Lemma rejected_wf now ip aor l : enum_wf l -> enum_wf (rejected now ip aor l).2.
Proof.
  intros (Hmax & Hwf & Hlen). unfold rejected.
  destruct (enter _ _ _ _ _) as [[e found] t] eqn:E. destruct (reject_entry now aor found e) as [r e'].
  eapply enter_spec in E as (Hwf' & Hlen' & Hk & _); [|apply back_sound|done..].
  split; [done|]. split; cbn [etab emax snd]; [apply wf_set_value; [done|by eexists]|exact Hlen'].
Qed.

(** One rejection, as the registrar's answer reports it. *)
Record rejection := mkRej { r_now : Z; r_ip : Addr; r_aor : gostring }.

Definition reject_step (l : enumLimiter) (r : rejection) : enumLimiter := (rejected (r_now r) (r_ip r) (r_aor r) l).2.

Definition keys_of (rs : list rejection) : gset Addr := list_to_set (map (fun r => enumKey (r_ip r)) rs).

(** The AoRs one source was refused for. *)
Definition aors_of (k : Addr) (rs : list rejection) : gset gostring :=
  list_to_set (map r_aor (List.filter (fun r => addr_eqb (enumKey (r_ip r)) k) rs)).

(** The time of its first refusal. *)
Fixpoint first_of (k : Addr) (rs : list rejection) : option Z :=
  match rs with
  | [] => None
  | r :: rs => if addr_eqb (enumKey (r_ip r)) k then Some (r_now r) else first_of k rs
  end.

(** All the refusals of [k] are within one window of its first. *)
Definition one_window (k : Addr) (rs : list rejection) : Prop :=
  forall t0 r, first_of k rs = Some t0 -> r ∈ rs -> enumKey (r_ip r) = k -> time_sub (r_now r) t0 < enumWindow.

(** The entry of a source, after its refusals [rs]. *)
Definition counts (k : Addr) (rs : list rejection) (m : gmap Addr enumEntry) : Prop :=
  match first_of k rs with
  | None => m !! k = None
  | Some t0 => exists e, m !! k = Some e /\ e_start e = t0 /\ NoDup (e_aors e) /\
      list_to_set (e_aors e) ⊆ aors_of k rs /\ len (e_aors e) <= enumMaxAORs /\
      (len (e_aors e) < enumMaxAORs -> list_to_set (e_aors e) = aors_of k rs)
  end.

Lemma first_of_app k rs r :
  first_of k (rs ++ [r]) = match first_of k rs with
                           | Some t => Some t
                           | None => if addr_eqb (enumKey (r_ip r)) k then Some (r_now r) else None
                           end.
Proof.
  induction rs as [|x rs IH]; [done|]. cbn [app first_of]. by destruct (addr_eqb (enumKey (r_ip x)) k).
Qed.

Lemma aors_of_app k rs r :
  aors_of k (rs ++ [r]) = if addr_eqb (enumKey (r_ip r)) k then {[ r_aor r ]} ∪ aors_of k rs else aors_of k rs.
Proof.
  unfold aors_of. rewrite List.filter_app. cbn [List.filter]. destruct (addr_eqb _ _).
  - rewrite map_app, list_to_set_app_L. cbn [map list_to_set]. set_solver.
  - by rewrite app_nil_r.
Qed.

Lemma first_of_none k rs : first_of k rs = None -> aors_of k rs = ∅.
Proof.
  induction rs as [|r rs IH]; [done|]. unfold aors_of in *. cbn [first_of List.filter].
  destruct (addr_eqb (enumKey (r_ip r)) k); [done|exact IH].
Qed.

Lemma one_window_app k rs r : one_window k (rs ++ [r]) -> one_window k rs.
Proof.
  intros H t0 x H1 H2 H3. apply (H t0 x); [by rewrite first_of_app, H1|apply elem_of_app; by left|done].
Qed.

(** What one refusal does to the entry of its source. *)
Lemma reject_entry_counts k rs r e :
  enumKey (r_ip r) = k -> one_window k (rs ++ [r]) ->
  (forall m, m !! k = Some e -> counts k rs m) -> is_Some (first_of k rs) ->
  forall m, m !! k = Some (reject_entry (r_now r) (r_aor r) true e).2 -> counts k (rs ++ [r]) m.
Proof.
  intros Hk Hw He [t0 Ht] m Hm. specialize (He {[ k := e ]}). rewrite lookup_singleton_eq in He. specialize (He eq_refl).
  unfold counts in *. rewrite first_of_app, Ht, aors_of_app in *. unfold addr_eqb. rewrite bool_decide_eq_true_2 by done.
  destruct He as (e0 & He0 & Hs & Hnd & Hsub & Hlen & Hall). rewrite lookup_singleton_eq in He0. injection He0 as <-.
  assert (Hin : time_sub (r_now r) t0 < enumWindow).
  { apply (Hw t0 r); [by rewrite first_of_app, Ht|apply elem_of_app; right; by left|done]. }
  unfold reject_entry in Hm. rewrite Hs in Hm. replace (enumWindow <=? time_sub (r_now r) t0) with false in Hm by lia.
  cbn [andb] in Hm. destruct (enumMaxAORs <=? len (e_aors e)) eqn:Efull.
  { exists e. split; [done|]. split; [done|]. split; [done|]. split; [set_solver|]. split; [done|]. lia. }
  assert (Hmem : existsb (beq (r_aor r)) (e_aors e) = true <-> r_aor r ∈ e_aors e).
  { rewrite existsb_exists. split.
    - intros (x & Hx & E). apply beq_eq in E as <-. by apply list_elem_of_In.
    - intros Hx. exists (r_aor r). split; [by apply list_elem_of_In|apply beq_refl]. }
  destruct (existsb (beq (r_aor r)) (e_aors e)) eqn:Edup.
  - exists e. split; [done|]. split; [done|]. split; [done|]. specialize (Hall ltac:(lia)).
    assert (r_aor r ∈ e_aors e) by by apply Hmem. split; [set_solver|]. split; [done|]. intros _. set_solver.
  - assert (Hni : r_aor r ∉ e_aors e) by (intros Hx; by apply Hmem in Hx). specialize (Hall ltac:(lia)).
    eexists. split; [exact Hm|]. cbn [e_start e_aors snd]. split; [done|]. split.
    + apply NoDup_app. split; [done|]. split; [|apply NoDup_singleton]. intros x Hx ->%list_elem_of_singleton. done.
    + rewrite list_to_set_app_L. cbn [list_to_set]. rewrite len_app. change (len [r_aor r]) with 1.
      split; [set_solver|]. split; [lia|]. intros _. set_solver.
Qed.

(** The first refusal of a source. *)
Lemma reject_entry_first k rs r : enumKey (r_ip r) = k -> first_of k rs = None ->
  forall m, m !! k = Some (reject_entry (r_now r) (r_aor r) false (mkEnum (r_now r) [])).2 -> counts k (rs ++ [r]) m.
Proof.
  intros Hk Hf m Hm. unfold counts. rewrite first_of_app, Hf, aors_of_app, (first_of_none _ _ Hf).
  unfold addr_eqb. rewrite bool_decide_eq_true_2 by done. eexists. split; [exact Hm|]. cbn.
  split; [done|]. split; [apply NoDup_singleton|]. split; [set_solver|]. split; [done|]. intros _. set_solver.
Qed.

Lemma counts_other k rs r m m' : enumKey (r_ip r) <> k -> m' !! k = m !! k -> counts k rs m -> counts k (rs ++ [r]) m'.
Proof.
  intros Hne Hm. unfold counts. rewrite first_of_app, aors_of_app, Hm. unfold addr_eqb.
  rewrite bool_decide_eq_false_2 by done. by destruct (first_of k rs).
Qed.

Lemma rejections_counted rs :
  Z.of_nat (size (keys_of rs)) <= enumMaxSources -> (forall k, one_window k rs) ->
  let l := fold_left reject_step rs newEnumLimiter in
  enum_wf l /\ emax l = enumMaxSources /\ dom (entries (etab l)) = keys_of rs /\
  forall k, counts k rs (entries (etab l)).
Proof.
  induction rs as [|r rs IH] using rev_ind; intros Hsz Hw; cbv zeta.
  { split; [apply newEnumLimiter_wf|]. split; [done|]. split; [done|]. done. }
  rewrite fold_left_app. cbn [fold_left].
  assert (Hkeys : keys_of (rs ++ [r]) = keys_of rs ∪ {[ enumKey (r_ip r) ]}).
  { unfold keys_of. rewrite map_app, list_to_set_app_L. cbn [map list_to_set]. set_solver. }
  rewrite Hkeys in Hsz |- *.
  assert (Hsz' : Z.of_nat (size (keys_of rs)) <= enumMaxSources).
  { etrans; [|exact Hsz]. apply inj_le, subseteq_size. set_solver. }
  destruct (IH Hsz' (fun k => one_window_app k rs r (Hw k))) as (Hwf & Hmax & Hdom & Hk). clear IH.
  set (l := fold_left reject_step rs newEnumLimiter) in *.
  split; [by apply rejected_wf|]. pose proof Hwf as (_ & Htwf & _).
  set (key := enumKey (r_ip r)) in *. pose proof (Hk key) as Hkey.
  unfold reject_step, rejected. fold key. rewrite enter_fits by (rewrite ?Hdom, ?Hmax; done).
  destruct (entries (etab l) !! key) as [e|] eqn:Ee.
  - destruct (reject_entry (r_now r) (r_aor r) true e) as [reached e'] eqn:Er. cbn [snd etab emax set_value move_to_front entries].
    split; [done|]. split.
    { rewrite dom_insert_L, Hdom. set_solver. }
    intros k. destruct (decide (key = k)) as [<-|Hne].
    + apply (reject_entry_counts key rs r e); [done|apply Hw| | |by rewrite lookup_insert_eq, Er].
      * intros m Hm. revert Hkey. unfold counts. rewrite Hm, Ee. done.
      * revert Hkey. unfold counts. destruct (first_of key rs); [by eexists|by rewrite Ee].
    + apply (counts_other k rs r (entries (etab l))); [done|by rewrite lookup_insert_ne|apply Hk].
  - destruct (reject_entry (r_now r) (r_aor r) false (mkEnum (r_now r) [])) as [reached e'] eqn:Er.
    cbn [snd etab emax set_value push_front entries]. split; [done|]. split.
    { rewrite !dom_insert_L, Hdom. set_solver. }
    intros k. destruct (decide (key = k)) as [<-|Hne].
    + apply (reject_entry_first key rs r); [done| |by rewrite lookup_insert_eq, Er].
      revert Hkey. unfold counts. destruct (first_of key rs); [|done]. by rewrite Ee; intros (? & ? & _).
    + apply (counts_other k rs r (entries (etab l))); [done|by rewrite !lookup_insert_ne|apply Hk].
Qed.

(** enumeration is cut off at the tenth AoR and no sooner.  After any
    refusals from up to [enumMaxSources] sources, each source's within one
    window of its first, a source is dropped at [now] exactly when its window
    is still open and at least [enumMaxAORs] distinct AoRs were refused to it:
    repeats of an AoR never count, and no source counts for another. *)
Theorem enumeration_cut_off rs now ip :
  Z.of_nat (size (keys_of rs)) <= enumMaxSources -> (forall k, one_window k rs) ->
  blocked now ip (fold_left reject_step rs newEnumLimiter) = true <->
  exists t0, first_of (enumKey ip) rs = Some t0 /\ time_sub now t0 < enumWindow /\
    enumMaxAORs <= Z.of_nat (size (aors_of (enumKey ip) rs)).
Proof.
  intros Hsz Hw. destruct (rejections_counted rs Hsz Hw) as (_ & _ & _ & Hk). specialize (Hk (enumKey ip)).
  unfold counts in Hk. unfold blocked, lru_get.
  set (m := entries (etab (fold_left reject_step rs newEnumLimiter))) in *.
  destruct (first_of (enumKey ip) rs) as [t0|]; [|rewrite Hk; split; [done|by intros (? & ? & _)]].
  destruct Hk as (e & -> & Hs & Hnd & Hsub & Hlen & Hall). rewrite Hs.
  assert (Hsize : Z.of_nat (size (list_to_set (e_aors e) : gset gostring)) = len (e_aors e)).
  { rewrite size_list_to_set by done. done. }
  assert (Hle : len (e_aors e) <= Z.of_nat (size (aors_of (enumKey ip) rs))).
  { rewrite <- Hsize. apply inj_le, subseteq_size. done. }
  rewrite andb_true_iff. split.
  - intros [H1 H2]. exists t0. split; [done|]. lia.
  - intros (t & [= <-] & H1 & H2). split; [lia|].
    destruct (decide (len (e_aors e) < enumMaxAORs)) as [Hlt|]; [|lia].
    rewrite <- (Hall Hlt), Hsize in H2. lia.
Qed.

Lemma enumeration_cut_off_witness :
  let scan n := mkRej (100 + Z.of_nat n) (ip4 192 0 2 1) [Z.of_nat n] in
  let rs := map scan (seq 0 10) ++ [mkRej 500 (ip4 192 0 2 2) [1]; mkRej 600 (ip4 192 0 2 1) [3]] in
  blocked 700 (ip4 192 0 2 1) (fold_left reject_step rs newEnumLimiter) = true /\
  blocked 700 (ip4 192 0 2 1) (fold_left reject_step (drop 1 rs) newEnumLimiter) = false.
Proof.
  intros scan rs. split; [|vm_compute; reflexivity].
  apply (enumeration_cut_off rs 700 (ip4 192 0 2 1)).
  - vm_compute. discriminate.
  - intros k t0 r Ht Hr Hk. assert (Hb : Forall (fun r => 0 <= r_now r <= 1000) rs).
    { apply (bool_decide_unpack _). vm_compute. exact I. }
    assert (H0 : 0 <= t0 <= 1000).
    { clear Hr Hk. revert Ht. generalize rs Hb. intros l Hl. induction Hl as [|x l Hx Hl IH]; [done|]. cbn [first_of].
      destruct (addr_eqb _ _); [by intros [= <-]|exact IH]. }
    pose proof (proj1 (Forall_forall _ _) Hb r Hr) as Hr0. unfold time_sub, enumWindow, minute, second, min_int64, max_int64, two63 in *. lia.
  - exists 100. split; [vm_compute; reflexivity|]. split; [vm_compute; reflexivity|]. vm_compute. discriminate.
Defined.
