(* ===== verification/Admission.v ===== *)
(** internal/edge/admission.go: what happens to a public request that would
    reach the switch without being authenticated.

    The policy reads the location table ([Location]), the carrier directory's
    view ([Carriers]) and strikes in the security plane ([Shield]); here they
    are put together as the code's [Server] holds them.

    - [admitPublicInvite], [admitPublicOutOfDialog], [admitDialogless];
    - [dropSilently], [admissionStrike], [malformedStrike];
    - [dropSummary] and [warnOnce], the two bounded memories of the logging. *)

From S2P Require Import Prelude GoTime Netip GoText BanList Offenders Shield ShieldSafety Carriers.
From S2P Require Location.

Open Scope Z_scope.

Inductive dropReason :=
  | dropInviteNotAdmitted | dropRegisterEnumeration | dropSubscribeNotAdmitted | dropMessageNotAdmitted
  | dropDialogless | dropRegisterAORLocked | dropOptions.

#[export] Instance dropReason_eq_dec : EqDecision dropReason.
Proof. solve_decision. Defined.

Definition reason_num (r : dropReason) : Z :=
  match r with
  | dropInviteNotAdmitted => 0 | dropRegisterEnumeration => 1 | dropSubscribeNotAdmitted => 2
  | dropMessageNotAdmitted => 3 | dropDialogless => 4 | dropRegisterAORLocked => 5 | dropOptions => 6
  end.

#[export] Instance dropReason_countable : Countable dropReason.
Proof.
  apply (inj_countable reason_num (fun z =>
    if z =? 0 then Some dropInviteNotAdmitted else if z =? 1 then Some dropRegisterEnumeration
    else if z =? 2 then Some dropSubscribeNotAdmitted else if z =? 3 then Some dropMessageNotAdmitted
    else if z =? 4 then Some dropDialogless else if z =? 5 then Some dropRegisterAORLocked
    else if z =? 6 then Some dropOptions else None)).
  by intros [].
Defined.

(** ** The summary of the drops *)

Record summaryCount := mkSum { n_admission : Z; n_malformed : Z }.

Record dropSummary := mkSummary {
  s_admission : Z; s_malformed : Z; bySrc : gmap Addr summaryCount; s_overflow : bool
}.

Definition maxSummarySources : Z := 1024.
Definition emptySummary : dropSummary := mkSummary 0 0 ∅ false.

Definition add_drop (ip : Addr) (malformed : bool) (d : dropSummary) : dropSummary :=
  let ip := plain ip in
  let adm := if malformed then s_admission d else s_admission d + 1 in
  let mal := if malformed then s_malformed d + 1 else s_malformed d in
  if bool_decide (bySrc d !! ip = None) && (maxSummarySources <=? Z.of_nat (size (bySrc d)))
  then mkSummary adm mal (bySrc d) true
  else
    let c := default (mkSum 0 0) (bySrc d !! ip) in
    let c := if malformed then mkSum (n_admission c) (n_malformed c + 1) else mkSum (n_admission c + 1) (n_malformed c) in
    mkSummary adm mal (<[ip := c]> (bySrc d)) (s_overflow d).

(** [netip.Addr.Less] *)
Definition addr_less (a b : Addr) : bool :=
  (bit_len a <? bit_len b) ||
  ((bit_len a =? bit_len b) &&
   ((addr_num a <? addr_num b) ||
    ((addr_num a =? addr_num b) &&
     match a, b with V6 _ z, V6 _ z' => negb (str_leb z' z) | _, _ => false end))).

Definition sum_of (c : summaryCount) : Z := n_admission c + n_malformed c.

(** The loop over the sources: the top one, its counts and their sum.  The
    order of a Go [range] is unspecified; [take_summary] uses that of
    [map_to_list], and ties are broken by address. *)
Fixpoint top_source (l : list (Addr * summaryCount)) (top : Addr * summaryCount * Z) : Addr * summaryCount * Z :=
  match l with
  | [] => top
  | (ip, c) :: l =>
      let '(best, _, n) := top in
      top_source l (if (n <? sum_of c) || ((sum_of c =? n) && addr_less ip best) then (ip, c, sum_of c) else top)
  end.

(** The figures of the summary line. *)
Record summaryLine := mkLine { l_admission : Z; l_malformed : Z; l_sources : Z; l_more : bool; l_top : Addr; l_count : summaryCount }.

Definition take_summary (d : dropSummary) : option summaryLine * dropSummary :=
  (if s_admission d + s_malformed d =? 0 then None
   else let '(ip, c, _) := top_source (map_to_list (bySrc d)) (AddrZero, mkSum 0 0, 0) in
        Some (mkLine (s_admission d) (s_malformed d) (Z.of_nat (size (bySrc d))) (s_overflow d) ip c),
   emptySummary).

(** ** Who has been warned about *)

Abbreviation warnKey := (dropReason * Addr)%type.

Record warnOnce := mkWarn { seen : gset warnKey; ring : list warnKey; wnext : nat; wmax : nat }.

Definition maxWarnedSources : nat := 4096.
Definition newWarnOnce (max : nat) : warnOnce := mkWarn ∅ [] 0 max.

Definition first (reason : dropReason) (ip : Addr) (w : warnOnce) : bool * warnOnce :=
  let k := (reason, plain ip) in
  if bool_decide (k ∈ seen w) then (false, w)
  else if Nat.ltb (length (ring w)) (wmax w) then (true, mkWarn ({[ k ]} ∪ seen w) (ring w ++ [k]) (wnext w) (wmax w))
  else match ring w !! wnext w with
       | None => (true, w)   (* a ring of no entries: the code would panic *)
       | Some old => (true, mkWarn ({[ k ]} ∪ (seen w ∖ {[ old ]})) (<[wnext w := k]> (ring w))
                              (Nat.modulo (wnext w + 1) (wmax w)) (wmax w))
       end.

(** The memory holds exactly what is in the ring, and never more than its
    capacity. *)
Record warn_ok (w : warnOnce) : Prop := {
  wo_seen : seen w = list_to_set (ring w);
  wo_nodup : NoDup (ring w);
  wo_len : (length (ring w) <= wmax w)%nat;
  wo_next : (wnext w < wmax w)%nat
}.

Lemma newWarnOnce_ok max : (0 < max)%nat -> warn_ok (newWarnOnce max).
Proof. intros H. split; cbn; [done|constructor|lia|done]. Qed.

Lemma first_ok reason ip w : warn_ok w -> warn_ok (first reason ip w).2.
Proof.
  intros Hw. pose proof Hw as [Hs Hnd Hl Hn]. unfold first. set (k := (reason, plain ip)).
  destruct (bool_decide (k ∈ seen w)) eqn:Hk; [done|]. apply bool_decide_eq_false in Hk.
  assert (Hkr : k ∉ ring w) by (intros H; apply Hk; rewrite Hs; by apply elem_of_list_to_set).
  destruct (Nat.ltb _ _) eqn:E; [apply Nat.ltb_lt in E|apply Nat.ltb_ge in E].
  - split; cbn.
    + rewrite list_to_set_app_L, Hs. cbn. set_solver.
    + apply NoDup_app. split; [done|]. split; [|apply NoDup_singleton]. by intros x Hx ->%list_elem_of_singleton.
    + rewrite length_app. cbn. lia.
    + done.
  - destruct (ring w !! wnext w) as [old|] eqn:Eo; [|done].
    pose proof (delete_Permutation _ _ _ Eo) as Hp.
    assert (Hi : <[wnext w := k]> (ring w) ≡ₚ k :: delete (wnext w) (ring w)).
    { assert (Hlen : (wnext w < length (ring w))%nat) by (by apply lookup_lt_Some in Eo).
      rewrite insert_take_drop, delete_take_drop by done. by rewrite Permutation_middle. }
    rewrite Hp in Hnd. apply NoDup_cons in Hnd as [Ho Hnd].
    split; cbn.
    + rewrite (list_to_set_perm_L _ _ Hi), Hs, (list_to_set_perm_L _ _ Hp). cbn [list_to_set foldr].
      assert (old ∉ (list_to_set (delete (wnext w) (ring w)) : gset warnKey)) by (by rewrite elem_of_list_to_set).
      set_solver.
    + rewrite Hi. apply NoDup_cons. split; [|done]. intros H. apply Hkr. rewrite Hp. by right.
    + rewrite length_insert. lia.
    + apply Nat.mod_upper_bound. lia.
Qed.

(** ** The policy *)

(** What the checks read of a request: its transport and the From user. *)
Record request := mkRequest { rq_transport : gostring; rq_from : option gostring }.

Inductive inviteSource := srcDrop | srcClient | srcCarrier.
Inductive outOfDialogVerdict := oodAdmitted | oodCarrier | oodDropped.

(** The parts of a Server the checks use; [shield] is nil before Run. *)
Record Server := mkServer {
  loc : Location.Location;
  carriers : carrierSnapshot;
  shield : option plane;
  dropped : gmap dropReason Z;       (* the metric *)
  summary : dropSummary;
  dropWarned : warnOnce
}.

Section Policy.
(** sipgo's NetworkToLower. *)
Context (NetworkToLower : gostring -> gostring).
(** The clock, the shield section of the configuration and the proof of
    sockets the shield is given. *)
Context (now : Z) (cfg : ShieldConfig) (vouched : gostring -> AddrPort -> bool).

Definition env_of (s : Server) : env := mkEnv now cfg (isSource (carriers s)) vouched.

Definition admitPublicInvite (req : request) (src : AddrPort) (s : Server) : inviteSource * gostring :=
  let tr := NetworkToLower (rq_transport req) in
  if Location.HasSource now tr src (loc s) then (srcClient, [])
  else match carrierFor (carriers s) src tr with
       | Some name => (srcCarrier, name)
       | None => (srcDrop, [])
       end.

Definition set_shield (sh : option plane) (s : Server) : Server :=
  mkServer (loc s) (carriers s) sh (dropped s) (summary s) (dropWarned s).

(** [s.carriers.snapshot().isSource(ip) || s.loc.HasIP(ip)] *)
Definition exempt (ip : Addr) (s : Server) : bool := isSource (carriers s) ip || Location.HasIP ip (loc s).

Definition admissionStrike (ip : Addr) (transport : gostring) (s : Server) : Server :=
  match shield s with
  | None => s
  | Some sh =>
      let ip := unmap ip in
      if exempt ip s then s
      else set_shield (Some (StrikeOn (env_of s) ip StrikeAdmission transport sh).2) s
  end.

(** [src] is the read's remote address, [None] when it does not parse. *)
Definition malformedStrike (src : option AddrPort) (transport : gostring) (s : Server) : Server :=
  match shield s, src with
  | Some sh, Some ap =>
      let ip := unmap (ap_addr ap) in
      if exempt ip s then s
      else mkServer (loc s) (carriers s) (Some (StrikeOn (env_of s) ip StrikeMalformed transport sh).2)
             (dropped s) (add_drop ip true (summary s)) (dropWarned s)
  | _, _ => s
  end.

(** The drop, and whether it is logged at WARN. *)
Definition dropSilently (reason : dropReason) (req : request) (src : AddrPort) (s : Server) : bool * Server :=
  let s := mkServer (loc s) (carriers s) (shield s)
             (<[reason := default 0 (dropped s !! reason) + 1]> (dropped s))
             (add_drop (ap_addr src) false (summary s)) (dropWarned s) in
  let s := if bool_decide (reason = dropRegisterAORLocked) then s
           else admissionStrike (ap_addr src) (NetworkToLower (rq_transport req)) s in
  let '(warn, w) := first reason (ap_addr src) (dropWarned s) in
  (warn, mkServer (loc s) (carriers s) (shield s) (dropped s) (summary s) w).

Definition admitPublicOutOfDialog (req : request) (src : AddrPort) (reason : dropReason) (s : Server)
  : option Location.Binding * outOfDialogVerdict * Server :=
  let tr := NetworkToLower (rq_transport req) in
  match Location.SourceBinding now tr src (default [] (rq_from req)) (loc s) with
  | Some b => (Some b, oodAdmitted, s)
  | None => match carrierFor (carriers s) src tr with
            | Some _ => (None, oodCarrier, s)
            | None => (None, oodDropped, (dropSilently reason req src s).2)
            end
  end.

Definition admitDialogless (req : request) (src : AddrPort) (s : Server) : bool * Server :=
  match (admitPublicInvite req src s).1 with
  | srcDrop => (false, (dropSilently dropDialogless req src s).2)
  | _ => (true, s)
  end.
End Policy.

(** ** What the policy does to the sources it knows *)

(** The calls the handlers make, each at its time. *)
Inductive policy_op :=
  | PDrop (reason : dropReason) (req : request) (src : AddrPort)
  | POutOfDialog (req : request) (src : AddrPort) (reason : dropReason)
  | PDialogless (req : request) (src : AddrPort)
  | PMalformed (src : option AddrPort) (transport : gostring).

Section KnownSources.
Context (NetworkToLower : gostring -> gostring) (cfg : ShieldConfig) (vouched : gostring -> AddrPort -> bool).

Definition policy_step (s : Server) (o : Z * policy_op) : Server :=
  let '(now, o) := o in
  match o with
  | PDrop reason req src => (dropSilently NetworkToLower now cfg vouched reason req src s).2
  | POutOfDialog req src reason => (admitPublicOutOfDialog NetworkToLower now cfg vouched req src reason s).2
  | PDialogless req src => (admitDialogless NetworkToLower now cfg vouched req src s).2
  | PMalformed src tr => malformedStrike now cfg vouched src tr s
  end.

(** The strikes of one step: none, or one against a source that is not exempt. *)
Definition strikes_one (now : Z) (s s' : Server) : Prop :=
  loc s' = loc s /\ carriers s' = carriers s /\
  (shield s' = shield s \/
   exists ip why tr, exempt ip s = false /\ unmap ip = ip /\
     shield s' = (fun sh => step sh (env_of now cfg vouched s, EvStrikeOn ip why tr)) <$> shield s).

Lemma admissionStrike_one now ip tr s : strikes_one now s (admissionStrike now cfg vouched ip tr s).
Proof.
  unfold admissionStrike. destruct (shield s) as [sh|] eqn:Es; [|split; [done|]; split; [done|]; by left].
  destruct (exempt (unmap ip) s) eqn:Ee; [split; [done|]; split; [done|]; by left|].
  split; [done|]. split; [done|]. right. exists (unmap ip), StrikeAdmission, tr.
  split; [done|]. split; [apply unmap_idem|]. by rewrite Es.
Qed.

Lemma dropSilently_one now reason req src s :
  strikes_one now s (dropSilently NetworkToLower now cfg vouched reason req src s).2.
Proof.
  unfold dropSilently. set (s1 := mkServer _ _ _ _ _ _).
  assert (H : strikes_one now s1 (if bool_decide (reason = dropRegisterAORLocked) then s1
            else admissionStrike now cfg vouched (ap_addr src) (NetworkToLower (rq_transport req)) s1)).
  { case_if; [split; [done|]; split; [done|]; by left|apply admissionStrike_one]. }
  destruct (first _ _ _) as [warn w]. destruct H as (H1 & H2 & H3).
  split; [exact H1|]. split; [exact H2|]. exact H3.
Qed.

Lemma policy_step_one now o s : strikes_one now s (policy_step s (now, o)).
Proof.
  assert (Hrefl : strikes_one now s s) by (split; [done|]; split; [done|]; by left).
  destruct o as [reason req src|req src reason|req src|src tr]; cbn [policy_step].
  - apply dropSilently_one.
  - unfold admitPublicOutOfDialog. destruct (Location.SourceBinding _ _ _ _ _); [done|].
    destruct (carrierFor _ _ _); [done|]. apply dropSilently_one.
  - unfold admitDialogless. destruct (admitPublicInvite _ _ _ _ _) as [[] ?]; try done. apply dropSilently_one.
  - unfold malformedStrike. destruct (shield s) as [sh|] eqn:Es; [|done]. destruct src as [ap|]; [|done].
    destruct (exempt (unmap (ap_addr ap)) s) eqn:Ee; [done|].
    split; [done|]. split; [done|]. right. exists (unmap (ap_addr ap)), StrikeMalformed, tr.
    split; [done|]. split; [apply unmap_idem|]. by rewrite Es.
Qed.

(** The strikes of a run, as calls of the plane. *)
Lemma policy_run_strikes T os : forall s sh, shield s = Some sh -> Forall (fun o => o.1 <= T) os ->
  exists evs, shield (run_ops policy_step s os) = Some (run_ops step sh evs) /\ up_to T evs /\
    forall e ev, (e, ev) ∈ evs -> exists ip why tr, ev = EvStrikeOn ip why tr /\ exempt ip s = false /\ unmap ip = ip.
Proof.
  induction os as [|[now o] os IH]; intros s sh Hs Hos; [exists []; split; [done|]; split; [constructor|by intros ?? ?%elem_of_nil]|].
  inversion Hos as [|? ? Ht Hos']; subst. cbn [fst] in Ht. cbn [run_ops fold_left].
  pose proof (policy_step_one now o s) as (Hl & Hc & Hsh).
  assert (Hex : forall ip, exempt ip (policy_step s (now, o)) = exempt ip s) by (intros ip; unfold exempt; by rewrite Hl, Hc).
  destruct Hsh as [Hsame|(ip & why & tr & He & Hu & Hstep)].
  - destruct (IH (policy_step s (now, o)) sh) as (evs & E1 & E2 & E3); [by rewrite Hsame|done|].
    exists evs. split; [done|]. split; [done|]. intros e ev Hin. destruct (E3 e ev Hin) as (ip & why & tr & -> & Hx & Hu).
    rewrite Hex in Hx. by exists ip, why, tr.
  - set (ev := (env_of now cfg vouched s, EvStrikeOn ip why tr)) in *. rewrite Hs in Hstep. cbn [fmap option_fmap option_map] in Hstep.
    destruct (IH _ _ Hstep Hos') as (evs & E1 & E2 & E3).
    exists (ev :: evs). split; [exact E1|]. split; [constructor; done|].
    intros e x [[= -> ->]|Hin]%elem_of_cons; [by exists ip, why, tr|].
    destruct (E3 e x Hin) as (ip' & why' & tr' & -> & Hx & Hu'). rewrite Hex in Hx. by exists ip', why', tr'.
Qed.

Lemma no_cause_ip c evs a s :
  (forall e ev, (e, ev) ∈ evs -> exists ip why tr, ev = EvStrikeOn ip why tr /\ exempt ip s = false /\ unmap ip = ip) ->
  exempt (unmap a) s = true ->
  (forall e ip why tr, c e (EvStrikeOn ip why tr) = true -> unmap a = unmap ip) ->
  ~ some_cause c evs.
Proof.
  intros Hev Hex Hc (e & ev & Hin & Hce). destruct (Hev e ev Hin) as (ip & why & tr & -> & Hx & Hu).
  apply Hc in Hce. rewrite Hce, Hu in Hex. congruence.
Qed.

(** C37: the policy never bans a source it knows.  However many requests of
    however many sources admission drops, malformed reads included, a carrier
    source or an address that holds a registration that was not banned before
    is not banned after, on any transport. *)
Theorem known_sources_are_never_banned os s sh e src tr :
  shield s = Some sh -> bans_ok sh -> Forall (fun o => o.1 <= now e) os ->
  exempt (unmap (ap_addr src)) s = true ->
  (BannedFrom e src tr sh).1 = false ->
  exists sh', shield (run_ops policy_step s os) = Some sh' /\ (BannedFrom e src tr sh').1 = false.
Proof.
  intros Hs Hok Hos Hex Hb. destruct (policy_run_strikes (now e) os s sh Hs Hos) as (evs & E1 & E2 & E3).
  eexists. split; [exact E1|]. destruct (run_explained (now e) evs sh Hok E2) as [_ [X1 X2 X3]].
  rewrite BannedFrom_blocked in Hb |- *. apply orb_false_iff in Hb as [Hb1 Hb2].
  assert (N1 : blocked (now e) (unmap (ap_addr src)) (ipBans (run_ops step sh evs)) = false).
  { apply not_true_is_false. intros Hb. destruct (proj2 (X1 _) Hb) as [?|Hc]; [congruence|]. revert Hc.
    apply (no_cause_ip _ _ (ap_addr src) s E3 Hex). intros e' ip why tr' H. unfold causes_ip in H.
    apply andb_true_iff in H as [_ H]. apply andb_true_iff in H as [_ H]. by apply bool_decide_eq_true in H. }
  rewrite N1. destruct (isUDP tr); [|done]. cbn [andb orb] in Hb2 |- *. apply orb_false_iff in Hb2 as [Hb2 Hb3].
  assert (N2 : blocked (now e) (unmap (ap_addr src)) (udpBans (run_ops step sh evs)) = false).
  { apply not_true_is_false. intros Hb. destruct (proj2 (X3 _) Hb) as [?|Hc]; [congruence|]. revert Hc.
    apply (no_cause_ip _ _ (ap_addr src) s E3 Hex). intros e' ip why tr' H. unfold causes_udp in H.
    apply andb_true_iff in H as [_ H]. apply andb_true_iff in H as [_ H]. by apply bool_decide_eq_true in H. }
  rewrite N2. cbn [orb]. destruct (ap_port src =? 0); [done|]. cbn [negb andb] in Hb3 |- *.
  apply not_true_is_false. intros Hb. destruct (proj2 (X2 _) Hb) as [?|(e' & ev & Hin & Hc)]; [congruence|].
  destruct (E3 e' ev Hin) as (ip & why & tr' & -> & _). unfold causes_socket in Hc. by rewrite andb_false_r in Hc.
Qed.
End KnownSources.

(** A phone registered at 192.0.2.7 keeps sending BYEs of no dialog, and so
    does a stranger: only the stranger is banned. *)
Definition demo_server : Server :=
  mkServer (Location.Put 5 (str "t1") (Location.mkBinding [] (str "bob@x") (str "bob") (str "udp")
              (mkAddrPort (ip4 192 0 2 7) 5060) (2 * hour) (str "c1")) Location.NewLocation).2
    (d_snap demo_dir) (Some New) ∅ emptySummary (newWarnOnce maxWarnedSources).

Definition demo_shield_cfg : ShieldConfig :=
  mkSCfg (str "50/s per ip") (str "50/s") hour (str "5/1m") (str "10/10m") (str "3/1m").

Definition demo_ops : list (Z * policy_op) :=
  flat_map (fun a => repeat (second, PDialogless (mkRequest (str "udp") None) (mkAddrPort a 7000)) 5)
    [ip4 192 0 2 7; ip4 192 0 2 8].

Lemma known_sources_are_never_banned_witness :
  let run := run_ops (policy_step (fun t => t) demo_shield_cfg (fun _ _ => false)) demo_server demo_ops in
  let e := mkEnv (2 * second) demo_shield_cfg (isSource (d_snap demo_dir)) (fun _ _ => false) in
  (exists sh, shield run = Some sh /\ (BannedFrom e (mkAddrPort (ip4 192 0 2 7) 9) (str "udp") sh).1 = false) /\
  match shield run with
  | Some sh => (BannedFrom e (mkAddrPort (ip4 192 0 2 8) 9) (str "udp") sh).1
  | None => false
  end = true.
Proof.
  split; [|vm_compute; reflexivity].
  apply (known_sources_are_never_banned (fun t => t) demo_shield_cfg (fun _ _ => false) demo_ops demo_server New
             (mkEnv (2 * second) demo_shield_cfg (isSource (d_snap demo_dir)) (fun _ _ => false))
             (mkAddrPort (ip4 192 0 2 7) 9) (str "udp")).
  - reflexivity.
  - apply New_ok.
  - apply (bool_decide_unpack _). vm_compute. exact I.
  - vm_compute. reflexivity.
  - vm_compute. reflexivity.
Defined.
