(* ===== verification/GoEncoding.v ===== *)
(** Go's [encoding/base64] and the textual forms of [net/netip] addresses, as
    far as the sources use them.

    [b64_encode] is [StdEncoding]; [b64_decode] is [StdEncoding] ([pad]) or
    [RawStdEncoding] (no [pad]), not strict, carriage returns and line feeds
    skipped, as in Go.  [parse_addr] is [netip.ParseAddr] and [addr_string] is
    [Addr.String]; the text of an IPv4 address, and of an IPv6 one that is no
    mapped one and has no zone, reads back ([ipv4_text_reads],
    [ipv6_text_reads]). *)

From S2P Require Import Prelude GoText Netip.

Open Scope Z_scope.

(** [strconv.AppendInt(b, n, 10)] *)
Definition int_string (n : Z) : gostring := if n <? 0 then str "-" ++ itoa (- n) else itoa n.

(** ** base64 *)

Definition b64_alphabet : gostring := str "ABCDEFGHIJKLMNOPQRSTUVWXYZabcdefghijklmnopqrstuvwxyz0123456789+/".
Definition b64_char (n : Z) : Z := nth (Z.to_nat n) b64_alphabet 0.
Definition b64_val (c : Z) : option Z := Z.of_nat <$> index_byte b64_alphabet c.
Definition b64_pad : Z := 61.

Fixpoint b64_encode (bs : list Z) : gostring :=
  match bs with
  | a :: b :: c :: rest =>
      b64_char (a / 4) :: b64_char (a mod 4 * 16 + b / 16) :: b64_char (b mod 16 * 4 + c / 64)
      :: b64_char (c mod 64) :: b64_encode rest
  | [a; b] => [b64_char (a / 4); b64_char (a mod 4 * 16 + b / 16); b64_char (b mod 16 * 4); b64_pad]
  | [a] => [b64_char (a / 4); b64_char (a mod 4 * 16); b64_pad; b64_pad]
  | [] => []
  end.

(** The bytes of a quantum from its sextets. *)
Definition quantum1 (a b : Z) : Z := a * 4 + b / 16.
Definition quantum2 (b c : Z) : Z := b mod 16 * 16 + c / 4.
Definition quantum3 (c d : Z) : Z := c mod 4 * 64 + d.

Fixpoint b64_quanta (pad : bool) (s : gostring) : option (list Z) :=
  match s with
  | [] => Some []
  | a :: b :: s2 =>
      match b64_val a, b64_val b with
      | Some va, Some vb =>
          match s2 with
          | [] => if pad then None else Some [quantum1 va vb]
          | c :: s3 =>
              match b64_val c with
              | Some vc =>
                  match s3 with
                  | [] => if pad then None else Some [quantum1 va vb; quantum2 vb vc]
                  | d :: s4 =>
                      match b64_val d with
                      | Some vd => (fun r => quantum1 va vb :: quantum2 vb vc :: quantum3 vc vd :: r) <$> b64_quanta pad s4
                      | None => if pad && (d =? b64_pad) && bool_decide (s4 = []) then Some [quantum1 va vb; quantum2 vb vc] else None
                      end
                  end
              | None => if pad && (c =? b64_pad) && bool_decide (s3 = [b64_pad]) then Some [quantum1 va vb] else None
              end
          end
      | _, _ => None
      end
  | [_] => None
  end.

Definition b64_decode (pad : bool) (s : gostring) : option (list Z) :=
  b64_quanta pad (List.filter (fun c => negb (mem c [10; 13])) s).

Lemma b64_val_char n : 0 <= n < 64 -> b64_val (b64_char n) = Some n.
Proof.
  intros H. assert (A : forallb (fun k => bool_decide (b64_val (b64_char (Z.of_nat k)) = Some (Z.of_nat k))) (seq 0 64) = true)
    by (vm_compute; reflexivity).
  rewrite forallb_forall in A. specialize (A (Z.to_nat n)). rewrite bool_decide_eq_true, Z2Nat.id in A by lia.
  apply A, in_seq. lia.
Qed.

(** The characters of an encoding: letters, digits, "+", "/" and "=". *)
Definition b64_ok (c : Z) : bool := is_alnum c || (c =? 43) || (c =? 47) || (c =? b64_pad).

Lemma b64_char_ok n : 0 <= n < 64 -> b64_ok (b64_char n) = true.
Proof.
  intros H. assert (A : forallb (fun k => b64_ok (b64_char (Z.of_nat k))) (seq 0 64) = true) by (vm_compute; reflexivity).
  rewrite forallb_forall in A. specialize (A (Z.to_nat n)). rewrite Z2Nat.id in A by lia. apply A, in_seq. lia.
Qed.

(** Induction over the quanta of three bytes. *)
Lemma quanta_ind (P : list Z -> Prop) :
  P [] -> (forall a, P [a]) -> (forall a b, P [a; b]) -> (forall a b c l, P l -> P (a :: b :: c :: l)) -> forall l, P l.
Proof.
  intros H0 H1 H2 H3 l. enough (H : forall n l, (length l <= n)%nat -> P l) by by apply (H (length l)).
  intros n. induction n as [|n IH]; intros [|a [|b [|c k]]] Hl; cbn in Hl; try lia; auto. apply H3, IH. lia.
Qed.

(** The sextets of bytes. *)
Lemma sextet1 a : byte_ok a -> 0 <= a / 4 < 64.
Proof. intros H. unfold byte_ok in H. split; [apply Z.div_pos|apply Z.div_lt_upper_bound]; lia. Qed.
Lemma sextet2 a b : 0 <= b < 16 -> 0 <= a mod 4 * 16 + b < 64.
Proof. intros H. pose proof (Z.mod_pos_bound a 4 eq_refl). lia. Qed.
Lemma sextet3 b c : 0 <= c < 4 -> 0 <= b mod 16 * 4 + c < 64.
Proof. intros H. pose proof (Z.mod_pos_bound b 16 eq_refl). lia. Qed.
Lemma sextet4 c : 0 <= c mod 64 < 64.
Proof. by apply Z.mod_pos_bound. Qed.
Lemma high4 b : byte_ok b -> 0 <= b / 16 < 16.
Proof. intros H. unfold byte_ok in H. split; [apply Z.div_pos|apply Z.div_lt_upper_bound]; lia. Qed.
Lemma high2 c : byte_ok c -> 0 <= c / 64 < 4.
Proof. intros H. unfold byte_ok in H. split; [apply Z.div_pos|apply Z.div_lt_upper_bound]; lia. Qed.
Lemma sextet2' a : 0 <= a mod 4 * 16 < 64.
Proof. pose proof (sextet2 a 0). lia. Qed.
Lemma sextet3' b : 0 <= b mod 16 * 4 < 64.
Proof. pose proof (sextet3 b 0). lia. Qed.

Create HintDb b64.
#[local] Hint Resolve sextet1 sextet2 sextet3 sextet4 high4 high2 sextet2' sextet3' b64_char_ok : b64.

Lemma b64_encode_ok bs : bytes_ok bs -> Forall (fun c => b64_ok c = true) (b64_encode bs).
Proof.
  induction bs as [|a|a b|a b c l IH] using quanta_ind; intros H; cbn [b64_encode];
    rewrite ?Forall_cons in H; destruct_and?; repeat constructor; auto with b64.
Qed.

Lemma split_byte x k j : k * j = 256 -> 0 < k -> 0 < j -> 0 <= x < 256 -> x / k * k + x mod k = x.
Proof. intros _ Hk _ _. pose proof (Z.div_mod x k). lia. Qed.

Lemma join_quantum hi lo k : 0 < k -> 0 <= lo < k -> (hi * k + lo) / k = hi /\ (hi * k + lo) mod k = lo.
Proof.
  intros Hk Hl. split.
  - rewrite Z.div_add_l by lia. rewrite Z.div_small by lia. lia.
  - rewrite Z.add_comm, Z_mod_plus_full. by apply Z.mod_small.
Qed.

Lemma quantum1_eq a b : byte_ok a -> 0 <= b < 16 -> quantum1 (a / 4) (a mod 4 * 16 + b) = a.
Proof.
  intros Ha Hb. unfold quantum1. rewrite (proj1 (join_quantum (a mod 4) b 16 eq_refl Hb)).
  pose proof (Z.div_mod a 4). lia.
Qed.

Lemma quantum2_eq x b c : byte_ok b -> 0 <= c < 4 -> quantum2 (x * 16 + b / 16) (b mod 16 * 4 + c) = b.
Proof.
  intros Hb Hc. pose proof (high4 b Hb). unfold quantum2.
  rewrite (proj2 (join_quantum x (b / 16) 16 eq_refl ltac:(lia))), (proj1 (join_quantum (b mod 16) c 4 eq_refl Hc)).
  pose proof (Z.div_mod b 16). lia.
Qed.

Lemma quantum3_eq x c : byte_ok c -> quantum3 (x * 4 + c / 64) (c mod 64) = c.
Proof.
  intros Hc. pose proof (high2 c Hc). unfold quantum3. rewrite (proj2 (join_quantum x (c / 64) 4 eq_refl ltac:(lia))).
  pose proof (Z.div_mod c 64). lia.
Qed.

Lemma b64_quanta_encode bs : bytes_ok bs -> b64_quanta true (b64_encode bs) = Some bs.
Proof.
  induction bs as [|a|a b|a b c l IH] using quanta_ind; intros H; [done| | |];
    rewrite ?Forall_cons in H; destruct_and?; cbn [b64_encode b64_quanta];
    rewrite ?b64_val_char by auto with b64.
  - replace (b64_val b64_pad) with (@None Z) by done. cbn.
    pose proof (quantum1_eq a 0 ltac:(done) ltac:(lia)) as E. rewrite Z.add_0_r in E. by rewrite E.
  - replace (b64_val b64_pad) with (@None Z) by done. cbn.
    pose proof (quantum2_eq (a mod 4) b 0 ltac:(done) ltac:(lia)) as E. rewrite Z.add_0_r in E.
    by rewrite quantum1_eq, E by auto with b64.
  - rewrite IH by done. cbn. by rewrite quantum1_eq, quantum2_eq, quantum3_eq by auto with b64.
Qed.

Lemma b64_decode_encode bs : bytes_ok bs -> b64_decode true (b64_encode bs) = Some bs.
Proof.
  intros H. unfold b64_decode. replace (List.filter _ (b64_encode bs)) with (b64_encode bs); [by apply b64_quanta_encode|].
  symmetry. apply List.forallb_filter_id, forallb_forall. intros c Hc.
  pose proof (b64_encode_ok bs H) as Ho. rewrite List.Forall_forall in Ho. specialize (Ho c Hc).
  unfold b64_ok, b64_pad, is_alnum, is_digit in Ho. cbn. lia.
Qed.

(** ** Addresses *)

Definition hex_digit (n : Z) : Z := if n <? 10 then 48 + n else 87 + n.
Definition hex_val (c : Z) : option Z :=
  if is_digit c then Some (c - 48)
  else if (97 <=? c) && (c <=? 102) then Some (c - 87)
  else if (65 <=? c) && (c <=? 70) then Some (c - 55)
  else None.
Definition is_hex (c : Z) : bool := match hex_val c with Some _ => true | None => false end.

(** [parseIPv4Fields]: [start] at the first byte, [dot] after a dot. *)
Fixpoint ipv4_fields (s : gostring) (start dot : bool) (val digits : Z) (fs : list Z) : option (list Z) :=
  match s with
  | [] => if len fs <? 3 then None else Some (fs ++ [val])
  | c :: s' =>
      if is_digit c then
        if (digits =? 1) && (val =? 0) then None
        else let val := val * 10 + (c - 48) in
             if 255 <? val then None else ipv4_fields s' false false val (digits + 1) fs
      else if c =? 46 then
        if start || bool_decide (s' = []) || dot then None
        else if len fs =? 3 then None
        else ipv4_fields s' false true 0 0 (fs ++ [val])
      else None
  end.

Definition parse_ipv4 (s : gostring) : option (list Z) := ipv4_fields s true false 0 0 [].

Fixpoint hex_prefix (s : gostring) : gostring :=
  match s with
  | c :: s' => if is_hex c then c :: hex_prefix s' else []
  | [] => []
  end.

Definition hex_value (s : gostring) : Z := fold_left (fun n c => 16 * n + default 0 (hex_val c)) s 0.

(** The loop of [parseIPv6], at most eight groups: the groups, the position
    of the ellipsis, and what is left of the text. *)
Fixpoint ipv6_loop (fuel : nat) (s : gostring) (gs : list Z) (ell : option nat) : option (list Z * option nat * gostring) :=
  match fuel with
  | O => Some (gs, ell, s)
  | S fuel =>
      let h := hex_prefix s in
      if (len h =? 0) || (4 <? len h) then None
      else
        let gs' := gs ++ [hex_value h] in
        match drop (length h) s with
        | [] => Some (gs', ell, [])
        | c :: r =>
            if c =? 46 then
              if bool_decide (ell = None) && negb (len gs =? 6) then None
              else if 8 <? len gs + 2 then None
              else match parse_ipv4 s with
                   | Some [a; b; c; d] => Some (gs ++ [a * 256 + b; c * 256 + d], ell, [])
                   | _ => None
                   end
            else if c =? 58 then
              match r with
              | [] => None
              | c' :: r' =>
                  if c' =? 58 then
                    if bool_decide (ell = None) then
                      if bool_decide (r' = []) then Some (gs', Some (length gs'), [])
                      else ipv6_loop fuel r' gs' (Some (length gs'))
                    else None
                  else ipv6_loop fuel r gs' ell
              end
            else None
        end
  end.

Definition groups_num (gs : list Z) : Z := fold_left (fun n g => 65536 * n + g) gs 0.

Definition parse_ipv6 (s : gostring) : option Addr :=
  let '(s, zone, zoned) := cut s 37 in
  if zoned && bool_decide (zone = []) then None
  else
    let '(s, ell) := match cut_prefix s (str "::") with Some r => (r, Some O) | None => (s, None) end in
    if bool_decide (ell <> None) && bool_decide (s = []) then Some (V6 0 zone)
    else match ipv6_loop 8 s [] ell with
         | Some (gs, ell, []) =>
             if len gs <? 8 then
               match ell with
               | Some e => Some (V6 (groups_num (take e gs ++ replicate (8 - length gs) 0 ++ drop e gs)) zone)
               | None => None
               end
             else match ell with Some _ => None | None => Some (V6 (groups_num gs) zone) end
         | _ => None
         end.

Definition parse_addr (s : gostring) : option Addr :=
  match List.find (fun c => mem c [46; 58; 37]) s with
  | Some c => if c =? 46 then (fun fs => V4 (be_value fs)) <$> parse_ipv4 s
              else if c =? 58 then parse_ipv6 s
              else None
  | None => None
  end.

Definition ipv4_string (n : Z) : gostring :=
  itoa (n / 2 ^ 24 mod 256) ++ str "." ++ itoa (n / 2 ^ 16 mod 256) ++ str "." ++
  itoa (n / 2 ^ 8 mod 256) ++ str "." ++ itoa (n mod 256).

(** A group in hexadecimal, without leading zeros. *)
Fixpoint hex_digits (fuel : nat) (n : Z) (acc : gostring) : gostring :=
  match fuel with
  | O => acc
  | S fuel => let acc := hex_digit (n mod 16) :: acc in if n <? 16 then acc else hex_digits fuel (n / 16) acc
  end.
Definition hex_string (n : Z) : gostring := hex_digits 4 n [].

Definition ipv6_group (n : Z) (i : nat) : Z := n / 2 ^ (16 * (7 - Z.of_nat i)) mod 2 ^ 16.

(** The zero groups from [i] on, and the longest run of at least two. *)
Fixpoint zero_run (gs : list Z) : nat := match gs with 0 :: gs => S (zero_run gs) | _ => O end.
Definition longest_zeros (gs : list Z) : option (nat * nat) :=
  fold_left (fun best i =>
      let l := zero_run (drop i gs) in
      let have := match best with Some (_, k) => k | None => O end in
      if (2 <=? l)%nat && (have <? l)%nat then Some (i, l) else best) (seq 0 8) None.

Definition colon_groups (gs : list Z) : gostring := 
  match gs with
  | [] => []
  | g :: gs => hex_string g ++ flat_map (fun g => str ":" ++ hex_string g) gs
  end.

Definition zone_string (z : list Z) : gostring := match z with [] => [] | _ => str "%" ++ z end.

Definition addr_string (a : Addr) : gostring :=
  match a with
  | AddrZero => str "invalid IP"
  | V4 n => ipv4_string n
  | V6 n z =>
      if is4in6 a then str "::ffff:" ++ ipv4_string (low32 n) ++ zone_string z
      else
        let gs := map (ipv6_group n) (seq 0 8) in
        match longest_zeros gs with
        | Some (i, l) => colon_groups (take i gs) ++ str "::" ++ colon_groups (drop (i + l) gs) ++ zone_string z
        | None => colon_groups gs ++ zone_string z
        end
  end.

Example addr_texts :
  map (fun s => addr_string <$> parse_addr s)
    [str "192.0.2.7"; str "::"; str "::1"; str "2001:db8::1:0:0:1"; str "fe80::1%eth0"; str "::ffff:10.0.0.1"; str "1:0:0:2:0:0:0:3"; str "1:2:3:4:5:6:7:8"]
  = map (fun s => Some s)
    [str "192.0.2.7"; str "::"; str "::1"; str "2001:db8::1:0:0:1"; str "fe80::1%eth0"; str "::ffff:10.0.0.1"; str "1:0:0:2::3"; str "1:2:3:4:5:6:7:8"]
  /\ map parse_addr [str "1.2.3"; str "01.2.3.4"; str "1::2::3"; str "1:2:3:4:5:6:7::8:9"; str "fe80::1%"; str "1.2.3.4.5"; str "12345::"; str ""]
  = replicate 8 None.
Proof. split; vm_compute; reflexivity. Qed.

(** ** IPv4 addresses read back *)

(** The decimal form of an octet: one digit, or two or three without a leading
    zero. *)
Definition octet_text (n : Z) (s : gostring) : bool :=
  forallb is_digit s && (digits_val s =? n) &&
  match s with
  | [_] => true
  | x :: [_] | x :: [_; _] => negb (x =? 48)
  | _ => false
  end.

Lemma octet_texts n : 0 <= n < 256 -> octet_text n (itoa n) = true.
Proof.
  intros H. assert (A : forallb (fun k => octet_text (Z.of_nat k) (itoa (Z.of_nat k))) (seq 0 256) = true) by (vm_compute; reflexivity).
  rewrite forallb_forall in A. specialize (A (Z.to_nat n)). rewrite Z2Nat.id in A by lia. apply A, in_seq. lia.
Qed.

Lemma ipv4_digit c r start dot v k fs : is_digit c = true -> ((k =? 1) && (v =? 0)) = false -> v * 10 + (c - 48) <= 255 ->
  ipv4_fields (c :: r) start dot v k fs = ipv4_fields r false false (v * 10 + (c - 48)) (k + 1) fs.
Proof. intros Hc H Hv. cbn [ipv4_fields]. rewrite Hc, H. by replace (255 <? v * 10 + (c - 48)) with false by lia. Qed.

Lemma ipv4_octet n r start dot fs : 0 <= n < 256 ->
  ipv4_fields (itoa n ++ r) start dot 0 0 fs = ipv4_fields r false false n (len (itoa n)) fs.
Proof.
  intros Hn. pose proof (octet_texts n Hn) as H. unfold octet_text in H. apply andb_true_iff in H as [H Hs].
  apply andb_true_iff in H as [Hd Hv]. unfold digits_val in Hv. 
  destruct (itoa n) as [|x [|y [|z [|? ?]]]]; try done; cbn [forallb fold_left app] in *; rewrite ?andb_true_iff in Hd;
    destruct_and?; unfold is_digit in *.
  - rewrite ipv4_digit by (unfold is_digit; lia). by replace (0 * 10 + (x - 48)) with n by lia.
  - rewrite !ipv4_digit by (unfold is_digit; lia). by replace ((0 * 10 + (x - 48)) * 10 + (y - 48)) with n by lia.
  - rewrite !ipv4_digit by (unfold is_digit; lia). by replace (((0 * 10 + (x - 48)) * 10 + (y - 48)) * 10 + (z - 48)) with n by lia.
Qed.

Lemma ipv4_dot n k c r fs : (len fs =? 3) = false -> ipv4_fields (46 :: c :: r) false false n k fs = ipv4_fields (c :: r) false true 0 0 (fs ++ [n]).
Proof. intros H. cbn [ipv4_fields]. change (is_digit 46) with false. change (46 =? 46) with true. by rewrite H. Qed.

Lemma itoa_head n : 0 <= n < 10 ^ 64 -> exists c r, itoa n = c :: r /\ is_digit c = true.
Proof.
  intros Hn. destruct (itoa_spec n Hn) as (Hne & Hd & _). destruct (itoa n) as [|c r]; [done|]. exists c, r. split; [done|].
  cbn [forallb] in Hd. by apply andb_true_iff in Hd as [? _].
Qed.

Lemma ipv4_text_reads n : 0 <= n < 2 ^ 32 -> parse_addr (addr_string (V4 n)) = Some (V4 n).
Proof.
  intros Hn. cbn [addr_string]. unfold ipv4_string.
  set (a := n / 2 ^ 24 mod 256). set (b := n / 2 ^ 16 mod 256). set (c := n / 2 ^ 8 mod 256). set (d := n mod 256).
  assert (Ha : 0 <= a < 256) by by apply Z.mod_pos_bound. assert (Hb : 0 <= b < 256) by by apply Z.mod_pos_bound.
  assert (Hc : 0 <= c < 256) by by apply Z.mod_pos_bound. assert (Hd : 0 <= d < 256) by by apply Z.mod_pos_bound.
  assert (Hp : parse_ipv4 (itoa a ++ 46 :: itoa b ++ 46 :: itoa c ++ 46 :: itoa d) = Some [a; b; c; d]).
  { unfold parse_ipv4. rewrite ipv4_octet by done.
    destruct (itoa_head b) as (cb & rb & Eb & _); [lia|]. destruct (itoa_head c) as (cc & rc & Ec & _); [lia|].
    destruct (itoa_head d) as (cd & rd & Ed & _); [lia|].
    rewrite Eb. cbn [app]. rewrite ipv4_dot by done. change (cb :: rb ++ ?x) with ((cb :: rb) ++ x). rewrite <- Eb, ipv4_octet by done.
    rewrite Ec. cbn [app]. rewrite ipv4_dot by done. change (cc :: rc ++ ?x) with ((cc :: rc) ++ x). rewrite <- Ec, ipv4_octet by done.
    rewrite Ed. rewrite ipv4_dot by done. rewrite <- Ed, <- (app_nil_r (itoa d)), ipv4_octet by done. reflexivity. }
  change (parse_addr (itoa a ++ 46 :: itoa b ++ 46 :: itoa c ++ 46 :: itoa d) = Some (V4 n)). unfold parse_addr.
  assert (Hf : forall s r, forallb is_digit s = true -> List.find (fun c => mem c [46; 58; 37]) (s ++ 46 :: r) = Some 46).
  { intros s r. induction s as [|x s IH]; [done|]. cbn [forallb app List.find]. intros H. apply andb_true_iff in H as [Hx H].
    replace (mem x [46; 58; 37]) with false; [by apply IH|]. unfold is_digit in Hx. cbn. lia. }
  rewrite Hf by (apply itoa_spec; lia). change (46 =? 46) with true. cbv iota.
  rewrite Hp. cbn [fmap option_fmap option_map]. do 2 f_equal.
  unfold be_value. cbn [fold_left]. unfold a, b, c, d.
  pose proof (Z.div_mod n 256 ltac:(lia)) as D0. pose proof (Z.div_mod (n / 256) 256 ltac:(lia)) as D1.
  pose proof (Z.div_mod (n / 256 / 256) 256 ltac:(lia)) as D2. rewrite !Z.div_div in D1, D2 by lia.
  change (256 * 256) with (2 ^ 16) in *. change (2 ^ 8) with 256. rewrite Z.div_div in D2 by lia. change (2 ^ 16 * 256) with (2 ^ 24) in D2.
  assert (n / 2 ^ 24 < 256) by (apply Z.div_lt_upper_bound; lia). rewrite (Z.mod_small (n / 2 ^ 24)) by (split; [apply Z.div_pos; lia|lia]). lia.
Qed.

(** ** IPv6 addresses read back *)

Definition group_ok (g : Z) : Prop := 0 <= g < 2 ^ 16.

Lemma hex_val_digit n : 0 <= n < 16 -> hex_val (hex_digit n) = Some n.
Proof.
  intros H. unfold hex_val, hex_digit, is_digit. destruct (n <? 10) eqn:E.
  - replace ((48 <=? 48 + n) && (48 + n <=? 57)) with true by lia. f_equal. lia.
  - replace ((48 <=? 87 + n) && (87 + n <=? 57)) with false by lia. replace ((97 <=? 87 + n) && (87 + n <=? 102)) with true by lia. f_equal. lia.
Qed.

(** The text of a group: one to four hexadecimal digits, worth the group. *)
Definition hex_text (g : Z) (h : gostring) : Prop :=
  forallb is_hex h = true /\ 1 <= len h <= 4 /\ hex_value h = g.

Lemma hex_texts g : group_ok g -> hex_text g (hex_string g).
Proof.
  intros H. unfold group_ok in H. assert (V : forall n, 0 <= n -> hex_val (hex_digit (n mod 16)) = Some (n mod 16)).
  { intros n Hn. apply hex_val_digit, Z.mod_pos_bound. lia. }
  assert (X : forall n, 0 <= n -> is_hex (hex_digit (n mod 16)) = true) by (intros n Hn; unfold is_hex; by rewrite V).
  assert (P1 : 0 <= g / 16) by (apply Z.div_pos; lia). assert (P2 : 0 <= g / 16 / 16) by (apply Z.div_pos; lia).
  assert (P3 : 0 <= g / 16 / 16 / 16) by (apply Z.div_pos; lia). assert (P4 : g / 16 / 16 / 16 < 16).
  { do 3 (apply Z.div_lt_upper_bound; [lia|]). lia. }
  pose proof (Z.div_mod g 16 ltac:(lia)). pose proof (Z.div_mod (g / 16) 16 ltac:(lia)). pose proof (Z.div_mod (g / 16 / 16) 16 ltac:(lia)).
  unfold hex_string. cbn [hex_digits]. unfold hex_text, hex_value, len.
  destruct (g <? 16) eqn:E0; [|destruct (g / 16 <? 16) eqn:E1; [|destruct (g / 16 / 16 <? 16) eqn:E2; [|replace (g / 16 / 16 / 16 <? 16) with true by lia]]];
    cbn [forallb fold_left length]; rewrite ?V, ?X by lia; cbn [from_option]; unfold id; (split; [done|]); (split; [lia|]).
  - rewrite Z.mod_small by lia. lia.
  - rewrite (Z.mod_small (g / 16)) by lia. lia.
  - rewrite (Z.mod_small (g / 16 / 16)) by lia. lia.
  - rewrite (Z.mod_small (g / 16 / 16 / 16)) by lia. lia.
Qed.

Lemma hex_prefix_app h r : forallb is_hex h = true -> match r with c :: _ => is_hex c = false | [] => True end -> hex_prefix (h ++ r) = h.
Proof.
  intros H Hr. induction h as [|x h IH]; [|cbn in *; apply andb_true_iff in H as [-> H]; by rewrite IH].
  destruct r as [|c r]; [done|]. cbn. by rewrite Hr.
Qed.

(** One group, and the text after it. *)
Lemma loop_group g r acc ell fuel : group_ok g -> match r with c :: _ => c = 58 | [] => True end ->
  ipv6_loop (S fuel) (hex_string g ++ r) acc ell =
  match r with
  | [] => Some (acc ++ [g], ell, [])
  | _ :: [] => None
  | _ :: c' :: r' =>
      if c' =? 58 then
        if bool_decide (ell = None) then
          if bool_decide (r' = []) then Some (acc ++ [g], Some (length (acc ++ [g])), [])
          else ipv6_loop fuel r' (acc ++ [g]) (Some (length (acc ++ [g])))
        else None
      else ipv6_loop fuel (c' :: r') (acc ++ [g]) ell
  end.
Proof.
  intros Hg Hr. destruct (hex_texts g Hg) as (Hh & Hl & Hv). cbn [ipv6_loop].
  rewrite hex_prefix_app by (done || by destruct r as [|c r]; [|rewrite Hr]). rewrite drop_app_length, Hv.
  replace ((len (hex_string g) =? 0) || (4 <? len (hex_string g))) with false by lia.
  destruct r as [|c r]; [done|]. subst c. change (58 =? 46) with false. change (58 =? 58) with true. by destruct r.
Qed.

(** A group begins with a hexadecimal digit, which is no colon. *)
Lemma hex_head g : group_ok g -> exists c h, hex_string g = c :: h /\ is_hex c = true /\ forallb is_hex h = true.
Proof.
  intros Hg. destruct (hex_texts g Hg) as (Hh & Hl & _). destruct (hex_string g) as [|c h]; [unfold len in Hl; cbn in Hl; lia|].
  cbn in Hh. apply andb_true_iff in Hh as [? ?]. by exists c, h.
Qed.
Lemma hex_no_colon c : is_hex c = true -> (c =? 58) = false /\ (c =? 46) = false /\ (c =? 37) = false.
Proof. intros H. repeat split; destruct (_ =? _) eqn:E; try done; assert (c = 58 \/ c = 46 \/ c = 37) as [->|[->| ->]] by lia; done. Qed.

Lemma loop_groups gs : forall g acc ell fuel, Forall group_ok (g :: gs) -> (length gs < fuel)%nat ->
  ipv6_loop fuel (colon_groups (g :: gs)) acc ell = Some (acc ++ g :: gs, ell, []).
Proof.
  induction gs as [|g' gs IH]; intros g acc ell fuel Hok Hf; (destruct fuel as [|fuel]; [cbn in Hf; lia|]);
    inversion_clear Hok as [|? ? Hg Hgs]; cbn [colon_groups flat_map].
  - by rewrite loop_group.
  - change ((str ":" ++ hex_string g') ++ ?x) with (58 :: (hex_string g' ++ x)). rewrite loop_group by done.
    destruct (hex_head g') as (c & h & E & Hc & _); [by inversion Hgs|]. specialize (IH g' (acc ++ [g]) ell fuel Hgs ltac:(cbn in Hf; lia)).
    cbn [colon_groups] in IH. rewrite E in *. cbn [app] in *. rewrite (proj1 (hex_no_colon c Hc)). rewrite IH. by rewrite <- app_assoc.
Qed.

Lemma loop_ellipsis gs : forall g acc fuel k, Forall group_ok (g :: gs) -> Forall group_ok k -> (length gs + length k < fuel)%nat ->
  ipv6_loop fuel (colon_groups (g :: gs) ++ str "::" ++ colon_groups k) acc None =
  Some (acc ++ (g :: gs) ++ k, Some (length (acc ++ g :: gs)), []).
Proof.
  induction gs as [|g' gs IH]; intros g acc fuel k Hok Hk Hf; (destruct fuel as [|fuel]; [cbn in Hf; lia|]);
    inversion_clear Hok as [|? ? Hg Hgs]; cbn [colon_groups flat_map].
  - rewrite app_nil_r. change (str "::" ++ colon_groups k) with (58 :: 58 :: colon_groups k). rewrite loop_group by done.
    change (58 =? 58) with true. cbv iota. rewrite bool_decide_eq_true_2 by done. destruct k as [|g' k].
    + cbn [app]. by rewrite bool_decide_eq_true_2.
    + assert (colon_groups (g' :: k) <> []) as Ne.
      { destruct (hex_head g') as (c & h & E & _); [by inversion Hk|]. cbn [colon_groups]. by rewrite E. }
      rewrite bool_decide_eq_false_2 by done. rewrite loop_groups by (done || cbn in Hf; lia). by rewrite <- app_assoc.
  - rewrite <- app_assoc. change ((str ":" ++ hex_string g') ++ ?x) with (58 :: (hex_string g' ++ x)). cbn [app]. rewrite loop_group by done.
    destruct (hex_head g') as (c & h & E & Hc & _); [by inversion Hgs|]. specialize (IH g' (acc ++ [g]) fuel k Hgs Hk ltac:(cbn in Hf |- *; lia)).
    cbn [colon_groups] in IH. rewrite <- !app_assoc in *. rewrite E in *. cbn [app] in *. rewrite (proj1 (hex_no_colon c Hc)). exact IH.
Qed.

(** *** The zero run *)

Lemma zero_run_split gs : gs = replicate (zero_run gs) 0 ++ drop (zero_run gs) gs.
Proof. induction gs as [|g gs IH]; [done|]. destruct g; [|done..]. cbn. by f_equal. Qed.
Lemma zero_run_length gs : (zero_run gs <= length gs)%nat.
Proof. induction gs as [|g gs IH]; [done|]. destruct g; cbn; lia. Qed.

Lemma longest_zeros_spec gs i l : longest_zeros gs = Some (i, l) -> (2 <= l)%nat /\ l = zero_run (drop i gs).
Proof.
  unfold longest_zeros. assert (forall js best, match best with Some (i, l) => (2 <= l)%nat /\ l = zero_run (drop i gs) | None => True end ->
    fold_left (fun best i => let l := zero_run (drop i gs) in let have := match best with Some (_, k) => k | None => O end in
      if (2 <=? l)%nat && (have <? l)%nat then Some (i, l) else best) js best = Some (i, l) -> (2 <= l)%nat /\ l = zero_run (drop i gs)) as F; [|by apply F].
  induction js as [|j js IH]; intros best B; cbn [fold_left]; [intros ->; exact B|]. apply IH. cbv zeta.
  destruct ((2 <=? zero_run (drop j gs))%nat && _) eqn:E; [|exact B]. apply andb_true_iff in E as [E%Nat.leb_le _]. by split.
Qed.

(** The groups around the run. *)
Lemma run_split gs i l : l = zero_run (drop i gs) -> gs = take i gs ++ replicate l 0 ++ drop (i + l) gs.
Proof.
  intros ->. rewrite <- (take_drop i gs) at 1. f_equal. rewrite (zero_run_split (drop i gs)) at 1. by rewrite drop_drop.
Qed.

(** *** The number of the groups *)

Definition groups_of (n : Z) : list Z := map (ipv6_group n) (seq 0 8).

Lemma groups_of_ok n : Forall group_ok (groups_of n).
Proof. apply Forall_forall. intros g (i & <- & _)%list_elem_of_In%in_map_iff. by apply Z.mod_pos_bound. Qed.

Lemma groups_telescope (q : Z -> Z) : q 8 = 0 -> (forall k, 0 <= k -> q k = 65536 * q (k + 1) + q k mod 2 ^ 16) ->
  groups_num (map (fun i => q (7 - Z.of_nat i) mod 2 ^ 16) (seq 0 8)) = q 0.
Proof.
  intros E D. unfold groups_num. cbn [seq map fold_left].
  pose proof (D 0 ltac:(lia)) as D0. pose proof (D 1 ltac:(lia)) as D1. pose proof (D 2 ltac:(lia)) as D2. pose proof (D 3 ltac:(lia)) as D3.
  pose proof (D 4 ltac:(lia)) as D4. pose proof (D 5 ltac:(lia)) as D5. pose proof (D 6 ltac:(lia)) as D6. pose proof (D 7 ltac:(lia)) as D7.
  change (0 + 1) with 1 in D0. change (1 + 1) with 2 in D1. change (2 + 1) with 3 in D2. change (3 + 1) with 4 in D3. change (4 + 1) with 5 in D4.
  change (5 + 1) with 6 in D5. change (6 + 1) with 7 in D6. change (7 + 1) with 8 in D7. rewrite E in D7.
  change (7 - Z.of_nat 0) with 7. change (7 - Z.of_nat 1) with 6. change (7 - Z.of_nat 2) with 5. change (7 - Z.of_nat 3) with 4.
  change (7 - Z.of_nat 4) with 3. change (7 - Z.of_nat 5) with 2. change (7 - Z.of_nat 6) with 1. change (7 - Z.of_nat 7) with 0.
  set (r0 := q 0 mod 2 ^ 16) in *. set (r1 := q 1 mod 2 ^ 16) in *. set (r2 := q 2 mod 2 ^ 16) in *. set (r3 := q 3 mod 2 ^ 16) in *.
  set (r4 := q 4 mod 2 ^ 16) in *. set (r5 := q 5 mod 2 ^ 16) in *. set (r6 := q 6 mod 2 ^ 16) in *. set (r7 := q 7 mod 2 ^ 16) in *.
  clearbody r0 r1 r2 r3 r4 r5 r6 r7. clear D. lia.
Qed.

Lemma groups_of_num n : 0 <= n < 2 ^ 128 -> groups_num (groups_of n) = n.
Proof.
  intros Hn. pose proof (groups_telescope (fun k => n / 2 ^ (16 * k))) as T. cbv beta in T. rewrite Z.mul_0_r, Z.pow_0_r, Z.div_1_r in T.
  apply T; [by apply Z.div_small|]. intros k Hk. pose proof (Z.div_mod (n / 2 ^ (16 * k)) (2 ^ 16) ltac:(lia)) as D.
  rewrite Z.div_div in D by lia. rewrite <- Z.pow_add_r in D by lia. replace (16 * k + 16) with (16 * (k + 1)) in D by lia. exact D.
Qed.

(** *** The text as a whole *)

Definition textual (c : Z) : bool := is_hex c || (c =? 58).

Lemma colon_groups_textual gs : Forall group_ok gs -> Forall (fun c => textual c = true) (colon_groups gs).
Proof.
  assert (forall g, group_ok g -> Forall (fun c => textual c = true) (hex_string g)) as F.
  { intros g Hg. destruct (hex_texts g Hg) as (Hh & _). apply Forall_forall. intros c Hc. rewrite forallb_forall in Hh. unfold textual.
    by rewrite Hh by (by apply list_elem_of_In). }
  intros H. destruct gs as [|g gs]; [done|]. inversion_clear H as [|? ? Hg Hgs]. cbn [colon_groups]. apply Forall_app_2; [by apply F|].
  induction Hgs as [|g' gs Hg' Hgs IH]; [done|]. cbn [flat_map]. apply Forall_app_2; [|exact IH]. apply Forall_app_2; [by repeat constructor|by apply F].
Qed.

Lemma textual_no_zone s : Forall (fun c => textual c = true) s -> 37 ∉ s.
Proof. intros H Hin. rewrite Forall_forall in H. by specialize (H 37 Hin). Qed.

(** The first byte that says which kind of address it is. *)
Lemma find_colon h r : forallb is_hex h = true -> List.find (fun c => mem c [46; 58; 37]) (h ++ 58 :: r) = Some 58.
Proof.
  induction h as [|c h IH]; [done|]. cbn [forallb app List.find]. intros [Hc H]%andb_true_iff. destruct (hex_no_colon c Hc) as (E1 & E2 & E3).
  unfold mem. cbn [existsb]. rewrite Z.eqb_sym, (Z.eqb_sym c) in *. rewrite (Z.eqb_sym 46), (Z.eqb_sym 37), (Z.eqb_sym 58) in *.
  rewrite ?E1, ?E2, ?E3. cbn. by apply IH.
Qed.

Lemma cut_prefix_group g r : group_ok g -> cut_prefix (hex_string g ++ r) (str "::") = None.
Proof.
  intros Hg. destruct (hex_head g Hg) as (c & h & -> & Hc & _). unfold cut_prefix. change (str "::") with [58; 58]. cbn [app has_prefix].
  rewrite Z.eqb_sym, (proj1 (hex_no_colon c Hc)). done.
Qed.

(** A text that opens with a group, or with the ellipsis, is an IPv6 one. *)
Lemma parse_from_group g r : group_ok g -> Forall (fun c => textual c = true) r -> (exists r', r = 58 :: r') ->
  parse_addr (hex_string g ++ r) = match ipv6_loop 8 (hex_string g ++ r) [] None with
    | Some (gs, ell, []) =>
        if len gs <? 8 then
          match ell with Some e => Some (V6 (groups_num (take e gs ++ replicate (8 - length gs) 0 ++ drop e gs)) []) | None => None end
        else match ell with Some _ => None | None => Some (V6 (groups_num gs) []) end
    | _ => None end.
Proof.
  intros Hg Hr (r' & ->). destruct (hex_texts g Hg) as (Hh & _). unfold parse_addr. rewrite find_colon by done. change (58 =? 46) with false. change (58 =? 58) with true.
  cbv iota. unfold parse_ipv6. rewrite cut_none.
  2: { apply textual_no_zone, Forall_app_2; [|done]. apply Forall_forall. intros c Hc. rewrite forallb_forall in Hh. unfold textual. by rewrite Hh by (by apply list_elem_of_In). }
  cbn [andb]. rewrite cut_prefix_group by done. by rewrite bool_decide_eq_false_2 by (by intros []).
Qed.

Lemma parse_from_ellipsis k : Forall group_ok k -> k <> [] -> parse_addr (str "::" ++ colon_groups k) = match ipv6_loop 8 (colon_groups k) [] (Some O) with
    | Some (gs, ell, []) =>
        if len gs <? 8 then
          match ell with Some e => Some (V6 (groups_num (take e gs ++ replicate (8 - length gs) 0 ++ drop e gs)) []) | None => None end
        else match ell with Some _ => None | None => Some (V6 (groups_num gs) []) end
    | _ => None end.
Proof.
  intros Hk Ne. unfold parse_addr. change (List.find _ (str "::" ++ colon_groups k)) with (Some 58). cbv iota beta. change (58 =? 46) with false.
  change (58 =? 58) with true. cbv iota. unfold parse_ipv6. rewrite cut_none.
  2: { apply textual_no_zone, Forall_app_2; [by repeat constructor|by apply colon_groups_textual]. }
  cbn [andb]. rewrite cut_prefix_app. assert (colon_groups k <> []) as Nc.
  { destruct k as [|g k]; [done|]. destruct (hex_head g) as (c & h & E & _); [by inversion Hk|]. cbn [colon_groups]. by rewrite E. }
  rewrite (bool_decide_eq_false_2 (colon_groups k = [])) by done. by rewrite andb_false_r.
Qed.

Lemma groups_after gs i l : length gs = 8%nat -> l = zero_run (drop i gs) -> (2 <= l)%nat ->
  (i + l <= 8)%nat /\ length (take i gs) = i /\ length (drop (i + l) gs) = (8 - (i + l))%nat.
Proof.
  intros L -> Hl. pose proof (zero_run_length (drop i gs)) as H. rewrite length_drop in H. rewrite length_take, length_drop. lia.
Qed.

Lemma ipv6_text_reads n : 0 <= n < 2 ^ 128 -> is4in6 (V6 n []) = false -> parse_addr (addr_string (V6 n [])) = Some (V6 n []).
Proof.
  intros Hn H4. unfold addr_string. rewrite H4. fold (groups_of n). cbv zeta. pose proof (groups_of_ok n) as Hg. pose proof (groups_of_num n Hn) as Hv.
  assert (length (groups_of n) = 8%nat) as L by done. revert Hg Hv L. generalize (groups_of n). intros gs Hg Hv L.
  destruct (longest_zeros gs) as [[i l]|] eqn:E; cbn [zone_string]; rewrite ?app_nil_r.
  - apply longest_zeros_spec in E as [Hl El]. destruct (groups_after gs i l L El Hl) as (B & Lt & Ld). pose proof (run_split gs i l El) as Sp.
    assert (Forall group_ok (drop (i + l) gs)) as Hd by (by apply Forall_drop). assert (Forall group_ok (take i gs)) as Ht by (by apply Forall_take).
    set (k := drop (i + l) gs) in *. destruct (take i gs) as [|g a] eqn:Ea.
    + cbn in Lt. subst i. cbn [colon_groups app]. destruct k as [|g k'] eqn:Ek.
      * cbn in Ld. assert (l = 8%nat) as -> by lia. rewrite <- Hv, Sp. reflexivity.
      * change (str "::" ++ colon_groups (g :: k')) with (str "::" ++ colon_groups (g :: k')). rewrite parse_from_ellipsis by done.
        rewrite loop_groups by (done || cbn in Ld |- *; lia). cbn [app]. unfold len. replace (Z.of_nat (length (g :: k')) <? 8) with true by lia.
        cbn [take drop app]. replace (8 - length (g :: k'))%nat with l by lia. rewrite <- Hv, Sp. done.
    + cbn [colon_groups] in *. rewrite <- app_assoc. assert (group_ok g /\ Forall group_ok a) as [Hg0 Ha] by (by inversion Ht).
      pose proof (loop_ellipsis a g [] 8 k Ht Hd ltac:(cbn in Lt; lia)) as Lp. cbn [colon_groups] in Lp. rewrite <- app_assoc in Lp.
      rewrite parse_from_group; [|done| |].
      * rewrite Lp. rewrite !app_nil_l. unfold len. rewrite !length_app, Lt. replace (Z.of_nat (i + length k) <? 8) with true by lia.
        replace (8 - (i + length k))%nat with l by lia. rewrite <- Lt at 1 2. rewrite take_app_length, drop_app_length. by rewrite <- Hv, Sp.
      * pose proof (colon_groups_textual (g :: a) Ht) as X. cbn [colon_groups] in X. apply Forall_app in X as [_ X].
        apply Forall_app_2; [exact X|]. apply Forall_app_2; [by repeat constructor|by apply colon_groups_textual].
      * destruct a as [|g' a']; cbn [flat_map app]; by eexists.
  - destruct gs as [|g [|g' gs]]; [done|done|]. pose proof (loop_groups (g' :: gs) g [] None 8 Hg ltac:(cbn in L |- *; lia)) as Lp. cbn [colon_groups] in *.
    rewrite parse_from_group; [|by inversion Hg| |by eexists].
    + rewrite Lp. cbn [app]. unfold len. rewrite L. change (Z.of_nat 8 <? 8) with false. by rewrite Hv.
    + pose proof (colon_groups_textual (g :: g' :: gs) Hg) as X. cbn [colon_groups] in X. by apply Forall_app in X as [_ X].
Qed.
