(* ===== verification/SdpCodec.v ===== *)
(** internal/sip/sdp/codec.go, and the [Codec] of sdp.go: codecs and their
    negotiation.

    [Negotiate] is the loop of the code over its table of payload numbers;
    [agreed] is what it computes, without the table. *)

From S2P Require Import Prelude GoText.

Open Scope Z_scope.

(** [PayloadType] is a uint8, [ClockRate] a uint32. *)
Record Codec := mkCodec {
  PayloadType : Z;
  Name : gostring;
  ClockRate : Z;
  Channels : Z;
  FMTP : gostring
}.

#[export] Instance Codec_eq_dec : EqDecision Codec.
Proof. solve_decision. Defined.

Definition isASCII (s : gostring) : bool := forallb (fun c => c <? 128) s.

Definition lowerASCII (c : Z) : Z := if (65 <=? c) && (c <=? 90) then c + 32 else c.

(** The loop of [sameName] over two names of the same length. *)
Fixpoint same_bytes (a b : gostring) : bool :=
  match a, b with
  | x :: a, y :: b => if lowerASCII x =? lowerASCII y then same_bytes a b else false
  | _, _ => true
  end.

Definition sameName (a b : gostring) : bool :=
  if negb (isASCII a) || negb (isASCII b) then beq (to_lower a) (to_lower b)
  else if negb (len a =? len b) then false
  else same_bytes a b.

Definition channels (c : Codec) : Z := if Channels c =? 0 then 1 else Channels c.

Definition sameEncoding (c o : Codec) : bool :=
  (ClockRate c =? ClockRate o) && (channels c =? channels o) && sameName (Name c) (Name o).

Definition IsTelephoneEvent (c : Codec) : bool := equal_fold (Name c) (str "telephone-event").

Definition HasMedia (l : list Codec) : bool := existsb (fun c => negb (IsTelephoneEvent c)) l.

(** [Codec.String] and [Describe] *)
Definition codec_string (c : Codec) : gostring :=
  itoa (PayloadType c) ++ str " " ++ Name c ++ str "/" ++ itoa (ClockRate c) ++
  (if 1 <? Channels c then str "/" ++ itoa (Channels c) else []).

Fixpoint join_with (sep : gostring) (l : list gostring) : gostring :=
  match l with
  | [] => []
  | [x] => x
  | x :: l => x ++ sep ++ join_with sep l
  end.

Definition Describe (l : list Codec) : gostring :=
  match l with [] => str "(none)" | _ => join_with (str ", ") (map codec_string l) end.

(** ** The negotiation *)

(** The two errors, the second in its two texts. *)
Inductive negotiateError :=
  | ErrRenumbered (text : gostring)
  | ErrNoCommonCodec (text : gostring)
  | ErrOnlyTelephoneEvent.

(** [offered]: on the number, and at all. *)
Fixpoint offered_from (a : Codec) (offer : list Codec) (enc : bool) : bool * bool :=
  match offer with
  | [] => (false, enc)
  | o :: offer =>
      if sameEncoding o a then
        if PayloadType o =? PayloadType a then (true, true) else offered_from a offer true
      else offered_from a offer enc
  end.
Definition offered (offer : list Codec) (a : Codec) : bool * bool := offered_from a offer false.

Definition offerOf (offer : list Codec) (a : Codec) : list Codec := List.filter (fun o => sameEncoding o a) offer.

(** The table of 256 numbers: 1 + the index in the answer, or 0. *)
Definition pt_get (t : list Z) (pt : Z) : Z := nth (Z.to_nat pt) t 0.
Definition pt_set (t : list Z) (pt v : Z) : list Z := <[Z.to_nat pt := v]> t.

Definition renumberedText (offer : list Codec) (a : Codec) : gostring :=
  str "sdp: answer renumbered a payload type: offered " ++ Describe (offerOf offer a) ++ str ", answered " ++ codec_string a.

Definition noCommonText (offer answer : list Codec) : gostring :=
  str "sdp: no common codec: offer " ++ Describe offer ++ str " vs answer " ++ Describe answer.

(** The first loop: over the answer from index [i]. *)
Fixpoint accept_answer (offer : list Codec) (i : Z) (answer : list Codec) (t : list Z) : list Z + negotiateError :=
  match answer with
  | [] => inl t
  | a :: answer =>
      let '(at_, enc) := offered offer a in
      if at_ then
        accept_answer offer (i + 1) answer (if pt_get t (PayloadType a) =? 0 then pt_set t (PayloadType a) (i + 1) else t)
      else if enc then inr (ErrRenumbered (renumberedText offer a))
      else accept_answer offer (i + 1) answer t
  end.

Definition acceptedOn (answer : list Codec) (t : list Z) (o : Codec) : option Codec :=
  let i := pt_get t (PayloadType o) in
  if i =? 0 then None else answer !! Z.to_nat (i - 1).

Definition with_fmtp (o : Codec) (f : gostring) : Codec :=
  mkCodec (PayloadType o) (Name o) (ClockRate o) (Channels o) f.

(** The second and third loops: how many codecs, whether one is media, and
    the codecs. *)
Definition count_step (answer : list Codec) (t : list Z) (s : Z * bool) (o : Codec) : Z * bool :=
  match acceptedOn answer t o with
  | Some a => if sameEncoding a o then (s.1 + 1, s.2 || negb (IsTelephoneEvent o)) else s
  | None => s
  end.

Fixpoint build_out (answer : list Codec) (t : list Z) (offer : list Codec) : list Codec :=
  match offer with
  | [] => []
  | o :: offer =>
      match acceptedOn answer t o with
      | Some a => if sameEncoding a o then with_fmtp o (FMTP a) :: build_out answer t offer
                  else build_out answer t offer
      | None => build_out answer t offer
      end
  end.

Definition Negotiate (offer answer : list Codec) : list Codec + negotiateError :=
  match accept_answer offer 0 answer (replicate 256 0) with
  | inr e => inr e
  | inl t =>
      let '(n, media) := fold_left (count_step answer t) offer (0, false) in
      if n =? 0 then inr (ErrNoCommonCodec (noCommonText offer answer))
      else if negb media then inr ErrOnlyTelephoneEvent
      else inl (build_out answer t offer)
  end.

(** ** Names and encodings *)

Lemma same_bytes_spec a : forall b, length a = length b -> same_bytes a b = beq (to_lower a) (to_lower b).
Proof.
  induction a as [|x a IH]; intros [|y b] Hl; try done. injection Hl as Hl. cbn [same_bytes].
  change lowerASCII with lower_byte. change (to_lower (?z :: ?l)) with (lower_byte z :: to_lower l).
  destruct (lower_byte x =? lower_byte y) eqn:E.
  - apply Z.eqb_eq in E. rewrite IH by done. unfold beq. rewrite E. apply bool_decide_ext. split; congruence.
  - symmetry. apply bool_decide_eq_false. intros [= ? ?]. lia.
Qed.

(** The loop compares the lower-cased names. *)
Lemma sameName_spec a b : sameName a b = beq (to_lower a) (to_lower b).
Proof.
  unfold sameName. case_if; [done|]. destruct (len a =? len b) eqn:E; cbn [negb].
  - apply same_bytes_spec. unfold len in E. lia.
  - symmetry. apply bool_decide_eq_false. intros H. apply (f_equal length) in H.
    rewrite !to_lower_length in H. unfold len in E. lia.
Qed.

(** [sameEncoding] is an equivalence: it compares one key. *)
Definition encoding (c : Codec) : Z * Z * gostring := (ClockRate c, channels c, to_lower (Name c)).

Lemma sameEncoding_spec c o : sameEncoding c o = bool_decide (encoding c = encoding o).
Proof.
  unfold sameEncoding, encoding. rewrite sameName_spec. unfold beq.
  destruct (ClockRate c =? ClockRate o) eqn:E1; [|symmetry; apply bool_decide_eq_false; intros [= ? ? ?]; lia].
  destruct (channels c =? channels o) eqn:E2; [|symmetry; apply bool_decide_eq_false; intros [= ? ? ?]; lia].
  cbn [andb]. apply bool_decide_ext. rewrite (proj1 (Z.eqb_eq _ _) E1), (proj1 (Z.eqb_eq _ _) E2). split; congruence.
Qed.

Lemma sameEncoding_sym c o : sameEncoding c o = sameEncoding o c.
Proof. rewrite !sameEncoding_spec. apply bool_decide_ext. naive_solver. Qed.

Lemma sameEncoding_event c o : sameEncoding c o = true -> IsTelephoneEvent c = IsTelephoneEvent o.
Proof.
  rewrite sameEncoding_spec, bool_decide_eq_true. intros [= _ _ E]. unfold IsTelephoneEvent, equal_fold. by rewrite E.
Qed.

(** ** What [Negotiate] computes *)

Definition pt_ok (c : Codec) : Prop := 0 <= PayloadType c < 256.
#[export] Instance pt_ok_dec c : Decision (pt_ok c).
Proof. unfold pt_ok. apply _. Defined.

(** The offer has [a]'s encoding on [a]'s number; [a]'s encoding moved. *)
Definition offers_at (offer : list Codec) (a : Codec) : bool :=
  existsb (fun o => sameEncoding o a && (PayloadType o =? PayloadType a)) offer.
Definition renumbered (offer : list Codec) (a : Codec) : bool :=
  existsb (fun o => sameEncoding o a) offer && negb (offers_at offer a).

(** The codec accepted on a number is the first of the answer on it that the
    offer has there; it is kept when it is what the offer means by it. *)
Definition accepted_on (offer answer : list Codec) (pt : Z) : option Codec :=
  List.find (fun a => offers_at offer a && (PayloadType a =? pt)) answer.
Definition agreed_on (offer answer : list Codec) (o : Codec) : option Codec :=
  match accepted_on offer answer (PayloadType o) with
  | Some a => if sameEncoding a o then Some (with_fmtp o (FMTP a)) else None
  | None => None
  end.
Definition agreed (offer answer : list Codec) : list Codec := omap (agreed_on offer answer) offer.

Lemma offered_spec offer a : offered offer a = (offers_at offer a, existsb (fun o => sameEncoding o a) offer).
Proof.
  unfold offered. assert (H : forall enc, offered_from a offer enc =
    (offers_at offer a, enc || existsb (fun o => sameEncoding o a) offer)); [|by rewrite H].
  induction offer as [|o offer IH]; intros enc; [cbn; by rewrite orb_false_r|].
  cbn [offered_from offers_at existsb]. fold (offers_at offer a).
  destruct (sameEncoding o a) eqn:E; cbn [andb orb]; [|apply IH].
  case_if; cbn [orb]; [by rewrite orb_true_r|]. rewrite IH. by rewrite orb_true_r.
Qed.

(** The table after the part [pre] of the answer. *)
Record table_ok (offer pre : list Codec) (t : list Z) : Prop := {
  tk_len : length t = 256%nat;
  tk_get pt : 0 <= pt < 256 ->
    (pt_get t pt = 0 /\ accepted_on offer pre pt = None) \/
    (exists i a, pt_get t pt = Z.of_nat i + 1 /\ pre !! i = Some a /\ accepted_on offer pre pt = Some a)
}.

Lemma pt_get_set t pt pt' v : length t = 256%nat -> 0 <= pt < 256 -> 0 <= pt' < 256 ->
  pt_get (pt_set t pt v) pt' = if pt' =? pt then v else pt_get t pt'.
Proof.
  intros Hl Hp Hp'. unfold pt_get, pt_set. rewrite !nth_lookup. destruct (pt' =? pt) eqn:E.
  - apply Z.eqb_eq in E as ->. by rewrite list_lookup_insert_eq by lia.
  - by rewrite list_lookup_insert_ne by lia.
Qed.

Lemma accepted_on_app offer pre a pt :
  accepted_on offer (pre ++ [a]) pt =
  match accepted_on offer pre pt with
  | Some b => Some b
  | None => if offers_at offer a && (PayloadType a =? pt) then Some a else None
  end.
Proof.
  unfold accepted_on. induction pre as [|b pre IH]; cbn [app List.find].
  - by destruct (offers_at offer a && (PayloadType a =? pt)).
  - destruct (offers_at offer b && (PayloadType b =? pt)); [done|apply IH].
Qed.

Lemma table_step offer pre t a : table_ok offer pre t -> pt_ok a ->
  table_ok offer (pre ++ [a])
    (if offers_at offer a then if pt_get t (PayloadType a) =? 0 then pt_set t (PayloadType a) (len pre + 1) else t else t).
Proof.
  intros [Hl Hg] Ha. split; [by repeat case_if; unfold pt_set; rewrite ?length_insert|]. intros pt Hpt.
  rewrite accepted_on_app. destruct (Hg pt Hpt) as [[G A]|(i & b & G & L & A)]; rewrite A.
  - destruct (offers_at offer a); cbn [andb]; [|by left].
    destruct (PayloadType a =? pt) eqn:E.
    + apply Z.eqb_eq in E. subst pt. rewrite G, Z.eqb_refl. right. exists (length pre), a.
      rewrite pt_get_set by done. rewrite Z.eqb_refl. split; [done|]. by rewrite list_lookup_middle.
    + left. case_if; [|done]. rewrite pt_get_set by done. by replace (pt =? PayloadType a) with false by lia.
  - right. exists i, b. split; [|split; [by apply lookup_app_l_Some|done]].
    case_if; [|done]. case_if; [|done]. rewrite pt_get_set by done. case_if; [|done].
    assert (pt = PayloadType a) as -> by lia. lia.
Qed.

Lemma accept_answer_spec offer rest : forall pre t, table_ok offer pre t -> Forall pt_ok rest ->
  match accept_answer offer (len pre) rest t with
  | inl t' => List.find (renumbered offer) rest = None /\ table_ok offer (pre ++ rest) t'
  | inr e => exists a, List.find (renumbered offer) rest = Some a /\ e = ErrRenumbered (renumberedText offer a)
  end.
Proof.
  induction rest as [|a rest IH]; intros pre t Ht Hr; [by rewrite app_nil_r|].
  apply Forall_cons in Hr as [Ha Hr]. cbn [accept_answer List.find]. rewrite offered_spec. unfold renumbered at 1 3.
  pose proof (table_step offer pre t a Ht Ha) as Hs.
  assert (E : len pre + 1 = len (pre ++ [a])) by (rewrite len_app; done).
  rewrite E in Hs |- *. destruct (offers_at offer a); cbn [negb].
  - rewrite andb_false_r. specialize (IH (pre ++ [a]) _ Hs Hr). by rewrite <- app_assoc in IH.
  - rewrite andb_true_r. case_if; [by exists a|]. specialize (IH (pre ++ [a]) _ Hs Hr).
    by rewrite <- app_assoc in IH.
Qed.

Lemma table_empty offer : table_ok offer [] (replicate 256 0).
Proof.
  split; [done|]. intros pt Hpt. left. split; [|done]. unfold pt_get. rewrite nth_lookup.
  by rewrite lookup_replicate_2 by lia.
Qed.

Lemma acceptedOn_spec offer answer t o : table_ok offer answer t -> pt_ok o ->
  acceptedOn answer t o = accepted_on offer answer (PayloadType o).
Proof.
  intros [_ Hg] Ho. unfold acceptedOn. destruct (Hg _ Ho) as [[-> ->]|(i & a & -> & L & ->)]; [done|].
  replace (Z.of_nat i + 1 =? 0) with false by lia. by replace (Z.to_nat (Z.of_nat i + 1 - 1)) with i by lia.
Qed.

Lemma count_spec offer answer t os : table_ok offer answer t -> Forall pt_ok os -> forall n m,
  fold_left (count_step answer t) os (n, m) =
  (n + len (omap (agreed_on offer answer) os), m || HasMedia (omap (agreed_on offer answer) os)).
Proof.
  intros Ht. induction os as [|o os IH]; intros Hos n m; [cbn; by rewrite orb_false_r, Z.add_0_r|].
  apply Forall_cons in Hos as [Ho Hos]. cbn [fold_left omap list_omap].
  assert (S : count_step answer t (n, m) o = match agreed_on offer answer o with
                | Some c => (n + 1, m || negb (IsTelephoneEvent c)) | None => (n, m) end).
  { unfold count_step, agreed_on. rewrite (acceptedOn_spec offer) by done.
    destruct (accepted_on offer answer (PayloadType o)) as [a|]; [|done]. by destruct (sameEncoding a o). }
  rewrite S. destruct (agreed_on offer answer o) as [c|]; rewrite IH by done; [|done].
  f_equal; [rewrite len_cons; lia|]. cbn [HasMedia existsb]. by rewrite orb_assoc.
Qed.

Lemma build_out_spec offer answer t os : table_ok offer answer t -> Forall pt_ok os ->
  build_out answer t os = omap (agreed_on offer answer) os.
Proof.
  intros Ht. induction os as [|o os IH]; intros Hos; [done|].
  apply Forall_cons in Hos as [Ho Hos]. cbn [build_out omap list_omap].
  assert (S : (match acceptedOn answer t o with
               | Some a => if sameEncoding a o then with_fmtp o (FMTP a) :: build_out answer t os else build_out answer t os
               | None => build_out answer t os end)
              = match agreed_on offer answer o with Some c => c :: build_out answer t os | None => build_out answer t os end).
  { unfold agreed_on. rewrite (acceptedOn_spec offer) by done.
    destruct (accepted_on offer answer (PayloadType o)) as [a|]; [|done]. by destruct (sameEncoding a o). }
  rewrite S, IH by done. done.
Qed.

Lemma Negotiate_spec_aux offer answer : Forall pt_ok offer -> Forall pt_ok answer ->
  Negotiate offer answer =
  match List.find (renumbered offer) answer with
  | Some a => inr (ErrRenumbered (renumberedText offer a))
  | None => match agreed offer answer with
            | [] => inr (ErrNoCommonCodec (noCommonText offer answer))
            | out => if HasMedia out then inl out else inr ErrOnlyTelephoneEvent
            end
  end.
Proof.
  intros Ho Ha. unfold Negotiate. pose proof (accept_answer_spec offer answer [] _ (table_empty offer) Ha) as H.
  change (len []) with 0 in H. destruct (accept_answer _ _ _ _) as [t|e].
  - destruct H as [-> Ht]. cbn [app] in Ht. rewrite (count_spec offer) by done. cbn [orb].
    rewrite (build_out_spec offer) by done. fold (agreed offer answer).
    destruct (agreed offer answer) as [|c out]; [done|]. rewrite len_cons.
    pose proof (len_nonneg out). replace (0 + (1 + len out) =? 0) with false by lia.
    by destruct (HasMedia (c :: out)).
  - by destruct H as (a & -> & ->).
Qed.

(** the negotiation over the table of payload numbers computes the
    reference.  The first answered codec that moved its encoding to a number the offer does
    not give it refuses the call; otherwise the result is the offer, in its
    order and on its numbers, restricted to what was answered there, with the
    answer's parameters, and it is refused exactly when nothing but DTMF is
    left. *)
Theorem Negotiate_spec offer answer : Forall pt_ok offer -> Forall pt_ok answer ->
  Negotiate offer answer =
  match List.find (renumbered offer) answer with
  | Some a => inr (ErrRenumbered (renumberedText offer a))
  | None => match agreed offer answer with
            | [] => inr (ErrNoCommonCodec (noCommonText offer answer))
            | out => if HasMedia out then inl out else inr ErrOnlyTelephoneEvent
            end
  end.
Proof. apply Negotiate_spec_aux. Qed.

(** ** What both ends end up with *)

Lemma accepted_on_some offer answer pt a : accepted_on offer answer pt = Some a ->
  a ∈ answer /\ PayloadType a = pt /\ offers_at offer a = true.
Proof.
  intros H. apply List.find_some in H as [Hin H]. apply andb_true_iff in H as [? ?].
  split; [by apply list_elem_of_In|]. split; [lia|done].
Qed.

Lemma agreed_on_some offer answer o c : agreed_on offer answer o = Some c ->
  exists a, a ∈ answer /\ PayloadType a = PayloadType o /\ sameEncoding a o = true /\ c = with_fmtp o (FMTP a).
Proof.
  unfold agreed_on. destruct (accepted_on offer answer (PayloadType o)) as [a|] eqn:E; [|done].
  apply accepted_on_some in E as (Hin & Hpt & _). case_if; [|done]. intros [= <-]. by exists a.
Qed.

(** On unique numbers, the codec of the answer on [o]'s number is the one. *)
Lemma agreed_on_unique offer answer o a : NoDup (map PayloadType answer) ->
  o ∈ offer -> a ∈ answer -> PayloadType a = PayloadType o -> sameEncoding a o = true ->
  agreed_on offer answer o = Some (with_fmtp o (FMTP a)).
Proof.
  intros Hn Ho Ha Hpt He. unfold agreed_on.
  assert (Hat : offers_at offer a = true).
  { apply existsb_exists. exists o. split; [by apply list_elem_of_In|]. rewrite sameEncoding_sym, He. lia. }
  destruct (accepted_on offer answer (PayloadType o)) as [b|] eqn:E.
  - apply accepted_on_some in E as (Hb & Hbp & _).
    assert (b = a) as -> by (apply (nodup_map_eq PayloadType answer); congruence). by rewrite He.
  - apply List.find_none with (x := a) in E; [|by apply list_elem_of_In]. rewrite Hat in E. cbn [andb] in E. lia.
Qed.

(** both ends mean the same by every payload number.  A negotiated codec
    stands in the offer, unchanged but for the parameters, and on the same
    number in the answer, whose parameters it carries; the order is the
    offer's; a codec both sides have on one number is never lost; and there
    is audio, not only DTMF. *)
Theorem negotiated_numbers_agree offer answer out : Forall pt_ok offer -> Forall pt_ok answer ->
  NoDup (map PayloadType answer) -> Negotiate offer answer = inl out ->
  map (fun c => with_fmtp c []) out `sublist_of` map (fun c => with_fmtp c []) offer /\
  (forall c, c ∈ out -> exists a, a ∈ answer /\ PayloadType a = PayloadType c /\ sameEncoding a c = true /\ FMTP c = FMTP a) /\
  (forall o a, o ∈ offer -> a ∈ answer -> PayloadType a = PayloadType o -> sameEncoding a o = true ->
     with_fmtp o (FMTP a) ∈ out) /\
  (exists c, c ∈ out /\ IsTelephoneEvent c = false).
Proof.
  intros Ho Ha Hn H. rewrite Negotiate_spec_aux in H by done. destruct (List.find _ _); [done|].
  assert (out = agreed offer answer /\ HasMedia out = true) as [-> Hm].
  { destruct (agreed offer answer) as [|c l]; [done|]. cbv beta iota zeta in H.
    destruct (HasMedia (c :: l)) eqn:E; [|done]. by injection H as <-. }
  clear H. split; [|split; [|split]].
  - unfold agreed. generalize offer at 2 3 as os. induction os as [|o os IH]; [done|]. cbn [omap list_omap map].
    destruct (agreed_on offer answer o) as [c|] eqn:E; [|by apply sublist_cons].
    apply agreed_on_some in E as (a & _ & _ & _ & ->). cbn [map]. by apply sublist_skip.
  - intros c Hc. apply list_elem_of_omap in Hc as (o & Hin & Hc). apply agreed_on_some in Hc as (a & ? & ? & ? & ->).
    by exists a.
  - intros o a Hino Hina Hpt He. apply list_elem_of_omap. exists o. split; [done|]. by apply agreed_on_unique.
  - apply existsb_exists in Hm as (c & Hc & Ht). exists c. split; [by apply list_elem_of_In|by apply negb_true_iff].
Qed.

(** A browser's offer, and the switch's answer: PCMU and DTMF on the offer's
    numbers, opus not taken. *)
Definition demo_offer : list Codec :=
  [mkCodec 111 (str "opus") 48000 2 (str "useinbandfec=1"); mkCodec 0 (str "PCMU") 8000 1 [];
   mkCodec 126 (str "telephone-event") 8000 1 []].
Definition demo_answer : list Codec :=
  [mkCodec 126 (str "telephone-event") 8000 1 (str "0-15"); mkCodec 0 (str "pcmu") 8000 0 []].

Lemma Negotiate_spec_witness :
  Negotiate demo_offer demo_answer = inl (agreed demo_offer demo_answer) /\
  agreed demo_offer demo_answer =
    [mkCodec 0 (str "PCMU") 8000 1 []; mkCodec 126 (str "telephone-event") 8000 1 (str "0-15")].
Proof.
  split; [|vm_compute; reflexivity].
  rewrite (Negotiate_spec demo_offer demo_answer); [vm_compute; reflexivity| |]; apply (bool_decide_unpack _); vm_compute; exact I.
Defined.

Lemma negotiated_numbers_agree_witness :
  exists c, c ∈ [mkCodec 0 (str "PCMU") 8000 1 []; mkCodec 126 (str "telephone-event") 8000 1 (str "0-15")] /\
            IsTelephoneEvent c = false.
Proof.
  refine (proj2 (proj2 (proj2 (negotiated_numbers_agree demo_offer demo_answer _ _ _ _ _)))).
  - apply (bool_decide_unpack _). vm_compute. exact I.
  - apply (bool_decide_unpack _). vm_compute. exact I.
  - apply (bool_decide_unpack _). vm_compute. exact I.
  - vm_compute. reflexivity.
Defined.
