(* ===== verification/SdpCrypto.v ===== *)
(** internal/sip/sdp/crypto.go: SDES keys (RFC 4568) in "a=crypto" lines.

    The errors carry what the code's error texts are made of, which is never
    a byte of the input.  The random source is an argument. *)

From S2P Require Import Prelude GoText GoEncoding.

Open Scope Z_scope.

Abbreviation CryptoSuite := gostring.

Definition SuiteAESCM128HMACSHA180 : CryptoSuite := str "AES_CM_128_HMAC_SHA1_80".
Definition SuiteAESCM128HMACSHA132 : CryptoSuite := str "AES_CM_128_HMAC_SHA1_32".
Definition SuiteAEADAES128GCM : CryptoSuite := str "AEAD_AES_128_GCM".

Definition SupportedSuites : list CryptoSuite :=
  [SuiteAESCM128HMACSHA180; SuiteAEADAES128GCM; SuiteAESCM128HMACSHA132].

Definition MaxCrypto : Z := 8.
Definition maxCryptoTag : Z := 999999999.

(** [CryptoSuite.Lengths] and [Supported] *)
Definition Lengths (s : CryptoSuite) : option (Z * Z) :=
  if beq s SuiteAESCM128HMACSHA180 || beq s SuiteAESCM128HMACSHA132 then Some (16, 14)
  else if beq s SuiteAEADAES128GCM then Some (16, 12)
  else None.
Definition Supported (s : CryptoSuite) : bool := match Lengths s with Some _ => true | None => false end.

Record Crypto := mkCrypto { Tag : Z; Suite : CryptoSuite; Key : list Z; Salt : list Z }.

#[export] Instance Crypto_eq_dec : EqDecision Crypto.
Proof. solve_decision. Defined.

Inductive cryptoError :=
  | LineTooLong | TooFewFields | SessionParameters | BadTag | UnsupportedSuite | NotInline | MultipleKeys
  | MKI | BadLifetime | NotBase64
  | KeyLength (suite : CryptoSuite) (need have : Z)
  | TagRange (tag : Z)
  | WrongLengths (suite : CryptoSuite) (kl sl key salt : Z)
  | RandomFailed.

(** [Crypto.String], which is all that a print of a key shows. *)
Definition crypto_string (c : Crypto) : gostring :=
  str "crypto{tag=" ++ int_string (Tag c) ++ str " suite=" ++ Suite c ++ str "}".

Definition SameKey (c o : Crypto) : bool :=
  if negb (beq (Suite c) (Suite o)) then false else beq (Key c) (Key o) && beq (Salt c) (Salt o).
Definition Equal (c o : Crypto) : bool := SameKey c o && (Tag c =? Tag o).

Definition Validate (c : Crypto) : option cryptoError :=
  match Lengths (Suite c) with
  | None => Some UnsupportedSuite
  | Some (kl, sl) =>
      if (Tag c <? 1) || (maxCryptoTag <? Tag c) then Some (TagRange (Tag c))
      else if negb (len (Key c) =? kl) || negb (len (Salt c) =? sl)
      then Some (WrongLengths (Suite c) kl sl (len (Key c)) (len (Salt c)))
      else None
  end.

Definition appendValue (buf : gostring) (c : Crypto) : gostring :=
  buf ++ int_string (Tag c) ++ str " " ++ Suite c ++ str " inline:" ++ b64_encode (Key c ++ Salt c).
Definition Value (c : Crypto) : gostring := appendValue [] c.

(** ** Fresh keys, offers and answers *)

(** [SelectCrypto] *)
Definition SelectCrypto (offered : list Crypto) (allowed : list CryptoSuite) : option Crypto :=
  List.find (fun o => bool_decide (Validate o = None) &&
                      (bool_decide (allowed = []) || existsb (fun a => beq a (Suite o)) allowed)) offered.

Section Random.
(** [crypto/rand.Read]: so many bytes, or an error. *)
Context {R : Type} (rand_read : Z -> R -> option (list Z) * R).

Definition NewCrypto (tag : Z) (suite : CryptoSuite) (rnd : R) : (Crypto + cryptoError) * R :=
  match Lengths suite with
  | None => (inr UnsupportedSuite, rnd)
  | Some (kl, sl) =>
      if (tag <? 1) || (maxCryptoTag <? tag) then (inr (TagRange tag), rnd)
      else match rand_read (kl + sl) rnd with
           | (None, rnd) => (inr RandomFailed, rnd)
           | (Some mat, rnd) => (inl (mkCrypto tag suite (take (Z.to_nat kl) mat) (drop (Z.to_nat kl) mat)), rnd)
           end
  end.

Fixpoint offer_from (i : Z) (suites : list CryptoSuite) (rnd : R) : (list Crypto + cryptoError) * R :=
  match suites with
  | [] => (inl [], rnd)
  | s :: suites =>
      match NewCrypto (i + 1) s rnd with
      | (inr e, rnd) => (inr e, rnd)
      | (inl c, rnd) => match offer_from (i + 1) suites rnd with
                        | (inl l, rnd) => (inl (c :: l), rnd)
                        | (inr e, rnd) => (inr e, rnd)
                        end
      end
  end.
Definition OfferCrypto (suites : list CryptoSuite) (rnd : R) : (list Crypto + cryptoError) * R :=
  offer_from 0 (match suites with [] => SupportedSuites | _ => suites end) rnd.

(** The peer's line and ours, if a line is usable. *)
Definition AnswerCrypto (offered : list Crypto) (allowed : list CryptoSuite) (rnd : R)
  : (option (Crypto * Crypto) + cryptoError) * R :=
  match SelectCrypto offered allowed with
  | None => (inl None, rnd)
  | Some peer => match NewCrypto (Tag peer) (Suite peer) rnd with
                 | (inl ours, rnd) => (inl (Some (peer, ours)), rnd)
                 | (inr e, rnd) => (inr e, rnd)
                 end
  end.
End Random.

(** ** Reading a line *)

Definition parseCryptoTag (s : gostring) : option Z :=
  if (len s =? 0) || (9 <? len s) then None
  else if negb (forallb is_digit s) then None
  else let n := default 0 (atoi s) in if n <? 1 then None else Some n.

Definition validLifetime (s : gostring) : bool :=
  if 12 <? len s then false
  else let s := match cut_prefix s (str "2^") with Some r => r | None => s end in
       if bool_decide (s = []) then false else forallb is_digit s.

Definition decodeKeyBase64 (s : gostring) : option (list Z) :=
  match b64_decode true s with Some b => Some b | None => b64_decode false s end.

Definition ParseCrypto (value : gostring) : Crypto + cryptoError :=
  if 512 <? len value then inr LineTooLong
  else match fields value with
       | [] | [_] | [_; _] => inr TooFewFields
       | _ :: _ :: _ :: _ :: _ => inr SessionParameters
       | [f0; f1; f2] =>
           match parseCryptoTag f0 with
           | None => inr BadTag
           | Some tag =>
               match Lengths f1 with
               | None => inr UnsupportedSuite
               | Some (kl, sl) =>
                   match cut_prefix f2 (str "inline:") with
                   | None => inr NotInline
                   | Some rest =>
                       if mem 59 rest then inr MultipleKeys
                       else
                         let parts := split rest 124 in
                         if 2 <? len parts then inr MKI
                         else if (len parts =? 2) && negb (validLifetime (nth 1 parts [])) then inr BadLifetime
                         else match decodeKeyBase64 (nth 0 parts []) with
                              | None => inr NotBase64
                              | Some mat =>
                                  if negb (len mat =? kl + sl) then inr (KeyLength f1 (kl + sl) (len mat))
                                  else inl (mkCrypto tag f1 (take (Z.to_nat kl) mat) (drop (Z.to_nat kl) mat))
                              end
                   end
               end
           end
       end.

(** [parseCryptoAttrs]: [n] lines kept so far, their tags in [seen]. *)
Fixpoint crypto_attrs (values : list gostring) (seen : gset Z) (n : Z) : list Crypto :=
  match values with
  | [] => []
  | v :: values =>
      match ParseCrypto v with
      | inr _ => crypto_attrs values seen n
      | inl c => if bool_decide (Tag c ∈ seen) then crypto_attrs values seen n
                 else c :: (if n + 1 =? MaxCrypto then [] else crypto_attrs values ({[ Tag c ]} ∪ seen) (n + 1))
      end
  end.
Definition parseCryptoAttrs (values : list gostring) : list Crypto := crypto_attrs values ∅ 0.

(** ** Redaction *)

(** The class of [cryptoKeyRe], and the length of its match at the head of a
    text, if it matches there. *)
Definition is_key_char (c : Z) : bool := is_alnum c || mem c (str "+/=_-").

Fixpoint key_run (s : gostring) : nat :=
  match s with c :: s => if is_key_char c then S (key_run s) else O | [] => O end.

Definition key_match (s : gostring) : option nat :=
  if has_prefix (to_lower s) (str "inline:") then
    match key_run (drop 7 s) with O => None | n => Some (7 + n)%nat end
  else None.

(** [ReplaceAllString]: the leftmost matches, each of them replaced; [skip]
    bytes of the last one are still to come. *)
Fixpoint redact (skip : nat) (s : gostring) : gostring :=
  match s with
  | [] => []
  | c :: s' =>
      match skip with
      | S skip => redact skip s'
      | O => match key_match s with
             | Some n => str "inline:[redacted]" ++ redact (n - 1) s'
             | None => c :: redact 0 s'
             end
      end
  end.

Definition RedactCrypto (s : gostring) : gostring :=
  if negb (contains (to_lower s) (str "inline:")) then s else redact 0 s.

(** ** What is sent is what is read *)

Lemma digits_of_length fuel : forall k n acc, 0 <= n < 10 ^ Z.of_nat k -> (0 < k <= fuel)%nat ->
  (length (digits_of fuel n acc) <= k + length acc)%nat.
Proof.
  induction fuel as [|fuel IH]; intros k n acc Hn Hk; [lia|]. cbn [digits_of]. case_if; [cbn; lia|].
  destruct k as [|k]; [lia|]. rewrite Nat2Z.inj_succ, Z.pow_succ_r in Hn by lia.
  assert (0 < k)%nat by (destruct k; [cbn in Hn; lia|lia]).
  specialize (IH k (n / 10) ((48 + n mod 10) :: acc)). cbn [length] in IH. etransitivity; [apply IH|]; [|lia|lia].
  split; [apply Z.div_pos; lia|]. apply Z.div_lt_upper_bound; lia.
Qed.

Lemma b64_encode_length bs : (length (b64_encode bs) <= 2 * length bs + 3)%nat.
Proof. induction bs using quanta_ind; cbn [b64_encode length]; lia. Qed.

Lemma b64_ok_spec c : b64_ok c = true -> is_space c = false /\ c <> 59 /\ c <> 124 /\ c <> 13 /\ c <> 10.
Proof. unfold b64_ok, is_alnum, is_digit, is_space, b64_pad. lia. Qed.

Lemma Lengths_suites s kl sl : Lengths s = Some (kl, sl) -> s ∈ SupportedSuites /\ kl = 16 /\ (sl = 14 \/ sl = 12).
Proof.
  unfold Lengths, SupportedSuites. rewrite !elem_of_cons.
  destruct (beq s SuiteAESCM128HMACSHA180) eqn:E1; [apply beq_eq in E1 as ->; cbn [orb]; intros [= <- <-]; auto|].
  destruct (beq s SuiteAESCM128HMACSHA132) eqn:E2; [apply beq_eq in E2 as ->; cbn [orb]; intros [= <- <-]; auto|].
  destruct (beq s SuiteAEADAES128GCM) eqn:E3; [apply beq_eq in E3 as ->; cbn [orb]; intros [= <- <-]; auto|done].
Qed.

Lemma suite_word s : s ∈ SupportedSuites -> s <> [] /\ Forall (fun c => is_space c = false) s /\ (length s <= 23)%nat.
Proof.
  intros [->|[->|[->|[]%elem_of_nil]%elem_of_cons]%elem_of_cons]%elem_of_cons;
    (split; [done|split; [apply (bool_decide_unpack _); vm_compute; exact I|apply (bool_decide_unpack _); vm_compute; exact I]]).
Qed.

(** A valid line: its suite, tag and lengths. *)
Record crypto_ok (c : Crypto) : Prop := {
  co_lengths : exists sl, Lengths (Suite c) = Some (16, sl) /\ (sl = 14 \/ sl = 12) /\ len (Key c) = 16 /\ len (Salt c) = sl;
  co_tag : 1 <= Tag c <= maxCryptoTag
}.

Lemma Validate_ok c : Validate c = None <-> crypto_ok c.
Proof.
  unfold Validate. split.
  - destruct (Lengths (Suite c)) as [[kl sl]|] eqn:E; [|done]. pose proof (Lengths_suites _ _ _ E) as (_ & -> & Hsl).
    destruct (_ || _) eqn:E1; [done|]. destruct (negb _ || negb _) eqn:E2; [done|]. intros _.
    split; [|lia]. exists sl. split; [done|]. split; [done|]. lia.
  - intros [(sl & -> & Hsl & Hk & Hs) Ht]. rewrite Hk, Hs, !Z.eqb_refl.
    by replace ((Tag c <? 1) || (maxCryptoTag <? Tag c)) with false by lia.
Qed.

Lemma parseCryptoTag_itoa t : 1 <= t <= maxCryptoTag -> parseCryptoTag (itoa t) = Some t.
Proof.
  unfold maxCryptoTag. intros Ht. unfold parseCryptoTag. destruct (itoa_spec t) as (Hne & Hd & Hv); [lia|].
  assert (Hl : (length (itoa t) <= 9)%nat).
  { unfold itoa. pose proof (digits_of_length 64 9 t []) as H. cbn [length] in H. rewrite Nat.add_0_r in H. apply H; [|lia].
    change (10 ^ Z.of_nat 9) with 1000000000. lia. }
  assert (0 < length (itoa t))%nat by (destruct (itoa t); [done|cbn; lia]).
  replace ((len (itoa t) =? 0) || (9 <? len (itoa t))) with false by (unfold len; lia).
  rewrite Hd, atoi_itoa by (unfold max_int64, two63; lia). cbn [negb from_option]. unfold id. cbv zeta. by replace (t <? 1) with false by lia.
Qed.

Lemma mem_false c s : c ∉ s -> mem c s = false.
Proof.
  intros H. apply not_true_iff_false. intros E. apply existsb_exists in E as (x & Hx & E).
  apply Z.eqb_eq in E as ->. by apply H, list_elem_of_In.
Qed.

Lemma Value_fields c : crypto_ok c -> bytes_ok (Key c ++ Salt c) ->
  fields (Value c) = [itoa (Tag c); Suite c; str "inline:" ++ b64_encode (Key c ++ Salt c)].
Proof.
  intros [(sl & El & _) Ht] Hb. unfold maxCryptoTag in Ht. unfold Value, appendValue, int_string. cbn [app].
  replace (Tag c <? 0) with false by lia. destruct (itoa_spec (Tag c)) as (Hne & _); [lia|].
  apply Lengths_suites in El as (Hs & _). apply suite_word in Hs as (Hsn & Hss & _).
  change (str " ") with [32]. change (str " inline:") with (32 :: str "inline:"). cbn [app].
  rewrite fields_word by (done || (apply itoa_no_space; lia)). rewrite fields_word by done.
  rewrite fields_last; [done|done|]. apply Forall_app. split.
  - apply (bool_decide_unpack _). vm_compute. exact I.
  - eapply Forall_impl; [by apply b64_encode_ok|]. intros x Hx. by apply b64_ok_spec in Hx as [? _].
Qed.

Lemma Value_length c : crypto_ok c -> len (Value c) <= 512.
Proof.
  intros [(sl & El & Hsl & Hk & Hs) Ht]. unfold maxCryptoTag in Ht. unfold Value, appendValue, int_string. cbn [app].
  replace (Tag c <? 0) with false by lia. apply Lengths_suites in El as (Hsu & _). apply suite_word in Hsu as (_ & _ & Hl).
  pose proof (b64_encode_length (Key c ++ Salt c)) as Hb. rewrite length_app in Hb. unfold len in *.
  assert (Hi : (length (itoa (Tag c)) <= 9)%nat).
  { unfold itoa. pose proof (digits_of_length 64 9 (Tag c) []) as H. cbn [length] in H. rewrite Nat.add_0_r in H.
    apply H; [|lia]. change (10 ^ Z.of_nat 9) with 1000000000. lia. }
  rewrite !length_app. change (length (str " ")) with 1%nat. change (length (str " inline:")) with 8%nat. lia.
Qed.

Lemma ParseCrypto_Value_aux c : Validate c = None -> bytes_ok (Key c ++ Salt c) -> ParseCrypto (Value c) = inl c.
Proof.
  intros Hv Hb. apply Validate_ok in Hv as Hok. unfold ParseCrypto.
  replace (512 <? len (Value c)) with false by (pose proof (Value_length c Hok); lia).
  rewrite Value_fields by done. destruct Hok as [(sl & El & Hsl & Hk & Hs) Ht].
  rewrite parseCryptoTag_itoa, El, cut_prefix_app by done. set (k := b64_encode (Key c ++ Salt c)).
  assert (Hno : 59 ∉ k /\ 124 ∉ k).
  { pose proof (b64_encode_ok _ Hb) as Ho. rewrite Forall_forall in Ho.
    split; intros Hin; apply Ho in Hin; apply b64_ok_spec in Hin; lia. }
  rewrite mem_false by apply Hno. rewrite split_none by apply Hno. cbn [length len nth Z.of_nat andb negb].
  change (2 <? 1) with false. change (1 =? 2) with false. cbn [andb]. unfold decodeKeyBase64, k.
  rewrite b64_decode_encode by done. rewrite len_app, Hk, Hs, Z.eqb_refl. cbn [negb].
  replace (Z.to_nat 16) with (length (Key c)) by (unfold len in Hk; lia).
  rewrite take_app_length, drop_app_length. by destruct c.
Qed.

(** an a=crypto value is read back as the key it was written from: the
    tag, the suite and every byte of the master key and salt. *)
Theorem ParseCrypto_Value c : Validate c = None -> bytes_ok (Key c ++ Salt c) -> ParseCrypto (Value c) = inl c.
Proof. apply ParseCrypto_Value_aux. Qed.

(** ** What is read is usable *)

Lemma digits_val_bound s : forallb is_digit s = true -> 0 <= digits_val s < 10 ^ len s.
Proof.
  induction s as [|c s IH] using rev_ind; [by vm_compute|]. rewrite forallb_app, andb_true_iff. intros [Hs Hc].
  cbn [forallb] in Hc. rewrite andb_true_r in Hc. unfold is_digit in Hc. specialize (IH Hs).
  rewrite digits_val_app, len_app, Z.pow_add_r by (try apply len_nonneg; lia).
  change (10 ^ len [c]) with 10. lia.
Qed.

Lemma ParseCrypto_ok v c : ParseCrypto v = inl c -> crypto_ok c.
Proof.
  unfold ParseCrypto. case_if; [done|]. destruct (fields v) as [|f0 [|f1 [|f2 [|? ?]]]]; try done.
  unfold parseCryptoTag. destruct ((len f0 =? 0) || (9 <? len f0)) eqn:E9; [done|].
  destruct (negb (forallb is_digit f0)) eqn:Ed; [done|]. cbv zeta. case_if; [done|].
  destruct (Lengths f1) as [[kl sl]|] eqn:El; [|done]. destruct (cut_prefix f2 _); [|done].
  case_if; [done|]. cbv zeta. case_if; [done|]. case_if; [done|]. destruct (decodeKeyBase64 _) as [mat|]; [|done].
  destruct (negb (len mat =? kl + sl)) eqn:Em; [done|]. intros [= <-].
  pose proof (Lengths_suites _ _ _ El) as (_ & -> & Hsl). split; cbn [Suite Key Salt Tag].
  - exists sl. split; [done|]. split; [done|]. rewrite len_take, len_drop. lia.
  - split; [lia|]. apply negb_false_iff in Ed. pose proof (digits_val_bound f0 Ed) as Hb.
    assert (10 ^ len f0 <= 10 ^ 9) by (apply Z.pow_le_mono_r; lia). unfold maxCryptoTag.
    rewrite atoi_digits; [cbn [from_option]; unfold id; lia|by destruct f0|done|unfold max_int64, two63; lia|lia].
Qed.

Abbreviation usable_lines := (omap (fun v => match ParseCrypto v with inl c => Some c | inr _ => None end)).

Lemma crypto_attrs_spec values : forall (seen : gset Z) n, n < MaxCrypto ->
  let l := crypto_attrs values seen n in
  Forall (fun c => Validate c = None) l /\ NoDup (map Tag l) /\ n + len l <= MaxCrypto /\
  l `sublist_of` usable_lines values /\ Forall (fun c => Tag c ∉ seen) l /\
  ((forall t, t ∉ seen) -> hd_error l = hd_error (usable_lines values)).
Proof.
  induction values as [|v values IH]; intros seen n Hn; cbn zeta; cbn [crypto_attrs omap list_omap].
  { rewrite len_nil. split_and!; try done; [constructor|lia]. }
  destruct (ParseCrypto v) as [c|] eqn:E; [|by apply IH].
  destruct (bool_decide (Tag c ∈ seen)) eqn:Es.
  - apply bool_decide_eq_true in Es. destruct (IH seen n Hn) as (H1 & H2 & H3 & H4 & H5 & H6).
    split_and!; try done; [by apply sublist_cons|]. intros Hno. by destruct (Hno (Tag c)).
  - apply bool_decide_eq_false in Es. apply ParseCrypto_ok, Validate_ok in E as Hv.
    destruct (n + 1 =? MaxCrypto) eqn:En.
    + rewrite len_cons, len_nil. split_and!; [by repeat constructor|by apply NoDup_singleton|lia| |by repeat constructor|done].
      apply sublist_skip, sublist_nil_l.
    + destruct (IH ({[ Tag c ]} ∪ seen) (n + 1)) as (H1 & H2 & H3 & H4 & H5 & _); [lia|]. cbn zeta in *.
      rewrite len_cons. split_and!; [by constructor| |lia|by apply sublist_skip| |done].
      * cbn [map]. apply NoDup_cons. split; [|done]. intros Hin. apply list_elem_of_In, in_map_iff in Hin as (x & Hx & Hin).
        rewrite Forall_forall in H5. apply (H5 x); [by apply list_elem_of_In|]. set_solver.
      * constructor; [done|]. eapply Forall_impl; [exact H5|]. cbn. set_solver.
Qed.

Lemma parseCryptoAttrs_usable_aux values :
  let l := parseCryptoAttrs values in
  Forall (fun c => Validate c = None) l /\ NoDup (map Tag l) /\ len l <= MaxCrypto /\
  l `sublist_of` omap (fun v => match ParseCrypto v with inl c => Some c | inr _ => None end) values /\
  hd_error l = hd_error (omap (fun v => match ParseCrypto v with inl c => Some c | inr _ => None end) values).
Proof.
  cbv zeta. unfold parseCryptoAttrs. destruct (crypto_attrs_spec values ∅ 0) as (H1 & H2 & H3 & H4 & H5 & H6); [unfold MaxCrypto; lia|].
  split_and!; try done. apply H6. set_solver.
Qed.

(** the lines taken from an offer are usable: each has a supported suite,
    exact key and salt lengths and a tag in range; no tag comes twice, there
    are at most eight, they are in the order of the offer, and the first
    usable line is never left out. *)
Theorem parseCryptoAttrs_usable values :
  let l := parseCryptoAttrs values in
  Forall (fun c => Validate c = None) l /\ NoDup (map Tag l) /\ len l <= MaxCrypto /\
  l `sublist_of` omap (fun v => match ParseCrypto v with inl c => Some c | inr _ => None end) values /\
  hd_error l = hd_error (omap (fun v => match ParseCrypto v with inl c => Some c | inr _ => None end) values).
Proof. apply parseCryptoAttrs_usable_aux. Qed.

(** ** The answer *)

Section Answer.
Context {R : Type} (rand_read : Z -> R -> option (list Z) * R).
(** A read that succeeds fills the buffer with bytes. *)
Hypothesis rand_fills : forall n rnd bs rnd', 0 <= n -> rand_read n rnd = (Some bs, rnd') -> len bs = n.

Lemma NewCrypto_ok tag suite rnd c rnd' : NewCrypto rand_read tag suite rnd = (inl c, rnd') ->
  Validate c = None /\ Tag c = tag /\ Suite c = suite.
Proof.
  unfold NewCrypto. destruct (Lengths suite) as [[kl sl]|] eqn:El; [|done]. case_if; [done|].
  destruct (rand_read (kl + sl) rnd) as [[mat|] r] eqn:Er; [|done]. intros [= <- <-].
  split; [|done]. pose proof (Lengths_suites _ _ _ El) as (_ & -> & Hsl). apply rand_fills in Er; [|lia]. apply Validate_ok.
  split; cbn [Suite Key Salt Tag]; [|lia]. exists sl. split; [done|]. split; [done|]. rewrite len_take, len_drop. lia.
Qed.

(** the answer accepts exactly one offered line, the first usable one of
    an allowed suite, and keys our side with a fresh valid line of the same
    tag and suite; there is no answer only when no offered line will do. *)
Theorem AnswerCrypto_spec offered allowed rnd :
  let usable o := Validate o = None /\ (allowed = [] \/ Suite o ∈ allowed) in
  match (AnswerCrypto rand_read offered allowed rnd).1 with
  | inl (Some (peer, ours)) =>
      usable peer /\ (exists before after, offered = before ++ peer :: after /\ Forall (fun o => ~ usable o) before) /\
      Validate ours = None /\ Tag ours = Tag peer /\ Suite ours = Suite peer
  | inl None => Forall (fun o => ~ usable o) offered
  | inr e => e = RandomFailed
  end.
Proof.
  intros usable. set (f := fun o => bool_decide (Validate o = None) &&
                      (bool_decide (allowed = []) || existsb (fun a => beq a (Suite o)) allowed)).
  assert (Hf : forall o, f o = true <-> usable o).
  { intros o. unfold f, usable. rewrite andb_true_iff, orb_true_iff, !bool_decide_eq_true, existsb_exists.
    split; intros [? [?|H]]; (split; [done|]); try (by left); right.
    - destruct H as (a & Ha & E). apply beq_eq in E as ->. by apply list_elem_of_In.
    - exists (Suite o). split; [by apply list_elem_of_In|apply beq_refl]. }
  assert (Hn : forall o, f o = false -> ~ usable o) by (intros o E Hu; apply Hf in Hu; congruence).
  unfold AnswerCrypto, SelectCrypto. fold f. destruct (List.find f offered) as [peer|] eqn:E.
  - assert (Hsplit : exists before after, offered = before ++ peer :: after /\ Forall (fun o => ~ usable o) before).
    { clear -E Hn. induction offered as [|o os IH]; [done|]. cbn in E. destruct (f o) eqn:Eo.
      - injection E as ->. exists [], os. by split; [|constructor].
      - destruct (IH E) as (b & a & -> & Hb). exists (o :: b), a. split; [done|]. constructor; auto. }
    apply List.find_some in E as [_ E]. apply Hf in E.
    destruct (NewCrypto rand_read (Tag peer) (Suite peer) rnd) as [[ours|e] rnd'] eqn:En; cbn [fst].
    + apply NewCrypto_ok in En as (? & ? & ?). by split_and!.
    + destruct E as [E _]. apply Validate_ok in E as [(sl & El & _) Ht]. unfold NewCrypto in En. rewrite El in En.
      replace ((Tag peer <? 1) || (maxCryptoTag <? Tag peer)) with false in En by lia.
      destruct (rand_read (16 + sl) rnd) as [[mat|] r]; congruence.
  - cbn [fst]. apply Forall_forall. intros o Ho. apply Hn. apply (List.find_none _ _ E). by apply list_elem_of_In.
Qed.
End Answer.

(** ** Nothing that looks like a key reaches a log *)

Lemma is_key_char_lower c : is_key_char (lower_byte c) = is_key_char c.
Proof.
  unfold is_key_char, is_alnum, is_digit, lower_byte. destruct ((65 <=? c) && (c <=? 90)) eqn:E; [|by rewrite E].
  replace (mem (c + 32) (str "+/=_-")) with false; [|unfold mem; change (str "+/=_-") with [43; 47; 61; 95; 45]; cbn [existsb]; lia]. rewrite orb_false_r. lia.
Qed.

(** Whether a key starts at the head of a text is in its first eight bytes,
    whatever their case. *)
Definition head8 (l : gostring) : bool :=
  match l with
  | [a; b; c; d; e; f; g; h] => beq [a; b; c; d; e; f; g] (str "inline:") && is_key_char h
  | _ => false
  end.

Lemma key_match_head8 s : (if key_match s then true else false) = head8 (take 8 (to_lower s)).
Proof.
  unfold key_match. destruct (has_prefix (to_lower s) (str "inline:")) eqn:E.
  - apply has_prefix_spec in E as [r Er]. 
    assert (Hd : to_lower (drop 7 s) = r).
    { unfold to_lower in *. rewrite <- skipn_map. rewrite Er. done. }
    rewrite Er. change (str "inline:") with [105; 110; 108; 105; 110; 101; 58]. cbn [app take head8].
    destruct (drop 7 s) as [|x q] eqn:Eq; cbn [to_lower map] in Hd; subst r; [done|]. cbn [take head8 key_run].
    rewrite is_key_char_lower. rewrite beq_refl. by destruct (is_key_char x).
  - symmetry. apply not_true_iff_false. intros H.
    destruct (take 8 (to_lower s)) as [|a [|b [|c [|d [|e [|f [|g [|h [|? ?]]]]]]]]] eqn:Et; try done.
    cbn [head8] in H. apply andb_true_iff in H as [H _]. apply beq_eq in H. injection H as -> -> -> -> -> -> ->.
    apply not_true_iff_false in E. apply E, has_prefix_spec. exists (h :: drop 8 (to_lower s)).
    pose proof (take_drop 8 (to_lower s)) as Hd. rewrite Et in Hd. by rewrite <- Hd.
Qed.

Lemma redact_skip n s : redact n s = redact 0 (drop n s).
Proof. revert n. induction s as [|c s IH]; intros [|n]; try done. cbn [redact drop]. apply IH. Qed.

Lemma redact_take7 s : forall n, (n <= 7)%nat -> take n (to_lower (redact 0 s)) = take n (to_lower s).
Proof.
  induction s as [|c s IH]; intros n Hn; [done|]. cbn [redact]. destruct (key_match (c :: s)) as [m|] eqn:E.
  - unfold key_match in E. destruct (has_prefix (to_lower (c :: s)) (str "inline:")) eqn:Ep; [|done].
    apply has_prefix_spec in Ep as [r ->]. rewrite to_lower_app.
    change (to_lower (str "inline:[redacted]")) with (str "inline:" ++ str "[redacted]"). rewrite <- app_assoc.
    rewrite !take_app_le; [done| |]; change (length (str "inline:")) with 7%nat; lia.
  - destruct n as [|n]; [done|]. change (to_lower (?x :: ?l)) with (lower_byte x :: to_lower l). cbn [take].
    by rewrite IH by lia.
Qed.

(** No key anywhere in a text. *)
Definition no_key (s : gostring) : Prop := forall p q, s = p ++ q -> key_match q = None.

Lemma no_key_cons c s : key_match (c :: s) = None -> no_key s -> no_key (c :: s).
Proof. intros H Hs [|x p] q E; [cbn in E; by rewrite <- E|]. injection E as <- E. by apply (Hs p). Qed.

Lemma no_key_replacement s : no_key s -> no_key (str "inline:[redacted]" ++ s).
Proof.
  intros Hs. change (str "inline:[redacted]") with
    [105; 110; 108; 105; 110; 101; 58; 91; 114; 101; 100; 97; 99; 116; 101; 100; 93]. cbn [app].
  repeat (apply no_key_cons; [reflexivity|]). exact Hs.
Qed.

Lemma redact_no_key n : forall s, (length s <= n)%nat -> no_key (redact 0 s).
Proof.
  induction n as [|n IH]; intros [|c s] Hl; try (cbn in Hl; lia).
  - intros p q E. symmetry in E. apply app_nil in E as [_ ->]. reflexivity.
  - intros p q E. symmetry in E. apply app_nil in E as [_ ->]. reflexivity.
  - cbn [length] in Hl. cbn [redact]. destruct (key_match (c :: s)) as [m|] eqn:E.
    + rewrite redact_skip. apply no_key_replacement, IH. rewrite length_drop. lia.
    + apply no_key_cons; [|apply IH; lia].
      pose proof (key_match_head8 (c :: s)) as H1. rewrite E in H1. pose proof (key_match_head8 (c :: redact 0 s)) as H2.
      change (to_lower (?x :: ?l)) with (lower_byte x :: to_lower l) in H1, H2. cbn [take] in H1, H2.
      rewrite redact_take7 in H2 by lia. rewrite <- H1 in H2. by destruct (key_match (c :: redact 0 s)).
Qed.

Lemma redact_id s : no_key s -> redact 0 s = s.
Proof.
  induction s as [|c s IH]; intros H; [done|]. cbn [redact]. rewrite (H [] (c :: s)) by done. f_equal. apply IH.
  intros p q ->. by apply (H (c :: p)).
Qed.

Lemma no_inline_no_key s : contains (to_lower s) (str "inline:") = false -> no_key s.
Proof.
  intros H p q ->. unfold key_match. destruct (has_prefix (to_lower q) (str "inline:")) eqn:E; [|done].
  exfalso. apply has_prefix_spec in E as [r E]. rewrite to_lower_app, E in H. unfold contains in H.
  destruct (index (to_lower p ++ str "inline:" ++ r) (str "inline:")) eqn:Ei; [done|]. clear -Ei.
  induction (to_lower p) as [|x l IH]; [done|]. cbn [index app] in Ei. case_if_in Ei; [done|].
  by destruct (index (l ++ str "inline:" ++ r) (str "inline:")).
Qed.

Lemma redact_fixed_no_key s : redact 0 s = s -> no_key s.
Proof. intros H. rewrite <- H. by apply (redact_no_key (length s)). Qed.

(** redaction leaves no key.  Whatever text goes in, what comes out has
    no "inline:" in any case followed by key material at any place, not even one made up
    by the replacement itself; a text without a key comes out unchanged. *)
Theorem RedactCrypto_no_key s : no_key (RedactCrypto s) /\ (no_key s -> RedactCrypto s = s).
Proof.
  unfold RedactCrypto. destruct (contains _ _) eqn:E; cbn [negb].
  - split; [by apply (redact_no_key (length s))|apply redact_id].
  - split; [by apply no_inline_no_key|done].
Qed.

(** ** Witnesses *)

Definition demo_crypto : Crypto :=
  mkCrypto 1 SuiteAEADAES128GCM (map Z.of_nat (seq 0 16)) (map Z.of_nat (seq 200 12)).

Lemma ParseCrypto_Value_witness :
  Value demo_crypto = str "1 AEAD_AES_128_GCM inline:AAECAwQFBgcICQoLDA0OD8jJysvMzc7P0NHS0w==" /\
  ParseCrypto (Value demo_crypto) = inl demo_crypto.
Proof.
  split; [vm_compute; reflexivity|]. apply (ParseCrypto_Value demo_crypto); [vm_compute; reflexivity|].
  apply (bool_decide_unpack _). vm_compute. exact I.
Defined.

(** A random source for the examples: all ones. *)
Definition ones (n : Z) (rnd : unit) : option (list Z) * unit := (Some (replicate (Z.to_nat n) 1), rnd).

Definition f8_line : Crypto := mkCrypto 1 (str "F8_128_HMAC_SHA1_80") [] [].

Lemma AnswerCrypto_spec_witness :
  (AnswerCrypto ones [f8_line; demo_crypto] [] tt).1 =
    inl (Some (demo_crypto, mkCrypto 1 SuiteAEADAES128GCM (replicate 16 1) (replicate 12 1))) /\
  exists before after, [f8_line; demo_crypto] = before ++ demo_crypto :: after.
Proof.
  split; [vm_compute; reflexivity|].
  assert (H : forall n rnd bs rnd', 0 <= n -> ones n rnd = (Some bs, rnd') -> len bs = n).
  { intros n rnd bs rnd' Hn [= <- <-]. unfold len. rewrite length_replicate. lia. }
  destruct (proj1 (proj2 (AnswerCrypto_spec ones H [f8_line; demo_crypto] [] tt))) as (before & after & E & _).
  exists before, after. exact E.
Defined.

Lemma RedactCrypto_no_key_witness :
  RedactCrypto (str "a=crypto:1 X INLINE:AAAA|2^20 inlinline:QQ==") = str "a=crypto:1 X inline:[redacted]|2^20 inlinline:[redacted]" /\
  RedactCrypto (str "inline: none") = str "inline: none".
Proof.
  split; [vm_compute; reflexivity|].
  apply (RedactCrypto_no_key (str "inline: none")). apply redact_fixed_no_key. vm_compute. reflexivity.
Defined.
