(* ===== verification/SdpFmtp.v ===== *)
(** internal/sip/sdp/fmtp.go: codec parameters, parsed against an allowlist
    and re-rendered.

    The loops over [strings.Cut] run over the pieces of [split].  Encoding
    names are lower-cased as ASCII, which every parsed name is. *)

From S2P Require Import Prelude GoText GoEncoding SdpCrypto.

Open Scope Z_scope.

(** [fmtpParam]: the canonical form of a value, if it is one. *)
Abbreviation fmtpParam := (gostring -> option gostring).

Definition fmtpInt (lo hi : Z) : fmtpParam := fun v =>
  if (len v =? 0) || (10 <? len v) then None
  else match parse_uint v 64 with
       | None => None
       | Some n =>
           if (n <? lo) || (hi <? n) then None
           else if negb (nth 0 v 0 =? 48) || (len v =? 1) then Some v
           else Some (itoa n)
       end.

Definition fmtpEnum (vals : list gostring) : fmtpParam := fun v => List.find (fun want => equal_fold v want) vals.
Definition fmtpBool : fmtpParam := fmtpEnum [str "0"; str "1"].

(** The loop of [fmtpModeSet]. *)
Fixpoint mode_numbers (max : Z) (parts : list gostring) : option (list gostring) :=
  match parts with
  | [] => Some []
  | p :: parts =>
      match atoi (trim_space p) with
      | Some n => if (n <? 0) || (max <? n) then None else cons (itoa n) <$> mode_numbers max parts
      | None => None
      end
  end.
Definition fmtpModeSet (max : Z) : fmtpParam := fun v =>
  let parts := split v 44 in
  if max + 1 <? len parts then None else (fun out => join out 44) <$> mode_numbers max parts.

Definition opus_params : list (gostring * fmtpParam) :=
  [(str "maxplaybackrate", fmtpInt 8000 48000); (str "sprop-maxcapturerate", fmtpInt 8000 48000);
   (str "maxptime", fmtpInt 3 120); (str "ptime", fmtpInt 3 120); (str "minptime", fmtpInt 3 120);
   (str "maxaveragebitrate", fmtpInt 6000 510000); (str "stereo", fmtpBool); (str "sprop-stereo", fmtpBool);
   (str "cbr", fmtpBool); (str "useinbandfec", fmtpBool); (str "usedtx", fmtpBool)].

Definition amr_params (modes : Z) : list (gostring * fmtpParam) :=
  [(str "octet-align", fmtpBool); (str "mode-set", fmtpModeSet modes);
   (str "mode-change-period", fmtpEnum [str "1"; str "2"]); (str "mode-change-capability", fmtpEnum [str "1"; str "2"]);
   (str "mode-change-neighbor", fmtpBool); (str "crc", fmtpBool); (str "robust-sorting", fmtpBool);
   (str "max-red", fmtpInt 0 65535)].

(** The allowlist: the parameters of a codec, and the check of one of them. *)
Definition fmtpAllow : list (gostring * list (gostring * fmtpParam)) :=
  [(str "opus", opus_params); (str "amr", amr_params 7); (str "amr-wb", amr_params 8);
   (str "g729", [(str "annexb", fmtpEnum [str "yes"; str "no"])]);
   (str "ilbc", [(str "mode", fmtpEnum [str "20"; str "30"])]);
   (str "g7221", [(str "bitrate", fmtpEnum [str "24000"; str "32000"; str "48000"])])].

Definition assoc {A} (k : gostring) (l : list (gostring * A)) : option A :=
  snd <$> List.find (fun p => beq (fst p) k) l.

(** ** RFC 4733 events *)

Definition eventNumber (s : gostring) : option Z :=
  if (len s =? 0) || (3 <? len s) then None
  else match atoi s with
       | Some n => if (n <? 0) || (255 <? n) then None else Some n
       | None => None
       end.

Definition event_entry (p : gostring) : option gostring :=
  let '(lo, hi, isRange) := cut (trim_space p) 45 in
  match eventNumber lo with
  | None => None
  | Some a =>
      if negb isRange then Some (itoa a)
      else match eventNumber hi with
           | None => None
           | Some b => if b <? a then None else Some (itoa a ++ str "-" ++ itoa b)
           end
  end.

Fixpoint event_entries (i : nat) (parts : list gostring) (out : gostring) : option gostring :=
  match parts with
  | [] => Some out
  | p :: parts =>
      match event_entry p with
      | None => None
      | Some e => event_entries (S i) parts (out ++ (match i with O => [] | _ => str "," end) ++ e)
      end
  end.

Definition count_byte (s : gostring) (c : Z) : Z := len (List.filter (fun x => x =? c) s).

Definition appendEventList (dst v : gostring) : option gostring :=
  if bool_decide (v = []) || (64 <=? count_byte v 44) then None else event_entries 0 (split v 44) dst.

Fixpoint append_events (dst : gostring) (segs : list gostring) : gostring :=
  match segs with
  | [] => dst
  | seg :: segs => match appendEventList dst (trim_space seg) with
                   | Some out => out
                   | None => append_events dst segs
                   end
  end.
Definition appendEvents (dst raw : gostring) : gostring := append_events dst (split raw 59).

(** ** The canonical form *)

(** The loop over the parameters: the keys [seen], whether it is the [first]. *)
Fixpoint append_params (allow : list (gostring * fmtpParam)) (dst : gostring) (seen : list gostring) (first : bool)
  (segs : list gostring) : gostring :=
  match segs with
  | [] => dst
  | seg :: segs =>
      let '(k, v, ok) := cut seg 61 in
      if negb ok then append_params allow dst seen first segs
      else
        let k := to_lower (trim_space k) in
        match assoc k allow with
        | None => append_params allow dst seen first segs
        | Some check =>
            if existsb (beq k) seen then append_params allow dst seen first segs
            else match check (trim_space v) with
                 | None => append_params allow dst seen first segs
                 | Some cv =>
                     append_params allow (dst ++ (if first then [] else str ";") ++ k ++ str "=" ++ cv)
                       (seen ++ [k]) false segs
                 end
        end
  end.

Definition maxFMTP : Z := 512.

Definition appendCanonicalFMTP (dst name raw : gostring) : gostring :=
  let lname := to_lower name in
  if beq lname (str "telephone-event") then appendEvents dst raw
  else match assoc lname fmtpAllow with
       | None => dst
       | Some allow => append_params allow dst [] true (split raw 59)
       end.

Definition canonicalFMTP (name raw : gostring) : gostring :=
  if bool_decide (raw = []) || (maxFMTP <? len raw) then []
  else let out := appendCanonicalFMTP [] name raw in if beq out raw then raw else out.

Example fmtp_texts :
  canonicalFMTP (str "OPUS") (str " UseInbandFEC=1; minptime=010;x-addr=10.0.0.1;stereo=2;minptime=20")
    = str "useinbandfec=1;minptime=10" /\
  canonicalFMTP (str "telephone-event") (str "x;0-15, 66 ;70") = str "0-15,66" /\
  canonicalFMTP (str "AMR") (str "mode-set=0, 2,+4") = str "mode-set=0,2,4" /\
  canonicalFMTP (str "PCMU") (str "annexb=no") = [].
Proof. split_and!; vm_compute; reflexivity. Qed.

(** ** Numbers written back are never longer *)

Lemma trim_space_length s : (length (trim_space s) <= length s)%nat.
Proof.
  unfold trim_space, trim_right. rewrite length_rev. etransitivity; [apply trim_left_length|].
  rewrite length_rev. apply trim_left_length.
Qed.

Lemma itoa_length n k : 0 <= n < 10 ^ Z.of_nat k -> (0 < k <= 64)%nat -> (length (itoa n) <= k)%nat.
Proof.
  intros Hn Hk. unfold itoa. pose proof (digits_of_length 64 k n [] Hn Hk) as H. cbn [length] in H. lia.
Qed.

Lemma itoa_digits_len s : forallb is_digit s = true -> s <> [] -> digits_val s <= max_int64 ->
  (length (itoa (digits_val s)) <= length s)%nat.
Proof.
  intros Hd Hne Hm. pose proof (digits_val_bound s Hd) as Hb. destruct (le_lt_dec (length s) 64) as [Hl|Hl].
  - apply itoa_length; [exact Hb|]. destruct s; [done|cbn in *; lia].
  - transitivity 64%nat; [|lia]. apply itoa_length; [|lia]. unfold max_int64, two63 in Hm. change (Z.of_nat 64) with 64. lia.
Qed.

Lemma atoi_spec s n : atoi s = Some n -> 0 <= n -> 0 <= n <= max_int64 /\ (length (itoa n) <= length s)%nat.
Proof.
  unfold atoi. set (q := match s with 45 :: ds => _ | _ => _ end).
  assert (Hq : (length q.2 <= length s)%nat).
  { unfold q. destruct s as [|[|p|p] s]; cbn; try lia. do 6 (try destruct p; cbn; try lia). }
  destruct q as [neg ds] eqn:Eq. cbn [snd] in Hq. case_if; [done|]. apply bool_decide_eq_false in Heqb.
  destruct (forallb is_digit ds) eqn:Ed; cbn [negb]; [|done].
  destruct (_ && _) eqn:Er; [|done]. intros [= <-] Hn. pose proof (digits_val_bound ds Ed) as Hb.
  assert (E : (if neg then - digits_val ds else digits_val ds) = digits_val ds) by (destruct neg; lia).
  rewrite E in *. split; [lia|]. etransitivity; [|exact Hq]. apply itoa_digits_len; [done|done|lia].
Qed.

(** ** What a check promises *)

(** Values are letters, digits and commas. *)
Definition value_char (c : Z) : bool := is_alnum c || (c =? 44).

Record canon (p : fmtpParam) : Prop := {
  cn_idem v w : p v = Some w -> p w = Some w;
  cn_safe v w : p v = Some w -> Forall (fun c => value_char c = true) w;
  cn_len v w : p v = Some w -> (length w <= length v)%nat
}.

Lemma digit_value c : is_digit c = true -> value_char c = true.
Proof. unfold value_char, is_alnum. intros ->. by rewrite !orb_true_r. Qed.

Lemma digits_value s : forallb is_digit s = true -> Forall (fun c => value_char c = true) s.
Proof. rewrite forallb_forall, Forall_forall. intros H c Hc. apply digit_value, H. by apply list_elem_of_In. Qed.

Lemma parse_uint_some s bits n : parse_uint s bits = Some n ->
  s <> [] /\ forallb is_digit s = true /\ n = digits_val s /\ 0 <= n < 2 ^ bits.
Proof.
  unfold parse_uint. case_if; [done|]. apply bool_decide_eq_false in Heqb. destruct (forallb is_digit s) eqn:E; [|done].
  cbn [negb]. case_if; [|done]. intros [= <-]. pose proof (digits_val_bound s E). split_and!; try done; lia.
Qed.

Lemma fmtpInt_canon lo hi : 0 <= lo -> hi <= 999999 -> canon (fmtpInt lo hi).
Proof.
  intros Hlo Hhi.
  assert (H : forall v w, fmtpInt lo hi v = Some w ->
    (w = v /\ forallb is_digit v = true) \/
    (exists n, w = itoa n /\ lo <= n <= hi /\ (length w <= length v)%nat /\ (length v <= 10)%nat)).
  { intros v w. unfold fmtpInt. destruct (_ || _) eqn:El; [done|]. destruct (parse_uint v 64) as [n|] eqn:En; [|done].
    apply parse_uint_some in En as (Hne & Hd & -> & Hb). destruct ((digits_val v <? lo) || _) eqn:Er; [done|].
    case_if; intros [= <-]; [by left|]. right. exists (digits_val v). split; [done|]. split; [lia|].
    split; [|unfold len in El; lia]. apply itoa_digits_len; [done|done|unfold max_int64, two63; lia]. }
  split; intros v w E; destruct (H v w E) as [[-> Hd]|(n & -> & Hn & Hl & Hl')]; try done.
  - unfold fmtpInt. destruct (itoa_spec n) as (Hne & Hd & Hv); [lia|].
    assert (0 < length (itoa n))%nat by (destruct (itoa n); [done|cbn; lia]).
    replace ((len (itoa n) =? 0) || (10 <? len (itoa n))) with false by (unfold len; lia).
    rewrite parse_uint_itoa by lia. replace ((n <? lo) || (hi <? n)) with false by lia. by case_if.
  - by apply digits_value.
  - apply digits_value. by destruct (itoa_spec n) as (_ & Hd & _); [lia|].
Qed.

Lemma equal_fold_length a b : equal_fold a b = true -> length a = length b.
Proof. unfold equal_fold. rewrite beq_eq. intros H. apply (f_equal length) in H. by rewrite !to_lower_length in H. Qed.

Lemma fmtpEnum_canon vals : Forall (Forall (fun c => value_char c = true)) vals -> canon (fmtpEnum vals).
Proof.
  intros Hv. unfold fmtpEnum. split; intros v w E.
  - pose proof E as E'. apply List.find_some in E' as [_ Hf]. rewrite <- E. clear E.
    assert (Hs : forall x, equal_fold w x = equal_fold v x).
    { intros x. apply eq_bool_prop_intro. rewrite !Is_true_true. split; intros Hx.
      - by eapply equal_fold_trans.
      - rewrite equal_fold_sym in Hf. by eapply equal_fold_trans. }
    induction vals as [|x vals IH]; [done|]. cbn. rewrite Hs. case_if; [done|]. apply IH. by inversion Hv.
  - apply List.find_some in E as [Hin _]. rewrite Forall_forall in Hv. apply Hv. by apply list_elem_of_In.
  - apply List.find_some in E as [_ Hf]. apply equal_fold_length in Hf. lia.
Qed.

(** The length of a joined list, and one separator. *)
Definition jlen (fs : list gostring) : nat := sum_list_with (fun f => S (length f)) fs.

Lemma jlen_cons f fs : jlen (f :: fs) = (S (length f) + jlen fs)%nat.
Proof. done. Qed.

Lemma join_length fs c : fs <> [] -> S (length (join fs c)) = jlen fs.
Proof.
  induction fs as [|f fs IH]; [done|]. intros _. destruct fs as [|g fs]; [unfold jlen; cbn; lia|].
  change (join (f :: g :: fs) c) with (f ++ c :: join (g :: fs) c). rewrite length_app. cbn [length].
  rewrite IH by done. unfold jlen. cbn. lia.
Qed.

Lemma split_jlen s c : jlen (split s c) = S (length s).
Proof. rewrite <- (join_length _ c) by apply split_not_nil. by rewrite join_split. Qed.

Lemma join_chars (P : Z -> Prop) fs c : P c -> Forall (Forall P) fs -> Forall P (join fs c).
Proof.
  intros Hc. induction fs as [|f fs IH]; [done|]. intros H. apply Forall_cons in H as [Hf Hfs].
  destruct fs as [|g fs]; [done|]. change (join (f :: g :: fs) c) with (f ++ c :: join (g :: fs) c).
  apply Forall_app. split; [done|]. constructor; [done|]. by apply IH.
Qed.

Lemma not_in_chars (P : Z -> bool) s c : P c = false -> Forall (fun x => P x = true) s -> c ∉ s.
Proof. rewrite Forall_forall. intros Hc H Hin. apply H in Hin. congruence. Qed.

Lemma value_char_spec c : value_char c = true -> is_space c = false /\ c <> 59 /\ c <> 61.
Proof. unfold value_char, is_alnum, is_digit, is_space. lia. Qed.

Lemma trim_value s : Forall (fun c => value_char c = true) s -> trim_space s = s.
Proof. intros H. apply trim_space_id. eapply Forall_impl; [exact H|]. intros c Hc. by apply value_char_spec in Hc as [? _]. Qed.

(** The mode numbers: the decimal forms of numbers in range, and the parts
    reduced to them again are themselves. *)
Lemma mode_numbers_some max parts out : max <= 999 -> mode_numbers max parts = Some out ->
  mode_numbers max out = Some out /\ length out = length parts /\ (jlen out <= jlen parts)%nat /\
  Forall (fun f => forallb is_digit f = true) out.
Proof.
  intros Hm. revert out. induction parts as [|p parts IH]; intros out; cbn [mode_numbers].
  - intros [= <-]. split_and!; done.
  - destruct (atoi (trim_space p)) as [n|] eqn:En; [|done]. destruct (_ || _) eqn:Er; [done|].
    destruct (mode_numbers max parts) as [out'|] eqn:Eo; [|done]. intros [= <-].
    destruct (IH out' eq_refl) as (I1 & I2 & I3 & I4). apply atoi_spec in En as [Hn Hl]; [|lia].
    destruct (itoa_spec n) as (Hne & Hd & Hv); [unfold max_int64, two63 in Hn; lia|]. split_and!.
    + cbn [mode_numbers]. rewrite trim_value by by apply digits_value. rewrite atoi_itoa by done. by rewrite Er, I1.
    + cbn. lia.
    + unfold jlen in *. cbn. pose proof (trim_space_length p). lia.
    + by constructor.
Qed.

Lemma fmtpModeSet_canon max : 0 <= max <= 999 -> canon (fmtpModeSet max).
Proof.
  intros Hm.
  assert (H : forall v w, fmtpModeSet max v = Some w -> exists out,
    w = join out 44 /\ out <> [] /\ mode_numbers max out = Some out /\ len out <= max + 1 /\
    (S (length w) <= S (length v))%nat /\ Forall (fun f => forallb is_digit f = true) out).
  { intros v w. unfold fmtpModeSet. destruct (max + 1 <? len (split v 44)) eqn:El; [done|].
    destruct (mode_numbers max (split v 44)) as [out|] eqn:Eo; [|done]. intros [= <-]. exists out.
    destruct (mode_numbers_some max _ _ ltac:(lia) Eo) as (I1 & I2 & I3 & I4). pose proof (split_not_nil v 44) as Hs.
    assert (Hne : out <> []) by (intros ->; destruct (split v 44); done).
    split_and!; try done; [unfold len in *; lia|]. rewrite join_length by done. by rewrite <- (split_jlen v 44). }
  split; intros v w E; destruct (H v w E) as (out & -> & Hne & Hi & Hl & Hlen & Hd).
  - unfold fmtpModeSet. rewrite split_join; [|done|].
    + replace (max + 1 <? len out) with false by lia. by rewrite Hi.
    + eapply Forall_impl; [exact Hd|]. intros f Hf. cbn in Hf. rewrite forallb_forall in Hf.
      intros Hin. apply list_elem_of_In, Hf in Hin. done.
  - apply join_chars; [done|]. eapply Forall_impl; [exact Hd|]. intros f Hf. by apply digits_value.
  - lia.
Qed.

(** The keys of the allowlist: lower-case words. *)
Definition key_ok (k : gostring) : Prop :=
  Forall (fun c => is_alnum c || (c =? 45) = true) k /\ to_lower k = k.
#[export] Instance key_ok_dec k : Decision (key_ok k).
Proof. unfold key_ok. apply _. Defined.

Definition allow_ok (allow : list (gostring * fmtpParam)) : Prop :=
  Forall (fun p => key_ok p.1 /\ canon p.2) allow.

Lemma fmtpAllow_ok : Forall (fun p => allow_ok p.2) fmtpAllow.
Proof.
  assert (K : forall k, bool_decide (key_ok k) = true -> key_ok k) by (intros k; apply bool_decide_eq_true).
  assert (E : forall vals, bool_decide (Forall (Forall (fun c => value_char c = true)) vals) = true -> canon (fmtpEnum vals)).
  { intros vals H. by apply fmtpEnum_canon, (bool_decide_eq_true _). }
  unfold fmtpAllow, opus_params, amr_params, fmtpBool.
  repeat (apply Forall_cons; split; [unfold allow_ok; cbn [snd];
    repeat (apply Forall_cons; split; [split; cbn [fst snd];
      [apply K; vm_compute; reflexivity|first [apply E; vm_compute; reflexivity|apply fmtpInt_canon; lia|apply fmtpModeSet_canon; lia]]|]);
    apply Forall_nil; exact I|]).
  apply Forall_nil. exact I.
Qed.

Lemma assoc_in {A} k (l : list (gostring * A)) x : assoc k l = Some x -> (k, x) ∈ l.
Proof.
  unfold assoc. intros H. apply fmap_Some in H as ((k' & x') & Hf & ->). apply List.find_some in Hf as [Hin E].
  cbn in *. apply beq_eq in E as <-. by apply list_elem_of_In.
Qed.

(** ** The parameters that survive *)

Fixpoint params_of (allow : list (gostring * fmtpParam)) (seen : list gostring) (segs : list gostring)
  : list (gostring * gostring) :=
  match segs with
  | [] => []
  | seg :: segs =>
      let '(k, v, ok) := cut seg 61 in
      let k := to_lower (trim_space k) in
      if negb ok then params_of allow seen segs
      else match assoc k allow with
           | None => params_of allow seen segs
           | Some check =>
               if existsb (beq k) seen then params_of allow seen segs
               else match check (trim_space v) with
                    | None => params_of allow seen segs
                    | Some cv => (k, cv) :: params_of allow (seen ++ [k]) segs
                    end
           end
  end.

Definition kv (p : gostring * gostring) : gostring := p.1 ++ 61 :: p.2.

Definition render (first : bool) (l : list (gostring * gostring)) : gostring :=
  match l with [] => [] | _ => (if first then [] else str ";") ++ join (map kv l) 59 end.

Lemma append_params_spec allow segs : forall dst seen first,
  append_params allow dst seen first segs = dst ++ render first (params_of allow seen segs).
Proof.
  induction segs as [|seg segs IH]; intros dst seen first; cbn [append_params params_of]; [by rewrite app_nil_r|].
  destruct (cut seg 61) as [[k v] ok]. destruct ok; cbn [negb]; [|apply IH].
  destruct (assoc _ allow) as [check|]; [|apply IH]. case_if; [apply IH|].
  destruct (check (trim_space v)) as [cv|]; [|apply IH]. rewrite IH. set (l := params_of _ _ segs).
  set (k' := to_lower (trim_space k)). rewrite <- !app_assoc. f_equal. unfold render. f_equal.
  destruct l as [|p l]; [by rewrite app_nil_r|]. cbn [map].
  change (join (kv (k', cv) :: kv p :: map kv l) 59) with ((k' ++ str "=" ++ cv) ++ str ";" ++ join (kv p :: map kv l) 59).
  by rewrite <- !app_assoc.
Qed.

(** A surviving parameter is canonical, under a key of the allowlist not
    seen before. *)
Definition param_ok (allow : list (gostring * fmtpParam)) (p : gostring * gostring) : Prop :=
  key_ok p.1 /\ Forall (fun c => value_char c = true) p.2 /\
  exists check, assoc p.1 allow = Some check /\ check p.2 = Some p.2.

Lemma cut_found_length s c a b : cut s c = (a, b, true) -> (S (length a + length b) = length s)%nat.
Proof.
  unfold cut. destruct (index_byte s c) as [i|] eqn:E; [|done]. intros [= <- <-].
  apply index_byte_spec in E as (x & y & -> & <- & _). rewrite length_take, length_drop, length_app. cbn [length]. lia.
Qed.

Lemma params_of_ok allow segs : allow_ok allow -> forall seen, let l := params_of allow seen segs in
  Forall (param_ok allow) l /\ NoDup (map fst l) /\ Forall (fun p => p.1 ∉ seen) l /\ (jlen (map kv l) <= jlen segs)%nat.
Proof.
  intros Ha. induction segs as [|seg segs IH]; intros seen; cbn zeta; cbn [params_of].
  { split_and!; try done. constructor. }
  assert (Hj : forall l, (jlen (map kv l) <= jlen segs -> jlen (map kv l) <= jlen (seg :: segs))%nat)
    by (intros l; unfold jlen; cbn; lia).
  assert (Hskip : let l := params_of allow seen segs in
    Forall (param_ok allow) l /\ NoDup (map fst l) /\ Forall (fun p => p.1 ∉ seen) l /\ (jlen (map kv l) <= jlen (seg :: segs))%nat).
  { destruct (IH seen) as (? & ? & ? & ?). cbn zeta in *. split_and!; auto. }
  destruct (cut seg 61) as [[k v] ok] eqn:Ec. destruct ok; cbn [negb]; [|exact Hskip].
  destruct (assoc _ allow) as [check|] eqn:Eas; [|exact Hskip]. destruct (existsb _ seen) eqn:Es; [exact Hskip|].
  destruct (check (trim_space v)) as [cv|] eqn:Ev; [|exact Hskip]. clear Hskip.
  set (k' := to_lower (trim_space k)) in *. destruct (IH (seen ++ [k'])) as (I1 & I2 & I3 & I4). cbn zeta in *.
  pose proof Eas as Hin. apply assoc_in in Hin. unfold allow_ok in Ha. rewrite Forall_forall in Ha. destruct (Ha _ Hin) as [Hk [Hi Hs Hl]].
  cbn [fst snd] in Hk, Hi, Hs, Hl. split_and!.
  - constructor; [|done]. split; [done|]. split; [by eapply Hs|]. exists check. split; [done|]. by eapply Hi.
  - cbn [map fst]. apply NoDup_cons. split; [|done]. intros Hk'. apply list_elem_of_In, in_map_iff in Hk' as (p & Hp & Hpin).
    rewrite Forall_forall in I3. apply (I3 p); [by apply list_elem_of_In|]. rewrite Hp. set_solver.
  - constructor; cbn [fst].
    + intros Hk'. apply not_true_iff_false in Es. apply Es, existsb_exists. exists k'. split; [by apply list_elem_of_In|apply beq_refl].
    + eapply Forall_impl; [exact I3|]. cbn. set_solver.
  - apply cut_found_length in Ec. cbn [map]. rewrite !jlen_cons. unfold kv at 1. cbn [fst snd]. rewrite length_app. cbn [length].
    apply Hl in Ev. pose proof (trim_space_length v). pose proof (trim_space_length k).
    assert (length k' = length (trim_space k)) by apply to_lower_length. lia.
Qed.

Lemma key_char_spec c : is_alnum c || (c =? 45) = true -> is_space c = false /\ c <> 61 /\ c <> 59.
Proof. unfold is_alnum, is_digit, is_space. lia. Qed.

Lemma params_of_again allow l : forall seen, Forall (param_ok allow) l -> NoDup (map fst l) ->
  Forall (fun p => p.1 ∉ seen) l -> params_of allow seen (map kv l) = l.
Proof.
  induction l as [|[k v] l IH]; intros seen Hl Hn Hs; [done|]. cbn [map params_of].
  apply Forall_cons in Hl as [[[Hkc Hkl] [Hv (check & Ek & Ev)]] Hl]. cbn [fst snd] in *.
  apply Forall_cons in Hs as [Hks Hs]. cbn [map] in Hn. apply NoDup_cons in Hn as [Hkn Hn]. cbn [fst] in *.
  unfold kv at 1. cbn [fst snd]. rewrite cut_app.
  - cbn [negb]. rewrite (trim_space_id k), Hkl, Ek, (trim_value v), Ev by
      (done || (eapply Forall_impl; [exact Hkc|]; intros c Hc; by apply key_char_spec in Hc as [? _])).
    destruct (existsb (beq k) seen) eqn:Es.
    + apply existsb_exists in Es as (x & Hx & E). apply beq_eq in E as <-. by apply list_elem_of_In in Hx.
    + rewrite IH; [done|done|done|]. apply Forall_forall. intros p Hp. rewrite elem_of_app, list_elem_of_singleton.
      intros [Hin|E]; [by eapply Forall_forall in Hs; [|exact Hp]|].
      apply Hkn. rewrite <- E. apply list_elem_of_In, in_map. by apply list_elem_of_In.
  - intros Hin. eapply Forall_forall in Hkc; [|exact Hin]. done.
Qed.

(** ** The events that survive *)

Definition event_char (c : Z) : bool := is_digit c || (c =? 45).

Lemma event_char_spec c : event_char c = true -> is_space c = false /\ c <> 44 /\ c <> 59.
Proof. unfold event_char, is_digit, is_space. lia. Qed.

Lemma eventNumber_some s n : eventNumber s = Some n ->
  0 <= n <= 255 /\ (length (itoa n) <= length s)%nat /\ eventNumber (itoa n) = Some n.
Proof.
  unfold eventNumber at 1. destruct (_ || _) eqn:El; [done|]. destruct (atoi s) as [m|] eqn:Em; [|done].
  destruct ((m <? 0) || _) eqn:Er; [done|]. intros [= ->]. apply atoi_spec in Em as [Hn Hl]; [|lia].
  split; [lia|]. split; [done|]. destruct (itoa_spec n) as (Hne & _); [lia|].
  assert (Hi : (length (itoa n) <= 3)%nat) by (apply itoa_length; [change (10 ^ Z.of_nat 3) with 1000|]; lia).
  assert (0 < length (itoa n))%nat by (destruct (itoa n); [done|cbn; lia]).
  unfold eventNumber. replace ((len (itoa n) =? 0) || (3 <? len (itoa n))) with false by (unfold len; lia).
  by rewrite atoi_itoa, Er by done.
Qed.

Lemma itoa_event n : 0 <= n <= 255 -> Forall (fun c => event_char c = true) (itoa n) /\ 45 ∉ itoa n.
Proof.
  intros Hn. destruct (itoa_spec n) as (_ & Hd & _); [lia|]. rewrite forallb_forall in Hd. split.
  - apply Forall_forall. intros c Hc. unfold event_char. by rewrite Hd by by apply list_elem_of_In.
  - intros Hin. apply list_elem_of_In, Hd in Hin. done.
Qed.

Lemma trim_event s : Forall (fun c => event_char c = true) s -> trim_space s = s.
Proof. intros H. apply trim_space_id. eapply Forall_impl; [exact H|]. intros c Hc. by apply event_char_spec in Hc as [? _]. Qed.

Lemma event_entry_some p e : event_entry p = Some e ->
  event_entry e = Some e /\ Forall (fun c => event_char c = true) e /\ (length e <= length p)%nat.
Proof.
  unfold event_entry at 1. pose proof (trim_space_length p) as Ht.
  destruct (cut (trim_space p) 45) as [[lo hi] rng] eqn:Ec. destruct (eventNumber lo) as [a|] eqn:Ea; [|done].
  apply eventNumber_some in Ea as (Ha & Hla & Ea). destruct (itoa_event a Ha) as [Hca Hna]. destruct rng; cbn [negb].
  - destruct (eventNumber hi) as [b|] eqn:Eb; [|done]. apply eventNumber_some in Eb as (Hb & Hlb & Eb).
    destruct (itoa_event b Hb) as [Hcb Hnb]. destruct (b <? a) eqn:Eo; [done|]. intros [= <-]. apply cut_found_length in Ec.
    assert (Hc : Forall (fun c => event_char c = true) (itoa a ++ str "-" ++ itoa b)).
    { apply Forall_app. split; [done|]. by constructor. }
    split_and!; [|done|rewrite length_app; cbn [length app]; rewrite ?length_app; cbn; lia].
    unfold event_entry. rewrite trim_event by done. change (str "-" ++ itoa b) with (45 :: itoa b). rewrite cut_app by done.
    by rewrite Ea, Eb, Eo.
  - intros [= <-]. split_and!; [|done|].
    + unfold event_entry. rewrite trim_event, cut_none by done. by rewrite Ea.
    + unfold cut in Ec. destruct (index_byte _ _); [done|]. injection Ec as <- <-. lia.
Qed.

Lemma event_entries_spec parts : forall i out,
  event_entries i parts out =
  (fun es => out ++ match es with [] => [] | _ => (match i with O => [] | _ => str "," end) ++ join es 44 end) <$> mapM event_entry parts.
Proof.
  induction parts as [|p parts IH]; intros i out; cbn [event_entries mapM]; [cbn; by rewrite app_nil_r|].
  destruct (event_entry p) as [e|]; [|done]. cbn. rewrite IH. destruct (mapM event_entry parts) as [es|]; [|done].
  cbn. f_equal. rewrite <- !app_assoc. do 2 f_equal. destruct es as [|e' es]; [by rewrite app_nil_r|]. done.
Qed.

Lemma entries_again parts es : mapM event_entry parts = Some es ->
  mapM event_entry es = Some es /\ length es = length parts /\ (jlen es <= jlen parts)%nat /\
  Forall (Forall (fun c => event_char c = true)) es.
Proof.
  intros H. apply mapM_Some in H. induction H as [|p e parts es He _ (I1 & I2 & I3 & I4)]; [by split_and!|].
  apply event_entry_some in He as (J1 & J2 & J3). split_and!.
  - cbn. by rewrite J1, I1.
  - cbn. lia.
  - rewrite !jlen_cons. lia.
  - by constructor.
Qed.

Lemma count_split s c : count_byte s c + 1 = len (split s c).
Proof.
  unfold count_byte. induction s as [|x s IH]; [done|]. cbn [List.filter split].
  destruct (x =? c); [rewrite !len_cons in *; lia|]. destruct (split s c) eqn:E; [by apply split_not_nil in E|].
  rewrite !len_cons in *. lia.
Qed.

Lemma appendEventList_some v w : appendEventList [] v = Some w ->
  appendEventList [] w = Some w /\ w <> [] /\ (length w <= length v)%nat /\
  Forall (fun c => event_char c || (c =? 44) = true) w.
Proof.
  unfold appendEventList at 1. destruct (_ || _) eqn:E0; [done|]. apply orb_false_iff in E0 as [Hne Hcnt].
  rewrite event_entries_spec. destruct (mapM event_entry (split v 44)) as [es|] eqn:Em; [|done]. cbn. intros [= <-].
  destruct (entries_again _ _ Em) as (I1 & I2 & I3 & I4). pose proof (split_not_nil v 44) as Hs.
  assert (Hes : es <> []) by (intros ->; by destruct (split v 44)).
  assert (E : match es with [] => [] | _ => join es 44 end = join es 44) by by destruct es. rewrite E.
  assert (Hno : Forall (fun f => 44 ∉ f) es).
  { eapply Forall_impl; [exact I4|]. intros f Hf. eapply not_in_chars; [|exact Hf]. done. }
  assert (Hj : join es 44 <> []).
  { destruct es as [|e1 [|e2 es]]; [done| |by destruct e1]. cbn. intros ->.
    cbn in I1. done. }
  split_and!; [|done| |].
  - unfold appendEventList. rewrite bool_decide_eq_false_2 by done. cbn [orb].
    pose proof (count_split (join es 44) 44) as C1. pose proof (count_split v 44) as C2.
    rewrite split_join in C1 |- * by done. replace (64 <=? count_byte (join es 44) 44) with false by (unfold len in *; lia).
    rewrite event_entries_spec, I1. cbn. by rewrite E.
  - pose proof (join_length es 44 Hes). rewrite split_jlen in I3. lia.
  - apply join_chars; [done|]. eapply Forall_impl; [exact I4|]. intros f Hf. eapply Forall_impl; [exact Hf|]. cbn. intros c ->. done.
Qed.

Lemma append_events_spec segs : append_events [] segs = [] \/
  exists seg, seg ∈ segs /\ appendEventList [] (trim_space seg) = Some (append_events [] segs).
Proof.
  induction segs as [|seg segs IH]; [by left|]. cbn [append_events].
  destruct (appendEventList [] (trim_space seg)) as [w|] eqn:E; [right; exists seg; split; [by left|done]|].
  destruct IH as [->|(s & Hs & Hw)]; [by left|]. right. exists s. split; [by right|done].
Qed.

(** ** The rendering is the proxy's own *)

Definition fmtp_char (c : Z) : bool := is_alnum c || mem c (str "-=;,").

Lemma fmtp_chars : (forall c, value_char c = true -> fmtp_char c = true) /\
  (forall c, is_alnum c || (c =? 45) = true -> fmtp_char c = true) /\
  (forall c, event_char c || (c =? 44) = true -> fmtp_char c = true).
Proof.
  unfold fmtp_char, value_char, event_char, mem. change (str "-=;,") with [45; 61; 59; 44]. cbn [existsb].
  split_and!; intros c; unfold is_alnum; destruct (is_digit c); lia.
Qed.

Lemma render_length l raw : (jlen (map kv l) <= jlen (split raw 59))%nat -> (length (render true l) <= length raw)%nat.
Proof.
  rewrite split_jlen. intros H. destruct l as [|p l]; [cbn; lia|]. unfold render. cbn [app].
  pose proof (join_length (map kv (p :: l)) 59 ltac:(done)). lia.
Qed.

Lemma kv_chars allow p : param_ok allow p -> Forall (fun c => fmtp_char c = true) (kv p) /\ 59 ∉ kv p.
Proof.
  destruct fmtp_chars as (F1 & F2 & _). intros [[Hk _] [Hv _]]. split.
  - apply Forall_app. split; [eapply Forall_impl; [exact Hk|auto]|]. constructor; [done|]. eapply Forall_impl; [exact Hv|auto].
  - unfold kv. rewrite elem_of_app, elem_of_cons. intros [Hin|[|Hin]]; [|done|].
    + eapply Forall_forall in Hk; [|exact Hin]. done.
    + eapply Forall_forall in Hv; [|exact Hin]. done.
Qed.

Lemma appendCanonical_ok name raw : let out := appendCanonicalFMTP [] name raw in
  appendCanonicalFMTP [] name out = out /\ Forall (fun c => fmtp_char c = true) out /\ (length out <= length raw)%nat.
Proof.
  destruct fmtp_chars as (_ & _ & F3). cbv zeta. unfold appendCanonicalFMTP. destruct (beq _ _).
  - unfold appendEvents. destruct (append_events_spec (split raw 59)) as [->|(seg & Hin & Hs)].
    + split_and!; [reflexivity|constructor|cbn; lia].
    + set (out := append_events [] (split raw 59)) in *. apply appendEventList_some in Hs as (S1 & S2 & S3 & S4). split_and!.
      * assert (Hno : 59 ∉ out) by (eapply not_in_chars; [|exact S4]; done). rewrite split_none by done. cbn [append_events].
        rewrite trim_space_id, S1; [done|]. eapply Forall_impl; [exact S4|]. intros c Hc. unfold event_char, is_digit, is_space in *. lia.
      * eapply Forall_impl; [exact S4|auto].
      * pose proof (split_jlen raw 59) as Hj. pose proof (trim_space_length seg).
        assert (S (length seg) <= jlen (split raw 59))%nat; [|lia]. clear -Hin.
        induction Hin as [seg l|seg x l _ IH]; rewrite jlen_cons; lia.
  - destruct (assoc (to_lower name) fmtpAllow) as [allow|] eqn:Ea; [|split_and!; [done|constructor|cbn; lia]].
    apply assoc_in in Ea. pose proof fmtpAllow_ok as Hok. rewrite Forall_forall in Hok. specialize (Hok _ Ea). cbn [snd] in Hok.
    pose proof (append_params_spec allow (split raw 59) [] [] true) as Eo. cbn [app] in Eo. rewrite !Eo.
    destruct (params_of_ok allow (split raw 59) Hok []) as (I1 & I2 & I3 & I4). cbn zeta in *.
    set (l := params_of allow [] (split raw 59)) in *. clearbody l. clear Eo. split_and!.
    + rewrite append_params_spec. cbn [app]. destruct l as [|p l']; [reflexivity|].
      unfold render at 2. cbn [app]. rewrite split_join; [by rewrite params_of_again|done|].
      apply Forall_forall. intros f Hf. apply list_elem_of_In, in_map_iff in Hf as (q & <- & Hq). apply list_elem_of_In in Hq.
      eapply Forall_forall in I1; [|exact Hq]. by eapply kv_chars.
    + unfold render. destruct l as [|p l']; [constructor|]. cbn [app]. apply join_chars; [done|].
      apply Forall_forall. intros f Hf. apply list_elem_of_In, in_map_iff in Hf as (q & <- & Hq). apply list_elem_of_In in Hq.
      eapply Forall_forall in I1; [|exact Hq]. by eapply kv_chars.
    + by apply render_length.
Qed.

Lemma canonicalFMTP_own_aux name raw :
  let out := canonicalFMTP name raw in
  Forall (fun c => fmtp_char c = true) out /\ len out <= Z.min (len raw) maxFMTP /\ canonicalFMTP name out = out.
Proof.
  cbv zeta. unfold canonicalFMTP at 1 2 4 5. destruct (_ || _) eqn:E0.
  { split_and!; [constructor| |done]. rewrite len_nil. pose proof (len_nonneg raw). unfold maxFMTP. lia. }
  cbv zeta. apply orb_false_iff in E0 as [_ E0]. destruct (appendCanonical_ok name raw) as (H1 & H2 & H3). cbv zeta in *.
  set (out := appendCanonicalFMTP [] name raw) in *.
  assert (E : (if beq out raw then raw else out) = out) by (destruct (beq out raw) eqn:Eb; [by apply beq_eq in Eb|done]).
  rewrite E. split_and!; [done|unfold len, maxFMTP in *; lia|]. unfold canonicalFMTP.
  destruct (_ || _) eqn:E1.
  - apply orb_true_iff in E1 as [E1|E1]; [by apply bool_decide_eq_true in E1|]. unfold len in *. lia.
  - cbv zeta. rewrite H1. by destruct (beq out out).
Qed.

(** an a=fmtp value written by the proxy is its own rendering.  Whatever
    the other leg wrote, what is written has only letters, digits and the
    four separators, so no line break, space or address of another syntax; it is
    never longer than what was read (the code renders it into a buffer of that size); and the
    filter that Build applies again changes nothing. *)
Theorem canonicalFMTP_own name raw :
  let out := canonicalFMTP name raw in
  Forall (fun c => fmtp_char c = true) out /\ len out <= Z.min (len raw) maxFMTP /\ canonicalFMTP name out = out.
Proof. apply canonicalFMTP_own_aux. Qed.
