(* ===== verification/SdpParse.v ===== *)
(** internal/sip/sdp/sdp.go: what is kept of a received SDP body.

    pion decodes the text; its decoder is the argument [Unmarshal] and
    [SessionDescription], [MediaDescription] are the fields of its result that
    are read.  The error constructors stand for the code's errors; the ones
    with an argument quote it. *)

From S2P Require Import Prelude GoText GoEncoding Netip SdpCodec SdpCrypto SdpFmtp.

Open Scope Z_scope.

(** ** pion's description *)

Record Attribute := mkAttr { at_key : gostring; at_value : gostring }.

(** A c= line: [None] inside for one without an address. *)
Record MediaDescription := mkMedia {
  md_media : gostring; md_port : Z; md_protos : list gostring; md_formats : list gostring;
  md_conn : option (option gostring);
  md_attrs : list Attribute
}.

Record SessionDescription := mkDesc {
  sd_conn : option (option gostring);
  sd_attrs : list Attribute;
  sd_media : list MediaDescription
}.

(** ** The parsed form *)

Definition MaxSize : Z := Z.shiftl 16 10.
Definition MaxMediaDescriptions : Z := 16.
Definition MaxAttributes : Z := 256.
Definition MaxCodecs : Z := 128.

Definition SendRecv : gostring := str "sendrecv".
Definition SendOnly : gostring := str "sendonly".
Definition RecvOnly : gostring := str "recvonly".
Definition Inactive : gostring := str "inactive".

Record Fingerprint := mkFp { fp_hash : gostring; fp_value : gostring }.

Record Audio := mkAudio {
  a_port : Z;
  a_proto : list gostring;
  a_address : Addr;
  a_hold : bool;
  a_codecs : list Codec;
  a_direction : gostring;
  a_rtcpport : Z;
  a_rtcpmux : bool;
  a_ufrag : gostring;
  a_pwd : gostring;
  a_fingerprint : option Fingerprint;
  a_setup : gostring;
  a_crypto : list Crypto
}.

Record Section_ := mkSection { sec_media : gostring; sec_proto : list gostring }.

Record Session := mkSess { s_audio : Audio; s_mediacount : Z; s_audioindex : Z; s_sections : list Section_ }.

Inductive parseError :=
  | EmptyBody | ErrTooLarge | BadSyntax | ErrAudioDeclined | ErrNoAudio
  | ErrNoAddress | ErrNotUnicast (ip : Addr) | BadPayloadType (f : gostring) | NoPayloadTypes.

Definition is_telephony_proto (p : gostring) : bool := beq p (str "SAVP") || beq p (str "SAVPF").

(** [Audio.SDES], [Audio.WebRTC] *)
Definition SDES (a : Audio) : bool :=
  match a_proto a with
  | [p0; p1] => equal_fold p0 (str "RTP") && is_telephony_proto (to_upper p1)
  | _ => false
  end.
Definition WebRTC (a : Audio) : bool :=
  existsb (fun p => beq p (str "TLS")) (a_proto a) && bool_decide (a_fingerprint a <> None) &&
  negb (beq (a_ufrag a) []) && negb (beq (a_pwd a) []).

(** ** Sections *)

Definition knownProtos : list gostring :=
  [str "RTP/AVP"; str "RTP/AVPF"; str "RTP/SAVP"; str "RTP/SAVPF"; str "UDP/TLS/RTP/SAVP"; str "UDP/TLS/RTP/SAVPF";
   str "TCP/TLS/RTP/SAVP"; str "TCP/TLS/RTP/SAVPF"; str "TCP/DTLS/RTP/SAVP"; str "TCP/DTLS/RTP/SAVPF";
   str "UDP/DTLS/SCTP"; str "TCP/DTLS/SCTP"; str "DTLS/SCTP"; str "udptl"; str "TCP/MSRP"; str "TCP/TLS/MSRP";
   str "UDP/BFCP"; str "TCP/BFCP"; str "TCP/TLS/BFCP"; str "TCP"; str "UDP"].

Definition is_lower (c : Z) : bool := (97 <=? c) && (c <=? 122).

Definition section (m : MediaDescription) : Section_ :=
  let media := to_lower (md_media m) in
  let media := if beq media [] || (32 <? len media) || negb (forallb is_lower media) then str "audio" else media in
  let proto := if existsb (beq (join (md_protos m) 47)) knownProtos then md_protos m else [str "RTP"; str "AVP"] in
  mkSection media proto.

(** ** The connection address *)

(** [IsLinkLocalUnicast] is netip's; [ParseAddr] and the others are those of
    GoEncoding and Netip. *)
Definition parseConnection (allowLoopback : bool) (sd : SessionDescription) (md : MediaDescription)
  : (bool * Addr) + parseError :=
  let conn := match md_conn md with None => sd_conn sd | c => c end in
  match conn with
  | None | Some None => inr ErrNoAddress
  | Some (Some text) =>
      match parse_addr (trim_space text) with
      | None => inr ErrNoAddress
      | Some ip =>
          let ip := unmap ip in
          if is_unspecified ip then inl (true, AddrZero)
          else if is_multicast ip || is_link_local_unicast ip || addr_eqb ip (ip4 255 255 255 255) then inr (ErrNotUnicast ip)
          else if is_loopback ip && negb allowLoopback then inr (ErrNotUnicast ip)
          else inl (false, ip)
      end
  end.

(** ** Attributes *)

Definition is_ice_char (c : Z) : bool := is_alnum c || mem c (str "+/-_").
Definition minICEUfrag : Z := 4.
Definition minICEPwd : Z := 22.
Definition maxICEToken : Z := 256.

Definition sanitizeICEToken (v : gostring) (minLen : Z) : gostring :=
  if (len v <? minLen) || (maxICEToken <? len v) then []
  else if forallb is_ice_char v then v else [].

Definition isHexByte (s : gostring) : bool :=
  forallb (fun c => is_digit c || ((97 <=? c) && (c <=? 102)) || ((65 <=? c) && (c <=? 70))) s.

Definition parseFingerprint (v : gostring) : option Fingerprint :=
  let '(hash, val, ok) := cut (trim_space v) 32 in
  if negb ok then None
  else
    let hash := to_lower (trim_space hash) in
    let want := if beq hash (str "sha-256") then Some 32
                else if beq hash (str "sha-384") then Some 48
                else if beq hash (str "sha-512") then Some 64 else None in
    match want with
    | None => None
    | Some want =>
        let val := trim_space val in
        let parts := split val 58 in
        if negb (len parts =? want) then None
        else if forallb (fun p => (len p =? 2) && isHexByte p) parts then Some (mkFp hash (to_upper val)) else None
    end.

(** What [parseAttributes] fills in, with the code's field order. *)
Record attrs_acc := mkAcc {
  x_direction : gostring; x_ufrag : gostring; x_pwd : gostring; x_mux : bool; x_setup : gostring;
  x_fp : option Fingerprint; x_rtcp : Z
}.

Definition apply_attr (a : attrs_acc) (at_ : Attribute) : attrs_acc :=
  let v := trim_space (at_value at_) in
  let k := at_key at_ in
  let '(mkAcc d u p m st f r) := a in
  if existsb (beq k) [SendRecv; SendOnly; RecvOnly; Inactive] then mkAcc k u p m st f r
  else if beq k (str "ice-ufrag") then mkAcc d (sanitizeICEToken v minICEUfrag) p m st f r
  else if beq k (str "ice-pwd") then mkAcc d u (sanitizeICEToken v minICEPwd) m st f r
  else if beq k (str "rtcp-mux") then mkAcc d u p true st f r
  else if beq k (str "setup") then
    if existsb (beq v) [str "active"; str "passive"; str "actpass"; str "holdconn"] then mkAcc d u p m v f r else a
  else if beq k (str "fingerprint") then
    match parseFingerprint v with Some fp => mkAcc d u p m st (Some fp) r | None => a end
  else if beq k (str "rtcp") then
    match fields v with
    | f0 :: _ => match atoi f0 with
                 | Some port => if (0 <? port) && (port <? 65536) then mkAcc d u p m st f port else a
                 | None => a
                 end
    | [] => a
    end
  else a.

Definition parseAttributes (sd : SessionDescription) (md : MediaDescription) : attrs_acc :=
  fold_left apply_attr (md_attrs md) (fold_left apply_attr (sd_attrs sd) (mkAcc SendRecv [] [] false [] None 0)).

(** ** Codecs *)

Definition splitPayload (v : gostring) : option (Z * gostring) :=
  let '(pt, rest, ok) := cut (trim_space v) 32 in
  if negb ok then None
  else match parse_uint pt 8 with
       | Some n => if 127 <? n then None else Some (n, trim_space rest)
       | None => None
       end.

Definition name_char (c : Z) : bool := is_alnum c || mem c (str "-_.").
Definition validEncodingName (name : gostring) : bool :=
  if bool_decide (name = []) || (64 <? len name) then false else forallb name_char name.

Definition parseRTPMap (v : gostring) : option (gostring * Z * Z) :=
  let parts := split v 47 in
  if (len parts <? 2) || (3 <? len parts) then None
  else
    let name := trim_space (nth 0 parts []) in
    if negb (validEncodingName name) then None
    else match parse_uint (trim_space (nth 1 parts [])) 32 with
         | None => None
         | Some r =>
             if r =? 0 then None
             else if len parts =? 3 then
               match atoi (trim_space (nth 2 parts [])) with
               | Some ch => if (ch <? 1) || (8 <? ch) then None else Some (name, r, ch)
               | None => None
               end
             else Some (name, r, 1)
         end.

Definition staticPayload (pt : Z) : option (gostring * Z * Z) :=
  if pt =? 0 then Some (str "PCMU", 8000, 1)
  else if pt =? 8 then Some (str "PCMA", 8000, 1) else None.

(** The maps of the attribute lines of one key: the last line of a number
    counts. *)
Fixpoint payload_map (key : gostring) (attrs : list Attribute) (m : gmap Z gostring) : gmap Z gostring :=
  match attrs with
  | [] => m
  | a :: attrs =>
      payload_map key attrs
        (if beq (at_key a) key then match splitPayload (at_value a) with Some (pt, rest) => <[pt := rest]> m | None => m end
         else m)
  end.

Fixpoint codecs_from (rtpmap fmtp : gmap Z gostring) (formats : list gostring) (seen : gset Z) : list Codec + parseError :=
  match formats with
  | [] => inl []
  | f :: formats =>
      let f := trim_space f in
      if bool_decide (f = []) || negb (forallb is_digit f) then inr (BadPayloadType f)
      else
        match parse_uint f 8 with
        | None => codecs_from rtpmap fmtp formats seen
        | Some n =>
            if (127 <? n) || bool_decide (n ∈ seen) then codecs_from rtpmap fmtp formats seen
            else
              let seen := {[ n ]} ∪ seen in
              match (match rtpmap !! n with Some m => parseRTPMap m | None => staticPayload n end) with
              | None => codecs_from rtpmap fmtp formats seen
              | Some (name, rate, ch) =>
                  match codecs_from rtpmap fmtp formats seen with
                  | inl l => inl (mkCodec n name rate ch (canonicalFMTP name (default [] (fmtp !! n))) :: l)
                  | inr e => inr e
                  end
              end
        end
  end.

Definition parseCodecs (md : MediaDescription) : list Codec + parseError :=
  codecs_from (payload_map (str "rtpmap") (md_attrs md) ∅) (payload_map (str "fmtp") (md_attrs md) ∅) (md_formats md) ∅.

(** ** The body *)

(** The loop over the sections: what is kept of each, the first live audio
    section with its index, and whether an audio section was declined. *)
Fixpoint scan_sections (i : Z) (ms : list MediaDescription) (live : option (MediaDescription * Z)) (declined : bool)
  : option (list Section_ * option (MediaDescription * Z) * bool) :=
  match ms with
  | [] => Some ([], live, declined)
  | m :: ms =>
      if MaxAttributes <? len (md_attrs m) then None
      else
        let '(live, declined) :=
          if bool_decide (live = None) && beq (md_media m) (str "audio")
          then if md_port m =? 0 then (live, true) else (Some (m, i), declined)
          else (live, declined) in
        match scan_sections (i + 1) ms live declined with
        | Some (secs, live, declined) => Some (section m :: secs, live, declined)
        | None => None
        end
  end.

Section Decoder.
(** pion's [SessionDescription.Unmarshal]. *)
Context (Unmarshal : gostring -> option SessionDescription).

Definition ParseWithOptions (body : gostring) (allowLoopback : bool) : Session + parseError :=
  if len body =? 0 then inr EmptyBody
  else if MaxSize <? len body then inr ErrTooLarge
  else match Unmarshal body with
  | None => inr BadSyntax
  | Some sd =>
      if MaxMediaDescriptions <? len (sd_media sd) then inr ErrTooLarge
      else if MaxAttributes <? len (sd_attrs sd) then inr ErrTooLarge
      else match scan_sections 0 (sd_media sd) None false with
      | None => inr ErrTooLarge
      | Some (_, None, declined) => inr (if declined then ErrAudioDeclined else ErrNoAudio)
      | Some (sections, Some (md, audioIndex), _) =>
          if MaxCodecs <? len (md_formats md) then inr ErrTooLarge
          else match parseConnection allowLoopback sd md with
          | inr e => inr e
          | inl (hold, address) =>
              let x := parseAttributes sd md in
              let crypto := parseCryptoAttrs (map at_value (List.filter (fun a => beq (at_key a) (str "crypto")) (md_attrs md))) in
              match parseCodecs md with
              | inr e => inr e
              | inl [] => inr NoPayloadTypes
              | inl codecs =>
                  inl (mkSess (mkAudio (md_port md) (md_protos md) address hold codecs (x_direction x) (x_rtcp x) (x_mux x)
                                 (x_ufrag x) (x_pwd x) (x_fp x) (x_setup x) crypto)
                         (len (sd_media sd)) audioIndex sections)
              end
          end
      end
  end.

Definition Parse (body : gostring) : Session + parseError := ParseWithOptions body false.
End Decoder.

(** ** What a parsed body is made of *)

(** A codec as Parse makes them. *)
Record codec_wf (c : Codec) : Prop := {
  cw_pt : 0 <= PayloadType c <= 127;
  cw_name : validEncodingName (Name c) = true;
  cw_rate : 1 <= ClockRate c < 2 ^ 32;
  cw_channels : 1 <= Channels c <= 8;
  cw_fmtp : canonicalFMTP (Name c) (FMTP c) = FMTP c;
  cw_fmtp_chars : Forall (fun c => fmtp_char c = true) (FMTP c)
}.

Definition codec_check (c : Codec) : bool :=
  (0 <=? PayloadType c) && (PayloadType c <=? 127) && validEncodingName (Name c) && (1 <=? ClockRate c) && (ClockRate c <? 2 ^ 32)
  && (1 <=? Channels c) && (Channels c <=? 8) && beq (canonicalFMTP (Name c) (FMTP c)) (FMTP c) && forallb fmtp_char (FMTP c).

Lemma codec_check_ok c : codec_check c = true -> codec_wf c.
Proof.
  unfold codec_check. rewrite !andb_true_iff. intros [[[[[[[[H1 H2] H3] H4] H5] H6] H7] H8] H9]. apply beq_eq in H8.
  rewrite forallb_forall in H9. split; try done; try lia. apply Forall_forall. intros x Hx. apply H9. by apply list_elem_of_In.
Qed.

Lemma codecs_check l : forallb codec_check l = true -> Forall codec_wf l.
Proof. rewrite forallb_forall, Forall_forall. intros H c Hc. apply codec_check_ok, H. by apply list_elem_of_In. Qed.

Lemma parseRTPMap_ok v name rate ch : parseRTPMap v = Some (name, rate, ch) ->
  validEncodingName name = true /\ 1 <= rate < 2 ^ 32 /\ 1 <= ch <= 8.
Proof.
  unfold parseRTPMap. cbv zeta. destruct ((len (split v 47) <? 2) || _) eqn:El; [done|]. destruct (validEncodingName _) eqn:En; [|done]. cbn [negb].
  destruct (parse_uint _ 32) as [r|] eqn:Er; [|done]. apply parse_uint_some in Er as (_ & _ & _ & Hr).
  destruct (r =? 0) eqn:E0; [done|]. case_if.
  - destruct (atoi _) as [c|]; [|done]. destruct ((c <? 1) || _) eqn:Ec; [done|]. intros [= <- <- <-]. split_and!; [done|lia|lia|lia|lia].
  - intros [= <- <- <-]. split_and!; [done|lia|lia|lia|lia].
Qed.

Lemma staticPayload_ok pt name rate ch : staticPayload pt = Some (name, rate, ch) ->
  validEncodingName name = true /\ 1 <= rate < 2 ^ 32 /\ 1 <= ch <= 8.
Proof. unfold staticPayload. repeat case_if; intros [= <- <- <-]; split_and!; try done; reflexivity. Qed.

Lemma codecs_from_ok rtpmap fmtp formats : forall seen l, codecs_from rtpmap fmtp formats seen = inl l ->
  Forall codec_wf l /\ NoDup (map PayloadType l) /\ Forall (fun c => PayloadType c ∉ seen) l /\ (length l <= length formats)%nat.
Proof.
  induction formats as [|f formats IH]; intros seen l; cbn [codecs_from].
  { intros [= <-]. split_and!; try done. constructor. }
  destruct (_ || _); [done|]. destruct (parse_uint (trim_space f) 8) as [n|] eqn:En.
  2:{ intros E. destruct (IH _ _ E) as (? & ? & ? & ?). split_and!; try done. cbn. lia. }
  destruct ((127 <? n) || _) eqn:Es.
  { intros E. destruct (IH _ _ E) as (? & ? & ? & ?). split_and!; try done. cbn. lia. }
  apply parse_uint_some in En as (_ & _ & _ & Hn). apply orb_false_iff in Es as [Hn' Hs]. apply bool_decide_eq_false in Hs.
  assert (Hweak : forall l, Forall (fun c => PayloadType c ∉ {[ n ]} ∪ seen) l -> Forall (fun c => PayloadType c ∉ seen) l).
  { intros k Hk. eapply Forall_impl; [exact Hk|]. cbn. set_solver. }
  destruct (match rtpmap !! n with Some m => parseRTPMap m | None => staticPayload n end) as [[[name rate] ch]|] eqn:Em.
  2:{ intros E. destruct (IH _ _ E) as (? & ? & ? & ?). split_and!; auto. cbn. lia. }
  assert (Hm : validEncodingName name = true /\ 1 <= rate < 2 ^ 32 /\ 1 <= ch <= 8).
  { destruct (rtpmap !! n); [by eapply parseRTPMap_ok|by eapply staticPayload_ok]. }
  destruct (codecs_from rtpmap fmtp formats ({[n]} ∪ seen)) as [k|] eqn:Ek; [|done]. intros [= <-].
  destruct (IH _ _ Ek) as (I1 & I2 & I3 & I4). pose proof (canonicalFMTP_own_aux name (default [] (fmtp !! n))) as F. cbv zeta in F. destruct F as (F1 & _ & F2).
  split_and!.
  - constructor; [|done]. split; cbn; try lia; try done; apply Hm.
  - cbn [map PayloadType]. apply NoDup_cons. split; [|done]. intros Hin. apply list_elem_of_In, in_map_iff in Hin as (c & Hc & Hin).
    rewrite Forall_forall in I3. apply (I3 c); [by apply list_elem_of_In|]. set_solver.
  - constructor; [done|auto].
  - cbn. lia.
Qed.

Definition ice_token_ok (minLen : Z) (v : gostring) : Prop :=
  v = [] \/ (minLen <= len v <= maxICEToken /\ Forall (fun c => is_ice_char c = true) v).

Lemma sanitizeICEToken_ok v minLen : ice_token_ok minLen (sanitizeICEToken v minLen).
Proof.
  unfold sanitizeICEToken, ice_token_ok. destruct (_ || _) eqn:E; [by left|]. destruct (forallb _ v) eqn:Ef; [|by left].
  right. split; [lia|]. rewrite forallb_forall in Ef. apply Forall_forall. intros c Hc. apply Ef. by apply list_elem_of_In.
Qed.

(** Hash and value: upper-case hexadecimal pairs. *)
Definition fp_char (c : Z) : bool := is_digit c || ((65 <=? c) && (c <=? 70)) || (c =? 58).
Definition fp_ok (f : Fingerprint) : Prop :=
  fp_hash f ∈ [str "sha-256"; str "sha-384"; str "sha-512"] /\ Forall (fun c => fp_char c = true) (fp_value f).

Lemma parseFingerprint_ok v f : parseFingerprint v = Some f -> fp_ok f.
Proof.
  unfold parseFingerprint. destruct (cut (trim_space v) 32) as [[hash val] ok]. destruct ok; [|done]. cbn [negb].
  set (h := to_lower (trim_space hash)). destruct (if beq h (str "sha-256") then _ else _) as [want|] eqn:Ew; [|done].
  case_if; [done|]. destruct (forallb _ (split (trim_space val) 58)) eqn:Ef; [|done]. intros [= <-]. split; cbn [fp_hash fp_value].
  - rewrite !elem_of_cons, elem_of_nil. destruct (beq h (str "sha-256")) eqn:E1; [apply beq_eq in E1; auto|].
    destruct (beq h (str "sha-384")) eqn:E2; [apply beq_eq in E2; auto|].
    destruct (beq h (str "sha-512")) eqn:E3; [apply beq_eq in E3; auto|done].
  - unfold to_upper. rewrite <- (join_split (trim_space val) 58). rewrite forallb_forall in Ef.
    assert (Hj : Forall (fun c => fp_char (upper_byte c) = true) (join (split (trim_space val) 58) 58)).
    { apply join_chars; [done|]. apply Forall_forall. intros p Hp. apply list_elem_of_In, Ef, andb_true_iff in Hp as [_ Hp].
      unfold isHexByte in Hp. rewrite forallb_forall in Hp. apply Forall_forall. intros c Hc. apply list_elem_of_In, Hp in Hc.
      unfold fp_char, upper_byte, is_digit in *. destruct ((97 <=? c) && (c <=? 122)) eqn:E; lia. }
    apply Forall_forall. intros c Hc. apply list_elem_of_In, in_map_iff in Hc as (x & <- & Hx).
    rewrite Forall_forall in Hj. apply Hj. by apply list_elem_of_In.
Qed.

Definition directions : list gostring := [SendRecv; SendOnly; RecvOnly; Inactive].
Definition setups : list gostring := [str "active"; str "passive"; str "actpass"; str "holdconn"].

Record acc_wf (x : attrs_acc) : Prop := {
  xw_direction : x_direction x ∈ directions;
  xw_ufrag : ice_token_ok minICEUfrag (x_ufrag x);
  xw_pwd : ice_token_ok minICEPwd (x_pwd x);
  xw_setup : x_setup x = [] \/ x_setup x ∈ setups;
  xw_fp f : x_fp x = Some f -> fp_ok f;
  xw_rtcp : 0 <= x_rtcp x < 65536
}.

Lemma existsb_beq x l : existsb (beq x) l = true -> x ∈ l.
Proof. intros H. apply existsb_exists in H as (y & Hy & E). apply beq_eq in E as <-. by apply list_elem_of_In. Qed.

Lemma apply_attr_wf x a : acc_wf x -> acc_wf (apply_attr x a).
Proof.
  intros Hx. pose proof Hx as [H1 H2 H3 H4 H5 H6]. unfold apply_attr. destruct x as [d u p m st f r].
  cbn [x_direction x_ufrag x_pwd x_mux x_setup x_fp x_rtcp] in *.
  fold directions. destruct (existsb (beq (at_key a)) directions) eqn:Ed.
  { apply existsb_beq in Ed. split; cbn; auto. }
  clear Ed. destruct (beq (at_key a) (str "ice-ufrag")); [split; cbn; auto; apply sanitizeICEToken_ok|].
  destruct (beq (at_key a) (str "ice-pwd")); [split; cbn; auto; apply sanitizeICEToken_ok|].
  destruct (beq (at_key a) (str "rtcp-mux")); [split; cbn; auto|].
  destruct (beq (at_key a) (str "setup")).
  { destruct (existsb _ _) eqn:Es; [|exact Hx]. apply existsb_beq in Es. split; cbn; auto. }
  destruct (beq (at_key a) (str "fingerprint")).
  { destruct (parseFingerprint _) as [fp|] eqn:Ef; [|exact Hx]. apply parseFingerprint_ok in Ef. split; cbn; auto. by intros ? [= <-]. }
  destruct (beq (at_key a) (str "rtcp")); [|exact Hx]. destruct (fields _) as [|f0 ?]; [done|]. destruct (atoi f0) as [port|]; [|exact Hx].
  destruct (_ && _) eqn:Ep; [|exact Hx]. split; cbn; auto. lia.
Qed.

Lemma parseAttributes_wf sd md : acc_wf (parseAttributes sd md).
Proof.
  assert (H : forall l x, acc_wf x -> acc_wf (fold_left apply_attr l x)).
  { intros l. induction l as [|a l IH]; intros x Hx; [done|]. cbn. by apply IH, apply_attr_wf. }
  unfold parseAttributes. apply H, H. split; cbn; auto; try done; try by left.
Qed.

(** The sections: as many as were there, each declinable; the live one is an
    audio section with a port. *)
Definition section_ok (s : Section_) : Prop :=
  (1 <= len (sec_media s) <= 32 /\ Forall (fun c => is_lower c = true) (sec_media s)) /\ join (sec_proto s) 47 ∈ knownProtos.

Lemma section_section_ok m : section_ok (section m).
Proof.
  unfold section, section_ok. cbn [sec_media sec_proto]. split.
  - destruct (_ || _) eqn:E; [split; [by vm_compute|apply (bool_decide_unpack _); vm_compute; exact I]|].
    apply orb_false_iff in E as [E1 E2]. apply orb_false_iff in E1 as [E0 E1]. apply negb_false_iff in E2. split.
    + destruct (to_lower (md_media m)) as [|c l]; [done|]. rewrite len_cons in *. pose proof (len_nonneg l). lia.
    + rewrite forallb_forall in E2. apply Forall_forall. intros c Hc. apply E2. by apply list_elem_of_In.
  - destruct (existsb _ _) eqn:E; [by apply existsb_beq in E|]. cbn. unfold knownProtos. by left.
Qed.

Lemma scan_sections_spec ms : forall i live declined secs md ix declined',
  scan_sections i ms live declined = Some (secs, Some (md, ix), declined') ->
  secs = map section ms /\
  (live = Some (md, ix) \/ (live = None /\ ms !! Z.to_nat (ix - i) = Some md /\ i <= ix < i + len ms)).
Proof.
  induction ms as [|m ms IH]; intros i live declined secs md ix declined'; cbn [scan_sections].
  { intros [= <- -> <-]. split; [done|by left]. }
  case_if; [done|]. destruct (if bool_decide _ && _ then _ else _) as [live' decl'] eqn:El.
  destruct (scan_sections (i + 1) ms live' decl') as [[[secs' l'] d']|] eqn:Es; [|done]. intros [= <- -> <-].
  apply IH in Es as [-> H]. split; [done|]. rewrite len_cons. pose proof (len_nonneg ms).
  assert (Hnext : live' = None /\ ms !! Z.to_nat (ix - (i + 1)) = Some md /\ i + 1 <= ix < i + 1 + len ms -> live = None ->
    live = None /\ (m :: ms) !! Z.to_nat (ix - i) = Some md /\ i <= ix < i + (1 + len ms)).
  { intros (_ & Hl & Hi) ->. split; [done|]. replace (Z.to_nat (ix - i)) with (S (Z.to_nat (ix - (i + 1)))) by lia. split; [done|lia]. }
  destruct live as [[lm li]|]; cbn [bool_decide andb] in El.
  - injection El as <- <-. destruct H as [[= -> ->]|(? & _)]; [by left|done].
  - right. rewrite bool_decide_eq_true_2 in El by done. cbn [andb] in El. destruct (beq _ _); [destruct (md_port m =? 0)|];
      injection El as <- <-; destruct H as [H|H]; try done; try (by apply Hnext).
    injection H as <- <-. replace (i - i) with 0 by lia. split_and!; [done|done|lia|lia].
Qed.

Record session_wf (allowLoopback : bool) (s : Session) : Prop := {
  sw_codecs : Forall codec_wf (a_codecs (s_audio s));
  sw_numbers : NoDup (map PayloadType (a_codecs (s_audio s)));
  sw_count : 1 <= len (a_codecs (s_audio s)) <= MaxCodecs;
  sw_address : if a_hold (s_audio s) then a_address (s_audio s) = AddrZero
               else is_valid (a_address (s_audio s)) = true /\ unmap (a_address (s_audio s)) = a_address (s_audio s) /\
                    is_unspecified (a_address (s_audio s)) = false /\ is_multicast (a_address (s_audio s)) = false /\
                    is_link_local_unicast (a_address (s_audio s)) = false /\ a_address (s_audio s) <> ip4 255 255 255 255 /\
                    (is_loopback (a_address (s_audio s)) = true -> allowLoopback = true);
  sw_attrs : acc_wf (mkAcc (a_direction (s_audio s)) (a_ufrag (s_audio s)) (a_pwd (s_audio s)) (a_rtcpmux (s_audio s))
                       (a_setup (s_audio s)) (a_fingerprint (s_audio s)) (a_rtcpport (s_audio s)));
  sw_crypto : Forall (fun c => Validate c = None) (a_crypto (s_audio s)) /\ NoDup (map Tag (a_crypto (s_audio s)));
  sw_sections : Forall section_ok (s_sections s) /\ len (s_sections s) = s_mediacount s;
  sw_index : 0 <= s_audioindex s < s_mediacount s /\ s_mediacount s <= MaxMediaDescriptions
}.

Lemma parse_addr_valid s a : parse_addr s = Some a -> is_valid a = true.
Proof.
  unfold parse_addr. destruct (List.find _ s) as [c|]; [|done].
  assert (H6 : forall x, parse_ipv6 s = Some x -> is_valid x = true).
  { intros x. unfold parse_ipv6. destruct (cut s 37) as [[t z] zoned]. destruct (zoned && _); [done|].
    destruct (match cut_prefix t (str "::") with Some r => (r, Some 0%nat) | None => (t, None) end) as [t' ell].
    destruct (bool_decide (ell ≠ None) && _); [by intros [= <-]|].
    destruct (ipv6_loop 8 t' [] ell) as [[[gs e] [|? ?]]|]; try done. destruct (len gs <? 8), e; try done; by intros [= <-]. }
  destruct (c =? 46).
  { destruct (parse_ipv4 s); cbn; [by intros [= <-]|done]. } destruct (c =? 58); [auto|done].
Qed.

Lemma parseConnection_ok lb sd md hold a : parseConnection lb sd md = inl (hold, a) ->
  if hold then a = AddrZero
  else is_valid a = true /\ unmap a = a /\ is_unspecified a = false /\ is_multicast a = false /\ is_link_local_unicast a = false /\
       a <> ip4 255 255 255 255 /\ (is_loopback a = true -> lb = true).
Proof.
  unfold parseConnection. destruct (match md_conn md with None => _ | _ => _ end) as [[text|]|]; try done.
  destruct (parse_addr _) as [ip|] eqn:Ep; [|done]. apply parse_addr_valid in Ep.
  destruct (is_unspecified (unmap ip)) eqn:Eu; [by intros [= <- <-]|].
  destruct (is_multicast _ || _ || _) eqn:Em; [done|]. destruct (is_loopback _ && _) eqn:El; [done|]. intros [= <- <-].
  apply orb_false_iff in Em as [Em Eb]. apply orb_false_iff in Em as [Em El']. split_and!; try done.
  - by rewrite unmap_valid.
  - apply unmap_idem.
  - unfold addr_eqb in Eb. by apply bool_decide_eq_false in Eb.
  - intros Hl. rewrite Hl in El. cbn [andb] in El. by apply negb_false_iff in El.
Qed.

(** C40: What Parse keeps is well formed, whatever the decoder makes of the
    body: the codecs have distinct numbers below 128, names, rates and channels
    in range and canonical parameters; there is no address (a hold), or one
    that is no IPv4-mapped, unspecified, multicast or link-local one and not the
    IPv4 broadcast address, and a loopback one only where that is allowed (an
    unspecified IPv6 address with a zone, "::%eth0", is told apart from "::" and
    kept: [zoned_unspecified_is_no_hold]); the ICE, DTLS and SDES values are in
    their alphabets; and every section of the body can be declined by an
    answer. *)
Theorem parsed_session_wf (Unmarshal : gostring -> option SessionDescription) body allowLoopback s :
  ParseWithOptions Unmarshal body allowLoopback = inl s -> session_wf allowLoopback s.
Proof.
  unfold ParseWithOptions. case_if; [done|]. case_if; [done|]. destruct (Unmarshal body) as [sd|]; [|done].
  destruct (MaxMediaDescriptions <? _) eqn:Em; [done|]. destruct (MaxAttributes <? _); [done|].
  destruct (scan_sections 0 (sd_media sd) None false) as [[[secs [[md ix]|]] d]|] eqn:Es; try done.
  destruct (MaxCodecs <? len (md_formats md)) eqn:Ef; [done|].
  destruct (parseConnection allowLoopback sd md) as [[hold a]|e] eqn:Ec; [|done].
  destruct (parseCodecs md) as [[|c cs]|e] eqn:Ek; try done. cbv zeta. intros [= <-].
  apply scan_sections_spec in Es as [-> [?|(_ & _ & Hi)]]; [done|].
  pose proof (parseCryptoAttrs_usable_aux (map at_value (List.filter (fun a => beq (at_key a) (str "crypto")) (md_attrs md)))) as Hcr.
  cbv zeta in Hcr. destruct Hcr as (Hcr & Hct & _). apply codecs_from_ok in Ek as (K1 & K2 & _ & K4).
  pose proof (parseAttributes_wf sd md) as Hx. destruct (parseAttributes sd md).
  split; cbn [s_audio s_mediacount s_audioindex s_sections a_codecs a_address a_hold a_direction a_ufrag a_pwd a_rtcpmux a_setup
              a_fingerprint a_rtcpport a_crypto]; try done.
  - rewrite len_cons. pose proof (len_nonneg cs). unfold len in *. cbn [length] in K4. lia.
  - by apply parseConnection_ok in Ec.
  - split; [|unfold len; by rewrite length_map]. apply Forall_forall. intros x Hin.
    apply list_elem_of_In, in_map_iff in Hin as (m & <- & _). apply section_section_ok.
  - lia.
Qed.

(** An offer of video and audio, as pion decodes it; the zoned "::" shows
    that it is taken for an address and not for a hold. *)
Definition demo_desc (addr : gostring) : SessionDescription :=
  mkDesc (Some (Some addr)) [mkAttr (str "ice-ufrag") (str "abcd")]
    [mkMedia (str "video") 9 [str "RTP"; str "AVP"] [str "96"] None [];
     mkMedia (str "audio") 4000 [str "RTP"; str "AVP"] [str "0"; str "101"; str "0"; str "96"] None
       [mkAttr (str "rtpmap") (str "101 telephone-event/8000"); mkAttr (str "fmtp") (str "101 0-16");
        mkAttr (str "recvonly") []; mkAttr (str "rtcp") (str "4001 IN IP4 10.0.0.1")]].

Lemma parsed_session_wf_witness :
  exists s, ParseWithOptions (fun _ => Some (demo_desc (str "192.0.2.9"))) (str "v=0") false = inl s /\ session_wf false s /\
    s_audioindex s = 1 /\ a_direction (s_audio s) = RecvOnly /\ a_rtcpport (s_audio s) = 4001 /\
    a_codecs (s_audio s) = [mkCodec 0 (str "PCMU") 8000 1 []; mkCodec 101 (str "telephone-event") 8000 1 (str "0-16")].
Proof.
  eexists. split; [vm_compute; reflexivity|].
  split; [apply (parsed_session_wf (fun _ => Some (demo_desc (str "192.0.2.9"))) (str "v=0") false); vm_compute; reflexivity|].
  split_and!; vm_compute; reflexivity.
Defined.

Example zoned_unspecified_is_no_hold :
  match ParseWithOptions (fun _ => Some (demo_desc (str "::%eth0"))) (str "v=0") false with
  | inl s => a_hold (s_audio s) = false /\ a_address (s_audio s) = V6 0 (str "eth0")
  | inr _ => False
  end.
Proof. split; vm_compute; reflexivity. Qed.
