(* ===== verification/SdpBuild.v ===== *)
(** internal/sip/sdp/build.go: the SDP bodies the proxy writes.

    [marshal] appends what the code appends, in its order.  [read_sdp] reads
    a body back line by line (RFC 4566); it is not part of the program, it is
    what the writer is checked against, in the place of pion's decoder. *)

From S2P Require Import Prelude GoText GoEncoding Netip SdpCodec SdpCrypto SdpFmtp SdpParse.

Open Scope Z_scope.

Record Build := mkBuild {
  b_address : Addr;
  b_port : Z;
  b_codecs : list Codec;
  b_direction : gostring;
  b_sessionid : Z;
  b_sessionversion : Z;
  b_dtls : bool;
  b_rtcpmux : bool;
  b_ufrag : gostring;
  b_pwd : gostring;
  b_fingerprint : option Fingerprint;
  b_setup : gostring;
  b_crypto : list Crypto
}.

Inductive buildError :=
  | NoAddress | BadPort (port : Z) | BuildNoCodec | MissingDTLS | SDESAndDTLS | CryptoCount (n : Z) | BadCrypto (e : cryptoError).

Definition crlf : gostring := [13; 10].

Definition AddrType (ip : Addr) : gostring := if is6 ip then str "IP6" else str "IP4".

Definition iceLitePriority : Z := Z.lor (Z.lor (Z.shiftl 126 24) (Z.shiftl 65535 8)) (256 - 1).

Definition proto (b : Build) : gostring :=
  if b_dtls b then str "UDP/TLS/RTP/SAVPF"
  else if 0 <? len (b_crypto b) then str "RTP/SAVP"
  else str "RTP/AVP".

Definition placeholderFormat (pr : list gostring) : gostring :=
  let p := join pr 47 in
  if existsb (beq p) [str "UDP/DTLS/SCTP"; str "TCP/DTLS/SCTP"] then str "webrtc-datachannel"
  else if beq p (str "DTLS/SCTP") then str "5000"
  else if beq p (str "udptl") then str "t38"
  else if existsb (beq p) [str "TCP/MSRP"; str "TCP/TLS/MSRP"; str "UDP/BFCP"; str "TCP/BFCP"; str "TCP/TLS/BFCP"; str "TCP"; str "UDP"]
  then str "*"
  else str "0".

Definition appendAttr (buf key value : gostring) : gostring :=
  let buf := buf ++ str "a=" ++ key in
  let buf := if negb (beq value []) then buf ++ str ":" ++ value else buf in
  buf ++ crlf.

(** The formats of the m= line, from index [i]. *)
Fixpoint append_formats (buf : gostring) (i : nat) (cs : list Codec) : gostring :=
  match cs with
  | [] => buf
  | c :: cs => append_formats ((match i with O => buf | _ => buf ++ str " " end) ++ itoa (PayloadType c)) (S i) cs
  end.

Definition append_codec (buf : gostring) (c : Codec) : gostring :=
  let buf := buf ++ str "a=rtpmap:" ++ itoa (PayloadType c) ++ str " " ++ Name c ++ str "/" ++ itoa (ClockRate c) in
  let buf := if 1 <? Channels c then buf ++ str "/" ++ int_string (Channels c) else buf in
  let buf := buf ++ crlf in
  let f := canonicalFMTP (Name c) (FMTP c) in
  if negb (beq f []) then buf ++ str "a=fmtp:" ++ itoa (PayloadType c) ++ str " " ++ f ++ crlf else buf.

Definition append_crypto (buf : gostring) (c : Crypto) : gostring := appendValue (buf ++ str "a=crypto:") c ++ crlf.

Definition append_dtls (buf : gostring) (b : Build) (fp : Fingerprint) : gostring :=
  let buf := buf ++ str "a=ice-lite" ++ crlf in
  let buf := appendAttr buf (str "ice-ufrag") (b_ufrag b) in
  let buf := appendAttr buf (str "ice-pwd") (b_pwd b) in
  let buf := buf ++ str "a=candidate:1 1 UDP " ++ itoa iceLitePriority ++ str " " ++ addr_string (b_address b) ++ str " "
             ++ int_string (b_port b) ++ str " typ host" ++ crlf ++ str "a=end-of-candidates" ++ crlf
             ++ str "a=fingerprint:" ++ fp_hash fp ++ str " " ++ fp_value fp ++ crlf in
  appendAttr buf (str "setup") (b_setup b).

Definition appendAudio (buf : gostring) (b : Build) (dir : gostring) : gostring :=
  let buf := buf ++ str "m=audio " ++ int_string (b_port b) ++ str " " ++ proto b ++ str " " in
  let buf := append_formats buf 0 (b_codecs b) ++ crlf in
  let buf := match b_dtls b, b_fingerprint b with true, Some fp => append_dtls buf b fp | _, _ => buf end in
  let buf := fold_left append_codec (b_codecs b) buf in
  let buf := fold_left append_crypto (b_crypto b) buf in
  let buf := appendAttr buf dir [] in
  if b_rtcpmux b then buf ++ str "a=rtcp-mux" ++ crlf else buf.

Definition appendDeclined (buf : gostring) (sec : Section_) : gostring :=
  buf ++ str "m=" ++ sec_media sec ++ str " 0 " ++ join (sec_proto sec) 47 ++ str " " ++ placeholderFormat (sec_proto sec) ++ crlf.

(** The loop over the offered sections, from index [i]. *)
Fixpoint append_sections (buf : gostring) (b : Build) (dir : gostring) (live i : Z) (secs : list Section_) : gostring :=
  match secs with
  | [] => buf
  | sec :: secs =>
      append_sections (if i =? live then appendAudio buf b dir else appendDeclined buf sec) b dir live (i + 1) secs
  end.

Fixpoint first_invalid (l : list Crypto) : option cryptoError :=
  match l with
  | [] => None
  | c :: l => match Validate c with Some e => Some e | None => first_invalid l end
  end.

(** The checks of [marshal], before anything is written. *)
Definition build_check (b : Build) : option buildError :=
  if negb (is_valid (b_address b)) then Some NoAddress
  else if (b_port b <=? 0) || (65535 <? b_port b) then Some (BadPort (b_port b))
  else if len (b_codecs b) =? 0 then Some BuildNoCodec
  else if b_dtls b && (bool_decide (b_fingerprint b = None) || beq (b_ufrag b) [] || beq (b_pwd b) []) then Some MissingDTLS
  else if 0 <? len (b_crypto b) then
    if b_dtls b then Some SDESAndDTLS
    else if MaxCrypto <? len (b_crypto b) then Some (CryptoCount (len (b_crypto b)))
    else BadCrypto <$> first_invalid (b_crypto b)
  else None.

Definition build_head (b : Build) : gostring :=
  str "v=0" ++ crlf ++ str "o=FreeSBC " ++ itoa (b_sessionid b) ++ str " " ++ itoa (b_sessionversion b) ++ str " IN "
  ++ AddrType (b_address b) ++ str " " ++ addr_string (b_address b) ++ crlf ++ str "s=FreeSBC" ++ crlf
  ++ str "c=IN " ++ AddrType (b_address b) ++ str " " ++ addr_string (b_address b) ++ crlf ++ str "t=0 0" ++ crlf.

(** [offer]: the live section's index and the sections to answer, if any. *)
Definition marshal (b : Build) (offer : option (Z * list Section_)) : gostring + buildError :=
  match build_check b with
  | Some e => inr e
  | None =>
      let dir := if beq (b_direction b) [] then SendRecv else b_direction b in
      let buf := build_head b in
      match offer with
      | None => inl (appendAudio buf b dir)
      | Some (live, secs) => inl (append_sections buf b dir live 0 secs)
      end
  end.

Definition Marshal (b : Build) : gostring + buildError := marshal b None.

Definition MarshalDeclining (b : Build) (offer : option Session) : gostring + buildError :=
  match offer with
  | None => marshal b None
  | Some o =>
      let '(ix, secs) := if (len (s_sections o) =? 0) && (1 <? s_mediacount o)
                         then (0, replicate (Z.to_nat (s_mediacount o)) (mkSection (str "audio") [str "RTP"; str "AVP"]))
                         else (s_audioindex o, s_sections o) in
      if (len secs <=? 1) || (ix <? 0) || (len secs <=? ix) then marshal b None
      else marshal b (Some (ix, secs))
  end.

(** ** The lines of a body *)

(** Lines as bytes, each with its CRLF. *)
Definition cat (ls : list gostring) : gostring := flat_map (fun l => l ++ crlf) ls.

Definition attr_line (a : Attribute) : gostring :=
  str "a=" ++ at_key a ++ (if negb (beq (at_value a) []) then str ":" ++ at_value a else []).

Definition rtpmap_text (c : Codec) : gostring :=
  Name c ++ str "/" ++ itoa (ClockRate c) ++ (if 1 <? Channels c then str "/" ++ int_string (Channels c) else []).

Definition codec_attrs (c : Codec) : list Attribute :=
  let f := canonicalFMTP (Name c) (FMTP c) in
  mkAttr (str "rtpmap") (itoa (PayloadType c) ++ str " " ++ rtpmap_text c)
  :: (if negb (beq f []) then [mkAttr (str "fmtp") (itoa (PayloadType c) ++ str " " ++ f)] else []).

Definition crypto_attr (c : Crypto) : Attribute := mkAttr (str "crypto") (Value c).

Definition dtls_attrs (b : Build) (fp : Fingerprint) : list Attribute :=
  [mkAttr (str "ice-lite") []; mkAttr (str "ice-ufrag") (b_ufrag b); mkAttr (str "ice-pwd") (b_pwd b);
   mkAttr (str "candidate") (str "1 1 UDP " ++ itoa iceLitePriority ++ str " " ++ addr_string (b_address b) ++ str " "
                             ++ int_string (b_port b) ++ str " typ host");
   mkAttr (str "end-of-candidates") []; mkAttr (str "fingerprint") (fp_hash fp ++ str " " ++ fp_value fp);
   mkAttr (str "setup") (b_setup b)].

Definition audio_attrs (b : Build) (dir : gostring) : list Attribute :=
  match b_dtls b, b_fingerprint b with true, Some fp => dtls_attrs b fp | _, _ => [] end
  ++ flat_map codec_attrs (b_codecs b) ++ map crypto_attr (b_crypto b) ++ [mkAttr dir []]
  ++ (if b_rtcpmux b then [mkAttr (str "rtcp-mux") []] else []).

Definition mline (media port proto_ formats : gostring) : gostring :=
  str "m=" ++ media ++ str " " ++ port ++ str " " ++ proto_ ++ str " " ++ formats.

Definition audio_lines (b : Build) (dir : gostring) : list gostring :=
  mline (str "audio") (int_string (b_port b)) (proto b) (join (map (fun c => itoa (PayloadType c)) (b_codecs b)) 32)
  :: map attr_line (audio_attrs b dir).

Definition declined_line (sec : Section_) : gostring :=
  mline (sec_media sec) (str "0") (join (sec_proto sec) 47) (placeholderFormat (sec_proto sec)).

Definition head_lines (b : Build) : list gostring :=
  [str "v=0";
   str "o=FreeSBC " ++ itoa (b_sessionid b) ++ str " " ++ itoa (b_sessionversion b) ++ str " IN " ++ AddrType (b_address b)
     ++ str " " ++ addr_string (b_address b);
   str "s=FreeSBC"; str "c=IN " ++ AddrType (b_address b) ++ str " " ++ addr_string (b_address b); str "t=0 0"].

(** The groups of lines of the m= sections, the live one at [live]. *)
Fixpoint section_lines (b : Build) (dir : gostring) (live i : Z) (secs : list Section_) : list (list gostring) :=
  match secs with
  | [] => []
  | sec :: secs => (if i =? live then audio_lines b dir else [declined_line sec]) :: section_lines b dir live (i + 1) secs
  end.

Definition body_groups (b : Build) (dir : gostring) (offer : option (Z * list Section_)) : list (list gostring) :=
  match offer with None => [audio_lines b dir] | Some (live, secs) => section_lines b dir live 0 secs end.

Lemma cat_app l k : cat (l ++ k) = cat l ++ cat k.
Proof. apply flat_map_app. Qed.

Lemma cat_cons x l : cat (x :: l) = x ++ crlf ++ cat l.
Proof. unfold cat. cbn [flat_map]. by rewrite <- app_assoc. Qed.

Lemma appendAttr_line buf k v : appendAttr buf k v = buf ++ cat [attr_line (mkAttr k v)].
Proof.
  unfold appendAttr, cat, attr_line. cbn [flat_map at_key at_value]. rewrite app_nil_r.
  destruct (negb (beq v [])); rewrite <- ?app_assoc; done.
Qed.

Lemma append_codec_lines buf c : append_codec buf c = buf ++ cat (map attr_line (codec_attrs c)).
Proof.
  unfold append_codec, codec_attrs, rtpmap_text, cat. cbv zeta.
  assert (Hne : forall x, beq (itoa (PayloadType c) ++ str " " ++ x) [] = false).
  { intros x. apply bool_decide_eq_false. by destruct (itoa (PayloadType c)). }
  destruct (negb (beq (canonicalFMTP (Name c) (FMTP c)) [])); cbn [map flat_map]; unfold attr_line; cbn [at_key at_value];
    rewrite !Hne; cbn [negb]; destruct (1 <? Channels c); rewrite ?app_nil_r, <- ?app_assoc; done.
Qed.

Lemma append_codecs_lines cs : forall buf, fold_left append_codec cs buf = buf ++ cat (map attr_line (flat_map codec_attrs cs)).
Proof.
  induction cs as [|c cs IH]; intros buf; cbn [fold_left flat_map]; [by rewrite app_nil_r|].
  by rewrite IH, append_codec_lines, map_app, cat_app, app_assoc.
Qed.

Lemma append_crypto_lines cs : forall buf, fold_left append_crypto cs buf = buf ++ cat (map attr_line (map crypto_attr cs)).
Proof.
  induction cs as [|c cs IH]; intros buf; cbn [fold_left map]; [by rewrite app_nil_r|]. rewrite IH.
  rewrite cat_cons. unfold append_crypto, crypto_attr, attr_line, Value. cbn [at_key at_value]. unfold appendValue. cbn [app].
  replace (beq (int_string (Tag c) ++ _) []) with false; [cbn [negb]; by rewrite <- !app_assoc|].
  symmetry. apply bool_decide_eq_false. unfold int_string. destruct (Tag c <? 0); [done|]. by destruct (itoa (Tag c)).
Qed.

Lemma append_formats_join cs : forall buf i, append_formats buf i cs =
  buf ++ match i, cs with S _, _ :: _ => str " " | _, _ => [] end ++ join (map (fun c => itoa (PayloadType c)) cs) 32.
Proof.
  induction cs as [|c cs IH]; intros buf i; cbn [append_formats map]; [destruct i; by rewrite app_nil_r|].
  rewrite IH. destruct cs as [|c' cs]; destruct i; cbn [map join]; rewrite <- ?app_assoc; cbn [app]; by rewrite ?app_nil_r.
Qed.

Lemma attr_line_value k v : v <> [] -> attr_line (mkAttr k v) = str "a=" ++ k ++ str ":" ++ v.
Proof. intros H. unfold attr_line. cbn [at_key at_value]. unfold beq. by rewrite bool_decide_eq_false_2. Qed.

Lemma attr_line_flag k : attr_line (mkAttr k []) = str "a=" ++ k.
Proof. unfold attr_line. cbn [at_key at_value]. by rewrite beq_refl, app_nil_r. Qed.

Lemma append_dtls_lines buf b fp : append_dtls buf b fp = buf ++ cat (map attr_line (dtls_attrs b fp)).
Proof.
  unfold append_dtls, dtls_attrs. cbn [map]. rewrite !appendAttr_line, !cat_cons. change (cat []) with (@nil Z).
  rewrite !attr_line_flag, (attr_line_value (str "candidate")), (attr_line_value (str "fingerprint")); [|by destruct (fp_hash fp)|done].
  rewrite <- !app_assoc. reflexivity.
Qed.

Lemma appendAudio_lines buf b dir : appendAudio buf b dir = buf ++ cat (audio_lines b dir).
Proof.
  unfold appendAudio, audio_lines, audio_attrs. cbv zeta. rewrite append_formats_join. cbn [app]. rewrite cat_cons.
  rewrite !map_app, !cat_app. unfold mline. change (str "m=audio ") with (str "m=" ++ str "audio" ++ str " ").
  assert (Hd : forall x, (match b_dtls b, b_fingerprint b with true, Some fp => append_dtls x b fp | _, _ => x end) =
    x ++ cat (map attr_line match b_dtls b, b_fingerprint b with true, Some fp => dtls_attrs b fp | _, _ => [] end)).
  { intros x. destruct (b_dtls b), (b_fingerprint b); cbn [map]; rewrite ?append_dtls_lines; try done; change (cat []) with (@nil Z); by rewrite app_nil_r. }
  rewrite Hd, append_codecs_lines, append_crypto_lines, appendAttr_line. cbn [map].
  destruct (b_rtcpmux b); cbn [map]; rewrite ?attr_line_flag, ?cat_cons; change (cat []) with (@nil Z);
    rewrite <- ?app_assoc, ?app_nil_r; reflexivity.
Qed.

Lemma appendDeclined_lines buf sec : appendDeclined buf sec = buf ++ cat [declined_line sec].
Proof.
  unfold appendDeclined, declined_line, mline. rewrite cat_cons. change (cat []) with (@nil Z). change (str " 0 ") with (str " " ++ str "0" ++ str " ").
  rewrite <- ?app_assoc, ?app_nil_r. reflexivity.
Qed.

Lemma append_sections_lines b dir live secs : forall buf i,
  append_sections buf b dir live i secs = buf ++ cat (concat (section_lines b dir live i secs)).
Proof.
  induction secs as [|sec secs IH]; intros buf i; cbn [append_sections section_lines concat]; [by rewrite app_nil_r|].
  rewrite IH, cat_app, app_assoc. f_equal. case_if; [apply appendAudio_lines|apply appendDeclined_lines].
Qed.

(** A body is its lines. *)
Lemma marshal_lines b offer body : marshal b offer = inl body ->
  build_check b = None /\
  body = cat (head_lines b ++ concat (body_groups b (if beq (b_direction b) [] then SendRecv else b_direction b) offer)).
Proof.
  unfold marshal. destruct (build_check b); [done|]. intros H. set (dir := if beq _ _ then _ else _). split; [done|].
  assert (Hh : build_head b = cat (head_lines b)).
  { unfold build_head, head_lines. rewrite !cat_cons. change (cat []) with (@nil Z). rewrite <- !app_assoc, app_nil_r. reflexivity. }
  rewrite cat_app, <- Hh. destruct offer as [[live secs]|]; cbv zeta in H; injection H as <-; cbn [body_groups].
  - apply append_sections_lines.
  - cbn [concat]. rewrite app_nil_r. apply appendAudio_lines.
Qed.

(** ** Reading a body *)

(** A lenient reader: a bare carriage return or line feed ends a line too. *)
Definition lines (s : gostring) : list gostring :=
  List.filter (fun l => negb (beq l [])) (flat_map (fun l => split l 13) (split s 10)).

Definition parse_mline (l : gostring) : gostring * Z * list gostring * list gostring :=
  match split l 32 with
  | media :: port :: pr :: formats => (media, default 0 (atoi port), split pr 47, formats)
  | _ => ([], 0, [], [])
  end.

Definition attr_of_line (l : gostring) : option Attribute :=
  match cut_prefix l (str "a=") with
  | Some r => let '(k, v, _) := cut r 58 in Some (mkAttr k v)
  | None => None
  end.

Definition conn_of_line (l : gostring) : option (option gostring) :=
  match cut_prefix l (str "c=") with Some r => Some (fields r !! 2%nat) | None => None end.

Definition media_of (m : gostring) (below : list gostring) : MediaDescription :=
  let '(media, port, protos, formats) := parse_mline m in
  mkMedia media port protos formats (hd_error (omap conn_of_line below)) (omap attr_of_line below).

(** The lines above the first m= line, and the sections. *)
Definition read_line (l : gostring) (r : list gostring * list MediaDescription) : list gostring * list MediaDescription :=
  match cut_prefix l (str "m=") with
  | Some m => ([], media_of m r.1 :: r.2)
  | None => (l :: r.1, r.2)
  end.

Definition read_lines (ls : list gostring) : list gostring * list MediaDescription := foldr read_line ([], []) ls.

Definition read_sdp (s : gostring) : SessionDescription :=
  let '(above, media) := read_lines (lines s) in
  mkDesc (hd_error (omap conn_of_line above)) (omap attr_of_line above) media.

(** ** No line is injected *)

Definition clean (l : gostring) : Prop := Forall (fun c => c <> 10 /\ c <> 13) l.
#[export] Instance clean_dec l : Decision (clean l).
Proof. unfold clean. apply _. Defined.

Lemma clean_app a b : clean (a ++ b) <-> clean a /\ clean b.
Proof. apply Forall_app. Qed.

Lemma clean_chars (P : Z -> bool) l : P 10 = false -> P 13 = false -> Forall (fun c => P c = true) l -> clean l.
Proof. intros H1 H2 H. eapply Forall_impl; [exact H|]. cbn. intros c Hc. split; intros ->; congruence. Qed.

Lemma lines_cat ls : Forall (fun l => l <> [] /\ clean l) ls -> lines (cat ls) = ls.
Proof.
  induction ls as [|l ls IH]; intros H; [done|]. apply Forall_cons in H as [[Hne Hc] H]. unfold lines in *.
  rewrite cat_cons. change (crlf ++ cat ls) with ([13] ++ 10 :: cat ls). rewrite app_assoc.
  assert (H10 : 10 ∉ l ++ [13]).
  { rewrite elem_of_app, list_elem_of_singleton. intros [Hin|]; [|done]. by eapply Forall_forall in Hc as [? _]; [|exact Hin]. }
  assert (H13 : 13 ∉ l) by (intros Hin; by eapply Forall_forall in Hc as [_ ?]; [|exact Hin]).
  rewrite split_app by done. cbn [flat_map]. rewrite split_app by done. cbn [split]. rewrite List.filter_app.
  cbn [List.filter]. replace (beq l []) with false by (symmetry; by apply bool_decide_eq_false_2).
  rewrite beq_refl. cbn [negb app]. by rewrite IH.
Qed.

Lemma clean_itoa n : 0 <= n < 10 ^ 64 -> clean (itoa n).
Proof.
  intros Hn. destruct (itoa_spec n Hn) as (_ & Hd & _). rewrite forallb_forall in Hd. apply Forall_forall. intros c Hc.
  apply list_elem_of_In, Hd in Hc. unfold is_digit in Hc. lia.
Qed.

Lemma int_string_nonneg n : 0 <= n -> int_string n = itoa n.
Proof. intros H. unfold int_string. by replace (n <? 0) with false by lia. Qed.

(** What the fields of a Build have to be: the codecs as Parse and Negotiate
    give them, a usable address, credentials and fingerprint in their
    alphabets, valid keys. *)
Record build_ok (b : Build) : Prop := {
  bo_codecs : Forall codec_wf (b_codecs b);
  bo_numbers : NoDup (map PayloadType (b_codecs b));
  bo_direction : b_direction b = [] \/ b_direction b ∈ directions;
  bo_address : Forall (fun c => is_alnum c || mem c (str ".:%-") = true) (addr_string (b_address b)) /\ addr_string (b_address b) <> [];
  bo_ids : 0 <= b_sessionid b < two64 /\ 0 <= b_sessionversion b < two64;
  bo_ice : b_dtls b = true -> ice_token_ok minICEUfrag (b_ufrag b) /\ ice_token_ok minICEPwd (b_pwd b);
  bo_fp f : b_dtls b = true -> b_fingerprint b = Some f -> fp_ok f;
  bo_setup : b_dtls b = true -> b_setup b = [] \/ b_setup b ∈ setups;
  bo_keys : Forall (fun c => bytes_ok (Key c ++ Salt c)) (b_crypto b)
}.

Definition sections_ok (offer : option (Z * list Section_)) : Prop :=
  match offer with None => True | Some (_, secs) => Forall section_ok secs end.

Lemma in_consts (P : gostring -> Prop) `{!forall s, Decision (P s)} x l : x ∈ l -> bool_decide (Forall P l) = true -> P x.
Proof. intros Hx Hb. apply bool_decide_eq_true in Hb. rewrite Forall_forall in Hb. by apply Hb. Qed.

Lemma placeholder_clean pr : clean (placeholderFormat pr).
Proof. unfold placeholderFormat. repeat case_if; apply (bool_decide_unpack _); vm_compute; exact I. Qed.

Ltac const_clean := apply (bool_decide_unpack _); vm_compute; exact I.

Lemma attr_line_clean a : clean (at_key a) -> clean (at_value a) -> attr_line a <> [] /\ clean (attr_line a).
Proof.
  intros Hk Hv. split; [done|]. unfold attr_line. rewrite !clean_app. split; [const_clean|]. split; [done|].
  case_if; [|constructor]. rewrite clean_app. split; [const_clean|done].
Qed.

Lemma name_char_spec c : name_char c = true -> c <> 10 /\ c <> 13 /\ c <> 47 /\ is_space c = false.
Proof. unfold name_char, mem, is_alnum, is_digit, is_space. change (str "-_.") with [45; 95; 46]. cbn [existsb]. lia. Qed.

Lemma validName_spec n : validEncodingName n = true -> n <> [] /\ Forall (fun c => name_char c = true) n.
Proof.
  unfold validEncodingName. destruct (bool_decide (n = [])) eqn:E; [done|]. apply bool_decide_eq_false in E. cbn [orb].
  destruct (64 <? len n); [done|]. rewrite forallb_forall. intros H. split; [done|]. apply Forall_forall. intros c Hc. apply H.
  by apply list_elem_of_In.
Qed.

Lemma fmtp_char_clean c : fmtp_char c = true -> c <> 10 /\ c <> 13 /\ is_space c = false.
Proof. unfold fmtp_char, mem, is_alnum, is_digit, is_space. change (str "-=;,") with [45; 61; 59; 44]. cbn [existsb]. lia. Qed.

Lemma rtpmap_text_spec c : codec_wf c -> rtpmap_text c =
  Name c ++ 47 :: itoa (ClockRate c) ++ (if 1 <? Channels c then 47 :: itoa (Channels c) else []).
Proof. intros [_ _ _ Hc _ _]. unfold rtpmap_text. rewrite int_string_nonneg by lia. by destruct (1 <? Channels c). Qed.

(** The lines of a codec: printable words. *)
Definition word (l : gostring) : Prop := l <> [] /\ Forall (fun c => is_space c = false) l.

Lemma word_clean l : word l -> clean l.
Proof. intros [_ H]. eapply Forall_impl; [exact H|]. cbn. unfold is_space. intros c Hc. lia. Qed.

Lemma itoa_word n : 0 <= n < 10 ^ 64 -> word (itoa n).
Proof. intros Hn. split; [by apply itoa_spec|by apply itoa_no_space]. Qed.

Lemma rtpmap_word c : codec_wf c -> word (rtpmap_text c).
Proof.
  intros Hw. rewrite rtpmap_text_spec by done. destruct Hw as [_ Hn Hr Hc _ _]. apply validName_spec in Hn as [Hne Hn]. split.
  - intros E. apply app_nil in E as [E _]. done.
  - apply Forall_app. split; [eapply Forall_impl; [exact Hn|]; intros x Hx; by apply name_char_spec in Hx as (_ & _ & _ & ?)|].
    constructor; [done|]. apply Forall_app. split; [apply itoa_no_space; lia|]. case_if; [|constructor]. constructor; [done|].
    apply itoa_no_space. lia.
Qed.

Lemma fmtp_word c : codec_wf c -> FMTP c <> [] -> word (FMTP c).
Proof. intros [_ _ _ _ _ Hf] Hne. split; [done|]. eapply Forall_impl; [exact Hf|]. intros x Hx. by apply fmtp_char_clean in Hx as (_ & _ & ?). Qed.

Lemma codec_attrs_wf c : codec_wf c -> codec_attrs c =
  mkAttr (str "rtpmap") (itoa (PayloadType c) ++ 32 :: rtpmap_text c)
  :: (if negb (beq (FMTP c) []) then [mkAttr (str "fmtp") (itoa (PayloadType c) ++ 32 :: FMTP c)] else []).
Proof. intros [_ _ _ _ Hf _]. unfold codec_attrs. cbv zeta. by rewrite Hf. Qed.

Lemma beq_nil_false (l : gostring) : negb (beq l []) = true -> l <> [].
Proof. rewrite negb_true_iff. intros H ->. by rewrite beq_refl in H. Qed.

Definition attr_clean (a : Attribute) : Prop := clean (at_key a) /\ clean (at_value a).

Lemma codec_attrs_clean c : codec_wf c -> Forall attr_clean (codec_attrs c).
Proof.
  intros Hw. rewrite codec_attrs_wf by done. pose proof Hw as [Hp _ _ _ _ _].
  assert (Hx : forall w, word w -> clean (itoa (PayloadType c) ++ 32 :: w)).
  { intros w Hww. rewrite clean_app. split; [apply clean_itoa; lia|]. constructor; [done|by apply word_clean]. }
  constructor; [split; [const_clean|apply Hx, rtpmap_word, Hw]|].
  destruct (negb (beq (FMTP c) [])) eqn:E; [|constructor]. apply beq_nil_false in E.
  constructor; [|constructor]. split; [const_clean|]. by apply Hx, fmtp_word.
Qed.

Lemma crypto_attr_clean c : Validate c = None -> bytes_ok (Key c ++ Salt c) -> attr_clean (crypto_attr c).
Proof.
  intros Hv Hb. apply Validate_ok in Hv as [(sl & El & _) Ht]. unfold maxCryptoTag in Ht. split; [const_clean|].
  cbn [crypto_attr at_value]. unfold Value, appendValue. cbn [app]. rewrite int_string_nonneg by lia. apply Lengths_suites in El as (Hs & _).
  apply suite_word in Hs as (Hne & Hs & _). rewrite !clean_app. split_and!;
    [apply clean_itoa; lia|const_clean|by apply word_clean|const_clean|].
  eapply Forall_impl; [by apply b64_encode_ok|]. cbn. intros x Hx. apply b64_ok_spec in Hx. naive_solver.
Qed.

Lemma first_invalid_none l : first_invalid l = None -> Forall (fun c => Validate c = None) l.
Proof. induction l as [|c l IH]; [constructor|]. cbn. destruct (Validate c) eqn:E; [done|]. constructor; auto. Qed.

(** What the checks let through. *)
Lemma build_check_none b : build_check b = None ->
  is_valid (b_address b) = true /\ 1 <= b_port b <= 65535 /\ b_codecs b <> [] /\
  (b_dtls b = true -> b_crypto b = [] /\ b_ufrag b <> [] /\ b_pwd b <> [] /\ exists f, b_fingerprint b = Some f) /\
  len (b_crypto b) <= MaxCrypto /\ Forall (fun c => Validate c = None) (b_crypto b).
Proof.
  unfold build_check. destruct (negb (is_valid _)) eqn:E1; [done|]. destruct ((b_port b <=? 0) || _) eqn:E2; [done|].
  destruct (len (b_codecs b) =? 0) eqn:E3; [done|]. destruct (b_dtls b && _) eqn:E4; [done|]. intros H.
  apply negb_false_iff in E1. split; [done|]. split; [lia|]. split; [by intros E; rewrite E in E3|].
  assert (Hd : b_dtls b = true -> b_ufrag b <> [] /\ b_pwd b <> [] /\ exists f, b_fingerprint b = Some f).
  { intros Hd. rewrite Hd in E4. cbn [andb] in E4. apply orb_false_iff in E4 as [E4 Ep]. apply orb_false_iff in E4 as [Ef Eu].
    apply bool_decide_eq_false in Ef. split; [intros E; by rewrite E in Eu|]. split; [intros E; by rewrite E in Ep|].
    destruct (b_fingerprint b) as [f|]; [by exists f|done]. }
  destruct (0 <? len (b_crypto b)) eqn:E5.
  - destruct (b_dtls b); [done|]. destruct (MaxCrypto <? len (b_crypto b)) eqn:E6; [done|].
    destruct (first_invalid (b_crypto b)) eqn:E7; [done|]. split; [done|]. split; [lia|]. by apply first_invalid_none.
  - assert (b_crypto b = []) as -> by (destruct (b_crypto b); [done|]; rewrite len_cons in E5; pose proof (len_nonneg l); lia).
    split; [intros Hd'; split; [done|by apply Hd]|]. split; [by vm_compute|constructor].
Qed.

Lemma ice_clean n v : ice_token_ok n v -> clean v.
Proof. intros [->|[_ H]]; [constructor|]. by apply (clean_chars is_ice_char). Qed.

Lemma fp_clean f : fp_ok f -> clean (fp_hash f ++ str " " ++ fp_value f).
Proof.
  intros [Hh Hv]. rewrite !clean_app. split; [|split; [const_clean|by apply (clean_chars fp_char)]].
  eapply (in_consts clean); [exact Hh|]. by vm_compute.
Qed.

Lemma addr_char_spec c : is_alnum c || mem c (str ".:%-") = true -> c <> 10 /\ c <> 13 /\ is_space c = false.
Proof. unfold mem, is_alnum, is_digit, is_space. change (str ".:%-") with [46; 58; 37; 45]. cbn [existsb]. lia. Qed.

Lemma addr_clean b : build_ok b -> clean (addr_string (b_address b)).
Proof. intros [_ _ _ [H _] _ _ _ _ _]. eapply Forall_impl; [exact H|]. intros c Hc. apply addr_char_spec in Hc. naive_solver. Qed.

Lemma AddrType_clean a : clean (AddrType a).
Proof. unfold AddrType. case_if; const_clean. Qed.

Lemma proto_cases b : proto b = str "UDP/TLS/RTP/SAVPF" \/ proto b = str "RTP/SAVP" \/ proto b = str "RTP/AVP".
Proof. unfold proto. repeat case_if; auto. Qed.

Section BodyLines.
Context (b : Build) (dir : gostring).
Hypothesis Hok : build_ok b.
Hypothesis Hcheck : build_check b = None.
Hypothesis Hdir : dir ∈ directions.

Lemma dtls_attrs_clean : Forall attr_clean (match b_dtls b, b_fingerprint b with true, Some fp => dtls_attrs b fp | _, _ => [] end).
Proof.
  destruct (b_dtls b) eqn:Ed; [|constructor]. destruct (b_fingerprint b) as [fp|] eqn:Ef; [|constructor].
  pose proof (bo_ice b Hok Ed) as [Hu Hp]. pose proof (bo_fp b Hok fp Ed Ef) as Hf. pose proof (addr_clean b Hok) as Ha.
  apply build_check_none in Hcheck as (_ & Hport & _).
  assert (Hs : clean (b_setup b)).
  { destruct (bo_setup b Hok Ed) as [->|Hin]; [constructor|]. eapply (in_consts clean); [exact Hin|]. by vm_compute. }
  assert (Hk : forall k v, bool_decide (clean k) = true -> clean v -> attr_clean (mkAttr k v)).
  { intros k v H Hv. split; [by apply bool_decide_eq_true in H|done]. }
  unfold dtls_attrs. apply Forall_cons; split; [apply Hk; [by vm_compute|constructor]|].
  apply Forall_cons; split; [apply Hk; [by vm_compute|by eapply ice_clean]|].
  apply Forall_cons; split; [apply Hk; [by vm_compute|by eapply ice_clean]|].
  apply Forall_cons; split; [apply Hk; [by vm_compute|]|].
  { rewrite !clean_app, int_string_nonneg by lia. split_and!; [const_clean|const_clean|const_clean|done|const_clean|apply clean_itoa; lia|const_clean]. }
  apply Forall_cons; split; [apply Hk; [by vm_compute|constructor]|].
  apply Forall_cons; split; [apply Hk; [by vm_compute|by apply fp_clean]|].
  apply Forall_cons; split; [apply Hk; [by vm_compute|done]|constructor].
Qed.

Lemma audio_attrs_clean : Forall attr_clean (audio_attrs b dir).
Proof.
  unfold audio_attrs. apply Forall_app. split; [apply dtls_attrs_clean|]. apply Forall_app. split; [|apply Forall_app; split; [|]].
  - apply Forall_forall. intros a Ha. apply list_elem_of_In, in_flat_map in Ha as (c & Hc & Ha). pose proof (bo_codecs b Hok) as H.
    rewrite Forall_forall in H. specialize (H c). pose proof (codec_attrs_clean c) as H'. rewrite Forall_forall in H'.
    apply H'; [apply H|]; by apply list_elem_of_In.
  - apply build_check_none in Hcheck as (_ & _ & _ & _ & _ & Hv). pose proof (bo_keys b Hok) as Hk.
    apply Forall_forall. intros a Ha. apply list_elem_of_In, in_map_iff in Ha as (c & <- & Hc). apply list_elem_of_In in Hc.
    rewrite Forall_forall in Hv, Hk. apply crypto_attr_clean; auto.
  - constructor; [split; [|constructor]|case_if; [repeat constructor; const_clean|constructor]].
    eapply (in_consts clean); [exact Hdir|]. by vm_compute.
Qed.

Lemma formats_clean : clean (join (map (fun c => itoa (PayloadType c)) (b_codecs b)) 32).
Proof.
  apply join_chars; [done|]. apply Forall_forall. intros x Hx. apply list_elem_of_In, in_map_iff in Hx as (c & <- & Hc).
  apply list_elem_of_In in Hc. pose proof (bo_codecs b Hok) as H. rewrite Forall_forall in H. destruct (H c Hc). apply clean_itoa. lia.
Qed.

Lemma mline_clean media port pr formats : clean media -> clean port -> clean pr -> clean formats ->
  mline media port pr formats <> [] /\ clean (mline media port pr formats).
Proof. intros. split; [done|]. unfold mline. rewrite !clean_app. split_and!; try done; const_clean. Qed.

Lemma audio_lines_clean : Forall (fun l => l <> [] /\ clean l) (audio_lines b dir).
Proof.
  unfold audio_lines. constructor.
  - apply build_check_none in Hcheck as (_ & Hp & _). rewrite int_string_nonneg by lia. apply mline_clean; [const_clean|apply clean_itoa; lia| |apply formats_clean].
    destruct (proto_cases b) as [-> | [-> | ->]]; const_clean.
  - apply Forall_forall. intros l Hl. apply list_elem_of_In, in_map_iff in Hl as (a & <- & Ha). apply list_elem_of_In in Ha.
    pose proof audio_attrs_clean as H. rewrite Forall_forall in H. destruct (H a Ha). by apply attr_line_clean.
Qed.

Lemma declined_line_clean sec : section_ok sec -> declined_line sec <> [] /\ clean (declined_line sec).
Proof.
  intros [[_ Hm] Hp]. apply mline_clean; [|const_clean| |apply placeholder_clean].
  - eapply (clean_chars is_lower); [done|done|exact Hm].
  - eapply (in_consts clean); [exact Hp|]. by vm_compute.
Qed.

Lemma section_lines_clean live secs : forall i, Forall section_ok secs ->
  Forall (fun l => l <> [] /\ clean l) (concat (section_lines b dir live i secs)).
Proof.
  induction secs as [|sec secs IH]; intros i H; [constructor|]. apply Forall_cons in H as [Hs H]. cbn [section_lines concat].
  apply Forall_app. split; [|by apply IH]. case_if; [apply audio_lines_clean|]. constructor; [by apply declined_line_clean|constructor].
Qed.

Lemma head_lines_clean : Forall (fun l => l <> [] /\ clean l) (head_lines b).
Proof.
  pose proof (addr_clean b Hok) as Ha. pose proof (AddrType_clean (b_address b)) as Ht. destruct (bo_ids b Hok) as [Hi Hv].
  unfold two64 in *. unfold head_lines.
  apply Forall_cons; split; [split; [done|const_clean]|].
  apply Forall_cons; split; [split; [done|]|].
  { rewrite !clean_app. split_and!; [const_clean|apply clean_itoa; lia|const_clean|apply clean_itoa; lia|const_clean|exact Ht|const_clean|exact Ha]. }
  apply Forall_cons; split; [split; [done|const_clean]|].
  apply Forall_cons; split; [split; [done|]|].
  { rewrite !clean_app. split_and!; [const_clean|exact Ht|const_clean|exact Ha]. }
  apply Forall_cons; split; [split; [done|const_clean]|constructor].
Qed.

Lemma body_lines_clean offer : sections_ok offer ->
  Forall (fun l => l <> [] /\ clean l) (head_lines b ++ concat (body_groups b dir offer)).
Proof.
  intros Hs. apply Forall_app. split; [apply head_lines_clean|]. destruct offer as [[live secs]|]; cbn [body_groups].
  - by apply section_lines_clean.
  - cbn [concat]. rewrite app_nil_r. apply audio_lines_clean.
Qed.
End BodyLines.

Definition dir_of (b : Build) : gostring := if beq (b_direction b) [] then SendRecv else b_direction b.

Lemma dir_of_ok b : build_ok b -> dir_of b ∈ directions.
Proof.
  intros Hok. unfold dir_of. case_if; [by left|]. destruct (bo_direction b Hok) as [E|?]; [|done]. rewrite E in Heqb0. done.
Qed.

Lemma built_lines b offer body : build_ok b -> sections_ok offer -> marshal b offer = inl body ->
  lines body = head_lines b ++ concat (body_groups b (dir_of b) offer).
Proof.
  intros Hok Hs H. apply marshal_lines in H as [Hc ->]. fold (dir_of b). apply lines_cat. apply body_lines_clean; try done.
  by apply dir_of_ok.
Qed.

(** no field can add a line to a body the proxy writes.  Read by a
    reader so lenient that it takes a bare carriage return or line feed for a
    line end, the body of a Build made of parsed codecs, credentials and
    sections is exactly the lines that were written: five at the session
    level, then each m= section. *)
Theorem no_line_injected b offer body : build_ok b -> sections_ok offer -> marshal b offer = inl body ->
  lines body = head_lines b ++ concat (body_groups b (dir_of b) offer).
Proof. apply built_lines. Qed.

(** ** Reading the lines back *)

Lemma cut_prefix_attr_m a : cut_prefix (attr_line a) (str "m=") = None.
Proof. done. Qed.

Lemma read_attrs attrs r : foldr read_line r (map attr_line attrs) = (map attr_line attrs ++ r.1, r.2).
Proof.
  induction attrs as [|a attrs IH]; cbn [map foldr]; [by destruct r|]. rewrite IH. unfold read_line at 1. by rewrite cut_prefix_attr_m.
Qed.

Lemma attr_of_attr_line a : 58 ∉ at_key a -> attr_of_line (attr_line a) = Some a.
Proof.
  intros Hk. unfold attr_of_line, attr_line. rewrite cut_prefix_app. destruct a as [k v]. cbn [at_key at_value] in *.
  destruct (negb (beq v [])) eqn:E.
  - change (str ":" ++ v) with (58 :: v). by rewrite cut_app.
  - rewrite app_nil_r, cut_none by done. apply negb_false_iff, beq_eq in E. by subst v.
Qed.

Lemma attrs_read_back attrs : Forall (fun a => 58 ∉ at_key a) attrs -> omap attr_of_line (map attr_line attrs) = attrs.
Proof.
  induction attrs as [|a attrs IH]; intros H; [done|]. apply Forall_cons in H as [Ha H]. cbn [map omap list_omap].
  by rewrite attr_of_attr_line, IH.
Qed.

Lemma attrs_no_conn attrs : omap conn_of_line (map attr_line attrs) = [].
Proof.
  induction attrs as [|a attrs IH]; [done|]. cbn [map omap list_omap]. by replace (conn_of_line (attr_line a)) with (@None (option gostring)) by done.
Qed.

Lemma split_mline media port pr formats : 32 ∉ media -> 32 ∉ port -> 32 ∉ pr ->
  split (media ++ str " " ++ port ++ str " " ++ pr ++ str " " ++ formats) 32 = media :: port :: pr :: split formats 32.
Proof.
  intros H1 H2 H3.
  change (split (media ++ 32 :: port ++ 32 :: pr ++ 32 :: formats) 32 = media :: port :: pr :: split formats 32).
  by rewrite !split_app.
Qed.

Lemma read_group media port pr formats attrs ms :
  32 ∉ media -> 32 ∉ port -> 32 ∉ pr -> Forall (fun f => 32 ∉ f) formats -> formats <> [] ->
  Forall (fun a => 58 ∉ at_key a) attrs ->
  foldr read_line ([], ms) (mline media port pr (join formats 32) :: map attr_line attrs) =
  ([], mkMedia media (default 0 (atoi port)) (split pr 47) formats None attrs :: ms).
Proof.
  intros H1 H2 H3 Hf Hne Ha. cbn [foldr]. rewrite read_attrs. unfold read_line, mline. rewrite cut_prefix_app. cbn [fst snd].
  unfold media_of, parse_mline. rewrite split_mline, split_join by done. rewrite app_nil_r, attrs_no_conn, attrs_read_back by done. done.
Qed.

Lemma word_no_space w : word w -> 32 ∉ w.
Proof. intros [_ H] Hin. eapply Forall_forall in H; [|exact Hin]. done. Qed.

Lemma no_space_const (w : gostring) : bool_decide (32 ∉ w) = true -> 32 ∉ w.
Proof. by apply bool_decide_eq_true. Qed.

Section Reading.
Context (b : Build) (dir : gostring).
Hypothesis Hok : build_ok b.
Hypothesis Hcheck : build_check b = None.
Hypothesis Hdir : dir ∈ directions.

Definition audio_media : MediaDescription :=
  mkMedia (str "audio") (b_port b) (split (proto b) 47) (map (fun c => itoa (PayloadType c)) (b_codecs b)) None (audio_attrs b dir).

Definition declined_media (sec : Section_) : MediaDescription :=
  mkMedia (sec_media sec) 0 (split (join (sec_proto sec) 47) 47) [placeholderFormat (sec_proto sec)] None [].

Lemma audio_attr_keys : Forall (fun a => at_key a ∈ [str "ice-lite"; str "ice-ufrag"; str "ice-pwd"; str "candidate";
    str "end-of-candidates"; str "fingerprint"; str "setup"; str "rtpmap"; str "fmtp"; str "crypto"; str "rtcp-mux"] ++ directions)
  (audio_attrs b dir).
Proof.
  assert (K : forall k l, bool_decide (k ∈ l) = true -> k ∈ (l : list gostring)) by (intros k l; apply bool_decide_eq_true).
  unfold audio_attrs. rewrite !Forall_app. split_and!.
  - destruct (b_dtls b); [|constructor]. destruct (b_fingerprint b) as [fp|]; [|constructor].
    unfold dtls_attrs. repeat (apply Forall_cons; split; [apply K; vm_compute; reflexivity|]). constructor.
  - apply Forall_forall. intros a Ha. apply list_elem_of_In, in_flat_map in Ha as (c & _ & Ha). unfold codec_attrs in Ha.
    destruct Ha as [<-|Ha]; [apply K; vm_compute; reflexivity|]. destruct (negb _); [|done].
    destruct Ha as [<-|[]]. apply K. vm_compute. reflexivity.
  - apply Forall_forall. intros a Ha. apply list_elem_of_In, in_map_iff in Ha as (c & <- & _). apply K. vm_compute. reflexivity.
  - constructor; [|constructor]. cbn [at_key]. apply elem_of_app. by right.
  - case_if; [|constructor]. constructor; [|constructor]. apply K. vm_compute. reflexivity.
Qed.

Lemma audio_keys_colon : Forall (fun a => 58 ∉ at_key a) (audio_attrs b dir).
Proof.
  eapply Forall_impl; [apply audio_attr_keys|]. cbn beta. intros a Ha. eapply (in_consts (fun k => 58 ∉ k)); [exact Ha|].
  vm_compute. reflexivity.
Qed.

Lemma formats_words : Forall word (map (fun c => itoa (PayloadType c)) (b_codecs b)).
Proof.
  apply Forall_forall. intros x Hx. apply list_elem_of_In, in_map_iff in Hx as (c & <- & Hc). apply list_elem_of_In in Hc.
  pose proof (bo_codecs b Hok) as H. rewrite Forall_forall in H. destruct (H c Hc). apply itoa_word. lia.
Qed.

Lemma read_audio ms : foldr read_line ([], ms) (audio_lines b dir) = ([], audio_media :: ms).
Proof.
  pose proof (build_check_none b Hcheck) as (_ & Hp & Hne & _). unfold audio_lines. rewrite read_group.
  - unfold audio_media. rewrite int_string_nonneg, atoi_itoa by (unfold max_int64, two63; lia). done.
  - by apply no_space_const.
  - rewrite int_string_nonneg by lia. apply word_no_space, itoa_word. lia.
  - destruct (proto_cases b) as [-> | [-> | ->]]; apply no_space_const; vm_compute; reflexivity.
  - eapply Forall_impl; [apply formats_words|]. apply word_no_space.
  - by destruct (b_codecs b).
  - apply audio_keys_colon.
Qed.

Lemma read_declined sec ms : section_ok sec -> foldr read_line ([], ms) [declined_line sec] = ([], declined_media sec :: ms).
Proof.
  intros [[_ Hm] Hp]. unfold declined_line.
  change [mline ?a ?b ?c ?d] with (mline a b c (join [d] 32) :: map attr_line []). rewrite read_group; [done| | | | |done|constructor].
  - eapply not_in_chars; [|exact Hm]. done.
  - by apply no_space_const.
  - eapply (in_consts (fun p => 32 ∉ p)); [exact Hp|]. vm_compute. reflexivity.
  - constructor; [|constructor]. unfold placeholderFormat. repeat case_if; apply no_space_const; vm_compute; reflexivity.
Qed.

Fixpoint section_media (live i : Z) (secs : list Section_) : list MediaDescription :=
  match secs with
  | [] => []
  | sec :: secs => (if i =? live then audio_media else declined_media sec) :: section_media live (i + 1) secs
  end.

Definition media_list (offer : option (Z * list Section_)) : list MediaDescription :=
  match offer with None => [audio_media] | Some (live, secs) => section_media live 0 secs end.

Lemma read_sections live secs : forall i, Forall section_ok secs ->
  foldr read_line ([], []) (concat (section_lines b dir live i secs)) = ([], section_media live i secs).
Proof.
  induction secs as [|sec secs IH]; intros i H; [done|]. apply Forall_cons in H as [Hs H]. cbn [section_lines concat section_media].
  rewrite foldr_app, IH by done. case_if; [apply read_audio|by apply read_declined].
Qed.

Lemma read_head ms : foldr read_line ([], ms) (head_lines b) = (head_lines b, ms).
Proof. reflexivity. Qed.

Lemma head_conn : word (addr_string (b_address b)) -> omap conn_of_line (head_lines b) = [Some (addr_string (b_address b))].
Proof.
  intros Ha. unfold head_lines. cbn [omap list_omap].
  replace (conn_of_line (str "c=IN " ++ AddrType (b_address b) ++ str " " ++ addr_string (b_address b)))
    with (Some (Some (addr_string (b_address b)))); [reflexivity|].
  unfold conn_of_line. change (str "c=IN " ++ ?x) with (str "c=" ++ str "IN" ++ 32 :: x). rewrite cut_prefix_app. f_equal.
  change (str " " ++ ?x) with (32 :: x). destruct Ha as [Hne Hw].
  rewrite fields_word by (done || (apply (bool_decide_unpack _); vm_compute; exact I)).
  rewrite fields_word; [|by unfold AddrType; case_if|by unfold AddrType; case_if; apply (bool_decide_unpack _); vm_compute; exact I].
  by rewrite fields_last.
Qed.

Lemma head_attrs : omap attr_of_line (head_lines b) = [].
Proof. reflexivity. Qed.
End Reading.

Lemma addr_word b : build_ok b -> word (addr_string (b_address b)).
Proof. intros [_ _ _ [H Hne] _ _ _ _ _]. split; [done|]. eapply Forall_impl; [exact H|]. intros c Hc. by apply addr_char_spec in Hc as (_ & _ & ?). Qed.

Lemma read_body b offer body : build_ok b -> sections_ok offer -> marshal b offer = inl body ->
  read_sdp body = mkDesc (Some (Some (addr_string (b_address b)))) [] (media_list b (dir_of b) offer).
Proof.
  intros Hok Hs H. pose proof (marshal_lines _ _ _ H) as [Hc _]. unfold read_sdp. rewrite (built_lines b offer body) by done.
  unfold read_lines. rewrite foldr_app.
  assert (E : foldr read_line ([], []) (concat (body_groups b (dir_of b) offer)) = ([], media_list b (dir_of b) offer)).
  { destruct offer as [[live secs]|]; cbn [body_groups media_list].
    - apply read_sections; try done. by apply dir_of_ok.
    - cbn [concat]. rewrite app_nil_r. apply read_audio; try done. by apply dir_of_ok. }
  rewrite E, read_head. by rewrite head_conn, head_attrs by by apply addr_word.
Qed.

(** ** Parsing what was read *)

Lemma trim_ends s x s1 s2 y : s = x :: s1 -> s = s2 ++ [y] -> is_space x = false -> is_space y = false -> trim_space s = s.
Proof.
  intros E1 E2 Hx Hy. unfold trim_space, trim_right. rewrite (trim_left_id is_space s) by by rewrite E1.
  rewrite trim_left_id; [apply rev_involutive|]. by rewrite E2, rev_app_distr.
Qed.

Lemma trim_words u w : word u -> word w -> trim_space (u ++ 32 :: w) = u ++ 32 :: w.
Proof.
  intros [Hu Hus] [Hw Hws]. destruct u as [|x u]; [done|]. destruct (exists_last Hw) as (w' & y & ->).
  eapply (trim_ends _ x _ ((x :: u) ++ 32 :: w') y); [done|by rewrite <- app_assoc| |].
  - by apply Forall_cons in Hus as [Hx _].
  - apply Forall_app in Hws as [_ Hy]. by apply Forall_cons in Hy as [Hy _].
Qed.

Lemma splitPayload_words pt w : 0 <= pt <= 127 -> word w -> splitPayload (itoa pt ++ 32 :: w) = Some (pt, w).
Proof.
  intros Hp Hw. assert (Hi : word (itoa pt)) by (apply itoa_word; lia). unfold splitPayload. rewrite trim_words by done.
  rewrite cut_app by by apply word_no_space. cbn [negb]. rewrite parse_uint_itoa by lia.
  replace (127 <? pt) with false by lia. by rewrite trim_space_id by apply Hw.
Qed.

Lemma payload_map_app key l : forall k m, payload_map key (l ++ k) m = payload_map key k (payload_map key l m).
Proof. induction l as [|a l IH]; intros k m; [done|]. cbn [app payload_map]. apply IH. Qed.

Lemma payload_map_other key l : forall m, Forall (fun a => at_key a <> key) l -> payload_map key l m = m.
Proof.
  induction l as [|a l IH]; intros m H; [done|]. apply Forall_cons in H as [Ha H]. cbn [payload_map].
  replace (beq (at_key a) key) with false by (symmetry; by apply bool_decide_eq_false_2). by apply IH.
Qed.

(** The maps the attribute lines of the codecs build. *)
Lemma payload_maps cs : Forall codec_wf cs -> NoDup (map PayloadType cs) -> forall m f,
  Forall (fun c => f !! PayloadType c = None) cs ->
  (forall pt, pt ∉ map PayloadType cs -> payload_map (str "rtpmap") (flat_map codec_attrs cs) m !! pt = m !! pt /\
                                          payload_map (str "fmtp") (flat_map codec_attrs cs) f !! pt = f !! pt) /\
  Forall (fun c => payload_map (str "rtpmap") (flat_map codec_attrs cs) m !! PayloadType c = Some (rtpmap_text c) /\
                   default [] (payload_map (str "fmtp") (flat_map codec_attrs cs) f !! PayloadType c) = FMTP c) cs.
Proof.
  induction cs as [|c cs IH]; intros Hw Hn m f Hf; [split; [by split|constructor]|].
  apply Forall_cons in Hw as [Hc Hw]. cbn [map] in Hn. apply NoDup_cons in Hn as [Hcn Hn]. apply Forall_cons in Hf as [Hcf Hf].
  cbn [flat_map]. rewrite !payload_map_app. rewrite codec_attrs_wf by done.
  assert (Hp : 0 <= PayloadType c <= 127) by apply Hc.
  set (fl := if negb (beq (FMTP c) []) then [mkAttr (str "fmtp") (itoa (PayloadType c) ++ 32 :: FMTP c)] else []).
  assert (Er : payload_map (str "rtpmap") (mkAttr (str "rtpmap") (itoa (PayloadType c) ++ 32 :: rtpmap_text c) :: fl) m =
               <[PayloadType c := rtpmap_text c]> m).
  { cbn [payload_map at_key at_value]. rewrite beq_refl, splitPayload_words by (done || by apply rtpmap_word).
    apply payload_map_other. unfold fl. case_if; repeat constructor. done. }
  assert (Ef : exists f', payload_map (str "fmtp") (mkAttr (str "rtpmap") (itoa (PayloadType c) ++ 32 :: rtpmap_text c) :: fl) f = f' /\
               default [] (f' !! PayloadType c) = FMTP c /\ forall pt, pt <> PayloadType c -> f' !! pt = f !! pt).
  { eexists. split; [reflexivity|]. cbn [payload_map at_key at_value]. change (beq (str "rtpmap") (str "fmtp")) with false. cbv iota.
    unfold fl. destruct (negb (beq (FMTP c) [])) eqn:E.
    - apply beq_nil_false in E. cbn [payload_map at_key at_value]. rewrite beq_refl, splitPayload_words by (done || by apply fmtp_word).
      split; [by rewrite lookup_insert_eq|]. intros pt Hpt. by rewrite lookup_insert_ne.
    - cbn [payload_map]. apply negb_false_iff, beq_eq in E. rewrite Hcf, E. by split. }
  destruct Ef as (f' & Ef & Ed & Eo). rewrite Er, Ef.
  destruct (IH Hw Hn (<[PayloadType c := rtpmap_text c]> m) f') as [I1 I2].
  { apply Forall_forall. intros d Hd. rewrite Forall_forall in Hf. rewrite Eo; [by apply Hf|]. intros E. apply Hcn. rewrite <- E.
    apply list_elem_of_In, in_map. by apply list_elem_of_In. }
  split.
  - intros pt Hpt. cbn [map] in Hpt. apply not_elem_of_cons in Hpt as [Hne Hpt]. destruct (I1 pt Hpt) as [-> ->].
    rewrite lookup_insert_ne by done. split; [done|by apply Eo].
  - constructor; [|done]. destruct (I1 (PayloadType c) Hcn) as [-> ->]. by rewrite lookup_insert_eq.
Qed.

Lemma parseRTPMap_text c : codec_wf c -> parseRTPMap (rtpmap_text c) = Some (Name c, ClockRate c, Channels c).
Proof.
  intros Hw. rewrite rtpmap_text_spec by done. destruct Hw as [_ Hn Hr Hc _ _]. pose proof (validName_spec _ Hn) as [_ Hnc].
  assert (Hno : 47 ∉ Name c) by (intros Hin; eapply Forall_forall in Hnc; [|exact Hin]; done).
  assert (Hd : forall n, 0 <= n < 10 ^ 64 -> 47 ∉ itoa n).
  { intros n Hb Hin. destruct (itoa_spec n Hb) as (_ & Hd & _). rewrite forallb_forall in Hd. apply list_elem_of_In, Hd in Hin. done. }
  assert (Ht : trim_space (Name c) = Name c).
  { apply trim_space_id. eapply Forall_impl; [exact Hnc|]. intros x Hx. by apply name_char_spec in Hx as (_ & _ & _ & ?). }
  assert (Hti : forall n, 0 <= n < 10 ^ 64 -> trim_space (itoa n) = itoa n) by (intros n Hb; apply trim_space_id, itoa_no_space, Hb).
  assert (Hsp : split (Name c ++ 47 :: itoa (ClockRate c) ++ (if 1 <? Channels c then 47 :: itoa (Channels c) else [])) 47 =
    Name c :: itoa (ClockRate c) :: (if 1 <? Channels c then [itoa (Channels c)] else [])).
  { rewrite split_app by done. case_if.
    - rewrite split_app by (apply Hd; lia). by rewrite (split_none (itoa (Channels c))) by (apply Hd; lia).
    - by rewrite app_nil_r, split_none by (apply Hd; lia). }
  unfold parseRTPMap. cbv zeta. rewrite Hsp. cbn [nth]. rewrite Ht, Hn, !Hti by lia. cbn [negb]. rewrite parse_uint_itoa by lia.
  replace (ClockRate c =? 0) with false by lia. destruct (1 <? Channels c) eqn:E.
  - change ((len [Name c; itoa (ClockRate c); itoa (Channels c)] <? 2) || (3 <? len [Name c; itoa (ClockRate c); itoa (Channels c)])) with false.
    change (len [Name c; itoa (ClockRate c); itoa (Channels c)] =? 3) with true. cbn [nth].
    rewrite Hti by lia. rewrite atoi_itoa by (unfold max_int64, two63; lia). by replace ((Channels c <? 1) || (8 <? Channels c)) with false by lia.
  - change ((len [Name c; itoa (ClockRate c)] <? 2) || (3 <? len [Name c; itoa (ClockRate c)])) with false.
    change (len [Name c; itoa (ClockRate c)] =? 3) with false. do 2 f_equal. lia.
Qed.

Lemma codecs_from_back rtpmap fmtp cs : forall seen, Forall codec_wf cs -> NoDup (map PayloadType cs) ->
  Forall (fun c => rtpmap !! PayloadType c = Some (rtpmap_text c) /\ default [] (fmtp !! PayloadType c) = FMTP c) cs ->
  Forall (fun c => PayloadType c ∉ (seen : gset Z)) cs ->
  codecs_from rtpmap fmtp (map (fun c => itoa (PayloadType c)) cs) seen = inl cs.
Proof.
  induction cs as [|c cs IH]; intros seen Hw Hn Hm Hs; [done|].
  apply Forall_cons in Hw as [Hc Hw]. cbn [map] in Hn |- *. apply NoDup_cons in Hn as [Hcn Hn].
  apply Forall_cons in Hm as [[Hr Hf] Hm]. apply Forall_cons in Hs as [Hcs Hs]. cbn [codecs_from].
  pose proof (cw_pt c Hc) as Hp. destruct (itoa_word (PayloadType c)) as [Hne Hsp]; [lia|]. rewrite trim_space_id by done.
  destruct (itoa_spec (PayloadType c)) as (_ & Hd & _); [lia|]. rewrite bool_decide_eq_false_2, Hd by done. cbn [orb negb].
  rewrite parse_uint_itoa by lia. rewrite bool_decide_eq_false_2 by done. replace (127 <? PayloadType c) with false by lia. cbn [orb].
  assert (Hs' : Forall (fun d => PayloadType d ∉ {[PayloadType c]} ∪ seen) cs).
  { apply Forall_forall. intros d Hd'. rewrite Forall_forall in Hs. rewrite elem_of_union, elem_of_singleton.
    intros [E|E]; [|by eapply Hs]. apply Hcn. rewrite <- E. apply list_elem_of_In, in_map. by apply list_elem_of_In. }
  rewrite Hr, parseRTPMap_text, IH by done.
  rewrite Hf, (cw_fmtp c Hc). by destruct c.
Qed.

Lemma apply_attr_other x a :
  at_key a ∉ directions ++ [str "ice-ufrag"; str "ice-pwd"; str "rtcp-mux"; str "setup"; str "fingerprint"; str "rtcp"] ->
  apply_attr x a = x.
Proof.
  intros H. apply not_elem_of_app in H as [Hd H]. rewrite !not_elem_of_cons in H. destruct H as (H1 & H2 & H3 & H4 & H5 & H6 & _).
  unfold apply_attr. destruct x as [d u p m st f r]. cbv zeta. fold directions.
  assert (E : existsb (beq (at_key a)) directions = false).
  { apply not_true_iff_false. intros E. by apply existsb_beq in E. }
  assert (B : forall k, at_key a <> k -> beq (at_key a) k = false) by (intros k Hk; by apply bool_decide_eq_false_2).
  by rewrite E, !B by done.
Qed.

Lemma fold_other l : forall x,
  Forall (fun a => at_key a ∉ directions ++ [str "ice-ufrag"; str "ice-pwd"; str "rtcp-mux"; str "setup"; str "fingerprint"; str "rtcp"]) l ->
  fold_left apply_attr l x = x.
Proof.
  induction l as [|a l IH]; intros x H; [done|]. apply Forall_cons in H as [Ha H]. cbn [fold_left]. rewrite apply_attr_other by done. by apply IH.
Qed.

Lemma sanitize_id v n : ice_token_ok n v -> v <> [] -> sanitizeICEToken (trim_space v) n = v.
Proof.
  intros [|[Hl Hc]] Hne; [done|]. rewrite trim_space_id.
  - unfold sanitizeICEToken. replace ((len v <? n) || (maxICEToken <? len v)) with false by lia.
    assert (forallb is_ice_char v = true) as ->; [|done]. apply forallb_forall. intros c Hin. rewrite Forall_forall in Hc.
    apply Hc. by apply list_elem_of_In.
  - eapply Forall_impl; [exact Hc|]. cbn beta. intros c. unfold is_ice_char, mem, is_alnum, is_digit, is_space.
    change (str "+/-_") with [43; 47; 45; 95]. cbn [existsb]. lia.
Qed.

(** The text of a fingerprint reads back. *)
Definition fp_reads (f : Fingerprint) : Prop := parseFingerprint (trim_space (fp_hash f ++ str " " ++ fp_value f)) = Some f.

(** A fingerprint as it is written: one of the three hashes, its value so many
    pairs of upper-case hexadecimal digits between colons. *)
Definition upper_hex (c : Z) : bool := is_digit c || ((65 <=? c) && (c <=? 70)).
Definition fp_written (f : Fingerprint) : Prop := exists pairs,
  fp_value f = join pairs 58 /\ Forall (fun p => len p = 2 /\ forallb upper_hex p = true) pairs /\
  (fp_hash f, len pairs) ∈ [(str "sha-256", 32); (str "sha-384", 48); (str "sha-512", 64)].

Lemma upper_hex_byte c : upper_hex c = true -> is_space c = false /\ upper_byte c = c /\ c <> 58 /\
  (is_digit c || ((97 <=? c) && (c <=? 102)) || ((65 <=? c) && (c <=? 70))) = true.
Proof. unfold upper_hex, is_space, upper_byte, is_digit. intros H. split_and!; [lia| |lia|lia]. by replace ((97 <=? c) && (c <=? 122)) with false by lia. Qed.

Lemma fp_written_reads f : fp_written f -> fp_reads f.
Proof.
  intros (pairs & Ev & Hp & Hh). destruct f as [hash value]. cbn [fp_hash fp_value] in *. subst value.
  assert (Hc : Forall (fun p => Forall (fun c => upper_hex c = true) p) pairs).
  { eapply Forall_impl; [exact Hp|]. intros p [_ H]. rewrite forallb_forall in H. apply Forall_forall. intros c Hin. apply H. by apply list_elem_of_In. }
  set (v := join pairs 58) in *. assert (Hv : Forall (fun c => upper_hex c = true \/ c = 58) v).
  { apply join_chars; [by right|]. eapply Forall_impl; [exact Hc|]. intros p H. eapply Forall_impl; [exact H|]. auto. }
  assert (Hs : Forall (fun c => is_space c = false) v) by (eapply Forall_impl; [exact Hv|]; intros c [H| ->]; [apply (upper_hex_byte c H)|done]).
  assert (Hu : to_upper v = v).
  { unfold to_upper. rewrite <- (map_id v) at 2. apply map_ext_in. intros c Hin. rewrite Forall_forall in Hv.
    destruct (Hv c ltac:(by apply list_elem_of_In)) as [H| ->]; [apply (upper_hex_byte c H)|done]. }
  assert (Hn : pairs <> []).
  { intros ->. rewrite !elem_of_cons in Hh. by destruct Hh as [[= _ E]|[[= _ E]|[[= _ E]|H%elem_of_nil]]]. }
  assert (Hsp : split v 58 = pairs).
  { apply split_join; [done|]. eapply Forall_impl; [exact Hc|]. intros p H Hin. rewrite Forall_forall in H. by destruct (upper_hex_byte 58 (H 58 Hin)) as (_ & _ & ? & _). }
  assert (Hw : word v).
  { split; [|exact Hs]. intros E. rewrite E in Hsp. cbn in Hsp. subst pairs. apply Forall_cons in Hp as [[Hl _] _]. done. }
  assert (Hb : forallb (fun p => (len p =? 2) && isHexByte p) pairs = true).
  { apply forallb_forall. intros p Hin. rewrite Forall_forall in Hp. destruct (Hp p ltac:(by apply list_elem_of_In)) as [-> H]. cbn [andb Z.eqb Pos.eqb].
    unfold isHexByte. rewrite forallb_forall in *. intros c Hcin. apply upper_hex_byte, H, Hcin. }
  unfold fp_reads. cbn [fp_hash fp_value]. assert (Hh' : word hash /\ 32 ∉ hash /\ to_lower hash = hash).
  { assert (hash ∈ [str "sha-256"; str "sha-384"; str "sha-512"]) as Hin.
    { rewrite !elem_of_cons in Hh. rewrite !elem_of_cons. destruct Hh as [[= -> _]|[[= -> _]|[[= -> _]|H]]]; [by left|by right; left|by right; right; left|by apply elem_of_nil in H]. }
    revert hash Hh Hin. intros h _. rewrite !elem_of_cons. intros [->|[->|[->|H]]]; [..|by apply elem_of_nil in H];
      (split; [split; [done|apply (bool_decide_unpack _); vm_compute; exact I]|split; [apply (bool_decide_unpack _); vm_compute; exact I|done]]). }
  destruct Hh' as (Hhw & Hhs & Hhl). change (str " " ++ v) with (32 :: v). rewrite trim_words by done. unfold parseFingerprint. rewrite trim_words, cut_app by done.
  cbn [negb]. rewrite (trim_space_id hash) by apply Hhw. rewrite (trim_space_id v) by done. rewrite Hhl, Hsp, Hb, Hu.
  rewrite !elem_of_cons in Hh. destruct Hh as [[= -> E]|[[= -> E]|[[= -> E]|H]]]; [..|by apply elem_of_nil in H]; rewrite E; reflexivity.
Qed.

Section ApplyKeys.
Context (d u p st : gostring) (m : bool) (f : option Fingerprint) (r : Z) (v : gostring).
Let x := mkAcc d u p m st f r.

Lemma apply_ufrag : apply_attr x (mkAttr (str "ice-ufrag") v) = mkAcc d (sanitizeICEToken (trim_space v) minICEUfrag) p m st f r.
Proof. reflexivity. Qed.
Lemma apply_pwd : apply_attr x (mkAttr (str "ice-pwd") v) = mkAcc d u (sanitizeICEToken (trim_space v) minICEPwd) m st f r.
Proof. reflexivity. Qed.
Lemma apply_mux : apply_attr x (mkAttr (str "rtcp-mux") v) = mkAcc d u p true st f r.
Proof. reflexivity. Qed.
Lemma apply_fp : apply_attr x (mkAttr (str "fingerprint") v) =
  match parseFingerprint (trim_space v) with Some fp => mkAcc d u p m st (Some fp) r | None => x end.
Proof. reflexivity. Qed.
Lemma apply_setup : st = [] -> v = [] \/ v ∈ setups -> apply_attr x (mkAttr (str "setup") v) = mkAcc d u p m v f r.
Proof.
  intros -> [->|Hv]; [reflexivity|]. unfold setups in Hv. rewrite !elem_of_cons, elem_of_nil in Hv.
  destruct Hv as [->|[->|[->|[->|[]]]]]; reflexivity.
Qed.
Lemma apply_direction dir : dir ∈ directions -> apply_attr x (mkAttr dir v) = mkAcc dir u p m st f r.
Proof.
  intros Hv. unfold directions in Hv. rewrite !elem_of_cons, elem_of_nil in Hv.
  destruct Hv as [->|[->|[->|[->|[]]]]]; reflexivity.
Qed.
End ApplyKeys.

Definition dtls_acc (b : Build) : attrs_acc :=
  if b_dtls b then mkAcc SendRecv (b_ufrag b) (b_pwd b) false (b_setup b) (b_fingerprint b) 0
  else mkAcc SendRecv [] [] false [] None 0.

Lemma fold_dtls b : build_ok b -> build_check b = None -> (forall f, b_dtls b = true -> b_fingerprint b = Some f -> fp_reads f) ->
  fold_left apply_attr (match b_dtls b, b_fingerprint b with true, Some fp => dtls_attrs b fp | _, _ => [] end)
    (mkAcc SendRecv [] [] false [] None 0) = dtls_acc b.
Proof.
  intros Hok Hc Hf. unfold dtls_acc. destruct (b_dtls b) eqn:Ed; [|done].
  apply build_check_none in Hc as (_ & _ & _ & Hd & _). destruct (Hd Ed) as (_ & Hu & Hp & f & Ef). rewrite Ef.
  destruct (bo_ice b Hok Ed) as [Hui Hpi]. specialize (Hf f eq_refl Ef). unfold fp_reads in Hf. unfold dtls_attrs. cbn [fold_left].
  assert (Ho : forall x k v, bool_decide (k ∉ directions ++ [str "ice-ufrag"; str "ice-pwd"; str "rtcp-mux"; str "setup"; str "fingerprint"; str "rtcp"]) = true ->
    apply_attr x (mkAttr k v) = x).
  { intros x k v Hk. apply apply_attr_other. by apply bool_decide_eq_true in Hk. }
  rewrite (Ho _ (str "ice-lite")) by (vm_compute; reflexivity).
  rewrite apply_ufrag, sanitize_id, apply_pwd, sanitize_id by done.
  rewrite (Ho _ (str "candidate")) by (vm_compute; reflexivity).
  rewrite (Ho _ (str "end-of-candidates")) by (vm_compute; reflexivity).
  rewrite apply_fp, Hf. apply apply_setup; [done|]. by apply bo_setup.
Qed.

(** The attributes of the live section, applied. *)
Lemma parse_audio_attrs b dir : build_ok b -> build_check b = None -> (forall f, b_dtls b = true -> b_fingerprint b = Some f -> fp_reads f) ->
  dir ∈ directions ->
  fold_left apply_attr (audio_attrs b dir) (mkAcc SendRecv [] [] false [] None 0) =
  let x := dtls_acc b in mkAcc dir (x_ufrag x) (x_pwd x) (b_rtcpmux b) (x_setup x) (x_fp x) 0.
Proof.
  intros Hok Hc Hf Hdir. unfold audio_attrs. rewrite !fold_left_app, fold_dtls by done.
  assert (K : forall k, bool_decide (k ∉ directions ++ [str "ice-ufrag"; str "ice-pwd"; str "rtcp-mux"; str "setup"; str "fingerprint"; str "rtcp"]) = true ->
    k ∉ directions ++ [str "ice-ufrag"; str "ice-pwd"; str "rtcp-mux"; str "setup"; str "fingerprint"; str "rtcp"]) by (intros k; apply bool_decide_eq_true).
  rewrite (fold_other (flat_map codec_attrs (b_codecs b))).
  2:{ apply Forall_forall. intros a Ha. apply list_elem_of_In, in_flat_map in Ha as (c & _ & Ha). unfold codec_attrs in Ha.
      destruct Ha as [<-|Ha]; [apply K; vm_compute; reflexivity|]. destruct (negb _); [|done].
      destruct Ha as [<-|[]]. apply K. vm_compute. reflexivity. }
  rewrite (fold_other (map crypto_attr (b_crypto b))).
  2:{ apply Forall_forall. intros a Ha. apply list_elem_of_In, in_map_iff in Ha as (c & <- & _). apply K. vm_compute. reflexivity. }
  cbn [fold_left]. unfold dtls_acc. cbv zeta. destruct (b_dtls b); rewrite apply_direction by done; destruct (b_rtcpmux b); reflexivity.
Qed.

Lemma crypto_attrs_back cs : forall (seen : gset Z) n, Forall (fun c => Validate c = None) cs -> Forall (fun c => bytes_ok (Key c ++ Salt c)) cs ->
  NoDup (map Tag cs) -> Forall (fun c => Tag c ∉ seen) cs -> n + len cs <= MaxCrypto ->
  crypto_attrs (map Value cs) seen n = cs.
Proof.
  induction cs as [|c cs IH]; intros seen n Hv Hb Hn Hs Hl; [done|].
  apply Forall_cons in Hv as [Hcv Hv]. apply Forall_cons in Hb as [Hcb Hb]. cbn [map] in Hn |- *. apply NoDup_cons in Hn as [Hcn Hn].
  apply Forall_cons in Hs as [Hcs Hs]. rewrite len_cons in Hl. pose proof (len_nonneg cs). cbn [crypto_attrs].
  rewrite ParseCrypto_Value_aux by done. rewrite bool_decide_eq_false_2 by done. f_equal.
  destruct (n + 1 =? MaxCrypto) eqn:E; [destruct cs as [|c' cs']; [done|rewrite len_cons in *; pose proof (len_nonneg cs'); lia]|]. apply IH; try done; [|lia].
  apply Forall_forall. intros d Hd. rewrite Forall_forall in Hs. rewrite elem_of_union, elem_of_singleton.
  intros [E'|E']; [|by eapply Hs]. apply Hcn. rewrite <- E'. apply list_elem_of_In, in_map. by apply list_elem_of_In.
Qed.

(** ** What is built is what is parsed *)

(** An IPv4 address, or an IPv6 one without a zone that is no mapped one. *)
Definition plain_addr (a : Addr) : Prop :=
  match a with
  | V4 n => 0 <= n < 2 ^ 32
  | V6 n z => z = [] /\ 0 <= n < 2 ^ 128 /\ is4in6 a = false
  | AddrZero => False
  end.

Lemma plain_addr_reads a : plain_addr a -> parse_addr (addr_string a) = Some a /\ unmap a = a.
Proof.
  destruct a as [|n|n z]; [done| |].
  - intros H. split; [by apply ipv4_text_reads|done].
  - intros (-> & H & H4). split; [by apply ipv6_text_reads|by apply unmap_fix].
Qed.

(** The conditions under which a body is one the proxy would accept itself:
    those of Parse on an address, and its caps on codecs and attributes. *)
Record reads_ok (b : Build) (offer : option (Z * list Section_)) : Prop := {
  ro_addr : plain_addr (b_address b);
  ro_unicast : is_unspecified (b_address b) = false /\ is_multicast (b_address b) = false /\
               is_link_local_unicast (b_address b) = false /\ b_address b <> ip4 255 255 255 255;
  ro_fp f : b_dtls b = true -> b_fingerprint b = Some f -> fp_written f;
  ro_codecs : len (b_codecs b) <= MaxCodecs /\ len (audio_attrs b (dir_of b)) <= MaxAttributes;
  ro_tags : NoDup (map Tag (b_crypto b));
  ro_offer : match offer with None => True | Some (live, secs) => 0 <= live < len secs /\ len secs <= MaxMediaDescriptions end
}.

(** What the peer's Parse should make of a Build. *)
Definition built_audio (b : Build) : Audio :=
  let x := dtls_acc b in
  mkAudio (b_port b) (split (proto b) 47) (b_address b) false (b_codecs b) (dir_of b) 0 (b_rtcpmux b)
    (x_ufrag x) (x_pwd x) (x_fp x) (x_setup x) (b_crypto b).

Definition live_index (offer : option (Z * list Section_)) : Z := match offer with None => 0 | Some (live, _) => live end.
Definition section_count (offer : option (Z * list Section_)) : Z := match offer with None => 1 | Some (_, secs) => len secs end.

Lemma flat_map_len_le {A B} (f : A -> list B) k l : (forall x, (length (f x) <= k)%nat) -> (length (flat_map f l) <= k * length l)%nat.
Proof. intros H. induction l as [|x l IH]; cbn; [lia|]. rewrite length_app. specialize (H x). lia. Qed.

(** 119 codecs always fit. *)
Lemma audio_attrs_count b dir : build_check b = None -> len (b_codecs b) <= 119 -> len (audio_attrs b dir) <= MaxAttributes.
Proof.
  intros Hc Hl. apply build_check_none in Hc as (_ & _ & _ & _ & Hk & _). unfold audio_attrs, MaxAttributes, MaxCrypto in *. rewrite !len_app.
  assert (len (flat_map codec_attrs (b_codecs b)) <= 2 * len (b_codecs b)).
  { unfold len. pose proof (flat_map_len_le codec_attrs 2 (b_codecs b)) as H. assert (forall c, (length (codec_attrs c) <= 2)%nat); [|lia].
    intros c. unfold codec_attrs. cbv zeta. case_if; cbn; lia. }
  assert (len (map crypto_attr (b_crypto b)) = len (b_crypto b)) as -> by (unfold len; by rewrite length_map).
  assert (len (match b_dtls b, b_fingerprint b with true, Some fp => dtls_attrs b fp | _, _ => [] end) <= 7).
  { destruct (b_dtls b), (b_fingerprint b); unfold len; cbn; lia. }
  assert (len (if b_rtcpmux b then [mkAttr (str "rtcp-mux") []] else []) <= 1) by (case_if; unfold len; cbn; lia).
  assert (len [mkAttr dir []] = 1) by done. lia.
Qed.

Lemma section_audio b dir : section (audio_media b dir) = mkSection (str "audio") (split (proto b) 47).
Proof. unfold section, audio_media. cbn [md_media md_protos]. destruct (proto_cases b) as [-> | [-> | ->]]; reflexivity. Qed.

Lemma scan_found secs : forall b dir live i l d, live < i -> Forall section_ok secs ->
  exists ss, scan_sections i (section_media b dir live i secs) (Some l) d = Some (ss, Some l, d).
Proof.
  induction secs as [|sec secs IH]; intros b dir live i l d Hi H; [by eexists|]. apply Forall_cons in H as [Hs H].
  cbn [section_media scan_sections]. replace (i =? live) with false by lia. change (MaxAttributes <? len (md_attrs (declined_media sec))) with false.
  cbn [bool_decide andb]. destruct (IH b dir live (i + 1) l d) as (ss & E); [lia|done|]. cbn. rewrite E. by eexists.
Qed.

Lemma scan_sections_media b dir secs : forall live i d, build_check b = None -> len (audio_attrs b dir) <= MaxAttributes -> Forall section_ok secs ->
  i <= live < i + len secs ->
  exists ss d', scan_sections i (section_media b dir live i secs) None d = Some (ss, Some (audio_media b dir, live), d').
Proof.
  induction secs as [|sec secs IH]; intros live i d Hc Hl H Hi; [rewrite len_nil in Hi; lia|]. apply Forall_cons in H as [Hs H].
  rewrite len_cons in Hi. cbn [section_media scan_sections]. rewrite bool_decide_eq_true_2 by done. destruct (i =? live) eqn:E.
  - apply Z.eqb_eq in E as <-. cbn [audio_media md_attrs md_media md_port].
    replace (MaxAttributes <? len (audio_attrs b dir)) with false by lia. rewrite beq_refl. cbn [andb].
    apply build_check_none in Hc as (_ & Hp & _). replace (b_port b =? 0) with false by lia.
    destruct (scan_found secs b dir i (i + 1) (audio_media b dir, i) d) as (ss & Es); [lia|done|]. 
    unfold audio_media in *. rewrite Es. by eexists _, _.
  - change (MaxAttributes <? len (md_attrs (declined_media sec))) with false. cbn [declined_media md_media md_port andb].
    change (0 =? 0) with true. cbv iota.
    destruct (beq (sec_media sec) (str "audio")); [destruct (IH live (i + 1) true) as (ss & d' & Es)|destruct (IH live (i + 1) d) as (ss & d' & Es)];
      try done; try lia; rewrite Es; by eexists _, _.
Qed.

Lemma section_declined sec : section_ok sec -> section (declined_media sec) = mkSection (sec_media sec) (split (join (sec_proto sec) 47) 47).
Proof.
  intros [[Hl Hm] Hp]. unfold section, declined_media. cbn [md_media md_protos]. rewrite join_split.
  assert (to_lower (sec_media sec) = sec_media sec) as ->.
  { unfold to_lower. rewrite <- (map_id (sec_media sec)) at 2. apply map_ext_in. intros c Hc. rewrite Forall_forall in Hm.
    specialize (Hm c ltac:(by apply list_elem_of_In)). unfold is_lower, lower_byte in *. by replace ((65 <=? c) && (c <=? 90)) with false by lia. }
  replace (beq (sec_media sec) []) with false by (symmetry; apply bool_decide_eq_false_2; intros E; rewrite E, len_nil in Hl; lia).
  replace (32 <? len (sec_media sec)) with false by lia.
  assert (forallb is_lower (sec_media sec) = true) as ->.
  { apply forallb_forall. intros c Hc. rewrite Forall_forall in Hm. apply Hm. by apply list_elem_of_In. }
  cbn [orb negb]. assert (existsb (beq (join (sec_proto sec) 47)) knownProtos = true) as ->; [|done].
  apply existsb_exists. exists (join (sec_proto sec) 47). split; [by apply list_elem_of_In|apply beq_refl].
Qed.

Lemma section_media_lookup b dir live secs : forall i j sec, Forall section_ok secs -> secs !! j = Some sec ->
  map section (section_media b dir live i secs) !! j =
  Some (if i + Z.of_nat j =? live then mkSection (str "audio") (split (proto b) 47)
        else mkSection (sec_media sec) (split (join (sec_proto sec) 47) 47)).
Proof.
  induction secs as [|s secs IH]; intros i j sec H Hj; [done|]. apply Forall_cons in H as [Hs H]. destruct j as [|j]; cbn in Hj.
  - injection Hj as <-. cbn [section_media map lookup]. change (Z.of_nat 0) with 0. cbn. rewrite Z.add_0_r. f_equal.
    destruct (i =? live); [apply section_audio|by apply section_declined].
  - cbn [section_media map]. change ((?x :: ?l) !! S j) with (l !! j). rewrite (IH (i + 1) j sec) by done.
    by replace (i + 1 + Z.of_nat j) with (i + Z.of_nat (S j)) by lia.
Qed.

Lemma section_media_len b dir live secs : forall i, len (section_media b dir live i secs) = len secs.
Proof. induction secs as [|s secs IH]; intros i; [done|]. cbn [section_media]. by rewrite !len_cons, IH. Qed.

Lemma parse_media_codecs b dir : build_ok b -> dir ∈ directions -> parseCodecs (audio_media b dir) = inl (b_codecs b).
Proof.
  intros Hok Hdir. unfold parseCodecs, audio_media. cbn [md_attrs md_formats]. pose proof (bo_codecs b Hok) as Hw. pose proof (bo_numbers b Hok) as Hn.
  assert (Hk : forall key l m, payload_map key (map crypto_attr (b_crypto b) ++ [mkAttr dir []] ++ l) m = payload_map key l m \/ key ∈ directions \/ key = str "crypto").
  { intros key l m. rewrite !payload_map_app. destruct (decide (key ∈ directions)) as [?|Hd]; [auto|]. destruct (decide (key = str "crypto")) as [?|Hc]; [auto|].
    left. rewrite (payload_map_other key (map crypto_attr (b_crypto b))).
    - rewrite (payload_map_other key [mkAttr dir []]); [done|]. constructor; [|constructor]. cbn [at_key]. congruence.
    - apply Forall_forall. intros a Ha. apply list_elem_of_In, in_map_iff in Ha as (c & <- & _). cbn. congruence. }
  assert (Ht : forall key m, key = str "rtpmap" \/ key = str "fmtp" -> payload_map key (audio_attrs b dir) m = payload_map key (flat_map codec_attrs (b_codecs b)) m).
  { intros key m Hkey. unfold audio_attrs. rewrite payload_map_app, (payload_map_other key (match b_dtls b with true => _ | false => _ end)).
    - rewrite payload_map_app. assert (Hkd : ~ (key ∈ directions \/ key = str "crypto")).
      { intros [H|H]; [|destruct Hkey as [->| ->]; done]. destruct Hkey as [->| ->]; apply (bool_decide_eq_true _) in H; vm_compute in H; done. }
      destruct (Hk key (if b_rtcpmux b then [mkAttr (str "rtcp-mux") []] else []) (payload_map key (flat_map codec_attrs (b_codecs b)) m)) as [->|H]; [|done].
      destruct (b_rtcpmux b); [|done]. apply payload_map_other. constructor; [|constructor]. destruct Hkey as [->| ->]; done.
    - destruct (b_dtls b); [|constructor]. destruct (b_fingerprint b); [|constructor]. unfold dtls_attrs.
      repeat constructor; destruct Hkey as [->| ->]; done. }
  rewrite !Ht by auto. destruct (payload_maps (b_codecs b) Hw Hn ∅ ∅) as [_ Hm]; [apply Forall_forall; intros; apply lookup_empty|].
  apply codecs_from_back; try done. apply Forall_forall. intros c _. apply not_elem_of_empty.
Qed.

Lemma crypto_values b dir : Forall (fun a => at_key a <> str "crypto") (match b_dtls b, b_fingerprint b with true, Some fp => dtls_attrs b fp | _, _ => [] end) ->
  dir ∈ directions ->
  map at_value (List.filter (fun a => beq (at_key a) (str "crypto")) (audio_attrs b dir)) = map Value (b_crypto b).
Proof.
  intros Hd Hdir. unfold audio_attrs. rewrite !List.filter_app, !map_app.
  assert (Hno : forall l, Forall (fun a => at_key a <> str "crypto") l -> map at_value (List.filter (fun a => beq (at_key a) (str "crypto")) l) = []).
  { intros l Hl. induction Hl as [|a l Ha _ IH]; [done|]. cbn [List.filter]. replace (beq (at_key a) (str "crypto")) with false; [done|].
    symmetry. by apply bool_decide_eq_false_2. }
  rewrite (Hno _ Hd), (Hno (flat_map codec_attrs (b_codecs b))), (Hno [mkAttr dir []]), (Hno (if b_rtcpmux b then _ else _)).
  - cbn [app]. rewrite app_nil_r. induction (b_crypto b) as [|c cs IH]; [done|]. cbn [map List.filter].
    change (beq (at_key (crypto_attr c)) (str "crypto")) with true. cbn [map]. by rewrite IH.
  - case_if; [|constructor]. by constructor.
  - constructor; [|constructor]. cbn [at_key]. intros ->. apply (bool_decide_eq_true _) in Hdir. by vm_compute in Hdir.
  - apply Forall_forall. intros a Ha. apply list_elem_of_In, in_flat_map in Ha as (c & _ & Ha). unfold codec_attrs in Ha.
    destruct Ha as [<-|Ha]; [done|]. destruct (negb _); [|done]. by destruct Ha as [<-|[]].
Qed.

Lemma parse_built_address b md sd allowLoopback offer : build_ok b -> reads_ok b offer ->
  (is_loopback (b_address b) = true -> allowLoopback = true) -> md_conn md = None ->
  sd_conn sd = Some (Some (addr_string (b_address b))) -> parseConnection allowLoopback sd md = inl (false, b_address b).
Proof.
  intros Hok [[Ra Ru]%plain_addr_reads (Rn & Rm & Rl & Rb) _ _ _ _] Hlb Hmd Hsd. unfold parseConnection. rewrite Hmd, Hsd.
  rewrite trim_space_id by apply (addr_word b Hok). rewrite Ra, Ru, Rn, Rm, Rl. cbn [orb].
  replace (addr_eqb (b_address b) (ip4 255 255 255 255)) with false by (symmetry; by apply bool_decide_eq_false_2).
  destruct (is_loopback (b_address b)); [rewrite Hlb by done|]; done.
Qed.

Lemma scan_built b offer : build_check b = None -> sections_ok offer -> reads_ok b offer ->
  exists ss d', scan_sections 0 (media_list b (dir_of b) offer) None false = Some (ss, Some (audio_media b (dir_of b), live_index offer), d').
Proof.
  intros Hc Hs [_ _ _ [_ Rc] _ Ro]. destruct offer as [[live secs]|]; cbn [media_list live_index].
  - apply scan_sections_media; try done. lia.
  - pose proof (scan_sections_media b (dir_of b) [mkSection (str "audio") [str "RTP"; str "AVP"]] 0 0 false Hc Rc) as H. apply H; [|by vm_compute].
    constructor; [|constructor]. split; [split; [by vm_compute|]|]; apply (bool_decide_unpack _); vm_compute; exact I.
Qed.

Lemma parse_built_crypto b offer : build_ok b -> build_check b = None -> reads_ok b offer ->
  parseCryptoAttrs (map at_value (List.filter (fun a => beq (at_key a) (str "crypto")) (audio_attrs b (dir_of b)))) = b_crypto b.
Proof.
  intros Hok Hc [_ _ _ _ Rt _]. pose proof (build_check_none b Hc) as (_ & _ & _ & _ & Hkl & Hkv).
  rewrite crypto_values; [|destruct (b_dtls b), (b_fingerprint b); repeat constructor; done|by apply dir_of_ok]. unfold parseCryptoAttrs.
  apply crypto_attrs_back; first [done|apply (bo_keys b Hok)|apply Forall_forall; intros c _; apply not_elem_of_empty|lia].
Qed.

Lemma marshal_not_empty b offer body : marshal b offer = inl body -> len body <> 0.
Proof.
  intros Hm. apply marshal_lines in Hm as [_ ->]. unfold head_lines. cbn [app]. rewrite cat_cons, len_app. change (len (str "v=0")) with 3.
  match goal with |- 3 + len ?x <> 0 => generalize x end. intros x. pose proof (len_nonneg x). lia.
Qed.

(** C32: What the proxy builds, a reader parses as meant.  For a Build of parsed
    parts, toward an offer or alone, within what Parse accepts of anyone: the
    address IPv4 or unmapped IPv6 without a zone, unicast (loopback where the
    reader allows it) and not link-local; at most 128 codecs, and the live
    section's attribute lines no more than 256 (as with 119 codecs or fewer they
    always are); at most the number of sections Parse takes, the live one among
    them; crypto lines with different tags; the body no longer than MaxSize.
    Then the body read line by line and parsed by Parse gives back the address,
    the port, the codec list with its numbers and parameters, the direction, the
    ICE and DTLS values and the keys; there is one section per offered section,
    the live one at the offer's index and the others declined with their media
    type and transport. *)
Theorem built_body_parses b offer body allowLoopback :
  build_ok b -> sections_ok offer -> reads_ok b offer -> (is_loopback (b_address b) = true -> allowLoopback = true) ->
  marshal b offer = inl body -> len body <= MaxSize ->
  exists s, ParseWithOptions (fun t => Some (read_sdp t)) body allowLoopback = inl s /\
    s_audio s = built_audio b /\ s_audioindex s = live_index offer /\ s_mediacount s = section_count offer /\
    forall live secs j sec, offer = Some (live, secs) -> secs !! j = Some sec -> Z.of_nat j <> live ->
      s_sections s !! j = Some (mkSection (sec_media sec) (split (join (sec_proto sec) 47) 47)).
Proof.
  intros Hok Hs Hr Hlb Hm Hsize. pose proof (marshal_lines _ _ _ Hm) as [Hc Hbody]. pose proof (dir_of_ok b Hok) as Hdir.
  destruct (scan_built b offer Hc Hs Hr) as (ss & d' & Hscan). pose proof (marshal_not_empty _ _ _ Hm) as Hne.
  unfold ParseWithOptions. rewrite (read_body b offer body) by done. cbn [sd_media sd_attrs].
  replace (len body =? 0) with false by lia. replace (MaxSize <? len body) with false by lia.
  assert (Hcount : len (media_list b (dir_of b) offer) = section_count offer).
  { destruct offer as [[live secs]|]; [|done]. cbn. apply section_media_len. }
  rewrite Hcount, Hscan. assert (Hcnt : section_count offer <= MaxMediaDescriptions).
  { pose proof (ro_offer _ _ Hr). destruct offer as [[live secs]|]; [apply H|by vm_compute]. }
  replace (MaxMediaDescriptions <? section_count offer) with false by lia. change (MaxAttributes <? len []) with false. cbv iota.
  assert (Hf : MaxCodecs <? len (md_formats (audio_media b (dir_of b))) = false).
  { pose proof (proj1 (ro_codecs _ _ Hr)). cbn [md_formats audio_media]. unfold MaxCodecs, len in *. rewrite length_map. lia. }
  rewrite Hf, (parse_built_address b _ _ allowLoopback offer), parse_media_codecs by done. pose proof (build_check_none b Hc) as (_ & _ & Hcs & _).
  assert (Hx : parseAttributes (mkDesc (Some (Some (addr_string (b_address b)))) [] (media_list b (dir_of b) offer)) (audio_media b (dir_of b)) =
               let x := dtls_acc b in mkAcc (dir_of b) (x_ufrag x) (x_pwd x) (b_rtcpmux b) (x_setup x) (x_fp x) 0).
  { unfold parseAttributes. cbn [sd_attrs fold_left md_attrs audio_media]. apply parse_audio_attrs; try done. intros f Ed Ef. by apply fp_written_reads, (ro_fp _ _ Hr). }
  cbn [md_attrs audio_media]. rewrite (parse_built_crypto b offer), Hx by done. cbv zeta. cbn [x_direction x_ufrag x_pwd x_mux x_setup x_fp x_rtcp md_port md_protos audio_media].
  destruct (b_codecs b) as [|c0 cs] eqn:Ecs; [done|]. eexists. split; [reflexivity|]. cbn [s_audio s_audioindex s_mediacount s_sections].
  unfold built_audio. cbv zeta. rewrite Ecs. split_and!; try done.
  intros live secs j sec -> Hj Hne'. cbn [media_list] in Hscan. apply scan_sections_spec in Hscan as [-> _].
  rewrite (section_media_lookup b (dir_of b) live secs 0 j sec) by done. by replace (0 + Z.of_nat j =? live) with false by lia.
Qed.

(** ** Witnesses *)

(** The answer to a browser that offered video first: video declined, audio
    live at index 1, over DTLS. *)
Definition demo_fp : Fingerprint := mkFp (str "sha-256") (join (replicate 32 (str "A0")) 58).

Definition demo_build : Build :=
  mkBuild (ip4 198 51 100 4) 16384
    [mkCodec 111 (str "opus") 48000 2 (str "minptime=10;useinbandfec=1"); mkCodec 0 (str "PCMU") 8000 1 [];
     mkCodec 126 (str "telephone-event") 8000 1 (str "0-15")]
    [] 7 1 true true (str "uFr4") (str "0123456789012345678901") (Some demo_fp) (str "passive") [].

Definition demo_offer : option (Z * list Section_) :=
  Some (1, [mkSection (str "video") [str "UDP"; str "TLS"; str "RTP"; str "SAVPF"]; mkSection (str "audio") [str "RTP"; str "AVP"]]).

Lemma demo_build_ok : build_ok demo_build /\ sections_ok demo_offer /\ reads_ok demo_build demo_offer.
Proof.
  split; [|split].
  - split; cbn [demo_build b_codecs b_direction b_address b_sessionid b_sessionversion b_ufrag b_pwd b_fingerprint b_setup b_crypto].
    + apply codecs_check. vm_compute. reflexivity.
    + apply (bool_decide_unpack _). vm_compute. exact I.
    + by left.
    + split; [apply (bool_decide_unpack _); vm_compute; exact I|done].
    + unfold two64. lia.
    + intros _. split; right; (split; [by vm_compute|apply (bool_decide_unpack _); vm_compute; exact I]).
    + intros f _ [= <-]. split; [by left|]. apply (bool_decide_unpack _). vm_compute. exact I.
    + intros _. right. apply (bool_decide_unpack _). vm_compute. exact I.
    + constructor.
  - apply Forall_cons; split; [|apply Forall_cons; split; [|constructor]];
      (split; [split; [by vm_compute|]|]; apply (bool_decide_unpack _); vm_compute; exact I).
  - split.
    + by split.
    + split_and!; [vm_compute; reflexivity..|]. done.
    + intros f _ [= <-]. exists (replicate 32 (str "A0")). split_and!; [reflexivity| |by left].
      apply Forall_forall. intros p ->%elem_of_replicate_inv. by split.
    + split; [by vm_compute|]. apply audio_attrs_count; [reflexivity|by vm_compute].
    + constructor.
    + by vm_compute.
Qed.

Definition demo_body : gostring := match marshal demo_build demo_offer with inl b => b | inr _ => [] end.

Lemma no_line_injected_witness :
  marshal demo_build demo_offer = inl demo_body /\ length (lines demo_body) = 21%nat.
Proof.
  split; [vm_compute; reflexivity|].
  rewrite (no_line_injected demo_build demo_offer demo_body);
    [vm_compute; reflexivity|apply demo_build_ok|apply demo_build_ok|vm_compute; reflexivity].
Defined.

Lemma built_body_parses_witness :
  exists s, ParseWithOptions (fun t => Some (read_sdp t)) demo_body false = inl s /\
    s_audio s = built_audio demo_build /\ WebRTC (s_audio s) = true /\ s_audioindex s = 1 /\ s_mediacount s = 2.
Proof.
  destruct demo_build_ok as (H1 & H2 & H3).
  destruct (built_body_parses demo_build demo_offer demo_body false H1 H2 H3) as (s & E1 & E2 & E3 & E4 & _).
  - vm_compute. discriminate.
  - vm_compute. reflexivity.
  - vm_compute. discriminate.
  - exists s. split; [exact E1|]. split; [exact E2|]. rewrite E2, E3, E4. split_and!; vm_compute; reflexivity.
Defined.
