(* ===== verification/SipAddr.v ===== *)
(** Transport addresses (internal/sip/addr.go).

    Where a message came from is a [host:port] string of the transport layer;
    this file models how it is read ([SourceAddrPort], [parseHostPortAddr],
    [AddrOf]), how a read is matched to the listener it arrived on
    ([SameListener]) and the port a transport defaults to.
    [net.SplitHostPort] is the standard library's. *)

From S2P Require Import Prelude Netip GoText GoEncoding.

Open Scope Z_scope.

Create HintDb sbc_addr.

Definition has_byte (c : Z) (s : gostring) : bool :=
  match index_byte s c with Some _ => true | None => false end.

(** [net.SplitHostPort]; [None] is its error. *)
Definition split_host_port (s : gostring) : option (gostring * gostring) :=
  match last_index_byte s 58 with
  | None => None
  | Some i =>
      let port := drop (S i) s in
      match s with
      | 91 :: _ =>
          match index_byte s 93 with
          | None => None
          | Some e =>
              if (S e =? i)%nat then
                if has_byte 91 (drop 1 s) || has_byte 93 (drop (S e) s) then None
                else Some (take (e - 1) (drop 1 s), port)
              else None
          end
      | _ =>
          let host := take i s in
          if has_byte 58 host || has_byte 91 s || has_byte 93 s then None else Some (host, port)
      end
  end.

(** [netip.AddrPort.String] of a valid address. *)
Definition addrport_string (p : AddrPort) : gostring :=
  match ap_addr p with
  | V4 n => addr_string (V4 n) ++ 58 :: itoa (ap_port p)
  | a => str "[" ++ addr_string a ++ str "]:" ++ itoa (ap_port p)
  end.

(** [uint16(port)] *)
Definition uint16 (n : Z) : Z := wrap_uint 16 n.

(** The transport source of a request, [req.Source()]. *)
Definition SourceAddrPort (source : gostring) : option AddrPort :=
  match split_host_port source with
  | None => None
  | Some (host, portStr) =>
      match parse_addr host with
      | None => None
      | Some ip =>
          match atoi portStr with
          | None => None
          | Some port => Some (mkAddrPort (unmap ip) (uint16 port))
          end
      end
  end.

Definition parseHostPortAddr (hostPort : gostring) : option Addr :=
  match split_host_port hostPort with
  | None => None
  | Some (host, _) => unmap <$> parse_addr host
  end.

(** A [net.Addr] is its text; [None] is the nil one. *)
Definition AddrOf (a : option gostring) : option Addr :=
  match a with None => None | Some s => parseHostPortAddr s end.

Definition wildcard (h : gostring) : bool :=
  match parse_addr h with Some ip => is_unspecified ip | None => false end.

Definition sameAddr (a b : gostring) : bool :=
  match split_host_port a, split_host_port b with
  | Some (ah, ap), Some (bh, bp) =>
      if negb (beq ap bp) then false
      else if beq ah bh then true
      else wildcard ah || wildcard bh
  | _, _ => beq a b
  end.

Definition SameListener (transport loc bindTransport bind : gostring) : bool :=
  if negb (equal_fold transport bindTransport) then false else sameAddr loc bind.

Definition DefaultPort (transport : gostring) : Z :=
  let t := to_lower transport in
  if beq t (str "tls") then 5061
  else if beq t (str "ws") then 80
  else if beq t (str "wss") then 443
  else 5060.

(** ** Splitting *)

Lemma last_index_byte_none s c : c ∉ s -> last_index_byte s c = None.
Proof.
  induction s as [|x s IH]; [done|]. rewrite not_elem_of_cons. intros [Hx Hs]. cbn.
  rewrite IH by done. by replace (x =? c) with false by lia.
Qed.

Lemma last_index_byte_app a c b : c ∉ b -> last_index_byte (a ++ c :: b) c = Some (length a).
Proof.
  intros Hb. induction a as [|x a IH]; cbn.
  - by rewrite last_index_byte_none, Z.eqb_refl.
  - cbn in IH. by rewrite IH.
Qed.

Lemma last_index_byte_spec s c i :
  last_index_byte s c = Some i -> exists a b, s = a ++ c :: b /\ length a = i /\ c ∉ b.
Proof.
  revert i. induction s as [|x s IH]; intros i; cbn; [done|].
  destruct (last_index_byte s c) as [j|] eqn:E.
  - intros [= <-]. destruct (IH j eq_refl) as (a & b & -> & <- & Hb). by exists (x :: a), b.
  - case_if; [|done]. intros [= <-]. exists [], s. apply Z.eqb_eq in Heqb as ->. repeat split.
    intros Hc. clear IH. induction s as [|y s IH]; [by apply not_elem_of_nil in Hc|]. cbn in E.
    destruct (last_index_byte s c); [done|]. destruct (y =? c) eqn:Ey; [done|].
    apply elem_of_cons in Hc as [->|Hc]; [lia|]. by apply IH.
Qed.

Lemma has_byte_false c s : c ∉ s -> has_byte c s = false.
Proof. intros H. unfold has_byte. by rewrite (proj2 (index_byte_none s c) H). Qed.

Lemma has_byte_true c s : c ∈ s -> has_byte c s = true.
Proof.
  intros H. unfold has_byte. destruct (index_byte s c) eqn:E; [done|]. by apply index_byte_none in E.
Qed.

(** A [host:port] whose host has no colon and no bracket. *)
Lemma split_plain h p : 58 ∉ h -> 91 ∉ h -> 93 ∉ h -> 58 ∉ p -> 91 ∉ p -> 93 ∉ p ->
  split_host_port (h ++ 58 :: p) = Some (h, p).
Proof.
  intros H1 H2 H3 P1 P2 P3. unfold split_host_port. rewrite last_index_byte_app by done.
  assert (Hd : drop (S (length h)) (h ++ 58 :: p) = p).
  { replace (S (length h)) with (length (h ++ [58])) by (rewrite length_app; cbn; lia).
    change (h ++ 58 :: p) with (h ++ [58] ++ p). by rewrite app_assoc, drop_app_length. }
  rewrite Hd, take_app_length.
  assert (Hb : has_byte 58 h || has_byte 91 (h ++ 58 :: p) || has_byte 93 (h ++ 58 :: p) = false)
    by (rewrite !has_byte_false; [done|set_solver..]).
  rewrite Hb. destruct h as [|x h]; [done|].
  assert (x <> 91) by set_solver. cbn [app]. destruct x as [|q|q]; [done| |done].
  do 7 (destruct q as [q|q|]; try reflexivity; try lia).
Qed.

(** A bracketed host. *)
Lemma split_bracketed h p : 91 ∉ h -> 93 ∉ h -> 58 ∉ p -> 91 ∉ p -> 93 ∉ p ->
  split_host_port (91 :: h ++ 93 :: 58 :: p) = Some (h, p).
Proof.
  intros H2 H3 P1 P2 P3. unfold split_host_port.
  change (91 :: h ++ 93 :: 58 :: p) with ((91 :: h) ++ [93] ++ 58 :: p). rewrite app_assoc, last_index_byte_app by done.
  replace (((91 :: h) ++ [93]) ++ 58 :: p) with (91 :: h ++ 93 :: 58 :: p) by (by rewrite <- app_assoc).
  replace (length ((91 :: h) ++ [93])) with (S (S (length h))) by (rewrite length_app; cbn; lia).
  assert (Hi : index_byte (91 :: h ++ 93 :: 58 :: p) 93 = Some (S (length h))).
  { cbn [index_byte]. change (91 =? 93) with false. cbv iota. by rewrite index_byte_app. }
  cbv zeta. rewrite Hi, Nat.eqb_refl.
  assert (D1 : drop (S (S (length h))) (91 :: h ++ 93 :: 58 :: p) = 58 :: p).
  { cbn [drop]. replace (S (length h)) with (length (h ++ [93])) by (rewrite length_app; cbn; lia).
    change (h ++ 93 :: 58 :: p) with (h ++ [93] ++ 58 :: p). by rewrite app_assoc, drop_app_length. }
  assert (D2 : drop (S (S (S (length h)))) (91 :: h ++ 93 :: 58 :: p) = p).
  { change (S (S (S (length h)))) with (1 + S (S (length h)))%nat. rewrite Nat.add_comm, <- drop_drop, D1. done. }
  rewrite D1, D2. cbn [drop]. rewrite !has_byte_false by set_solver. cbn [orb].
  replace (S (length h) - 1)%nat with (length h) by lia. by rewrite drop_0, take_app_length.
Qed.

(** ** Reading a source *)

Lemma digits_free c s : forallb is_digit s = true -> is_digit c = false -> c ∉ s.
Proof.
  intros Hs Hc Hin. rewrite forallb_forall in Hs. apply list_elem_of_In, Hs in Hin. congruence.
Qed.

Lemma itoa_free c n : 0 <= n < 10 ^ 64 -> is_digit c = false -> c ∉ itoa n.
Proof. intros Hn. apply digits_free. by apply itoa_spec. Qed.

Lemma ipv4_string_free c n : 0 <= n -> is_digit c = false -> c <> 46 -> c ∉ ipv4_string n.
Proof.
  intros Hn Hc Hd. unfold ipv4_string.
  assert (Hm : forall k, c ∉ itoa (k mod 256)) by (intros k; apply itoa_free; [pose proof (Z.mod_pos_bound k 256); lia|done]).
  rewrite !not_elem_of_app. set_solver.
Qed.

(** The source a socket reports for an IPv4 peer reads back as that peer. *)
Lemma SourceAddrPort_v4 n p : 0 <= n < 2 ^ 32 -> port_ok p ->
  SourceAddrPort (addrport_string (mkAddrPort (V4 n) p)) = Some (mkAddrPort (V4 n) p).
Proof.
  intros Hn Hp. unfold SourceAddrPort, addrport_string. cbn [ap_addr ap_port]. unfold port_ok in Hp.
  rewrite split_plain; [|change (addr_string (V4 n)) with (ipv4_string n); apply ipv4_string_free; [lia|done|done]..| | | ].
  - rewrite ipv4_text_reads by done. rewrite atoi_itoa by (unfold max_int64, two63; lia).
    unfold uint16, wrap_uint. rewrite Z.mod_small by (change (2 ^ 16) with 65536; lia). done.
  - apply itoa_free; [lia|done].
  - apply itoa_free; [lia|done].
  - apply itoa_free; [lia|done].
Qed.

(** an address read off a transport source is never an IPv4-mapped IPv6
    address and its port is a 16-bit one; an IPv4 peer reads back as itself,
    also when the dual-stack socket reports it in its mapped form. *)
Theorem source_is_canonical s p :
  SourceAddrPort s = Some p ->
  is4in6 (ap_addr p) = false /\ port_ok (ap_port p) /\
  exists host port, split_host_port s = Some (host, port) /\ parseHostPortAddr s = Some (ap_addr p).
Proof.
  unfold SourceAddrPort, parseHostPortAddr. destruct (split_host_port s) as [[h q]|] eqn:E; [|done].
  destruct (parse_addr h) as [ip|] eqn:Ei; [|done]. destruct (atoi q) as [n|]; [|done]. intros [= <-]. cbn.
  split; [apply is4in6_unmap|]. split; [|eauto].
  unfold port_ok, uint16, wrap_uint. apply Z.mod_pos_bound. lia.
Qed.

Lemma source_is_canonical_witness :
  SourceAddrPort (str "[::ffff:10.0.0.7]:5060") = Some (mkAddrPort (ip4 10 0 0 7) 5060) /\
  is4in6 (ip4 10 0 0 7) = false.
Proof.
  split; [vm_compute; reflexivity|].
  exact (proj1 (source_is_canonical (str "[::ffff:10.0.0.7]:5060") (mkAddrPort (ip4 10 0 0 7) 5060) eq_refl)).
Defined.

(** ** Listeners *)

Lemma beq_sym a b : beq a b = beq b a.
Proof. unfold beq. apply bool_decide_ext. naive_solver. Qed.

Lemma sameAddr_sym a b : sameAddr a b = sameAddr b a.
Proof.
  unfold sameAddr. destruct (split_host_port a) as [[ah ap]|], (split_host_port b) as [[bh bp]|]; try apply beq_sym.
  rewrite (beq_sym ap bp), (beq_sym ah bh), orb_comm. done.
Qed.

Lemma SameListener_sym t a u b : SameListener t a u b = SameListener u b t a.
Proof. unfold SameListener. by rewrite equal_fold_sym, sameAddr_sym. Qed.

(** Two bound listeners of the same transport with concrete hosts: a read
    belongs to the one it names and to no other. *)
Lemma sameAddr_concrete h1 p1 h2 p2 a b :
  split_host_port a = Some (h1, p1) -> split_host_port b = Some (h2, p2) ->
  wildcard h1 = false -> wildcard h2 = false ->
  sameAddr a b = true <-> h1 = h2 /\ p1 = p2.
Proof.
  intros Ha Hb W1 W2. unfold sameAddr. rewrite Ha, Hb, W1, W2.
  destruct (beq p1 p2) eqn:Ep; cbn [negb].
  - apply beq_eq in Ep as ->. destruct (beq h1 h2) eqn:Eh; [apply beq_eq in Eh as ->; naive_solver|].
    split; [done|]. intros [-> _]. by rewrite beq_refl in Eh.
  - split; [done|]. intros [_ ->]. by rewrite beq_refl in Ep.
Qed.

(** a listener bound to a wildcard owns every read of its transport on its
    port and none on another port or of another transport. *)
Theorem wildcard_listener_owns_its_port t loc u bind h p h' p' :
  split_host_port loc = Some (h, p) -> split_host_port bind = Some (h', p') -> wildcard h' = true ->
  SameListener t loc u bind = (equal_fold t u && beq p p').
Proof.
  intros Hl Hb Hw. unfold SameListener, sameAddr. rewrite Hl, Hb, Hw, orb_true_r.
  destruct (equal_fold t u); [|done]. cbn [negb andb]. destruct (beq p p'); [|done]. by destruct (beq h h').
Qed.

Lemma wildcard_listener_owns_its_port_witness :
  SameListener (str "UDP") (str "192.0.2.1:5060") (str "udp") (str "0.0.0.0:5060") = true /\
  SameListener (str "ws") (str "192.0.2.1:5060") (str "udp") (str "[::]:5060") = false.
Proof.
  split.
  - rewrite (wildcard_listener_owns_its_port (str "UDP") _ (str "udp") _ (str "192.0.2.1") (str "5060") (str "0.0.0.0") (str "5060"));
      vm_compute; reflexivity.
  - rewrite (wildcard_listener_owns_its_port (str "ws") _ (str "udp") _ (str "192.0.2.1") (str "5060") (str "::") (str "5060"));
      vm_compute; reflexivity.
Defined.

Lemma DefaultPort_fold t u : equal_fold t u = true -> DefaultPort t = DefaultPort u.
Proof. unfold equal_fold, DefaultPort. by intros ->%beq_eq. Qed.

#[global] Arguments split_host_port : simpl never.
#[global] Arguments addrport_string : simpl never.
