(* ===== verification/SipScan.v ===== *)
(** Reading a REGISTER from its raw bytes (internal/sip/regscan.go).

    [ScanRegister] reads the head of a REGISTER request off the wire without
    the message parser; [eachDigestParam] walks the auth-params of a
    credentials or challenge value; [NormalizeAOR] and [aorOfToValue] build
    the address-of-record.  A header name or value the Go code keeps as a
    [[]byte] is a list; its nil is the empty list ([bytes.TrimSpace] of a
    blank name is nil, and no header has an empty name). *)

From S2P Require Import Prelude GoText.

Open Scope Z_scope.

Create HintDb sbc_scan.

(** ** Auth parameters *)

(** The body of a quoted string after its opening quote: its value with the
    escapes undone, and the text from the closing quote on. *)
Fixpoint quoted (s b : gostring) : gostring * gostring :=
  match s with
  | [] => (rev b, [])
  | c :: s' =>
      match s' with
      | d :: s'' =>
          if c =? 92 then quoted s'' (d :: b)
          else if c =? 34 then (rev b, s)
          else quoted s' (c :: b)
      | [] => if c =? 34 then (rev b, s) else quoted s' (c :: b)
      end
  end.

Definition is_blank (c : Z) : bool := mem c [32; 9].
Definition is_blank_comma (c : Z) : bool := mem c [32; 9; 44].

(** The text after the next comma. *)
Definition after_comma (s : gostring) : gostring :=
  match index_byte s 44 with Some c => drop (S c) s | None => [] end.

(** A value, quoted or bare, and the text after its comma. *)
Definition param_value (s : gostring) : gostring * gostring :=
  if has_prefix s [34] then let '(v, r) := quoted (drop 1 s) [] in (v, after_comma (drop 1 r))
  else match index_byte s 44 with
       | Some c => (trim_space (take c s), drop (S c) s)
       | None => (trim_space s, [])
       end.

(** One turn of the loop of [eachDigestParam]: the key, the value and the
    text left; [None] when no [=] is left. *)
Definition next_param (s : gostring) : option (gostring * gostring * gostring) :=
  let s := trim_left is_blank_comma s in
  match index_byte s 61 with
  | None => None
  | Some eq =>
      let '(v, r) := param_value (trim_left is_blank (drop (S eq) s)) in
      Some (trim_space (take eq s), v, r)
  end.

Section Each.
Context {A : Type} (fn : A -> gostring -> gostring -> A * bool).

(** The loop; [fn] threads the variables its closure captures. *)
Fixpoint each_loop (fuel : nat) (s : gostring) (a : A) : A :=
  match fuel with
  | O => a
  | S fuel' =>
      if bool_decide (s = []) then a
      else match next_param s with
           | None => a
           | Some (k, v, r) => let '(a, go) := fn a k v in if go : bool then each_loop fuel' r a else a
           end
  end.

(** The text after the scheme token. *)
Definition skip_scheme (value : gostring) : gostring :=
  let s := trim_space value in
  match index_any s [32; 9] with
  | Some sp => if contains (take sp s) (str "=") then s else drop (S sp) s
  | None => s
  end.

Definition eachDigestParam (value : gostring) (a : A) : A :=
  let s := skip_scheme value in each_loop (S (length s)) s a.
End Each.

Definition DigestParam (value name : gostring) : option gostring :=
  eachDigestParam (fun out k v => if equal_fold k name then (Some v, false) else (out, true)) value None.

(** [fnv.New64a] *)
Definition fnv_offset64 : Z := 14695981039346656037.
Definition fnv_prime64 : Z := 1099511628211.
Definition fnv_write (h : Z) (bs : list Z) : Z :=
  fold_left (fun h b => wrap_uint 64 (Z.lxor h b * fnv_prime64)) bs h.

Definition digest_fields : list gostring :=
  [str "username"; str "realm"; str "nonce"; str "uri"; str "response"; str "cnonce"; str "nc"].

(** The values found so far, after one more auth-param. *)
Definition note_param (vals : list gostring) (k v : gostring) : list gostring :=
  zip_with (fun f old => if equal_fold k f && bool_decide (old = []) then v else old) digest_fields vals.

Definition digest_vals (value : gostring) : list gostring :=
  eachDigestParam (fun vals k v => (note_param vals k v, true)) value (replicate 7 []).

Definition digest_key (vals : list gostring) : Z :=
  fold_left (fun h v => fnv_write (fnv_write h v) [0]) vals fnv_offset64.

(** The username, the nonce and the key. *)
Definition DigestIdentity (value : gostring) : gostring * gostring * Z :=
  let vals := digest_vals value in
  let at_ i := default [] (vals !! i) in
  if bool_decide (at_ 4%nat = []) then (at_ 0%nat, at_ 2%nat, fnv_write fnv_offset64 (trim_space value))
  else (at_ 0%nat, at_ 2%nat, digest_key vals).

(** ** Address of record *)

Definition user_structural : gostring := str "@ " ++ [9; 13; 10] ++ str "<>;," ++ [34].
Definition host_structural : gostring := str " " ++ [9; 13; 10] ++ str "<>;," ++ [34].

Definition NormalizeAOR (user host : gostring) : option gostring :=
  if bool_decide (user = []) || bool_decide (host = []) then None
  else if contains_any user user_structural || (128 <? len user) then None
  else if contains_any host host_structural || (255 <? len host) then None
  else Some (to_lower (user ++ str "@" ++ host)).

(** The URI of a To value: between the angle brackets, or up to a [;]. *)
Definition to_uri (v : gostring) : option gostring :=
  match index_byte v 60 with
  | Some lt =>
      match index_byte (drop lt v) 62 with
      | None => None
      | Some gt => Some (drop 1 (take gt (drop lt v)))
      end
  | None => match index_byte v 59 with Some semi => Some (take semi v) | None => Some v end
  end.

(** The user and host of the URI after its scheme. *)
Definition uri_user (user : gostring) : gostring :=
  match index_byte user 58 with Some c => take c user | None => user end.

Definition uri_host (host : gostring) : gostring :=
  let host := match index_any host [59; 63] with Some e => take e host | None => host end in
  if has_prefix host (str "[") then
    match index_byte host 93 with Some rb => take (S rb) host | None => host end
  else match index_byte host 58 with Some c => take c host | None => host end.

Definition aorOfToValue (v : gostring) : gostring :=
  match to_uri v with
  | None => []
  | Some v =>
      let '(scheme, rest, ok) := cut (trim_space v) 58 in
      if negb ok || negb (equal_fold scheme (str "sip") || equal_fold scheme (str "sips")) then []
      else match last_index_byte rest 64 with
           | None => []
           | Some at_ => default [] (NormalizeAOR (uri_user (take at_ rest)) (uri_host (drop (S at_) rest)))
           end
  end.

(** ** Header parameters *)

Fixpoint param_among (ps : list gostring) (name : gostring) : option gostring :=
  match ps with
  | [] => None
  | p :: ps' => let '(k, val, _) := cut p 61 in
      if equal_fold (trim_space k) name then Some (trim_space val) else param_among ps' name
  end.

Definition paramOf (v name : gostring) : option gostring :=
  let '(_, params, ok) := cut v 59 in
  if negb ok then None else param_among (split params 59) name.

(** ** The scan *)

Record RegisterHead := mkHead {
  Branch : gostring; CallID : gostring; AOR : gostring;
  Auth : bool; User : gostring; Nonce : gostring; AuthKey : Z
}.

Definition no_head : RegisterHead := mkHead [] [] [] false [] [] 0.

Definition headerIs (name long compact : gostring) : bool :=
  equal_fold name long || (negb (bool_decide (compact = [])) && equal_fold name compact).

Definition is_via (name : gostring) : bool := headerIs name (str "via") (str "v").
Definition is_call_id (name : gostring) : bool := headerIs name (str "call-id") (str "i").
Definition is_to (name : gostring) : bool := headerIs name (str "to") (str "t").
Definition is_auth (name : gostring) : bool :=
  headerIs name (str "authorization") [] || headerIs name (str "proxy-authorization") [].

Definition interesting (name : gostring) : bool :=
  is_via name || is_call_id name || is_to name || is_auth name.

(** The variables the closure [flush] works on. *)
Record scan := mkScan { sc_head : RegisterHead; sc_via : bool; sc_name : gostring; sc_value : gostring }.

Definition read_header (h : RegisterHead) (via : bool) (name value : gostring) : RegisterHead * bool :=
  let v := trim_space value in
  if is_via name then
    if via then (h, via)
    else let '(first, _, _) := cut v 44 in
         (mkHead (default [] (paramOf first (str "branch"))) (CallID h) (AOR h) (Auth h) (User h) (Nonce h) (AuthKey h), true)
  else if is_call_id name then
    (if bool_decide (CallID h = []) then mkHead (Branch h) v (AOR h) (Auth h) (User h) (Nonce h) (AuthKey h) else h, via)
  else if is_to name then
    (if bool_decide (AOR h = []) then mkHead (Branch h) (CallID h) (aorOfToValue v) (Auth h) (User h) (Nonce h) (AuthKey h) else h, via)
  else if is_auth name then
    (if Auth h then h
     else let '(u, n, k) := DigestIdentity v in mkHead (Branch h) (CallID h) (AOR h) true u n k, via)
  else (h, via).

Definition flush (s : scan) : scan :=
  if bool_decide (sc_name s = []) then s
  else let '(h, via) := read_header (sc_head s) (sc_via s) (sc_name s) (sc_value s) in mkScan h via [] [].

(** One line of the header block, its line ending gone. *)
Definition scan_line (s : scan) (line : gostring) : scan :=
  match line with
  | c :: _ =>
      if is_blank c then
        if negb (bool_decide (sc_name s = [])) && interesting (sc_name s)
        then mkScan (sc_head s) (sc_via s) (sc_name s) (sc_value s ++ 32 :: trim_space line)
        else s
      else
        let s := flush s in
        match index_byte line 58 with
        | None => s
        | Some colon =>
            let name := trim_space (take colon line) in
            mkScan (sc_head s) (sc_via s) name (if interesting name then drop (S colon) line else sc_value s)
        end
  | [] => s
  end.

(** [bytes.TrimSuffix(line, "\r")] *)
Definition chomp (line : gostring) : gostring :=
  match rev line with 13 :: l => rev l | _ => line end.

(** The loop over the lines, until an empty one or the end of the bytes. *)
Fixpoint scan_lines (fuel : nat) (rest : gostring) (s : scan) : scan :=
  match fuel with
  | O => s
  | S fuel' =>
      if bool_decide (rest = []) then s
      else let '(line, rest, _) := cut rest 10 in
           let line := chomp line in
           if bool_decide (line = []) then s else scan_lines fuel' rest (scan_line s line)
  end.

Definition ScanRegister (msg : gostring) : RegisterHead * bool :=
  if negb (has_prefix msg (str "REGISTER ")) then (no_head, false)
  else match index_byte msg 10 with
       | None => (no_head, true)
       | Some i =>
           let rest := drop (S i) msg in
           (sc_head (flush (scan_lines (S (length rest)) rest (mkScan no_head false [] []))), true)
       end.

(** ** Trimming *)

Lemma trim_left_app f a s : forallb f a = true -> trim_left f (a ++ s) = trim_left f s.
Proof. induction a as [|x a IH]; [done|]. cbn. intros [-> H]%andb_true_iff. by apply IH. Qed.

Definition ends_ok (f : Z -> bool) (s : gostring) : bool :=
  match s with [] => true | x :: _ => negb (f x) end && match rev s with [] => true | x :: _ => negb (f x) end.

Lemma trim_left_stop f s : match s with [] => true | x :: _ => negb (f x) end = true -> trim_left f s = s.
Proof. destruct s as [|x s]; [done|]. cbn. by intros ->%negb_true_iff. Qed.

Lemma trim_right_app f a s : forallb f s = true -> trim_right f (a ++ s) = trim_right f a.
Proof.
  intros H. unfold trim_right. rewrite rev_app_distr, trim_left_app; [done|].
  rewrite forallb_forall in *. intros x Hx. apply H. by apply in_rev.
Qed.

Lemma trim_space_ends a s b : forallb is_space a = true -> forallb is_space b = true ->
  ends_ok is_space s = true -> trim_space (a ++ s ++ b) = s.
Proof.
  intros Ha Hb [H1 H2]%andb_true_iff. unfold trim_space. rewrite trim_left_app by done.
  destruct s as [|x s].
  - cbn [app]. rewrite <- (app_nil_r b), trim_left_app by done. done.
  - cbn [app trim_left]. cbn in H1. apply negb_true_iff in H1. rewrite H1.
    change (x :: s ++ b) with ((x :: s) ++ b). rewrite trim_right_app by done.
    unfold trim_right. rewrite trim_left_stop by done. apply rev_involutive.
Qed.

Lemma trim_space_post s b : forallb is_space b = true -> ends_ok is_space s = true -> trim_space (s ++ b) = s.
Proof. intros Hb Hs. by apply (trim_space_ends [] s b). Qed.

Lemma trim_space_same s : ends_ok is_space s = true -> trim_space s = s.
Proof. intros Hs. rewrite <- (app_nil_r s) at 1. by apply trim_space_post. Qed.

Lemma blank_is_space c : is_blank c = true -> is_space c = true.
Proof. unfold is_blank, mem, is_space. cbn. lia. Qed.

Lemma blanks_are_spaces b : forallb is_blank b = true -> forallb is_space b = true.
Proof. rewrite !forallb_forall. intros H x Hx. by apply blank_is_space, H. Qed.

Lemma index_byte_length s c i : index_byte s c = Some i -> (i < length s)%nat.
Proof. intros (a & b & -> & <- & _)%index_byte_spec. rewrite length_app. cbn. lia. Qed.

(** ** The loop over auth-params ends *)

Lemma quoted_length s : forall b v r, quoted s b = (v, r) -> (length r <= length s)%nat.
Proof.
  induction s as [s IH] using (induction_ltof1 _ (@length Z)). unfold ltof in IH.
  intros b v r. destruct s as [|c s]; [intros [= <- <-]; done|].
  destruct s as [|d s].
  - cbn. case_if; intros [= <- <-]; cbn; lia.
  - cbn [quoted]. destruct (c =? 92).
    + intros H. apply IH in H; cbn in *; lia.
    + destruct (c =? 34); [intros [= <- <-]; done|]. intros H. apply (IH (d :: s)) in H; cbn in *; lia.
Qed.

Definition eq_count (s : gostring) : nat := length (filter (fun c => c = 61) s).

Lemma eq_count_app a b : eq_count (a ++ b) = (eq_count a + eq_count b)%nat.
Proof. unfold eq_count. by rewrite filter_app, length_app. Qed.

(** What is left of a text: one of its suffixes. *)
Definition suffix_of (r s : gostring) : Prop := exists a, s = a ++ r.

Lemma suffix_refl s : suffix_of s s.
Proof. by exists []. Qed.

Lemma suffix_trans a b c : suffix_of a b -> suffix_of b c -> suffix_of a c.
Proof. intros [x ->] [y ->]. exists (y ++ x). by rewrite app_assoc. Qed.

Lemma suffix_drop n s : suffix_of (drop n s) s.
Proof. exists (take n s). by rewrite take_drop. Qed.

Lemma suffix_trim f s : suffix_of (trim_left f s) s.
Proof.
  induction s as [|x s IH]; [apply suffix_refl|]. cbn. case_if; [|apply suffix_refl].
  destruct IH as [a E]. exists (x :: a). cbn. by rewrite <- E.
Qed.

Lemma suffix_nil s : suffix_of [] s.
Proof. exists s. by rewrite app_nil_r. Qed.

Lemma suffix_quoted s : forall b v r, quoted s b = (v, r) -> suffix_of r s.
Proof.
  induction s as [s IH] using (induction_ltof1 _ (@length Z)). unfold ltof in IH.
  intros b v r. destruct s as [|c s]; [intros [= <- <-]; apply suffix_refl|].
  destruct s as [|d s].
  - cbn. case_if; intros [= <- <-]; [apply suffix_refl|apply suffix_nil].
  - cbn [quoted]. destruct (c =? 92).
    + intros H. apply IH in H; [|cbn; lia]. apply (suffix_trans _ _ _ H). by exists [c; d].
    + destruct (c =? 34); [intros [= <- <-]; apply suffix_refl|].
      intros H. apply (IH (d :: s)) in H; [|cbn; lia]. apply (suffix_trans _ _ _ H). by exists [c].
Qed.

Lemma suffix_after s : suffix_of (after_comma s) s.
Proof. unfold after_comma. destruct (index_byte s 44); [apply suffix_drop|apply suffix_nil]. Qed.

Lemma suffix_value s v r : param_value s = (v, r) -> suffix_of r s.
Proof.
  unfold param_value. destruct (has_prefix s [34]).
  - destruct (quoted (drop 1 s) []) as [w q] eqn:E. intros [= _ <-]. apply suffix_quoted in E.
    apply (suffix_trans _ _ _ (suffix_after _)). apply (suffix_trans _ _ _ (suffix_drop _ _)).
    exact (suffix_trans _ _ _ E (suffix_drop _ _)).
  - destruct (index_byte s 44); intros [= _ <-]; [apply suffix_drop|apply suffix_nil].
Qed.

#[export] Hint Resolve suffix_refl suffix_drop suffix_trim suffix_nil suffix_after : sbc_scan.

(** A turn of the loop leaves a suffix, past an equals sign. *)
Lemma next_param_suffix s k v r : next_param s = Some (k, v, r) ->
  exists a, suffix_of r a /\ suffix_of (61 :: a) s.
Proof.
  unfold next_param. destruct (index_byte (trim_left is_blank_comma s) 61) as [eq|] eqn:E; [|done].
  apply index_byte_spec in E as (x & y & E & Hl & _). intros H. exists y. split.
  - rewrite E in H. replace (S eq) with (length (x ++ [61])) in H by (rewrite length_app; cbn; lia).
    change (x ++ 61 :: y) with (x ++ [61] ++ y) in H. rewrite (app_assoc x [61] y) in H. rewrite drop_app_length in H. cbv zeta in H.
    destruct (param_value (trim_left is_blank y)) as [w q] eqn:Ev. injection H as _ _ <-.
    apply suffix_value in Ev. exact (suffix_trans _ _ _ Ev (suffix_trim _ _)).
  - destruct (suffix_trim is_blank_comma s) as [z Hz]. exists (z ++ x). by rewrite <- app_assoc, <- E.
Qed.

Lemma suffix_length r s : suffix_of r s -> (length r <= length s)%nat.
Proof. intros [a ->]. rewrite length_app. lia. Qed.

Lemma suffix_eq_count r s : suffix_of r s -> (eq_count r <= eq_count s)%nat.
Proof. intros [a ->]. rewrite eq_count_app. lia. Qed.

Lemma next_param_shrinks s k v r : next_param s = Some (k, v, r) ->
  (length r < length s)%nat /\ (eq_count r < eq_count s)%nat.
Proof.
  intros (a & Hr & Ha)%next_param_suffix. split.
  - apply suffix_length in Hr. apply suffix_length in Ha. cbn in Ha. lia.
  - apply suffix_eq_count in Hr. apply suffix_eq_count in Ha. change (61 :: a) with ([61] ++ a) in Ha.
    rewrite eq_count_app in Ha. change (eq_count [61]) with 1%nat in Ha. lia.
Qed.

(** The auth-params of a text, in order. *)
Fixpoint params_fuel (fuel : nat) (s : gostring) : list (gostring * gostring) :=
  match fuel with
  | O => []
  | S fuel' => if bool_decide (s = []) then []
               else match next_param s with Some (k, v, r) => (k, v) :: params_fuel fuel' r | None => [] end
  end.

(** Calling a function on each pair until it says to stop. *)
Fixpoint until {A} (fn : A -> gostring -> gostring -> A * bool) (ps : list (gostring * gostring)) (a : A) : A :=
  match ps with
  | [] => a
  | (k, v) :: ps' => let '(a, go) := fn a k v in if go : bool then until fn ps' a else a
  end.

Lemma each_loop_until {A} (fn : A -> gostring -> gostring -> A * bool) fuel :
  forall s a, each_loop fn fuel s a = until fn (params_fuel fuel s) a.
Proof.
  induction fuel as [|fuel IH]; intros s a; [done|]. cbn [each_loop params_fuel]. case_if; [done|].
  destruct (next_param s) as [[[k v] r]|]; [|done]. cbn [until]. destruct (fn a k v) as [a' []]; [apply IH|done].
Qed.

Lemma params_fuel_enough fuel : forall s, (length s < fuel)%nat -> params_fuel fuel s = params_fuel (S (length s)) s.
Proof.
  intros s. revert fuel. induction s as [s IH] using (induction_ltof1 _ (@length Z)). unfold ltof in IH.
  intros fuel Hf. destruct fuel as [|fuel]; [lia|]. cbn [params_fuel]. case_if; [done|].
  destruct (next_param s) as [[[k v] r]|] eqn:E; [|done]. apply next_param_shrinks in E as [E _].
  f_equal. rewrite (IH r) by lia. symmetry. apply IH; lia.
Qed.

Lemma params_fuel_count fuel : forall s, (length (params_fuel fuel s) <= eq_count s)%nat.
Proof.
  induction fuel as [|fuel IH]; intros s; cbn [params_fuel length]; [lia|]. case_if; cbn; [lia|].
  destruct (next_param s) as [[[k v] r]|] eqn:E; [|cbn; lia]. apply next_param_shrinks in E as [_ E].
  cbn. specialize (IH r). lia.
Qed.

Definition digest_params (value : gostring) : list (gostring * gostring) :=
  let s := skip_scheme value in params_fuel (S (length s)) s.

Lemma eachDigestParam_until {A} (fn : A -> gostring -> gostring -> A * bool) value a :
  eachDigestParam fn value a = until fn (digest_params value) a.
Proof. apply each_loop_until. Qed.

Lemma skip_scheme_suffix v : suffix_of (skip_scheme v) (trim_space v).
Proof. unfold skip_scheme. destruct (index_any _ _); [case_if; auto with sbc_scan|apply suffix_refl]. Qed.

Lemma eq_count_trim_space v : (eq_count (trim_space v) <= eq_count v)%nat.
Proof.
  unfold trim_space, trim_right.
  assert (Hr : forall s, eq_count (rev s) = eq_count s).
  { induction s as [|x s IH]; [done|]. cbn [rev]. rewrite eq_count_app, IH. change (x :: s) with ([x] ++ s). rewrite eq_count_app. lia. }
  rewrite Hr. etrans; [apply suffix_eq_count, suffix_trim|]. rewrite Hr. apply suffix_eq_count, suffix_trim.
Qed.

(** the walk over the auth-params of a value ends whatever the bytes: it
    calls its function on a fixed list of pairs, in order, until the function
    stops it; there are at most as many pairs as equals signs in the value,
    and the loop's bound is never what ends it. *)
Theorem each_param_terminates {A} (fn : A -> gostring -> gostring -> A * bool) value a :
  exists ps, (length ps <= eq_count value)%nat /\ eachDigestParam fn value a = until fn ps a /\
  forall fuel, (length (skip_scheme value) < fuel)%nat -> each_loop fn fuel (skip_scheme value) a = until fn ps a.
Proof.
  exists (digest_params value). split.
  - etrans; [apply params_fuel_count|]. etrans; [apply suffix_eq_count, skip_scheme_suffix|apply eq_count_trim_space].
  - split; [apply eachDigestParam_until|]. intros fuel Hf. by rewrite each_loop_until, params_fuel_enough.
Qed.

(** ** Credentials as they are written *)

(** One auth-param with the spacing and the quoting the sender chose. *)
Record rparam := mkRParam {
  rp_pre : gostring; rp_key : gostring; rp_sp1 : gostring; rp_sp2 : gostring;
  rp_quoted : bool; rp_val : gostring; rp_post : gostring
}.

Definition escape (v : gostring) : gostring :=
  concat (map (fun c => if (c =? 92) || (c =? 34) then [92; c] else [c]) v).

Definition render_param (p : rparam) : gostring :=
  rp_pre p ++ rp_key p ++ rp_sp1 p ++ 61 :: rp_sp2 p ++
  (if rp_quoted p then 34 :: escape (rp_val p) ++ [34] else rp_val p) ++ rp_post p.

Definition render_params (ps : list rparam) : gostring := join (map render_param ps) 44.

Definition key_byte (c : Z) : bool := negb (is_space c || (c =? 44) || (c =? 61)).

(** Blanks where blanks may be; a bare value has no comma, no white space at
    its ends and does not start with a quote; a quoted one is any text. *)
Definition rparam_ok (p : rparam) : bool :=
  forallb is_blank_comma (rp_pre p) && forallb is_blank (rp_sp1 p) && forallb is_blank (rp_sp2 p) &&
  forallb is_blank (rp_post p) && negb (bool_decide (rp_key p = [])) && forallb key_byte (rp_key p) &&
  (rp_quoted p ||
   (ends_ok is_space (rp_val p) && negb (has_prefix (rp_val p) [34]) && forallb (fun c => negb (c =? 44)) (rp_val p))).

Definition rp_pair (p : rparam) : gostring * gostring := (rp_key p, rp_val p).

Lemma quoted_close r b : quoted (34 :: r) b = (rev b, 34 :: r).
Proof. by destruct r. Qed.

Lemma quoted_step c d s b : (c =? 92) || (c =? 34) = false -> quoted (c :: d :: s) b = quoted (d :: s) (c :: b).
Proof.
  intros [E1 E2]%orb_false_iff.
  change (quoted (c :: d :: s) b) with
    (if c =? 92 then quoted s (d :: b) else if c =? 34 then (rev b, c :: d :: s) else quoted (d :: s) (c :: b)).
  by rewrite E1, E2.
Qed.

Lemma quoted_escape v r : forall b, quoted (escape v ++ 34 :: r) b = (rev b ++ v, 34 :: r).
Proof.
  unfold escape. induction v as [|c v IH]; intros b; cbn [map concat app].
  - by rewrite app_nil_r, quoted_close.
  - rewrite <- app_assoc. destruct ((c =? 92) || (c =? 34)) eqn:E.
    + cbn [app]. etrans; [apply IH|]. cbn [rev]. by rewrite <- app_assoc.
    + cbn [app].
      destruct (concat _ ++ 34 :: r) as [|d s] eqn:Es; [by destruct (concat _)|].
      rewrite quoted_step, IH by done. cbn [rev]. by rewrite <- app_assoc.
Qed.

Lemma forallb_free (f : Z -> bool) c s : forallb f s = true -> f c = false -> c ∉ s.
Proof. intros Hs Hc Hin. rewrite forallb_forall in Hs. apply list_elem_of_In, Hs in Hin. congruence. Qed.

(** The text after a parameter: nothing, or a comma and the next ones. *)
Definition tail_of (t r : gostring) : Prop := (t = [] /\ r = []) \/ t = 44 :: r.

Lemma find_comma s t r : 44 ∉ s -> tail_of t r ->
  match index_byte (s ++ t) 44 with
  | Some c => take c (s ++ t) = s /\ drop (S c) (s ++ t) = r
  | None => s ++ t = s /\ r = []
  end.
Proof.
  intros Hs [[-> ->]| ->].
  - rewrite app_nil_r, (proj2 (index_byte_none s 44) Hs). done.
  - rewrite index_byte_app by done. rewrite take_app_length. split; [done|].
    replace (S (length s)) with (length (s ++ [44])) by (rewrite length_app; cbn; lia).
    change (s ++ 44 :: r) with (s ++ [44] ++ r). by rewrite app_assoc, drop_app_length.
Qed.

Lemma param_value_bare v post t r : ends_ok is_space v = true -> has_prefix v [34] = false -> 44 ∉ v ->
  forallb is_blank post = true -> tail_of t r ->
  param_value (trim_left is_blank (v ++ post ++ t)) = (v, r).
Proof.
  intros He Hq Hc Hb Ht.
  assert (Hs : exists w, trim_left is_blank (v ++ post ++ t) = w ++ t /\ has_prefix (w ++ t) [34] = false /\ 44 ∉ w /\ trim_space w = v).
  { destruct v as [|x v].
    - exists []. cbn [app]. rewrite trim_left_app by done.
      assert (trim_left is_blank t = t) as -> by (destruct Ht as [[-> _]| ->]; done). destruct Ht as [[-> _]| ->]; repeat split; set_solver.
    - exists ((x :: v) ++ post). rewrite <- !app_assoc. split.
      + cbn [app trim_left]. replace (is_blank x) with false; [done|]. symmetry. apply not_true_iff_false.
        intros Hx%blank_is_space. unfold ends_ok in He. by rewrite Hx in He.
      + split; [cbn in *; lia|]. split.
        * rewrite not_elem_of_app. split; [done|]. by apply (forallb_free is_blank).
        * apply trim_space_post; [by apply blanks_are_spaces|done]. }
  destruct Hs as (w & -> & Hp & Hw & <-). pose proof (find_comma w t r Hw Ht) as Hf.
  unfold param_value. rewrite Hp. destruct (index_byte (w ++ t) 44); destruct Hf as [E1 E2]; by rewrite ?E1, ?E2.
Qed.

Lemma after_post post t r : forallb is_blank post = true -> tail_of t r -> after_comma (post ++ t) = r.
Proof.
  intros Hb Ht. pose proof (find_comma post t r ltac:(by apply (forallb_free is_blank)) Ht) as Hf.
  unfold after_comma. destruct (index_byte (post ++ t) 44); destruct Hf as [E1 E2]; by rewrite ?E1, ?E2.
Qed.

Lemma param_value_quoted v post t r : forallb is_blank post = true -> tail_of t r ->
  param_value (34 :: escape v ++ 34 :: post ++ t) = (v, r).
Proof.
  intros Hb Ht. unfold param_value. cbn [has_prefix]. change ((34 =? 34) && true) with true. cbv iota.
  cbn [drop]. rewrite drop_0, quoted_escape. cbn [rev app drop]. by rewrite drop_0, (after_post _ _ r).
Qed.

Lemma next_param_render p t r : rparam_ok p = true -> tail_of t r ->
  next_param (render_param p ++ t) = Some (rp_key p, rp_val p, r).
Proof.
  unfold rparam_ok, render_param. destruct p as [pre key sp1 sp2 q v post]. cbn [rp_pre rp_key rp_sp1 rp_sp2 rp_quoted rp_val rp_post].
  rewrite !andb_true_iff, negb_true_iff, bool_decide_eq_false. intros [[[[[[H1 H2] H3] H4] Hk] H5] Hv] Ht.
  unfold next_param. rewrite <- !app_assoc, trim_left_app by done.
  assert (Hkc : forall c, c ∈ key -> key_byte c = true) by (intros c Hc; rewrite forallb_forall in H5; by apply H5, list_elem_of_In).
  assert (Htl : forall x, trim_left is_blank_comma (key ++ x) = key ++ x).
  { intros x. apply trim_left_stop. destruct key as [|c key]; [done|]. cbn [app].
    specialize (Hkc c ltac:(set_solver)). unfold key_byte, is_space, is_blank_comma, mem in *. cbn. lia. }
  rewrite Htl. rewrite app_assoc. cbn [app].
  assert (H61 : 61 ∉ key ++ sp1).
  { rewrite not_elem_of_app. split; [by apply (forallb_free key_byte)|by apply (forallb_free is_blank)]. }
  rewrite index_byte_app by done. rewrite take_app_length. cbv zeta.
  assert (Hd : forall x, drop (S (length (key ++ sp1))) ((key ++ sp1) ++ 61 :: x) = x).
  { intros x. replace (S (length (key ++ sp1))) with (length ((key ++ sp1) ++ [61])) by (rewrite length_app; cbn; lia).
    change ((key ++ sp1) ++ 61 :: x) with ((key ++ sp1) ++ [61] ++ x). by rewrite app_assoc, drop_app_length. }
  rewrite Hd, <- !app_assoc, trim_left_app by done.
  rewrite trim_space_post; [|by apply blanks_are_spaces|].
  2:{ unfold ends_ok. assert (Hh : forall c, c ∈ key -> negb (is_space c) = true).
      { intros c Hc%Hkc. unfold key_byte in Hc. apply negb_true_iff in Hc. by destruct (is_space c). }
      destruct key as [|c key]; [done|]. rewrite Hh by set_solver.
      destruct (rev (c :: key)) eqn:E; [done|]. apply Hh. apply list_elem_of_In, in_rev. rewrite E. by left. }
  destruct q.
  - cbn [app trim_left]. change (is_blank 34) with false. cbv iota. rewrite <- app_assoc. cbn [app].
    by rewrite (param_value_quoted v post t r).
  - apply orb_true_iff in Hv as [Hv|Hv]; [done|]. rewrite !andb_true_iff, negb_true_iff in Hv. destruct Hv as [[V1 V2] V3].
    rewrite (param_value_bare v post t r); [done..|by apply (forallb_free (fun c => negb (c =? 44)))|done|done].
Qed.

Lemma params_fuel_render ps : forallb rparam_ok ps = true -> forall fuel, (length (render_params ps) < fuel)%nat ->
  params_fuel fuel (render_params ps) = map rp_pair ps.
Proof.
  induction ps as [|p ps IH]; intros H fuel Hf.
  - destruct fuel; [cbn in Hf; lia|]. done.
  - cbn [forallb] in H. apply andb_true_iff in H as [Hp Hps]. destruct fuel as [|fuel]; [lia|].
    cbn [params_fuel]. assert (Hne : render_params (p :: ps) <> []).
    { unfold render_params, render_param. cbn. destruct ps; cbn; by destruct (rp_pre p), (rp_key p), (rp_sp1 p). }
    rewrite bool_decide_eq_false_2 by done. destruct ps as [|p' ps].
    + unfold render_params. cbn [map join]. rewrite <- (app_nil_r (render_param p)), (next_param_render p [] []) by (done || by left).
      cbn [map]. by destruct fuel.
    + change (render_params (p :: p' :: ps)) with (render_param p ++ 44 :: render_params (p' :: ps)) in *.
      rewrite (next_param_render p _ (render_params (p' :: ps))) by (done || by right).
      cbn [map]. f_equal. apply IH; [done|]. rewrite length_app in Hf. cbn [length] in Hf. lia.
Qed.

(** A value: the scheme, a space and the parameters. *)
Definition credentials_ok (value scheme : gostring) (ps : list rparam) : Prop :=
  trim_space value = scheme ++ 32 :: render_params ps /\
  forallb (fun c => negb (is_blank c || (c =? 61))) scheme = true /\ forallb rparam_ok ps = true.

Lemma index_any_app a c b cs : forallb (fun c => negb (mem c cs)) a = true -> mem c cs = true ->
  index_any (a ++ c :: b) cs = Some (length a).
Proof.
  intros Ha Hc. unfold index_any. induction a as [|x a IH]; cbn; [by rewrite Hc|].
  cbn in Ha. apply andb_true_iff in Ha as [Hx%negb_true_iff Ha]. by rewrite Hx, IH.
Qed.

Lemma contains_byte s c : contains s [c] = true -> c ∈ s.
Proof.
  unfold contains. destruct (index s [c]) eqn:E; [|done]. intros _. revert n E. induction s as [|x s IH]; intros n; [done|].
  cbn. destruct (x =? c) eqn:Ex.
  - apply Z.eqb_eq in Ex as ->. set_solver.
  - replace ((c =? x) && true) with false by lia. destruct (index s [c]) eqn:E'; [|done]. intros _. apply elem_of_cons. right. by apply (IH n0).
Qed.

Lemma digest_params_render value scheme ps : credentials_ok value scheme ps -> digest_params value = map rp_pair ps.
Proof.
  intros (Hv & Hs & Hp). unfold digest_params, skip_scheme. rewrite Hv. cbv zeta.
  rewrite index_any_app; [| |done].
  2:{ rewrite forallb_forall in *. intros c Hc. specialize (Hs c Hc). unfold is_blank in Hs. lia. }
  rewrite take_app_length. destruct (contains scheme (str "=")) eqn:E.
  { apply contains_byte in E. exfalso. revert E. by apply (forallb_free (fun c => negb (is_blank c || (c =? 61)))). }
  assert (Hd : drop (S (length scheme)) (scheme ++ 32 :: render_params ps) = render_params ps).
  { replace (S (length scheme)) with (length (scheme ++ [32])) by (rewrite length_app; cbn; lia).
    change (scheme ++ 32 :: render_params ps) with (scheme ++ [32] ++ render_params ps). by rewrite app_assoc, drop_app_length. }
  rewrite Hd. apply params_fuel_render; [done|lia].
Qed.

(** ** Credential attempts *)

(** The first value with that name (any case), and the first that is not
    empty. *)
Fixpoint first_param (ps : list (gostring * gostring)) (name : gostring) : option gostring :=
  match ps with
  | [] => None
  | (k, v) :: ps' => if equal_fold k name then Some v else first_param ps' name
  end.

Fixpoint first_value (ps : list (gostring * gostring)) (name : gostring) : gostring :=
  match ps with
  | [] => []
  | (k, v) :: ps' => if equal_fold k name && negb (bool_decide (v = [])) then v else first_value ps' name
  end.

Lemma until_first ps name :
  until (fun out k v => if equal_fold k name then (Some v, false) else (out, true)) ps None = first_param ps name.
Proof. induction ps as [|[k v] ps IH]; [done|]. cbn [until first_param]. by case_if. Qed.

Lemma zip_with_cong {A B C} (f g : A -> B -> C) l k :
  (forall x y, f x y = g x y) -> zip_with f l k = zip_with g l k.
Proof. intros H. revert k. induction l as [|x l IH]; intros [|y k]; cbn; [done..|]. by rewrite H, IH. Qed.

Lemma zip_with_zip {A B} (f g : A -> B -> B) l k :
  zip_with f l (zip_with g l k) = zip_with (fun x y => f x (g x y)) l k.
Proof. revert k. induction l as [|x l IH]; intros [|y k]; cbn; [done..|]. by rewrite IH. Qed.

Lemma until_note ps : forall vals, length vals = length digest_fields ->
  until (fun vals k v => (note_param vals k v, true)) ps vals =
  zip_with (fun f old => if bool_decide (old = []) then first_value ps f else old) digest_fields vals.
Proof.
  induction ps as [|[k v] ps IH]; intros vals Hl; cbn [until first_value].
  - revert vals Hl. generalize digest_fields. intros l. induction l as [|f l IH]; intros [|x vals]; cbn; [done..|].
    intros [= Hl]. rewrite <- IH by done. f_equal. by destruct x.
  - rewrite IH by (unfold note_param; rewrite length_zip_with; cbn [length digest_fields] in *; lia).
    unfold note_param. rewrite zip_with_zip. apply zip_with_cong. intros f old.
    destruct old as [|c old]; [|by rewrite andb_false_r].
    rewrite (bool_decide_eq_true_2 ([] = [])) by done. rewrite andb_true_r. destruct (equal_fold k f); cbn [andb]; [|done].
    destruct v; cbn; done.
Qed.

Lemma digest_vals_first value : digest_vals value = map (first_value (digest_params value)) digest_fields.
Proof. unfold digest_vals. rewrite eachDigestParam_until, until_note by done. done. Qed.

(** reading back auth-params: whatever the quoting, the spacing and the
    case of the names a sender chose, [DigestParam] returns the value of the
    first parameter with that name, escapes undone. *)
Theorem digest_params_roundtrip value scheme ps name :
  credentials_ok value scheme ps -> DigestParam value name = first_param (map rp_pair ps) name.
Proof.
  intros H. unfold DigestParam. rewrite eachDigestParam_until, (digest_params_render _ _ _ H). apply until_first.
Qed.

(** A user name with quotes and a comma in it. *)
Definition ann : gostring := str "ann " ++ [34; 49; 34] ++ str ", x".

(** A credential with a quoted comma, an escaped quote and odd spacing. *)
Definition example_params : list rparam :=
  [ mkRParam [] (str "username") [] [] true (ann) [];
    mkRParam (str " ") (str "Nonce") (str " ") (str " ") true (str "n1") (str " ");
    mkRParam (str " ,") (str "nc") [] [] false (str "00000001") [];
    mkRParam (str " ") (str "response") [] [] true (str "0a1b") [] ].

Definition example_value : gostring := str " Digest " ++ render_params example_params ++ str " ".

Lemma example_credentials_ok : credentials_ok example_value (str "Digest") example_params.
Proof. split; [vm_compute; reflexivity|]. split; vm_compute; reflexivity. Qed.

Lemma digest_params_roundtrip_witness :
  credentials_ok example_value (str "Digest") example_params /\
  DigestParam example_value (str "NONCE") = Some (str "n1") /\
  DigestParam example_value (str "username") = Some (ann).
Proof.
  pose proof example_credentials_ok as H. split; [exact H|].
  rewrite !(digest_params_roundtrip _ _ _ _ H). split; reflexivity.
Defined.

(** Two parameters that say the same. *)
Definition same_param (p q : rparam) : Prop := equal_fold (rp_key p) (rp_key q) = true /\ rp_val p = rp_val q.

Lemma first_value_same ps qs f : Forall2 same_param ps qs ->
  first_value (map rp_pair ps) f = first_value (map rp_pair qs) f.
Proof.
  induction 1 as [|p q ps qs [Hk Hv] _ IH]; [done|]. cbn. rewrite <- Hv, IH.
  replace (equal_fold (rp_key q) f) with (equal_fold (rp_key p) f); [done|].
  apply eq_true_iff_eq. split; intros H.
  - apply (equal_fold_trans _ (rp_key p)); [by rewrite equal_fold_sym|done].
  - by apply (equal_fold_trans _ (rp_key q)).
Qed.

(** one credential attempt has one identity: written with another
    quoting, spacing, case of the names or scheme, the username, the nonce and
    the 64-bit key read from it are the same, and they are the values the
    attempt carries. *)
Theorem attempt_has_one_identity value scheme ps value' scheme' qs :
  credentials_ok value scheme ps -> credentials_ok value' scheme' qs -> Forall2 same_param ps qs ->
  first_value (map rp_pair ps) (str "response") <> [] ->
  DigestIdentity value = DigestIdentity value' /\
  DigestIdentity value = (first_value (map rp_pair ps) (str "username"), first_value (map rp_pair ps) (str "nonce"),
                          digest_key (map (first_value (map rp_pair ps)) digest_fields)).
Proof.
  intros H H' Hs Hr.
  assert (E : forall v s rs, credentials_ok v s rs -> first_value (map rp_pair rs) (str "response") <> [] ->
    DigestIdentity v = (first_value (map rp_pair rs) (str "username"), first_value (map rp_pair rs) (str "nonce"),
                        digest_key (map (first_value (map rp_pair rs)) digest_fields))).
  { intros v s rs Hc Hne. unfold DigestIdentity. rewrite digest_vals_first, (digest_params_render _ _ _ Hc).
    cbn [digest_fields map lookup list_lookup default].
    change (default [] (Some ?x)) with x. cbn [default from_option id]. rewrite bool_decide_eq_false_2; done. }
  rewrite (E _ _ _ H Hr). split; [|done]. rewrite (E _ _ _ H').
  - rewrite !(first_value_same ps qs) by done. do 2 f_equal. apply map_ext. intros f. by apply first_value_same.
  - by rewrite <- (first_value_same ps qs).
Qed.

(** The same attempt as a terse client writes it. *)
Definition terse_params : list rparam :=
  [ mkRParam [] (str "USERNAME") [] [] true (ann) [];
    mkRParam [] (str "nonce") [] [] false (str "n1") [];
    mkRParam [] (str "nc") [] [] true (str "00000001") [];
    mkRParam [] (str "response") [] [] false (str "0a1b") [] ].

Lemma attempt_has_one_identity_witness :
  DigestIdentity example_value = DigestIdentity (str "digest " ++ render_params terse_params) /\
  (DigestIdentity example_value).1.1 = ann.
Proof.
  destruct (attempt_has_one_identity example_value (str "Digest") example_params
              (str "digest " ++ render_params terse_params) (str "digest") terse_params) as [E1 E2].
  - apply example_credentials_ok.
  - split; [vm_compute; reflexivity|]. split; vm_compute; reflexivity.
  - repeat constructor; vm_compute; reflexivity.
  - vm_compute. discriminate.
  - split; [exact E1|]. rewrite E2. reflexivity.
Defined.

(** ** Addresses of record *)

(** What an address of record may not contain: it goes into Request-URIs,
    log lines and map keys. *)
Definition aor_safe (c : Z) : bool := negb (mem c host_structural).

Definition aor_ok (a : gostring) : Prop :=
  exists u h, a = u ++ 64 :: h /\ u <> [] /\ h <> [] /\ 64 ∉ u /\ len u <= 128 /\ len h <= 255 /\
              forallb aor_safe u = true /\ forallb aor_safe h = true /\ to_lower u = u /\ to_lower h = h.

Lemma contains_any_false s cs : contains_any s cs = false -> forallb (fun c => negb (mem c cs)) s = true.
Proof.
  unfold contains_any. induction s as [|x s IH]; [done|]. cbn. intros [-> H]%orb_false_iff. by apply IH.
Qed.

Lemma mem_lower c cs : forallb (fun x => negb ((65 <=? x) && (x <=? 90)) && negb ((97 <=? x) && (x <=? 122))) cs = true ->
  mem (lower_byte c) cs = mem c cs.
Proof.
  unfold mem, lower_byte. intros H. destruct ((65 <=? c) && (c <=? 90)) eqn:E; [|done].
  induction cs as [|x cs IH]; [done|]. cbn in *. apply andb_true_iff in H as [Hx H]. rewrite IH by done. f_equal. lia.
Qed.

Lemma forallb_lower cs s : forallb (fun x => negb ((65 <=? x) && (x <=? 90)) && negb ((97 <=? x) && (x <=? 122))) cs = true ->
  forallb (fun c => negb (mem c cs)) (to_lower s) = forallb (fun c => negb (mem c cs)) s.
Proof.
  intros H. induction s as [|c s IH]; [done|]. cbn [to_lower map forallb]. rewrite mem_lower by done.
  unfold to_lower in IH. by rewrite IH.
Qed.

Lemma len_lower s : len (to_lower s) = len s.
Proof. unfold len. by rewrite to_lower_length. Qed.

Lemma user_safe u : forallb (fun c => negb (mem c user_structural)) u = true -> forallb aor_safe u = true /\ 64 ∉ u.
Proof.
  intros H. split.
  - change user_structural with (64 :: host_structural) in H. rewrite forallb_forall in *. intros c Hc.
    specialize (H c Hc). unfold aor_safe, mem in *. cbn [existsb] in H. apply negb_true_iff, orb_false_iff in H as [_ H]. by rewrite H.
  - apply (forallb_free (fun c => negb (mem c user_structural))); [done|reflexivity].
Qed.

Lemma NormalizeAOR_some u h a : NormalizeAOR u h = Some a ->
  a = to_lower u ++ 64 :: to_lower h /\ u <> [] /\ h <> [] /\ 64 ∉ u /\ len u <= 128 /\ len h <= 255 /\
  forallb (fun c => negb (mem c user_structural)) u = true /\ forallb aor_safe h = true.
Proof.
  unfold NormalizeAOR. case_if; [done|]. case_if; [done|]. case_if; [done|]. intros [= <-]. breflect.
  rewrite !to_lower_app. split; [done|]. apply contains_any_false in H, H1.
  destruct (user_safe _ H1) as [_ Hat]. repeat split; (done || lia).
Qed.

Lemma lower_not_nil s : s <> [] -> to_lower s <> [].
Proof. by destruct s. Qed.

Lemma NormalizeAOR_ok u h a : NormalizeAOR u h = Some a -> aor_ok a.
Proof.
  intros (-> & Hu & Hh & Hat & Lu & Lh & Su & Sh)%NormalizeAOR_some.
  exists (to_lower u), (to_lower h). rewrite !len_lower, !to_lower_idem.
  rewrite <- (forallb_lower user_structural) in Su by reflexivity. destruct (user_safe _ Su) as [Sa Sn].
  unfold aor_safe in *. rewrite !forallb_lower in * by reflexivity.
  repeat split; (done || by apply lower_not_nil).
Qed.

(** an address of record built from a To header is either empty or safe
    to copy: one user and one host, no white space, quote, bracket, comma or
    semicolon in it, bounded in length and in lower case. *)
Theorem aor_is_safe v : aorOfToValue v = [] \/ aor_ok (aorOfToValue v).
Proof.
  unfold aorOfToValue. destruct (to_uri v) as [w|]; [|by left].
  destruct (cut (trim_space w) 58) as [[scheme rest] ok]. case_if; [by left|].
  destruct (last_index_byte rest 64); [|by left].
  destruct (NormalizeAOR _ _) eqn:E; cbn; [right; by apply NormalizeAOR_ok in E|by left].
Qed.

Lemma app_cons_inv (a b c d : gostring) x : x ∉ a -> x ∉ c -> a ++ x :: b = c ++ x :: d -> a = c /\ b = d.
Proof.
  revert c. induction a as [|y a IH]; intros [|z c] Ha Hc; cbn.
  - by intros [= ->].
  - intros [= -> _]. set_solver.
  - intros [= -> _]. set_solver.
  - intros [= -> E]. destruct (IH c) as [-> ->]; [set_solver..|done|done].
Qed.

Lemma lower_byte_64 c : lower_byte c = 64 -> c = 64.
Proof. unfold lower_byte. case_if; lia. Qed.

Lemma at_not_in_lower u : 64 ∉ u -> 64 ∉ to_lower u.
Proof.
  intros H Hin. apply H. unfold to_lower in Hin. apply list_elem_of_In, in_map_iff in Hin as (c & Hc & Hin).
  apply lower_byte_64 in Hc as ->. by apply list_elem_of_In.
Qed.

(** two To addresses are the same address of record exactly when their
    users and their hosts are equal up to case: no two accounts share a key. *)
Theorem aor_key_is_injective u h u' h' a a' :
  NormalizeAOR u h = Some a -> NormalizeAOR u' h' = Some a' ->
  (a = a' <-> equal_fold u u' = true /\ equal_fold h h' = true).
Proof.
  intros (-> & _ & _ & Hu & _)%NormalizeAOR_some (-> & _ & _ & Hu' & _)%NormalizeAOR_some.
  unfold equal_fold. rewrite !beq_eq. split; [|by intros [-> ->]].
  apply app_cons_inv; by apply at_not_in_lower.
Qed.

Lemma aor_key_is_injective_witness :
  NormalizeAOR (str "Alice") (str "Example.org") = Some (str "alice@example.org") /\
  NormalizeAOR (str "alice") (str "EXAMPLE.org") = Some (str "alice@example.org") /\
  equal_fold (str "Alice") (str "alice") = true.
Proof.
  assert (H1 : NormalizeAOR (str "Alice") (str "Example.org") = Some (str "alice@example.org")) by (vm_compute; reflexivity).
  assert (H2 : NormalizeAOR (str "alice") (str "EXAMPLE.org") = Some (str "alice@example.org")) by (vm_compute; reflexivity).
  split; [exact H1|]. split; [exact H2|].
  exact (proj1 (proj1 (aor_key_is_injective _ _ _ _ _ _ H1 H2) eq_refl)).
Defined.

(** ** The header block of a REGISTER as it is written *)

(** One header: the bytes before the colon, the value and its folded lines.
    Each line ends in CRLF or in a bare LF. *)
Record rheader := mkRHeader { rh_name : gostring; rh_value : gostring; rh_folds : list gostring }.

Definition line_ok (l : gostring) : bool :=
  forallb (fun c => negb (c =? 10)) l && match rev l with 13 :: _ => false | _ => true end.

Definition fold_ok (l : gostring) : bool :=
  line_ok l && match l with c :: _ => is_blank c | [] => false end.

Definition rheader_ok (r : rheader) : bool :=
  line_ok (rh_name r ++ 58 :: rh_value r) && forallb (fun c => negb (c =? 58)) (rh_name r) &&
  match rh_name r with c :: _ => negb (is_space c) | [] => false end && forallb fold_ok (rh_folds r).

Definition eol (crlf : bool) : gostring := if crlf then [13; 10] else [10].

Definition render_header (crlf : bool) (r : rheader) : gostring :=
  rh_name r ++ 58 :: rh_value r ++ eol crlf ++ concat (map (fun l => l ++ eol crlf) (rh_folds r)).

(** A REGISTER: the rest of the request line, the headers, the empty line and
    the body. *)
Definition render_register (crlf : bool) (rline : gostring) (rs : list rheader) (body : gostring) : gostring :=
  str "REGISTER " ++ rline ++ 10 :: concat (map (render_header crlf) rs) ++ eol crlf ++ body.

(** The value of a header: its lines joined by a space. *)
Definition joined (r : rheader) : gostring :=
  rh_value r ++ concat (map (fun l => 32 :: trim_space l) (rh_folds r)).

(** What the head of a message with these headers is. *)
Definition head_of (rs : list rheader) : RegisterHead :=
  (fold_left (fun '(h, via) r => read_header h via (trim_space (rh_name r)) (joined r)) rs (no_head, false)).1.

Definition scan_all (rest : gostring) (s : scan) : scan := scan_lines (S (length rest)) rest s.

Lemma cut_rest_length s c : s <> [] -> (length (cut s c).1.2 < length s)%nat.
Proof.
  intros Hs. unfold cut. destruct (index_byte s c) eqn:E; cbn.
  - apply index_byte_length in E. rewrite length_drop. lia.
  - destruct s; cbn; [done|lia].
Qed.

Lemma scan_lines_fuel rest : forall fuel s, (length rest < fuel)%nat -> scan_lines fuel rest s = scan_all rest s.
Proof.
  induction rest as [rest IH] using (induction_ltof1 _ (@length Z)). unfold ltof in IH.
  intros fuel s Hf. destruct fuel as [|fuel]; [lia|]. unfold scan_all. cbn [scan_lines].
  case_if; [done|]. apply bool_decide_eq_false in Heqb. pose proof (cut_rest_length rest 10 Heqb) as Hc.
  destruct (cut rest 10) as [[line rest'] ok]. cbn in Hc. case_if; [done|].
  rewrite (IH rest') by lia. symmetry. apply IH; lia.
Qed.

Lemma line_free l : line_ok l = true -> 10 ∉ l.
Proof. unfold line_ok. intros [H _]%andb_true_iff. by apply (forallb_free (fun c => negb (c =? 10))). Qed.

Lemma chomp_eol l crlf : line_ok l = true -> chomp (l ++ (if crlf : bool then [13] else [])) = l.
Proof.
  unfold line_ok, chomp. intros [_ H]%andb_true_iff. destruct crlf.
  - rewrite rev_app_distr. cbn. apply rev_involutive.
  - rewrite app_nil_r. destruct (rev l) as [|c k]; [done|]. destruct c as [|q|q]; [done| |done].
    do 4 (destruct q as [q|q|]; try done).
Qed.

Lemma scan_all_line l crlf rest s : line_ok l = true -> l <> [] ->
  scan_all (l ++ eol crlf ++ rest) s = scan_all rest (scan_line s l).
Proof.
  intros Hl Hne. unfold scan_all at 1. cbn [scan_lines].
  assert (Hx : l ++ eol crlf ++ rest = (l ++ if crlf then [13] else []) ++ 10 :: rest)
    by (destruct crlf; cbn; by rewrite <- app_assoc).
  rewrite bool_decide_eq_false_2 by (by destruct l). rewrite Hx, cut_app.
  - rewrite chomp_eol, bool_decide_eq_false_2 by done. apply scan_lines_fuel. rewrite length_app. cbn. lia.
  - rewrite not_elem_of_app. split; [by apply line_free|]. destruct crlf; set_solver.
Qed.

Lemma scan_all_end crlf body s : scan_all (eol crlf ++ body) s = s.
Proof. by destruct crlf. Qed.

Lemma trim_left_last f a c : f c = false -> trim_left f (a ++ [c]) <> [].
Proof. intros Hc. induction a as [|x a IH]; cbn; [by rewrite Hc|]. by case_if. Qed.

Lemma trim_space_ne c s : is_space c = false -> trim_space (c :: s) <> [].
Proof.
  intros Hc. unfold trim_space. cbn [trim_left]. rewrite Hc. unfold trim_right. cbn [rev].
  intros E. apply (f_equal (@rev Z)) in E. rewrite rev_involutive in E. by apply trim_left_last in E.
Qed.

Lemma read_header_boring h via name v : interesting name = false -> read_header h via name v = (h, via).
Proof. unfold interesting, read_header. intros [[[-> ->]%orb_false_iff ->]%orb_false_iff ->]%orb_false_iff. done. Qed.

Definition scan_folds (folds : list gostring) (s : scan) : scan :=
  mkScan (sc_head s) (sc_via s) (sc_name s)
    (if interesting (sc_name s) then sc_value s ++ concat (map (fun l => 32 :: trim_space l) folds) else sc_value s).

Lemma scan_all_folds folds crlf rest : forall s, sc_name s <> [] -> forallb fold_ok folds = true ->
  scan_all (concat (map (fun l => l ++ eol crlf) folds) ++ rest) s = scan_all rest (scan_folds folds s).
Proof.
  induction folds as [|l folds IH]; intros s Hs H; cbn [map concat app].
  - f_equal. unfold scan_folds. destruct s as [h v n w]. cbn. rewrite app_nil_r. by case_if.
  - cbn [forallb] in H. apply andb_true_iff in H as [Hl H]. unfold fold_ok in Hl. apply andb_true_iff in Hl as [Hl Hb].
    rewrite <- !app_assoc, scan_all_line; [|done|by destruct l].
    assert (E : scan_line s l = scan_folds [l] s).
    { destruct l as [|c l]; [done|]. unfold scan_line, scan_folds. rewrite Hb, bool_decide_eq_false_2 by done. cbn [negb andb map concat].
      rewrite app_nil_r. destruct s as [h v n w]. cbn. by case_if. }
    rewrite E, IH by done. f_equal. unfold scan_folds. cbn [sc_head sc_via sc_name sc_value map concat].
    f_equal. case_if; [|done]. by rewrite <- app_assoc, app_nil_r.
Qed.

Lemma flush_named h via name v : name <> [] ->
  flush (mkScan h via name v) = (let '(h', via') := read_header h via name v in mkScan h' via' [] []).
Proof. intros Hn. unfold flush. cbn [sc_name]. by rewrite bool_decide_eq_false_2. Qed.

(** A header and its folded lines leave it pending. *)
Lemma scan_all_header crlf r rest s : rheader_ok r = true ->
  exists v, scan_all (render_header crlf r ++ rest) s =
            scan_all rest (mkScan (sc_head (flush s)) (sc_via (flush s)) (trim_space (rh_name r)) v) /\
            (interesting (trim_space (rh_name r)) = true -> v = joined r) /\ trim_space (rh_name r) <> [].
Proof.
  unfold rheader_ok, render_header, joined. destruct r as [name value folds]. cbn [rh_name rh_value rh_folds].
  rewrite !andb_true_iff. intros [[[Hl Hc] Hs] Hf].
  assert (H58 : 58 ∉ name) by (by apply (forallb_free (fun c => negb (c =? 58)))).
  assert (Hn : trim_space name <> []) by (destruct name as [|c name]; [done|]; apply trim_space_ne; by apply negb_true_iff).
  set (w := sc_value (flush s)).
  exists (if interesting (trim_space name) then value ++ concat (map (fun l => 32 :: trim_space l) folds) else w).
  split; [|split; [by intros ->|done]].
  assert (Hx : (name ++ 58 :: value ++ eol crlf ++ concat (map (fun l => l ++ eol crlf) folds)) ++ rest =
               (name ++ 58 :: value) ++ eol crlf ++ concat (map (fun l => l ++ eol crlf) folds) ++ rest)
    by (rewrite <- !app_assoc; cbn; by rewrite <- !app_assoc).
  rewrite Hx, scan_all_line by (done || by destruct name).
  assert (Hh : scan_line s (name ++ 58 :: value) =
    mkScan (sc_head (flush s)) (sc_via (flush s)) (trim_space name) (if interesting (trim_space name) then value else w)).
  { unfold scan_line. destruct name as [|c name]; [done|]. cbn [app].
    replace (is_blank c) with false.
    2:{ symmetry. apply not_true_iff_false. intros Hb%blank_is_space. rewrite Hb in Hs. done. }
    change (c :: name ++ 58 :: value) with ((c :: name) ++ 58 :: value). rewrite index_byte_app by done.
    rewrite take_app_length. cbv zeta. replace (S (length (c :: name))) with (length ((c :: name) ++ [58])) by (rewrite length_app; cbn; lia).
    replace ((c :: name) ++ 58 :: value) with (((c :: name) ++ [58]) ++ value) by (by rewrite <- app_assoc).
    by rewrite drop_app_length. }
  rewrite Hh, scan_all_folds by done. f_equal. unfold scan_folds. cbn [sc_head sc_via sc_name sc_value].
  f_equal. by case_if.
Qed.

Definition scan_state (s : scan) : RegisterHead * bool := (sc_head s, sc_via s).

Lemma scan_all_headers crlf rs body : forall s, forallb rheader_ok rs = true ->
  scan_state (flush (scan_all (concat (map (render_header crlf) rs) ++ eol crlf ++ body) s)) =
  fold_left (fun '(h, via) r => read_header h via (trim_space (rh_name r)) (joined r)) rs (scan_state (flush s)).
Proof.
  induction rs as [|r rs IH]; intros s H; cbn [map concat app fold_left].
  - by rewrite scan_all_end.
  - cbn [forallb] in H. apply andb_true_iff in H as [Hr H]. rewrite <- app_assoc.
    destruct (scan_all_header crlf r (concat (map (render_header crlf) rs) ++ eol crlf ++ body) s Hr) as (v & -> & Hv & Hn).
    rewrite IH, flush_named by done. f_equal. unfold scan_state at 2. cbv beta iota.
    assert (read_header (sc_head (flush s)) (sc_via (flush s)) (trim_space (rh_name r)) v =
            read_header (sc_head (flush s)) (sc_via (flush s)) (trim_space (rh_name r)) (joined r)) as ->.
    { destruct (interesting (trim_space (rh_name r))) eqn:E; [by rewrite Hv|]. by rewrite !read_header_boring. }
    by destruct (read_header _ _ _ _).
Qed.

(** the scan of a raw REGISTER reads exactly its headers, folded lines
    joined to their header, whatever the line ending; the body and anything
    after the empty line are never looked at. *)
Theorem ScanRegister_reads_headers crlf rline rs body :
  forallb rheader_ok rs = true -> 10 ∉ rline ->
  ScanRegister (render_register crlf rline rs body) = (head_of rs, true).
Proof.
  intros Hrs Hl. unfold ScanRegister, render_register. rewrite has_prefix_app. cbn [negb].
  rewrite app_assoc, index_byte_app.
  - assert (Hd : forall a x, drop (S (length a)) (a ++ 10 :: x) = x).
    { intros a x. replace (S (length a)) with (length (a ++ [10])) by (rewrite length_app; cbn; lia).
      change (a ++ 10 :: x) with (a ++ [10] ++ x). by rewrite app_assoc, drop_app_length. }
    rewrite Hd. cbv zeta. f_equal.
    pose proof (scan_all_headers crlf rs body (mkScan no_head false [] []) Hrs) as H.
    apply (f_equal fst) in H. unfold scan_all in H. exact H.
  - rewrite not_elem_of_app. split; [|done]. apply index_byte_none. vm_compute. reflexivity.
Qed.

(** A REGISTER with a folded Via, compact names, and a body that looks like
    headers. *)
Definition example_headers : list rheader :=
  [ mkRHeader (str "Via") (str " SIP/2.0/UDP 192.0.2.5:5060") [str "  ;branch=z9hG4bK77"];
    mkRHeader (str "Max-Forwards") (str " 70") [];
    mkRHeader (str "t ") (str " <sip:Bob@Example.org>") [];
    mkRHeader (str "i") (str " abc@192.0.2.5") [] ].

Lemma ScanRegister_reads_headers_witness :
  let msg := render_register true (str "sip:example.org SIP/2.0" ++ [13]) example_headers (str "To: <sip:eve@example.org>") in
  ScanRegister msg = (head_of example_headers, true) /\
  Branch (head_of example_headers) = str "z9hG4bK77" /\ AOR (head_of example_headers) = str "bob@example.org" /\
  CallID (head_of example_headers) = str "abc@192.0.2.5".
Proof.
  split.
  - apply ScanRegister_reads_headers; [vm_compute; reflexivity|]. apply index_byte_none. vm_compute. reflexivity.
  - repeat split; vm_compute; reflexivity.
Defined.

#[global] Arguments ScanRegister : simpl never.
#[global] Arguments DigestIdentity : simpl never.
#[global] Arguments NormalizeAOR : simpl never.
