(* ===== verification/SipMalformed.v ===== *)
(** The pre-parse checks on raw reads (internal/sip/malformed.go and
    readfilter.go).

    [Malformed] flags a datagram that cannot be a SIP message; [ReadFilter]
    is the filter every transport runs on what it read.  The reference
    definition ([faulty]) says the same in terms of lines and headers. *)

From S2P Require Import Prelude GoText.

Open Scope Z_scope.

Definition crlf : gostring := [13; 10].

Definition isSIP (b : gostring) : bool := beq b (str "SIP") || beq b (str "sip").

Definition requestOrStatusLine (line : gostring) : bool :=
  match index_byte line 32 with
  | None => false
  | Some i =>
      let p0 := take i line in
      let rest := drop (S i) line in
      match index_byte rest 32 with
      | None => false
      | Some k =>
          let p2 := drop (S k) rest in
          if (3 <=? len p2) && bool_decide (index_byte p2 32 = None) && isSIP (take 3 p2) then true
          else (3 <=? len p0) && isSIP (take 3 p0)
      end
  end.

Definition has_colon (line : gostring) : bool :=
  match index_byte line 58 with Some _ => true | None => false end.

Definition folded (line : gostring) : bool :=
  match line with c :: _ => (c =? 32) || (c =? 9) | [] => false end.

(** The loop over the header lines. *)
Fixpoint header_lines (fuel : nat) (rest : gostring) (first colon : bool) : bool :=
  match fuel with
  | O => false
  | S fuel' =>
      if bool_decide (rest = []) then false
      else match index rest crlf with
           | None => false
           | Some j =>
               let line := take j rest in
               let rest := drop (j + 2) rest in
               if negb first && folded line then header_lines fuel' rest first (colon || has_colon line)
               else if negb colon then true
               else if bool_decide (line = []) then false
               else header_lines fuel' rest false (has_colon line)
           end
  end.

Definition ignorable (data : gostring) : bool := forallb (fun c => (c =? 0) || (c =? 13) || (c =? 10)) data.

Definition Malformed (data : gostring) : bool :=
  if ignorable data then false
  else match index_byte data 13 with
       | None => true
       | Some i =>
           if negb (bool_decide (data !! S i = Some 10)) then true
           else if negb (requestOrStatusLine (take i data)) then true
           else if negb (contains (drop i data) (crlf ++ crlf)) then true
           else let rest := drop (i + 2) data in header_lines (S (length rest)) rest true true
       end.

(** *** The read filter *)

Definition IsByteStream (transport : gostring) : bool :=
  equal_fold transport (str "tcp") || equal_fold transport (str "tls").

Definition MaxReadSize : Z := 24 * 1024.

Section ReadFilter.
(** What the transport says of a read, and its name. *)
Context {ReadProps : Type} (Transport : ReadProps -> gostring).

(** The bytes passed on ([None]: nil, the read is discarded) and the error,
    which is always nil. *)
Definition ReadFilter (maxSize : Z) (accept : option (ReadProps -> bool)) (info : ReadProps) (data : gostring)
  : option gostring * option unit :=
  if (0 <? maxSize) && (maxSize <? len data) && negb (IsByteStream (Transport info)) then (None, None)
  else match accept with
       | Some f => if negb (f info) then (None, None) else (Some data, None)
       | None => (Some data, None)
       end.

(** a read filter never reports an error, whatever the bytes; what it
    passes on is the read itself, unchanged, and on a message transport never
    longer than the cap; on a byte stream the size never matters. *)
Theorem filter_never_errors maxSize accept info data :
  (ReadFilter maxSize accept info data).2 = None /\
  (ReadFilter maxSize accept info data).1 ∈ [None; Some data] /\
  (IsByteStream (Transport info) = false -> 0 < maxSize ->
   forall d, (ReadFilter maxSize accept info data).1 = Some d -> len d <= maxSize) /\
  (IsByteStream (Transport info) = true ->
   ReadFilter maxSize accept info data = ReadFilter 0 accept info data).
Proof.
  unfold ReadFilter. change (0 <? 0) with false.
  destruct ((0 <? maxSize) && (maxSize <? len data) && negb (IsByteStream (Transport info))) eqn:E; breflect.
  - split; [done|]. split; [set_solver|]. split; [done|]. intros Hs. by rewrite Hs in H0.
  - assert (Hs : forall x : option gostring * option unit, x ∈ [(None, None); (Some data, None)] ->
      (IsByteStream (Transport info) = false -> 0 < maxSize -> forall d, x.1 = Some d -> len d <= maxSize)).
    { intros x Hx Hb Hm d Hd. rewrite Hb in E. destruct E as [E|E]; [|done].
      assert (d = data) as ->; [|lia]. rewrite !elem_of_cons in Hx. destruct Hx as [->|[->|[]%elem_of_nil]]; [done|]. by injection Hd. }
    assert (Hr : (match accept with Some f => if negb (f info) then (None, None) else (Some data, None) | None => (Some data, None) end)
      ∈ [(None, @None unit); (Some data, None)]).
    { destruct accept as [f|]; [destruct (f info)|]; set_solver. }
    split; [|split; [|split; [by apply Hs|done]]]; rewrite !elem_of_cons in Hr; destruct Hr as [-> | [-> | []%elem_of_nil]]; set_solver.
Qed.
End ReadFilter.

Lemma filter_never_errors_witness :
  (ReadFilter (fun t : gostring => t) 4 (Some (fun _ => true)) (str "udp") [1; 2; 3; 4; 5]).1 = None /\
  (ReadFilter (fun t : gostring => t) 4 (Some (fun _ => true)) (str "TLS") [1; 2; 3; 4; 5]).1 = Some [1; 2; 3; 4; 5] /\
  (forall d, (ReadFilter (fun t : gostring => t) 4 None (str "udp") [1; 2]).1 = Some d -> len d <= 4).
Proof.
  split; [vm_compute; reflexivity|]. split; [vm_compute; reflexivity|].
  destruct (filter_never_errors (fun t : gostring => t) 4 None (str "udp") [1; 2]) as (_ & _ & H & _).
  apply H; [vm_compute; reflexivity|lia].
Defined.

(** ** The reference: headers of a message *)

(** The lines before the first empty one; [None] when there is no empty line. *)
Fixpoint lines_of (fuel : nat) (rest : gostring) : option (list gostring) :=
  match fuel with
  | O => None
  | S fuel' =>
      match index rest crlf with
      | None => None
      | Some j => if (j =? 0)%nat then Some []
                  else (fun ls => take j rest :: ls) <$> lines_of fuel' (drop (j + 2) rest)
      end
  end.

(** A header: its first line and the lines folded under it. *)
Fixpoint group_from (cur : list gostring) (ls : list gostring) : list (list gostring) :=
  match ls with
  | [] => [cur]
  | l :: ls' => if folded l then group_from (cur ++ [l]) ls' else cur :: group_from [l] ls'
  end.

Definition headers_of (ls : list gostring) : list (list gostring) :=
  match ls with [] => [] | l :: ls' => group_from [l] ls' end.

Definition colonless (h : list gostring) : bool := forallb (fun l => negb (has_colon l)) h.

(** The start line is bad, the header section never ends, or a header has no
    colon on any of its lines. *)
Definition faulty (data : gostring) : bool :=
  match index_byte data 13 with
  | None => true
  | Some i =>
      negb (bool_decide (data !! S i = Some 10)) || negb (requestOrStatusLine (take i data)) ||
      match lines_of (S (length data)) (drop (i + 2) data) with
      | None => true
      | Some ls => existsb colonless (headers_of ls)
      end
  end.

Lemma index_shift s sub i : index s sub = Some i -> exists a b, s = a ++ sub ++ b /\ length a = i.
Proof.
  revert i. induction s as [|x s IH]; intros i; cbn [index].
  - case_if; [|done]. intros [= <-]. apply has_prefix_spec in Heqb as [r ->]. by exists [], r.
  - case_if.
    + intros [= <-]. apply has_prefix_spec in Heqb as [r ->]. by exists [], r.
    + intros (j & Hj & ->)%fmap_Some. destruct (IH j Hj) as (a & b & -> & <-). by exists (x :: a), b.
Qed.

Lemma index_first a sub b : exists i, index (a ++ sub ++ b) sub = Some i /\ (i <= length a)%nat.
Proof.
  induction a as [|x a IH]; cbn [app length].
  - exists O. split; [|lia]. destruct (sub ++ b) eqn:E; cbn [index]; rewrite <- E, has_prefix_app; done.
  - cbn [index]. case_if; [exists O; split; [done|lia]|]. destruct IH as (i & -> & Hi). exists (S i). split; [done|lia].
Qed.

Lemma index_crlf_zero s : index s crlf = Some O -> exists r, s = crlf ++ r.
Proof. intros (a & b & -> & Ha)%index_shift. destruct a; [|done]. by exists b. Qed.

(** The first line ending comes before an empty line, or is its own. *)
Lemma lines_before_blank s a b : s = a ++ crlf ++ crlf ++ b ->
  exists j, index s crlf = Some j /\
    ((j = length a /\ drop (j + 2) s = crlf ++ b) \/
     exists a', drop (j + 2) s = a' ++ crlf ++ crlf ++ b /\ (length a' < length a)%nat).
Proof.
  intros ->. destruct (index_first a crlf (crlf ++ b)) as (j & Hj & Hl). exists j. split; [done|].
  pose proof Hj as (x & y & E & Hx)%index_shift.
  assert (Hd : drop (j + 2) (x ++ crlf ++ y) = y).
  { rewrite app_assoc. replace (j + 2)%nat with (length (x ++ crlf)) by (rewrite length_app; cbn; lia). by rewrite drop_app_length. }
  rewrite E, Hd. destruct (decide (j = length a)) as [->|Hne].
  - left. split; [done|]. apply app_inj_1 in E as [_ E]; [|done]. apply (app_inv_head crlf) in E. done.
  - right. apply app_eq_inv in E as [(k & -> & E)|(k & -> & E)].
    2:{ rewrite length_app in Hx. lia. }
    assert (Hk : (2 <= length k)%nat).
    { rewrite length_app in Hne. destruct k as [|c k]; [cbn in *; lia|]. destruct k as [|d k]; [|cbn; lia].
      cbn in E. injection E as <- E. done. }
    destruct k as [|c [|d k]]; [cbn in Hk; lia..|]. cbn in E. injection E as <- <- E.
    exists k. split; [by rewrite E|]. rewrite length_app. cbn. lia.
Qed.

Lemma lines_of_some fuel : forall s a b, s = a ++ crlf ++ crlf ++ b -> (length s < fuel)%nat ->
  exists ls, lines_of fuel s = Some ls.
Proof.
  induction fuel as [|fuel IH]; intros s a b Hs Hf; [lia|]. cbn [lines_of].
  destruct (lines_before_blank s a b Hs) as (j & -> & [[Hj Hd]|(a' & Hd & Hl)]).
  - case_if; [by eexists|]. rewrite Hd. destruct fuel as [|fuel].
    { rewrite Hs, !length_app in Hf. cbn in Hf. lia. }
    cbn [lines_of]. change (index (crlf ++ b) crlf) with (Some O). cbv beta iota. by eexists.
  - case_if; [by eexists|]. destruct (IH (drop (j + 2) s) a' b Hd) as [ls ->]; [|by eexists].
    rewrite Hd, Hs in *. rewrite !length_app in *. lia.
Qed.

Lemma lines_of_blank fuel : forall s ls, lines_of fuel s = Some ls ->
  (exists r, s = crlf ++ r) \/ contains s (crlf ++ crlf) = true.
Proof.
  induction fuel as [|fuel IH]; intros s ls; [done|]. cbn [lines_of].
  destruct (index s crlf) as [j|] eqn:E; [|done]. case_if.
  - intros _. left. apply index_crlf_zero. rewrite E. f_equal. lia.
  - intros (ls' & Hl & _)%fmap_Some. apply IH in Hl. right. apply index_shift in E as (x & y & -> & Hx).
    assert (Hd : drop (j + 2) (x ++ crlf ++ y) = y).
    { rewrite app_assoc. replace (j + 2)%nat with (length (x ++ crlf)) by (rewrite length_app; cbn; lia). by rewrite drop_app_length. }
    rewrite Hd in Hl. unfold contains. assert (Hc : exists u v, x ++ crlf ++ y = u ++ (crlf ++ crlf) ++ v).
    { destruct Hl as [[r ->]|Hl]; [exists x, r; by rewrite <- app_assoc|].
      unfold contains in Hl. destruct (index y (crlf ++ crlf)) as [k|] eqn:Ek; [|done].
      apply index_shift in Ek as (u & v & -> & _). exists (x ++ crlf ++ u), v. by rewrite <- !app_assoc. }
    destruct Hc as (u & v & ->). destruct (index_first u (crlf ++ crlf) v) as (k & -> & _). done.
Qed.

(** The loop flags a header without a colon, past the first line. *)
Lemma header_lines_group fuel : forall s ls cur, lines_of fuel s = Some ls -> cur <> [] ->
  header_lines fuel s false (negb (colonless cur)) = existsb colonless (group_from cur ls).
Proof.
  induction fuel as [|fuel IH]; intros s ls cur; [done|]. cbn [lines_of header_lines].
  destruct (index s crlf) as [j|] eqn:E; [|done].
  assert (Hs : s <> []) by (by destruct s). rewrite bool_decide_eq_false_2 by done.
  destruct (j =? 0)%nat eqn:Ej; intros H Hc.
  - injection H as <-. apply Nat.eqb_eq in Ej as ->. rewrite take_0. cbn. rewrite negb_involutive, orb_false_r.
    by destruct (colonless cur).
  - apply fmap_Some in H as (ls' & Hl & ->). cbn [group_from negb andb].
    assert (Hline : take j s <> []).
    { intros Ht. apply (f_equal length) in Ht. rewrite length_take in Ht. cbn in Ht.
      assert (Hlen : length s <> O) by (by destruct s). lia. }
    case_if.
    + rewrite <- (IH (drop (j + 2) s) ls' (cur ++ [take j s])); [|done|by destruct cur]. f_equal.
      unfold colonless. rewrite forallb_app. cbn [forallb]. rewrite andb_true_r, negb_andb, negb_involutive. done.
    + rewrite negb_involutive. cbn [existsb]. destruct (colonless cur); [done|]. cbn [orb].
      rewrite bool_decide_eq_false_2 by done. rewrite <- (IH (drop (j + 2) s) ls' [take j s]) by done. f_equal.
      unfold colonless. cbn [forallb]. by rewrite andb_true_r, negb_involutive.
Qed.

Lemma header_lines_first fuel s ls : lines_of fuel s = Some ls ->
  header_lines fuel s true true = existsb colonless (headers_of ls).
Proof.
  destruct fuel as [|fuel]; [done|]. cbn [lines_of header_lines].
  destruct (index s crlf) as [j|] eqn:E; [|done].
  assert (Hs : s <> []) by (by destruct s). rewrite bool_decide_eq_false_2 by done.
  destruct (j =? 0)%nat eqn:Ej; intros H; cbn [negb andb].
  - injection H as <-. apply Nat.eqb_eq in Ej as ->. rewrite take_0. done.
  - apply fmap_Some in H as (ls' & Hl & ->). cbn [headers_of].
    assert (Hline : take j s <> []).
    { intros Ht. apply (f_equal length) in Ht. rewrite length_take in Ht. cbn in Ht.
      assert (Hlen : length s <> O) by (by destruct s). lia. }
    rewrite bool_decide_eq_false_2 by done. rewrite <- (header_lines_group fuel (drop (j + 2) s) ls' [take j s]) by done. f_equal.
    unfold colonless. cbn [forallb]. by rewrite andb_true_r, negb_involutive.
Qed.

Lemma lines_of_fuel fuel : forall s ls, lines_of fuel s = Some ls -> lines_of (S (length s)) s = Some ls.
Proof.
  assert (Hm : forall f s ls g, lines_of f s = Some ls -> (length s < g)%nat -> lines_of g s = Some ls).
  { induction f as [|f IH]; intros s ls g; [done|]. destruct g as [|g]; [lia|]. cbn [lines_of].
    destruct (index s crlf) as [j|] eqn:E; [|done]. case_if; [done|].
    intros (ls' & Hl & ->)%fmap_Some Hg. rewrite (IH _ ls' g); [done|done|]. rewrite length_drop.
    assert (length s <> O) by (by destruct s). lia. }
  intros s ls H. by apply (Hm fuel); [|lia].
Qed.

(** the cheap check flags exactly the reads whose start line is no request
    or status line, whose header section never ends, or which have a header
    without a colon, folded lines counted with their header; keep-alives and
    padding are never flagged. *)
Theorem Malformed_is_faulty data : Malformed data = negb (ignorable data) && faulty data.
Proof.
  unfold Malformed, faulty. destruct (ignorable data); [done|]. cbn [negb andb].
  destruct (index_byte data 13) as [i|] eqn:Ei; [|done]. cbv zeta.
  destruct (bool_decide (data !! S i = Some 10)) eqn:En; [|done]. cbn [negb orb].
  destruct (requestOrStatusLine (take i data)); [|done]. cbn [negb orb].
  apply bool_decide_eq_true in En. apply index_byte_spec in Ei as (a & b & -> & <- & _).
  assert (Hb : exists r, b = 10 :: r).
  { rewrite lookup_app_r in En by lia. replace (S (length a) - length a)%nat with 1%nat in En by lia.
    destruct b as [|c r]; [done|]. cbn in En. injection En as ->. by exists r. }
  destruct Hb as [r ->]. change (a ++ 13 :: 10 :: r) with (a ++ crlf ++ r).
  assert (D1 : drop (length a) (a ++ crlf ++ r) = crlf ++ r) by apply drop_app_length.
  assert (D2 : drop (length a + 2) (a ++ crlf ++ r) = r).
  { rewrite app_assoc. replace (length a + 2)%nat with (length (a ++ crlf)) by (rewrite length_app; cbn; lia). by rewrite drop_app_length. }
  rewrite D1, D2. destruct (contains (crlf ++ r) (crlf ++ crlf)) eqn:Ec; cbn [negb].
  - assert (Hl : exists ls, lines_of (S (length (a ++ crlf ++ r))) r = Some ls).
    { unfold contains in Ec. destruct (index (crlf ++ r) (crlf ++ crlf)) as [k|] eqn:Ek; [|done].
      apply index_shift in Ek as (x & y & E & _). destruct x as [|x1 [|x2 x]].
      - cbn in E. injection E as ->. cbn [length lines_of]. by eexists.
      - cbn in E. injection E as _ E. done.
      - cbn in E. injection E as <- <- ->.
        apply (lines_of_some _ _ x y); [reflexivity|rewrite !length_app; cbn; lia]. }
    destruct Hl as [ls Hl]. rewrite Hl. apply header_lines_first. by apply (lines_of_fuel _ _ _ Hl).
  - destruct (lines_of _ r) as [ls|] eqn:El; [|done]. exfalso. apply lines_of_blank in El.
    assert (contains (crlf ++ r) (crlf ++ crlf) = true); [|congruence]. destruct El as [[q ->]|Hc].
    + reflexivity.
    + unfold contains in Hc. destruct (index r (crlf ++ crlf)) as [k|] eqn:Ek; [|done].
      apply index_shift in Ek as (u & v & -> & _). unfold contains.
      destruct (index_first (crlf ++ u) (crlf ++ crlf) v) as (j & Hj & _). rewrite <- app_assoc in Hj. by rewrite Hj.
Qed.
