(* ===== verification/SipMsg.v ===== *)
(** SIP messages (the sipgo library's, with internal/sip/header.go and
    message.go).

    sipgo is third-party code: its parameter lists and its header operations
    are the classes [SipParams] and [SipHeaders], whose laws say what its
    documentation and the comments of the sources say of them (the first
    header of a name is removed, in the exact spelling; a header is appended
    at the end and prepended at the front).  A message itself is data: its
    headers in order and the fields the sources read and write.  The lists of
    pairs and the list operations that satisfy the laws are instances at the
    end of the file. *)

From S2P Require Import Prelude GoText.

Open Scope Z_scope.

Create HintDb sbc_msg.

(** *** Parameters, URIs and headers *)

(** [sip.HeaderParams]. *)
Class SipParams := {
  Params : Type;
  NewParams : Params;
  ParamAdd : gostring -> gostring -> Params -> Params;
  ParamGet : gostring -> Params -> option gostring
}.

Class SipParamsLaws `{SipParams} : Prop := {
  param_get_new k : ParamGet k NewParams = None;
  param_get_add k v p : ParamGet k (ParamAdd k v p) = Some v;
  param_get_other k k' v p : equal_fold k k' = false -> ParamGet k (ParamAdd k' v p) = ParamGet k p
}.

Section Messages.
Context `{SP : SipParams}.

(** [Get] on a list that may be nil. *)
Definition pget (k : gostring) (p : option Params) : option gostring :=
  match p with Some p => ParamGet k p | None => None end.

(** [sip.Uri], the fields the sources use. *)
Record Uri := mkUri { u_user : gostring; u_host : gostring; u_port : Z; u_params : option Params; u_wildcard : bool }.

(** The zero [sip.Uri]. *)
Definition no_uri : Uri := mkUri [] [] 0 None false.

Record ViaHeader := mkVia { v_transport : gostring; v_host : gostring; v_port : Z; v_params : option Params }.

(** The From, To and Contact headers. *)
Record NameAddr := mkNameAddr { na_uri : Uri; na_params : option Params }.

Inductive header :=
  | HVia (v : ViaHeader)
  | HFrom (a : NameAddr)
  | HTo (a : NameAddr)
  | HContact (a : NameAddr)
  | HRoute (u : Uri)
  | HRecordRoute (u : Uri)
  | HCallID (id : gostring)
  | HCSeq (n : Z) (method : gostring)
  | HMaxForwards (n : Z)
  | HContentLength (n : Z)
  | HOther (name value : gostring).

(** [h.Name()] *)
Definition Name (h : header) : gostring :=
  match h with
  | HVia _ => str "Via"
  | HFrom _ => str "From"
  | HTo _ => str "To"
  | HContact _ => str "Contact"
  | HRoute _ => str "Route"
  | HRecordRoute _ => str "Record-Route"
  | HCallID _ => str "Call-ID"
  | HCSeq _ _ => str "CSeq"
  | HMaxForwards _ => str "Max-Forwards"
  | HContentLength _ => str "Content-Length"
  | HOther n _ => n
  end.

(** ASCII case does not matter in a lookup. *)
Definition named (name : gostring) (h : header) : bool := equal_fold (Name h) name.

(** [m.GetHeaders(name)] and the accessors of the first header of a kind. *)
Definition GetHeaders (name : gostring) (hs : list header) : list header := List.filter (named name) hs.

Fixpoint first_of {A} (f : header -> option A) (hs : list header) : option A :=
  match hs with [] => None | h :: hs' => match f h with Some a => Some a | None => first_of f hs' end end.

Definition Via : list header -> option ViaHeader := first_of (fun h => match h with HVia v => Some v | _ => None end).
Definition From : list header -> option NameAddr := first_of (fun h => match h with HFrom a => Some a | _ => None end).
Definition To : list header -> option NameAddr := first_of (fun h => match h with HTo a => Some a | _ => None end).
Definition Route : list header -> option Uri := first_of (fun h => match h with HRoute u => Some u | _ => None end).
Definition CallIDHeader : list header -> option gostring := first_of (fun h => match h with HCallID c => Some c | _ => None end).
Definition CSeq : list header -> option (Z * gostring) := first_of (fun h => match h with HCSeq n m => Some (n, m) | _ => None end).
Definition MaxForwards : list header -> option Z := first_of (fun h => match h with HMaxForwards n => Some n | _ => None end).

(** A request or a response. *)
Record message := mkMsg {
  m_headers : list header;
  m_body : gostring;
  m_transport : gostring;
  m_dest : gostring;
  m_source : gostring
}.

Definition set_headers (hs : list header) (m : message) : message :=
  mkMsg hs (m_body m) (m_transport m) (m_dest m) (m_source m).
Definition SetTransport (t : gostring) (m : message) : message :=
  mkMsg (m_headers m) (m_body m) t (m_dest m) (m_source m).
Definition SetDestination (d : gostring) (m : message) : message :=
  mkMsg (m_headers m) (m_body m) (m_transport m) d (m_source m).

Record request := mkRequest { rq_method : gostring; rq_recipient : Uri; rq_version : gostring; rq_laddr : option (list Z * Z); rq_msg : message }.
Record response := mkResponse { rs_status : Z; rs_msg : message }.

Definition rq_headers (r : request) : list header := m_headers (rq_msg r).
Definition rs_headers (r : response) : list header := m_headers (rs_msg r).

(** *** The header operations *)

(** [RemoveHeader] ([None] when it removes nothing and returns false),
    [AppendHeader], [PrependHeader], [ReplaceHeader] and [SetBody]. *)
Class SipHeaders := {
  RemoveHeader : gostring -> list header -> option (list header);
  AppendHeader : header -> list header -> list header;
  PrependHeader : header -> list header -> list header;
  ReplaceHeader : header -> list header -> list header;
  SetBody : gostring -> message -> message
}.

Definition exactly (name : gostring) (h : header) : bool := beq (Name h) name.

Class SipHeadersLaws `{SipHeaders} : Prop := {
  remove_none name hs : RemoveHeader name hs = None <-> forallb (fun h => negb (exactly name h)) hs = true;
  remove_some name hs hs' : RemoveHeader name hs = Some hs' ->
    exists a h b, hs = a ++ h :: b /\ exactly name h = true /\
                  forallb (fun h => negb (exactly name h)) a = true /\ hs' = a ++ b;
  append_last h hs : AppendHeader h hs = hs ++ [h];
  prepend_first h hs : PrependHeader h hs = h :: hs;
  replace_same h hs : forall name, name <> Name h ->
    List.filter (exactly name) (ReplaceHeader h hs) = List.filter (exactly name) hs;
  replace_one h hs a g b : hs = a ++ g :: b -> exactly (Name h) g = true ->
    forallb (fun x => negb (exactly (Name h) x)) (a ++ b) = true -> ReplaceHeader h hs = a ++ h :: b;
  set_body b m : m_body (SetBody b m) = b /\ m_transport (SetBody b m) = m_transport m /\
    m_dest (SetBody b m) = m_dest m /\ m_source (SetBody b m) = m_source m /\
    List.filter (fun h => negb (exactly (str "Content-Length") h)) (m_headers (SetBody b m)) =
    List.filter (fun h => negb (exactly (str "Content-Length") h)) (m_headers m)
}.

Context `{SH : SipHeaders}.

(** *** internal/sip/header.go and message.go *)

(** The loop of [RemoveHeaders]; each turn removes one header. *)
Fixpoint remove_loop (fuel : nat) (name : gostring) (hs : list header) : list header :=
  match fuel with
  | O => hs
  | S fuel' => match RemoveHeader name hs with Some hs' => remove_loop fuel' name hs' | None => hs end
  end.

Definition RemoveHeaders (name : gostring) (hs : list header) : list header := remove_loop (length hs) name hs.

Definition SetContact (u : Uri) (hs : list header) : list header :=
  AppendHeader (HContact (mkNameAddr u None)) (RemoveHeaders (str "Contact") hs).

Definition SetSDPBody (body : gostring) (m : message) : message :=
  SetBody body (set_headers (AppendHeader (HOther (str "Content-Type") (str "application/sdp"))
                                          (RemoveHeaders (str "Content-Type") (m_headers m))) m).

Definition CallID (hs : list header) : gostring := default [] (CallIDHeader hs).

Definition tag_of (a : option NameAddr) : gostring :=
  match a with Some a => default [] (pget (str "tag") (na_params a)) | None => [] end.

Definition FromTag (hs : list header) : gostring := tag_of (From hs).
Definition ToTag (hs : list header) : gostring := tag_of (To hs).

(** The text of a header ([h.Value()]) is sipgo's to render. *)
Definition UserAgent (Value : header -> gostring) (hs : list header) : gostring :=
  match GetHeaders (str "User-Agent") hs with [] => [] | h :: _ => Value h end.

Definition ContactURI (hs : list header) : option Uri :=
  match GetHeaders (str "Contact") hs with
  | HContact c :: _ => Some (na_uri c)
  | _ => None
  end.

(** *** What they do *)

Context `{SHL : !SipHeadersLaws}.

Lemma remove_shorter name hs hs' : RemoveHeader name hs = Some hs' -> length hs = S (length hs').
Proof. intros (a & h & b & -> & _ & _ & ->)%remove_some. rewrite !length_app. cbn. lia. Qed.

Lemma filter_none {A} (f : A -> bool) l : forallb (fun x => negb (f x)) l = true -> List.filter (fun x => negb (f x)) l = l.
Proof. induction l as [|x l IH]; [done|]. cbn. intros [-> H]%andb_true_iff. by rewrite IH. Qed.

Lemma remove_loop_filter fuel name : forall hs, (length hs <= fuel)%nat ->
  remove_loop fuel name hs = List.filter (fun h => negb (exactly name h)) hs.
Proof.
  induction fuel as [|fuel IH]; intros hs Hf; [by destruct hs; cbn in *; [|lia]|]. cbn [remove_loop].
  destruct (RemoveHeader name hs) as [hs'|] eqn:E.
  - rewrite IH by (apply remove_shorter in E; lia). apply remove_some in E as (a & h & b & -> & Hh & Ha & ->).
    rewrite !List.filter_app. cbn [List.filter]. by rewrite Hh.
  - apply remove_none in E. symmetry. by apply filter_none.
Qed.

Lemma RemoveHeaders_filter name hs : RemoveHeaders name hs = List.filter (fun h => negb (exactly name h)) hs.
Proof. by apply remove_loop_filter. Qed.

(** removing the headers of a name terminates with none of them left,
    every other header kept, in order: one more turn of the loop, or any
    number of them, changes nothing. *)
Theorem RemoveHeaders_terminates name hs fuel : (length hs <= fuel)%nat ->
  remove_loop fuel name hs = List.filter (fun h => negb (exactly name h)) hs /\
  RemoveHeader name (remove_loop fuel name hs) = None.
Proof.
  intros Hf. rewrite remove_loop_filter by done. split; [done|]. apply remove_none.
  rewrite forallb_forall. intros h [_ Hh]%filter_In. done.
Qed.

Lemma GetHeaders_app name a b : GetHeaders name (a ++ b) = GetHeaders name a ++ GetHeaders name b.
Proof. apply List.filter_app. Qed.

Lemma named_other name h : exactly name h = true -> named name h = true.
Proof. unfold exactly, named. intros <-%beq_eq. apply equal_fold_refl. Qed.

Lemma exactly_fold name h : named name h = false -> exactly name h = false.
Proof. intros H. destruct (exactly name h) eqn:E; [|done]. apply named_other in E. congruence. Qed.

(** A header list as sipgo's parser and the sources spell the names it
    looks up by. *)
Definition canonical (name : gostring) (hs : list header) : Prop :=
  forallb (fun h => implb (named name h) (exactly name h)) hs = true.

(** after [SetContact] the message has one Contact, the given one: no
    address of the far endpoint is left under that name; the other headers are
    as they were. *)
Theorem SetContact_hides u hs : canonical (str "Contact") hs ->
  GetHeaders (str "Contact") (SetContact u hs) = [HContact (mkNameAddr u None)] /\
  forall name, equal_fold name (str "Contact") = false ->
    GetHeaders name (SetContact u hs) = GetHeaders name hs.
Proof.
  intros Hc. unfold SetContact. rewrite append_last, RemoveHeaders_filter. split.
  - rewrite GetHeaders_app. replace (GetHeaders (str "Contact") (List.filter _ hs)) with ([] : list header); [done|].
    symmetry. unfold GetHeaders. induction hs as [|h hs IH]; [done|]. unfold canonical in *. cbn [forallb] in Hc.
    apply andb_true_iff in Hc as [Hh Hc]. cbn [List.filter]. destruct (exactly (str "Contact") h) eqn:E; cbn [negb]; [by apply IH|].
    cbn [List.filter]. destruct (named (str "Contact") h); [done|by apply IH].
  - intros name Hn. rewrite GetHeaders_app. cbn [GetHeaders List.filter named Name].
    unfold named. cbn [Name]. rewrite equal_fold_sym, Hn, app_nil_r. clear Hc. unfold GetHeaders.
    induction hs as [|h hs IH]; [done|]. cbn [List.filter]. destruct (exactly (str "Contact") h) eqn:E; cbn [negb].
    + rewrite IH. unfold exactly in E. apply beq_eq in E. unfold named. by rewrite E, equal_fold_sym, Hn.
    + cbn [List.filter]. by rewrite IH.
Qed.

(** The removal of a known first match. *)
Lemma remove_first_is name a h b : exactly name h = true -> forallb (fun g => negb (exactly name g)) a = true ->
  RemoveHeader name (a ++ h :: b) = Some (a ++ b).
Proof.
  intros Hh Ha. destruct (RemoveHeader name (a ++ h :: b)) as [hs|] eqn:E.
  - apply remove_some in E as (a' & h' & b' & E & Hh' & Ha' & ->). f_equal.
    revert a' E Ha'. induction a as [|x a IH]; intros [|y a'] E Ha'; cbn [app] in *.
    + by injection E as _ ->.
    + injection E as -> _. cbn in Ha'. by rewrite Hh in Ha'.
    + injection E as -> _. cbn in Ha. by rewrite Hh' in Ha.
    + injection E as -> E. cbn in Ha, Ha'. apply andb_true_iff in Ha as [_ Ha], Ha' as [_ Ha']. by rewrite (IH Ha a' E Ha').
  - apply remove_none in E. rewrite forallb_app in E. cbn in E. rewrite Hh in E. cbn in E. by rewrite andb_false_r in E.
Qed.

(** The removal, one by one, of a list of names collected from the headers
    themselves, one name per header to drop. *)
Definition strip_names (names : list gostring) (hs : list header) : list header :=
  fold_left (fun hs n => default hs (RemoveHeader n hs)) names hs.

Lemma strip_names_filter (P : gostring -> bool) : forall k hs, length (List.filter (fun h => P (Name h)) hs) = k ->
  strip_names (map Name (List.filter (fun h => P (Name h)) hs)) hs = List.filter (fun h => negb (P (Name h))) hs.
Proof.
  induction k as [|k IH]; intros hs Hk.
  - destruct (List.filter (fun h => P (Name h)) hs) as [|x l] eqn:E; [|done]. cbn.
    induction hs as [|h hs IHh]; [done|]. cbn in *. destruct (P (Name h)); [done|]. cbn. by rewrite <- IHh.
  - assert (Hs : exists a h b, hs = a ++ h :: b /\ P (Name h) = true /\ List.filter (fun h => P (Name h)) a = []).
    { clear IH. revert Hk. induction hs as [|h hs IHh]; [done|]. cbn. destruct (P (Name h)) eqn:E.
      - intros _. by exists [], h, hs.
      - intros Hk. destruct (IHh Hk) as (a & g & b & -> & Hg & Ha). exists (h :: a), g, b. cbn. by rewrite E. }
    destruct Hs as (a & h & b & -> & Hh & Ha).
    rewrite !List.filter_app in *. cbn [List.filter] in *. rewrite Hh, Ha in *. cbn [app negb map] in *.
    change (strip_names (map Name (List.filter (fun h => P (Name h)) b)) (default (a ++ h :: b) (RemoveHeader (Name h) (a ++ h :: b))) =
            List.filter (fun h => negb (P (Name h))) a ++ List.filter (fun h => negb (P (Name h))) b).
    rewrite remove_first_is.
    + cbn [default from_option id]. specialize (IH (a ++ b)). rewrite !List.filter_app, Ha in IH. cbn [app] in IH. rewrite <- IH; [done|].
      cbn in Hk. lia.
    + unfold exactly. apply beq_refl.
    + clear -Ha Hh. induction a as [|x a IHa]; [done|]. cbn in *. destruct (P (Name x)) eqn:E; [done|]. rewrite IHa by done.
      rewrite andb_true_r. apply negb_true_iff, not_true_iff_false. unfold exactly. rewrite beq_eq. congruence.
Qed.

Lemma first_header_app {A} (f : header -> option A) a b :
  first_of f (a ++ b) = match first_of f a with Some x => Some x | None => first_of f b end.
Proof. induction a as [|h a IH]; [done|]. cbn. by destruct (f h). Qed.

Lemma first_of_filter {A} (f : header -> option A) (p : header -> bool) hs :
  (forall h, p h = false -> f h = None) -> first_of f (List.filter p hs) = first_of f hs.
Proof.
  intros Hp. induction hs as [|h hs IH]; [done|]. cbn [List.filter]. destruct (p h) eqn:E.
  - cbn. by rewrite IH.
  - cbn. by rewrite (Hp h E).
Qed.

(** What a removal by another name leaves alone. *)
Lemma first_of_remove {A} (f : header -> option A) name hs :
  (forall h, exactly name h = true -> f h = None) -> first_of f (RemoveHeaders name hs) = first_of f hs.
Proof.
  intros Hf. rewrite RemoveHeaders_filter. apply first_of_filter.
  intros h Hh. apply Hf. by apply negb_false_iff.
Qed.

Lemma first_header_none {A} (f : header -> option A) hs : (forall h, h ∈ hs -> f h = None) -> first_of f hs = None.
Proof.
  induction hs as [|h hs IH]; [done|]. intros Hf. cbn. rewrite Hf by set_solver. apply IH. set_solver.
Qed.

(** No typed Contact is left. *)
Definition contacts (hs : list header) : list Uri :=
  omap (fun h => match h with HContact a => Some (na_uri a) | _ => None end) hs.

Lemma contacts_removed hs : contacts (RemoveHeaders (str "Contact") hs) = [].
Proof.
  rewrite RemoveHeaders_filter. unfold contacts. induction hs as [|h hs IH]; [done|]. cbn [List.filter].
  destruct (exactly (str "Contact") h) eqn:E; cbn [negb]; [exact IH|]. cbn. rewrite IH. by destruct h.
Qed.

Lemma contacts_app a b : contacts (a ++ b) = contacts a ++ contacts b.
Proof. apply omap_app. Qed.

Lemma contacts_SetContact u hs : contacts (SetContact u hs) = [u].
Proof. unfold SetContact. rewrite append_last, contacts_app, contacts_removed. done. Qed.
End Messages.

#[global] Arguments Uri : clear implicits.
#[global] Arguments Uri {SP}.
#[global] Arguments header {SP}.
#[global] Arguments message {SP}.
#[global] Arguments request {SP}.
#[global] Arguments response {SP}.
#[global] Arguments NameAddr {SP}.
#[global] Arguments ViaHeader {SP}.

(** ** Instances: lists of pairs, lists of headers *)

Module ListImpl.

#[global] Instance list_params : SipParams := {|
  Params := list (gostring * gostring);
  NewParams := [];
  ParamAdd k v p := List.filter (fun kv => negb (equal_fold kv.1 k)) p ++ [(k, v)];
  ParamGet k p := (List.find (fun kv => equal_fold kv.1 k) p) ≫= fun kv => Some kv.2
|}.

Lemma find_app {A} (f : A -> bool) a b : List.find f (a ++ b) = match List.find f a with Some x => Some x | None => List.find f b end.
Proof. induction a as [|x a IH]; [done|]. cbn. by case_if. Qed.

#[global] Instance list_params_laws : SipParamsLaws.
Proof.
  split.
  - done.
  - intros k v p. cbn. rewrite find_app.
    assert (List.find (fun kv => equal_fold kv.1 k) (List.filter (fun kv : gostring * gostring => negb (equal_fold kv.1 k)) p) = None) as ->.
    { induction p as [|kv p IH]; [done|]. cbn. destruct (equal_fold kv.1 k) eqn:E; cbn; [done|]. by rewrite E. }
    cbn. by rewrite equal_fold_refl.
  - intros k k' v p Hk. cbn. rewrite find_app. cbn. rewrite (equal_fold_sym k'), Hk.
    assert (List.find (fun kv => equal_fold kv.1 k) (List.filter (fun kv : gostring * gostring => negb (equal_fold kv.1 k')) p) =
            List.find (fun kv => equal_fold kv.1 k) p) as ->.
    { induction p as [|kv p IH]; [done|]. cbn. destruct (equal_fold kv.1 k') eqn:E; cbn; [|by rewrite IH].
      rewrite IH. destruct (equal_fold kv.1 k) eqn:E'; [|done].
      assert (equal_fold k k' = true); [|congruence]. apply (equal_fold_trans _ kv.1); [by rewrite equal_fold_sym|done]. }
    by destruct (List.find _ p).
Qed.

Fixpoint remove_first (name : gostring) (hs : list header) : option (list header) :=
  match hs with
  | [] => None
  | h :: hs' => if exactly name h then Some hs' else (fun l => h :: l) <$> remove_first name hs'
  end.

Fixpoint replace_first (h : header) (hs : list header) : list header :=
  match hs with
  | [] => []
  | g :: hs' => if exactly (Name h) g then h :: hs' else g :: replace_first h hs'
  end.

#[global] Instance list_headers : SipHeaders := {|
  RemoveHeader := remove_first;
  AppendHeader h hs := hs ++ [h];
  PrependHeader h hs := h :: hs;
  ReplaceHeader := replace_first;
  SetBody b m := mkMsg (List.filter (fun h => negb (exactly (str "Content-Length") h)) (m_headers m) ++ [HContentLength (len b)])
                       b (m_transport m) (m_dest m) (m_source m)
|}.

Lemma filter_twice {A} (f : A -> bool) l : List.filter f (List.filter f l) = List.filter f l.
Proof. induction l as [|x l IH]; [done|]. cbn. destruct (f x) eqn:E; [|done]. cbn. by rewrite E, IH. Qed.

#[global] Instance list_headers_laws : SipHeadersLaws.
Proof.
  split; cbn [RemoveHeader AppendHeader PrependHeader ReplaceHeader SetBody list_headers]; try done.
  - intros name hs. induction hs as [|h hs IH]; [done|]. cbn. destruct (exactly name h); [done|]. cbn.
    by rewrite fmap_None.
  - intros name hs. induction hs as [|h hs IH]; intros hs'; [done|]. cbn. destruct (exactly name h) eqn:E.
    + intros [= <-]. by exists [], h, hs.
    + intros (l & Hl & ->)%fmap_Some. destruct (IH l Hl) as (a & g & b & -> & Hg & Ha & ->).
      exists (h :: a), g, b. cbn. by rewrite E.
  - intros h hs name Hn. induction hs as [|g hs IH]; [done|]. cbn. destruct (exactly (Name h) g) eqn:E.
    + assert (exactly name g = false) as ->.
      { apply beq_eq in E. unfold exactly. rewrite E. apply not_true_iff_false. rewrite beq_eq. congruence. }
      cbn. assert (exactly name h = false) as ->; [|done]. apply not_true_iff_false. unfold exactly. rewrite beq_eq. congruence.
    + cbn. by rewrite IH.
  - intros h hs a g b -> Hg. induction a as [|x a IH]; cbn; [by rewrite Hg|].
    intros [Hx%negb_true_iff Ha]%andb_true_iff. rewrite Hx. by rewrite IH.
  - intros b m. cbn [m_body m_transport m_dest m_source m_headers]. repeat split.
    rewrite List.filter_app. cbn. rewrite app_nil_r. apply filter_twice.
Qed.
End ListImpl.

Lemma RemoveHeaders_terminates_witness :
  let hs := [HContact (mkNameAddr no_uri None); HCallID (str "c"); HContact (mkNameAddr no_uri None)] in
  (length hs <= 3)%nat /\ remove_loop 3 (str "Contact") hs = [HCallID (str "c")].
Proof.
  split; [cbn; lia|]. exact (proj1 (RemoveHeaders_terminates (str "Contact")
    [HContact (mkNameAddr no_uri None); HCallID (str "c"); HContact (mkNameAddr no_uri None)] 3 ltac:(cbn; lia))).
Defined.

Lemma SetContact_hides_witness :
  let far := mkUri (str "bob") (str "10.0.0.9") 5060 None false in
  let own := mkUri [] (str "192.0.2.1") 5060 None false in
  GetHeaders (str "Contact") (SetContact own [HContact (mkNameAddr far None); HCallID (str "c"); HContact (mkNameAddr far None)]) =
  [HContact (mkNameAddr own None)].
Proof.
  apply (SetContact_hides (mkUri [] (str "192.0.2.1") 5060 None false)). vm_compute. reflexivity.
Defined.
