(* ===== verification/SipRequest.v ===== *)
(** Requests the proxy builds and lifetimes it reads
    (internal/sip/request.go and register.go).

    [BuildCancel] and [TeardownRequest] build the requests the proxy sends on
    its own account; [DeltaSeconds] and [GrantedExpires] read how long a
    registration lasts.  [sip.NewRequest] gives a request with no headers;
    [sip.CopyHeaders] appends the headers of a name. *)

From S2P Require Import Prelude GoTime Netip GoText GoEncoding SipAddr SipMsg.

Open Scope Z_scope.

(** ** Lifetimes *)

Definition maxDeltaSeconds : Z := 2 ^ 32 - 1.

(** The duration is the int64 product of the code. *)
Definition DeltaSeconds (v : gostring) : option Z :=
  let v := trim_space v in
  if bool_decide (v = []) then None
  else if negb (forallb is_digit v) then None
  else let n := match parse_uint v 64 with Some n => if maxDeltaSeconds <? n then maxDeltaSeconds else n | None => maxDeltaSeconds end in
       Some (wrap_int64 (n * second)).

Lemma digits_nonneg s : forallb is_digit s = true -> 0 <= digits_val s.
Proof.
  unfold digits_val. assert (Hg : forall n, 0 <= n -> forallb is_digit s = true -> 0 <= fold_left (fun n c => 10 * n + (c - 48)) s n).
  { induction s as [|c s IH]; [done|]. intros n Hn [Hc Hs]%andb_true_iff. cbn. apply IH; [|done]. unfold is_digit in Hc. lia. }
  by apply Hg.
Qed.

Lemma DeltaSeconds_value v d : DeltaSeconds v = Some d ->
  trim_space v <> [] /\ forallb is_digit (trim_space v) = true /\
  d = Z.min (digits_val (trim_space v)) maxDeltaSeconds * second /\ 0 <= d <= maxDeltaSeconds * second.
Proof.
  unfold DeltaSeconds. destruct (bool_decide (trim_space v = [])) eqn:E1; breflect; [done|].
  destruct (forallb is_digit (trim_space v)) eqn:E2; cbn [negb]; [|done]. intros [= Hd].
  pose proof (digits_nonneg _ E2) as Hn. split; [done|]. split; [done|]. revert Hd.
  unfold parse_uint. rewrite bool_decide_eq_false_2, E2 by done. cbn [negb]. cbv zeta.
  set (n := digits_val (trim_space v)) in *. clearbody n.
  assert (Hv : match (if n <? 2 ^ 64 then Some n else None) with Some n => if maxDeltaSeconds <? n then maxDeltaSeconds else n | None => maxDeltaSeconds end
               = Z.min n maxDeltaSeconds).
  { unfold maxDeltaSeconds. destruct (n <? 2 ^ 64) eqn:E; [case_if; lia|]. lia. }
  rewrite Hv. unfold maxDeltaSeconds, second in *. change (2 ^ 32 - 1) with 4294967295 in *.
  rewrite wrap_int64_id; unfold min_int64, max_int64, two63; lia.
Qed.

Lemma DeltaSeconds_none v : DeltaSeconds v = None -> trim_space v = [] \/ forallb is_digit (trim_space v) = false.
Proof.
  unfold DeltaSeconds. case_if; breflect; [by left|]. case_if; breflect; [by right|done].
Qed.

(** an expires value is read as RFC 3261 asks: digits only, at most
    2^32-1 seconds, never wrapped into a negative duration; any number of
    digits is accepted and anything else is refused. *)
Theorem DeltaSeconds_bounded v :
  match DeltaSeconds v with
  | Some d => trim_space v <> [] /\ forallb is_digit (trim_space v) = true /\
              d = Z.min (digits_val (trim_space v)) maxDeltaSeconds * second /\ 0 <= d <= max_int64
  | None => trim_space v = [] \/ forallb is_digit (trim_space v) = false
  end.
Proof.
  destruct (DeltaSeconds v) as [d|] eqn:E; [|by apply DeltaSeconds_none].
  apply DeltaSeconds_value in E as (H1 & H2 & H3 & H4). repeat split; [done..|lia|].
  unfold maxDeltaSeconds, second, max_int64, two63 in *. lia.
Qed.

Section Requests.
Context `{SP : SipParams}.
Context `{SH : SipHeaders}.

(** The text of a header is sipgo's to render. *)
Context (Value : header -> gostring).

(** The first Contact of ours with a valid expires parameter. *)
Fixpoint contact_expires (ours : Uri -> bool) (hs : list header) : option Z :=
  match hs with
  | [] => None
  | HContact c :: hs' =>
      if negb (bool_decide (is_Some (na_params c))) || negb (ours (na_uri c)) then contact_expires ours hs'
      else match pget (str "expires") (na_params c) with
           | Some v => match DeltaSeconds v with Some d => Some d | None => contact_expires ours hs' end
           | None => contact_expires ours hs'
           end
  | _ :: hs' => contact_expires ours hs'
  end.

Definition GrantedExpires (res : response) (requested : Z) (ours : Uri -> bool) : Z :=
  match contact_expires ours (GetHeaders (str "Contact") (rs_headers res)) with
  | Some d => d
  | None =>
      match (match GetHeaders (str "Expires") (rs_headers res) with h :: _ => DeltaSeconds (Value h) | [] => None end) with
      | Some d => d
      | None => if requested <? 0 then 0 else requested
      end
  end.

Definition Forwardable (res : response) : bool := negb (rs_status res =? 100).

(** ** Requests *)

Definition CopyHeaders (name : gostring) (from to : list header) : list header :=
  fold_left (fun hs h => AppendHeader h hs) (GetHeaders name from) to.

Definition NewRequest (method : gostring) (u : Uri) : request :=
  mkRequest method u (str "SIP/2.0") None (mkMsg [] [] [] [] []).

Definition method_cancel : gostring := str "CANCEL".

Definition BuildCancel (invite : request) : request :=
  let hs := match Via (rq_headers invite) with Some v => AppendHeader (HVia v) [] | None => [] end in
  let hs := CopyHeaders (str "Route") (rq_headers invite) hs in
  let hs := AppendHeader (HMaxForwards 70) hs in
  let hs := CopyHeaders (str "From") (rq_headers invite) hs in
  let hs := CopyHeaders (str "To") (rq_headers invite) hs in
  let hs := CopyHeaders (str "Call-ID") (rq_headers invite) hs in
  let hs := match CSeq (rq_headers invite) with Some (n, _) => AppendHeader (HCSeq n method_cancel) hs | None => hs end in
  let m := SetBody [] (set_headers hs (rq_msg (NewRequest method_cancel (rq_recipient invite)))) in
  let m := SetDestination (m_dest (rq_msg invite)) (SetTransport (m_transport (rq_msg invite)) m) in
  mkRequest method_cancel (rq_recipient invite) (rq_version invite) (rq_laddr invite) m.

Definition CSeqNumber (hs : list header) : Z := match CSeq hs with Some (n, _) => n | None => 1 end.

(** The Record-Route entries above the first of our own, in order. *)
Fixpoint record_routes (isSelf : option (Uri -> bool)) (hs : list header) : list Uri :=
  match hs with
  | [] => []
  | HRecordRoute u :: hs' =>
      if match isSelf with Some f => f u | None => false end then [] else u :: record_routes isSelf hs'
  | _ :: hs' => record_routes isSelf hs'
  end.

Definition routeSet (res : response) (isSelf : option (Uri -> bool)) : list Uri :=
  rev (record_routes isSelf (GetHeaders (str "Record-Route") (rs_headers res))).

(** [strings.Trim(s, "[]")] *)
Definition is_bracket (c : Z) : bool := mem c [91; 93].
Definition trim_brackets (s : gostring) : gostring := trim_right is_bracket (trim_left is_bracket s).

Definition uriHostPort (routes : list Uri) (transport : gostring) : option gostring :=
  match routes with
  | [] => None
  | u :: _ =>
      match parse_addr (trim_brackets (u_host u)) with
      | None => None
      | Some ip =>
          let port := if u_port u =? 0 then DefaultPort transport else u_port u in
          Some (addrport_string (mkAddrPort (unmap ip) (uint16 port)))
      end
  end.

Definition contactOrSource (res : response) : Uri :=
  match ContactURI (rs_headers res) with
  | Some u => u
  | None =>
      match split_host_port (m_source (rs_msg res)) with
      | None => mkUri [] (m_source (rs_msg res)) 0 None false
      | Some (host, portStr) => mkUri [] host (default 0 (atoi portStr)) None false
      end
  end.

(** [o.isSelf] and [o.laddr] are the options. *)
Definition TeardownRequest (method : gostring) (res : response) (via : header) (seq : Z)
    (isSelf : option (Uri -> bool)) (laddr : option (list Z * Z)) : request :=
  let target := contactOrSource res in
  let routes := routeSet res isSelf in
  let '(ruri, routeHdrs) := match routes with
    | [] => (target, [])
    | r :: rest => match pget (str "lr") (u_params r) with
                   | Some _ => (target, routes)
                   | None => (r, rest ++ [target])
                   end
    end in
  let hs := PrependHeader via [] in
  let hs := fold_left (fun hs u => AppendHeader (HRoute u) hs) routeHdrs hs in
  let hs := CopyHeaders (str "From") (rs_headers res) hs in
  let hs := CopyHeaders (str "To") (rs_headers res) hs in
  let hs := CopyHeaders (str "Call-ID") (rs_headers res) hs in
  let hs := AppendHeader (HCSeq seq method) hs in
  let hs := AppendHeader (HMaxForwards 70) hs in
  let hs := AppendHeader (HContentLength 0) hs in
  let m := SetTransport (m_transport (rs_msg res)) (set_headers hs (rq_msg (NewRequest method ruri))) in
  let m := match routes with
           | r :: _ => match pget (str "transport") (u_params r) with
                       | Some t => if bool_decide (t = []) then m else SetTransport (to_upper t) m
                       | None => m
                       end
           | [] => m
           end in
  let m := match uriHostPort routes (m_transport m) with
           | Some dest => SetDestination dest m
           | None => SetDestination (m_source (rs_msg res)) m
           end in
  mkRequest method ruri (str "SIP/2.0") laddr m.

(** ** What is granted *)

Lemma contact_expires_range ours hs d : contact_expires ours hs = Some d -> 0 <= d <= maxDeltaSeconds * second.
Proof.
  induction hs as [|h hs IH]; [done|]. destruct h as [v|a|a|c|u|u|i|n m|n|n|x y]; cbn [contact_expires]; try exact IH.
  case_if; [exact IH|]. destruct (pget _ _) as [v|]; [|exact IH].
  destruct (DeltaSeconds v) as [d'|] eqn:E; [|exact IH]. intros [= <-]. apply (DeltaSeconds_value v d' E).
Qed.
(** the lifetime taken from a registrar's answer is never negative and
    never beyond the largest the standard has; the expires of a Contact that
    is not ours is never taken: a Contact of ours with a valid value decides,
    whatever the other Contacts of the answer say. *)
Theorem GrantedExpires_is_ours res requested ours :
  (0 <= GrantedExpires res requested ours <= Z.max requested (maxDeltaSeconds * second)) /\
  (forall hs hs' c v d, GetHeaders (str "Contact") (rs_headers res) = hs ++ HContact c :: hs' ->
     (forall a, HContact a ∈ hs -> ours (na_uri a) = false) ->
     ours (na_uri c) = true -> pget (str "expires") (na_params c) = Some v -> DeltaSeconds v = Some d ->
     GrantedExpires res requested ours = d).
Proof.
  split.
  - unfold GrantedExpires. assert (H0 : 0 <= maxDeltaSeconds * second) by (unfold maxDeltaSeconds, second; lia).
    destruct (contact_expires ours _) as [d|] eqn:E; [apply contact_expires_range in E; lia|].
    assert (Hd : forall r : option Z, (forall d, r = Some d -> 0 <= d <= maxDeltaSeconds * second) ->
      0 <= match r with Some d => d | None => if requested <? 0 then 0 else requested end <= Z.max requested (maxDeltaSeconds * second)).
    { intros [d|] Hr; [specialize (Hr d eq_refl); lia|]. case_if; lia. }
    apply Hd. intros d. destruct (GetHeaders (str "Expires") _) as [|h hs]; [intros Hx; discriminate Hx|].
    intros Hv. apply (DeltaSeconds_value _ _ Hv).
  - intros hs hs' c v d Hhs Hno Hc Hv Hd. unfold GrantedExpires. rewrite Hhs. clear Hhs.
    assert (contact_expires ours (hs ++ HContact c :: hs') = Some d) as ->; [|done].
    induction hs as [|h hs IH].
    + cbn [app contact_expires]. rewrite Hc, Hv, Hd. destruct (na_params c) eqn:Ep; [|done].
      rewrite bool_decide_eq_true_2 by done. done.
    + assert (IH' : contact_expires ours (hs ++ HContact c :: hs') = Some d) by (apply IH; intros a Ha; apply Hno; by right).
      cbn [app]. destruct h; cbn [contact_expires]; try exact IH'.
      rewrite (Hno _ (list_elem_of_here _ _)). cbn [negb]. rewrite orb_true_r. exact IH'.
Qed.

(** ** What is built *)

Context `{SHL : !SipHeadersLaws}.

Lemma CopyHeaders_app name from to : CopyHeaders name from to = to ++ GetHeaders name from.
Proof.
  unfold CopyHeaders. generalize (GetHeaders name from). intros l. revert to.
  induction l as [|h l IH]; intros to; cbn [fold_left]; [by rewrite app_nil_r|].
  rewrite IH, append_last, <- app_assoc. done.
Qed.

Lemma append_routes us hs : fold_left (fun hs u => AppendHeader (HRoute u) hs) us hs = hs ++ map HRoute us.
Proof.
  revert hs. induction us as [|u us IH]; intros hs; cbn [fold_left map]; [by rewrite app_nil_r|].
  rewrite IH, append_last, <- app_assoc. done.
Qed.

(** Every header but the Content-Length the body brings. *)
Definition sans_length (hs : list header) : list header :=
  List.filter (fun h => negb (exactly (str "Content-Length") h)) hs.

(** a CANCEL is matched to its INVITE: same Request-URI and version, the
    INVITE's top Via alone (branch included), its Route, From, To and Call-ID
    headers, its CSeq number with the method CANCEL; it has no body and leaves
    by the same socket, transport and destination. *)
Theorem BuildCancel_matches inv :
  let c := BuildCancel inv in
  rq_method c = method_cancel /\ rq_recipient c = rq_recipient inv /\ rq_version c = rq_version inv /\
  rq_laddr c = rq_laddr inv /\ m_transport (rq_msg c) = m_transport (rq_msg inv) /\
  m_dest (rq_msg c) = m_dest (rq_msg inv) /\ m_body (rq_msg c) = [] /\
  sans_length (rq_headers c) = sans_length (
    match Via (rq_headers inv) with Some v => [HVia v] | None => [] end ++
    GetHeaders (str "Route") (rq_headers inv) ++ [HMaxForwards 70] ++ GetHeaders (str "From") (rq_headers inv) ++
    GetHeaders (str "To") (rq_headers inv) ++ GetHeaders (str "Call-ID") (rq_headers inv) ++
    match CSeq (rq_headers inv) with Some (n, _) => [HCSeq n method_cancel] | None => [] end).
Proof.
  cbv zeta. unfold BuildCancel. cbv zeta. rewrite !CopyHeaders_app.
  set (hs := match CSeq (rq_headers inv) with Some (n, _) => _ | None => _ end).
  destruct (set_body [] (set_headers hs (rq_msg (NewRequest method_cancel (rq_recipient inv))))) as (Hb & _ & _ & _ & Hh).
  cbn [rq_method rq_recipient rq_version rq_laddr rq_msg SetDestination SetTransport m_transport m_dest m_body m_headers].
  split; [done|]. split; [done|]. split; [done|]. split; [done|]. split; [done|]. split; [done|]. split; [exact Hb|].
  unfold rq_headers. cbn [rq_msg SetDestination SetTransport m_headers]. unfold sans_length. rewrite Hh. f_equal.
  unfold hs. cbn [set_headers m_headers].
  destruct (Via (m_headers (rq_msg inv))) eqn:Ev, (CSeq (m_headers (rq_msg inv))) as [[n mm]|] eqn:Ec; unfold rq_headers;
    rewrite ?Ev, ?Ec, ?append_last; rewrite <- ?app_assoc; cbn [app]; rewrite ?app_nil_r; done.
Qed.

(** The routes of a 2xx and what a request following them looks like. *)
Definition is_loose (u : Uri) : bool := match pget (str "lr") (u_params u) with Some _ => true | None => false end.

(** an ACK or BYE the proxy sends for a dialog follows the route set of
    the 2xx (RFC 3261 12.1.2): none of its own Record-Route entries or of those
    below them is in it; behind a loose router the Request-URI is the far end's
    Contact and the routes are the Route headers, behind a strict one the
    Request-URI is that router and the Contact goes last; every hop of the
    route set and the target are named exactly once. *)
Theorem TeardownRequest_follows_routes method res via seq isSelf laddr :
  let r := TeardownRequest method res via seq isSelf laddr in
  let routes := routeSet res isSelf in
  let target := contactOrSource res in
  rq_method r = method /\ rq_laddr r = laddr /\
  (exists hdrs, rq_headers r = via :: map HRoute hdrs ++ GetHeaders (str "From") (rs_headers res) ++
     GetHeaders (str "To") (rs_headers res) ++ GetHeaders (str "Call-ID") (rs_headers res) ++
     [HCSeq seq method; HMaxForwards 70; HContentLength 0] /\
     match routes with
     | [] => rq_recipient r = target /\ hdrs = []
     | u :: rest => if is_loose u then rq_recipient r = target /\ hdrs = routes
                    else rq_recipient r = u /\ hdrs = rest ++ [target]
     end) /\
  (forall u f, isSelf = Some f -> u ∈ routes -> f u = false).
Proof.
  cbv zeta. unfold TeardownRequest. cbv zeta.
  set (routes := routeSet res isSelf). set (target := contactOrSource res).
  destruct (match routes with [] => (target, []) | u :: rest => match pget (str "lr") (u_params u) with Some _ => (target, routes) | None => (u, rest ++ [target]) end end) as [ruri hdrs] eqn:E.
  cbn [rq_method rq_laddr rq_recipient]. split; [done|]. split; [done|]. split.
  - exists hdrs. split.
    + unfold rq_headers. cbn [rq_msg].
      set (m := match routes with [] => _ | u :: _ => _ end).
      assert (Hm : m_headers m = via :: map HRoute hdrs ++ GetHeaders (str "From") (rs_headers res) ++
        GetHeaders (str "To") (rs_headers res) ++ GetHeaders (str "Call-ID") (rs_headers res) ++
        [HCSeq seq method; HMaxForwards 70; HContentLength 0]).
      { assert (H0 : forall hs, m_headers (SetTransport (m_transport (rs_msg res)) (set_headers hs (rq_msg (NewRequest method ruri)))) = hs) by done.
        assert (m_headers m = AppendHeader (HContentLength 0) (AppendHeader (HMaxForwards 70) (AppendHeader (HCSeq seq method)
          (CopyHeaders (str "Call-ID") (rs_headers res) (CopyHeaders (str "To") (rs_headers res) (CopyHeaders (str "From") (rs_headers res)
          (fold_left (fun hs u => AppendHeader (HRoute u) hs) hdrs (PrependHeader via []))))))) ) as ->.
        { unfold m. destruct routes as [|u rest]; [done|]. destruct (pget (str "transport") (u_params u)); [|done]. by case_if. }
        rewrite !append_last, !CopyHeaders_app, append_routes, prepend_first. cbn [app]. rewrite <- !app_assoc. done. }
      destruct (uriHostPort routes (m_transport m)); exact Hm.
    + destruct routes as [|u rest]; [by injection E as <- <-|]. unfold is_loose.
      destruct (pget (str "lr") (u_params u)); by injection E as <- <-.
  - intros u f -> Hu. unfold routes, routeSet in Hu. apply list_elem_of_In, in_rev, list_elem_of_In in Hu.
    clear E. clear -Hu. induction (GetHeaders (str "Record-Route") (rs_headers res)) as [|h hs IH]; [by apply elem_of_nil in Hu|].
    cbn [record_routes] in Hu. destruct h; try by apply IH. destruct (f u0) eqn:Ef; [by apply elem_of_nil in Hu|].
    apply elem_of_cons in Hu as [->|Hu]; [done|by apply IH].
Qed.

Lemma Forwardable_not_trying res : Forwardable res = false <-> rs_status res = 100.
Proof. unfold Forwardable. rewrite negb_false_iff. lia. Qed.
End Requests.

(** Two devices of an address of record: the first Contact is the other's. *)
Definition two_devices : @response ListImpl.list_params :=
  let uri n := mkUri (str "bob") (str "10.0.0.1") n None false in
  mkResponse 200 (mkMsg
    [HContact (mkNameAddr (uri 1) (Some [(str "expires", str "7200")]));
     HContact (mkNameAddr (uri 2) (Some [(str "expires", str "60")]))] [] [] [] []).

Lemma GrantedExpires_is_ours_witness :
  GrantedExpires (fun _ => []) two_devices 0 (fun u => u_port u =? 2) = 60 * second /\
  0 <= GrantedExpires (fun _ => []) two_devices 0 (fun u => u_port u =? 2).
Proof.
  destruct (GrantedExpires_is_ours (fun _ => []) two_devices 0 (fun u => u_port u =? 2)) as [H1 H2].
  split; [|lia]. set (uri n := mkUri (str "bob") (str "10.0.0.1") n None false).
  apply (H2 [HContact (mkNameAddr (uri 1) (Some [(str "expires", str "7200")]))] []
            (mkNameAddr (uri 2) (Some [(str "expires", str "60")])) (str "60")).
  - reflexivity.
  - intros a [= ->]%list_elem_of_singleton. reflexivity.
  - reflexivity.
  - reflexivity.
  - vm_compute. reflexivity.
Defined.
