(* ===== verification/Arrival.v ===== *)
(** Which socket a request came in on (internal/edge/arrival.go).

    The read filter of the private socket stamps a secret header right after
    the request line ([stamp]); before any handler runs, [take] reads it off
    and removes every internal header.  The secret is the marker's
    [private] value; sipgo's parser is a parameter. *)

From S2P Require Import Prelude GoText GoEncoding SipMsg SipScan.

Open Scope Z_scope.

Inductive arrival := arrPublic | arrPrivate.

#[export] Instance arrival_eq_dec : EqDecision arrival.
Proof. solve_decision. Defined.

Definition arrivalHeader : gostring := str "X-FreeSBC-Arrival".

Record arrivalMarker := mkMarker { private : gostring }.

(** [hex.EncodeToString] *)
Definition hex_text (bs : list Z) : gostring := concat (map (fun b => [hex_digit (b / 16); hex_digit (b mod 16)]) bs).

(** The marker made from 16 random bytes. *)
Definition newArrivalMarker (b : list Z) : arrivalMarker := mkMarker (hex_text b ++ str ";private").

(** [None] is the nil value. *)
Definition value (m : arrivalMarker) (a : arrival) : option gostring :=
  match a with arrPrivate => Some (private m) | arrPublic => None end.

(** How many CR and LF bytes a datagram starts with. *)
Fixpoint leading (data : gostring) : nat :=
  match data with c :: d => if (c =? 13) || (c =? 10) then S (leading d) else O | [] => O end.

Definition stamp (m : arrivalMarker) (a : arrival) (data : gostring) : gostring :=
  match value m a with
  | None => data
  | Some v =>
      let start := leading data in
      let rest := drop start data in
      match index_byte rest 10 with
      | None => data
      | Some nl =>
          if bool_decide (rest = []) then data
          else
            let line := take nl rest in
            let term := if bool_decide (list.last line = Some 13) then [13; 10] else [10] in
            if has_prefix line (str "SIP/") then data
            else
              let insertAt := (start + nl + 1)%nat in
              take insertAt data ++ arrivalHeader ++ str ": " ++ v ++ term ++ drop insertAt data
      end
  end.

Definition internalHeaderPrefix : gostring := str "x-freesbc-".

(** The loop of [asciiEqualFold]. *)
Fixpoint fold_bytes (a b : gostring) : bool :=
  match a, b with
  | x :: a', y :: b' => ((x =? y) || (lower_byte x =? lower_byte y)) && fold_bytes a' b'
  | _, _ => true
  end.

Definition asciiEqualFold (a b : gostring) : bool := (len a =? len b) && fold_bytes a b.

Definition asciiHasPrefixFold (s prefix : gostring) : bool :=
  (len prefix <=? len s) && asciiEqualFold (take (length prefix) s) prefix.

Definition isInternalHeader (name : gostring) : bool := asciiHasPrefixFold name internalHeaderPrefix.

Lemma fold_bytes_lower a : forall b, length a = length b -> fold_bytes a b = beq (to_lower a) (to_lower b).
Proof.
  induction a as [|x a IH]; intros [|y b] Hl; [done..|]. injection Hl as Hl. cbn [fold_bytes].
  change (to_lower (x :: a)) with (lower_byte x :: to_lower a). change (to_lower (y :: b)) with (lower_byte y :: to_lower b).
  rewrite IH by done. apply eq_true_iff_eq. rewrite andb_true_iff, orb_true_iff, !beq_eq. split.
  - intros [[H|H] ->]; f_equal; [apply Z.eqb_eq in H; by subst|lia].
  - intros [= H ->]. split; [right; lia|done].
Qed.

Lemma asciiEqualFold_fold a b : asciiEqualFold a b = equal_fold a b.
Proof.
  unfold asciiEqualFold, equal_fold. destruct (len a =? len b) eqn:E.
  - apply fold_bytes_lower. unfold len in E. lia.
  - symmetry. apply not_true_iff_false. rewrite beq_eq. intros H. apply (f_equal length) in H.
    rewrite !to_lower_length in H. unfold len in E. lia.
Qed.

Lemma isInternalHeader_fold n n' : equal_fold n n' = true -> isInternalHeader n = isInternalHeader n'.
Proof.
  intros H. unfold isInternalHeader, asciiHasPrefixFold. rewrite !asciiEqualFold_fold.
  unfold equal_fold in *. apply beq_eq in H. assert (Hl : length n = length n') by (rewrite <- (to_lower_length n), H; apply to_lower_length).
  unfold len. rewrite Hl.
  assert (E : to_lower (take (length internalHeaderPrefix) n) = to_lower (take (length internalHeaderPrefix) n')).
  { unfold to_lower in *. rewrite <- !firstn_map. by rewrite H. }
  by rewrite E.
Qed.

Definition visible (c : Z) : bool := (33 <=? c) && (c <=? 126).

Lemma hex_digit_visible n : 0 <= n < 16 -> visible (hex_digit n) = true.
Proof. unfold visible, hex_digit. intros H. case_if; lia. Qed.

Lemma marker_visible b : bytes_ok b -> forallb visible (private (newArrivalMarker b)) = true.
Proof.
  intros Hb. unfold newArrivalMarker. cbn [private]. rewrite forallb_app, andb_true_iff. split; [|reflexivity].
  unfold hex_text. induction b as [|c b IH]; [done|]. apply Forall_cons in Hb as [Hc Hb]. unfold byte_ok in Hc.
  assert (H1 : 0 <= c / 16 < 16) by (split; [apply Z.div_pos; lia|apply Z.div_lt_upper_bound; lia]).
  assert (H2 : 0 <= c mod 16 < 16) by (apply Z.mod_pos_bound; lia).
  cbn [map concat forallb app]. by rewrite (hex_digit_visible _ H1), (hex_digit_visible _ H2), IH.
Qed.

Section Take.
Context `{SP : SipParams} `{SH : SipHeaders}.

(** The text of a header, sipgo's to render; the value of a generic header is
    its value. *)
Context (Value : header -> gostring).

Definition internalHeaderNames (hs : list header) : list gostring :=
  map Name (List.filter (fun h => isInternalHeader (Name h)) hs).

Definition stripInternalHeaders (hs : list header) : list header :=
  strip_names (internalHeaderNames hs) hs.

(** The first header named as the marker is. *)
Definition marker_of (hs : list header) : option header :=
  List.find (fun h => isInternalHeader (Name h) && asciiEqualFold (Name h) arrivalHeader) hs.

(** [take]: the headers the handler sees (a clone when one was stripped) and
    the arrival. *)
Definition take_arrival (m : arrivalMarker) (hs : list header) : list header * arrival :=
  let result := match marker_of hs with
                | Some h => if beq (Value h) (private m) then arrPrivate else arrPublic
                | None => arrPublic
                end in
  if negb (existsb (fun h => isInternalHeader (Name h)) hs) then (hs, result)
  else (stripInternalHeaders hs, result).

Context `{SHL : !SipHeadersLaws}.

Lemma stripInternalHeaders_filter hs :
  stripInternalHeaders hs = List.filter (fun h => negb (isInternalHeader (Name h))) hs.
Proof. unfold stripInternalHeaders, internalHeaderNames. by eapply strip_names_filter. Qed.

Lemma take_arrival_headers m hs :
  (take_arrival m hs).1 = List.filter (fun h => negb (isInternalHeader (Name h))) hs.
Proof.
  unfold take_arrival. case_if; cbn; [|apply stripInternalHeaders_filter].
  apply negb_true_iff in Heqb. induction hs as [|h hs IH]; [done|]. cbn in *.
  apply orb_false_iff in Heqb as [-> Hb]. cbn. by rewrite <- IH.
Qed.

Lemma internal_headers_are_stripped_aux m hs :
  let '(hs', a) := take_arrival m hs in
  hs' = List.filter (fun h => negb (isInternalHeader (Name h))) hs /\
  forallb (fun h => negb (isInternalHeader (Name h))) hs' = true /\
  (a = arrPrivate <-> exists h, marker_of hs = Some h /\ Value h = private m) /\
  ((forall h, h ∈ hs -> Value h <> private m) -> a = arrPublic).
Proof.
  pose proof (take_arrival_headers m hs) as Hh.
  assert (Ha : (take_arrival m hs).2 = match marker_of hs with
    | Some h => if beq (Value h) (private m) then arrPrivate else arrPublic | None => arrPublic end)
    by (unfold take_arrival; by case_if).
  destruct (take_arrival m hs) as [hs' a]. cbn in Hh, Ha. split; [done|]. split.
  { rewrite Hh, forallb_forall. intros h [_ H]%filter_In. done. }
  rewrite Ha. destruct (marker_of hs) as [h|] eqn:E.
  - destruct (beq (Value h) (private m)) eqn:Eb.
    + apply beq_eq in Eb. split; [split; [by eexists|done]|]. intros Hn. exfalso. apply (Hn h); [|done].
      unfold marker_of in E. apply find_some in E as [E _]. by apply list_elem_of_In.
    + split; [|done]. split; [done|]. intros (g & [= ->] & Hg). rewrite Hg, beq_refl in Eb. done.
  - split; [|done]. split; [done|]. by intros (g & [=] & _).
Qed.

(** no internal header survives its arrival: whatever its case and
    however many there are, none reaches a handler; every other header does, in
    order; and a request is private only when the first marker on it carries
    the secret, so one that does not know the secret is public whatever it
    wrote. *)
Theorem internal_headers_are_stripped m hs :
  let '(hs', a) := take_arrival m hs in
  hs' = List.filter (fun h => negb (isInternalHeader (Name h))) hs /\
  forallb (fun h => negb (isInternalHeader (Name h))) hs' = true /\
  (a = arrPrivate <-> exists h, marker_of hs = Some h /\ Value h = private m) /\
  ((forall h, h ∈ hs -> Value h <> private m) -> a = arrPublic).
Proof. apply internal_headers_are_stripped_aux. Qed.

(** *** The socket decides *)

(** What the sources rely on in sipgo's parser: the headers of a datagram, in
    order; a header line inserted right after the request line becomes the
    first header and nothing else changes. *)
Context (parse : gostring -> option (list header)).

Definition parse_reads_insert : Prop := forall pre line term rest v hs,
  forallb (fun c => (c =? 13) || (c =? 10)) pre = true ->
  (match line with c :: _ => (c =? 13) || (c =? 10) = false | [] => False end) ->
  forallb visible v = true ->
  parse (pre ++ line ++ term ++ rest) = Some hs -> term = [13; 10] \/ term = [10] -> 10 ∉ line ->
  parse (pre ++ line ++ term ++ (arrivalHeader ++ str ": " ++ v ++ term) ++ rest) = Some (HOther arrivalHeader v :: hs).

(** The parser takes for a request only a datagram with a request line. *)
Definition has_request_line (data : gostring) : Prop :=
  exists pre line term rest, data = pre ++ line ++ term ++ rest /\
    forallb (fun c => (c =? 13) || (c =? 10)) pre = true /\ (term = [13; 10] \/ term = [10]) /\
    10 ∉ line /\ has_prefix line (str "SIP/") = false /\
    (match line with c :: _ => (c =? 13) || (c =? 10) = false | [] => False end) /\
    (term = [10] -> list.last line <> Some 13).

Lemma leading_app pre s : forallb (fun c => (c =? 13) || (c =? 10)) pre = true ->
  (match s with c :: _ => (c =? 13) || (c =? 10) = false | [] => True end) -> leading (pre ++ s) = length pre.
Proof.
  intros Hp Hs. induction pre as [|c pre IH]; cbn [app length].
  - destruct s as [|c s]; [done|]. cbn. by rewrite Hs.
  - cbn in Hp. apply andb_true_iff in Hp as [Hc Hp]. cbn [leading]. rewrite Hc. by rewrite IH.
Qed.

(** The stamp is a header line after the request line. *)
Lemma stamp_inserts m pre line term rest :
  forallb (fun c => (c =? 13) || (c =? 10)) pre = true -> term = [13; 10] \/ term = [10] -> 10 ∉ line ->
  has_prefix line (str "SIP/") = false -> (match line with c :: _ => (c =? 13) || (c =? 10) = false | [] => False end) ->
  (term = [10] -> list.last line <> Some 13) ->
  stamp m arrPrivate (pre ++ line ++ term ++ rest) =
  pre ++ line ++ term ++ (arrivalHeader ++ str ": " ++ private m ++ term) ++ rest.
Proof.
  intros Hpre Hterm Hl Hsip Hfirst Hlast. unfold stamp. cbn [value].
  rewrite leading_app; [|done|by destruct line]. rewrite drop_app_length. cbv zeta.
  set (cr := match term with 13 :: _ => [13] | _ => [] end : gostring).
  assert (Ht : term = cr ++ [10]) by (unfold cr; destruct Hterm as [-> | ->]; done).
  assert (Hc10 : 10 ∉ line ++ cr).
  { rewrite not_elem_of_app. split; [done|]. unfold cr. destruct Hterm as [-> | ->]; set_solver. }
  assert (Hrest : line ++ term ++ rest = (line ++ cr) ++ 10 :: rest) by (rewrite Ht, <- !app_assoc; done).
  rewrite Hrest, index_byte_app by done. rewrite bool_decide_eq_false_2 by (by destruct line).
  rewrite take_app_length.
  assert (Hp : has_prefix (line ++ cr) (str "SIP/") = false).
  { apply not_true_iff_false. intros [r Hr]%has_prefix_spec. apply not_true_iff_false in Hsip. apply Hsip.
    apply has_prefix_spec. destruct Hterm as [-> | ->]; unfold cr in Hr.
    - destruct r as [|r0 r] using rev_ind; [|rewrite app_assoc in Hr; apply app_inj_tail in Hr as [Hr _]; by exists r].
      rewrite app_nil_r in Hr. apply (f_equal (@list.last Z)) in Hr. rewrite last_snoc in Hr. vm_compute in Hr. done.
    - rewrite app_nil_r in Hr. by exists r. }
  rewrite Hp.
  assert (Hterm' : (if bool_decide (list.last (line ++ cr) = Some 13) then [13; 10] else [10]) = term).
  { destruct Hterm as [-> | ->]; unfold cr.
    - rewrite last_snoc, bool_decide_eq_true_2; done.
    - rewrite app_nil_r, bool_decide_eq_false_2; [done|by apply Hlast]. }
  rewrite Hterm'.
  assert (Hi : (length pre + length (line ++ cr) + 1)%nat = length (pre ++ (line ++ cr) ++ [10])) by (rewrite !length_app; cbn; lia).
  assert (Hd : pre ++ (line ++ cr) ++ 10 :: rest = (pre ++ (line ++ cr) ++ [10]) ++ rest) by (rewrite <- !app_assoc; done).
  rewrite Hi, Hd, take_app_length, drop_app_length, Ht. rewrite <- !app_assoc. done.
Qed.

(** the socket decides, not the sender: a request is private exactly when
    it reached the private socket, as long as none of the headers its sender
    wrote has the secret as its value; the headers the handler then sees are
    those the sender wrote, less the internal ones. *)
Theorem arrival_is_the_socket b a data hs :
  let m := newArrivalMarker b in
  bytes_ok b -> parse_reads_insert -> (forall v, Value (HOther arrivalHeader v) = v) ->
  parse data = Some hs -> has_request_line data -> (forall h, h ∈ hs -> Value h <> private m) ->
  exists hs', parse (stamp m a data) = Some hs' /\
    take_arrival m hs' = (List.filter (fun h => negb (isInternalHeader (Name h))) hs, a).
Proof.
  intros m Hb Hparse HV Hd (pre & line & term & rest & -> & Hpre & Hterm & Hl & Hsip & Hfirst & Hlast) Hsecret.
  destruct a.
  - exists hs. split; [done|]. pose proof (internal_headers_are_stripped_aux m hs) as H.
    destruct (take_arrival m hs) as [hs' a]. destruct H as (-> & _ & _ & H). by rewrite (H Hsecret).
  - rewrite stamp_inserts by done. exists (HOther arrivalHeader (private m) :: hs).
    split; [apply Hparse; try done; by apply marker_visible|]. pose proof (take_arrival_headers m (HOther arrivalHeader (private m) :: hs)) as Hh.
    unfold take_arrival in *. cbn [marker_of List.find Name].
    change (isInternalHeader arrivalHeader && asciiEqualFold arrivalHeader arrivalHeader) with true. cbv iota.
    rewrite HV, beq_refl. cbn [existsb Name]. change (isInternalHeader arrivalHeader) with true. cbn [orb negb].
    f_equal. rewrite stripInternalHeaders_filter. reflexivity.
Qed.
End Take.

(** *** A reader of header lines *)

Module LineReader.
Import ListImpl.

Fixpoint header_list (ls : list gostring) : list header :=
  match ls with
  | l :: (_ :: _) as ls' =>
      let l := chomp l in
      if bool_decide (l = []) then []
      else let '(n, v, _) := cut l 58 in HOther n (trim_space v) :: header_list ls'
  | _ => []
  end.

Definition parse (data : gostring) : option (list header) :=
  match split (drop (leading data) data) 10 with _ :: ls => Some (header_list ls) | [] => None end.

Definition Value (h : header) : gostring := match h with HOther _ v => v | _ => [] end.

Lemma visible_ends v : forallb visible v = true -> ends_ok is_space v = true.
Proof.
  intros Hv. assert (Hs : forall c, c ∈ v -> negb (is_space c) = true).
  { intros c Hc. rewrite forallb_forall in Hv. apply list_elem_of_In, Hv in Hc. unfold visible, is_space in *. lia. }
  unfold ends_ok. destruct v as [|c v]; [done|]. rewrite Hs by set_solver.
  destruct (rev (c :: v)) eqn:E; [done|]. apply Hs. apply list_elem_of_In, in_rev. rewrite E. by left.
Qed.

Lemma parse_ok : parse_reads_insert parse.
Proof.
  intros pre line term rest v hs Hpre Hfirst Hv Hp Hterm Hl. unfold parse in *.
  rewrite leading_app in * by (done || by destruct line). rewrite drop_app_length in *.
  set (cr := match term with 13 :: _ => true | _ => false end).
  assert (Ht : term = (if cr then [13] else []) ++ [10]) by (unfold cr; destruct Hterm as [-> | ->]; done).
  clearbody cr. subst term. rewrite <- !app_assoc in *. cbn [app] in *.
  rewrite (app_assoc line) in *. assert (Hc : 10 ∉ line ++ (if cr then [13] else [])).
  { rewrite not_elem_of_app. split; [done|]. destruct cr; set_solver. }
  rewrite split_app in * by done. injection Hp as <-. f_equal.
  assert (Hline : line_ok (arrivalHeader ++ str ": " ++ v) = true).
  { unfold line_ok. apply andb_true_iff. split.
    - rewrite !forallb_app. replace (forallb (fun c => negb (c =? 10)) v) with true; [reflexivity|].
      symmetry. rewrite forallb_forall in *. intros c Hin%Hv. unfold visible in Hin. lia.
    - rewrite !rev_app_distr. destruct (rev v) as [|c w] eqn:E; [reflexivity|]. cbn [app].
      assert (Hvc : visible c = true).
      { rewrite forallb_forall in Hv. apply Hv, in_rev. rewrite E. by left. }
      destruct c as [|q|q]; [done| |done]. do 4 (destruct q as [q|q|]; try done). }
  replace (arrivalHeader ++ str ": " ++ v ++ (if cr then [13] else []) ++ 10 :: rest) with
    ((((arrivalHeader ++ str ": " ++ v) ++ (if cr then [13] else [])) ++ 10 :: rest)) by (by rewrite <- !app_assoc).
  rewrite split_app.
  2:{ rewrite not_elem_of_app. split; [by apply line_free|]. destruct cr; set_solver. }
  destruct (split rest 10) as [|l ls] eqn:Es; [by apply split_not_nil in Es|].
  cbn [header_list]. rewrite chomp_eol by done. rewrite bool_decide_eq_false_2 by done.
  change (arrivalHeader ++ str ": " ++ v) with (arrivalHeader ++ 58 :: (32 :: v)). rewrite cut_app.
  - f_equal. f_equal. pose proof (trim_space_ends [32] v [] eq_refl eq_refl) as Htr. rewrite app_nil_r in Htr. apply Htr. by apply visible_ends.
  - apply index_byte_none. reflexivity.
Qed.

(** A forged marker, in another case, on a REGISTER. *)
Definition forged : gostring :=
  str "REGISTER sip:example.org SIP/2.0" ++ [13; 10] ++ str "x-freesbc-ARRIVAL: 00;private" ++ [13; 10] ++
  str "Call-ID: c" ++ [13; 10; 13; 10].

Definition secret : list Z := [1; 2; 3; 4; 5; 6; 7; 8; 9; 10; 11; 12; 13; 14; 15; 16].
End LineReader.

Lemma arrival_is_the_socket_witness :
  let m := newArrivalMarker LineReader.secret in
  (exists hs', LineReader.parse (stamp m arrPublic LineReader.forged) = Some hs' /\
     take_arrival LineReader.Value m hs' = ([HOther (str "Call-ID") (str "c")], arrPublic)) /\
  exists hs', LineReader.parse (stamp m arrPrivate LineReader.forged) = Some hs' /\
     take_arrival LineReader.Value m hs' = ([HOther (str "Call-ID") (str "c")], arrPrivate).
Proof.
  assert (H : forall a, exists hs', LineReader.parse (stamp (newArrivalMarker LineReader.secret) a LineReader.forged) = Some hs' /\
    take_arrival LineReader.Value (newArrivalMarker LineReader.secret) hs' =
    (List.filter (fun h => negb (isInternalHeader (Name h)))
       [HOther (str "x-freesbc-ARRIVAL") (str "00;private"); HOther (str "Call-ID") (str "c")], a)).
  { intros a. apply (arrival_is_the_socket LineReader.Value LineReader.parse LineReader.secret a LineReader.forged).
    - unfold LineReader.secret. repeat (constructor; [unfold byte_ok; lia|]). constructor.
    - apply LineReader.parse_ok.
    - reflexivity.
    - vm_compute. reflexivity.
    - exists [], (str "REGISTER sip:example.org SIP/2.0"), [13; 10],
        (str "x-freesbc-ARRIVAL: 00;private" ++ [13; 10] ++ str "Call-ID: c" ++ [13; 10; 13; 10]).
      split; [reflexivity|]. split; [reflexivity|]. split; [by left|]. split; [apply index_byte_none; reflexivity|].
      split; [reflexivity|]. split; [reflexivity|done].
    - intros h [-> | ->%list_elem_of_singleton]%elem_of_cons; vm_compute; discriminate. }
  split; [exact (H arrPublic)|exact (H arrPrivate)].
Defined.
