(* ===== verification/EdgeSdes.v ===== *)
(** SDES-SRTP on a public leg (internal/edge/sdes.go).

    The policy of a leg ([legSRTPPolicy]), the negotiation state of its keys
    ([sdesLeg]) and the plans an offer or an answer makes ([planAnswer],
    [checkAnswer]), applied to the media session by [commit].  Random keys and
    the SRTP contexts of the media session are parameters, as in the files
    this one builds on. *)

From S2P Require Import Prelude GoText SdpCrypto SdpParse MediaSession.

Open Scope Z_scope.

Inductive srtpPolicy := srtpOff | srtpOptional | srtpRequired | srtpImpossible.

#[export] Instance srtpPolicy_eq_dec : EqDecision srtpPolicy.
Proof. solve_decision. Defined.

Definition SRTPOff : gostring := str "off".
Definition SRTPOptional : gostring := str "optional".
Definition SRTPRequired : gostring := str "required".
Definition transport_tls : gostring := str "tls".
Definition transport_wss : gostring := str "wss".

(** What the policy reads of the configuration; a carrier is its name, its
    srtp setting and its transport. *)
Record srtpConfig := mkSrtpConfig {
  cf_srtp : gostring; cf_allow_insecure : bool; cf_carriers : list (gostring * gostring * gostring)
}.

Definition legSRTPPolicy (cfg : srtpConfig) (carrier transport : gostring) : srtpPolicy :=
  let '(name, secure) :=
    if negb (bool_decide (carrier = [])) then
      match List.find (fun c => beq c.1.1 carrier) (cf_carriers cfg) with
      | Some (_, srtp, tr) => (srtp, beq tr transport_tls)
      | None => (SRTPOff, false)
      end
    else (cf_srtp cfg, beq transport transport_tls || beq transport transport_wss) in
  if secure || cf_allow_insecure cfg then
    if beq name SRTPOptional then srtpOptional
    else if beq name SRTPRequired then srtpRequired
    else srtpOff
  else if beq name SRTPRequired then srtpImpossible
  else srtpOff.

Inductive sdesError :=
  | errSDESInsecure | errSDESRequired | errSDESDowngrade | errSDESNoCrypto | errSDESAnswer
  | errNoRTPLeg | errPeerKey | errLocalKey | errCrypto (e : cryptoError).

(** The zero line. *)
Definition no_crypto : Crypto := mkCrypto 0 [] [] [].

Record sdesLeg := mkLegS {
  l_policy : srtpPolicy; l_offered : list Crypto; l_on : bool; l_plain : bool; l_local : Crypto; l_peer : Crypto
}.

Record sdesPlan := mkPlan { p_sdes : bool; p_plain : bool; p_local : Crypto; p_peer : Crypto }.

Definition no_plan : sdesPlan := mkPlan false false no_crypto no_crypto.
Definition plain_plan : sdesPlan := mkPlan false true no_crypto no_crypto.

Definition newSDESLeg (p : srtpPolicy) : option sdesLeg :=
  if bool_decide (p = srtpOff) then None else Some (mkLegS p [] false false no_crypto no_crypto).

Definition set_offered (l : sdesLeg) (o : list Crypto) : sdesLeg :=
  mkLegS (l_policy l) o (l_on l) (l_plain l) (l_local l) (l_peer l).

(** [media.SDESSuite(c.Suite)] *)
Definition media_suite (s : CryptoSuite) : SDESSuite :=
  if beq s SuiteAESCM128HMACSHA180 then AES_CM_128_HMAC_SHA1_80
  else if beq s SuiteAESCM128HMACSHA132 then AES_CM_128_HMAC_SHA1_32
  else if beq s SuiteAEADAES128GCM then AEAD_AES_128_GCM
  else OtherSuite s.

Definition mediaKey (c : Crypto) : SDESKey := mkKey (media_suite (SdpCrypto.Suite c)) (SdpCrypto.Key c) (SdpCrypto.Salt c).

Section Legs.
Context {R : Type} (rand_read : Z -> R -> option (list Z) * R).

(** *** Offers *)

(** The result is the lines or an error, with the leg and the random state. *)
Definition initialOffer (l : sdesLeg) (rnd : R) : (list Crypto + sdesError) * sdesLeg * R :=
  if bool_decide (l_offered l = []) then
    match OfferCrypto rand_read [] rnd with
    | (inr e, rnd) => (inr (errCrypto e), l, rnd)
    | (inl lines, rnd) => (inl lines, set_offered l lines, rnd)
    end
  else (inl (l_offered l), l, rnd).

(** [sdesOffer] on a session that has a leg; without one the offer is plain. *)
Definition sdesOffer (l : sdesLeg) (rnd : R) : (list Crypto + sdesError) * sdesLeg * R :=
  if bool_decide (l_policy l = srtpImpossible) then (inr errSDESInsecure, l, rnd)
  else if l_on l then (inl [l_local l], l, rnd)
  else if l_plain l then (inl [], l, rnd)
  else initialOffer l rnd.

Definition answerSet (initial : bool) (l : sdesLeg) (rnd : R) : (list Crypto + sdesError) * sdesLeg * R :=
  if initial then initialOffer l rnd else sdesOffer l rnd.

(** *** Plans *)

Definition planAnswer (l : sdesLeg) (a : Audio) (rnd : R) : (sdesPlan + sdesError) * R :=
  if bool_decide (l_policy l = srtpImpossible) then (inr errSDESInsecure, rnd)
  else if negb (SDES a) then
    if l_on l then (inr errSDESDowngrade, rnd)
    else if bool_decide (l_policy l = srtpRequired) then (inr errSDESRequired, rnd)
    else (inl plain_plan, rnd)
  else match SelectCrypto (a_crypto a) [] with
       | None => (inr errSDESNoCrypto, rnd)
       | Some peer =>
           let finish loc := mkPlan true false (mkCrypto (SdpCrypto.Tag peer) (SdpCrypto.Suite loc) (SdpCrypto.Key loc) (SdpCrypto.Salt loc)) peer in
           if negb (l_on l) || negb (beq (SdpCrypto.Suite (l_local l)) (SdpCrypto.Suite peer)) then
             match NewCrypto rand_read (SdpCrypto.Tag peer) (SdpCrypto.Suite peer) rnd with
             | (inr e, rnd) => (inr (errCrypto e), rnd)
             | (inl loc, rnd) => (inl (finish loc), rnd)
             end
           else (inl (finish (l_local l)), rnd)
       end.

(** The first line of the answer that selects an offered one, and that one. *)
Fixpoint selected (answer offered : list Crypto) : option (Crypto * Crypto) :=
  match answer with
  | [] => None
  | c :: answer' =>
      match List.find (fun o => (SdpCrypto.Tag c =? SdpCrypto.Tag o) && beq (SdpCrypto.Suite c) (SdpCrypto.Suite o)) offered with
      | Some o => Some (c, o)
      | None => selected answer' offered
      end
  end.

Definition checkAnswer (l : sdesLeg) (a : Audio) (offered : list Crypto) : sdesPlan + sdesError :=
  if bool_decide (l_policy l = srtpImpossible) then inr errSDESInsecure
  else if bool_decide (offered = []) then
    if SDES a then inr errSDESAnswer else inl plain_plan
  else if negb (SDES a) then
    if l_on l then inr errSDESDowngrade
    else if bool_decide (l_policy l = srtpRequired) then inr errSDESRequired
    else inl plain_plan
  else match selected (a_crypto a) offered with
       | Some (c, o) => inl (mkPlan true false o c)
       | None => if bool_decide (a_crypto a = []) then inr errSDESNoCrypto else inr errSDESAnswer
       end.

Definition answerLines (p : sdesPlan) : list Crypto := if p_sdes p then [p_local p] else [].

(** *** Commit *)

Context {Ctx : Type} (newContext : SDESSuite -> list Z -> list Z -> option Ctx).

(** The leg and the plain RTP session behind it, if there is one. *)
Record leg_media := mkLM { lm_leg : sdesLeg; lm_rtp : option (@MediaSession.Session Ctx) }.

Definition set_leg (l : sdesLeg) (m : leg_media) : leg_media := mkLM l (lm_rtp m).

Definition commit (p : sdesPlan) (m : leg_media) : option sdesError * leg_media :=
  let l := lm_leg m in
  if negb (p_sdes p) && negb (p_plain p) then (None, m)
  else if p_plain p then
    (None, if l_on l then m else set_leg (mkLegS (l_policy l) (l_offered l) (l_on l) true (l_local l) (l_peer l)) m)
  else match lm_rtp m with
       | None => (Some errNoRTPLeg, m)
       | Some s =>
           let '(ok1, s1) := SetSDESRemote newContext SideA (mediaKey (p_peer p)) s in
           if negb ok1 then (Some errPeerKey, mkLM l (Some s1))
           else
             let '(ok2, s2) := SetSDESLocal newContext SideA (mediaKey (p_local p)) s1 in
             if negb ok2 then (Some errLocalKey, mkLM l (Some s2))
             else (None, mkLM (mkLegS (l_policy l) (l_offered l) true false (p_local p) (p_peer p)) (Some s2))
       end.

(** ** Operations in any order *)

(** A leg is worked on by several exchanges at once: a plan is committed some
    time after it was made, if at all.  The state keeps the plans made. *)
Record leg_state := mkLegState { ls_media : leg_media; ls_plans : list sdesPlan; ls_rnd : R }.

Inductive leg_op :=
  | LOffer                          (* sdesOffer *)
  | LInitial                        (* answerSet(true) *)
  | LPlan (a : Audio)               (* planAnswer *)
  | LCheck (a : Audio) (offered : list Crypto)   (* checkAnswer *)
  | LCommit (i : nat).              (* commit of a plan made before *)

Definition leg_step (s : leg_state) (o : leg_op) : leg_state :=
  let m := ls_media s in
  match o with
  | LOffer => let '(_, l, rnd) := sdesOffer (lm_leg m) (ls_rnd s) in mkLegState (set_leg l m) (ls_plans s) rnd
  | LInitial => let '(_, l, rnd) := initialOffer (lm_leg m) (ls_rnd s) in mkLegState (set_leg l m) (ls_plans s) rnd
  | LPlan a => match planAnswer (lm_leg m) a (ls_rnd s) with
               | (inl p, rnd) => mkLegState m (ls_plans s ++ [p]) rnd
               | (inr _, rnd) => mkLegState m (ls_plans s) rnd
               end
  | LCheck a offered => match checkAnswer (lm_leg m) a offered with
                        | inl p => mkLegState m (ls_plans s ++ [p]) (ls_rnd s)
                        | inr _ => s
                        end
  | LCommit i => match ls_plans s !! i with
                 | Some p => mkLegState (commit p m).2 (ls_plans s) (ls_rnd s)
                 | None => s
                 end
  end.

(** ** What holds *)

Lemma initialOffer_leg l rnd : let l' := (initialOffer l rnd).1.2 in
  l_policy l' = l_policy l /\ l_on l' = l_on l /\ l_plain l' = l_plain l /\ l_local l' = l_local l /\ l_peer l' = l_peer l.
Proof. unfold initialOffer. case_if; [|done]. by destruct (OfferCrypto rand_read [] rnd) as [[?|?] ?]. Qed.

Lemma sdesOffer_leg l rnd : let l' := (sdesOffer l rnd).1.2 in
  l_policy l' = l_policy l /\ l_on l' = l_on l /\ l_plain l' = l_plain l /\ l_local l' = l_local l /\ l_peer l' = l_peer l.
Proof.
  pose proof (initialOffer_leg l rnd) as H. unfold sdesOffer. case_if; [done|].
  destruct (l_on l) eqn:E1; [done|]. destruct (l_plain l) eqn:E2; [done|]. exact H.
Qed.

Lemma commit_policy p m : l_policy (lm_leg (commit p m).2) = l_policy (lm_leg m).
Proof.
  unfold commit. case_if; [done|]. case_if; [by case_if|]. destruct (lm_rtp m); [|done].
  destruct (SetSDESRemote _ _ _ _) as [[] s1]; cbn; [|done]. by destruct (SetSDESLocal _ _ _ _) as [[] s2].
Qed.

Lemma commit_on p m : l_on (lm_leg m) = true -> l_on (lm_leg (commit p m).2) = true.
Proof.
  intros Ho. unfold commit. case_if; [done|]. case_if; [by rewrite Ho|]. destruct (lm_rtp m); [|done].
  destruct (SetSDESRemote _ _ _ _) as [[] s1]; cbn; [|done]. by destruct (SetSDESLocal _ _ _ _) as [[] s2].
Qed.

(** A plan that leaves the leg plain is made on a leg that allows it. *)
Lemma planAnswer_plain l a rnd p rnd' : planAnswer l a rnd = (inl p, rnd') ->
  p_plain p = true -> l_on l = false /\ l_policy l <> srtpRequired /\ l_policy l <> srtpImpossible.
Proof.
  unfold planAnswer. case_if; [done|]. breflect. case_if.
  - case_if; [done|]. case_if; [done|]. by breflect.
  - destruct (SelectCrypto _ _); [|done]. case_if; [|by intros [= <- <-]].
    destruct (NewCrypto _ _ _ _) as [[?|?] ?]; [|done]. by intros [= <- <-].
Qed.

Definition leg_of (s : leg_state) : sdesLeg := lm_leg (ls_media s).

Lemma leg_step_policy s o : l_policy (leg_of (leg_step s o)) = l_policy (leg_of s).
Proof.
  destruct o; cbn [leg_step].
  - pose proof (sdesOffer_leg (leg_of s) (ls_rnd s)) as (H & _). unfold leg_of in *.
    by destruct (sdesOffer _ _) as [[? ?] ?].
  - pose proof (initialOffer_leg (leg_of s) (ls_rnd s)) as (H & _). unfold leg_of in *.
    by destruct (initialOffer _ _) as [[? ?] ?].
  - by destruct (planAnswer _ _ _) as [[?|?] ?].
  - by destruct (checkAnswer _ _ _).
  - destruct (ls_plans s !! i); [apply commit_policy|done].
Qed.

Lemma leg_step_on s o : l_on (leg_of s) = true -> l_on (leg_of (leg_step s o)) = true.
Proof.
  intros Ho. destruct o; cbn [leg_step].
  - pose proof (sdesOffer_leg (leg_of s) (ls_rnd s)) as (_ & H & _). unfold leg_of in *.
    destruct (sdesOffer _ _) as [[? ?] ?]. cbn in *. congruence.
  - pose proof (initialOffer_leg (leg_of s) (ls_rnd s)) as (_ & H & _). unfold leg_of in *.
    destruct (initialOffer _ _) as [[? ?] ?]. cbn in *. congruence.
  - by destruct (planAnswer _ _ _) as [[?|?] ?].
  - by destruct (checkAnswer _ _ _).
  - destruct (ls_plans s !! i); [by apply commit_on|done].
Qed.

(** On a leg that requires SRTP no plain plan is made from an offer of ours
    that has lines, nor from the public side's offer, and none is committed. *)
Definition strict (l : sdesLeg) : Prop := l_policy l = srtpRequired \/ l_policy l = srtpImpossible.

Definition checks_lines (o : leg_op) : Prop := match o with LCheck _ offered => offered <> [] | _ => True end.

Lemma strict_inv s o : strict (leg_of s) -> checks_lines o ->
  (forall p, p ∈ ls_plans s -> p_plain p = false) /\ l_plain (leg_of s) = false ->
  (forall p, p ∈ ls_plans (leg_step s o) -> p_plain p = false) /\ l_plain (leg_of (leg_step s o)) = false.
Proof.
  intros Hs Hc [Hp Hl]. destruct o; cbn [leg_step].
  - pose proof (sdesOffer_leg (leg_of s) (ls_rnd s)) as (_ & _ & H & _). unfold leg_of in *.
    destruct (sdesOffer _ _) as [[? ?] ?]. cbn in *. split; [done|congruence].
  - pose proof (initialOffer_leg (leg_of s) (ls_rnd s)) as (_ & _ & H & _). unfold leg_of in *.
    destruct (initialOffer _ _) as [[? ?] ?]. cbn in *. split; [done|congruence].
  - destruct (planAnswer (lm_leg (ls_media s)) a (ls_rnd s)) as [[p|e] rnd] eqn:E; [|by split]. cbn [ls_plans]. split; [|done].
    intros q [Hq|Hq%list_elem_of_singleton]%elem_of_app; [by apply Hp|]. subst q.
    destruct (p_plain p) eqn:Ep; [|done]. exfalso. destruct (planAnswer_plain _ _ _ _ _ E Ep) as (_ & H1 & H2). by destruct Hs.
  - destruct (checkAnswer (lm_leg (ls_media s)) a offered) as [p|e] eqn:E; [|by split]. cbn [ls_plans]. split; [|done].
    intros q [Hq|Hq%list_elem_of_singleton]%elem_of_app; [by apply Hp|]. subst q.
    unfold checkAnswer in E. unfold leg_of, strict in Hs. cbn in Hc. case_if_in E; [done|]. case_if_in E; [by breflect|].
    case_if_in E.
    + case_if_in E; [done|]. case_if_in E; [done|]. breflect. by destruct Hs.
    + destruct (selected _ _) as [[c o]|]; [by injection E as <-|]. by case_if_in E.
  - destruct (ls_plans s !! i) as [p|] eqn:E; [|by split]. cbn [ls_plans ls_media]. split; [done|].
    apply list_elem_of_lookup_2 in E. specialize (Hp p E). unfold leg_of in *. cbn [ls_media]. unfold commit. rewrite Hp. cbn [negb].
    case_if; [done|]. destruct (lm_rtp (ls_media s)); [|done].
    destruct (SetSDESRemote _ _ _ _) as [[] s1]; cbn; [|done]. by destruct (SetSDESLocal _ _ _ _) as [[] s2].
Qed.

Definition new_leg_state (pol : srtpPolicy) (m : option (@MediaSession.Session Ctx)) (rnd : R) : leg_state :=
  mkLegState (mkLM (mkLegS pol [] false false no_crypto no_crypto) m) [] rnd.

(** An impossible leg never gets keys. *)
Lemma impossible_inv s o : l_policy (leg_of s) = srtpImpossible ->
  ls_plans s = [] /\ l_on (leg_of s) = false -> ls_plans (leg_step s o) = [] /\ l_on (leg_of (leg_step s o)) = false.
Proof.
  intros Hi [Hp Hl]. unfold leg_of in *. destruct o; cbn [leg_step].
  - unfold sdesOffer. by rewrite Hi.
  - pose proof (initialOffer_leg (lm_leg (ls_media s)) (ls_rnd s)) as (_ & H & _).
    destruct (initialOffer _ _) as [[? ?] ?]. cbn in *. split; [done|congruence].
  - unfold planAnswer. by rewrite Hi.
  - unfold checkAnswer. by rewrite Hi.
  - by rewrite Hp.
Qed.

(** What a leg that requires SRTP offers has keys. *)
Lemma strict_offers_keys l rnd lines : l_plain l = false -> (sdesOffer l rnd).1.1 = inl lines -> lines <> [].
Proof.
  intros P. unfold sdesOffer. case_if; [done|]. destruct (l_on l); [by intros [= <-]|]. rewrite P. unfold initialOffer.
  destruct (decide (l_offered l = [])) as [E|E]; [rewrite bool_decide_eq_true_2 by done|rewrite bool_decide_eq_false_2 by done; by intros [= <-]].
  assert (forall i su ss r ks r', offer_from rand_read i (su :: ss) r = (inl ks, r') -> ks <> []) as F.
  { intros i su ss r ks r'. cbn [offer_from]. destruct (NewCrypto _ _ _ r) as [[c|e] r1]; [|done].
    destruct (offer_from _ _ ss r1) as [[k|e] r2]; [|done]. by intros [= <- _]. }
  unfold OfferCrypto. destruct (offer_from _ _ _ rnd) as [[k|e] rnd1] eqn:O; [|done]. intros [= <-]. by eapply F.
Qed.

(** C39: An encrypted leg stays encrypted.  Whatever offers, answers and
    commits follow one another, in any order and however late a plan is
    committed: a leg that has SRTP never loses it; where signalling cannot carry
    keys nothing is ever planned, offered or committed; and a leg that requires
    SRTP is never marked plain, nor is a plain plan made on it, as long as each
    answer checked is one to an offer that carried keys ([checks_lines]); and
    every offer such a leg then makes does carry keys. *)
Theorem srtp_is_never_weakened pol m rnd os1 os2 :
  let s1 := run_ops leg_step (new_leg_state pol m rnd) os1 in
  let s2 := run_ops leg_step s1 os2 in
  (l_on (leg_of s1) = true -> l_on (leg_of s2) = true) /\
  (pol = srtpRequired -> Forall checks_lines os1 ->
   l_plain (leg_of s1) = false /\ (forall p, p ∈ ls_plans s1 -> p_plain p = false) /\
   forall rnd lines, (sdesOffer (leg_of s1) rnd).1.1 = inl lines -> lines <> []) /\
  (pol = srtpImpossible -> ls_plans s1 = [] /\ l_on (leg_of s1) = false /\
     forall rnd, (sdesOffer (leg_of s1) rnd).1.1 = inr errSDESInsecure).
Proof.
  cbv zeta. split; [|split].
  - generalize (run_ops leg_step (new_leg_state pol m rnd) os1). intros s Hs.
    revert s Hs. induction os2 as [|o os IH]; intros s Hs; [done|]. apply IH. by apply leg_step_on.
  - intros -> Hc. enough (l_plain (leg_of (run_ops leg_step (new_leg_state srtpRequired m rnd) os1)) = false /\
      forall p, p ∈ ls_plans (run_ops leg_step (new_leg_state srtpRequired m rnd) os1) -> p_plain p = false) as [P Pl].
    { split_and!; [done|done|]. intros r lines. by apply strict_offers_keys. }
    revert Hc. assert (H0 : strict (leg_of (new_leg_state srtpRequired m rnd))) by (by left).
    assert (Hi : (forall p, p ∈ ls_plans (new_leg_state srtpRequired m rnd) -> p_plain p = false) /\
                 l_plain (leg_of (new_leg_state srtpRequired m rnd)) = false) by (split; [by intros p ?%elem_of_nil|done]).
    revert H0 Hi. generalize (new_leg_state srtpRequired m rnd).
    induction os1 as [|o os IH]; intros s Hs Hi Hc; [by destruct Hi|]. apply Forall_cons in Hc as [Ho Hc].
    apply IH; [|by apply strict_inv|done]. unfold strict. by rewrite leg_step_policy.
  - intros ->. assert (Hpol : forall s, l_policy (leg_of s) = srtpImpossible -> ls_plans s = [] /\ l_on (leg_of s) = false ->
      let s' := run_ops leg_step s os1 in l_policy (leg_of s') = srtpImpossible /\ ls_plans s' = [] /\ l_on (leg_of s') = false).
    { clear. induction os1 as [|o os IH]; intros s Hp Hi; [done|]. apply (IH (leg_step s o)).
      - by rewrite leg_step_policy.
      - by apply impossible_inv. }
    destruct (Hpol (new_leg_state srtpImpossible m rnd) eq_refl (conj eq_refl eq_refl)) as (H1 & H2 & H3).
    split; [done|]. split; [done|]. intros r. unfold sdesOffer. by rewrite H1.
Qed.

(** ** Plans carry the right keys *)

Lemma selected_spec answer offered c o : selected answer offered = Some (c, o) ->
  c ∈ answer /\ o ∈ offered /\ SdpCrypto.Tag c = SdpCrypto.Tag o /\ SdpCrypto.Suite c = SdpCrypto.Suite o.
Proof.
  induction answer as [|x answer IH]; [done|]. cbn. destruct (List.find _ offered) as [y|] eqn:E.
  - intros [= -> ->]. apply find_some in E as [Hin H]. breflect. split; [left|]. split; [by apply list_elem_of_In|]. split; [lia|done].
  - intros (H1 & H2)%IH. split; [by right|done].
Qed.

Lemma NewCrypto_suite tag suite rnd c rnd' : NewCrypto rand_read tag suite rnd = (inl c, rnd') ->
  SdpCrypto.Suite c = suite /\ SdpCrypto.Tag c = tag.
Proof.
  unfold NewCrypto. destruct (Lengths suite) as [[kl sl]|]; [|done]. case_if; [done|].
  destruct (rand_read _ _) as [[mat|] ?]; [|done]. by intros [= <- <-].
Qed.

(** the keys of a plan are the ones signalled: the peer key is a line of
    the peer's body; ours has the peer's tag and suite, is the key in force
    when the suite is unchanged (so a re-offer never re-keys), and in an
    answer to our own offer is a line we offered; an answer has exactly our
    line and a re-offer repeats exactly the line in force. *)
Theorem plans_keep_keys l a rnd offered :
  (forall p rnd', planAnswer l a rnd = (inl p, rnd') -> p_sdes p = true ->
     p_peer p ∈ a_crypto a /\ SelectCrypto (a_crypto a) [] = Some (p_peer p) /\
     SdpCrypto.Tag (p_local p) = SdpCrypto.Tag (p_peer p) /\ SdpCrypto.Suite (p_local p) = SdpCrypto.Suite (p_peer p) /\
     (l_on l = true -> SdpCrypto.Suite (l_local l) = SdpCrypto.Suite (p_peer p) ->
      SdpCrypto.Key (p_local p) = SdpCrypto.Key (l_local l) /\ SdpCrypto.Salt (p_local p) = SdpCrypto.Salt (l_local l))) /\
  (forall p, checkAnswer l a offered = inl p -> p_sdes p = true ->
     p_peer p ∈ a_crypto a /\ p_local p ∈ offered /\
     SdpCrypto.Tag (p_local p) = SdpCrypto.Tag (p_peer p) /\ SdpCrypto.Suite (p_local p) = SdpCrypto.Suite (p_peer p)) /\
  (l_on l = true -> l_policy l <> srtpImpossible -> (sdesOffer l rnd).1 = (inl [l_local l], l)).
Proof.
  split; [|split].
  - intros p rnd'. unfold planAnswer. case_if; [done|]. case_if.
    { case_if; [done|]. case_if; [done|]. by intros [= <- <-]. }
    destruct (SelectCrypto (a_crypto a) []) as [peer|] eqn:Es; [|done].
    assert (Hin : peer ∈ a_crypto a) by (apply find_some in Es as [Hin _]; by apply list_elem_of_In).
    destruct (negb (l_on l) || negb (beq (SdpCrypto.Suite (l_local l)) (SdpCrypto.Suite peer))) eqn:En.
    + destruct (NewCrypto rand_read _ _ _) as [[c|e] r] eqn:E; [|done]. intros [= <- <-] _. cbn.
      apply NewCrypto_suite in E as [Hsu _]. repeat split; try done; rewrite H in En; cbn in En; rewrite H0, beq_refl in En; done.
    + intros [= <- <-] _. cbn. breflect. repeat split; done.
  - intros p. unfold checkAnswer. case_if; [done|]. case_if; [by case_if; intros [= <-]|]. case_if.
    { case_if; [done|]. case_if; [done|]. by intros [= <-]. }
    destruct (selected _ _) as [[c o]|] eqn:E; [|by case_if]. intros [= <-] _. cbn.
    apply selected_spec in E as (H1 & H2 & H3 & H4). done.
  - intros Ho Hp. unfold sdesOffer. rewrite bool_decide_eq_false_2 by done. by rewrite Ho.
Qed.
End Legs.

(** keys are never sent in the clear unless the operator allows it, and a
    "required" setting is never weakened: it gives SRTP or refuses every
    media body. *)
Theorem policy_protects_keys cfg carrier transport :
  (cf_allow_insecure cfg = false ->
   (legSRTPPolicy cfg carrier transport = srtpOptional \/ legSRTPPolicy cfg carrier transport = srtpRequired) ->
   (carrier = [] /\ (transport = transport_tls \/ transport = transport_wss)) \/
   (exists srtp, (carrier, srtp, transport_tls) ∈ cf_carriers cfg)) /\
  (carrier = [] -> cf_srtp cfg = SRTPRequired ->
   legSRTPPolicy cfg carrier transport = srtpRequired \/ legSRTPPolicy cfg carrier transport = srtpImpossible).
Proof.
  unfold legSRTPPolicy. split.
  - intros Ha. rewrite Ha. destruct (bool_decide (carrier = [])) eqn:Ec; breflect; cbn [negb].
    + intros Hp. left. split; [done|]. rewrite orb_false_r in Hp. destruct (beq transport transport_tls) eqn:E1; breflect; [by left|].
      destruct (beq transport transport_wss) eqn:E2; breflect; [by right|]. cbn [orb] in Hp. case_if_in Hp; naive_solver.
    + destruct (List.find _ (cf_carriers cfg)) as [[[n srtp] tr]|] eqn:Ef.
      * intros Hp. apply find_some in Ef as [Hin Hn]. cbn in Hn. breflect. subst n. right. exists srtp.
        rewrite orb_false_r in Hp. destruct (beq tr transport_tls) eqn:E1; breflect; [subst tr; by apply list_elem_of_In|].
        case_if_in Hp; naive_solver.
      * cbn. naive_solver.
  - intros -> ->. cbn [negb]. rewrite bool_decide_eq_true_2 by done. cbn [negb].
    change (beq SRTPRequired SRTPOptional) with false. change (beq SRTPRequired SRTPRequired) with true. cbv iota.
    case_if; [by left|by right].
Qed.

(** *** A session that negotiates *)

Definition demo_offer_line : Crypto := mkCrypto 1 SuiteAEADAES128GCM (replicate 16 7) (replicate 12 9).

Definition demo_audio (crypto : list Crypto) : Audio :=
  mkAudio 4000 [str "RTP"; if bool_decide (crypto = []) then str "AVP" else str "SAVP"] (Netip.ip4 192 0 2 9) false [] SendRecv 0 false [] [] None [] crypto.

Definition demo_legs : @leg_state unit unit :=
  run_ops (leg_step ones toy_context) (new_leg_state srtpRequired (Some demo_session) tt)
    [LPlan (demo_audio [demo_offer_line]); LCommit 0; LPlan (demo_audio [])].

Lemma srtp_is_never_weakened_witness :
  l_on (leg_of demo_legs) = true /\ l_plain (leg_of demo_legs) = false /\
  l_on (leg_of (run_ops (leg_step ones toy_context) demo_legs [LOffer; LCommit 0; LPlan (demo_audio [])])) = true.
Proof.
  destruct (srtp_is_never_weakened ones toy_context srtpRequired (Some demo_session) tt
    [LPlan (demo_audio [demo_offer_line]); LCommit 0; LPlan (demo_audio [])]
    [LOffer; LCommit 0; LPlan (demo_audio [])]) as (H1 & H2 & _).
  split; [vm_compute; reflexivity|]. split.
  - apply H2; [reflexivity|]. repeat constructor.
  - apply H1. vm_compute. reflexivity.
Defined.

Lemma plans_keep_keys_witness :
  exists p, planAnswer ones (leg_of demo_legs) (demo_audio [demo_offer_line]) tt = (inl p, tt) /\
    p_peer p = demo_offer_line /\ SdpCrypto.Key (p_local p) = SdpCrypto.Key (l_local (leg_of demo_legs)).
Proof.
  destruct (plans_keep_keys ones (leg_of demo_legs) (demo_audio [demo_offer_line]) tt []) as (H & _).
  eexists. split; [vm_compute; reflexivity|].
  destruct (H _ tt eq_refl) as (_ & Hs & _ & _ & Hk); [vm_compute; reflexivity|].
  split.
  - vm_compute. reflexivity.
  - apply (Hk ltac:(vm_compute; reflexivity) ltac:(vm_compute; reflexivity)).
Defined.

Lemma policy_protects_keys_witness :
  let cfg := mkSrtpConfig SRTPRequired false [(str "acme", SRTPRequired, str "udp")] in
  (legSRTPPolicy cfg [] (str "udp") = srtpRequired \/ legSRTPPolicy cfg [] (str "udp") = srtpImpossible) /\
  legSRTPPolicy cfg (str "acme") [] = srtpImpossible.
Proof.
  split; [|vm_compute; reflexivity].
  exact (proj2 (policy_protects_keys (mkSrtpConfig SRTPRequired false [(str "acme", SRTPRequired, str "udp")]) [] (str "udp")) eq_refl eq_refl).
Defined.
