(* ===== verification/Topology.v ===== *)
(** The network model of the proxy (internal/edge/topology.go).

    A [side] is what the proxy writes about itself on one plane; the
    [topology] is built once from the configuration.  This file models how
    the proxy recognises its own addresses ([isSelf], [isSelfVia],
    [fromUpstream]) and how a user is mapped to the switch nodes
    ([upstreamDialOrder]). *)

From stdpp Require Import sorting.
From S2P Require Import Prelude Netip GoText GoEncoding SipAddr SipScan SipMsg Carriers.

Open Scope Z_scope.

Inductive plane := planePublic | planePrivate.

#[export] Instance plane_eq_dec : EqDecision plane.
Proof. solve_decision. Defined.

Definition otherPlane (p : plane) : plane := match p with planePublic => planePrivate | planePrivate => planePublic end.

(** [sip.Addr]: the bytes of the IP ([[]] is nil) and the port. *)
Definition sipAddr (ip : Addr) (port : Z) : list Z * Z :=
  (match ip with AddrZero => [] | V4 n => be 4 n | V6 n _ => be 16 n end, port).

Record side := mkSide {
  sd_plane : plane; sd_transport : gostring; sd_advIP : Addr; sd_advPort : Z;
  sd_laddr : list Z * Z; sd_outbound : bool; sd_advHost : gostring; sd_upTransport : gostring
}.

Definition withNames (s : side) : side :=
  mkSide (sd_plane s) (sd_transport s) (sd_advIP s) (sd_advPort s) (sd_laddr s) (sd_outbound s)
         (addr_string (sd_advIP s)) (to_upper (sd_transport s)).

Definition host (s : side) : gostring :=
  if negb (bool_decide (sd_advHost s = [])) then sd_advHost s else addr_string (sd_advIP s).

Definition upperTransport (s : side) : gostring :=
  if negb (bool_decide (sd_upTransport s = [])) then sd_upTransport s else to_upper (sd_transport s).

Definition udp : gostring := str "udp".

Section Headers.
Context `{SP : SipParams}.

Definition side_uri (s : side) : Uri :=
  mkUri [] (host s) (sd_advPort s)
    (if negb (beq (sd_transport s) udp) then Some (ParamAdd (str "transport") (sd_transport s) NewParams) else None) false.

Definition recordRoute (s : side) : header :=
  let params := if negb (beq (sd_transport s) udp) then ParamAdd (str "transport") (sd_transport s) NewParams else NewParams in
  HRecordRoute (mkUri [] (host s) (sd_advPort s) (Some (ParamAdd (str "lr") [] params)) false).

Definition side_via (s : side) (branch : gostring) : ViaHeader :=
  let params := ParamAdd (str "branch") branch NewParams in
  let params := if beq (sd_transport s) udp then ParamAdd (str "rport") [] params else params in
  let params := if sd_outbound s then ParamAdd (str "alias") [] params else params in
  mkVia (upperTransport s) (host s) (sd_advPort s) (Some params).
End Headers.

Record endpoint := mkEndpoint { ep_addr : AddrPort; ep_host : gostring; ep_carrierPort : Z }.

Definition carrierAddr (e : endpoint) : AddrPort := mkAddrPort (ap_addr (ep_addr e)) (ep_carrierPort e).

Record topology := mkTopology {
  public : gmap gostring side; private : side;
  upstreams : gmap gostring endpoint; upstreamNames : list gostring;
  publicMediaIP : Addr; privateMediaIP : Addr; publicHost : gostring
}.

Definition hostOf (t : topology) (ip : Addr) : gostring :=
  if negb (bool_decide (publicHost t = [])) && addr_eqb ip (publicMediaIP t) then publicHost t else addr_string ip.

(** [parseIPHost]: the first of [.], [:] and [%] decides. *)
Fixpoint scan_host (rest host : gostring) : option Addr :=
  match rest with
  | [] => None
  | c :: rest' =>
      if c =? 58 then parse_addr host
      else if c =? 46 then
        if existsb (fun c => negb (c =? 46) && ((c <? 48) || (57 <? c))) host then None else parse_addr host
      else if c =? 37 then None
      else scan_host rest' host
  end.

Definition parseIPHost (host : gostring) : option Addr := scan_host host host.

(** *** Building it *)

(** [sort.Strings]: byte order. *)
Fixpoint str_leb (a b : gostring) : bool :=
  match a, b with
  | [], _ => true
  | _ :: _, [] => false
  | x :: a', y :: b' => (x <? y) || ((x =? y) && str_leb a' b')
  end.

Definition str_le (a b : gostring) : Prop := str_leb a b = true.

#[export] Instance str_le_dec : RelDecision str_le.
Proof. intros a b. unfold str_le. apply _. Defined.

Definition sort_strings (l : list gostring) : list gostring := merge_sort str_le l.

(** The configuration, as far as it is read here. *)
Record topoConfig := mkTopoConfig {
  Switches : list AddrPort; SwitchCarrierPort : Z;
  Listen : gostring -> Z; Advertise : gostring -> Z;
  PublicIP : Addr; PublicBind : Addr; CarrierList : list Carrier
}.

Definition Transports : list gostring := [str "udp"; str "tcp"; str "tls"; str "ws"; str "wss"].

Definition AdvertisedPort (cfg : topoConfig) (transport : gostring) : Z :=
  if Listen cfg transport =? 0 then 0
  else if negb (Advertise cfg transport =? 0) then Advertise cfg transport
  else Listen cfg transport.

Definition endpoint_of (cfg : topoConfig) (ap : AddrPort) : endpoint :=
  let cp := uint16 (SwitchCarrierPort cfg) in
  mkEndpoint ap (addrport_string ap) (if cp =? 0 then ap_port ap else cp).

Definition no_laddr : list Z * Z := ([], 0).

Definition listener_side (cfg : topoConfig) (tr : gostring) : side :=
  withNames (mkSide planePublic tr (PublicIP cfg) (AdvertisedPort cfg tr)
    (if beq tr udp then sipAddr (PublicBind cfg) (Listen cfg tr) else no_laddr) false [] []).

Definition carrier_side (cfg : topoConfig) (tr : gostring) : side :=
  withNames (mkSide planePublic tr (PublicIP cfg) (if beq tr CarrierTLS then 5061 else 5060) no_laddr true [] []).

Definition buildTopology (cfg : topoConfig) (priv : AddrPort) : topology :=
  let ups := fold_left (fun m ap => <[addrport_string ap := endpoint_of cfg ap]> m) (Switches cfg) ∅ in
  let names := sort_strings (map_to_list ups).*1 in
  let pub := fold_left (fun m tr => if Listen cfg tr =? 0 then m else <[tr := listener_side cfg tr]> m) Transports ∅ in
  let pub := fold_left (fun (m : gmap gostring side) c =>
                 if bool_decide (is_Some (m !! c_transport c)) || beq (c_transport c) CarrierUDP then m
                 else <[c_transport c := carrier_side cfg (c_transport c)]> m) (CarrierList cfg) pub in
  mkTopology pub
    (withNames (mkSide planePrivate udp (ap_addr priv) (ap_port priv) (sipAddr (ap_addr priv) (ap_port priv)) false [] []))
    ups names (PublicIP cfg) (ap_addr priv) (addr_string (PublicIP cfg)).

Definition publicSide (t : topology) (transport : gostring) : option side := public t !! to_lower transport.

(** *** Recognising its own addresses *)

Definition side_is (ip : Addr) (port : Z) (s : side) : bool := addr_eqb (sd_advIP s) ip && (sd_advPort s =? port).

(** A loop over the public sides, in whatever order. *)
Definition some_public (f : side -> bool) (t : topology) : bool := existsb (fun kv => f kv.2) (map_to_list (public t)).

Section Self.
Context `{SP : SipParams}.

Definition isSelf (t : topology) (u : Uri) : bool :=
  match parseIPHost (u_host u) with
  | None => false
  | Some ip =>
      let port := if u_port u =? 0 then 5060 else u_port u in
      if side_is (unmap ip) port (private t) then true else some_public (side_is (unmap ip) port) t
  end.

Definition isSelfVia (t : topology) (v : option ViaHeader) : bool :=
  match v with
  | None => false
  | Some v =>
      match parseIPHost (v_host v) with
      | None => false
      | Some ip =>
          let port := if v_port v =? 0 then DefaultPort (v_transport v) else v_port v in
          if side_is (unmap ip) port (private t) then true else some_public (side_is (unmap ip) port) t
      end
  end.
End Self.

Definition fromUpstream (t : topology) (src : Addr) : bool :=
  existsb (fun name => match upstreams t !! name with
                       | Some e => addr_eqb (unmap (ap_addr (ep_addr e))) (unmap src)
                       | None => false
                       end) (upstreamNames t).

(** *** The order the nodes are tried in *)

Definition hashUpstreamUser (user : gostring) : Z := fnv_write fnv_offset64 (to_lower user).

Definition orderByAvailability (names : list gostring) (available : gostring -> bool) : list gostring * list gostring :=
  let pool := List.filter available names in
  let cooled := List.filter (fun n => negb (available n)) names in
  if bool_decide (pool = []) then (names, []) else (pool, cooled).

Definition upstreamDialOrder (t : topology) (user : gostring) (available : gostring -> bool) : list gostring :=
  if bool_decide (upstreamNames t = []) then []
  else
    let '(pool, cooled) := orderByAvailability (upstreamNames t) available in
    let idx := Z.to_nat (hashUpstreamUser user mod len pool) in
    drop idx pool ++ take idx pool ++ cooled.

Definition selectUpstream (t : topology) (user : gostring) (available : gostring -> bool) : option (gostring * option endpoint) :=
  match upstreamDialOrder t user available with
  | [] => None
  | n :: _ => Some (n, upstreams t !! n)
  end.

(** ** Lemmas *)

(** *** The host parser is the library's *)

Lemma ipv4_fields_chars s : forall start dot v d fs r, ipv4_fields s start dot v d fs = Some r ->
  existsb (fun c => negb (c =? 46) && ((c <? 48) || (57 <? c))) s = false.
Proof.
  induction s as [|c s IH]; intros start dot v d fs r; [done|]. cbn [ipv4_fields existsb].
  destruct (is_digit c) eqn:Ed.
  - case_if; [done|]. cbv zeta. case_if; [done|]. intros H. rewrite (IH _ _ _ _ _ _ H). unfold is_digit in Ed. lia.
  - destruct (c =? 46) eqn:E; [|done]. case_if; [done|]. case_if; [done|]. intros H. by rewrite (IH _ _ _ _ _ _ H).
Qed.

Lemma scan_host_find rest host : scan_host rest host =
  match List.find (fun c => mem c [46; 58; 37]) rest with
  | Some c => if c =? 58 then parse_addr host
              else if c =? 46 then if existsb (fun c => negb (c =? 46) && ((c <? 48) || (57 <? c))) host then None else parse_addr host
              else None
  | None => None
  end.
Proof.
  induction rest as [|c rest IH]; [done|]. cbn [scan_host List.find].
  destruct (c =? 58) eqn:E1; [apply Z.eqb_eq in E1 as ->; done|].
  destruct (c =? 46) eqn:E2; [apply Z.eqb_eq in E2 as ->; done|].
  destruct (c =? 37) eqn:E3; [apply Z.eqb_eq in E3 as ->; done|].
  assert (mem c [46; 58; 37] = false) as ->; [|exact IH]. unfold mem. cbn [existsb]. by rewrite E1, E2, E3.
Qed.

Lemma parseIPHost_parse h : parseIPHost h = parse_addr h.
Proof.
  unfold parseIPHost. rewrite scan_host_find. unfold parse_addr.
  destruct (List.find _ h) as [c|] eqn:E; [|done]. apply find_some in E as [_ E].
  destruct (c =? 58) eqn:E1; [apply Z.eqb_eq in E1 as ->; done|].
  destruct (c =? 46) eqn:E2; [|done]. unfold parse_ipv4. destruct (ipv4_fields h true false 0 0 []) as [r|] eqn:Ef; [|by case_if].
  by rewrite (ipv4_fields_chars _ _ _ _ _ _ _ Ef).
Qed.

(** the allocation-free host parser accepts exactly what the library's
    address parser does, with the same address. *)
Theorem parseIPHost_is_ParseAddr h : parseIPHost h = parse_addr h.
Proof. apply parseIPHost_parse. Qed.

Lemma beq_comm_addr a b : addr_eqb a b = true <-> a = b.
Proof. unfold addr_eqb. apply bool_decide_eq_true. Qed.

Lemma some_public_spec f t : some_public f t = true <-> exists tr s, public t !! tr = Some s /\ f s = true.
Proof.
  unfold some_public. rewrite existsb_exists. split.
  - intros ([tr s] & Hin & Hf). exists tr, s. split; [|done]. apply elem_of_map_to_list. by apply list_elem_of_In.
  - intros (tr & s & Hs & Hf). exists (tr, s). split; [|done]. apply list_elem_of_In. by apply elem_of_map_to_list.
Qed.

Lemma host_text s n : sd_advIP s = V4 n -> sd_advHost s = addr_string (V4 n) \/ sd_advHost s = [] -> host s = addr_string (V4 n).
Proof.
  intros Ha [Hh|Hh]; unfold host; rewrite Hh, ?Ha; by case_if.
Qed.

(** A side of a topology. *)
Definition side_of (t : topology) (s : side) : Prop := s = private t \/ exists tr, public t !! tr = Some s.

Section SelfLemmas.
Context `{SP : SipParams}.

Lemma isSelf_spec t u : isSelf t u = true <->
  exists ip s, parse_addr (u_host u) = Some ip /\ side_of t s /\ sd_advIP s = unmap ip /\
               sd_advPort s = if u_port u =? 0 then 5060 else u_port u.
Proof.
  unfold isSelf. rewrite parseIPHost_parse. destruct (parse_addr (u_host u)) as [ip|]; [|split; [done|naive_solver]].
  cbv zeta. set (port := if u_port u =? 0 then 5060 else u_port u). clearbody port. split.
  - case_if; intros H.
    + unfold side_is in Heqb. breflect. exists ip, (private t). split; [done|]. split; [by left|]. unfold addr_eqb in *. breflect. split; [done|lia].
    + apply some_public_spec in H as (tr & s & Hs & H). unfold side_is, addr_eqb in H. breflect. exists ip, s.
      split; [done|]. split; [right; by exists tr|]. split; [done|lia].
  - intros (ip' & s & [= ->] & Hs & Ha & Hp). assert (Hi : side_is (unmap ip') port s = true).
    { unfold side_is, addr_eqb. rewrite Ha, bool_decide_eq_true_2 by done. lia. }
    case_if; [done|]. destruct Hs as [->|[tr Hs]]; [congruence|]. apply some_public_spec. by exists tr, s.
Qed.

Lemma own_side_recognised t s n branch : side_of t s -> sd_advIP s = V4 n -> 0 <= n < 2 ^ 32 -> 0 < sd_advPort s ->
  sd_advHost s = addr_string (V4 n) ->
  isSelf t (side_uri s) = true /\ (forall u, recordRoute s = HRecordRoute u -> isSelf t u = true) /\
  isSelfVia t (Some (side_via s branch)) = true.
Proof.
  intros Hs Ha Hn Hp Hh. pose proof (host_text s n Ha (or_introl Hh)) as Ht.
  assert (Hz : (sd_advPort s =? 0) = false) by lia.
  assert (Hu : forall p w, isSelf t (mkUri [] (host s) (sd_advPort s) p w) = true).
  { intros p w. apply isSelf_spec. exists (V4 n), s. cbn [u_host u_port]. rewrite Ht, ipv4_text_reads, Hz, Ha by done.
    split; [done|]. split; [done|]. split; [by rewrite unmap_fix|done]. }
  split; [apply Hu|]. split; [intros u [= <-]; apply Hu|].
  specialize (Hu None false). unfold isSelf in Hu. unfold isSelfVia, side_via. cbn [v_host v_port u_host u_port] in *. by rewrite Hz in *.
Qed.

(** what the proxy writes about itself is recognised when it comes back,
    and nothing else is taken for it: the Contact, Record-Route and Via of
    every side name the proxy; a URI names it only when its host is the
    address a side advertises and its port the port that side advertises,
    never the port it binds. *)
Theorem own_addresses_are_recognised t :
  (forall s n branch, side_of t s -> sd_advIP s = V4 n -> 0 <= n < 2 ^ 32 -> 0 < sd_advPort s ->
     sd_advHost s = addr_string (V4 n) ->
     isSelf t (side_uri s) = true /\ (forall u, recordRoute s = HRecordRoute u -> isSelf t u = true) /\
     isSelfVia t (Some (side_via s branch)) = true) /\
  (forall u, isSelf t u = true <->
     exists ip s, parse_addr (u_host u) = Some ip /\ side_of t s /\ sd_advIP s = unmap ip /\
                  sd_advPort s = if u_port u =? 0 then 5060 else u_port u).
Proof.
  split; [|intros u; apply isSelf_spec]. intros s n branch. apply own_side_recognised.
Qed.
End SelfLemmas.

(** *** Sorting *)

#[export] Instance str_le_trans : Transitive str_le.
Proof.
  intros a. unfold str_le. induction a as [|x a IH]; intros [|y b] [|z c]; cbn; try done.
  intros H1 H2. destruct (x <? z) eqn:E; [done|]. cbn. assert (x = y /\ y = z) as [-> ->] by lia.
  rewrite Z.ltb_irrefl, Z.eqb_refl in *. cbn in *. by apply (IH b c).
Qed.

#[export] Instance str_le_antisymm : AntiSymm (=) str_le.
Proof.
  intros a. unfold str_le. induction a as [|x a IH]; intros [|y b]; cbn; try done.
  intros H1 H2. assert (x = y) as -> by lia. rewrite Z.ltb_irrefl, Z.eqb_refl in *. cbn in *. f_equal. by apply IH.
Qed.

#[export] Instance str_le_total : Total str_le.
Proof.
  intros a. unfold str_le. induction a as [|x a IH]; intros [|y b]; cbn; [by left..|by right|].
  destruct (x <? y) eqn:E1; [by left|]. destruct (y <? x) eqn:E2; [by right|].
  assert (x = y) as -> by lia. rewrite Z.eqb_refl. cbn. apply IH.
Qed.

(** The order of the map the names come from does not matter. *)
Lemma sort_strings_perm l k : l ≡ₚ k -> sort_strings l = sort_strings k.
Proof.
  intros H. apply (Sorted_unique str_le).
  - apply Sorted_merge_sort, _.
  - apply Sorted_merge_sort, _.
  - unfold sort_strings. by rewrite !merge_sort_Permutation.
Qed.

(** *** Dial order *)

Lemma filter_split {A} (f : A -> bool) l : List.filter f l ++ List.filter (fun x => negb (f x)) l ≡ₚ l.
Proof.
  induction l as [|x l IH]; [done|]. cbn. destruct (f x); cbn; [by rewrite IH|].
  by rewrite <- Permutation_middle, IH.
Qed.

Lemma order_perm names av pool cooled : orderByAvailability names av = (pool, cooled) -> pool ++ cooled ≡ₚ names.
Proof.
  unfold orderByAvailability. case_if; intros [= <- <-]; [by rewrite app_nil_r|apply filter_split].
Qed.

Lemma rotate_perm {A} i (l : list A) : drop i l ++ take i l ≡ₚ l.
Proof. rewrite (Permutation_app_comm (drop i l)). by rewrite take_drop. Qed.

Lemma dial_order_perm t user av : upstreamDialOrder t user av ≡ₚ upstreamNames t.
Proof.
  unfold upstreamDialOrder. case_if; breflect; [by rewrite Heqb|].
  destruct (orderByAvailability _ av) as [pool cooled] eqn:E. apply order_perm in E.
  cbv zeta. rewrite app_assoc, rotate_perm. exact E.
Qed.

(** a user's switch nodes are tried in an order that misses no node and
    tries none twice; the first one is available whenever any is, the nodes
    cooling down come last, and the order is a function of the user up to
    case and of the nodes that are available, so every request of a user
    starts at the same node. *)
Theorem dial_order_is_complete t user av :
  NoDup (upstreamNames t) -> upstreamNames t <> [] ->
  let order := upstreamDialOrder t user av in
  order ≡ₚ upstreamNames t /\ NoDup order /\
  (existsb av (upstreamNames t) = true ->
     exists pool cooled, order = pool ++ cooled /\ pool <> [] /\ forallb av pool = true /\
                         forallb (fun n => negb (av n)) cooled = true) /\
  (forall user' av', equal_fold user user' = true -> (forall n, n ∈ upstreamNames t -> av n = av' n) ->
     upstreamDialOrder t user' av' = order).
Proof.
  intros Hnd Hne. cbv zeta. pose proof (dial_order_perm t user av) as Hp.
  split; [done|]. split; [by rewrite Hp|]. split.
  - intros Hex. unfold upstreamDialOrder. rewrite bool_decide_eq_false_2 by done.
    assert (Hpool : List.filter av (upstreamNames t) <> []).
    { apply existsb_exists in Hex as (n & Hin & Hn). intros E.
      assert (List.In n (List.filter av (upstreamNames t))) by (by apply filter_In). by rewrite E in *. }
    unfold orderByAvailability. rewrite bool_decide_eq_false_2 by done. cbv zeta.
    set (pool := List.filter av (upstreamNames t)) in *. set (i := Z.to_nat _).
    exists (drop i pool ++ take i pool), (List.filter (fun n => negb (av n)) (upstreamNames t)).
    split; [by rewrite app_assoc|]. split.
    { intros E. assert (length (drop i pool ++ take i pool) = O) as Hl by (by rewrite E).
      rewrite (Permutation_length (rotate_perm i pool)) in Hl. by destruct pool. }
    split; rewrite forallb_forall.
    + intros n Hin. assert (Hin' : List.In n pool).
      { apply (Permutation_in _ (rotate_perm i pool) Hin). }
      by apply filter_In in Hin' as [_ ?].
    + intros n [_ Hn]%filter_In. done.
  - intros user' av' Hu Hav. unfold upstreamDialOrder. case_if; [done|].
    assert (Hf : List.filter av' (upstreamNames t) = List.filter av (upstreamNames t)).
    { apply filter_ext_in. intros n Hin. symmetry. apply Hav. by apply list_elem_of_In. }
    assert (Hg : List.filter (fun n => negb (av' n)) (upstreamNames t) = List.filter (fun n => negb (av n)) (upstreamNames t)).
    { apply filter_ext_in. intros n Hin. rewrite Hav; [done|by apply list_elem_of_In]. }
    unfold orderByAvailability. rewrite Hf, Hg. unfold hashUpstreamUser.
    apply beq_eq in Hu. by rewrite Hu.
Qed.

(** The names of a built topology are its nodes, each once. *)
Lemma buildTopology_names cfg priv : let t := buildTopology cfg priv in
  NoDup (upstreamNames t) /\ forall n, n ∈ upstreamNames t <-> is_Some (upstreams t !! n).
Proof.
  cbn. split.
  - unfold sort_strings. rewrite merge_sort_Permutation. apply NoDup_fst_map_to_list.
  - intros n. unfold sort_strings. rewrite merge_sort_Permutation. rewrite list_elem_of_fmap. split.
    + intros ([k e] & -> & He%elem_of_map_to_list). by exists e.
    + intros [e He]. exists (n, e). split; [done|]. by apply elem_of_map_to_list.
Qed.

(** Every public side advertises the public address. *)
Lemma buildTopology_public cfg priv tr s : public (buildTopology cfg priv) !! tr = Some s ->
  sd_plane s = planePublic /\ sd_advIP s = PublicIP cfg /\ sd_advHost s = addr_string (PublicIP cfg).
Proof.
  cbn [buildTopology public]. set (ok := fun s => sd_plane s = planePublic /\ sd_advIP s = PublicIP cfg /\ sd_advHost s = addr_string (PublicIP cfg)).
  assert (Hl : forall trs (m : gmap gostring side), (forall k v, m !! k = Some v -> ok v) ->
    forall k v, fold_left (fun m tr => if Listen cfg tr =? 0 then m else <[tr := listener_side cfg tr]> m) trs m !! k = Some v -> ok v).
  { intros trs. induction trs as [|x trs IH]; intros m Hm; [done|]. cbn [fold_left]. apply IH. case_if; [done|].
    intros k v. destruct (decide (x = k)) as [->|Hx]; [rewrite lookup_insert_eq; by intros [= <-]|].
    rewrite lookup_insert_ne by done. apply Hm. }
  assert (Hc : forall cs (m : gmap gostring side), (forall k v, m !! k = Some v -> ok v) ->
    forall k v, fold_left (fun (m : gmap gostring side) c =>
                 if bool_decide (is_Some (m !! c_transport c)) || beq (c_transport c) CarrierUDP then m
                 else <[c_transport c := carrier_side cfg (c_transport c)]> m) cs m !! k = Some v -> ok v).
  { intros cs. induction cs as [|x cs IH]; intros m Hm; [done|]. cbn [fold_left]. apply IH. case_if; [done|].
    intros k v. destruct (decide (c_transport x = k)) as [<-|Hx]; [rewrite lookup_insert_eq; by intros [= <-]|].
    rewrite lookup_insert_ne by done. apply Hm. }
  intros H. apply (Hc (CarrierList cfg) _ (Hl Transports ∅ ltac:(intros k v; by rewrite lookup_empty)) _ _ H).
Qed.

(** *** A topology of two switches *)

Definition demo_config : topoConfig :=
  mkTopoConfig [mkAddrPort (ip4 10 0 0 11) 5060; mkAddrPort (ip4 10 0 0 12) 5060] 5080
    (fun tr => if beq tr udp then 5060 else if beq tr (str "wss") then 7443 else 0)
    (fun tr => if beq tr udp then 16060 else 0) (ip4 203 0 113 5) (ip4 192 168 1 5) [].

Definition demo_topology : topology := buildTopology demo_config (mkAddrPort (ip4 10 0 0 1) 5060).

Lemma demo_names : upstreamNames demo_topology = [str "10.0.0.11:5060"; str "10.0.0.12:5060"].
Proof. vm_compute. reflexivity. Qed.

Lemma dial_order_is_complete_witness :
  let av n := negb (beq n (str "10.0.0.11:5060")) in
  upstreamDialOrder demo_topology (str "alice") av ≡ₚ upstreamNames demo_topology /\
  upstreamDialOrder demo_topology (str "ALICE") av = upstreamDialOrder demo_topology (str "alice") av /\
  head (upstreamDialOrder demo_topology (str "alice") av) = Some (str "10.0.0.12:5060").
Proof.
  cbv zeta. set (av n := negb (beq n (str "10.0.0.11:5060"))).
  destruct (dial_order_is_complete demo_topology (str "alice") av) as (H1 & _ & _ & H4).
  - rewrite demo_names. apply (bool_decide_unpack _). vm_compute. exact I.
  - rewrite demo_names. done.
  - split; [exact H1|]. split; [by apply H4|]. vm_compute. reflexivity.
Defined.

Lemma own_addresses_are_recognised_witness :
  let s := private demo_topology in
  @isSelf ListImpl.list_params demo_topology (side_uri s) = true /\
  @isSelf ListImpl.list_params demo_topology (mkUri [] (str "203.0.113.5") 5060 None false) = false.
Proof.
  split; [|vm_compute; reflexivity].
  destruct (@own_addresses_are_recognised ListImpl.list_params demo_topology) as [H _].
  apply (H (private demo_topology) (10 * 2 ^ 24 + 0 * 2 ^ 16 + 0 * 2 ^ 8 + 1) (str "b")).
  - by left.
  - reflexivity.
  - lia.
  - vm_compute. reflexivity.
  - vm_compute. reflexivity.
Defined.

#[global] Arguments isSelf : simpl never.
#[global] Arguments buildTopology : simpl never.
