(* ===== verification/Dialog.v ===== *)
(** The dialog table (internal/edge/dialog.go, with the owed answers of
    offerless.go and the owed ACKs of ack.go).

    One record per call, shared by the handlers that hold it: records, early
    forks and INVITE attempts live on a heap and are named by their address;
    the table maps a Call-ID to the addresses of its records.  Each operation
    below is one critical section of the table's mutex; what a Go method does
    after it has unlocked (closing a media session) is an operation of its
    own.  Media sessions are named by a number; log lines and gauges are left
    out, the counters of started and ended calls kept. *)

From S2P Require Import Prelude GoTime Netip GoText SdpCodec SdpParse EdgeSdes SipMsg SipRequest Topology.

Open Scope Z_scope.

Inductive dialogState := dialogEarly | dialogConfirmed | dialogEnded.

#[export] Instance dialogState_eq_dec : EqDecision dialogState.
Proof. solve_decision. Defined.

Inductive endReason :=
  | endByeCaller | endByeCallee | endByeUnanswered | endRTPSilence | endDTLSFailure | endReinviteRefused
  | endAnswerTimeout | endAnswerUnusable | endMediaFault | endShutdown | endAckTimeout.

#[export] Instance endReason_eq_dec : EqDecision endReason.
Proof. solve_decision. Defined.

Inductive terminator := byCaller | byCallee | byProxy.

Definition terminator_of (r : endReason) : terminator :=
  match r with endByeCaller => byCaller | endByeCallee => byCallee | _ => byProxy end.

Definition endReasonOf (c : Z) : endReason :=
  if c =? MediaSession.CloseSilence then endRTPSilence
  else if c =? MediaSession.CloseLegFailed then endDTLSFailure
  else endMediaFault.

(** An o= identity: uint64 id and version. *)
Record sdpOrigin := mkOrigin { o_id : Z; o_version : Z }.

(** [next]: the identity and version of the next body, and the new origin. *)
Definition next (o : sdpOrigin) : Z * Z * sdpOrigin :=
  let v := wrap_uint 64 (o_version o + 1) in (o_id o, v, mkOrigin (o_id o) v).

Definition newSDPOrigin (now : Z) : sdpOrigin := mkOrigin (wrap_uint 64 now) 0.

Record ackOwed := mkAckOwed { k_id : nat; k_plane : plane; k_cseq : Z; k_timer : option nat; k_counted : bool }.

Record ackAnswer := mkAckAnswer { an_answerer : plane; an_cseq : Z; an_body : gostring }.

(** The answer owed: its identity, the callee's offer, who made it and who
    answers, the fork it rode on (a reliable 18x), the CSeq of the INVITE, and
    whether it holds an offer slot. *)
Record owedAnswer := mkOwed {
  w_id : nat; w_offer : option Session; w_offerer : plane; w_answerer : plane;
  w_fork : option nat; w_cseq : Z; w_release : bool; w_timer : option nat
}.

Section Dialogs.
Context `{SP : SipParams}.

Record dialogRoute := mkRoute {
  r_publicRemote : gostring; r_privateRemote : gostring; r_transport : gostring;
  r_publicContact : Uri; r_privateContact : Uri
}.

Definition no_route : dialogRoute := mkRoute [] [] [] no_uri no_uri.

Record earlyFork := mkFork {
  f_answer : option gostring; f_codecs : list Codec; f_remote : AddrPort; f_rtcp : AddrPort;
  f_origin : sdpOrigin; f_route : dialogRoute; f_routed : bool; f_to : Uri; f_toSet : bool; f_sdes : sdesPlan
}.

Definition newFork (now : Z) : earlyFork :=
  mkFork None [] ap_zero ap_zero (newSDPOrigin now) no_route false no_uri false no_plan.

(** The request as forwarded; the cancel function of the series is outside the
    table. *)
Record inviteAttempt := mkAttempt { a_req : request; a_sent : bool; a_cancelled : bool }.

(** One call. *)
Record dialog := mkDialog {
  d_callID : gostring;
  d_callerTag : gostring;
  d_calleeTag : gostring;
  d_callerPlane : plane;
  d_state : dialogState;
  d_inFlight : option nat;
  d_route : dialogRoute;
  d_carrier : gostring;
  d_srtp : srtpPolicy;
  d_cancelled : bool;
  d_callerGone : bool;
  d_callerURI : Uri;
  d_calleeURI : Uri;
  d_cseqCaller : Z;
  d_cseqCallee : Z;
  d_confirmedAt : Z;
  d_media : option nat;
  d_forks : option (gmap gostring nat);
  d_applied : option nat;
  d_ok : option response;
  d_originPublic : sdpOrigin;
  d_originPrivate : sdpOrigin;
  d_updateOffers : Z;
  d_reInviteOffers : Z;
  d_owed : option owedAnswer;
  d_ack : option ackOwed;
  d_lastAck : option ackAnswer;
  d_relaxedNotify : bool;
  d_hookLive : bool;
  d_rejected : gset gostring
}.

Definition set_calleeTag (v : gostring) (d : dialog) : dialog :=
  mkDialog (d_callID d) (d_callerTag d) v (d_callerPlane d) (d_state d) (d_inFlight d) (d_route d)
    (d_carrier d) (d_srtp d) (d_cancelled d) (d_callerGone d) (d_callerURI d) (d_calleeURI d)
    (d_cseqCaller d) (d_cseqCallee d) (d_confirmedAt d) (d_media d) (d_forks d) (d_applied d) (d_ok d)
    (d_originPublic d) (d_originPrivate d) (d_updateOffers d) (d_reInviteOffers d) (d_owed d) (d_ack d)
    (d_lastAck d) (d_relaxedNotify d) (d_hookLive d) (d_rejected d).
Definition set_state (v : dialogState) (d : dialog) : dialog :=
  mkDialog (d_callID d) (d_callerTag d) (d_calleeTag d) (d_callerPlane d) v (d_inFlight d) (d_route d)
    (d_carrier d) (d_srtp d) (d_cancelled d) (d_callerGone d) (d_callerURI d) (d_calleeURI d)
    (d_cseqCaller d) (d_cseqCallee d) (d_confirmedAt d) (d_media d) (d_forks d) (d_applied d) (d_ok d)
    (d_originPublic d) (d_originPrivate d) (d_updateOffers d) (d_reInviteOffers d) (d_owed d) (d_ack d)
    (d_lastAck d) (d_relaxedNotify d) (d_hookLive d) (d_rejected d).
Definition set_inFlight (v : option nat) (d : dialog) : dialog :=
  mkDialog (d_callID d) (d_callerTag d) (d_calleeTag d) (d_callerPlane d) (d_state d) v (d_route d)
    (d_carrier d) (d_srtp d) (d_cancelled d) (d_callerGone d) (d_callerURI d) (d_calleeURI d)
    (d_cseqCaller d) (d_cseqCallee d) (d_confirmedAt d) (d_media d) (d_forks d) (d_applied d) (d_ok d)
    (d_originPublic d) (d_originPrivate d) (d_updateOffers d) (d_reInviteOffers d) (d_owed d) (d_ack d)
    (d_lastAck d) (d_relaxedNotify d) (d_hookLive d) (d_rejected d).
Definition set_route (v : dialogRoute) (d : dialog) : dialog :=
  mkDialog (d_callID d) (d_callerTag d) (d_calleeTag d) (d_callerPlane d) (d_state d) (d_inFlight d) v
    (d_carrier d) (d_srtp d) (d_cancelled d) (d_callerGone d) (d_callerURI d) (d_calleeURI d)
    (d_cseqCaller d) (d_cseqCallee d) (d_confirmedAt d) (d_media d) (d_forks d) (d_applied d) (d_ok d)
    (d_originPublic d) (d_originPrivate d) (d_updateOffers d) (d_reInviteOffers d) (d_owed d) (d_ack d)
    (d_lastAck d) (d_relaxedNotify d) (d_hookLive d) (d_rejected d).
Definition set_carrier (v : gostring) (d : dialog) : dialog :=
  mkDialog (d_callID d) (d_callerTag d) (d_calleeTag d) (d_callerPlane d) (d_state d) (d_inFlight d)
    (d_route d) v (d_srtp d) (d_cancelled d) (d_callerGone d) (d_callerURI d) (d_calleeURI d)
    (d_cseqCaller d) (d_cseqCallee d) (d_confirmedAt d) (d_media d) (d_forks d) (d_applied d) (d_ok d)
    (d_originPublic d) (d_originPrivate d) (d_updateOffers d) (d_reInviteOffers d) (d_owed d) (d_ack d)
    (d_lastAck d) (d_relaxedNotify d) (d_hookLive d) (d_rejected d).
Definition set_srtp (v : srtpPolicy) (d : dialog) : dialog :=
  mkDialog (d_callID d) (d_callerTag d) (d_calleeTag d) (d_callerPlane d) (d_state d) (d_inFlight d)
    (d_route d) (d_carrier d) v (d_cancelled d) (d_callerGone d) (d_callerURI d) (d_calleeURI d)
    (d_cseqCaller d) (d_cseqCallee d) (d_confirmedAt d) (d_media d) (d_forks d) (d_applied d) (d_ok d)
    (d_originPublic d) (d_originPrivate d) (d_updateOffers d) (d_reInviteOffers d) (d_owed d) (d_ack d)
    (d_lastAck d) (d_relaxedNotify d) (d_hookLive d) (d_rejected d).
Definition set_cancelled (v : bool) (d : dialog) : dialog :=
  mkDialog (d_callID d) (d_callerTag d) (d_calleeTag d) (d_callerPlane d) (d_state d) (d_inFlight d)
    (d_route d) (d_carrier d) (d_srtp d) v (d_callerGone d) (d_callerURI d) (d_calleeURI d) (d_cseqCaller d)
    (d_cseqCallee d) (d_confirmedAt d) (d_media d) (d_forks d) (d_applied d) (d_ok d) (d_originPublic d)
    (d_originPrivate d) (d_updateOffers d) (d_reInviteOffers d) (d_owed d) (d_ack d) (d_lastAck d)
    (d_relaxedNotify d) (d_hookLive d) (d_rejected d).
Definition set_callerGone (v : bool) (d : dialog) : dialog :=
  mkDialog (d_callID d) (d_callerTag d) (d_calleeTag d) (d_callerPlane d) (d_state d) (d_inFlight d)
    (d_route d) (d_carrier d) (d_srtp d) (d_cancelled d) v (d_callerURI d) (d_calleeURI d) (d_cseqCaller d)
    (d_cseqCallee d) (d_confirmedAt d) (d_media d) (d_forks d) (d_applied d) (d_ok d) (d_originPublic d)
    (d_originPrivate d) (d_updateOffers d) (d_reInviteOffers d) (d_owed d) (d_ack d) (d_lastAck d)
    (d_relaxedNotify d) (d_hookLive d) (d_rejected d).
Definition set_calleeURI (v : Uri) (d : dialog) : dialog :=
  mkDialog (d_callID d) (d_callerTag d) (d_calleeTag d) (d_callerPlane d) (d_state d) (d_inFlight d)
    (d_route d) (d_carrier d) (d_srtp d) (d_cancelled d) (d_callerGone d) (d_callerURI d) v (d_cseqCaller d)
    (d_cseqCallee d) (d_confirmedAt d) (d_media d) (d_forks d) (d_applied d) (d_ok d) (d_originPublic d)
    (d_originPrivate d) (d_updateOffers d) (d_reInviteOffers d) (d_owed d) (d_ack d) (d_lastAck d)
    (d_relaxedNotify d) (d_hookLive d) (d_rejected d).
Definition set_cseqCaller (v : Z) (d : dialog) : dialog :=
  mkDialog (d_callID d) (d_callerTag d) (d_calleeTag d) (d_callerPlane d) (d_state d) (d_inFlight d)
    (d_route d) (d_carrier d) (d_srtp d) (d_cancelled d) (d_callerGone d) (d_callerURI d) (d_calleeURI d) v
    (d_cseqCallee d) (d_confirmedAt d) (d_media d) (d_forks d) (d_applied d) (d_ok d) (d_originPublic d)
    (d_originPrivate d) (d_updateOffers d) (d_reInviteOffers d) (d_owed d) (d_ack d) (d_lastAck d)
    (d_relaxedNotify d) (d_hookLive d) (d_rejected d).
Definition set_cseqCallee (v : Z) (d : dialog) : dialog :=
  mkDialog (d_callID d) (d_callerTag d) (d_calleeTag d) (d_callerPlane d) (d_state d) (d_inFlight d)
    (d_route d) (d_carrier d) (d_srtp d) (d_cancelled d) (d_callerGone d) (d_callerURI d) (d_calleeURI d)
    (d_cseqCaller d) v (d_confirmedAt d) (d_media d) (d_forks d) (d_applied d) (d_ok d) (d_originPublic d)
    (d_originPrivate d) (d_updateOffers d) (d_reInviteOffers d) (d_owed d) (d_ack d) (d_lastAck d)
    (d_relaxedNotify d) (d_hookLive d) (d_rejected d).
Definition set_confirmedAt (v : Z) (d : dialog) : dialog :=
  mkDialog (d_callID d) (d_callerTag d) (d_calleeTag d) (d_callerPlane d) (d_state d) (d_inFlight d)
    (d_route d) (d_carrier d) (d_srtp d) (d_cancelled d) (d_callerGone d) (d_callerURI d) (d_calleeURI d)
    (d_cseqCaller d) (d_cseqCallee d) v (d_media d) (d_forks d) (d_applied d) (d_ok d) (d_originPublic d)
    (d_originPrivate d) (d_updateOffers d) (d_reInviteOffers d) (d_owed d) (d_ack d) (d_lastAck d)
    (d_relaxedNotify d) (d_hookLive d) (d_rejected d).
Definition set_media (v : option nat) (d : dialog) : dialog :=
  mkDialog (d_callID d) (d_callerTag d) (d_calleeTag d) (d_callerPlane d) (d_state d) (d_inFlight d)
    (d_route d) (d_carrier d) (d_srtp d) (d_cancelled d) (d_callerGone d) (d_callerURI d) (d_calleeURI d)
    (d_cseqCaller d) (d_cseqCallee d) (d_confirmedAt d) v (d_forks d) (d_applied d) (d_ok d)
    (d_originPublic d) (d_originPrivate d) (d_updateOffers d) (d_reInviteOffers d) (d_owed d) (d_ack d)
    (d_lastAck d) (d_relaxedNotify d) (d_hookLive d) (d_rejected d).
Definition set_forks (v : option (gmap gostring nat)) (d : dialog) : dialog :=
  mkDialog (d_callID d) (d_callerTag d) (d_calleeTag d) (d_callerPlane d) (d_state d) (d_inFlight d)
    (d_route d) (d_carrier d) (d_srtp d) (d_cancelled d) (d_callerGone d) (d_callerURI d) (d_calleeURI d)
    (d_cseqCaller d) (d_cseqCallee d) (d_confirmedAt d) (d_media d) v (d_applied d) (d_ok d)
    (d_originPublic d) (d_originPrivate d) (d_updateOffers d) (d_reInviteOffers d) (d_owed d) (d_ack d)
    (d_lastAck d) (d_relaxedNotify d) (d_hookLive d) (d_rejected d).
Definition set_applied (v : option nat) (d : dialog) : dialog :=
  mkDialog (d_callID d) (d_callerTag d) (d_calleeTag d) (d_callerPlane d) (d_state d) (d_inFlight d)
    (d_route d) (d_carrier d) (d_srtp d) (d_cancelled d) (d_callerGone d) (d_callerURI d) (d_calleeURI d)
    (d_cseqCaller d) (d_cseqCallee d) (d_confirmedAt d) (d_media d) (d_forks d) v (d_ok d) (d_originPublic d)
    (d_originPrivate d) (d_updateOffers d) (d_reInviteOffers d) (d_owed d) (d_ack d) (d_lastAck d)
    (d_relaxedNotify d) (d_hookLive d) (d_rejected d).
Definition set_ok (v : option response) (d : dialog) : dialog :=
  mkDialog (d_callID d) (d_callerTag d) (d_calleeTag d) (d_callerPlane d) (d_state d) (d_inFlight d)
    (d_route d) (d_carrier d) (d_srtp d) (d_cancelled d) (d_callerGone d) (d_callerURI d) (d_calleeURI d)
    (d_cseqCaller d) (d_cseqCallee d) (d_confirmedAt d) (d_media d) (d_forks d) (d_applied d) v
    (d_originPublic d) (d_originPrivate d) (d_updateOffers d) (d_reInviteOffers d) (d_owed d) (d_ack d)
    (d_lastAck d) (d_relaxedNotify d) (d_hookLive d) (d_rejected d).
Definition set_originPublic (v : sdpOrigin) (d : dialog) : dialog :=
  mkDialog (d_callID d) (d_callerTag d) (d_calleeTag d) (d_callerPlane d) (d_state d) (d_inFlight d)
    (d_route d) (d_carrier d) (d_srtp d) (d_cancelled d) (d_callerGone d) (d_callerURI d) (d_calleeURI d)
    (d_cseqCaller d) (d_cseqCallee d) (d_confirmedAt d) (d_media d) (d_forks d) (d_applied d) (d_ok d) v
    (d_originPrivate d) (d_updateOffers d) (d_reInviteOffers d) (d_owed d) (d_ack d) (d_lastAck d)
    (d_relaxedNotify d) (d_hookLive d) (d_rejected d).
Definition set_originPrivate (v : sdpOrigin) (d : dialog) : dialog :=
  mkDialog (d_callID d) (d_callerTag d) (d_calleeTag d) (d_callerPlane d) (d_state d) (d_inFlight d)
    (d_route d) (d_carrier d) (d_srtp d) (d_cancelled d) (d_callerGone d) (d_callerURI d) (d_calleeURI d)
    (d_cseqCaller d) (d_cseqCallee d) (d_confirmedAt d) (d_media d) (d_forks d) (d_applied d) (d_ok d)
    (d_originPublic d) v (d_updateOffers d) (d_reInviteOffers d) (d_owed d) (d_ack d) (d_lastAck d)
    (d_relaxedNotify d) (d_hookLive d) (d_rejected d).
Definition set_updateOffers (v : Z) (d : dialog) : dialog :=
  mkDialog (d_callID d) (d_callerTag d) (d_calleeTag d) (d_callerPlane d) (d_state d) (d_inFlight d)
    (d_route d) (d_carrier d) (d_srtp d) (d_cancelled d) (d_callerGone d) (d_callerURI d) (d_calleeURI d)
    (d_cseqCaller d) (d_cseqCallee d) (d_confirmedAt d) (d_media d) (d_forks d) (d_applied d) (d_ok d)
    (d_originPublic d) (d_originPrivate d) v (d_reInviteOffers d) (d_owed d) (d_ack d) (d_lastAck d)
    (d_relaxedNotify d) (d_hookLive d) (d_rejected d).
Definition set_reInviteOffers (v : Z) (d : dialog) : dialog :=
  mkDialog (d_callID d) (d_callerTag d) (d_calleeTag d) (d_callerPlane d) (d_state d) (d_inFlight d)
    (d_route d) (d_carrier d) (d_srtp d) (d_cancelled d) (d_callerGone d) (d_callerURI d) (d_calleeURI d)
    (d_cseqCaller d) (d_cseqCallee d) (d_confirmedAt d) (d_media d) (d_forks d) (d_applied d) (d_ok d)
    (d_originPublic d) (d_originPrivate d) (d_updateOffers d) v (d_owed d) (d_ack d) (d_lastAck d)
    (d_relaxedNotify d) (d_hookLive d) (d_rejected d).
Definition set_owed (v : option owedAnswer) (d : dialog) : dialog :=
  mkDialog (d_callID d) (d_callerTag d) (d_calleeTag d) (d_callerPlane d) (d_state d) (d_inFlight d)
    (d_route d) (d_carrier d) (d_srtp d) (d_cancelled d) (d_callerGone d) (d_callerURI d) (d_calleeURI d)
    (d_cseqCaller d) (d_cseqCallee d) (d_confirmedAt d) (d_media d) (d_forks d) (d_applied d) (d_ok d)
    (d_originPublic d) (d_originPrivate d) (d_updateOffers d) (d_reInviteOffers d) v (d_ack d) (d_lastAck d)
    (d_relaxedNotify d) (d_hookLive d) (d_rejected d).
Definition set_ack (v : option ackOwed) (d : dialog) : dialog :=
  mkDialog (d_callID d) (d_callerTag d) (d_calleeTag d) (d_callerPlane d) (d_state d) (d_inFlight d)
    (d_route d) (d_carrier d) (d_srtp d) (d_cancelled d) (d_callerGone d) (d_callerURI d) (d_calleeURI d)
    (d_cseqCaller d) (d_cseqCallee d) (d_confirmedAt d) (d_media d) (d_forks d) (d_applied d) (d_ok d)
    (d_originPublic d) (d_originPrivate d) (d_updateOffers d) (d_reInviteOffers d) (d_owed d) v (d_lastAck d)
    (d_relaxedNotify d) (d_hookLive d) (d_rejected d).
Definition set_lastAck (v : option ackAnswer) (d : dialog) : dialog :=
  mkDialog (d_callID d) (d_callerTag d) (d_calleeTag d) (d_callerPlane d) (d_state d) (d_inFlight d)
    (d_route d) (d_carrier d) (d_srtp d) (d_cancelled d) (d_callerGone d) (d_callerURI d) (d_calleeURI d)
    (d_cseqCaller d) (d_cseqCallee d) (d_confirmedAt d) (d_media d) (d_forks d) (d_applied d) (d_ok d)
    (d_originPublic d) (d_originPrivate d) (d_updateOffers d) (d_reInviteOffers d) (d_owed d) (d_ack d) v
    (d_relaxedNotify d) (d_hookLive d) (d_rejected d).
Definition set_relaxedNotify (v : bool) (d : dialog) : dialog :=
  mkDialog (d_callID d) (d_callerTag d) (d_calleeTag d) (d_callerPlane d) (d_state d) (d_inFlight d)
    (d_route d) (d_carrier d) (d_srtp d) (d_cancelled d) (d_callerGone d) (d_callerURI d) (d_calleeURI d)
    (d_cseqCaller d) (d_cseqCallee d) (d_confirmedAt d) (d_media d) (d_forks d) (d_applied d) (d_ok d)
    (d_originPublic d) (d_originPrivate d) (d_updateOffers d) (d_reInviteOffers d) (d_owed d) (d_ack d)
    (d_lastAck d) v (d_hookLive d) (d_rejected d).
Definition set_hookLive (v : bool) (d : dialog) : dialog :=
  mkDialog (d_callID d) (d_callerTag d) (d_calleeTag d) (d_callerPlane d) (d_state d) (d_inFlight d)
    (d_route d) (d_carrier d) (d_srtp d) (d_cancelled d) (d_callerGone d) (d_callerURI d) (d_calleeURI d)
    (d_cseqCaller d) (d_cseqCallee d) (d_confirmedAt d) (d_media d) (d_forks d) (d_applied d) (d_ok d)
    (d_originPublic d) (d_originPrivate d) (d_updateOffers d) (d_reInviteOffers d) (d_owed d) (d_ack d)
    (d_lastAck d) (d_relaxedNotify d) v (d_rejected d).
Definition set_rejected (v : gset gostring) (d : dialog) : dialog :=
  mkDialog (d_callID d) (d_callerTag d) (d_calleeTag d) (d_callerPlane d) (d_state d) (d_inFlight d)
    (d_route d) (d_carrier d) (d_srtp d) (d_cancelled d) (d_callerGone d) (d_callerURI d) (d_calleeURI d)
    (d_cseqCaller d) (d_cseqCallee d) (d_confirmedAt d) (d_media d) (d_forks d) (d_applied d) (d_ok d)
    (d_originPublic d) (d_originPrivate d) (d_updateOffers d) (d_reInviteOffers d) (d_owed d) (d_ack d)
    (d_lastAck d) (d_relaxedNotify d) (d_hookLive d) v.

(** What a call of [endBy] that won carries past the critical section. *)
Record ending := mkEnding { e_dialog : nat; e_reason : endReason; e_up : bool; e_sess : option nat }.

#[export] Instance ending_eq_dec : EqDecision ending.
Proof. solve_decision. Defined.

Record dialogTable := mkTable {
  t_heap : gmap nat dialog;
  t_byCallID : gmap gostring (list nat);
  t_closed : bool;
  t_sessions : Z;
  t_forkHeap : gmap nat earlyFork;
  t_attempts : gmap nat inviteAttempt;
  t_timers : gset nat;
  t_cleared : gset nat;
  t_closedMedia : list nat;
  t_pending : list ending;
  t_started : Z;
  t_ended : list (nat * endReason);
  t_nextId : nat
}.

Definition with_heap (v : gmap nat dialog) (t : dialogTable) : dialogTable :=
  mkTable v (t_byCallID t) (t_closed t) (t_sessions t) (t_forkHeap t) (t_attempts t) (t_timers t)
    (t_cleared t) (t_closedMedia t) (t_pending t) (t_started t) (t_ended t) (t_nextId t).
Definition with_byCallID (v : gmap gostring (list nat)) (t : dialogTable) : dialogTable :=
  mkTable (t_heap t) v (t_closed t) (t_sessions t) (t_forkHeap t) (t_attempts t) (t_timers t) (t_cleared t)
    (t_closedMedia t) (t_pending t) (t_started t) (t_ended t) (t_nextId t).
Definition with_closed (v : bool) (t : dialogTable) : dialogTable :=
  mkTable (t_heap t) (t_byCallID t) v (t_sessions t) (t_forkHeap t) (t_attempts t) (t_timers t) (t_cleared t)
    (t_closedMedia t) (t_pending t) (t_started t) (t_ended t) (t_nextId t).
Definition with_sessions (v : Z) (t : dialogTable) : dialogTable :=
  mkTable (t_heap t) (t_byCallID t) (t_closed t) v (t_forkHeap t) (t_attempts t) (t_timers t) (t_cleared t)
    (t_closedMedia t) (t_pending t) (t_started t) (t_ended t) (t_nextId t).
Definition with_forkHeap (v : gmap nat earlyFork) (t : dialogTable) : dialogTable :=
  mkTable (t_heap t) (t_byCallID t) (t_closed t) (t_sessions t) v (t_attempts t) (t_timers t) (t_cleared t)
    (t_closedMedia t) (t_pending t) (t_started t) (t_ended t) (t_nextId t).
Definition with_attempts (v : gmap nat inviteAttempt) (t : dialogTable) : dialogTable :=
  mkTable (t_heap t) (t_byCallID t) (t_closed t) (t_sessions t) (t_forkHeap t) v (t_timers t) (t_cleared t)
    (t_closedMedia t) (t_pending t) (t_started t) (t_ended t) (t_nextId t).
Definition with_timers (v : gset nat) (t : dialogTable) : dialogTable :=
  mkTable (t_heap t) (t_byCallID t) (t_closed t) (t_sessions t) (t_forkHeap t) (t_attempts t) v (t_cleared t)
    (t_closedMedia t) (t_pending t) (t_started t) (t_ended t) (t_nextId t).
Definition with_cleared (v : gset nat) (t : dialogTable) : dialogTable :=
  mkTable (t_heap t) (t_byCallID t) (t_closed t) (t_sessions t) (t_forkHeap t) (t_attempts t) (t_timers t) v
    (t_closedMedia t) (t_pending t) (t_started t) (t_ended t) (t_nextId t).
Definition with_closedMedia (v : list nat) (t : dialogTable) : dialogTable :=
  mkTable (t_heap t) (t_byCallID t) (t_closed t) (t_sessions t) (t_forkHeap t) (t_attempts t) (t_timers t)
    (t_cleared t) v (t_pending t) (t_started t) (t_ended t) (t_nextId t).
Definition with_pending (v : list ending) (t : dialogTable) : dialogTable :=
  mkTable (t_heap t) (t_byCallID t) (t_closed t) (t_sessions t) (t_forkHeap t) (t_attempts t) (t_timers t)
    (t_cleared t) (t_closedMedia t) v (t_started t) (t_ended t) (t_nextId t).
Definition with_started (v : Z) (t : dialogTable) : dialogTable :=
  mkTable (t_heap t) (t_byCallID t) (t_closed t) (t_sessions t) (t_forkHeap t) (t_attempts t) (t_timers t)
    (t_cleared t) (t_closedMedia t) (t_pending t) v (t_ended t) (t_nextId t).
Definition with_ended (v : list (nat * endReason)) (t : dialogTable) : dialogTable :=
  mkTable (t_heap t) (t_byCallID t) (t_closed t) (t_sessions t) (t_forkHeap t) (t_attempts t) (t_timers t)
    (t_cleared t) (t_closedMedia t) (t_pending t) (t_started t) v (t_nextId t).
Definition with_nextId (v : nat) (t : dialogTable) : dialogTable :=
  mkTable (t_heap t) (t_byCallID t) (t_closed t) (t_sessions t) (t_forkHeap t) (t_attempts t) (t_timers t)
    (t_cleared t) (t_closedMedia t) (t_pending t) (t_started t) (t_ended t) v.

Definition newDialogTable : dialogTable := mkTable ∅ ∅ false 0 ∅ ∅ ∅ ∅ [] [] 0 [] O.

(** A fresh address. *)
Definition fresh (t : dialogTable) : nat * dialogTable := (t_nextId t, with_nextId (S (t_nextId t)) t).

Definition upd (d : nat) (f : dialog -> dialog) (t : dialogTable) : dialogTable :=
  match t_heap t !! d with Some x => with_heap (<[d := f x]> (t_heap t)) t | None => t end.

Definition upd_fork (f : nat) (g : earlyFork -> earlyFork) (t : dialogTable) : dialogTable :=
  match t_forkHeap t !! f with Some x => with_forkHeap (<[f := g x]> (t_forkHeap t)) t | None => t end.

Definition upd_attempt (a : nat) (g : inviteAttempt -> inviteAttempt) (t : dialogTable) : dialogTable :=
  match t_attempts t !! a with Some x => with_attempts (<[a := g x]> (t_attempts t)) t | None => t end.

(** The records of a Call-ID, in the order they were opened. *)
Definition records (t : dialogTable) (callID : gostring) : list nat := default [] (t_byCallID t !! callID).

Definition is_early (x : dialog) : bool := bool_decide (d_state x = dialogEarly).
Definition is_confirmed (x : dialog) : bool := bool_decide (d_state x = dialogConfirmed).
Definition is_ended (x : dialog) : bool := bool_decide (d_state x = dialogEnded).

(** The first record of a list of addresses a function accepts. *)
Fixpoint first_record {A} (f : nat -> dialog -> option A) (t : dialogTable) (ds : list nat) : option A :=
  match ds with
  | [] => None
  | d :: ds' => match t_heap t !! d ≫= f d with Some a => Some a | None => first_record f t ds' end
  end.

(** *** Opening and finding *)

Inductive beginResult := beginOK (d : nat) | beginMerged | beginClosed | beginFull.

(** The new record of an INVITE with headers [hs]. *)
Definition new_dialog (now : Z) (hs : list header) (callerPlane : plane) : dialog :=
  let callerURI := match From hs with Some a => na_uri a | None => no_uri end in
  let calleeURI := match To hs with Some a => na_uri a | None => no_uri end in
  mkDialog (CallID hs) (FromTag hs) [] callerPlane dialogEarly None no_route [] srtpOff false false callerURI calleeURI
    (CSeqNumber hs) 0 zero_time None (Some ∅) None None (newSDPOrigin now) (newSDPOrigin now) 0 0 None None None false
    true ∅.

Definition merged_with (callerTag : gostring) (x : dialog) : bool := is_early x && beq (d_callerTag x) callerTag.

Definition begin_ (now : Z) (hs : list header) (callerPlane : plane) (limit : Z) (t : dialogTable) : beginResult * dialogTable :=
  let x := new_dialog now hs callerPlane in
  if t_closed t then (beginClosed, t)
  else match first_record (fun d o => if merged_with (d_callerTag x) o then Some d else None) t (records t (d_callID x)) with
       | Some _ => (beginMerged, t)
       | None =>
           if (0 <? limit) && (limit <=? t_sessions t) then (beginFull, t)
           else let '(d, t) := fresh t in
                (beginOK d,
                 with_sessions (t_sessions t + 1)
                   (with_byCallID (<[d_callID x := records t (d_callID x) ++ [d]]> (t_byCallID t))
                      (with_heap (<[d := x]> (t_heap t)) t)))
       end.

Definition sessionCount (t : dialogTable) : Z := t_sessions t.

Definition early (callID callerTag : gostring) (t : dialogTable) : option nat :=
  first_record (fun d x => if merged_with callerTag x then Some d else None) t (records t callID).

(** The dialog and whether the request is from its caller. *)
Definition lookup_ (callID fromTag toTag : gostring) (t : dialogTable) : option (nat * bool) :=
  if bool_decide (fromTag = []) || bool_decide (toTag = []) then None
  else first_record (fun d x =>
    if negb (is_confirmed x) then None
    else if beq fromTag (d_callerTag x) && beq toTag (d_calleeTag x) then Some (d, true)
    else if beq fromTag (d_calleeTag x) && beq toTag (d_callerTag x) then Some (d, false)
    else None) t (records t callID).

(** The fork a tag names in a record, if any. *)
Definition fork_named (x : dialog) (tag : gostring) : option nat := d_forks x ≫= fun m => m !! tag.

Definition lookupEarly (callID fromTag toTag : gostring) (t : dialogTable) : option (nat * dialogRoute * bool) :=
  if bool_decide (fromTag = []) || bool_decide (toTag = []) then None
  else first_record (fun d x =>
    if negb (is_early x) then None
    else
      let pick tag fromCaller :=
        fork_named x tag ≫= fun f => t_forkHeap t !! f ≫= fun k =>
          if f_routed k then Some (d, f_route k, fromCaller) else None in
      if beq fromTag (d_callerTag x) then pick toTag true
      else if beq toTag (d_callerTag x) then pick fromTag false
      else None) t (records t callID).

Definition newestRoutedByCallID (callID : gostring) (t : dialogTable) : option (nat * dialogRoute) :=
  first_record (fun d x =>
    if is_ended x || bool_decide (r_publicRemote (d_route x) = []) then None else Some (d, d_route x))
    t (rev (records t callID)).

(** Loops over every record, in whatever order. *)
Definition all_records (t : dialogTable) : list nat := concat (map snd (map_to_list (t_byCallID t))).

Definition usesRemote (transport remote : gostring) (t : dialogTable) : bool :=
  existsb (fun d => match t_heap t !! d with
                    | Some x => negb (is_ended x) && beq (r_publicRemote (d_route x)) remote &&
                                equal_fold (r_transport (d_route x)) transport
                    | None => false
                    end) (all_records t).

Definition up_at (t : dialogTable) (d : nat) : bool :=
  match t_heap t !! d with Some x => is_confirmed x | None => false end.

Definition count (t : dialogTable) : Z := len (List.filter (up_at t) (all_records t)).

Definition close (t : dialogTable) : dialogTable := with_closed true t.

(** [removeLocked]: the first occurrence of the record goes. *)
Fixpoint remove_nat (d : nat) (ds : list nat) : list nat :=
  match ds with [] => [] | x :: ds' => if bool_decide (x = d) then ds' else x :: remove_nat d ds' end.

Definition removeLocked (callID : gostring) (d : nat) (t : dialogTable) : dialogTable :=
  let ds := remove_nat d (records t callID) in
  with_byCallID (if bool_decide (ds = []) then delete callID (t_byCallID t) else <[callID := ds]> (t_byCallID t)) t.

(** *** Media and teardown *)

(** [mediaSession.Close] *)
Definition close_media (m : nat) (t : dialogTable) : dialogTable := with_closedMedia (t_closedMedia t ++ [m]) t.

(** [false] is [errShuttingDown]: the session was closed instead. *)
Definition attach (d m : nat) (t : dialogTable) : bool * dialogTable :=
  match t_heap t !! d with
  | Some x => if t_closed t || is_ended x then (false, close_media m t) else (true, upd d (set_media (Some m)) t)
  | None => (false, close_media m t)
  end.

Definition open_ (d : nat) (t : dialogTable) : bool :=
  match t_heap t !! d with Some x => negb (t_closed t) && negb (is_ended x) | None => false end.

(** [Timer.Stop] *)
Definition stop (o : option nat) (t : dialogTable) : dialogTable :=
  match o with Some i => with_timers (t_timers t ∖ {[i]}) t | None => t end.

(** The critical section of [endBy], and what the call that won carries on;
    it stays in [pending] until the rest of [endBy] has run. *)
Definition end_locked (d : nat) (reason : endReason) (t : dialogTable) : option ending * dialogTable :=
  match t_heap t !! d with
  | None => (None, t)
  | Some x =>
      if is_ended x then (None, t)
      else
        let t := stop (d_owed x ≫= w_timer) t in
        let t := stop (d_ack x ≫= k_timer) t in
        let x' := set_lastAck None (set_ack None (set_owed None (set_inFlight None (set_state dialogEnded x)))) in
        let t := with_heap (<[d := x']> (t_heap t)) t in
        let t := removeLocked (d_callID x) d t in
        let t := with_sessions (t_sessions t - 1) t in
        let e := mkEnding d reason (is_confirmed x) (d_media x) in
        (Some e, with_pending (t_pending t ++ [e]) t)
  end.

(** [dialogHook.release]: the hook is nil and its record unreachable. *)
Definition release_hook (d : nat) : dialogTable -> dialogTable := upd d (set_hookLive false).

Fixpoint remove_ending (e : ending) (es : list ending) : list ending :=
  match es with [] => [] | y :: es' => if bool_decide (y = e) then es' else y :: remove_ending e es' end.

(** The rest of [endBy]: the hook is released and the session closed; a call
    that was up is counted as ended. *)
Definition end_rest (e : ending) (t : dialogTable) : bool * dialogTable :=
  let t := with_pending (remove_ending e (t_pending t)) (release_hook (e_dialog e) t) in
  match e_sess e with
  | None => (e_up e, t)
  | Some m =>
      let t := close_media m t in
      if negb (e_up e) then (false, t)
      else (true, with_ended (t_ended t ++ [(e_dialog e, e_reason e)]) t)
  end.

(** [end]: the result is whether this call ended a confirmed dialog. *)
Definition end_ (d : nat) (reason : endReason) (t : dialogTable) : bool * dialogTable :=
  match end_locked d reason t with
  | (Some e, t) => end_rest e t
  | (None, t) => (false, t)
  end.

Definition endUnlessUp (d : nat) (t : dialogTable) : dialogTable :=
  match t_heap t !! d with Some x => if is_early x then (end_ d endShutdown t).2 else t | None => t end.

Definition closeAll (t : dialogTable) : dialogTable :=
  fold_left (fun t d => (end_ d endShutdown t).2) (all_records t) t.

Definition origin_of (x : dialog) (p : plane) : sdpOrigin :=
  match p with planePublic => d_originPublic x | planePrivate => d_originPrivate x end.
Definition set_origin (p : plane) (o : sdpOrigin) (x : dialog) : dialog :=
  match p with planePublic => set_originPublic o x | planePrivate => set_originPrivate o x end.

(** The identity the caller leg goes on with once the call is up. *)
Definition confirmed_origin (t : dialogTable) (calleeTag : gostring) (x : dialog) : sdpOrigin :=
  match fork_named x calleeTag ≫= fun f => t_forkHeap t !! f with
  | Some k =>
      match f_answer k with
      | Some _ => f_origin k
      | None => match d_applied x ≫= fun f => t_forkHeap t !! f with
                | Some k' => f_origin k' | None => origin_of x (d_callerPlane x) end
      end
  | None => match d_applied x ≫= fun f => t_forkHeap t !! f with
            | Some k' => f_origin k' | None => origin_of x (d_callerPlane x) end
  end.

Definition confirm (now : Z) (d : nat) (calleeTag : gostring) (r : dialogRoute) (t : dialogTable) : bool * dialogTable :=
  match t_heap t !! d with
  | None => (false, t)
  | Some x =>
      if negb (is_early x) || bool_decide (d_media x = None) || d_cancelled x then (false, t)
      else
        let x' := set_route r (set_confirmedAt now (set_calleeTag calleeTag (set_state dialogConfirmed x))) in
        let x' := set_origin (d_callerPlane x) (confirmed_origin t calleeTag x) x' in
        let x' := set_applied None (set_forks None x') in
        (true, with_started (t_started t + 1) (with_heap (<[d := x']> (t_heap t)) t))
  end.

(** *** What a record says *)

Definition get {A} (dflt : A) (f : dialog -> A) (d : nat) (t : dialogTable) : A :=
  match t_heap t !! d with Some x => f x | None => dflt end.

Definition session : nat -> dialogTable -> option nat := get None d_media.
Definition routeSnapshot : nat -> dialogTable -> dialogRoute := get no_route d_route.
Definition carrierName : nat -> dialogTable -> gostring := get [] d_carrier.
Definition tags : nat -> dialogTable -> gostring * gostring := get ([], []) (fun x => (d_callerTag x, d_calleeTag x)).
Definition lastApplied : nat -> dialogTable -> option nat := get None d_applied.
Definition publicSRTP : nat -> dialogTable -> srtpPolicy := get srtpOff d_srtp.
Definition wasCancelled : nat -> dialogTable -> bool := get false d_cancelled.
Definition callerCancelled : nat -> dialogTable -> bool := get false d_callerGone.
Definition isRejected (tag : gostring) : nat -> dialogTable -> bool := get false (fun x => bool_decide (tag ∈ d_rejected x)).
(** [dialogHook.dialog] *)
Definition hook_dialog : nat -> dialogTable -> bool := get false d_hookLive.

Definition setCarrier (d : nat) (name : gostring) : dialogTable -> dialogTable := upd d (set_carrier name).
Definition setSRTP (d : nat) (p : srtpPolicy) : dialogTable -> dialogTable := upd d (set_srtp p).
Definition setApplied (d : nat) (f : option nat) : dialogTable -> dialogTable := upd d (set_applied f).
Definition setCalleeURI (d : nat) (u : Uri) : dialogTable -> dialogTable := upd d (set_calleeURI u).
Definition setRelayed2xx (d : nat) (res : option response) : dialogTable -> dialogTable := upd d (set_ok res).

Definition relayed2xx (d : nat) (calleeTag : gostring) (t : dialogTable) : option response :=
  get None (fun x => if negb (is_confirmed x) || negb (beq (d_calleeTag x) calleeTag) then None else d_ok x) d t.

Definition noteRelaxedNotify (d : nat) (t : dialogTable) : bool * dialogTable :=
  (get false (fun x => negb (d_relaxedNotify x)) d t, upd d (set_relaxedNotify true) t).

(** [dialogHook.reject]: whether it is the first with that tag. *)
Definition reject (d : nat) (tag : gostring) (t : dialogTable) : bool * dialogTable :=
  match t_heap t !! d with
  | Some x => if bool_decide (tag ∈ d_rejected x) then (false, t)
              else (true, upd d (set_rejected ({[tag]} ∪ d_rejected x)) t)
  | None => (false, t)
  end.

(** *** Origins and forks *)

Definition nextOrigin (d : nat) (toward : plane) (t : dialogTable) : Z * Z * dialogTable :=
  match t_heap t !! d with
  | Some x => let '(i, v, o) := next (origin_of x toward) in (i, v, upd d (set_origin toward o) t)
  | None => (0, 0, t)
  end.

Definition set_fork_origin (o : sdpOrigin) (k : earlyFork) : earlyFork :=
  mkFork (f_answer k) (f_codecs k) (f_remote k) (f_rtcp k) o (f_route k) (f_routed k) (f_to k) (f_toSet k) (f_sdes k).

Definition nextForkOrigin (f : nat) (t : dialogTable) : Z * Z * dialogTable :=
  match t_forkHeap t !! f with
  | Some k => let '(i, v, o) := next (f_origin k) in (i, v, upd_fork f (set_fork_origin o) t)
  | None => (0, 0, t)
  end.

(** The fork the tags of an in-dialog request name. *)
Definition forkOfLocked (x : dialog) (hs : list header) : option nat :=
  if negb (is_early x) then None
  else let tag := if beq (ToTag hs) (d_callerTag x) then FromTag hs else ToTag hs in fork_named x tag.

Definition forkOf (d : nat) (hs : list header) (t : dialogTable) : option nat :=
  get None (fun x => forkOfLocked x hs) d t.

Definition routeFor (d : nat) (hs : list header) (t : dialogTable) : dialogRoute :=
  get no_route (fun x =>
    if negb (is_early x) then d_route x
    else match forkOfLocked x hs ≫= fun f => t_forkHeap t !! f with
         | Some k => if f_routed k then f_route k else no_route
         | None => no_route
         end) d t.

Definition originFor (d : nat) (f : option nat) (toward : plane) (t : dialogTable) : Z * Z * dialogTable :=
  match t_heap t !! d, f with
  | Some x, Some f => if is_early x && bool_decide (toward = d_callerPlane x) then nextForkOrigin f t else nextOrigin d toward t
  | _, _ => nextOrigin d toward t
  end.

Definition adoptOrigin (d f : nat) (p : plane) (t : dialogTable) : dialogTable :=
  match t_heap t !! d with Some x => upd_fork f (set_fork_origin (origin_of x p)) t | None => t end.

(** The fork of a To tag, made on first sight. *)
Definition fork_at (now : Z) (d : nat) (tag : gostring) (t : dialogTable) : option nat * dialogTable :=
  match t_heap t !! d with
  | Some x =>
      match fork_named x tag with
      | Some f => (Some f, t)
      | None =>
          let '(f, t) := fresh t in
          let t := with_forkHeap (<[f := newFork now]> (t_forkHeap t)) t in
          (Some f, upd d (set_forks ((fun m => <[tag := f]> m) <$> d_forks x)) t)
      end
  | None => (None, t)
  end.

(** [fork]: on a record whose forks are gone the code would write to a nil
    map; it is only called while the record is early. *)
Definition fork : Z -> nat -> gostring -> dialogTable -> option nat * dialogTable := fork_at.

Definition set_fork_route (r : dialogRoute) (k : earlyFork) : earlyFork :=
  mkFork (f_answer k) (f_codecs k) (f_remote k) (f_rtcp k) (f_origin k) r true (f_to k) (f_toSet k) (f_sdes k).
Definition set_fork_to (u : Uri) (k : earlyFork) : earlyFork :=
  mkFork (f_answer k) (f_codecs k) (f_remote k) (f_rtcp k) (f_origin k) (f_route k) (f_routed k) u true (f_sdes k).
Definition set_fork_sdes (p : sdesPlan) (k : earlyFork) : earlyFork :=
  mkFork (f_answer k) (f_codecs k) (f_remote k) (f_rtcp k) (f_origin k) (f_route k) (f_routed k) (f_to k) (f_toSet k) p.
Definition set_fork_answer (body : option gostring) (codecs : list Codec) (remote rtcp : AddrPort) (k : earlyFork) : earlyFork :=
  mkFork body codecs remote rtcp (f_origin k) (f_route k) (f_routed k) (f_to k) (f_toSet k) (f_sdes k).

(** The guard of [setForkRoute] and [setForkTo], and the fork they write to. *)
Definition on_fork (now : Z) (d : nat) (tag : gostring) (g : earlyFork -> earlyFork) (t : dialogTable) : dialogTable :=
  match t_heap t !! d with
  | Some x =>
      if negb (is_early x) || bool_decide (d_forks x = None) then t
      else match fork_at now d tag t with
           | (Some f, t) => upd_fork f g t
           | (None, t) => t
           end
  | None => t
  end.

Definition setForkRoute (now : Z) (d : nat) (tag : gostring) (r : dialogRoute) : dialogTable -> dialogTable :=
  on_fork now d tag (set_fork_route r).
Definition setForkTo (now : Z) (d : nat) (tag : gostring) (u : Uri) : dialogTable -> dialogTable :=
  on_fork now d tag (set_fork_to u).

Definition get_fork {A} (dflt : A) (g : earlyFork -> A) (f : nat) (t : dialogTable) : A :=
  match t_forkHeap t !! f with Some k => g k | None => dflt end.
Definition forkAnswer : nat -> dialogTable -> option gostring := get_fork None f_answer.
Definition forkMedia : nat -> dialogTable -> AddrPort * AddrPort * list Codec :=
  get_fork (ap_zero, ap_zero, []) (fun k => (f_remote k, f_rtcp k, f_codecs k)).
Definition forkSDES : nat -> dialogTable -> sdesPlan := get_fork no_plan f_sdes.
Definition setForkAnswer (f : nat) (body : option gostring) (codecs : list Codec) (remote rtcp : AddrPort) : dialogTable -> dialogTable :=
  upd_fork f (set_fork_answer body codecs remote rtcp).
Definition setForkSDES (f : nat) (p : sdesPlan) : dialogTable -> dialogTable := upd_fork f (set_fork_sdes p).

Definition noteForkUpdate (d : nat) (f : option nat) (callerBody : option gostring) (remote rtcp : AddrPort)
    (codecs : list Codec) (t : dialogTable) : dialogTable :=
  match t_heap t !! d, f with
  | Some x, Some f =>
      if negb (is_early x) then t
      else
        let g k := set_fork_answer callerBody
                     (if bool_decide (codecs = []) then f_codecs k else codecs)
                     (if ap_valid remote then remote else f_remote k)
                     (if ap_valid remote then rtcp else f_rtcp k) k in
        upd d (set_applied (Some f)) (upd_fork f g t)
  | _, _ => t
  end.

(** *** Offer slots and owed answers *)

Definition beginUpdateOffer (d : nat) (t : dialogTable) : bool * dialogTable :=
  match t_heap t !! d with
  | Some x =>
      if (0 <? d_updateOffers x) || (0 <? d_reInviteOffers x) || bool_decide (is_Some (d_owed x)) then (false, t)
      else (true, upd d (fun x => set_updateOffers (d_updateOffers x + 1) (set_lastAck None x)) t)
  | None => (false, t)
  end.

Definition endUpdateOffer (d : nat) : dialogTable -> dialogTable :=
  upd d (fun x => set_updateOffers (d_updateOffers x - 1) x).

Definition beginReInviteOffer (d : nat) (t : dialogTable) : bool * dialogTable :=
  match t_heap t !! d with
  | Some x =>
      if (0 <? d_updateOffers x) || bool_decide (is_Some (d_owed x)) then (false, t)
      else (true, upd d (fun x => set_reInviteOffers (d_reInviteOffers x + 1) (set_lastAck None x)) t)
  | None => (false, t)
  end.

Definition endReInviteOffer (d : nat) : dialogTable -> dialogTable :=
  upd d (fun x => set_reInviteOffers (d_reInviteOffers x - 1) x).

(** [dialogHook.endReInviteOffer] *)
Definition hook_endReInviteOffer (d : nat) (t : dialogTable) : dialogTable :=
  if hook_dialog d t then endReInviteOffer d t else t.

(** [setOwed] of a new owed answer, whose identity it gets here. *)
Definition setOwed (d : nat) (offer : option Session) (offerer answerer : plane) (f : option nat) (cseq : Z) (release : bool)
    (t : dialogTable) : dialogTable :=
  let '(i, t) := fresh t in
  upd d (fun x => set_lastAck None (set_owed (Some (mkOwed i offer offerer answerer f cseq release None)) x)) t.

Definition setAckAnswer (d : nat) (answerer : plane) (cseq : Z) (body : gostring) : dialogTable -> dialogTable :=
  upd d (set_lastAck (Some (mkAckAnswer answerer cseq body))).

Definition ackAnswerFor (d : nat) (answerer : plane) (cseq : Z) (t : dialogTable) : option gostring :=
  get None d_lastAck d t ≫= fun a =>
    if bool_decide (an_answerer a = answerer) && (an_cseq a =? cseq) then Some (an_body a) else None.

Definition takeOwed (d : nat) (answerer : plane) (cseq : Z) (t : dialogTable) : option owedAnswer * dialogTable :=
  match get None d_owed d t with
  | Some o => if negb (bool_decide (w_answerer o = answerer)) || negb (w_cseq o =? cseq) then (None, t)
              else (Some o, upd d (set_owed None) t)
  | None => (None, t)
  end.

Definition owedForPrack (d : nat) (hs : list header) (answerer : plane) (t : dialogTable) : option owedAnswer :=
  match t_heap t !! d with
  | Some x =>
      match d_owed x with
      | Some o => if bool_decide (w_fork o = None) || negb (bool_decide (w_answerer o = answerer)) ||
                     negb (bool_decide (w_fork o = forkOfLocked x hs)) then None else Some o
      | None => None
      end
  | None => None
  end.

(** [dropOwed] of the owed answer with identity [i]. *)
Definition dropOwed (d i : nat) (t : dialogTable) : bool * dialogTable :=
  match get None d_owed d t with
  | Some o => if bool_decide (w_id o = i) then (true, upd d (set_owed None) t) else (false, t)
  | None => (false, t)
  end.

Definition owedOnFork (d f : nat) (t : dialogTable) : bool :=
  match get None d_owed d t with Some o => bool_decide (w_fork o = Some f) | None => false end.

(** [time.AfterFunc]: a new armed timer. *)
Definition armOwedTimer (d : nat) (t : dialogTable) : dialogTable :=
  match t_heap t !! d with
  | Some x =>
      match d_owed x with
      | Some o =>
          if bool_decide (is_Some (w_timer o)) || negb (is_confirmed x) then t
          else let '(i, t) := fresh t in
               upd d (set_owed (Some (mkOwed (w_id o) (w_offer o) (w_offerer o) (w_answerer o) (w_fork o) (w_cseq o) (w_release o) (Some i))))
                 (with_timers ({[i]} ∪ t_timers t) t)
      | None => t
      end
  | None => t
  end.

(** *** The ACK of a 2xx *)

Definition armAckTimer (d : nat) (cseq : Z) (t : dialogTable) : dialogTable :=
  match t_heap t !! d with
  | Some x =>
      if negb (is_confirmed x) then t
      else
        let '(k, t) := fresh t in
        if bool_decide (d_owed x = None) then
          let '(i, t) := fresh t in
          upd d (set_ack (Some (mkAckOwed k (d_callerPlane x) cseq (Some i) false))) (with_timers ({[i]} ∪ t_timers t) t)
        else upd d (set_ack (Some (mkAckOwed k (d_callerPlane x) cseq None false))) t
  | None => t
  end.

Definition clearAck (d : nat) (p : plane) (cseq : Z) (t : dialogTable) : dialogTable :=
  match get None d_ack d t with
  | Some a => if bool_decide (k_plane a = p) && (k_cseq a =? cseq)
              then upd d (set_ack None) (with_cleared ({[k_id a]} ∪ t_cleared t) (stop (k_timer a) t))
              else t
  | None => t
  end.

(** The critical section of [ackExpired]. *)
Definition ack_still_owed (d k : nat) (t : dialogTable) : bool :=
  match get None d_ack d t with Some a => bool_decide (k_id a = k) | None => false end.

Definition ackOwedByOther (d : nat) (from : plane) (t : dialogTable) : bool :=
  match get None d_ack d t with Some a => negb (bool_decide (k_plane a = from)) | None => false end.

Definition takeAckMiss (d : nat) (t : dialogTable) : option plane * dialogTable :=
  match get None d_ack d t with
  | Some a => if k_counted a then (None, t)
              else (Some (k_plane a), upd d (set_ack (Some (mkAckOwed (k_id a) (k_plane a) (k_cseq a) (k_timer a) true))) t)
  | None => (None, t)
  end.

(** *** The CANCEL bridge *)

(** [track] of a new attempt: its address, or a refusal. *)
Definition track (d : nat) (req : request) (t : dialogTable) : option nat * dialogTable :=
  match t_heap t !! d with
  | Some x => if d_cancelled x then (None, t)
              else let '(a, t) := fresh t in
                   (Some a, upd d (set_inFlight (Some a)) (with_attempts (<[a := mkAttempt req false false]> (t_attempts t)) t))
  | None => (None, t)
  end.

Definition markSent (a : nat) (t : dialogTable) : bool * dialogTable :=
  match t_attempts t !! a with
  | Some x => (a_cancelled x, upd_attempt a (fun x => mkAttempt (a_req x) true (a_cancelled x)) t)
  | None => (false, t)
  end.

Definition untrack (d : nat) : dialogTable -> dialogTable := upd d (set_inFlight None).

Inductive cancelReason := cancelByCaller | cancelOrphan | cancelBackstop.

Definition cancelSeries (d : nat) (why : cancelReason) (t : dialogTable) : option nat * bool * dialogTable :=
  match t_heap t !! d with
  | None => (None, false, t)
  | Some x =>
      match d_inFlight x, why with
      | None, cancelOrphan => (None, false, t)
      | _, _ =>
          let x := set_cancelled true x in
          let x := match why with cancelByCaller => set_callerGone true x | _ => x end in
          match d_inFlight x with
          | None => (None, false, with_heap (<[d := x]> (t_heap t)) t)
          | Some a =>
              let t := with_heap (<[d := set_inFlight None x]> (t_heap t)) t in
              let sent := match t_attempts t !! a with Some k => a_sent k | None => false end in
              (Some a, sent, upd_attempt a (fun k => mkAttempt (a_req k) (a_sent k) true) t)
          end
      end
  end.

(** *** Sequence numbers and the BYEs of the proxy *)

Definition noteCSeq (d : nat) (hs : list header) : dialogTable -> dialogTable :=
  upd d (fun x =>
    let seq := CSeqNumber hs in
    if beq (FromTag hs) (d_callerTag x)
    then if d_cseqCaller x <? seq then set_cseqCaller seq x else x
    else if d_cseqCallee x <? seq then set_cseqCallee seq x else x).

Definition uriForTag (d : nat) (tag : gostring) (t : dialogTable) : option Uri :=
  match t_heap t !! d with
  | None => None
  | Some x =>
      if bool_decide (tag = []) then None
      else if beq tag (d_callerTag x) then Some (d_callerURI x)
      else match fork_named x tag ≫= fun f => t_forkHeap t !! f with
           | Some k => if f_toSet k then Some (f_to k)
                       else if beq tag (d_calleeTag x) then Some (d_calleeURI x) else None
           | None => if beq tag (d_calleeTag x) then Some (d_calleeURI x) else None
           end
  end.

Record byeInfo := mkBye {
  b_callID : gostring; b_toward : plane; b_fromURI : Uri; b_fromTag : gostring; b_toURI : Uri; b_toTag : gostring;
  b_cseq : Z; b_remote : gostring; b_contact : Uri; b_transport : gostring
}.

Definition remote_at (r : dialogRoute) (p : plane) : gostring * Uri :=
  match p with planePublic => (r_publicRemote r, r_publicContact r) | planePrivate => (r_privateRemote r, r_privateContact r) end.

(** The BYE to the caller and the BYE to the callee; a CSeq is a uint32. *)
Definition byes (d : nat) (t : dialogTable) : option (byeInfo * byeInfo) :=
  (fun x =>
     let r := d_route x in
     let calleePlane := otherPlane (d_callerPlane x) in
     let '(cRemote, cContact) := remote_at r (d_callerPlane x) in
     let '(eRemote, eContact) := remote_at r calleePlane in
     (mkBye (d_callID x) (d_callerPlane x) (d_calleeURI x) (d_calleeTag x) (d_callerURI x) (d_callerTag x)
            (wrap_uint 32 (d_cseqCallee x + 1)) cRemote cContact (r_transport r),
      mkBye (d_callID x) calleePlane (d_callerURI x) (d_callerTag x) (d_calleeURI x) (d_calleeTag x)
            (wrap_uint 32 (d_cseqCaller x + 1)) eRemote eContact (r_transport r))) <$> t_heap t !! d.
End Dialogs.
