(* ===== verification/DialogInv.v ===== *)
(** The dialog table as its handlers drive it.

    [op] names every operation of Dialog.v that changes the table, [step] runs
    one and [trace] is any interleaving of them that keeps to the rules the
    callers keep ([allowed]: a session is attached once, an offer slot is
    given back by the handler that claimed it, an attempt goes out once, the
    rest of [endBy] runs for a call of it that won).  The theorems hold of the
    table after any trace. *)

From S2P Require Import Prelude GoTime Netip GoText SdpCodec SdpParse EdgeSdes SipMsg SipRequest Topology Dialog.

Open Scope Z_scope.

(** *** Counting the values of a map *)

Section Count.
Context {A : Type}.
Implicit Types (m : gmap nat A) (P : A -> bool).

Definition pairs_with P (l : list (nat * A)) : list (nat * A) := List.filter (fun kv => P kv.2) l.
Definition cnt P m : nat := length (pairs_with P (map_to_list m)).

Definition b2n (b : bool) : nat := if b then 1%nat else 0%nat.

Lemma pairs_with_perm P l l' : l ≡ₚ l' -> length (pairs_with P l) = length (pairs_with P l').
Proof.
  induction 1 as [|[i x] l l' _ IH|[i x] [j y] l|]; simpl; [done| | |congruence].
  - destruct (P x); simpl; congruence.
  - by destruct (P x), (P y).
Qed.

Lemma cnt_fresh P m d x : m !! d = None -> cnt P (<[d := x]> m) = (b2n (P x) + cnt P m)%nat.
Proof.
  intros E. unfold cnt. rewrite (pairs_with_perm P _ _ (map_to_list_insert m d x E)). simpl.
  by destruct (P x).
Qed.

Lemma cnt_update P m d x y : m !! d = Some x -> (b2n (P x) + cnt P (<[d := y]> m) = b2n (P y) + cnt P m)%nat.
Proof.
  intros E. rewrite <- (insert_delete_eq m d y), cnt_fresh by apply lookup_delete_eq.
  rewrite <- (insert_delete_id m d x E) at 2. rewrite insert_delete_eq, <- (insert_delete_eq m d x).
  rewrite (cnt_fresh P (delete d m) d x) by apply lookup_delete_eq. lia.
Qed.

Lemma cnt_empty P : cnt P ∅ = 0%nat.
Proof. unfold cnt. by rewrite map_to_list_empty. Qed.

(** Counting only looks at the values, key by key. *)
Lemma cnt_ext P m m' : (forall d, (P <$> m !! d) = (P <$> m' !! d)) -> cnt P m = cnt P m'.
Proof.
  revert m'. induction m as [|d x m E IH] using map_ind; intros m' H.
  - destruct m' as [|e y m' E' _] using map_ind; [done|].
    specialize (H e). rewrite lookup_empty, lookup_insert_eq in H. discriminate.
  - pose proof (H d) as Hd. rewrite lookup_insert_eq in Hd. simpl in Hd.
    destruct (m' !! d) as [y|] eqn:E'; [|discriminate]. injection Hd as Hd.
    rewrite <- (insert_delete_id m' d y E'), !cnt_fresh by (done || apply lookup_delete_eq).
    rewrite Hd. f_equal. apply IH. intros e. destruct (decide (e = d)) as [->|N].
    + by rewrite E, lookup_delete_eq.
    + specialize (H e). rewrite lookup_insert_ne in H by done. by rewrite lookup_delete_ne by done.
Qed.

Lemma cnt_0 P m : cnt P m = 0%nat -> forall d x, m !! d = Some x -> P x = false.
Proof.
  intros H d x E. pose proof (cnt_update P m d x x E) as U.
  destruct (P x) eqn:Px; [|done]. exfalso.
  assert (In (d, x) (pairs_with P (map_to_list m))) as HI.
  { apply filter_In. split; [apply list_elem_of_In, elem_of_map_to_list, E|done]. }
  unfold cnt in H. destruct (pairs_with P (map_to_list m)); [destruct HI|discriminate].
Qed.
End Count.

Section Calls.
Context `{SP : SipParams}.

(** *** The operations *)

Inductive op :=
  | OBegin (now : Z) (hs : list header) (callerPlane : plane) (limit : Z)
  | OClose
  | OAttach (d m : nat)
  | OEndLocked (d : nat) (reason : endReason)
  | OEndRest (e : ending)
  | OConfirm (now : Z) (d : nat) (calleeTag : gostring) (r : dialogRoute)
  | OTrack (d : nat) (req : request)
  | OMarkSent (a : nat)
  | OUntrack (d : nat)
  | OCancel (d : nat) (why : cancelReason)
  | OSetCarrier (d : nat) (name : gostring)
  | OSetSRTP (d : nat) (p : srtpPolicy)
  | OSetApplied (d : nat) (f : option nat)
  | OSetCalleeURI (d : nat) (u : Uri)
  | OSetRelayed2xx (d : nat) (res : option response)
  | ONoteRelaxedNotify (d : nat)
  | OReject (d : nat) (tag : gostring)
  | ONextOrigin (d : nat) (toward : plane)
  | ONextForkOrigin (f : nat)
  | OOriginFor (d : nat) (f : option nat) (toward : plane)
  | OAdoptOrigin (d f : nat) (p : plane)
  | OFork (now : Z) (d : nat) (tag : gostring)
  | OSetForkRoute (now : Z) (d : nat) (tag : gostring) (r : dialogRoute)
  | OSetForkTo (now : Z) (d : nat) (tag : gostring) (u : Uri)
  | OSetForkAnswer (f : nat) (body : option gostring) (codecs : list Codec) (remote rtcp : AddrPort)
  | OSetForkSDES (f : nat) (p : sdesPlan)
  | ONoteForkUpdate (d : nat) (f : option nat) (callerBody : option gostring) (remote rtcp : AddrPort) (codecs : list Codec)
  | OBeginUpdateOffer (d : nat)
  | OEndUpdateOffer (d : nat)
  | OBeginReInviteOffer (d : nat)
  | OEndReInviteOffer (d : nat)
  | OHookEndReInviteOffer (d : nat)
  | OSetOwed (d : nat) (offer : option Session) (offerer answerer : plane) (f : option nat) (cseq : Z) (release : bool)
  | OSetAckAnswer (d : nat) (answerer : plane) (cseq : Z) (body : gostring)
  | OTakeOwed (d : nat) (answerer : plane) (cseq : Z)
  | ODropOwed (d i : nat)
  | OArmOwedTimer (d : nat)
  | OArmAckTimer (d : nat) (cseq : Z)
  | OClearAck (d : nat) (p : plane) (cseq : Z)
  | OTakeAckMiss (d : nat)
  | ONoteCSeq (d : nat) (hs : list header)
  | OStop (timer : option nat).

Definition step (o : op) (t : dialogTable) : dialogTable :=
  match o with
  | OBegin now hs p limit => (begin_ now hs p limit t).2
  | OClose => close t
  | OAttach d m => (attach d m t).2
  | OEndLocked d reason => (end_locked d reason t).2
  | OEndRest e => (end_rest e t).2
  | OConfirm now d tag r => (confirm now d tag r t).2
  | OTrack d req => (track d req t).2
  | OMarkSent a => (markSent a t).2
  | OUntrack d => untrack d t
  | OCancel d why => (cancelSeries d why t).2
  | OSetCarrier d name => setCarrier d name t
  | OSetSRTP d p => setSRTP d p t
  | OSetApplied d f => setApplied d f t
  | OSetCalleeURI d u => setCalleeURI d u t
  | OSetRelayed2xx d res => setRelayed2xx d res t
  | ONoteRelaxedNotify d => (noteRelaxedNotify d t).2
  | OReject d tag => (reject d tag t).2
  | ONextOrigin d p => (nextOrigin d p t).2
  | ONextForkOrigin f => (nextForkOrigin f t).2
  | OOriginFor d f p => (originFor d f p t).2
  | OAdoptOrigin d f p => adoptOrigin d f p t
  | OFork now d tag => (fork now d tag t).2
  | OSetForkRoute now d tag r => setForkRoute now d tag r t
  | OSetForkTo now d tag u => setForkTo now d tag u t
  | OSetForkAnswer f body codecs remote rtcp => setForkAnswer f body codecs remote rtcp t
  | OSetForkSDES f p => setForkSDES f p t
  | ONoteForkUpdate d f body remote rtcp codecs => noteForkUpdate d f body remote rtcp codecs t
  | OBeginUpdateOffer d => (beginUpdateOffer d t).2
  | OEndUpdateOffer d => endUpdateOffer d t
  | OBeginReInviteOffer d => (beginReInviteOffer d t).2
  | OEndReInviteOffer d => endReInviteOffer d t
  | OHookEndReInviteOffer d => hook_endReInviteOffer d t
  | OSetOwed d offer offerer answerer f cseq release => setOwed d offer offerer answerer f cseq release t
  | OSetAckAnswer d answerer cseq body => setAckAnswer d answerer cseq body t
  | OTakeOwed d answerer cseq => (takeOwed d answerer cseq t).2
  | ODropOwed d i => (dropOwed d i t).2
  | OArmOwedTimer d => armOwedTimer d t
  | OArmAckTimer d cseq => armAckTimer d cseq t
  | OClearAck d p cseq => clearAck d p cseq t
  | OTakeAckMiss d => (takeAckMiss d t).2
  | OStop i => stop i t
  | ONoteCSeq d hs => noteCSeq d hs t
  end.

(** What the callers keep to. *)
Definition allowed (o : op) (t : dialogTable) : Prop :=
  match o with
  | OAttach d _ => session d t = None
  | OEndRest e => e ∈ t_pending t
  | OMarkSent a => forall k, t_attempts t !! a = Some k -> a_sent k = false
  | OEndUpdateOffer d => 0 < get 1 d_updateOffers d t
  | OEndReInviteOffer d | OHookEndReInviteOffer d => 0 < get 1 d_reInviteOffers d t
  | _ => True
  end.

#[export] Instance allowed_dec o t : Decision (allowed o t).
Proof.
  destruct o; simpl; try apply _.
  destruct (t_attempts t !! a) as [k|]; [|left; done].
  destruct (decide (a_sent k = false)); [left; congruence|right; eauto].
Defined.

Inductive trace : list op -> dialogTable -> Prop :=
  | trace_nil : trace [] newDialogTable
  | trace_step os t o : trace os t -> allowed o t -> trace (os ++ [o]) (step o t).

(** The trace of a list of operations, checked as it runs. *)
Fixpoint run (os : list op) (t : dialogTable) : dialogTable := match os with [] => t | o :: os => run os (step o t) end.
Fixpoint legal (os : list op) (t : dialogTable) : bool :=
  match os with [] => true | o :: os => bool_decide (allowed o t) && legal os (step o t) end.

Lemma run_app os1 os2 t : run (os1 ++ os2) t = run os2 (run os1 t).
Proof. revert t. induction os1 as [|o os1 IH]; intros t; simpl; [done|apply IH]. Qed.

Lemma trace_run os1 os2 t : trace os1 t -> legal os2 t = true -> trace (os1 ++ os2) (run os2 t).
Proof.
  revert os1 t. induction os2 as [|o os2 IH]; intros os1 t T; simpl; [by rewrite app_nil_r|].
  intros [A L]%andb_true_iff. apply bool_decide_eq_true_1 in A.
  change (o :: os2) with ([o] ++ os2). rewrite app_assoc. apply IH; [by constructor|done].
Qed.

Lemma legal_trace os : legal os newDialogTable = true -> trace os (run os newDialogTable).
Proof. apply (trace_run [] os), trace_nil. Qed.

(** *** Operations that keep a view of every record *)

(** The table with the same accounts and, in every record, the same [K]. *)
Record same {B} (K : dialog -> B) (t t' : dialogTable) : Prop := mkSame {
  q_heap : forall d, (K <$> t_heap t' !! d) = (K <$> t_heap t !! d);
  q_byCallID : t_byCallID t' = t_byCallID t;
  q_closed : t_closed t' = t_closed t;
  q_sessions : t_sessions t' = t_sessions t;
  q_closedMedia : t_closedMedia t' = t_closedMedia t;
  q_pending : t_pending t' = t_pending t;
  q_started : t_started t' = t_started t;
  q_ended : t_ended t' = t_ended t;
  q_nextId : (t_nextId t <= t_nextId t')%nat
}.

Section Same.
Context {B : Type} (K : dialog -> B).
#[local] Abbreviation same := (same K).

Lemma same_refl t : same t t.
Proof. by constructor. Qed.

Lemma same_trans t1 t2 t3 : same t1 t2 -> same t2 t3 -> same t1 t3.
Proof. intros [] []; constructor; solve [congruence|lia|intros; congruence]. Qed.

Lemma same_insert d x y t t' : same t t' -> t_heap t' !! d = Some x -> K y = K x ->
  same t (with_heap (<[d := y]> (t_heap t')) t').
Proof.
  intros Q E C. apply (same_trans _ t'); [done|]. constructor; try done. intros e. simpl. destruct (decide (e = d)) as [->|N].
  - by rewrite lookup_insert_eq, E; simpl; rewrite C.
  - by rewrite lookup_insert_ne by done.
Qed.

Lemma same_upd d f t t' : same t t' -> (forall x, K (f x) = K x) -> same t (upd d f t').
Proof. intros Q H. unfold upd. destruct (t_heap t' !! d) eqn:E; [by eapply same_insert|done]. Qed.

Lemma same_upd_fork f g t t' : same t t' -> same t (upd_fork f g t').
Proof. intros Q. apply (same_trans _ t'); [done|]. unfold upd_fork. destruct (t_forkHeap t' !! f); by constructor. Qed.

Lemma same_upd_attempt a g t t' : same t t' -> same t (upd_attempt a g t').
Proof. intros Q. apply (same_trans _ t'); [done|]. unfold upd_attempt. destruct (t_attempts t' !! a); by constructor. Qed.

Lemma same_stop o t t' : same t t' -> same t (stop o t').
Proof. intros Q. apply (same_trans _ t'); [done|]. destruct o; by constructor. Qed.

Lemma same_timers v t t' : same t t' -> same t (with_timers v t').
Proof. intros Q. apply (same_trans _ t'); [done|]. by constructor. Qed.

Lemma same_cleared v t t' : same t t' -> same t (with_cleared v t').
Proof. intros Q. apply (same_trans _ t'); [done|]. by constructor. Qed.

Lemma same_forkHeap v t t' : same t t' -> same t (with_forkHeap v t').
Proof. intros Q. apply (same_trans _ t'); [done|]. by constructor. Qed.

Lemma same_attempts v t t' : same t t' -> same t (with_attempts v t').
Proof. intros Q. apply (same_trans _ t'); [done|]. by constructor. Qed.

Lemma same_fresh t t' : same t t' -> same t (fresh t').2.
Proof. intros Q. apply (same_trans _ t'); [done|]. constructor; simpl; auto. Qed.

Lemma same_back t t' d y : same t t' -> t_heap t' !! d = Some y -> exists x, t_heap t !! d = Some x /\ K y = K x.
Proof.
  intros Q E. pose proof (q_heap _ _ _ Q d) as H. rewrite E in H.
  destruct (t_heap t !! d) as [x|]; simpl in H; [exists x; split; congruence|discriminate].
Qed.

Lemma same_forth t t' d x : same t t' -> t_heap t !! d = Some x -> exists y, t_heap t' !! d = Some y /\ K y = K x.
Proof.
  intros Q E. pose proof (q_heap _ _ _ Q d) as H. rewrite E in H.
  destruct (t_heap t' !! d) as [y|]; simpl in H; [exists y; split; congruence|discriminate].
Qed.

Hypothesis K_forks : forall v x, K (set_forks v x) = K x.

Lemma same_fork_at now d tag t : same t (fork_at now d tag t).2.
Proof.
  unfold fork_at. destruct (t_heap t !! d) as [x|]; [|apply same_refl].
  destruct (fork_named x tag); [apply same_refl|]. simpl.
  apply same_upd; [|intros; apply K_forks]. apply same_forkHeap, (same_fresh t t), same_refl.
Qed.

Lemma same_on_fork now d tag g t : same t (on_fork now d tag g t).
Proof.
  unfold on_fork. destruct (t_heap t !! d) as [x|]; [|apply same_refl].
  destruct (_ || _); [apply same_refl|]. pose proof (same_fork_at now d tag t) as Q.
  destruct (fork_at now d tag t) as [[f|] t']; simpl in Q; [by apply same_upd_fork|done].
Qed.
End Same.

Lemma same_weaken {B C} (K : dialog -> B) (L : dialog -> C) t t' :
  (forall x y, K y = K x -> L y = L x) -> same K t t' -> same L t t'.
Proof.
  intros H Q. constructor; try apply Q. intros d.
  pose proof (q_heap _ _ _ Q d) as E. destruct (t_heap t' !! d), (t_heap t !! d); simpl in *; try discriminate; [|done].
  f_equal. apply H. congruence.
Qed.

(** Splits an operation into its paths; each path is a chain of updates. *)
Ltac same_paths :=
  repeat match goal with
    | |- context [match ?e with _ => _ end] => let E := fresh "E" in destruct e eqn:E
    end; simplify_eq.

Ltac same_chain :=
  cbn [snd fst];
  repeat first
    [ apply same_on_fork; done | apply same_fork_at; done | apply same_refl | apply same_upd_fork | apply same_upd_attempt | apply same_stop | apply same_timers
    | apply same_cleared | apply same_forkHeap | apply same_attempts | eapply same_insert; [|eassumption|reflexivity]
    | apply same_upd; [|by intros ?; unfold set_origin; repeat case_match]
    | match goal with |- same _ ?t (with_nextId (S (t_nextId ?t')) ?t') => apply (same_fresh _ t t') end ].

(** What the accounts of the calls are about, and what cancellation is about. *)
Definition core (x : dialog) := (d_callID x, d_callerTag x, d_state x, d_media x).
Definition wide (x : dialog) := (core x, d_cancelled x, d_inFlight x, d_calleeTag x, d_callerPlane x).

Definition life (o : op) : bool :=
  match o with OBegin _ _ _ _ | OClose | OAttach _ _ | OEndLocked _ _ | OEndRest _ | OConfirm _ _ _ _ => true | _ => false end.
Definition bridge (o : op) : bool :=
  match o with OTrack _ _ | OMarkSent _ | OUntrack _ | OCancel _ _ => true | _ => false end.

Ltac open_op :=
  cbn [step]; unfold track, markSent, untrack, cancelSeries, setCarrier, setSRTP, setApplied, setCalleeURI, setRelayed2xx,
    noteRelaxedNotify, reject, nextOrigin, nextForkOrigin, originFor, nextOrigin, nextForkOrigin, adoptOrigin, fork,
    setForkRoute, setForkTo, setForkAnswer, setForkSDES, noteForkUpdate, beginUpdateOffer, endUpdateOffer,
    beginReInviteOffer, endReInviteOffer, hook_endReInviteOffer, endReInviteOffer, setOwed, setAckAnswer, takeOwed, dropOwed,
    armOwedTimer, armAckTimer, clearAck, takeAckMiss, noteCSeq, fresh.

Lemma step_wide o t : life o = false -> bridge o = false -> same wide t (step o t).
Proof. intros L B. destruct o; try discriminate; open_op. all: try (same_chain; fail); same_paths; same_chain. Qed.

Lemma step_bridge o t : bridge o = true -> same core t (step o t).
Proof. intros B. destruct o; try discriminate; open_op. all: same_paths; same_chain. Qed.

(** Only [cancelSeries] marks a record. *)
Definition hushed (x : dialog) := (d_state x, d_cancelled x).

Lemma step_hushed o t : bridge o = true -> (forall d why, o <> OCancel d why) -> same hushed t (step o t).
Proof. intros B N. destruct o; try discriminate; [..|by destruct (N d why)]; open_op. all: same_paths; same_chain. Qed.

(** Only the offer slots' own operations change them. *)
Definition offers (x : dialog) := (d_updateOffers x, d_reInviteOffers x).

Definition slots (o : op) : bool :=
  match o with
  | OBeginUpdateOffer _ | OEndUpdateOffer _ | OBeginReInviteOffer _ | OEndReInviteOffer _ | OHookEndReInviteOffer _ => true
  | _ => false
  end.

Lemma step_offers o t : life o = false -> slots o = false -> same offers t (step o t).
Proof. intros L B. destruct o; try discriminate; open_op. all: try (same_chain; fail); same_paths; same_chain. Qed.

(** The attempts are the CANCEL bridge's. *)
(** What cancelling and bridging are about, in a record. *)
Definition bond (x : dialog) := (d_inFlight x, d_cancelled x, d_callerGone x).

Lemma step_bond o t : life o = false -> bridge o = false -> same bond t (step o t).
Proof. intros L B. destruct o; try discriminate; open_op. all: try (same_chain; fail); same_paths; same_chain. Qed.

Lemma upd_attempts d f t : t_attempts (upd d f t) = t_attempts t.
Proof. unfold upd. by destruct (t_heap t !! d). Qed.

Lemma upd_fork_attempts f g t : t_attempts (upd_fork f g t) = t_attempts t.
Proof. unfold upd_fork. by destruct (t_forkHeap t !! f). Qed.

Lemma stop_attempts o t : t_attempts (stop o t) = t_attempts t.
Proof. by destruct o. Qed.

Lemma on_fork_attempts now d tag g t : t_attempts (on_fork now d tag g t) = t_attempts t.
Proof.
  unfold on_fork, fork_at. destruct (t_heap t !! d) as [x|]; [|done]. destruct (_ || _); [done|].
  destruct (fork_named x tag); cbv beta iota zeta delta [fresh]; rewrite upd_fork_attempts, ?upd_attempts; done.
Qed.

Lemma step_attempts o t : bridge o = false -> t_attempts (step o t) = t_attempts t.
Proof.
  intros B. destruct o; try discriminate; open_op;
    unfold begin_, close, attach, close_media, end_locked, end_rest, release_hook, confirm, removeLocked, fork_at, fresh.
  all: try (apply on_fork_attempts); unfold fresh in *; same_paths; cbn; rewrite ?upd_attempts, ?upd_fork_attempts; cbn; rewrite ?upd_attempts, ?stop_attempts; try done.
Qed.

(** *** The accounts of the table *)

Definition live (x : dialog) : bool := negb (is_ended x).

Record Inv (t : dialogTable) : Prop := mkInv {
  I_fresh : forall d, is_Some (t_heap t !! d) -> (d < t_nextId t)%nat;
  I_records : forall c d, d ∈ records t c <-> exists x, t_heap t !! d = Some x /\ d_callID x = c /\ live x = true;
  I_nodup : forall c, NoDup (records t c);
  I_nonempty : forall c, t_byCallID t !! c <> Some [];
  I_sessions : t_sessions t = Z.of_nat (cnt live (t_heap t));
  I_early : forall d1 d2 x1 x2, t_heap t !! d1 = Some x1 -> t_heap t !! d2 = Some x2 ->
    is_early x1 = true -> is_early x2 = true -> d_callID x1 = d_callID x2 -> d_callerTag x1 = d_callerTag x2 -> d1 = d2;
  I_started : t_started t =
    Z.of_nat (cnt is_confirmed (t_heap t) + length (List.filter e_up (t_pending t)) + length (t_ended t));
  I_once : NoDup (map e_dialog (t_pending t) ++ map fst (t_ended t));
  I_gone : forall d, d ∈ map e_dialog (t_pending t) ++ map fst (t_ended t) ->
    exists x, t_heap t !! d = Some x /\ live x = false;
  I_media : forall d x m, t_heap t !! d = Some x -> live x = false -> d_media x = Some m ->
    m ∈ t_closedMedia t \/ exists e, e ∈ t_pending t /\ e_dialog e = d /\ e_sess e = Some m;
  I_up : forall d x, t_heap t !! d = Some x -> is_confirmed x = true -> is_Some (d_media x);
  I_pending : forall e, e ∈ t_pending t -> e_up e = true -> is_Some (e_sess e)
}.

Lemma Inv_new : Inv newDialogTable.
Proof.
  constructor; try done; try (by constructor); try (by intros c; unfold records; simpl; constructor).
  - intros d [x H]. simpl in H. by rewrite lookup_empty in H.
  - intros c d. split; [intros H; by apply elem_of_nil in H|intros (x & H & _)].
    simpl in H. by rewrite lookup_empty in H.
  - intros d H. by apply elem_of_nil in H.
  - intros e H. by apply elem_of_nil in H.
Qed.

#[local] Abbreviation quiet := (same core).

Lemma core_eq x y : core y = core x ->
  d_callID y = d_callID x /\ d_callerTag y = d_callerTag x /\ d_state y = d_state x /\ d_media y = d_media x.
Proof. unfold core. intros [=]. by repeat split. Qed.

Lemma core_flags x y : core y = core x ->
  live y = live x /\ is_early y = is_early x /\ is_confirmed y = is_confirmed x.
Proof.
  intros (_ & _ & E & _)%core_eq. unfold live, is_ended, is_early, is_confirmed. by rewrite E.
Qed.

Lemma quiet_cnt (P : dialog -> bool) t t' : quiet t t' -> (forall x y, core y = core x -> P y = P x) ->
  cnt P (t_heap t') = cnt P (t_heap t).
Proof.
  intros Q HP. apply cnt_ext. intros d. pose proof (q_heap _ _ _ Q d) as H.
  destruct (t_heap t' !! d) as [y|], (t_heap t !! d) as [x|]; simpl in *; try discriminate; [|done].
  f_equal. apply HP. congruence.
Qed.

Lemma Inv_quiet t t' : quiet t t' -> Inv t -> Inv t'.
Proof.
  intros Q I. pose proof (same_back core t t') as B.
  assert (forall c, records t' c = records t c) as R by (intros c; unfold records; by rewrite (q_byCallID _ _ _ Q)).
  constructor; rewrite ?(q_pending _ _ _ Q), ?(q_ended _ _ _ Q), ?(q_closedMedia _ _ _ Q), ?(q_sessions _ _ _ Q), ?(q_started _ _ _ Q).
  - intros d [y E]. destruct (B _ _ Q E) as (x & E' & _). pose proof (I_fresh _ I d (ex_intro _ _ E')).
    pose proof (q_nextId _ _ _ Q). lia.
  - intros c d. rewrite R, (I_records _ I). split; intros (x & E & C & L).
    + destruct (same_forth _ _ _ _ _ Q E) as (y & E' & K). exists y.
      destruct (core_eq _ _ K) as (K1 & _), (core_flags _ _ K) as (K2 & _). repeat split; congruence.
    + destruct (B _ _ Q E) as (y & E' & K). exists y.
      destruct (core_eq _ _ K) as (K1 & _), (core_flags _ _ K) as (K2 & _). repeat split; congruence.
  - intros c. rewrite R. apply I.
  - intros c. rewrite (q_byCallID _ _ _ Q). apply I.
  - rewrite (I_sessions _ I), (quiet_cnt live t t' Q); [done|]. intros x y K. by destruct (core_flags _ _ K) as (-> & _).
  - intros d1 d2 y1 y2 E1 E2 L1 L2 C T.
    destruct (B _ _ Q E1) as (x1 & F1 & K1), (B _ _ Q E2) as (x2 & F2 & K2).
    destruct (core_eq _ _ K1) as (A1 & B1 & _), (core_eq _ _ K2) as (A2 & B2 & _).
    destruct (core_flags _ _ K1) as (_ & C1 & _), (core_flags _ _ K2) as (_ & C2 & _).
    eapply (I_early _ I); [exact F1|exact F2|congruence..].
  - rewrite (I_started _ I), (quiet_cnt is_confirmed t t' Q); [done|]. intros x y K. by destruct (core_flags _ _ K) as (_ & _ & ->).
  - apply I.
  - intros d H. destruct (I_gone _ I d H) as (x & E & L). destruct (same_forth _ _ _ _ _ Q E) as (y & E' & K).
    exists y. by destruct (core_flags _ _ K) as (-> & _).
  - intros d y m E L M. destruct (B _ _ Q E) as (x & F & K). destruct (core_eq _ _ K) as (_ & _ & _ & KM), (core_flags _ _ K) as (KL & _).
    eapply (I_media _ I); [exact F|congruence..].
  - intros d y E C. destruct (B _ _ Q E) as (x & F & K). destruct (core_eq _ _ K) as (_ & _ & _ & KM), (core_flags _ _ K) as (_ & _ & KC).
    rewrite KM. apply (I_up _ I d x F). congruence.
  - apply I.
Qed.

(** *** The operations that change the life of a call *)

Lemma records_insert c ds t c' :
  records (with_byCallID (<[c := ds]> (t_byCallID t)) t) c' = if decide (c = c') then ds else records t c'.
Proof. unfold records. simpl. destruct (decide (c = c')) as [->|N]; [by rewrite lookup_insert_eq|by rewrite lookup_insert_ne]. Qed.

Lemma records_removeLocked c d t c' :
  records (removeLocked c d t) c' = if decide (c = c') then remove_nat d (records t c) else records t c'.
Proof.
  unfold removeLocked. case_bool_decide as E; [|apply records_insert]. unfold records. simpl.
  destruct (decide (c = c')) as [->|N]; [|by rewrite lookup_delete_ne].
  rewrite lookup_delete_eq. simpl. unfold records in E. by rewrite E.
Qed.

Lemma elem_of_remove_nat d ds : NoDup ds -> forall e, e ∈ remove_nat d ds <-> e ∈ ds /\ e <> d.
Proof.
  induction 1 as [|x ds N _ IH]; intros e; simpl; [split; [intros []%elem_of_nil|intros [[]%elem_of_nil _]]|].
  case_bool_decide as E; subst; rewrite elem_of_cons.
  - split; [intros H; split; [by right|intros ->; done]|intros [[->|H] K]; done].
  - rewrite elem_of_cons, IH. naive_solver.
Qed.

Lemma NoDup_remove_nat d ds : NoDup ds -> NoDup (remove_nat d ds).
Proof.
  induction 1 as [|x ds N ND IH]; simpl; [constructor|]. case_bool_decide; [done|]. constructor; [|done].
  rewrite elem_of_remove_nat by done. tauto.
Qed.

Lemma first_record_Some {A} (f : nat -> dialog -> option A) t ds a : first_record f t ds = Some a ->
  exists d x, d ∈ ds /\ t_heap t !! d = Some x /\ f d x = Some a.
Proof.
  induction ds as [|d ds IH]; simpl; [done|]. destruct (t_heap t !! d) as [x|] eqn:E; simpl.
  - destruct (f d x) as [b|] eqn:F.
    + intros [= ->]. exists d, x. split; [by left|done].
    + intros H. destruct (IH H) as (e & y & ? & ?). exists e, y. split; [by right|done].
  - intros H. destruct (IH H) as (e & y & ? & ?). exists e, y. split; [by right|done].
Qed.

Lemma first_record_None {A} (f : nat -> dialog -> option A) t ds : first_record f t ds = None ->
  forall d x, d ∈ ds -> t_heap t !! d = Some x -> f d x = None.
Proof.
  induction ds as [|e ds IH]; simpl; [by intros _ d x []%elem_of_nil|].
  intros H d x [->|D]%elem_of_cons E; [rewrite E in H; simpl in H; by destruct (f e x)|].
  apply IH; [|done|done]. by destruct (t_heap t !! e ≫= f e).
Qed.

(** What a successful [begin] leaves. *)
Lemma begin_cases now hs p limit t :
  (exists r, begin_ now hs p limit t = (r, t) /\ forall d, r <> beginOK d) \/
  (let d := t_nextId t in let x := new_dialog now hs p in exists t',
   begin_ now hs p limit t = (beginOK d, t') /\ t_closed t = false /\ (0 < limit -> t_sessions t < limit) /\
   (forall e y, e ∈ records t (d_callID x) -> t_heap t !! e = Some y -> merged_with (d_callerTag x) y = false) /\
   t' = with_sessions (t_sessions t + 1)
          (with_byCallID (<[d_callID x := records t (d_callID x) ++ [d]]> (t_byCallID t))
             (with_heap (<[d := x]> (t_heap t)) (with_nextId (S d) t)))).
Proof.
  unfold begin_. cbv zeta. destruct (t_closed t) eqn:C; [left; by eexists; split|].
  destruct (first_record _ _ _) as [a|] eqn:F; [left; by eexists; split|].
  destruct ((0 <? limit) && (limit <=? t_sessions t)) eqn:L; [left; by eexists; split|].
  right. eexists. split; [reflexivity|]. split; [done|]. split; [lia|]. split; [|done].
  intros e y R E. pose proof (first_record_None _ _ _ F e y R E) as H. simpl in H. by destruct (merged_with _ y).
Qed.

Lemma Inv_begin now hs p limit t : Inv t -> Inv (begin_ now hs p limit t).2.
Proof.
  intros I. destruct (begin_cases now hs p limit t) as [(r & -> & _)|(t' & -> & _ & _ & M & ->)]; [done|]. simpl.
  set (d := t_nextId t) in *. set (x := new_dialog now hs p) in *.
  assert (t_heap t !! d = None) as F.
  { destruct (t_heap t !! d) eqn:E; [|done]. pose proof (I_fresh _ I d (ex_intro _ _ E)). unfold d in *. lia. }
  assert (forall e y, <[d := x]> (t_heap t) !! e = Some y -> (e = d /\ y = x) \/ (e <> d /\ t_heap t !! e = Some y)) as B.
  { intros e y. destruct (decide (e = d)) as [->|N]; [rewrite lookup_insert_eq; intros [= <-]; by left|].
    rewrite lookup_insert_ne by done. by right. }
  assert (forall e, e ∈ records t (d_callID x) -> e <> d) as ND.
  { intros e H ->. apply (I_records _ I) in H as (y & E & _). congruence. }
  constructor; simpl.
  - intros e [y Hy]. destruct (B _ _ Hy) as [[-> _]|[_ E]]; [lia|]. pose proof (I_fresh _ I e (ex_intro _ _ E)). lia.
  - intros c e.
    change (e ∈ records (with_byCallID (<[d_callID x := records t (d_callID x) ++ [d]]> (t_byCallID t)) t) c <->
            exists y, <[d := x]> (t_heap t) !! e = Some y /\ d_callID y = c /\ live y = true).
    rewrite records_insert. destruct (decide (e = d)) as [->|N].
    + rewrite lookup_insert_eq. destruct (decide (d_callID x = c)) as [<-|NC].
      * split; [intros _; by exists x|intros _; apply elem_of_app; right; by left].
      * split; [intros H; exfalso|intros (y & [= <-] & H & _); done].
        apply (I_records _ I) in H as (y & E & _). congruence.
    + rewrite lookup_insert_ne by done. rewrite <- (I_records _ I).
      destruct (decide (d_callID x = c)) as [<-|NC]; [|done]. rewrite elem_of_app, list_elem_of_singleton. naive_solver.
  - intros c. change (NoDup (records (with_byCallID (<[d_callID x := records t (d_callID x) ++ [d]]> (t_byCallID t)) t) c)).
    rewrite records_insert. case_decide as HC; [|apply I]. apply NoDup_app. split; [apply I|]. split.
    + intros e H [->|[]%elem_of_nil]%elem_of_cons. by apply (ND d).
    + apply NoDup_singleton.
  - intros c. destruct (decide (d_callID x = c)) as [<-|NC].
    + rewrite lookup_insert_eq. intros [= [_ ?]%app_nil]. done.
    + rewrite lookup_insert_ne by done. apply I.
  - rewrite (cnt_fresh live _ d x F), (I_sessions _ I). simpl. lia.
  - intros d1 d2 x1 x2 E1 E2 L1 L2 C T.
    assert (forall e y, e <> d -> t_heap t !! e = Some y -> is_early y = true -> d_callID y = d_callID x -> d_callerTag y = d_callerTag x -> False) as K.
    { intros e y _ E L C' T'. assert (e ∈ records t (d_callID x)) as R.
      { apply (I_records _ I). exists y. split; [done|]. split; [done|]. unfold live, is_ended, is_early in *. by destruct (d_state y). }
      specialize (M e y R E). unfold merged_with in M. rewrite L, T' in M. simpl in M. by rewrite beq_refl in M. }
    destruct (B _ _ E1) as [[-> ->]|[N1 F1]], (B _ _ E2) as [[-> ->]|[N2 F2]]; [done| | |by eapply (I_early _ I)].
    + exfalso. by eapply (K d2 x2).
    + exfalso. by eapply (K d1 x1).
  - rewrite (cnt_fresh is_confirmed _ d x F), (I_started _ I). simpl. lia.
  - apply I.
  - intros e H. destruct (I_gone _ I e H) as (y & E & L). exists y. split; [|done].
    rewrite lookup_insert_ne; [done|]. congruence.
  - intros e y m E L HM. destruct (B _ _ E) as [[-> ->]|[_ E']]; [done|]. by eapply (I_media _ I).
  - intros e y E C. destruct (B _ _ E) as [[-> ->]|[_ E']]; [done|]. by eapply (I_up _ I).
  - apply I.
Qed.

Lemma Inv_close t : Inv t -> Inv (close t).
Proof. intros I. constructor; apply I. Qed.

(** A record replaced by one with the same Call-ID, caller tag and liveness. *)
Lemma records_heap t d x y : Inv t -> t_heap t !! d = Some x -> d_callID y = d_callID x -> live y = live x ->
  forall c e, e ∈ records t c <-> exists z, <[d := y]> (t_heap t) !! e = Some z /\ d_callID z = c /\ live z = true.
Proof.
  intros I E C L c e. rewrite (I_records _ I). destruct (decide (e = d)) as [->|N].
  - rewrite lookup_insert_eq. split; intros (z & H1 & H2 & H3); [exists y|exists x]; repeat split; congruence.
  - by rewrite lookup_insert_ne.
Qed.

Lemma live_states x : live x = true <-> d_state x <> dialogEnded.
Proof. unfold live, is_ended. case_bool_decide; simpl; naive_solver. Qed.

Lemma confirmed_live x : is_confirmed x = true -> live x = true.
Proof. unfold is_confirmed, live, is_ended. by destruct (d_state x). Qed.

Lemma early_live x : is_early x = true -> live x = true.
Proof. unfold is_early, live, is_ended. by destruct (d_state x). Qed.

Lemma Inv_attach d m t : session d t = None -> Inv t -> Inv (attach d m t).2.
Proof.
  intros S I. unfold attach.
  assert (Inv (close_media m t)) as IM.
  { constructor; simpl; try apply I. intros e x n E L HM. destruct (I_media _ I e x n E L HM) as [H|H]; [left|by right].
    apply elem_of_app. by left. }
  destruct (t_heap t !! d) as [x|] eqn:E; [|done].
  destruct (t_closed t || is_ended x) eqn:C; [done|]. apply orb_false_iff in C as [_ C]. simpl.
  unfold upd. rewrite E.
  assert (live x = true) as L by (unfold live; by rewrite C).
  constructor; simpl; try apply I.
  - intros e H. apply I. destruct (decide (e = d)) as [->|N]; [by rewrite E|by rewrite lookup_insert_ne in H].
  - by apply (records_heap t d x).
  - pose proof (cnt_update live _ d x (set_media (Some m) x) E) as U.
    change (live (set_media (Some m) x)) with (live x) in U. rewrite (I_sessions _ I). lia.
  - intros d1 d2 x1 x2. intros H1 H2.
    assert (forall e z, <[d := set_media (Some m) x]> (t_heap t) !! e = Some z -> exists z', t_heap t !! e = Some z' /\
              is_early z = is_early z' /\ d_callID z = d_callID z' /\ d_callerTag z = d_callerTag z') as K.
    { intros e z. destruct (decide (e = d)) as [->|N]; [rewrite lookup_insert_eq; intros [= <-]; by exists x|].
      rewrite lookup_insert_ne by done. by exists z. }
    destruct (K _ _ H1) as (z1 & F1 & -> & -> & ->), (K _ _ H2) as (z2 & F2 & -> & -> & ->). by apply (I_early _ I).
  - pose proof (cnt_update is_confirmed _ d x (set_media (Some m) x) E) as U.
    change (is_confirmed (set_media (Some m) x)) with (is_confirmed x) in U. rewrite (I_started _ I). lia.
  - intros e H. destruct (I_gone _ I e H) as (z & F & LZ). exists z. split; [|done].
    rewrite lookup_insert_ne; [done|]. intros ->. congruence.
  - intros e z n. destruct (decide (e = d)) as [->|N].
    + rewrite lookup_insert_eq. intros [= <-] LZ. change (live x = false) in LZ. congruence.
    + rewrite lookup_insert_ne by done. apply (I_media _ I).
  - intros e z. destruct (decide (e = d)) as [->|N].
    + rewrite lookup_insert_eq. intros [= <-] _. by eexists.
    + rewrite lookup_insert_ne by done. apply (I_up _ I).
Qed.

(** What a successful [confirm] leaves. *)
Lemma confirm_cases now d tag r t :
  (confirm now d tag r t = (false, t)) \/
  (exists x x' m, t_heap t !! d = Some x /\ is_early x = true /\ d_cancelled x = false /\ d_media x = Some m /\
     confirm now d tag r t = (true, with_started (t_started t + 1) (with_heap (<[d := x']> (t_heap t)) t)) /\
     d_callID x' = d_callID x /\ d_callerTag x' = d_callerTag x /\ d_calleeTag x' = tag /\ d_state x' = dialogConfirmed /\
     d_media x' = Some m /\ d_cancelled x' = false /\ d_inFlight x' = d_inFlight x /\ d_callerPlane x' = d_callerPlane x).
Proof.
  unfold confirm. destruct (t_heap t !! d) as [x|] eqn:E; [|by left].
  destruct (is_early x) eqn:L; [|by left]. destruct (d_media x) as [m|] eqn:M; [|by left].
  destruct (d_cancelled x) eqn:C; [by left|]. right. simpl.
  eexists x, _, m. split; [done|]. split; [done|]. split; [done|]. split; [done|]. split; [reflexivity|].
  unfold set_origin. destruct (d_callerPlane x) eqn:?; simpl; repeat split; congruence.
Qed.

Lemma Inv_confirm now d tag r t : Inv t -> Inv (confirm now d tag r t).2.
Proof.
  intros I. destruct (confirm_cases now d tag r t) as [->|(x & y & m & E & L & _ & M & -> & C & T & _ & S & M' & _)]; [done|]. simpl.
  pose proof (early_live _ L) as LX.
  assert (live y = true) as LY by (apply live_states; by rewrite S).
  constructor; simpl; try apply I.
  - intros e H. apply I. destruct (decide (e = d)) as [->|N]; [by rewrite E|by rewrite lookup_insert_ne in H].
  - apply (records_heap t d x); [done..|congruence].
  - pose proof (cnt_update live _ d x y E) as U. rewrite LX, LY in U. rewrite (I_sessions _ I). simpl in U. lia.
  - intros d1 d2 x1 x2. assert (is_early y = false) as EY by (unfold is_early; by rewrite S).
    destruct (decide (d1 = d)) as [->|N1]; [rewrite lookup_insert_eq; congruence|].
    destruct (decide (d2 = d)) as [->|N2]; [rewrite lookup_insert_eq; congruence|].
    rewrite !lookup_insert_ne by done. apply (I_early _ I).
  - pose proof (cnt_update is_confirmed _ d x y E) as U. rewrite (I_started _ I).
    assert (is_confirmed x = false) as EX by (unfold is_early, is_confirmed in *; by destruct (d_state x)).
    assert (is_confirmed y = true) as EY by (unfold is_confirmed; by rewrite S). rewrite EX, EY in U. simpl in U. lia.
  - intros e H. destruct (I_gone _ I e H) as (z & F & LZ). exists z. split; [|done].
    rewrite lookup_insert_ne; [done|]. intros ->. congruence.
  - intros e z n. destruct (decide (e = d)) as [->|N]; [rewrite lookup_insert_eq; congruence|].
    rewrite lookup_insert_ne by done. apply (I_media _ I).
  - intros e z. destruct (decide (e = d)) as [->|N]; [rewrite lookup_insert_eq; intros [= <-]; by rewrite M'|].
    rewrite lookup_insert_ne by done. apply (I_up _ I).
Qed.

(** What [endBy] leaves at the end of its critical section. *)
Lemma end_cases d r t :
  (end_locked d r t = (None, t) /\ forall x, t_heap t !! d = Some x -> live x = false) \/
  (exists x y t', t_heap t !! d = Some x /\ live x = true /\
     let e := mkEnding d r (is_confirmed x) (d_media x) in
     end_locked d r t = (Some e, t') /\ d_state y = dialogEnded /\ d_media y = d_media x /\ d_inFlight y = None /\
     d_callID y = d_callID x /\ d_callerTag y = d_callerTag x /\ d_cancelled y = d_cancelled x /\
     t_heap t' = <[d := y]> (t_heap t) /\ t_byCallID t' = t_byCallID (removeLocked (d_callID x) d t) /\
     t_sessions t' = t_sessions t - 1 /\ t_pending t' = t_pending t ++ [e] /\ t_ended t' = t_ended t /\
     t_closedMedia t' = t_closedMedia t /\ t_started t' = t_started t /\ t_nextId t' = t_nextId t /\
     t_closed t' = t_closed t /\ t_attempts t' = t_attempts t).
Proof.
  unfold end_locked. destruct (t_heap t !! d) as [x|] eqn:E; [|left; by split].
  destruct (is_ended x) eqn:L; [left; split; [done|]; intros y [= <-]; unfold live; by rewrite L|]. right.
  exists x, (set_lastAck None (set_ack None (set_owed None (set_inFlight None (set_state dialogEnded x))))). eexists. split; [done|]. split; [unfold live; by rewrite L|]. cbv zeta.
  split; [reflexivity|].
  assert (forall o t0, t_heap (stop o t0) = t_heap t0 /\ t_byCallID (stop o t0) = t_byCallID t0 /\ t_sessions (stop o t0) = t_sessions t0 /\
     t_pending (stop o t0) = t_pending t0 /\ t_ended (stop o t0) = t_ended t0 /\ t_closedMedia (stop o t0) = t_closedMedia t0 /\
     t_started (stop o t0) = t_started t0 /\ t_nextId (stop o t0) = t_nextId t0 /\ t_closed (stop o t0) = t_closed t0 /\
     t_attempts (stop o t0) = t_attempts t0) as K by (by intros [i|] t0).
  set (t1 := stop (d_owed x ≫= w_timer) t). set (t2 := stop (d_ack x ≫= k_timer) t1).
  destruct (K (d_owed x ≫= w_timer) t) as (A1 & A2 & A3 & A4 & A5 & A6 & A7 & A8 & A9 & A10).
  destruct (K (d_ack x ≫= k_timer) t1) as (B1 & B2 & B3 & B4 & B5 & B6 & B7 & B8 & B9 & B10).
  fold t1 in A1, A2, A3, A4, A5, A6, A7, A8, A9, A10. fold t2 in B1, B2, B3, B4, B5, B6, B7, B8, B9, B10.
  split; [reflexivity|]. do 5 (split; [reflexivity|]).
  assert (forall t0, t_byCallID t0 = t_byCallID t -> t_byCallID (removeLocked (d_callID x) d t0) = t_byCallID (removeLocked (d_callID x) d t)) as R.
  { intros t0 H. unfold removeLocked, records. simpl. by rewrite H. }
  repeat split; try (simpl; congruence). refine (R (with_heap _ t2) _). simpl. congruence.
Qed.

Lemma Inv_end d r t : Inv t -> Inv (end_locked d r t).2.
Proof.
  intros I. destruct (end_cases d r t) as [[-> _]|(x & y & t' & E & L & -> & S & M & _ & C & T & _ & Hh & Hb & Hs & Hp & He & Hm & Hst & Hn & Hc & _)]; [done|].
  cbn [snd]. set (e := mkEnding d r (is_confirmed x) (d_media x)) in *.
  assert (live y = false) as LY by (unfold live, is_ended; by rewrite S).
  assert (is_confirmed y = false) as CY by (unfold is_confirmed; by rewrite S).
  assert (is_early y = false) as EY by (unfold is_early; by rewrite S).
  assert (d ∉ map e_dialog (t_pending t) ++ map fst (t_ended t)) as ND.
  { intros H. destruct (I_gone _ I d H) as (z & F & LZ). congruence. }
  assert (forall c, records t' c = records (removeLocked (d_callID x) d t) c) as R by (intros c; unfold records; by rewrite Hb).
  constructor; rewrite ?Hh, ?Hs, ?Hp, ?He, ?Hm, ?Hst, ?Hn.
  - intros f H. apply I. destruct (decide (f = d)) as [->|N]; [by rewrite E|by rewrite lookup_insert_ne in H].
  - intros c f. rewrite R, records_removeLocked. destruct (decide (f = d)) as [->|N].
    + rewrite lookup_insert_eq. split; [|intros (z & [= <-] & _ & H); congruence]. intros H. exfalso.
      case_decide as HC; [apply elem_of_remove_nat in H as [_ H]; [done|apply I]|].
      apply (I_records _ I) in H as (z & F & HC' & _). congruence.
    + rewrite lookup_insert_ne by done. rewrite <- (I_records _ I). case_decide as HC; [|done].
      rewrite elem_of_remove_nat by apply I. subst c. tauto.
  - intros c. rewrite R, records_removeLocked. case_decide; [apply NoDup_remove_nat|]; apply I.
  - intros c. rewrite Hb. unfold removeLocked. case_bool_decide as HR; simpl.
    + destruct (decide (d_callID x = c)) as [<-|N]; [by rewrite lookup_delete_eq|]. rewrite lookup_delete_ne by done. apply I.
    + destruct (decide (d_callID x = c)) as [<-|N]; [rewrite lookup_insert_eq; congruence|].
      rewrite lookup_insert_ne by done. apply I.
  - pose proof (cnt_update live _ d x y E) as U. rewrite L, LY in U. rewrite (I_sessions _ I). simpl in U. lia.
  - intros d1 d2 x1 x2. destruct (decide (d1 = d)) as [->|N1]; [rewrite lookup_insert_eq; congruence|].
    destruct (decide (d2 = d)) as [->|N2]; [rewrite lookup_insert_eq; congruence|].
    rewrite !lookup_insert_ne by done. apply (I_early _ I).
  - pose proof (cnt_update is_confirmed _ d x y E) as U. rewrite CY in U. rewrite (I_started _ I), List.filter_app, length_app.
    unfold e. simpl. destruct (is_confirmed x); simpl in *; lia.
  - rewrite map_app. simpl. rewrite <- app_assoc. simpl. rewrite <- Permutation_middle. constructor; [done|apply I].
  - intros f H. destruct (decide (f = d)) as [->|N]; [rewrite lookup_insert_eq; by exists y|].
    rewrite lookup_insert_ne by done. apply (I_gone _ I). rewrite map_app in H. simpl in H.
    rewrite <- app_assoc in H. simpl in H. rewrite elem_of_app, elem_of_cons in H. rewrite elem_of_app. naive_solver.
  - intros f z m. destruct (decide (f = d)) as [->|N].
    + rewrite lookup_insert_eq. intros [= <-] _ HM. right. exists e. split; [apply elem_of_app; right; by left|].
      split; [done|]. simpl. congruence.
    + rewrite lookup_insert_ne by done. intros F LZ HM. destruct (I_media _ I f z m F LZ HM) as [H|(g & H & ?)]; [by left|].
      right. exists g. split; [apply elem_of_app; by left|done].
  - intros f z. destruct (decide (f = d)) as [->|N]; [rewrite lookup_insert_eq; congruence|].
    rewrite lookup_insert_ne by done. apply (I_up _ I).
  - intros g [H|[->|[]%elem_of_nil]%elem_of_cons]%elem_of_app; [by apply (I_pending _ I)|]. apply (I_up _ I d x E).
Qed.

Lemma remove_ending_perm e l : e ∈ l -> l ≡ₚ e :: remove_ending e l.
Proof.
  induction l as [|y l IH]; [by intros []%elem_of_nil|]. simpl. intros H. case_bool_decide as E; [by subst|].
  apply elem_of_cons in H as [->|H]; [done|]. rewrite (IH H) at 1. apply perm_swap.
Qed.

Definition settled (e : ending) (t : dialogTable) : dialogTable :=
  with_ended (t_ended t ++ if e_up e then [(e_dialog e, e_reason e)] else [])
    (with_closedMedia (t_closedMedia t ++ match e_sess e with Some m => [m] | None => [] end)
       (with_pending (remove_ending e (t_pending t)) t)).

Lemma up_length e (l : list ending) : length (List.filter e_up (e :: l)) = (b2n (e_up e) + length (List.filter e_up l))%nat.
Proof. simpl. by destruct (e_up e). Qed.

Lemma filter_perm (l l' : list ending) : l ≡ₚ l' -> length (List.filter e_up l) = length (List.filter e_up l').
Proof.
  induction 1 as [|x l l' _ IH|x y l|]; simpl; [done| | |congruence].
  - destruct (e_up x); simpl; congruence.
  - by destruct (e_up x), (e_up y).
Qed.

Lemma Inv_settled e t : e ∈ t_pending t -> Inv t -> Inv (settled e t).
Proof.
  intros H I. pose proof (remove_ending_perm e _ H) as P.
  constructor; simpl; try apply I.
  - rewrite (I_started _ I), (filter_perm _ _ P), up_length, length_app. destruct (e_up e); simpl; lia.
  - pose proof (I_once _ I) as O. rewrite P in O. simpl in O. rewrite map_app, app_assoc.
    apply NoDup_cons in O as [N O]. destruct (e_up e); simpl; [|by rewrite app_nil_r].
    rewrite <- Permutation_cons_append. by constructor.
  - intros d HD. apply (I_gone _ I). rewrite P. simpl. rewrite elem_of_cons, !elem_of_app.
    rewrite map_app, !elem_of_app in HD. destruct HD as [HD|[HD|HD]]; [tauto..|].
    destruct (e_up e); simpl in HD; [apply elem_of_cons in HD as [->|HD]; [by left|]|]; by apply elem_of_nil in HD.
  - intros d x m E L HM. rewrite elem_of_app. destruct (I_media _ I d x m E L HM) as [HC|(g & HG & HD & HS)]; [tauto|].
    rewrite P in HG. apply elem_of_cons in HG as [->|HG]; [|right; by exists g]. left. right. rewrite HS. by left.
  - intros g HG. apply (I_pending _ I). rewrite P. by right.
Qed.

Lemma end_rest_settled e t : e ∈ t_pending t -> Inv t -> (end_rest e t).2 = settled e (release_hook (e_dialog e) t).
Proof.
  intros H I. set (t1 := release_hook (e_dialog e) t).
  assert (t_pending t1 = t_pending t) as HP by (unfold t1, release_hook, upd; by destruct (t_heap t !! e_dialog e)).
  unfold end_rest, settled. fold t1. rewrite HP. destruct (e_sess e) as [m|] eqn:S.
  - destruct (e_up e); simpl; [reflexivity|]. destruct t1. unfold with_ended, close_media, with_closedMedia, with_pending. simpl. by rewrite app_nil_r.
  - destruct (e_up e) eqn:U; [by destruct (I_pending _ I e H U) as [m Hm]; congruence|].
    destruct t1. unfold with_ended, with_closedMedia, with_pending. simpl. by rewrite !app_nil_r.
Qed.

Lemma Inv_end_rest e t : e ∈ t_pending t -> Inv t -> Inv (end_rest e t).2.
Proof.
  intros H I. rewrite end_rest_settled by done.
  assert (quiet t (release_hook (e_dialog e) t)) as Q by (apply same_upd; [apply same_refl|done]).
  apply Inv_settled; [by rewrite (q_pending _ _ _ Q)|by eapply Inv_quiet].
Qed.

Lemma step_quiet o t : life o = false -> quiet t (step o t).
Proof.
  intros L. destruct (bridge o) eqn:B; [by apply step_bridge|].
  apply (same_weaken wide core); [|by apply step_wide]. unfold wide. congruence.
Qed.

Lemma Inv_step o t : allowed o t -> Inv t -> Inv (step o t).
Proof.
  intros A I. destruct (life o) eqn:Q; [|eapply Inv_quiet; [by apply step_quiet|done]].
  destruct o; try discriminate; simpl in *.
  - by apply Inv_begin.
  - by apply Inv_close.
  - by apply Inv_attach.
  - by apply Inv_end.
  - by apply Inv_end_rest.
  - by apply Inv_confirm.
Qed.

Lemma trace_Inv os t : trace os t -> Inv t.
Proof. induction 1; [apply Inv_new|by apply Inv_step]. Qed.

(** The records the loops of [count], [usesRemote] and [closeAll] go through
    are the live ones, once each. *)
Lemma all_records_live t d : Inv t -> d ∈ all_records t <-> exists x, t_heap t !! d = Some x /\ live x = true.
Proof.
  intros I. unfold all_records. rewrite list_elem_of_In, in_concat. setoid_rewrite in_map_iff. split.
  - intros (ds & ((c & ds') & <- & HIn) & HD). simpl in HD.
    apply list_elem_of_In, elem_of_map_to_list in HIn. apply list_elem_of_In in HD.
    assert (d ∈ records t c) as R by (unfold records; by rewrite HIn).
    apply (I_records _ I) in R as (x & E & _ & L). by exists x.
  - intros (x & E & L). assert (d ∈ records t (d_callID x)) as R by (apply (I_records _ I); by exists x).
    unfold records in R. destruct (t_byCallID t !! d_callID x) as [ds|] eqn:B; [|by apply elem_of_nil in R].
    exists ds. split; [|by apply list_elem_of_In]. exists (d_callID x, ds). split; [done|].
    by apply list_elem_of_In, elem_of_map_to_list.
Qed.

Lemma NoDup_concat_lists (l : list (gostring * list nat)) (own : nat -> gostring) :
  NoDup (map fst l) -> (forall kv, kv ∈ l -> NoDup kv.2 /\ forall d, d ∈ kv.2 -> own d = kv.1) -> NoDup (concat (map snd l)).
Proof.
  induction l as [|[k ds] l IH]; simpl; [constructor|]. intros [N ND]%NoDup_cons H.
  destruct (H (k, ds) ltac:(by left)) as [N1 O1]. simpl in *.
  apply NoDup_app. split; [done|]. split; [|apply IH; [done|]; intros kv HK; apply H; by right].
  intros d D1 D2. apply N. rewrite list_elem_of_In, in_map_iff. rewrite list_elem_of_In, in_concat in D2.
  destruct D2 as (ds' & HIn & D2). apply in_map_iff in HIn as ([k' ds2] & <- & HIn). exists (k', ds2). split; [|done]. simpl.
  destruct (H (k', ds2)) as [_ O2]; [right; by apply list_elem_of_In|]. simpl in O2.
  rewrite <- (O1 d D1). symmetry. apply O2. by apply list_elem_of_In.
Qed.

Lemma all_records_NoDup t : Inv t -> NoDup (all_records t).
Proof.
  intros I. apply (NoDup_concat_lists _ (fun d => match t_heap t !! d with Some x => d_callID x | None => [] end)).
  - apply NoDup_fst_map_to_list.
  - intros [c ds] H. apply elem_of_map_to_list in H. simpl.
    assert (records t c = ds) as R by (unfold records; by rewrite H). rewrite <- R. split; [apply I|].
    intros d D. apply (I_records _ I) in D as (x & -> & C & _). done.
Qed.

(** Counting over [all_records] is counting over the heap. *)
Lemma count_records (P : dialog -> bool) t : Inv t -> (forall x, P x = true -> live x = true) ->
  length (List.filter (fun d => match t_heap t !! d with Some x => P x | None => false end) (all_records t)) = cnt P (t_heap t).
Proof.
  intros I HP. unfold cnt, pairs_with.
  rewrite <- (length_map fst (List.filter _ (map_to_list (t_heap t)))).
  apply Permutation_length, NoDup_Permutation.
  - rewrite NoDup_ListNoDup. apply List.NoDup_filter, NoDup_ListNoDup, all_records_NoDup, I.
  - rewrite NoDup_ListNoDup. rewrite <- NoDup_ListNoDup.
    assert (forall l : list (nat * dialog), NoDup (map fst l) -> NoDup (map fst (List.filter (fun kv => P kv.2) l))) as K.
    { induction l as [|[k x] l IH]; simpl; [done|]. intros [N ND]%NoDup_cons. destruct (P x); simpl; [|by apply IH].
      constructor; [|by apply IH]. intros H. apply N. rewrite list_elem_of_In, in_map_iff in *.
      destruct H as (kv & <- & HF). apply filter_In in HF as [HF _]. by exists kv. }
    apply K, NoDup_fst_map_to_list.
  - intros d. rewrite !list_elem_of_In, filter_In, in_map_iff. setoid_rewrite filter_In.
    rewrite <- list_elem_of_In. split.
    + intros [D HB]. destruct (t_heap t !! d) as [x|] eqn:E; [|done]. exists (d, x). split; [done|]. split; [|done].
      by apply list_elem_of_In, elem_of_map_to_list.
    + intros ([d' x] & <- & HIn & HB). simpl in *. apply list_elem_of_In, elem_of_map_to_list in HIn. rewrite HIn. split; [|done].
      apply all_records_live; [done|]. exists x. split; [done|]. by apply HP.
Qed.
End Calls.
