(* ===== verification/DialogSafety.v ===== *)
(** What the dialog table promises its callers.

    Over every trace of DialogInv.v: a CANCEL goes out exactly once, a call
    given up on never connects, the table's accounts agree, requests find their
    own call, shutdown leaves nothing behind and offers do not cross. *)

From S2P Require Import Prelude GoTime Netip GoText SdpCodec SdpParse EdgeSdes SipMsg SipRequest Topology Dialog DialogInv.

Open Scope Z_scope.

Section Promises.
Context `{SP : SipParams}.
#[local] Abbreviation quiet := (same core).

(** *** The CANCEL bridge *)

(** The attempts a CANCEL goes out for in a step. *)
Definition cancels (o : op) (t : dialogTable) : list nat :=
  match o with
  | OMarkSent a => if (markSent a t).1 then [a] else []
  | OCancel d why => match cancelSeries d why t with (Some a, true, _) => [a] | _ => [] end
  | _ => []
  end.

Fixpoint cancels_of (os : list op) (t : dialogTable) : list nat :=
  match os with [] => [] | o :: os => cancels o t ++ cancels_of os (step o t) end.

Lemma cancels_of_app os1 os2 t : cancels_of (os1 ++ os2) t = cancels_of os1 t ++ cancels_of os2 (run os1 t).
Proof. revert t. induction os1 as [|o os1 IH]; intros t; simpl; [done|]. by rewrite IH, app_assoc. Qed.

Lemma trace_is_run os t : trace os t -> t = run os newDialogTable.
Proof. induction 1 as [|os t o _ IH]; [done|]. rewrite run_app. simpl. by rewrite <- IH. Qed.

(** How a step treats the records: a new one has no attempt in flight, and no
    record gets one but by [track]. *)
Definition shrinks (t t' : dialogTable) : Prop :=
  (t_nextId t <= t_nextId t')%nat /\
  forall d y a, t_heap t' !! d = Some y -> d_inFlight y = Some a -> exists x, t_heap t !! d = Some x /\ d_inFlight x = Some a.

Lemma same_shrinks {B} (K : dialog -> B) t t' : (forall x y, K y = K x -> d_inFlight y = d_inFlight x) -> same K t t' -> shrinks t t'.
Proof.
  intros H Q. split; [apply Q|]. intros d y a E F. destruct (same_back _ _ _ _ _ Q E) as (x & E' & HK).
  exists x. split; [done|]. rewrite <- F. symmetry. by apply H.
Qed.

Lemma end_rest_heap e t : t_heap (end_rest e t).2 = t_heap (release_hook (e_dialog e) t) /\ t_nextId (end_rest e t).2 = t_nextId t.
Proof.
  unfold end_rest, release_hook, upd. destruct (t_heap t !! e_dialog e), (e_sess e), (negb (e_up e)); done.
Qed.

Lemma life_shrinks o t : life o = true -> shrinks t (step o t).
Proof.
  intros L. destruct o; try discriminate; cbn [step].
  - destruct (begin_cases now hs callerPlane limit t) as [(r & -> & _)|(t' & -> & _ & _ & _ & ->)];
      (split; [simpl; lia|]); intros d y a; [by exists y|].
    simpl. destruct (decide (d = t_nextId t)) as [->|N]; [rewrite lookup_insert_eq; intros [= <-]; done|].
    rewrite lookup_insert_ne by done. by exists y.
  - split; [done|]. intros d y a E F. by exists y.
  - unfold attach. destruct (t_heap t !! d) as [x|] eqn:E; [|split; [done|]; intros e y a ? ?; by exists y].
    destruct (_ || _); [split; [done|]; intros e y a ? ?; by exists y|]. simpl.
    apply (same_shrinks d_inFlight); [done|]. by apply same_upd; [apply same_refl|].
  - destruct (end_cases d reason t) as [[-> _]|(x & y & t' & E & L' & -> & S & M & F & _ & _ & _ & Hh & _ & _ & _ & _ & _ & _ & Hn & _)].
    + split; [done|]. intros e y a ? ?. by exists y.
    + split; [simpl; lia|]. simpl. rewrite Hh. intros e z a. destruct (decide (e = d)) as [->|N].
      * rewrite lookup_insert_eq. intros [= <-]. congruence.
      * rewrite lookup_insert_ne by done. by exists z.
  - destruct (end_rest_heap e t) as [H1 H2]. split; [lia|]. rewrite H1.
    assert (shrinks t (release_hook (e_dialog e) t)) as [_ S]; [|exact S].
    apply (same_shrinks d_inFlight); [done|]. by apply same_upd; [apply same_refl|].
  - destruct (confirm_cases now d calleeTag r t) as [->|(x & y & m & E & _ & _ & _ & -> & _ & _ & _ & _ & _ & _ & F & _)].
    + split; [done|]. intros e y a ? ?. by exists y.
    + split; [done|]. simpl. intros e z a. destruct (decide (e = d)) as [->|N].
      * rewrite lookup_insert_eq. intros [= <-] HF. exists x. split; [done|congruence].
      * rewrite lookup_insert_ne by done. by exists z.
Qed.

Lemma step_shrinks o t : bridge o = false -> shrinks t (step o t).
Proof.
  intros B. destruct (life o) eqn:L; [by apply life_shrinks|]. apply (same_shrinks wide); [unfold wide; congruence|].
  by apply step_wide.
Qed.

(** An attempt in flight is one record's, and its CANCEL has not been asked for. *)
Record InFlight (t : dialogTable) : Prop := mkInFlight {
  F_fresh : forall a, is_Some (t_attempts t !! a) -> (a < t_nextId t)%nat;
  F_open : forall d x a, t_heap t !! d = Some x -> d_inFlight x = Some a ->
    exists k, t_attempts t !! a = Some k /\ a_cancelled k = false;
  F_one : forall d1 d2 x1 x2 a, t_heap t !! d1 = Some x1 -> t_heap t !! d2 = Some x2 ->
    d_inFlight x1 = Some a -> d_inFlight x2 = Some a -> d1 = d2
}.

Lemma InFlight_shrinks t t' : shrinks t t' -> t_attempts t' = t_attempts t -> InFlight t -> InFlight t'.
Proof.
  intros [N S] A I. constructor; rewrite ?A.
  - intros a H. pose proof (F_fresh _ I a H). lia.
  - intros d y a E F. destruct (S d y a E F) as (x & E' & F'). by apply (F_open _ I d x).
  - intros d1 d2 y1 y2 a E1 E2 F1 F2. destruct (S _ _ _ E1 F1) as (x1 & G1 & H1), (S _ _ _ E2 F2) as (x2 & G2 & H2).
    by apply (F_one _ I d1 d2 x1 x2 a).
Qed.

(** What [cancelSeries] does: nothing, or it marks the record and takes its
    attempt. *)
Lemma cancel_cases d why t :
  (cancelSeries d why t = (None, false, t) /\
   forall x, t_heap t !! d = Some x -> why = cancelOrphan /\ d_inFlight x = None) \/
  exists x y, t_heap t !! d = Some x /\ core y = core x /\ d_cancelled y = true /\ d_inFlight y = None /\
    d_calleeTag y = d_calleeTag x /\
    match d_inFlight x with
    | None => cancelSeries d why t = (None, false, with_heap (<[d := y]> (t_heap t)) t)
    | Some a => cancelSeries d why t =
        (Some a, match t_attempts t !! a with Some k => a_sent k | None => false end,
         upd_attempt a (fun k => mkAttempt (a_req k) (a_sent k) true) (with_heap (<[d := y]> (t_heap t)) t))
    end.
Proof.
  unfold cancelSeries. destruct (t_heap t !! d) as [x|] eqn:E; [|left; by split].
  set (x1 := match why with cancelByCaller => set_callerGone true (set_cancelled true x) | _ => set_cancelled true x end).
  assert (core x1 = core x /\ d_cancelled x1 = true /\ d_inFlight x1 = d_inFlight x /\ d_calleeTag x1 = d_calleeTag x) as (C & G & F1 & T)
    by (by destruct why).
  destruct (d_inFlight x) as [a|] eqn:F.
  - right. exists x, (set_inFlight None x1). rewrite F. do 5 (split; [done|]). by destruct why; fold x1; rewrite F1.
  - destruct why; [|left; split; [done|by intros y [= <-]]|]; right; exists x, x1; rewrite F; do 5 (split; [done|]); fold x1; by rewrite F1.
Qed.

Lemma lookup_upd_attempt a g t b :
  t_attempts (upd_attempt a g t) !! b = if decide (a = b) then g <$> t_attempts t !! a else t_attempts t !! b.
Proof.
  unfold upd_attempt. destruct (t_attempts t !! a) as [k|] eqn:E; simpl; destruct (decide (a = b)) as [->|N].
  - by rewrite lookup_insert_eq.
  - by rewrite lookup_insert_ne.
  - done.
  - done.
Qed.

Lemma upd_attempt_heap a g t : t_heap (upd_attempt a g t) = t_heap t /\ t_nextId (upd_attempt a g t) = t_nextId t.
Proof. unfold upd_attempt. by destruct (t_attempts t !! a). Qed.

Lemma markSent_eq a t : markSent a t =
  (match t_attempts t !! a with Some k => a_cancelled k | None => false end, upd_attempt a (fun k => mkAttempt (a_req k) true (a_cancelled k)) t).
Proof. unfold markSent, upd_attempt. by destruct (t_attempts t !! a). Qed.

Lemma track_cases d req t : (track d req t = (None, t)) \/
  (let a := t_nextId t in exists x t', t_heap t !! d = Some x /\ track d req t = (Some a, t') /\
     t_heap t' = <[d := set_inFlight (Some a) x]> (t_heap t) /\ t_nextId t' = S a /\
     t_attempts t' = <[a := mkAttempt req false false]> (t_attempts t)).
Proof.
  unfold track. destruct (t_heap t !! d) as [x|] eqn:E; [|by left]. destruct (d_cancelled x); [by left|]. right. simpl.
  exists x. eexists. split; [done|]. split; [reflexivity|]. unfold upd. simpl. rewrite E. by repeat split.
Qed.

Lemma InFlight_track d req t : InFlight t -> InFlight (track d req t).2.
Proof.
  intros I. destruct (track_cases d req t) as [->|(x & t' & E & -> & Hh & Hn & Ha)]; [done|]. cbn [snd].
  set (a := t_nextId t) in *.
  assert (t_attempts t !! a = None) as Fa.
  { destruct (t_attempts t !! a) eqn:Ea; [|done]. pose proof (F_fresh _ I a (ex_intro _ _ Ea)). unfold a in *. lia. }
  assert (forall e y b, <[d := set_inFlight (Some a) x]> (t_heap t) !! e = Some y -> d_inFlight y = Some b ->
            (e = d /\ b = a) \/ (e <> d /\ b <> a /\ t_heap t !! e = Some y)) as B.
  { intros e y b. destruct (decide (e = d)) as [->|N]; [rewrite lookup_insert_eq; intros [= <-] [= <-]; by left|].
    rewrite lookup_insert_ne by done. intros E1 E2. right. split; [done|]. split; [|done]. intros ->.
    destruct (F_open _ I e y a E1 E2) as (k & H & _). congruence. }
  constructor; rewrite ?Hh, ?Hn, ?Ha.
  - intros b H. destruct (decide (b = a)) as [->|N]; [lia|]. rewrite lookup_insert_ne in H by done.
    pose proof (F_fresh _ I b H). fold a in H0. lia.
  - intros e y b E1 E2. destruct (B e y b E1 E2) as [[-> ->]|(N1 & N2 & E3)].
    + rewrite lookup_insert_eq. by eexists.
    + rewrite lookup_insert_ne by done. by apply (F_open _ I e y).
  - intros d1 d2 y1 y2 b E1 E2 G1 G2.
    destruct (B _ _ _ E1 G1) as [[-> ->]|(N1 & N1' & E1')], (B _ _ _ E2 G2) as [[-> Hb]|(N2 & N2' & E2')]; [done..|].
    by apply (F_one _ I d1 d2 y1 y2 b).
Qed.

Lemma InFlight_cancel d why t : InFlight t -> InFlight (cancelSeries d why t).2.
Proof.
  intros I. destruct (cancel_cases d why t) as [[-> _]|(x & y & E & _ & _ & Fy & _ & H)]; [done|].
  assert (forall e z, <[d := y]> (t_heap t) !! e = Some z -> d_inFlight z <> None -> e <> d /\ t_heap t !! e = Some z) as B.
  { intros e z. destruct (decide (e = d)) as [->|N]; [rewrite lookup_insert_eq; intros [= <-]; congruence|].
    rewrite lookup_insert_ne by done. by split. }
  destruct (d_inFlight x) as [a|] eqn:F; rewrite H; cbn [snd].
  - set (g := fun k => _). destruct (upd_attempt_heap a g (with_heap (<[d := y]> (t_heap t)) t)) as [Hh Hn].
    constructor; rewrite ?Hh, ?Hn; cbn [t_heap t_nextId with_heap].
    + intros b Hb. rewrite lookup_upd_attempt in Hb. apply (F_fresh _ I). case_decide; [subst b|done].
      destruct Hb as [k Hk]. simpl in Hk. by destruct (t_attempts t !! a).
    + intros e z b E1 E2. destruct (B e z E1 ltac:(congruence)) as [N E3]. rewrite lookup_upd_attempt.
      case_decide as Hab; [|by apply (F_open _ I e z)]. subst b. exfalso. apply N. by apply (F_one _ I e d z x a).
    + intros d1 d2 z1 z2 b E1 E2 G1 G2. destruct (B _ _ E1 ltac:(congruence)) as [_ E1'], (B _ _ E2 ltac:(congruence)) as [_ E2'].
      by apply (F_one _ I d1 d2 z1 z2 b).
  - apply (InFlight_shrinks t); [|done|done]. split; [done|]. intros e z b E1 E2.
    destruct (B e z E1 ltac:(congruence)) as [_ E3]. by exists z.
Qed.

Lemma InFlight_step o t : InFlight t -> InFlight (step o t).
Proof.
  intros I. destruct (bridge o) eqn:B; [|apply (InFlight_shrinks t); [by apply step_shrinks|by apply step_attempts|done]].
  destruct o; try discriminate; cbn [step].
  - by apply InFlight_track.
  - rewrite markSent_eq. cbn [snd]. set (g := fun k => _). destruct (upd_attempt_heap a g t) as [Hh Hn].
    constructor; rewrite ?Hh, ?Hn.
    + intros b Hb. rewrite lookup_upd_attempt in Hb. apply (F_fresh _ I). case_decide; [subst b|done].
      destruct Hb as [k Hk]. by destruct (t_attempts t !! a).
    + intros e z b E1 E2. destruct (F_open _ I e z b E1 E2) as (k & Hk & C). rewrite lookup_upd_attempt.
      case_decide; [|by exists k]. subst b. rewrite Hk. by eexists.
    + apply I.
  - apply (InFlight_shrinks t); [|unfold untrack; apply upd_attempts|done]. unfold untrack, upd.
    destruct (t_heap t !! d) as [x|] eqn:E; (split; [done|]); intros e y b; [|by exists y]. simpl.
    destruct (decide (e = d)) as [->|N]; [rewrite lookup_insert_eq; by intros [= <-]|]. rewrite lookup_insert_ne by done. by exists y.
  - by apply InFlight_cancel.
Qed.

Lemma trace_InFlight os t : trace os t -> InFlight t.
Proof.
  induction 1; [|by apply InFlight_step]. constructor; simpl.
  - intros a [k H]. by rewrite lookup_empty in H.
  - intros d x a H. by rewrite lookup_empty in H.
  - intros d1 d2 x1 x2 a H. by rewrite lookup_empty in H.
Qed.

(** C30: The CANCEL of an INVITE the proxy forwarded goes out exactly once:
    when its series was given up and the INVITE is on the wire, whichever came
    first, and never otherwise. *)
Theorem cancel_is_sent_once os t a : trace os t ->
  count_occ Nat.eq_dec (cancels_of os newDialogTable) a =
  match t_attempts t !! a with Some k => b2n (a_sent k && a_cancelled k) | None => 0%nat end.
Proof.
  induction 1 as [|os t o T IH A]; [simpl; by rewrite lookup_empty|].
  rewrite cancels_of_app, count_occ_app, <- (trace_is_run _ _ T), IH. cbn [cancels_of]. rewrite app_nil_r. clear IH.
  pose proof (trace_InFlight _ _ T) as I.
  destruct (bridge o) eqn:B.
  2: { rewrite step_attempts by done. destruct o; try discriminate; simpl; lia. }
  destruct o; try discriminate; cbn [step cancels].
  - destruct (track_cases d req t) as [->|(x & t' & E & -> & _ & _ & Ha)]; cbn [snd]; [simpl; lia|]. rewrite Ha. simpl.
    destruct (decide (a = t_nextId t)) as [->|N]; [|rewrite lookup_insert_ne by done; lia].
    rewrite lookup_insert_eq. destruct (t_attempts t !! t_nextId t) eqn:E'; [|done].
    pose proof (F_fresh _ I _ (ex_intro _ _ E')). lia.
  - rewrite markSent_eq. cbn [fst snd]. rewrite lookup_upd_attempt. simpl in A.
    destruct (t_attempts t !! a0) as [k|] eqn:E.
    + specialize (A k eq_refl). simpl. case_decide as N.
      * subst a0. rewrite E. simpl. rewrite A. destruct (a_cancelled k); simpl; [by destruct (Nat.eq_dec a a)|done].
      * destruct (a_cancelled k); simpl; [destruct (Nat.eq_dec a0 a); [done|lia]|lia].
    + simpl. case_decide as N; [subst a0; rewrite E; done|lia].
  - unfold untrack. rewrite upd_attempts. simpl. lia.
  - destruct (cancel_cases d why t) as [[-> _]|(x & y & E & _ & _ & _ & _ & H)]; [simpl; lia|].
    destruct (d_inFlight x) as [b|] eqn:F; rewrite H; cbn [snd]; [|simpl; lia].
    destruct (F_open _ I d x b E F) as (k & Hk & C). rewrite Hk, lookup_upd_attempt.
    cbn [t_attempts with_heap]. rewrite Hk. simpl. case_decide as N.
    + subst b. rewrite Hk, C, andb_false_r, andb_true_r. simpl. destruct (a_sent k); simpl; [by destruct (Nat.eq_dec a a)|done].
    + destruct (a_sent k); simpl; [destruct (Nat.eq_dec b a); [done|lia]|lia].
Qed.

(** *** A cancelled call *)

Definition stillborn (t : dialogTable) (d : nat) : Prop :=
  exists x, t_heap t !! d = Some x /\ d_cancelled x = true /\ is_confirmed x = false.

Lemma same_stillborn t t' d : same hushed t t' -> stillborn t d -> stillborn t' d.
Proof.
  intros Q (x & E & C & N). destruct (same_forth _ _ _ _ _ Q E) as (y & E' & K). exists y. split; [done|].
  injection K as KS KC. unfold is_confirmed in *. rewrite KS, KC. done.
Qed.

Lemma stillborn_insert t d e y : stillborn t d -> (e = d -> d_cancelled y = true /\ is_confirmed y = false) ->
  forall h, h = <[e := y]> (t_heap t) -> exists x, h !! d = Some x /\ d_cancelled x = true /\ is_confirmed x = false.
Proof.
  intros (x & E & C & N) H h ->. destruct (decide (e = d)) as [->|NE].
  - rewrite lookup_insert_eq. exists y. split; [done|]. by apply H.
  - rewrite lookup_insert_ne by done. by exists x.
Qed.

Lemma stillborn_step o t d : Inv t -> stillborn t d -> stillborn (step o t) d.
Proof.
  intros I S. pose proof S as (x & E & C & N). destruct (life o) eqn:L.
  - destruct o; try discriminate; cbn [step].
    + destruct (begin_cases now hs callerPlane limit t) as [(r & -> & _)|(t' & -> & _ & _ & _ & ->)]; [done|].
      unfold stillborn. simpl. eapply stillborn_insert; [exact S| |reflexivity]. intros HD.
      pose proof (I_fresh _ I _ (ex_intro _ _ E)). lia.
    + done.
    + unfold attach. destruct (t_heap t !! d0) as [y|] eqn:E'; [|done]. destruct (_ || _); [done|]. simpl.
      apply (same_stillborn t); [|done]. by apply same_upd; [apply same_refl|].
    + destruct (end_cases d0 reason t) as [[-> _]|(y & z & t' & E' & _ & -> & HS & _ & _ & _ & _ & HC & Hh & _)]; [done|].
      unfold stillborn. cbn [snd]. rewrite Hh. eapply stillborn_insert; [exact S| |reflexivity]. intros ->.
      split; [congruence|]. unfold is_confirmed. by rewrite HS.
    + unfold stillborn. rewrite (proj1 (end_rest_heap e t)).
      assert (stillborn (release_hook (e_dialog e) t) d) as H; [|exact H].
      apply (same_stillborn t); [|done]. by apply same_upd; [apply same_refl|].
    + destruct (confirm_cases now d0 calleeTag r t) as [->|(y & z & m & E' & _ & HC & _ & -> & _)]; [done|].
      unfold stillborn. simpl. eapply stillborn_insert; [exact S| |reflexivity]. intros ->. congruence.
  - destruct (bridge o) eqn:B.
    + destruct (match o with OCancel _ _ => true | _ => false end) eqn:BC.
      * destruct o; try discriminate. cbn [step]. destruct (cancel_cases d0 why t) as [[-> _]|(y & z & E' & K & HC & _ & _ & H)]; [done|].
        assert (exists x, <[d0 := z]> (t_heap t) !! d = Some x /\ d_cancelled x = true /\ is_confirmed x = false) as G.
        { eapply stillborn_insert; [exact S| |reflexivity]. intros ->. split; [done|].
          destruct (core_eq _ _ K) as (_ & _ & KS & _). unfold is_confirmed in *. rewrite KS. rewrite E in E'. by injection E' as ->. }
        destruct (d_inFlight y); rewrite H; unfold stillborn; cbn [snd]; rewrite ?(proj1 (upd_attempt_heap _ _ _)); exact G.
      * apply (same_stillborn t); [|done]. apply step_hushed; [done|]. intros e why Ho. by rewrite Ho in BC.
    + apply (same_stillborn t); [|done]. apply (same_weaken wide); [unfold wide, core, hushed; congruence|by apply step_wide].
Qed.

Lemma stillborn_run os t d os0 : trace os0 t -> legal os t = true -> stillborn t d -> stillborn (run os t) d.
Proof.
  revert os0 t. induction os as [|o os IH]; intros os0 t T; simpl; [done|]. intros [A L]%andb_true_iff S.
  apply bool_decide_eq_true_1 in A. apply (IH (os0 ++ [o])); [by constructor|done|].
  apply stillborn_step; [by eapply trace_Inv|done].
Qed.

(** Once the caller's CANCEL, or the INVITE's own deadline, has given up on
    a call that is not up, no later 2xx confirms it, whatever else happens. *)
Theorem cancelled_call_never_connects os1 os2 t d why x : trace os1 t -> t_heap t !! d = Some x -> is_early x = true ->
  why <> cancelOrphan \/ d_inFlight x <> None ->
  let t' := (cancelSeries d why t).2 in legal os2 t' = true ->
  (forall now tag r, (confirm now d tag r (run os2 t')).1 = false) /\ up_at (run os2 t') d = false.
Proof.
  intros T E L W t' G.
  assert (stillborn t' d) as S.
  { unfold t'. destruct (cancel_cases d why t) as [[_ H]|(x' & y & E' & K & C & _ & _ & H)].
    - exfalso. destruct (H x E) as [-> F]. by destruct W.
    - assert (is_confirmed y = false) as N.
      { destruct (core_eq _ _ K) as (_ & _ & KS & _). unfold is_early, is_confirmed in *. rewrite KS. replace x' with x by congruence. by destruct (d_state x). }
      destruct (d_inFlight x'); rewrite H; unfold stillborn; cbn [snd]; rewrite ?(proj1 (upd_attempt_heap _ _ _));
        simpl; rewrite lookup_insert_eq; by exists y. }
  assert (stillborn (run os2 t') d) as (y & Ey & Cy & Ny).
  { apply (stillborn_run os2 t' d (os1 ++ [OCancel d why])); [by apply (trace_step os1 t (OCancel d why))|done..]. }
  split; [|unfold up_at; by rewrite Ey]. intros now tag r. unfold confirm. rewrite Ey, Cy, orb_true_r. done.
Qed.

(** *** Accounts *)

(** C24: However the handlers interleave, the table's books agree: the records
    it lists are the calls that have not ended, each once, under their own
    Call-ID; the session count is their number, at most the cap; no two early
    records share Call-ID and caller tag; and every call counted as started is
    up, is being torn down, or has been counted as ended, exactly once. *)
Theorem calls_are_accounted os t L : trace os t ->
  (forall now hs p limit, OBegin now hs p limit ∈ os -> 0 < limit <= L) -> 0 <= L ->
  NoDup (all_records t) /\
  (forall d, d ∈ all_records t <-> exists x, t_heap t !! d = Some x /\ is_ended x = false) /\
  (forall c d, d ∈ records t c <-> exists x, t_heap t !! d = Some x /\ d_callID x = c /\ is_ended x = false) /\
  sessionCount t = len (all_records t) /\ sessionCount t <= L /\
  (forall d1 d2 x1 x2, t_heap t !! d1 = Some x1 -> t_heap t !! d2 = Some x2 -> is_early x1 = true -> is_early x2 = true ->
     d_callID x1 = d_callID x2 -> d_callerTag x1 = d_callerTag x2 -> d1 = d2) /\
  t_started t = count t + len (List.filter e_up (t_pending t)) + len (t_ended t) /\
  NoDup (map fst (t_ended t)).
Proof.
  intros T CL HL. pose proof (trace_Inv _ _ T) as I.
  assert (forall x, live x = true <-> is_ended x = false) as LE by (intros x; unfold live; by destruct (is_ended x)).
  split; [by apply all_records_NoDup|].
  split; [intros d; rewrite all_records_live by done; by setoid_rewrite LE|].
  split; [intros c d; rewrite (I_records _ I); by setoid_rewrite LE|].
  assert (sessionCount t = len (all_records t)) as S.
  { unfold sessionCount, len. rewrite (I_sessions _ I), <- (count_records live t I) by done. f_equal.
    rewrite List.forallb_filter_id; [done|]. apply forallb_forall.
    intros d D. apply list_elem_of_In, all_records_live in D as (x & -> & ?); done. }
  split; [done|]. split.
  - clear S I LE. induction T as [|os t o T IH A]; [done|].
    assert (sessionCount t <= L) as IH' by (apply IH; intros; eapply CL, elem_of_app; by left). clear IH.
    pose proof (trace_Inv _ _ T) as I.
    destruct (life o) eqn:HO; [|unfold sessionCount; by rewrite (q_sessions _ _ _ (step_quiet o t HO))].
    unfold sessionCount in *. destruct o; try discriminate; cbn [step].
    + destruct (begin_cases now hs callerPlane limit t) as [(r & -> & _)|(t' & -> & _ & B & _ & ->)]; [done|]. simpl.
      assert (0 < limit <= L) as K by (eapply CL, elem_of_app; right; by left). lia.
    + done.
    + unfold attach. destruct (t_heap t !! d) as [x|] eqn:E; [|done]. destruct (_ || _); [done|]. simpl. unfold upd. by rewrite E.
    + destruct (end_cases d reason t) as [[-> _]|(x & y & t' & _ & _ & -> & _ & _ & _ & _ & _ & _ & _ & _ & Hs & _)]; [done|].
      simpl. rewrite Hs. lia.
    + rewrite end_rest_settled by done. simpl. unfold release_hook, upd. by destruct (t_heap t !! e_dialog e).
    + destruct (confirm_cases now d calleeTag r t) as [->|(x & y & m & _ & _ & _ & _ & -> & _)]; done.
  - split; [apply I|]. split.
    + rewrite (I_started _ I). unfold count, len, up_at. rewrite (count_records is_confirmed t I confirmed_live). lia.
    + pose proof (I_once _ I) as O. by apply NoDup_app in O as (_ & _ & O).
Qed.

(** *** Finding the call of a request *)

Lemma first_record_complete {A} (f : nat -> dialog -> option A) t ds d x :
  d ∈ ds -> t_heap t !! d = Some x -> f d x <> None -> exists a, first_record f t ds = Some a.
Proof.
  intros D E F. destruct (first_record f t ds) as [a|] eqn:G; [by exists a|]. exfalso.
  by apply F, (first_record_None _ _ _ G).
Qed.

(** The record [e] carries the two tags, in this order or the other. *)
Definition carries (x : dialog) (fromTag toTag : gostring) : Prop :=
  (fromTag = d_callerTag x /\ toTag = d_calleeTag x) \/ (fromTag = d_calleeTag x /\ toTag = d_callerTag x).

Lemma lookup_sound t c fromTag toTag d b : Inv t -> lookup_ c fromTag toTag t = Some (d, b) ->
  fromTag <> [] /\ toTag <> [] /\ exists x, t_heap t !! d = Some x /\ is_confirmed x = true /\ d_callID x = c /\
    (if b then fromTag = d_callerTag x /\ toTag = d_calleeTag x
     else fromTag = d_calleeTag x /\ toTag = d_callerTag x /\ ~ (fromTag = d_callerTag x /\ toTag = d_calleeTag x)).
Proof.
  intros I. unfold lookup_. case_bool_decide as E1; [done|]. case_bool_decide as E2; [done|]. simpl. intros F.
  split; [done|]. split; [done|]. apply first_record_Some in F as (e & x & R & E & F).
  destruct (is_confirmed x) eqn:C; simpl in F; [|done].
  apply (I_records _ I) in R as (y & E' & HC & _). rewrite E in E'. injection E' as <-.
  destruct (beq fromTag (d_callerTag x) && beq toTag (d_calleeTag x)) eqn:M1.
  - injection F as -> <-. exists x. apply andb_true_iff in M1 as [M1 M2]. apply beq_eq in M1, M2. by repeat split.
  - destruct (beq fromTag (d_calleeTag x) && beq toTag (d_callerTag x)) eqn:M2; [|done]. injection F as -> <-.
    apply andb_true_iff in M2 as [M2 M3]. apply beq_eq in M2, M3. exists x. repeat split; try done.
    intros [-> ->]. by rewrite !beq_refl in M1.
Qed.

Lemma lookup_complete t c fromTag toTag d x : Inv t -> fromTag <> [] -> toTag <> [] ->
  t_heap t !! d = Some x -> is_confirmed x = true -> d_callID x = c -> carries x fromTag toTag ->
  exists e b, lookup_ c fromTag toTag t = Some (e, b).
Proof.
  intros I NF NT E C HC M. unfold lookup_. rewrite !bool_decide_eq_false_2 by done. cbn [orb].
  edestruct (first_record_complete (A := nat * bool)) as [[e b] H]; [| exact E | | exists e, b; exact H].
  - apply (I_records _ I). exists x. split; [done|]. split; [done|]. by apply confirmed_live.
  - simpl. rewrite C. simpl. destruct M as [[-> ->]|[-> ->]]; rewrite !beq_refl; simpl; [done|]. by case_match.
Qed.

(** An in-dialog request is given a confirmed call only when it carries
    that call's Call-ID and both its tags; and from the moment [confirm]
    succeeds, before the 2xx is relayed, a request with those identifiers finds
    a call, from either side, and this very call when no other is up under
    them, the caller's requests told from the callee's. *)
Theorem requests_find_their_call os t callID fromTag toTag : trace os t ->
  (forall d fromCaller, lookup_ callID fromTag toTag t = Some (d, fromCaller) ->
     exists x, t_heap t !! d = Some x /\ is_confirmed x = true /\ d_callID x = callID /\ fromTag <> [] /\ toTag <> [] /\
       (if fromCaller then fromTag = d_callerTag x /\ toTag = d_calleeTag x
        else fromTag = d_calleeTag x /\ toTag = d_callerTag x)) /\
  (forall now d r x, t_heap t !! d = Some x -> d_callID x = callID -> d_callerTag x = fromTag ->
     fromTag <> [] -> toTag <> [] -> (confirm now d toTag r t).1 = true ->
     let t' := (confirm now d toTag r t).2 in
     (exists e b, lookup_ callID fromTag toTag t' = Some (e, b)) /\
     (exists e b, lookup_ callID toTag fromTag t' = Some (e, b)) /\
     ((forall e z, t_heap t' !! e = Some z -> is_confirmed z = true -> d_callID z = callID -> carries z fromTag toTag -> e = d) ->
      lookup_ callID fromTag toTag t' = Some (d, true) /\
      lookup_ callID toTag fromTag t' = Some (d, bool_decide (toTag = fromTag)))).
Proof.
  intros T. pose proof (trace_Inv _ _ T) as I. split.
  - intros d b H. destruct (lookup_sound _ _ _ _ _ _ I H) as (NF & NT & x & E & C & HC & M). exists x.
    destruct b; repeat split; tauto.
  - intros now d r x E HC HT NF NT K.
    pose proof (Inv_confirm now d toTag r t I) as I'.
    destruct (confirm_cases now d toTag r t) as [H|(x0 & y & m & E0 & _ & _ & _ & H & C & Tg & Te & S & _)]; [by rewrite H in K|].
    rewrite H in *. cbn [snd fst] in *. clear K. rewrite E in E0. injection E0 as <-.
    set (t' := with_started _ _) in *.
    assert (t_heap t' !! d = Some y) as E' by (unfold t'; simpl; by rewrite lookup_insert_eq).
    assert (is_confirmed y = true) as Y by (unfold is_confirmed; by rewrite S).
    assert (carries y fromTag toTag) as M1 by (left; split; congruence).
    assert (carries y toTag fromTag) as M2 by (right; split; congruence).
    assert (d_callID y = callID) as CI by congruence.
    destruct (lookup_complete _ _ _ _ _ _ I' NF NT E' Y CI M1) as (e1 & b1 & L1).
    destruct (lookup_complete _ _ _ _ _ _ I' NT NF E' Y CI M2) as (e2 & b2 & L2).
    split; [by exists e1, b1|]. split; [by exists e2, b2|]. intros U. rewrite L1, L2.
    destruct (lookup_sound _ _ _ _ _ _ I' L1) as (_ & _ & z1 & F1 & C1 & D1 & B1).
    destruct (lookup_sound _ _ _ _ _ _ I' L2) as (_ & _ & z2 & F2 & C2 & D2 & B2).
    assert (e1 = d) as -> by (apply (U e1 z1); try done; unfold carries; destruct b1; tauto).
    assert (e2 = d) as -> by (apply (U e2 z2); try done; unfold carries; destruct b2; tauto).
    assert (z1 = y) as -> by congruence. assert (z2 = y) as -> by congruence. subst callID fromTag. rewrite Tg, Te in *.
    split.
    + f_equal. f_equal. destruct b1; [done|]. exfalso. tauto.
    + f_equal. f_equal. destruct b2; symmetry.
      * apply bool_decide_eq_true_2. tauto.
      * apply bool_decide_eq_false_2. intros HE. rewrite HE in *. tauto.
Qed.

(** *** Shutdown *)

Lemma end_whole d r t : Inv t -> let t' := (end_ d r t).2 in
  Inv t' /\ t_closed t' = t_closed t /\ t_nextId t' = t_nextId t /\
  (forall e x, t_heap t !! e = Some x -> exists y, t_heap t' !! e = Some y /\ d_media y = d_media x /\
     (live y = true -> live x = true /\ e <> d)) /\
  (forall e, is_Some (t_heap t' !! e) -> is_Some (t_heap t !! e)) /\
  (forall e, e ∈ t_pending t' -> e ∈ t_pending t).
Proof.
  intros I. unfold end_. destruct (end_cases d r t) as [[-> H]|(x & y & t1 & E & L & H & S & M & _ & _ & _ & _ & Hh & _ & _ & Hp & _ & _ & _ & Hn & Hc & _)]; cbn [snd].
  - split; [done|]. do 2 (split; [done|]). split; [|by split].
    intros e x E. exists x. split; [done|]. split; [done|]. intros L. split; [done|]. intros ->. specialize (H x E). congruence.
  - pose proof (Inv_end d r t I) as I1. rewrite H in *. cbn [snd] in I1. set (e := mkEnding _ _ _ _) in *.
    assert (e ∈ t_pending t1) as P by (rewrite Hp; apply elem_of_app; right; by left).
    split; [by apply Inv_end_rest|]. rewrite end_rest_settled by done.
    set (t2 := release_hook (e_dialog e) t1).
    assert (same (fun z => (live z, d_media z)) t1 t2) as Q by (apply same_upd; [apply same_refl|done]).
    change (t_closed (settled e t2)) with (t_closed t2). change (t_nextId (settled e t2)) with (t_nextId t2).
    change (t_heap (settled e t2)) with (t_heap t2). change (t_pending (settled e t2)) with (remove_ending e (t_pending t2)).
    split; [rewrite (q_closed _ _ _ Q); done|].
    split. { unfold t2, release_hook, upd. destruct (t_heap t1 !! e_dialog e); simpl; done. }
    split; [|split].
    + intros f z F. assert (exists z1, t_heap t1 !! f = Some z1 /\ d_media z1 = d_media z /\ (live z1 = true -> live z = true /\ f <> d)) as (z1 & F1 & M1 & L1).
      { rewrite Hh. destruct (decide (f = d)) as [->|N].
        - rewrite lookup_insert_eq. exists y. split; [done|]. split; [congruence|]. unfold live, is_ended. by rewrite S.
        - rewrite lookup_insert_ne by done. by exists z. }
      destruct (same_forth _ _ _ _ _ Q F1) as (z2 & F2 & K). injection K as K1 K2. exists z2. split; [done|].
      split; [congruence|]. rewrite K1. done.
    + intros f [z F]. destruct (same_back _ _ _ _ _ Q F) as (z1 & F1 & _). rewrite Hh in F1.
      destruct (decide (f = d)) as [->|N]; [by exists x|]. rewrite lookup_insert_ne in F1 by done. by exists z1.
    + rewrite (q_pending _ _ _ Q), Hp. intros f F.
      assert (Permutation (t_pending t ++ [e]) (e :: remove_ending e (t_pending t ++ [e]))) as PP by (apply remove_ending_perm; apply elem_of_app; right; by left).
      rewrite <- Permutation_cons_append in PP at 1. apply Permutation_cons_inv in PP. by rewrite PP.
Qed.

Lemma end_all ds t : Inv t -> let t' := fold_left (fun t d => (end_ d endShutdown t).2) ds t in
  Inv t' /\ t_closed t' = t_closed t /\
  (forall e x, t_heap t !! e = Some x -> exists y, t_heap t' !! e = Some y /\ d_media y = d_media x /\
     (live y = true -> live x = true /\ e ∉ ds)) /\
  (forall e, is_Some (t_heap t' !! e) -> is_Some (t_heap t !! e)) /\
  (forall e, e ∈ t_pending t' -> e ∈ t_pending t).
Proof.
  revert t. induction ds as [|d ds IH]; intros t I; cbn [fold_left].
  - split; [done|]. split; [done|]. split; [|by split]. intros e x E. exists x. split; [done|]. split; [done|].
    intros L. split; [done|]. by intros []%elem_of_nil.
  - destruct (end_whole d endShutdown t I) as (I1 & C1 & _ & H1 & S1 & P1). destruct (IH _ I1) as (I2 & C2 & H2 & S2 & P2).
    split; [done|]. split; [congruence|]. split; [|split; auto].
    intros e x E. destruct (H1 e x E) as (y & Ey & My & Ly), (H2 e y Ey) as (z & Ez & Mz & Lz).
    exists z. split; [done|]. split; [congruence|]. intros L. destruct (Lz L) as [L' N]. destruct (Ly L') as [L'' N'].
    split; [done|]. rewrite elem_of_cons. tauto.
Qed.

(** Shutdown leaves nothing behind: after [close] and [closeAll] the table
    lists no call and holds no session slot, every media session a call had is
    closed (or is being closed by an [endBy] already under way), and no call
    opens and no session is attached from then on. *)
Theorem shutdown_leaves_nothing os t : trace os t -> let t' := closeAll (close t) in
  all_records t' = [] /\ t_byCallID t' = ∅ /\ sessionCount t' = 0 /\ count t' = 0 /\
  (forall d x m, t_heap t' !! d = Some x -> d_media x = Some m ->
     m ∈ t_closedMedia t' \/ exists e, e ∈ t_pending t /\ e_dialog e = d /\ e_sess e = Some m) /\
  (forall now hs p limit, begin_ now hs p limit t' = (beginClosed, t')) /\
  (forall d m, (attach d m t').1 = false /\ m ∈ t_closedMedia (attach d m t').2).
Proof.
  intros T. pose proof (Inv_close t (trace_Inv _ _ T)) as I0. intros t'.
  destruct (end_all (all_records (close t)) (close t) I0) as (I & C & H & S & P). fold (closeAll (close t)) in I, C, H, S, P. fold t' in I, C, H, S, P.
  assert (forall d x, t_heap t' !! d = Some x -> live x = false) as D.
  { intros d x E. destruct (S d (ex_intro _ _ E)) as [x0 E0]. destruct (H d x0 E0) as (y & E' & _ & L).
    rewrite E in E'. injection E' as <-. destruct (live x); [|done]. destruct (L eq_refl) as [L0 N]. exfalso. apply N.
    apply all_records_live; [done|]. by exists x0. }
  assert (forall d, d ∉ all_records t') as AR.
  { intros d HD. apply all_records_live in HD as (x & E & L); [|done]. rewrite (D d x E) in L. done. }
  assert (all_records t' = []) as A by (destruct (all_records t') as [|d ds]; [done|]; destruct (AR d); by left).
  assert (t_closed t' = true) as CL by (by rewrite C).
  split; [done|]. split.
  { apply map_eq. intros c. rewrite lookup_empty. destruct (t_byCallID t' !! c) as [ds|] eqn:E; [|done].
    destruct ds as [|d ds]; [by destruct (I_nonempty _ I c)|]. exfalso. apply (AR d).
    apply all_records_live; [done|]. assert (d ∈ records t' c) as R by (unfold records; rewrite E; by left).
    apply (I_records _ I) in R as (x & ? & _ & ?). by exists x. }
  split. { unfold sessionCount. rewrite (I_sessions _ I), <- (count_records live t' I) by done. by rewrite A. }
  split. { unfold count. by rewrite A. }
  split.
  { intros d x m E M. destruct (I_media _ I d x m E (D d x E) M) as [K|(e & K & K')]; [by left|]. right.
    exists e. split; [by apply P in K|done]. }
  split. { intros. unfold begin_. by rewrite CL. }
  intros d m. unfold attach. rewrite CL. assert (m ∈ t_closedMedia (close_media m t')) as K by (simpl; apply elem_of_app; right; by left).
  destruct (t_heap t' !! d); by split.
Qed.

(** *** Offer slots *)

Definition slots_ok (x : dialog) : Prop :=
  0 <= d_updateOffers x <= 1 /\ 0 <= d_reInviteOffers x /\ ~ (0 < d_updateOffers x /\ 0 < d_reInviteOffers x).

Lemma slots_upd t d f : (forall e x, t_heap t !! e = Some x -> slots_ok x) ->
  (forall x, t_heap t !! d = Some x -> slots_ok (f x)) -> forall e x, t_heap (upd d f t) !! e = Some x -> slots_ok x.
Proof.
  intros H F e x. unfold upd. destruct (t_heap t !! d) as [y|] eqn:E; [|apply H]. simpl.
  destruct (decide (e = d)) as [->|N]; [rewrite lookup_insert_eq; intros [= <-]; by apply F|].
  rewrite lookup_insert_ne by done. apply H.
Qed.

Lemma slots_life o t : life o = true -> Inv t -> allowed o t -> (forall e x, t_heap t !! e = Some x -> slots_ok x) ->
  forall e x, t_heap (step o t) !! e = Some x -> slots_ok x.
Proof.
  intros L I A H. destruct o; try discriminate; cbn [step].
  - destruct (begin_cases now hs callerPlane limit t) as [(r & -> & _)|(t' & -> & _ & _ & _ & ->)]; [done|]. simpl.
    intros e x. destruct (decide (e = t_nextId t)) as [->|N]; [rewrite lookup_insert_eq; intros [= <-]; unfold slots_ok; simpl; lia|].
    rewrite lookup_insert_ne by done. apply H.
  - done.
  - unfold attach. destruct (t_heap t !! d) as [x|] eqn:E; [|done]. destruct (_ || _); [done|]. apply slots_upd; [done|]. intros y. apply H.
  - unfold end_locked. destruct (t_heap t !! d) as [x|] eqn:E; [|done]. destruct (is_ended x); [done|].
    assert (forall o t0, t_heap (stop o t0) = t_heap t0) as K by (by intros [i|] t0). cbn. rewrite !K.
    intros e y. destruct (decide (e = d)) as [->|N]; [rewrite lookup_insert_eq; intros [= <-]; apply (H d x E)|].
    rewrite lookup_insert_ne by done. apply H.
  - rewrite (proj1 (end_rest_heap e t)). apply slots_upd; [done|]. intros y. apply H.
  - unfold confirm. destruct (t_heap t !! d) as [x|] eqn:E; [|done]. destruct (_ || _); [done|]. simpl.
    intros e y. destruct (decide (e = d)) as [->|N]; [|rewrite lookup_insert_ne by done; apply H].
    rewrite lookup_insert_eq. intros [= <-]. unfold set_origin, slots_ok. destruct (d_callerPlane x); apply (H d x E).
Qed.

(** Offers never cross in a dialog the way RFC 3311 forbids: at most one
    UPDATE offer is outstanding, and none together with a re-INVITE offer. *)
Theorem offers_never_cross os t d x : trace os t -> t_heap t !! d = Some x -> slots_ok x.
Proof.
  intros T. revert d x. induction T as [|os t o T IH A]; [intros d x H; simpl in H; by rewrite lookup_empty in H|].
  destruct (life o) eqn:L; [by apply slots_life; [|eapply trace_Inv|..]|].
  destruct (slots o) eqn:S.
  - destruct o; try discriminate; cbn [step]; simpl in A.
    + unfold beginUpdateOffer. destruct (t_heap t !! d) as [y|] eqn:E; [|done]. destruct (_ || _) eqn:G; [done|].
      apply slots_upd; [done|]. intros z Hz. pose proof (IH d z Hz) as K. assert (y = z) as -> by congruence.
      apply orb_false_iff in G as [G _]. unfold slots_ok in *. simpl. lia.
    + apply slots_upd; [done|]. intros z Hz. pose proof (IH d z Hz) as K. unfold get in A. rewrite Hz in A. unfold slots_ok in *. simpl. lia.
    + unfold beginReInviteOffer. destruct (t_heap t !! d) as [y|] eqn:E; [|done]. destruct (_ || _) eqn:G; [done|].
      apply slots_upd; [done|]. intros z Hz. pose proof (IH d z Hz) as K. assert (y = z) as -> by congruence.
      apply orb_false_iff in G as [G _]. unfold slots_ok in *. simpl. lia.
    + apply slots_upd; [done|]. intros z Hz. pose proof (IH d z Hz) as K. unfold get in A. rewrite Hz in A. unfold slots_ok in *. simpl. lia.
    + unfold hook_endReInviteOffer. destruct (hook_dialog d t); [|done].
      apply slots_upd; [done|]. intros z Hz. pose proof (IH d z Hz) as K. unfold get in A. rewrite Hz in A. unfold slots_ok in *. simpl. lia.
  - intros d x E. destruct (same_back _ _ _ _ _ (step_offers o t L S) E) as (y & E' & K). specialize (IH d y E').
    unfold offers in K. injection K as K1 K2. unfold slots_ok. by rewrite K1, K2.
Qed.
End Promises.

(** *** A call that is forwarded, cancelled and torn down beside one that comes up *)

#[local] Existing Instance ListImpl.list_params.

Definition demo_uri (n : Z) : Uri := mkUri (str "bob") (str "10.0.0.1") n None false.
Definition demo_invite (call tag : gostring) : list header :=
  [HFrom (mkNameAddr (demo_uri 1) (Some [(str "tag", tag)])); HTo (mkNameAddr (demo_uri 2) None); HCallID call;
   HCSeq 1 (str "INVITE")].
Definition demo_request : request := mkRequest (str "INVITE") (demo_uri 2) [] None (mkMsg [] [] [] [] []).
Definition demo_route : dialogRoute := mkRoute (str "a:1") (str "b:2") (str "udp") (demo_uri 1) (demo_uri 2).

(** Call 0 comes up; call 1 is cancelled before its INVITE (attempt 2) is out. *)
Definition demo_ops : list op :=
  [OBegin 0 (demo_invite (str "c") (str "x")) planePublic 2; OBegin 0 (demo_invite (str "c") (str "y")) planePublic 2;
   OAttach 0 7; OAttach 1 8; OTrack 1 demo_request; OCancel 1 cancelByCaller; OMarkSent 2].

Definition demo_table : dialogTable := run demo_ops newDialogTable.

Lemma demo_trace : trace demo_ops demo_table.
Proof. apply legal_trace. vm_compute. reflexivity. Qed.

Lemma cancel_is_sent_once_witness : count_occ Nat.eq_dec (cancels_of demo_ops newDialogTable) 2%nat = 1%nat.
Proof. rewrite (cancel_is_sent_once demo_ops demo_table 2%nat demo_trace). vm_compute. reflexivity. Defined.

Lemma cancelled_call_never_connects_witness :
  (confirm 5 1 (str "z") demo_route (run [OMarkSent 2] (run (take 6 demo_ops) newDialogTable))).1 = false.
Proof.
  set (t := run (take 5 demo_ops) newDialogTable).
  assert (trace (take 5 demo_ops) t) as T by (apply legal_trace; vm_compute; reflexivity).
  refine (proj1 (cancelled_call_never_connects (take 5 demo_ops) [OMarkSent 2] t 1 cancelByCaller
            (default (new_dialog 0 [] planePublic) (t_heap t !! 1%nat)) T _ _ (or_introl _) _) 5 (str "z") demo_route).
  - vm_compute. reflexivity.
  - vm_compute. reflexivity.
  - discriminate.
  - vm_compute. reflexivity.
Defined.

Lemma calls_are_accounted_witness : sessionCount demo_table = len (all_records demo_table) /\ sessionCount demo_table <= 2.
Proof.
  destruct (calls_are_accounted demo_ops demo_table 2 demo_trace) as (_ & _ & _ & H1 & H2 & _); [|lia|by split].
  intros now hs p limit H. unfold demo_ops in H. rewrite !elem_of_cons in H.
  repeat destruct H as [[= -> -> -> ->]|H]; try lia; try discriminate. by apply elem_of_nil in H.
Defined.

Lemma requests_find_their_call_witness :
  lookup_ (str "c") (str "x") (str "z") (confirm 5 0 (str "z") demo_route demo_table).2 = Some (0%nat, true).
Proof.
  destruct (requests_find_their_call demo_ops demo_table (str "c") (str "x") (str "z") demo_trace) as [_ H].
  refine (proj1 (proj2 (proj2 (H 5 0%nat demo_route (default (new_dialog 0 [] planePublic) (t_heap demo_table !! 0%nat)) _ _ _ _ _ _)) _)).
  - vm_compute. reflexivity.
  - vm_compute. reflexivity.
  - vm_compute. reflexivity.
  - discriminate.
  - discriminate.
  - vm_compute. reflexivity.
  - intros e z E C _ _. destruct (decide (e = 0%nat)) as [->|N]; [done|]. exfalso.
    assert (map_Forall (fun e z => e <> 0%nat -> is_confirmed z = false)
              (t_heap (confirm 5 0 (str "z") demo_route demo_table).2)) as K.
    { apply (bool_decide_unpack _). vm_compute. exact I. }
    rewrite (K e z E N) in C. discriminate.
Defined.

Lemma shutdown_leaves_nothing_witness : count (closeAll (close demo_table)) = 0 /\ all_records (closeAll (close demo_table)) = [].
Proof.
  destruct (shutdown_leaves_nothing demo_ops demo_table demo_trace) as (H1 & _ & _ & H2 & _). by split.
Defined.

Lemma offers_never_cross_witness : slots_ok (default (new_dialog 0 [] planePublic) (t_heap demo_table !! 0%nat)).
Proof.
  apply (offers_never_cross demo_ops demo_table 0%nat _ demo_trace). vm_compute. reflexivity.
Defined.
