(* ===== verification/Subs.v ===== *)
(** The subscription table (internal/edge/subscribe.go, the table half).

    One record per SUBSCRIBE the proxy carried, on a heap since the handlers
    keep a pointer to it; the two indexes ([sb_byCallID], [sb_byToken]) hold
    the records that have not ended.  [subs_ok] is the invariant: the indexes
    are exactly the live records, the count is theirs, and both caps hold. *)

From S2P Require Import Prelude GoTime GoText SipMsg Topology Location Dialog.

Open Scope Z_scope.

Definition maxSubsPerBinding : Z := 32.
Definition maxSubscriptions : Z := defaultMaxBindings.
Definition subExpiryMargin : Z := 32 * second.
Definition subCapRetryAfter : Z := 30.
Definition subDefaultExpires : Z := hour.

Inductive subState := subPending | subActive.
#[export] Instance subState_eq_dec : EqDecision subState.
Proof. solve_decision. Defined.

Section Table.
Context `{SP : SipParams}.

Record subscription := mkSub {
  s_callID : gostring; s_subTag : gostring; s_notTag : gostring; s_event : gostring;
  s_subURI : Uri; s_notURI : Uri; s_token : gostring; s_subscriberPlane : plane;
  s_route : dialogRoute; s_deadline : Z; s_state : subState; s_ended : bool
}.

Record subTable := mkSubs {
  sb_heap : gmap nat subscription; sb_byCallID : gmap gostring (list nat); sb_byToken : gmap gostring (list nat);
  sb_total : Z; sb_max : Z; sb_maxPer : Z; sb_closed : bool; sb_next : nat
}.

Definition newSubTable : subTable := mkSubs ∅ ∅ ∅ 0 maxSubscriptions maxSubsPerBinding false 0.

(** Writing through a pointer to a record. *)
Definition sub_upd (i : nat) (f : subscription -> subscription) (t : subTable) : subTable :=
  mkSubs (alter f i (sb_heap t)) (sb_byCallID t) (sb_byToken t) (sb_total t) (sb_max t) (sb_maxPer t) (sb_closed t) (sb_next t).

Definition set_notTag v s := mkSub (s_callID s) (s_subTag s) v (s_event s) (s_subURI s) (s_notURI s) (s_token s) (s_subscriberPlane s)
  (s_route s) (s_deadline s) (s_state s) (s_ended s).
Definition set_sroute v s := mkSub (s_callID s) (s_subTag s) (s_notTag s) (s_event s) (s_subURI s) (s_notURI s) (s_token s) (s_subscriberPlane s)
  v (s_deadline s) (s_state s) (s_ended s).
Definition set_deadline v s := mkSub (s_callID s) (s_subTag s) (s_notTag s) (s_event s) (s_subURI s) (s_notURI s) (s_token s) (s_subscriberPlane s)
  (s_route s) v (s_state s) (s_ended s).
Definition set_sstate v s := mkSub (s_callID s) (s_subTag s) (s_notTag s) (s_event s) (s_subURI s) (s_notURI s) (s_token s) (s_subscriberPlane s)
  (s_route s) (s_deadline s) v (s_ended s).
Definition set_ended v s := mkSub (s_callID s) (s_subTag s) (s_notTag s) (s_event s) (s_subURI s) (s_notURI s) (s_token s) (s_subscriberPlane s)
  (s_route s) (s_deadline s) (s_state s) v.

Definition set_publicContact (u : Uri) (r : dialogRoute) : dialogRoute :=
  mkRoute (r_publicRemote r) (r_privateRemote r) (r_transport r) u (r_privateContact r).
Definition set_privateContact (u : Uri) (r : dialogRoute) : dialogRoute :=
  mkRoute (r_publicRemote r) (r_privateRemote r) (r_transport r) (r_publicContact r) u.
Definition set_publicRemote (a : gostring) (r : dialogRoute) : dialogRoute :=
  mkRoute a (r_privateRemote r) (r_transport r) (r_publicContact r) (r_privateContact r).

(** ** Operations *)

Inductive subBegin := subBeginOK (i : nat) | subBeginFull | subBeginPerBindingFull | subBeginClosed.

Definition sub_begin (callID subTag event token : gostring) (subscriber : plane) (route : dialogRoute) (subURI notURI : Uri) (now : Z)
    (t : subTable) : subBegin * subTable :=
  if sb_closed t then (subBeginClosed, t)
  else if sb_max t <=? sb_total t then (subBeginFull, t)
  else if sb_maxPer t <=? len (lookup_list token (sb_byToken t)) then (subBeginPerBindingFull, t)
  else
    let i := sb_next t in
    let sub := mkSub callID subTag [] event subURI notURI token subscriber route (time_add now (2 * subExpiryMargin)) subPending false in
    (subBeginOK i,
     mkSubs (<[i := sub]> (sb_heap t))
       (<[callID := lookup_list callID (sb_byCallID t) ++ [i]]> (sb_byCallID t))
       (<[token := lookup_list token (sb_byToken t) ++ [i]]> (sb_byToken t))
       (sb_total t + 1) (sb_max t) (sb_maxPer t) (sb_closed t) (S i)).

Definition sub_confirm (i : nat) (notTag : gostring) (notifierContact : Uri) (p : plane) (expires now : Z) (t : subTable) : bool * subTable :=
  match sb_heap t !! i with
  | Some s =>
      if s_ended s || bool_decide (notTag = []) then (false, t)
      else
        let r := if bool_decide (u_host notifierContact = []) then s_route s
                 else match p with
                      | planePublic => set_publicContact notifierContact (s_route s)
                      | planePrivate => set_privateContact notifierContact (s_route s)
                      end in
        (true, sub_upd i (fun s => set_deadline (time_add now (expires + subExpiryMargin))
                                     (set_sstate subActive (set_sroute r (set_notTag notTag s)))) t)
  | None => (false, t)
  end.

(** What a request with these tags is to one record. *)
Inductive subMatch := noMatch | fromSubscriber | fromNotifier | fromEarlyNotifier.

Definition method_notify : gostring := str "NOTIFY".
Definition method_subscribe : gostring := str "SUBSCRIBE".

Definition sub_match (fromTag toTag : gostring) (arrived : plane) (method : gostring) (c : subscription) : subMatch :=
  let same := bool_decide (arrived = s_subscriberPlane c) in
  match s_state c with
  | subActive =>
      if beq (s_subTag c) fromTag && beq (s_notTag c) toTag && same
      then if beq method method_notify then noMatch else fromSubscriber
      else if beq (s_notTag c) fromTag && beq (s_subTag c) toTag && negb same
      then if beq method method_subscribe then noMatch else fromNotifier
      else noMatch
  | subPending =>
      if beq (s_subTag c) toTag && negb same && (bool_decide (s_notTag c = []) || beq (s_notTag c) fromTag)
      then if beq method method_subscribe then noMatch else fromEarlyNotifier
      else noMatch
  end.

Fixpoint first_match (fromTag toTag : gostring) (arrived : plane) (method : gostring) (h : gmap nat subscription) (l : list nat)
    : option (nat * subscription * subMatch) :=
  match l with
  | [] => None
  | i :: l =>
      match h !! i with
      | Some c => match sub_match fromTag toTag arrived method c with
                  | noMatch => first_match fromTag toTag arrived method h l
                  | m => Some (i, c, m)
                  end
      | None => first_match fromTag toTag arrived method h l
      end
  end.

(** The record, a copy of it, and whether its subscriber sent the request. *)
Definition sub_lookup (callID fromTag toTag : gostring) (arrived : plane) (method : gostring) (t : subTable)
    : option (nat * subscription * bool) * subTable :=
  if bool_decide (fromTag = []) || bool_decide (toTag = []) then (None, t)
  else match first_match fromTag toTag arrived method (sb_heap t) (lookup_list callID (sb_byCallID t)) with
       | Some (i, c, fromEarlyNotifier) => (Some (i, set_notTag fromTag c, false), sub_upd i (set_notTag fromTag) t)
       | Some (i, c, m) => (Some (i, c, match m with fromSubscriber => true | _ => false end), t)
       | None => (None, t)
       end.

(** Writing to a record that has not ended. *)
Definition if_live (f : subscription -> subscription) (s : subscription) : subscription := if s_ended s then s else f s.

Definition notePublicRemote (i : nat) (src : gostring) (t : subTable) : subTable :=
  if bool_decide (src = []) then t else sub_upd i (if_live (fun s => set_sroute (set_publicRemote src (s_route s)) s)) t.

Definition learnContact (i : nat) (u : Uri) (t : subTable) : subTable :=
  if bool_decide (u_host u = []) then t
  else sub_upd i (if_live (fun s =>
    match s_subscriberPlane s with
    | planePublic =>
        if bool_decide (u_host (r_privateContact (s_route s)) = []) then set_sroute (set_privateContact u (s_route s)) s else s
    | planePrivate =>
        if bool_decide (u_host (r_publicContact (s_route s)) = []) then set_sroute (set_publicContact u (s_route s)) s else s
    end)) t.

Definition sub_refresh (i : nat) (expires now : Z) : subTable -> subTable :=
  sub_upd i (if_live (set_deadline (time_add now (expires + subExpiryMargin)))).

Definition sub_end (i : nat) (t : subTable) : subTable :=
  match sb_heap t !! i with
  | Some s =>
      if s_ended s then t
      else mkSubs (<[i := set_ended true s]> (sb_heap t))
             (store_list (s_callID s) (remove_first i (lookup_list (s_callID s) (sb_byCallID t))) (sb_byCallID t))
             (store_list (s_token s) (remove_first i (lookup_list (s_token s) (sb_byToken t))) (sb_byToken t))
             (sb_total t - 1) (sb_max t) (sb_maxPer t) (sb_closed t) (sb_next t)
  | None => t
  end.

Definition sub_ends (l : list nat) (t : subTable) : subTable := fold_left (fun t i => sub_end i t) l t.

Definition dropTokens (tokens : list gostring) (t : subTable) : subTable :=
  fold_left (fun t tok => sub_ends (lookup_list tok (sb_byToken t)) t) tokens t.

(** The records of every Call-ID, in whatever order the map gives. *)
Definition all_subs (t : subTable) : list nat := concat (map snd (map_to_list (sb_byCallID t))).

Definition past_deadline (now : Z) (t : subTable) (i : nat) : bool :=
  match sb_heap t !! i with Some s => negb (time_before now (s_deadline s)) | None => false end.

Definition sub_prune (now : Z) (t : subTable) : Z * subTable :=
  let l := List.filter (past_deadline now t) (all_subs t) in (len l, sub_ends l t).

Definition sub_close (t : subTable) : subTable :=
  mkSubs (sb_heap t) (sb_byCallID t) (sb_byToken t) (sb_total t) (sb_max t) (sb_maxPer t) true (sb_next t).
Definition sub_closeAll (t : subTable) : subTable := sub_ends (all_subs (sub_close t)) (sub_close t).
Definition sub_count (t : subTable) : Z := sb_total t.

(** Any operation of the table. *)
Inductive sub_op :=
  | SBegin (callID subTag event token : gostring) (subscriber : plane) (route : dialogRoute) (subURI notURI : Uri) (now : Z)
  | SConfirm (i : nat) (notTag : gostring) (contact : Uri) (p : plane) (expires now : Z)
  | SLookup (callID fromTag toTag : gostring) (arrived : plane) (method : gostring)
  | SNoteRemote (i : nat) (src : gostring)
  | SLearn (i : nat) (u : Uri)
  | SRefresh (i : nat) (expires now : Z)
  | SEnd (i : nat)
  | SDropTokens (tokens : list gostring)
  | SPrune (now : Z)
  | SClose
  | SCloseAll.

Definition sub_step (o : sub_op) (t : subTable) : subTable :=
  match o with
  | SBegin callID subTag event token p r su nu now => (sub_begin callID subTag event token p r su nu now t).2
  | SConfirm i tag u p e now => (sub_confirm i tag u p e now t).2
  | SLookup c f o p m => (sub_lookup c f o p m t).2
  | SNoteRemote i src => notePublicRemote i src t
  | SLearn i u => learnContact i u t
  | SRefresh i e now => sub_refresh i e now t
  | SEnd i => sub_end i t
  | SDropTokens l => dropTokens l t
  | SPrune now => (sub_prune now t).2
  | SClose => sub_close t
  | SCloseAll => sub_closeAll t
  end.

Definition sub_run (os : list sub_op) (t : subTable) : subTable := fold_left (fun t o => sub_step o t) os t.
End Table.

(** ** The invariant *)

Section TableProofs.
Context `{SP : SipParams}.
Implicit Types (t : subTable) (s : subscription).

(** The records that have not ended. *)
Definition live_subs t : gmap nat subscription := filter (fun kv : nat * subscription => s_ended kv.2 = false) (sb_heap t).

Record subs_ok t : Prop := {
  so_call : idx_ok s_callID (live_subs t) (sb_byCallID t);
  so_token : idx_ok s_token (live_subs t) (sb_byToken t);
  so_total : sb_total t = Z.of_nat (size (live_subs t));
  so_max : 0 <= sb_max t /\ sb_total t <= sb_max t;
  so_per : 0 <= sb_maxPer t /\ forall tok, len (lookup_list tok (sb_byToken t)) <= sb_maxPer t;
  so_next : forall i s, sb_heap t !! i = Some s -> (i < sb_next t)%nat
}.

Lemma live_Some t i s : live_subs t !! i = Some s <-> sb_heap t !! i = Some s /\ s_ended s = false.
Proof. apply map_lookup_filter_Some. Qed.

Lemma live_next t i : (forall j s, sb_heap t !! j = Some s -> (j < sb_next t)%nat) -> (sb_next t <= i)%nat -> live_subs t !! i = None.
Proof. intros N L. apply eq_None_not_Some. intros [s [H _]%live_Some]. specialize (N i s H). lia. Qed.

Lemma indexed_live t tok i : subs_ok t -> i ∈ lookup_list tok (sb_byToken t) <-> exists s, live_subs t !! i = Some s /\ s_token s = tok.
Proof. intros H. apply (so_token t H). Qed.

Lemma empty_subs_ok : subs_ok newSubTable.
Proof.
  assert (forall K `(Countable K) (key : subscription -> K), idx_ok key ∅ (∅ : gmap K (list nat))) as I.
  { intros K ? ? key. unfold lookup_list. split; [|split]; intros k; rewrite ?lookup_empty; cbn; [|constructor|done].
    intros i. rewrite lookup_empty. split; [by intros ?%elem_of_nil|by intros (? & ? & _)]. }
  assert (live_subs newSubTable = ∅) as E by done.
  split; cbn [sb_heap sb_byCallID sb_byToken sb_total sb_max sb_maxPer sb_next newSubTable]; rewrite ?E; try apply I; try done.
Qed.

(** Writing through a pointer, where the keys and the end stay. *)
Definition keeps_key (f : subscription -> subscription) : Prop := forall s, s_callID (f s) = s_callID s /\ s_token (f s) = s_token s /\ s_ended (f s) = s_ended s.

Lemma live_upd i f t : keeps_key f -> live_subs (sub_upd i f t) = alter f i (live_subs t).
Proof.
  intros K. apply map_eq. intros j. unfold live_subs. apply option_eq. intros s. cbn. rewrite map_lookup_filter_Some. destruct (decide (j = i)) as [->|N].
  - rewrite !lookup_alter_eq, !fmap_Some. cbn. split.
    + intros [(s0 & E & ->) L]. exists s0. split; [|done]. rewrite (proj2 (proj2 (K s0))) in L. by apply map_lookup_filter_Some.
    + intros (s0 & [E L]%map_lookup_filter_Some & ->). split; [by exists s0|]. by rewrite (proj2 (proj2 (K s0))).
  - rewrite !lookup_alter_ne by done. by rewrite map_lookup_filter_Some.
Qed.

Lemma idx_alter {K} `{Countable K} (key : subscription -> K) h m i f : (forall s, key (f s) = key s) -> idx_ok key h m -> idx_ok key (alter f i h) m.
Proof.
  intros E I. destruct (h !! i) as [s|] eqn:L; [|by rewrite alter_id by (intros ? ?; congruence)].
  replace (alter f i h) with (<[i := f s]> h); [by eapply idx_replace|]. apply map_eq. intros j. destruct (decide (j = i)) as [->|N].
  - by rewrite lookup_insert_eq, lookup_alter_eq, L.
  - by rewrite lookup_insert_ne, lookup_alter_ne.
Qed.

Lemma upd_ok i f t : keeps_key f -> subs_ok t -> subs_ok (sub_upd i f t).
Proof.
  intros K [C T N M P X]. split; rewrite ?(live_upd i f t K); cbn; try done.
  - apply idx_alter; [apply K|done].
  - apply idx_alter; [apply K|done].
  - rewrite N. f_equal. rewrite <- !(size_dom (D:=gset nat)). by rewrite dom_alter.
  - intros j s E. destruct (decide (j = i)) as [->|Ne].
    + rewrite lookup_alter_eq in E. apply fmap_Some in E as (s0 & E & _). by eapply X.
    + rewrite lookup_alter_ne in E by done. by eapply X.
Qed.

Lemma if_live_key f : keeps_key f -> keeps_key (if_live f).
Proof. intros K s. unfold if_live. destruct (s_ended s) eqn:E; [by rewrite E|]. rewrite <- E. apply K. Qed.

Lemma learn_key u : keeps_key (fun s => match s_subscriberPlane s with
  | planePublic => if bool_decide (u_host (r_privateContact (s_route s)) = []) then set_sroute (set_privateContact u (s_route s)) s else s
  | planePrivate => if bool_decide (u_host (r_publicContact (s_route s)) = []) then set_sroute (set_publicContact u (s_route s)) s else s end).
Proof. intros s. by destruct (s_subscriberPlane s); case_bool_decide. Qed.

Lemma end_live i t : subs_ok t -> live_subs (sub_end i t) = delete i (live_subs t).
Proof.
  intros H. unfold sub_end. destruct (sb_heap t !! i) as [s|] eqn:E.
  2: { symmetry. apply delete_id. apply eq_None_not_Some. intros [s [L _]%live_Some]. congruence. }
  destruct (s_ended s) eqn:D.
  { symmetry. apply delete_id. apply eq_None_not_Some. intros [s' [L L']%live_Some]. congruence. }
  unfold live_subs. cbn. rewrite map_filter_insert_False by (by cbn; destruct s). apply map_filter_delete.
Qed.

Lemma end_ok i t : subs_ok t -> subs_ok (sub_end i t).
Proof.
  intros H. pose proof (end_live i t H) as L. revert L. unfold sub_end. destruct (sb_heap t !! i) as [s|] eqn:E; [|done].
  destruct (s_ended s) eqn:D; [done|]. intros L. assert (live_subs t !! i = Some s) as Li by (by apply live_Some). destruct H as [C T N M P X].
  split; rewrite ?L; cbn.
  - by apply idx_remove.
  - by apply idx_remove.
  - rewrite N. rewrite map_size_delete_Some by (by eexists). assert (size (live_subs t) <> 0%nat); [|lia].
    intros Z%map_size_empty_inv. by rewrite Z in Li.
  - lia.
  - split; [lia|]. intros tok. apply lookup_list_len_store; [|apply P]. etrans; [apply remove_first_len|apply P].
  - intros j s' Ej. destruct (decide (j = i)) as [->|Ne]; [by eapply X|]. rewrite lookup_insert_ne in Ej by done. by eapply X.
Qed.

Lemma ends_ok l t : subs_ok t -> subs_ok (sub_ends l t) /\ live_subs (sub_ends l t) = filter (fun kv => kv.1 ∉ l) (live_subs t).
Proof.
  revert t. induction l as [|i l IH]; intros t H; cbn.
  - split; [done|]. symmetry. apply map_filter_id. intros j s _. by apply not_elem_of_nil.
  - destruct (IH _ (end_ok i t H)) as [O E]. split; [done|]. unfold sub_ends in *. rewrite E, end_live by done. apply map_eq. intros j. apply option_eq. intros s.
    rewrite !map_lookup_filter_Some, lookup_delete_Some. cbn. rewrite not_elem_of_cons. naive_solver.
Qed.

Lemma drop_ok toks t : subs_ok t -> subs_ok (dropTokens toks t) /\ live_subs (dropTokens toks t) = filter (fun kv => s_token kv.2 ∉ toks) (live_subs t).
Proof.
  revert t. induction toks as [|tok toks IH]; intros t H; cbn.
  - split; [done|]. symmetry. apply map_filter_id. intros j s _. by apply not_elem_of_nil.
  - destruct (ends_ok (lookup_list tok (sb_byToken t)) t H) as [O L]. destruct (IH _ O) as [O' L']. split; [done|]. unfold dropTokens in *. rewrite L', L.
    apply map_eq. intros j. apply option_eq. intros s. rewrite !map_lookup_filter_Some. cbn. rewrite not_elem_of_cons, indexed_live by done.
    split; [|naive_solver]. intros [[Lj Nj] N']. split; [done|]. split; [|done]. intros E. apply Nj. by exists s.
Qed.

Lemma begin_ok callID subTag event token p r su nu now t : subs_ok t -> subs_ok (sub_begin callID subTag event token p r su nu now t).2.
Proof.
  intros H. unfold sub_begin. destruct (sb_closed t); [done|]. destruct (sb_max t <=? _) eqn:M; [done|]. destruct (sb_maxPer t <=? _) eqn:P; [done|].
  apply Z.leb_gt in M, P. cbn [snd]. set (s := mkSub _ _ _ _ _ _ _ _ _ _ _ _). set (t' := mkSubs _ _ _ _ _ _ _ _).
  assert (live_subs t !! sb_next t = None) as Nn by (apply live_next; [apply (so_next t H)|lia]).
  assert (live_subs t' = <[sb_next t := s]> (live_subs t)) as L by (unfold live_subs; cbn; by rewrite map_filter_insert_True).
  destruct H as [C T N B Q X]. split; rewrite ?L; cbn.
  - by apply (idx_insert s_callID _ _ _ s).
  - by apply (idx_insert s_token _ _ _ s).
  - rewrite map_size_insert_None by done. lia.
  - lia.
  - split; [lia|]. intros tok. rewrite lookup_list_insert. case_decide as E; [|apply Q]. unfold len in *. rewrite length_app. cbn [length]. lia.
  - intros i s' E. destruct (decide (i = sb_next t)) as [->|Ne]; [lia|]. rewrite lookup_insert_ne in E by done. specialize (X i s' E). lia.
Qed.

Lemma confirm_ok i tag u p e now t : subs_ok t -> subs_ok (sub_confirm i tag u p e now t).2.
Proof. intros H. unfold sub_confirm. destruct (sb_heap t !! i) as [s|]; [|done]. destruct (_ || _); [done|]. by apply upd_ok. Qed.

Lemma lookup_cases callID fromTag toTag arrived method t : let r := sub_lookup callID fromTag toTag arrived method t in
  r.2 = t \/ exists i, r.2 = sub_upd i (set_notTag fromTag) t.
Proof.
  cbv zeta. unfold sub_lookup. destruct (_ || _); [by left|]. destruct (first_match _ _ _ _ _ _) as [[[i c] []]|]; [by left..| |by left]. right. by exists i.
Qed.

Lemma sub_step_ok o t : subs_ok t -> subs_ok (sub_step o t).
Proof.
  intros H. destruct o; cbn [sub_step].
  - by apply begin_ok.
  - by apply confirm_ok.
  - destruct (lookup_cases callID fromTag toTag arrived method t) as [->|[i ->]]; [done|by apply upd_ok].
  - unfold notePublicRemote. case_bool_decide; [done|]. by apply upd_ok, H; apply if_live_key.
  - unfold learnContact. case_bool_decide; [done|]. apply upd_ok; [|done]. apply if_live_key, learn_key.
  - unfold sub_refresh. apply upd_ok; [|done]. by apply if_live_key.
  - by apply end_ok.
  - by apply drop_ok.
  - by apply ends_ok.
  - by destruct H.
  - apply ends_ok. by destruct H.
Qed.

Lemma sub_run_ok os t : subs_ok t -> subs_ok (sub_run os t).
Proof. revert t. induction os as [|o os IH]; intros t H; [done|]. by apply IH, sub_step_ok. Qed.

Lemma first_match_spec f tg arrived m h l i c k : first_match f tg arrived m h l = Some (i, c, k) ->
  i ∈ l /\ h !! i = Some c /\ k = sub_match f tg arrived m c /\ k <> noMatch.
Proof.
  induction l as [|j l IH]; [done|]. cbn. intros E. assert (first_match f tg arrived m h l = Some (i, c, k) -> i ∈ j :: l /\ h !! i = Some c /\
    k = sub_match f tg arrived m c /\ k <> noMatch) as IH'.
  { intros E'. destruct (IH E') as (I & R). split; [by right|done]. }
  destruct (h !! j) as [s|] eqn:S; [|by apply IH']. destruct (sub_match f tg arrived m s) eqn:M; [by apply IH'|..];
    (injection E as <- <- <-; split; [by left|by rewrite M]).
Qed.

Lemma first_match_None f tg arrived m h l i c : first_match f tg arrived m h l = None -> i ∈ l -> h !! i = Some c -> sub_match f tg arrived m c = noMatch.
Proof.
  induction l as [|j l IH]; [by intros _ ?%elem_of_nil|]. cbn. intros E [->|I]%elem_of_cons H.
  - rewrite H in E. by destruct (sub_match f tg arrived m c).
  - destruct (h !! j) as [s|]; [|by apply IH]. destruct (sub_match f tg arrived m s); [by apply IH|done..].
Qed.

(** The end of a subscription a request comes from, by its tags, its plane and
    its method. *)
Definition from_subscriber (f tg : gostring) (arrived : plane) (m : gostring) (s : subscription) : Prop :=
  s_state s = subActive /\ s_subTag s = f /\ s_notTag s = tg /\ arrived = s_subscriberPlane s /\ m <> method_notify.
Definition from_notifier (f tg : gostring) (arrived : plane) (m : gostring) (s : subscription) : Prop :=
  s_subTag s = tg /\ arrived <> s_subscriberPlane s /\ m <> method_subscribe /\
  (s_notTag s = f \/ (s_state s = subPending /\ s_notTag s = [])).

Lemma match_subscriber f tg arrived m s : sub_match f tg arrived m s = fromSubscriber <-> from_subscriber f tg arrived m s.
Proof.
  unfold sub_match, from_subscriber. destruct (s_state s).
  - split; [|by intros []]. by repeat case_match.
  - destruct (beq (s_subTag s) f && beq (s_notTag s) tg && bool_decide (arrived = s_subscriberPlane s)) eqn:A.
    + apply andb_true_iff in A as [[A B]%andb_true_iff D]. apply beq_eq in A, B. apply bool_decide_eq_true in D.
      destruct (beq m method_notify) eqn:M; [apply beq_eq in M; naive_solver|]. split; [|done]. intros _. split_and!; try done. intros ->. by rewrite beq_refl in M.
    + split; [by repeat case_match|]. intros (_ & E1 & E2 & E3 & _). subst. by rewrite (beq_refl (s_subTag s)), (beq_refl (s_notTag s)), bool_decide_true in A.
Qed.

Lemma match_notifier f tg arrived m s : sub_match f tg arrived m s <> noMatch -> sub_match f tg arrived m s <> fromSubscriber -> from_notifier f tg arrived m s.
Proof.
  unfold sub_match, from_notifier. destruct (s_state s).
  - destruct (_ && _ && _) eqn:A; [|done]. apply andb_true_iff in A as [[A B]%andb_true_iff D]. apply beq_eq in A. apply negb_true_iff, bool_decide_eq_false in B.
    destruct (beq m method_subscribe) eqn:M; [done|]. intros _ _. split_and!; try done; [intros ->; by rewrite beq_refl in M|].
    apply orb_true_iff in D as [D%bool_decide_eq_true|D%beq_eq]; auto.
  - destruct (_ && _ && _); [by repeat case_match|]. destruct (_ && _ && _) eqn:A; [|done]. apply andb_true_iff in A as [[A B]%andb_true_iff D]. apply beq_eq in A, B.
    apply negb_true_iff, bool_decide_eq_false in D. destruct (beq m method_subscribe) eqn:M; [done|]. intros _ _. split_and!; auto. intros ->. by rewrite beq_refl in M.
Qed.

Lemma notifier_match f tg arrived m s : from_notifier f tg arrived m s -> sub_match f tg arrived m s <> noMatch.
Proof.
  intros (A & B & C & D). unfold sub_match. rewrite A. rewrite (bool_decide_false _ B), !andb_false_r. cbn.
  assert (beq m method_subscribe = false) as -> by (destruct (beq m method_subscribe) eqn:M; [by apply beq_eq in M|done]).
  destruct (s_state s); rewrite beq_refl; cbn.
  - destruct D as [->|[_ ->]]; [by rewrite beq_refl, orb_true_r|done].
  - destruct D as [->|[[=] _]]. by rewrite beq_refl.
Qed.

(** C11: A request finds a subscription exactly when the proxy carries one it
    belongs to: a record that has not ended, with its Call-ID, sent by the end
    its tags name, from that end's plane, with a method that end may use (a
    NOTIFY only from the notifier, a SUBSCRIBE only from the subscriber).  All
    it changes is that a record still pending learns the notifier's tag. *)
Theorem requests_find_their_own_subscription os callID f tg arrived m : f <> [] -> tg <> [] -> let t := sub_run os newSubTable in
  match sub_lookup callID f tg arrived m t with
  | (Some (i, v, fromSub), t') => exists s, live_subs t !! i = Some s /\ s_callID s = callID /\
      (if fromSub then from_subscriber f tg arrived m s else from_notifier f tg arrived m s) /\
      live_subs t' = <[i := v]> (live_subs t) /\ v = (if fromSub then s else set_notTag f s)
  | (None, t') => t' = t /\ forall i s, live_subs t !! i = Some s -> s_callID s = callID ->
      ~ from_subscriber f tg arrived m s /\ ~ from_notifier f tg arrived m s
  end.
Proof.
  intros F T t. pose proof (sub_run_ok os newSubTable empty_subs_ok : subs_ok t) as H. unfold sub_lookup. rewrite !bool_decide_false by done. cbn [orb].
  destruct (first_match f tg arrived m (sb_heap t) (lookup_list callID (sb_byCallID t))) as [[[i c] k]|] eqn:E.
  - apply first_match_spec in E as (I & Hc & -> & N). apply (so_call t H) in I as (s & L & Ks). assert (c = s) as -> by (apply live_Some in L as []; congruence).
    destruct (sub_match f tg arrived m s) eqn:M; [done|..].
    + exists s. split_and!; [done|done|by apply match_subscriber|by rewrite insert_id|done].
    + assert (from_notifier f tg arrived m s) as Fn by (apply match_notifier; congruence). exists s. pose proof Fn as (_ & _ & _ & W).
      assert (set_notTag f s = s) as Es.
      { destruct W as [<-|[W _]]; [by destruct s|]. unfold sub_match in M. rewrite W in M. by repeat case_match. }
      split_and!; [done|done|done|by rewrite insert_id|done].
    + exists s. split_and!; [done|done|apply match_notifier; congruence| |done]. rewrite live_upd by done. apply map_eq. intros j. destruct (decide (j = i)) as [->|Nj].
      * by rewrite lookup_alter_eq, lookup_insert_eq, L.
      * by rewrite lookup_alter_ne, lookup_insert_ne.
  - split; [done|]. intros i s L Ks. assert (sub_match f tg arrived m s = noMatch) as M.
    { eapply first_match_None; [exact E| |by apply live_Some in L as []]. apply (so_call t H). by exists s. }
    split; intros X; [apply match_subscriber in X; congruence|by apply notifier_match in X].
Qed.

Lemma ends_caps l t : sb_max (sub_ends l t) = sb_max t /\ sb_maxPer (sub_ends l t) = sb_maxPer t.
Proof.
  revert t. induction l as [|i l IH]; intros t; [done|]. cbn. destruct (IH (sub_end i t)) as [A B]. unfold sub_ends in *. rewrite A, B.
  unfold sub_end. destruct (sb_heap t !! i) as [s|]; [|done]. by destruct (s_ended s).
Qed.

Lemma step_caps o t : sb_max (sub_step o t) = sb_max t /\ sb_maxPer (sub_step o t) = sb_maxPer t.
Proof.
  destruct o; cbn [sub_step]; try done.
  - unfold sub_begin. by repeat case_match.
  - unfold sub_confirm. destruct (sb_heap t !! i); [|done]. by destruct (_ || _).
  - by destruct (lookup_cases callID fromTag toTag arrived method t) as [->|[i ->]].
  - unfold notePublicRemote. by case_bool_decide.
  - unfold learnContact. by case_bool_decide.
  - unfold sub_end. destruct (sb_heap t !! i) as [s|]; [|done]. by destruct (s_ended s).
  - unfold dropTokens. revert t. induction tokens as [|tok toks IH]; intros t; [done|]. cbn.
    destruct (ends_caps (lookup_list tok (sb_byToken t)) t) as [A B], (IH (sub_ends (lookup_list tok (sb_byToken t)) t)) as [C D]. by rewrite C, D.
  - apply ends_caps.
  - apply (ends_caps _ (sub_close t)).
Qed.

Lemma run_caps os t : sb_max (sub_run os t) = sb_max t /\ sb_maxPer (sub_run os t) = sb_maxPer t.
Proof. revert t. induction os as [|o os IH]; intros t; [done|]. cbn. destruct (IH (sub_step o t)) as [A B], (step_caps o t) as [C D]. unfold sub_run in *. by rewrite A, B. Qed.

(** C12: The table is bounded and its indexes are exact: whatever the handlers do
    in whatever order, it counts the subscriptions that have not ended, at most
    20000 of them and at most 32 for one registration binding, and each index
    lists exactly those. *)
Theorem subscriptions_stay_bounded os : let t := sub_run os newSubTable in
  sub_count t = Z.of_nat (size (live_subs t)) /\ sub_count t <= maxSubscriptions /\
  (forall tok, len (lookup_list tok (sb_byToken t)) <= maxSubsPerBinding) /\
  (forall tok i, i ∈ lookup_list tok (sb_byToken t) <-> exists s, live_subs t !! i = Some s /\ s_token s = tok) /\
  (forall callID i, i ∈ lookup_list callID (sb_byCallID t) <-> exists s, live_subs t !! i = Some s /\ s_callID s = callID).
Proof.
  cbv zeta. pose proof (sub_run_ok os newSubTable empty_subs_ok) as [C T N M P X]. destruct (run_caps os newSubTable) as [A B]. rewrite A in M. rewrite B in P.
  split_and!; [exact N|apply M|apply P|apply T|apply C].
Qed.

(** When registration bindings are removed every subscription charged to
    them ends, and no other. *)
Theorem removed_bindings_end_their_subscriptions os tokens : let t := sub_run os newSubTable in
  live_subs (dropTokens tokens t) = filter (fun kv => s_token kv.2 ∉ tokens) (live_subs t) /\
  (forall tok, tok ∈ tokens -> lookup_list tok (sb_byToken (dropTokens tokens t)) = []).
Proof.
  intros t. destruct (drop_ok tokens t (sub_run_ok os newSubTable empty_subs_ok)) as [O L]. split; [done|]. intros tok I.
  destruct (lookup_list tok (sb_byToken (dropTokens tokens t))) as [|i l] eqn:E; [done|exfalso]. assert (i ∈ lookup_list tok (sb_byToken (dropTokens tokens t))) as Ei.
  { rewrite E. by left. }
  apply (indexed_live _ _ _ O) in Ei as (s & Ls & <-). rewrite L in Ls. by apply map_lookup_filter_Some in Ls as [_ Ls].
Qed.
End TableProofs.

(** ** A subscription by hand *)

#[local] Existing Instance ListImpl.list_params.

Definition demo_sub_route : dialogRoute := mkRoute (str "203.0.113.9:5060") (str "10.0.0.1:5060") (str "udp") no_uri no_uri.
Definition demo_sub_ops : list sub_op :=
  [SBegin (str "c1") (str "phone") (str "dialog") (str "tok1") planePublic demo_sub_route no_uri no_uri 0;
   SLookup (str "c1") (str "switch") (str "phone") planePrivate method_notify].

Lemma requests_find_their_own_subscription_witness :
  (sub_lookup (str "c1") (str "switch") (str "phone") planePrivate method_notify (sub_run demo_sub_ops newSubTable)).1 <> None /\
  match sub_lookup (str "c1") (str "phone") (str "switch") planePublic method_notify (sub_run demo_sub_ops newSubTable) with
  | (Some (i, v, fromSub), t') => exists s, live_subs (sub_run demo_sub_ops newSubTable) !! i = Some s /\ s_callID s = str "c1" /\
      (if fromSub then from_subscriber (str "phone") (str "switch") planePublic method_notify s
       else from_notifier (str "phone") (str "switch") planePublic method_notify s) /\
      live_subs t' = <[i := v]> (live_subs (sub_run demo_sub_ops newSubTable)) /\ v = (if fromSub then s else set_notTag (str "phone") s)
  | (None, t') => t' = sub_run demo_sub_ops newSubTable /\ forall i s, live_subs (sub_run demo_sub_ops newSubTable) !! i = Some s -> s_callID s = str "c1" ->
      ~ from_subscriber (str "phone") (str "switch") planePublic method_notify s /\ ~ from_notifier (str "phone") (str "switch") planePublic method_notify s
  end.
Proof. split; [by vm_compute|]. apply requests_find_their_own_subscription; discriminate. Defined.
