(* ===== verification/AckMiss.v ===== *)
(** The record of missing ACKs (internal/edge/ack.go, [ackMissTracker]): when
    the last ones were, on which plane, and the WARN they earn.  Logging itself
    is left out; what it is given is a result. *)

From S2P Require Import Prelude GoTime Topology.

Open Scope Z_scope.

Definition ackMissWarnEvery : Z := minute.
Definition ackMissKeep : nat := 32.

Record ackMissPlane := mkMissPlane { am_times : list Z; am_endpoint : gostring; am_lastWarn : Z; am_suppressed : Z }.
Record ackMissTracker := mkMiss { am_public : ackMissPlane; am_private : ackMissPlane }.

Definition newMissPlane : ackMissPlane := mkMissPlane [] [] zero_time 0.
Definition newMiss : ackMissTracker := mkMiss newMissPlane newMissPlane.

Definition miss_at (p : plane) (t : ackMissTracker) : ackMissPlane := match p with planePublic => am_public t | planePrivate => am_private t end.
Definition set_miss_at (p : plane) (x : ackMissPlane) (t : ackMissTracker) : ackMissTracker :=
  match p with planePublic => mkMiss x (am_private t) | planePrivate => mkMiss (am_public t) x end.

(** The last [ackMissKeep] of a list. *)
Definition keep_last (l : list Z) : list Z := if (ackMissKeep <? length l)%nat then drop (length l - ackMissKeep) l else l.

Definition record_miss (now : Z) (p : plane) (endpoint : gostring) (t : ackMissTracker) : (Z * bool) * ackMissTracker :=
  let pl := miss_at p t in
  let times := keep_last (am_times pl ++ [now]) in
  if negb (is_zero (am_lastWarn pl)) && (time_sub now (am_lastWarn pl) <? ackMissWarnEvery)
  then ((0, false), set_miss_at p (mkMissPlane times endpoint (am_lastWarn pl) (am_suppressed pl + 1)) t)
  else ((am_suppressed pl, true), set_miss_at p (mkMissPlane times endpoint now 0) t).

(** The misses newer than the window, and the endpoint of the latest. *)
Definition recent_on (now window : Z) (p : plane) (t : ackMissTracker) : Z * gostring :=
  let cutoff := time_add now (- window) in
  (len (List.filter (fun ts => time_before cutoff ts) (am_times (miss_at p t))), am_endpoint (miss_at p t)).

Definition recent (now window : Z) (t : ackMissTracker) : list (plane * (Z * gostring)) :=
  map (fun p => (p, recent_on now window p t)) [planePublic; planePrivate].

(** ** What a history of misses leaves *)

Definition misses (ms : list (Z * plane * gostring)) (t : ackMissTracker) : ackMissTracker :=
  fold_left (fun t m => (record_miss m.1.1 m.1.2 m.2 t).2) ms t.

Definition times_of (p : plane) (ms : list (Z * plane * gostring)) : list Z :=
  map (fun m => m.1.1) (List.filter (fun m => bool_decide (m.1.2 = p)) ms).

Lemma keep_last_app l l' : keep_last (keep_last l ++ l') = keep_last (l ++ l').
Proof.
  unfold keep_last at 2. destruct (Nat.ltb_spec ackMissKeep (length l)) as [L|L]; [|done]. unfold keep_last.
  rewrite !length_app, length_drop. destruct (Nat.ltb_spec ackMissKeep (length l - (length l - ackMissKeep) + length l'));
    destruct (Nat.ltb_spec ackMissKeep (length l + length l')); try lia.
  - rewrite <- (drop_app_le l l' (length l - ackMissKeep)), drop_drop by lia. f_equal. lia.
  - rewrite <- (drop_app_le l l' (length l - ackMissKeep)) by lia. f_equal. lia.
Qed.

Lemma record_times now q e p t :
  am_times (miss_at p (record_miss now q e t).2) = if bool_decide (q = p) then keep_last (am_times (miss_at p t) ++ [now]) else am_times (miss_at p t).
Proof. unfold record_miss. destruct (_ && _), q, p; done. Qed.

(** What a plane remembers is the last 32 of its misses. *)
Lemma misses_times ms p : am_times (miss_at p (misses ms newMiss)) = keep_last (times_of p ms).
Proof.
  assert (forall t l, am_times (miss_at p t) = keep_last l -> am_times (miss_at p (misses ms t)) = keep_last (l ++ times_of p ms)) as G.
  { unfold times_of. induction ms as [|[[now q] e] ms IH]; intros t l H; cbn; [by rewrite app_nil_r|].
    case_bool_decide as Q; cbn.
    - rewrite (IH _ (l ++ [now])), <- app_assoc; [done|]. by rewrite record_times, bool_decide_true, H, keep_last_app.
    - apply IH. by rewrite record_times, bool_decide_false. }
  rewrite (G newMiss []); [done|]. by destruct p.
Qed.
