(* ===== verification/Forward.v ===== *)
(** Forwarding (internal/edge/forward.go and extensions.go).

    [prepareForward] turns a request that came in into the one that goes out
    on the other side: the sender's source is written into its Via, the
    proxy's own Routes and every internal header are taken off, Max-Forwards
    is decremented, and the proxy's Record-Routes and Via are put on top.
    [popOwnVia] is the reverse step on a response.  sipgo's client transaction
    and the connection check before it ([requireFlow], [clientTx]) are I/O and
    left out. *)

From S2P Require Import Prelude Netip GoText GoEncoding SipAddr SipMsg Arrival Topology.

Open Scope Z_scope.

(** edge.go, [allowedMethods] *)
Definition allowedMethods : list gostring :=
  [str "INVITE"; str "ACK"; str "CANCEL"; str "BYE"; str "PRACK"; str "UPDATE"; str "OPTIONS";
   str "INFO"; str "NOTIFY"; str "SUBSCRIBE"; str "REFER"; str "MESSAGE"; str "REGISTER"].

(** [strings.Join] with [", "]. *)
Definition join_comma (l : list gostring) : gostring :=
  match l with [] => [] | x :: l => x ++ concat (map (fun y => str ", " ++ y) l) end.

Section Forward.
Context `{SP : SipParams} `{SH : SipHeaders}.
(** The text of a header is sipgo's to render. *)
Context (Value : header -> gostring).

(** *** extensions.go *)

Definition one_of (names : list gostring) (name : gostring) : bool := existsb (equal_fold name) names.

(** The non-empty tokens of the headers, in order. *)
Definition tokens_of (found : list header) : list gostring :=
  List.filter (fun tok => negb (bool_decide (tok = [])))
    (concat (map (fun h => map trim_space (split (Value h) 44)) found)).

Definition filterTokenHeader (canonical : gostring) (names : list gostring) (keep : gostring -> bool) (hs : list header) : list header :=
  let found := List.filter (fun h => one_of names (Name h)) hs in
  if bool_decide (found = []) then hs
  else
    let toks := tokens_of found in
    let kept := List.filter keep toks in
    if forallb keep toks then hs
    else
      let hs := strip_names (map Name found) hs in
      if bool_decide (kept = []) then hs else AppendHeader (HOther canonical (join_comma kept)) hs.

Definition sanitizeExtensions : list header -> list header :=
  filterTokenHeader (str "Allow") [str "allow"] (fun tok => existsb (equal_fold tok) allowedMethods).

(** *** forward.go *)

(** In-place edits of the first header of a kind. *)
Fixpoint update_first (f : header -> option header) (hs : list header) : list header :=
  match hs with
  | [] => []
  | h :: hs' => match f h with Some h' => h' :: hs' | None => h :: update_first f hs' end
  end.

Definition annotate (host port : gostring) (v : ViaHeader) : ViaHeader :=
  let p := match v_params v with Some p => p | None => NewParams end in
  let p := if negb (beq (v_host v) host) then ParamAdd (str "received") host p else p in
  let p := match ParamGet (str "rport") p with
           | Some [] => ParamAdd (str "rport") port p
           | _ => p
           end in
  mkVia (v_transport v) (v_host v) (v_port v) (Some p).

Definition annotateVia (source : gostring) (hs : list header) : list header :=
  match split_host_port source with
  | None => hs
  | Some (host, port) => update_first (fun h => match h with HVia v => Some (HVia (annotate host port v)) | _ => None end) hs
  end.

(** The loop of [stripOwnRoutes]; each turn removes one Route. *)
Fixpoint strip_routes (fuel : nat) (t : topology) (hs : list header) : list header :=
  match fuel with
  | O => hs
  | S fuel =>
      match Route hs with
      | None => hs
      | Some u => if isSelf t u then match RemoveHeader (str "Route") hs with
                                     | Some hs' => strip_routes fuel t hs'
                                     | None => hs
                                     end
                  else hs
      end
  end.

Definition stripOwnRoutes (t : topology) (hs : list header) : list header := strip_routes (length hs) t hs.

(** [sip.Addr] with an IP and a port. *)
Definition pinned (laddr : list Z * Z) : option (list Z * Z) :=
  if negb (bool_decide (laddr.1 = [])) && (0 <? laddr.2) then Some laddr else None.

(** Max-Forwards: [None] is [errMaxForwards]; it is a uint32. *)
Definition forward_hops (req : list header) (out : list header) : option (list header) :=
  match MaxForwards req with
  | Some n => if n =? 0 then None else Some (ReplaceHeader (HMaxForwards (wrap_uint 32 (n - 1))) out)
  | None => Some (AppendHeader (HMaxForwards 70) out)
  end.

Definition prepareForward (t : topology) (req : request) (from to : side) (dest : gostring) (rr : bool) (branch : gostring)
    : option request :=
  let hs := rq_headers req in
  let out := annotateVia (m_source (rq_msg req)) hs in
  let out := stripOwnRoutes t out in
  let out := sanitizeExtensions out in
  let out := stripInternalHeaders out in
  out ← forward_hops hs out;
  let out := if rr then PrependHeader (recordRoute to) (PrependHeader (recordRoute from) out) else out in
  let out := PrependHeader (HVia (side_via to branch)) out in
  let m := SetDestination dest (SetTransport (upperTransport to) (set_headers out (rq_msg req))) in
  Some (mkRequest (rq_method req) (rq_recipient req) (rq_version req) (pinned (sd_laddr to)) m).

(** [None]: the response must not be forwarded. *)
Definition popOwnVia (t : topology) (allowEmpty : bool) (hs : list header) : option (list header) :=
  match Via hs with
  | None => None
  | Some top =>
      if negb (isSelfVia t (Some top)) then None
      else let hs := default hs (RemoveHeader (str "Via") hs) in
           if allowEmpty || bool_decide (is_Some (Via hs)) then Some hs else None
  end.

(** *** What each step leaves alone *)

Context `{SHL : !SipHeadersLaws}.

(** The headers spelled [name], in order. *)
Definition spelled (name : gostring) (hs : list header) : list header := List.filter (exactly name) hs.

Lemma spelled_app name a b : spelled name (a ++ b) = spelled name a ++ spelled name b.
Proof. apply List.filter_app. Qed.

Lemma update_first_spelled f name hs : (forall h h', f h = Some h' -> Name h = Name h' /\ Name h <> name) ->
  spelled name (update_first f hs) = spelled name hs.
Proof.
  intros Hf. induction hs as [|h hs IH]; [done|]. cbn [update_first]. destruct (f h) as [h'|] eqn:E.
  - destruct (Hf h h' E) as [E1 E2]. unfold spelled. cbn [List.filter]. unfold exactly. rewrite <- E1.
    destruct (beq (Name h) name) eqn:B; [by apply beq_eq in B|done].
  - unfold spelled in *. cbn [List.filter]. by rewrite IH.
Qed.

Lemma annotateVia_spelled source name hs : name <> str "Via" -> spelled name (annotateVia source hs) = spelled name hs.
Proof.
  intros N. unfold annotateVia. destruct (split_host_port source) as [[h p]|]; [|done]. apply update_first_spelled.
  intros g g'. destruct g; try done. intros [= <-]. split; [done|]. cbn [Name]. congruence.
Qed.

Lemma remove_spelled n hs hs' name : RemoveHeader n hs = Some hs' -> name <> n -> spelled name hs' = spelled name hs.
Proof.
  intros (a & h & b & -> & Hh & _ & ->)%remove_some N. rewrite !spelled_app. f_equal. unfold spelled. cbn [List.filter].
  unfold exactly in *. apply beq_eq in Hh. rewrite Hh. destruct (beq n name) eqn:B; [apply beq_eq in B; congruence|done].
Qed.

Lemma strip_routes_spelled fuel t name : name <> str "Route" -> forall hs, spelled name (strip_routes fuel t hs) = spelled name hs.
Proof.
  intros N. induction fuel as [|fuel IH]; intros hs; cbn [strip_routes]; [done|].
  destruct (Route hs) as [u|]; [|done]. destruct (isSelf t u); [|done].
  destruct (RemoveHeader _ hs) as [hs'|] eqn:E; [|done]. rewrite IH. by eapply remove_spelled.
Qed.

Lemma strip_filter_spelled (P : gostring -> bool) name hs : P name = false ->
  spelled name (strip_names (map Name (List.filter (fun h => P (Name h)) hs)) hs) = spelled name hs.
Proof.
  intros HP. rewrite (strip_names_filter P _ hs eq_refl). unfold spelled.
  induction hs as [|h hs IH]; [done|]. cbn [List.filter]. destruct (P (Name h)) eqn:E; cbn [negb].
  - rewrite IH. unfold exactly. destruct (beq (Name h) name) eqn:B; [apply beq_eq in B; congruence|done].
  - cbn [List.filter]. by rewrite IH.
Qed.

Lemma filterToken_spelled canonical names keep name hs : one_of names name = false -> name <> canonical ->
  spelled name (filterTokenHeader canonical names keep hs) = spelled name hs.
Proof.
  intros HN HC. unfold filterTokenHeader. case_bool_decide; [done|]. destruct (forallb keep _); [done|].
  pose proof (strip_filter_spelled (one_of names) name hs HN) as E.
  case_bool_decide; [done|]. rewrite append_last, spelled_app, E. unfold spelled at 2. cbn [List.filter]. unfold exactly. cbn [Name].
  destruct (beq canonical name) eqn:B; [apply beq_eq in B; congruence|]. by rewrite app_nil_r.
Qed.

(** The headers a proxy may touch on the way: hop-by-hop ones, Allow and the
    proxy's own. *)
Definition hop_name (name : gostring) : bool :=
  existsb (beq name) [str "Via"; str "Route"; str "Max-Forwards"; str "Record-Route"] || equal_fold name (str "allow") || isInternalHeader name.

Lemma hop_name_false name : hop_name name = false ->
  (name <> str "Via" /\ name <> str "Route" /\ name <> str "Max-Forwards" /\ name <> str "Record-Route") /\
  one_of [str "allow"] name = false /\ isInternalHeader name = false.
Proof.
  unfold hop_name. rewrite !orb_false_iff. intros [[H1 H2] H3]. cbn [existsb] in H1. rewrite !orb_false_iff in H1.
  assert (forall a b, beq a b = false -> a <> b) as K by (intros a b E ->; by rewrite beq_refl in E).
  destruct H1 as (A & B & C & D & _). repeat split; try (by apply K); [|done]. cbn [one_of existsb]. by rewrite H2.
Qed.

Lemma allow_not name : one_of [str "allow"] name = false -> name <> str "Allow".
Proof. intros H ->. vm_compute in H. discriminate. Qed.

Lemma sanitize_spelled name hs : one_of [str "allow"] name = false -> spelled name (sanitizeExtensions hs) = spelled name hs.
Proof. intros H. apply filterToken_spelled; [done|by apply allow_not]. Qed.

Lemma internal_spelled name hs : isInternalHeader name = false -> spelled name (stripInternalHeaders hs) = spelled name hs.
Proof. apply strip_filter_spelled. Qed.

Lemma hops_spelled name hs out out' : forward_hops hs out = Some out' -> name <> str "Max-Forwards" ->
  spelled name out' = spelled name out.
Proof.
  unfold forward_hops. destruct (MaxForwards hs) as [n|].
  - destruct (n =? 0); [done|]. intros [= <-] N. unfold spelled. by apply replace_same.
  - intros [= <-] N. rewrite append_last, spelled_app. unfold spelled at 2. cbn [List.filter]. unfold exactly. cbn [Name].
    destruct (beq (str "Max-Forwards") name) eqn:B; [apply beq_eq in B; congruence|]. by rewrite app_nil_r.
Qed.

(** *** The request as forwarded *)

Lemma strip_routes_route fuel t hs : (length hs <= fuel)%nat ->
  match Route (strip_routes fuel t hs) with Some u => isSelf t u = false | None => True end.
Proof.
  revert hs. induction fuel as [|fuel IH]; intros hs L; [by destruct hs; [|simpl in L; lia]|]. cbn [strip_routes].
  destruct (Route hs) as [u|] eqn:R; [|by rewrite R]. destruct (isSelf t u) eqn:S; [|by rewrite R].
  destruct (RemoveHeader (str "Route") hs) as [hs'|] eqn:E.
  - apply IH. apply remove_shorter in E. lia.
  - exfalso. apply remove_none in E. clear -R E. induction hs as [|h hs IH]; [done|]. cbn in E.
    apply andb_true_iff in E as [E1 E2]. unfold Route in *. cbn [first_of] in R. destruct h; by apply IH.
Qed.

Lemma Route_spelled hs : Route hs = Route (spelled (str "Route") hs).
Proof. unfold Route, spelled. symmetry. apply first_of_filter. by intros []. Qed.

Lemma spelled_prepend_ne name h hs : Name h <> name -> spelled name (PrependHeader h hs) = spelled name hs.
Proof.
  intros N. rewrite prepend_first. unfold spelled. cbn [List.filter]. unfold exactly.
  destruct (beq (Name h) name) eqn:B; [by apply beq_eq in B|done].
Qed.

Lemma spelled_prepend name h hs : Name h = name -> spelled name (PrependHeader h hs) = h :: spelled name hs.
Proof. intros <-. rewrite prepend_first. unfold spelled. cbn [List.filter]. unfold exactly. by rewrite beq_refl. Qed.

(** The headers between the ones the proxy puts on top and the originals. *)
Definition middle (t : topology) (req : request) : list header :=
  stripInternalHeaders (sanitizeExtensions (stripOwnRoutes t (annotateVia (m_source (rq_msg req)) (rq_headers req)))).

Lemma prepareForward_shape t req from to dest rr branch out : prepareForward t req from to dest rr branch = Some out ->
  exists mid, forward_hops (rq_headers req) (middle t req) = Some mid /\
  out = mkRequest (rq_method req) (rq_recipient req) (rq_version req) (pinned (sd_laddr to))
          (mkMsg (PrependHeader (HVia (side_via to branch))
                    (if rr then PrependHeader (recordRoute to) (PrependHeader (recordRoute from) mid) else mid))
                 (m_body (rq_msg req)) (upperTransport to) dest (m_source (rq_msg req))).
Proof.
  unfold prepareForward. fold (middle t req). intros H. apply bind_Some in H as (mid & H & [= <-]).
  exists mid. split; [done|]. reflexivity.
Qed.

Lemma middle_spelled t req name : name <> str "Via" -> name <> str "Route" -> one_of [str "allow"] name = false ->
  isInternalHeader name = false -> spelled name (middle t req) = spelled name (rq_headers req).
Proof.
  intros N1 N2 N3 N4. unfold middle. rewrite internal_spelled, sanitize_spelled by done.
  unfold stripOwnRoutes. by rewrite strip_routes_spelled, annotateVia_spelled.
Qed.

Lemma hops_internal t req mid : forward_hops (rq_headers req) (middle t req) = Some mid ->
  forall h, h ∈ mid -> isInternalHeader (Name h) = false.
Proof.
  intros H h Hh. assert (spelled (Name h) mid <> []) as NE.
  { intros E. assert (h ∈ spelled (Name h) mid) as K.
    { apply list_elem_of_In, filter_In. split; [by apply list_elem_of_In|]. unfold exactly. apply beq_refl. }
    rewrite E in K. by apply elem_of_nil in K. }
  destruct (isInternalHeader (Name h)) eqn:I; [|done]. exfalso. apply NE.
  rewrite (hops_spelled _ _ _ _ H); [|intros E; rewrite E in I; vm_compute in I; discriminate].
  unfold middle. rewrite stripInternalHeaders_filter. unfold spelled.
  induction (sanitizeExtensions _) as [|g l IH]; [done|]. cbn [List.filter].
  destruct (isInternalHeader (Name g)) eqn:J; cbn [negb]; [done|]. cbn [List.filter]. unfold exactly.
  destruct (beq (Name g) (Name h)) eqn:B; [apply beq_eq in B; congruence|done].
Qed.

Lemma MaxForwards_spelled hs : MaxForwards hs = MaxForwards (spelled (str "Max-Forwards") hs).
Proof. unfold MaxForwards, spelled. symmetry. apply first_of_filter. by intros []. Qed.

Lemma spelled_nil_none name hs : spelled name hs = [] <-> forallb (fun h => negb (exactly name h)) hs = true.
Proof.
  unfold spelled. induction hs as [|h hs IH]; [done|]. cbn. destruct (exactly name h); cbn; [done|exact IH].
Qed.

(** The only header of a name, and what surrounds it. *)
Lemma spelled_one name hs h : spelled name hs = [h] ->
  exists a b, hs = a ++ h :: b /\ exactly name h = true /\ forallb (fun g => negb (exactly name g)) (a ++ b) = true.
Proof.
  induction hs as [|g hs IH]; [done|]. unfold spelled. cbn [List.filter]. destruct (exactly name g) eqn:E.
  - intros [= -> F]. exists [], hs. split; [done|]. split; [done|]. by apply spelled_nil_none.
  - intros F. destruct (IH F) as (a & b & -> & ? & ?). exists (g :: a), b. split; [done|]. split; [done|].
    cbn [app forallb]. by rewrite E.
Qed.

Lemma hops_decrement t req mid n a b : forward_hops (rq_headers req) (middle t req) = Some mid ->
  rq_headers req = a ++ HMaxForwards n :: b -> 0 <= n < 2 ^ 32 -> spelled (str "Max-Forwards") (a ++ b) = [] ->
  0 < n /\ MaxForwards mid = Some (n - 1).
Proof.
  intros H E R U. rewrite spelled_app in U. apply app_eq_nil in U as [Ua Ub].
  assert (spelled (str "Max-Forwards") (rq_headers req) = [HMaxForwards n]) as S0.
  { rewrite E, spelled_app, Ua. unfold spelled in *. cbn [List.filter app]. rewrite Ub. reflexivity. }
  assert (MaxForwards (rq_headers req) = Some n) as M by (by rewrite MaxForwards_spelled, S0).
  assert (spelled (str "Max-Forwards") (middle t req) = [HMaxForwards n]) as S1 by (by rewrite middle_spelled).
  unfold forward_hops in H. rewrite M in H. destruct (n =? 0) eqn:Z0; [done|]. injection H as H. split; [lia|].
  destruct (spelled_one _ _ _ S1) as (x & y & Em & Hg & Hxy).
  rewrite (replace_one (HMaxForwards (wrap_uint 32 (n - 1))) _ _ _ _ Em Hg Hxy) in H.
  rewrite forallb_app in Hxy. apply andb_true_iff in Hxy as [Hx _]. apply spelled_nil_none in Hx.
  subst mid. rewrite MaxForwards_spelled, spelled_app, Hx. simpl. f_equal. unfold wrap_uint. rewrite Z.mod_small; [done|]. change (2 ^ 32) with 4294967296 in *. lia.
Qed.

Lemma prepared_vias t req mid from to (rr : bool) : forward_hops (rq_headers req) (middle t req) = Some mid ->
  spelled (str "Via") (if rr then PrependHeader (recordRoute to) (PrependHeader (recordRoute from) mid) else mid) =
  spelled (str "Via") (annotateVia (m_source (rq_msg req)) (rq_headers req)).
Proof.
  intros H. assert (spelled (str "Via") mid = spelled (str "Via") (annotateVia (m_source (rq_msg req)) (rq_headers req))) as E.
  { rewrite (hops_spelled _ _ _ _ H) by done. unfold middle. rewrite internal_spelled, sanitize_spelled by (vm_compute; done).
    unfold stripOwnRoutes. by apply strip_routes_spelled. }
  destruct rr; [|done]. by rewrite !spelled_prepend_ne by done.
Qed.

(** A forwarded request is the request that came in, but for the hop:
    method, Request-URI, body and every end-to-end header are untouched, in
    order.  On top is the proxy's Via, above the sender's with its source
    noted; Record-Route gets the two sides of the proxy, the outgoing one on
    top, or nothing; no Route left in front names the proxy; Max-Forwards went
    down by one; and no internal header leaves. *)
Theorem forward_touches_only_hops t req from to dest rr branch out : prepareForward t req from to dest rr branch = Some out ->
  (rq_method out = rq_method req /\ rq_recipient out = rq_recipient req /\ m_body (rq_msg out) = m_body (rq_msg req)) /\
  (forall name, hop_name name = false -> spelled name (rq_headers out) = spelled name (rq_headers req)) /\
  spelled (str "Via") (rq_headers out) =
    HVia (side_via to branch) :: spelled (str "Via") (annotateVia (m_source (rq_msg req)) (rq_headers req)) /\
  spelled (str "Record-Route") (rq_headers out) =
    (if rr then [recordRoute to; recordRoute from] else []) ++ spelled (str "Record-Route") (rq_headers req) /\
  (forall u, Route (rq_headers out) = Some u -> isSelf t u = false) /\
  (forall n a b, rq_headers req = a ++ HMaxForwards n :: b -> 0 <= n < 2 ^ 32 ->
     spelled (str "Max-Forwards") (a ++ b) = [] ->
     0 < n /\ MaxForwards (rq_headers out) = Some (n - 1)) /\
  (forall h, h ∈ rq_headers out -> isInternalHeader (Name h) = false).
Proof.
  intros (mid & H & Eo)%prepareForward_shape.
  set (l := PrependHeader (HVia (side_via to branch)) _) in Eo.
  assert (rq_headers out = l) as El by (by subst out). rewrite El. split; [by subst out|]. clear Eo El.
  assert (forall name, name <> str "Via" -> name <> str "Record-Route" -> spelled name l = spelled name mid) as TOP.
  { intros name N1 N2. unfold l. rewrite spelled_prepend_ne by (cbn; congruence).
    destruct rr; [|done]. rewrite !spelled_prepend_ne; [done|unfold recordRoute; cbn; congruence..]. }
  split.
  { intros name Hn. destruct (hop_name_false _ Hn) as ((N1 & N2 & N3 & N4) & N5 & N6).
    rewrite TOP by done. rewrite (hops_spelled _ _ _ _ H) by done. by apply middle_spelled. }
  split.
  { unfold l. rewrite spelled_prepend by done. f_equal. by apply (prepared_vias t). }
  split.
  { unfold l. rewrite spelled_prepend_ne by done. assert (spelled (str "Record-Route") mid = spelled (str "Record-Route") (rq_headers req)) as E.
    { rewrite (hops_spelled _ _ _ _ H) by done. by apply middle_spelled; [done..|vm_compute|vm_compute]. }
    destruct rr; [|done]. by rewrite !spelled_prepend, E. }
  split.
  { intros u. rewrite Route_spelled, TOP by done. rewrite (hops_spelled _ _ _ _ H) by done. unfold middle.
    rewrite internal_spelled, sanitize_spelled by (vm_compute; done). rewrite <- Route_spelled. intros E.
    pose proof (strip_routes_route (length (annotateVia (m_source (rq_msg req)) (rq_headers req))) t _ (Nat.le_refl _)) as K.
    unfold stripOwnRoutes in E. by rewrite E in K. }
  split.
  { intros n a b E R U. assert (MaxForwards l = MaxForwards (spelled (str "Max-Forwards") l)) as -> by apply MaxForwards_spelled.
    rewrite TOP, <- MaxForwards_spelled by done. by apply (hops_decrement t req mid n a b). }
  intros h Hh. unfold l in Hh. rewrite prepend_first in Hh. apply elem_of_cons in Hh as [->|Hh]; [reflexivity|].
  destruct rr; [|by eapply hops_internal].
  rewrite !prepend_first in Hh. apply elem_of_cons in Hh as [->|Hh]; [reflexivity|].
  apply elem_of_cons in Hh as [->|Hh]; [reflexivity|]. by eapply hops_internal.
Qed.

(** *** The way back *)

Lemma Via_spelled hs : Via hs = Via (spelled (str "Via") hs).
Proof. unfold Via, spelled. symmetry. apply first_of_filter. by intros []. Qed.

Lemma annotateVia_keeps source hs : is_Some (Via (annotateVia source hs)) <-> is_Some (Via hs).
Proof.
  unfold annotateVia. destruct (split_host_port source) as [[h p]|]; [|done].
  unfold Via. induction hs as [|g hs IH]; [done|]. destruct g; try exact IH. split; intros _; by eexists.
Qed.

Lemma pop_top t v rest hs : spelled (str "Via") hs = HVia v :: rest -> isSelfVia t (Some v) = true ->
  exists hs', RemoveHeader (str "Via") hs = Some hs' /\ spelled (str "Via") hs' = rest /\
    (forall name, name <> str "Via" -> spelled name hs' = spelled name hs) /\
    forall allowEmpty, popOwnVia t allowEmpty hs = if allowEmpty || bool_decide (is_Some (Via hs')) then Some hs' else None.
Proof.
  intros S V. assert (Via hs = Some v) as T by (rewrite Via_spelled, S; done).
  destruct (RemoveHeader (str "Via") hs) as [hs'|] eqn:E.
  - exists hs'. split; [done|]. split; [|split].
    + pose proof E as (a & h & b & -> & Hh & Ha & ->)%remove_some. apply spelled_nil_none in Ha.
      rewrite spelled_app, Ha in *. cbn [app] in *. unfold spelled in S. cbn [List.filter] in S. rewrite Hh in S. by injection S.
    + intros name N. by eapply remove_spelled.
    + intros a. unfold popOwnVia. rewrite T, V, E. done.
  - apply remove_none in E. apply spelled_nil_none in E. congruence.
Qed.

(** A response that carries the Vias of the request the proxy sent loses
    exactly the proxy's own and goes on with the sender's, the source noted in
    it; nothing else in it changes.  A response whose top Via is not the
    proxy's is dropped. *)
Theorem response_unwinds_request t req from to dest rr branch out hs n v :
  prepareForward t req from to dest rr branch = Some out ->
  side_of t to -> sd_advIP to = V4 n -> 0 <= n < 2 ^ 32 -> 0 < sd_advPort to -> sd_advHost to = addr_string (V4 n) ->
  Via (rq_headers req) = Some v -> spelled (str "Via") hs = spelled (str "Via") (rq_headers out) ->
  (exists hs', popOwnVia t false hs = Some hs' /\
     spelled (str "Via") hs' = spelled (str "Via") (annotateVia (m_source (rq_msg req)) (rq_headers req)) /\
     forall name, name <> str "Via" -> spelled name hs' = spelled name hs) /\
  (forall hs2 allowEmpty, isSelfVia t (Via hs2) = false -> popOwnVia t allowEmpty hs2 = None).
Proof.
  intros P So A R Po Ho V S. split.
  - destruct (own_side_recognised t to n branch So A R Po Ho) as (_ & _ & I).
    assert (spelled (str "Via") hs = HVia (side_via to branch) :: spelled (str "Via") (annotateVia (m_source (rq_msg req)) (rq_headers req))) as S'.
    { rewrite S. apply prepareForward_shape in P as (mid & H & ->). unfold rq_headers at 1. cbn [rq_msg m_headers].
      by rewrite spelled_prepend, (prepared_vias t req mid from to rr H). }
    destruct (pop_top t _ _ _ S' I) as (hs' & _ & E1 & E2 & E3). exists hs'. split; [|by split].
    rewrite E3. cbn [orb]. rewrite bool_decide_eq_true_2; [done|].
    rewrite Via_spelled, E1, <- Via_spelled. apply annotateVia_keeps. by exists v.
  - intros hs2 a H. unfold popOwnVia. destruct (Via hs2) as [w|]; [|done]. by rewrite H.
Qed.
End Forward.

(** *** A phone's INVITE to the switch, and its answer *)

#[local] Existing Instance ListImpl.list_params.
#[local] Existing Instance ListImpl.list_headers.
#[local] Existing Instance ListImpl.list_headers_laws.

Definition text (h : header) : gostring := match h with HOther _ v => v | _ => [] end.

Definition demo_via : ViaHeader := mkVia (str "UDP") (str "10.1.1.1") 5060 (Some [(str "rport", @nil Z)]).

Definition demo_phone : request :=
  mkRequest (str "INVITE") (mkUri (str "bob") (str "203.0.113.5") 0 None false) (str "SIP/2.0") None
    (mkMsg [HVia demo_via;
            HRoute (mkUri [] (str "203.0.113.5") 16060 None false); HFrom (mkNameAddr no_uri None); HMaxForwards 70;
            HOther (str "Allow") (str "INVITE, PUBLISH"); HOther (str "x-freesbc-carrier") (str "me")]
       (str "v=0") (str "UDP") [] (str "198.51.100.7:40000")).

Definition demo_side : side := default (private demo_topology) (public demo_topology !! udp).

Definition demo_out : request :=
  default demo_phone (prepareForward text demo_topology demo_phone demo_side (private demo_topology) (str "10.0.0.11:5060") true (str "z9hG4bKx")).

Lemma demo_prepared :
  prepareForward text demo_topology demo_phone demo_side (private demo_topology) (str "10.0.0.11:5060") true (str "z9hG4bKx") = Some demo_out.
Proof. vm_compute. reflexivity. Qed.

Lemma forward_touches_only_hops_witness :
  0 < 70 /\ MaxForwards (rq_headers demo_out) = Some (70 - 1) /\
  spelled (str "From") (rq_headers demo_out) = [HFrom (mkNameAddr no_uri None)].
Proof.
  destruct (forward_touches_only_hops text demo_topology demo_phone demo_side (private demo_topology) _ true _ demo_out demo_prepared)
    as (_ & H1 & _ & _ & _ & H2 & _).
  destruct (H2 70 (take 3 (rq_headers demo_phone)) (drop 4 (rq_headers demo_phone))) as [H3 H4];
    [reflexivity|lia|reflexivity|].
  split; [exact H3|]. split; [exact H4|]. rewrite (H1 (str "From")) by (vm_compute; reflexivity). reflexivity.
Defined.

Lemma response_unwinds_request_witness :
  exists hs', popOwnVia demo_topology false (rq_headers demo_out) = Some hs' /\
    spelled (str "Via") hs' = spelled (str "Via") (annotateVia (str "198.51.100.7:40000") (rq_headers demo_phone)).
Proof.
  destruct (response_unwinds_request text demo_topology demo_phone demo_side (private demo_topology) _ true _ demo_out
    (rq_headers demo_out) (10 * 2 ^ 24 + 1) demo_via demo_prepared)
    as [(hs' & H1 & H2 & _) _]; [by left|reflexivity|lia|vm_compute; reflexivity|vm_compute; reflexivity|reflexivity|reflexivity|].
  exists hs'. split; [exact H1|exact H2].
Defined.
