(* ===== verification/RegisterText.v ===== *)
(** What a REGISTER and its answers say (the reading half of
    internal/edge/register.go, regguard.go and invite.go's [tokenOf]).

    The address-of-record, the lifetime asked for, the Contacts and the token
    in them, the credential as the guard sees it, and the challenges of an
    answer. *)

From S2P Require Import Prelude GoTime GoText GoEncoding SipScan SipMsg SipRequest Topology.

Open Scope Z_scope.

Definition contactTokenParam : gostring := str "fsbc".

Section Text.
Context `{SP : SipParams} `{SH : SipHeaders}.
(** The text of a header is sipgo's to render. *)
Context (Value : header -> gostring).

Definition tokenOf (u : Uri) : option gostring :=
  match u_params u with
  | None => None
  | Some p => match ParamGet contactTokenParam p with
              | Some v => if bool_decide (v = []) || (64 <? len v) then None else Some v
              | None => None
              end
  end.

(** The address-of-record and the user of the To header. *)
Definition aorOf (hs : list header) : option (gostring * gostring) :=
  match To hs with
  | None => None
  | Some a =>
      let u := na_uri a in
      if bool_decide (u_user u = []) || bool_decide (u_host u = []) then None
      else match NormalizeAOR (u_user u) (u_host u) with Some aor => Some (aor, u_user u) | None => None end
  end.

Definition hasWildcardContact (hs : list header) : bool :=
  existsb (fun h => match h with HContact c => u_wildcard (na_uri c) | _ => false end) (GetHeaders (str "Contact") hs).

(** The lifetime asked for, and whether it is an un-REGISTER. *)
Definition requestedExpires (hs : list header) : Z * bool :=
  let contact :=
    match GetHeaders (str "Contact") hs with
    | HContact c :: _ => match na_params c with Some p => ParamGet (str "expires") p ≫= DeltaSeconds | None => None end
    | _ => None
    end in
  match contact with
  | Some d => (d, d =? 0)
  | None =>
      match GetHeaders (str "Expires") hs with
      | h :: _ => match DeltaSeconds (Value h) with Some d => (d, d =? 0) | None => (0, false) end
      | [] => (0, false)
      end
  end.

Definition restoreContact (client : Uri) (granted : Z) (hs : list header) : list header :=
  AppendHeader (HContact (mkNameAddr client (Some (ParamAdd (str "expires") (int_string granted) NewParams))))
    (RemoveHeaders (str "Contact") hs).

Definition registeredContact (t : topology) (user token : gostring) : Uri :=
  mkUri user (host (private t)) (sd_advPort (private t))
    (Some (ParamAdd contactTokenParam token (ParamAdd (str "transport") (str "udp") NewParams))) false.

(** The first of the two credential headers that is there. *)
Definition credential (hs : list header) : option gostring :=
  match GetHeaders (str "Authorization") hs with
  | h :: _ => Some (Value h)
  | [] => match GetHeaders (str "Proxy-Authorization") hs with h :: _ => Some (Value h) | [] => None end
  end.

Definition registerHead (hs : list header) (aor : gostring) : RegisterHead :=
  let branch := match Via hs with Some v => default [] (pget (str "branch") (v_params v)) | None => [] end in
  match credential hs with
  | Some v => let '(user, nonce, key) := DigestIdentity v in mkHead aor (CallID hs) branch true user nonce key
  | None => mkHead aor (CallID hs) branch false [] [] 0
  end.

(** The nonces of the challenges, and whether one is stale. *)
Definition challenges (hs : list header) : list header :=
  GetHeaders (str "WWW-Authenticate") hs ++ GetHeaders (str "Proxy-Authenticate") hs.

Definition challengeNonces (hs : list header) : list gostring * bool :=
  (omap (fun h => match DigestParam (Value h) (str "nonce") with
                  | Some n => if bool_decide (n = []) then None else Some n
                  | None => None
                  end) (challenges hs),
   existsb (fun h => match DigestParam (Value h) (str "stale") with Some st => equal_fold st (str "true") | None => false end)
     (challenges hs)).
End Text.
