(* ===== verification/RegGuard.v ===== *)
(** The REGISTER credential guard (internal/edge/regguard.go, the table).

    What the edge remembers of a source it has challenged: the hashes of the
    nonces and of the Via branches, each with its time, and the attempts
    already counted, in rings of a fixed size; one record per source key in
    an LRU table ([Lru]).  The decision [countable] is what makes a refused
    REGISTER a strike; the rest of regguard.go, which reads the binding table
    and the shield, is in [Registration]. *)

From S2P Require Import Prelude GoTime Netip Lru Enum SipScan.

Open Scope Z_scope.

Definition regGuardSources : Z := 16384.
Definition regNonceTTL : Z := 15 * minute.
Definition regReplayWindow : Z := 40 * second.
Definition regNoncesPerSource : nat := 4.
Definition regBranchesPerSource : nat := 8.
Definition regStruckPerSource : nat := 16.

Record regStamp := mkStamp { st_h : Z; st_at : Z }.

Definition no_stamp : regStamp := mkStamp 0 zero_time.

(** A ring: the array and the next index to write. *)
Record ring (A : Type) := mkRing { cells : list A; at_ : nat }.
Arguments mkRing {A}.
Arguments cells {A}.
Arguments at_ {A}.

(** [r.a[r.i] = x; r.i = (r.i + 1) % len(r.a)] *)
Definition ring_put {A} (x : A) (r : ring A) : ring A :=
  mkRing (<[at_ r := x]> (cells r)) (Nat.modulo (at_ r + 1) (length (cells r))).

Record regRecord := mkRecord { nonces : ring regStamp; branches : ring regStamp; struck : ring Z }.

Definition new_record : regRecord :=
  mkRecord (mkRing (replicate regNoncesPerSource no_stamp) 0)
           (mkRing (replicate regBranchesPerSource no_stamp) 0)
           (mkRing (replicate regStruckPerSource 0) 0).

Record regGuard := mkGuard { gtab : Lru Addr regRecord; gmax : Z }.

Definition newRegGuard : regGuard := mkGuard lru_empty regGuardSources.

Definition regHash (s : gostring) : Z := fnv_write fnv_offset64 s.

(** The record of a challenged source, with the challenge noted. *)
Definition note_challenge (now : Z) (branch : gostring) (ns : list gostring) (r : regRecord) : regRecord :=
  let nr := fold_left (fun x n => ring_put (mkStamp (regHash n) now) x) ns (nonces r) in
  let br := if bool_decide (branch = []) then branches r else ring_put (mkStamp (regHash branch) now) (branches r) in
  mkRecord nr br (struck r).

Definition challenged (now : Z) (src : Addr) (branch : gostring) (ns : list gostring) (g : regGuard) : regGuard :=
  if bool_decide (ns = []) then g
  else
    let key := enumKey src in
    let '(r, _, t) := enter back (gmax g) key new_record (gtab g) in
    mkGuard (set_value key (note_challenge now branch ns r) t) (gmax g).

Definition recent (cs : list regStamp) (h now ttl : Z) : bool :=
  existsb (fun s => (st_h s =? h) && negb (is_zero (st_at s)) && (time_sub now (st_at s) <? ttl)) cs.

Definition golden : Z := 0x9e3779b97f4a7c15.

(** The identity under which an attempt is counted once. *)
Definition attempt_id (branch : gostring) (attempt : Z) : Z := Z.lxor (regHash branch) (wrap_uint 64 (attempt * golden)).

Definition countable (now : Z) (src : Addr) (branch nonce : gostring) (attempt : Z) (replay : bool) (g : regGuard)
    : bool * regGuard :=
  if bool_decide (nonce = []) then (false, g)
  else
    let key := enumKey src in
    match lru_get key (gtab g) with
    | None => (false, g)
    | Some r =>
        if negb (recent (cells (nonces r)) (regHash nonce) now regNonceTTL) then (false, g)
        else if replay && (bool_decide (branch = []) || negb (recent (cells (branches r)) (regHash branch) now regReplayWindow))
        then (false, g)
        else
          let id := attempt_id branch attempt in
          if existsb (Z.eqb id) (cells (struck r)) then (false, g)
          else (true, mkGuard (set_value key (mkRecord (nonces r) (branches r) (ring_put id (struck r))) (gtab g)) (gmax g))
    end.

Definition guard_size (g : regGuard) : Z := Z.of_nat (size (entries (gtab g))).

(** ** The table *)

Definition guard_wf (g : regGuard) : Prop := 1 <= gmax g /\ wf (gtab g) /\ lru_len (gtab g) <= gmax g.

(** What happens to a guard. *)
Inductive guard_op :=
  | Challenged (now : Z) (src : Addr) (branch : gostring) (ns : list gostring)
  | Attempted (now : Z) (src : Addr) (branch nonce : gostring) (attempt : Z) (replay : bool).

Definition guard_step (g : regGuard) (o : guard_op) : regGuard :=
  match o with
  | Challenged now src branch ns => challenged now src branch ns g
  | Attempted now src branch nonce attempt replay => (countable now src branch nonce attempt replay g).2
  end.

Definition record_at (g : regGuard) (k : Addr) : option regRecord := lru_get k (gtab g).

(** The record of a key after a challenge to [src]. *)
Lemma challenged_record now src branch ns g k : guard_wf g -> ns <> [] ->
  guard_wf (challenged now src branch ns g) /\
  record_at (challenged now src branch ns g) (enumKey src) =
    Some (note_challenge now branch ns (default new_record (record_at g (enumKey src)))) /\
  (k <> enumKey src -> record_at (challenged now src branch ns g) k = record_at g k \/
                       record_at (challenged now src branch ns g) k = None).
Proof.
  intros (Hm & Hw & Hl) Hns. unfold challenged. rewrite bool_decide_eq_false_2 by done.
  destruct (enter back (gmax g) (enumKey src) new_record (gtab g)) as [[r found] t] eqn:E.
  pose proof E as E'. eapply enter_spec in E as (Hw' & Hl' & Hk & _ & Hf & Hn); [|apply back_sound|done..].
  split; [split; [done|]; split; cbn [gtab gmax]; [apply wf_set_value; [done|by eexists]|exact Hl']|].
  unfold record_at, lru_get in *. cbn [gtab set_value entries]. rewrite lookup_insert_eq. split.
  - f_equal. f_equal. destruct found.
    + by rewrite (Hf eq_refl).
    + destruct (Hn eq_refl) as [-> ->]. done.
  - intros Hk'. rewrite lookup_insert_ne by done. destruct (enter_other _ _ _ _ _ _ _ _ k E' Hk') as [->|(_ & _ & _ & ->)]; auto.
Qed.

(** Whatever the decision, an attempt leaves the nonces and branches alone
    and touches no other record. *)
Lemma countable_record now src branch nonce attempt replay g :
  guard_wf g ->
  guard_wf (countable now src branch nonce attempt replay g).2 /\
  (forall k, k <> enumKey src -> record_at (countable now src branch nonce attempt replay g).2 k = record_at g k) /\
  if (countable now src branch nonce attempt replay g).1
  then nonce <> [] /\ exists r, record_at g (enumKey src) = Some r /\
       recent (cells (nonces r)) (regHash nonce) now regNonceTTL = true /\
       (replay = true -> branch <> [] /\ recent (cells (branches r)) (regHash branch) now regReplayWindow = true) /\
       existsb (Z.eqb (attempt_id branch attempt)) (cells (struck r)) = false /\
       record_at (countable now src branch nonce attempt replay g).2 (enumKey src) =
         Some (mkRecord (nonces r) (branches r) (ring_put (attempt_id branch attempt) (struck r)))
  else (countable now src branch nonce attempt replay g).2 = g.
Proof.
  intros Hwf. unfold countable. case_bool_decide as Hn; [done|]. unfold record_at.
  destruct (lru_get (enumKey src) (gtab g)) as [r|] eqn:Er; [|done].
  destruct (recent (cells (nonces r)) _ _ _) eqn:E1; cbn [negb]; [|done].
  destruct (replay && _) eqn:E2; [done|]. destruct (existsb _ _) eqn:E3; [done|]. cbn [fst snd].
  unfold lru_get in *. cbn [gtab set_value entries]. split; [|split].
  - destruct Hwf as (? & ? & ?). split; [done|]. split; [|done]. apply wf_set_value; [done|by eexists].
  - intros k Hk. by rewrite lookup_insert_ne.
  - split; [done|]. exists r. rewrite lookup_insert_eq. split; [done|]. split; [done|]. split; [|done].
    intros ->. cbn [andb] in E2. apply orb_false_iff in E2 as [E4 E5%negb_false_iff].
    by apply bool_decide_eq_false in E4.
Qed.

Lemma guard_step_wf g o : guard_wf g -> guard_wf (guard_step g o).
Proof.
  intros H. destruct o as [now src branch ns|now src branch nonce att rep]; cbn [guard_step].
  - destruct (decide (ns = [])) as [->|Hn]; [done|]. by apply (challenged_record now src branch ns g AddrZero).
  - by apply countable_record.
Qed.

Lemma newRegGuard_wf : guard_wf newRegGuard.
Proof. split; [done|]. split; [apply wf_empty|done]. Qed.

(** ** What it remembers comes from the challenges *)

(** The stamps of a challenge's nonces and branch. *)
Definition nonce_stamp (ops : list guard_op) (k : Addr) (s : regStamp) : Prop :=
  exists t src branch ns n, Challenged t src branch ns ∈ ops /\ enumKey src = k /\ n ∈ ns /\ s = mkStamp (regHash n) t.

Definition branch_stamp (ops : list guard_op) (k : Addr) (s : regStamp) : Prop :=
  exists t src branch ns, Challenged t src branch ns ∈ ops /\ enumKey src = k /\ ns <> [] /\ branch <> [] /\
    s = mkStamp (regHash branch) t.

Definition explained_record (ops : list guard_op) (k : Addr) (r : regRecord) : Prop :=
  Forall (fun s => s = no_stamp \/ nonce_stamp ops k s) (cells (nonces r)) /\
  Forall (fun s => s = no_stamp \/ branch_stamp ops k s) (cells (branches r)).

Lemma explained_mono ops ops' k r : (forall o, o ∈ ops -> o ∈ ops') -> explained_record ops k r -> explained_record ops' k r.
Proof.
  intros Hs [Hn Hb]. split; eapply Forall_impl; [exact Hn| |exact Hb|]; intros s [->|H]; try (by left); right.
  - destruct H as (t & src & b & ns & n & H & H'). exists t, src, b, ns, n. split; [by apply Hs|exact H'].
  - destruct H as (t & src & b & ns & H & H'). exists t, src, b, ns. split; [by apply Hs|exact H'].
Qed.

Lemma explained_new ops k : explained_record ops k new_record.
Proof. split; cbn; repeat (apply Forall_cons; split; [by left|]); done. Qed.

Lemma ring_put_forall {A} (P : A -> Prop) x r : P x -> Forall P (cells r) -> Forall P (cells (ring_put x r)).
Proof. intros Hx H. cbn. by apply Forall_insert. Qed.

Lemma note_explained ops k now src branch ns r : enumKey src = k -> ns <> [] -> Challenged now src branch ns ∈ ops ->
  explained_record ops k r -> explained_record ops k (note_challenge now branch ns r).
Proof.
  intros Hk Hns Hin [Hn Hb]. split; cbn [note_challenge nonces branches].
  - assert (Hsub : forall n, n ∈ ns -> n ∈ ns) by done. revert Hsub. generalize ns at 1 3. intros l Hl. revert Hl Hn.
    generalize (nonces r). induction l as [|n l IH]; intros x Hl Hx; [done|]. cbn [fold_left]. apply IH.
    + intros m Hm. apply Hl. by right.
    + apply ring_put_forall; [|done]. right. exists now, src, branch, ns, n. repeat split; try done. apply Hl. by left.
  - case_bool_decide as He; [done|]. apply ring_put_forall; [|done]. right. by exists now, src, branch, ns.
Qed.

Definition run_guard (g : regGuard) (ops : list guard_op) : regGuard := run_ops guard_step g ops.

Lemma run_guard_app g a b : run_guard g (a ++ b) = run_guard (run_guard g a) b.
Proof. apply fold_left_app. Qed.

Lemma run_guard_explained ops : guard_wf (run_guard newRegGuard ops) /\
  forall k r, record_at (run_guard newRegGuard ops) k = Some r -> explained_record ops k r.
Proof.
  induction ops as [|o ops [Hw IH]] using rev_ind; [split; [apply newRegGuard_wf|]; intros k r; unfold record_at, lru_get; cbn; by rewrite lookup_empty|].
  rewrite run_guard_app. cbn [run_guard run_ops fold_left]. fold (run_guard newRegGuard ops).
  set (g := run_guard newRegGuard ops) in *. clearbody g. split; [by apply guard_step_wf|].
  assert (Hmono : forall k r, explained_record ops k r -> explained_record (ops ++ [o]) k r).
  { intros k r. apply explained_mono. intros x Hx. apply elem_of_app. by left. }
  destruct o as [now src branch ns|now src branch nonce att rep]; intros k r Hr; cbn [guard_step] in Hr.
  - destruct (decide (ns = [])) as [->|Hns]; [by apply Hmono, IH|].
    destruct (challenged_record now src branch ns g k Hw Hns) as (_ & Hk & Ho).
    destruct (decide (k = enumKey src)) as [->|Hne].
    + rewrite Hk in Hr. injection Hr as <-. apply (note_explained _ _ now src); [done..|apply elem_of_app; right; by left|].
      destruct (record_at g (enumKey src)) as [r|] eqn:E; [by apply Hmono, IH|apply explained_new].
    + destruct (Ho Hne) as [E|E]; rewrite E in Hr; [by apply Hmono, IH|done].
  - destruct (countable_record now src branch nonce att rep g Hw) as (_ & Ho & Hc).
    destruct (decide (k = enumKey src)) as [->|Hne]; [|rewrite Ho in Hr by done; by apply Hmono, IH].
    destruct (countable _ _ _ _ _ _ g).1.
    + destruct Hc as (_ & r0 & Hr0 & _ & _ & _ & E). rewrite E in Hr. injection Hr as <-. by apply Hmono, (IH _ r0).
    + rewrite Hc in Hr. by apply Hmono, IH.
Qed.

Lemma recent_spec cs h now ttl : recent cs h now ttl = true <->
  exists s, s ∈ cs /\ st_h s = h /\ st_at s <> zero_time /\ time_sub now (st_at s) < ttl.
Proof.
  unfold recent. rewrite existsb_exists. unfold is_zero. split.
  - intros (s & Hs & H). exists s. rewrite list_elem_of_In. split; [done|]. lia.
  - intros (s & Hs & H). exists s. rewrite <- list_elem_of_In. split; [done|]. lia.
Qed.

Lemma forged_attempts_never_count_aux ops now src branch nonce attempt replay :
  (countable now src branch nonce attempt replay (run_guard newRegGuard ops)).1 = true ->
  nonce <> [] /\
  (exists t src' branch' ns n, Challenged t src' branch' ns ∈ ops /\ enumKey src' = enumKey src /\ n ∈ ns /\
     regHash n = regHash nonce /\ t <> zero_time /\ time_sub now t < regNonceTTL) /\
  (replay = true -> exists t src' branch' ns, Challenged t src' branch' ns ∈ ops /\ enumKey src' = enumKey src /\
     regHash branch' = regHash branch /\ t <> zero_time /\ time_sub now t < regReplayWindow).
Proof.
  intros H. destruct (run_guard_explained ops) as [Hw Hex].
  destruct (countable_record now src branch nonce attempt replay _ Hw) as (_ & _ & Hc). rewrite H in Hc.
  destruct Hc as (Hn & r & Hr & H1 & H2 & _). split; [done|]. apply Hex in Hr as [Fn Fb]. split.
  - apply recent_spec in H1 as (s & Hs & Hh & Hz & Ht). eapply Forall_forall in Fn; [|exact Hs].
    destruct Fn as [->|(t & src' & b' & ns & n & A & B & C & ->)]; [done|]. cbn in *.
    exists t, src', b', ns, n. done.
  - intros Hrep. destruct (H2 Hrep) as [_ H3]. apply recent_spec in H3 as (s & Hs & Hh & Hz & Ht).
    eapply Forall_forall in Fb; [|exact Hs]. destruct Fb as [->|(t & src' & b' & ns & A & B & _ & _ & ->)]; [done|].
    cbn in *. exists t, src', b', ns. done.
Qed.

(** a source forged in a datagram never earns its owner a strike: an
    attempt counts only when its nonce is one the edge relayed, in a challenge
    to that same source (its IPv4 address or IPv6 /64) within the last fifteen
    minutes, up to the hash that stands for it, and a replay only when its
    branch was challenged there within forty seconds. *)
Theorem forged_attempts_never_count ops now src branch nonce attempt replay :
  (countable now src branch nonce attempt replay (run_guard newRegGuard ops)).1 = true ->
  nonce <> [] /\
  (exists t src' branch' ns n, Challenged t src' branch' ns ∈ ops /\ enumKey src' = enumKey src /\ n ∈ ns /\
     regHash n = regHash nonce /\ t <> zero_time /\ time_sub now t < regNonceTTL) /\
  (replay = true -> exists t src' branch' ns, Challenged t src' branch' ns ∈ ops /\ enumKey src' = enumKey src /\
     regHash branch' = regHash branch /\ t <> zero_time /\ time_sub now t < regReplayWindow).
Proof. apply forged_attempts_never_count_aux. Qed.

(** ** An attempt counts once *)

Definition op_key (o : guard_op) : option Addr :=
  match o with Challenged _ src _ ns => if bool_decide (ns = []) then None else Some (enumKey src) | Attempted _ _ _ _ _ _ => None end.

(** The sources challenged. *)
Definition challenged_keys (ops : list guard_op) : gset Addr := list_to_set (omap op_key ops).

Lemma challenged_keys_app a b : challenged_keys (a ++ b) = challenged_keys a ∪ challenged_keys b.
Proof. unfold challenged_keys. by rewrite omap_app, list_to_set_app_L. Qed.

Lemma challenged_fits now src branch ns g : guard_wf g -> ns <> [] ->
  Z.of_nat (size (dom (entries (gtab g)) ∪ {[ enumKey src ]})) <= gmax g ->
  dom (entries (gtab (challenged now src branch ns g))) = {[ enumKey src ]} ∪ dom (entries (gtab g)) /\
  forall k, k <> enumKey src -> record_at (challenged now src branch ns g) k = record_at g k.
Proof.
  intros (Hm & Hw & Hl) Hn Hfit. unfold challenged. rewrite bool_decide_eq_false_2, enter_fits by done.
  destruct (entries (gtab g) !! enumKey src) as [r|] eqn:E; cbn [gtab set_value entries move_to_front push_front].
  - rewrite dom_insert_L. split; [done|]. intros k Hk. unfold record_at, lru_get. cbn. by rewrite lookup_insert_ne.
  - rewrite !dom_insert_L. split; [set_solver|]. intros k Hk. unfold record_at, lru_get. cbn. by rewrite !lookup_insert_ne.
Qed.

Lemma countable_dom now src branch nonce att rep g :
  dom (entries (gtab (countable now src branch nonce att rep g).2)) = dom (entries (gtab g)).
Proof.
  unfold countable. case_if; [done|]. destruct (lru_get _ _) as [r|] eqn:E; [|done].
  case_if; [done|]. case_if; [done|]. case_if; [done|]. cbn [snd gtab set_value entries].
  rewrite dom_insert_L. unfold lru_get in E. apply elem_of_dom_2 in E. set_solver.
Qed.

Lemma guard_step_max g o : gmax (guard_step g o) = gmax g.
Proof.
  destruct o; cbn [guard_step]; unfold challenged, countable.
  - case_if; [done|]. by destruct (enter _ _ _ _ _) as [[? ?] ?].
  - case_if; [done|]. destruct (lru_get _ _); [|done]. repeat (case_if; [done|]). done.
Qed.

Lemma dom_step g o : guard_wf g -> Z.of_nat (size (dom (entries (gtab g)) ∪ challenged_keys [o])) <= gmax g ->
  dom (entries (gtab (guard_step g o))) = dom (entries (gtab g)) ∪ challenged_keys [o].
Proof.
  intros Hw Hf. destruct o as [now src branch ns|now src branch nonce att rep]; cbn [guard_step].
  - unfold challenged_keys in *. cbn [omap list_omap op_key] in *. destruct (decide (ns = [])) as [->|Hn]; [cbn; set_solver|].
    rewrite bool_decide_eq_false_2 in * by done. cbn [list_to_set foldr] in *. rewrite union_empty_r_L in *.
    rewrite (proj1 (challenged_fits now src branch ns g Hw Hn Hf)). set_solver.
  - rewrite countable_dom. set_solver.
Qed.

Lemma run_guard_fits ops g : guard_wf g -> Z.of_nat (size (dom (entries (gtab g)) ∪ challenged_keys ops)) <= gmax g ->
  guard_wf (run_guard g ops) /\ dom (entries (gtab (run_guard g ops))) = dom (entries (gtab g)) ∪ challenged_keys ops /\
  gmax (run_guard g ops) = gmax g.
Proof.
  revert g. induction ops as [|o ops IH]; intros g Hw Hf; [split; [done|]; split; [cbn; set_solver|done]|].
  change (o :: ops) with ([o] ++ ops) in *. rewrite challenged_keys_app in *. rewrite run_guard_app.
  assert (Hf1 : Z.of_nat (size (dom (entries (gtab g)) ∪ challenged_keys [o])) <= gmax g).
  { etrans; [|exact Hf]. apply inj_le, subseteq_size. set_solver. }
  pose proof (dom_step g o Hw Hf1) as Hd. cbn [run_guard run_ops fold_left]. fold (run_guard (guard_step g o) ops).
  destruct (IH (guard_step g o)) as (H1 & H2 & H3); [by apply guard_step_wf| |].
  - rewrite Hd, guard_step_max. by rewrite <- union_assoc_L.
  - rewrite guard_step_max in H3. split; [done|]. split; [rewrite H2, Hd; set_solver|done].
Qed.

(** How many attempts of the key a history counts. *)
Fixpoint counted (k : Addr) (g : regGuard) (ops : list guard_op) : nat :=
  match ops with
  | [] => 0
  | o :: ops =>
      match o with
      | Attempted now src branch nonce att rep =>
          if addr_eqb (enumKey src) k && (countable now src branch nonce att rep g).1 then 1 else 0
      | Challenged _ _ _ _ => 0
      end + counted k (guard_step g o) ops
  end%nat.

(** [id] was put in the ring, and [n] others after it. *)
Definition put_ago (id : Z) (n : nat) (r : ring Z) : Prop :=
  length (cells r) = regStruckPerSource /\ exists p, cells r !! p = Some id /\ at_ r = Nat.modulo (p + 1 + n) regStruckPerSource.

Lemma put_ago_step id n x r : put_ago id n r -> (S n < regStruckPerSource)%nat -> put_ago id (S n) (ring_put x r).
Proof.
  intros (Hl & p & Hp & Ha) Hn. split; [cbn; by rewrite length_insert|]. exists p.
  pose proof (lookup_lt_Some _ _ _ Hp) as Hlt. rewrite Hl in Hlt. unfold regStruckPerSource in *.
  cbn [ring_put cells at_]. rewrite Ha, Hl. split.
  - rewrite list_lookup_insert_ne; [done|]. intros E.
    destruct (le_lt_dec 16 (p + 1 + n)) as [L|L].
    + assert (Nat.modulo (p + 1 + n) 16 = p + 1 + n - 16)%nat.
      { rewrite <- (Nat.mod_small (p + 1 + n - 16) 16) by lia. rewrite <- (Nat.Div0.mod_add (p + 1 + n - 16) 1 16). f_equal. lia. }
      lia.
    + rewrite Nat.mod_small in E by lia. lia.
  - rewrite Nat.Div0.add_mod_idemp_l. f_equal. lia.
Qed.

Lemma put_ago_new id r : length (cells r) = regStruckPerSource -> (at_ r < regStruckPerSource)%nat -> put_ago id 0 (ring_put id r).
Proof.
  intros Hl Ha. split; [cbn; by rewrite length_insert|]. exists (at_ r). cbn [ring_put cells at_]. rewrite Hl. split.
  - apply list_lookup_insert_eq. lia.
  - by rewrite Nat.add_0_r.
Qed.

Lemma put_ago_in id n r : put_ago id n r -> existsb (Z.eqb id) (cells r) = true.
Proof.
  intros (_ & p & Hp & _). apply existsb_exists. exists id. split; [|apply Z.eqb_refl].
  apply list_elem_of_In. by eapply list_elem_of_lookup_2.
Qed.

(** A ring of counted attempts is always full size. *)
Definition ring_ok (r : regRecord) : Prop :=
  length (cells (struck r)) = regStruckPerSource /\ (at_ (struck r) < regStruckPerSource)%nat.

Definition rings_ok (g : regGuard) : Prop := forall k r, record_at g k = Some r -> ring_ok r.

Lemma rings_step g o : guard_wf g -> rings_ok g -> rings_ok (guard_step g o).
Proof.
  intros Hw Hr. destruct o as [now src branch ns|now src branch nonce att rep]; intros k r E; cbn [guard_step] in E.
  - destruct (decide (ns = [])) as [->|Hns]; [by apply (Hr k)|].
    destruct (challenged_record now src branch ns g k Hw Hns) as (_ & Hk & Ho).
    destruct (decide (k = enumKey src)) as [->|Hne].
    + rewrite Hk in E. injection E as <-. destruct (record_at g (enumKey src)) as [r0|] eqn:E0.
      * exact (Hr _ _ E0).
      * split; [done|]. cbn. unfold regStruckPerSource. lia.
    + destruct (Ho Hne) as [E1|E1]; rewrite E1 in E; [by apply (Hr k)|done].
  - destruct (countable_record now src branch nonce att rep g Hw) as (_ & Ho & Hc).
    destruct (decide (k = enumKey src)) as [->|Hne]; [|rewrite Ho in E by done; by apply (Hr k)].
    destruct (countable _ _ _ _ _ _ g).1.
    + destruct Hc as (_ & r0 & Hr0 & _ & _ & _ & E1). rewrite E1 in E. injection E as <-. destruct (Hr _ _ Hr0) as [A B].
      split; [cbn; by rewrite length_insert|]. cbn [ring_put struck at_]. rewrite A. apply Nat.mod_upper_bound. unfold regStruckPerSource. lia.
    + rewrite Hc in E. by apply (Hr (enumKey src)).
Qed.

Lemma run_rings ops : guard_wf (run_guard newRegGuard ops) /\ rings_ok (run_guard newRegGuard ops).
Proof.
  unfold run_guard. apply (run_ops_inv guard_step (fun g => guard_wf g /\ rings_ok g)).
  - intros g o [A B]. split; [by apply guard_step_wf|by apply rings_step].
  - split; [apply newRegGuard_wf|]. intros k r. unfold record_at, lru_get. cbn. by rewrite lookup_empty.
Qed.

(** A counted attempt stays known while fewer than sixteen others of its
    source are counted and nothing is evicted. *)
Lemma put_ago_run k id ops : forall g n, guard_wf g ->
  (exists r, record_at g k = Some r /\ put_ago id n (struck r)) ->
  Z.of_nat (size (dom (entries (gtab g)) ∪ challenged_keys ops)) <= gmax g ->
  (n + counted k g ops < regStruckPerSource)%nat ->
  exists r m, record_at (run_guard g ops) k = Some r /\ put_ago id m (struck r).
Proof.
  induction ops as [|o ops IH]; intros g n Hw (r & Hr & Hp) Hf Hc; [by exists r, n|].
  change (o :: ops) with ([o] ++ ops) in *. rewrite challenged_keys_app in Hf.
  assert (Hf1 : Z.of_nat (size (dom (entries (gtab g)) ∪ challenged_keys [o])) <= gmax g).
  { etrans; [|exact Hf]. apply inj_le, subseteq_size. set_solver. }
  assert (Hf2 : Z.of_nat (size (dom (entries (gtab (guard_step g o))) ∪ challenged_keys ops)) <= gmax (guard_step g o)).
  { rewrite dom_step, guard_step_max by done. by rewrite <- union_assoc_L. }
  rewrite run_guard_app. cbn [run_guard run_ops fold_left]. fold (run_guard (guard_step g o) ops).
  cbn [counted app] in Hc.
  destruct o as [now src branch ns|now src branch nonce att rep].
  - apply (IH _ n); [by apply guard_step_wf| |done|lia]. cbn [guard_step].
    destruct (decide (ns = [])) as [->|Hns]; [by exists r|].
    destruct (decide (k = enumKey src)) as [->|Hne].
    + destruct (challenged_record now src branch ns g AddrZero Hw Hns) as (_ & Hk & _). rewrite Hr in Hk. by eexists.
    + destruct (challenged_fits now src branch ns g Hw Hns) as [_ Ho].
      { etrans; [|exact Hf1]. unfold challenged_keys. cbn [omap list_omap op_key]. rewrite bool_decide_eq_false_2 by done.
        cbn [list_to_set foldr]. by rewrite union_empty_r_L. }
      exists r. by rewrite Ho.
  - destruct (countable_record now src branch nonce att rep g Hw) as (_ & Ho & Hcc).
    destruct (decide (enumKey src = k)) as [<-|Hne].
    + unfold addr_eqb in Hc. rewrite bool_decide_eq_true_2 in Hc by done. cbn [andb] in Hc. cbn [guard_step] in *.
      destruct (countable now src branch nonce att rep g).1.
      * destruct Hcc as (_ & r0 & Hr0 & _ & _ & _ & E). rewrite Hr in Hr0. injection Hr0 as <-.
        apply (IH _ (S n)); [by apply (guard_step_wf g (Attempted now src branch nonce att rep))| |done|lia].
        eexists. split; [exact E|]. apply put_ago_step; [done|lia].
      * rewrite Hcc in *. apply (IH _ n); [done|by exists r|done|lia].
    + apply (IH _ n); [by apply guard_step_wf| |done|unfold addr_eqb in Hc; rewrite bool_decide_eq_false_2 in Hc by done; cbn [andb] in Hc; lia].
      exists r. cbn [guard_step]. split; [|done]. rewrite Ho by done. done.
Qed.

(** a refused attempt is one strike however often it is seen: once it
    was counted, its retransmissions and replays, and the registrar's own
    answer to it, count nothing, whatever the time and the nonce, as long as
    fewer than sixteen other attempts of the source were counted since and the
    challenged sources fit the table. *)
Theorem attempts_count_once ops os now src branch nonce attempt replay now' nonce' replay' :
  let g := run_guard newRegGuard ops in
  let a := Attempted now src branch nonce attempt replay in
  Z.of_nat (size (challenged_keys (ops ++ os))) <= regGuardSources ->
  (countable now src branch nonce attempt replay g).1 = true ->
  (counted (enumKey src) (guard_step g a) os < regStruckPerSource)%nat ->
  (countable now' src branch nonce' attempt replay' (run_guard (guard_step g a) os)).1 = false.
Proof.
  cbv zeta. intros Hf H Hc. destruct (run_rings ops) as [Hw Hr].
  destruct (run_guard_fits ops newRegGuard newRegGuard_wf) as (_ & Hd & Hm).
  { etrans; [|exact Hf]. apply inj_le, subseteq_size. rewrite challenged_keys_app. cbn. set_solver. }
  set (g := run_guard newRegGuard ops) in *.
  destruct (countable_record now src branch nonce attempt replay g Hw) as (Hw' & _ & Hcc). rewrite H in Hcc.
  destruct Hcc as (_ & r & Hr0 & _ & _ & _ & E). destruct (Hr _ _ Hr0) as [A B].
  destruct (put_ago_run (enumKey src) (attempt_id branch attempt) os
              (guard_step g (Attempted now src branch nonce attempt replay)) 0) as (r' & m & Hr' & Hp).
  - exact Hw'.
  - cbn [guard_step]. eexists. split; [exact E|]. by apply put_ago_new.
  - rewrite guard_step_max, Hm. cbn [guard_step]. rewrite countable_dom, Hd. etrans; [|exact Hf].
    apply inj_le, subseteq_size. rewrite challenged_keys_app. cbn. set_solver.
  - exact Hc.
  - unfold countable. case_bool_decide; [done|]. unfold record_at in Hr'. rewrite Hr'.
    case_if; [done|]. case_if; [done|]. by rewrite (put_ago_in _ _ _ Hp).
Qed.

(** ** Refused guesses are counted *)

Lemma ring_fold {A} (x0 : ring A) L xs : length (cells x0) = L -> (at_ x0 < L)%nat -> (length xs <= L)%nat ->
  let r := fold_left (fun r x => ring_put x r) xs x0 in
  length (cells r) = L /\ at_ r = Nat.modulo (at_ x0 + length xs) L /\
  forall j x, xs !! j = Some x -> cells r !! (Nat.modulo (at_ x0 + j) L) = Some x.
Proof.
  intros Hl Ha. cbv zeta. induction xs as [|y xs IH] using rev_ind; intros Hn.
  - cbn. split; [done|]. split; [|done]. rewrite Nat.add_0_r. by rewrite Nat.mod_small.
  - rewrite length_app in *. cbn [length] in *. rewrite fold_left_app. cbn [fold_left].
    destruct IH as (I1 & I2 & I3); [lia|]. set (r := fold_left _ xs x0) in *. clearbody r.
    cbn [ring_put cells at_]. rewrite length_insert, I1, I2. split; [done|].
    assert (HL : L <> 0%nat) by lia. split.
    { rewrite Nat.Div0.add_mod_idemp_l. f_equal. lia. }
    intros j x Hj. destruct (decide (j = length xs)) as [->|Hne].
    + rewrite list_lookup_middle in Hj by done. injection Hj as <-. apply list_lookup_insert_eq. rewrite I1.
      by apply Nat.mod_upper_bound.
    + assert (j < length xs)%nat.
      { apply lookup_lt_Some in Hj. rewrite length_app in Hj. cbn [length] in Hj. lia. }
      rewrite lookup_app_l in Hj by done. rewrite list_lookup_insert_ne; [by apply I3|]. intros E.
      pose proof (Nat.div_mod_eq (at_ x0 + length xs) L). pose proof (Nat.div_mod_eq (at_ x0 + j) L).
      assert (L * ((at_ x0 + length xs) / L - (at_ x0 + j) / L) = length xs - j)%nat by nia.
      assert ((at_ x0 + length xs) / L - (at_ x0 + j) / L = 0 \/ 1 <= (at_ x0 + length xs) / L - (at_ x0 + j) / L)%nat as [Z0|Z1] by lia; nia.
Qed.

Definition stamps_ok (r : regRecord) : Prop :=
  length (cells (nonces r)) = regNoncesPerSource /\ (at_ (nonces r) < regNoncesPerSource)%nat /\
  length (cells (branches r)) = regBranchesPerSource /\ (at_ (branches r) < regBranchesPerSource)%nat.

Lemma fold_put_ok {A} (f : gostring -> A) L ns : forall x : ring A, length (cells x) = L -> (at_ x < L)%nat ->
  length (cells (fold_left (fun x n => ring_put (f n) x) ns x)) = L /\ (at_ (fold_left (fun x n => ring_put (f n) x) ns x) < L)%nat.
Proof.
  induction ns as [|n ns IH]; intros x Hl Ha; [done|]. cbn [fold_left]. apply IH; cbn; [by rewrite length_insert|].
  rewrite Hl. apply Nat.mod_upper_bound. lia.
Qed.

Lemma stamps_note now branch ns r : stamps_ok r -> stamps_ok (note_challenge now branch ns r).
Proof.
  intros (A & B & C & D). unfold stamps_ok, note_challenge. cbn [nonces branches].
  destruct (fold_put_ok (fun n => mkStamp (regHash n) now) _ ns _ A B) as [E F]. split; [done|]. split; [done|].
  case_bool_decide; [done|]. cbn. rewrite length_insert, C. split; [done|]. apply Nat.mod_upper_bound. vm_compute. lia.
Qed.

Lemma stamps_new : stamps_ok new_record.
Proof. vm_compute. repeat split; lia. Qed.

Lemma stamps_run ops k r : record_at (run_guard newRegGuard ops) k = Some r -> stamps_ok r.
Proof.
  revert k r. induction ops as [|o ops IH] using rev_ind; intros k r; [unfold record_at, lru_get; cbn; by rewrite lookup_empty|].
  rewrite run_guard_app. cbn [run_guard run_ops fold_left]. fold (run_guard newRegGuard ops).
  destruct (run_rings ops) as [Hw _]. set (g := run_guard newRegGuard ops) in *. clearbody g. intros E.
  destruct o as [now src branch ns|now src branch nonce att rep]; cbn [guard_step] in E.
  - destruct (decide (ns = [])) as [->|Hns]; [by apply (IH k)|].
    destruct (challenged_record now src branch ns g k Hw Hns) as (_ & Hk & Ho).
    destruct (decide (k = enumKey src)) as [->|Hne].
    + rewrite Hk in E. injection E as <-. apply stamps_note. destruct (record_at g (enumKey src)) as [r0|] eqn:E0.
      * exact (IH _ _ E0).
      * apply stamps_new.
    + destruct (Ho Hne) as [E1|E1]; rewrite E1 in E; [by apply (IH k)|done].
  - destruct (countable_record now src branch nonce att rep g Hw) as (_ & Ho & Hc).
    destruct (decide (k = enumKey src)) as [->|Hne]; [|rewrite Ho in E by done; by apply (IH k)].
    destruct (countable _ _ _ _ _ _ g).1.
    + destruct Hc as (_ & r0 & Hr0 & _ & _ & _ & E1). rewrite E1 in E. injection E as <-. exact (IH _ _ Hr0).
    + rewrite Hc in E. by apply (IH (enumKey src)).
Qed.

(** a refused guess is counted: right after a challenge (of up to four
    nonces) was relayed to a source, an attempt from it with one of those
    nonces, at any time within fifteen minutes, and a replay of it on the
    challenged branch within forty seconds, is a strike, unless it is among
    the source's last counted attempts. *)
Theorem refused_guesses_count ops now src branch ns now' src' branch' nonce attempt replay :
  let g := run_guard newRegGuard ops in
  (length ns <= regNoncesPerSource)%nat -> nonce ∈ ns -> nonce <> [] -> now <> zero_time ->
  enumKey src' = enumKey src -> time_sub now' now < regNonceTTL ->
  (replay = true -> branch' = branch /\ branch <> [] /\ time_sub now' now < regReplayWindow) ->
  attempt_id branch' attempt ∉ cells (struck (default new_record (record_at g (enumKey src)))) ->
  (countable now' src' branch' nonce attempt replay (challenged now src branch ns g)).1 = true.
Proof.
  cbv zeta. intros Hl Hin Hne Hz Hk Ht Hrep Hfresh. destruct (run_rings ops) as [Hw _].
  set (g := run_guard newRegGuard ops) in *.
  assert (Hns : ns <> []) by (intros ->; by apply elem_of_nil in Hin).
  destruct (challenged_record now src branch ns g AddrZero Hw Hns) as (_ & Hr & _).
  assert (Hs : stamps_ok (default new_record (record_at g (enumKey src)))).
  { destruct (record_at g (enumKey src)) as [r|] eqn:E; [by apply (stamps_run ops (enumKey src))|apply stamps_new]. }
  set (r := default new_record (record_at g (enumKey src))) in *. clearbody r. destruct Hs as (A & B & C & D).
  unfold countable. rewrite bool_decide_eq_false_2, Hk by done. unfold record_at in Hr. rewrite Hr.
  cbn [note_challenge nonces branches struck].
  assert (recent (cells (fold_left (fun x n => ring_put (mkStamp (regHash n) now) x) ns (nonces r))) (regHash nonce) now' regNonceTTL = true) as ->.
  { apply recent_spec. exists (mkStamp (regHash nonce) now). split; [|done].
    pose proof (ring_fold (nonces r) _ (map (fun n => mkStamp (regHash n) now) ns) A B) as RF. cbv zeta in RF.
    rewrite length_map in RF. destruct (RF Hl) as (_ & _ & RF3). clear RF.
    apply list_elem_of_lookup in Hin as [j Hj].
    assert (Hm : map (fun n => mkStamp (regHash n) now) ns !! j = Some (mkStamp (regHash nonce) now)).
    { change (map (fun n => mkStamp (regHash n) now) ns) with ((fun n => mkStamp (regHash n) now) <$> ns). by rewrite list_lookup_fmap, Hj. }
    apply RF3 in Hm. apply list_elem_of_lookup_2 in Hm. revert Hm.
    assert (forall l x, fold_left (fun r0 s => ring_put s r0) (map (fun n => mkStamp (regHash n) now) l) x =
                        fold_left (fun x n => ring_put (mkStamp (regHash n) now) x) l x) as ->; [|done].
    induction l as [|n l IHl]; intros x; [done|]. cbn. apply IHl. }
  cbn [negb]. assert (replay && (bool_decide (branch' = []) || negb (recent (cells
     (if bool_decide (branch = []) then branches r else ring_put (mkStamp (regHash branch) now) (branches r))) (regHash branch') now' regReplayWindow)) = false) as ->.
  { destruct replay; [|done]. destruct (Hrep eq_refl) as (-> & Hb & Ht'). rewrite bool_decide_eq_false_2 by done. cbn [andb orb].
    apply negb_false_iff, recent_spec. exists (mkStamp (regHash branch) now). split; [|done]. cbn [ring_put cells].
    apply (list_elem_of_lookup_2 _ (at_ (branches r))). apply list_lookup_insert_eq. lia. }
  destruct (existsb _ _) eqn:E; [|done]. exfalso. apply existsb_exists in E as (x & Hx & E). apply Z.eqb_eq in E as <-.
  apply Hfresh. by apply list_elem_of_In.
Qed.

(** ** Witnesses *)

Definition demo_src : Addr := ip4 198 51 100 7.
Definition demo_ops : list guard_op := [Challenged 100 demo_src (str "z9hG4bKa") [str "n1"]].

Lemma forged_attempts_never_count_witness :
  (countable 200 demo_src (str "z9hG4bKb") (str "n1") 7 false (run_guard newRegGuard demo_ops)).1 = true /\ str "n1" <> [].
Proof.
  assert (H : (countable 200 demo_src (str "z9hG4bKb") (str "n1") 7 false (run_guard newRegGuard demo_ops)).1 = true)
    by (vm_compute; reflexivity).
  split; [exact H|]. exact (proj1 (forged_attempts_never_count demo_ops 200 demo_src (str "z9hG4bKb") (str "n1") 7 false H)).
Defined.

Lemma attempts_count_once_witness :
  (countable 300 demo_src (str "z9hG4bKb") (str "n1") 7 true
     (run_guard (guard_step (run_guard newRegGuard demo_ops) (Attempted 200 demo_src (str "z9hG4bKb") (str "n1") 7 false)) [])).1 = false.
Proof.
  apply (attempts_count_once demo_ops [] 200 demo_src (str "z9hG4bKb") (str "n1") 7 false 300 (str "n1") true).
  - vm_compute. discriminate.
  - vm_compute. reflexivity.
  - vm_compute. lia.
Defined.

Lemma refused_guesses_count_witness :
  (countable 200 demo_src (str "z9hG4bKa") (str "n1") 7 true
     (challenged 100 demo_src (str "z9hG4bKa") [str "n1"] (run_guard newRegGuard []))).1 = true.
Proof.
  apply (refused_guesses_count [] 100 demo_src (str "z9hG4bKa") [str "n1"]); try (vm_compute; (reflexivity || lia || discriminate)).
  - by left.
  - intros _. split; [done|]. split; [done|]. vm_compute. reflexivity.
  - apply (bool_decide_unpack _). vm_compute. exact I.
Defined.
