(* ===== verification/GoHash.v ===== *)
(** crypto/sha256, crypto/sha512 and encoding/base32 of the standard library,
    as internal/edge/carrierreg.go and internal/media/webrtcleg.go use them:
    digests and base32 text without padding. *)

From S2P Require Import Prelude.

Open Scope Z_scope.

(** ** SHA-2 *)

(** The two word sizes share one description: bytes of a word, rounds, the
    rotations of the four sigma functions (the last of the small ones is a
    shift), the round constants, the initial state and the bytes of the digest. *)
Record sha2 := mkSha {
  sh_bytes : nat; sh_rounds : nat; sh_S0 : Z * Z * Z; sh_S1 : Z * Z * Z; sh_s0 : Z * Z * Z; sh_s1 : Z * Z * Z;
  sh_k : list Z; sh_init : list Z; sh_out : nat
}.

(** The constants are defined, not listed: the first bits of the fractional
    parts of the square and cube roots of the first primes. *)
Fixpoint primes_from (fuel : nat) (found : list Z) (n : Z) : list Z :=
  match fuel with
  | O => found
  | S fuel => primes_from fuel (if forallb (fun p => negb (n mod p =? 0)) found then found ++ [n] else found) (n + 1)
  end.

(** The integer cube root, by bisection over [bits] bits. *)
Fixpoint cube_root (bits : nat) (r n : Z) : Z :=
  match bits with
  | O => r
  | S bits =>
      let r' := r + 2 ^ Z.of_nat bits in
      cube_root bits (if r' * r' * r' <=? n then r' else r) n
  end.

(** 409 is the 80th prime. *)
Definition primes80 : list Z := Eval vm_compute in primes_from 408 [] 2.
Definition cube_bits (w p : Z) : Z := wrap_uint w (cube_root 80 0 (p * 2 ^ (3 * w))).
Definition square_bits (w p : Z) : Z := wrap_uint w (Z.sqrt (p * 2 ^ (2 * w))).

Definition sha256 : sha2 := Eval vm_compute in
  mkSha 4 64 (2, 13, 22) (6, 11, 25) (7, 18, 3) (17, 19, 10)
    (map (cube_bits 32) (take 64 primes80)) (map (square_bits 32) (take 8 primes80)) 32.
Definition sha512 : sha2 := Eval vm_compute in
  mkSha 8 80 (28, 34, 39) (14, 18, 41) (1, 8, 7) (19, 61, 6)
    (map (cube_bits 64) primes80) (map (square_bits 64) (take 8 primes80)) 64.
Definition sha384 : sha2 := Eval vm_compute in
  mkSha 8 80 (28, 34, 39) (14, 18, 41) (1, 8, 7) (19, 61, 6)
    (map (cube_bits 64) primes80) (map (square_bits 64) (take 8 (drop 8 primes80))) 48.

Section Sha.
Variable h : sha2.

Definition sh_bits : Z := 8 * Z.of_nat (sh_bytes h).
Definition sh_block : nat := 16 * sh_bytes h.
Definition word (z : Z) : Z := wrap_uint sh_bits z.
Definition rotr (n x : Z) : Z := Z.lor (Z.shiftr x n) (word (Z.shiftl x (sh_bits - n))).
Definition big_sigma (r : Z * Z * Z) (x : Z) : Z := Z.lxor (Z.lxor (rotr r.1.1 x) (rotr r.1.2 x)) (rotr r.2 x).
Definition small_sigma (r : Z * Z * Z) (x : Z) : Z := Z.lxor (Z.lxor (rotr r.1.1 x) (rotr r.1.2 x)) (Z.shiftr x r.2).

(** The message with its 1 bit, zeros and its length in bits on two words. *)
Definition sha_pad (msg : list Z) : list Z :=
  let l := (2 * sh_bytes h)%nat in
  msg ++ [128] ++
  replicate (Nat.modulo (2 * sh_block - 1 - l - Nat.modulo (length msg) sh_block) sh_block) 0 ++ be l (8 * len msg).

Definition words (bs : list Z) : list Z :=
  map (fun i => be_value (take (sh_bytes h) (drop (i * sh_bytes h) bs))) (seq 0 16).

(** The message schedule: [n] words more, after those of [w]. *)
Fixpoint schedule (n : nat) (w : list Z) : list Z :=
  match n with
  | O => w
  | S n =>
      let x j := nth (length w - j) w 0 in
      schedule n (w ++ [word (small_sigma (sh_s1 h) (x 2%nat) + x 7%nat + small_sigma (sh_s0 h) (x 15%nat) + x 16%nat)])
  end.

Definition sha_round (st : list Z) (kw : Z * Z) : list Z :=
  match st with
  | [a; b; c; d; e; f; g; v] =>
      let choose := Z.lxor (Z.land e f) (Z.land (Z.lxor e (2 ^ sh_bits - 1)) g) in
      let majority := Z.lxor (Z.lxor (Z.land a b) (Z.land a c)) (Z.land b c) in
      let x := word (v + big_sigma (sh_S1 h) e + choose + kw.1 + kw.2) in
      [word (x + big_sigma (sh_S0 h) a + majority); a; b; c; word (d + x); e; f; g]
  | _ => st
  end.

Definition sha_block (st block : list Z) : list Z :=
  zip_with (fun x y => word (x + y)) st
    (fold_left sha_round (zip (sh_k h) (schedule (sh_rounds h - 16) (words block))) st).

Fixpoint sha_blocks (n : nat) (st bs : list Z) : list Z :=
  match n with
  | O => st
  | S n => sha_blocks n (sha_block st (take sh_block bs)) (drop sh_block bs)
  end.

Definition sha_sum (msg : list Z) : list Z :=
  let p := sha_pad msg in
  take (sh_out h) (concat (map (be (sh_bytes h)) (sha_blocks (Nat.div (length p) sh_block) (sh_init h) p))).

Lemma sha_round_length st kw : length st = 8%nat -> length (sha_round st kw) = 8%nat.
Proof. do 8 (destruct st as [|? st]; [done|]). by destruct st. Qed.

Lemma sha_blocks_length n : forall st bs, length st = 8%nat -> length (sha_blocks n st bs) = 8%nat.
Proof.
  induction n as [|n IH]; intros st bs H; [done|]. cbn [sha_blocks]. apply IH. unfold sha_block.
  rewrite length_zip_with. assert (forall l s, length s = 8%nat -> length (fold_left sha_round l s) = 8%nat) as K.
  { induction l as [|x l IHl]; intros s Hs; [done|]. cbn [fold_left]. apply IHl. by apply sha_round_length. }
  rewrite K by done. lia.
Qed.

Lemma concat_words l : length (concat (map (be (sh_bytes h)) l)) = (length l * sh_bytes h)%nat.
Proof. induction l as [|x l IH]; [done|]. simpl. rewrite length_app, be_length, IH. lia. Qed.

Lemma sha_sum_length msg : length (sh_init h) = 8%nat -> (sh_out h <= 8 * sh_bytes h)%nat -> length (sha_sum msg) = sh_out h.
Proof.
  intros Hi Ho. unfold sha_sum. cbv zeta. rewrite length_take, concat_words, sha_blocks_length by done. lia.
Qed.
End Sha.

(** [sha256.Sum256], [sha512.Sum512], [sha512.Sum384] *)
Definition Sum256 : list Z -> list Z := sha_sum sha256.
Definition Sum512 : list Z -> list Z := sha_sum sha512.
Definition Sum384 : list Z -> list Z := sha_sum sha384.

(** ** Base 32 *)

Definition b32_alphabet : gostring := str "ABCDEFGHIJKLMNOPQRSTUVWXYZ234567".

(** [base32.StdEncoding.WithPadding(NoPadding).EncodeToString]: five bits a
    character, most significant first, the last filled up with zeros. *)
Definition b32_encode (bs : list Z) : gostring :=
  let n := Nat.div (8 * length bs + 4) 5 in
  let z := be_value bs * 2 ^ (Z.of_nat (5 * n) - 8 * len bs) in
  map (fun i => nth (Z.to_nat (Z.shiftr z (5 * Z.of_nat (n - 1 - i)) mod 32)) b32_alphabet 0) (seq 0 n).

(** The standards' test vectors. *)
Example sha256_abc : Sum256 (str "abc") = be 32 0xba7816bf8f01cfea414140de5dae2223b00361a396177a9cb410ff61f20015ad.
Proof. vm_compute. reflexivity. Qed.

Example sha256_two_blocks : Sum256 (str "abcdbcdecdefdefgefghfghighijhijkijkljklmklmnlmnomnopnopq") = be 32 0x248d6a61d20638b8e5c026930c3e6039a33ce45964ff2167f6ecedd419db06c1.
Proof. vm_compute. reflexivity. Qed.

Example sha512_abc : Sum512 (str "abc") = be 64 0xddaf35a193617abacc417349ae20413112e6fa4e89a97ea20a9eeee64b55d39a2192992a274fc1a836ba3c23a3feebbd454d4423643ce80e2a9ac94fa54ca49f.
Proof. vm_compute. reflexivity. Qed.

Example sha384_two_blocks : Sum384 (str "abcdbcdecdefdefgefghfghighijhijkijkljklmklmnlmnomnopnopqabcdbcdecdefdefgefghfghighijhijkijkljklmklmnlmnomnopnopqabcdbcdec") = be 48 0x7e69e78e176e8c43a86ebb26527adf7bba7e40db3a9d04d68ad60edd8c05f5edfb2afe9359b10c749b81e90bc03b0bf5.
Proof. vm_compute. reflexivity. Qed.

Example base32_foob : b32_encode (str "foob") = str "MZXW6YQ".
Proof. vm_compute. reflexivity. Qed.

Example base32_foobar : b32_encode (str "foobar") = str "MZXW6YTBOI".
Proof. vm_compute. reflexivity. Qed.

(** ** Sizes *)

Lemma Sum256_length msg : length (Sum256 msg) = 32%nat.
Proof. unfold Sum256. rewrite sha_sum_length; [done..|]. simpl. lia. Qed.

Lemma b32_encode_length bs : length (b32_encode bs) = Nat.div (8 * length bs + 4) 5.
Proof. unfold b32_encode. cbv zeta. by rewrite length_map, length_seq. Qed.
