(* ===== verification/WebRtcLeg.v ===== *)
(** The browser leg (internal/media/webrtcleg.go).

    A leg is one UDP socket, its ICE credentials and the state that
    establishment leaves behind.  Establishment runs in a goroutine next to
    the callers; each of its steps ([est_step]) is one event: what pion
    returned, with the critical section that follows.  A trace interleaves
    these with the operations of the callers ([leg_step]), so a [Close] may
    fall between any two.  pion's ICE agent and DTLS connection are the
    events; what they keep open is counted in [g_open]. *)

From S2P Require Import Prelude GoTime Netip GoText GoEncoding GoHash PortPool MediaSession.

Open Scope Z_scope.

(** ** Fingerprints *)

(** One constructor per sentinel of the file, and one for each error that has
    none; [errors.Is] sees the sentinel. *)
Inductive legError :=
  | errNoIdentity | errNoRemote | errNoAddress | errPool | errCredentials
  | ErrWebRTCNotReady | ErrICEFailed | ErrDTLSHandshake | ErrFingerprintMismatch | ErrRemoteMismatch
  | errNotOfferer | errLegClosed | errClosedEarly | errSRTPProfile | errSRTPContext.

#[export] Instance legError_eq_dec : EqDecision legError.
Proof. solve_decision. Defined.

Record fingerprint := mkFP { fp_hash : gostring; fp_value : gostring }.

#[export] Instance fingerprint_eq_dec : EqDecision fingerprint.
Proof. solve_decision. Defined.

(** The zero value: no fingerprint. *)
Definition no_fingerprint : fingerprint := mkFP [] [].

Definition newFingerprint (hash value : gostring) : fingerprint + legError :=
  let hash := to_lower hash in
  if negb (beq hash (str "sha-256") || beq hash (str "sha-384") || beq hash (str "sha-512"))
  then inr ErrFingerprintMismatch
  else if beq value [] then inr ErrFingerprintMismatch
  else inl (mkFP hash (to_upper value)).

(** [strings.ToUpper(hex.EncodeToString(sum))] *)
Definition hex_bytes (bs : list Z) : gostring :=
  to_upper (concat (map (fun b => [hex_digit (b / 16); hex_digit (b mod 16)]) bs)).

(** The loop over the pairs of [hexed]. *)
Fixpoint colon_pairs (hexed : gostring) : gostring :=
  match hexed with
  | a :: b :: ((_ :: _) as rest) => a :: b :: 58 :: colon_pairs rest
  | hexed => hexed
  end.

Definition fingerprintWith (hash : gostring) (der : list Z) : gostring :=
  let sum := if beq hash (str "sha-384") then Sum384 der
             else if beq hash (str "sha-512") then Sum512 der else Sum256 der in
  colon_pairs (hex_bytes sum).

(** [fingerprint.match]: [true] is a nil error; every error of it is
    [ErrFingerprintMismatch]. *)
Definition fp_match (f : fingerprint) (certs : list (list Z)) : bool :=
  match certs with
  | [] | [] :: _ => false
  | der :: _ => beq (fingerprintWith (fp_hash f) der) (fp_value f)
  end.

(** ** The leg *)

Inductive legState := legAllocated | legEstablishing | legEstablished | legFailed | legClosed.

#[export] Instance legState_eq_dec : EqDecision legState.
Proof. solve_decision. Defined.

(** The pion objects a leg opens. *)
Inductive pionObject := oMux | oAgent | oDemux | oDtls.

#[export] Instance pionObject_eq_dec : EqDecision pionObject.
Proof. solve_decision. Defined.

(** Where the establishing goroutine stands: the call it waits for. *)
Inductive stage :=
  | atMux | atAgent | atCandidate | atGather | atAccept | atDemux | atDtls | atHandshake | atCerts | atMatch | atKeys | atDone
  | failing (e : legError).

Section Leg.
Context {Ctx : Type}.
(** newContext over pion, and the key and salt length of a profile. *)
Variable newContext : SDESSuite -> list Z -> list Z -> option Ctx.
Variables KeyLen SaltLen : SDESSuite -> option Z.

Record WebRTCLeg := mkLeg {
  g_pool : nat; g_bind : Addr; g_port : Z;
  g_localUfrag : gostring; g_localPwd : gostring;
  g_remoteUfrag : gostring; g_remotePwd : gostring;
  g_dtlsClient : bool; g_remoteFingerprint : fingerprint;
  g_offerer : bool; g_remoteSet : bool;
  g_verified : bool;
  g_ready : bool;                  (* the ready channel is closed *)
  g_kept : list pionObject;        (* mux, agent, demux stored for Close *)
  g_open : list pionObject;        (* what is open *)
  g_keys : option (Ctx * Ctx);     (* in, out *)
  g_peerCerts : bool;              (* the accessor is set *)
  g_cancel : bool;
  g_err : option legError;
  g_state : legState;
  g_est : option stage             (* the goroutine, while it runs *)
}.

Definition with_remote (u p : gostring) (c : bool) (f : fingerprint) (g : WebRTCLeg) : WebRTCLeg :=
  mkLeg (g_pool g) (g_bind g) (g_port g) (g_localUfrag g) (g_localPwd g) u p c f (g_offerer g) true
    (g_verified g) (g_ready g) (g_kept g) (g_open g) (g_keys g) (g_peerCerts g) (g_cancel g) (g_err g) (g_state g) (g_est g).
Definition with_verified (v : bool) (g : WebRTCLeg) : WebRTCLeg :=
  mkLeg (g_pool g) (g_bind g) (g_port g) (g_localUfrag g) (g_localPwd g) (g_remoteUfrag g) (g_remotePwd g)
    (g_dtlsClient g) (g_remoteFingerprint g) (g_offerer g) (g_remoteSet g)
    v (g_ready g) (g_kept g) (g_open g) (g_keys g) (g_peerCerts g) (g_cancel g) (g_err g) (g_state g) (g_est g).
Definition with_ready (v : bool) (g : WebRTCLeg) : WebRTCLeg :=
  mkLeg (g_pool g) (g_bind g) (g_port g) (g_localUfrag g) (g_localPwd g) (g_remoteUfrag g) (g_remotePwd g)
    (g_dtlsClient g) (g_remoteFingerprint g) (g_offerer g) (g_remoteSet g)
    (g_verified g) v (g_kept g) (g_open g) (g_keys g) (g_peerCerts g) (g_cancel g) (g_err g) (g_state g) (g_est g).
Definition with_objects (kept opened : list pionObject) (g : WebRTCLeg) : WebRTCLeg :=
  mkLeg (g_pool g) (g_bind g) (g_port g) (g_localUfrag g) (g_localPwd g) (g_remoteUfrag g) (g_remotePwd g)
    (g_dtlsClient g) (g_remoteFingerprint g) (g_offerer g) (g_remoteSet g)
    (g_verified g) (g_ready g) kept opened (g_keys g) (g_peerCerts g) (g_cancel g) (g_err g) (g_state g) (g_est g).
Definition with_keys (k : Ctx * Ctx) (g : WebRTCLeg) : WebRTCLeg :=
  mkLeg (g_pool g) (g_bind g) (g_port g) (g_localUfrag g) (g_localPwd g) (g_remoteUfrag g) (g_remotePwd g)
    (g_dtlsClient g) (g_remoteFingerprint g) (g_offerer g) (g_remoteSet g)
    (g_verified g) (g_ready g) (g_kept g) (g_open g) (Some k) (g_peerCerts g) (g_cancel g) (g_err g) (g_state g) (g_est g).
Definition with_peerCerts (v : bool) (g : WebRTCLeg) : WebRTCLeg :=
  mkLeg (g_pool g) (g_bind g) (g_port g) (g_localUfrag g) (g_localPwd g) (g_remoteUfrag g) (g_remotePwd g)
    (g_dtlsClient g) (g_remoteFingerprint g) (g_offerer g) (g_remoteSet g)
    (g_verified g) (g_ready g) (g_kept g) (g_open g) (g_keys g) v (g_cancel g) (g_err g) (g_state g) (g_est g).
Definition with_cancel (v : bool) (g : WebRTCLeg) : WebRTCLeg :=
  mkLeg (g_pool g) (g_bind g) (g_port g) (g_localUfrag g) (g_localPwd g) (g_remoteUfrag g) (g_remotePwd g)
    (g_dtlsClient g) (g_remoteFingerprint g) (g_offerer g) (g_remoteSet g)
    (g_verified g) (g_ready g) (g_kept g) (g_open g) (g_keys g) (g_peerCerts g) v (g_err g) (g_state g) (g_est g).
Definition with_state (s : legState) (e : option legError) (g : WebRTCLeg) : WebRTCLeg :=
  mkLeg (g_pool g) (g_bind g) (g_port g) (g_localUfrag g) (g_localPwd g) (g_remoteUfrag g) (g_remotePwd g)
    (g_dtlsClient g) (g_remoteFingerprint g) (g_offerer g) (g_remoteSet g)
    (g_verified g) (g_ready g) (g_kept g) (g_open g) (g_keys g) (g_peerCerts g) (g_cancel g) e s (g_est g).
Definition with_est (v : option stage) (g : WebRTCLeg) : WebRTCLeg :=
  mkLeg (g_pool g) (g_bind g) (g_port g) (g_localUfrag g) (g_localPwd g) (g_remoteUfrag g) (g_remotePwd g)
    (g_dtlsClient g) (g_remoteFingerprint g) (g_offerer g) (g_remoteSet g)
    (g_verified g) (g_ready g) (g_kept g) (g_open g) (g_keys g) (g_peerCerts g) (g_cancel g) (g_err g) (g_state g) v.

(** [set]: nothing once closed; the first error stays. *)
Definition set_ (s : legState) (err : option legError) (g : WebRTCLeg) : WebRTCLeg :=
  if bool_decide (g_state g = legClosed) then g
  else
    let e := match g_err g with Some e => Some e | None => err end in
    let e := if bool_decide (s = legClosed) && negb (bool_decide (g_state g = legEstablished)) && bool_decide (e = None)
             then Some errClosedEarly else e in
    with_state s e g.

(** ** Construction *)

Record WebRTCLegConfig := mkLegConfig {
  lc_AdvertisedIP : Addr; lc_Offerer : bool; lc_RemoteUfrag : gostring; lc_RemotePwd : gostring;
  lc_RemoteSetup : gostring; lc_Identity : bool;   (* an identity is given *)
  lc_RemoteFingerprintHash : gostring; lc_RemoteFingerprintValue : gostring
}.

Definition for_offerer (c : WebRTCLegConfig) : WebRTCLegConfig :=
  if lc_Offerer c then mkLegConfig (lc_AdvertisedIP c) true [] [] [] (lc_Identity c) [] [] else c.

(** The fingerprint of a pair of attributes: none when both are empty. *)
Definition optional_fingerprint (hash value : gostring) : fingerprint + legError :=
  if negb (beq hash []) || negb (beq value []) then newFingerprint hash value else inl no_fingerprint.

(** [listen_ok] is the system's answer to a bind; [creds] what
    [newICECredentials] returned, [None] when the random source failed. *)
Definition NewWebRTCLeg (listen_ok : Addr -> Z -> bool) (pool : nat) (par : PlaneParams) (cfg : WebRTCLegConfig)
  (creds : option (gostring * gostring)) (w : world) : (WebRTCLeg + legError) * world :=
  if negb (lc_Identity cfg) then (inr errNoIdentity, w)
  else
    let cfg := for_offerer cfg in
    if negb (lc_Offerer cfg) && (beq (lc_RemoteUfrag cfg) [] || beq (lc_RemotePwd cfg) []) then (inr errNoRemote, w)
    else if negb (is_valid (lc_AdvertisedIP cfg)) then (inr errNoAddress, w)
    else
      match optional_fingerprint (lc_RemoteFingerprintHash cfg) (lc_RemoteFingerprintValue cfg) with
      | inr e => (inr e, w)
      | inl fp =>
          let '(r, p, s) := allocateSingle listen_ok par (wpools w pool) (socks w) in
          let w1 := mkWorld (set_pool pool p (wpools w)) s in
          match r with
          | None => (inr errPool, w1)
          | Some port =>
              match creds with
              | None =>
                  (inr errCredentials,
                   mkWorld (set_pool pool (release port (wpools w1 pool)) (wpools w1)) (close_socket (BindIP par) port (socks w1)))
              | Some (ufrag, pwd) =>
                  (inl (mkLeg pool (BindIP par) port ufrag pwd (lc_RemoteUfrag cfg) (lc_RemotePwd cfg)
                          (beq (lc_RemoteSetup cfg) (str "passive")) fp (lc_Offerer cfg) (negb (lc_Offerer cfg))
                          false false [] [] None false false None legAllocated None), w1)
              end
          end
      end.

(** [newICECredentials]: 3 and 18 random bytes in raw URL base64, which the
    tail of GoEncoding's alphabet differs from in two characters. *)
Definition url_char (c : Z) : Z := if c =? 43 then 45 else if c =? 47 then 95 else c.
Definition raw_url (bs : list Z) : gostring :=
  map url_char (List.filter (fun c => negb (c =? b64_pad)) (b64_encode bs)).
Definition newICECredentials (buf : list Z) : gostring * gostring := (raw_url (take 3 buf), raw_url (drop 3 buf)).

Definition DTLSSetup (g : WebRTCLeg) : gostring :=
  if negb (g_remoteSet g) then str "actpass" else if g_dtlsClient g then str "active" else str "passive".

(** ** The remote of an offerer *)

Record WebRTCRemote := mkRemote {
  rm_Ufrag : gostring; rm_Pwd : gostring; rm_Setup : gostring; rm_Hash : gostring; rm_Value : gostring
}.

Definition setup_role (setup : gostring) : option bool :=
  if beq setup [] || beq setup (str "active") then Some false
  else if beq setup (str "passive") then Some true else None.

Definition SetRemote (r : WebRTCRemote) (g : WebRTCLeg) : option legError * WebRTCLeg :=
  if beq (rm_Ufrag r) [] || beq (rm_Pwd r) [] then (Some ErrICEFailed, g)
  else match setup_role (rm_Setup r) with
  | None => (Some ErrDTLSHandshake, g)
  | Some client =>
      match optional_fingerprint (rm_Hash r) (rm_Value r) with
      | inr e => (Some e, g)
      | inl fp =>
          if negb (g_offerer g) then (Some errNotOfferer, g)
          else if g_remoteSet g then
            if beq (g_remoteUfrag g) (rm_Ufrag r) && beq (g_remotePwd g) (rm_Pwd r) &&
               eqb (g_dtlsClient g) client && bool_decide (g_remoteFingerprint g = fp)
            then (None, g) else (Some ErrRemoteMismatch, g)
          else if negb (bool_decide (g_state g = legAllocated)) then (Some ErrWebRTCNotReady, g)
          else (None, with_remote (rm_Ufrag r) (rm_Pwd r) client fp g)
      end
  end.

(** ** Closing *)

(** What [Close] takes down: the objects kept for it, and a DTLS connection
    past its handshake, whose goroutine waits for the closed channel; the
    socket and the port go back. *)
Definition Close (g : WebRTCLeg) (w : world) : WebRTCLeg * world :=
  if bool_decide (g_state g = legClosed) then (g, w)
  else
    let g := set_ legClosed None g in
    let taken := if g_peerCerts g then oDtls :: g_kept g else g_kept g in
    let left := List.filter (fun o => negb (bool_decide (o ∈ taken))) (g_open g) in
    (with_ready true (with_objects (g_kept g) left g),
     mkWorld (set_pool (g_pool g) (release (g_port g) (wpools w (g_pool g))) (wpools w))
             (close_socket (g_bind g) (g_port g) (socks w))).

(** ** Establishment *)

Definition Start (g : WebRTCLeg) (w : world) : WebRTCLeg * world :=
  if negb (bool_decide (g_state g = legAllocated)) then (g, w)
  else if negb (g_remoteSet g) then Close (set_ legFailed (Some ErrICEFailed) g) w
  else (with_est (Some atMux) (set_ legEstablishing None (with_cancel true g)), w).

(** What pion answers at each stage. *)
Inductive pion_event :=
  | PMux                            (* NewUDPMuxDefault *)
  | PResult (ok : bool)             (* NewAgentWithOptions, OnCandidate, GatherCandidates, Accept, Client/Server *)
  | PHandshake (shown : option (list (list Z))) (ok : bool)
      (* the certificates the verification callback was given, if it was called *)
  | PState (certs : option (list (list Z)))                 (* ConnectionState *)
  | PKeys (profile : option SDESSuite) (state_ok : bool) (material : option (list Z)).
      (* SelectedSRTPProtectionProfile, ConnectionState, ExportKeyingMaterial, of exactly the length asked *)

(** [keep]: stored unless the leg is closed, in which case it is closed at once. *)
Definition keep (o : pionObject) (then_ : stage) (g : WebRTCLeg) : WebRTCLeg :=
  if bool_decide (g_state g = legClosed) then with_est (Some (failing errLegClosed)) g
  else with_est (Some then_) (with_objects (o :: g_kept g) (o :: g_open g) g).

Definition srtpProfileFor (p : SDESSuite) : option SDESSuite :=
  match p with AES_CM_128_HMAC_SHA1_80 | AES_CM_128_HMAC_SHA1_32 => Some p | _ => None end.

(** The two sides' keys in the exported material. *)
Definition split_material (k s : Z) (m : list Z) : (list Z * list Z) * (list Z * list Z) :=
  let k := Z.to_nat k in let s := Z.to_nat s in
  ((take k m, take s (drop (k + k) m)), (take k (drop k m), take s (drop (k + k + s) m))).

Definition deriveSRTP (client : bool) (profile : option SDESSuite) (state_ok : bool) (material : option (list Z))
  : (Ctx * Ctx) + legError :=
  match profile with
  | None => inr ErrDTLSHandshake
  | Some id =>
      match srtpProfileFor id with
      | None => inr ErrDTLSHandshake
      | Some p =>
          match KeyLen p, SaltLen p with
          | Some k, Some s =>
              if negb state_ok then inr ErrDTLSHandshake
              else match material with
              | None => inr ErrDTLSHandshake
              | Some m =>
                  let '(cl, sv) := split_material k s m in
                  let '(ours, theirs) := if client then (cl, sv) else (sv, cl) in
                  match newContext p ours.1 ours.2 with
                  | None => inr errSRTPContext
                  | Some out =>
                      match newContext p theirs.1 theirs.2 with
                      | None => inr errSRTPContext
                      | Some in_ => inl (in_, out)
                      end
                  end
              end
          | _, _ => inr ErrDTLSHandshake
          end
      end
  end.

Definition fail (e : legError) (g : WebRTCLeg) : WebRTCLeg := with_est (Some (failing e)) g.
Definition next_if (ok : bool) (e : legError) (st : stage) (g : WebRTCLeg) : WebRTCLeg :=
  if ok then with_est (Some st) g else fail e g.
Definition has_fingerprint (g : WebRTCLeg) : bool := negb (beq (fp_value (g_remoteFingerprint g)) []).

(** One step of [establish].  An event that is not the one the stage waits for
    changes nothing. *)
Definition est_step (ev : pion_event) (g : WebRTCLeg) : WebRTCLeg :=
  match g_est g, ev with
  | Some atMux, PMux => keep oMux atAgent g
  | Some atAgent, PResult ok => if ok then keep oAgent atCandidate g else fail ErrICEFailed g
  | Some atCandidate, PResult ok => next_if ok ErrICEFailed atGather g
  | Some atGather, PResult ok => next_if ok ErrICEFailed atAccept g
  | Some atAccept, PResult ok => next_if ok ErrICEFailed atDemux g
  | Some atDemux, PMux => keep oDemux atDtls g
  | Some atDtls, PResult ok =>
      if ok then with_est (Some atHandshake) (with_objects (g_kept g) (oDtls :: g_open g) g) else fail ErrDTLSHandshake g
  | Some atHandshake, PHandshake shown ok =>
      let shut g := with_objects (g_kept g) (List.filter (fun o => negb (bool_decide (o = oDtls))) (g_open g)) g in
      if ok then
        (* the goroutine that closes the connection finds a closed leg closed *)
        if bool_decide (g_state g = legClosed) then fail errLegClosed (shut g)
        else with_est (Some atCerts) (with_peerCerts true g)
      else
        let mismatch := has_fingerprint g && match shown with Some certs => negb (fp_match (g_remoteFingerprint g) certs) | None => false end in
        fail (if mismatch then ErrFingerprintMismatch else ErrDTLSHandshake) (shut g)
  | Some atCerts, PState certs =>
      if has_fingerprint g then
        match certs with
        | None => fail ErrFingerprintMismatch g
        | Some certs => next_if (fp_match (g_remoteFingerprint g) certs) ErrFingerprintMismatch atKeys g
        end
      else with_est (Some atKeys) g
  | Some atKeys, PKeys profile state_ok material =>
      match deriveSRTP (g_dtlsClient g) profile state_ok material with
      | inr e => fail e g
      | inl k =>
          let g := with_keys k g in
          with_est (Some atDone) (if has_fingerprint g then with_verified true g else g)
      end
  | _, _ => g
  end.

(** The end of the goroutine of [Start]. *)
Definition est_finish (g : WebRTCLeg) (w : world) : WebRTCLeg * world :=
  match g_est g with
  | Some (failing e) => Close (with_est None (set_ legFailed (Some e) g)) w
  | Some atDone => (with_ready true (with_est None (set_ legEstablished None g)), w)
  | _ => (g, w)
  end.

(** ** Reading *)

(** [Err], after ready. *)
Definition Err (g : WebRTCLeg) : option legError := g_err g.

(** [state] is what the accessor returns when it is called. *)
Definition VerifyFingerprint (hash value : gostring) (state : option (list (list Z))) (g : WebRTCLeg) : option legError * WebRTCLeg :=
  if negb (g_ready g) then (Some ErrWebRTCNotReady, g)
  else match g_err g with
  | Some e => (Some e, g)
  | None =>
      match newFingerprint hash value with
      | inr e => (Some e, with_verified false g)
      | inl want =>
          if negb (bool_decide (g_state g = legEstablished)) || negb (g_peerCerts g) then (Some ErrWebRTCNotReady, g)
          else match state with
          | None => (Some ErrFingerprintMismatch, with_verified false g)
          | Some certs =>
              if fp_match want certs then (None, with_verified true g)
              else (Some ErrFingerprintMismatch, with_verified false g)
          end
      end
  end.

Definition mediaVerified (g : WebRTCLeg) : bool := g_verified g.

Definition SRTPContexts (g : WebRTCLeg) : option (Ctx * Ctx) :=
  if bool_decide (g_state g = legEstablished) then g_keys g else None.

(** [Conn]: whether the SRTP endpoint is handed out. *)
Definition Conn (g : WebRTCLeg) : bool := bool_decide (g_state g = legEstablished).

(** ** Traces *)

Inductive leg_op :=
  | LSetRemote (r : WebRTCRemote) | LStart | LClose | LPion (ev : pion_event) | LFinish
  | LVerify (hash value : gostring) (state : option (list (list Z))).

Definition leg_step (s : WebRTCLeg * world) (o : leg_op) : WebRTCLeg * world :=
  let '(g, w) := s in
  match o with
  | LSetRemote r => ((SetRemote r g).2, w)
  | LStart => Start g w
  | LClose => Close g w
  | LPion ev => (est_step ev g, w)
  | LFinish => est_finish g w
  | LVerify h v st => ((VerifyFingerprint h v st g).2, w)
  end.

(** What the construction leaves. *)
Definition fresh (g : WebRTCLeg) : Prop :=
  g_verified g = false /\ g_ready g = false /\ g_kept g = [] /\ g_open g = [] /\ g_keys g = None /\ g_peerCerts g = false /\
  g_err g = None /\ g_state g = legAllocated /\ g_est g = None.
End Leg.

(** ** What the steps keep *)

Section Facts.
Context {Ctx : Type}.
Variable newContext : SDESSuite -> list Z -> list Z -> option Ctx.
Variables KeyLen SaltLen : SDESSuite -> option Z.

Abbreviation est := (est_step newContext KeyLen SaltLen).
Abbreviation step := (leg_step newContext KeyLen SaltLen).
Abbreviation leg := (@WebRTCLeg Ctx).

Definition is_closed (g : leg) : bool := bool_decide (g_state g = legClosed).

(** What an event of pion leaves alone. *)
Definition same_shell (g g' : leg) : Prop :=
  g_pool g' = g_pool g /\ g_bind g' = g_bind g /\ g_port g' = g_port g /\ g_remoteFingerprint g' = g_remoteFingerprint g /\
  g_remoteSet g' = g_remoteSet g /\ g_ready g' = g_ready g /\ g_err g' = g_err g /\ g_state g' = g_state g /\
  (g_est g = None -> g' = g) /\ (g_est g <> None -> g_est g' <> None).

Lemma same_shell_refl g : same_shell g g.
Proof. repeat split; auto. Qed.

Ltac shell := repeat split; cbn; try done; congruence.

Lemma est_shell ev g : same_shell g (est ev g).
Proof.
  unfold est_step. destruct (g_est g) as [st|] eqn:E; [|destruct ev; apply same_shell_refl].
  destruct st, ev; try apply same_shell_refl; unfold keep, next_if, fail; cbv zeta; repeat case_match; shell.
Qed.

(** Which certificate an event shows, and when media is first let through. *)
Definition matched (f : fingerprint) (ev : pion_event) : Prop :=
  exists certs, ev = PState (Some certs) /\ fp_match f certs = true.

Lemma est_verifies ev g : 
  (g_verified (est ev g) = true -> g_verified g = true \/ (g_est g = Some atKeys /\ has_fingerprint g = true)) /\
  (g_est (est ev g) = Some atKeys -> has_fingerprint g = true -> g_est g = Some atKeys \/ matched (g_remoteFingerprint g) ev).
Proof.
  unfold est_step. destruct (g_est g) as [st|] eqn:E; [|destruct ev; rewrite ?E; (split; [by auto|congruence])].
  destruct st, ev; rewrite ?E; try (split; [by auto|congruence]); unfold keep, next_if, fail; cbv zeta;
    repeat case_match; cbn; (split; [by auto|]); try congruence.
  all: intros _ _; first [by left|right; by eexists].
Qed.

(** *** Media only for the signalled certificate *)

(** Fingerprints signalling has named, and leaf certificates pion has shown. *)
Definition signalled (os : list leg_op) (g : leg) (f : fingerprint) : Prop :=
  (f = g_remoteFingerprint g /\ g_remoteSet g = true) \/ exists h v st, LVerify h v st ∈ os /\ newFingerprint h v = inl f.
Definition presented (os : list leg_op) (certs : list (list Z)) : Prop :=
  LPion (PState (Some certs)) ∈ os \/ exists h v, LVerify h v (Some certs) ∈ os.
Definition vouched (os : list leg_op) (g : leg) : Prop :=
  exists f certs, signalled os g f /\ presented os certs /\ fp_match f certs = true.

Definition gate_inv (os : list leg_op) (g : leg) : Prop :=
  (g_remoteSet g = false -> g_verified g = false /\ g_est g = None /\ g_state g <> legEstablished) /\
  (g_verified g = true -> vouched os g) /\
  (g_est g = Some atKeys -> has_fingerprint g = true -> vouched os g).

Lemma vouched_mono os o g g' : g_remoteFingerprint g' = g_remoteFingerprint g -> g_remoteSet g' = g_remoteSet g ->
  vouched os g -> vouched (os ++ [o]) g'.
Proof.
  intros F R (f & c & S & P & M). exists f, c. split; [|split; [|done]].
  - destruct S as [[-> S]|(h & v & st & I & N)]; [left; by rewrite F, R|]. right. exists h, v, st. split; [|done]. apply elem_of_app. by left.
  - destruct P as [P|(h & v & P)]; [left|right; exists h, v]; apply elem_of_app; by left.
Qed.

Lemma in_last {A} (os : list A) o : o ∈ os ++ [o].
Proof. apply elem_of_app. right. by apply list_elem_of_singleton. Qed.

Lemma gate_est os ev g : gate_inv os g -> gate_inv (os ++ [LPion ev]) (est ev g).
Proof.
  intros (A & B & C). destruct (est_shell ev g) as (_ & _ & _ & F & R & _ & _ & S & N & Y).
  destruct (est_verifies ev g) as [V K]. split; [|split].
  - rewrite R. intros H. destruct (A H) as (V0 & E0 & S0). rewrite (N E0). auto.
  - intros H. destruct (V H) as [H'|[E F']]; eapply vouched_mono; eauto.
  - unfold has_fingerprint. rewrite F. intros E H. destruct (K E H) as [E'|(certs & -> & M)].
    + eapply vouched_mono; eauto.
    + exists (g_remoteFingerprint g), certs. split; [|split; [left; apply in_last|done]]. left. rewrite F, R. split; [done|].
      destruct (g_remoteSet g); [done|]. destruct (A eq_refl) as (_ & E0 & _). rewrite (N E0) in E. congruence.
Qed.

Lemma gate_weaken os o g : gate_inv os g -> gate_inv (os ++ [o]) g.
Proof. intros (A & B & C). split; [done|]. split; intros; by eapply vouched_mono; eauto. Qed.

Lemma gate_set os s e g : gate_inv os g -> s <> legEstablished \/ g_remoteSet g = true -> gate_inv os (set_ s e g).
Proof.
  intros (A & B & C) H. unfold set_. case_if; [by split|]. split; [|by split]. cbn. intros R.
  destruct (A R) as (V & E0 & _). repeat split; try done. destruct H; congruence.
Qed.

(** Stepping aside from [set_], [Close] touches neither the gate nor the remote. *)
Lemma gate_close os g w : gate_inv os g -> gate_inv os (Close g w).1.
Proof. intros G. unfold Close. case_if; [done|]. by pose proof (gate_set os legClosed None g G ltac:(by left)). Qed.

Lemma gate_nil_est os g : gate_inv os g -> gate_inv os (with_est None g).
Proof. intros (A & B & C). split; [|split]; cbn; [|done..]. intros R. by destruct (A R) as (? & ? & ?). Qed.

Lemma gate_remote os r g : gate_inv os g -> gate_inv (os ++ [LSetRemote r]) (SetRemote r g).2.
Proof.
  intros G. unfold SetRemote. repeat case_match; try by apply gate_weaken.
  destruct G as (A & B & C). destruct (A ltac:(done)) as (V & E & S).
  split; [done|]. split; cbn; congruence.
Qed.

Lemma gate_verify os h v st g : gate_inv os g -> gate_inv (os ++ [LVerify h v st]) (VerifyFingerprint h v st g).2.
Proof.
  intros G. pose proof (gate_weaken os (LVerify h v st) g G) as (A & B & C).
  unfold VerifyFingerprint. repeat case_match; try done; (split; [|split; [|done]]); cbn; try done;
    try (intros R; destruct (A R) as (? & ? & ?); breflect; tauto).
  intros _. eexists _, _. split; [|split; [|eassumption]]; [right; eexists _, _, _; split; [|eassumption]|right; eexists _, _]; apply in_last.
Qed.

Lemma gate_step os o s : gate_inv os s.1 -> gate_inv (os ++ [o]) (step s o).1.
Proof.
  destruct s as [g w]. cbn [fst]. intros G. pose proof (gate_weaken os o g G) as W. destruct o; cbn [leg_step fst].
  - by apply gate_remote.
  - unfold Start. case_if; [done|]. case_if; [by apply gate_close, gate_set; [|left]|].
    assert (g_remoteSet g = true) as R by (by destruct (g_remoteSet g)).
    pose proof (gate_set _ legEstablishing None (with_cancel true g) W ltac:(by right)) as (A & B & C).
    split; [unfold set_; case_if; cbn; congruence|]. by split.
  - by apply gate_close.
  - by apply gate_est.
  - unfold est_finish. destruct (g_est g) as [[]|] eqn:E; try done.
    + assert (g_remoteSet g = true) as R
        by (destruct (g_remoteSet g) eqn:R; [done|]; destruct G as (A & _); destruct (A R) as (_ & ? & _); congruence).
      exact (gate_nil_est _ _ (gate_set _ legEstablished None g W ltac:(by right))).
    + apply gate_close, gate_nil_est, gate_set; [done|by left].
  - by apply gate_verify.
Qed.

Definition run : (leg * world) -> list leg_op -> leg * world := run_ops step.

Lemma run_snoc s os o : run s (os ++ [o]) = step (run s os) o.
Proof. apply fold_left_app. Qed.

Lemma gate_run g w os : fresh g -> gate_inv os (run (g, w) os).1.
Proof.
  intros F. induction os as [|o os IH] using rev_ind.
  - destruct F as (V & _ & _ & _ & _ & _ & _ & S & E). split; [|split]; cbn; [by rewrite V, S, E|congruence..].
  - rewrite run_snoc. by apply gate_step.
Qed.

(** *** Lifecycle, resources *)

(** What the leg holds: its port and its socket, until it is closed. *)
Definition released (g : leg) (w : world) : world :=
  mkWorld (set_pool (g_pool g) (release (g_port g) (wpools w (g_pool g))) (wpools w))
          (close_socket (g_bind g) (g_port g) (socks w)).

Definition life_inv (g0 : leg) (w0 : world) (g : leg) (w : world) : Prop :=
  g_pool g = g_pool g0 /\ g_bind g = g_bind g0 /\ g_port g = g_port g0 /\ w = (if is_closed g then released g0 w0 else w0).

(** The state, the error, ready and the keys agree. *)
Definition state_inv (g : leg) : Prop :=
  match g_state g with
  | legAllocated => g_ready g = false /\ g_err g = None /\ g_est g = None
  | legEstablishing => g_ready g = false /\ g_err g = None /\ g_est g <> None
  | legEstablished => g_ready g = true /\ g_err g = None /\ g_est g = None /\ g_keys g <> None
  | legFailed => False
  | legClosed => g_ready g = true /\ (g_err g = None -> g_keys g <> None)
  end /\
  (g_est g = Some atDone -> g_keys g <> None).

(** What is open is kept for [Close], or is the connection the goroutine has:
    during the handshake it closes it, after it the closed channel does. *)
Definition objects_inv (g : leg) : Prop :=
  forall o, o ∈ g_open g ->
    (is_closed g = false /\ o ∈ g_kept g) \/ (o = oDtls /\ (g_est g = Some atHandshake \/ (is_closed g = false /\ g_peerCerts g = true))).

Lemma close_inv g0 w0 g w : life_inv g0 w0 g w -> life_inv g0 w0 (Close g w).1 (Close g w).2.
Proof.
  intros (P & B & N & W). unfold Close. case_if; [done|]. unfold set_. rewrite Heqb. unfold life_inv, is_closed in *. cbn.
  rewrite Heqb in W. subst w. repeat split; try done. unfold released. by rewrite P, B, N.
Qed.

Lemma close_state g w : g_state g = legFailed /\ g_err g <> None /\ g_est g <> Some atDone \/ state_inv g -> state_inv (Close g w).1.
Proof.
  intros H. unfold Close. case_if; [|breflect].
  - destruct H as [[E _]|]; [|done]. breflect. congruence.
  - unfold set_. rewrite bool_decide_eq_false_2 by done. unfold state_inv in *. cbn. destruct H as [(E & R & D)|[H D]].
    + rewrite E. split; [|done]. split; [done|]. destruct (g_err g); done.
    + split; [|done]. split; [done|]. destruct (g_state g), (g_err g); cbn; try done; tauto.
Qed.

Lemma close_objects g w : objects_inv g -> objects_inv (Close g w).1.
Proof.
  intros H. unfold Close. case_if; [done|]. intros o. cbn. unfold set_. rewrite Heqb. cbn.
  intros [Ho K]%list_elem_of_In%filter_In. apply negb_true_iff, bool_decide_eq_false in K.
  apply list_elem_of_In in Ho. destruct (H o Ho) as [[_ Hk]|[-> [E|[_ Pc]]]].
  - exfalso. apply K. case_if; [by apply elem_of_cons; right|done].
  - right. split; [done|]. by left.
  - exfalso. rewrite Pc in K. apply K, elem_of_cons. by left.
Qed.

Lemma est_state ev g : state_inv g -> state_inv (est ev g).
Proof.
  intros [H D]. destruct (est_shell ev g) as (_ & _ & _ & _ & _ & Rd & Er & St & N & Y).
  assert (g_keys g <> None -> g_keys (est ev g) <> None) as K.
  { unfold est_step. destruct (g_est g) as [[]|], ev; try done; unfold keep, next_if, fail; cbv zeta; repeat case_match; done. }
  assert (g_est (est ev g) = Some atDone -> g_keys (est ev g) <> None) as D'.
  { unfold est_step. destruct (g_est g) as [[]|] eqn:E, ev; try (rewrite E; done); try (intros; by apply D);
      unfold keep, next_if, fail; cbv zeta; repeat case_match; done. }
  split; [|done]. rewrite St, Rd, Er. destruct (g_state g).
  - destruct H as (? & ? & E). by rewrite (N E).
  - destruct H as (? & ? & E). repeat split; auto.
  - destruct H as (? & ? & E & ?). by rewrite (N E).
  - done.
  - destruct H. split; auto.
Qed.

Lemma est_objects ev g : objects_inv g -> objects_inv (est ev g).
Proof.
  intros H. unfold est_step. destruct (g_est g) as [[]|] eqn:E, ev; try done; unfold keep, next_if, fail; cbv zeta.
  all: repeat case_match; try done; intros o; cbn; rewrite ?elem_of_cons; try (intros [->|Ho]); try (intros Ho).
  all: unfold is_closed in *; cbn; try (pose proof (H _ Ho) as J; rewrite E in J; unfold is_closed in *; intuition congruence); try tauto.
  all: apply list_elem_of_In, filter_In in Ho as [Ho%list_elem_of_In K]; breflect; pose proof (H _ Ho) as J; unfold is_closed in J;
    intuition congruence.
Qed.

(** The operations that touch the remote or the gate only. *)
Definition same_life (g g' : leg) : Prop :=
  g_pool g' = g_pool g /\ g_bind g' = g_bind g /\ g_port g' = g_port g /\ g_ready g' = g_ready g /\ g_kept g' = g_kept g /\
  g_open g' = g_open g /\ g_keys g' = g_keys g /\ g_peerCerts g' = g_peerCerts g /\ g_err g' = g_err g /\
  g_state g' = g_state g /\ g_est g' = g_est g.

Definition all_inv (g0 : leg) (w0 : world) (s : leg * world) : Prop :=
  life_inv g0 w0 s.1 s.2 /\ state_inv s.1 /\ objects_inv s.1.

Lemma close_all g0 w0 g w : life_inv g0 w0 g w ->
  g_state g = legFailed /\ g_err g <> None /\ g_est g <> Some atDone \/ state_inv g -> objects_inv g -> all_inv g0 w0 (Close g w).
Proof. intros L S O. split; [by apply close_inv|]. split; [by apply close_state|by apply close_objects]. Qed.

Lemma same_life_inv g0 w0 g g' w : same_life g g' -> all_inv g0 w0 (g, w) -> all_inv g0 w0 (g', w).
Proof.
  intros (P & B & N & R & K & O & Ks & C & E & S & Es) (L & St & Ob). cbn [fst snd] in *. split; [|split].
  - unfold life_inv, is_closed in *. cbn. by rewrite P, B, N, S.
  - unfold state_inv in *. cbn. by rewrite S, R, E, Es, Ks.
  - intros o. cbn. unfold is_closed, objects_inv in *. rewrite O, K, S, Es, C. apply Ob.
Qed.

Lemma remote_life r g : same_life g (SetRemote r g).2.
Proof. unfold SetRemote. repeat case_match; by repeat split. Qed.

Lemma verify_life h v st g : same_life g (VerifyFingerprint h v st g).2.
Proof. unfold VerifyFingerprint. repeat case_match; by repeat split. Qed.

Lemma set_closed s e (g : leg) : s <> legClosed -> g_state g <> legClosed ->
  set_ s e g = with_state s (match g_err g with Some e => Some e | None => e end) g.
Proof. intros S G. unfold set_. rewrite !bool_decide_eq_false_2 by done. done. Qed.

Lemma all_step g0 w0 s o : all_inv g0 w0 s -> all_inv g0 w0 (step s o).
Proof.
  destruct s as [g w]. intros A. destruct o; cbn [leg_step].
  - eapply same_life_inv; [apply remote_life|done].
  - destruct A as (L & S & O). cbn [fst snd] in *. unfold Start. case_if; [done|]. breflect. case_if.
    + rewrite set_closed by congruence. destruct S as [S _]. rewrite Heqb in S. destruct S as (_ & Er & Es). rewrite Er.
      apply close_all.
      * unfold life_inv, is_closed in *. cbn. rewrite Heqb in L. by rewrite bool_decide_eq_false_2 by done.
      * left. cbn. by rewrite Es.
      * unfold objects_inv, is_closed in *. cbn. by rewrite Heqb in O.
    + rewrite set_closed by (cbn; congruence). destruct S as [S D]. rewrite Heqb in S. destruct S as (Rd & Er & Es).
      split; [|split]; cbn [fst snd].
      * unfold life_inv, is_closed in *. cbn. rewrite Heqb in L. done.
      * unfold state_inv. cbn. rewrite Rd, Er. done.
      * unfold objects_inv, is_closed in *. rewrite Heqb, Es in O. cbn. naive_solver.
  - destruct A as (L & S & O). apply close_all; [done|by right|done].
  - destruct A as (L & S & O). cbn [fst snd] in *. split; [|split]; [|by apply est_state|by apply est_objects].
    destruct (est_shell ev g) as (P & B & N & _ & _ & _ & _ & St & _). unfold life_inv, is_closed in *. cbn.
    by rewrite P, B, N, St.
  - destruct A as (L & S & O). cbn [fst snd] in *. unfold est_finish. destruct (g_est g) as [[]|] eqn:E; try done.
    + destruct (bool_decide (g_state g = legClosed)) eqn:C; breflect.
      * unfold set_. rewrite C. cbn [bool_decide]. rewrite bool_decide_eq_true_2 by done. split; [|split]; cbn [fst snd].
        -- unfold life_inv, is_closed in *. cbn. by rewrite C in *.
        -- destruct S as [S D]. rewrite C in S. unfold state_inv. cbn. rewrite C. split; [|done]. exact (conj eq_refl (proj2 S)).
        -- unfold objects_inv, is_closed in *. cbn. rewrite E in O. intros o Ho. destruct (O o Ho) as [?|[-> [?|?]]]; auto. congruence.
      * rewrite set_closed by done. destruct S as [S D]. destruct (g_state g) eqn:St; destruct_and?; try congruence; try done.
        replace (g_err g) with (@None legError) by done. split; [|split]; cbn [fst snd].
        -- unfold life_inv, is_closed in *. cbn. rewrite St in L. done.
        -- unfold state_inv. cbn. repeat split; auto.
        -- unfold objects_inv, is_closed in *. cbn. rewrite E, St in O. intros o Ho. destruct (O o Ho) as [?|[-> [?|?]]]; auto. congruence.
    + destruct (bool_decide (g_state g = legClosed)) eqn:C; breflect.
      * unfold set_. rewrite bool_decide_eq_true_2 by done. apply close_all.
        -- unfold life_inv, is_closed in *. cbn. by rewrite C in *.
        -- right. destruct S as [S D]. rewrite C in S. unfold state_inv. cbn. rewrite C. split; [|done]. exact S.
        -- unfold objects_inv, is_closed in *. cbn. rewrite E in O. intros o Ho. destruct (O o Ho) as [?|[-> [?|?]]]; auto. congruence.
      * rewrite set_closed by done. apply close_all.
        -- unfold life_inv, is_closed in *. cbn. rewrite (bool_decide_eq_false_2 _ C) in L. done.
        -- left. cbn. split; [done|]. split; [by destruct (g_err g)|done].
        -- unfold objects_inv, is_closed in *. cbn. rewrite E, (bool_decide_eq_false_2 _ C) in O. intros o Ho. destruct (O o Ho) as [?|[-> [?|?]]]; auto. congruence.
  - eapply same_life_inv; [apply verify_life|done].
Qed.

Lemma all_run g w os : fresh g -> all_inv g w (run (g, w) os).
Proof.
  intros (V & R & K & O & Ks & C & E & S & Es). unfold run. apply (run_ops_inv _ (all_inv g w)); [intros; by apply all_step|].
  split; [|split]; cbn [fst snd].
  - unfold life_inv, is_closed. by rewrite S.
  - unfold state_inv. by rewrite S, Es.
  - intros o. rewrite O. by intros ?%elem_of_nil.
Qed.

(** What signalling has named stays named. *)
Lemma step_remote s o : g_remoteSet s.1 = true ->
  g_remoteSet (step s o).1 = true /\ g_remoteFingerprint (step s o).1 = g_remoteFingerprint s.1.
Proof.
  destruct s as [g w]. cbn [fst]. intros R.
  assert (forall s e (h : leg), g_remoteSet (set_ s e h) = g_remoteSet h /\ g_remoteFingerprint (set_ s e h) = g_remoteFingerprint h) as T
    by (intros; unfold set_; by case_if).
  assert (forall (h : leg), g_remoteSet (Close h w).1 = g_remoteSet h /\ g_remoteFingerprint (Close h w).1 = g_remoteFingerprint h) as K
    by (intros h; unfold Close; case_if; [done|]; apply T).
  destruct o; cbn [leg_step fst].
  - unfold SetRemote. rewrite R. repeat case_match; done.
  - unfold Start. case_if; [done|]. rewrite R. cbn. destruct (T legEstablishing None (with_cancel true g)) as [-> ->]. done.
  - destruct (K g) as [-> ->]. done.
  - destruct (est_shell ev g) as (_ & _ & _ & -> & -> & _). done.
  - unfold est_finish. destruct (g_est g) as [[]|]; try done.
    + destruct (T legEstablished None g) as [E F]. split; [by rewrite <- R, <- E|exact F].
    + destruct (K (with_est None (set_ legFailed (Some e) g))) as [-> ->]. destruct (T legFailed (Some e) g) as [E F].
      split; [by rewrite <- R, <- E|exact F].
  - unfold VerifyFingerprint. repeat case_match; done.
Qed.

Lemma vouched_step os o s : vouched os s.1 -> vouched (os ++ [o]) (step s o).1.
Proof.
  intros (f & c & S & P & M). exists f, c. split; [|split; [|done]].
  - destruct S as [[-> S]|(h & v & st & I & N)].
    + left. destruct (step_remote s o S) as [-> ->]. done.
    + right. exists h, v, st. split; [|done]. apply elem_of_app. by left.
  - destruct P as [P|(h & v & P)]; [left|right; exists h, v]; apply elem_of_app; by left.
Qed.

(** What a step does to the world: nothing, or it closes the leg. *)
Definition world_step (s s' : leg * world) : Prop :=
  g_pool s'.1 = g_pool s.1 /\ g_bind s'.1 = g_bind s.1 /\ g_port s'.1 = g_port s.1 /\
  (is_closed s'.1 = is_closed s.1 /\ s'.2 = s.2 \/
   is_closed s.1 = false /\ is_closed s'.1 = true /\ s'.2 = released s.1 s.2).

Lemma close_world g w : world_step (g, w) (Close g w).
Proof.
  unfold Close, world_step, is_closed, set_. destruct (bool_decide (g_state g = legClosed)) eqn:E; cbn; rewrite ?E; [tauto|].
  repeat split. by right.
Qed.

Lemma set_fields s e (g : leg) : g_pool (set_ s e g) = g_pool g /\ g_bind (set_ s e g) = g_bind g /\ g_port (set_ s e g) = g_port g /\
  (s <> legClosed -> is_closed (set_ s e g) = is_closed g).
Proof.
  unfold set_, is_closed. destruct (bool_decide (g_state g = legClosed)) eqn:E; repeat split; intros H; cbn; [done|].
  by apply bool_decide_eq_false_2.
Qed.

Lemma close_like w (g g1 : leg) : g_pool g1 = g_pool g -> g_bind g1 = g_bind g -> g_port g1 = g_port g -> is_closed g1 = is_closed g ->
  world_step (g, w) (Close g1 w).
Proof.
  intros P B N C. destruct (close_world g1 w) as (P' & B' & N' & D). unfold world_step, released in *. cbn [fst snd] in *.
  by rewrite P', B', N', P, B, N, C in *.
Qed.

Lemma step_world s o : world_step s (step s o).
Proof.
  destruct s as [g w]. assert (forall g', same_life g g' -> world_step (g, w) (g', w)) as S.
  { intros g' (P & B & N & _ & _ & _ & _ & _ & _ & St & _). unfold world_step, is_closed. cbn. rewrite St. auto 6. }
  destruct o; cbn [leg_step].
  - apply S, remote_life.
  - unfold Start. case_if; [by apply S|]. case_if.
    + destruct (set_fields legFailed (Some ErrICEFailed) g) as (P & B & N & C). apply close_like; [done..|]. by apply C.
    + destruct (set_fields legEstablishing None (with_cancel true g)) as (P & B & N & C).
      unfold world_step. cbn [fst snd]. repeat split; [done..|]. left. split; [|done]. by apply C.
  - apply close_world.
  - destruct (est_shell ev g) as (P & B & N & _ & _ & _ & _ & St & _). unfold world_step, is_closed. cbn. rewrite St. auto 6.
  - unfold est_finish. destruct (g_est g) as [[]|]; try (by apply S).
    + destruct (set_fields legEstablished None g) as (P & B & N & C). unfold world_step. cbn [fst snd].
      repeat split; [done..|]. left. split; [|done]. by apply C.
    + destruct (set_fields legFailed (Some e) g) as (P & B & N & C). apply close_like; [done..|]. by apply C.
  - apply S, verify_life.
Qed.

Lemma step_closed s o : g_state s.1 = legClosed -> g_state (step s o).1 = legClosed /\ g_err (step s o).1 = g_err s.1.
Proof.
  destruct s as [g w]. cbn [fst]. intros C. assert (forall s' e, set_ s' e g = g) as Z by (intros; unfold set_; by rewrite bool_decide_eq_true_2).
  destruct o; cbn [leg_step fst].
  - destruct (remote_life r g) as (_ & _ & _ & _ & _ & _ & _ & _ & E & S & _). by rewrite S, E.
  - unfold Start. rewrite C. done.
  - unfold Close. rewrite C. done.
  - destruct (est_shell ev g) as (_ & _ & _ & _ & _ & _ & E & S & _). by rewrite S, E.
  - unfold est_finish. destruct (g_est g) as [[]|]; try done; unfold Close; rewrite Z; cbn; [done|].
    rewrite bool_decide_eq_true_2; done.
  - destruct (verify_life hash value state g) as (_ & _ & _ & _ & _ & _ & _ & _ & E & S & _). by rewrite S, E.
Qed.

(** no media for a stranger.  Whatever the peers, pion and the callers do,
    in any order, the gate of a browser leg is open only if the certificate
    that the DTLS peer presented hashes to a fingerprint that signalling named
    for the leg: the one of the offer or answer, or one it was later verified
    against. *)
Theorem media_needs_the_signalled_certificate g w os : fresh g ->
  let g' := (run (g, w) os).1 in
  mediaVerified g' = true ->
  exists f der rest,
    ((f = g_remoteFingerprint g' /\ g_remoteSet g' = true) \/
     exists h v st, LVerify h v st ∈ os /\ newFingerprint h v = inl f) /\
    (LPion (PState (Some (der :: rest))) ∈ os \/ exists h v, LVerify h v (Some (der :: rest)) ∈ os) /\
    der <> [] /\ fingerprintWith (fp_hash f) der = fp_value f.
Proof.
  intros F g' H. destruct (gate_run g w os F) as (_ & V & _). destruct (V H) as (f & certs & S & P & M).
  destruct certs as [|der rest]; [done|]. destruct der as [|b der]; [done|].
  exists f, (b :: der), rest. split; [exact S|]. split; [exact P|]. split; [done|]. by apply beq_eq in M.
Qed.

(** a browser leg gives back what it took, once.  After any interleaving
    of its callers with its establishment, the port and the socket are held
    exactly while the leg is not closed, closing twice changes nothing, a
    closed leg stays closed with its error, and when its goroutine has ended
    none of the objects it opened at pion is left open.  A leg that is ready
    with no error has its keys. *)
Theorem browser_leg_gives_back g w os1 os2 : fresh g ->
  let s1 := run (g, w) os1 in let s2 := run s1 os2 in
  s1.2 = (if bool_decide (g_state s1.1 = legClosed) then released g w else w) /\
  g_state (Close s1.1 s1.2).1 = legClosed /\
  (g_state s1.1 = legClosed -> g_state s2.1 = legClosed /\ s2.2 = s1.2 /\ g_err s2.1 = g_err s1.1) /\
  (g_state s1.1 = legClosed -> g_est s1.1 = None -> g_open s1.1 = []) /\
  (g_ready s1.1 = true -> Err s1.1 = None -> g_keys s1.1 <> None).
Proof.
  intros F s1 s2. destruct (all_run g w os1 F) as ((_ & _ & _ & W) & [S _] & O). split; [exact W|]. split; [|split; [|split]].
  - unfold Close. case_if; [by breflect|]. unfold set_. by rewrite Heqb.
  - intros C. assert (g_state s2.1 = legClosed /\ g_err s2.1 = g_err s1.1) as [C2 E2].
    { unfold s2, run. apply (run_ops_inv _ (fun s => g_state s.1 = legClosed /\ g_err s.1 = g_err s1.1)); [|done].
      intros s o [H E]. destruct (step_closed s o H) as [-> ->]. done. }
    split; [done|]. split; [|done]. assert (s2 = run (g, w) (os1 ++ os2)) as R by (unfold s2, s1, run, run_ops; by rewrite fold_left_app).
    destruct (all_run g w (os1 ++ os2) F) as ((_ & _ & _ & W2) & _). rewrite <- R in W2. fold s1 in W. unfold is_closed in *.
    by rewrite W2, W, C, C2.
  - intros C E. fold s1 in O. destruct (g_open s1.1) as [|o l] eqn:G; [done|]. exfalso.
    destruct (O o ltac:(rewrite G; apply elem_of_cons; by left)) as [[K _]|[_ [K|[K _]]]]; [|congruence|];
      unfold is_closed in K; rewrite C in K; by breflect.
  - intros R E. fold s1 in S. unfold Err in E. destruct (g_state s1.1); destruct_and?; try congruence; tauto.
Qed.

(** the two ends of a DTLS association key their SRTP alike.  From the
    same exported material the client's sending context is made of the keys
    of the server's receiving one and the other way round, and the four keys
    are the whole material, cut without overlap. *)
Theorem dtls_roles_mirror profile material in_c out_c in_s out_s :
  deriveSRTP newContext KeyLen SaltLen true profile true material = inl (in_c, out_c) ->
  deriveSRTP newContext KeyLen SaltLen false profile true material = inl (in_s, out_s) ->
  in_c = out_s /\ out_c = in_s /\
  exists p k s m, profile = Some p /\ KeyLen p = Some k /\ SaltLen p = Some s /\ material = Some m /\
    let '((ck, cs), (sk, ss)) := split_material k s m in
    newContext p ck cs = Some out_c /\ newContext p sk ss = Some in_c /\
    (0 <= k -> 0 <= s -> len m = 2 * k + 2 * s -> ck ++ sk ++ cs ++ ss = m).
Proof.
  unfold deriveSRTP. destruct profile as [id|]; [|done]. destruct (srtpProfileFor id) as [p|] eqn:Ep; [|done].
  assert (id = p) as -> by (destruct id; by simplify_eq/=).
  destruct (KeyLen p) as [k|] eqn:Ek; [|done]. destruct (SaltLen p) as [s|] eqn:Es; [|done]. cbn [negb].
  destruct material as [m|]; [|done]. destruct (split_material k s m) as [[ck cs] [sk ss]] eqn:Em. cbn [fst snd].
  destruct (newContext p ck cs) as [c1|] eqn:E1; [|done]. destruct (newContext p sk ss) as [c2|] eqn:E2; [|done].
  intros [= <- <-] [= <- <-]. split; [done|]. split; [done|]. exists p, k, s, m. rewrite Em. repeat split; try done.
  intros K S L. unfold split_material in Em. simplify_eq. unfold len in L.
  set (a := Z.to_nat k) in *. set (b := Z.to_nat s) in *.
  assert (length m = a + a + b + b)%nat as L' by lia.
  rewrite (take_ge (drop (a + a + b) m)) by (rewrite length_drop; lia).
  rewrite <- (drop_drop m b (a + a)), (take_drop b), <- (drop_drop m a a), (take_drop a). apply take_drop.
Qed.
End Facts.

(** ** A leg that is established, and one that is not *)

Definition toy_keys (_ : SDESSuite) (k s : list Z) : option (list Z) := Some (k ++ s).
Definition toy_len (n : Z) (_ : SDESSuite) : option Z := Some n.
Definition demo_cert : list Z := str "a certificate".
Definition demo_config : WebRTCLegConfig :=
  mkLegConfig (ip4 203 0 113 9) false (str "frag") (str "password") (str "active") true (str "SHA-256")
    (fingerprintWith (str "sha-256") demo_cert).
Abbreviation demo_new cfg :=
  (NewWebRTCLeg (Ctx := list Z) (fun _ _ => true) 0 lab cfg (Some (newICECredentials (repeat 7 21))) demo_world).
Definition demo_leg : @WebRTCLeg (list Z) :=
  match (demo_new demo_config).1 with inl g => g | inr _ => mkLeg 0 AddrZero 0 [] [] [] [] false no_fingerprint false false false false [] [] None false false None legClosed None end.
Definition demo_events (cert : list Z) : list leg_op :=
  [LStart; LPion PMux; LPion (PResult true); LPion (PResult true); LPion (PResult true); LPion (PResult true); LPion PMux;
   LPion (PResult true); LPion (PHandshake (Some [cert]) true); LPion (PState (Some [cert]));
   LPion (PKeys (Some AES_CM_128_HMAC_SHA1_80) true (Some [1; 2; 3; 4; 5; 6])); LFinish].
Abbreviation demo_run cert := (run toy_keys (toy_len 2) (toy_len 1) (demo_leg, (demo_new demo_config).2) (demo_events cert)).

Lemma demo_fresh : fresh demo_leg.
Proof. by vm_compute. Qed.

Example demo_certificate_accepted :
  mediaVerified (demo_run demo_cert).1 = true /\ SRTPContexts (demo_run demo_cert).1 = Some ([1; 2; 5], [3; 4; 6]).
Proof. by vm_compute. Qed.

Example demo_certificate_refused :
  mediaVerified (demo_run (str "another")).1 = false /\ Err (demo_run (str "another")).1 = Some ErrFingerprintMismatch.
Proof. by vm_compute. Qed.

Lemma media_needs_the_signalled_certificate_witness :
  exists der rest, LPion (PState (Some (der :: rest))) ∈ demo_events demo_cert \/ exists h v, LVerify h v (Some (der :: rest)) ∈ demo_events demo_cert.
Proof.
  destruct (media_needs_the_signalled_certificate toy_keys (toy_len 2) (toy_len 1) demo_leg (demo_new demo_config).2
    (demo_events demo_cert) demo_fresh) as (f & der & rest & _ & P & _).
  - exact (proj1 demo_certificate_accepted).
  - by exists der, rest.
Defined.

Lemma browser_leg_gives_back_witness : g_keys (demo_run demo_cert).1 <> None.
Proof.
  destruct (browser_leg_gives_back toy_keys (toy_len 2) (toy_len 1) demo_leg (demo_new demo_config).2
    (demo_events demo_cert) [LClose] demo_fresh) as (_ & _ & _ & _ & R).
  apply R; by vm_compute.
Defined.

Lemma dtls_roles_mirror_witness :
  deriveSRTP toy_keys (toy_len 2) (toy_len 1) true (Some AES_CM_128_HMAC_SHA1_32) true (Some [1; 2; 3; 4; 5; 6]) = inl ([3; 4; 6], [1; 2; 5]) /\
  [1; 2; 5] = [1; 2; 5].
Proof.
  split; [reflexivity|]. by destruct (dtls_roles_mirror toy_keys (toy_len 2) (toy_len 1) (Some AES_CM_128_HMAC_SHA1_32)
    (Some [1; 2; 3; 4; 5; 6]) [3; 4; 6] [1; 2; 5] [1; 2; 5] [3; 4; 6] eq_refl eq_refl) as (_ & E & _).
Defined.
