(* ===== verification/WebRtcSession.v ===== *)
(** A browser call's media (internal/media/webrtcsession.go).

    The session owns a browser leg ([WebRtcLeg]) on the public side and one
    RTP/RTCP pair on the private one.  The relay is driven packet by packet:
    [public_packet] and [private_packet] are one round of the loops
    [publicToPrivate] and [privateToPublic]; both ask the leg's gate before
    anything else is done with the packet.  The SRTP contexts' operations are
    parameters, as in [MediaSession]. *)

From S2P Require Import Prelude GoTime Netip PortPool Latch MediaSession WebRtcLeg.

Open Scope Z_scope.

Inductive sessionError := errWebRTCSessionClosed | errContext | errLeg (e : legError).

Section WebRTC.
Context {Ctx : Type}.
Variable newContext : SDESSuite -> list Z -> list Z -> option Ctx.
Variables KeyLen SaltLen : SDESSuite -> option Z.
Variables (unprotectRTP unprotectRTCP protectRTP protectRTCP : Ctx -> list Z -> option (list Z) * Ctx).
Variable listen_ok : Addr -> Z -> bool.
Variable write_udp : list Z -> AddrPort -> option Z.
(** The bytes a write to the leg's SRTP endpoint reports. *)
Variable write_leg : list Z -> option Z.

Record WebRTCSession := mkWS {
  ws_leg : @WebRTCLeg Ctx;
  ws_privPool : nat; ws_privBind : Addr; ws_privPort : Z;
  ws_privRTP : latch; ws_privRTCP : latch;
  ws_timeout : Z;
  ws_lastRx : two Z;
  ws_counters : two LegStats;
  ws_cause : Z;
  ws_state : sessState;
  ws_done : bool;
  ws_waiting : bool;                 (* a call of [Start] is in [start]'s select *)
  ws_relay : option (Ctx * Ctx)      (* in, out: the goroutines of [start] run *)
}.

Definition with_leg (g : @WebRTCLeg Ctx) (s : WebRTCSession) : WebRTCSession :=
  mkWS g (ws_privPool s) (ws_privBind s) (ws_privPort s) (ws_privRTP s) (ws_privRTCP s) (ws_timeout s) (ws_lastRx s)
    (ws_counters s) (ws_cause s) (ws_state s) (ws_done s) (ws_waiting s) (ws_relay s).
Definition with_latches (r c : latch) (s : WebRTCSession) : WebRTCSession :=
  mkWS (ws_leg s) (ws_privPool s) (ws_privBind s) (ws_privPort s) r c (ws_timeout s) (ws_lastRx s)
    (ws_counters s) (ws_cause s) (ws_state s) (ws_done s) (ws_waiting s) (ws_relay s).
Definition with_lastRx (l : two Z) (s : WebRTCSession) : WebRTCSession :=
  mkWS (ws_leg s) (ws_privPool s) (ws_privBind s) (ws_privPort s) (ws_privRTP s) (ws_privRTCP s) (ws_timeout s) l
    (ws_counters s) (ws_cause s) (ws_state s) (ws_done s) (ws_waiting s) (ws_relay s).
Definition with_counters (c : two LegStats) (s : WebRTCSession) : WebRTCSession :=
  mkWS (ws_leg s) (ws_privPool s) (ws_privBind s) (ws_privPort s) (ws_privRTP s) (ws_privRTCP s) (ws_timeout s) (ws_lastRx s)
    c (ws_cause s) (ws_state s) (ws_done s) (ws_waiting s) (ws_relay s).
Definition with_life (c : Z) (st : sessState) (d : bool) (s : WebRTCSession) : WebRTCSession :=
  mkWS (ws_leg s) (ws_privPool s) (ws_privBind s) (ws_privPort s) (ws_privRTP s) (ws_privRTCP s) (ws_timeout s) (ws_lastRx s)
    (ws_counters s) c st d (ws_waiting s) (ws_relay s).
Definition with_waiting (v : bool) (s : WebRTCSession) : WebRTCSession :=
  mkWS (ws_leg s) (ws_privPool s) (ws_privBind s) (ws_privPort s) (ws_privRTP s) (ws_privRTCP s) (ws_timeout s) (ws_lastRx s)
    (ws_counters s) (ws_cause s) (ws_state s) (ws_done s) v (ws_relay s).
Definition with_relay (r : Ctx * Ctx) (s : WebRTCSession) : WebRTCSession :=
  mkWS (ws_leg s) (ws_privPool s) (ws_privBind s) (ws_privPort s) (ws_privRTP s) (ws_privRTCP s) (ws_timeout s) (ws_lastRx s)
    (ws_counters s) (ws_cause s) (ws_state s) (ws_done s) (ws_waiting s) (Some r).

(** A latch of the private side carries no destination policy. *)
Definition private_latch (m : LatchMode) (par : PlaneParams) : latch :=
  mkLatch m AddrZero ap_zero AddrZero ap_zero ap_zero rankNone zero_time (AllowLoopback par) (mkPolicy false false []) false.

Definition NewWebRTCSession (leg : @WebRTCLeg Ctx) (privPool : nat) (par : PlaneParams) (mode : LatchMode) (tmo : Z) (w : world)
  : option WebRTCSession * world :=
  let '(r, p, s) := allocatePairWith listen_ok par (wpools w privPool) (socks w) in
  let w := mkWorld (set_pool privPool p (wpools w)) s in
  match r with
  | None => (None, w)
  | Some port =>
      let tmo := if tmo <=? 0 then Timeout par else tmo in
      (Some (mkWS leg privPool (BindIP par) port (private_latch mode par) (private_latch mode par) tmo
               (mkTwo 0 0) (mkTwo zero_leg zero_leg) CloseNone sessAllocated false false None), w)
  end.

Definition PrivateRTPPort (s : WebRTCSession) : Z := ws_privPort s.
Definition PublicPort (s : WebRTCSession) : Z := g_port (ws_leg s).

Definition SetPrivateRemote (addr : AddrPort) (s : WebRTCSession) : WebRTCSession :=
  let '(r, c) := seedPair addr (ws_privRTP s) (ws_privRTCP s) in with_latches r c s.
Definition RelatchPrivate (addr : AddrPort) (s : WebRTCSession) : WebRTCSession :=
  let '(r, c) := relatchPair addr (ws_privRTP s) (ws_privRTCP s) in with_latches r c s.

(** ** Closing *)

Definition closeWith (c : Z) (s : WebRTCSession) (w : world) : WebRTCSession * world :=
  if bool_decide (ws_state s = sessClosed) then (s, w)
  else
    let s := with_life c sessClosed true s in
    let w := mkWorld (wpools w) (close_pair (ws_privBind s) (ws_privPort s) (socks w)) in
    let w := mkWorld (set_pool (ws_privPool s) (release (ws_privPort s) (wpools w (ws_privPool s))) (wpools w)) (socks w) in
    let '(g, w) := WebRtcLeg.Close (ws_leg s) w in
    (with_leg g s, w).

Definition Fail : WebRTCSession -> world -> WebRTCSession * world := closeWith CloseLegFailed.
Definition CloseSession : WebRTCSession -> world -> WebRTCSession * world := closeWith CloseRequested.

(** ** Starting *)

(** The compare-and-swap of [Start]: [None] when this call is to go on with
    [start], an answer otherwise. *)
Definition begin_start (s : WebRTCSession) : option (option sessionError) * WebRTCSession :=
  if bool_decide (ws_state s = sessAllocated) then (None, with_waiting true (with_life (ws_cause s) sessRunning (ws_done s) s))
  else if bool_decide (ws_state s = sessClosed) then (Some (Some errWebRTCSessionClosed), s)
  else (Some None, s).

(** What [start]'s select saw: a choice between those that are ready. *)
Inductive wake := wokeReady | wokeContext | wokeDone.

Definition start (now : Z) (why : wake) (s : WebRTCSession) (w : world) : option sessionError * (WebRTCSession * world) :=
  match why with
  | wokeContext => (Some errContext, Fail s w)
  | wokeDone => (Some errWebRTCSessionClosed, (s, w))
  | wokeReady =>
      match Err (ws_leg s) with
      | Some e => (Some (errLeg e), Fail s w)
      | None =>
          match SRTPContexts (ws_leg s) with
          | None => (Some (errLeg ErrWebRTCNotReady), Fail s w)
          | Some ctxs =>
              if negb (Conn (ws_leg s)) then (Some (errLeg ErrWebRTCNotReady), Fail s w)
              else (None, (with_relay ctxs (with_lastRx (mkTwo now now) s), w))
          end
      end
  end.

(** ** The relay *)

Definition lat (rtpKind : bool) (s : WebRTCSession) : latch := if rtpKind then ws_privRTP s else ws_privRTCP s.
Definition set_lat (rtpKind : bool) (l : latch) (s : WebRTCSession) : WebRTCSession :=
  if rtpKind then with_latches l (ws_privRTCP s) s else with_latches (ws_privRTP s) l s.
Definition seen (now : Z) (x : Side) (s : WebRTCSession) : WebRTCSession := with_lastRx (upd_side x (fun _ => now) (ws_lastRx s)) s.

(** [demux.readLoop]: which endpoint a datagram of the ICE connection is for.
    An empty read and an unknown first byte are dropped. *)
Definition demux_to (pkt : list Z) : option muxKind :=
  if len pkt <=? 0 then None
  else match classify pkt with muxUnknown => None | k => Some k end.

(** A datagram of the leg's SRTP endpoint: what is written to the private side, and where. *)
Definition public_packet (now : Z) (pkt : list Z) (s : WebRTCSession) : option (list Z * AddrPort) * WebRTCSession :=
  match ws_relay s with
  | None => (None, s)
  | Some (in_, out) =>
      if negb (mediaVerified (ws_leg s)) then (None, s)
      else
        let rtcp := isRTCP pkt in
        let '(r, in_) := (if rtcp then unprotectRTCP else unprotectRTP) in_ pkt in
        let s := with_relay (in_, out) s in
        match r with
        | None => (None, s)
        | Some plain =>
            let s := seen now SideA s in
            let s := with_counters (recordRx SideA (negb rtcp) (len plain) (ws_counters s)) s in
            let dst := dest now (lat (negb rtcp) s) in
            if negb (ap_valid dst) then (None, s)
            else
              match write_udp plain dst with
              | Some n => (Some (plain, dst), with_counters (recordTx SideB (negb rtcp) n (ws_counters s)) s)
              | None => (Some (plain, dst), s)
              end
        end
  end.

(** A datagram of the private side's socket: what is written to the leg.
    [big] is a datagram longer than [maxPacketSize]. *)
Definition private_packet (now : Z) (rtpKind big : bool) (pkt : list Z) (src : AddrPort) (s : WebRTCSession)
  : option (list Z) * WebRTCSession :=
  match ws_relay s with
  | None => (None, s)
  | Some (in_, out) =>
      if big then (None, s)
      else
        let '(ok, l) := acceptFrom now src (lat rtpKind s) in
        let s := set_lat rtpKind l s in
        if negb ok then (None, s)
        else if negb (mediaVerified (ws_leg s)) then (None, s)
        else
          let s := seen now SideB s in
          let s := with_counters (recordRx SideB rtpKind (len pkt) (ws_counters s)) s in
          let '(r, out) := (if rtpKind then protectRTP else protectRTCP) out pkt in
          let s := with_relay (in_, out) s in
          match r with
          | None => (None, s)
          | Some sealed =>
              match write_leg sealed with
              | Some n => (Some sealed, with_counters (recordTx SideA rtpKind n (ws_counters s)) s)
              | None => (Some sealed, s)
              end
          end
  end.

(** ** Traces: the session's callers, its relay, and the leg's establishment *)

Inductive ws_op :=
  | WLeg (o : @leg_op)                               (* an operation of the leg, [Close] included *)
  | WRemote (addr : AddrPort) | WRelatch (addr : AddrPort)
  | WBegin | WStart (now : Z) (why : wake)
  | WPublic (now : Z) (pkt : list Z)
  | WPrivate (now : Z) (rtpKind big : bool) (pkt : list Z) (src : AddrPort)
  | WClose (c : Z).

(** A closed leg's endpoint and a closed session's sockets deliver nothing. *)
Definition closed_leg (s : WebRTCSession) : bool := bool_decide (g_state (ws_leg s) = legClosed).

(** What a step sends: a datagram to the private side, or one to the browser. *)
Inductive sent := toPrivate (pkt : list Z) (dst : AddrPort) | toBrowser (pkt : list Z).

Definition ws_step (s : WebRTCSession * world) (o : ws_op) : list sent * (WebRTCSession * world) :=
  let '(x, w) := s in
  match o with
  | WLeg o => let '(g, w) := leg_step newContext KeyLen SaltLen (ws_leg x, w) o in ([], (with_leg g x, w))
  | WRemote a => ([], (SetPrivateRemote a x, w))
  | WRelatch a => ([], (RelatchPrivate a x, w))
  | WBegin => ([], ((begin_start x).2, w))
  | WStart now why => ([], if ws_waiting x then (start now why (with_waiting false x) w).2 else (x, w))
  | WPublic now pkt =>
      match demux_to pkt with
      | Some muxSRTP =>
          if closed_leg x then ([], (x, w))
          else let '(r, x) := public_packet now pkt x in (match r with Some (p, d) => [toPrivate p d] | None => [] end, (x, w))
      | _ => ([], (x, w))
      end
  | WPrivate now k big pkt src =>
      if bool_decide (ws_state x = sessClosed) then ([], (x, w))
      else let '(r, x) := private_packet now k big pkt src x in (match r with Some p => [toBrowser p] | None => [] end, (x, w))
  | WClose c => ([], closeWith c x w)
  end.

(** The state after the steps, and all that was sent. *)
Fixpoint ws_run (s : WebRTCSession * world) (os : list ws_op) : list sent * (WebRTCSession * world) :=
  match os with
  | [] => ([], s)
  | o :: os => let '(out, s) := ws_step s o in let '(outs, s) := ws_run s os in (out ++ outs, s)
  end.

(** ** The gate *)

Abbreviation wstep := ws_step.

Definition leg_ops (os : list ws_op) : list leg_op := omap (fun o => match o with WLeg o => Some o | _ => None end) os.

Lemma leg_ops_app os o : leg_ops (os ++ [o]) = leg_ops os ++ leg_ops [o].
Proof. apply omap_app. Qed.

Lemma leg_ops_other os o : leg_ops [o] = [] -> leg_ops (os ++ [o]) = leg_ops os.
Proof. intros H. by rewrite leg_ops_app, H, app_nil_r. Qed.

(** What the packets and the private remote leave of the session. *)
Definition same_frame (s s' : WebRTCSession) : Prop :=
  ws_leg s' = ws_leg s /\ ws_privPool s' = ws_privPool s /\ ws_privBind s' = ws_privBind s /\ ws_privPort s' = ws_privPort s /\
  ws_cause s' = ws_cause s /\ ws_state s' = ws_state s /\ ws_done s' = ws_done s.

Lemma public_frame now pkt s : same_frame s (public_packet now pkt s).2.
Proof.
  unfold public_packet. repeat case_match; simplify_eq/=; by repeat split.
Qed.

Lemma private_frame now k big pkt src s : same_frame s (private_packet now k big pkt src s).2.
Proof.
  unfold private_packet, set_lat. destruct (ws_relay s) as [[i o]|]; [|by repeat split]. case_if; [by repeat split|].
  destruct (acceptFrom _ _ _) as [ok l]. destruct k, ok; cbn; repeat case_match; simplify_eq/=; by repeat split.
Qed.

Lemma remote_frame a s : same_frame s (SetPrivateRemote a s).
Proof. by repeat split. Qed.
Lemma relatch_frame a s : same_frame s (RelatchPrivate a s).
Proof. by repeat split. Qed.

(** ** Holdings *)

(** What an open leg and an open pair add to the world [w0]. *)
Definition leg_share (s : WebRTCSession) : bool := negb (closed_leg s).
Definition pair_share (s : WebRTCSession) : bool := negb (bool_decide (ws_state s = sessClosed)).
Definition one_if (b : bool) (p : Z) : gset Z := if b then {[ p ]} else ∅.
Definition here (i j : nat) (b : bool) : bool := Nat.eqb i j && b.

Definition held (w0 : world) (x : WebRTCSession) (w : world) : Prop :=
  (forall i, inUse (wpools w i) =
     one_if (here i (g_pool (ws_leg x)) (leg_share x)) (g_port (ws_leg x)) ∪
     (one_if (here i (ws_privPool x) (pair_share x)) (ws_privPort x) ∪ inUse (wpools w0 i))) /\
  socks w = (if leg_share x then {[ (g_bind (ws_leg x), g_port (ws_leg x)) ]} else ∅) ∪
     ((if pair_share x then {[ (ws_privBind x, ws_privPort x); (ws_privBind x, ws_privPort x + 1) ]} else ∅) ∪ socks w0).

(** The leg's port and sockets are not the pair's, nor were any in [w0]. *)
Definition apart (w0 : world) (x : WebRTCSession) : Prop :=
  let g := ws_leg x in
  g_port g ∉ inUse (wpools w0 (g_pool g)) /\ ws_privPort x ∉ inUse (wpools w0 (ws_privPool x)) /\
  (g_pool g = ws_privPool x -> g_port g <> ws_privPort x) /\
  (g_bind g, g_port g) ∉ socks w0 /\
  (ws_privBind x, ws_privPort x) ∉ socks w0 /\ (ws_privBind x, ws_privPort x + 1) ∉ socks w0 /\
  (g_bind g, g_port g) <> (ws_privBind x, ws_privPort x) /\ (g_bind g, g_port g) <> (ws_privBind x, ws_privPort x + 1).

(** Only a closed session leaves a closed leg behind for good. *)
Definition ws_inv (w0 : world) (s : WebRTCSession * world) : Prop :=
  apart w0 s.1 /\ held w0 s.1 s.2 /\ (ws_state s.1 = sessClosed -> closed_leg s.1 = true).

Lemma held_leg_closed w0 x w g' w' : apart w0 x -> held w0 x w -> closed_leg x = false ->
  g_pool g' = g_pool (ws_leg x) -> g_bind g' = g_bind (ws_leg x) -> g_port g' = g_port (ws_leg x) ->
  g_state g' = legClosed -> w' = released (ws_leg x) w -> held w0 (with_leg g' x) w'.
Proof.
  intros (A1 & A2 & A3 & A4 & A5 & A6 & A7 & A8) [HP HS] C P B N S ->. unfold held, leg_share, pair_share, closed_leg in *.
  cbn [ws_leg ws_privPool ws_privBind ws_privPort ws_state with_leg released wpools socks].
  rewrite P, B, N, S, (bool_decide_eq_true_2 (legClosed = legClosed)) by done. rewrite C in *. cbn [negb] in *. split.
  - intros i. rewrite set_pool_inUse. cbn [release inUse]. unfold here in *. rewrite andb_false_r. cbn [one_if].
    destruct (Nat.eqb i (g_pool (ws_leg x))) eqn:E; [apply Nat.eqb_eq in E as ->|]; rewrite HP; rewrite ?Nat.eqb_refl, ?E; cbn [andb one_if]; [|done].
    destruct (Nat.eqb (g_pool (ws_leg x)) (ws_privPool x)) eqn:E2; cbn [andb one_if]; [apply Nat.eqb_eq in E2|]; [|set_solver].
    specialize (A3 E2). unfold one_if. case_if; set_solver.
  - unfold close_socket. rewrite HS. case_if; set_solver.
Qed.

Definition pair_released (x : WebRTCSession) (w : world) : world :=
  mkWorld (set_pool (ws_privPool x) (release (ws_privPort x) (wpools w (ws_privPool x))) (wpools w))
          (close_pair (ws_privBind x) (ws_privPort x) (socks w)).

Lemma held_pair_closed w0 x w c : apart w0 x -> held w0 x w -> ws_state x <> sessClosed ->
  held w0 (with_life c sessClosed true x) (pair_released x w).
Proof.
  intros (A1 & A2 & A3 & A4 & A5 & A6 & A7 & A8) [HP HS] C. unfold held, leg_share, pair_share, closed_leg in *.
  cbn [ws_leg ws_privPool ws_privBind ws_privPort ws_state with_life pair_released wpools socks].
  rewrite (bool_decide_eq_true_2 (sessClosed = sessClosed)) by done. rewrite (bool_decide_eq_false_2 _ C) in *. cbn [negb] in *. split.
  - intros i. rewrite set_pool_inUse. cbn [release inUse]. unfold here in *. rewrite andb_false_r. cbn [one_if].
    destruct (Nat.eqb i (ws_privPool x)) eqn:E; [apply Nat.eqb_eq in E as ->|]; rewrite HP; rewrite ?Nat.eqb_refl, ?E; cbn [andb one_if]; [|done].
    destruct (Nat.eqb (ws_privPool x) (g_pool (ws_leg x))) eqn:E2; cbn [andb one_if]; [apply Nat.eqb_eq in E2|]; [|set_solver].
    specialize (A3 (eq_sym E2)). unfold one_if. case_if; set_solver.
  - unfold close_pair, close_socket. rewrite HS. case_if; set_solver.
Qed.

Lemma apart_same w0 x x' : g_pool (ws_leg x') = g_pool (ws_leg x) -> g_bind (ws_leg x') = g_bind (ws_leg x) ->
  g_port (ws_leg x') = g_port (ws_leg x) -> ws_privPool x' = ws_privPool x -> ws_privBind x' = ws_privBind x ->
  ws_privPort x' = ws_privPort x -> apart w0 x -> apart w0 x'.
Proof. intros P B N PP PB PN. unfold apart. cbv zeta. by rewrite P, B, N, PP, PB, PN. Qed.

Lemma held_same w0 x x' w : g_pool (ws_leg x') = g_pool (ws_leg x) -> g_bind (ws_leg x') = g_bind (ws_leg x) ->
  g_port (ws_leg x') = g_port (ws_leg x) -> closed_leg x' = closed_leg x -> ws_privPool x' = ws_privPool x ->
  ws_privBind x' = ws_privBind x -> ws_privPort x' = ws_privPort x -> ws_state x' = ws_state x -> held w0 x w -> held w0 x' w.
Proof. intros P B N C PP PB PN S. unfold held, leg_share, pair_share. by rewrite P, B, N, C, PP, PB, PN, S. Qed.

Lemma inv_frame w0 x x' w : same_frame x x' -> ws_inv w0 (x, w) -> ws_inv w0 (x', w).
Proof.
  intros (L & PP & PB & PN & _ & S & _) (A & H & C). cbn [fst snd] in *. unfold ws_inv, closed_leg in *. cbn [fst snd].
  split; [|split]; [eapply apart_same; [..|exact A]|eapply held_same; [..|exact H]|]; unfold closed_leg; rewrite ?L; try done.
  by rewrite S.
Qed.

(** A move of the leg, within the session. *)
Lemma inv_leg w0 x w g' w' : ws_inv w0 (x, w) -> world_step (ws_leg x, w) (g', w') -> ws_inv w0 (with_leg g' x, w').
Proof.
  intros (A & H & C) (P & B & N & D). cbn [fst snd] in *. unfold is_closed in D.
  assert (apart w0 (with_leg g' x)) as A' by (eapply apart_same; [..|exact A]; done).
  destruct D as [[E ->]|(E & E' & ->)]; (split; [done|split]); cbn [fst snd].
  - eapply held_same; [..|exact H]; first [done|exact E].
  - intros S. unfold closed_leg in *. cbn. rewrite E. by apply C.
  - apply bool_decide_eq_true in E'. by apply (held_leg_closed w0 x w).
  - intros _. done.
Qed.

Lemma inv_close w0 c x w : ws_inv w0 (x, w) -> ws_inv w0 (closeWith c x w).
Proof.
  intros (A & H & C). unfold closeWith. case_if; [done|]. breflect. cbn [fst snd] in *.
  change (mkWorld _ _) with (pair_released (with_life c sessClosed true x) w).
  destruct (WebRtcLeg.Close (ws_leg (with_life c sessClosed true x)) (pair_released (with_life c sessClosed true x) w)) as [g' w'] eqn:E.
  pose proof (close_world (ws_leg x) (pair_released x w)) as W. cbn [with_life ws_leg] in E.
  change (pair_released (with_life c sessClosed true x) w) with (pair_released x w) in E. rewrite E in W.
  assert (g_state g' = legClosed) as G.
  { unfold WebRtcLeg.Close in E. destruct (bool_decide (g_state (ws_leg x) = legClosed)) eqn:Q.
    - simplify_eq. by apply bool_decide_eq_true in Q.
    - injection E as <- _. unfold set_. by rewrite Q. }
  pose proof (held_pair_closed w0 x w c A H Heqb) as H'. destruct W as (P & B & N & D). cbn [fst snd] in *.
  split; [|split]; cbn [fst snd].
  - eapply apart_same; [..|exact A]; done.
  - destruct D as [[D ->]|(D & _ & ->)].
    + eapply held_same; [..|exact H']; first [done|exact D].
    + apply (held_leg_closed w0 (with_life c sessClosed true x) (pair_released x w)); try done.
  - intros _. unfold closed_leg. cbn. by apply bool_decide_eq_true_2.
Qed.

Lemma inv_step w0 s o : ws_inv w0 s -> ws_inv w0 (ws_step s o).2.
Proof.
  destruct s as [x w]. intros I. destruct o; cbn [ws_step].
  - pose proof (step_world newContext KeyLen SaltLen (ws_leg x, w) o) as W.
    destruct (leg_step _ _ _ _ _) as [g' w']. by eapply inv_leg.
  - by eapply inv_frame.
  - by eapply inv_frame.
  - unfold begin_start. case_if; [|by case_if]. breflect. destruct I as (A & H & C). cbn [fst snd] in *. split; [done|split]; cbn [fst snd].
    + unfold held, leg_share, pair_share, closed_leg in *. cbn. rewrite Heqb in H. done.
    + done.
  - case_if; [|done]. assert (ws_inv w0 (with_waiting false x, w)) as I' by (by eapply inv_frame; [|exact I]).
    unfold start. destruct why; cbn [snd]; [|by apply inv_close|done].
    repeat case_match; cbn [snd]; try by apply inv_close. by eapply inv_frame; [|exact I'].
  - destruct (demux_to pkt) as [[]|]; try done. case_if; [done|]. pose proof (public_frame now pkt x) as F.
    destruct (public_packet now pkt x) as [r x']. by eapply inv_frame; [|exact I].
  - case_if; [done|]. pose proof (private_frame now rtpKind big pkt src x) as F.
    destruct (private_packet now rtpKind big pkt src x) as [r x']. by eapply inv_frame; [|exact I].
  - by apply inv_close.
Qed.

Lemma ws_run_app s os1 os2 : (ws_run s (os1 ++ os2)).2 = (ws_run (ws_run s os1).2 os2).2.
Proof.
  revert s. induction os1 as [|o os IH]; intros s; [done|]. cbn [app ws_run]. destruct (ws_step s o) as [out s'].
  specialize (IH s'). destruct (ws_run s' (os ++ os2)) as [? ?]. by destruct (ws_run s' os) as [? ?].
Qed.

Lemma inv_run w0 s os : ws_inv w0 s -> ws_inv w0 (ws_run s os).2.
Proof.
  revert s. induction os as [|o os IH]; intros s I; [done|]. cbn [ws_run]. pose proof (inv_step w0 s o I) as I'.
  destruct (ws_step s o) as [out s']. specialize (IH s' I'). by destruct (ws_run s' os) as [? ?].
Qed.

(** ** What is sent *)

(** The leg has met a certificate signalling named. *)
Definition met (os : list ws_op) (x : WebRTCSession) : Prop := vouched (leg_ops os) (ws_leg x).

(** A datagram is what the SRTP contexts made of one. *)
Definition keyed (m : sent) : Prop :=
  match m with
  | toPrivate p d => ap_valid d = true /\ exists c pkt, (unprotectRTP c pkt).1 = Some p \/ (unprotectRTCP c pkt).1 = Some p
  | toBrowser p => exists c pkt, (protectRTP c pkt).1 = Some p \/ (protectRTCP c pkt).1 = Some p
  end.

Lemma public_sends now pkt x p d : (public_packet now pkt x).1 = Some (p, d) -> mediaVerified (ws_leg x) = true /\ keyed (toPrivate p d).
Proof.
  unfold public_packet. destruct (ws_relay x) as [[c o]|]; [|done]. destruct (mediaVerified (ws_leg x)); cbn [negb]; [|done].
  intros H. split; [done|]. cbn [keyed].
  destruct (isRTCP pkt); [destruct (unprotectRTCP c pkt) as [r c'] eqn:E|destruct (unprotectRTP c pkt) as [r c'] eqn:E];
    (destruct r as [plain|]; [|done]); cbv zeta in H; (case_if_in H; [done|]); breflect;
    (assert (p = plain /\ ap_valid d = true) as [-> V] by (destruct (write_udp _ _); simplify_eq/=; done));
    (split; [done|]); exists c, pkt; rewrite E; auto.
Qed.

Lemma private_sends now k big pkt src x p : (private_packet now k big pkt src x).1 = Some p -> mediaVerified (ws_leg x) = true /\ keyed (toBrowser p).
Proof.
  unfold private_packet. destruct (ws_relay x) as [[c o]|]; [|done]. case_if; [done|].
  destruct (acceptFrom _ _ _) as [ok l]. destruct ok; cbn [negb]; [|done].
  replace (ws_leg (set_lat k l x)) with (ws_leg x) by (by destruct k). destruct (mediaVerified (ws_leg x)); cbn [negb]; [|done].
  intros H. split; [done|]. cbn [keyed]. cbv zeta in H.
  destruct k; [destruct (protectRTP o pkt) as [r o'] eqn:E|destruct (protectRTCP o pkt) as [r o'] eqn:E];
    (destruct r as [out|]; [|done]); exists o, pkt; rewrite E; cbn; (replace p with out by (by destruct (write_leg out); simplify_eq/=)); auto.
Qed.

Definition gate_ok (os : list ws_op) (x : WebRTCSession) : Prop := gate_inv (leg_ops os) (ws_leg x).

Lemma closeWith_leg c x w : ws_leg (closeWith c x w).1 = ws_leg x \/ exists w', ws_leg (closeWith c x w).1 = (WebRtcLeg.Close (ws_leg x) w').1.
Proof.
  unfold closeWith. case_if; [by left|]. right. cbv zeta. cbn [ws_leg with_life]. destruct (WebRtcLeg.Close _ _) as [g w'] eqn:E. 
  eexists. by rewrite E.
Qed.

(** The steps that are not the leg's leave it or close it. *)
Lemma other_leg o s : (forall o', o <> WLeg o') ->
  ws_leg (ws_step s o).2.1 = ws_leg s.1 \/ exists w', ws_leg (ws_step s o).2.1 = (WebRtcLeg.Close (ws_leg s.1) w').1.
Proof.
  destruct s as [x w]. intros N. destruct o; cbn [ws_step]; try (by left); try by destruct (N o).
  - left. unfold begin_start. case_if; [done|]. by case_if.
  - case_if; [|by left]. unfold start. destruct why; cbn [snd]; [|apply (closeWith_leg _ (with_waiting false x))|by left].
    repeat case_match; cbn [snd]; try (by apply (closeWith_leg _ (with_waiting false x))). by left.
  - destruct (demux_to pkt) as [[]|]; try (by left). case_if; [by left|]. pose proof (public_frame now pkt x) as (L & _).
    destruct (public_packet now pkt x) as [r x']. by left.
  - case_if; [by left|]. pose proof (private_frame now rtpKind big pkt src x) as (L & _).
    destruct (private_packet now rtpKind big pkt src x) as [r x']. by left.
  - apply closeWith_leg.
Qed.

Lemma met_step os o s : gate_ok os s.1 -> gate_ok (os ++ [o]) (ws_step s o).2.1 /\ (met os s.1 -> met (os ++ [o]) (ws_step s o).2.1).
Proof.
  intros G. unfold gate_ok, met in *. destruct o as [o| | | | | | |].
  { rewrite leg_ops_app. destruct s as [x w]. cbn [ws_step fst] in *.
    pose proof (gate_step newContext KeyLen SaltLen (leg_ops os) o (ws_leg x, w) G) as G'.
    pose proof (vouched_step newContext KeyLen SaltLen (leg_ops os) o (ws_leg x, w)) as V.
    destruct (leg_step _ _ _ _ _) as [g' w']. by split. }
  all: rewrite leg_ops_other by done.
  all: match goal with |- context [ws_step ?st ?op] => destruct (other_leg op st ltac:(done)) as [->|[w' ->]]; [done|] end.
  all: split; [by apply gate_close|].
  all: intros (f & cs & S & P & M); exists f, cs; (split; [|done]); destruct S as [[-> R]|S]; [left|by right].
  all: destruct (step_remote newContext KeyLen SaltLen (ws_leg s.1, w') LClose R) as [A B]; cbn [leg_step] in A, B; by rewrite A, B.
Qed.

Lemma sends_are_met os s o m : gate_ok os s.1 -> m ∈ (ws_step s o).1 -> met os s.1 /\ keyed m.
Proof.
  destruct s as [x w]. cbn [fst]. intros (_ & G & _) I. destruct o; cbn [ws_step] in I; try by apply elem_of_nil in I.
  - by destruct (leg_step _ _ _ _ _), (elem_of_nil m).
  - destruct (demux_to pkt) as [[]|]; try by apply elem_of_nil in I. case_if_in I; [by apply elem_of_nil in I|].
    pose proof (public_sends now pkt x) as K. destruct (public_packet now pkt x) as [[[p d]|] x']; [|by apply elem_of_nil in I].
    apply list_elem_of_singleton in I as ->. destruct (K p d eq_refl). split; [by apply G|done].
  - case_if_in I; [by apply elem_of_nil in I|]. pose proof (private_sends now rtpKind big pkt src x) as K.
    destruct (private_packet now rtpKind big pkt src x) as [[p|] x']; [|by apply elem_of_nil in I].
    apply list_elem_of_singleton in I as ->. destruct (K p eq_refl). split; [by apply G|done].
Qed.

Lemma ws_run_met os2 : forall os1 s, gate_ok os1 s.1 -> 
  gate_ok (os1 ++ os2) (ws_run s os2).2.1 /\ (met os1 s.1 -> met (os1 ++ os2) (ws_run s os2).2.1) /\
  forall m, m ∈ (ws_run s os2).1 -> met (os1 ++ os2) (ws_run s os2).2.1 /\ keyed m.
Proof.
  induction os2 as [|o os IH]; intros os1 s G.
  - rewrite app_nil_r. split; [done|split; [done|by intros m ?%elem_of_nil]].
  - cbn [ws_run]. destruct (met_step os1 o s G) as [G' V]. pose proof (fun m => sends_are_met os1 s o m G) as K.
    destruct (ws_step s o) as [out s']. cbn [fst snd] in *. destruct (IH (os1 ++ [o]) s' G') as (A & B & C).
    rewrite <- app_assoc in A, B, C. destruct (ws_run s' os) as [outs s'']. cbn [fst snd app] in *.
    split; [done|]. split; [tauto|]. intros m [I|I]%elem_of_app; [|by apply C]. destruct (K m I). tauto.
Qed.

(** C3: a browser call sends nothing for a stranger.  Whatever order packets,
    establishment, signalling and teardown come in: if the relay has sent
    anything at all, to the browser or to the switch, then the browser's DTLS
    certificate has been seen to hash to a fingerprint that signalling named;
    and every datagram sent is one the SRTP contexts decrypted or sealed. *)
Theorem browser_media_is_gated s os : fresh (ws_leg s.1) ->
  forall m, m ∈ (ws_run s os).1 -> keyed m /\ met os (ws_run s os).2.1.
Proof.
  intros F m I. destruct (ws_run_met os [] s) as (_ & _ & K).
  - exact (gate_run newContext KeyLen SaltLen (ws_leg s.1) s.2 [] F).
  - destruct (K m I). done.
Qed.

Lemma alloc_single_spec par p w : params_ok par -> pool_ok p ->
  let '(r, p', w') := allocateSingle listen_ok par p w in
  pool_ok p' /\
  match r with
  | Some port => port ∉ inUse p /\ inUse p' = {[ port ]} ∪ inUse p /\ (BindIP par, port) ∉ w /\ w' = {[ (BindIP par, port) ]} ∪ w
  | None => inUse p' = inUse p /\ w' = w
  end.
Proof.
  intros Hpar Hok. unfold allocateSingle. pose proof (sweep_spec (listenUDP listen_ok (BindIP par)) par p w Hpar Hok) as R.
  destruct (sweep _ _ _ _) as [[r p'] w']. destruct R as [Hok' R]. split; [done|].
  destruct r as [port|]; [|by destruct R as (? & ? & _)]. destruct R as (_ & R2 & R3 & R4).
  unfold listenUDP in R3. case_if_in R3; [done|]. breflect. injection R3 as <-. done.
Qed.

Lemma new_leg_spec a par cfg creds w : params_ok par -> world_ok w ->
  let '(r, w1) := NewWebRTCLeg (Ctx:=Ctx) listen_ok a par cfg creds w in
  match r with
  | inr _ => same_holdings w w1
  | inl g => fresh g /\ g_pool g = a /\ g_bind g = BindIP par /\ g_port g ∉ inUse (wpools w a) /\
      (BindIP par, g_port g) ∉ socks w /\ world_ok w1 /\
      (forall i, inUse (wpools w1 i) = one_if (Nat.eqb i a) (g_port g) ∪ inUse (wpools w i)) /\
      socks w1 = {[ (BindIP par, g_port g) ]} ∪ socks w
  end.
Proof.
  clear write_udp write_leg.
  intros Hpar Hw. unfold NewWebRTCLeg. case_if; [done|]. case_if; [done|]. case_if; [done|].
  destruct (optional_fingerprint _ _) as [fp|e]; [|done].
  pose proof (alloc_single_spec par (wpools w a) (socks w) Hpar (Hw a)) as R.
  destruct (allocateSingle _ _ _ _) as [[r p] sk]. destruct R as [Hp R]. destruct r as [port|].
  - destruct R as (A1 & A2 & A3 & ->). destruct creds as [[ufrag pwd]|].
    + cbn [g_pool g_bind g_port wpools socks]. split; [by repeat split|]. split; [done|]. split; [done|].
      split; [done|]. split; [done|]. split; [|split; [|done]].
      * intros i. cbn. unfold set_pool. case_if; [done|apply Hw].
      * intros i. rewrite set_pool_inUse. unfold one_if. case_if; [by apply Nat.eqb_eq in Heqb2 as ->|set_solver].
    + split; cbn [wpools socks].
      * intros i. rewrite set_pool_inUse. cbn [release inUse]. rewrite set_pool_inUse, Nat.eqb_refl. case_if.
        -- apply Nat.eqb_eq in Heqb2 as ->. rewrite A2. by apply release_undo.
        -- rewrite set_pool_inUse. by rewrite Heqb2.
      * unfold close_socket. set_solver.
  - destruct R as [A1 ->]. split; [|done]. intros i. cbn. rewrite set_pool_inUse. case_if; [|done]. by apply Nat.eqb_eq in Heqb2 as ->.
Qed.

Lemma new_session_inv w0 g w1 b par mode tmo : params_ok par -> world_ok w1 -> fresh g ->
  g_port g ∉ inUse (wpools w0 (g_pool g)) -> (g_bind g, g_port g) ∉ socks w0 ->
  (forall i, inUse (wpools w1 i) = one_if (Nat.eqb i (g_pool g)) (g_port g) ∪ inUse (wpools w0 i)) ->
  socks w1 = {[ (g_bind g, g_port g) ]} ∪ socks w0 ->
  match NewWebRTCSession g b par mode tmo w1 with
  | (None, w2) => same_holdings w0 (WebRtcLeg.Close g w2).2
  | (Some x, w2) => ws_inv w0 (x, w2) /\ ws_leg x = g
  end.
Proof.
  intros Hpar Hw (_ & _ & _ & _ & _ & _ & _ & St & _) N1 N2 W1 W2. unfold NewWebRTCSession.
  pose proof (alloc_pair_spec listen_ok par (wpools w1 b) (socks w1) Hpar (Hw b)) as R.
  destruct (allocatePairWith _ _ _ _) as [[r p] sk]. destruct R as [Hp R]. destruct r as [port|].
  - destruct R as (A1 & A2 & A3 & A4 & ->). split; [|done]. split; [|split]; cbn [fst snd].
    + unfold apart. cbn. rewrite W2 in A3, A4. rewrite W1 in A1. apply not_elem_of_union in A1 as [A1 A1'].
      apply not_elem_of_union in A3 as [A3 A3'], A4 as [A4 A4']. rewrite elem_of_singleton in A3, A4.
      repeat split; try done; try congruence. intros E H. apply A1. rewrite <- E, Nat.eqb_refl, H. by apply elem_of_singleton.
    + unfold held, leg_share, pair_share, closed_leg, here. cbn [ws_leg ws_privPool ws_privBind ws_privPort ws_state wpools socks].
      rewrite St, !bool_decide_eq_false_2 by done. cbn [negb]. split.
      * intros i. rewrite set_pool_inUse, !andb_true_r, (assoc_L union), (comm_L union (one_if _ _) (one_if _ _)), <- (assoc_L union), <- W1.
        case_if; [apply Nat.eqb_eq in Heqb0 as ->; by rewrite A2|]. cbn [one_if]. by rewrite (left_id_L ∅ union).
      * rewrite W2. apply set_eq. intros z. rewrite !elem_of_union. tauto.
    + done.
  - destruct R as [A1 ->]. unfold WebRtcLeg.Close. rewrite St, (bool_decide_eq_false_2 (legAllocated = legClosed)) by done.
    destruct (set_fields legClosed None g) as (P & B & N & _). cbn [snd]. rewrite P, B, N. split; cbn [wpools socks].
    + intros i. rewrite set_pool_inUse. cbn [release inUse]. rewrite !set_pool_inUse.
      destruct (Nat.eqb i (g_pool g)) eqn:E.
      * apply Nat.eqb_eq in E as ->. replace (if Nat.eqb (g_pool g) b then inUse p else inUse (wpools w1 (g_pool g))) with (inUse (wpools w1 (g_pool g)))
          by (case_if; [|done]; by apply Nat.eqb_eq in Heqb0 as <-).
        rewrite W1, Nat.eqb_refl. by apply release_undo.
      * replace (if Nat.eqb i b then inUse p else inUse (wpools w1 i)) with (inUse (wpools w1 i))
          by (case_if; [|done]; by apply Nat.eqb_eq in Heqb0 as ->).
        rewrite W1, E. cbn. set_solver.
    + rewrite W2. unfold close_socket. set_solver.
Qed.

(** a browser call gives back exactly what it took, once.  After a
    successful allocation, whatever establishment, signalling and packets did
    to the session - its leg may have failed and closed on its own - closing
    it leaves reservations and sockets as they were before the call, closes
    the leg, and closing it again does nothing. *)
Theorem browser_call_returns_everything a parA cfg creds b parB mode tmo w0 g w1 x w2 os c1 c2 :
  params_ok parA -> params_ok parB -> world_ok w0 ->
  NewWebRTCLeg listen_ok a parA cfg creds w0 = (inl g, w1) ->
  NewWebRTCSession g b parB mode tmo w1 = (Some x, w2) ->
  let s := closeWith c1 (ws_run (x, w2) os).2.1 (ws_run (x, w2) os).2.2 in
  same_holdings w0 s.2 /\ closed_leg s.1 = true /\ ws_state s.1 = sessClosed /\ closeWith c2 s.1 s.2 = s.
Proof.
  intros HA HB Hw EL ES. pose proof (new_leg_spec a parA cfg creds w0 HA Hw) as L. rewrite EL in L.
  destruct L as (F & P & B & N & S & Hw1 & W1 & W2).
  subst a. rewrite <- B in S, W2. pose proof (new_session_inv w0 g w1 b parB mode tmo HB Hw1 F N S W1 W2) as I.
  rewrite ES in I. destruct I as [I _]. cbv zeta.
  pose proof (inv_run w0 (x, w2) os I) as J. destruct (ws_run (x, w2) os) as [outs [y w]]. cbn [fst snd] in *.
  pose proof (inv_close w0 c1 y w J) as (_ & H & C). 
  assert (ws_state (closeWith c1 y w).1 = sessClosed) as Sc.
  { unfold closeWith. case_if; [by breflect|]. cbv zeta. by destruct (WebRtcLeg.Close _ _). }
  specialize (C Sc). destruct H as [H1 H2]. unfold leg_share, pair_share, here in *. rewrite C, Sc in *. cbn in H1, H2.
  split; [|split; [done|split; [done|]]].
  - split; [intros i; rewrite H1|rewrite H2]; rewrite ?andb_false_r; cbn [one_if]; set_solver.
  - destruct (closeWith c1 y w) as [y' w']. cbn [fst snd] in *. unfold closeWith. by rewrite Sc.
Qed.

(** a browser leg or session that cannot be built leaks nothing: neither
    when the leg is refused (a bad fingerprint, no port, no credentials) nor
    when the leg exists and the private pair does not, once the caller has
    closed the leg. *)
Theorem failed_browser_call_leaks_nothing a parA cfg creds b parB mode tmo w0 :
  params_ok parA -> params_ok parB -> world_ok w0 ->
  let '(r, w1) := NewWebRTCLeg (Ctx:=Ctx) listen_ok a parA cfg creds w0 in
  match r with
  | inr _ => same_holdings w0 w1
  | inl g => forall w2, NewWebRTCSession g b parB mode tmo w1 = (None, w2) -> same_holdings w0 (WebRtcLeg.Close g w2).2
  end.
Proof.
  intros HA HB Hw. pose proof (new_leg_spec a parA cfg creds w0 HA Hw) as L.
  destruct (NewWebRTCLeg _ _ _ _ _ _) as [[g|e] w1]; [|done]. destruct L as (F & P & B & N & S & Hw1 & W1 & W2).
  intros w2 E. subst a. rewrite <- B in S, W2. pose proof (new_session_inv w0 g w1 b parB mode tmo HB Hw1 F N S W1 W2) as I.
  by rewrite E in I.
Qed.
End WebRTC.

(** ** A call with a browser *)

Definition demo_session : (@WebRTCSession (list Z)) * world :=
  let '(r, w) := NewWebRTCSession (fun _ _ => true) demo_leg 1 private_plane LatchStrict 0 (demo_new demo_config).2 in
  match r with
  | Some x => (x, w)
  | None => (mkWS demo_leg 0 AddrZero 0 (private_latch LatchStrict lab) (private_latch LatchStrict lab) 0 (mkTwo 0 0)
               (mkTwo zero_leg zero_leg) CloseNone sessClosed true false None, w)
  end.

Definition toy_seal_key (c : list Z) (p : list Z) : option (list Z) * list Z := (Some (p ++ c), c).
Definition toy_open_key (c : list Z) (p : list Z) : option (list Z) * list Z :=
  (if bool_decide (drop (length p - length c) p = c) then Some (take (length p - length c) p) else None, c).

Definition demo_remote : AddrPort := mkAddrPort (ip4 10 0 0 7) 4000.
Definition demo_ws_ops (cert : list Z) : list ws_op :=
  [WRemote demo_remote; WBegin] ++ map WLeg (demo_events cert) ++
  [WStart 100 wokeReady; WPrivate 200 true false [128; 0; 1] demo_remote; WPublic 300 ([129; 8; 8] ++ [1; 2; 5])].

Abbreviation demo_ws_run cert :=
  (ws_run toy_keys (toy_len 2) (toy_len 1) toy_open_key toy_open_key toy_seal_key toy_seal_key (fun _ _ => Some 3) (fun p => Some (len p))
     demo_session (demo_ws_ops cert)).

Example demo_call_is_relayed : (demo_ws_run demo_cert).1 = [toBrowser [128; 0; 1; 3; 4; 6]; toPrivate [129; 8; 8] demo_remote].
Proof. by vm_compute. Qed.

Example demo_stranger_is_not : (demo_ws_run (str "another")).1 = [].
Proof. by vm_compute. Qed.

Lemma browser_media_is_gated_witness :
  (exists c pkt, (toy_seal_key c pkt).1 = Some [128; 0; 1; 3; 4; 6] \/ (toy_seal_key c pkt).1 = Some [128; 0; 1; 3; 4; 6]) /\
  met (demo_ws_ops demo_cert) (demo_ws_run demo_cert).2.1.
Proof.
  exact (browser_media_is_gated toy_keys (toy_len 2) (toy_len 1) toy_open_key toy_open_key toy_seal_key toy_seal_key
    (fun _ _ => Some 3) (fun p => Some (len p)) demo_session (demo_ws_ops demo_cert) ltac:(by vm_compute)
    (toBrowser [128; 0; 1; 3; 4; 6]) ltac:(rewrite demo_call_is_relayed; by apply elem_of_cons; left)).
Defined.

Lemma demo_leg_new : demo_new demo_config = (inl demo_leg, (demo_new demo_config).2).
Proof.
  assert (exists g, (demo_new demo_config).1 = inl g) as [g H] by (vm_compute; eexists; reflexivity).
  unfold demo_leg. destruct (demo_new demo_config) as [r w]. cbn in *. by subst.
Qed.

Lemma demo_session_new :
  NewWebRTCSession (fun _ _ => true) demo_leg 1 private_plane LatchStrict 0 (demo_new demo_config).2 =
  (Some demo_session.1, demo_session.2).
Proof.
  assert (exists x, (NewWebRTCSession (fun _ _ => true) demo_leg 1 private_plane LatchStrict 0 (demo_new demo_config).2).1 = Some x)
    as [x H] by (vm_compute; eexists; reflexivity).
  unfold demo_session. destruct (NewWebRTCSession _ _ _ _ _ _ _) as [r w]. cbn in *. by subst.
Qed.

Lemma browser_call_returns_everything_witness :
  ws_state (closeWith CloseRequested (demo_ws_run demo_cert).2.1 (demo_ws_run demo_cert).2.2).1 = sessClosed.
Proof.
  destruct demo_planes_ok as (_ & HB & HW). pose proof demo_session_new as HS. destruct demo_session as [x w2] eqn:E. cbn [fst snd] in HS.
  refine (proj1 (proj2 (proj2 (browser_call_returns_everything toy_keys (toy_len 2) (toy_len 1) toy_open_key toy_open_key toy_seal_key toy_seal_key
    (fun _ _ => true) (fun _ _ => Some 3) (fun p => Some (len p)) 0 lab demo_config (Some (newICECredentials (repeat 7 21)))
    1 private_plane LatchStrict 0 demo_world demo_leg (demo_new demo_config).2 x w2
    (demo_ws_ops demo_cert) CloseRequested CloseSilence _ HB HW demo_leg_new HS)))).
  split; vm_compute; split; discriminate.
Defined.

Lemma failed_browser_call_leaks_nothing_witness : same_holdings demo_world (demo_new (mkLegConfig (ip4 203 0 113 9) false (str "frag") (str "password")
  (str "active") true (str "MD5") (str "00"))).2.
Proof.
  destruct demo_planes_ok as (_ & HB & HW).
  pose proof (failed_browser_call_leaks_nothing (Ctx := list Z) (fun _ _ => true) 0 lab (mkLegConfig (ip4 203 0 113 9) false (str "frag") (str "password")
    (str "active") true (str "MD5") (str "00")) (Some (newICECredentials (repeat 7 21)))
    1 private_plane LatchStrict 0 demo_world ltac:(split; vm_compute; split; discriminate) HB HW) as H.
  exact H.
Defined.
