(* ===== verification/Hide.v ===== *)
(** Topology hiding (internal/edge/hide.go).

    What is taken off, rewritten or put back on every message that crosses
    between the private switch and a public party: [hideToPublic] on a request
    that leaves, [hideResponse] on a response in any of its three modes,
    [maskIdentity] and [restoreIdentity] for the addresses that name the
    switch.  The regular expression the masked headers are searched with is
    the matcher [match_uri]; its choices are forced, so the first match is
    found without backtracking (see there). *)

From S2P Require Import Prelude Netip GoText GoEncoding SipAddr SipMsg SipRequest Arrival Topology Forward.

Open Scope Z_scope.

Inductive respHide := respPlain | respToSwitch | respToCarrier | respToClient.
Inductive hideKind := hideNone | hideCarrier | hideClient.

Definition identityHeaders : list gostring :=
  [str "P-Asserted-Identity"; str "P-Preferred-Identity"; str "Remote-Party-ID"; str "Diversion";
   str "History-Info"; str "Referred-By"; str "Refer-To"; str "Call-Info"; str "Alert-Info"; str "Error-Info"].

Definition clientHeaderAllowlist : list gostring :=
  [str "via"; str "from"; str "to"; str "call-id"; str "cseq"; str "contact"; str "record-route"; str "route"; str "max-forwards";
   str "content-length"; str "content-type"; str "content-disposition"; str "content-encoding"; str "content-language";
   str "mime-version"; str "expires"; str "min-expires"; str "allow"; str "supported"; str "require"; str "proxy-require"; str "unsupported";
   str "rseq"; str "rack"; str "www-authenticate"; str "proxy-authenticate"; str "authorization"; str "proxy-authorization";
   str "authentication-info"; str "event"; str "allow-events"; str "subscription-state"; str "refer-to"; str "referred-by";
   str "refer-sub"; str "replaces"; str "join"; str "target-dialog"; str "session-expires"; str "min-se"; str "retry-after"; str "reason";
   str "privacy"; str "accept"; str "accept-encoding"; str "accept-language"; str "accept-contact"; str "reject-contact";
   str "request-disposition"; str "date"; str "timestamp"; str "subject"; str "priority"; str "call-info"; str "alert-info";
   str "error-info"; str "diversion"; str "history-info"; str "p-asserted-identity"; str "p-preferred-identity";
   str "remote-party-id"; str "recv-info"; str "info-package"; str "reply-to"; str "in-reply-to"; str "identity"; str "identity-info";
   str "flow-timer";
   str "v"; str "f"; str "t"; str "i"; str "m"; str "l"; str "c"; str "e"; str "k"; str "s"; str "o"; str "u"; str "b"; str "r"; str "x"; str "a"; str "j"; str "y"; str "n"].

(** ** The URIs in a header's text *)

(** The regular expression
    [(sips?:(?:[^@\s>;,]*@)?)(\[[0-9a-fA-F:.]+\]|[^\s:>;,?\[\]]+)(:\d+)?].
    Its parts: a scheme; a userinfo, which is the whole run of its class and
    its @, or nothing; a host, which starts with a bracket exactly when it is
    the bracketed form; a port, or nothing.  So the only choice is whether the
    userinfo is taken, and it is whenever a host follows it. *)
Definition is_ws (c : Z) : bool := mem c [9; 10; 12; 13; 32].
Definition user_char (c : Z) : bool := negb (is_ws c || mem c (str "@>;,")).
Definition host_char (c : Z) : bool := negb (is_ws c || mem c (str ":>;,?[]")).
Definition hex_char (c : Z) : bool :=
  is_digit c || ((97 <=? c) && (c <=? 102)) || ((65 <=? c) && (c <=? 70)) || mem c (str ":.").

Fixpoint span (f : Z -> bool) (s : gostring) : gostring * gostring :=
  match s with
  | [] => ([], [])
  | c :: s' => if f c then let '(a, b) := span f s' in (c :: a, b) else ([], s)
  end.

Definition scheme_of (s : gostring) : option (gostring * gostring) :=
  match cut_prefix s (str "sips:") with
  | Some r => Some (str "sips:", r)
  | None => match cut_prefix s (str "sip:") with Some r => Some (str "sip:", r) | None => None end
  end.

Definition match_host (s : gostring) : option (gostring * gostring) :=
  match s with
  | [] => None
  | c :: r =>
      if c =? 91 then
        match span hex_char r with
        | ([], _) => None
        | (h, d :: r') => if d =? 93 then Some (91 :: h ++ [93], r') else None
        | (_, []) => None
        end
      else match span host_char s with
           | ([], _) => None
           | (h, r') => Some (h, r')
           end
  end.

Definition match_port (s : gostring) : gostring * gostring :=
  match s with
  | c :: r => if c =? 58 then match span is_digit r with
                              | ([], _) => ([], s)
                              | (ds, r') => (58 :: ds, r')
                              end
              else ([], s)
  | [] => ([], s)
  end.

(** The three groups and what follows, for a match at the start. *)
Record uri_match := mkMatch { um_lead : gostring; um_host : gostring; um_port : gostring }.

Definition match_uri (s : gostring) : option (uri_match * gostring) :=
  match scheme_of s with
  | None => None
  | Some (sch, r) =>
      let plain := match match_host r with
                   | Some (h, r') => let '(p, r'') := match_port r' in Some (mkMatch sch h p, r'')
                   | None => None
                   end in
      match span user_char r with
      | (u, c :: r1) =>
          if c =? 64 then
            match match_host r1 with
            | Some (h, r') => let '(p, r'') := match_port r' in Some (mkMatch (sch ++ u ++ [64]) h p, r'')
            | None => plain
            end
          else plain
      | (_, []) => plain
      end
  end.

Definition match_text (m : uri_match) : gostring := um_lead m ++ um_host m ++ um_port m.

(** The text cut into its matches, leftmost first, and the bytes between. *)
Inductive piece := Gap (c : Z) | Found (m : uri_match).

Fixpoint pieces (fuel : nat) (s : gostring) : list piece :=
  match fuel with
  | O => []
  | S fuel =>
      match s with
      | [] => []
      | c :: s' => match match_uri s with
                   | Some (m, r) => Found m :: pieces fuel r
                   | None => Gap c :: pieces fuel s'
                   end
      end
  end.

Definition uri_pieces (s : gostring) : list piece := pieces (length s) s.

Definition piece_text (p : piece) : gostring := match p with Gap c => [c] | Found m => match_text m end.

Section Hide.
Context `{SP : SipParams} `{SH : SipHeaders}.
(** The text of a header is sipgo's to render, as is the lower case of a
    network name; the lower case of a string that is not ASCII is the standard
    library's. *)
Context (Value : header -> gostring) (NetworkToLower : gostring -> gostring) (ToLower : gostring -> gostring).

(** ** Masking *)

Definition isSwitchHost (t : topology) (h : gostring) : bool :=
  match parseIPHost (trim_brackets h) with
  | None => false
  | Some ip =>
      let ip := unmap ip in
      if addr_eqb (sd_advIP (private t)) ip then true
      else existsb (fun kv : gostring * endpoint => addr_eqb (unmap (ap_addr (ep_addr kv.2))) ip) (map_to_list (upstreams t))
  end.

Definition maskURI (t : topology) (pub : Addr) (u : Uri) : Uri :=
  if isSwitchHost t (u_host u) then mkUri (u_user u) (hostOf t pub) 0 (u_params u) (u_wildcard u) else u.

Definition mask_piece (t : topology) (pub : Addr) (p : piece) : gostring :=
  match p with
  | Gap c => [c]
  | Found m =>
      if isSwitchHost t (um_host m)
      then um_lead m ++ (if is6 pub then str "[" ++ hostOf t pub ++ str "]" else hostOf t pub)
      else match_text m
  end.

(** [uriHostRe.ReplaceAllStringFunc], and whether a host was replaced. *)
Definition mask_text (t : topology) (pub : Addr) (v : gostring) : gostring :=
  concat (map (mask_piece t pub) (uri_pieces v)).

Definition text_masked (t : topology) (v : gostring) : bool :=
  existsb (fun p => match p with Found m => isSwitchHost t (um_host m) | Gap _ => false end) (uri_pieces v).

Fixpoint index_fold (name : gostring) (l : list gostring) (i : nat) : option nat :=
  match l with
  | [] => None
  | n :: l => if asciiEqualFold name n then Some i else index_fold name l (S i)
  end.

(** [None] is -1. *)
Definition identityHeaderIndex (name : gostring) : option nat := index_fold name identityHeaders 0.

Definition headersNamed (name : gostring) (hs : list header) : list header :=
  List.filter (fun h => asciiEqualFold (Name h) name) hs.

Definition hasHeader (name : gostring) (hs : list header) : bool :=
  existsb (fun h => asciiEqualFold (Name h) name) hs.

(** The identity headers of one name. *)
Definition mask_name (t : topology) (pub : Addr) (name : gostring) (hs : list header) : list header :=
  let found := headersNamed name hs in
  if existsb (fun h => text_masked t (Value h)) found then
    match found with
    | [] => hs
    | h :: _ =>
        let hn := Name h in
        fold_left (fun out v => AppendHeader (HOther hn v) out) (map (fun h => mask_text t pub (Value h)) found)
                  (RemoveHeaders hn hs)
    end
  else hs.

Definition update_uri (f : Uri -> Uri) (a : NameAddr) : NameAddr := mkNameAddr (f (na_uri a)) (na_params a).

Definition on_from (f : NameAddr -> NameAddr) : list header -> list header :=
  update_first (fun h => match h with HFrom a => Some (HFrom (f a)) | _ => None end).
Definition on_to (f : NameAddr -> NameAddr) : list header -> list header :=
  update_first (fun h => match h with HTo a => Some (HTo (f a)) | _ => None end).

(** The bits of [present]. *)
Definition present (hs : list header) (k : nat) : bool :=
  existsb (fun h => bool_decide (identityHeaderIndex (Name h) = Some k)) hs.

Definition maskIdentity (t : topology) (pub : Addr) (out : list header) : list header :=
  let out := on_to (update_uri (maskURI t pub)) (on_from (update_uri (maskURI t pub)) out) in
  let bits := present out in
  fold_left (fun hs kn => if bits kn.1 then mask_name t pub kn.2 hs else hs)
            (combine (seq 0 (length identityHeaders)) identityHeaders) out.

Definition restoreURI (t : topology) (real : Uri) (pub : Addr) (cur : Uri) : Uri :=
  if isSwitchHost t (u_host real) && beq (u_host cur) (hostOf t pub) && beq (u_user cur) (u_user real)
  then mkUri (u_user cur) (u_host real) (u_port real) (u_params cur) (u_wildcard cur) else cur.

(** The address behind a tag, where the record knows one. *)
Definition restore_at (t : topology) (pub : Addr) (uriOf : gostring -> option Uri) (tag : gostring) (u : Uri) : Uri :=
  if bool_decide (tag = []) then u
  else match uriOf tag with Some real => restoreURI t real pub u | None => u end.

Definition restoreIdentity (t : topology) (pub : Addr) (uriOf : gostring -> option Uri) (out : list header) : list header :=
  let out := on_from (update_uri (restore_at t pub uriOf (FromTag out))) out in
  on_to (update_uri (restore_at t pub uriOf (ToTag out))) out.

(** ** What a client may see *)

Definition is_ascii (s : gostring) : bool := forallb (fun c => c <? 128) s.

Definition allowedToClient (name : gostring) : bool :=
  let low := if 32 <? len name then ToLower name
             else if is_ascii name then to_lower name else ToLower name in
  existsb (beq low) clientHeaderAllowlist.

Definition filterToClient (hs : list header) : list header :=
  strip_names (map Name (List.filter (fun h => negb (allowedToClient (Name h))) hs)) hs.

(** ** Requests *)

Definition hideToPublic (t : topology) (to : side) (rr inDialog : bool) (kind : hideKind) (out : list header) : list header :=
  let out := match Via out with Some top => PrependHeader (HVia top) (RemoveHeaders (str "Via") out) | None => out end in
  let out := RemoveHeaders (str "Record-Route") out in
  let out := if rr then PrependHeader (recordRoute to) out else out in
  let out := if inDialog then out else RemoveHeaders (str "Route") out in
  let out := maskIdentity t (sd_advIP to) out in
  let out := if hasHeader (str "Contact") out then SetContact (side_uri to) out else out in
  let out := stripInternalHeaders out in
  match kind with hideClient => filterToClient out | _ => out end.

Definition prepareForwardFor (t : topology) (req : request) (from to : side) (dest : gostring) (rr : bool) (kind : hideKind)
    (branch : gostring) : option request :=
  out ← prepareForward Value t req from to dest rr branch;
  match kind with
  | hideNone => Some out
  | _ =>
      let hs := hideToPublic t to rr (negb (bool_decide (ToTag (rq_headers req) = []))) kind (rq_headers out) in
      Some (mkRequest (rq_method out) (rq_recipient out) (rq_version out) (rq_laddr out) (set_headers hs (rq_msg out)))
  end.

Definition prepareForwardHidden (t : topology) (req : request) (from to : side) (dest : gostring) (rr : bool) (branch : gostring)
    : option request := prepareForwardFor t req from to dest rr hideCarrier branch.

(** ** Responses *)

Definition sideMatches (s : side) (u : Uri) : bool :=
  match parseIPHost (u_host u) with
  | None => false
  | Some ip => side_is (unmap ip) (if u_port u =? 0 then 5060 else u_port u) s
  end.

Definition isPrivateURI (t : topology) (u : Uri) : bool := sideMatches (private t) u.
Definition isPublicURI (t : topology) (u : Uri) : bool := some_public (fun s => sideMatches s u) t.

Definition publicSideFor (t : topology) (req : request) : option side :=
  publicSide t (NetworkToLower (m_transport (rq_msg req))).

(** The Record-Routes kept, put back at the end. *)
Definition record_route_uris (hs : list header) : list Uri :=
  omap (fun h => match h with HRecordRoute u => Some u | _ => None end) (headersNamed (str "Record-Route") hs).

Definition keep_routes (keep : Uri -> bool) (hs : list header) : list header :=
  fold_left (fun out u => AppendHeader (HRecordRoute u) out) (List.filter keep (record_route_uris hs))
            (RemoveHeaders (str "Record-Route") hs).

Definition hideRecordRoutesToClient (t : topology) : list header -> list header :=
  keep_routes (fun u => negb (isPrivateURI t u) && (isPublicURI t u || negb (isSwitchHost t (u_host u)))).

Definition via_headers (hs : list header) : list header :=
  List.filter (fun h => match h with HVia _ => true | _ => false end) (headersNamed (str "Via") hs).

Definition hideResponse (t : topology) (orig : request) (mode : respHide) (res : list header) : list header :=
  match mode with
  | respPlain => res
  | respToSwitch =>
      let res := fold_right PrependHeader (RemoveHeaders (str "Via") res) (via_headers (rq_headers orig)) in
      let res := match From (rq_headers orig) with Some f => on_from (update_uri (fun _ => na_uri f)) res | None => res end in
      match To (rq_headers orig) with Some a => on_to (update_uri (fun _ => na_uri a)) res | None => res end
  | respToCarrier =>
      let res := keep_routes (fun u => negb (isPrivateURI t u)) res in
      if hasHeader (str "Contact") res
      then match publicSideFor t orig with
           | Some pub => SetContact (side_uri pub) res
           | None => RemoveHeaders (str "Contact") res
           end
      else res
  | respToClient =>
      let res := hideRecordRoutesToClient t res in
      let res := match publicSideFor t orig with
                 | Some pub =>
                     let res := maskIdentity t (sd_advIP pub) res in
                     if negb (beq (rq_method orig) (str "REGISTER")) && hasHeader (str "Contact") res
                     then SetContact (side_uri pub) res else res
                 | None => res
                 end in
      filterToClient res
  end.

(** The last public entry, one past. *)
Fixpoint after_public (t : topology) (all : list Uri) (i : nat) : option nat :=
  match all with
  | [] => None
  | u :: all => match after_public t all (S i) with
                | Some j => Some j
                | None => if isPublicURI t u then Some (S i) else None
                end
  end.

Definition addPrivateRecordRoute (t : topology) (res : list header) : list header :=
  let all := record_route_uris res in
  let at_ := default (length all) (after_public t all 0) in
  let priv := recordRoute (private t) in
  fold_left (fun out h => AppendHeader h out)
            (map HRecordRoute (take at_ all) ++ [priv] ++ map HRecordRoute (drop at_ all))
            (RemoveHeaders (str "Record-Route") res).

(** relayResponseHide, up to what the caller adapts ([None] is
    errResponseDropped); the result's destination is the request's source. *)
Definition relayResponseHide (t : topology) (orig : request) (res : response) (mode : respHide) : option response :=
  hs ← popOwnVia t (match mode with respToSwitch => true | _ => false end) (rs_headers res);
  let hs := stripInternalHeaders (sanitizeExtensions Value hs) in
  let hs := hideResponse t orig mode hs in
  Some (mkResponse (rs_status res) (SetDestination (m_source (rq_msg orig)) (set_headers hs (rs_msg res)))).

(** [carrier] is the dialog's carrier, or the one the fallback names. *)
Definition hideLeg (carrier : gostring) (from to : side) : hideKind * respHide :=
  let named := negb (bool_decide (carrier = [])) in
  match sd_plane to, sd_plane from with
  | planePublic, _ => if named then (hideCarrier, respToSwitch) else (hideClient, respToSwitch)
  | _, planePublic => if named then (hideNone, respToCarrier) else (hideNone, respToClient)
  | _, _ => (hideNone, respPlain)
  end.
End Hide.

(** ** What the rewriting does *)

(** *** The pieces of a text *)

Lemma span_app f s : forall a b, span f s = (a, b) -> s = a ++ b.
Proof.
  induction s as [|c s IH]; intros a b; [by intros [= <- <-]|]. cbn [span]. destruct (f c); [|by intros [= <- <-]].
  destruct (span f s) as [x y]. intros [= <- <-]. cbn. by rewrite (IH x y).
Qed.

Lemma match_host_app s h r : match_host s = Some (h, r) -> s = h ++ r.
Proof.
  unfold match_host. destruct s as [|c s]; [done|]. destruct (c =? 91) eqn:E.
  - apply Z.eqb_eq in E as ->. destruct (span hex_char s) as [x y] eqn:Es. apply span_app in Es as ->.
    destruct x as [|x0 x]; [done|]. destruct y as [|d y]; [done|]. destruct (d =? 93) eqn:Ed; [|done].
    apply Z.eqb_eq in Ed as ->. intros [= <- <-]. cbn. by rewrite <- app_assoc.
  - destruct (span host_char (c :: s)) as [x y] eqn:Es. apply span_app in Es as ->. destruct x; [done|]. by intros [= <- <-].
Qed.

Lemma match_port_app s p r : match_port s = (p, r) -> s = p ++ r.
Proof.
  unfold match_port. destruct s as [|c s]; [by intros [= <- <-]|]. destruct (c =? 58) eqn:E; [|by intros [= <- <-]].
  apply Z.eqb_eq in E as ->. destruct (span is_digit s) as [x y] eqn:Es. apply span_app in Es as ->.
  destruct x; by intros [= <- <-].
Qed.

Lemma scheme_of_app s sch r : scheme_of s = Some (sch, r) -> s = sch ++ r /\ sch <> [].
Proof.
  unfold scheme_of, cut_prefix. destruct (has_prefix s (str "sips:")) eqn:E.
  - apply has_prefix_spec in E as (x & ->). rewrite drop_app_length. intros [= <- <-]. done.
  - destruct (has_prefix s (str "sip:")) eqn:E'; [|done].
    apply has_prefix_spec in E' as (x & ->). rewrite drop_app_length. intros [= <- <-]. done.
Qed.

Lemma match_uri_app s m r : match_uri s = Some (m, r) -> s = match_text m ++ r /\ (length r < length s)%nat.
Proof.
  intros H. assert (K : s = match_text m ++ r /\ um_lead m <> []).
  { unfold match_uri in H. destruct (scheme_of s) as [[sch x]|] eqn:Es; [|done]. apply scheme_of_app in Es as [-> Hne].
    assert (Hplain : match match_host x with
                     | Some (h, r') => let '(p, r'') := match_port r' in Some (mkMatch sch h p, r'')
                     | None => None end = Some (m, r) -> sch ++ x = match_text m ++ r /\ um_lead m <> []).
    { destruct (match_host x) as [[h y]|] eqn:Eh; [|done]. apply match_host_app in Eh as ->.
      destruct (match_port y) as [p z] eqn:Ep. apply match_port_app in Ep as ->. intros [= <- <-].
      unfold match_text. cbn. by rewrite <- !app_assoc. }
    cbv zeta in H. destruct (span user_char x) as [u [|c y]] eqn:Eu; [by apply Hplain|].
    destruct (c =? 64) eqn:Ec; [|by apply Hplain]. destruct (match_host y) as [[h y']|] eqn:Eh; [|by apply Hplain].
    apply Z.eqb_eq in Ec as ->. apply span_app in Eu as ->. apply match_host_app in Eh as ->.
    destruct (match_port y') as [p z] eqn:Ep. apply match_port_app in Ep as ->. injection H as <- <-.
    unfold match_text. cbn [um_lead um_host um_port]. split; [by rewrite <- !app_assoc|]. by destruct sch. }
  destruct K as [-> Hne]. split; [done|]. unfold match_text. rewrite !length_app. destruct (um_lead m); [done|]. cbn. lia.
Qed.

Lemma pieces_text fuel : forall s, (length s <= fuel)%nat -> concat (map piece_text (pieces fuel s)) = s.
Proof.
  induction fuel as [|fuel IH]; intros s Hf; [by destruct s; cbn in *; [|lia]|]. cbn [pieces].
  destruct s as [|c s]; [done|]. destruct (match_uri (c :: s)) as [[m r]|] eqn:E.
  - apply match_uri_app in E as [E L]. cbn [map concat piece_text]. rewrite IH by (cbn in *; lia). by rewrite E.
  - cbn [map concat piece_text]. rewrite IH by (cbn in Hf; lia). done.
Qed.

(** The pieces are the text, cut. *)
Lemma uri_pieces_text s : concat (map piece_text (uri_pieces s)) = s.
Proof. by apply pieces_text. Qed.

Section HideProofs.
Context `{SP : SipParams} `{SH : SipHeaders} `{SHL : !SipHeadersLaws}.
Context (Value : header -> gostring) (NetworkToLower : gostring -> gostring) (ToLower : gostring -> gostring).
Context (generic_value : forall n v, Value (HOther n v) = v).

Lemma mask_text_same t pub v : text_masked t v = false -> mask_text t pub v = v.
Proof.
  unfold text_masked, mask_text. rewrite <- (uri_pieces_text v) at 3. generalize (uri_pieces v). intros ps H.
  f_equal. induction ps as [|p ps IH]; [done|]. cbn [existsb] in H. apply orb_false_iff in H as [Hp H].
  cbn [map]. rewrite IH by done. f_equal. destruct p as [c|m]; [done|]. cbn. by rewrite Hp.
Qed.

(** *** Which headers each step leaves alone *)

Lemma equal_fold_neq_l a b c : equal_fold a b = true -> equal_fold c a = equal_fold c b.
Proof. unfold equal_fold. intros E%beq_eq. by rewrite E. Qed.

Lemma get_filter (n : gostring) (f : header -> bool) hs : (forall h, named n h = true -> f h = true) ->
  GetHeaders n (List.filter f hs) = GetHeaders n hs.
Proof.
  intros Hf. unfold GetHeaders. induction hs as [|h hs IH]; [done|]. cbn [List.filter]. destruct (named n h) eqn:E.
  - rewrite (Hf h E). cbn [List.filter]. by rewrite E, IH.
  - destruct (f h); [cbn [List.filter]; by rewrite E|done].
Qed.

Lemma get_remove n m hs : equal_fold n m = false -> GetHeaders n (RemoveHeaders m hs) = GetHeaders n hs.
Proof.
  intros H. rewrite RemoveHeaders_filter. apply get_filter. intros h Hn. apply negb_true_iff, not_true_iff_false.
  unfold exactly. intros E%beq_eq. unfold named in Hn. rewrite E, equal_fold_sym in Hn. congruence.
Qed.

Lemma get_prepend n h hs : GetHeaders n (PrependHeader h hs) = (if named n h then [h] else []) ++ GetHeaders n hs.
Proof. rewrite prepend_first. unfold GetHeaders. cbn [List.filter]. by case_if. Qed.

Lemma get_append n h hs : GetHeaders n (AppendHeader h hs) = GetHeaders n hs ++ (if named n h then [h] else []).
Proof. rewrite append_last, GetHeaders_app. unfold GetHeaders at 2. cbn [List.filter]. by case_if. Qed.

Lemma canonical_get n hs : canonical n hs <-> Forall (fun h => exactly n h = true) (GetHeaders n hs).
Proof.
  unfold canonical, GetHeaders. induction hs as [|h hs IH]; [done|]. cbn [forallb List.filter].
  rewrite andb_true_iff, IH. destruct (named n h); cbn [implb].
  - rewrite Forall_cons. done.
  - split; [by intros [_ H]|done].
Qed.

Lemma get_removed n hs : canonical n hs -> GetHeaders n (RemoveHeaders n hs) = [].
Proof.
  intros H. rewrite RemoveHeaders_filter. unfold canonical in H. unfold GetHeaders. induction hs as [|h hs IH]; [done|].
  cbn [forallb] in H. apply andb_true_iff in H as [Hh H]. cbn [List.filter].
  destruct (exactly n h) eqn:E; cbn [negb]; [by apply IH|]. cbn [List.filter]. destruct (named n h); [done|by apply IH].
Qed.

Lemma get_update n (f : header -> option header) hs :
  (forall h h', f h = Some h' -> Name h' = Name h /\ named n h = false) -> GetHeaders n (update_first f hs) = GetHeaders n hs.
Proof.
  intros Hf. induction hs as [|h hs IH]; [done|]. cbn [update_first]. destruct (f h) as [h'|] eqn:E.
  - destruct (Hf h h' E) as [E1 E2]. unfold GetHeaders, named in *. cbn [List.filter]. by rewrite E1, E2.
  - unfold GetHeaders in *. cbn [List.filter]. by rewrite IH.
Qed.

Lemma get_on_from n f hs : equal_fold n (str "From") = false -> GetHeaders n (on_from f hs) = GetHeaders n hs.
Proof. intros H. apply get_update. intros [] h'; try done. intros [= <-]. unfold named. cbn [Name]. by rewrite equal_fold_sym. Qed.

Lemma get_on_to n f hs : equal_fold n (str "To") = false -> GetHeaders n (on_to f hs) = GetHeaders n hs.
Proof. intros H. apply get_update. intros [] h'; try done. intros [= <-]. unfold named. cbn [Name]. by rewrite equal_fold_sym. Qed.

Lemma From_on_from f hs : From (on_from f hs) = f <$> From hs.
Proof. unfold From, on_from. induction hs as [|h hs IH]; [done|]. destruct h; try exact IH. done. Qed.

Lemma To_on_to f hs : To (on_to f hs) = f <$> To hs.
Proof. unfold To, on_to. induction hs as [|h hs IH]; [done|]. destruct h; try exact IH. done. Qed.

Lemma From_on_to f hs : From (on_to f hs) = From hs.
Proof. unfold From, on_to. induction hs as [|h hs IH]; [done|]. destruct h; try exact IH; done. Qed.

Lemma To_on_from f hs : To (on_from f hs) = To hs.
Proof. unfold To, on_from. induction hs as [|h hs IH]; [done|]. destruct h; try exact IH; done. Qed.

Lemma From_get hs : From hs = From (GetHeaders (str "From") hs).
Proof. unfold From, GetHeaders. symmetry. apply first_of_filter. by intros []. Qed.

Lemma To_get hs : To hs = To (GetHeaders (str "To") hs).
Proof. unfold To, GetHeaders. symmetry. apply first_of_filter. by intros []. Qed.

Lemma Via_get hs : Via hs = Via (GetHeaders (str "Via") hs).
Proof. unfold Via, GetHeaders. symmetry. apply first_of_filter. by intros []. Qed.

Lemma get_internal n hs : isInternalHeader n = false -> GetHeaders n (stripInternalHeaders hs) = GetHeaders n hs.
Proof.
  intros H. rewrite stripInternalHeaders_filter. apply get_filter. intros h Hn. rewrite (isInternalHeader_fold _ _ Hn). by rewrite H.
Qed.

Lemma headersNamed_get n hs : headersNamed n hs = GetHeaders n hs.
Proof. unfold headersNamed, GetHeaders, named. apply List.filter_ext. intros h. apply asciiEqualFold_fold. Qed.

Lemma hasHeader_get n hs : hasHeader n hs = false -> GetHeaders n hs = [].
Proof.
  unfold hasHeader, GetHeaders, named. induction hs as [|h hs IH]; [done|]. cbn [existsb List.filter].
  rewrite asciiEqualFold_fold. intros [-> H]%orb_false_iff. by apply IH.
Qed.

(** *** The client's allowlist *)

Lemma lower_byte_ascii x : lower_byte x <? 128 = true -> x <? 128 = true.
Proof. unfold lower_byte. case_if; lia. Qed.

Lemma lower_ascii s : is_ascii (to_lower s) = true -> is_ascii s = true.
Proof.
  unfold is_ascii, to_lower. rewrite !forallb_forall. intros H x Hx. apply lower_byte_ascii, H. by apply in_map.
Qed.

(** A short ASCII name is looked up in lower case. *)
Lemma allowed_low n c : equal_fold n c = true -> is_ascii (to_lower c) = true -> len c <= 32 ->
  allowedToClient ToLower n = existsb (beq (to_lower c)) clientHeaderAllowlist.
Proof.
  intros E A L. apply beq_eq in E. unfold allowedToClient.
  assert (len n = len c) as -> by (unfold len; rewrite <- (to_lower_length n), E, to_lower_length; done).
  replace (32 <? len c) with false by lia. rewrite (lower_ascii n) by (rewrite E; done). by rewrite E.
Qed.

Lemma filterToClient_filter hs : filterToClient ToLower hs = List.filter (fun h => allowedToClient ToLower (Name h)) hs.
Proof.
  unfold filterToClient. rewrite (strip_names_filter (fun n => negb (allowedToClient ToLower n)) _ hs eq_refl).
  apply List.filter_ext. intros h. apply negb_involutive.
Qed.

Lemma get_client n hs : existsb (beq (to_lower n)) clientHeaderAllowlist = true -> is_ascii (to_lower n) = true -> len n <= 32 ->
  GetHeaders n (filterToClient ToLower hs) = GetHeaders n hs.
Proof.
  intros H A L. rewrite filterToClient_filter. apply get_filter. intros h Hh. by rewrite (allowed_low _ n Hh A L).
Qed.

(** *** The identity headers *)

Lemma fold_append_get n hn vs : forall hs,
  GetHeaders n (fold_left (fun out v => AppendHeader (HOther hn v) out) vs hs) =
  GetHeaders n hs ++ (if equal_fold hn n then map (HOther hn) vs else []).
Proof.
  induction vs as [|v vs IH]; intros hs; cbn [fold_left map]; [by destruct (equal_fold hn n); rewrite app_nil_r|].
  rewrite IH, get_append. unfold named. cbn [Name]. rewrite <- app_assoc. by destruct (equal_fold hn n).
Qed.

Lemma mask_name_other t pub name n hs : equal_fold n name = false ->
  GetHeaders n (mask_name Value t pub name hs) = GetHeaders n hs.
Proof.
  intros H. unfold mask_name. rewrite headersNamed_get. case_if; [|done].
  destruct (GetHeaders name hs) as [|h l] eqn:E; [done|].
  assert (Hh : equal_fold (Name h) name = true).
  { assert (K : h ∈ GetHeaders name hs) by (rewrite E; by left). apply list_elem_of_In, filter_In in K. apply K. }
  assert (Hn : equal_fold n (Name h) = false) by (by rewrite (equal_fold_neq_l _ _ n Hh)).
  rewrite fold_append_get, get_remove by done. rewrite equal_fold_sym, Hn. by rewrite app_nil_r.
Qed.

(** The headers of a name are all spelled the same way. *)
Definition uniform (name : gostring) (hs : list header) : Prop :=
  forall h h', h ∈ GetHeaders name hs -> h' ∈ GetHeaders name hs -> Name h = Name h'.

Lemma uniform_removed name h l hs : uniform name hs -> GetHeaders name hs = h :: l ->
  GetHeaders name (RemoveHeaders (Name h) hs) = [].
Proof.
  intros U E. rewrite RemoveHeaders_filter. unfold GetHeaders in *.
  assert (Hall : forall g, g ∈ List.filter (named name) hs -> Name g = Name h).
  { intros g Hg. apply U; [done|]. unfold GetHeaders. rewrite E. by left. }
  clear E U. induction hs as [|g hs IH]; [done|]. cbn [List.filter] in *.
  destruct (named name g) eqn:Eg.
  - unfold exactly at 1. rewrite (Hall g) by by left. rewrite beq_refl. cbn [negb]. apply IH. intros x Hx. apply Hall. by right.
  - destruct (negb (exactly (Name h) g)); [cbn [List.filter]; rewrite Eg|]; by apply IH.
Qed.

Lemma mask_name_self t pub name hs : uniform name hs ->
  map Value (GetHeaders name (mask_name Value t pub name hs)) = map (mask_text t pub) (map Value (GetHeaders name hs)).
Proof.
  intros U. unfold mask_name. rewrite headersNamed_get. case_if.
  - destruct (GetHeaders name hs) as [|h l] eqn:E; [done|].
    rewrite fold_append_get, (uniform_removed _ _ _ _ U E).
    assert (Hh : equal_fold (Name h) name = true).
    { assert (K : h ∈ GetHeaders name hs) by (rewrite E; by left). apply list_elem_of_In, filter_In in K. apply K. }
    rewrite Hh. cbn [app]. rewrite !map_map. apply map_ext. intros g. by rewrite generic_value.
  - rewrite map_map. apply map_ext_in. intros g Hg. symmetry. apply mask_text_same.
    destruct (text_masked t (Value g)) eqn:Eg; [|done]. exfalso. rewrite <- not_true_iff_false in Heqb. apply Heqb.
    apply existsb_exists. by exists g.
Qed.

Lemma index_fold_low name l : forall i, index_fold name l i =
  (fix go l i := match l with [] => None | n :: l => if beq (to_lower name) (to_lower n) then Some i else go l (S i) end) l i.
Proof. induction l as [|n l IH]; intros i; [done|]. cbn [index_fold]. rewrite asciiEqualFold_fold. unfold equal_fold. by rewrite IH. Qed.

Lemma identity_index k name n : identityHeaders !! k = Some name -> equal_fold n name = true -> identityHeaderIndex n = Some k.
Proof.
  intros Hk E. apply beq_eq in E. unfold identityHeaderIndex. rewrite index_fold_low, E.
  do 10 (destruct k as [|k]; [injection Hk as <-; vm_compute; reflexivity|]). done.
Qed.

Lemma present_none k name hs : identityHeaders !! k = Some name -> present hs k = false -> GetHeaders name hs = [].
Proof.
  intros Hk H. unfold present in H. apply hasHeader_get. unfold hasHeader. apply not_true_iff_false. intros K.
  apply existsb_exists in K as (h & Hh & E). rewrite asciiEqualFold_fold in E. rewrite <- not_true_iff_false in H. apply H.
  apply existsb_exists. exists h. split; [done|]. by rewrite (identity_index k name), bool_decide_eq_true_2.
Qed.

Definition mask_step (t : topology) (pub : Addr) (bits : nat -> bool) (hs : list header) (kn : nat * gostring) : list header :=
  if bits kn.1 then mask_name Value t pub kn.2 hs else hs.

Lemma mask_fold_other t pub bits n L : forallb (fun kn : nat * gostring => negb (equal_fold n kn.2)) L = true -> forall hs,
  GetHeaders n (fold_left (mask_step t pub bits) L hs) = GetHeaders n hs.
Proof.
  induction L as [|[k m] L IH]; [done|]. cbn [forallb]. intros [Hm HL]%andb_true_iff hs. cbn [fold_left]. rewrite IH by done.
  unfold mask_step. cbn [fst snd] in *. destruct (bits k); [|done]. apply mask_name_other. by apply negb_true_iff.
Qed.

Lemma mask_fold_self t pub bits k name L1 L2 hs :
  forallb (fun kn : nat * gostring => negb (equal_fold name kn.2)) (L1 ++ L2) = true -> uniform name hs ->
  (bits k = false -> GetHeaders name hs = []) ->
  map Value (GetHeaders name (fold_left (mask_step t pub bits) (L1 ++ (k, name) :: L2) hs)) =
  map (mask_text t pub) (map Value (GetHeaders name hs)).
Proof.
  rewrite forallb_app, andb_true_iff. intros [H1 H2] U Hb. rewrite fold_left_app. cbn [fold_left].
  rewrite mask_fold_other by done. pose proof (mask_fold_other t pub bits name L1 H1 hs) as E.
  set (hs1 := fold_left _ L1 hs) in *. clearbody hs1. unfold mask_step. cbn [fst snd]. destruct (bits k).
  - rewrite mask_name_self; [by rewrite E|]. unfold uniform. by rewrite E.
  - rewrite E, (Hb eq_refl). done.
Qed.

Lemma maskIdentity_steps t pub hs :
  let hs1 := on_to (update_uri (maskURI t pub)) (on_from (update_uri (maskURI t pub)) hs) in
  maskIdentity Value t pub hs = fold_left (mask_step t pub (present hs1)) (combine (seq 0 10) identityHeaders) hs1.
Proof. reflexivity. Qed.

(** Each identity header's text is masked; From and To are; nothing else is
    touched. *)
Lemma maskIdentity_spec t pub hs :
  (forall name, name ∈ identityHeaders -> uniform name hs ->
     map Value (GetHeaders name (maskIdentity Value t pub hs)) = map (mask_text t pub) (map Value (GetHeaders name hs))) /\
  From (maskIdentity Value t pub hs) = update_uri (maskURI t pub) <$> From hs /\
  To (maskIdentity Value t pub hs) = update_uri (maskURI t pub) <$> To hs /\
  (forall n, forallb (fun m => negb (equal_fold n m)) (str "From" :: str "To" :: identityHeaders) = true ->
     GetHeaders n (maskIdentity Value t pub hs) = GetHeaders n hs).
Proof.
  rewrite maskIdentity_steps. cbv zeta. set (hs1 := on_to _ _).
  assert (G : forall n, equal_fold n (str "From") = false -> equal_fold n (str "To") = false -> GetHeaders n hs1 = GetHeaders n hs).
  { intros n A B. unfold hs1. by rewrite get_on_to, get_on_from. }
  split; [|split; [|split]].
  - intros name Hin U. apply list_elem_of_lookup in Hin as [k Hk].
    assert (Hf : equal_fold name (str "From") = false /\ equal_fold name (str "To") = false).
    { do 10 (destruct k as [|k]; [injection Hk as <-; split; vm_compute; reflexivity|]). done. }
    destruct Hf as [Hf Ht]. rewrite <- (G name Hf Ht).
    assert (Hsplit : exists L1 L2, combine (seq 0 10) identityHeaders = L1 ++ (k, name) :: L2 /\
      forallb (fun kn : nat * gostring => negb (equal_fold name kn.2)) (L1 ++ L2) = true).
    { exists (take k (combine (seq 0 10) identityHeaders)), (drop (S k) (combine (seq 0 10) identityHeaders)).
      do 10 (destruct k as [|k]; [injection Hk as <-; split; vm_compute; reflexivity|]). done. }
    destruct Hsplit as (L1 & L2 & -> & HL). apply mask_fold_self; [done| |].
    + unfold uniform. by rewrite G.
    + by apply present_none.
  - rewrite From_get, mask_fold_other, <- From_get by (vm_compute; reflexivity). unfold hs1. by rewrite From_on_to, From_on_from.
  - rewrite To_get, mask_fold_other, <- To_get by (vm_compute; reflexivity). unfold hs1. by rewrite To_on_to, To_on_from.
  - intros n Hn. cbn [forallb] in Hn. rewrite !andb_true_iff in Hn. destruct Hn as (A & B & C).
    apply negb_true_iff in A, B. rewrite mask_fold_other; [by apply G|]. rewrite forallb_forall in *.
    intros [k m] Hin. apply C. by apply in_combine_r in Hin.
Qed.

Lemma maskURI_hides t pub u : isSwitchHost t (hostOf t pub) = false -> isSwitchHost t (u_host (maskURI t pub u)) = false.
Proof. intros H. unfold maskURI. destruct (isSwitchHost t (u_host u)) eqn:E; [exact H|exact E]. Qed.

(** the identity rule rewrites addresses, not headers: the text of a
    masked header is the original, URI for URI and byte for byte in between,
    but that a URI whose host names the switch gets the public address and
    loses its port; what stands for the host in the new text names the switch
    nowhere. *)
Theorem masking_rewrites_hosts_only t pub v : isSwitchHost t (hostOf t pub) = false ->
  isSwitchHost t (str "[" ++ hostOf t pub ++ str "]") = false ->
  v = concat (map piece_text (uri_pieces v)) /\
  exists ps, mask_text t pub v = concat (map piece_text ps) /\
    Forall2 (fun p p' => match p, p' with
                         | Gap c, Gap c' => c = c'
                         | Found m, Found m' =>
                             um_lead m' = um_lead m /\ isSwitchHost t (um_host m') = false /\
                             if isSwitchHost t (um_host m)
                             then um_port m' = [] /\ um_host m' = if is6 pub then str "[" ++ hostOf t pub ++ str "]" else hostOf t pub
                             else m' = m
                         | _, _ => False
                         end) (uri_pieces v) ps.
Proof.
  intros H H'. split; [by rewrite uri_pieces_text|].
  exists (map (fun p => match p with
               | Gap c => Gap c
               | Found m => if isSwitchHost t (um_host m)
                            then Found (mkMatch (um_lead m) (if is6 pub then str "[" ++ hostOf t pub ++ str "]" else hostOf t pub) [])
                            else Found m
               end) (uri_pieces v)).
  split.
  - unfold mask_text. f_equal. rewrite map_map. apply map_ext. intros [c|m]; [done|]. cbn [mask_piece].
    destruct (isSwitchHost t (um_host m)); [|done]. cbn [piece_text]. unfold match_text. cbn [um_lead um_host um_port]. by rewrite app_nil_r.
  - generalize (uri_pieces v). intros ps. induction ps as [|[c|m] ps IH]; cbn [map]; constructor; try exact IH; [done|].
    destruct (isSwitchHost t (um_host m)) eqn:E; cbn [um_lead um_host um_port]; [|done].
    split; [done|]. split; [by destruct (is6 pub)|done].
Qed.

(** *** A request that leaves *)

(** The core headers, as sipgo's parser spells them. *)
Definition core_names : list gostring := [str "Via"; str "Record-Route"; str "Route"; str "Contact"].

Definition tidy (hs : list header) : Prop := Forall (fun n => canonical n hs) core_names.

Definition other_name (n : gostring) : bool :=
  forallb (fun m => negb (equal_fold n m)) (str "From" :: str "To" :: identityHeaders).

Lemma canonical_mono n hs hs' : GetHeaders n hs' = GetHeaders n hs -> canonical n hs -> canonical n hs'.
Proof. intros E. rewrite !canonical_get. by rewrite E. Qed.

Lemma get_mask n t pub hs : other_name n = true -> GetHeaders n (maskIdentity Value t pub hs) = GetHeaders n hs.
Proof. intros H. by apply maskIdentity_spec. Qed.

(** What the first steps, up to the masking, make of a request. *)
Definition cleared (to : side) (rr inDialog : bool) (out : list header) : list header :=
  let out := match Via out with Some top => PrependHeader (HVia top) (RemoveHeaders (str "Via") out) | None => out end in
  let out := RemoveHeaders (str "Record-Route") out in
  let out := if rr then PrependHeader (recordRoute to) out else out in
  if inDialog then out else RemoveHeaders (str "Route") out.

Lemma cleared_get to rr inDialog n out : equal_fold n (str "Via") = false -> equal_fold n (str "Record-Route") = false ->
  equal_fold n (str "Route") = false -> GetHeaders n (cleared to rr inDialog out) = GetHeaders n out.
Proof.
  intros A B C. unfold cleared. cbv zeta.
  assert (E : forall hs, GetHeaders n (if inDialog then hs else RemoveHeaders (str "Route") hs) = GetHeaders n hs)
    by (intros hs; destruct inDialog; [done|by apply get_remove]).
  rewrite E. clear E.
  assert (E : forall hs, GetHeaders n (if rr then PrependHeader (recordRoute to) hs else hs) = GetHeaders n hs).
  { intros hs. destruct rr; [|done]. rewrite get_prepend. unfold named, recordRoute. cbn [Name]. by rewrite equal_fold_sym, B. }
  rewrite E, get_remove by done. destruct (Via out); [|done]. rewrite get_prepend, get_remove by done.
  unfold named. cbn [Name]. by rewrite equal_fold_sym, A.
Qed.

Lemma cleared_via to rr inDialog out top : canonical (str "Via") out -> Via out = Some top ->
  GetHeaders (str "Via") (cleared to rr inDialog out) = [HVia top].
Proof.
  intros C V. unfold cleared. rewrite V. cbv zeta.
  assert (E : forall hs, GetHeaders (str "Via") (if inDialog then hs else RemoveHeaders (str "Route") hs) = GetHeaders (str "Via") hs)
    by (intros hs; destruct inDialog; [done|by apply get_remove]).
  rewrite E. clear E.
  assert (E : forall hs, GetHeaders (str "Via") (if rr then PrependHeader (recordRoute to) hs else hs) = GetHeaders (str "Via") hs).
  { intros hs. destruct rr; [|done]. by rewrite get_prepend. }
  rewrite E, get_remove by done. by rewrite get_prepend, get_removed.
Qed.

Lemma cleared_routes to rr inDialog out : canonical (str "Record-Route") out -> canonical (str "Route") out ->
  GetHeaders (str "Record-Route") (cleared to rr inDialog out) = (if rr then [recordRoute to] else []) /\
  GetHeaders (str "Route") (cleared to rr inDialog out) = if inDialog then GetHeaders (str "Route") out else [].
Proof.
  intros Crr Cr. unfold cleared. cbv zeta.
  set (hs1 := match Via out with Some _ => _ | None => _ end).
  assert (G : forall n, equal_fold n (str "Via") = false -> GetHeaders n hs1 = GetHeaders n out).
  { intros n A. unfold hs1. destruct (Via out); [|done]. rewrite get_prepend, get_remove by done.
    unfold named. cbn [Name]. by rewrite equal_fold_sym, A. }
  assert (C1 : canonical (str "Record-Route") hs1) by (eapply canonical_mono; [apply G; reflexivity|done]).
  assert (C2 : canonical (str "Route") hs1) by (eapply canonical_mono; [apply G; reflexivity|done]).
  assert (G2 : GetHeaders (str "Route") hs1 = GetHeaders (str "Route") out) by (apply G; reflexivity).
  clearbody hs1. clear G.
  set (hs2 := if rr then _ else _).
  assert (R2 : GetHeaders (str "Record-Route") hs2 = if rr then [recordRoute to] else []).
  { unfold hs2. destruct rr; [rewrite get_prepend|]; rewrite get_removed by done; [|done]. reflexivity. }
  assert (R3 : GetHeaders (str "Route") hs2 = GetHeaders (str "Route") out).
  { unfold hs2. destruct rr; [rewrite get_prepend|]; rewrite get_remove by done; exact G2. }
  clearbody hs2. split.
  - destruct inDialog; [done|]. by rewrite get_remove.
  - destruct inDialog; [done|]. apply get_removed. eapply canonical_mono; [exact R3|]. by eapply canonical_mono; [symmetry; exact G2|].
Qed.

(** The steps after the masking. *)
Definition finished (to : side) (kind : hideKind) (out : list header) : list header :=
  let out := if hasHeader (str "Contact") out then SetContact (side_uri to) out else out in
  let out := stripInternalHeaders out in
  match kind with hideClient => filterToClient ToLower out | _ => out end.

(** A name a client may see, of the short ASCII ones. *)
Definition client_name (n : gostring) : bool :=
  existsb (beq (to_lower n)) clientHeaderAllowlist && is_ascii (to_lower n) && (len n <=? 32) && negb (isInternalHeader n).

Lemma finished_tail n kind hs : client_name n = true ->
  GetHeaders n (match kind with hideClient => filterToClient ToLower (stripInternalHeaders hs) | _ => stripInternalHeaders hs end) = GetHeaders n hs.
Proof.
  unfold client_name. rewrite !andb_true_iff. intros [[[A B] C] D]. apply negb_true_iff in D.
  destruct kind; try (by apply get_internal). rewrite get_client by (done || lia). by apply get_internal.
Qed.

Lemma finished_get to kind n out : client_name n = true -> equal_fold n (str "Contact") = false -> canonical (str "Contact") out ->
  GetHeaders n (finished to kind out) = GetHeaders n out.
Proof.
  intros H N C. unfold finished. cbv zeta. rewrite finished_tail by done. case_if; [|done]. by apply SetContact_hides.
Qed.

Lemma finished_contact to kind out : canonical (str "Contact") out ->
  GetHeaders (str "Contact") (finished to kind out) =
  if hasHeader (str "Contact") out then [HContact (mkNameAddr (side_uri to) None)] else [].
Proof.
  intros C. unfold finished. cbv zeta. rewrite finished_tail by reflexivity. case_if; [by apply SetContact_hides|by apply hasHeader_get].
Qed.

Lemma hideToPublic_steps t to rr inDialog kind out :
  hideToPublic Value ToLower t to rr inDialog kind out = finished to kind (maskIdentity Value t (sd_advIP to) (cleared to rr inDialog out)).
Proof. unfold hideToPublic, finished, cleared. cbv beta zeta. reflexivity. Qed.

(** C1: What a request to a public party carries.  Of a prepared request whose
    top Via is the proxy's, whose Via, Record-Route, Route and Contact headers
    are spelled as the parser spells them ([tidy]), sent from a side whose public
    address is none of the switch's: what leaves has that Via alone; no
    Record-Route but the proxy's public one, and that only when it opens a
    dialog; no Route outside a dialog; a Contact only of the proxy; no internal
    header; From and To whose hosts do not name the switch, users, parameters and
    tags as they were; every identity header with its text masked, provided all
    headers of that name are spelled alike ([uniform]; where they are not, those
    of a second spelling leave as they are: [mixed_spelling_leaks]); and toward a
    client no header outside the allowlist. *)
Theorem nothing_private_leaves t to rr inDialog kind out top :
  tidy out -> Via out = Some top -> isSwitchHost t (hostOf t (sd_advIP to)) = false ->
  let out' := hideToPublic Value ToLower t to rr inDialog kind out in
  GetHeaders (str "Via") out' = [HVia top] /\
  GetHeaders (str "Record-Route") out' = (if rr then [recordRoute to] else []) /\
  (inDialog = false -> GetHeaders (str "Route") out' = []) /\
  (forall h, h ∈ GetHeaders (str "Contact") out' -> h = HContact (mkNameAddr (side_uri to) None)) /\
  (forall h, h ∈ out' -> isInternalHeader (Name h) = false) /\
  (forall a, From out' = Some a -> isSwitchHost t (u_host (na_uri a)) = false) /\
  (forall a, To out' = Some a -> isSwitchHost t (u_host (na_uri a)) = false) /\
  From out' = update_uri (maskURI t (sd_advIP to)) <$> From out /\
  To out' = update_uri (maskURI t (sd_advIP to)) <$> To out /\
  (forall name, name ∈ identityHeaders -> uniform name out ->
     map Value (GetHeaders name out') = map (mask_text t (sd_advIP to)) (map Value (GetHeaders name out))) /\
  (kind = hideClient -> forall h, h ∈ out' -> allowedToClient ToLower (Name h) = true).
Proof.
  intros Ht V Hpub. cbv zeta. rewrite hideToPublic_steps.
  unfold tidy, core_names in Ht. rewrite !Forall_cons in Ht. destruct Ht as (Cv & Crr & Cr & Cc & _).
  set (pub := sd_advIP to) in *. destruct (maskIdentity_spec t pub (cleared to rr inDialog out)) as (M1 & M2 & M3 & M4).
  set (mid := maskIdentity Value t pub (cleared to rr inDialog out)) in *.
  assert (Cm : canonical (str "Contact") mid).
  { eapply canonical_mono; [|exact Cc]. unfold mid. rewrite M4 by reflexivity. by apply cleared_get. }
  destruct (cleared_routes to rr inDialog out Crr Cr) as [R1 R2].
  assert (F : From (finished to kind mid) = update_uri (maskURI t pub) <$> From out).
  { rewrite From_get, finished_get, <- From_get by (first [assumption | vm_compute; reflexivity]). rewrite M2. f_equal. rewrite From_get, cleared_get, <- From_get; first [reflexivity | vm_compute; reflexivity]. }
  assert (T : To (finished to kind mid) = update_uri (maskURI t pub) <$> To out).
  { rewrite To_get, finished_get, <- To_get by (first [assumption | vm_compute; reflexivity]). rewrite M3. f_equal. rewrite To_get, cleared_get, <- To_get; first [reflexivity | vm_compute; reflexivity]. }
  split; [rewrite finished_get by (first [assumption | vm_compute; reflexivity]); unfold mid; rewrite M4 by reflexivity; by apply cleared_via|].
  split; [rewrite finished_get by (first [assumption | vm_compute; reflexivity]); unfold mid; by rewrite M4|].
  split; [intros ->; rewrite finished_get by (first [assumption | vm_compute; reflexivity]); unfold mid; by rewrite M4|].
  split; [intros h; rewrite finished_contact by done; case_if; [by intros ->%list_elem_of_singleton|by intros ?%elem_of_nil]|].
  split.
  { intros h Hh. apply list_elem_of_In in Hh. unfold finished in Hh. cbv zeta in Hh.
    assert (K : In h (stripInternalHeaders (if hasHeader (str "Contact") mid then SetContact (side_uri to) mid else mid))).
    { destruct kind; [exact Hh|exact Hh|]. rewrite filterToClient_filter in Hh. by apply filter_In in Hh as [Hh _]. }
    rewrite stripInternalHeaders_filter in K. apply filter_In in K as [_ K]. by apply negb_true_iff. }
  split; [intros a; rewrite F; intros (b & _ & ->)%fmap_Some; by apply maskURI_hides|].
  split; [intros a; rewrite T; intros (b & _ & ->)%fmap_Some; by apply maskURI_hides|].
  split; [done|]. split; [done|]. split.
  { intros name Hin U. assert (G : GetHeaders name (cleared to rr inDialog out) = GetHeaders name out /\ client_name name = true /\
      equal_fold name (str "Contact") = false).
    { apply list_elem_of_lookup in Hin as [k Hk].
      do 10 (destruct k as [|k]; [injection Hk as <-; split; [by apply cleared_get|split; vm_compute; reflexivity]|]). done. }
    destruct G as (G1 & G2 & G3). rewrite finished_get by (first [assumption | vm_compute; reflexivity]). unfold mid. rewrite M1; [by rewrite G1|done|].
    unfold uniform. by rewrite G1. }
  intros -> h Hh. unfold finished in Hh. cbv zeta in Hh. rewrite filterToClient_filter in Hh.
  apply list_elem_of_In, filter_In in Hh. apply Hh.
Qed.

(** *** A response on its way *)

Lemma fold_prepend vs hs : fold_right PrependHeader hs vs = vs ++ hs.
Proof. induction vs as [|v vs IH]; [done|]. cbn. by rewrite prepend_first, IH. Qed.

Lemma get_all n l : forallb (named n) l = true -> GetHeaders n l = l.
Proof.
  unfold GetHeaders. induction l as [|h l IH]; [done|]. cbn. intros [-> H]%andb_true_iff. by rewrite IH.
Qed.

Lemma get_none n l : forallb (fun h => negb (named n h)) l = true -> GetHeaders n l = [].
Proof.
  unfold GetHeaders. induction l as [|h l IH]; [done|]. cbn. intros [H%negb_true_iff H']%andb_true_iff. rewrite H. by apply IH.
Qed.

Lemma via_named hs : forallb (named (str "Via")) (via_headers hs) = true.
Proof.
  rewrite forallb_forall. intros h [_ Hh]%filter_In. by destruct h.
Qed.

Lemma via_not_named n hs : equal_fold n (str "Via") = false -> forallb (fun h => negb (named n h)) (via_headers hs) = true.
Proof.
  intros N. rewrite forallb_forall. intros h [_ Hh]%filter_In. destruct h; try done. unfold named. cbn [Name].
  by rewrite equal_fold_sym, N.
Qed.

(** What [respToSwitch] makes of the headers. *)
Lemma to_switch_get t orig res n : equal_fold n (str "From") = false -> equal_fold n (str "To") = false ->
  equal_fold n (str "Via") = false ->
  GetHeaders n (hideResponse Value NetworkToLower ToLower t orig respToSwitch res) = GetHeaders n res.
Proof.
  intros F T V. cbn [hideResponse]. cbv zeta. rewrite fold_prepend.
  assert (E : GetHeaders n (via_headers (rq_headers orig) ++ RemoveHeaders (str "Via") res) = GetHeaders n res).
  { rewrite GetHeaders_app, get_none by (by apply via_not_named). by apply get_remove. }
  destruct (From (rq_headers orig)) as [f|], (To (rq_headers orig)) as [a|];
    rewrite ?(get_on_to n _ _ T), ?(get_on_from n _ _ F); exact E.
Qed.

Lemma From_spelled hs : From hs = From (spelled (str "From") hs).
Proof. unfold From, spelled. symmetry. apply first_of_filter. by intros []. Qed.

Lemma To_spelled hs : To hs = To (spelled (str "To") hs).
Proof. unfold To, spelled. symmetry. apply first_of_filter. by intros []. Qed.

Lemma canonical_sub n hs hs' : (forall h, In h hs' -> named n h = true -> In h hs) -> canonical n hs -> canonical n hs'.
Proof.
  unfold canonical. rewrite !forallb_forall. intros Hs Hc h Hh. destruct (named n h) eqn:E; [|done]. specialize (Hc h (Hs h Hh E)).
  by rewrite E in Hc.
Qed.

(** Nothing but an Allow is added by the two clean-ups of a message. *)
Lemma sanitized_in h hs : In h (stripInternalHeaders (sanitizeExtensions Value hs)) -> In h hs \/ Name h = str "Allow".
Proof.
  rewrite stripInternalHeaders_filter. intros [Hi _]%filter_In. unfold sanitizeExtensions, filterTokenHeader in Hi.
  case_bool_decide; [by left|]. destruct (forallb _ _); [by left|].
  assert (Hstrip : forall g, In g (strip_names (map Name (List.filter (fun h => one_of [str "allow"] (Name h)) hs)) hs) -> In g hs).
  { intros g Hg. rewrite (strip_names_filter (one_of [str "allow"]) _ hs eq_refl) in Hg. by apply filter_In in Hg as [Hg _]. }
  case_bool_decide; [left; by apply Hstrip|]. rewrite append_last in Hi.
  apply in_app_or in Hi as [Hi|[<-|[]]]; [left; by apply Hstrip|by right].
Qed.

(** A response with the proxy's own Via off and the two clean-ups done. *)
Definition relayed (hs : list header) : list header :=
  stripInternalHeaders (sanitizeExtensions Value (default hs (RemoveHeader (str "Via") hs))).

Lemma relayed_spelled n hs : n <> str "Via" -> one_of [str "allow"] n = false -> isInternalHeader n = false ->
  spelled n (relayed hs) = spelled n hs.
Proof.
  intros N1 N2 N3. unfold relayed. rewrite internal_spelled, sanitize_spelled by done.
  destruct (RemoveHeader _ hs) as [l|] eqn:E; [|done]. by apply (remove_spelled _ _ _ n E).
Qed.

Lemma relayed_canonical n hs : equal_fold (str "Allow") n = false -> canonical n hs -> canonical n (relayed hs).
Proof.
  intros N. apply canonical_sub. intros h [Hi|Ha]%sanitized_in Hn.
  - destruct (RemoveHeader _ hs) as [l|] eqn:E; [|done]. apply remove_some in E as (a & g & b & -> & _ & _ & ->).
    cbn [default from_option id] in Hi. apply in_app_iff. apply in_app_iff in Hi. cbn. tauto.
  - unfold named in Hn. rewrite Ha in Hn. congruence.
Qed.

(** A relayed response, step by step. *)
Lemma relayResponse_spec t orig res mode out :
  relayResponseHide Value NetworkToLower ToLower t orig res mode = Some out ->
  isSelfVia t (Via (rs_headers res)) = true /\
  rs_status out = rs_status res /\ m_body (rs_msg out) = m_body (rs_msg res) /\
  m_dest (rs_msg out) = m_source (rq_msg orig) /\
  rs_headers out = hideResponse Value NetworkToLower ToLower t orig mode (relayed (rs_headers res)).
Proof.
  intros H. unfold relayResponseHide in H. apply bind_Some in H as (hs & Hp & Ho). unfold popOwnVia in Hp.
  destruct (Via (rs_headers res)) as [top|] eqn:Et; [|done]. destruct (isSelfVia t (Some top)) eqn:Es; [|done]. cbn [negb] in Hp.
  assert (Hh : hs = default (rs_headers res) (RemoveHeader (str "Via") (rs_headers res))) by (by case_if_in Hp; [injection Hp|]).
  unfold relayed. rewrite <- Hh. cbv zeta in Ho. injection Ho as <-. done.
Qed.

Lemma to_switch_base orig hs : 
  let base := via_headers (rq_headers orig) ++ RemoveHeaders (str "Via") (relayed hs) in
  From base = From hs /\ To base = To hs.
Proof.
  cbv zeta. split.
  - rewrite From_get, GetHeaders_app, get_none, get_remove by (reflexivity || by apply via_not_named). cbn [app].
    by rewrite <- From_get, From_spelled, relayed_spelled, <- From_spelled.
  - rewrite To_get, GetHeaders_app, get_none, get_remove by (reflexivity || by apply via_not_named). cbn [app].
    by rewrite <- To_get, To_spelled, relayed_spelled, <- To_spelled.
Qed.

(** the switch gets its own message back.  A response to a request
    the switch sent is relayed to it, to the address it sent from, with all of
    the Vias of that request, so that its transaction matches, and the From and
    To addresses it used; tags, status and body are the far end's.  A response
    whose top Via is not the proxy's goes nowhere. *)
Theorem switch_gets_its_own_back t orig res out :
  canonical (str "Via") (rs_headers res) ->
  relayResponseHide Value NetworkToLower ToLower t orig res respToSwitch = Some out ->
  isSelfVia t (Via (rs_headers res)) = true /\
  rs_status out = rs_status res /\ m_body (rs_msg out) = m_body (rs_msg res) /\
  m_dest (rs_msg out) = m_source (rq_msg orig) /\
  GetHeaders (str "Via") (rs_headers out) = via_headers (rq_headers orig) /\
  (forall f f', From (rq_headers orig) = Some f -> From (rs_headers out) = Some f' ->
     na_uri f' = na_uri f /\ (na_params <$> From (rs_headers res)) = Some (na_params f')) /\
  (forall a a', To (rq_headers orig) = Some a -> To (rs_headers out) = Some a' ->
     na_uri a' = na_uri a /\ (na_params <$> To (rs_headers res)) = Some (na_params a')).
Proof.
  intros Cv (Hs & H1 & H2 & H3 & Hh)%relayResponse_spec. rewrite Hh. do 4 (split; [done|]).
  destruct (to_switch_base orig (rs_headers res)) as [FR TR].
  cbn [hideResponse]. cbv zeta. rewrite fold_prepend. split; [|split].
  - assert (E : GetHeaders (str "Via") (via_headers (rq_headers orig) ++ RemoveHeaders (str "Via") (relayed (rs_headers res))) =
                via_headers (rq_headers orig)).
    { rewrite GetHeaders_app, get_all, get_removed, app_nil_r; [done|by apply relayed_canonical|apply via_named]. }
    destruct (From (rq_headers orig)), (To (rq_headers orig)); rewrite ?get_on_to, ?get_on_from by reflexivity; exact E.
  - intros f f' Ef. rewrite Ef. destruct (To (rq_headers orig)); rewrite ?From_on_to, From_on_from, FR;
      intros (b & -> & ->)%fmap_Some; done.
  - intros a a' Ea. rewrite Ea. destruct (From (rq_headers orig)); rewrite To_on_to, ?To_on_from, TR;
      intros (b & -> & ->)%fmap_Some; done.
Qed.

(** *** A response to a public party *)

Lemma keep_routes_get keep hs n : canonical (str "Record-Route") hs ->
  GetHeaders n (keep_routes keep hs) =
  if equal_fold n (str "Record-Route") then map HRecordRoute (List.filter keep (record_route_uris hs)) else GetHeaders n hs.
Proof.
  intros C. unfold keep_routes. set (us := List.filter keep (record_route_uris hs)). clearbody us.
  assert (E : forall hs0, GetHeaders n (fold_left (fun out u => AppendHeader (HRecordRoute u) out) us hs0) =
              GetHeaders n hs0 ++ if equal_fold n (str "Record-Route") then map HRecordRoute us else []).
  { induction us as [|u us IH]; intros hs0; cbn [fold_left map]; [by destruct (equal_fold n _); rewrite app_nil_r|].
    rewrite IH, get_append. unfold named. cbn [Name]. rewrite (equal_fold_sym _ n), <- app_assoc. by destruct (equal_fold n _). }
  rewrite E. clear E. destruct (equal_fold n (str "Record-Route")) eqn:En.
  - assert (GetHeaders n (RemoveHeaders (str "Record-Route") hs) = []) as ->; [|done].
    assert (X : GetHeaders n (RemoveHeaders (str "Record-Route") hs) = GetHeaders (str "Record-Route") (RemoveHeaders (str "Record-Route") hs)).
    { unfold GetHeaders. apply List.filter_ext. intros h. unfold named. by apply equal_fold_neq_l. }
    rewrite X. by apply get_removed.
  - rewrite app_nil_r. by apply get_remove.
Qed.

Lemma maskIdentity_canonical t pub n hs : other_name n = true -> canonical n hs -> canonical n (maskIdentity Value t pub hs).
Proof. intros H. apply canonical_mono. by apply get_mask. Qed.

(** A response in the clients' mode, before the allowlist. *)
Definition client_base (t : topology) (orig : request) (pub : side) (res : list header) : list header :=
  let m := maskIdentity Value t (sd_advIP pub) (hideRecordRoutesToClient t res) in
  if negb (beq (rq_method orig) (str "REGISTER")) && hasHeader (str "Contact") m then SetContact (side_uri pub) m else m.

Lemma client_base_get t orig pub res n : other_name n = true -> canonical (str "Record-Route") res ->
  canonical (str "Contact") res -> equal_fold n (str "Contact") = false ->
  GetHeaders n (client_base t orig pub res) = GetHeaders n (hideRecordRoutesToClient t res).
Proof.
  intros On Cr Cc Nc. unfold client_base. cbv zeta.
  assert (Cm : canonical (str "Contact") (maskIdentity Value t (sd_advIP pub) (hideRecordRoutesToClient t res))).
  { apply maskIdentity_canonical; [reflexivity|]. eapply canonical_mono; [|exact Cc]. unfold hideRecordRoutesToClient.
    by rewrite keep_routes_get. }
  case_if; [|by apply get_mask]. rewrite (proj2 (SetContact_hides _ _ Cm) n Nc). by apply get_mask.
Qed.

Lemma client_base_contact t orig pub res : canonical (str "Record-Route") res -> canonical (str "Contact") res ->
  rq_method orig <> str "REGISTER" ->
  GetHeaders (str "Contact") (client_base t orig pub res) =
  if hasHeader (str "Contact") (maskIdentity Value t (sd_advIP pub) (hideRecordRoutesToClient t res))
  then [HContact (mkNameAddr (side_uri pub) None)] else [].
Proof.
  intros Cr Cc M. unfold client_base. cbv zeta. replace (beq (rq_method orig) (str "REGISTER")) with false.
  2: { symmetry. apply not_true_iff_false. by rewrite beq_eq. }
  cbn [negb andb]. case_if; [|by apply hasHeader_get]. apply SetContact_hides.
  apply maskIdentity_canonical; [reflexivity|]. eapply canonical_mono; [|exact Cc]. unfold hideRecordRoutesToClient.
  by rewrite keep_routes_get.
Qed.

Lemma client_base_identity t orig pub res name : name ∈ identityHeaders ->
  canonical (str "Record-Route") res -> canonical (str "Contact") res -> uniform name res ->
  map Value (GetHeaders name (client_base t orig pub res)) = map (mask_text t (sd_advIP pub)) (map Value (GetHeaders name res)).
Proof.
  intros Hin Cr Cc U. assert (G : GetHeaders name (hideRecordRoutesToClient t res) = GetHeaders name res /\
      equal_fold name (str "Contact") = false).
  { apply list_elem_of_lookup in Hin as [k Hk]. unfold hideRecordRoutesToClient. rewrite keep_routes_get by done.
    do 10 (destruct k as [|k]; [injection Hk as <-; split; vm_compute; reflexivity|]). done. }
  destruct G as [G N]. destruct (maskIdentity_spec t (sd_advIP pub) (hideRecordRoutesToClient t res)) as (M1 & _).
  specialize (M1 name Hin). unfold uniform in M1. rewrite G in M1. rewrite <- M1 by done. f_equal.
  unfold client_base. cbv zeta. case_if; [|done].
  rewrite (fun C => proj2 (SetContact_hides (side_uri pub) _ C) name N); [done|].
  apply maskIdentity_canonical; [reflexivity|]. eapply canonical_mono; [|exact Cc]. unfold hideRecordRoutesToClient.
  by rewrite keep_routes_get.
Qed.

Lemma client_base_from t orig pub res :
  From (client_base t orig pub res) = update_uri (maskURI t (sd_advIP pub)) <$> From res /\
  To (client_base t orig pub res) = update_uri (maskURI t (sd_advIP pub)) <$> To res.
Proof.
  destruct (maskIdentity_spec t (sd_advIP pub) (hideRecordRoutesToClient t res)) as (_ & F & T & _).
  assert (K : forall (f : header -> option NameAddr) hs, (forall h, exactly (str "Record-Route") h = true -> f h = None) ->
     (forall u, f (HRecordRoute u) = None) -> first_of f (hideRecordRoutesToClient t hs) = first_of f hs).
  { intros f hs Hf Hr. unfold hideRecordRoutesToClient, keep_routes. generalize (List.filter (fun u => negb (isPrivateURI t u) && (isPublicURI t u || negb (isSwitchHost t (u_host u)))) (record_route_uris hs)).
    intros us. rewrite <- (first_of_remove f (str "Record-Route") hs Hf). generalize (RemoveHeaders (str "Record-Route") hs).
    induction us as [|u us IH]; intros l; [done|]. cbn [fold_left]. rewrite IH, append_last, first_header_app. cbn [first_of]. rewrite Hr. by destruct (first_of f l). }
  assert (S : forall (f : header -> option NameAddr) u hs, (forall h, exactly (str "Contact") h = true -> f h = None) ->
     (forall c, f (HContact c) = None) -> first_of f (SetContact u hs) = first_of f hs).
  { intros f u hs Hf Hc. unfold SetContact. rewrite append_last, first_header_app. cbn [first_of]. rewrite Hc.
    rewrite first_of_remove by done. by destruct (first_of f hs). }
  unfold From, To in *. rewrite (K _ res) in F by by intros []. rewrite (K _ res) in T by by intros [].
  unfold client_base. cbv zeta. split; (case_if; [rewrite S by by intros []|]); done.
Qed.

Lemma client_mode t orig pub res : publicSideFor NetworkToLower t orig = Some pub ->
  hideResponse Value NetworkToLower ToLower t orig respToClient res = filterToClient ToLower (client_base t orig pub res).
Proof. intros H. unfold hideResponse, client_base. rewrite H. cbv beta zeta. reflexivity. Qed.

Lemma client_get n hs : client_name n = true -> GetHeaders n (filterToClient ToLower hs) = GetHeaders n hs.
Proof. unfold client_name. rewrite !andb_true_iff. intros [[[A B] C] _]. apply get_client; [done..|lia]. Qed.

Lemma client_from hs : From (filterToClient ToLower hs) = From hs.
Proof. rewrite From_get, client_get, <- From_get by (vm_compute; reflexivity). done. Qed.

Lemma client_to hs : To (filterToClient ToLower hs) = To hs.
Proof. rewrite To_get, client_get, <- To_get by (vm_compute; reflexivity). done. Qed.

Lemma relayed_from hs : From (relayed hs) = From hs /\ To (relayed hs) = To hs.
Proof.
  split; [rewrite From_spelled, relayed_spelled, <- From_spelled|rewrite To_spelled, relayed_spelled, <- To_spelled]; done.
Qed.

(** C29: What a response to a client carries.  Of a response whose Via,
    Record-Route, Route and Contact headers are spelled as the parser spells them
    ([tidy]), to a request that arrived on a known public side whose address is
    none of the switch's: of the Record-Routes none names the private socket, and
    one at a switch's address only when it is the proxy's own public entry; From
    and To name the switch nowhere; the identity headers are masked, provided
    all headers of that name are spelled alike ([uniform]; a second spelling is
    not touched, [mixed_spelling_leaks]); a Contact, but for the bindings of a
    REGISTER, is the proxy's public one; no header is outside the allowlist;
    status and body are the switch's. *)
Theorem nothing_private_returns t orig res out pub :
  tidy (rs_headers res) -> publicSideFor NetworkToLower t orig = Some pub -> isSwitchHost t (hostOf t (sd_advIP pub)) = false ->
  relayResponseHide Value NetworkToLower ToLower t orig res respToClient = Some out ->
  (rs_status out = rs_status res /\ m_body (rs_msg out) = m_body (rs_msg res) /\ m_dest (rs_msg out) = m_source (rq_msg orig)) /\
  (forall h, h ∈ GetHeaders (str "Record-Route") (rs_headers out) -> exists u, h = HRecordRoute u /\
     isPrivateURI t u = false /\ (isSwitchHost t (u_host u) = true -> isPublicURI t u = true)) /\
  (forall a, From (rs_headers out) = Some a -> isSwitchHost t (u_host (na_uri a)) = false) /\
  (forall a, To (rs_headers out) = Some a -> isSwitchHost t (u_host (na_uri a)) = false) /\
  (forall name, name ∈ identityHeaders -> uniform name (relayed (rs_headers res)) ->
     map Value (GetHeaders name (rs_headers out)) =
     map (mask_text t (sd_advIP pub)) (map Value (GetHeaders name (relayed (rs_headers res))))) /\
  (rq_method orig <> str "REGISTER" -> forall h, h ∈ GetHeaders (str "Contact") (rs_headers out) ->
     h = HContact (mkNameAddr (side_uri pub) None)) /\
  (forall h, h ∈ rs_headers out -> allowedToClient ToLower (Name h) = true).
Proof.
  intros Ht Hp Hpub (_ & H1 & H2 & H3 & Hh)%relayResponse_spec. split; [done|]. rewrite Hh, (client_mode _ _ pub) by done.
  unfold tidy, core_names in Ht. rewrite !Forall_cons in Ht. destruct Ht as (_ & Crr & _ & Cc & _).
  apply relayed_canonical in Crr, Cc; [|reflexivity..]. set (hs := relayed (rs_headers res)) in *.
  destruct (client_base_from t orig pub hs) as [F T]. split; [|split; [|split; [|split; [|split]]]].
  - intros h. rewrite client_get, client_base_get by (first [assumption | vm_compute; reflexivity]).
    unfold hideRecordRoutesToClient. rewrite keep_routes_get by done. cbn [equal_fold].
    replace (equal_fold (str "Record-Route") (str "Record-Route")) with true by reflexivity.
    intros (u & <- & [_ Hu]%filter_In)%list_elem_of_In%in_map_iff. exists u. split; [done|].
    apply andb_true_iff in Hu as [->%negb_true_iff Hu]. split; [done|]. intros E. rewrite E in Hu. by destruct (isPublicURI t u).
  - intros a. rewrite client_from, F. intros (b & _ & ->)%fmap_Some. by apply maskURI_hides.
  - intros a. rewrite client_to, T. intros (b & _ & ->)%fmap_Some. by apply maskURI_hides.
  - intros name Hin U. assert (client_name name = true) as Hc.
    { apply list_elem_of_lookup in Hin as [k Hk].
      do 10 (destruct k as [|k]; [injection Hk as <-; vm_compute; reflexivity|]). done. }
    rewrite client_get by done. by apply client_base_identity.
  - intros M h. rewrite client_get, client_base_contact by (first [assumption | vm_compute; reflexivity]).
    case_if; [by intros ->%list_elem_of_singleton|by intros ?%elem_of_nil].
  - intros h Hin. rewrite filterToClient_filter in Hin. apply list_elem_of_In, filter_In in Hin. apply Hin.
Qed.

(** *** The identity the far end echoes *)

(** what was masked is restored: a From or To address masked on its
    way out, echoed in a later request with the tag the record knows it by, is
    the switch's own address again, host and port, whatever it was; an address
    the far end changed (another user, or another host) is left as it wrote
    it, and so is one with a tag nobody knows. *)
Theorem identity_comes_back t pub uriOf real tag cur :
  tag <> [] -> uriOf tag = Some real ->
  restore_at t pub uriOf tag (maskURI t pub real) = real /\
  (u_user cur <> u_user real \/ u_host cur <> hostOf t pub -> restore_at t pub uriOf tag cur = cur) /\
  u_user (restore_at t pub uriOf tag cur) = u_user cur /\ u_params (restore_at t pub uriOf tag cur) = u_params cur /\
  (forall tag', uriOf tag' = None -> restore_at t pub uriOf tag' cur = cur).
Proof using Type.
  intros Hne Ho. unfold restore_at at 1 2 3 4. rewrite bool_decide_eq_false_2, Ho by done. split; [|split; [|split; [|split]]].
  - unfold restoreURI, maskURI. destruct (isSwitchHost t (u_host real)) eqn:E; cbn [andb]; [|done].
    cbn [u_host u_user u_port u_params u_wildcard]. rewrite !beq_refl. by destruct real.
  - intros D. unfold restoreURI. destruct (_ && _ && _) eqn:E; [|done]. rewrite !andb_true_iff, !beq_eq in E. destruct E as [[_ E1] E2]. by destruct D.
  - unfold restoreURI. by case_if.
  - unfold restoreURI. by case_if.
  - intros tag' Hn. unfold restore_at. case_if; [done|]. by rewrite Hn.
Qed.

(** *** The private Record-Route *)

Lemma after_public_spec t all : forall i,
  match after_public t all i with
  | Some j => exists a u b, all = a ++ u :: b /\ j = (i + S (length a))%nat /\ isPublicURI t u = true /\
                            forallb (fun u => negb (isPublicURI t u)) b = true
  | None => forallb (fun u => negb (isPublicURI t u)) all = true
  end.
Proof.
  induction all as [|u all IH]; intros i; [done|]. cbn [after_public]. specialize (IH (S i)).
  destruct (after_public t all (S i)) as [j|].
  - destruct IH as (a & v & b & -> & -> & Hv & Hb). exists (u :: a), v, b. split; [done|]. split; [cbn; lia|done].
  - destruct (isPublicURI t u) eqn:E; [|cbn; by rewrite E].
    exists [], u, all. split; [done|]. split; [cbn; lia|done].
Qed.

Lemma fold_append_headers hs vs : fold_left (fun out h => AppendHeader h out) vs hs = hs ++ vs.
Proof. revert hs. induction vs as [|v vs IH]; intros hs; cbn [fold_left]; [by rewrite app_nil_r|]. by rewrite IH, append_last, <- app_assoc. Qed.

(** the switch's route set starts at its own proxy: in an answer to
    the switch the private Record-Route is inserted right after the last public
    entry the far end echoed, or at the end when it echoed none; the other
    entries keep their order; so whenever nothing follows the public entry, the
    bottom of the list, which a caller's route set starts with, is the private
    socket. *)
Theorem private_route_is_inserted t res : canonical (str "Record-Route") res ->
  exists a b, record_route_uris res = a ++ b /\
    GetHeaders (str "Record-Route") (addPrivateRecordRoute t res) = map HRecordRoute a ++ recordRoute (private t) :: map HRecordRoute b /\
    forallb (fun u => negb (isPublicURI t u)) b = true /\
    (b <> [] -> exists a' u, a = a' ++ [u] /\ isPublicURI t u = true) /\
    (forall n, equal_fold n (str "Record-Route") = false -> GetHeaders n (addPrivateRecordRoute t res) = GetHeaders n res).
Proof.
  intros C. set (all := record_route_uris res). set (k := default (length all) (after_public t all 0)).
  assert (Hn : forall us, forallb (named (str "Record-Route")) (map HRecordRoute us) = true).
  { intros us. induction us; [done|]. cbn. done. }
  exists (take k all), (drop k all). split; [by rewrite take_drop|]. unfold addPrivateRecordRoute. fold all k. cbv zeta. rewrite !fold_append_headers.
  split; [|split; [|split]].
  - rewrite GetHeaders_app, get_removed by done. cbn [app]. apply get_all. rewrite forallb_app. cbn [forallb]. by rewrite !Hn.
  - pose proof (after_public_spec t all 0) as S. unfold k. destruct (after_public t all 0) as [j|]; cbn [default from_option id].
    + destruct S as (a & u & b & -> & -> & _ & Hb). cbn [plus]. replace (S (length a)) with (length (a ++ [u])) by (rewrite length_app; cbn; lia).
      replace (a ++ u :: b) with ((a ++ [u]) ++ b) by (by rewrite <- app_assoc). by rewrite drop_app_length.
    + by rewrite drop_all.
  - intros Hb. pose proof (after_public_spec t all 0) as S. unfold k in *. destruct (after_public t all 0) as [j|]; cbn [default from_option id] in *.
    + destruct S as (a & u & b & E & -> & Hu & _). exists a, u. split; [|done]. rewrite E. cbn [plus].
      replace (S (length a)) with (length (a ++ [u])) by (rewrite length_app; cbn; lia).
      replace (a ++ u :: b) with ((a ++ [u]) ++ b) by (by rewrite <- app_assoc). by rewrite take_app_length.
    + by rewrite drop_all in Hb.
  - intros n N. assert (Hr : forall us, GetHeaders n (map HRecordRoute us) = []).
    { intros us. apply get_none, forallb_forall. intros h (u & <- & _)%in_map_iff. unfold named. cbn [Name]. by rewrite equal_fold_sym, N. }
    rewrite GetHeaders_app, GetHeaders_app, get_remove, Hr by done. cbn [app].
    change (recordRoute (private t) :: map HRecordRoute (drop k all)) with ([recordRoute (private t)] ++ map HRecordRoute (drop k all)).
    rewrite GetHeaders_app, Hr, app_nil_r. unfold GetHeaders at 2. cbn [List.filter]. unfold named, recordRoute. cbn [Name].
    rewrite equal_fold_sym, N. by rewrite app_nil_r.
Qed.
End HideProofs.

(** ** Witnesses *)

#[local] Existing Instance ListImpl.list_params.
#[local] Existing Instance ListImpl.list_headers.
#[local] Existing Instance ListImpl.list_headers_laws.

Definition hide_text (h : header) : gostring := match h with HOther _ v => v | _ => [] end.

Definition switch_uri : Uri := mkUri (str "1001") (str "10.0.0.1") 5060 None false.

Definition demo_leaving : list header :=
  [HVia (side_via demo_side (str "z9hG4bKx")); HVia demo_via; HRecordRoute switch_uri; HRoute switch_uri;
   HFrom (mkNameAddr switch_uri (Some [(str "tag", str "a")])); HTo (mkNameAddr switch_uri None);
   HContact (mkNameAddr switch_uri None); HOther (str "X-FreeSBC-Arrival") (str "private"); HOther (str "Server") (str "FreeSWITCH");
   HOther (str "P-Asserted-Identity") (str "<sip:1001@10.0.0.1:5060;user=phone>")].

Lemma demo_tidy : tidy demo_leaving.
Proof. repeat (apply Forall_cons; split; [vm_compute; reflexivity|]). constructor. Qed.

Lemma demo_public_host : isSwitchHost demo_topology (hostOf demo_topology (sd_advIP demo_side)) = false.
Proof. vm_compute. reflexivity. Qed.

Lemma masking_rewrites_hosts_only_witness :
  isSwitchHost demo_topology (str "10.0.0.1") = true /\
  exists ps, mask_text demo_topology (sd_advIP demo_side) (str "<sip:1001@10.0.0.1:5060>") = concat (map piece_text ps).
Proof.
  split; [vm_compute; reflexivity|].
  destruct (masking_rewrites_hosts_only demo_topology (sd_advIP demo_side) (str "<sip:1001@10.0.0.1:5060>") demo_public_host)
    as (_ & ps & H & _); [vm_compute; reflexivity|]. by exists ps.
Defined.

Lemma nothing_private_leaves_witness :
  GetHeaders (str "Via") (hideToPublic hide_text to_lower demo_topology demo_side true false hideClient demo_leaving) =
    [HVia (side_via demo_side (str "z9hG4bKx"))] /\
  map hide_text (GetHeaders (str "P-Asserted-Identity") (hideToPublic hide_text to_lower demo_topology demo_side true false hideClient demo_leaving)) =
    [str "<sip:1001@203.0.113.5;user=phone>"].
Proof.
  destruct (nothing_private_leaves hide_text to_lower to_lower (fun n v => eq_refl) demo_topology demo_side true false hideClient
    demo_leaving (side_via demo_side (str "z9hG4bKx")) demo_tidy eq_refl demo_public_host) as (H1 & _ & _ & _ & _ & _ & _ & _ & _ & H2 & _).
  split; [exact H1|]. rewrite H2; [vm_compute; reflexivity|by left|].
  intros h h' Hh Hh'. vm_compute in Hh, Hh'. apply list_elem_of_singleton in Hh, Hh'. by subst.
Defined.

(** The switch's request, and the answer a phone gives to what it was sent. *)
Definition demo_switch_request : request :=
  mkRequest (str "INVITE") (mkUri (str "bob") (str "198.51.100.7") 5060 None false) (str "SIP/2.0") None
    (mkMsg [HVia (mkVia (str "UDP") (str "10.0.0.11") 5060 (Some [(str "branch", str "z9hG4bKs")]));
            HFrom (mkNameAddr switch_uri (Some [(str "tag", str "a")])); HTo (mkNameAddr switch_uri None)]
       (@nil Z) (str "UDP") (@nil Z) (str "10.0.0.11:5060")).

Definition demo_answer (tr : side) : response :=
  mkResponse 200 (mkMsg [HVia (side_via tr (str "z9hG4bKx")); HVia demo_via; HRecordRoute switch_uri;
                         HFrom (mkNameAddr (maskURI demo_topology (sd_advIP demo_side) switch_uri) (Some [(str "tag", str "a")]));
                         HTo (mkNameAddr (maskURI demo_topology (sd_advIP demo_side) switch_uri) (Some [(str "tag", str "b")]));
                         HContact (mkNameAddr switch_uri None); HOther (str "Server") (str "sofia")]
                    (@nil Z) (str "UDP") (@nil Z) (str "198.51.100.7:5060")).

Definition demo_back : response :=
  default (demo_answer demo_side)
    (relayResponseHide hide_text to_lower to_lower demo_topology demo_switch_request (demo_answer demo_side) respToSwitch).

Lemma switch_gets_its_own_back_witness :
  GetHeaders (str "Via") (rs_headers demo_back) = via_headers (rq_headers demo_switch_request) /\
  m_dest (rs_msg demo_back) = str "10.0.0.11:5060" /\
  forall f, From (rs_headers demo_back) = Some f -> na_uri f = switch_uri.
Proof.
  destruct (switch_gets_its_own_back hide_text to_lower to_lower demo_topology demo_switch_request (demo_answer demo_side) demo_back)
    as (_ & _ & _ & H1 & H2 & H3 & _); [vm_compute; reflexivity|vm_compute; reflexivity|].
  split; [exact H2|]. split; [exact H1|]. intros f Hf. exact (proj1 (H3 _ f eq_refl Hf)).
Defined.

(** The phone's own request, answered by the switch. *)
Definition demo_front : response :=
  default (demo_answer demo_side)
    (relayResponseHide hide_text to_lower to_lower demo_topology demo_phone (demo_answer (private demo_topology)) respToClient).

Lemma nothing_private_returns_witness :
  GetHeaders (str "Record-Route") (rs_headers demo_front) = [] /\
  forall h, h ∈ rs_headers demo_front -> allowedToClient to_lower (Name h) = true.
Proof.
  split; [vm_compute; reflexivity|].
  apply (nothing_private_returns hide_text to_lower to_lower (fun n v => eq_refl) demo_topology demo_phone
    (demo_answer (private demo_topology)) demo_front demo_side).
  - repeat (apply Forall_cons; split; [vm_compute; reflexivity|]). constructor.
  - vm_compute. reflexivity.
  - exact demo_public_host.
  - vm_compute. reflexivity.
Defined.

Lemma identity_comes_back_witness :
  restore_at demo_topology (sd_advIP demo_side) (fun _ => Some switch_uri) (str "a")
    (maskURI demo_topology (sd_advIP demo_side) switch_uri) = switch_uri.
Proof.
  exact (proj1 (identity_comes_back demo_topology (sd_advIP demo_side) (fun _ => Some switch_uri) switch_uri (str "a") no_uri
                  ltac:(discriminate) eq_refl)).
Defined.

Lemma private_route_is_inserted_witness :
  exists a b, record_route_uris [recordRoute demo_side] = a ++ b /\
    GetHeaders (str "Record-Route") (addPrivateRecordRoute demo_topology [recordRoute demo_side]) =
      map HRecordRoute a ++ recordRoute (private demo_topology) :: map HRecordRoute b.
Proof.
  destruct (private_route_is_inserted demo_topology [recordRoute demo_side]) as (a & b & E & H & _).
  - vm_compute. reflexivity.
  - exists a, b. split; [exact E|exact H].
Defined.

(** Headers of one name spelled two ways: only those spelled as the first are
    taken off, and the switch's address in the other goes out. *)
Lemma mixed_spelling_leaks :
  existsb (fun h => beq (Name h) (str "diversion") && beq (hide_text h) (str "<sip:x@10.0.0.1>"))
    (maskIdentity hide_text demo_topology (sd_advIP demo_side)
       [HOther (str "Diversion") (str "<sip:y@10.0.0.1>"); HOther (str "diversion") (str "<sip:x@10.0.0.1>")]) = true.
Proof. vm_compute. reflexivity. Qed.
