(* ===== verification/CarrierRoute.v ===== *)
(** Carriers and the switch's registrations at them (internal/edge/carrier.go,
    carrierreg.go, and the token lookups of invite.go).

    Where a request from the switch is addressed, which carrier a public
    request is from, and the table of the switch's carrier registrations: the
    token written into the Contact a carrier is given, what the answer of the
    carrier does to the table, and what a later request that names the token
    resolves to.  Sending and awaiting the exchange is sipgo's. *)

From S2P Require Import Prelude GoTime Netip GoText GoEncoding GoHash SipAddr SipMsg SipRequest Carriers Topology.
From S2P Require Import Forward RegisterText Hide.
From S2P Require Location.

Open Scope Z_scope.

Definition carrierHeader : gostring := str "X-FreeSBC-Carrier".
Definition DefaultCarrierPort : Z := 5060.

(** [net.JoinHostPort] *)
Definition join_host_port (host port : gostring) : gostring :=
  if mem 58 host then str "[" ++ host ++ str "]:" ++ port else host ++ str ":" ++ port.

Definition carrierKey (host : gostring) (port : Z) : gostring :=
  let host := to_lower (trim_dot host) in
  let host := match parse_addr host with Some a => addr_string (unmap a) | None => host end in
  let port := if port =? 0 then DefaultCarrierPort else port in
  join_host_port host (int_string port).

Definition carrierURIsOf (l : list Carrier) : gmap gostring gostring :=
  fold_left (fun m c => <[carrierKey (c_host c) (c_port c) := c_name c]> m) l ∅.

(** The entries by name. *)
Definition carrierByName (l : list Carrier) : gmap gostring Carrier :=
  fold_left (fun m c => <[c_name c := c]> m) l ∅.

Definition carrierSide (t : topology) (byName : gmap gostring Carrier) (name : gostring) : option side :=
  match byName !! name with Some c => publicSide t (c_transport c) | None => None end.

Inductive switchTarget := targetNotFound | targetClient | targetCarrier | targetSelf.

#[export] Instance switchTarget_eq_dec : EqDecision switchTarget.
Proof. solve_decision. Defined.

(** ** The table *)

Section Carrier.
Context `{SP : SipParams} `{SH : SipHeaders}.
Context (Value : header -> gostring) (NetworkToLower ToLower : gostring -> gostring).
(** sipgo's text of a URI. *)
Context (UriString : Uri -> gostring).

(** *** Where a request goes *)

Definition firstForeignRoute (t : topology) (hs : list header) : option Uri :=
  first_of (fun h => match h with HRoute u => if isSelf t u then None else Some u | _ => None end) (GetHeaders (str "Route") hs).

Definition classifySwitchRequest (t : topology) (uris : gmap gostring gostring) (req : request) : switchTarget * gostring :=
  if bool_decide (is_Some (tokenOf (rq_recipient req))) then (targetClient, [])
  else if match firstForeignRoute t (rq_headers req) with Some r => bool_decide (is_Some (tokenOf r)) | None => false end
  then (targetClient, [])
  else match uris !! carrierKey (u_host (rq_recipient req)) (u_port (rq_recipient req)) with
       | Some name => (targetCarrier, name)
       | None => if isSelf t (rq_recipient req) then (targetSelf, []) else (targetNotFound, [])
       end.

Definition carrierHashUser (req : request) : gostring :=
  if negb (bool_decide (u_user (rq_recipient req) = [])) then to_lower (u_user (rq_recipient req))
  else match To (rq_headers req) with
       | Some a => if negb (bool_decide (u_user (na_uri a) = [])) then to_lower (u_user (na_uri a)) else CallID (rq_headers req)
       | None => CallID (rq_headers req)
       end.

(** [src] is fsip.SourceAddrPort of the request. *)
Definition carrierFallback (now : Z) (loc : Location.Location) (snap : carrierSnapshot) (req : request) (src : option AddrPort)
    : option gostring :=
  match src with
  | None => None
  | Some src =>
      let network := NetworkToLower (m_transport (rq_msg req)) in
      if Location.HasSource now network src loc then None else carrierFor snap src network
  end.

(** [dialog] is the carrier of the dialog on record, if there is one. *)
Definition stampCarrier (now : Z) (loc : Location.Location) (snap : carrierSnapshot) (out : list header) (req : request)
    (src : option AddrPort) (dialog : option gostring) : list header :=
  let name := match dialog with Some n => n | None => default [] (carrierFallback now loc snap req src) end in
  if bool_decide (name = []) then out else AppendHeader (HOther carrierHeader name) out.

Definition bindingForRequest (now : Z) (t : topology) (loc : Location.Location) (req : request) : option Location.Binding :=
  let by_token o := match o with Some tok => Location.ByToken now tok loc | None => None end in
  match by_token (tokenOf (rq_recipient req)) with
  | Some b => Some b
  | None => match firstForeignRoute t (rq_headers req) with Some r => by_token (tokenOf r) | None => None end
  end.

Definition clientRequestURI (b : Location.Binding) : Uri :=
  mkUri (Location.User b) (addr_string (ap_addr (Location.Source b))) (ap_port (Location.Source b))
    (Some (if negb (beq (Location.Transport b) (str "udp"))
           then ParamAdd (str "transport") (Location.Transport b) NewParams else NewParams)) false.

Definition carrierDest (snap : carrierSnapshot) (name : gostring) : option gostring :=
  match addrs_of snap name with [] => None | a :: _ => Some (addrport_string a) end.

(** carrierconn.go *)
Definition carrierTarget (snap : carrierSnapshot) (network dest : gostring) : option gostring :=
  List.find (fun n => beq (transport_of snap n) network && existsb (fun a => beq (addrport_string a) dest) (addrs_of snap n))
            (names snap).

Fixpoint switch_node (t : topology) (src : AddrPort) (l : list gostring) (first : gostring) : gostring :=
  match l with
  | [] => first
  | name :: l =>
      let a := match upstreams t !! name with Some e => ep_addr e | None => ap_zero end in
      if negb (addr_eqb (unmap (ap_addr a)) (unmap (ap_addr src))) then switch_node t src l first
      else if ap_port a =? ap_port src then name
      else switch_node t src l (if bool_decide (first = []) then name else first)
  end.

(** [None]: no node has the source's address. *)
Definition switchNodeFor (t : topology) (src : AddrPort) : option gostring :=
  let n := switch_node t src (upstreamNames t) [] in
  if bool_decide (n = []) then None else Some n.

(** *** Registrations at carriers *)

Record carrierBinding := mkCB { cb_token : gostring; cb_carrier : gostring; cb_node : gostring; cb_contact : Uri; cb_expires : Z }.

Abbreviation carrierRegTable := (gmap gostring carrierBinding).

Definition reg_put (b : carrierBinding) (t : carrierRegTable) : carrierRegTable := <[cb_token b := b]> t.
Definition reg_remove (token : gostring) (t : carrierRegTable) : carrierRegTable := delete token t.
Definition reg_removeNode (carrier node : gostring) (t : carrierRegTable) : carrierRegTable :=
  filter (fun kb : gostring * carrierBinding => negb (beq (cb_carrier kb.2) carrier && beq (cb_node kb.2) node) = true) t.
Definition reg_lookup (now : Z) (token : gostring) (t : carrierRegTable) : option carrierBinding :=
  match t !! token with
  | Some b => if negb (time_before now (cb_expires b)) then None else Some b
  | None => None
  end.
Definition reg_prune (now : Z) (t : carrierRegTable) : Z * carrierRegTable :=
  let t' := filter (fun kb : gostring * carrierBinding => time_before now (cb_expires kb.2) = true) t in
  (Z.of_nat (size t) - Z.of_nat (size t'), t').
Definition reg_counts (now : Z) (carriers : list gostring) (t : carrierRegTable) : gmap gostring Z :=
  map_fold (fun _ b m => if time_before now (cb_expires b) then <[cb_carrier b := default 0 (m !! cb_carrier b) + 1]> m else m)
    (list_to_map (map (fun n => (n, 0)) carriers)) t.

Definition carrierToken (node contact : gostring) : gostring :=
  to_lower (take 26 (b32_encode (Sum256 (node ++ [10] ++ contact)))).

Definition carrierContactURI (pub : side) (user token : gostring) : Uri :=
  let params := ParamAdd contactTokenParam token NewParams in
  let params := if negb (beq (sd_transport pub) (str "udp")) then ParamAdd (str "transport") (sd_transport pub) params else params in
  mkUri user (host pub) (sd_advPort pub) (Some params) false.

(** What registerToCarrier sends, and what it keeps for the answer. *)
Record carrierReg := mkCReg {
  cr_out : request; cr_carrier : gostring; cr_node : gostring; cr_wildcard : bool; cr_contact : option Uri;
  cr_requested : Z; cr_unregister : bool; cr_token : gostring
}.

(** The Contact toward the carrier: the switch's, its address replaced. *)
Definition carrier_contact (pub : side) (node : gostring) (wildcard : bool) (req : request) (out : list header)
    : gostring * list header :=
  match GetHeaders (str "Contact") (rq_headers req) with
  | HContact c :: _ =>
      let '(token, c) := match ContactURI (rq_headers req) with
                         | Some orig => if negb wildcard
                                        then let token := carrierToken node (UriString orig) in
                                             (token, mkNameAddr (carrierContactURI pub (u_user orig) token) (na_params c))
                                        else ([], c)
                         | None => ([], c)
                         end in
      (token, AppendHeader (HContact c) (RemoveHeaders (str "Contact") out))
  | _ => ([], out)
  end.

(** [inl]: the status it is refused with. *)
Definition registerToCarrier (t : topology) (snap : carrierSnapshot) (byName : gmap gostring Carrier) (req : request)
    (src : AddrPort) (carrier branch : gostring) : Z + carrierReg :=
  match carrierDest snap carrier with
  | None => inl 503
  | Some dest =>
      match carrierSide t byName carrier, switchNodeFor t src with
      | Some pub, Some node =>
          let wildcard := hasWildcardContact (rq_headers req) in
          let '(requested, unregister) := requestedExpires Value (rq_headers req) in
          if wildcard && (negb unregister || negb (len (GetHeaders (str "Contact") (rq_headers req)) =? 1)) then inl 400
          else match prepareForwardHidden Value ToLower t req (private t) pub dest false branch with
               | None => inl 483
               | Some out =>
                   let '(token, hs) := carrier_contact pub node wildcard req (rq_headers out) in
                   inr (mkCReg (mkRequest (rq_method out) (rq_recipient out) (rq_version out) (rq_laddr out) (set_headers hs (rq_msg out)))
                          carrier node wildcard (ContactURI (rq_headers req)) requested unregister token)
               end
      | _, _ => inl 503
      end
  end.

(** A URI that carries the token. *)
Definition has_token (token : gostring) (u : Uri) : bool :=
  match pget contactTokenParam (u_params u) with Some t => beq t token | None => false end.

(** What the answer does to the table and to its own Contact. *)
Definition carrierRegistered (now : Z) (r : carrierReg) (relayed : response) (tab : carrierRegTable)
    : response * carrierRegTable :=
  if negb (Z.quot (rs_status relayed) 100 =? 2) then (relayed, tab)
  else if cr_wildcard r then
    (mkResponse (rs_status relayed) (set_headers (RemoveHeaders (str "Contact") (rs_headers relayed)) (rs_msg relayed)),
     reg_removeNode (cr_carrier r) (cr_node r) tab)
  else match cr_contact r with
       | None => (relayed, tab)
       | Some orig =>
           let granted := GrantedExpires Value relayed (cr_requested r) (has_token (cr_token r)) in
           let gone := cr_unregister r || (granted <=? 0) in
           let secs := if gone then 0 else Z.quot granted second in
           (mkResponse (rs_status relayed) (set_headers (restoreContact orig secs (rs_headers relayed)) (rs_msg relayed)),
            if gone then reg_remove (cr_token r) tab
            else reg_put (mkCB (cr_token r) (cr_carrier r) (cr_node r) orig (time_add now granted)) tab)
       end.

Definition carrierRURI (now : Z) (t : topology) (tab : carrierRegTable) (req : request) : option carrierBinding :=
  match tokenOf (rq_recipient req) with
  | None => None
  | Some tok =>
      match reg_lookup now tok tab with
      | Some b => if bool_decide (is_Some (upstreams t !! cb_node b)) then Some b else None
      | None => None
      end
  end.

(** hide.go: the Request-URI of a carrier's request that has no dialog. *)
Definition restoreCarrierRURI (now : Z) (t : topology) (loc : Location.Location) (snap : carrierSnapshot) (tab : carrierRegTable)
    (req : request) (src : option AddrPort) (out : request) : request :=
  match carrierFallback now loc snap req src with
  | None => out
  | Some _ => match carrierRURI now t tab req with
              | Some b => mkRequest (rq_method out) (cb_contact b) (rq_version out) (rq_laddr out) (rq_msg out)
              | None => out
              end
  end.
End Carrier.

Abbreviation carrierRegTable := (gmap gostring carrierBinding).

(** ** Where the switch can send *)

Lemma carrierURIs_lookup l : forall (m : gmap gostring gostring) k n,
  fold_left (fun m c => <[carrierKey (c_host c) (c_port c) := c_name c]> m) l m !! k = Some n ->
  (exists c, c ∈ l /\ carrierKey (c_host c) (c_port c) = k /\ c_name c = n) \/
  (m !! k = Some n /\ forall c, c ∈ l -> carrierKey (c_host c) (c_port c) <> k).
Proof.
  induction l as [|c l IH]; intros m k n; cbn [fold_left]; [intros H; right; split; [done|]; by intros c ?%elem_of_nil|].
  intros H. apply IH in H as [(d & Hd & H)|[H Hn]]; [left; exists d; split; [by right|done]|].
  destruct (decide (carrierKey (c_host c) (c_port c) = k)) as [E|E].
  - rewrite E, lookup_insert_eq in H. injection H as H. left. exists c. split; [by left|done].
  - rewrite lookup_insert_ne in H by done. right. split; [done|]. intros d [->|Hd]%elem_of_cons; [done|by apply Hn].
Qed.

Lemma carrierURIs_none l : forall (m : gmap gostring gostring) k,
  fold_left (fun m c => <[carrierKey (c_host c) (c_port c) := c_name c]> m) l m !! k = None ->
  m !! k = None /\ forall c, c ∈ l -> carrierKey (c_host c) (c_port c) <> k.
Proof.
  induction l as [|c l IH]; intros m k; cbn [fold_left]; [intros H; split; [done|]; by intros c ?%elem_of_nil|].
  intros H. apply IH in H as [H Hn]. destruct (decide (carrierKey (c_host c) (c_port c) = k)) as [E|E].
  - by rewrite E, lookup_insert_eq in H.
  - rewrite lookup_insert_ne in H by done. split; [done|]. intros d [->|Hd]%elem_of_cons; [done|by apply Hn].
Qed.

(** *** The key of an entry *)

Lemma trim_dot_app h x : trim_dot (h ++ [x]) = if x =? 46 then h else h ++ [x].
Proof.
  unfold trim_dot. rewrite rev_app_distr. change (rev [x] ++ rev h) with (x :: rev h). destruct (x =? 46) eqn:E.
  - apply Z.eqb_eq in E as ->. apply rev_involutive.
  - destruct x as [|p|p]; [done| |done]. do 6 (destruct p as [p|p|]; try done).
Qed.

Lemma trim_dot_lower h : to_lower (trim_dot h) = trim_dot (to_lower h).
Proof.
  destruct h as [|x h _] using rev_ind; [done|]. rewrite to_lower_app. change (to_lower [x]) with [lower_byte x].
  rewrite !trim_dot_app. assert ((lower_byte x =? 46) = (x =? 46)) as -> by (unfold lower_byte; case_if; lia).
  destruct (x =? 46); [done|]. by rewrite to_lower_app.
Qed.

Lemma last_colon a p a' p' : 58 ∉ p -> 58 ∉ p' -> a ++ 58 :: p = a' ++ 58 :: p' -> a = a' /\ p = p'.
Proof.
  intros Hp Hp' E. apply (f_equal (@rev Z)) in E. rewrite !rev_app_distr in E. cbn [rev] in E. rewrite <- !app_assoc in E. cbn [app] in E.
  assert (K : forall x y u v : list Z, 58 ∉ x -> 58 ∉ y -> x ++ 58 :: u = y ++ 58 :: v -> x = y /\ u = v).
  { induction x as [|c x IH]; intros [|d y] u v Hx Hy; cbn.
    - by intros [= ->].
    - intros [= <- _]. exfalso. apply Hy. by left.
    - intros [= -> _]. exfalso. apply Hx. by left.
    - intros [= -> H]. destruct (IH y u v) as [-> ->]; [set_solver|set_solver|done|done]. }
  destruct (K (rev p) (rev p') (rev a) (rev a')) as [E1 E2]; [by rewrite list_elem_of_In, <- in_rev, <- list_elem_of_In|by rewrite list_elem_of_In, <- in_rev, <- list_elem_of_In|done|].
  split; [rewrite <- (rev_involutive a), E2; apply rev_involutive|rewrite <- (rev_involutive p), E1; apply rev_involutive].
Qed.

Lemma itoa_no_colon n : 0 <= n < 10 ^ 64 -> 58 ∉ itoa n.
Proof.
  intros H Hin. destruct (itoa_spec n H) as (_ & Hd & _). rewrite forallb_forall in Hd. apply list_elem_of_In, Hd in Hin. done.
Qed.

Lemma join_host_port_inj h p h' p' : 0 <= p <= max_int64 -> 0 <= p' <= max_int64 ->
  join_host_port h (int_string p) = join_host_port h' (int_string p') -> h = h' /\ p = p'.
Proof.
  intros Hp Hp' E. unfold int_string in E. replace (p <? 0) with false in E by lia. replace (p' <? 0) with false in E by lia.
  assert (Hb : max_int64 < 10 ^ 64) by (vm_compute; reflexivity).
  assert (Hn : 58 ∉ itoa p) by (apply itoa_no_colon; lia). assert (Hn' : 58 ∉ itoa p') by (apply itoa_no_colon; lia).
  assert (K : (if mem 58 h then str "[" ++ h ++ str "]" else h) = (if mem 58 h' then str "[" ++ h' ++ str "]" else h') /\ itoa p = itoa p').
  { apply last_colon; [done..|]. unfold join_host_port in E. destruct (mem 58 h), (mem 58 h'); rewrite <- ?app_assoc; exact E. }
  destruct K as [K1 K2]. apply (f_equal atoi) in K2. rewrite !atoi_itoa in K2 by done. injection K2 as ->. split; [|done].
  assert (M : forall x, mem 58 (str "[" ++ x ++ str "]") = mem 58 x).
  { intros x. unfold mem. rewrite !existsb_app. change (existsb (Z.eqb 58) (str "[")) with false. change (existsb (Z.eqb 58) (str "]")) with false. by rewrite orb_false_r. }
  destruct (mem 58 h) eqn:A, (mem 58 h') eqn:B.
  - apply app_inv_head in K1. by apply app_inv_tail in K1.
  - rewrite <- K1, M in B. congruence.
  - rewrite K1, M in A. congruence.
  - done.
Qed.

(** The host of a key, and its port. *)
Definition key_host (h : gostring) : gostring :=
  let h := to_lower (trim_dot h) in match parse_addr h with Some a => addr_string (unmap a) | None => h end.
Definition key_port (p : Z) : Z := if p =? 0 then 5060 else p.

Section CarrierProofs.
Context `{SP : SipParams}.

(** C28: The proxy is no open relay for its switch.  A request of the switch
    outside any dialog (those that [classifySwitchRequest] is asked about; one
    inside a dialog goes where the dialog's record says) goes to a carrier only
    when the host and port of its Request-URI are those of a configured entry
    (case, a trailing dot, the default port and the spelling of an address apart,
    and nothing else: with ports from 0 to the largest integer, another host or
    port is another key), to a client only when its Request-URI or first foreign
    Route carries a token, to the proxy itself only when it names it; everything
    else is addressed to nothing.  Who is registered plays no part. *)
Theorem switch_is_no_open_relay t l req k name :
  classifySwitchRequest t (carrierURIsOf l) req = (k, name) ->
  let u := rq_recipient req in
  let matches c := key_host (c_host c) = key_host (u_host u) /\ key_port (c_port c) = key_port (u_port u) in
  let named_client := is_Some (tokenOf u) \/ exists r, firstForeignRoute t (rq_headers req) = Some r /\ is_Some (tokenOf r) in
  0 <= u_port u <= max_int64 -> (forall c, c ∈ l -> 0 <= c_port c <= max_int64) ->
  match k with
  | targetClient => named_client
  | targetCarrier => ~ named_client /\ exists c, c ∈ l /\ c_name c = name /\ matches c
  | targetSelf => ~ named_client /\ isSelf t u = true /\ forall c, c ∈ l -> ~ matches c
  | targetNotFound => ~ named_client /\ isSelf t u = false /\ forall c, c ∈ l -> ~ matches c
  end.
Proof.
  intros H. cbv zeta. intros Hu Hl. unfold classifySwitchRequest in H.
  assert (Hkey : forall c, c ∈ l -> carrierKey (c_host c) (c_port c) = carrierKey (u_host (rq_recipient req)) (u_port (rq_recipient req)) <->
     key_host (c_host c) = key_host (u_host (rq_recipient req)) /\ key_port (c_port c) = key_port (u_port (rq_recipient req))).
  { intros c Hc. specialize (Hl c Hc). unfold carrierKey. fold (key_host (c_host c)) (key_host (u_host (rq_recipient req))).
    change DefaultCarrierPort with 5060. fold (key_port (c_port c)) (key_port (u_port (rq_recipient req))).
    split; [|by intros [-> ->]]. intros E. apply join_host_port_inj in E; [done|..]; unfold key_port, max_int64, two63 in *; case_if; lia. }
  case_bool_decide as H1; [injection H as <- <-; by left|].
  destruct (match firstForeignRoute t (rq_headers req) with Some r => bool_decide (is_Some (tokenOf r)) | None => false end) eqn:H2.
  { injection H as <- <-. right. destruct (firstForeignRoute _ _) as [r|]; [|done]. exists r. split; [done|]. by breflect. }
  assert (Hn : ~ (is_Some (tokenOf (rq_recipient req)) \/ exists r, firstForeignRoute t (rq_headers req) = Some r /\ is_Some (tokenOf r))).
  { intros [?|(r & Hr & Ht)]; [done|]. rewrite Hr in H2. by breflect. }
  destruct (carrierURIsOf l !! _) as [n|] eqn:E.
  - injection H as <- <-. split; [done|]. apply carrierURIs_lookup in E as [(c & Hc & Hk & Hname)|[E _]]; [|by rewrite lookup_empty in E].
    exists c. split; [done|]. split; [done|]. by apply Hkey.
  - apply carrierURIs_none in E as [_ E]. assert (Hm : forall c, c ∈ l -> ~ (key_host (c_host c) = key_host (u_host (rq_recipient req)) /\
      key_port (c_port c) = key_port (u_port (rq_recipient req)))) by (intros c Hc M; apply (E c Hc); by apply Hkey).
    destruct (isSelf t (rq_recipient req)) eqn:S; injection H as <- <-; done.
Qed.

(** *** The node a request came from *)

Definition node_addr (t : topology) (n : gostring) : AddrPort :=
  match upstreams t !! n with Some e => ep_addr e | None => ap_zero end.

Definition node_here (t : topology) (src : AddrPort) (n : gostring) : bool :=
  addr_eqb (unmap (ap_addr (node_addr t n))) (unmap (ap_addr src)).

Lemma switch_node_spec t src l : forall first,
  switch_node t src l first =
  match List.find (fun n => node_here t src n && (ap_port (node_addr t n) =? ap_port src)) l with
  | Some n => n
  | None => if bool_decide (first = []) then default [] (List.find (fun n => node_here t src n && negb (bool_decide (n = []))) l) else first
  end.
Proof.
  induction l as [|n l IH]; intros first; cbn [switch_node List.find]; [by case_bool_decide|].
  fold (node_addr t n). fold (node_here t src n). destruct (node_here t src n); cbn [negb andb]; [|apply IH].
  destruct (ap_port (node_addr t n) =? ap_port src); [done|]. rewrite IH. destruct (List.find _ l); [done|].
  destruct (bool_decide (first = [])) eqn:E1; cbn [negb]; [|by rewrite E1].
  destruct (bool_decide (n = [])) eqn:E2; cbn [negb andb]; done.
Qed.

(** A found node is one of the topology's, at the source's address. *)
Lemma switchNodeFor_at t src n : switchNodeFor t src = Some n -> n ∈ upstreamNames t /\ node_here t src n = true /\
  ((exists m, m ∈ upstreamNames t /\ node_here t src m = true /\ ap_port (node_addr t m) = ap_port src) ->
   ap_port (node_addr t n) = ap_port src).
Proof.
  unfold switchNodeFor. rewrite switch_node_spec. cbv zeta. intros H. case_bool_decide as Hne; [done|]. injection H as H.
  destruct (List.find _ (upstreamNames t)) as [m|] eqn:E.
  - apply find_some in E as [Hin E]. subst m. apply andb_true_iff in E as [E1 E2]. split; [by apply list_elem_of_In|]. split; [done|]. lia.
  - cbn in H. destruct (List.find (fun n => node_here t src n && negb _) _) as [m|] eqn:E'; [|by subst n].
    cbn in H. subst m. apply find_some in E' as [Hin E']. apply andb_true_iff in E' as [E1 _]. split; [by apply list_elem_of_In|].
    split; [done|]. intros (m & Hm & H1 & H2). pose proof (find_none _ _ E m (proj1 (list_elem_of_In _ _) Hm)) as K.
    cbn in K. rewrite H1 in K. lia.
Qed.
End CarrierProofs.

(** ** The table of registrations *)

Section Registrations.
Context `{SP : SipParams}.

Inductive reg_op :=
  | RPut (b : carrierBinding)
  | RRemove (token : gostring)
  | RRemoveNode (carrier node : gostring)
  | RPrune (now : Z).

Definition reg_step (t : carrierRegTable) (o : reg_op) : carrierRegTable :=
  match o with
  | RPut b => reg_put b t
  | RRemove token => reg_remove token t
  | RRemoveNode carrier node => reg_removeNode carrier node t
  | RPrune now => (reg_prune now t).2
  end.

(** What the operations say of one token, one after the other; pruning says
    nothing. *)
Definition says (token : gostring) (b : option carrierBinding) (o : reg_op) : option carrierBinding :=
  match o with
  | RPut b' => if bool_decide (cb_token b' = token) then Some b' else b
  | RRemove token' => if bool_decide (token' = token) then None else b
  | RRemoveNode carrier node =>
      match b with Some b' => if beq (cb_carrier b') carrier && beq (cb_node b') node then None else Some b' | None => None end
  | RPrune _ => b
  end.

Definition before (t : Z) (o : reg_op) : Prop := match o with RPrune now => now <= t | _ => True end.

(** The table holds what is said of a token, or nothing when that expired. *)
Definition holds (now : Z) (t : carrierRegTable) (said : gostring -> option carrierBinding) : Prop :=
  forall token, t !! token = said token \/
    (t !! token = None /\ exists b, said token = Some b /\ cb_expires b <= now).

Lemma reg_step_holds now t said o : before now o -> holds now t said ->
  holds now (reg_step t o) (fun token => says token (said token) o).
Proof.
  intros Hb H token. destruct o as [b|tok|c n|tm]; cbn [reg_step says].
  - unfold reg_put. case_bool_decide as E; [subst; left; by rewrite lookup_insert_eq|]. rewrite lookup_insert_ne by done. apply H.
  - unfold reg_remove. case_bool_decide as E; [subst; left; by rewrite lookup_delete_eq|]. rewrite lookup_delete_ne by done. apply H.
  - unfold reg_removeNode. destruct (H token) as [E|(E & b & Eb & Hx)].
    + left. rewrite map_lookup_filter, E. destruct (said token) as [b|]; [|done]. cbn.
      destruct (beq (cb_carrier b) c && beq (cb_node b) n); cbn; [by rewrite option_guard_False|by rewrite option_guard_True].
    + rewrite map_lookup_filter, E, Eb. cbn. destruct (_ && _); [by left|]. right. split; [done|]. by exists b.
  - cbn [reg_prune snd]. rewrite map_lookup_filter. destruct (H token) as [E|(E & b & Eb & Hx)].
    + rewrite E. destruct (said token) as [b|]; [|by left]. cbn. unfold time_before.
      destruct (decide ((tm <? cb_expires b) = true)) as [D|D].
      * left. by rewrite option_guard_True.
      * right. rewrite option_guard_False by done. split; [done|]. exists b. split; [done|]. cbn in Hb. lia.
    + rewrite E. right. split; [done|]. by exists b.
Qed.

(** the table refines the record of what each answer of a carrier
    said: after any sequence of registrations, removals, node-wide removals and
    prunings up to now, a token resolves to the binding last put under it, if
    nothing removed it since and it has not expired, and to nothing otherwise;
    when the table is pruned makes no difference. *)
Theorem registrations_follow_the_answers now os token :
  Forall (before now) os ->
  reg_lookup now token (run_ops reg_step ∅ os) =
  match fold_left (says token) os None with
  | Some b => if time_before now (cb_expires b) then Some b else None
  | None => None
  end.
Proof.
  intros Hb.
  assert (K : forall os t said, Forall (before now) os -> holds now t said ->
     holds now (run_ops reg_step t os) (fun tok => fold_left (says tok) os (said tok))).
  { clear. induction os as [|o os IH]; intros t said Ho H; [done|]. apply Forall_cons in Ho as [Ho Hos].
    cbn [run_ops fold_left]. apply (IH (reg_step t o) (fun tok => says tok (said tok) o)); [done|]. by apply reg_step_holds. }
  specialize (K os ∅ (fun _ => None) Hb). unfold reg_lookup.
  destruct (K (fun tok => or_introl (lookup_empty tok)) token) as [->|(-> & b & -> & Hx)].
  - destruct (fold_left _ _ _) as [b|]; [|done]. by destruct (time_before now (cb_expires b)).
  - unfold time_before. replace (now <? cb_expires b) with false by lia. done.
Qed.
End Registrations.

(** ** The token *)

Lemma carrierToken_length node contact : len (carrierToken node contact) = 26.
Proof.
  unfold carrierToken, len. rewrite to_lower_length, length_take, b32_encode_length, Sum256_length. reflexivity.
Qed.

Section Lookups.
Context `{SP : SipParams} `{SPL : !SipParamsLaws}.

Lemma token_of_contact pub user token : 0 < len token <= 64 -> tokenOf (carrierContactURI pub user token) = Some token.
Proof.
  intros H. unfold tokenOf, carrierContactURI. cbn [u_params].
  assert (E : ParamGet contactTokenParam
     (if negb (beq (sd_transport pub) (str "udp")) then ParamAdd (str "transport") (sd_transport pub) (ParamAdd contactTokenParam token NewParams)
      else ParamAdd contactTokenParam token NewParams) = Some token).
  { case_if; [rewrite param_get_other by reflexivity|]; apply param_get_add. }
  rewrite E, bool_decide_eq_false_2 by (intros Hz; rewrite Hz in H; unfold len in H; cbn in H; lia). by replace (64 <? len token) with false by lia.
Qed.

Lemma token_of_registered t user token : 0 < len token <= 64 -> tokenOf (registeredContact t user token) = Some token.
Proof.
  intros H. unfold tokenOf, registeredContact. cbn [u_params]. rewrite param_get_add.
  rewrite bool_decide_eq_false_2 by (intros Hz; rewrite Hz in H; unfold len in H; cbn in H; lia). by replace (64 <? len token) with false by lia.
Qed.

(** a client is reached through the Contact registered for it and
    through nothing else: a request to that Contact finds the binding its token
    names while it is live; a binding found is always one named by the token of
    the Request-URI or of the first foreign Route, never by its address of
    record. *)
Theorem clients_are_reached_by_token now t loc req :
  (forall user token b, rq_recipient req = registeredContact t user token -> 0 < len token <= 64 ->
     Location.ByToken now token loc = Some b -> bindingForRequest now t loc req = Some b) /\
  (forall b, bindingForRequest now t loc req = Some b ->
     exists u token, (u = rq_recipient req \/ firstForeignRoute t (rq_headers req) = Some u) /\
       tokenOf u = Some token /\ Location.ByToken now token loc = Some b) /\
  (forall b, clientRequestURI b = mkUri (Location.User b) (addr_string (ap_addr (Location.Source b))) (ap_port (Location.Source b))
     (u_params (clientRequestURI b)) false).
Proof.
  split; [|split; [|done]].
  - intros user token b E Hl Hb. unfold bindingForRequest. rewrite E, token_of_registered by done. cbv zeta. by rewrite Hb.
  - intros b. unfold bindingForRequest. cbv zeta. destruct (tokenOf (rq_recipient req)) as [tok|] eqn:E1.
    + destruct (Location.ByToken now tok loc) as [b'|] eqn:E2.
      * intros [= <-]. exists (rq_recipient req), tok. split; [by left|done].
      * destruct (firstForeignRoute t (rq_headers req)) as [r|] eqn:Er; [|done]. destruct (tokenOf r) as [tok'|] eqn:E3; [|done].
        intros H. exists r, tok'. split; [by right|done].
    + destruct (firstForeignRoute t (rq_headers req)) as [r|] eqn:Er; [|done]. destruct (tokenOf r) as [tok'|] eqn:E3; [|done].
      intros H. exists r, tok'. split; [by right|done].
Qed.

End Lookups.

Section Tokens.
Context `{SP : SipParams} `{SPL : !SipParamsLaws} `{SH : !SipHeaders} `{SHL : !SipHeadersLaws}.
Context (Value : header -> gostring) (NetworkToLower ToLower : gostring -> gostring) (UriString : Uri -> gostring).

(** What a refusal or a plan of registerToCarrier consists of. *)
Lemma registerToCarrier_spec t snap byName req src carrier branch r :
  registerToCarrier Value ToLower UriString t snap byName req src carrier branch = inr r ->
  exists dest pub node out hs, carrierDest snap carrier = Some dest /\ carrierSide t byName carrier = Some pub /\
    switchNodeFor t src = Some node /\
    prepareForwardHidden Value ToLower t req (private t) pub dest false branch = Some out /\
    carrier_contact UriString pub node (cr_wildcard r) req (rq_headers out) = (cr_token r, hs) /\
    rq_headers (cr_out r) = hs /\ rq_recipient (cr_out r) = rq_recipient out /\ cr_carrier r = carrier /\ cr_node r = node /\
    cr_contact r = ContactURI (rq_headers req) /\ cr_wildcard r = hasWildcardContact (rq_headers req).
Proof.
  unfold registerToCarrier. destruct (carrierDest snap carrier) as [dest|]; [|done].
  destruct (carrierSide t byName carrier) as [pub|]; [|done]. destruct (switchNodeFor t src) as [node|]; [|done].
  cbv zeta. destruct (requestedExpires Value (rq_headers req)) as [q u]. case_if; [done|].
  destruct (prepareForwardHidden _ _ _ _ _ _ _ _ _) as [out|] eqn:Ep; [|done].
  destruct (carrier_contact _ _ _ _ _ _) as [token hs] eqn:Ec. intros [= <-].
  exists dest, pub, node, out, hs. done.
Qed.

Lemma carrier_contact_one pub node req out orig c rest :
  GetHeaders (str "Contact") (rq_headers req) = HContact c :: rest -> na_uri c = orig ->
  carrier_contact UriString pub node false req out =
  (carrierToken node (UriString orig),
   AppendHeader (HContact (mkNameAddr (carrierContactURI pub (u_user orig) (carrierToken node (UriString orig))) (na_params c)))
     (RemoveHeaders (str "Contact") out)).
Proof. intros H E. unfold carrier_contact, ContactURI. rewrite H, E. done. Qed.

(** the switch's registration at a carrier works both ways.  The
    carrier is given one Contact, at the proxy's public address, that carries a
    token and nothing of the switch's own; when it grants the registration, a
    request it later sends to that Contact resolves, until the grant runs out
    and as long as no other answer changes that token, to the node that
    registered, with the switch's own Contact as its Request-URI; and the
    switch reads its own Contact in the answer. *)
Theorem carrier_calls_find_their_node t snap byName req src carrier branch r c rest now res now' later tab0 :
  (forall n, n ∈ upstreamNames t -> is_Some (upstreams t !! n)) ->
  registerToCarrier Value ToLower UriString t snap byName req src carrier branch = inr r ->
  GetHeaders (str "Contact") (rq_headers req) = HContact c :: rest -> cr_wildcard r = false ->
  let answer := carrierRegistered Value now r res tab0 in
  let granted := GrantedExpires Value res (cr_requested r) (has_token (cr_token r)) in
  Z.quot (rs_status res) 100 = 2 -> cr_unregister r = false -> 0 < granted ->
  contacts (rs_headers (answer.1)) = [na_uri c] /\
  exists u, contacts (rq_headers (cr_out r)) = [u] /\ tokenOf u = Some (cr_token r) /\ u_user u = u_user (na_uri c) /\
    (exists pub, carrierSide t byName carrier = Some pub /\ u_host u = host pub /\ u_port u = sd_advPort pub) /\
    (rq_recipient later = u -> now' < now + granted -> exists b, carrierRURI now' t answer.2 later = Some b /\
       cb_contact b = na_uri c /\ cb_carrier b = carrier /\ switchNodeFor t src = Some (cb_node b)).
Proof.
  intros Hpool Hr Hc Hw. cbv zeta. intros Hs Hu Hg.
  apply registerToCarrier_spec in Hr as (dest & pub & node & out & hs & Hd & Hpub & Hn & _ & Hcc & Hh & _ & Hcar & Hnode & Hcon & _).
  rewrite Hw in Hcc. rewrite (carrier_contact_one pub node req (rq_headers out) (na_uri c) c rest Hc eq_refl) in Hcc.
  injection Hcc as Htok Hhs. assert (Hlen : 0 < len (cr_token r) <= 64) by (rewrite <- Htok, carrierToken_length; lia).
  assert (Hco : cr_contact r = Some (na_uri c)) by (by rewrite Hcon; unfold ContactURI; rewrite Hc).
  unfold carrierRegistered. rewrite Hs, Hw, Hco, Hu. cbn [negb Z.eqb Pos.eqb orb].
  replace (GrantedExpires Value res (cr_requested r) (has_token (cr_token r)) <=? 0) with false by lia. cbn [fst snd]. split.
  { unfold rs_headers, restoreContact. cbn [rs_msg set_headers m_headers]. by rewrite append_last, contacts_app, contacts_removed. }
  exists (carrierContactURI pub (u_user (na_uri c)) (cr_token r)). rewrite Hh, <- Hhs, append_last, contacts_app, contacts_removed, Htok.
  split; [done|]. split; [by apply token_of_contact|]. split; [done|]. split; [by exists pub|].
  intros Hl Ht. unfold carrierRURI. rewrite Hl, token_of_contact by done. unfold reg_lookup, reg_put. cbn [cb_token].
  rewrite lookup_insert_eq. cbn [cb_expires]. unfold time_before, time_add.
  replace (now' <? now + GrantedExpires Value res (cr_requested r) (has_token (cr_token r))) with true by lia. cbn [negb cb_node].
  rewrite Hnode, bool_decide_eq_true_2.
  - eexists. split; [done|]. cbn. rewrite Hn. done.
  - apply Hpool. by apply (switchNodeFor_at t src).
Qed.
End Tokens.

(** ** Witnesses *)

#[local] Existing Instance ListImpl.list_params.
#[local] Existing Instance ListImpl.list_params_laws.
#[local] Existing Instance ListImpl.list_headers.
#[local] Existing Instance ListImpl.list_headers_laws.

Definition demo_carrier : Carrier := mkCarrier (str "acme") (str "sip.acme.example") 5060 false AddrZero (str "udp").

Definition demo_carrier_call : request :=
  mkRequest (str "INVITE") (mkUri (str "491234") (str "SIP.Acme.example.") 0 None false) (str "SIP/2.0") None
    (mkMsg (@nil header) (@nil Z) (str "UDP") (@nil Z) (str "10.0.0.11:5060")).

Lemma switch_is_no_open_relay_witness :
  classifySwitchRequest demo_topology (carrierURIsOf [demo_carrier]) demo_carrier_call = (targetCarrier, str "acme") /\
  exists c, c ∈ [demo_carrier] /\ c_name c = str "acme".
Proof.
  assert (H : classifySwitchRequest demo_topology (carrierURIsOf [demo_carrier]) demo_carrier_call = (targetCarrier, str "acme"))
    by (vm_compute; reflexivity).
  split; [exact H|].
  destruct (switch_is_no_open_relay demo_topology [demo_carrier] demo_carrier_call targetCarrier (str "acme") H) as [_ (c & Hc & Hn & _)].
  - cbn. unfold max_int64, two63. lia.
  - intros c ->%list_elem_of_singleton. cbn. unfold max_int64, two63. lia.
  - exists c. split; [exact Hc|exact Hn].
Defined.

Definition demo_binding : carrierBinding := mkCB (str "tok") (str "acme") (str "10.0.0.11:5060") no_uri 100.

Lemma registrations_follow_the_answers_witness :
  reg_lookup 50 (str "tok") (run_ops reg_step ∅ [RPut demo_binding; RPrune 40]) = Some demo_binding.
Proof.
  rewrite (registrations_follow_the_answers 50 [RPut demo_binding; RPrune 40] (str "tok")).
  - vm_compute. reflexivity.
  - repeat constructor. cbn. lia.
Defined.

Lemma clients_are_reached_by_token_witness :
  let loc := (Location.Put 5 (str "t1") (Location.mkBinding (@nil Z) (str "bob@x") (str "bob") (str "udp")
               (mkAddrPort (ip4 198 51 100 7) 4000) 100 (str "c1")) Location.NewLocation).2 in
  let req := mkRequest (str "INVITE") (registeredContact demo_topology (str "bob") (str "t1")) (str "SIP/2.0") None
               (mkMsg (@nil header) (@nil Z) (str "UDP") (@nil Z) (@nil Z)) in
  Location.User <$> bindingForRequest 50 demo_topology loc req = Some (str "bob").
Proof.
  cbv zeta. set (loc := (Location.Put _ _ _ _).2). set (req := mkRequest _ _ _ _ _).
  destruct (Location.ByToken 50 (str "t1") loc) as [b|] eqn:E; [|vm_compute in E; discriminate].
  destruct (clients_are_reached_by_token 50 demo_topology loc req) as [H _].
  rewrite (H (str "bob") (str "t1") b eq_refl ltac:(vm_compute; split; congruence) E).
  vm_compute in E. injection E as <-. reflexivity.
Defined.

(** The switch registers its gateway, and the carrier calls back. *)
Definition demo_gateway : Uri := mkUri (str "gw+acme") (str "10.0.0.11") 5080 None false.

Definition demo_snapshot : carrierSnapshot :=
  mkSnap [str "acme"] {[ str "acme" := [mkAddrPort (ip4 198 51 100 99) 5060] ]} [] [] {[ str "acme" := str "udp" ]}.

Definition demo_register : request :=
  mkRequest (str "REGISTER") (mkUri (@nil Z) (str "sip.acme.example") 0 None false) (str "SIP/2.0") None
    (mkMsg [HVia demo_via; HContact (mkNameAddr demo_gateway (Some [(str "expires", str "300")]))]
       (@nil Z) (str "UDP") (@nil Z) (str "10.0.0.11:5060")).

Definition demo_plan : Z + carrierReg :=
  registerToCarrier hide_text to_lower (fun u => u_user u ++ str "@" ++ u_host u) demo_topology demo_snapshot
    (carrierByName [demo_carrier]) demo_register (mkAddrPort (ip4 10 0 0 11) 5060) (str "acme") (str "z9hG4bKr").

Definition demo_creg : carrierReg :=
  match demo_plan with inr r => r | inl _ => mkCReg demo_register (@nil Z) (@nil Z) false None 0 false (@nil Z) end.

Lemma carrier_calls_find_their_node_witness :
  contacts (rs_headers (carrierRegistered hide_text 1000 demo_creg (mkResponse 200 (mkMsg (@nil header) (@nil Z) (@nil Z) (@nil Z) (@nil Z))) ∅).1) = [demo_gateway] /\
  cr_node demo_creg = str "10.0.0.11:5060".
Proof.
  assert (Hr : demo_plan = inr demo_creg) by (vm_compute; reflexivity).
  split; [|vm_compute; reflexivity].
  apply (carrier_calls_find_their_node hide_text to_lower to_lower (fun u => u_user u ++ str "@" ++ u_host u) demo_topology demo_snapshot
    (carrierByName [demo_carrier]) demo_register (mkAddrPort (ip4 10 0 0 11) 5060) (str "acme") (str "z9hG4bKr") demo_creg
    (mkNameAddr demo_gateway (Some [(str "expires", str "300")])) [] 1000 _ 0 demo_register ∅).
  - intros n Hn. rewrite demo_names in Hn.
    apply list_elem_of_In in Hn as [<-|[<-|[]]]; vm_compute; by eexists.
  - exact Hr.
  - vm_compute. reflexivity.
  - vm_compute. reflexivity.
  - vm_compute. reflexivity.
  - vm_compute. reflexivity.
  - vm_compute. reflexivity.
Defined.
