(* ===== verification/Registration.v ===== *)
(** Registration (internal/edge/register.go, registerproof.go, and the part of
    regguard.go that reads the other tables).

    A public REGISTER from its arrival to its answer: the drops and refusals
    before anything is sent, the series of attempts over the switch nodes with
    the breaker of [Cooldown], the relay of each response, what the outcome
    means for the guard ([RegGuard]) and the shield, and what a 2xx may do to
    the binding table ([Location]).  The world outside, what each node answers
    and when, is a list of [attempt]s; sending is sipgo's, log lines are left
    out. *)

From S2P Require Import Prelude GoTime Netip GoText GoEncoding BanList Offenders Shield ShieldSafety Carriers Cooldown Enum.
From S2P Require Import RegGuard SipScan SipMsg SipRequest Topology Forward RegisterText Hide CarrierRoute.
From S2P Require Location Admission.

Open Scope Z_scope.

Definition registerTimeout : Z := 32 * second.
Definition registerRetryAfter : Z := 30.
Definition switchCooldown : Z := 30 * second.

Inductive bindingReject := rejectBindingNoContact | rejectBindingNoAuth | rejectBindingAuthMismatch.

#[export] Instance bindingReject_eq_dec : EqDecision bindingReject.
Proof. solve_decision. Defined.

(** The counters and the gauge of the registration metrics. *)
Record regMetrics := mkMetrics {
  authFailed : Z; bindingRejected : bindingReject -> Z; registrationFailed : Z; registered : Z;
  registrations : Z; registerUnansweredN : Z; registerBreakerRejected : Z
}.

(** The parts of a Server a REGISTER reads and writes. *)
Record regServer := mkRegServer {
  srv : Admission.Server; regGuardOf : regGuard; enumLimit : enumLimiter; upstreamCooldown : cooldownTable; metrics : regMetrics
}.

Definition set_srv x s := mkRegServer x (regGuardOf s) (enumLimit s) (upstreamCooldown s) (metrics s).
Definition set_guard x s := mkRegServer (srv s) x (enumLimit s) (upstreamCooldown s) (metrics s).
Definition set_enum x s := mkRegServer (srv s) (regGuardOf s) x (upstreamCooldown s) (metrics s).
Definition set_cool x s := mkRegServer (srv s) (regGuardOf s) (enumLimit s) x (metrics s).
Definition set_metrics x s := mkRegServer (srv s) (regGuardOf s) (enumLimit s) (upstreamCooldown s) x.

Definition set_loc (l : Location.Location) (s : regServer) : regServer :=
  set_srv (Admission.mkServer l (Admission.carriers (srv s)) (Admission.shield (srv s)) (Admission.dropped (srv s))
             (Admission.summary (srv s)) (Admission.dropWarned (srv s))) s.
Definition set_shield (sh : option ShieldSafety.plane) (s : regServer) : regServer := set_srv (Admission.set_shield sh (srv s)) s.

Definition loc_of (s : regServer) : Location.Location := Admission.loc (srv s).
Definition shield_of (s : regServer) : option ShieldSafety.plane := Admission.shield (srv s).
Definition carriers_of (s : regServer) : carrierSnapshot := Admission.carriers (srv s).

Definition count_auth_failed (s : regServer) : regServer :=
  let m := metrics s in
  set_metrics (mkMetrics (authFailed m + 1) (bindingRejected m) (registrationFailed m) (registered m) (registrations m)
                 (registerUnansweredN m) (registerBreakerRejected m)) s.
Definition count_failed (s : regServer) : regServer :=
  let m := metrics s in
  set_metrics (mkMetrics (authFailed m) (bindingRejected m) (registrationFailed m + 1) (registered m) (registrations m)
                 (registerUnansweredN m) (registerBreakerRejected m)) s.
Definition count_registered (s : regServer) : regServer :=
  let m := metrics s in
  set_metrics (mkMetrics (authFailed m) (bindingRejected m) (registrationFailed m) (registered m + 1) (registrations m)
                 (registerUnansweredN m) (registerBreakerRejected m)) s.
Definition count_unanswered (s : regServer) : regServer :=
  let m := metrics s in
  set_metrics (mkMetrics (authFailed m) (bindingRejected m) (registrationFailed m) (registered m) (registrations m)
                 (registerUnansweredN m + 1) (registerBreakerRejected m)) s.
Definition count_breaker (s : regServer) : regServer :=
  let m := metrics s in
  set_metrics (mkMetrics (authFailed m) (bindingRejected m) (registrationFailed m) (registered m) (registrations m)
                 (registerUnansweredN m) (registerBreakerRejected m + 1)) s.
Definition SetRegistrations (s : regServer) : regServer :=
  let m := metrics s in
  set_metrics (mkMetrics (authFailed m) (bindingRejected m) (registrationFailed m) (registered m) (Location.Count (loc_of s))
                 (registerUnansweredN m) (registerBreakerRejected m)) s.

(** [rejectBinding] *)
Definition rejectBinding (why : bindingReject) (s : regServer) : regServer :=
  let m := metrics s in
  set_metrics (mkMetrics (authFailed m) (fun w => if decide (w = why) then bindingRejected m w + 1 else bindingRejected m w)
                 (registrationFailed m) (registered m) (registrations m) (registerUnansweredN m) (registerBreakerRejected m)) s.

Section Registration.
Context `{SP : SipParams} `{SH : !SipHeaders}.
Context (Value : header -> gostring) (NetworkToLower ToLower : gostring -> gostring).
(** The shield's section of the configuration, the sockets it vouches for,
    edge.allow_register_auth_mismatch, and the topology. *)
Context (cfg : ShieldConfig) (vouched : gostring -> AddrPort -> bool) (allowMismatch : bool) (t : topology).

Record bindingInput := mkInput {
  in_token : gostring; in_aor : gostring; in_user : gostring; in_callID : gostring; in_transport : gostring;
  in_source : AddrPort; in_requested : Z; in_unregister : bool; in_contact : option Uri; in_wildcard : bool;
  in_head : RegisterHead
}.

Definition env_at (now : Z) (s : regServer) : env := mkEnv now cfg (isSource (carriers_of s)) vouched.

(** ** What a credential proves *)

Definition credentialMatches (i : bindingInput) : bool :=
  SipScan.Auth (in_head i) &&
  (allowMismatch || (negb (bool_decide (SipScan.User (in_head i) = [])) && equal_fold (SipScan.User (in_head i)) (in_user i))).

Definition refreshesBinding (now : Z) (ip : Addr) (aor callID : gostring) (s : regServer) : bool :=
  if bool_decide (aor = []) || bool_decide (callID = []) then false
  else existsb (fun b => beq (Location.CallID b) callID && addr_eqb (enumKey (ap_addr (Location.Source b))) (enumKey ip))
         (Location.ByAOR now aor (loc_of s)).

(** [inr]: the binding may be recorded. *)
Definition bindingProof (now : Z) (i : bindingInput) (s : regServer) : bindingReject + unit :=
  if negb (bool_decide (is_Some (in_contact i))) then inl rejectBindingNoContact
  else if credentialMatches i then inr tt
  else if refreshesBinding now (unmap (ap_addr (in_source i))) (in_aor i) (in_callID i) s then inr tt
  else if SipScan.Auth (in_head i) then inl rejectBindingAuthMismatch
  else inl rejectBindingNoAuth.

(** ** Strikes *)

Definition registerStrike (now : Z) (src : AddrPort) (head : RegisterHead) (replay : bool) (s : regServer) : bool * regServer :=
  match shield_of s with
  | None => (false, s)
  | Some _ =>
      if negb (SipScan.Auth head) then (false, s)
      else
        let ip := unmap (ap_addr src) in
        if isSource (carriers_of s) ip || refreshesBinding now ip (SipScan.AOR head) (SipScan.CallID head) s then (false, s)
        else
          let '(counts, g) := countable now ip (SipScan.Branch head) (SipScan.Nonce head) (SipScan.AuthKey head) replay (regGuardOf s) in
          let s := set_guard g s in
          if negb counts then (false, s)
          else
            let s := count_auth_failed s in
            match shield_of s with
            | None => (false, s)
            | Some sh =>
                let '(_, sh) := StrikeAOR (env_at now s) (SipScan.AOR head) sh in
                let '(banned, sh) := Strike (env_at now s) ip StrikeRegister sh in
                (banned, set_shield (Some sh) s)
            end
  end.

Definition registerLine : gostring := str "REGISTER ".

(** The read filter's hook; [src] is the datagram's source, [None] when there
    is none or it does not parse. *)
Definition registerReplayRead (now : Z) (transport : gostring) (src : option AddrPort) (data : gostring) (s : regServer)
    : bool * regServer :=
  if negb (has_prefix data registerLine) || negb (equal_fold transport (str "udp")) then (false, s)
  else
    let '(head, ok) := ScanRegister data in
    if negb ok || negb (SipScan.Auth head) then (false, s)
    else match src with
         | None => (false, s)
         | Some ap => registerStrike now ap head true s
         end.

Definition aorLockedFor (now : Z) (src : Addr) (aor : gostring) (s : regServer) : bool * regServer :=
  match shield_of s with
  | None => (false, s)
  | Some sh =>
      let '(locked, sh) := AORLocked (env_at now s) aor sh in
      let s := set_shield (Some sh) s in
      (locked && negb (isSource (carriers_of s) (unmap src)) &&
         negb (existsb (fun b => addr_eqb (enumKey (ap_addr (Location.Source b))) (enumKey (unmap src)))
                 (Location.ByAOR now aor (loc_of s))), s)
  end.

Definition refused (code : Z) : bool := (code =? 401) || (code =? 403) || (code =? 404) || (code =? 407).

Definition registerOutcome (now : Z) (i : bindingInput) (res : response) (s : regServer) : regServer :=
  let code := rs_status res in
  if Z.quot code 100 =? 2 then
    match shield_of s with
    | Some sh =>
        if credentialMatches i
        then set_shield (Some (ClearAOR (in_aor i) (ClearStrikes (ap_addr (in_source i)) StrikeAdmission
                                 (ClearStrikes (ap_addr (in_source i)) StrikeRegister sh)))) s
        else s
    | None => s
    end
  else
    let '(ns, stale) := challengeNonces Value (rs_headers res) in
    let s := if refused code && negb stale then (registerStrike now (in_source i) (in_head i) false s).2 else s in
    if (code =? 401) || (code =? 407)
    then set_guard (challenged now (ap_addr (in_source i)) (SipScan.Branch (in_head i)) ns (regGuardOf s)) s
    else s.

(** ** The binding *)

Definition existingToken (now : Z) (aor callID : gostring) (s : regServer) : gostring :=
  match List.find (fun b => beq (Location.CallID b) callID) (Location.ByAOR now aor (loc_of s)) with
  | Some b => Location.Token b
  | None => []
  end.

(** [fresh] is what fsip.NewToken would give Location.Put; the result is the
    number of seconds granted. *)
Definition recordBinding (now : Z) (fresh : gostring) (res : response) (i : bindingInput) (s : regServer) : Z * regServer :=
  if in_wildcard i then
    let l := fold_left (fun l b => (Location.Remove (in_aor i) (Location.CallID b) l).2) (Location.ByAOR now (in_aor i) (loc_of s)) (loc_of s) in
    (0, SetRegistrations (set_loc l s))
  else if negb (bool_decide (is_Some (in_contact i))) then
    (Z.quot (GrantedExpires Value res (in_requested i) (fun _ => false)) second, rejectBinding rejectBindingNoContact s)
  else
    let granted := GrantedExpires Value res (in_requested i) (has_token (in_token i)) in
    if in_unregister i || (granted <=? 0) then
      (0, SetRegistrations (set_loc (Location.Remove (in_aor i) (in_callID i) (loc_of s)).2 s))
    else
      match bindingProof now i s with
      | inl why => (Z.quot granted second, rejectBinding why s)
      | inr _ =>
          let b := Location.mkBinding (in_token i) (in_aor i) (in_user i) (in_transport i) (in_source i)
                     (time_add now granted) (in_callID i) in
          let '(r, l) := Location.Put now fresh b (loc_of s) in
          let s := set_loc l s in
          (Z.quot granted second,
           match r with
           | inr _ => count_failed s
           | inl _ => SetRegistrations (count_registered s)
           end)
      end.

(** ** One exchange with a node *)

(** What the client is sent. *)
Inductive reply := Relayed (res : response) | Rejected (code : Z) | RetryLater (code retryAfter : Z).

Definition is_final (r : reply) : bool :=
  match r with Relayed res => 200 <=? rs_status res | Rejected _ | RetryLater _ _ => true end.

(** The change to a response before it is sent on. *)
Definition adaptRegister (i : bindingInput) (granted : Z) (out : response) : response :=
  if in_wildcard i then mkResponse (rs_status out) (set_headers (RemoveHeaders (str "Contact") (rs_headers out)) (rs_msg out))
  else match in_contact i with
       | Some client => mkResponse (rs_status out) (set_headers (restoreContact client granted (rs_headers out)) (rs_msg out))
       | None => out
       end.

Definition logRegister (res : response) (s : regServer) : regServer :=
  if Z.quot (rs_status res) 100 =? 2 then s
  else if (rs_status res =? 401) || (rs_status res =? 407) then s
  else count_failed s.

(** One response; [None]: nothing was sent on for it. *)
Definition pump_response (now : Z) (fresh : gostring) (req : request) (i : bindingInput) (res : response) (s : regServer)
    : option response * regServer :=
  let final := 200 <=? rs_status res in
  let s := if final && countsAsEnumeration (rs_status res)
           then set_enum (rejected now (ap_addr (in_source i)) (in_aor i) (enumLimit s)).2 s else s in
  let s := if final then registerOutcome now i res s else s in
  match relayResponseHide Value NetworkToLower ToLower t req res respToClient with
  | None => (None, s)
  | Some out =>
      if final && (Z.quot (rs_status res) 100 =? 2)
      then let '(granted, s) := recordBinding now fresh res i s in (Some (adaptRegister i granted out), s)
      else (Some out, s)
  end.

(** The responses of one transaction, until it or the budget ends: what was
    sent on, the final response if one was, whether the node responded. *)
Fixpoint pumpRegister (fresh : gostring) (req : request) (i : bindingInput) (evs : list (Z * response)) (responded : bool) (s : regServer)
    : list reply * option response * bool * regServer :=
  match evs with
  | [] => ([], None, responded, s)
  | (now, res) :: evs =>
      if negb (Forwardable res) then pumpRegister fresh req i evs responded s
      else
        let '(sent, s) := pump_response now fresh req i res s in
        match sent with
        | None => pumpRegister fresh req i evs true s
        | Some out =>
            if 200 <=? rs_status res then ([Relayed out], Some res, true, logRegister res s)
            else let '(rs, f, responded, s) := pumpRegister fresh req i evs true s in (Relayed out :: rs, f, responded, s)
        end
  end.

(** ** The series *)

(** What one attempt meets: whether the budget was spent before it, the time,
    the branch of the request, what the transaction gave ([None]: it could not
    be sent), whether the budget was spent by then, and the time it ended. *)
Record attempt := mkAttempt {
  at_spent : bool; at_now : Z; at_branch : gostring; at_result : option (list (Z * response)); at_spent_after : bool; at_end : Z
}.

(** The request that goes to a node: [prepareForward]'s, the Contact the
    proxy's own. *)
Definition upstream_register (i : bindingInput) (out : request) : request :=
  match in_contact i with
  | Some _ => if in_wildcard i then out
              else mkRequest (rq_method out) (rq_recipient out) (rq_version out) (rq_laddr out)
                     (set_headers (SetContact (registeredContact t (in_user i) (in_token i)) (rq_headers out)) (rq_msg out))
  | None => out
  end.

Inductive seriesEnd := Answered | TooManyHops | Over (dialed spent : bool).

Fixpoint try_nodes (req : request) (from : side) (i : bindingInput) (fresh : gostring) (ns : list gostring) (ws : nat -> attempt) (k : nat)
    (spent_end dialed : bool) (s : regServer) : list reply * list (gostring * request) * seriesEnd * regServer :=
  match ns with
  | [] => ([], [], Over dialed spent_end, s)
  | n :: ns =>
      let w := ws k in
      if at_spent w then ([], [], Over dialed true, s)
      else
        let '(allow, probe, h) := RegisterAllow (at_now w) n registerTimeout (upstreamCooldown s) in
        let s := set_cool h s in
        if negb allow then try_nodes req from i fresh ns ws (S k) spent_end dialed s
        else
          let dest := match upstreams t !! n with Some e => ep_host e | None => [] end in
          match prepareForward Value t req from (private t) dest false (at_branch w) with
          | None => ([], [], TooManyHops, if probe then set_cool (RegisterRelease n (upstreamCooldown s)) s else s)
          | Some out =>
              match at_result w with
              | None =>
                  if at_spent_after w
                  then ([], [(n, upstream_register i out)], Over true true, if probe then set_cool (RegisterRelease n (upstreamCooldown s)) s else s)
                  else
                    let s := set_cool (Penalize (at_end w) n switchCooldown (upstreamCooldown s)) s in
                    let s := count_unanswered s in
                    let s := set_cool (RegisterUnanswered (at_end w) n probe (upstreamCooldown s)).2 s in
                    let '(rs, ds, e, s) := try_nodes req from i fresh ns ws (S k) spent_end true s in (rs, (n, upstream_register i out) :: ds, e, s)
              | Some evs =>
                  let '(rs, final, responded, s) := pumpRegister fresh req i evs false s in
                  match final with
                  | Some _ =>
                      (rs, [(n, upstream_register i out)], Answered, set_cool (RegisterAnswered n (Recover n (upstreamCooldown s))) s)
                  | None =>
                      let s := if responded then set_cool (RegisterAnswered n (upstreamCooldown s)) s
                               else let s := set_cool (Penalize (at_end w) n switchCooldown (upstreamCooldown s)) s in
                                    let s := count_unanswered s in
                                    set_cool (RegisterUnanswered (at_end w) n probe (upstreamCooldown s)).2 s in
                      let '(rs', ds, e, s) := try_nodes req from i fresh ns ws (S k) spent_end true s in (rs ++ rs', (n, upstream_register i out) :: ds, e, s)
                  end
              end
          end
  end.

(** ** The handler *)

(** The handling of a public REGISTER: the replies, the nodes that were sent
    it, and whether it was dropped in silence. *)
Record outcome := mkOutcome { replies : list reply; dialed : list (gostring * request); silent : bool }.

Definition admission_request (req : request) : Admission.request := Admission.mkRequest (m_transport (rq_msg req)) None.

Definition drop_register (now : Z) (reason : Admission.dropReason) (req : request) (src : AddrPort) (s : regServer)
    : outcome * regServer :=
  (mkOutcome [] [] true,
   set_srv (Admission.dropSilently NetworkToLower now cfg vouched reason (admission_request req) src (srv s)).2 s).

Definition register_input (from : side) (src : AddrPort) (aor user token : gostring) (hs : list header) : bindingInput :=
  let '(requested, unregister) := requestedExpires Value hs in
  mkInput token aor user (SipMsg.CallID hs) (sd_transport from) src requested unregister (ContactURI hs)
    (hasWildcardContact hs) (registerHead Value hs aor).

Definition onRegisterPublic (now : Z) (newToken fresh : gostring) (req : request) (src : AddrPort) (ws : nat -> attempt) (spent_end : bool)
    (s : regServer) : outcome * regServer :=
  let hs := rq_headers req in
  if blocked now (ap_addr src) (enumLimit s) then drop_register now Admission.dropRegisterEnumeration req src s
  else match publicSideFor NetworkToLower t req with
  | None => (mkOutcome [Rejected 488] [] false, s)
  | Some from =>
      match aorOf hs with
      | None => (mkOutcome [Rejected 400] [] false, s)
      | Some (aor, user) =>
          let '(locked, s) := aorLockedFor now (ap_addr src) aor s in
          if locked then drop_register now Admission.dropRegisterAORLocked req src s
          else
            let unregister := (requestedExpires Value hs).2 in
            if hasWildcardContact hs && (negb unregister || negb (len (GetHeaders (str "Contact") hs) =? 1))
            then (mkOutcome [Rejected 400] [] false, s)
            else
              let token := existingToken now aor (SipMsg.CallID hs) s in
              let token := if bool_decide (token = []) then newToken else token in
              let i := register_input from src aor user token hs in
              let order := upstreamDialOrder t user (fun n => Available now n (upstreamCooldown s)) in
              let '(rs, ds, e, s) := try_nodes req from i fresh order ws 0 spent_end false s in
              match e with
              | Answered => (mkOutcome rs ds false, s)
              | TooManyHops => (mkOutcome (rs ++ [Rejected 483]) ds false, s)
              | Over dialed spent =>
                  if negb dialed && negb spent
                  then (mkOutcome (rs ++ [RetryLater 503 registerRetryAfter]) ds false, count_failed (count_breaker s))
                  else (mkOutcome (rs ++ [Rejected (if spent then 504 else 503)]) ds false, count_failed s)
              end
      end
  end.

(** A REGISTER from the switch. *)
Definition onRegisterPrivate (uris : gmap gostring gostring) (req : request) : gostring + Z :=
  match classifySwitchRequest t uris req with
  | (targetCarrier, name) => inl name
  | _ => inr 404
  end.
End Registration.

(** ** A REGISTER is answered once *)

Section Answered.
Context `{SP : SipParams} `{SH : !SipHeaders}.
Context (Value : header -> gostring) (NetworkToLower ToLower : gostring -> gostring).
Context (cfg : ShieldConfig) (vouched : gostring -> AddrPort -> bool) (allowMismatch : bool) (t : topology).

Abbreviation relay_one := (pump_response Value NetworkToLower ToLower cfg vouched allowMismatch t).
Abbreviation pump := (pumpRegister Value NetworkToLower ToLower cfg vouched allowMismatch t).
Abbreviation series := (try_nodes Value NetworkToLower ToLower cfg vouched allowMismatch t).
Abbreviation handle := (onRegisterPublic Value NetworkToLower ToLower cfg vouched allowMismatch t).

Lemma adapt_status i g out : rs_status (adaptRegister i g out) = rs_status out.
Proof. unfold adaptRegister. destruct (in_wildcard i); [done|]. by destruct (in_contact i). Qed.

Lemma relay_status now fresh req i res s out s' : relay_one now fresh req i res s = (Some out, s') ->
  rs_status out = rs_status res.
Proof.
  unfold pump_response. set (s1 := if (200 <=? rs_status res) && _ then _ else s). set (s2 := if 200 <=? rs_status res then _ else s1). clearbody s2. clear s1.
  destruct (relayResponseHide _ _ _ _ _ _ _) as [o|] eqn:E; [|done].
  apply relayResponse_spec in E as (_ & Hs & _).
  destruct ((200 <=? rs_status res) && _); [|by intros [= <- _]].
  destruct (recordBinding _ _ _ _ _ _ _) as [g s3]. intros [= <- _]. by rewrite adapt_status.
Qed.

Definition provisional (rs : list reply) : Prop := Forall (fun r => is_final r = false) rs.
Definition once (rs : list reply) : Prop := exists rs0 r, rs = rs0 ++ [r] /\ provisional rs0 /\ is_final r = true.

Definition all_relayed (rs : list reply) : Prop := Forall (fun r => match r with Relayed _ => True | _ => False end) rs.

Lemma pump_replies fresh req i evs : forall responded s rs f rp s',
  pump fresh req i evs responded s = (rs, f, rp, s') ->
  (match f with Some _ => once rs | None => provisional rs end) /\ all_relayed rs.
Proof.
  induction evs as [|[now res] evs IH]; intros responded s rs f rp s'; cbn [pumpRegister]; [by intros [= <- <- _ _]; repeat constructor|].
  destruct (Forwardable res); cbn [negb]; [|apply IH].
  destruct (relay_one now fresh req i res s) as [[out|] s1] eqn:E; [|apply IH].
  apply relay_status in E. destruct (200 <=? rs_status res) eqn:Ef.
  - intros [= <- <- _ _]. split; [|by repeat constructor]. exists [], (Relayed out). split; [done|]. split; [constructor|]. cbn. by rewrite E.
  - destruct (pump fresh req i evs true s1) as [[[rs1 f1] rp1] s2] eqn:Er. intros [= <- <- _ _].
    apply IH in Er as [Er Ea]. split; [|by constructor]. destruct f1 as [fr|].
    + destruct Er as (rs0 & r & -> & Hp & Hr). exists (Relayed out :: rs0), r. split; [done|]. split; [|done].
      constructor; [|done]. cbn. by rewrite E.
    + constructor; [|done]. cbn. by rewrite E.
Qed.

(** Every node sent to is one of the list, in order, each once. *)
Lemma series_replies req from i fresh ns ws spent : forall k dial s rs ds e s',
  series req from i fresh ns ws k spent dial s = (rs, ds, e, s') ->
  ((match e with Answered => once rs | _ => provisional rs end) /\ all_relayed rs) /\ ds.*1 `sublist_of` ns /\
  (forall d, Over false d = e -> dial = false /\ ds = []).
Proof.
  induction ns as [|n ns IH]; intros k dial s rs ds e s'; cbn [try_nodes].
  { intros [= <- <- <- _]. split; [by repeat constructor|]. split; [done|]. by intros d [= <- _]. }
  cbv zeta. destruct (at_spent (ws k)).
  { intros [= <- <- <- _]. split; [by repeat constructor|]. split; [apply sublist_nil_l|]. by intros d [= <- _]. }
  destruct (RegisterAllow _ _ _ _) as [[allow probe] h]. set (s1 := set_cool h s). destruct allow; cbn [negb].
  2: { intros H. apply IH in H as (A & B & C). split; [done|]. split; [by apply sublist_cons|done]. }
  destruct (prepareForward _ _ _ _ _ _ _ _) as [out|].
  2: { intros [= <- <- <- _]. split; [by repeat constructor|]. split; [apply sublist_nil_l|done]. }
  assert (One : [n] `sublist_of` n :: ns) by (apply sublist_skip, sublist_nil_l).
  destruct (at_result (ws k)) as [evs|].
  - destruct (pump fresh req i evs false s1) as [[[rs1 f1] rp1] s2] eqn:Ep. apply pump_replies in Ep as [Ep Ea].
    destruct f1 as [r|]; [intros [= <- <- <- _]; split; [done|]; split; [exact One|done]|].
    set (s3 := if rp1 then _ else _). destruct (series _ _ _ _ _ _ _ _ _ s3) as [[[rs2 ds2] e2] s4] eqn:Es.
    intros [= <- <- <- _]. apply IH in Es as ((A & A') & B & C). split; [|split; [by apply sublist_skip|by intros d Hd; destruct (C d Hd)]].
    split; [|by apply Forall_app]. destruct e2; [|by apply Forall_app..].
    destruct A as (rs0 & x & -> & Hp & Hx). exists (rs1 ++ rs0), x. split; [by rewrite app_assoc|]. split; [by apply Forall_app|done].
  - destruct (at_spent_after (ws k)); [intros [= <- <- <- _]; split; [by repeat constructor|]; split; [exact One|done]|].
    set (s3 := set_cool _ _). destruct (series _ _ _ _ _ _ _ _ _ s3) as [[[rs2 ds2] e2] s4] eqn:Es.
    intros [= <- <- <- _]. apply IH in Es as (A & B & C). split; [done|]. split; [by apply sublist_skip|]. by intros d Hd; destruct (C d Hd).
Qed.

(** What an outcome comes to: silence, and then no node was tried, or one
    final reply after the provisional ones; a refusal because every breaker is
    open only when no node was tried. *)
Definition answered_once (o : outcome) : Prop :=
  (if silent o then replies o = [] /\ dialed o = [] else once (replies o)) /\
  ((exists user av, (dialed o).*1 `sublist_of` upstreamDialOrder t user av) \/ dialed o = []) /\
  (forall code after, RetryLater code after ∈ replies o -> dialed o = [] /\ code = 503).

Lemma rejected_once code : answered_once (mkOutcome [Rejected code] [] false).
Proof.
  split; [|split; [by right|by intros ? ? [=]%list_elem_of_singleton]].
  exists [], (Rejected code). split; [done|]. split; [constructor|done].
Qed.

Lemma dropped_once now reason req src s : answered_once (drop_register NetworkToLower cfg vouched now reason req src s).1.
Proof. split; [done|]. split; [by right|]. by intros ? ? ?%elem_of_nil. Qed.

(** C33: a REGISTER is answered exactly once.  Whatever the nodes do, the
    client gets any provisional answers and then one final one, a node's or the
    proxy's own, or, when its source is blocked or the address of record is
    locked, nothing at all, and then no node hears of it either.  Nodes are
    tried in the order of the topology, each at most once, and a refusal
    because every breaker is open was sent without trying any. *)
Theorem registration_is_answered_once now newToken fresh req src ws spent s :
  answered_once (handle now newToken fresh req src ws spent s).1.
Proof.
  unfold onRegisterPublic. cbv zeta. case_if; [apply dropped_once|]. destruct (publicSideFor _ _ _) as [from|]; [|apply rejected_once].
  destruct (aorOf _) as [[aor user]|]; [|apply rejected_once]. destruct (aorLockedFor _ _ _ _ _ _) as [locked s1].
  destruct locked; [apply dropped_once|]. case_if; [apply rejected_once|].
  set (i := register_input _ _ _ _ _ _ _). set (order := upstreamDialOrder _ _ _).
  destruct (series _ _ _ _ _ _ _ _ _ s1) as [[[rs ds] e] s2] eqn:E. apply series_replies in E as ((A & A') & B & C).
  assert (Fin : forall r, provisional rs -> is_final r = true -> once (rs ++ [r])).
  { intros r Hp Hr. by exists rs, r. }
  assert (NoRetry : forall code after, provisional rs -> RetryLater code after ∈ rs -> False).
  { intros code after Hp Hin. eapply Forall_forall in Hp; [|exact Hin]. done. }
  assert (Ord : exists u av, ds.*1 `sublist_of` upstreamDialOrder t u av) by (by exists user, (fun n => Available now n (upstreamCooldown s1))).
  destruct e as [| |dl sp].
  - cbn. split; [done|]. split; [by left|]. intros code after Hin. exfalso.
    by eapply Forall_forall in A'; [|exact Hin].
  - cbn. split; [by apply Fin|]. split; [by left|]. intros code after [Hin|Hin%list_elem_of_singleton]%elem_of_app; [by exfalso; eapply NoRetry|done].
  - destruct dl; cbn [negb andb].
    + cbn. split; [by apply Fin|]. split; [by left|]. intros code after [Hin|Hin%list_elem_of_singleton]%elem_of_app; [by exfalso; eapply NoRetry|done].
    + destruct (C sp eq_refl) as [_ ->]. destruct sp; cbn; (split; [by apply Fin|]); (split; [by right|]);
        (intros code after [Hin|Hin%list_elem_of_singleton]%elem_of_app; [by exfalso; eapply NoRetry|]);
        first [done | by injection Hin as -> _].
Qed.
End Answered.

(** ** A binding needs proof *)

(** Every binding of [l'] was in [l], or satisfies [P]. *)
Definition grown (P : Location.Binding -> Prop) (l l' : Location.Location) : Prop :=
  forall id b, Location.heap l' !! id = Some b -> Location.heap l !! id = Some b \/ P b.

Lemma grown_refl P l : grown P l l.
Proof. by left. Qed.

Lemma grown_trans P l1 l2 l3 : grown P l1 l2 -> grown P l2 l3 -> grown P l1 l3.
Proof. intros H1 H2 id b H. destruct (H2 id b H) as [H'|H']; [by apply H1|by right]. Qed.

Lemma grown_delete P aor i l : grown P l (Location.deleteLocked aor i l).
Proof.
  intros id b. unfold Location.deleteLocked. destruct (_ !! i) as [x|]; [|by left]. destruct (Location.heap l !! x) as [b'|]; [|by left].
  destruct (Location.unindex_source _ _ _ _) as [m n]. cbn. intros [_ H]%lookup_delete_Some. by left.
Qed.

Lemma grown_prune P now aor i : forall l, grown P l (Location.prune_aor_from i now aor l).2.
Proof.
  induction i as [|i IH]; intros l; [apply grown_refl|]. cbn [Location.prune_aor_from].
  destruct (_ ≫= _) as [b|]; [|apply IH]. destruct (Location.Expired now b); [|apply IH].
  specialize (IH (Location.deleteLocked aor i l)). destruct (Location.prune_aor_from i now aor _) as [n l'].
  eapply grown_trans; [apply grown_delete|exact IH].
Qed.

Lemma grown_remove P aor callID l : grown P l (Location.Remove aor callID l).2.
Proof. unfold Location.Remove. destruct (Location.find_index _ _); [apply grown_delete|apply grown_refl]. Qed.

(** What [Put] stores is what it is given, under some token. *)
Lemma grown_put now fresh b l : grown (fun x => exists tok, x = Location.set_token tok b) l (Location.Put now fresh b l).2.
Proof.
  unfold Location.Put. cbv zeta. eapply (grown_trans _ _ (Location.pruneAORLocked now (Location.AOR b) l).2); [apply grown_prune|].
  set (l1 := (Location.pruneAORLocked now (Location.AOR b) l).2).
  assert (Hb : b = Location.set_token (Location.Token b) b) by by destruct b.
  destruct (find _ _) as [id|].
  - destruct (Location.heap l1 !! id) as [e|]; [|apply grown_refl]. destruct (Location.unindex_source _ _ _ _) as [m n].
    destruct (Location.index_source _ _ _ _) as [m' n']. intros i x. cbn.
    intros [[_ <-]|[_ H]]%lookup_insert_Some; [right; by eexists|by left].
  - case_if; [apply grown_refl|]. case_if; [apply grown_refl|]. destruct (Location.index_source _ _ _ _) as [m' n'].
    intros i x. cbn. intros [[_ <-]|[_ H]]%lookup_insert_Some; [right|by left]. case_if; [by eexists|by eexists].
Qed.

Section Proof.
Context `{SP : SipParams} `{SH : !SipHeaders}.
Context (Value : header -> gostring) (NetworkToLower ToLower : gostring -> gostring).
Context (cfg : ShieldConfig) (vouched : gostring -> AddrPort -> bool) (allowMismatch : bool) (t : topology).

Abbreviation relay_one := (pump_response Value NetworkToLower ToLower cfg vouched allowMismatch t).
Abbreviation pump := (pumpRegister Value NetworkToLower ToLower cfg vouched allowMismatch t).
Abbreviation series := (try_nodes Value NetworkToLower ToLower cfg vouched allowMismatch t).
Abbreviation handle := (onRegisterPublic Value NetworkToLower ToLower cfg vouched allowMismatch t).

(** The binding a REGISTER asks for and a 2xx at [now] grants, for the time it
    grants. *)
Definition asked_for (now : Z) (res : response) (i : bindingInput) (b : Location.Binding) : Prop :=
  let granted := GrantedExpires Value res (in_requested i) (has_token (in_token i)) in
  Location.AOR b = in_aor i /\ Location.User b = in_user i /\ Location.Transport b = in_transport i /\
  Location.Source b = in_source i /\ Location.CallID b = in_callID i /\
  Location.ExpiresAt b = time_add now granted /\ 0 < granted.

(** One host: the same IPv4 address, or the same IPv6 /64. *)
Definition same_host (a b : AddrPort) : Prop := enumKey (ap_addr a) = enumKey (unmap (ap_addr b)).

(** The proof at [now] that it may have it, in a table [l]: its credential, or a
    binding of its flow that has not expired. *)
Definition proven (now : Z) (i : bindingInput) (l : Location.Location) : Prop :=
  is_Some (in_contact i) /\ in_unregister i = false /\ in_wildcard i = false /\
  (credentialMatches allowMismatch i = true \/
   exists b, b ∈ Location.ByAOR now (in_aor i) l /\ time_before now (Location.ExpiresAt b) = true /\
     Location.CallID b = in_callID i /\ same_host (Location.Source b) (in_source i)).

Lemma proof_proven now i s u : bindingProof allowMismatch now i s = inr u -> in_unregister i = false -> in_wildcard i = false ->
  proven now i (loc_of s).
Proof.
  unfold bindingProof. destruct (bool_decide (is_Some (in_contact i))) eqn:E1; cbn [negb]; [|done]. breflect.
  intros H Hu Hw. split; [done|]. split; [done|]. split; [done|].
  destruct (credentialMatches allowMismatch i); [by left|]. destruct (refreshesBinding _ _ _ _ _) eqn:E2; [|by case_if_in H].
  right. unfold refreshesBinding in E2. case_if_in E2; [done|]. apply existsb_exists in E2 as (b & Hb & E2).
  apply andb_true_iff in E2 as [E2 E3]. apply beq_eq in E2. unfold addr_eqb in E3. apply bool_decide_eq_true in E3.
  assert (time_before now (Location.ExpiresAt b) = true) as L.
  { unfold Location.ByAOR in Hb. apply filter_In in Hb as [_ Hb]. unfold Location.Expired in Hb. by destruct (time_before _ _). }
  exists b. split; [by apply list_elem_of_In|done].
Qed.

(** What a final response at [now] may have brought into the table. *)
Abbreviation granted_by now res i s := (fun b => asked_for now res i b /\ proven now i (loc_of s)).
(** What one of the responses [evs] of a transaction may have. *)
Definition granted_in (evs : list (Z * response)) (i : bindingInput) (l : Location.Location) (b : Location.Binding) : Prop :=
  exists now res, (now, res) ∈ evs /\ Z.quot (rs_status res) 100 = 2 /\ asked_for now res i b /\ proven now i l.

Lemma removals_grown P l aor bs : grown P l (fold_left (fun l b => (Location.Remove aor (Location.CallID b) l).2) bs l).
Proof.
  revert l. induction bs as [|b bs IH]; intros l; [apply grown_refl|]. cbn [fold_left].
  eapply grown_trans; [apply grown_remove|apply IH].
Qed.

Lemma recordBinding_grown now fresh res i s :
  grown (granted_by now res i s) (loc_of s) (loc_of (recordBinding Value allowMismatch now fresh res i s).2).
Proof.
  unfold recordBinding. destruct (in_wildcard i) eqn:Ew; [apply removals_grown|]. case_if; [apply grown_refl|].
  cbv zeta. case_if; [apply grown_remove|].
  destruct (bindingProof allowMismatch now i s) as [why|[]] eqn:Ep; [apply grown_refl|].
  assert (Hu : in_unregister i = false) by (by apply orb_false_iff in Heqb0 as [? _]).
  assert (Hg : 0 < GrantedExpires Value res (in_requested i) (has_token (in_token i))) by (apply orb_false_iff in Heqb0 as [_ ?]; lia).
  pose proof (proof_proven _ _ _ _ Ep Hu Ew) as Hp.
  set (b := Location.mkBinding _ _ _ _ _ _ _). pose proof (grown_put now fresh b (loc_of s)) as G.
  destruct (Location.Put now fresh b (loc_of s)) as [r l]. cbn [snd] in *.
  assert (E : forall r : Location.Binding + Location.scope, loc_of (match r with inr _ => count_failed (set_loc l s) | inl _ => SetRegistrations (count_registered (set_loc l s)) end) = l)
    by (by intros [|]).
  rewrite E. intros id x Hx. destruct (G id x Hx) as [|(tok & ->)]; [by left|]. right. split; [|done]. by repeat split.
Qed.

(** What leaves the table and the carriers alone. *)
Lemma strike_loc now src head replay s : srv (registerStrike cfg vouched now src head replay s).2 = srv s \/
  exists sh, srv (registerStrike cfg vouched now src head replay s).2 = Admission.set_shield sh (srv s).
Proof.
  unfold registerStrike. destruct (shield_of s) as [sh0|]; [|by left]. case_if; [by left|]. cbv zeta. case_if; [by left|].
  destruct (countable _ _ _ _ _ _ _) as [c g]. destruct c; cbn [negb]; [|by left].
  destruct (shield_of (count_auth_failed (set_guard g s))); [|by left].
  destruct (StrikeAOR _ _ _) as [x sh1]. destruct (Strike _ _ _ _) as [y sh2]. right. by eexists.
Qed.

Lemma outcome_loc now i res s : loc_of (registerOutcome Value cfg vouched allowMismatch now i res s) = loc_of s.
Proof.
  unfold registerOutcome. cbv zeta. case_if.
  - destruct (shield_of s); [|done]. by case_if.
  - destruct (challengeNonces _ _) as [ns stale].
    set (s1 := if refused _ && negb stale then _ else s).
    assert (E : loc_of s1 = loc_of s).
    { unfold s1. case_if; [|done]. unfold loc_of.
      destruct (strike_loc now (in_source i) (in_head i) false s) as [->|(sh & ->)]; done. }
    by case_if.
Qed.

Lemma relay_grown now fresh req i res s sent s' : relay_one now fresh req i res s = (sent, s') ->
  (sent = None -> loc_of s' = loc_of s) /\ (200 <=? rs_status res = false -> loc_of s' = loc_of s) /\
  (Z.quot (rs_status res) 100 = 2 \/ loc_of s' = loc_of s) /\
  grown (fun b => Z.quot (rs_status res) 100 = 2 /\ granted_by now res i s b) (loc_of s) (loc_of s').
Proof.
  unfold pump_response. cbv zeta. set (s1 := if (200 <=? rs_status res) && countsAsEnumeration _ then _ else s).
  assert (E1 : loc_of s1 = loc_of s) by (unfold s1; by case_if). set (s2 := if 200 <=? rs_status res then _ else s1).
  assert (E2 : loc_of s2 = loc_of s) by (unfold s2; case_if; [by rewrite outcome_loc|done]).
  clearbody s2. destruct (relayResponseHide _ _ _ _ _ _ _) as [out|].
  2: { intros [= <- <-]. rewrite E2. repeat split; try done; [by right|apply grown_refl]. }
  destruct ((200 <=? rs_status res) && (Z.quot (rs_status res) 100 =? 2)) eqn:E3.
  - pose proof (recordBinding_grown now fresh res i s2) as G. destruct (recordBinding _ _ _ _ _ _ _) as [g s3].
    intros [= <- <-]. rewrite E2 in G. apply andb_true_iff in E3 as [E3 E4]. split; [done|]. split; [congruence|].
    split; [left; lia|]. intros id b Hb. destruct (G id b Hb); [by left|right; split; [lia|done]].
  - intros [= <- <-]. rewrite E2. repeat split; try done; [by right|apply grown_refl].
Qed.

Lemma log_loc res s : loc_of (logRegister res s) = loc_of s.
Proof. unfold logRegister. case_if; [done|]. by case_if. Qed.

(** A 2xx among the replies. *)
Definition accepted (rs : list reply) : Prop := exists res, Relayed res ∈ rs /\ Z.quot (rs_status res) 100 = 2.

Lemma pump_grown fresh req i evs : forall responded s rs f rp s',
  pump fresh req i evs responded s = (rs, f, rp, s') ->
  (f = None -> loc_of s' = loc_of s) /\ (accepted rs \/ loc_of s' = loc_of s) /\
  grown (granted_in evs i (loc_of s)) (loc_of s) (loc_of s').
Proof.
  induction evs as [|[now res] evs IH]; intros responded s rs f rp s'; cbn [pumpRegister].
  { intros [= <- <- _ <-]. split; [done|]. split; [by right|apply grown_refl]. }
  assert (Later : forall l l', grown (granted_in evs i l) l l' -> grown (granted_in ((now, res) :: evs) i l) l l').
  { intros l l' G id b Hb. destruct (G id b Hb) as [|(n & r & Hin & H)]; [by left|]. right. exists n, r. split; [by right|done]. }
  destruct (Forwardable res); cbn [negb]; [|intros Er; apply IH in Er as (I1 & I2 & I3); split_and!; [done|done|by apply Later]].
  destruct (relay_one now fresh req i res s) as [[out|] s1] eqn:E.
  - pose proof E as E0. apply relay_status in E0. apply relay_grown in E as (_ & E2 & E3 & E4).
    destruct (200 <=? rs_status res) eqn:Ef.
    + intros [= <- <- _ <-]. rewrite log_loc. split; [done|]. split.
      * destruct E3 as [E3|E3]; [left|by right]. exists out. split; [by left|]. by rewrite E0.
      * intros id b Hb. destruct (E4 id b Hb) as [|[Hs [Ha Hp]]]; [by left|]. right. exists now, res. split; [by left|done].
    + destruct (pump fresh req i evs true s1) as [[[rs1 f1] rp1] s2] eqn:Er. intros [= <- <- _ <-].
      apply IH in Er as (I1 & I2 & I3). rewrite E2 in * by done. split; [done|]. split; [|by apply Later].
      destruct I2 as [(o & Ho & H)|I2]; [left|by right]. exists o. split; [by right|done].
  - apply relay_grown in E as (E1 & _). intros Er. apply IH in Er as (I1 & I2 & I3). rewrite E1 in * by done. split_and!; [done|done|by apply Later].
Qed.

Lemma series_grown req from i fresh ns ws spent : forall k dial s rs ds e s',
  series req from i fresh ns ws k spent dial s = (rs, ds, e, s') ->
  ((e = Answered /\ accepted rs) \/ loc_of s' = loc_of s) /\
  grown (fun b => exists k evs, at_result (ws k) = Some evs /\ granted_in evs i (loc_of s) b) (loc_of s) (loc_of s').
Proof.
  induction ns as [|n ns IH]; intros k dial s rs ds e s'; cbn [try_nodes].
  { intros [= _ _ _ <-]. split; [by right|apply grown_refl]. }
  cbv zeta. destruct (at_spent (ws k)); [intros [= _ _ _ <-]; split; [by right|apply grown_refl]|].
  destruct (RegisterAllow _ _ _ _) as [[allow probe] h]. set (s1 := set_cool h s).
  assert (L1 : loc_of s1 = loc_of s) by done. destruct allow; cbn [negb].
  2: { intros H. apply IH in H. by rewrite L1 in H. }
  destruct (prepareForward _ _ _ _ _ _ _ _) as [out|].
  2: { intros [= _ _ _ <-]. split; [right; by destruct probe|]. destruct probe; apply grown_refl. }
  destruct (at_result (ws k)) as [evs|] eqn:Ew.
  - assert (Here : forall l l', grown (granted_in evs i l) l l' -> grown (fun b => exists k evs, at_result (ws k) = Some evs /\ granted_in evs i l b) l l').
    { intros l l' G id b Hb. destruct (G id b Hb) as [|H]; [by left|]. right. by exists k, evs. }
    destruct (pump fresh req i evs false s1) as [[[rs1 f1] rp1] s2] eqn:Ep. apply pump_grown in Ep as (P1 & P2 & P3).
    rewrite L1 in *. destruct f1 as [r|].
    + intros [= <- _ <- <-]. split; [destruct P2; [by left|by right]|by apply Here].
    + set (s3 := if rp1 then _ else _). destruct (series _ _ _ _ _ _ _ _ _ s3) as [[[rs2 ds2] e2] s4] eqn:Es.
      assert (L3 : loc_of s3 = loc_of s) by (unfold s3; destruct rp1; by rewrite <- P1).
      intros [= <- _ <- <-]. apply IH in Es as [A B]. rewrite L3 in *. split; [|exact B].
      destruct A as [[-> (o & Ho & Hs)]|A]; [left; split; [done|]|by right]. exists o. split; [|done]. apply elem_of_app. by right.
  - destruct (at_spent_after (ws k)); [intros [= _ _ _ <-]; split; [right; by destruct probe|destruct probe; apply grown_refl]|].
    set (s3 := set_cool _ _). assert (L3 : loc_of s3 = loc_of s) by done.
    destruct (series _ _ _ _ _ _ _ _ _ s3) as [[[rs2 ds2] e2] s4] eqn:Es.
    intros [= <- _ <- <-]. apply IH in Es. by rewrite L3 in Es.
Qed.

Lemma drop_loc now reason req src s : loc_of (drop_register NetworkToLower cfg vouched now reason req src s).2 = loc_of s.
Proof.
  unfold drop_register, loc_of. cbn [snd srv set_srv].
  exact (proj1 (Admission.dropSilently_one NetworkToLower cfg vouched now reason (admission_request req) src (srv s))).
Qed.

Lemma locked_loc now src aor s : loc_of (aorLockedFor cfg vouched now src aor s).2 = loc_of s.
Proof. unfold aorLockedFor. destruct (shield_of s); [|done]. by destruct (AORLocked _ _ _) as [a b]. Qed.

(** C22: No binding without proof.  Every binding the table holds after a
    public REGISTER that it did not hold before is the one the request asked
    for: its address of record and user, its source, its Call-ID, the transport
    of the side it arrived on, and the positive time a 2xx of a node granted
    counted from when that came.  Then the client was sent a 2xx, the request
    had a Contact and was no removal, and either it carried a credential whose
    user is the registered one (any user, where the configuration allows it), or
    the table held before a binding of that address and Call-ID, not yet expired
    when the 2xx came, whose source is the same host (IPv4 address, or IPv6 /64).
    Without a 2xx the table does not change at all. *)
Theorem bindings_need_proof now newToken fresh req src ws spent s :
  let '(o, s') := handle now newToken fresh req src ws spent s in
  (accepted (replies o) \/ loc_of s' = loc_of s) /\
  forall id b, Location.heap (loc_of s') !! id = Some b -> Location.heap (loc_of s) !! id = Some b \/
    exists from aor user token, publicSideFor NetworkToLower t req = Some from /\ aorOf (rq_headers req) = Some (aor, user) /\
      let i := register_input Value from src aor user token (rq_headers req) in
      accepted (replies o) /\
      exists k evs when res, at_result (ws k) = Some evs /\ (when, res) ∈ evs /\ Z.quot (rs_status res) 100 = 2 /\
        asked_for when res i b /\ proven when i (loc_of s).
Proof.
  unfold onRegisterPublic. cbv zeta.
  assert (D : forall reason s1, loc_of s1 = loc_of s -> let '(o, s') := drop_register NetworkToLower cfg vouched now reason req src s1 in
     loc_of s' = loc_of s).
  { intros reason s1 <-. apply (drop_loc now reason req src s1). }
  case_if.
  { specialize (D Admission.dropRegisterEnumeration s eq_refl). destruct (drop_register _ _ _ _ _ _ _ s) as [o s']. rewrite D. split; [by right|by left]. }
  destruct (publicSideFor _ _ _) as [from|] eqn:Ef; [|split; [by right|by left]].
  destruct (aorOf _) as [[aor user]|]; [|split; [by right|by left]].
  pose proof (locked_loc now (ap_addr src) aor s) as L. destruct (aorLockedFor _ _ _ _ _ _) as [locked s1]. cbn [snd] in L.
  destruct locked.
  { specialize (D Admission.dropRegisterAORLocked s1 L). destruct (drop_register _ _ _ _ _ _ _ s1) as [o s']. rewrite D. split; [by right|by left]. }
  clear D. case_if; [cbn; rewrite L; split; [by right|by left]|].
  set (tok := if bool_decide _ then newToken else _). set (order := upstreamDialOrder _ _ _).
  destruct (series _ _ _ _ _ _ _ _ _ s1) as [[[rs ds] e] s2] eqn:E. apply series_grown in E as [A B]. rewrite L in *.
  assert (K : forall rs' ds' sil s3, loc_of s3 = loc_of s2 -> (e = Answered -> rs' = rs) ->
    (accepted rs' \/ loc_of s3 = loc_of s) /\
    forall id b, Location.heap (loc_of s3) !! id = Some b -> Location.heap (loc_of s) !! id = Some b \/
      exists from0 aor0 user0 token, Some from = Some from0 /\ Some (aor, user) = Some (aor0, user0) /\
        accepted (replies (mkOutcome rs' ds' sil)) /\
        exists k evs when res, at_result (ws k) = Some evs /\ (when, res) ∈ evs /\ Z.quot (rs_status res) 100 = 2 /\
          asked_for when res (register_input Value from0 src aor0 user0 token (rq_headers req)) b /\
          proven when (register_input Value from0 src aor0 user0 token (rq_headers req)) (loc_of s)).
  { intros rs' ds' sil s3 L3 Hrs. rewrite L3. destruct A as [[He A]|A].
    - rewrite (Hrs He). split; [by left|]. intros id b Hb. destruct (B id b Hb) as [|(k & evs & Ew & when & res & Hin & H)]; [by left|]. right.
      exists from, aor, user, tok. split_and!; [done|done|done|]. by exists k, evs, when, res.
    - rewrite A. split; [by right|by left]. }
  destruct e as [| |dl sp]; [by apply K|by apply K|]. by destruct (negb dl && negb sp); apply K.
Qed.
End Proof.

(** ** A strike needs a challenge *)

Section Strikes.
Context `{SP : SipParams} `{SH : !SipHeaders}.
Context (Value : header -> gostring).
Context (cfg : ShieldConfig) (vouched : gostring -> AddrPort -> bool) (allowMismatch : bool).

(** What reaches the guard: the outcome of a REGISTER, and a datagram at the
    read filter. *)
Inductive guard_event :=
  | Outcome (now : Z) (i : bindingInput) (res : response)
  | Datagram (now : Z) (transport : gostring) (src : option AddrPort) (data : gostring).

Definition guard_event_step (s : regServer) (e : guard_event) : regServer :=
  match e with
  | Outcome now i res => registerOutcome Value cfg vouched allowMismatch now i res s
  | Datagram now tr src data => (registerReplayRead cfg vouched now tr src data s).2
  end.

(** The guard of a run is that of a history whose challenges are the 401 and
    407 answers relayed. *)
Definition challenged_by (es : list guard_event) (ops : list guard_op) : Prop :=
  forall now src branch ns, Challenged now src branch ns ∈ ops ->
  exists i res, Outcome now i res ∈ es /\ (rs_status res = 401 \/ rs_status res = 407) /\
    src = ap_addr (in_source i) /\ branch = SipScan.Branch (in_head i) /\ ns = (challengeNonces Value (rs_headers res)).1.

Lemma strike_guard now src head replay s ops : regGuardOf s = run_guard newRegGuard ops ->
  exists ops', regGuardOf (registerStrike cfg vouched now src head replay s).2 = run_guard newRegGuard ops' /\
    forall t a b n, Challenged t a b n ∈ ops' -> Challenged t a b n ∈ ops.
Proof.
  intros E. unfold registerStrike. destruct (shield_of s) as [sh0|]; [|by exists ops]. case_if; [by exists ops|]. cbv zeta.
  case_if; [by exists ops|]. set (ip := unmap (ap_addr src)).
  destruct (countable now ip (SipScan.Branch head) (SipScan.Nonce head) (SipScan.AuthKey head) replay (regGuardOf s)) as [c g] eqn:Ec.
  assert (Hg : g = run_guard newRegGuard (ops ++ [Attempted now ip (SipScan.Branch head) (SipScan.Nonce head) (SipScan.AuthKey head) replay])).
  { rewrite run_guard_app, <- E. cbn. by rewrite Ec. }
  exists (ops ++ [Attempted now ip (SipScan.Branch head) (SipScan.Nonce head) (SipScan.AuthKey head) replay]). split.
  - destruct c; cbn [negb]; [|exact Hg]. destruct (shield_of (count_auth_failed (set_guard g s))); [|exact Hg].
    destruct (StrikeAOR _ _ _). by destruct (Strike _ _ _ _).
  - intros t a b n [H|H%list_elem_of_singleton]%elem_of_app; [done|discriminate].
Qed.

Lemma event_guard s e es ops : regGuardOf s = run_guard newRegGuard ops -> challenged_by es ops ->
  exists ops', regGuardOf (guard_event_step s e) = run_guard newRegGuard ops' /\ challenged_by (es ++ [e]) ops'.
Proof.
  intros E C.
  assert (Keep : forall ops', (forall t a b n, Challenged t a b n ∈ ops' -> Challenged t a b n ∈ ops) -> challenged_by (es ++ [e]) ops').
  { intros ops' H t a b n Hin. destruct (C _ _ _ _ (H _ _ _ _ Hin)) as (i & res & Hi & H'). exists i, res. split; [|done].
    apply elem_of_app. by left. }
  destruct e as [now i res|now tr src data]; cbn [guard_event_step].
  - unfold registerOutcome. cbv zeta. case_if.
    { destruct (shield_of s); [case_if|]; exists ops; (split; [done|by apply Keep]). }
    destruct (challengeNonces Value (rs_headers res)) as [ns stale] eqn:En.
    set (s1 := if refused (rs_status res) && negb stale then _ else s).
    assert (H1 : exists ops', regGuardOf s1 = run_guard newRegGuard ops' /\
              forall t a b n, Challenged t a b n ∈ ops' -> Challenged t a b n ∈ ops).
    { unfold s1. case_if; [by apply strike_guard|by exists ops]. }
    destruct H1 as (ops1 & E1 & K1). clearbody s1.
    destruct ((rs_status res =? 401) || (rs_status res =? 407)) eqn:Ecode; [|exists ops1; split; [done|by apply Keep]].
    exists (ops1 ++ [Challenged now (ap_addr (in_source i)) (SipScan.Branch (in_head i)) ns]). split.
    { rewrite run_guard_app, <- E1. done. }
    intros t a b n [H|H%list_elem_of_singleton]%elem_of_app; [by apply (Keep ops1 K1)|]. injection H as -> -> -> ->.
    exists i, res. split; [apply elem_of_app; right; by left|]. rewrite En. split; [lia|done].
  - unfold registerReplayRead. case_if; [exists ops; split; [done|by apply Keep]|].
    destruct (ScanRegister data) as [head ok]. case_if; [exists ops; split; [done|by apply Keep]|].
    destruct src as [ap|]; [|exists ops; split; [done|by apply Keep]].
    destruct (strike_guard now ap head true s ops E) as (ops1 & E1 & K1). exists ops1. split; [done|by apply Keep].
Qed.

Lemma run_events_guard es s : regGuardOf s = newRegGuard ->
  exists ops, regGuardOf (run_ops guard_event_step s es) = run_guard newRegGuard ops /\ challenged_by es ops.
Proof.
  intros E. induction es as [|e es (ops & E1 & C)] using rev_ind.
  - exists []. split; [done|]. by intros ? ? ? ? ?%elem_of_nil.
  - unfold run_ops in *. rewrite fold_left_app. cbn [fold_left]. by apply (event_guard _ e es ops).
Qed.

(** C27: No source is struck for what a forger sends in its name.  From a guard
    with nothing noted, after any sequence of node answers taken note of
    ([registerOutcome], run on every final answer to a REGISTER just before it is
    relayed) and datagrams at the read filter, a REGISTER changes the shield
    ([registerStrike]: the strikes for refused REGISTERs, against its source and
    against its address of record) only when it carries a credential with a
    nonce, its source is no carrier and is not refreshing a live binding of its
    own, and the nonce has the FNV-64a hash the proxy noted of a nonce in a 401
    or 407 to a REGISTER of that same source (IPv4 address, or IPv6 /64) within
    the last fifteen minutes.  The counts of address probing and the strikes for
    sources not admitted are other mechanisms. *)
Theorem strikes_need_a_challenge es s0 now src head replay :
  regGuardOf s0 = newRegGuard ->
  let s := run_ops guard_event_step s0 es in
  shield_of (registerStrike cfg vouched now src head replay s).2 <> shield_of s \/
  (registerStrike cfg vouched now src head replay s).1 = true ->
  SipScan.Auth head = true /\ SipScan.Nonce head <> [] /\
  isSource (carriers_of s) (unmap (ap_addr src)) = false /\
  refreshesBinding now (unmap (ap_addr src)) (SipScan.AOR head) (SipScan.CallID head) s = false /\
  exists t i res n, Outcome t i res ∈ es /\ (rs_status res = 401 \/ rs_status res = 407) /\
    enumKey (ap_addr (in_source i)) = enumKey (unmap (ap_addr src)) /\
    n ∈ (challengeNonces Value (rs_headers res)).1 /\ regHash n = regHash (SipScan.Nonce head) /\ time_sub now t < regNonceTTL.
Proof.
  intros H0. cbv zeta. destruct (run_events_guard es s0 H0) as (ops & E & C). set (s := run_ops guard_event_step s0 es) in *. clearbody s.
  unfold registerStrike. destruct (shield_of s) as [sh0|] eqn:Es; [|cbn; rewrite Es; naive_solver].
  destruct (SipScan.Auth head) eqn:Ea; cbn [negb]; [|cbn; rewrite Es; naive_solver]. cbv zeta.
  destruct (isSource _ _ || refreshesBinding _ _ _ _ _) eqn:Ex; [cbn; rewrite Es; naive_solver|]. apply orb_false_iff in Ex as [Ex1 Ex2].
  destruct (countable now (unmap (ap_addr src)) (SipScan.Branch head) (SipScan.Nonce head) (SipScan.AuthKey head) replay (regGuardOf s)) as [c g] eqn:Ec.
  destruct c; cbn [negb]; [|cbn; unfold shield_of in *; cbn; rewrite Es; naive_solver]. intros _.
  rewrite E in Ec. assert (Hc : (countable now (unmap (ap_addr src)) (SipScan.Branch head) (SipScan.Nonce head) (SipScan.AuthKey head) replay
    (run_guard newRegGuard ops)).1 = true) by (by rewrite Ec).
  apply forged_attempts_never_count_aux in Hc as (Hn & (t & a & b & ns & n & Hin & Hk & Hmem & Hh & _ & Ht) & _).
  split; [done|]. split; [done|]. split; [done|]. split; [done|].
  apply C in Hin as (i & res & Hi & Hcode & -> & -> & ->). by exists t, i, res, n.
Qed.
End Strikes.

(** *** A brute force *)

#[local] Existing Instance ListImpl.list_params.
#[local] Existing Instance ListImpl.list_headers.

Definition demo_metrics : regMetrics := mkMetrics 0 (fun _ => 0) 0 0 0 0 0.

Definition demo_reg_server : regServer :=
  mkRegServer Admission.demo_server newRegGuard newEnumLimiter newCooldownTable demo_metrics.

Definition demo_attempt (branch : gostring) (auth : bool) : bindingInput :=
  mkInput (str "tok") (str "eve@x") (str "eve") (str "c9") (str "udp") (mkAddrPort (ip4 203 0 113 77) 5060) 0 false None false
    (SipScan.mkHead branch (str "c9") (str "eve@x") auth (str "eve") (str "n1") 5).

Definition demo_challenge : response :=
  mkResponse 401 (mkMsg [HOther (str "WWW-Authenticate") (str "Digest realm=x, nonce=n1")] (@nil Z) (@nil Z) (@nil Z) (@nil Z)).

Definition demo_events : list guard_event :=
  [Outcome 100 (demo_attempt (str "b0") false) demo_challenge; Outcome 200 (demo_attempt (str "b1") true) demo_challenge;
   Outcome 300 (demo_attempt (str "b2") true) demo_challenge].

Lemma strikes_need_a_challenge_witness :
  (registerStrike demo_cfg (fun _ _ => false) 400 (mkAddrPort (ip4 203 0 113 77) 5060) (in_head (demo_attempt (str "b3") true)) false
     (run_ops (guard_event_step hide_text demo_cfg (fun _ _ => false) false) demo_reg_server demo_events)).1 = true /\
  exists t i res n, Outcome t i res ∈ demo_events /\ (rs_status res = 401 \/ rs_status res = 407) /\
    regHash n = regHash (str "n1") /\ time_sub 400 t < regNonceTTL.
Proof.
  assert (H : (registerStrike demo_cfg (fun _ _ => false) 400 (mkAddrPort (ip4 203 0 113 77) 5060) (in_head (demo_attempt (str "b3") true)) false
     (run_ops (guard_event_step hide_text demo_cfg (fun _ _ => false) false) demo_reg_server demo_events)).1 = true) by (vm_compute; reflexivity).
  split; [exact H|].
  destruct (strikes_need_a_challenge hide_text demo_cfg (fun _ _ => false) false demo_events demo_reg_server 400
    (mkAddrPort (ip4 203 0 113 77) 5060) (in_head (demo_attempt (str "b3") true)) false eq_refl (or_intror H))
    as (_ & _ & _ & _ & t & i & res & n & H1 & H2 & _ & _ & H3 & H4).
  exists t, i, res, n. split; [exact H1|]. split; [exact H2|]. split; [exact H3|exact H4].
Defined.
