(* ===== verification/MediaAnchor.v ===== *)
(** Anchoring a call's media (internal/edge/media.go, mediapool.go, codecs.go
    and the exchanges of offerless.go).

    Every SDP body the proxy sends is constructed, never relayed: a handler
    parses what one side sent, filters its codecs, allocates or finds the
    call's media session and builds a body that names the proxy's own media
    address and port.  The handlers are programs of a state-and-error monad
    over [anchorState]: the dialog table ([Dialog]), the shared
    [mediaSession] records on a heap, the port pools and sockets, the random
    source and the goroutines that wait for browser legs.  A handler runs as
    one step; the interleavings of the table's critical sections are in
    [DialogInv], those of packets in [MediaSession] and [WebRtcSession].
    pion's SDP decoder, the SRTP contexts, the random source and the system's
    binds are parameters. *)

From S2P Require Import Prelude GoTime GoText GoEncoding Netip SipAddr SipMsg SipRequest Config PortPool Latch MediaSession.
From S2P Require Import SdpCodec SdpCrypto SdpParse SdpBuild Topology EdgeSdes WebRtcLeg WebRtcSession Dialog Hide.

Open Scope Z_scope.

(** ** Codec policy (codecs.go) *)

Definition supportedCodecs : list gostring := [str "pcmu"; str "pcma"; str "opus"; str "telephone-event"].

Definition codecSupported (name : gostring) : bool := existsb (beq (to_lower name)) supportedCodecs.

Definition filterCodecs (cs : list Codec) : list Codec := List.filter (fun c => codecSupported (SdpCodec.Name c)) cs.

(** ** Pools (mediapool.go) *)

Definition publicDestPolicy (bind : Addr) (t : topology) : DestPolicy :=
  let adv := unmap (publicMediaIP t) in mkPolicy true (is_private adv || in_cgnat adv) [adv; bind; privateMediaIP t].

(** The parameters of the public and the private pool. *)
Definition newMediaPools (r : PortRange) (publicBind : Addr) (t : topology) (timeout : Z) : PlaneParams * PlaneParams :=
  let plane bind advertised dest :=
    mkParams (Min r) (Max r) bind timeout (is_loopback bind || is_loopback advertised) dest in
  (plane publicBind (publicMediaIP t) (publicDestPolicy publicBind t),
   plane (privateMediaIP t) (privateMediaIP t) (mkPolicy false false [])).

(** The pools' identities in the world. *)
Definition pubPool : nat := 0%nat.
Definition privPool : nat := 1%nat.

Definition side_of_plane (p : plane) : Side := match p with planePublic => SideA | planePrivate => SideB end.

Inductive calleeKind := calleeUpstream | calleeClient | calleeCarrier.

#[export] Instance calleeKind_eq_dec : EqDecision calleeKind.
Proof. solve_decision. Defined.

Definition calleePlane (k : calleeKind) : plane := match k with calleeUpstream => planePrivate | _ => planePublic end.

Definition isBrowserTransport (tr : gostring) : bool := beq tr (str "ws") || beq tr (str "wss").

(** [netip.ParseAddrPort] *)
Definition ParseAddrPort (s : gostring) : option AddrPort :=
  match last_index_byte s 58 with
  | None => None
  | Some i =>
      let ip := take i s in let port := drop (S i) s in
      if bool_decide (ip = []) || bool_decide (port = []) then None
      else
        let bracketed := match ip with 91 :: _ => true | _ => false end in
        if bracketed && ((len ip <? 2) || negb (bool_decide (last ip = Some 93))) then None
        else
          let ip := if bracketed then take (length ip - 2) (drop 1 ip) else ip in
          match parse_uint port 16, parse_addr ip with
          | Some n, Some a => if (bracketed && negb (is6 a)) || (negb bracketed && is6 a) then None else Some (mkAddrPort a n)
          | _, _ => None
          end
  end.

(** ** Errors *)

Inductive anchorError :=
  | errSDP (e : parseError)
  | errNoUsableCodec | errRenumbered
  | errShuttingDown
  | errWebRTCOff                     (* a WebRTC offer arrived but WebRTC is not enabled *)
  | errWebRTCDisabled
  | errRTCPMux                       (* a WebRTC offer without a=rtcp-mux *)
  | errSDES (e : sdesError) | errSDESSwitch
  | errPortsExhausted
  | errWebRTCLeg (e : legError)
  | errBuild (e : buildError)
  | errNoAnswer | errOfferTwice | errNotWebRTCAnswer | errNotRTP
  | errNil.                          (* a nil dereference: the handler panics *)

(** [negotiateError] *)
Definition anchor_negotiateError (e : SdpCodec.negotiateError) : anchorError :=
  match e with ErrRenumbered _ => errRenumbered | _ => errNoUsableCodec end.

(** What [NewWebRTCLeg] and the pools return when no port is free. *)
Definition anchor_legError (e : legError) : anchorError := match e with errPool => errPortsExhausted | e => errWebRTCLeg e end.

Section Anchor.
Context `{SP : SipParams}.
Context {R Ctx : Type}.
Context (Unmarshal : gostring -> option SessionDescription).
Context (rand_read : Z -> R -> option (list Z) * R).
Context (newContext : SDESSuite -> list Z -> list Z -> option Ctx).
Context (listen_ok : Addr -> Z -> bool).
(** [Value()] of a header. *)
Context (Value : header -> gostring).

(** ** State *)

(** [ms_applied] is indexed by plane: public, then private. *)
Record mediaSession := mkMS {
  ms_rtp : option (@MediaSession.Session Ctx);
  ms_webrtc : option (@WebRTCSession Ctx);
  ms_sdes : option EdgeSdes.sdesLeg;
  ms_publicPort : Z; ms_privatePort : Z;
  ms_codecs : list Codec;
  ms_applied : two AddrPort;
  ms_closed : bool                   (* closeOnce *)
}.

Definition with_rtp (v : option MediaSession.Session) (m : mediaSession) : mediaSession :=
  mkMS v (ms_webrtc m) (ms_sdes m) (ms_publicPort m) (ms_privatePort m) (ms_codecs m) (ms_applied m) (ms_closed m).
Definition with_webrtc (v : option WebRTCSession) (m : mediaSession) : mediaSession :=
  mkMS (ms_rtp m) v (ms_sdes m) (ms_publicPort m) (ms_privatePort m) (ms_codecs m) (ms_applied m) (ms_closed m).
Definition with_sdes (v : option EdgeSdes.sdesLeg) (m : mediaSession) : mediaSession :=
  mkMS (ms_rtp m) (ms_webrtc m) v (ms_publicPort m) (ms_privatePort m) (ms_codecs m) (ms_applied m) (ms_closed m).
Definition setNegotiated (v : list Codec) (m : mediaSession) : mediaSession :=
  mkMS (ms_rtp m) (ms_webrtc m) (ms_sdes m) (ms_publicPort m) (ms_privatePort m) v (ms_applied m) (ms_closed m).
Definition seedApplied (p : plane) (a : AddrPort) (m : mediaSession) : mediaSession :=
  mkMS (ms_rtp m) (ms_webrtc m) (ms_sdes m) (ms_publicPort m) (ms_privatePort m) (ms_codecs m)
    (upd_side (side_of_plane p) (fun _ => a) (ms_applied m)) (ms_closed m).
Definition with_closed (v : bool) (m : mediaSession) : mediaSession :=
  mkMS (ms_rtp m) (ms_webrtc m) (ms_sdes m) (ms_publicPort m) (ms_privatePort m) (ms_codecs m) (ms_applied m) v.

(** A goroutine of [startWebRTC]: its session, the signalled fingerprint, and
    whether it has passed the first half of [WebRTCSession.Start]. *)
Record waiter := mkWaiter { wt_media : nat; wt_fp : option SdpParse.Fingerprint; wt_begun : bool }.

Record anchorState := mkAS {
  as_tab : dialogTable;
  as_media : gmap nat mediaSession;
  as_next : nat;
  as_world : world;
  as_rnd : R;
  as_waiters : list waiter
}.

(** What the handlers read of the server; the pools' parameters are a
    snapshot ([Timeout] is hot). *)
Record server := mkServer {
  sv_topo : topology;
  sv_webrtcEnabled : bool;
  sv_identity : SdpParse.Fingerprint;
  sv_pub : PlaneParams; sv_priv : PlaneParams
}.

(** [mediaSession.Close]: the first call closes whichever session there is. *)
Definition close_session (m : mediaSession) (w : world) : mediaSession * world :=
  if ms_closed m then (m, w)
  else
    let m := with_closed true m in
    let '(m, w) := match ms_rtp m with
                   | Some s => let '(s, w) := MediaSession.closeWith CloseRequested s w in (with_rtp (Some s) m, w)
                   | None => (m, w)
                   end in
    match ms_webrtc m with
    | Some x => let '(x, w) := CloseSession x w in (with_webrtc (Some x) m, w)
    | None => (m, w)
    end.

Definition Done (m : mediaSession) : bool :=
  match ms_webrtc m with
  | Some x => ws_done x
  | None => match ms_rtp m with Some s => MediaSession.done s | None => false end
  end.

Definition Cause (m : mediaSession) : Z :=
  match ms_webrtc m with
  | Some x => ws_cause x
  | None => match ms_rtp m with Some s => MediaSession.cause s | None => CloseNone end
  end.

(** ** The monad *)

Definition anchor (A : Type) : Type := anchorState -> (A + anchorError) * anchorState.

#[export] Instance anchor_ret : MRet anchor := fun A a s => (inl a, s).
#[export] Instance anchor_bind : MBind anchor := fun A B k m s =>
  match m s with (inl a, s) => k a s | (inr e, s) => (inr e, s) end.

Definition throw {A} (e : anchorError) : anchor A := fun s => (inr e, s).
Definition ensure (b : bool) (e : anchorError) : anchor unit := if b then mret tt else throw e.
Definition lift {A E} (inj : E -> anchorError) (r : A + E) : anchor A :=
  match r with inl a => mret a | inr e => throw (inj e) end.
(** A pointer the code follows. *)
Definition need {A} (o : option A) : anchor A := match o with Some a => mret a | None => throw errNil end.

Definition with_tab (t : dialogTable) (s : anchorState) : anchorState :=
  mkAS t (as_media s) (as_next s) (as_world s) (as_rnd s) (as_waiters s).
Definition with_media (m : gmap nat mediaSession) (s : anchorState) : anchorState :=
  mkAS (as_tab s) m (as_next s) (as_world s) (as_rnd s) (as_waiters s).
Definition with_world (w : world) (s : anchorState) : anchorState :=
  mkAS (as_tab s) (as_media s) (as_next s) w (as_rnd s) (as_waiters s).
Definition with_rnd (r : R) (s : anchorState) : anchorState :=
  mkAS (as_tab s) (as_media s) (as_next s) (as_world s) r (as_waiters s).
Definition with_waiters (l : list waiter) (s : anchorState) : anchorState :=
  mkAS (as_tab s) (as_media s) (as_next s) (as_world s) (as_rnd s) l.

Definition modify (f : anchorState -> anchorState) : anchor unit := fun s => (inl tt, f s).
Definition gets {A} (f : anchorState -> A) : anchor A := fun s => (inl (f s), s).

(** Closing the session with this address. *)
Definition close_at (s : anchorState) (i : nat) : anchorState :=
  match as_media s !! i with
  | Some m => let '(m, w) := close_session m (as_world s) in with_world w (with_media (<[i := m]> (as_media s)) s)
  | None => s
  end.

(** An operation of the dialog table; the sessions it closes are closed. *)
Definition tabling {A} (f : dialogTable -> A * dialogTable) : anchor A := fun s =>
  let '(a, t) := f (as_tab s) in
  (inl a, fold_left close_at (drop (length (t_closedMedia (as_tab s))) (t_closedMedia t)) (with_tab t s)).
Definition tabling_ (f : dialogTable -> dialogTable) : anchor unit := tabling (fun t => (tt, f t)).
Definition look {A} (f : dialogTable -> A) : anchor A := gets (fun s => f (as_tab s)).
Definition on_world {A} (f : world -> A * world) : anchor A := fun s =>
  let '(a, w) := f (as_world s) in (inl a, with_world w s).
Definition random {A} (f : R -> A * R) : anchor A := fun s => let '(a, r) := f (as_rnd s) in (inl a, with_rnd r s).

Definition media_at (i : nat) : anchor mediaSession := fun s => need (as_media s !! i) s.
Definition put_media (i : nat) (m : mediaSession) : anchor unit := modify (fun s => with_media (<[i := m]> (as_media s)) s).
Definition on_media (i : nat) (f : mediaSession -> mediaSession) : anchor unit := m ← media_at i; put_media i (f m).
Definition new_media (m : mediaSession) : anchor nat := fun s =>
  (inl (as_next s), mkAS (as_tab s) (<[as_next s := m]> (as_media s)) (S (as_next s)) (as_world s) (as_rnd s) (as_waiters s)).

(** [d.session()], where the code goes on to use it. *)
Definition session_of (d : nat) : anchor nat := o ← look (session d); need o.

(** ** SDES on a session *)

(** Without a leg the plan is empty and the offer plain. *)
Definition plan_answer (i : nat) (a : Audio) : anchor sdesPlan :=
  m ← media_at i;
  match ms_sdes m with
  | None => mret no_plan
  | Some l => r ← random (planAnswer rand_read l a); lift errSDES r
  end.

Definition leg_lines (f : EdgeSdes.sdesLeg -> R -> (list Crypto + sdesError) * EdgeSdes.sdesLeg * R) (i : nat) : anchor (list Crypto) :=
  m ← media_at i;
  match ms_sdes m with
  | None => mret []
  | Some l =>
      '(r, l) ← random (f l);
      _ ← put_media i (with_sdes (Some l) m);
      lift errSDES r
  end.

Definition sdes_offer : nat -> anchor (list Crypto) := leg_lines (sdesOffer rand_read).
Definition answer_set (initial : bool) : nat -> anchor (list Crypto) := leg_lines (answerSet rand_read initial).

Definition check_answer (i : nat) (a : Audio) (offered : list Crypto) : anchor sdesPlan :=
  m ← media_at i;
  match ms_sdes m with None => mret no_plan | Some l => lift errSDES (checkAnswer l a offered) end.

(** [commit], with its error as a value. *)
Definition commit_plan (i : nat) (p : sdesPlan) : anchor (option sdesError) :=
  m ← media_at i;
  match ms_sdes m with
  | None => mret None
  | Some l =>
      let '(e, lm) := commit newContext p (mkLM l (ms_rtp m)) in
      _ ← put_media i (with_rtp (lm_rtp lm) (with_sdes (Some (lm_leg lm)) m));
      mret e
  end.

Definition commit_or_fail (i : nat) (p : sdesPlan) : anchor unit :=
  e ← commit_plan i p; match e with Some e => throw (errSDES e) | None => mret tt end.

(** ** Allocation (media.go) *)

Definition parseSDP (sv : server) (body : gostring) : SdpParse.Session + parseError :=
  ParseWithOptions Unmarshal body (is_loopback (publicMediaIP (sv_topo sv)) || is_loopback (privateMediaIP (sv_topo sv))).

(** The address and the RTCP address an SDP signals. *)
Definition audio_remote (a : Audio) : AddrPort := mkAddrPort (a_address a) (uint16 (a_port a)).
Definition audio_rtcp (a : Audio) : AddrPort :=
  if 0 <? a_rtcpport a then mkAddrPort (a_address a) (uint16 (a_rtcpport a)) else ap_zero.

Definition latches : SessionConfig := mkSConf (mkTwo LatchLoose LatchStrict) 0.

Definition allocate_rtp (sv : server) : anchor (@MediaSession.Session Ctx) :=
  r ← on_world (allocateAcross (Ctx:=Ctx) listen_ok pubPool (sv_pub sv) privPool (sv_priv sv) latches);
  match r with Some s => mret s | None => throw errPortsExhausted end.

(** The RTCP address of an offer, where it names one. *)
Definition seed_rtcp (x : Side) (a : Audio) (s : MediaSession.Session) : @MediaSession.Session Ctx :=
  if 0 <? a_rtcpport a then SetRTCPRemote x (audio_rtcp a) s else s.

Definition allocateRTP (sv : server) (offer : SdpParse.Session) (src : Addr) (pol : srtpPolicy) (pin : bool) : anchor nat :=
  _ ← ensure (negb (bool_decide (pol = srtpImpossible))) (errSDES errSDESInsecure);
  sess ← allocate_rtp sv;
  let a := s_audio offer in
  let sess := PinSeedToSignallingSource SideA pin (SetSignallingSource SideA src sess) in
  let sess := seed_rtcp SideA a (MediaSession.SetRemote SideA (audio_remote a) sess) in
  new_media (seedApplied planePublic (audio_remote a)
    (mkMS (Some sess) None (newSDESLeg pol) (of_A (ports sess)) (of_B (ports sess)) [] (mkTwo ap_zero ap_zero) false)).

(** [newICECredentials] on the random source.  It is drawn before the port
    is: nothing else the code does depends on which comes first. *)
Definition draw_credentials : anchor (option (gostring * gostring)) :=
  random (fun rnd => let '(b, rnd) := rand_read 21 rnd in (newICECredentials <$> b, rnd)).

(** A leg and its session; the leg is closed when the private pair is not to be had. *)
Definition allocate_browser (sv : server) (cfg : WebRTCLegConfig) : anchor WebRTCSession :=
  creds ← draw_credentials;
  r ← on_world (NewWebRTCLeg (Ctx:=Ctx) listen_ok pubPool (sv_pub sv) cfg creds);
  leg ← lift anchor_legError r;
  o ← on_world (NewWebRTCSession listen_ok leg privPool (sv_priv sv) LatchStrict 0);
  match o with
  | Some x => mret x
  | None => _ ← on_world (WebRtcLeg.Close leg); throw errPortsExhausted
  end.

Definition on_browser {A} (i : nat) (f : WebRTCSession -> world -> A * (WebRTCSession * world)) : anchor A :=
  m ← media_at i;
  x ← need (ms_webrtc m);
  '(a, x) ← on_world (fun w => let '(a, (x, w)) := f x w in ((a, x), w));
  _ ← put_media i (with_webrtc (Some x) m);
  mret a.

(** [startWebRTC]: the leg is started and a goroutine waits for it. *)
Definition startWebRTC (i : nat) (fp : option SdpParse.Fingerprint) : anchor unit :=
  _ ← on_browser i (fun x w => let '(g, w) := WebRtcLeg.Start (ws_leg x) w in (tt, (with_leg g x, w)));
  modify (fun s => with_waiters (as_waiters s ++ [mkWaiter i fp false]) s).

Definition browser_media (x : WebRTCSession) (codecs : list Codec) : mediaSession :=
  mkMS None (Some x) None (PublicPort x) (PrivateRTPPort x) codecs (mkTwo ap_zero ap_zero) false.

Definition allocateWebRTC (sv : server) (offer : SdpParse.Session) : anchor nat :=
  let a := s_audio offer in
  let '(hash, value) := match a_fingerprint a with Some f => (SdpParse.fp_hash f, SdpParse.fp_value f) | None => ([], []) end in
  x ← allocate_browser sv (mkLegConfig (publicMediaIP (sv_topo sv)) false (a_ufrag a) (a_pwd a) (a_setup a)
                             (sv_webrtcEnabled sv) hash value);
  i ← new_media (browser_media x []);
  _ ← startWebRTC i (a_fingerprint a);
  mret i.

Definition allocateOfferedWebRTC (sv : server) : anchor WebRTCSession :=
  allocate_browser sv (mkLegConfig (publicMediaIP (sv_topo sv)) true [] [] [] (sv_webrtcEnabled sv) [] []).

(** The goroutine of [startWebRTC], up to the select of [start] and from it.
    [state] is what the certificate accessor returns if it is asked. *)
Definition waiter_begin (k : nat) : anchor unit :=
  ws ← gets as_waiters;
  match ws !! k with
  | Some (mkWaiter i fp false) =>
      r ← on_browser i (fun x w => let '(r, x) := begin_start x in (r, (x, w)));
      modify (fun s => with_waiters (match r with
                                     | None => <[k := mkWaiter i fp true]> (as_waiters s)
                                     | Some _ => delete k (as_waiters s)
                                     end) s)
  | _ => mret tt
  end.

Definition waiter_wake (now : Z) (k : nat) (why : wake) (state : option (list (list Z))) : anchor unit :=
  ws ← gets as_waiters;
  match ws !! k with
  | Some (mkWaiter i fp true) =>
      _ ← on_browser i (fun x w =>
        let '(e, (x, w)) := start now why (with_waiting false x) w in
        match e, fp with
        | None, Some f =>
            let '(e, g) := VerifyFingerprint (SdpParse.fp_hash f) (SdpParse.fp_value f) state (ws_leg x) in
            let x := with_leg g x in
            match e with Some _ => (tt, Fail x w) | None => (tt, (x, w)) end
        | _, _ => (tt, (x, w))
        end);
      modify (fun s => with_waiters (delete k (as_waiters s)) s)
  | _ => mret tt
  end.

(** ** Bodies *)

Definition anchorFor (sv : server) (m : mediaSession) (p : plane) : Addr * Z :=
  match p with
  | planePublic => (publicMediaIP (sv_topo sv), ms_publicPort m)
  | planePrivate => (privateMediaIP (sv_topo sv), ms_privatePort m)
  end.

Definition plain_build (at_ : Addr * Z) (codecs : list Codec) (dir : gostring) (origin : Z * Z) (crypto : list Crypto) : Build :=
  mkBuild at_.1 at_.2 codecs dir origin.1 origin.2 false false [] [] None [] crypto.

Definition setWebRTCBlock (sv : server) (leg : @WebRTCLeg Ctx) (b : Build) : Build :=
  mkBuild (b_address b) (b_port b) (b_codecs b) (b_direction b) (b_sessionid b) (b_sessionversion b) true true
    (g_localUfrag leg) (g_localPwd leg) (Some (sv_identity sv)) (DTLSSetup leg) (b_crypto b).

(** The WebRTC block goes on what is sent to a browser. *)
Definition browser_block (sv : server) (m : mediaSession) (toward : plane) (b : Build) : Build :=
  match toward, ms_webrtc m with planePublic, Some x => setWebRTCBlock sv (ws_leg x) b | _, _ => b end.

Definition with_crypto (c : list Crypto) (b : Build) : Build :=
  mkBuild (b_address b) (b_port b) (b_codecs b) (b_direction b) (b_sessionid b) (b_sessionversion b) (b_dtls b) (b_rtcpmux b)
    (b_ufrag b) (b_pwd b) (b_fingerprint b) (b_setup b) c.

Definition next_origin (f : dialogTable -> Z * Z * dialogTable) : anchor (Z * Z) := tabling f.

Record offerResult := mkOffer { o_dialog : nat; o_sdp : gostring; o_offer : SdpParse.Session }.

Definition requireRTCPMux (offer : SdpParse.Session) : anchor unit := ensure (a_rtcpmux (s_audio offer)) errRTCPMux.

Definition attach_media (d i : nat) : anchor unit :=
  ok ← tabling (attach d i); ensure ok errShuttingDown.

(** The codecs of an offer the proxy relays. *)
Definition usable (offer : SdpParse.Session) : anchor (list Codec) :=
  let codecs := filterCodecs (a_codecs (s_audio offer)) in
  _ ← ensure (HasMedia codecs) errNoUsableCodec; mret codecs.

Definition ensure_open (d : nat) : anchor unit := up ← look (open_ d); ensure up errShuttingDown.

Definition buildUpstreamOffer (sv : server) (d : nat) (offerBody : gostring) (src : Addr) : anchor offerResult :=
  offer ← lift errSDP (parseSDP sv offerBody);
  codecs ← usable offer;
  _ ← ensure_open d;
  i ← (if WebRTC (s_audio offer) then
         _ ← ensure (sv_webrtcEnabled sv) errWebRTCOff;
         _ ← requireRTCPMux offer;
         allocateWebRTC sv offer
       else
         pol ← look (publicSRTP d);
         name ← look (carrierName d);
         allocateRTP sv offer src pol (bool_decide (name = [])));
  _ ← on_media i (setNegotiated codecs);
  _ ← attach_media d i;
  _ ← plan_answer i (s_audio offer);
  origin ← next_origin (nextOrigin d planePrivate);
  m ← media_at i;
  body ← lift errBuild (Marshal (plain_build (anchorFor sv m planePrivate) codecs (a_direction (s_audio offer)) origin []));
  mret (mkOffer d body offer).

(** The media session of a call from the switch. *)
Definition allocatePublic (sv : server) (d : nat) (offer : SdpParse.Session) (codecs : list Codec) (toBrowser : bool) (src : Addr)
  : anchor mediaSession :=
  let a := s_audio offer in
  if toBrowser then
    _ ← ensure (sv_webrtcEnabled sv) errWebRTCDisabled;
    x ← allocateOfferedWebRTC sv;
    mret (browser_media (SetPrivateRemote (audio_remote a) x) codecs)
  else
    pol ← look (publicSRTP d);
    name ← look (carrierName d);
    _ ← ensure (negb (bool_decide (pol = srtpImpossible))) (errSDES errSDESInsecure);
    sess ← allocate_rtp sv;
    let sess := PinSeedToSignallingSource SideA (bool_decide (name = [])) sess in
    let sess := if is_valid src then SetSignallingSource SideA src sess else sess in
    let sess := seed_rtcp SideB a (MediaSession.SetRemote SideB (audio_remote a) sess) in
    mret (mkMS (Some sess) None (newSDESLeg pol) (of_A (ports sess)) (of_B (ports sess)) codecs (mkTwo ap_zero ap_zero) false).

Definition buildPublicOffer (sv : server) (d : nat) (offerBody : gostring) (toBrowser : bool) (src : Addr) : anchor offerResult :=
  offer ← lift errSDP (parseSDP sv offerBody);
  _ ← ensure (negb (SDES (s_audio offer))) errSDESSwitch;
  codecs ← usable offer;
  _ ← ensure_open d;
  m ← allocatePublic sv d offer codecs toBrowser src;
  i ← new_media (seedApplied planePrivate (audio_remote (s_audio offer)) m);
  _ ← attach_media d i;
  origin ← next_origin (nextOrigin d planePublic);
  m ← media_at i;
  let b := browser_block sv m planePublic (plain_build (anchorFor sv m planePublic) codecs (a_direction (s_audio offer)) origin []) in
  crypto ← sdes_offer i;
  body ← lift errBuild (Marshal (with_crypto crypto b));
  mret (mkOffer d body offer).

(** ** Answers *)

Definition checkOfferedWebRTC (answer : SdpParse.Session) : bool :=
  let a := s_audio answer in
  WebRTC a && a_rtcpmux a && existsb (beq (a_setup a)) [[]; str "active"; str "passive"].

Definition startOfferedWebRTC (i : nat) (answer : SdpParse.Session) : anchor unit :=
  let a := s_audio answer in
  let '(hash, value) := match a_fingerprint a with Some f => (SdpParse.fp_hash f, SdpParse.fp_value f) | None => ([], []) end in
  e ← on_browser i (fun x w =>
        let '(e, g) := WebRtcLeg.SetRemote (mkRemote (a_ufrag a) (a_pwd a) (a_setup a) hash value) (ws_leg x) in
        (e, (with_leg g x, w)));
  match e with Some e => throw (errWebRTCLeg e) | None => startWebRTC i (a_fingerprint a) end.

(** One side of the session is pointed at a signalled address. *)
Definition point (p : plane) (remote rtcp : AddrPort) (now : Z) (m : mediaSession) : mediaSession :=
  let prev := at_side (side_of_plane p) (ms_applied m) in
  let m := seedApplied p remote m in
  let moved := ap_valid prev && negb (bool_decide (prev = remote)) in
  match ms_webrtc m with
  | Some x =>
      match p with
      | planePrivate =>
          with_webrtc (Some (SetPrivateRemote remote (if moved then RelatchPrivate remote x else x))) m
      | planePublic => m
      end
  | None =>
      match ms_rtp m with
      | Some s =>
          let side := side_of_plane p in
          let s := if moved then Relatch side remote s else s in
          let s := MediaSession.SetRemote side remote s in
          let s := if ap_valid rtcp then SetRTCPRemote side rtcp s else s in
          with_rtp (Some (MediaSession.Start now s).2) m
      | None => m
      end
  end.

Definition pointMedia (now : Z) (i : nat) (p : plane) (remote rtcp : AddrPort) : anchor unit := on_media i (point p remote rtcp now).

(** An INVITE the proxy forwarded.  [offerless] says which builder turns the
    callee's first SDP into the caller's offer; the transactions are outside
    the model. *)
Inductive offerBuilder := publicBuilder (browser : bool) (src : Addr) | upstreamBuilder (src : Addr).

Record inviteLeg := mkInviteLeg {
  il_req : request; il_out : request;
  il_d : nat;
  il_offer : option offerResult; il_offerless : option offerBuilder;
  il_near : side; il_far : side; il_callee : calleeKind;
  il_calleeRemote : gostring; il_transport : gostring; il_fromPrivate : bool;
  il_resp : respHide
}.

Definition is_upstream (k : calleeKind) : bool := bool_decide (k = calleeUpstream).

Definition followFork (now : Z) (l : inviteLeg) (f : nat) : anchor unit :=
  let d := il_d l in
  cur ← look (lastApplied d);
  if bool_decide (cur = Some f) then mret tt
  else
    '(remote, rtcp, codecs) ← look (forkMedia f);
    i ← session_of d;
    (* a commit that fails is logged: the public leg then carries no media *)
    _ ← (match calleePlane (il_callee l) with
         | planePublic => plan ← look (forkSDES f); _ ← commit_plan i plan; mret tt
         | planePrivate => mret tt
         end);
    _ ← pointMedia now i (calleePlane (il_callee l)) remote rtcp;
    _ ← on_media i (setNegotiated codecs);
    tabling_ (setApplied d (Some f)).

(** The SRTP half of a fork's answer: the lines for the caller, and the plan
    that is applied when the media follows the fork. *)
Definition fork_srtp (l : inviteLeg) (i : nat) (offer answer : Audio) : anchor (list Crypto * sdesPlan) :=
  m ← media_at i;
  match ms_sdes m with
  | None => mret ([], no_plan)
  | Some _ =>
      if is_upstream (il_callee l) then
        plan ← plan_answer i offer;
        _ ← commit_or_fail i plan;
        mret (answerLines plan, no_plan)
      else
        offered ← answer_set true i;
        plan ← check_answer i answer offered;
        mret ([], plan)
  end.

(** The public callee's media is ranked by the address the INVITE was sent to. *)
Definition rank_callee (l : inviteLeg) (m : mediaSession) : mediaSession :=
  match calleePlane (il_callee l), ms_rtp m, ParseAddrPort (il_calleeRemote l) with
  | planePublic, Some s, Some to => with_rtp (Some (SetSignallingSource SideA (ap_addr to) s)) m
  | _, _, _ => m
  end.

Definition negotiateFork (sv : server) (now : Z) (l : inviteLeg) (f : nat) (answerBody : gostring) : anchor gostring :=
  answer ← lift errSDP (parseSDP sv answerBody);
  let a := s_audio answer in
  _ ← ensure (negb (is_upstream (il_callee l) && SDES a)) errSDESSwitch;
  offered ← need (il_offer l);
  let offer := o_offer offered in
  agreed ← lift anchor_negotiateError (Negotiate (filterCodecs (a_codecs (s_audio offer))) (a_codecs a));
  i ← session_of (il_d l);
  m ← media_at i;
  let offeredWebRTC := bool_decide (il_callee l = calleeClient) && bool_decide (is_Some (ms_webrtc m)) in
  _ ← (if offeredWebRTC then ensure (checkOfferedWebRTC answer) errNotWebRTCAnswer
       else if is_upstream (il_callee l) then mret tt
       else ensure (bool_decide (is_Some (ms_rtp m))) errNotRTP);
  '(lines, plan) ← fork_srtp l i (s_audio offer) a;
  let callerPlane := otherPlane (calleePlane (il_callee l)) in
  origin ← next_origin (nextForkOrigin f);
  m ← media_at i;
  let b := browser_block sv m callerPlane (plain_build (anchorFor sv m callerPlane) agreed (a_direction a) origin lines) in
  body ← lift errBuild (MarshalDeclining b (Some offer));
  _ ← (if offeredWebRTC then startOfferedWebRTC i answer else mret tt);
  _ ← tabling_ (setForkAnswer f (Some body) agreed (audio_remote a) (audio_rtcp a));
  _ ← tabling_ (setForkSDES f plan);
  _ ← on_media i (rank_callee l);
  _ ← followFork now l f;
  mret body.

(** ** Offerless INVITEs (offerless.go) *)

Definition requiresTag (hs : list header) (tag : gostring) : bool :=
  existsb (fun h => existsb (fun tok => equal_fold (trim_space tok) tag) (split (Value h) 44)) (GetHeaders (str "Require") hs).

Definition tag_100rel : gostring := str "100rel".

Definition is_2xx (res : response) : bool := Z.quot (rs_status res) 100 =? 2.

Definition body_of (res : response) : gostring := m_body (rs_msg res).

(** The answer the media already follows, for a 2xx without a body. *)
Definition answer_followed (d : nat) : anchor (option gostring) :=
  a ← look (lastApplied d);
  match a with Some f => look (Dialog.forkAnswer f) | None => throw errNoAnswer end.

Definition build_offerless (sv : server) (d : nat) (b : offerBuilder) (body : gostring) : anchor offerResult :=
  match b with
  | publicBuilder browser src => buildPublicOffer sv d body browser src
  | upstreamBuilder src => buildUpstreamOffer sv d body src
  end.

Definition offerlessFork (sv : server) (l : inviteLeg) (b : offerBuilder) (f : nat) (res : response) : anchor (option gostring) :=
  let d := il_d l in
  if beq (body_of res) [] then
    if negb (is_2xx res) then mret None else answer_followed d
  else if negb (is_2xx res) && negb (requiresTag (rs_headers res) tag_100rel) then mret None
  else
    sess ← look (session d);
    _ ← ensure (bool_decide (sess = None)) errOfferTwice;
    offer ← build_offerless sv d b (body_of res);
    let callerPlane := otherPlane (calleePlane (il_callee l)) in
    _ ← tabling_ (setForkAnswer f (Some (o_sdp offer)) [] ap_zero ap_zero);
    _ ← tabling_ (adoptOrigin d f callerPlane);
    _ ← tabling_ (setOwed d (Some (o_offer offer)) (calleePlane (il_callee l)) callerPlane
                    (if is_2xx res then None else Some f) (CSeqNumber (rq_headers (il_req l))) false);
    mret (Some (o_sdp offer)).

(** The body the caller is sent with one response; [None] when there is none. *)
Definition forkAnswer (sv : server) (now : Z) (l : inviteLeg) (res : response) : anchor (option gostring) :=
  let d := il_d l in
  o ← tabling (fork now d (ToTag (rs_headers res)));
  f ← need o;
  if bool_decide (is_Some (il_offerless l)) && negb (is_2xx res) && negb (requiresTag (rs_headers res) tag_100rel) then mret None
  else
    prev ← look (Dialog.forkAnswer f);
    match prev with
    | Some body =>
        owed ← look (owedOnFork d f);
        _ ← (if (owed : bool) then mret tt else followFork now l f);
        mret (Some body)
    | None =>
        match il_offerless l with
        | Some b => offerlessFork sv l b f res
        | None =>
            if beq (body_of res) [] then
              if negb (is_2xx res) then mret None else answer_followed d
            else
              body ← negotiateFork sv now l f (body_of res); mret (Some body)
        end
    end.

(** ** In-dialog bodies *)

Definition rebuildInDialogOffer (sv : server) (d : nat) (f : option nat) (body : gostring) (toward : plane)
  : anchor (gostring * SdpParse.Session) :=
  offer ← lift errSDP (parseSDP sv body);
  let a := s_audio offer in
  _ ← ensure (negb (bool_decide (toward = planePublic) && SDES a)) errSDESSwitch;
  codecs ← usable offer;
  i ← session_of d;
  m ← media_at i;
  _ ← (if bool_decide (toward = planePrivate) && bool_decide (is_Some (ms_webrtc m)) then requireRTCPMux offer else mret tt);
  _ ← (if bool_decide (toward = planePrivate) then _ ← plan_answer i a; mret tt else mret tt);
  origin ← next_origin (originFor d f toward);
  let b := browser_block sv m toward (plain_build (anchorFor sv m toward) codecs (a_direction a) origin []) in
  crypto ← (match toward with planePublic => sdes_offer i | planePrivate => mret [] end);
  out ← lift errBuild (Marshal (with_crypto crypto b));
  mret (out, offer).

(** The keys an in-dialog answer settles, and the lines it carries. *)
Definition answer_srtp (i : nat) (offer answer : Audio) (toward : plane) : anchor (list Crypto) :=
  m ← media_at i;
  match ms_sdes m with
  | None => mret []
  | Some _ =>
      plan ← (match toward with
              | planePublic => plan_answer i offer
              | planePrivate => offered ← answer_set false i; check_answer i answer offered
              end);
      _ ← commit_or_fail i plan;
      mret (match toward with planePublic => answerLines plan | planePrivate => [] end)
  end.

Definition rebuildInDialogAnswer (sv : server) (d : nat) (f : option nat) (offer : SdpParse.Session) (body : gostring) (toward : plane)
  : anchor (gostring * SdpParse.Session) :=
  answer ← lift errSDP (parseSDP sv body);
  let a := s_audio answer in
  _ ← ensure (negb (bool_decide (toward = planePublic) && SDES a)) errSDESSwitch;
  agreed ← lift anchor_negotiateError (Negotiate (filterCodecs (a_codecs (s_audio offer))) (a_codecs a));
  i ← session_of d;
  lines ← answer_srtp i (s_audio offer) a toward;
  _ ← on_media i (setNegotiated agreed);
  m ← media_at i;
  origin ← next_origin (originFor d f toward);
  let b := browser_block sv m toward (plain_build (anchorFor sv m toward) agreed (a_direction a) origin lines) in
  out ← lift errBuild (MarshalDeclining b (Some offer));
  mret (out, answer).

(** [applyReInvite] (indialog.go): both sides follow what they signalled. *)
Definition apply_side (now : Z) (d : nat) (p : plane) (body : option SdpParse.Session) : anchor unit :=
  match body with
  | None => mret tt
  | Some s =>
      let a := s_audio s in
      if negb (is_valid (a_address a)) || is_unspecified (a_address a) || (a_port a <=? 0) then mret tt
      else i ← session_of d; pointMedia now i p (audio_remote a) (audio_rtcp a)
  end.

Definition applyReInvite (now : Z) (d : nat) (offerer : plane) (offer : option SdpParse.Session) (answerer : plane)
  (answer : option SdpParse.Session) : anchor unit :=
  _ ← apply_side now d offerer offer;
  apply_side now d answerer answer.

(** ** The answer owed to a delayed offer *)

Definition prepareOwed (sv : server) (d : nat) (o : owedAnswer) (body : gostring) : anchor (gostring * SdpParse.Session) :=
  _ ← ensure (negb (beq body [])) errNoAnswer;
  sess ← look (session d);
  _ ← ensure (bool_decide (is_Some sess)) errNoAnswer;
  offer ← need (w_offer o);
  '(out, answer) ← rebuildInDialogAnswer sv d (w_fork o) offer body (w_offerer o);
  i ← session_of d;
  m ← media_at i;
  _ ← (if bool_decide (is_Some (ms_webrtc m)) && bool_decide (w_answerer o = planePublic)
       then ensure (checkOfferedWebRTC answer) errNotWebRTCAnswer else mret tt);
  mret (out, answer).

Definition noteForkAnswered (d f : nat) (offer : SdpParse.Session) : anchor unit :=
  let a := s_audio offer in
  let named := is_valid (a_address a) && negb (is_unspecified (a_address a)) && (0 <? a_port a) in
  let remote := if named then audio_remote a else ap_zero in
  let rtcp := if named then audio_rtcp a else ap_zero in
  body ← look (Dialog.forkAnswer f);
  i ← session_of d;
  m ← media_at i;
  tabling_ (noteForkUpdate d (Some f) body remote rtcp (ms_codecs m)).

Definition applyOwed (now : Z) (d : nat) (o : owedAnswer) (answer : SdpParse.Session) : anchor unit :=
  i ← session_of d;
  m ← media_at i;
  _ ← (if bool_decide (is_Some (ms_webrtc m)) && bool_decide (w_answerer o = planePublic)
       then startOfferedWebRTC i answer else mret tt);
  _ ← applyReInvite now d (w_offerer o) (w_offer o) (w_answerer o) (Some answer);
  match w_fork o, w_offer o with
  | Some f, Some offer => noteForkAnswered d f offer
  | _, _ => mret tt
  end.

Definition answerFromACK (sv : server) (now : Z) (d : nat) (o : owedAnswer) (body : gostring) : anchor gostring :=
  '(out, answer) ← prepareOwed sv d o body;
  _ ← applyOwed now d o answer;
  mret out.
End Anchor.
