(* ===== verification/AnchorSafety.v ===== *)
(** What the anchoring handlers keep ([MediaAnchor]).

    A small Hoare logic for the monad of [MediaAnchor], the invariant that
    ties the pools, the media sessions and the dialog table together, and the
    theorems: no port is lost or held twice over any run of the handlers, and
    every body that leaves is built on the proxy's own address and port. *)

From S2P Require Import Prelude GoTime Netip PortPool Latch MediaSession SdpCodec SdpParse SdpBuild Topology EdgeSdes.
From S2P Require Import WebRtcLeg WebRtcSession Dialog DialogInv MediaAnchor.

Open Scope Z_scope.

(** ** Ports held *)

Definition pool_id (p : plane) : nat := match p with planePublic => pubPool | planePrivate => privPool end.

Section Holds.
Context {Ctx : Type}.

Definition sess_holds (s : @MediaSession.Session Ctx) (p : plane) : option Z :=
  if bool_decide (state s = sessClosed) then None else Some (at_side (side_of_plane p) (ports s)).

Definition ws_holds (x : @WebRTCSession Ctx) (p : plane) : option Z :=
  match p with
  | planePublic => if closed_leg x then None else Some (g_port (ws_leg x))
  | planePrivate => if bool_decide (ws_state x = sessClosed) then None else Some (ws_privPort x)
  end.

Definition holds (m : mediaSession) (p : plane) : option Z :=
  match ms_rtp m, ms_webrtc m with
  | Some s, _ => sess_holds s p
  | None, Some x => ws_holds x p
  | None, None => None
  end.

(** Exactly one session, on the two pools; its ports are the ones the bodies
    advertise; once closed it holds none. *)
Definition wf_rtp (s : @MediaSession.Session Ctx) (m : mediaSession) : Prop :=
  ms_rtp m = Some s /\ ms_webrtc m = None /\ pools s = mkTwo pubPool privPool /\
  ms_publicPort m = of_A (ports s) /\ ms_privatePort m = of_B (ports s).
Definition wf_browser (x : @WebRTCSession Ctx) (m : mediaSession) : Prop :=
  ms_rtp m = None /\ ms_webrtc m = Some x /\ g_pool (ws_leg x) = pubPool /\ ws_privPool x = privPool /\
  ms_publicPort m = g_port (ws_leg x) /\ ms_privatePort m = ws_privPort x /\ (ws_state x = sessClosed -> closed_leg x = true).
Definition wf_media (m : mediaSession) : Prop :=
  ((exists s, wf_rtp s m) \/ (exists x, wf_browser x m)) /\
  (ms_closed m = true -> forall p, holds m p = None).

(** On each plane either nothing changed or the port went back. *)
Definition use_step (h h' : plane -> option Z) (w w' : world) : Prop :=
  (world_ok w -> world_ok w') /\
  forall p, (h' p = h p /\ inUse (wpools w' (pool_id p)) = inUse (wpools w (pool_id p))) \/
            (exists z, h p = Some z /\ h' p = None /\ inUse (wpools w' (pool_id p)) = inUse (wpools w (pool_id p)) ∖ {[ z ]}).

Lemma use_refl h h' w : (forall p, h' p = h p) -> use_step h h' w w.
Proof. intros E. split; [done|]. intros p. left. by rewrite E. Qed.

Lemma use_trans h1 h2 h3 w1 w2 w3 : use_step h1 h2 w1 w2 -> use_step h2 h3 w2 w3 -> use_step h1 h3 w1 w3.
Proof.
  intros [O1 S1] [O2 S2]. split; [auto|]. intros p. destruct (S1 p) as [[E1 U1]|(z & H1 & N1 & U1)], (S2 p) as [[E2 U2]|(y & H2 & N2 & U2)].
  - left. split; congruence.
  - right. exists y. split; [congruence|]. split; [done|]. congruence.
  - right. exists z. split; [done|]. split; [congruence|]. congruence.
  - congruence.
Qed.

Lemma release_ok port p : pool_ok p -> pool_ok (release port p).
Proof. intros [A B]. split; [done|]. intros q [H _]%elem_of_difference. by apply B. Qed.

Lemma set_pool_ok i p f : (forall j, pool_ok (f j)) -> pool_ok p -> forall j, pool_ok (set_pool i p f j).
Proof. intros H K j. unfold set_pool. by case_if. Qed.

(** *** Closing *)

Lemma sess_close_use c (s : @MediaSession.Session Ctx) w : pools s = mkTwo pubPool privPool ->
  use_step (sess_holds s) (sess_holds (MediaSession.closeWith c s w).1) w (MediaSession.closeWith c s w).2.
Proof.
  intros P. unfold MediaSession.closeWith. destruct (bool_decide (state s = sessClosed)) eqn:E.
  - by apply use_refl.
  - cbn [fst snd]. rewrite P. split.
    + intros W j. cbn [wpools]. apply set_pool_ok; [|apply release_ok]; intros; try (apply set_pool_ok; [apply W|by apply release_ok, W]).
    + intros p. right. unfold sess_holds. rewrite E. cbn [state ports wpools]. rewrite bool_decide_eq_true_2 by done.
      eexists. split; [reflexivity|]. split; [done|]. rewrite set_pool_inUse. destruct p; cbn; done.
Qed.

Lemma sess_close_closed c (s : @MediaSession.Session Ctx) w : state (MediaSession.closeWith c s w).1 = sessClosed.
Proof. unfold MediaSession.closeWith. case_if; [by breflect|done]. Qed.

Lemma sess_close_shape c (s : @MediaSession.Session Ctx) w : pools (MediaSession.closeWith c s w).1 = pools s /\ ports (MediaSession.closeWith c s w).1 = ports s.
Proof. unfold MediaSession.closeWith. by case_if. Qed.

(** Steps of a browser session, by what they do to its ports. *)
Definition ws_same (x x' : @WebRTCSession Ctx) : Prop :=
  g_pool (ws_leg x') = g_pool (ws_leg x) /\ g_port (ws_leg x') = g_port (ws_leg x) /\
  ws_privPool x' = ws_privPool x /\ ws_privPort x' = ws_privPort x.

Definition tidy_end (x : @WebRTCSession Ctx) : Prop := ws_state x = sessClosed -> closed_leg x = true.

Definition ws_moves (s s' : @WebRTCSession Ctx * world) : Prop :=
  ws_same s.1 s'.1 /\ (tidy_end s.1 -> tidy_end s'.1) /\
  (g_pool (ws_leg s.1) = pubPool -> ws_privPool s.1 = privPool -> use_step (ws_holds s.1) (ws_holds s'.1) s.2 s'.2).

Lemma ws_moves_refl s : ws_moves s s.
Proof. split; [by repeat split|]. split; [done|]. intros _ _. by apply use_refl. Qed.

Lemma ws_moves_trans s1 s2 s3 : ws_moves s1 s2 -> ws_moves s2 s3 -> ws_moves s1 s3.
Proof.
  intros [(A1 & A2 & A3 & A4) [T1 U1]] [(B1 & B2 & B3 & B4) [T2 U2]]. split; [unfold ws_same; repeat split; congruence|].
  split; [auto|]. intros P Q. eapply use_trans; [by apply U1|apply U2; congruence].
Qed.

(** A step that leaves the leg and the session's state. *)
Lemma ws_moves_frame x x' w : same_frame x x' -> ws_moves (x, w) (x', w).
Proof.
  intros (L & PP & PB & PN & _ & S & _). split; [unfold ws_same; cbn; rewrite L; by repeat split|].
  split; [unfold tidy_end, closed_leg; cbn; by rewrite L, S|].
  intros _ _. apply use_refl. cbn. intros [|]; unfold ws_holds, closed_leg; by rewrite ?L, ?S, ?PN.
Qed.

Lemma ws_moves_leg x w g' w' : world_step (ws_leg x, w) (g', w') -> ws_moves (x, w) (with_leg g' x, w').
Proof.
  intros (P & B & N & D). cbn [fst snd] in *. unfold WebRtcLeg.is_closed in D.
  split; [unfold ws_same; cbn; by repeat split|]. split.
  { unfold tidy_end, closed_leg. cbn. intros T S. specialize (T S). destruct D as [[-> _]|(_ & -> & _)]; done. }
  cbn [fst snd]. intros HP HQ. unfold use_step, ws_holds, closed_leg. cbn [ws_leg with_leg ws_state ws_privPort].
  destruct D as [[E ->]|(E & E' & ->)].
  - split; [done|]. intros [|]; left; [by rewrite E, N|done].
  - unfold released. split.
    + intros W j. cbn. apply set_pool_ok; [apply W|apply release_ok, W].
    + rewrite E, E', HP. intros [|]; [right|left]; cbn [wpools].
      * eexists. split; [reflexivity|]. split; [done|]. rewrite set_pool_inUse. done.
      * split; [done|]. rewrite set_pool_inUse. done.
Qed.

Lemma close_leg_closed (g : @WebRTCLeg Ctx) w : g_state (WebRtcLeg.Close g w).1 = legClosed.
Proof.
  unfold WebRtcLeg.Close. destruct (bool_decide (g_state g = legClosed)) eqn:Q; [by breflect|]. cbn. unfold set_. by rewrite Q.
Qed.

Lemma ws_moves_close c x w : ws_moves (x, w) (WebRtcSession.closeWith c x w) /\
  ws_state (WebRtcSession.closeWith c x w).1 = sessClosed.
Proof.
  unfold WebRtcSession.closeWith. case_if; [split; [apply ws_moves_refl|by breflect]|]. breflect. rename Heqb into S.
  set (w1 := mkWorld _ _). set (x1 := with_life c sessClosed true x).
  pose proof (close_world (ws_leg x1) w1) as W. pose proof (close_leg_closed (ws_leg x1) w1) as C.
  destruct (WebRtcLeg.Close (ws_leg x1) w1) as [g' w'] eqn:E. cbn [fst] in C. split; [|done].
  destruct (ws_moves_leg _ _ _ _ W) as (Sm & _ & U). split; [|split].
  - exact Sm.
  - unfold tidy_end, closed_leg. cbn. intros _ _. by rewrite C.
  - cbn [fst snd] in *. intros HP HQ. eapply use_trans; [|by apply U]. unfold use_step, ws_holds, closed_leg.
    unfold x1. cbn [ws_leg with_life ws_state ws_privPort ws_privPool]. rewrite (bool_decide_eq_false_2 _ S), (bool_decide_eq_true_2 (sessClosed = sessClosed)) by done.
    unfold w1. cbn [wpools with_life ws_privPool ws_privPort]. rewrite HQ. split.
    + intros Ww j. cbn. apply set_pool_ok; [apply Ww|apply release_ok, Ww].
    + intros [|]; [left|right]; cbn [wpools]; rewrite set_pool_inUse; [done|]. by eexists.
Qed.

Lemma ws_holds_closed (x : @WebRTCSession Ctx) p : tidy_end x -> ws_state x = sessClosed -> ws_holds x p = None.
Proof. intros T S. destruct p; cbn; [by rewrite T|by rewrite S, bool_decide_eq_true_2]. Qed.
End Holds.

(** ** Steps of one media session *)

Section Sessions.
Context {Ctx : Type}.

(** The ports a body may name, and whether the session was closed by its owner. *)
Definition face (m : @mediaSession Ctx) := (ms_publicPort m, ms_privatePort m, ms_closed m).

Definition moves (m m' : @mediaSession Ctx) (w w' : world) : Prop :=
  wf_media m -> wf_media m' /\ use_step (holds m) (holds m') w w' /\ face m' = face m.

Lemma use_step_none (h h' : plane -> option Z) w w' : use_step h h' w w' -> (forall p, h p = None) -> forall p, h' p = None.
Proof. intros [_ U] N p. destruct (U p) as [[-> _]|(z & E & _)]; [done|]. by rewrite N in E. Qed.

Lemma holds_rtp s (m : @mediaSession Ctx) p : ms_rtp m = Some s -> holds m p = sess_holds s p.
Proof. intros E. unfold holds. by rewrite E. Qed.
Lemma holds_browser x (m : @mediaSession Ctx) p : ms_rtp m = None -> ms_webrtc m = Some x -> holds m p = ws_holds x p.
Proof. intros E E'. unfold holds. by rewrite E, E'. Qed.

(** The RTP session behind [m] becomes [s']. *)
Lemma moves_rtp m s s' w w' : ms_rtp m = Some s -> pools s' = pools s -> ports s' = ports s ->
  (pools s = mkTwo pubPool privPool -> use_step (sess_holds s) (sess_holds s') w w') -> moves m (with_rtp (Some s') m) w w'.
Proof.
  intros E P Q U [[(y & E1 & E2 & P1 & P2 & P3)|(x & E1 & _)] C]; [|congruence]. assert (y = s) as -> by congruence.
  specialize (U P1). assert (use_step (holds m) (holds (with_rtp (Some s') m)) w w') as U'.
  { destruct U as [O U]. split; [done|]. intros p. rewrite (holds_rtp s m p E). apply U. }
  split; [|by split]. split.
  - left. exists s'. split; [done|]. split; [done|]. rewrite Q, P. cbn. repeat split; congruence.
  - intros Cl. exact (use_step_none _ _ _ _ U' (C Cl)).
Qed.

(** The browser session behind [m] moves. *)
Lemma moves_browser m x x' w w' : ms_webrtc m = Some x -> ws_moves (x, w) (x', w') -> moves m (with_webrtc (Some x') m) w w'.
Proof.
  intros E ((A1 & A2 & A3 & A4) & T & U) [[(s & _ & E1 & _)|(y & E1 & E2 & P1 & P2 & P3 & P4 & P5)] C]; [congruence|].
  cbn [fst snd] in *. assert (y = x) as -> by congruence. specialize (U P1 P2).
  assert (use_step (holds m) (holds (with_webrtc (Some x') m)) w w') as U'.
  { destruct U as [O U]. split; [done|]. intros p. rewrite (holds_browser x m p) by done. rewrite (holds_browser x' _ p) by done. apply U. }
  split; [|by split]. split.
  - right. exists x'. unfold wf_browser. cbn. split_and!; try congruence. by apply T.
  - intros Cl. exact (use_step_none _ _ _ _ U' (C Cl)).
Qed.

(** Whatever does not touch the two sessions. *)
Lemma moves_frame (m m' : @mediaSession Ctx) w : ms_rtp m' = ms_rtp m -> ms_webrtc m' = ms_webrtc m -> face m' = face m -> moves m m' w w.
Proof.
  intros E1 E2 F [S C]. assert (forall p, holds m' p = holds m p) as H by (intros p; unfold holds; by rewrite E1, E2).
  injection F as F1 F2 F3. split; [|split; [by apply use_refl|unfold face; congruence]]. split.
  - destruct S as [(s & A)|(x & A)]; [left; exists s|right; exists x]; unfold wf_rtp, wf_browser in *; by rewrite E1, E2, F1, F2.
  - rewrite F3. intros Cl p. rewrite H. by apply C.
Qed.

Lemma moves_refl (m : @mediaSession Ctx) w : moves m m w w.
Proof. by apply moves_frame. Qed.

Lemma moves_trans (m1 m2 m3 : @mediaSession Ctx) w1 w2 w3 : moves m1 m2 w1 w2 -> moves m2 m3 w2 w3 -> moves m1 m3 w1 w3.
Proof.
  intros M1 M2 W. destruct (M1 W) as (W1 & U1 & F1). destruct (M2 W1) as (W2 & U2 & F2).
  split; [done|]. split; [by eapply use_trans|congruence].
Qed.

Lemma close_moves (m : @mediaSession Ctx) w : wf_media m ->
  let '(m', w') := close_session m w in
  wf_media m' /\ use_step (holds m) (holds m') w w' /\ ms_closed m' = true /\ ms_publicPort m' = ms_publicPort m /\
  ms_privatePort m' = ms_privatePort m.
Proof.
  intros [[(s & E1 & E2 & P1 & P2 & P3)|(x & E1 & E2 & P1 & P2 & P3 & P4 & P5)] C]; unfold close_session.
  - destruct (ms_closed m) eqn:D; [split; [split; [left; by exists s|by auto]|split; [by apply use_refl|done]]|]. cbn [with_closed ms_rtp ms_webrtc]. rewrite E1.
    pose proof (sess_close_use CloseRequested s w P1) as U. pose proof (sess_close_closed CloseRequested s w) as Cl.
    destruct (sess_close_shape CloseRequested s w) as [S1 S2].
    destruct (MediaSession.closeWith CloseRequested s w) as [s' w']. cbn [fst snd] in *. cbn [with_rtp ms_webrtc with_closed]. rewrite E2.
    assert (forall p, sess_holds s' p = None) as N by (intros p; unfold sess_holds; by rewrite Cl, bool_decide_eq_true_2).
    split; [split|split; [|done]].
    + left. exists s'. unfold wf_rtp. cbn. rewrite S1, S2. done.
    + intros _ p. by rewrite (holds_rtp s').
    + destruct U as [O U]. split; [done|]. intros p. rewrite (holds_rtp s m p E1). apply U.
  - destruct (ms_closed m) eqn:D; [split; [split; [right; by exists x|by auto]|split; [by apply use_refl|done]]|]. cbn [with_closed ms_rtp ms_webrtc]. rewrite E1.
    cbn [ms_webrtc with_closed]. rewrite E2. unfold CloseSession. destruct (ws_moves_close CloseRequested x w) as [((A1 & A2 & A3 & A4) & T & U) Cl].
    destruct (WebRtcSession.closeWith CloseRequested x w) as [x' w']. cbn [fst snd] in *. specialize (T P5). specialize (U P1 P2).
    split; [split|split; [|done]].
    + right. exists x'. unfold wf_browser. cbn. split_and!; try congruence. exact T.
    + intros _ p. rewrite (holds_browser x'); [by apply ws_holds_closed|done..].
    + destruct U as [O U]. split; [done|]. intros p. rewrite (holds_browser x m p) by done. rewrite (holds_browser x') by done. apply U.
Qed.
(** What a body may name as a session's port is what it holds. *)
Lemma holds_port (sv : server) (m : @mediaSession Ctx) p z : wf_media m -> holds m p = Some z -> z = (anchorFor sv m p).2.
Proof.
  intros [[(x & E1 & E2 & _ & P & Q)|(x & E1 & E2 & _ & _ & P & Q & _)] _] H.
  - rewrite (holds_rtp x) in H by done. unfold sess_holds in H. case_bool_decide; [done|]. destruct p; cbn in *; congruence.
  - rewrite (holds_browser x) in H by done. destruct p; cbn in *; [by destruct (closed_leg x); [|congruence]|case_bool_decide; [done|congruence]].
Qed.

End Sessions.

(** ** The invariant *)

Section Invariant.
Context `{SP : SipMsg.SipParams}.
Context {R Ctx : Type}.
#[local] Abbreviation st := (@anchorState SP R Ctx).

(** [e] is a session allocated and not yet attached, [l] those the table has
    listed as closed and that are being closed. *)
Definition listed (e : option nat) (s : st) (i : nat) : Prop :=
  i ∈ t_closedMedia (as_tab s) \/ e = Some i \/ exists d x, t_heap (as_tab s) !! d = Some x /\ d_media x = Some i.

Record ok (l : list nat) (e : option nat) (s : st) : Prop := mkOk {
  ok_tab : Inv (as_tab s);
  ok_pending : t_pending (as_tab s) = [];
  ok_world : world_ok (as_world s);
  ok_ids : forall i, is_Some (as_media s !! i) -> (i < as_next s)%nat;
  ok_wf : forall i m, as_media s !! i = Some m -> wf_media m;
  ok_use : forall p z, z ∈ inUse (wpools (as_world s) (pool_id p)) <-> exists i m, as_media s !! i = Some m /\ holds m p = Some z;
  ok_apart : forall p i j m m' z, as_media s !! i = Some m -> as_media s !! j = Some m' ->
    holds m p = Some z -> holds m' p = Some z -> i = j;
  ok_closed : forall i m, as_media s !! i = Some m -> i ∈ t_closedMedia (as_tab s) -> ms_closed m = true \/ i ∈ l;
  ok_listed : forall i, is_Some (as_media s !! i) -> listed e s i;
  ok_known : forall d x i, t_heap (as_tab s) !! d = Some x -> d_media x = Some i -> is_Some (as_media s !! i);
  ok_past : forall i, i ∈ t_closedMedia (as_tab s) -> is_Some (as_media s !! i)
}.

(** A step of one session. *)
Lemma ok_media l e s i m m' w' : ok l e s -> as_media s !! i = Some m ->
  wf_media m' -> use_step (holds m) (holds m') (as_world s) w' -> (ms_closed m = true -> ms_closed m' = true) ->
  ok l e (with_world w' (with_media (<[i := m']> (as_media s)) s)).
Proof.
  intros K E W [O U] Cl. assert (forall j, is_Some (<[i := m']> (as_media s) !! j) <-> is_Some (as_media s !! j)) as D.
  { intros j. destruct (decide (j = i)) as [->|N]; [rewrite lookup_insert_eq, E; split; by eexists|by rewrite lookup_insert_ne]. }
  assert (forall p j k z, <[i := m']> (as_media s) !! j = Some k -> holds k p = Some z -> exists k', as_media s !! j = Some k' /\ holds k' p = Some z) as B.
  { intros p j k z. destruct (decide (j = i)) as [->|N]; [|rewrite lookup_insert_ne by done; by exists k].
    rewrite lookup_insert_eq. intros [= <-] H. exists m. split; [done|]. destruct (U p) as [[<- _]|(y & _ & N & _)]; [done|congruence]. }
  constructor; cbn [as_tab as_media as_next as_world with_world with_media].
  - apply K.
  - apply K.
  - apply O, K.
  - intros j H. apply D in H. by apply K.
  - intros j k. destruct (decide (j = i)) as [->|N]; [rewrite lookup_insert_eq; by intros [= <-]|rewrite lookup_insert_ne by done; apply K].
  - intros p z. destruct (U p) as [[H Us]|(y & H & N & Us)]; rewrite Us.
    + rewrite (ok_use _ _ _ K). split; intros (j & k & Ej & Hk).
      * destruct (decide (j = i)) as [->|Nj]; [exists i, m'; rewrite lookup_insert_eq; split; [done|congruence]|].
        exists j, k. by rewrite lookup_insert_ne.
      * destruct (B p j k z Ej Hk) as (k' & ? & ?). by exists j, k'.
    + rewrite elem_of_difference, elem_of_singleton, (ok_use _ _ _ K). split.
      * intros [(j & k & Ej & Hk) Nz]. exists j, k. split; [|done]. rewrite lookup_insert_ne; [done|]. intros <-. congruence.
      * intros (j & k & Ej & Hk). destruct (decide (j = i)) as [->|Nj]; [rewrite lookup_insert_eq in Ej; congruence|].
        rewrite lookup_insert_ne in Ej by done. split; [by exists j, k|]. intros ->. apply Nj. by eapply (ok_apart _ _ _ K).
  - intros p j j' k k' z Ej Ej' Hk Hk'. destruct (B p j k z Ej Hk) as (k1 & F1 & G1), (B p j' k' z Ej' Hk') as (k2 & F2 & G2).
    by eapply (ok_apart _ _ _ K).
  - intros j k. destruct (decide (j = i)) as [->|N]; [rewrite lookup_insert_eq; intros [= <-] H; destruct (ok_closed _ _ _ K i m E H); [left; by apply Cl|by right]|rewrite lookup_insert_ne by done; apply K].
  - intros j H. apply D in H. exact (ok_listed _ _ _ K j H).
  - intros d x j H M. apply D. by eapply K.
  - intros j H. apply D. by apply K.
Qed.

Lemma ok_moves l e s i m m' w' : ok l e s -> as_media s !! i = Some m -> moves m m' (as_world s) w' ->
  ok l e (with_world w' (with_media (<[i := m']> (as_media s)) s)).
Proof.
  intros K E M. destruct (M (ok_wf _ _ _ K i m E)) as (W & U & F). injection F as _ _ F. apply (ok_media l e s i m); try done. congruence.
Qed.

(** The fields a step of the monad may leave alone. *)
Lemma ok_rnd l e s r : ok l e s -> ok l e (with_rnd r s).
Proof. intros []. by constructor. Qed.
Lemma ok_waiters l e s ws : ok l e s -> ok l e (with_waiters ws s).
Proof. intros []. by constructor. Qed.
Lemma closed_at i m (s : st) : as_media s !! i = Some m ->
  close_at s i = with_world (close_session m (as_world s)).2 (with_media (<[i := (close_session m (as_world s)).1]> (as_media s)) s).
Proof. intros E. unfold close_at. rewrite E. by destruct (close_session m (as_world s)). Qed.

(** Closing a session that the table lists as closed. *)
Lemma ok_close_at i l e s : ok (i :: l) e s -> ok l e (close_at s i).
Proof.
  intros K. destruct (as_media s !! i) as [m|] eqn:E.
  - rewrite (closed_at i m) by done. pose proof (close_moves m (as_world s) (ok_wf _ _ _ K i m E)) as C.
    destruct (close_session m (as_world s)) as [m' w']. destruct C as (W & U & Cl & _). cbn [fst snd].
    pose proof (ok_media (i :: l) e s i m m' w' K E W U (fun _ => Cl)) as K'. constructor; try apply K'.
    cbn. intros j k. destruct (decide (j = i)) as [->|N].
    + rewrite lookup_insert_eq. intros [= <-] _. by left.
    + intros Ej H. destruct (ok_closed _ _ _ K' j k Ej H) as [|[->|]%elem_of_cons]; [by left|done|by right].
  - unfold close_at. rewrite E. constructor; try apply K. intros j k Ej H.
    destruct (ok_closed _ _ _ K j k Ej H) as [|[->|]%elem_of_cons]; [by left|congruence|by right].
Qed.

Lemma ok_close_all l e s : ok l e s -> ok [] e (fold_left close_at l s).
Proof. revert s. induction l as [|i l IH]; intros s K; [done|]. cbn. by apply IH, ok_close_at. Qed.

(** An operation of the table: it lists what it closes, and every session a
    record had is still some record's.  Only [attach] gives a record one. *)
Lemma ok_table e s t l : ok [] e s -> Inv t -> t_pending t = [] ->
  t_closedMedia t = t_closedMedia (as_tab s) ++ l ->
  (forall d x i, t_heap (as_tab s) !! d = Some x -> d_media x = Some i -> exists y, t_heap t !! d = Some y /\ d_media y = Some i) ->
  (forall d y i, t_heap t !! d = Some y -> d_media y = Some i -> is_Some (as_media s !! i)) ->
  (forall i, i ∈ l -> is_Some (as_media s !! i)) ->
  ok [] e (fold_left close_at l (with_tab t s)).
Proof.
  intros K I P C F B L. apply ok_close_all. constructor; try apply K; cbn [as_tab as_media with_tab].
  - done.
  - done.
  - intros i m E H. rewrite C in H. apply elem_of_app in H as [H|H]; [|by right].
    destruct (ok_closed _ _ _ K i m E H) as [|[]%elem_of_nil]; by left.
  - intros i H. destruct (ok_listed _ _ _ K i H) as [N|[N|(d & x & E & M)]].
    + left. cbn. rewrite C. apply elem_of_app. by left.
    + right. by left.
    + right. right. cbn. destruct (F d x i E M) as (y & ? & ?). by exists d, y.
  - exact B.
  - intros i. rewrite C, elem_of_app. intros [H|H]; [by apply K|by apply L].
Qed.

(** ** The logic *)

Definition keeps (I : st -> Prop) {A} (m : anchor A) : Prop := forall s, I s -> I (m s).2.

Lemma keeps_bind I {A B} (m : anchor A) (k : A -> anchor B) : keeps I m -> (forall a, keeps I (k a)) -> keeps I (m ≫= k).
Proof.
  intros Hm Hk s Hs. specialize (Hm s Hs). unfold mbind, anchor_bind. destruct (m s) as [[a|e'] s']; [by apply Hk|done].
Qed.
Lemma keeps_ret I {A} (a : A) : keeps I (mret a : anchor A).
Proof. by intros s. Qed.
Lemma keeps_throw I {A} e : keeps I (throw e : anchor A).
Proof. by intros s. Qed.
Lemma keeps_ensure I b e : keeps I (ensure b e).
Proof. destruct b; by intros s. Qed.
Lemma keeps_lift I {A E} (inj : E -> anchorError) (r : A + E) : keeps I (lift inj r).
Proof. destruct r; by intros s. Qed.
Lemma keeps_need I {A} (o : option A) : keeps I (need o).
Proof. destruct o; by intros s. Qed.
Lemma keeps_gets I {A} (f : st -> A) : keeps I (gets f).
Proof. by intros s. Qed.
Lemma keeps_look I {A} (f : dialogTable -> A) : keeps I (look f).
Proof. apply keeps_gets. Qed.
Lemma keeps_media_at I i : keeps I (media_at i).
Proof. intros s. unfold media_at. by destruct (as_media s !! i). Qed.
(** What the steps of one session and the small operations of the table do to
    an assertion; [ok] and what the bodies rest on are two. *)
Class Stable (I : st -> Prop) : Prop := mkStable {
  stable_rnd : forall s r, I s -> I (with_rnd r s);
  stable_waiters : forall s ws, I s -> I (with_waiters ws s);
  stable_moves : forall s i m m' w', I s -> as_media s !! i = Some m -> moves m m' (as_world s) w' ->
    I (with_world w' (with_media (<[i := m']> (as_media s)) s));
  stable_table : forall s o, life o = false -> bridge o = false -> I s -> I (with_tab (step o (as_tab s)) s)
}.

Lemma ok_quiet e s t : ok [] e s -> same core (as_tab s) t -> ok [] e (with_tab t s).
Proof.
  intros K Q. pose proof (ok_table e s t [] K) as T. rewrite (q_closedMedia _ _ _ Q), app_nil_r in T. apply T; clear T.
  - apply (Inv_quiet _ _ Q), K.
  - rewrite (q_pending _ _ _ Q). apply K.
  - done.
  - intros d x i E M. destruct (same_forth _ _ _ _ _ Q E) as (y & E' & C). exists y. split; [done|]. unfold core in C. congruence.
  - intros d y i E M. destruct (same_back _ _ _ _ _ Q E) as (x & E' & C). apply (ok_known _ _ _ K d x i E'). unfold core in C. congruence.
  - intros i []%elem_of_nil.
Qed.

#[export] Instance ok_stable e : Stable (ok [] e).
Proof.
  constructor; intros s.
  - intros r. apply ok_rnd.
  - intros ws. apply ok_waiters.
  - intros i m m' w'. apply ok_moves.
  - intros o L _ K. by apply ok_quiet, step_quiet.
Qed.

(** A table operation closes no session, unless a call's life is at stake. *)
Lemma tabling_op {A} (o : op) (f : dialogTable -> A * dialogTable) (s : st) : life o = false -> (forall t, (f t).2 = step o t) ->
  (tabling f s).2 = with_tab (step o (as_tab s)) s.
Proof.
  intros L F. unfold tabling. pose proof (F (as_tab s)) as Fs. destruct (f (as_tab s)) as [a t]. cbn in Fs. subst t.
  cbn [snd]. by rewrite (q_closedMedia _ _ _ (step_quiet o (as_tab s) L)), drop_all.
Qed.
Lemma keeps_ok_op e {A} (o : op) (f : dialogTable -> A * dialogTable) : life o = false -> (forall t, (f t).2 = step o t) ->
  keeps (ok [] e) (tabling f).
Proof. intros L F s K. rewrite (tabling_op o f s L F). by apply ok_quiet, step_quiet. Qed.

Section Keeps.
Context (I : st -> Prop) `{SI : !Stable I}.

Lemma keeps_random {A} (f : R -> A * R) : keeps I (random f).
Proof. intros s K. unfold random. destruct (f (as_rnd s)). by apply stable_rnd. Qed.
Lemma keeps_waiters (f : st -> list waiter) : keeps I (modify (fun s => with_waiters (f s) s)).
Proof. intros s K. by apply stable_waiters. Qed.

(** A handler step that changes one session, if it is there. *)
Lemma keeps_on_media i f : (forall m w, moves m (f m) w w) -> keeps I (on_media i f).
Proof.
  intros H s K. unfold on_media, mbind, anchor_bind, media_at, need, put_media, modify. destruct (as_media s !! i) as [m|] eqn:E; [|done].
  cbn. pose proof (stable_moves s i m (f m) (as_world s) K E (H m _)) as K'. by destruct s.
Qed.

Lemma keeps_on_browser {A} i (f : WebRTCSession -> world -> A * (WebRTCSession * world)) :
  (forall x w, ws_moves (x, w) (f x w).2) -> keeps I (on_browser i f).
Proof.
  intros H s K. unfold on_browser, mbind, anchor_bind, media_at, need, put_media, modify, on_world.
  destruct (as_media s !! i) as [m|] eqn:E; [|done]. cbn. destruct (ms_webrtc m) as [x|] eqn:X; [|done]. cbn.
  specialize (H x (as_world s)). destruct (f x (as_world s)) as [a [x' w']]. cbn in *.
  exact (stable_moves s i m _ w' K E (moves_browser m x x' (as_world s) w' X H)).
Qed.

(** A table operation other than the life events of a call and its bridging. *)
Lemma keeps_op {A} (o : op) (f : dialogTable -> A * dialogTable) : life o = false -> bridge o = false ->
  (forall t, (f t).2 = step o t) -> keeps I (tabling f).
Proof. intros L B F s K. rewrite (tabling_op o f s L F). by apply stable_table. Qed.
End Keeps.

(** Where a step starts, where it ends, and where it fails. *)
Definition triple {A} (P : st -> Prop) (m : anchor A) (Q : A -> st -> Prop) (E : st -> Prop) : Prop :=
  forall s, P s -> match m s with (inl a, s') => Q a s' | (inr _, s') => E s' end.

Lemma triple_bind {A B} P Q Q' E (m : anchor A) (k : A -> anchor B) :
  triple P m Q E -> (forall a, triple (Q a) (k a) Q' E) -> triple P (m ≫= k) Q' E.
Proof.
  intros Hm Hk s Hs. specialize (Hm s Hs). unfold mbind, anchor_bind. destruct (m s) as [[a|e] s']; [by apply Hk|done].
Qed.
Lemma triple_ret {A} (P : st -> Prop) (Q : A -> st -> Prop) E a : (forall s, P s -> Q a s) -> triple P (mret a) Q E.
Proof. intros H s Hs. by apply H. Qed.
Lemma triple_keeps {A} I (m : anchor A) : keeps I m <-> triple I m (fun _ => I) I.
Proof. split; intros H s Hs; specialize (H s Hs); by destruct (m s) as [[a|e] s']. Qed.
Lemma triple_weaken {A} (P P' : st -> Prop) (m : anchor A) (Q Q' : A -> st -> Prop) (E E' : st -> Prop) :
  triple P m Q E -> (forall s, P' s -> P s) -> (forall a s, Q a s -> Q' a s) -> (forall s, E s -> E' s) -> triple P' m Q' E'.
Proof. intros H HP HQ HE s Hs. specialize (H s (HP s Hs)). destruct (m s) as [[a|e] s']; auto. Qed.
Lemma keeps_triple {A} I (m : anchor A) (P : st -> Prop) (Q : A -> st -> Prop) (E : st -> Prop) :
  triple P m Q E -> (forall s, I s -> P s) -> (forall a s, Q a s -> I s) -> (forall s, E s -> I s) -> keeps I m.
Proof. intros H HP HQ HE. apply triple_keeps. by eapply triple_weaken. Qed.
Lemma triple_ensure P b er : triple P (ensure b er) (fun _ s => P s /\ b = true) P.
Proof. destruct b; by intros s Hs. Qed.
Lemma triple_lift {A E} (inj : E -> anchorError) (r : A + E) P : triple P (lift inj r) (fun a s => P s /\ r = inl a) P.
Proof. destruct r; by intros s Hs. Qed.
Lemma triple_look {A} (f : dialogTable -> A) P E : triple P (look f) (fun a s => P s /\ f (as_tab s) = a) E.
Proof. by intros s Hs. Qed.

End Invariant.

Create HintDb anchor.
#[export] Hint Extern 0 (Stable _) => typeclasses eauto : anchor.
#[export] Hint Resolve keeps_ret keeps_throw keeps_ensure keeps_lift keeps_need keeps_gets keeps_look keeps_media_at keeps_random
  keeps_waiters : anchor.

(** A handler keeps an assertion when its steps do. *)
Ltac keep :=
  repeat first
    [ solve [eauto 2 with anchor]
    | match goal with |- keeps _ (mbind _ _) => apply keeps_bind; [|intros ?] end
    | match goal with |- keeps _ (match ?x with _ => _ end) => destruct x end
    | match goal with |- keeps _ (let '_ := ?x in _) => destruct x end ].

Section Handlers.
Context `{SP : SipMsg.SipParams}.
Context {R Ctx : Type}.
#[local] Abbreviation st := (@anchorState SP R Ctx).

(** ** Allocation *)

(** Both planes gave a port, and no session holds them yet. *)
Definition granted (h : plane -> Z) (s : st) : Prop := exists w0,
  ok [] None (with_world w0 s) /\ world_ok (as_world s) /\
  forall p, h p ∉ inUse (wpools w0 (pool_id p)) /\
            inUse (wpools (as_world s) (pool_id p)) = {[ h p ]} ∪ inUse (wpools w0 (pool_id p)).

Lemma ok_new h s m : granted h s -> wf_media m -> ms_closed m = false -> (forall p, holds m p = Some (h p)) ->
  ok [] (Some (as_next s)) (new_media m s).2.
Proof.
  intros (w0 & K & O & G) W C H. cbn [new_media snd].
  assert (as_media s !! as_next s = None) as N.
  { apply eq_None_not_Some. intros D. pose proof (ok_ids _ _ _ K _ D) as L. cbn in L. lia. }
  assert (forall j k p z, as_media s !! j = Some k -> holds k p = Some z -> z <> h p) as F.
  { intros j k p z E Hk ->. destruct (G p) as [G1 _]. apply G1, (ok_use _ _ _ K). by exists j, k. }
  constructor; cbn [as_tab as_media as_next as_world].
  - exact (ok_tab _ _ _ K).
  - exact (ok_pending _ _ _ K).
  - done.
  - intros i Hi. destruct (decide (i = as_next s)) as [->|Ni]; [lia|]. rewrite lookup_insert_ne in Hi by done.
    pose proof (ok_ids _ _ _ K i Hi) as L. cbn in L. lia.
  - intros i k. destruct (decide (i = as_next s)) as [->|Ni]; [rewrite lookup_insert_eq; by intros [= <-]|].
    rewrite lookup_insert_ne by done. exact (ok_wf _ _ _ K i k).
  - intros p z. destruct (G p) as [G1 ->]. rewrite elem_of_union, elem_of_singleton. split.
    + intros [->|Hz]; [exists (as_next s), m; by rewrite lookup_insert_eq|].
      apply (ok_use _ _ _ K) in Hz as (i & k & E & Hk). exists i, k. rewrite lookup_insert_ne; [done|]. intros <-. cbn in E. congruence.
    + intros (i & k & E & Hk). destruct (decide (i = as_next s)) as [->|Ni].
      * rewrite lookup_insert_eq in E. injection E as <-. left. rewrite H in Hk. congruence.
      * rewrite lookup_insert_ne in E by done. right. apply (ok_use _ _ _ K). by exists i, k.
  - intros p i j k k' z. destruct (decide (i = as_next s)) as [->|Ni], (decide (j = as_next s)) as [->|Nj];
      rewrite ?lookup_insert_eq, ?lookup_insert_ne by done; [done|..].
    + intros [= <-] E Hk Hk'. destruct (F j k' p z E Hk'). rewrite H in Hk. congruence.
    + intros E [= <-] Hk Hk'. destruct (F i k p z E Hk). rewrite H in Hk'. congruence.
    + intros E E' Hk Hk'. by eapply (ok_apart _ _ _ K).
  - intros i k. destruct (decide (i = as_next s)) as [->|Ni].
    + intros _ D. pose proof (ok_past _ _ _ K _ D) as [k' E]. cbn in E. congruence.
    + rewrite lookup_insert_ne by done. exact (ok_closed _ _ _ K i k).
  - intros i Hi. destruct (decide (i = as_next s)) as [->|Ni]; [right; by left|]. rewrite lookup_insert_ne in Hi by done.
    destruct (ok_listed _ _ _ K i Hi) as [L|[L|L]]; [by left|done|right; by right].
  - intros d x i E M. destruct (decide (i = as_next s)) as [->|Ni]; [rewrite lookup_insert_eq; by eexists|].
    rewrite lookup_insert_ne by done. exact (ok_known _ _ _ K d x i E M).
  - intros i Hi. destruct (decide (i = as_next s)) as [->|Ni]; [rewrite lookup_insert_eq; by eexists|].
    rewrite lookup_insert_ne by done. exact (ok_past _ _ _ K i Hi).
Qed.
Lemma ok_same_use l e (s : st) w' : ok l e s -> world_ok w' -> (forall i, inUse (wpools w' i) = inUse (wpools (as_world s) i)) ->
  ok l e (with_world w' s).
Proof.
  intros K O U. constructor; try apply K; [done|]. intros p z. cbn. rewrite U. apply (ok_use _ _ _ K).
Qed.

Context (Unmarshal : gostring -> option SessionDescription).
Context (rand_read : Z -> R -> option (list Z) * R).
Context (newContext : SDESSuite -> list Z -> list Z -> option Ctx).
Context (listen_ok : Addr -> Z -> bool).
Context (sv : server) (pub_ok : params_ok (sv_pub sv)) (priv_ok : params_ok (sv_priv sv)).

Lemma across_spec cfg w : world_ok w ->
  let '(r, w') := allocateAcross (Ctx:=Ctx) listen_ok pubPool (sv_pub sv) privPool (sv_priv sv) cfg w in
  world_ok w' /\
  match r with
  | None => forall i, inUse (wpools w' i) = inUse (wpools w i)
  | Some s => pools s = mkTwo pubPool privPool /\ state s = sessAllocated /\
      forall p, at_side (side_of_plane p) (ports s) ∉ inUse (wpools w (pool_id p)) /\
        inUse (wpools w' (pool_id p)) = {[ at_side (side_of_plane p) (ports s) ]} ∪ inUse (wpools w (pool_id p))
  end.
Proof.
  clear Unmarshal rand_read newContext. intros W. unfold allocateAcross.
  pose proof (alloc_pair_spec listen_ok (sv_pub sv) (wpools w pubPool) (socks w) pub_ok (W _)) as RA.
  destruct (allocatePairWith listen_ok (sv_pub sv) _ _) as [[ra pa] sk1]. destruct RA as [Oa RA]. cbn [wpools socks].
  pose proof (alloc_pair_spec listen_ok (sv_priv sv) (wpools w privPool) sk1 priv_ok (W _)) as RB.
  change (set_pool pubPool pa (wpools w) privPool) with (wpools w privPool).
  destruct ra as [porta|].
  - destruct RA as (A1 & A2 & _). destruct (allocatePairWith listen_ok (sv_priv sv) _ _) as [[rb pb] sk2].
    destruct RB as [Ob RB]. destruct rb as [portb|]; cbn [wpools].
    + destruct RB as (B1 & B2 & _). split; [intros i; apply set_pool_ok; [apply set_pool_ok; [apply W|done]|done]|].
      split; [done|]. split; [done|]. intros [|]; cbn [side_of_plane at_side ports of_A of_B pool_id]; rewrite !set_pool_inUse; done.
    + destruct RB as [B1 _]. split.
      * assert (forall j, pool_ok (set_pool privPool pb (set_pool pubPool pa (wpools w)) j)) as Oj
          by (apply set_pool_ok; [apply set_pool_ok; [apply W|done]|done]).
        intros i. apply set_pool_ok; [exact Oj|apply release_ok, Oj].
      * intros i. rewrite !set_pool_inUse. cbn [release inUse]. rewrite set_pool_inUse. cbn [Nat.eqb pubPool privPool].
        rewrite set_pool_inUse. destruct i as [|[|i]]; cbn; [rewrite A2; by apply release_undo|done|done].
  - destruct RA as [A1 _]. split; [intros i; apply set_pool_ok; [apply W|done]|]. intros i. cbn [wpools]. rewrite set_pool_inUse.
    by destruct i as [|i].
Qed.

Definition sess_ports (s : @MediaSession.Session Ctx) (p : plane) : Z := at_side (side_of_plane p) (ports s).

Lemma allocate_rtp_spec t : triple (fun s => ok [] None s /\ as_tab s = t) (allocate_rtp listen_ok sv)
  (fun x s => granted (sess_ports x) s /\ as_tab s = t /\ pools x = mkTwo pubPool privPool /\ state x = sessAllocated)
  (fun s => ok [] None s /\ as_tab s = t).
Proof.
  intros s [K T]. unfold allocate_rtp, mbind, anchor_bind, on_world.
  pose proof (across_spec latches (as_world s) (ok_world _ _ _ K)) as A.
  destruct (allocateAcross _ _ _ _ _ _ _) as [[x|] w']; cbn; destruct A as [O A].
  - destruct A as (P & S & U). split; [|by split]. exists (as_world s). split; [by destruct s|]. split; [done|exact U].
  - split; [by apply ok_same_use|done].
Qed.

(** A session just allocated, with ports nobody else holds. *)
Lemma rtp_new_ok h (x : @MediaSession.Session Ctx) m s : granted h s -> ms_rtp m = Some x -> ms_webrtc m = None ->
  pools x = mkTwo pubPool privPool -> state x <> sessClosed -> (forall p, h p = sess_ports x p) ->
  ms_publicPort m = of_A (ports x) -> ms_privatePort m = of_B (ports x) -> ms_closed m = false ->
  ok [] (Some (as_next s)) (new_media m s).2.
Proof.
  intros G E1 E2 P S H P1 P2 C.
  assert (forall p, holds m p = Some (h p)) as Hh.
  { intros p. rewrite (holds_rtp x) by done. unfold sess_holds. rewrite bool_decide_eq_false_2 by done. by rewrite H. }
  eapply ok_new; try done. split; [left; by exists x|]. by rewrite C.
Qed.

(** The signalling calls before a session is handed over. *)
Definition alike (x x' : @MediaSession.Session Ctx) : Prop := pools x' = pools x /\ ports x' = ports x /\ (state x' = sessClosed <-> state x = sessClosed).

Lemma alike_latches side f (x : @MediaSession.Session Ctx) : alike x (on_latches side f x).
Proof. pose proof (on_latches_lifecycle side f x) as L. unfold lifecycle, resources in L. unfold alike. split_and!; [congruence..|]. assert (state (on_latches side f x) = state x) as -> by congruence. done. Qed.
Lemma alike_refl x : alike x x.
Proof. done. Qed.
Lemma alike_trans x y z : alike x y -> alike y z -> alike x z.
Proof. intros (A1 & A2 & A3) (B1 & B2 & B3). unfold alike. split_and!; [congruence..|]. by rewrite B3. Qed.
Lemma alike_if (b : bool) x y z : alike x y -> alike x z -> alike x (if b then y else z).
Proof. by destruct b. Qed.

Lemma alike_remote side a x : alike x (MediaSession.SetRemote side a x).
Proof. apply alike_latches. Qed.
Lemma alike_source side ip x : alike x (SetSignallingSource side ip x).
Proof. apply alike_latches. Qed.
Lemma alike_pin side b x : alike x (PinSeedToSignallingSource side b x).
Proof. apply alike_latches. Qed.
Lemma seed_rtcp_alike side a x : alike x (seed_rtcp side a x).
Proof. unfold seed_rtcp. apply alike_if; [apply alike_latches|apply alike_refl]. Qed.

Ltac alike_chain :=
  repeat first
    [ apply alike_refl | apply alike_if | eapply alike_trans; [|apply seed_rtcp_alike] | eapply alike_trans; [|apply alike_remote]
    | eapply alike_trans; [|apply alike_pin] | eapply alike_trans; [|apply alike_source] ].

(** A session is on the heap and the table has not moved. *)
Definition placed (t : dialogTable) (i : nat) (s : st) : Prop := ok [] (Some i) s /\ as_tab s = t /\ is_Some (as_media s !! i).
Definition start (t : dialogTable) (s : st) : Prop := ok [] None s /\ as_tab s = t.

Lemma allocateRTP_spec t offer src pol pin : triple (start t) (allocateRTP listen_ok sv offer src pol pin) (placed t) (start t).
Proof.
  eapply triple_bind; [apply triple_ensure|]. intros u. eapply triple_bind.
  { eapply triple_weaken; [apply (allocate_rtp_spec t)|by intros s [? _]|by intros a s H; exact H|done]. }
  intros x s (G & T & P & S). cbn zeta.
  match goal with |- context [new_media ?m s] => set (m0 := m) end.
  assert (alike x (default x (ms_rtp m0))) as (A1 & A2 & A3) by (unfold m0; cbn [default from_option id seedApplied ms_rtp]; alike_chain).
  cbn in A1, A2, A3. unfold placed. split; [|split; [done|cbn; rewrite lookup_insert_eq; by eexists]].
  eapply (rtp_new_ok _ _ m0 s G); try done.
  - cbn. congruence.
  - cbn. intros E. apply A3 in E. congruence.
  - cbn. intros p. unfold sess_ports. by rewrite A2.
Qed.
Lemma new_leg_ok a par cfg creds w : params_ok par -> world_ok w -> world_ok (NewWebRTCLeg (Ctx:=Ctx) listen_ok a par cfg creds w).2.
Proof.
  intros P W. unfold NewWebRTCLeg. case_if; [done|]. case_if; [done|]. case_if; [done|].
  destruct (optional_fingerprint _ _) as [fp|e]; [|done].
  pose proof (alloc_single_spec listen_ok par (wpools w a) (socks w) P (W a)) as L.
  destruct (allocateSingle _ _ _ _) as [[r p] sk]. destruct L as [Op _].
  assert (forall j, pool_ok (set_pool a p (wpools w) j)) as O by (apply set_pool_ok; [apply W|done]).
  destruct r as [port|]; [|exact O]. destruct creds as [[u pw]|]; [exact O|].
  intros j. apply (set_pool_ok a _ _ O). apply release_ok, O.
Qed.

(** What [NewWebRTCSession] leaves, apart from the session. *)
Lemma new_session_spec (g : @WebRTCLeg Ctx) w : world_ok w ->
  let '(o, w') := NewWebRTCSession listen_ok g privPool (sv_priv sv) LatchStrict 0 w in
  world_ok w' /\ socks w' = socks w' /\ inUse (wpools w' pubPool) = inUse (wpools w pubPool) /\
  match o with
  | None => forall i, inUse (wpools w' i) = inUse (wpools w i)
  | Some x => ws_leg x = g /\ ws_privPool x = privPool /\ ws_state x = sessAllocated /\
      ws_privPort x ∉ inUse (wpools w privPool) /\
      inUse (wpools w' privPool) = {[ ws_privPort x ]} ∪ inUse (wpools w privPool)
  end.
Proof.
  intros W. unfold NewWebRTCSession.
  pose proof (alloc_pair_spec listen_ok (sv_priv sv) (wpools w privPool) (socks w) priv_ok (W _)) as L.
  destruct (allocatePairWith _ _ _ _) as [[r p] sk]. destruct L as [Op L].
  assert (forall j, pool_ok (set_pool privPool p (wpools w) j)) as O by (apply set_pool_ok; [apply W|done]).
  destruct r as [port|]; cbn [wpools socks]; (split; [exact O|split; [done|]]); rewrite set_pool_inUse; cbn [Nat.eqb pubPool privPool].
  - destruct L as (L1 & L2 & _). split; [done|]. cbn [ws_leg ws_privPool ws_state ws_privPort]. repeat split; try done.
  - destruct L as [L _]. split; [done|]. intros i. rewrite set_pool_inUse. case_if; [|done]. by apply Nat.eqb_eq in Heqb as ->.
Qed.

Definition new_browser (x : @WebRTCSession Ctx) : Prop :=
  g_pool (ws_leg x) = pubPool /\ ws_privPool x = privPool /\ closed_leg x = false /\ ws_state x <> sessClosed.
Definition ws_ports (x : @WebRTCSession Ctx) (p : plane) : Z :=
  match p with planePublic => g_port (ws_leg x) | planePrivate => ws_privPort x end.

Lemma allocate_browser_spec t cfg : triple (start t) (allocate_browser rand_read listen_ok sv cfg)
  (fun x s => granted (ws_ports x) s /\ as_tab s = t /\ new_browser x) (start t).
Proof.
  intros s [K T]. unfold allocate_browser, draw_credentials, random, on_world, mbind, anchor_bind.
  destruct (rand_read 21 (as_rnd s)) as [b rnd]. cbn [with_rnd as_world].
  pose proof (new_leg_spec (Ctx:=Ctx) listen_ok pubPool (sv_pub sv) cfg (newICECredentials <$> b) (as_world s) pub_ok (ok_world _ _ _ K)) as L.
  pose proof (new_leg_ok pubPool (sv_pub sv) cfg (newICECredentials <$> b) (as_world s) pub_ok (ok_world _ _ _ K)) as O.
  destruct (NewWebRTCLeg _ _ _ _ _ _) as [[g|e] w1]; cbn [lift mret anchor_ret throw snd] in *.
  2: { split; [|done]. apply (ok_same_use [] None (with_rnd rnd s)); [by apply ok_rnd|done|]. exact (proj1 L). }
  destruct L as (F & P & _ & N & _ & _ & U & _). cbn [with_world as_world].
  pose proof (new_session_spec g w1 O) as S. destruct (NewWebRTCSession _ _ _ _ _ _ _) as [[x|] w2]; destruct S as (O2 & _ & U0 & S); cbn [mret anchor_ret].
  - destruct S as (Lx & Px & Sx & Nx & Ux). split; [|split; [done|]].
    + exists (as_world s). split; [destruct s; exact (ok_rnd _ _ _ rnd K)|]. split; [done|]. cbn. intros [|]; cbn [ws_ports pool_id].
      * rewrite Lx. split; [done|]. by rewrite U0, U.
      * rewrite U in Nx, Ux. cbn in Nx, Ux. rewrite (left_id_L ∅ union) in Nx, Ux. done.
    + unfold new_browser, closed_leg. rewrite Lx, Sx. destruct F as (_ & _ & _ & _ & _ & _ & _ & -> & _). done.
  - cbn. destruct (WebRtcLeg.Close g w2) as [g' w3] eqn:E. split; [|done].
    pose proof (close_world g w2) as C. rewrite E in C. destruct C as (_ & _ & _ & C). cbn [fst snd] in C.
    destruct F as (_ & _ & _ & _ & _ & _ & _ & St & _). unfold WebRtcLeg.is_closed in C. rewrite St in C.
    pose proof (close_leg_closed g w2) as Cl. rewrite E in Cl. cbn in Cl. rewrite Cl in C.
    destruct C as [[? _]|(_ & _ & ->)]; [done|]. unfold released. rewrite P.
    apply (ok_same_use [] None (with_rnd rnd s)); [by apply ok_rnd|intros j; cbn; apply set_pool_ok; [apply O2|apply release_ok, O2]|].
    intros i. cbn. rewrite set_pool_inUse. cbn [release inUse]. rewrite S, U.
    destruct i as [|i]; cbn; [by apply release_undo|]. rewrite S, U. cbn. by rewrite (left_id_L ∅ union).
Qed.

Lemma browser_new_ok x m s : granted (ws_ports x) s -> ms_rtp m = None -> ms_webrtc m = Some x -> new_browser x ->
  ms_publicPort m = g_port (ws_leg x) -> ms_privatePort m = ws_privPort x -> ms_closed m = false ->
  ok [] (Some (as_next s)) (new_media m s).2.
Proof.
  intros G E1 E2 (P1 & P2 & C1 & C2) Q1 Q2 C.
  assert (forall p, holds m p = Some (ws_ports x p)) as Hh.
  { intros p. rewrite (holds_browser x) by done. destruct p; cbn; [by rewrite C1|by rewrite bool_decide_eq_false_2]. }
  eapply ok_new; try done. split; [right; exists x; by repeat split|]. by rewrite C.
Qed.
(** *** Steps of sessions *)

Lemma moves_alike m s s' w : ms_rtp m = Some s -> alike s s' -> moves m (with_rtp (Some s') m) w w.
Proof.
  intros E (P & Q & C). apply (moves_rtp m s s'); try done. intros _. apply use_refl. intros p. unfold sess_holds. rewrite Q.
  by rewrite (bool_decide_ext _ _ C).
Qed.

Lemma alike_start now x : alike x (MediaSession.Start now x).2.
Proof.
  unfold MediaSession.Start. case_if; [|apply alike_refl]. breflect. unfold alike. cbn. by rewrite Heqb.
Qed.
Lemma alike_rtcp side a x : alike x (SetRTCPRemote side a x).
Proof. apply alike_latches. Qed.
Lemma alike_relatch side a x : alike x (Relatch side a x).
Proof. apply alike_latches. Qed.
Lemma alike_sdes_remote side k x : alike x (SetSDESRemote newContext side k x).2.
Proof. unfold SetSDESRemote. by destruct (dir_set _ _ _). Qed.
Lemma alike_sdes_local side k x : alike x (SetSDESLocal newContext side k x).2.
Proof. unfold SetSDESLocal. by destruct (dir_set _ _ _). Qed.

Lemma point_moves p remote rtcp now (m : @mediaSession Ctx) w : moves m (point p remote rtcp now m) w w.
Proof.
  unfold point. set (moved := _ && _). set (m1 := seedApplied p remote m).
  assert (moves m m1 w w) as M1 by (by apply moves_frame).
  destruct (ms_webrtc m1) as [x|] eqn:X.
  - destruct p; [exact M1|]. eapply moves_trans; [exact M1|]. apply (moves_browser m1 x); [done|].
    apply ws_moves_frame. destruct moved; by repeat split.
  - destruct (ms_rtp m1) as [s|] eqn:E; [|exact M1]. eapply moves_trans; [exact M1|]. apply (moves_alike m1 s); [done|].
    eapply alike_trans; [|apply alike_start]. assert (alike s (MediaSession.SetRemote (side_of_plane p) remote (if moved then Relatch (side_of_plane p) remote s else s))) as A.
    { eapply alike_trans; [|apply alike_remote]. destruct moved; [apply alike_relatch|apply alike_refl]. }
    case_if; [|exact A]. eapply alike_trans; [exact A|apply alike_rtcp].
Qed.

Lemma rank_moves l (m : @mediaSession Ctx) w : moves m (rank_callee l m) w w.
Proof.
  unfold rank_callee. destruct (calleePlane _); [|apply moves_refl]. destruct (ms_rtp m) as [s|] eqn:E; [|apply moves_refl].
  destruct (ParseAddrPort _); [|apply moves_refl]. apply (moves_alike m s); [done|apply alike_source].
Qed.

Lemma negotiated_moves cs (m : @mediaSession Ctx) w : moves m (setNegotiated cs m) w w.
Proof. by apply moves_frame. Qed.

Lemma commit_moves l p (m : @mediaSession Ctx) w : ms_sdes m = Some l ->
  let lm := (commit newContext p (mkLM l (ms_rtp m))).2 in moves m (with_rtp (lm_rtp lm) (with_sdes (Some (lm_leg lm)) m)) w w.
Proof.
  intros E. unfold commit. cbn [lm_leg lm_rtp]. assert (forall l', moves m (with_rtp (ms_rtp m) (with_sdes (Some l') m)) w w) as F
    by (intros l'; by apply moves_frame).
  case_if; [apply F|]. case_if; [case_if; apply F|]. destruct (ms_rtp m) as [s|] eqn:X; [|apply F].
  pose proof (alike_sdes_remote SideA (mediaKey (p_peer p)) s) as A1. destruct (SetSDESRemote _ _ _ _) as [ok1 s1]. cbn [snd] in A1.
  assert (forall l' s', alike s s' -> moves m (with_rtp (Some s') (with_sdes (Some l') m)) w w) as G.
  { intros l' s' A. eapply moves_trans; [apply (F l')|]. exact (moves_alike (with_rtp (Some s) (with_sdes (Some l') m)) s s' w eq_refl A). }
  case_if; [by apply G|]. pose proof (alike_sdes_local SideA (mediaKey (p_local p)) s1) as A2. destruct (SetSDESLocal _ _ _ _) as [ok2 s2]. cbn [snd] in A2.
  assert (alike s s2) as A by (by eapply alike_trans). case_if; by apply G.
Qed.

Lemma leg_start_moves (x : @WebRTCSession Ctx) w :
  ws_moves (x, w) (with_leg (WebRtcLeg.Start (ws_leg x) w).1 x, (WebRtcLeg.Start (ws_leg x) w).2).
Proof.
  apply ws_moves_leg. pose proof (step_world newContext (fun _ => None) (fun _ => None) (ws_leg x, w) LStart) as H.
  cbn [leg_step] in H. by destruct (WebRtcLeg.Start (ws_leg x) w).
Qed.

Lemma leg_remote_moves r (x : @WebRTCSession Ctx) w : ws_moves (x, w) (with_leg (WebRtcLeg.SetRemote r (ws_leg x)).2 x, w).
Proof. apply ws_moves_leg. exact (step_world newContext (fun _ => None) (fun _ => None) (ws_leg x, w) (LSetRemote r)). Qed.

Lemma leg_verify_moves h v cs (x : @WebRTCSession Ctx) w : ws_moves (x, w) (with_leg (VerifyFingerprint h v cs (ws_leg x)).2 x, w).
Proof. apply ws_moves_leg. exact (step_world newContext (fun _ => None) (fun _ => None) (ws_leg x, w) (LVerify h v cs)). Qed.

Lemma begin_moves (x : @WebRTCSession Ctx) w : ws_moves (x, w) ((begin_start x).2, w).
Proof.
  unfold begin_start. case_if; [|case_if; apply ws_moves_refl]. breflect. split; [by repeat split|]. split.
  - intros T S. cbn in S. done.
  - intros _ _. apply use_refl. intros [|]; unfold ws_holds, closed_leg; cbn; [done|]. by rewrite Heqb.
Qed.

Lemma start_moves now why (x : @WebRTCSession Ctx) w : ws_moves (x, w) (WebRtcSession.start now why x w).2.
Proof.
  unfold WebRtcSession.start. destruct why; cbn [snd]; [|apply ws_moves_close|apply ws_moves_refl].
  repeat case_match; cbn [snd]; try apply ws_moves_close. by apply ws_moves_frame.
Qed.

Lemma waiting_moves (x : @WebRTCSession Ctx) w : ws_moves (x, w) (with_waiting false x, w).
Proof. by apply ws_moves_frame. Qed.
(** ** Handlers *)

(** The table operations the handlers make. *)
Lemma keeps_nextOrigin (I : st -> Prop) `{SI : !Stable I} d p : keeps I (next_origin (nextOrigin d p)).
Proof. by apply (keeps_op I (ONextOrigin d p)). Qed.
Lemma keeps_nextForkOrigin (I : st -> Prop) `{SI : !Stable I} f : keeps I (next_origin (nextForkOrigin f)).
Proof. by apply (keeps_op I (ONextForkOrigin f)). Qed.
Lemma keeps_originFor (I : st -> Prop) `{SI : !Stable I} d f p : keeps I (next_origin (originFor d f p)).
Proof. by apply (keeps_op I (OOriginFor d f p)). Qed.
Lemma keeps_setApplied (I : st -> Prop) `{SI : !Stable I} d f : keeps I (tabling_ (setApplied d f)).
Proof. by apply (keeps_op I (OSetApplied d f)). Qed.
Lemma keeps_setForkAnswer (I : st -> Prop) `{SI : !Stable I} f b cs r c : keeps I (tabling_ (setForkAnswer f b cs r c)).
Proof. by apply (keeps_op I (OSetForkAnswer f b cs r c)). Qed.
Lemma keeps_setForkSDES (I : st -> Prop) `{SI : !Stable I} f p : keeps I (tabling_ (setForkSDES f p)).
Proof. by apply (keeps_op I (OSetForkSDES f p)). Qed.
Lemma keeps_fork (I : st -> Prop) `{SI : !Stable I} now d tag : keeps I (tabling (fork now d tag)).
Proof. by apply (keeps_op I (OFork now d tag)). Qed.
Lemma keeps_adoptOrigin (I : st -> Prop) `{SI : !Stable I} d f p : keeps I (tabling_ (adoptOrigin d f p)).
Proof. by apply (keeps_op I (OAdoptOrigin d f p)). Qed.
Lemma keeps_setOwed (I : st -> Prop) `{SI : !Stable I} d o p q f c r : keeps I (tabling_ (setOwed d o p q f c r)).
Proof. by apply (keeps_op I (OSetOwed d o p q f c r)). Qed.
Lemma keeps_noteForkUpdate (I : st -> Prop) `{SI : !Stable I} d f b r c cs : keeps I (tabling_ (noteForkUpdate d f b r c cs)).
Proof. by apply (keeps_op I (ONoteForkUpdate d f b r c cs)). Qed.
Lemma keeps_setCarrier (I : st -> Prop) `{SI : !Stable I} d n : keeps I (tabling_ (setCarrier d n)).
Proof. by apply (keeps_op I (OSetCarrier d n)). Qed.
Lemma keeps_setSRTP (I : st -> Prop) `{SI : !Stable I} d p : keeps I (tabling_ (setSRTP d p)).
Proof. by apply (keeps_op I (OSetSRTP d p)). Qed.

(** The steps that put a changed session back. *)
Lemma keeps_put (I : st -> Prop) `{SI : !Stable I} i m f s : I s -> as_media s !! i = Some m -> (forall w, moves m (f m) w w) -> I (put_media i (f m) s).2.
Proof.
  intros K E M. cbn. pose proof (stable_moves s i m (f m) (as_world s) K E (M _)) as K'. by destruct s.
Qed.

Lemma keeps_leg_lines (I : st -> Prop) `{SI : !Stable I} f i : keeps I (leg_lines f i).
Proof.
  intros s K. unfold leg_lines, mbind, anchor_bind, media_at, need. destruct (as_media s !! i) as [m|] eqn:E; [|done]. cbn.
  destruct (ms_sdes m) as [lg|]; [|done]. unfold random. destruct (f lg (as_rnd s)) as [[r l'] rnd].
  pose proof (keeps_put I i m (with_sdes (Some l')) (with_rnd rnd s) (stable_rnd _ rnd K) E) as P. cbn in *.
  specialize (P ltac:(intros; by apply moves_frame)). by destruct r.
Qed.

Lemma keeps_commit_plan (I : st -> Prop) `{SI : !Stable I} i p : keeps I (commit_plan newContext i p).
Proof.
  intros s K. unfold commit_plan, mbind, anchor_bind, media_at, need. destruct (as_media s !! i) as [m|] eqn:E; [|done]. cbn.
  destruct (ms_sdes m) as [lg|] eqn:L; [|done]. pose proof (fun w => commit_moves lg p m w L) as M. cbn zeta in M.
  destruct (commit _ _ _) as [r lm]. cbn [snd] in M.
  exact (keeps_put I i m (fun m => with_rtp (lm_rtp lm) (with_sdes (Some (lm_leg lm)) m)) s K E M).
Qed.

#[local] Hint Resolve keeps_nextOrigin keeps_nextForkOrigin keeps_originFor keeps_setApplied keeps_setForkAnswer keeps_setForkSDES
  keeps_fork keeps_adoptOrigin keeps_setOwed keeps_noteForkUpdate keeps_setCarrier keeps_setSRTP keeps_leg_lines keeps_commit_plan : anchor.

Lemma keeps_plan_answer (I : st -> Prop) `{SI : !Stable I} i a : keeps I (plan_answer rand_read i a).
Proof. unfold plan_answer. keep. Qed.
Lemma keeps_check_answer (I : st -> Prop) `{SI : !Stable I} i a o : keeps I (check_answer i a o).
Proof. unfold check_answer. keep. Qed.
Lemma keeps_commit_or_fail (I : st -> Prop) `{SI : !Stable I} i p : keeps I (commit_or_fail newContext i p).
Proof. unfold commit_or_fail. keep. Qed.
Lemma keeps_point (I : st -> Prop) `{SI : !Stable I} now i p r c : keeps I (pointMedia now i p r c).
Proof. apply (keeps_on_media I). intros. apply point_moves. Qed.
Lemma keeps_negotiated (I : st -> Prop) `{SI : !Stable I} i cs : keeps I (on_media i (setNegotiated cs)).
Proof. apply (keeps_on_media I). intros. apply negotiated_moves. Qed.
Lemma keeps_rank (I : st -> Prop) `{SI : !Stable I} i g : keeps I (on_media i (rank_callee g)).
Proof. apply (keeps_on_media I). intros. apply rank_moves. Qed.
Lemma keeps_session_of (I : st -> Prop) `{SI : !Stable I} d : keeps I (session_of d).
Proof. unfold session_of. keep. Qed.

Lemma keeps_startWebRTC (I : st -> Prop) `{SI : !Stable I} i fp : keeps I (startWebRTC i fp).
Proof.
  apply keeps_bind; [|intros; apply (keeps_waiters I)]. apply (keeps_on_browser I). intros x w. pose proof (leg_start_moves x w) as M.
  by destruct (WebRtcLeg.Start (ws_leg x) w).
Qed.
#[local] Hint Resolve keeps_plan_answer keeps_check_answer keeps_commit_or_fail keeps_point keeps_negotiated keeps_rank
  keeps_session_of keeps_startWebRTC : anchor.

Lemma keeps_startOffered (I : st -> Prop) `{SI : !Stable I} i a : keeps I (startOfferedWebRTC i a).
Proof.
  unfold startOfferedWebRTC. destruct (match _ with Some _ => _ | None => _ end) as [hash v]. apply keeps_bind.
  - apply (keeps_on_browser I). intros x w. pose proof (leg_remote_moves (mkRemote (a_ufrag (s_audio a)) (a_pwd (s_audio a)) (a_setup (s_audio a)) hash v) x w) as M.
    by destruct (WebRtcLeg.SetRemote _ _).
  - intros [er|]; keep.
Qed.
#[local] Hint Resolve keeps_startOffered : anchor.

Lemma keeps_waiter_begin (I : st -> Prop) `{SI : !Stable I} k : keeps I (waiter_begin k).
Proof.
  unfold waiter_begin. keep. apply (keeps_on_browser I). intros x w. pose proof (begin_moves x w) as M. by destruct (begin_start x).
Qed.

Lemma keeps_waiter_wake (I : st -> Prop) `{SI : !Stable I} now k why cs : keeps I (waiter_wake now k why cs).
Proof.
  unfold waiter_wake. keep. apply (keeps_on_browser I). intros x w.
  pose proof (ws_moves_trans _ _ _ (waiting_moves x w) (start_moves now why (with_waiting false x) w)) as M.
  destruct (WebRtcSession.start _ _ _ _) as [er [x' w']]. cbn [snd] in M.
  destruct er as [er|]; [exact M|]. match goal with o : option SdpParse.Fingerprint |- _ => destruct o as [f|]; [|exact M] end.
  pose proof (leg_verify_moves (SdpParse.fp_hash f) (SdpParse.fp_value f) cs x' w') as V.
  destruct (VerifyFingerprint _ _ _ _) as [[er|] g]; (eapply ws_moves_trans; [exact M|]); [|exact V].
  eapply ws_moves_trans; [exact V|]. apply ws_moves_close.
Qed.
(** *** Attaching *)

Lemma drop_app_new {A} (l k : list A) : drop (length l) (l ++ k) = k.
Proof. by rewrite drop_app_length. Qed.

(** Once it is listed a session is no longer pending. *)
Lemma ok_settled l i (s : st) : ok l (Some i) s ->
  (i ∈ t_closedMedia (as_tab s) \/ exists d x, t_heap (as_tab s) !! d = Some x /\ d_media x = Some i) -> ok l None s.
Proof.
  intros K L. constructor; try apply K. intros j Hj. destruct (ok_listed _ _ _ K j Hj) as [?|[[= ->]|?]]; [by left| |right; by right].
  destruct L as [?|?]; [by left|right; by right].
Qed.

Lemma close_at_tab i (s : st) : as_tab (close_at s i) = as_tab s.
Proof. unfold close_at. destruct (as_media s !! i); [|done]. by destruct (close_session _ _). Qed.

Lemma close_all_tab l (s : st) : as_tab (fold_left close_at l s) = as_tab s.
Proof. revert s. induction l as [|i l IH]; intros s; [done|]. cbn. by rewrite IH, close_at_tab. Qed.

Lemma attach_spec t d i : session d t = None -> triple (placed t i) (attach_media d i) (fun _ => ok [] None) (ok [] None).
Proof.
  intros N s (K & T & P). unfold attach_media, mbind, anchor_bind, tabling. subst t.
  pose proof (Inv_attach d i (as_tab s) N (ok_tab _ _ _ K)) as I.
  assert (ok [] None (fold_left close_at [i] (with_tab (close_media i (as_tab s)) s))) as F.
  { assert (Inv (close_media i (as_tab s))) as I'.
    { constructor; simpl; try apply K. intros e x n E L HM. destruct (I_media _ (ok_tab _ _ _ K) e x n E L HM) as [H|H]; [left|by right].
      apply elem_of_app. by left. }
    apply (ok_settled _ i).
    - apply (ok_table (Some i) s _ [i]); try done; [apply K|intros e x j E M; by exists x|intros e y j E M; by apply (ok_known _ _ _ K e y)|].
      intros j Hj%list_elem_of_singleton. by subst.
    - left. rewrite close_all_tab. cbn. apply elem_of_app. right. by left. }
  unfold attach in *. destruct (t_heap (as_tab s) !! d) as [x|] eqn:E.
  2: { cbn [snd] in *. change (t_closedMedia (close_media i (as_tab s))) with (t_closedMedia (as_tab s) ++ [i]). rewrite drop_app_new. exact F. }
  destruct (t_closed (as_tab s) || is_ended x); cbn [snd] in *.
  { change (t_closedMedia (close_media i (as_tab s))) with (t_closedMedia (as_tab s) ++ [i]). rewrite drop_app_new. exact F. }
  assert (t_closedMedia (upd d (set_media (Some i)) (as_tab s)) = t_closedMedia (as_tab s)) as C by (unfold upd; by rewrite E).
  rewrite C, drop_all. cbn. apply (ok_settled _ i); [|right; exists d, (set_media (Some i) x); cbn; unfold upd; rewrite E; cbn; by rewrite lookup_insert_eq].
  assert (t_heap (upd d (set_media (Some i)) (as_tab s)) = <[d := set_media (Some i) x]> (t_heap (as_tab s))) as Hh by (unfold upd; by rewrite E).
  unfold session, get in N. rewrite E in N.
  apply (ok_table (Some i) s _ [] K I); [unfold upd; rewrite E; apply K|by rewrite C, app_nil_r|..|by intros j []%elem_of_nil].
  - intros e y j Ee M. rewrite Hh. destruct (decide (e = d)) as [->|Ne]; [congruence|]. exists y. by rewrite lookup_insert_ne.
  - intros e y j. rewrite Hh. destruct (decide (e = d)) as [->|Ne]; [rewrite lookup_insert_eq; intros [= <-]; cbn; by intros [= <-]|].
    rewrite lookup_insert_ne by done. apply (ok_known _ _ _ K).
Qed.

Lemma placed_modified t i j (f : @mediaSession Ctx -> mediaSession) : (forall m w, moves m (f m) w w) ->
  triple (placed t i) (on_media j f) (fun _ => placed t i) (placed t i).
Proof.
  intros M s (K & T & P). pose proof (keeps_on_media (ok [] (Some i)) j f M s K) as K'. revert K'.
  unfold on_media, mbind, anchor_bind, media_at, need, put_media, modify. destruct (as_media s !! j) as [m|] eqn:E; [|done].
  cbn. intros K'. split; [done|]. split; [done|]. cbn. destruct (decide (i = j)) as [->|Ni]; [rewrite lookup_insert_eq; by eexists|by rewrite lookup_insert_ne].
Qed.

Lemma placed_browser t i {A} j (f : WebRTCSession -> world -> A * (WebRTCSession * world)) :
  (forall x w, ws_moves (x, w) (f x w).2) -> triple (placed t i) (on_browser j f) (fun _ => placed t i) (placed t i).
Proof.
  intros M s (K & T & P). pose proof (keeps_on_browser (ok [] (Some i)) j f M s K) as K'. revert K'.
  unfold on_browser, mbind, anchor_bind, media_at, need, put_media, modify, on_world. destruct (as_media s !! j) as [m|] eqn:E; [|done].
  cbn. destruct (ms_webrtc m) as [x|]; [|done]. cbn. destruct (f x (as_world s)) as [a [x' w']]. cbn.
  intros K'. split; [done|]. split; [done|]. cbn. destruct (decide (i = j)) as [->|Ni]; [rewrite lookup_insert_eq; by eexists|by rewrite lookup_insert_ne].
Qed.

(** On a browser session it cannot fail. *)
Lemma startWebRTC_runs t i fp m x s : placed t i s -> as_media s !! i = Some m -> ms_webrtc m = Some x ->
  exists s', startWebRTC i fp s = (inl tt, s') /\ placed t i s'.
Proof.
  intros P E X. assert (triple (placed t i) (startWebRTC i fp) (fun _ => placed t i) (placed t i)) as T.
  { apply (triple_bind _ (fun _ => placed t i)); [|intros u s0 (K & H & D); split; [by apply ok_waiters|done]].
    apply placed_browser. intros y w. pose proof (leg_start_moves y w) as M. by destruct (WebRtcLeg.Start (ws_leg y) w). }
  specialize (T s P). revert T. unfold startWebRTC, on_browser, mbind, anchor_bind, media_at, need, put_media, modify, on_world.
  rewrite E. cbn. rewrite X. cbn. destruct (WebRtcLeg.Start _ _) as [g w]. cbn. intros T. by eexists.
Qed.

Lemma allocateWebRTC_spec t offer : triple (start t) (allocateWebRTC rand_read listen_ok sv offer) (placed t) (start t).
Proof.
  unfold allocateWebRTC. destruct (match _ with Some _ => _ | None => _ end) as [hash v].
  eapply triple_bind; [apply allocate_browser_spec|]. intros x s (G & T & N).
  pose proof (browser_new_ok x (browser_media x []) s G eq_refl eq_refl N eq_refl eq_refl eq_refl) as K.
  unfold mbind at 1, anchor_bind at 1. set (s1 := (new_media (browser_media x []) s).2) in *.
  change (new_media (browser_media x []) s) with (@inl nat anchorError (as_next s), s1). cbn match beta iota.
  assert (as_media s1 !! as_next s = Some (browser_media x [])) as E by (cbn; by rewrite lookup_insert_eq).
  destruct (startWebRTC_runs t (as_next s) (a_fingerprint (s_audio offer)) (browser_media x []) x s1) as (s2 & Rn & P); [|done|done|].
  - split; [done|]. split; [done|]. rewrite E. by eexists.
  - unfold mbind, anchor_bind. rewrite Rn. exact P.
Qed.
(** A session made and not yet on the heap. *)
Definition made (t : dialogTable) (m : mediaSession) (s : st) : Prop := as_tab s = t /\
  ((exists x, granted (sess_ports x) s /\ ms_rtp m = Some x /\ ms_webrtc m = None /\ pools x = mkTwo pubPool privPool /\
      state x <> sessClosed /\ ms_publicPort m = of_A (ports x) /\ ms_privatePort m = of_B (ports x)) \/
   (exists x, granted (ws_ports x) s /\ ms_rtp m = None /\ ms_webrtc m = Some x /\ new_browser x /\
      ms_publicPort m = g_port (ws_leg x) /\ ms_privatePort m = ws_privPort x)) /\ ms_closed m = false.

Lemma made_placed t m p a : triple (made t m) (new_media (seedApplied p a m)) (placed t) (start t).
Proof.
  intros s (T & D & C). unfold placed. split; [|split; [done|cbn; rewrite lookup_insert_eq; by eexists]].
  destruct D as [(x & G & E1 & E2 & P & S & Q1 & Q2)|(x & G & E1 & E2 & N & Q1 & Q2)].
  - by apply (rtp_new_ok _ x (seedApplied p a m) s G).
  - by apply (browser_new_ok x (seedApplied p a m) s G).
Qed.

Lemma granted_ports h h' s : (forall p, h' p = h p) -> granted h s -> granted h' s.
Proof. intros E (w0 & K & O & G). exists w0. split; [done|]. split; [done|]. intros p. rewrite E. apply G. Qed.

Lemma ensure_start t b er : triple (start t) (ensure b er) (fun _ => start t) (start t).
Proof. destruct b; by intros s Hs. Qed.
Lemma look_start t {A} (f : dialogTable -> A) : triple (start t) (look f) (fun _ => start t) (start t).
Proof. by intros s Hs. Qed.

Lemma allocatePublic_spec t d offer codecs browser src :
  triple (start t) (allocatePublic rand_read listen_ok sv d offer codecs browser src) (made t) (start t).
Proof.
  unfold allocatePublic. destruct browser.
  - eapply triple_bind; [apply ensure_start|]. intros u. eapply triple_bind; [apply allocate_browser_spec|]. intros x.
    apply triple_ret. intros s (G & T & N). split; [done|]. split; [|done]. right. by exists (SetPrivateRemote (audio_remote (s_audio offer)) x).
  - eapply triple_bind; [apply look_start|]. intros pol. eapply triple_bind; [apply look_start|]. intros name.
    eapply triple_bind; [apply ensure_start|]. intros u. eapply triple_bind; [apply allocate_rtp_spec|]. intros x.
    apply triple_ret. intros s (G & T & P & S). split; [done|]. split; [|done]. left. eexists.
    match goal with |- context [seed_rtcp ?a ?b ?c] => assert (alike x (seed_rtcp a b c)) as (A1 & A2 & A3) end.
    { eapply alike_trans; [|apply seed_rtcp_alike]. eapply alike_trans; [|apply alike_remote]. destruct (is_valid src); alike_chain. }
    split; [|split; [reflexivity|]]; [by eapply granted_ports; [|exact G]; intros p; unfold sess_ports; rewrite A2|].
    cbn [ms_rtp ms_webrtc ms_publicPort ms_privatePort]. split; [done|]. split; [by rewrite A1|].
    split; [intros E; apply A3 in E; congruence|done].
Qed.

(** Nothing but [ok] is left of a handler that ran into an error. *)
Definition unattached (d : nat) (s : st) : Prop := ok [] None s /\ session d (as_tab s) = None.

(** A step before anything is allocated. *)
Ltac from_start t :=
  apply (triple_bind _ (fun _ => start t));
  [first [by intros ? ? | eapply triple_weaken; [first [apply (ensure_start t) | apply (triple_lift _ _ (start t))]|done|by (done || intros ? ? [])|by intros ? []]]
  |intros ?].
(** The last step of the allocation. *)
Ltac placed_by t L := eapply triple_weaken; [apply (L t)|done|done|by (done || intros ? [])].

Lemma usable_start t offer : triple (start t) (usable offer) (fun _ => start t) (start t).
Proof. unfold usable. from_start t. by apply triple_ret. Qed.
Lemma open_start t d : triple (start t) (ensure_open d) (fun _ => start t) (start t).
Proof. unfold ensure_open. from_start t. apply ensure_start. Qed.

Lemma from_unattached {A} d (m : anchor A) : (forall t, session d t = None -> triple (start t) m (fun _ => ok [] None) (ok [] None)) ->
  triple (unattached d) m (fun _ => ok [] None) (ok [] None).
Proof. intros H s [K N]. by apply (H (as_tab s) N). Qed.

Lemma buildUpstreamOffer_ok d body src :
  triple (unattached d) (buildUpstreamOffer Unmarshal rand_read listen_ok sv d body src) (fun _ => ok [] None) (ok [] None).
Proof.
  apply from_unattached. intros t N. unfold buildUpstreamOffer. from_start t.
  apply (triple_bind _ (fun _ => start t)); [placed_by t usable_start|]. intros codecs.
  apply (triple_bind _ (fun _ => start t)); [placed_by t open_start|]. intros _.
  apply (triple_bind _ (placed t)).
  { destruct (WebRTC _); [from_start t; from_start t; placed_by t allocateWebRTC_spec|from_start t; from_start t; placed_by t allocateRTP_spec]. }
  intros i. apply (triple_bind _ (fun _ => placed t i)).
  { intros s0 P. pose proof (placed_modified t i i _ (negotiated_moves codecs) s0 P) as H. revert H.
    unfold on_media, mbind, anchor_bind, media_at, need. destruct P as (_ & _ & [m E]). rewrite E. by cbn. }
  intros _. apply (triple_bind _ (fun _ => ok [] None)); [by apply (attach_spec t)|]. intros _.
  apply triple_keeps. keep.
Qed.

Lemma buildPublicOffer_ok d body browser src :
  triple (unattached d) (buildPublicOffer Unmarshal rand_read listen_ok sv d body browser src) (fun _ => ok [] None) (ok [] None).
Proof.
  apply from_unattached. intros t N. unfold buildPublicOffer. from_start t. from_start t.
  apply (triple_bind _ (fun _ => start t)); [placed_by t usable_start|]. intros codecs.
  apply (triple_bind _ (fun _ => start t)); [placed_by t open_start|]. intros _.
  apply (triple_bind _ (made t)); [placed_by t allocatePublic_spec|]. intros m.
  apply (triple_bind _ (placed t)); [placed_by t made_placed|].
  intros i. apply (triple_bind _ (fun _ => ok [] None)); [by apply (attach_spec t)|]. intros _.
  apply triple_keeps. keep.
Qed.

(** *** The rest of the handlers *)

Lemma keeps_followFork (I : st -> Prop) `{SI : !Stable I} now l f : keeps I (followFork newContext now l f).
Proof. unfold followFork. keep. Qed.
Lemma keeps_fork_srtp (I : st -> Prop) `{SI : !Stable I} l i o a : keeps I (fork_srtp rand_read newContext l i o a).
Proof. unfold fork_srtp, answer_set. keep. Qed.
#[local] Hint Resolve keeps_followFork keeps_fork_srtp : anchor.

Lemma keeps_negotiateFork (I : st -> Prop) `{SI : !Stable I} now l f body : keeps I (negotiateFork Unmarshal rand_read newContext sv now l f body).
Proof. unfold negotiateFork. keep. Qed.
Lemma keeps_answer_followed (I : st -> Prop) `{SI : !Stable I} d : keeps I (answer_followed d).
Proof. unfold answer_followed. keep. Qed.
#[local] Hint Resolve keeps_negotiateFork keeps_answer_followed : anchor.

Lemma keeps_rebuildOffer (I : st -> Prop) `{SI : !Stable I} d f body p : keeps I (rebuildInDialogOffer Unmarshal rand_read sv d f body p).
Proof. unfold rebuildInDialogOffer, usable, requireRTCPMux, sdes_offer. keep. Qed.
Lemma keeps_answer_srtp (I : st -> Prop) `{SI : !Stable I} i o a p : keeps I (answer_srtp rand_read newContext i o a p).
Proof. unfold answer_srtp, answer_set. keep. Qed.
#[local] Hint Resolve keeps_answer_srtp : anchor.
Lemma keeps_rebuildAnswer (I : st -> Prop) `{SI : !Stable I} d f o body p : keeps I (rebuildInDialogAnswer Unmarshal rand_read newContext sv d f o body p).
Proof. unfold rebuildInDialogAnswer. keep. Qed.
Lemma keeps_apply_side (I : st -> Prop) `{SI : !Stable I} now d p b : keeps I (apply_side now d p b).
Proof. unfold apply_side. keep. Qed.
#[local] Hint Resolve keeps_rebuildAnswer keeps_apply_side : anchor.
Lemma keeps_applyReInvite (I : st -> Prop) `{SI : !Stable I} now d p o q a : keeps I (applyReInvite now d p o q a).
Proof. unfold applyReInvite. keep. Qed.
Lemma keeps_prepareOwed (I : st -> Prop) `{SI : !Stable I} d o body : keeps I (prepareOwed Unmarshal rand_read newContext sv d o body).
Proof. unfold prepareOwed. keep. Qed.
#[local] Hint Resolve keeps_applyReInvite : anchor.
Lemma keeps_applyOwed (I : st -> Prop) `{SI : !Stable I} now d o a : keeps I (applyOwed now d o a).
Proof. unfold applyOwed, noteForkAnswered. keep. Qed.

Lemma build_offerless_ok d b body :
  triple (unattached d) (build_offerless Unmarshal rand_read listen_ok sv d b body) (fun _ => ok [] None) (ok [] None).
Proof. destruct b; [apply buildPublicOffer_ok|apply buildUpstreamOffer_ok]. Qed.

Context (Value : SipMsg.header -> gostring).

Lemma keeps_offerlessFork l b f res : keeps (ok (R:=R) (Ctx:=Ctx) [] None) (offerlessFork Unmarshal rand_read listen_ok Value sv l b f res).
Proof.
  unfold offerlessFork. destruct (beq (body_of res) []); [keep|]. destruct (_ && _); [keep|]. apply triple_keeps.
  apply (triple_bind _ (fun o s => ok [] None s /\ session (il_d l) (as_tab s) = o)); [by intros s Hs|]. intros o.
  apply (triple_bind _ (fun _ => unattached (il_d l))).
  { intros s [K E]. case_bool_decide; cbn; [|done]. by subst o. }
  intros _. apply (triple_bind _ (fun _ => ok [] None)); [apply build_offerless_ok|]. intros offer.
  apply triple_keeps. keep.
Qed.
#[local] Hint Resolve keeps_offerlessFork : anchor.

Lemma keeps_forkAnswer now l res :
  keeps (ok (R:=R) (Ctx:=Ctx) [] None) (MediaAnchor.forkAnswer Unmarshal rand_read newContext listen_ok Value sv now l res).
Proof. unfold MediaAnchor.forkAnswer. keep. Qed.
End Handlers.

#[export] Hint Resolve keeps_nextOrigin keeps_nextForkOrigin keeps_originFor keeps_setApplied keeps_setForkAnswer keeps_setForkSDES
  keeps_fork keeps_adoptOrigin keeps_setOwed keeps_noteForkUpdate keeps_leg_lines keeps_commit_plan keeps_plan_answer keeps_check_answer
  keeps_commit_or_fail keeps_point keeps_negotiated keeps_rank keeps_session_of keeps_startWebRTC keeps_startOffered keeps_followFork
  keeps_fork_srtp keeps_answer_srtp : anchor.
