(* ===== verification/AnchorRun.v ===== *)
(** Runs of the anchoring handlers and what holds over any of them.

    [event] names what the edge's goroutines do to anchored media: an INVITE
    that opens a call, an answered fork, re-negotiation, an owed answer, the
    end of a call, shutdown, the goroutines that wait for browser legs, and the
    packets, timers and legs of the media sessions themselves.  [handle] runs
    one and [run_events] any sequence of them.  The ports in use are those of
    the open sessions of live calls, after any run. *)

From S2P Require Import Prelude GoTime Netip PortPool Latch MediaSession SdpCodec SdpCrypto SdpParse SdpBuild Topology EdgeSdes SipMsg.
From S2P Require Import WebRtcLeg WebRtcSession Dialog DialogInv DialogSafety MediaAnchor AnchorSafety.

Open Scope Z_scope.

Section Run.
Context `{SP : SipMsg.SipParams}.
Context {R Ctx : Type}.
Context (Unmarshal : gostring -> option SessionDescription).
Context (rand_read : Z -> R -> option (list Z) * R).
Context (newContext : SDESSuite -> list Z -> list Z -> option Ctx).
Context (KeyLen SaltLen : SDESSuite -> option Z).
Context (unprotectRTP unprotectRTCP protectRTP protectRTCP : Ctx -> list Z -> option (list Z) * Ctx).
Context (write_udp : list Z -> AddrPort -> option Z) (write_leg : list Z -> option Z).
Context (listen_ok : Addr -> Z -> bool).
Context (Value : SipMsg.header -> gostring).
Context (sv : server) (pub_ok : params_ok (sv_pub sv)) (priv_ok : params_ok (sv_priv sv)).
#[local] Abbreviation st := (@anchorState SP R Ctx).
#[local] Abbreviation stays e m := (keeps (ok (R:=R) (Ctx:=Ctx) [] e) m).

(** ** Events *)

(** An INVITE outside a dialog, up to its offer: the call's record, the rate
    limit's verdict, the carrier and the SRTP policy, and the media of the
    INVITE's own offer if it has one. *)
Definition open_call (now : Z) (hs : list header) (p : plane) (limit : Z) (admitted : bool) (carrier : option gostring)
  (pol : srtpPolicy) (offer : option (offerBuilder * gostring)) : @anchor SP R Ctx (option nat) :=
  r ← tabling (begin_ now hs p limit);
  match r with
  | beginOK d =>
      if negb admitted then _ ← tabling (end_ d endShutdown); mret None
      else
        _ ← (match carrier with Some n => tabling_ (setCarrier d n) | None => mret tt end);
        _ ← tabling_ (setSRTP d pol);
        _ ← (match offer with
             | Some (b, body) => _ ← build_offerless Unmarshal rand_read listen_ok sv d b body; mret tt
             | None => mret tt
             end);
        mret (Some d)
  | _ => mret None
  end.

Definition on_rtp (i : nat) (f : @MediaSession.Session Ctx -> world -> MediaSession.Session * world) : @anchor SP R Ctx unit :=
  m ← media_at i;
  match ms_rtp m with
  | Some x => x ← on_world (f x); put_media i (with_rtp (Some x) m)
  | None => mret tt
  end.

Inductive event :=
  | ECall (now : Z) (hs : list header) (p : plane) (limit : Z) (admitted : bool) (carrier : option gostring)
      (pol : srtpPolicy) (offer : option (offerBuilder * gostring))
  | EFork (now : Z) (l : inviteLeg) (res : response)
  | EReOffer (d : nat) (f : option nat) (body : gostring) (toward : plane)
  | EReAnswer (d : nat) (f : option nat) (offer : SdpParse.Session) (body : gostring) (toward : plane)
  | EApply (now : Z) (d : nat) (offerer : plane) (offer : option SdpParse.Session) (answerer : plane) (answer : option SdpParse.Session)
  | EPrepareOwed (d : nat) (o : owedAnswer) (body : gostring)
  | EApplyOwed (now : Z) (d : nat) (o : owedAnswer) (answer : SdpParse.Session)
  | ETable (o : op)                                   (* any operation of the table but a call's life *)
  | EConfirm (now : Z) (d : nat) (calleeTag : gostring) (r : dialogRoute)
  | EEnd (d : nat) (reason : endReason)
  | EShutdown
  | EBegin (k : nat) | EWake (now : Z) (k : nat) (why : wake) (certificate : option (list (list Z)))
  | ERtp (i : nat) (o : sess_op)                      (* a packet or a setting of a plain session *)
  | ERtpClose (i : nat) (c : Z)                       (* its silence watchdog *)
  | EBrowser (i : nat) (o : ws_op).              (* anything a browser session does *)

Definition handle (e : event) : @anchor SP R Ctx unit :=
  match e with
  | ECall now hs p limit admitted carrier pol offer => _ ← open_call now hs p limit admitted carrier pol offer; mret tt
  | EFork now l res => _ ← MediaAnchor.forkAnswer Unmarshal rand_read newContext listen_ok Value sv now l res; mret tt
  | EReOffer d f body toward => _ ← rebuildInDialogOffer Unmarshal rand_read sv d f body toward; mret tt
  | EReAnswer d f offer body toward => _ ← rebuildInDialogAnswer Unmarshal rand_read newContext sv d f offer body toward; mret tt
  | EApply now d offerer offer answerer answer => applyReInvite now d offerer offer answerer answer
  | EPrepareOwed d o body => _ ← prepareOwed Unmarshal rand_read newContext sv d o body; mret tt
  | EApplyOwed now d o answer => applyOwed now d o answer
  | ETable o => if life o then mret tt else tabling_ (step o)
  | EConfirm now d tag r => _ ← tabling (confirm now d tag r); mret tt
  | EEnd d reason => _ ← tabling (end_ d reason); mret tt
  | EShutdown => tabling_ (fun t => closeAll (close t))
  | EBegin k => waiter_begin k
  | EWake now k why cs => waiter_wake now k why cs
  | ERtp i o => on_rtp i (fun x w =>
      (sess_step newContext unprotectRTP unprotectRTCP protectRTP protectRTCP write_udp x o, w))
  | ERtpClose i c => on_rtp i (MediaSession.closeWith c)
  | EBrowser i o => _ ← on_browser i (fun x w =>
      ws_step newContext KeyLen SaltLen unprotectRTP unprotectRTCP protectRTP protectRTCP write_udp write_leg (x, w) o); mret tt
  end.

Definition run_events (es : list event) (s : st) : st := fold_left (fun s e => (handle e s).2) es s.

(** A process that has just started. *)
Definition first_state (w : world) (r : R) : st := mkAS newDialogTable ∅ 0 w r [].
Definition idle (w : world) : Prop := world_ok w /\ forall i, inUse (wpools w i) = ∅.

(** ** What each event keeps *)

Lemma ok_first w r : idle w -> ok [] None (first_state w r).
Proof.
  intros [W I]. constructor; try done; cbn.
  - apply Inv_new.
  - intros i [x H]. by rewrite lookup_empty in H.
  - intros p z. rewrite I. split; [by intros []%elem_of_empty|]. intros (i & m & H & _). by rewrite lookup_empty in H.
  - intros i [x H]. by rewrite lookup_empty in H.
  - intros i []%elem_of_nil.
Qed.

(** *** The life of a call *)

Lemma keeps_tabling e {A} (f : dialogTable -> A * dialogTable) :
  (forall s : st, ok [] e s -> let t := (f (as_tab s)).2 in Inv t /\ t_pending t = [] /\ exists l, t_closedMedia t = t_closedMedia (as_tab s) ++ l /\
     (forall i, i ∈ l -> is_Some (as_media s !! i)) /\
     (forall d x i, t_heap (as_tab s) !! d = Some x -> d_media x = Some i -> exists y, t_heap t !! d = Some y /\ d_media y = Some i) /\
     (forall d y i, t_heap t !! d = Some y -> d_media y = Some i -> is_Some (as_media s !! i))) ->
  stays e (tabling f).
Proof.
  intros F s K. destruct (F s K) as (I & P & l & C & L & H & B). unfold tabling. destruct (f (as_tab s)) as [a t]. cbn [snd] in *.
  rewrite C, drop_app_new. by apply ok_table.
Qed.

(** A table that gained or lost no session. *)
Lemma keeps_plain e {A} (f : dialogTable -> A * dialogTable) :
  (forall s : st, ok [] e s -> let t := (f (as_tab s)).2 in Inv t /\ t_pending t = [] /\ t_closedMedia t = t_closedMedia (as_tab s) /\
     (forall d x i, t_heap (as_tab s) !! d = Some x -> d_media x = Some i -> exists y, t_heap t !! d = Some y /\ d_media y = Some i) /\
     (forall d y i, t_heap t !! d = Some y -> d_media y = Some i -> exists x, t_heap (as_tab s) !! d = Some x /\ d_media x = Some i)) ->
  stays e (tabling f).
Proof.
  intros F. apply keeps_tabling. intros s K. destruct (F s K) as (I & P & C & H & B). split; [done|]. split; [done|].
  exists []. rewrite app_nil_r. split; [done|]. split; [by intros i []%elem_of_nil|]. split; [done|].
  intros d y i E M. destruct (B d y i E M) as (x & E' & M'). by apply (ok_known _ _ _ K d x).
Qed.

Lemma keeps_begin e now hs p limit : stays e (tabling (begin_ now hs p limit)).
Proof.
  apply keeps_plain. intros s K. split; [apply Inv_begin, K|].
  destruct (begin_cases now hs p limit (as_tab s)) as [(r & -> & _)|(t' & -> & _ & _ & _ & ->)]; cbn [snd].
  { split; [apply K|]. split; [done|]. split; intros d x i E M; by exists x. }
  split; [apply K|]. split; [done|]. cbn [t_heap with_sessions with_byCallID with_heap with_nextId].
  assert (t_heap (as_tab s) !! t_nextId (as_tab s) = None) as N.
  { destruct (t_heap (as_tab s) !! t_nextId (as_tab s)) eqn:E; [|done]. pose proof (I_fresh _ (ok_tab _ _ _ K) _ (ex_intro _ _ E)). lia. }
  split; intros d x i E M.
  - exists x. rewrite lookup_insert_ne; [done|]. intros <-. congruence.
  - destruct (decide (d = t_nextId (as_tab s))) as [->|D]; [rewrite lookup_insert_eq in E; injection E as <-; discriminate|].
    rewrite lookup_insert_ne in E by done. by exists x.
Qed.

Lemma keeps_confirm e now d tag r : stays e (tabling (confirm now d tag r)).
Proof.
  apply keeps_plain. intros s K. split; [apply Inv_confirm, K|].
  destruct (confirm_cases now d tag r (as_tab s)) as [->|(x & x' & m & E & _ & _ & M & -> & _ & _ & _ & _ & M' & _)]; cbn [snd].
  { split; [apply K|]. split; [done|]. split; intros f y i F H; by exists y. }
  split; [apply K|]. split; [done|]. cbn [t_heap with_started with_heap]. split; intros f y i F H.
  - destruct (decide (f = d)) as [->|N]; [exists x'; rewrite lookup_insert_eq; split; [done|congruence]|exists y; by rewrite lookup_insert_ne].
  - destruct (decide (f = d)) as [->|N]; [rewrite lookup_insert_eq in F; exists x; split; [done|congruence]|].
    rewrite lookup_insert_ne in F by done. by exists y.
Qed.

(** What ending a record does to the table, in these terms. *)
Definition ends (t t' : dialogTable) : Prop :=
  Inv t' /\ t_pending t' = [] /\
  (exists l, t_closedMedia t' = t_closedMedia t ++ l /\ forall i, i ∈ l -> exists d x, t_heap t !! d = Some x /\ d_media x = Some i) /\
  (forall d x, t_heap t !! d = Some x -> exists y, t_heap t' !! d = Some y /\ d_media y = d_media x) /\
  (forall d y, t_heap t' !! d = Some y -> exists x, t_heap t !! d = Some x /\ d_media y = d_media x).

Lemma ends_refl t : Inv t -> t_pending t = [] -> ends t t.
Proof.
  intros I P. split; [done|]. split; [done|]. split; [exists []; rewrite app_nil_r; by split; [|intros i []%elem_of_nil]|].
  split; intros d x E; by exists x.
Qed.

Lemma ends_trans t1 t2 t3 : ends t1 t2 -> ends t2 t3 -> ends t1 t3.
Proof.
  intros (_ & _ & (l1 & M1 & L1) & F1 & B1) (I2 & P2 & (l2 & M2 & L2) & F2 & B2).
  split; [done|]. split; [done|]. split.
  - exists (l1 ++ l2). split; [by rewrite M2, M1, app_assoc|]. intros i [H|H]%elem_of_app; [by apply L1|].
    destruct (L2 i H) as (d & y & E & M). destruct (B1 d y E) as (x & E' & M'). exists d, x. split; [done|congruence].
  - split; intros d x E.
    + destruct (F1 d x E) as (y & E1 & ?). destruct (F2 d y E1) as (z & E2 & ?). exists z. split; [done|congruence].
    + destruct (B2 d x E) as (y & E1 & ?). destruct (B1 d y E1) as (z & E2 & ?). exists z. split; [done|congruence].
Qed.

Lemma ends_end d r t : Inv t -> t_pending t = [] -> ends t (end_ d r t).2.
Proof.
  intros I P. destruct (end_whole d r t I) as (I' & C & _ & F & S & _). cbv zeta in *.
  assert (forall e x, t_heap t !! e = Some x -> exists y, t_heap (end_ d r t).2 !! e = Some y /\ d_media y = d_media x) as F'.
  { intros e x E. destruct (F e x E) as (y & ? & ? & _). by exists y. }
  assert (t_pending (end_ d r t).2 = [] /\ exists l, t_closedMedia (end_ d r t).2 = t_closedMedia t ++ l /\
    forall i, i ∈ l -> exists e x, t_heap t !! e = Some x /\ d_media x = Some i) as [P' L].
  { clear F S F' C I'. unfold end_. destruct (end_cases d r t) as [[-> _]|(x & y & t1 & E & _ & H & _ & _ & _ & _ & _ & _ & _ & _ & _ & Hp & _ & Hm & _)]; cbn [snd].
    - split; [done|]. exists []. rewrite app_nil_r. by split; [|intros i []%elem_of_nil].
    - pose proof (Inv_end d r t I) as I1. rewrite H in *. cbn [snd] in I1. set (e := mkEnding _ _ _ _) in *.
      rewrite P in Hp. cbn in Hp. rewrite end_rest_settled by (done || (rewrite Hp; by left)). unfold settled. cbn.
      assert (forall v, t_pending (release_hook v t1) = t_pending t1 /\ t_closedMedia (release_hook v t1) = t_closedMedia t1) as RH.
      { intros v. unfold release_hook, upd. by destruct (t_heap t1 !! v). }
      destruct (RH d) as [-> ->]. rewrite Hp, Hm. cbn. rewrite bool_decide_eq_true_2 by done. split; [done|].
      eexists. split; [done|]. intros i Hi. exists d, x. split; [done|]. destruct (d_media x); [|by apply elem_of_nil in Hi].
      by apply list_elem_of_singleton in Hi as ->. }
  split; [done|]. split; [done|]. split; [done|]. split; [done|].
  intros e y E. destruct (S e (ex_intro _ _ E)) as [x Ex]. destruct (F e x Ex) as (z & Ez & M & _). exists x. split; [done|]. congruence.
Qed.

Lemma ends_all ds t : Inv t -> t_pending t = [] -> ends t (fold_left (fun t d => (end_ d endShutdown t).2) ds t).
Proof.
  revert t. induction ds as [|d ds IH]; intros t I P; [by apply ends_refl|]. cbn [fold_left].
  pose proof (ends_end d endShutdown t I P) as E. eapply ends_trans; [exact E|]. apply IH; apply E.
Qed.

Lemma keeps_ends e {A} (f : dialogTable -> A * dialogTable) :
  (forall t, Inv t -> t_pending t = [] -> ends t (f t).2) -> stays e (tabling f).
Proof.
  intros H. apply keeps_tabling. intros s K. destruct (H (as_tab s) (ok_tab _ _ _ K) (ok_pending _ _ _ K)) as (I & P & (l & C & L) & F & B).
  split; [done|]. split; [done|]. exists l. split; [done|]. split; [|split].
  - intros i Hi. destruct (L i Hi) as (d & x & E & M). by apply (ok_known _ _ _ K d x).
  - intros d x i E M. destruct (F d x E) as (y & ? & ?). exists y. split; [done|congruence].
  - intros d y i E M. destruct (B d y E) as (x & Ex & Mx). apply (ok_known _ _ _ K d x); [done|congruence].
Qed.

Lemma keeps_end e d r : stays e (tabling (end_ d r)).
Proof. apply keeps_ends. intros t. apply ends_end. Qed.

Lemma ends_shutdown t : Inv t -> t_pending t = [] -> ends t (closeAll (close t)).
Proof.
  intros I P. unfold closeAll. exact (ends_all (all_records (close t)) (close t) (Inv_close t I) P).
Qed.

(** *** What the sessions do of themselves *)

Lemma alike_lifecycle (x x' : @MediaSession.Session Ctx) : lifecycle x' = lifecycle x -> alike x x'.
Proof.
  unfold lifecycle, resources. intros E. unfold alike. split_and!; [congruence..|]. assert (state x' = state x) as -> by congruence. done.
Qed.

Lemma sess_step_alike o (x : @MediaSession.Session Ctx) :
  alike x (sess_step newContext unprotectRTP unprotectRTCP protectRTP protectRTCP write_udp x o).
Proof.
  destruct o; cbn [sess_step]; try apply alike_latches.
  - apply alike_start.
  - apply alike_sdes_remote.
  - apply alike_sdes_local.
  - apply alike_lifecycle, forward_lifecycle.
Qed.

Lemma sess_step_moves o x (m : @mediaSession Ctx) w : ms_rtp m = Some x ->
  moves m (with_rtp (Some (sess_step newContext unprotectRTP unprotectRTCP protectRTP protectRTCP write_udp x o)) m) w w.
Proof. intros E. apply (moves_alike m x); [done|apply sess_step_alike]. Qed.

Lemma sess_close_moves c x (m : @mediaSession Ctx) w : ms_rtp m = Some x ->
  moves m (with_rtp (Some (MediaSession.closeWith c x w).1) m) w (MediaSession.closeWith c x w).2.
Proof.
  intros E. destruct (sess_close_shape c x w) as [P Q]. apply (moves_rtp m x); try done. intros H. by apply sess_close_use.
Qed.

Lemma ws_step_moves o (x : @WebRTCSession Ctx) w : ws_moves (x, w)
  (ws_step newContext KeyLen SaltLen unprotectRTP unprotectRTCP protectRTP protectRTCP write_udp write_leg (x, w) o).2.
Proof.
  destruct o; cbn [ws_step].
  - pose proof (step_world newContext KeyLen SaltLen (ws_leg x, w) o) as W. destruct (leg_step _ _ _ _ _) as [g' w'].
    by apply ws_moves_leg.
  - apply ws_moves_frame, remote_frame.
  - apply ws_moves_frame, relatch_frame.
  - apply begin_moves.
  - case_if; [|apply ws_moves_refl]. eapply ws_moves_trans; [apply waiting_moves|apply start_moves].
  - destruct (demux_to pkt) as [[]|]; try apply ws_moves_refl. case_if; [apply ws_moves_refl|].
    pose proof (public_frame unprotectRTP unprotectRTCP write_udp now pkt x) as F. destruct (public_packet _ _ _ _ _ _) as [r x']. by apply ws_moves_frame.
  - case_if; [apply ws_moves_refl|]. pose proof (private_frame protectRTP protectRTCP write_leg now rtpKind big pkt src x) as F.
    destruct (private_packet _ _ _ _ _ _ _ _ _) as [r x']. by apply ws_moves_frame.
  - apply ws_moves_close.
Qed.

Lemma keeps_on_rtp e i f : (forall x m w, ms_rtp m = Some x -> moves m (with_rtp (Some (f x w).1) m) w (f x w).2) -> stays e (on_rtp i f).
Proof.
  intros H s K. unfold on_rtp, mbind, anchor_bind, media_at, need, put_media, modify, on_world.
  destruct (as_media s !! i) as [m|] eqn:E; [|done]. cbn. destruct (ms_rtp m) as [x|] eqn:X; [|done]. cbn.
  specialize (H x m (as_world s) X). destruct (f x (as_world s)) as [x' w']. cbn in *. exact (ok_moves [] e s i m _ w' K E H).
Qed.

(** *** Every event *)

Lemma unattached_op d o : life o = false -> keeps (unattached (R:=R) (Ctx:=Ctx) d) (tabling_ (step o)).
Proof.
  intros L s [K N]. split; [exact (keeps_ok_op None o (fun t => (tt, step o t)) L (fun _ => eq_refl) s K)|].
  unfold tabling_, tabling. cbn [snd]. rewrite close_all_tab. pose proof (q_heap _ _ _ (step_quiet o (as_tab s) L) d) as H.
  unfold session, get in *. cbn [as_tab with_tab]. destruct (t_heap (step o (as_tab s)) !! d) as [y|]; [|done].
  destruct (t_heap (as_tab s) !! d) as [x|]; cbn in H; [|done]. unfold core in H. congruence.
Qed.

Lemma begin_unattached now hs p limit :
  triple (ok (R:=R) (Ctx:=Ctx) [] None) (tabling (begin_ now hs p limit))
    (fun r s => match r with beginOK d => unattached d s | _ => ok [] None s end) (ok [] None).
Proof.
  intros s K. pose proof (keeps_begin None now hs p limit s K) as K'. revert K'. unfold tabling.
  destruct (begin_cases now hs p limit (as_tab s)) as [(r & -> & N)|(t' & -> & _ & _ & _ & ->)]; cbn [snd fst]; intros K'.
  - destruct r; try done. by destruct (N d).
  - split; [done|]. rewrite close_all_tab. unfold session, get. cbn. by rewrite lookup_insert_eq.
Qed.

Lemma keeps_open_call now hs p limit admitted carrier pol offer :
  stays None (open_call now hs p limit admitted carrier pol offer).
Proof.
  apply triple_keeps. unfold open_call. eapply triple_bind; [apply begin_unattached|]. intros [d| | |]; [|by apply triple_ret..].
  destruct (negb admitted).
  { apply (triple_weaken (ok [] None) _ _ (fun _ => ok [] None) _ (ok [] None)); [|by intros s [K _]|done..]. apply triple_keeps.
    apply keeps_bind; [apply keeps_end|]. intros ?. apply keeps_ret. }
  assert (forall o, life o = false -> triple (unattached d) (tabling_ (step o)) (fun _ => unattached d) (ok (R:=R) (Ctx:=Ctx) [] None)) as T.
  { intros o L. apply (triple_weaken (unattached d) _ _ (fun _ => unattached d) _ (unattached d)); [|done..|by intros s [K _]].
    apply triple_keeps. by apply unattached_op. }
  eapply (triple_bind _ (fun _ => unattached d)).
  { destruct carrier as [n|]; [exact (T (OSetCarrier d n) eq_refl)|by apply triple_ret]. }
  intros _. eapply (triple_bind _ (fun _ => unattached d)); [exact (T (OSetSRTP d pol) eq_refl)|]. intros _.
  apply (triple_bind _ (fun _ => ok [] None)); [|intros _; by apply triple_ret].
  destruct offer as [[b body]|]; [|by apply triple_ret; intros s [K _]].
  apply (triple_bind _ (fun _ => ok [] None)); [by apply build_offerless_ok|]. intros _. by apply triple_ret.
Qed.

Lemma keeps_then e {A} (m : @anchor SP R Ctx A) : stays e m -> stays e (_ ← m; mret tt).
Proof. intros K. apply keeps_bind; [done|]. intros _. apply keeps_ret. Qed.

Lemma handle_ok e : stays None (handle e).
Proof.
  destruct e; cbn [handle]; try apply keeps_then.
  - apply keeps_open_call.
  - apply keeps_forkAnswer; (assumption || apply _).
  - apply keeps_rebuildOffer; (assumption || apply _).
  - apply keeps_rebuildAnswer; (assumption || apply _).
  - apply keeps_applyReInvite; (assumption || apply _).
  - apply keeps_prepareOwed; (assumption || apply _).
  - apply keeps_applyOwed; (assumption || apply _).
  - destruct (life o) eqn:L; [apply keeps_ret|]. by apply (keeps_ok_op None o).
  - apply keeps_confirm.
  - apply keeps_end.
  - apply keeps_ends. intros t. apply ends_shutdown.
  - apply keeps_waiter_begin; (assumption || apply _).
  - apply keeps_waiter_wake; (assumption || apply _).
  - apply keeps_on_rtp. intros x m w. apply sess_step_moves.
  - apply keeps_on_rtp. intros x m w. apply sess_close_moves.
  - apply (keeps_on_browser (ok [] None)). intros x w. apply ws_step_moves.
Qed.

Lemma run_ok es s : ok [] None s -> ok [] None (run_events es s).
Proof. revert s. induction es as [|e es IH]; intros s K; [done|]. apply IH. by apply handle_ok. Qed.

(** The states a process gets into. *)
Definition reachable (s : st) : Prop := exists w r es, idle w /\ s = run_events es (first_state w r).

Lemma reachable_ok s : reachable s -> ok [] None s.
Proof. intros (w & r & es & W & ->). by apply run_ok, ok_first. Qed.

(** ** No port is lost *)

(** A session that holds a port belongs to a record that has not ended. *)
Lemma holder_lives (s : st) i m p : ok [] None s -> as_media s !! i = Some m -> is_Some (holds m p) ->
  exists d x, t_heap (as_tab s) !! d = Some x /\ live x = true /\ d_media x = Some i.
Proof.
  intros K E [z H]. assert (i ∉ t_closedMedia (as_tab s)) as N.
  { intros C. destruct (ok_closed _ _ _ K i m E C) as [D|D]; [|by apply elem_of_nil in D].
    destruct (ok_wf _ _ _ K i m E) as [_ W]. rewrite (W D) in H. done. }
  destruct (ok_listed _ _ _ K i (ex_intro _ _ E)) as [C|[C|(d & x & Ed & M)]]; [done|done|].
  exists d, x. split; [done|]. split; [|done]. destruct (live x) eqn:L; [done|].
  destruct (I_media _ (ok_tab _ _ _ K) d x i Ed L M) as [C|(e & C & _)]; [done|].
  rewrite (ok_pending _ _ _ K) in C. by apply elem_of_nil in C.
Qed.

(** C35: No media port is leaked or shared.  Over any run of the edge's handlers
    and of its sessions' packets, timers and browser legs, the ports in use on
    each plane are exactly those held by the media sessions, no two sessions
    hold the same one, every session that holds one belongs to a call that has
    not ended, and what a body may name as a session's port is what it holds. *)
Theorem anchored_media_never_leaks w r es : idle w -> let s := run_events es (first_state w r) in
  (forall p z, z ∈ inUse (wpools (as_world s) (pool_id p)) <-> exists i m, as_media s !! i = Some m /\ holds m p = Some z) /\
  (forall p i j m m' z, as_media s !! i = Some m -> as_media s !! j = Some m' -> holds m p = Some z -> holds m' p = Some z -> i = j) /\
  (forall p i m, as_media s !! i = Some m -> is_Some (holds m p) ->
     exists d x, t_heap (as_tab s) !! d = Some x /\ live x = true /\ d_media x = Some i) /\
  (forall p i m z, as_media s !! i = Some m -> holds m p = Some z -> z = (anchorFor sv m p).2).
Proof.
  intros W s. assert (ok [] None s) as K by (by apply run_ok, ok_first). split_and!.
  - apply K.
  - apply K.
  - intros p i m. by apply holder_lives.
  - intros p i m z E H. apply holds_port; [by apply (ok_wf _ _ _ K i)|done].
Qed.

(** After shutdown no media port is in use, on either plane, and every media
    session the edge ever opened has given its ports back, whatever happened
    before. *)
Theorem shutdown_frees_every_port w r es : idle w -> let s := run_events (es ++ [EShutdown]) (first_state w r) in
  (forall p, inUse (wpools (as_world s) (pool_id p)) = ∅) /\
  (forall i m p, as_media s !! i = Some m -> holds m p = None).
Proof.
  intros W s. assert (ok [] None s) as K by (by apply run_ok, ok_first).
  assert (forall i m p, as_media s !! i = Some m -> holds m p = None) as N.
  { intros i m p E. destruct (holds m p) as [z|] eqn:H; [exfalso|done].
    destruct (holder_lives s i m p K E (ex_intro _ _ H)) as (d & x & Ed & L & _).
    unfold s in Ed, K. revert Ed K. unfold run_events. rewrite fold_left_app. cbn [fold_left handle].
    set (s0 := fold_left _ es _). assert (ok [] None s0) as K0 by (by apply run_ok, ok_first).
    unfold tabling_, tabling. cbn [snd]. rewrite close_all_tab. cbn [as_tab with_tab]. intros Ed _.
    destruct (end_all (all_records (close (as_tab s0))) (close (as_tab s0)) (Inv_close _ (ok_tab _ _ _ K0))) as (I & _ & F & S & _).
    fold (closeAll (close (as_tab s0))) in I, F, S. destruct (S d (ex_intro _ _ Ed)) as [y Ey].
    destruct (F d y Ey) as (x' & Ex & _ & Lx). assert (x' = x) as -> by congruence. destruct (Lx L) as [Ly Nd]. apply Nd.
    apply all_records_live; [by apply Inv_close, K0|]. by exists y. }
  split; [|done]. intros p. apply set_eq. intros z. rewrite (ok_use _ _ _ K). split; [|by intros []%elem_of_empty].
  intros (i & m & E & H). rewrite (N i m p E) in H. done.
Qed.
End Run.
