(* ===== verification/AnchorBody.v ===== *)
(** What the bodies the edge sends say about media.

    Every builder of [MediaAnchor] that succeeds returns the text of a body
    built on the proxy's own address and on the port of the call's media
    session, from the codecs of the fixed list; what goes to the private plane
    is plain RTP.  An answer once given on a fork is repeated as it was, and an
    offer inside a dialog moves no media until it is answered. *)

From S2P Require Import Prelude GoTime GoText Netip PortPool Latch MediaSession SdpCodec SdpCrypto SdpParse SdpBuild Topology EdgeSdes SipMsg.
From S2P Require Import WebRtcLeg WebRtcSession Dialog DialogInv MediaAnchor AnchorSafety AnchorRun.

Open Scope Z_scope.

Section Bodies.
Context `{SP : SipMsg.SipParams}.
Context {R Ctx : Type}.
Context (Unmarshal : gostring -> option SessionDescription).
Context (rand_read : Z -> R -> option (list Z) * R).
Context (newContext : SDESSuite -> list Z -> list Z -> option Ctx).
Context (listen_ok : Addr -> Z -> bool).
Context (Value : SipMsg.header -> gostring).
Context (sv : server).
#[local] Abbreviation st := (@anchorState SP R Ctx).

(** ** A call's session stays where it is *)

Definition lodged (d i : nat) (f : Z * Z * bool) (s : st) : Prop :=
  ok [] None s /\ session d (as_tab s) = Some i /\ exists m, as_media s !! i = Some m /\ face m = f.

#[export] Instance lodged_stable d i f : Stable (lodged d i f).
Proof.
  constructor; intros s.
  - intros r (K & S & M). by split; [apply ok_rnd|].
  - intros ws (K & S & M). by split; [apply ok_waiters|].
  - intros j m m' w' (K & S & n & E & F) Ej M. split; [by apply (ok_moves _ _ s j m)|]. split; [done|]. cbn [as_media with_world with_media].
    destruct (decide (j = i)) as [->|N]; [|exists n; by rewrite lookup_insert_ne].
    exists m'. rewrite lookup_insert_eq. split; [done|]. destruct (M (ok_wf _ _ _ K i m Ej)) as (_ & _ & E'). congruence.
  - intros o L _ (K & S & M). pose proof (step_quiet o (as_tab s) L) as Q. split; [by apply ok_quiet|]. split; [|done]. cbn [as_tab with_tab].
    pose proof (q_heap _ _ _ Q d) as H. unfold session, get in *. destruct (t_heap (as_tab s) !! d) as [x|]; [|done].
    destruct (t_heap (step o (as_tab s)) !! d) as [y|]; cbn in H; [|done]. unfold core in H. congruence.
Qed.

(** Where a step is from here on, and no promise where it fails. *)
#[local] Abbreviation leads P m Q := (triple P m Q (fun _ => True)).
Definition anywhere : st -> Prop := fun _ => True.

Lemma leads_keeps {A} (P : st -> Prop) (m : anchor A) : keeps P m -> leads P m (fun _ => P).
Proof. intros K. apply (triple_weaken P _ _ (fun _ => P) _ P); [by apply triple_keeps|done..]. Qed.

Lemma leads_exists {A B} (P : B -> st -> Prop) (m : anchor A) (Q : A -> st -> Prop) :
  (forall b, leads (P b) m Q) -> leads (fun s => exists b, P b s) m Q.
Proof. intros H s [b Hb]. by apply (H b). Qed.

Lemma leads_pure {A} (P : st -> Prop) (X : Prop) (m : anchor A) (Q : A -> st -> Prop) :
  (X -> leads P m Q) -> leads (fun s => P s /\ X) m Q.
Proof. intros H s [Hs HX]. by apply H. Qed.

Lemma leads_lift {A E} (inj : E -> anchorError) (r : A + E) (P : st -> Prop) : leads P (lift inj r) (fun a s => P s /\ r = inl a).
Proof. destruct r; by intros s Hs. Qed.

Lemma leads_ensure (P : st -> Prop) b er : leads P (ensure b er) (fun _ => P).
Proof. destruct b; by intros s Hs. Qed.

Lemma leads_need {A} (P : st -> Prop) (o : option A) : leads P (need o) (fun a s => P s /\ o = Some a).
Proof. destruct o; by intros s Hs. Qed.

Lemma leads_bind {A B} (P : st -> Prop) Q Q' (m : anchor A) (k : A -> anchor B) :
  leads P m Q -> (forall a, leads (Q a) (k a) Q') -> leads P (m ≫= k) Q'.
Proof. apply triple_bind. Qed.

Lemma usable_codecs (P : st -> Prop) offer :
  leads P (usable offer) (fun cs s => P s /\ cs = filterCodecs (a_codecs (s_audio offer))).
Proof. unfold usable. apply (leads_bind _ (fun _ => P)); [apply leads_ensure|]. intros _. by apply triple_ret. Qed.

Lemma session_lodged d : leads (ok [] None) (session_of d) (fun i s => exists f, lodged d i f s).
Proof.
  intros s K. unfold session_of, look, gets, mbind, anchor_bind, need. destruct (session d (as_tab s)) as [i|] eqn:S; [|done].
  unfold mret, anchor_ret. assert (is_Some (as_media s !! i)) as [m E].
  { unfold session, get in S. destruct (t_heap (as_tab s) !! d) as [x|] eqn:Ed; [|done]. by apply (ok_known _ _ _ K d x). }
  exists (face m). split; [done|]. split; [done|]. by exists m.
Qed.

Lemma media_lodged d i f : leads (lodged d i f) (media_at i) (fun m s => lodged d i f s /\ face m = f).
Proof.
  intros s (K & S & m & E & F). unfold media_at. rewrite E. cbn. split; [|done]. split; [done|]. split; [done|]. by exists m.
Qed.

(** ** Bodies *)

Definition sanctioned (cs : list Codec) : Prop := Forall (fun c => codecSupported (SdpCodec.Name c) = true) cs.

Lemma filterCodecs_sanctioned cs : sanctioned (filterCodecs cs).
Proof. apply Forall_forall. intros c H. by apply list_elem_of_In, filter_In in H as [_ ->]. Qed.

Lemma build_out_sanctioned answer t offer : sanctioned offer -> sanctioned (build_out answer t offer).
Proof.
  induction 1 as [|o offer H _ IH]; cbn; [constructor|]. destruct (acceptedOn answer t o) as [a|]; [|done].
  destruct (sameEncoding a o); [|done]. by constructor.
Qed.

Lemma Negotiate_sanctioned offer answer out : sanctioned offer -> Negotiate offer answer = inl out -> sanctioned out.
Proof.
  intros S. unfold Negotiate. destruct (accept_answer _ _ _ _) as [t|]; [|done]. destruct (fold_left _ _ _) as [n media].
  destruct (n =? 0); [done|]. destruct (negb media); [done|]. intros [= <-]. by apply build_out_sanctioned.
Qed.

(** [body] is the text of a body toward plane [p] about the media session of
    call [d]. *)
Definition anchored (d : nat) (p : plane) (body : gostring) (s : st) : Prop :=
  exists i m b, session d (as_tab s) = Some i /\ as_media s !! i = Some m /\
    (Marshal b = inl body \/ exists offer, MarshalDeclining b (Some offer) = inl body) /\
    (b_address b, b_port b) = anchorFor sv m p /\ (forall z, holds m p = Some z -> b_port b = z) /\
    sanctioned (b_codecs b) /\
    (p = planePrivate -> b_dtls b = false /\ b_fingerprint b = None /\ b_ufrag b = [] /\ b_crypto b = []).

Lemma face_anchor (m m' : @mediaSession Ctx) p : face m = face m' -> anchorFor sv m p = anchorFor sv m' p.
Proof. intros [= E F _]. destruct p; cbn; by rewrite ?E, ?F. Qed.

Lemma lodged_anchored d i (m : @mediaSession Ctx) s p b body : lodged d i (face m) s ->
  (Marshal b = inl body \/ exists offer, MarshalDeclining b (Some offer) = inl body) ->
  (b_address b, b_port b) = anchorFor sv m p -> sanctioned (b_codecs b) ->
  (p = planePrivate -> b_dtls b = false /\ b_fingerprint b = None /\ b_ufrag b = [] /\ b_crypto b = []) -> anchored d p body s.
Proof.
  intros (K & S & n & E & F) B A C P. exists i, n, b. rewrite (face_anchor n m p F). split_and!; try done.
  intros z H. rewrite (holds_port sv n p z (ok_wf _ _ _ K i n E) H), (face_anchor n m p F), <- A. done.
Qed.

(** What a builder hands to [Marshal]. *)
Definition proper (m : @mediaSession Ctx) (p : plane) (b : Build) : Prop :=
  (b_address b, b_port b) = anchorFor sv m p /\ sanctioned (b_codecs b) /\
  (p = planePrivate -> b_dtls b = false /\ b_fingerprint b = None /\ b_ufrag b = [] /\ b_crypto b = []).

Lemma plain_proper (m : @mediaSession Ctx) p cs dir origin lines : sanctioned cs -> (p = planePrivate -> lines = []) ->
  proper m p (browser_block sv m p (plain_build (anchorFor sv m p) cs dir origin lines)).
Proof. intros C L. unfold proper, browser_block. destruct p; [destruct (ms_webrtc m)|rewrite L by done]; by split_and!. Qed.

Lemma crypto_proper (m : @mediaSession Ctx) p b lines : proper m p b -> (p = planePrivate -> lines = []) -> proper m p (with_crypto lines b).
Proof. intros (A & C & P) L. split_and!; [done..|]. intros E. destruct (P E) as (? & ? & ? & _). by rewrite L. Qed.

(** The last step of a builder: the body, and nothing else moves. *)
Lemma marshalled d i (m : @mediaSession Ctx) p b (r : gostring + buildError) :
  (r = Marshal b \/ exists offer, r = MarshalDeclining b (Some offer)) -> proper m p b ->
  leads (lodged d i (face m)) (lift errBuild r) (fun body s => lodged d i (face m) s /\ forall s', lodged d i (face m) s' -> anchored d p body s').
Proof.
  intros B (A & C & P). eapply triple_weaken; [apply leads_lift|done| |done]. intros body s [L E]. split; [done|].
  intros s' L'. eapply lodged_anchored; [exact L'| |done..]. destruct B as [B|[o B]]; rewrite B in E; [by left|right; by exists o].
Qed.


Ltac pure_step := match goal with |- triple ?P _ _ _ =>
  eapply (leads_bind P); [first [apply leads_lift|apply usable_codecs|apply leads_need]|intros ?; apply leads_pure; intros ?] end.
Ltac passing := match goal with |- triple ?P _ _ _ => apply (leads_bind _ (fun _ => P)); [apply leads_ensure|intros _] end.
Ltac looking := match goal with |- triple ?P _ _ _ => apply (leads_bind _ (fun _ => P)); [by intros ? ?|intros ?] end.

(** [m ← media_at i] in a call's session: its ports are the session's. *)
Ltac at_media d i := match goal with |- triple (lodged _ _ ?f) _ _ _ =>
  eapply (leads_bind (lodged d i f)); [apply media_lodged|let m := fresh "m" in intros m; apply leads_pure; intros <-] end.
Ltac skip := match goal with |- triple ?P _ _ _ => apply (leads_bind _ (fun _ => P)); [apply leads_keeps; unfold sdes_offer, requireRTCPMux, answer_set in *; keep|intros ?] end.

(** Lines that go to the public plane only. *)
Ltac lines_for p := match goal with |- triple ?P _ _ _ =>
  apply (leads_bind _ (fun c s => P s /\ (p = planePrivate -> c = [])));
    [|let c := fresh "c" in intros c; apply leads_pure; intros] end.
(** The body is written, and [tac] shows what follows leaves it true. *)
Ltac written := eapply leads_bind; [eapply marshalled; [solve [eauto]|]|let body := fresh "body" in intros body; apply leads_pure; intros].

Lemma leads_const {A} (P : st -> Prop) (X : A -> Prop) (m : anchor A) : leads P m (fun _ => P) -> (forall a, X a) -> leads P m (fun a s => P s /\ X a).
Proof. intros H HX. eapply triple_weaken; [exact H|done|by intros a s ?|done]. Qed.

#[local] Abbreviation fine := (ok (R:=R) (Ctx:=Ctx) [] None).

Lemma reoffer_anchored d f body toward :
  leads fine (rebuildInDialogOffer Unmarshal rand_read sv d f body toward) (fun r s => anchored d toward r.1 s).
Proof.
  unfold rebuildInDialogOffer. pure_step. passing. pure_step. eapply leads_bind; [apply session_lodged|].
  intros i. apply leads_exists. intros g. at_media d i. skip. skip. skip. lines_for toward.
  { destruct toward; [apply leads_const; [apply leads_keeps; unfold sdes_offer; keep|done]|by apply triple_ret]. }
  written; [|by apply triple_ret; auto]. apply crypto_proper; [apply plain_proper; [subst; apply filterCodecs_sanctioned|done]|done].
Qed.

Lemma reanswer_anchored d f offer body toward :
  leads fine (rebuildInDialogAnswer Unmarshal rand_read newContext sv d f offer body toward) (fun r s => anchored d toward r.1 s).
Proof.
  unfold rebuildInDialogAnswer. pure_step. passing. pure_step. eapply leads_bind; [apply session_lodged|].
  intros i. apply leads_exists. intros g. lines_for toward.
  { unfold answer_srtp. at_media d i. destruct (ms_sdes m); [|by apply triple_ret]. destruct toward.
    - apply leads_const; [|done]. apply leads_keeps. keep.
    - skip. skip. by apply triple_ret. }
  skip. at_media d i. skip. written; [|by apply triple_ret; auto].
  apply plain_proper; [|done]. eapply Negotiate_sanctioned; [apply filterCodecs_sanctioned|eassumption].
Qed.

(** Attaching puts the session in the call's record. *)
Lemma attach_lodges t d i : session d t = None ->
  leads (placed t i) (attach_media d i) (fun _ s => exists f, lodged d i f s).
Proof.
  intros N s P. pose proof (attach_spec t d i N s P) as K. destruct P as (_ & T & _). revert K.
  unfold attach_media, mbind, anchor_bind, tabling, attach. rewrite T. clear T.
  destruct (t_heap t !! d) as [x|] eqn:E; [destruct (t_closed t || is_ended x)|]; cbn [fst snd ensure]; try done.
  unfold mret, anchor_ret. set (s' := fold_left _ _ _). intros K.
  assert (as_tab s' = upd d (set_media (Some i)) t) as T by (unfold s'; by rewrite close_all_tab).
  assert (session d (as_tab s') = Some i) as S by (rewrite T; unfold session, get, upd; rewrite E; cbn; by rewrite lookup_insert_eq).
  assert (is_Some (as_media s' !! i)) as [m M].
  { unfold session, get in S. destruct (t_heap (as_tab s') !! d) as [y|] eqn:Ey; [|done]. by apply (ok_known _ _ _ K d y). }
  exists (face m). split; [done|]. split; [done|]. by exists m.
Qed.

Context (pub_ok : params_ok (sv_pub sv)) (priv_ok : params_ok (sv_priv sv)).

Lemma leads_unattached {A} d (m : anchor A) (Q : A -> st -> Prop) : (forall t, session d t = None -> leads (start t) m Q) ->
  leads (unattached d) m Q.
Proof. intros H s [K N]. by apply (H (as_tab s) N). Qed.

Lemma leads_by {A} (P : st -> Prop) (m : anchor A) (Q : A -> st -> Prop) E : triple P m Q E -> leads P m Q.
Proof. intros H. by apply (triple_weaken P _ _ Q _ E). Qed.

Lemma upstream_anchored d body src :
  leads (unattached d) (buildUpstreamOffer Unmarshal rand_read listen_ok sv d body src) (fun r s => anchored d planePrivate (o_sdp r) s).
Proof.
  apply leads_unattached. intros t N. unfold buildUpstreamOffer. pure_step. pure_step.
  apply (leads_bind _ (fun _ => start t)); [eapply leads_by, open_start|]. intros _.
  apply (leads_bind _ (placed t)).
  { destruct (WebRTC _); [passing; passing; by eapply leads_by, allocateWebRTC_spec|looking; looking; by eapply leads_by, allocateRTP_spec]. }
  intros i. apply (leads_bind _ (fun _ => placed t i)); [eapply leads_by, placed_modified; intros; apply negotiated_moves|]. intros _.
  eapply leads_bind; [by apply attach_lodges|]. intros ?. apply leads_exists. intros g. skip. skip. at_media d i.
  written; [|by apply triple_ret; cbn; auto]. apply (plain_proper m planePrivate); [subst; apply filterCodecs_sanctioned|done].
Qed.

Lemma public_anchored d body browser src :
  leads (unattached d) (buildPublicOffer Unmarshal rand_read listen_ok sv d body browser src) (fun r s => anchored d planePublic (o_sdp r) s).
Proof.
  apply leads_unattached. intros t N. unfold buildPublicOffer. pure_step. passing. pure_step.
  apply (leads_bind _ (fun _ => start t)); [eapply leads_by, open_start|]. intros _.
  apply (leads_bind _ (made t)); [by eapply leads_by, allocatePublic_spec|]. intros m.
  apply (leads_bind _ (placed t)); [eapply leads_by, made_placed|]. intros i.
  eapply leads_bind; [by apply attach_lodges|]. intros ?. apply leads_exists. intros g. skip. at_media d i. skip.
  written; [|by apply triple_ret; cbn; auto]. apply crypto_proper; [apply plain_proper; [subst; apply filterCodecs_sanctioned|done]|done].
Qed.

(** The answer a fork gives the caller's side. *)
Definition caller_plane (l : inviteLeg) : plane := otherPlane (calleePlane (il_callee l)).

Lemma upstream_callee l : is_upstream (il_callee l) = true -> caller_plane l = planePublic.
Proof. unfold is_upstream, caller_plane. intros H. by apply bool_decide_eq_true in H as ->. Qed.

Lemma fork_anchored now l f body :
  leads fine (negotiateFork Unmarshal rand_read newContext sv now l f body) (fun b s => anchored (il_d l) (caller_plane l) b s).
Proof.
  unfold negotiateFork. fold (caller_plane l). pure_step. passing. pure_step. pure_step. eapply leads_bind; [apply session_lodged|].
  intros i. apply leads_exists. intros g. at_media (il_d l) i. skip.
  apply (leads_bind _ (fun r s => lodged (il_d l) i (face m) s /\ (caller_plane l = planePrivate -> r.1 = []))).
  { unfold fork_srtp. at_media (il_d l) i. destruct (ms_sdes _); [|by apply triple_ret]. destruct (is_upstream (il_callee l)) eqn:U.
    - apply leads_const; [apply leads_keeps; keep|]. intros r Hp. by rewrite (upstream_callee l U) in Hp.
    - skip. skip. by apply triple_ret. }
  intros [lines plan]. apply leads_pure. intros L. skip. at_media (il_d l) i. written.
  { apply plain_proper; [|done]. eapply Negotiate_sanctioned; [apply filterCodecs_sanctioned|eassumption]. }
  skip. skip. skip. skip. skip. apply triple_ret; auto.
Qed.


(** ** An offer inside a dialog moves no media *)

(** What a session relays with, and to; the SDES lines being offered are the
    rest. *)
Definition relaying (m : @mediaSession Ctx) :=
  (ms_rtp m, ms_webrtc m, ms_publicPort m, ms_privatePort m, ms_codecs m, ms_applied m, ms_closed m).

Definition unmoved (s s' : st) : Prop :=
  as_world s' = as_world s /\ as_waiters s' = as_waiters s /\ (forall i, relaying <$> as_media s' !! i = relaying <$> as_media s !! i) /\
  same core (as_tab s) (as_tab s').

Lemma unmoved_refl s : unmoved s s.
Proof. by repeat split. Qed.

Lemma unmoved_random s {A} (f : R -> A * R) : keeps (unmoved s) (random f).
Proof. intros s' U. unfold random. by destruct (f (as_rnd s')). Qed.

Lemma unmoved_lines s f i : keeps (unmoved s) (leg_lines f i).
Proof.
  intros s' U. unfold leg_lines, mbind, anchor_bind, media_at, need. destruct (as_media s' !! i) as [m|] eqn:E; [|done]. cbn.
  destruct (ms_sdes m) as [lg|]; [|done]. unfold random. destruct (f lg (as_rnd s')) as [[r l'] rnd]. cbn.
  assert (unmoved s (with_media (<[i := with_sdes (Some l') m]> (as_media s')) (with_rnd rnd s'))) as U'; [|by destruct r].
  destruct U as (W & Q & M & T). split; [done|]. split; [done|]. split; [|done]. intros j. rewrite <- M. cbn [as_media with_media with_rnd].
  destruct (decide (j = i)) as [->|N]; [by rewrite lookup_insert_eq, E|by rewrite lookup_insert_ne].
Qed.

Lemma unmoved_origin s d f p : keeps (unmoved s) (next_origin (originFor d f p)).
Proof.
  intros s' (W & Q & M & T). pose proof (step_quiet (OOriginFor d f p) (as_tab s') eq_refl) as Q'. cbn [step] in Q'.
  unfold next_origin, tabling. destruct (originFor d f p (as_tab s')) as [a t]. cbn [snd] in *.
  rewrite (q_closedMedia _ _ _ Q'), drop_all. split; [done|]. split; [done|]. split; [done|]. by eapply same_trans.
Qed.

(** An offer inside a dialog changes nothing until it is answered: building
    the body for the other side, whether it succeeds or is refused, leaves every
    media session relaying as it did, to the same addresses with the same keys
    and codecs, holds the same ports and starts nothing; only the origin
    counters and the keys to be offered are drawn. *)
Theorem reoffer_moves_no_media d f body toward s :
  unmoved s (rebuildInDialogOffer Unmarshal rand_read sv d f body toward s).2.
Proof.
  assert (keeps (unmoved s) (rebuildInDialogOffer Unmarshal rand_read sv d f body toward)) as K; [|apply K, unmoved_refl].
  pose proof (unmoved_origin s) as O. pose proof (unmoved_lines s) as L. pose proof (@unmoved_random s) as N.
  unfold rebuildInDialogOffer, usable, requireRTCPMux, sdes_offer, plan_answer, session_of. keep.
Qed.

(** ** A fork's answer is restated *)

(** Fork [f] of call [d] is the one [tag] names. *)
Definition opened (d : nat) (tag : gostring) (f : nat) (t : dialogTable) : Prop :=
  (exists x, t_heap t !! d = Some x /\ fork_named x tag = Some f) /\ is_Some (t_forkHeap t !! f).
Definition answered (d : nat) (tag : gostring) (f : nat) (body : gostring) (t : dialogTable) : Prop :=
  opened d tag f t /\ Dialog.forkAnswer f t = Some body.

(** An assertion on the table; the steps of the sessions leave it. *)
Definition of_tab (P : dialogTable -> Prop) (s : st) : Prop := P (as_tab s).

Lemma tab_random P {A} (f : R -> A * R) : keeps (of_tab P) (random f).
Proof. intros s H. unfold random. by destruct (f (as_rnd s)). Qed.
Lemma tab_waiters P (f : st -> list waiter) : keeps (of_tab P) (modify (fun s => with_waiters (f s) s)).
Proof. by intros s H. Qed.
Lemma tab_put P i m : keeps (of_tab P) (put_media i m).
Proof. by intros s H. Qed.
Lemma tab_world P {A} (f : world -> A * world) : keeps (of_tab P) (on_world f).
Proof. intros s H. unfold on_world. by destruct (f (as_world s)). Qed.
Lemma tab_tabling (P : dialogTable -> Prop) {A} (f : dialogTable -> A * dialogTable) : (forall t, P t -> P (f t).2) -> keeps (of_tab P) (tabling f).
Proof.
  intros H s Hs. unfold tabling, of_tab in *. specialize (H _ Hs). destruct (f (as_tab s)) as [a t]. cbn [snd] in *. by rewrite close_all_tab.
Qed.
#[local] Hint Resolve tab_random tab_waiters tab_put tab_world : anchor.

Lemma opened_upd_fork d tag f f' g t : opened d tag f t -> opened d tag f (upd_fork f' g t).
Proof.
  intros [H [k K]]. unfold upd_fork. destruct (t_forkHeap t !! f') as [k'|] eqn:E; [|by split; [|exists k]]. split; [exact H|]. cbn.
  destruct (decide (f = f')) as [->|N]; [rewrite lookup_insert_eq; by eexists|rewrite lookup_insert_ne by done; by exists k].
Qed.
Lemma opened_applied d tag f d' a t : opened d tag f t -> opened d tag f (setApplied d' a t).
Proof.
  intros [(x & E & F) K]. unfold setApplied, upd. destruct (t_heap t !! d') as [y|] eqn:E'; [|by split; [exists x|]]. split; [|exact K]. cbn.
  destruct (decide (d = d')) as [->|N]; [rewrite lookup_insert_eq; exists (set_applied a y); split; [done|]; assert (y = x) as -> by congruence; exact F|rewrite lookup_insert_ne by done; by exists x].
Qed.
Lemma opened_nextForkOrigin d tag f f' t : opened d tag f t -> opened d tag f (nextForkOrigin f' t).2.
Proof. intros H. unfold nextForkOrigin. destruct (t_forkHeap t !! f'); [|done]. destruct (next _) as [[i v] o]. by apply opened_upd_fork. Qed.

Lemma opened_fork now d tag t x : t_heap t !! d = Some x -> d_forks x <> None -> (forall f, fork_named x tag = Some f -> is_Some (t_forkHeap t !! f)) ->
  exists f, (fork now d tag t).1 = Some f /\ opened d tag f (fork now d tag t).2.
Proof.
  intros E N K. unfold fork, fork_at. rewrite E. destruct (fork_named x tag) as [f|] eqn:F.
  - exists f. split; [done|]. split; [by exists x|by apply K].
  - cbn. exists (t_nextId t). split; [done|]. unfold upd, opened. cbn. rewrite E. cbn. rewrite !lookup_insert_eq. split; [|by eexists].
    eexists. split; [done|]. unfold fork_named. cbn. destruct (d_forks x) as [m|]; [|done]. cbn. by rewrite lookup_insert_eq.
Qed.
Lemma fork_again now d tag f t : opened d tag f t -> fork now d tag t = (Some f, t).
Proof. intros [(x & E & F) _]. unfold fork, fork_at. by rewrite E, F. Qed.

Lemma tab_followFork now l P f : (forall t, P t -> P (setApplied (il_d l) (Some f) t)) -> keeps (of_tab P) (followFork newContext now l f).
Proof.
  intros H. unfold followFork, session_of, commit_plan, pointMedia, on_media.
  pose proof (tab_tabling P (fun t => (tt, setApplied (il_d l) (Some f) t)) H) as T. keep.
Qed.

Lemma followed now l tag f body :
  leads (of_tab (answered (il_d l) tag f body)) (followFork newContext now l f)
    (fun _ s => answered (il_d l) tag f body (as_tab s) /\ lastApplied (il_d l) (as_tab s) = Some f).
Proof.
  set (P := answered (il_d l) tag f body). unfold followFork.
  apply (leads_bind _ (fun cur s => of_tab P s /\ lastApplied (il_d l) (as_tab s) = cur)); [by intros s H|].
  intros cur. case_bool_decide as C; [subst cur; by apply triple_ret|].
  apply (leads_bind _ (fun _ => of_tab P)); [by intros s [H _]|]. intros [[remote rtcp] codecs].
  unfold session_of, commit_plan, pointMedia, on_media. skip. skip. skip. skip. intros s H. unfold tabling_, tabling. cbn [snd].
  rewrite close_all_tab. cbn [as_tab with_tab]. destruct H as [O A]. split; [split; [by apply opened_applied|]|].
  - revert A. unfold Dialog.forkAnswer, get_fork, setApplied, upd. by destruct (t_heap (as_tab s) !! il_d l).
  - destruct O as [(x & E & _) _]. unfold lastApplied, get, setApplied, upd. rewrite E. cbn. by rewrite lookup_insert_eq.
Qed.

Lemma answer_recorded d tag f body codecs r c t : opened d tag f t -> answered d tag f body (setForkAnswer f (Some body) codecs r c t).
Proof.
  intros O. split; [by apply opened_upd_fork|]. destruct O as [_ [k K]]. unfold Dialog.forkAnswer, get_fork, setForkAnswer, upd_fork.
  rewrite K. cbn. by rewrite lookup_insert_eq.
Qed.
Lemma answered_sdes d tag f body p t : answered d tag f body t -> answered d tag f body (setForkSDES f p t).
Proof.
  intros [O A]. split; [by apply opened_upd_fork|]. revert A. destruct O as [_ [k K]]. unfold Dialog.forkAnswer, get_fork, setForkSDES, upd_fork.
  rewrite K. cbn. by rewrite lookup_insert_eq.
Qed.

(** The answer to a fork is on record, and the media follows the fork. *)
Definition in_effect (d : nat) (tag : gostring) (f : nat) (body : gostring) (s : st) : Prop :=
  answered d tag f body (as_tab s) /\ (owedOnFork d f (as_tab s) = true \/ lastApplied d (as_tab s) = Some f).

Lemma negotiated_in_effect now l tag f body :
  leads (of_tab (opened (il_d l) tag f)) (negotiateFork Unmarshal rand_read newContext sv now l f body) (fun b => in_effect (il_d l) tag f b).
Proof.
  set (P := opened (il_d l) tag f). unfold negotiateFork, session_of. skip. skip. skip. skip. skip. skip. skip.
  apply (leads_bind _ (fun _ => of_tab P)).
  { apply leads_keeps. unfold fork_srtp, plan_answer, check_answer, commit_or_fail, commit_plan, answer_set, leg_lines. keep. }
  intros [lines plan]. apply (leads_bind _ (fun _ => of_tab P)).
  { apply leads_keeps, tab_tabling. intros t. apply opened_nextForkOrigin. }
  intros org. skip. apply (leads_bind _ (fun _ => of_tab P)); [apply leads_keeps; keep|]. intros b.
  apply (leads_bind _ (fun _ => of_tab P)).
  { apply leads_keeps. unfold startOfferedWebRTC, startWebRTC, on_browser. keep. }
  intros _. apply (leads_bind _ (fun _ => of_tab (answered (il_d l) tag f b))).
  { intros s H. unfold tabling_, tabling, of_tab. cbn [snd]. rewrite close_all_tab. by apply answer_recorded. }
  intros _. apply (leads_bind _ (fun _ => of_tab (answered (il_d l) tag f b))).
  { apply leads_keeps, tab_tabling. intros t. apply answered_sdes. }
  intros _. apply (leads_bind _ (fun _ => of_tab (answered (il_d l) tag f b))); [apply leads_keeps; unfold on_media; keep|].
  intros _. eapply leads_bind; [apply followed|]. intros ?. apply triple_ret. intros s [A L]. split; [done|by right].
Qed.

Lemma forked now d tag x (s : st) : t_heap (as_tab s) !! d = Some x -> d_forks x <> None ->
  (forall f, fork_named x tag = Some f -> is_Some (t_forkHeap (as_tab s) !! f)) ->
  exists f s1, tabling (fork now d tag) s = (inl (Some f), s1) /\ opened d tag f (as_tab s1).
Proof.
  intros E N K. destruct (opened_fork now d tag (as_tab s) x E N K) as (f & F & O). unfold tabling.
  destruct (fork now d tag (as_tab s)) as [o t]. cbn [fst snd] in *. subst o. exists f. eexists. split; [done|]. by rewrite close_all_tab.
Qed.

Lemma tabling_same {A} (f : dialogTable -> A * dialogTable) (s : st) a : f (as_tab s) = (a, as_tab s) -> tabling f s = (inl a, s).
Proof. intros E. unfold tabling. rewrite E, drop_all. cbn. by destruct s. Qed.

Lemma effect_restated now l tag f body (s : st) res : il_offerless l = None -> ToTag (rs_headers res) = tag ->
  in_effect (il_d l) tag f body s -> MediaAnchor.forkAnswer Unmarshal rand_read newContext listen_ok Value sv now l res s = (inl (Some body), s).
Proof.
  intros N <- [[O A] H]. unfold MediaAnchor.forkAnswer, mbind, anchor_bind. rewrite (tabling_same _ s (Some f)) by (by apply fork_again).
  cbn [need mret anchor_ret]. unfold mret, anchor_ret. rewrite N. cbn. rewrite A. cbn. destruct (owedOnFork (il_d l) f (as_tab s)) eqn:W; [done|].
  destruct H as [H|H]; [done|]. unfold followFork, mbind, anchor_bind. cbn. rewrite H, bool_decide_eq_true_2 by done. done.
Qed.

(** The answer of fork [f] stays on record, whichever branches respond. *)
Definition fixed (d : nat) (tag : gostring) (f : nat) (body : gostring) (t : dialogTable) : Prop :=
  answered d tag f body t /\ (f < t_nextId t)%nat.

Lemma fixed_fork now d tag f body tag' t : fixed d tag f body t -> fixed d tag f body (fork now d tag' t).2.
Proof.
  intros [[[(x & E & F) K] A] L]. unfold fork, fork_at. rewrite E. destruct (fork_named x tag') as [f'|] eqn:F'; [by split; [split; [split; [exists x|]|]|]|].
  unfold fixed, answered, opened, Dialog.forkAnswer, get_fork, upd. cbn. rewrite E. cbn. rewrite lookup_insert_eq, lookup_insert_ne by lia.
  split; [split; [split; [|done]|done]|lia]. eexists. split; [done|]. unfold fork_named in *. cbn. destruct (d_forks x) as [m|]; [|done]. cbn in *.
  rewrite lookup_insert_ne; [done|]. intros ->. congruence.
Qed.
Lemma fixed_upd_fork d tag f body f' g t : f' <> f -> fixed d tag f body t -> fixed d tag f body (upd_fork f' g t).
Proof.
  intros N [[O A] L]. split; [split; [by apply opened_upd_fork|]|]; unfold upd_fork, Dialog.forkAnswer, get_fork in *;
    destruct (t_forkHeap t !! f'); [|done|exact L|exact L]. cbn. by rewrite lookup_insert_ne.
Qed.
Lemma fixed_origin d tag f body f' t : f' <> f -> fixed d tag f body t -> fixed d tag f body (nextForkOrigin f' t).2.
Proof. intros N H. unfold nextForkOrigin. destruct (t_forkHeap t !! f'); [|done]. destruct (next _) as [[i v] o]. by apply fixed_upd_fork. Qed.
Lemma fixed_applied d tag f body d' a t : fixed d tag f body t -> fixed d tag f body (setApplied d' a t).
Proof.
  intros [[O A] L]. split; [split; [by apply opened_applied|]|]; unfold Dialog.forkAnswer, get_fork, setApplied, upd in *; by destruct (t_heap t !! d').
Qed.

Lemma tab_negotiateFork now l f' answerBody (P : dialogTable -> Prop) : (forall t, P t -> P (nextForkOrigin f' t).2) ->
  (forall b cs r c t, P t -> P (setForkAnswer f' b cs r c t)) -> (forall p t, P t -> P (setForkSDES f' p t)) ->
  (forall t, P t -> P (setApplied (il_d l) (Some f') t)) ->
  keeps (of_tab P) (negotiateFork Unmarshal rand_read newContext sv now l f' answerBody).
Proof.
  intros O A S F. pose proof (tab_tabling P (nextForkOrigin f') O) as O'. pose proof (tab_followFork now l P f' F) as F'.
  assert (forall b cs r c, keeps (of_tab P) (tabling_ (setForkAnswer f' b cs r c))) as A' by (intros; apply tab_tabling; intros t; apply A).
  assert (forall p, keeps (of_tab P) (tabling_ (setForkSDES f' p))) as S' by (intros; apply tab_tabling; intros t; apply S).
  unfold negotiateFork, session_of, fork_srtp, plan_answer, check_answer, commit_or_fail, commit_plan, answer_set, leg_lines, startOfferedWebRTC,
    startWebRTC, on_browser, on_media, next_origin. keep.
Qed.

Lemma response_keeps now l res tag f body : il_offerless l = None ->
  keeps (of_tab (fixed (il_d l) tag f body)) (MediaAnchor.forkAnswer Unmarshal rand_read newContext listen_ok Value sv now l res).
Proof.
  intros N. set (P := fixed (il_d l) tag f body). assert (forall f', keeps (of_tab P) (followFork newContext now l f')) as F.
  { intros f'. apply tab_followFork. intros t. apply fixed_applied. }
  unfold MediaAnchor.forkAnswer. cbv zeta. apply keeps_bind; [apply tab_tabling; intros t; apply fixed_fork|]. intros o. apply keeps_bind; [apply keeps_need|].
  intros f'. rewrite N. cbn [andb]. rewrite bool_decide_eq_false_2 by (by intros []). cbn [andb].
  apply triple_keeps. eapply triple_bind; [apply (triple_look (Dialog.forkAnswer f') (of_tab P) (of_tab P))|]. intros prev.
  apply (triple_weaken (fun s => of_tab P s /\ (f' <> f \/ prev <> None)) _ _ (fun _ => of_tab P) _ (of_tab P));
    [|intros s [K E]; split; [done|]; destruct (decide (f' = f)) as [->|]; [right|by left]; destruct K as [[_ A] _]; congruence|done..].
  destruct prev as [b|].
  - eapply triple_weaken; [apply triple_keeps|by intros s [K _]|done|done]. keep.
  - intros s [K H]. assert (f' <> f) as Ne by (by destruct H). clear H. revert s K. refine (proj1 (triple_keeps (of_tab P) _) _).
    destruct (beq _ _); [unfold answer_followed; keep|]. apply keeps_bind; [|intros; apply keeps_ret].
    apply tab_negotiateFork; intros *; [by apply fixed_origin|by apply fixed_upd_fork|by apply fixed_upd_fork|apply fixed_applied].
Qed.

(** Responses of the branches of a call, one after the other. *)
Definition respond (l : inviteLeg) (s : st) (r : Z * response) : st :=
  (MediaAnchor.forkAnswer Unmarshal rand_read newContext listen_ok Value sv r.1 l r.2 s).2.

Lemma responses_keep l rs tag f body s : il_offerless l = None -> fixed (il_d l) tag f body (as_tab s) ->
  fixed (il_d l) tag f body (as_tab (run_ops (respond l) s rs)).
Proof.
  intros N. revert s. induction rs as [|[now res] rs IH]; intros s K; [done|]. apply IH. by apply (response_keeps now l res tag f body N s).
Qed.

(** A branch whose answer is on record gets it, if it gets anything. *)
Lemma fixed_restated now l tag f body (s : st) res : il_offerless l = None -> ToTag (rs_headers res) = tag ->
  fixed (il_d l) tag f body (as_tab s) ->
  match (MediaAnchor.forkAnswer Unmarshal rand_read newContext listen_ok Value sv now l res s).1 with inl b => b = Some body | inr _ => True end.
Proof.
  intros N <- [[O A] _]. unfold MediaAnchor.forkAnswer, mbind, anchor_bind. rewrite (tabling_same _ s (Some f)) by (by apply fork_again).
  cbn [need mret anchor_ret]. unfold mret, anchor_ret. rewrite N. cbn. rewrite A. cbn. destruct (owedOnFork (il_d l) f (as_tab s)); [done|].
  by destruct (followFork newContext now l f s) as [[u|e] s'].
Qed.

(** The first answer of a branch puts it on record. *)
Lemma answer_goes_on_record now l res (s s' : st) x body : let tag := ToTag (rs_headers res) in
  il_offerless l = None -> body_of res <> [] -> t_heap (as_tab s) !! il_d l = Some x -> d_forks x <> None ->
  (forall f, fork_named x tag = Some f -> is_Some (t_forkHeap (as_tab s) !! f) /\ (f < t_nextId (as_tab s))%nat) ->
  MediaAnchor.forkAnswer Unmarshal rand_read newContext listen_ok Value sv now l res s = (inl (Some body), s') ->
  exists f, in_effect (il_d l) tag f body s' /\ (f < t_nextId (as_tab s'))%nat.
Proof.
  intros tag N B E F K. unfold MediaAnchor.forkAnswer at 1, mbind at 1, anchor_bind at 1. fold tag.
  destruct (forked now (il_d l) tag x s E F (fun f H => proj1 (K f H))) as (f & s1 & Fk & O). rewrite Fk.
  assert (f < t_nextId (as_tab s1))%nat as Lf.
  { revert Fk. unfold tabling, fork, fork_at. rewrite E. destruct (fork_named x tag) as [f0|] eqn:Fn.
    - intros [= <- <-]. rewrite close_all_tab. by apply K.
    - cbn. intros [= <- <-]. rewrite close_all_tab. unfold upd. cbn. rewrite E. cbn. lia. }
  rewrite N. cbn [need].
  unfold mbind at 1, anchor_bind at 1, mret at 1, anchor_ret at 1. cbn [andb]. rewrite bool_decide_eq_false_2 by (by intros []). cbn [andb].
  unfold mbind at 1, anchor_bind at 1, look at 1, gets at 1. intros H. exists f.
  assert (forall t, (f < t_nextId t)%nat -> (f < t_nextId (setApplied (il_d l) (Some f) t))%nat) as La.
  { intros t. unfold setApplied, upd. by destruct (t_heap t !! il_d l). }
  assert (forall g t, (f < t_nextId t)%nat -> (f < t_nextId (upd_fork f g t))%nat) as Lu.
  { intros g t. unfold upd_fork. by destruct (t_forkHeap t !! f). }
  revert H. destruct (Dialog.forkAnswer f (as_tab s1)) as [prev|] eqn:A.
  - unfold mbind, anchor_bind, look, gets. destruct (owedOnFork _ _ _) eqn:W; [intros [= <- <-]; split; [by split; [|left]|done]|].
    pose proof (followed now l tag f prev s1 (conj O A)) as L. pose proof (tab_followFork now l (fun t => f < t_nextId t)%nat f La s1 Lf) as Ln.
    destruct (followFork newContext now l f s1) as [[u|] s2]; [|done]. intros [= <- <-]. destruct L as [L1 L2]. split; [by split; [|right]|exact Ln].
  - unfold beq. rewrite bool_decide_eq_false_2 by done. unfold mbind, anchor_bind.
    pose proof (negotiated_in_effect now l tag f (body_of res) s1 O) as L.
    assert (keeps (of_tab (fun t => f < t_nextId t)%nat) (negotiateFork Unmarshal rand_read newContext sv now l f (body_of res))) as Ln.
    { apply tab_negotiateFork; intros *; [|by apply Lu|by apply Lu|by apply La]. unfold nextForkOrigin. destruct (t_forkHeap _ !! f); [|done].
      destruct (next _) as [[i v] o]. by apply Lu. }
    specialize (Ln s1 Lf). destruct (negotiateFork _ _ _ _ _ _ _ _ s1) as [[b|] s2]; [|done]. intros [= <- <-]. by split.
Qed.

(** C36: A callee branch has one answer.  For an INVITE that made an offer, while
    its call is early: once the body for a branch's SDP has gone to the caller, a
    response of that branch
    that comes next (a reliable 183 repeated, the 2xx after it, whatever SDP it
    carries) gets the same body, byte for byte, and changes nothing: no origin
    version, no key, no media.  And whatever responses of whichever branches come
    in between, with whatever outcome, a later response of the branch gets that
    body or, where its media can no longer be followed, an error; never another
    body. *)
Theorem fork_answer_is_stable now l res s s' x body : let tag := ToTag (rs_headers res) in
  il_offerless l = None -> body_of res <> [] -> t_heap (as_tab s) !! il_d l = Some x -> d_forks x <> None ->
  (forall f, fork_named x tag = Some f -> is_Some (t_forkHeap (as_tab s) !! f) /\ (f < t_nextId (as_tab s))%nat) ->
  MediaAnchor.forkAnswer Unmarshal rand_read newContext listen_ok Value sv now l res s = (inl (Some body), s') ->
  forall now' res', ToTag (rs_headers res') = tag ->
    MediaAnchor.forkAnswer Unmarshal rand_read newContext listen_ok Value sv now' l res' s' = (inl (Some body), s') /\
    forall between, match (MediaAnchor.forkAnswer Unmarshal rand_read newContext listen_ok Value sv now' l res' (run_ops (respond l) s' between)).1 with
                    | inl b => b = Some body
                    | inr _ => True
                    end.
Proof.
  intros tag N B E F K H now' res' T. destruct (answer_goes_on_record now l res s s' x body N B E F K H) as (f & I & L).
  split; [by apply (effect_restated now' l tag f)|]. intros between. apply (fixed_restated now' l tag f); [done..|].
  apply responses_keep; [done|]. split; [apply I|exact L].
Qed.

(** *** Every builder, from any state the process gets into *)

Context (KeyLen SaltLen : SDESSuite -> option Z).
Context (unprotectRTP unprotectRTCP protectRTP protectRTCP : Ctx -> list Z -> option (list Z) * Ctx).
Context (write_udp : list Z -> AddrPort -> option Z) (write_leg : list Z -> option Z).
#[local] Abbreviation reached := (reachable Unmarshal rand_read newContext KeyLen SaltLen unprotectRTP unprotectRTCP protectRTP
  protectRTCP write_udp write_leg listen_ok Value sv).

Lemma leads_elim {A} (P : st -> Prop) (m : anchor A) (Q : A -> st -> Prop) s a s' : leads P m Q -> P s -> m s = (inl a, s') -> Q a s'.
Proof. intros H Hs E. specialize (H s Hs). by rewrite E in H. Qed.

(** C34: The edge anchors all media.  Every SDP body it constructs, whichever of
    the five builders makes it, for either plane, in any state the process can
    be in, is the text of a body whose address is the proxy's own media address
    on that plane, whose port is that of the call's own media session (the one
    it holds in the pool while it is open), whose codecs are all on the fixed
    list, and which toward the private plane carries no DTLS, no fingerprint,
    no ICE and no crypto line: the switch is only ever offered plain RTP. *)
Theorem bodies_are_anchored s : reached s ->
  (forall d body src r s', session d (as_tab s) = None ->
     buildUpstreamOffer Unmarshal rand_read listen_ok sv d body src s = (inl r, s') -> anchored d planePrivate (o_sdp r) s') /\
  (forall d body browser src r s', session d (as_tab s) = None ->
     buildPublicOffer Unmarshal rand_read listen_ok sv d body browser src s = (inl r, s') -> anchored d planePublic (o_sdp r) s') /\
  (forall now l f body out s',
     negotiateFork Unmarshal rand_read newContext sv now l f body s = (inl out, s') -> anchored (il_d l) (caller_plane l) out s') /\
  (forall d f body toward r s',
     rebuildInDialogOffer Unmarshal rand_read sv d f body toward s = (inl r, s') -> anchored d toward r.1 s') /\
  (forall d f offer body toward r s',
     rebuildInDialogAnswer Unmarshal rand_read newContext sv d f offer body toward s = (inl r, s') -> anchored d toward r.1 s').
Proof.
  intros Hr. assert (ok [] None s) as K by (by eapply reachable_ok, Hr). split_and!.
  - intros d body src r s' N E. exact (leads_elim _ _ _ _ _ _ (upstream_anchored d body src) (conj K N) E).
  - intros d body browser src r s' N E. exact (leads_elim _ _ _ _ _ _ (public_anchored d body browser src) (conj K N) E).
  - intros now l f body out s' E. exact (leads_elim _ _ _ _ _ _ (fork_anchored now l f body) K E).
  - intros d f body toward r s' E. exact (leads_elim _ _ _ _ _ _ (reoffer_anchored d f body toward) K E).
  - intros d f offer body toward r s' E. exact (leads_elim _ _ _ _ _ _ (reanswer_anchored d f offer body toward) K E).
Qed.
End Bodies.
