(* ===== verification/AnchorDemo.v ===== *)
(** A client's call to the switch, run: what the theorems of [AnchorRun] and
    [AnchorBody] say of it. *)

From S2P Require Import Prelude GoTime GoText Netip PortPool Latch MediaSession SdpCodec SdpCrypto SdpParse SdpBuild Topology EdgeSdes SipMsg.
From S2P Require Import WebRtcLeg WebRtcSession Dialog DialogInv DialogSafety Hide MediaAnchor AnchorSafety AnchorRun AnchorBody.

Open Scope Z_scope.

#[local] Existing Instance ListImpl.list_params.

Definition demo_server : server := mkServer demo_topology false demo_fp public_plane private_plane.

(** Each side's SDP, read back by [read_sdp]. *)
Definition plain_sdp (a : Addr) (port : Z) : gostring :=
  match Marshal (mkBuild a port [mkCodec 0 (str "PCMU") 8000 1 []; mkCodec 101 (str "telephone-event") 8000 1 (str "0-15")]
                   [] 7 1 false false [] [] None [] []) with inl b => b | inr _ => [] end.
Definition demo_client : Addr := ip4 198 51 100 9.
Definition demo_call_offer : gostring := plain_sdp demo_client 4000.
Definition demo_call_answer : gostring := plain_sdp (ip4 10 0 0 11) 6000.
Definition demo_unmarshal (t : gostring) : option SessionDescription := Some (read_sdp t).
Definition demo_rand (n : Z) (r : unit) : option (list Z) * unit := (Some (repeat 7 (Z.to_nat n)), r).

Abbreviation demo_run := (run_events (SP := ListImpl.list_params) demo_unmarshal demo_rand toy_context (fun _ => Some 16) (fun _ => Some 14)
  toy_open toy_open toy_seal toy_seal (fun p _ => Some (len p)) (fun p => Some (len p)) (fun _ _ => true) (fun _ => []) demo_server).
Abbreviation demo_start := (first_state demo_world tt).

Definition demo_leg : inviteLeg :=
  mkInviteLeg demo_request demo_request 0
    (match ParseWithOptions demo_unmarshal demo_call_offer false with
     | inl s => Some (mkOffer 0 [] s) | inr _ => None end)
    None (private demo_topology) (private demo_topology) calleeUpstream (str "10.0.0.11:5060") (str "udp") false respToClient.
Definition demo_ringing (tag : gostring) (body : gostring) : response :=
  mkResponse 183 (mkMsg [HFrom (mkNameAddr (demo_uri 1) (Some [(str "tag", str "x")]));
                         HTo (mkNameAddr (demo_uri 2) (Some [(str "tag", tag)]))] body [] [] []).

Definition demo_events : list event :=
  [ECall 0 (demo_invite (str "c") (str "x")) planePublic 2 true None srtpOff (Some (upstreamBuilder demo_client, demo_call_offer));
   EFork 5 demo_leg (demo_ringing (str "z") demo_call_answer)].

Lemma demo_idle : idle demo_world.
Proof. split; [apply demo_planes_ok|]. by intros i. Qed.

Abbreviation demo_state es := (demo_run es demo_start).

(** While the call rings, both planes have a port out for it. *)
Lemma anchored_media_never_leaks_witness :
  inUse (wpools (as_world (demo_state demo_events)) (pool_id planePublic)) = {[ 16384 ]} /\
  (exists i m, as_media (demo_state demo_events) !! i = Some m /\ holds m planePublic = Some 16384).
Proof.
  destruct (anchored_media_never_leaks demo_unmarshal demo_rand toy_context (fun _ => Some 16) (fun _ => Some 14)
    toy_open toy_open toy_seal toy_seal (fun p _ => Some (len p)) (fun p => Some (len p)) (fun _ _ => true) (fun _ => []) demo_server
    (proj1 demo_planes_ok) (proj1 (proj2 demo_planes_ok)) demo_world tt demo_events demo_idle) as (H & _).
  assert (inUse (wpools (as_world (demo_state demo_events)) (pool_id planePublic)) = {[ 16384 ]}) as E by (vm_compute; reflexivity).
  split; [exact E|]. apply H. rewrite E. by apply elem_of_singleton.
Defined.

Lemma shutdown_frees_every_port_witness :
  inUse (wpools (as_world (demo_state (demo_events ++ [EShutdown]))) (pool_id planePublic)) = ∅.
Proof.
  apply (shutdown_frees_every_port demo_unmarshal demo_rand toy_context (fun _ => Some 16) (fun _ => Some 14)
    toy_open toy_open toy_seal toy_seal (fun p _ => Some (len p)) (fun p => Some (len p)) (fun _ _ => true) (fun _ => []) demo_server
    (proj1 demo_planes_ok) (proj1 (proj2 demo_planes_ok)) demo_world tt demo_events demo_idle).
Defined.

(** The body for the switch, of the call just opened. *)
Definition demo_open : list event := [ECall 0 (demo_invite (str "c") (str "x")) planePublic 2 true None srtpOff None].
Abbreviation demo_offered := (buildUpstreamOffer demo_unmarshal demo_rand (fun _ _ => true) demo_server 0 demo_call_offer demo_client (demo_state demo_open)).

Lemma bodies_are_anchored_witness : exists r s', demo_offered = (inl r, s') /\ anchored demo_server 0 planePrivate (o_sdp r) s'.
Proof.
  assert (exists r, demo_offered.1 = inl r) as [r E] by (vm_compute; eexists; reflexivity).
  exists r, demo_offered.2. assert (demo_offered = (inl r, demo_offered.2)) as E' by (destruct demo_offered; cbn in *; congruence).
  split; [exact E'|].
  refine (proj1 (bodies_are_anchored demo_unmarshal demo_rand toy_context (fun _ _ => true) (fun _ => []) demo_server
    (proj1 demo_planes_ok) (proj1 (proj2 demo_planes_ok)) (fun _ => Some 16) (fun _ => Some 14)
    toy_open toy_open toy_seal toy_seal (fun p _ => Some (len p)) (fun p => Some (len p)) (demo_state demo_open) _)
    0%nat demo_call_offer demo_client r _ _ E').
  - exists demo_world, tt, demo_open. split; [exact demo_idle|reflexivity].
  - vm_compute. reflexivity.
Defined.

(** The 183 repeated, and the 200 after it without a body. *)
Definition demo_called : list event :=
  [ECall 0 (demo_invite (str "c") (str "x")) planePublic 2 true None srtpOff (Some (upstreamBuilder demo_client, demo_call_offer))].
Abbreviation demo_answer now res s := (MediaAnchor.forkAnswer demo_unmarshal demo_rand toy_context (fun _ _ => true) (fun _ => []) demo_server now demo_leg res s).
Abbreviation demo_first := (demo_answer 5 (demo_ringing (str "z") demo_call_answer) (demo_state demo_called)).

Lemma fork_answer_is_stable_witness : exists body,
  demo_first = (inl (Some body), demo_first.2) /\
  demo_answer 9 (demo_ringing (str "z") []) demo_first.2 = (inl (Some body), demo_first.2) /\
  (demo_answer 9 (demo_ringing (str "z") []) (demo_answer 7 (demo_ringing (str "y") demo_call_answer) demo_first.2).2).1 = inl (Some body).
Proof.
  assert (exists body, demo_first.1 = inl (Some body)) as [body E] by (vm_compute; eexists; reflexivity).
  exists body. assert (demo_first = (inl (Some body), demo_first.2)) as E' by (destruct demo_first; cbn in *; congruence).
  split; [exact E'|].
  destruct (fork_answer_is_stable demo_unmarshal demo_rand toy_context (fun _ _ => true) (fun _ => []) demo_server 5 demo_leg
    (demo_ringing (str "z") demo_call_answer) (demo_state demo_called) demo_first.2
    (default (new_dialog 0 [] planePublic) (t_heap (as_tab (demo_state demo_called)) !! 0%nat)) body) with
    (now' := 9) (res' := demo_ringing (str "z") []) as [Again Later].
  - reflexivity.
  - vm_compute. discriminate.
  - vm_compute. reflexivity.
  - vm_compute. discriminate.
  - intros f H. vm_compute in H. discriminate.
  - exact E'.
  - vm_compute. reflexivity.
  - split; [exact Again|]. specialize (Later [(7, demo_ringing (str "y") demo_call_answer)]).
    assert (exists b, (demo_answer 9 (demo_ringing (str "z") []) (demo_answer 7 (demo_ringing (str "y") demo_call_answer) demo_first.2).2).1 = inl b) as [b Eb]
      by (vm_compute; eexists; reflexivity).
    change (match (demo_answer 9 (demo_ringing (str "z") []) (demo_answer 7 (demo_ringing (str "y") demo_call_answer) demo_first.2).2).1 with
            | inl b => b = Some body | inr _ => True end) in Later.
    rewrite Eb in Later |- *. by rewrite Later.
Defined.
