(* ===== verification/InviteFlow.v ===== *)
(** A call being placed (internal/edge/invite.go, invite_leg.go and the INVITE
    of carrier.go).

    An INVITE outside a dialog opens a record ([beginDialog]), has its media
    anchored ([MediaAnchor]), is forwarded to one switch node after another, to
    a client or to a carrier, and its responses are relayed until the final one
    ([pumpInvite]).  The handlers are programs of a state monad over
    [inviteState]; what they put on the wire is a list.  The far end's
    responses, the caller's CANCEL, the budget and whatever else happens to the
    edge meanwhile are a script, in any order; where the code looks at the call
    again after doing something, the script can put an event in between.
    sipgo's transactions are outside: of them the code relies on what the
    script says (a response, the end of the transaction). *)

From S2P Require Import Prelude GoTime GoText GoEncoding Netip Float64 SipAddr Config RateLimit Location Carriers Cooldown PortPool Latch MediaSession.
From S2P Require Import SdpCodec SdpParse SipMsg SipRequest Topology EdgeSdes Forward Dialog Hide CarrierRoute WebRtcLeg WebRtcSession.
From S2P Require Import DialogInv MediaAnchor AnchorRun Subs AckMiss.
From S2P Require Admission.

Open Scope Z_scope.

(** ** Refusals *)

Inductive inviteReject :=
  | rejectEarlyCap | rejectShuttingDown | rejectLoopDetected | rejectNoPublicSide | rejectWebRTCDisabled | rejectNoTarget
  | rejectTooManyHops | rejectMediaFailed | rejectPortExhausted | rejectUpstreamFailed | rejectTimeout | rejectSessionCap
  | rejectInviteRate | rejectDraining.

#[export] Instance inviteReject_eq_dec : EqDecision inviteReject.
Proof. solve_decision. Defined.

Definition maxEarlyPerSource : Z := 64.
Definition drainRetryAfter : Z := 30.
Definition sessionCapRetryAfter : Z := 5.

(** [math.Ceil], as an int. *)
Definition ceil_int (x : float64) : Z :=
  match x with
  | SpecFloat.S754_finite neg m e =>
      let z := if neg then - Z.pos m else Z.pos m in
      if 0 <=? e then z * 2 ^ e else - (- z / 2 ^ (- e))
  | _ => 0
  end.

Definition inviteRetryAfter (rl : RateLimit) : Z :=
  if Rate rl <=? 0 then 1 else Z.max 1 (ceil_int (fdiv (seconds (Interval rl)) (of_int (Rate rl)))).

(** The snapshot of the configuration the handlers read, and the port range of
    the start. *)
Record callConfig := mkCallConfig {
  cc_maxSessions : Z; cc_rtp : PortRange; cc_inviteRate : gostring; cc_srtp : srtpConfig; cc_draining : bool
}.

Definition sessionLimit (cfg : callConfig) : Z :=
  let pairs := Pairs (cc_rtp cfg) in
  if (cc_maxSessions cfg <=? 0) || (pairs <? cc_maxSessions cfg) then pairs else cc_maxSessions cfg.

(** What [ctx.Err()] says. *)
Inductive ctxErr := ctxLive | ctxCanceled | ctxDeadline.
#[export] Instance ctxErr_eq_dec : EqDecision ctxErr.
Proof. solve_decision. Defined.

Section Invite.
Context `{SP : SipParams} `{SH : !SipHeaders}.
Context {R Ctx : Type}.
Context (Unmarshal : gostring -> option SessionDescription).
Context (rand_read : Z -> R -> option (list Z) * R).
Context (newContext : SDESSuite -> list Z -> list Z -> option Ctx).
Context (KeyLen SaltLen : SDESSuite -> option Z).
Context (unprotectRTP unprotectRTCP protectRTP protectRTCP : Ctx -> list Z -> option (list Z) * Ctx).
Context (write_udp : list Z -> AddrPort -> option Z) (write_leg : list Z -> option Z).
Context (listen_ok : Addr -> Z -> bool).
Context (Value : header -> gostring) (NetworkToLower ToLower : gostring -> gostring).
(** A Via branch (random.go), and whether a request outside a transaction gets out. *)
Context (NewBranch : R -> gostring * R) (write_ok : request -> bool).
Context (sv : server).

#[local] Abbreviation topo := (sv_topo sv).

(** ** State and wire *)

Inductive wire :=
  | WReply (code : Z) (retryAfter : option Z) (why : option inviteReject)   (* the proxy's own response to the caller *)
  | WRelay (res : response)                                                (* a response passed on to the caller *)
  | WAgain (res : response)                                                (* the relayed 2xx, once more *)
  | WInvite (node : gostring) (out : request)                              (* the INVITE, on a client transaction *)
  | WCancel (out : request)
  | WAck (out : request)
  | WBye (out : request)
  | WForward (out : request).                                              (* any other request, on a client transaction *)

(** The tables other handlers share with the calls: the bindings, carriers and
    shield of [Admission], the subscriptions, the missing ACKs. *)
Record edgeTables := mkET { et_adm : Admission.Server; et_subs : subTable; et_miss : ackMissTracker }.

(** [is_earlyCalls]: how many early calls each public source has. *)
Record inviteState := mkIS {
  is_anchor : @anchorState SP R Ctx;
  is_edge : edgeTables;
  is_earlyCalls : gmap Addr Z;
  is_cool : cooldownTable;
  is_limiter : rateLimiter;
  is_ctx : ctxErr;
  is_wire : list wire
}.

Definition with_subs (f : subTable -> subTable) (e : edgeTables) : edgeTables := mkET (et_adm e) (f (et_subs e)) (et_miss e).

Definition set_anchor a s := mkIS a (is_edge s) (is_earlyCalls s) (is_cool s) (is_limiter s) (is_ctx s) (is_wire s).
Definition set_edge e s := mkIS (is_anchor s) e (is_earlyCalls s) (is_cool s) (is_limiter s) (is_ctx s) (is_wire s).
Definition set_early e s := mkIS (is_anchor s) (is_edge s) e (is_cool s) (is_limiter s) (is_ctx s) (is_wire s).
Definition set_cool c s := mkIS (is_anchor s) (is_edge s) (is_earlyCalls s) c (is_limiter s) (is_ctx s) (is_wire s).
Definition set_limiter l s := mkIS (is_anchor s) (is_edge s) (is_earlyCalls s) (is_cool s) l (is_ctx s) (is_wire s).
Definition set_ctx c s := mkIS (is_anchor s) (is_edge s) (is_earlyCalls s) (is_cool s) (is_limiter s) c (is_wire s).
Definition set_wire w s := mkIS (is_anchor s) (is_edge s) (is_earlyCalls s) (is_cool s) (is_limiter s) (is_ctx s) w.

Definition flow (A : Type) : Type := inviteState -> A * inviteState.
#[export] Instance flow_ret : MRet flow := fun A a s => (a, s).
#[export] Instance flow_bind : MBind flow := fun A B k m s => let '(a, s) := m s in k a s.

Definition change (f : inviteState -> inviteState) : flow unit := fun s => (tt, f s).
Definition asks {A} (f : inviteState -> A) : flow A := fun s => (f s, s).

(** A handler of [MediaAnchor], and an operation of the dialog table. *)
Definition anchoring {A} (m : @anchor SP R Ctx A) : flow (A + anchorError) := fun s =>
  let '(r, a) := m (is_anchor s) in (r, set_anchor a s).
Definition table {A} (f : dialogTable -> A * dialogTable) : flow A := fun s =>
  let '(a, t) := f (as_tab (is_anchor s)) in
  (a, set_anchor (tabling_ (fun _ => t) (is_anchor s)).2 s).
Definition table_ (f : dialogTable -> dialogTable) : flow unit := table (fun t => (tt, f t)).
Definition reads {A} (f : dialogTable -> A) : flow A := asks (fun s => f (as_tab (is_anchor s))).

Definition emit (w : wire) : flow unit := change (fun s => set_wire (is_wire s ++ [w]) s).
Definition newBranch : flow gostring := fun s =>
  let '(b, r) := NewBranch (as_rnd (is_anchor s)) in (b, set_anchor (with_rnd r (is_anchor s)) s).

Definition reject_ (code : Z) : flow unit := emit (WReply code None None).
Definition rejectInvite (code : Z) (why : inviteReject) : flow unit := emit (WReply code None (Some why)).
Definition rejectBusy (retryAfter : Z) (why : inviteReject) : flow unit := emit (WReply 503 (Some retryAfter) (Some why)).

(** The cancel function of the series; only the first reason stays. *)
Definition cancel_ctx (why : ctxErr) : flow unit :=
  change (fun s => if bool_decide (is_ctx s = ctxLive) then set_ctx why s else s).
Definition ctx_over : flow bool := asks (fun s => negb (bool_decide (is_ctx s = ctxLive))).

(** ** Opening the call *)

Definition beginDialog (now : Z) (cfg : callConfig) (req : request) (callerPlane : plane) (carrierCall : bool) : flow (option nat) :=
  if carrierCall && cc_draining cfg then _ ← rejectBusy drainRetryAfter rejectDraining; mret None
  else
    let limit := sessionLimit cfg in
    res ← table (begin_ now (rq_headers req) callerPlane limit);
    match res with
    | beginClosed => _ ← rejectInvite 503 rejectShuttingDown; mret None
    | beginMerged => _ ← rejectInvite 482 rejectLoopDetected; mret None
    | beginFull => _ ← rejectBusy sessionCapRetryAfter rejectSessionCap; mret None
    | beginOK d =>
        match (if bool_decide (cc_inviteRate cfg = []) then None else ParseRateLimit (cc_inviteRate cfg)) with
        | None => mret (Some d)
        | Some rl =>
            ok ← (fun s => let '(ok, l) := allow now AddrZero (Rate rl) (Interval rl) false (is_limiter s) in (ok, set_limiter l s));
            if (ok : bool) then mret (Some d)
            else
              _ ← table (end_ d endShutdown);
              _ ← rejectBusy (inviteRetryAfter rl) rejectInviteRate;
              mret None
        end
    end.

Definition admitEarly (src : Addr) : flow bool := fun s =>
  let n := default 0 (is_earlyCalls s !! src) in
  if maxEarlyPerSource <=? n then (false, s) else (true, set_early (<[src := n + 1]> (is_earlyCalls s)) s).

Definition releaseEarly (src : Addr) : flow unit := change (fun s =>
  let n := default 0 (is_earlyCalls s !! src) - 1 in
  set_early (if n <=? 0 then delete src (is_earlyCalls s) else <[src := n]> (is_earlyCalls s)) s).

(** The status a failed media setup gets. *)
Definition rejectMedia_code (e : anchorError) : Z :=
  match e with errShuttingDown | errPortsExhausted => 503 | _ => 488 end.
Definition rejectMedia_why (e : anchorError) : inviteReject :=
  match e with errShuttingDown => rejectShuttingDown | errPortsExhausted => rejectPortExhausted | _ => rejectMediaFailed end.
Definition rejectInviteMedia (e : anchorError) : flow unit := rejectInvite (rejectMedia_code e) (rejectMedia_why e).

(** ** Cancelling *)

Definition attempt_req (a : nat) (t : dialogTable) : request :=
  match t_attempts t !! a with Some k => a_req k | None => NewRequest [] no_uri end.

Definition sendCancel (a : nat) : flow unit :=
  out ← reads (attempt_req a);
  _ ← emit (WCancel (BuildCancel out));
  cancel_ctx ctxCanceled.

Definition cancelCall (d : nat) (why : cancelReason) : flow bool :=
  '(a, sendNow) ← table (cancelSeries d why);
  match a with
  | None => mret false
  | Some a => if (sendNow : bool) then _ ← sendCancel a; mret true else _ ← cancel_ctx ctxCanceled; mret true
  end.

(** What can happen beside the series. *)
Inductive env :=
  | ECancel                        (* the caller's CANCEL: the hook of bridgeCancel *)
  | EOrphan                        (* a CANCEL sipgo did not match (onCancel) *)
  | EGiveUp                        (* an UPDATE whose answer cannot be anchored *)
  | EDeadline                      (* the budget of the INVITE *)
  | ESubs (o : sub_op)             (* an operation of the subscription table *)
  | EAdmission (a : Admission.Server)   (* whatever other handlers do to the bindings, the carriers and the shield *)
  | EOther (e : event).            (* anything else the edge does *)

Definition is_hooked (d : nat) (t : dialogTable) : bool := get false d_hookLive d t.

Definition env_step (d : nat) (e : env) : flow unit :=
  match e with
  | ECancel =>
      live ← reads (is_hooked d);
      if (live : bool) then ok ← cancelCall d cancelByCaller; if (ok : bool) then mret tt else cancel_ctx ctxCanceled
      else cancel_ctx ctxCanceled
  | EOrphan =>
      early ← reads (get false Dialog.is_early d);
      if (early : bool) then _ ← cancelCall d cancelOrphan; mret tt else mret tt
  | EGiveUp => _ ← cancelCall d cancelBackstop; mret tt
  | EDeadline => cancel_ctx ctxDeadline
  | ESubs o => change (fun s => set_edge (with_subs (sub_step o) (is_edge s)) s)
  | EAdmission a => change (fun s => set_edge (mkET a (et_subs (is_edge s)) (et_miss (is_edge s))) s)
  | EOther e => _ ← anchoring (handle Unmarshal rand_read newContext KeyLen SaltLen unprotectRTP unprotectRTCP protectRTP protectRTCP
                                 write_udp write_leg listen_ok Value sv e); mret tt
  end.

Fixpoint env_steps (d : nat) (es : list env) : flow unit :=
  match es with [] => mret tt | e :: es => _ ← env_step d e; env_steps d es end.

(** ** The responses of a forwarded INVITE *)

(** FreeSBC's own ACK or BYE for a dialog it tears down. *)
Definition teardown (method : gostring) (res : response) (from : side) (seq : Z) : flow request :=
  branch ← newBranch;
  mret (TeardownRequest method res (HVia (side_via from branch)) seq (Some (isSelf topo)) (Some (sd_laddr from))).

Definition ack2xx (res : response) (from : side) : flow bool :=
  ack ← teardown (str "ACK") res from (CSeqNumber (rs_headers res));
  if write_ok ack then _ ← emit (WAck ack); mret true else mret false.

Definition ackThenBye (res : response) (from : side) : flow unit :=
  ok ← ack2xx res from;
  if (ok : bool) then bye ← teardown (str "BYE") res from (wrap_uint 32 (CSeqNumber (rs_headers res) + 1)); emit (WBye bye)
  else mret tt.

Definition refuse2xx (d : nat) (far : side) (res : response) : flow unit :=
  first ← table (reject d (ToTag (rs_headers res)));
  if (first : bool) then ackThenBye res far else _ ← ack2xx res far; mret tt.

(** A 2xx after the first one. *)
Definition onLate2xx (d : nat) (src : gostring) (far : side) (res : response) : flow unit :=
  let tag := ToTag (rs_headers res) in
  live ← reads (is_hooked d);
  stored ← reads (relayed2xx d tag);
  early ← reads (fun t => get false Dialog.is_early d t && negb (isRejected tag d t));
  if (live : bool) then
    match stored with
    | Some ok => emit (WAgain (mkResponse (rs_status ok) (SetDestination src (rs_msg ok))))
    | None => if (early : bool) then mret tt else refuse2xx d far res
    end
  else refuse2xx d far res.

Definition legRoute (l : inviteLeg) (res : response) : dialogRoute :=
  let callerRemote := m_source (rq_msg (il_req l)) in
  let callerContact := default no_uri (ContactURI (rq_headers (il_req l))) in
  let calleeContact := default no_uri (ContactURI (rs_headers res)) in
  if il_fromPrivate l
  then mkRoute (il_calleeRemote l) callerRemote (il_transport l) calleeContact callerContact
  else mkRoute callerRemote (il_calleeRemote l) (il_transport l) callerContact calleeContact.

Definition commit_call (now : Z) (l : inviteLeg) (final : response) : flow bool :=
  table (confirm now (il_d l) (ToTag (rs_headers final)) (legRoute l final)).

Definition stripBody (m : message) : message :=
  let m := SetBody [] m in set_headers (default (m_headers m) (RemoveHeader (str "Content-Type") (m_headers m))) m.

Definition on_msg (f : message -> message) (res : response) : response := mkResponse (rs_status res) (f (rs_msg res)).
Definition on_headers (f : list header -> list header) : response -> response := on_msg (fun m => set_headers (f (m_headers m)) m).

(** What [relayInviteResponse] records of an early response before anything
    else, and the headers the caller is given. *)
Definition note_fork (now : Z) (l : inviteLeg) (res : response) : flow unit :=
  let tag := ToTag (rs_headers res) in
  let early := negb (beq tag []) && (rs_status res <? 300) in
  _ ← (if early then table_ (setForkRoute now (il_d l) tag (legRoute l res)) else mret tt);
  match is_upstream (il_callee l), To (rs_headers res) with
  | true, Some to =>
      _ ← (if early then table_ (setForkTo now (il_d l) tag (na_uri to)) else mret tt);
      if is_2xx res then table_ (setCalleeURI (il_d l) (na_uri to)) else mret tt
  | _, _ => mret tt
  end.

Definition caller_headers (l : inviteLeg) (res out : response) : response :=
  let out := on_headers (SetContact (side_uri (il_near l))) out in
  if il_fromPrivate l && (rs_status res <? 300) then on_headers (addPrivateRecordRoute topo) out else out.

(** The body the caller gets; the far end's own never passes. *)
Definition caller_body (now : Z) (l : inviteLeg) (res out : response) : flow (response + anchorError) :=
  if beq (body_of res) [] && negb (is_2xx res) then mret (inl out)
  else
    r ← anchoring (MediaAnchor.forkAnswer Unmarshal rand_read newContext listen_ok Value sv now l res);
    mret (match r with
          | inr e => inr e
          | inl (Some body) => inl (on_msg (SetSDPBody body) out)
          | inl None => inl (if beq (body_of out) [] then out else on_msg stripBody out)
          end).

Inductive relayed := relayedOK | relayDropped | relayFailed.

(** One response of the script: what happens before the call is looked at,
    between its answer and [commit], and after a failure. *)
Record heard := mkHeard { h_res : response; h_before : list env; h_between : list env; h_after : list env }.

(** The adapt function: the response as the caller gets it, or the failure. *)
Definition adapt (now : Z) (l : inviteLeg) (h : heard) (out : response) : flow (option response) :=
  let res := h_res h in let d := il_d l in
  _ ← note_fork now l res;
  r ← caller_body now l res (caller_headers l res out);
  match r with
  | inr _ => mret None
  | inl out =>
      if negb (is_2xx res) then mret (Some out)
      else
        _ ← env_steps d (h_between h);
        ok ← commit_call now l res;
        if negb ok then mret None
        else
          _ ← table_ (armOwedTimer d);
          _ ← table_ (armAckTimer d (CSeqNumber (rq_headers (il_req l))));
          _ ← table_ (setRelayed2xx d (Some out));
          mret (Some out)
  end.

Definition relayInviteResponse (now : Z) (l : inviteLeg) (h : heard) : flow relayed :=
  let res := h_res h in
  match relayResponseHide Value NetworkToLower ToLower topo (il_req l) res (il_resp l) with
  | None => mret relayDropped
  | Some out =>
      r ← adapt now l h out;
      match r with
      | Some out => _ ← emit (WRelay out); mret relayedOK
      | None => _ ← (if is_2xx res then refuse2xx (il_d l) (il_far l) res else mret tt); mret relayFailed
      end
  end.

(** ** The pump *)

Inductive stimulus :=
  | SEnv (e : env)
  | SResponse (ahead : list heard) (h : heard)    (* [ahead]: the provisionals of prov.before *)
  | STxDone
  | SCtxDone.

(** What the far end says after the first 2xx goes to the hook of [watch2xx]. *)
Fixpoint late (l : inviteLeg) (script : list stimulus) : flow unit :=
  match script with
  | [] => mret tt
  | SResponse _ h :: rest =>
      _ ← (if is_2xx (h_res h) then onLate2xx (il_d l) (m_source (rq_msg (il_req l))) (il_far l) (h_res h) else mret tt);
      late l rest
  | SEnv (EOther e) :: rest => _ ← env_step (il_d l) (EOther e); late l rest
  | _ :: rest => late l rest
  end.

(** [awaitCancelledFinal]: a 2xx is completed and torn down; the first final
    ends the wait, the end of the script is the end of the transaction. *)
Fixpoint drain (l : inviteLeg) (script : list stimulus) : flow unit :=
  match script with
  | [] | STxDone :: _ => mret tt
  | SCtxDone :: rest => drain l rest
  | SEnv e :: rest => _ ← env_step (il_d l) e; drain l rest
  | SResponse _ h :: rest =>
      let res := h_res h in
      if negb (Forwardable res) then drain l rest
      else if is_2xx res then _ ← refuse2xx (il_d l) (il_far l) res; late l rest
      else if 200 <=? rs_status res then mret tt
      else drain l rest
  end.

Definition abandonAttempt (l : inviteLeg) (script : list stimulus) : flow unit :=
  '(a, sendNow) ← table (cancelSeries (il_d l) cancelBackstop);
  _ ← (match a with Some a => if (sendNow : bool) then sendCancel a else mret tt | None => mret tt end);
  drain l script.

Record pumpResult := mkPump { pr_final : option response; pr_responded : bool; pr_finalised : bool }.

(** The transaction's end without a final of its own. *)
Definition pump_over (l : inviteLeg) (responded : bool) : flow pumpResult :=
  gone ← reads (callerCancelled (il_d l)); mret (mkPump None responded gone).

(** One response; [None] is a pump that goes on. *)
Definition pump_step (now : Z) (l : inviteLeg) (h : heard) (rest : list stimulus) : flow (option pumpResult) :=
  let d := il_d l in let res := h_res h in
  _ ← env_steps d (h_before h);
  over ← ctx_over;
  cancelled ← reads (wasCancelled d);
  if (over || cancelled)%bool then
    _ ← (if is_2xx res then refuse2xx d (il_far l) res else abandonAttempt l rest);
    r ← pump_over l true; mret (Some r)
  else
    r ← relayInviteResponse now l h;
    match r with
    | relayDropped => mret None
    | relayedOK => mret (if 200 <=? rs_status res then Some (mkPump (Some res) true true) else None)
    | relayFailed =>
        _ ← env_steps d (h_after h);
        cancelled ← reads (wasCancelled d);
        if (cancelled : bool) then r ← pump_over l true; mret (Some r)
        else
          _ ← rejectInvite 488 rejectMediaFailed;
          _ ← (if is_2xx res then mret tt else abandonAttempt l rest);
          mret (Some (mkPump None true true))
    end.

Fixpoint pump_pieces (now : Z) (l : inviteLeg) (hs : list heard) (rest : list stimulus) : flow (option pumpResult) :=
  match hs with
  | [] => mret None
  | h :: hs => r ← pump_step now l h rest; match r with Some r => mret (Some r) | None => pump_pieces now l hs rest end
  end.

Definition provisional (h : heard) : bool := Forwardable (h_res h) && (rs_status (h_res h) <? 200).

Definition pieces (ahead : list heard) (h : heard) : list heard :=
  (if 200 <=? rs_status (h_res h) then List.filter provisional ahead else []) ++ [h].

(** When the script is over the budget is: [ctx.Done()]. *)
Fixpoint pump (now : Z) (l : inviteLeg) (responded : bool) (script : list stimulus) : flow (pumpResult * list stimulus) :=
  match script with
  | [] =>
      _ ← env_step (il_d l) EDeadline; _ ← abandonAttempt l [];
      r ← pump_over l responded; mret (r, [])
  | SEnv e :: rest => _ ← env_step (il_d l) e; pump now l responded rest
  | STxDone :: rest => r ← pump_over l responded; mret (r, rest)
  | SCtxDone :: rest =>
      over ← ctx_over;
      if (over : bool) then _ ← abandonAttempt l rest; r ← pump_over l responded; mret (r, [])
      else pump now l responded rest
  | SResponse ahead h :: rest =>
      if negb (Forwardable (h_res h)) then pump now l responded rest
      else
        r ← pump_pieces now l (pieces ahead h) rest;
        match r with Some r => mret (r, rest) | None => pump now l true rest end
  end.

Definition pumpInvite (now : Z) (l : inviteLeg) (script : list stimulus) : flow (pumpResult * list stimulus) := pump now l false script.

(** ** The handlers *)

(** The one final a caller is owed when none was relayed. *)
Definition giveUp (d : nat) (code : Z) : flow unit :=
  gone ← reads (callerCancelled d);
  ctx ← asks is_ctx;
  cancelled ← reads (wasCancelled d);
  if (gone : bool) then mret tt
  else match ctx, (cancelled : bool) with
       | ctxDeadline, _ => rejectInvite 408 rejectTimeout
       | ctxCanceled, _ | ctxLive, true => reject_ 487
       | ctxLive, false => rejectInvite code rejectUpstreamFailed
       end.

Definition hashUserFor (req : request) : gostring :=
  match From (rq_headers req), To (rq_headers req) with
  | Some f, to =>
      if negb (beq (u_user (na_uri f)) []) then u_user (na_uri f)
      else match to with
           | Some a => if negb (beq (u_user (na_uri a)) []) then u_user (na_uri a) else CallID (rq_headers req)
           | None => CallID (rq_headers req)
           end
  | None, Some a => if negb (beq (u_user (na_uri a)) []) then u_user (na_uri a) else CallID (rq_headers req)
  | None, None => CallID (rq_headers req)
  end.

Definition with_recipient (u : Uri) (r : request) : request := mkRequest (rq_method r) u (rq_version r) (rq_laddr r) (rq_msg r).
Definition on_request (f : message -> message) (r : request) : request :=
  mkRequest (rq_method r) (rq_recipient r) (rq_version r) (rq_laddr r) (f (rq_msg r)).

(** The body and the Contact of a forwarded INVITE are the proxy's. *)
Definition dress (contact : Uri) (offer : option offerResult) (out : request) : request :=
  let out := on_request (fun m => set_headers (SetContact contact (m_headers m)) m) out in
  match offer with
  | Some o => on_request (SetSDPBody (o_sdp o)) out
  | None => on_request stripBody out
  end.

(** How a client transaction ended: [clTx.Err()]. *)
Inductive txEnd := txFine | txTimeout | txTransport.

(** One attempt of the script: what happens before it, between [track] and the
    transaction and between that and [markSent], whether the INVITE gets out,
    what is heard, how the transaction ends. *)
Record dial := mkDial {
  dl_before : list env; dl_sending : list env; dl_opens : bool; dl_sent : list env; dl_script : list stimulus; dl_end : txEnd
}.

(** The INVITE is on the wire, and its responses are pumped. *)
Definition place (now : Z) (node : gostring) (l : inviteLeg) (a : nat) (dl : dial) : flow pumpResult :=
  _ ← emit (WInvite node (il_out l));
  _ ← env_steps (il_d l) (dl_sent dl);
  cancelNow ← table (markSent a);
  _ ← (if (cancelNow : bool) then sendCancel a else mret tt);
  '(r, rest) ← pumpInvite now l (dl_script dl);
  _ ← (match pr_final r with Some res => if is_2xx res then late l rest else mret tt | None => mret tt end);
  mret r.

Section Placed.
Context (now : Z) (cfg : callConfig) (req : request).

(** The nodes of the caller's hash order, one after another.  [mk] is the leg
    of an attempt, [forward] the INVITE for a node. *)
Fixpoint try_nodes (d : nat) (forward : gostring -> gostring -> option request) (mk : gostring -> request -> inviteLeg) (cooldown : Z)
    (order : list gostring) (dials : list dial) : flow unit :=
  match order with
  | [] => giveUp d 503
  | name :: order =>
      let '(dl, dials) := match dials with
                          | dl :: dials => (dl, dials)
                          | [] => (mkDial [] [] false [] [] txTransport, [])
                          end in
      _ ← env_steps d (dl_before dl);
      over ← ctx_over;
      if (over : bool) then giveUp d 503
      else
        branch ← newBranch;
        match forward name branch with
        | None => rejectInvite 483 rejectTooManyHops
        | Some out =>
            tracked ← table (track d out);
            match tracked with
            | None => giveUp d 503
            | Some a =>
                _ ← env_steps d (dl_sending dl);
                if negb (dl_opens dl) then
                  over ← ctx_over;
                  if (over : bool) then giveUp d 503
                  else
                    _ ← change (fun s => set_cool (Penalize now name cooldown (is_cool s)) s);
                    try_nodes d forward mk cooldown order dials
                else
                  r ← place now name (mk name out) a dl;
                  match pr_final r with
                  | Some _ => change (fun s => set_cool (Recover name (is_cool s)) s)
                  | None =>
                      if pr_finalised r then mret tt
                      else if pr_responded r || match dl_end dl with txFine => true | _ => false end then giveUp d 503
                      else
                        over ← ctx_over;
                        if (over : bool) then giveUp d 503
                        else
                          _ ← change (fun s => set_cool (Penalize now name cooldown (is_cool s)) s);
                          try_nodes d forward mk cooldown order dials
                  end
            end
        end
  end.

(** The call of [inviteToClient] and [inviteToCarrier]: one attempt; [code] is
    the status when nothing else is known. *)
Definition single_attempt (d : nat) (dest : gostring) (mk : request -> inviteLeg) (out : request) (code : Z) (dl : dial) : flow unit :=
  tracked ← table (track d out);
  match tracked with
  | None => mret tt
  | Some a =>
      _ ← env_steps d (dl_sending dl);
      _ ← (if negb (dl_opens dl) then giveUp d code
           else
             r ← place now dest (mk out) a dl;
             if pr_finalised r then mret tt
             else giveUp d (match dl_end dl with txTimeout => 408 | _ => code end));
      table_ (untrack d)
  end.

(** The INVITE's own offer; [None] when it was refused. *)
Definition offer_of (d : nat) (b : offerBuilder) : flow (option (option offerResult)) :=
  let body := m_body (rq_msg req) in
  if beq body [] then mret (Some None)
  else
    r ← anchoring (build_offerless Unmarshal rand_read listen_ok sv d b body);
    match r with inl o => mret (Some (Some o)) | inr e => _ ← rejectInviteMedia e; mret None end.

(** The record is the call's from here to teardown: [endUnlessUp] is the single
    exit. *)
Definition in_call (callerPlane : plane) (carrierCall : bool) (body : nat -> flow unit) : flow unit :=
  _ ← change (set_ctx ctxLive);
  o ← beginDialog now cfg req callerPlane carrierCall;
  match o with None => mret tt | Some d => _ ← body d; table_ (endUnlessUp d) end.

(** *** A public client's or a carrier's call to the switch.  [beat]: its CANCEL
    came before [bridgeCancel]. *)

Definition upstream_dest (carrier name : gostring) : gostring :=
  match upstreams topo !! name with
  | Some e => if beq carrier [] then ep_host e else addrport_string (Topology.carrierAddr e)
  | None => []
  end.

Definition upstream_forward (from : side) (carrier : gostring) (pinned : option carrierBinding) (offer : option offerResult)
    (name branch : gostring) : option request :=
  out ← prepareForward Value topo req from (private topo) (upstream_dest carrier name) true branch;
  let out := if beq carrier [] then out
             else on_request (fun m => set_headers (AppendHeader (HOther carrierHeader carrier) (m_headers m)) m) out in
  let out := match pinned with Some p => with_recipient (cb_contact p) out | None => out end in
  Some (dress (side_uri (private topo)) offer out).

Definition inviteToUpstream (src : AddrPort) (carrier : gostring) (regs : carrierRegTable) (cooldown : Z)
    (before : list env) (beat : bool) (dials : list dial) : flow unit :=
  match publicSideFor NetworkToLower topo req with
  | None => rejectInvite 488 rejectNoPublicSide
  | Some from =>
      let client := beq carrier [] in
      ok ← (if client then admitEarly (ap_addr src) else mret true);
      if negb ok then rejectInvite 503 rejectEarlyCap
      else
        _ ← in_call planePublic (negb client) (fun d =>
          _ ← (if client then mret tt else table_ (setCarrier d carrier));
          _ ← table_ (setSRTP d (legSRTPPolicy (cc_srtp cfg) carrier (sd_transport from)));
          o ← offer_of d (upstreamBuilder (ap_addr src));
          match o with
          | None => mret tt
          | Some offer =>
              _ ← env_steps d before;
              if beat then mret tt
              else
                let pinned := if client then None else carrierRURI now topo regs req in
                let resp := if client then respToClient else respToCarrier in
                cool ← asks is_cool;
                let order := match pinned with
                             | Some p => [cb_node p]
                             | None => upstreamDialOrder topo (if client then hashUserFor req else carrierHashUser req)
                                         (fun n => Available now n cool)
                             end in
                let offerless := match offer with
                                 | None => Some (publicBuilder (isBrowserTransport (sd_transport from)) (ap_addr src))
                                 | Some _ => None
                                 end in
                _ ← try_nodes d (upstream_forward from carrier pinned offer)
                      (fun name out => mkInviteLeg req out d offer offerless from (private topo) calleeUpstream (upstream_dest carrier name)
                                    (sd_transport from) false resp)
                      cooldown order dials;
                table_ (untrack d)
          end);
        if client then releaseEarly (ap_addr src) else mret tt
  end.

(** *** The switch's call to a client, and to a carrier *)

(** The tail the two share; [builder] is for an offerless INVITE. *)
Definition from_switch (carrierCall : bool) (carrier : gostring) (to : side) (dest transport : gostring) (browser : bool)
    (srtp : srtpPolicy) (forward : gostring -> option request) (contact : Uri) (src : Addr) (callee : calleeKind) (code : Z)
    (before : list env) (beat : bool) (dl : dial) : flow unit :=
  in_call planePrivate carrierCall (fun d =>
    _ ← (if beq carrier [] then mret tt else table_ (setCarrier d carrier));
    _ ← table_ (setSRTP d srtp);
    o ← offer_of d (publicBuilder browser AddrZero);
    match o with
    | None => mret tt
    | Some offer =>
        branch ← newBranch;
        match forward branch with
        | None => rejectInvite 483 rejectTooManyHops
        | Some out =>
            let out := dress contact offer out in
            let offerless := match offer with None => Some (upstreamBuilder src) | Some _ => None end in
            _ ← env_steps d before;
            if beat then mret tt
            else single_attempt d dest
                   (fun out => mkInviteLeg req out d offer offerless (private topo) to callee dest transport true respToSwitch)
                   out code dl
        end
    end).

Definition inviteToClient (loc : Location.Location) (before : list env) (beat : bool) (dl : dial) : flow unit :=
  match bindingForRequest now topo loc req with
  | None => rejectInvite 404 rejectNoTarget
  | Some b =>
      match publicSide topo (Location.Transport b) with
      | None => rejectInvite 480 rejectNoPublicSide
      | Some to =>
          let browser := isBrowserTransport (Location.Transport b) in
          let dest := addrport_string (Location.Source b) in
          if browser && negb (sv_webrtcEnabled sv) then rejectInvite 488 rejectWebRTCDisabled
          else from_switch false [] to dest (Location.Transport b) browser (legSRTPPolicy (cc_srtp cfg) [] (Location.Transport b))
                 (fun branch => with_recipient (clientRequestURI b) <$>
                    prepareForwardFor Value ToLower topo req (private topo) to dest true hideClient branch)
                 (side_uri to) (ap_addr (Location.Source b)) calleeClient 480 before beat dl
      end
  end.

Definition inviteToCarrier (snap : carrierSnapshot) (byName : gmap gostring Carrier) (carrier : gostring)
    (before : list env) (beat : bool) (dl : dial) : flow unit :=
  match carrierDest snap carrier with
  | None => rejectInvite 503 rejectNoTarget
  | Some dest =>
      match carrierSide topo byName carrier with
      | None => rejectInvite 503 rejectNoPublicSide
      | Some to =>
          let u := side_uri to in
          let contact := match From (rq_headers req) with
                         | Some f => mkUri (u_user (na_uri f)) (u_host u) (u_port u) (u_params u) (u_wildcard u)
                         | None => u
                         end in
          from_switch true carrier to dest (sd_transport to) false (legSRTPPolicy (cc_srtp cfg) carrier [])
            (fun branch => prepareForwardHidden Value ToLower topo req (private topo) to dest true branch)
            contact (match ParseAddrPort dest with Some a => ap_addr a | None => AddrZero end) calleeCarrier 503 before beat dl
      end
  end.
End Placed.
End Invite.
