(* ===== verification/InviteLogic.v ===== *)
(** Reasoning about a call being placed.

    What a handler does to the dialog table is a run of the table's operations
    ([grows]); an assertion on a record that every operation keeps survives any
    handler and any event of the edge ([handle_grows]).  [follows] is the logic
    of the INVITE handlers, and [Hush] the assertions that what it sends
    beside the INVITEs and the caller's responses leaves alone. *)

From S2P Require Import Prelude GoTime GoText Netip PortPool Latch MediaSession SdpCodec SdpCrypto SdpParse Topology EdgeSdes SipMsg SipRequest.
From S2P Require Import WebRtcLeg WebRtcSession Dialog DialogInv DialogSafety MediaAnchor AnchorSafety AnchorRun AnchorBody.
From S2P Require Import SipAddr Config RateLimit Location Carriers Cooldown Forward Hide CarrierRoute InviteFlow.

Open Scope Z_scope.

(** ** Runs of the table's operations *)

Section Grows.
Context `{SP : SipParams}.

Definition anyOp (o : op) : bool := true.
Definition noBridge (o : op) : bool := negb (bridge o).
(** Any operation but those by which record [d] gets an attempt, or is
    cancelled by the proxy itself. *)
Definition not_for (d : nat) (o : op) : bool := match o with OTrack e _ | OCancel e cancelBackstop => negb (Nat.eqb e d) | _ => true end.

Definition grows (f : op -> bool) (t t' : dialogTable) : Prop := exists os, forallb f os = true /\ t' = run os t.

Lemma grown_same f t : grows f t t.
Proof. by exists []. Qed.
Lemma grows_step f o t t' : f o = true -> grows f t t' -> grows f t (step o t').
Proof. intros F (os & A & ->). exists (os ++ [o]). rewrite forallb_app, run_app. cbn. by rewrite A, F. Qed.
Lemma grows_on f t1 t2 t3 : grows f t1 t2 -> grows f t2 t3 -> grows f t1 t3.
Proof. intros (os & A & ->) (os' & B & ->). exists (os ++ os'). by rewrite forallb_app, run_app, A, B. Qed.
Lemma grows_weaken (f g : op -> bool) t t' : (forall o, f o = true -> g o = true) -> grows f t t' -> grows g t t'.
Proof. intros I (os & A & ->). exists os. split; [|done]. rewrite forallb_forall in *. auto. Qed.
Lemma grows_any f t t' : grows f t t' -> grows anyOp t t'.
Proof. by apply grows_weaken. Qed.

(** An assertion that these operations keep. *)
Class Lasting (f : op -> bool) (P : dialogTable -> Prop) : Prop := lasting : forall o t, f o = true -> P t -> P (step o t).

Lemma lasts f P `{L : !Lasting f P} t t' : grows f t t' -> P t -> P t'.
Proof.
  intros (os & A & ->). revert t A. induction os as [|o os IH]; intros t A H; [done|]. cbn in *.
  apply andb_true_iff in A as [A B]. apply IH; [done|]. by apply lasting.
Qed.

#[export] Instance grows_lasting f t : Lasting f (grows f t).
Proof. intros o t' F H. by apply grows_step. Qed.

(** *** A record goes on *)

Definition held (d : nat) (P : option nat * bool * bool -> Prop) (t : dialogTable) : Prop :=
  (d < t_nextId t)%nat /\ exists x, t_heap t !! d = Some x /\ P (bond x).

Lemma held_by_same d P t t' : same bond t t' -> held d P t -> held d P t'.
Proof.
  intros S (N & x & E & H). split; [pose proof (q_nextId _ _ _ S); lia|].
  destruct (same_forth _ _ _ _ _ S E) as (y & E' & B). exists y. by rewrite B.
Qed.

Lemma held_insert d P t t' e x y : held d P t -> (t_nextId t <= t_nextId t')%nat -> t_heap t !! e = Some x -> t_heap t' = <[e := y]> (t_heap t) ->
  (P (bond x) -> P (bond y)) -> held d P t'.
Proof.
  intros (N & z & E & H) L X Hh I. split; [lia|]. rewrite Hh. destruct (decide (e = d)) as [->|Ne].
  - exists y. rewrite lookup_insert_eq. split; [done|]. apply I. congruence.
  - exists z. by rewrite lookup_insert_ne.
Qed.

Lemma held_heap d P t t' : t_heap t' = t_heap t -> t_nextId t' = t_nextId t -> held d P t -> held d P t'.
Proof. unfold held. by intros -> ->. Qed.

Lemma end_rest_held d P e t : held d P t -> held d P (end_rest e t).2.
Proof.
  intros H. destruct (end_rest_heap e t) as [E N]. apply (held_heap d P (release_hook (e_dialog e) t)); [done|..].
  - rewrite N. unfold release_hook, upd. by destruct (t_heap t !! e_dialog e).
  - unfold release_hook, upd. destruct (t_heap t !! e_dialog e) as [x|] eqn:X; [|done].
    by apply (held_insert d P t _ (e_dialog e) x (set_hookLive false x)).
Qed.

(** Ending a record lets go of its attempt; nothing else in [bond] changes. *)
Lemma held_life d (P : option nat * bool * bool -> Prop) o t : (forall a c g, P (a, c, g) -> P (None, c, g)) ->
  life o = true -> held d P t -> held d P (step o t).
Proof.
  intros C L H. destruct o; try discriminate; cbn [step].
  - destruct (begin_cases now hs callerPlane limit t) as [(r & -> & _)|(t' & -> & _ & _ & _ & ->)]; [done|].
    destruct H as (N & x & E & H). split; [cbn; lia|]. exists x. split; [|done]. cbn. rewrite lookup_insert_ne; [done|]. lia.
  - by apply (held_heap d P t).
  - unfold attach. destruct (t_heap t !! d0) as [x|] eqn:X; [|by apply (held_heap d P t)].
    destruct (_ || _); [by apply (held_heap d P t)|]. unfold upd. rewrite X. by apply (held_insert d P t _ d0 x (set_media (Some m) x)).
  - unfold end_locked. destruct (t_heap t !! d0) as [x|] eqn:X; [|done]. destruct (is_ended x); [done|]. cbn [snd].
    assert (forall i t0, t_heap (stop i t0) = t_heap t0 /\ t_nextId (stop i t0) = t_nextId t0) as S by (by intros [i|] t0).
    eapply (held_insert d P t _ d0 x); [done|..|exact X|cbn; by rewrite !(proj1 (S _ _))|].
    + cbn. by rewrite !(proj2 (S _ _)).
    + apply C.
  - by apply end_rest_held.
  - unfold confirm. destruct (t_heap t !! d0) as [x|] eqn:X; [|done]. destruct (_ || _); [done|]. cbn [snd].
    eapply (held_insert d P t _ d0 x); [done|done|exact X|reflexivity|]. unfold set_origin. by destruct (d_callerPlane x).
Qed.

(** The caller's CANCEL has been taken. *)
Definition gone (d : nat) : dialogTable -> Prop := held d (fun '(_, _, g) => g = true).

Lemma gone_cancelled d t : gone d t -> callerCancelled d t = true.
Proof. intros (_ & x & E & H). unfold callerCancelled, get. by rewrite E. Qed.
Lemma cancelled_gone d t : callerCancelled d t = true -> (d < t_nextId t)%nat -> gone d t.
Proof. unfold callerCancelled, get. destruct (t_heap t !! d) as [x|] eqn:E; [|done]. intros H N. split; [done|]. by exists x. Qed.

Lemma held_track d P e req t : (forall a c g, P (a, c, g) -> P (Some (t_nextId t), c, g)) -> held d P t -> held d P (track e req t).2.
Proof.
  intros C H. destruct (track_cases e req t) as [->|(x & t' & X & -> & Hh & N & _)]; [done|]. cbn [snd] in *.
  eapply (held_insert d P t _ e x); [done| |exact X|exact Hh|apply C]. lia.
Qed.

Lemma cancel_bond d why t x : t_heap t !! d = Some x -> let t' := (cancelSeries d why t).2 in
  t_nextId t' = t_nextId t /\ exists y, t_heap t' = <[d := y]> (t_heap t) /\
   (bond y = bond x \/ bond y = (None, true, match why with cancelByCaller => true | _ => d_callerGone x end)) /\
   (why = cancelOrphan -> d_inFlight x = None -> bond y = bond x).
Proof.
  intros E. unfold cancelSeries. rewrite E. cbv zeta.
  set (y := match why with cancelByCaller => set_callerGone true (set_cancelled true x) | _ => set_cancelled true x end).
  assert (bond y = (d_inFlight x, true, match why with cancelByCaller => true | _ => d_callerGone x end)) as B by (by destruct why).
  assert (d_inFlight y = d_inFlight x) as F by (by injection B).
  destruct (d_inFlight x) as [a|] eqn:A; [|destruct why]; fold y; rewrite ?F; cbn [snd].
  - destruct (upd_attempt_heap a (fun k => mkAttempt (a_req k) (a_sent k) true) (with_heap (<[d := set_inFlight None y]> (t_heap t)) t)) as [-> ->].
    split; [done|]. exists (set_inFlight None y). split; [done|]. split; [right; unfold bond in *; cbn in *; congruence|done].
  - split; [done|]. exists y. split; [done|]. split; [right; exact B|done].
  - split; [done|]. exists x. split; [by rewrite insert_id|]. split; [by left|done].
  - split; [done|]. exists y. split; [done|]. split; [right; exact B|done].
Qed.

Lemma held_cancel d P e why t : held d P t -> (forall a c g, P (a, c, g) -> P (None, true, match why with cancelByCaller => true | _ => g end)) ->
  held d P (cancelSeries e why t).2.
Proof.
  intros H C. destruct (t_heap t !! e) as [x|] eqn:X; [|unfold cancelSeries; by rewrite X].
  destruct (cancel_bond e why t x X) as (N & y & Hh & B & _). eapply (held_insert d P t _ e x); [done|by rewrite N|exact X|exact Hh|].
  intros Hx. destruct B as [->| ->]; [done|]. by apply (C (d_inFlight x) (d_cancelled x)).
Qed.

Lemma held_lasting d (P : option nat * bool * bool -> Prop) :
  (forall a a' c g, P (a, c, g) -> P (a', c, g)) -> (forall a c g g', P (a, c, g) -> (g = true -> g' = true) -> P (None, true, g')) ->
  Lasting anyOp (held d P).
Proof.
  intros C C' o t _ H. destruct (life o) eqn:L; [apply held_life; [intros a c g; apply C|done..]|].
  destruct (bridge o) eqn:B; [|apply (held_by_same d _ t); [by apply step_bond|done]].
  destruct o; try discriminate; cbn [step].
  - apply held_track; [intros a c g; apply C|done].
  - rewrite markSent_eq. destruct (upd_attempt_heap a (fun k => mkAttempt (a_req k) true (a_cancelled k)) t). by apply (held_heap d _ t).
  - unfold untrack, upd. destruct (t_heap t !! d0) as [x|] eqn:X; [|done].
    apply (held_insert d _ t _ d0 x (set_inFlight None x)); [done..|apply C].
  - apply held_cancel; [done|]. intros a c g H'. apply (C' a c g); [done|by destruct why].
Qed.

#[export] Instance gone_lasting d : Lasting anyOp (gone d).
Proof. apply held_lasting; [done|auto]. Qed.

(** The record exists. *)
Definition known (d : nat) : dialogTable -> Prop := held d (fun _ => True).
#[export] Instance known_lasting d : Lasting anyOp (known d).
Proof. by apply held_lasting. Qed.

(** Before an attempt is on record a call is cancelled by its caller only. *)
Definition unspoken (d : nat) : dialogTable -> Prop := held d (fun '(a, c, g) => a = None /\ (c = true -> g = true)).

Lemma unspoken_cancel d e why t : why <> cancelBackstop -> unspoken d t -> unspoken d (cancelSeries e why t).2.
Proof.
  intros W H. destruct (t_heap t !! e) as [x|] eqn:X; [|unfold cancelSeries; by rewrite X].
  destruct (cancel_bond e why t x X) as (N & y & Hh & B & O). eapply (held_insert d _ t _ e x); [done|by rewrite N|exact X|exact Hh|].
  intros [Fx Cx]. destruct why; [|by rewrite (O eq_refl Fx)|done]. destruct B as [->| ->]; [done|]. by split.
Qed.

Lemma held_elsewhere d P e t t' y : held d P t -> (t_nextId t <= t_nextId t')%nat -> e <> d -> t_heap t' = <[e := y]> (t_heap t) -> held d P t'.
Proof. intros (N & z & E & H) L Ne Hh. split; [lia|]. exists z. by rewrite Hh, lookup_insert_ne. Qed.

#[export] Instance unspoken_lasting d : Lasting (not_for d) (unspoken d).
Proof.
  intros o t F H. destruct (life o) eqn:L; [apply held_life; [by intros a c g []|done..]|].
  destruct (bridge o) eqn:B; [|apply (held_by_same d _ t); [by apply step_bond|done]].
  assert (forall e, negb (Nat.eqb e d) = true -> e <> d) as Ne by (intros e Hn; apply negb_true_iff, Nat.eqb_neq in Hn; done).
  destruct o; try discriminate; cbn [step not_for] in *; try (rename d0 into e).
  - destruct (track_cases e req t) as [->|(x & t' & X & -> & Hh & N & _)]; [done|]. cbn [snd] in *.
    eapply (held_elsewhere d _ e t); [done|lia|by apply Ne|exact Hh].
  - rewrite markSent_eq. destruct (upd_attempt_heap a (fun k => mkAttempt (a_req k) true (a_cancelled k)) t). by apply (held_heap d _ t).
  - unfold untrack, upd. destruct (t_heap t !! e) as [x|] eqn:X; [|done].
    apply (held_insert d _ t _ e x (set_inFlight None x)); [done..|by intros []].
  - destruct why; [by apply unspoken_cancel|by apply unspoken_cancel|]. destruct (t_heap t !! e) as [x|] eqn:X; [|unfold cancelSeries; by rewrite X].
    destruct (cancel_bond e cancelBackstop t x X) as (N & y & Hh & _). eapply (held_elsewhere d _ e t); [done|by rewrite N|by apply Ne|exact Hh].
Qed.

(** *** The operations the handlers are made of *)

Lemma grows_end f d r t : f (OEndLocked d r) = true -> (forall e, f (OEndRest e) = true) -> grows f t (end_ d r t).2.
Proof.
  intros F G. unfold end_. pose proof (grows_step f (OEndLocked d r) t t F (grown_same f t)) as S. cbn [step] in S.
  destruct (end_locked d r t) as [[e|] t'].
  - by apply (grows_step f (OEndRest e)).
  - exact S.
Qed.
Lemma grows_endUnlessUp d t : grows noBridge t (endUnlessUp d t).
Proof. unfold endUnlessUp. destruct (t_heap t !! d) as [x|]; [|apply grown_same]. destruct (is_early x); [by apply grows_end|apply grown_same]. Qed.
Lemma grows_closeAll t : grows noBridge t (closeAll (close t)).
Proof.
  unfold closeAll. generalize (all_records (close t)). intros ds.
  assert (grows noBridge t (close t)) as S by (by apply (grows_step noBridge OClose), grown_same).
  revert S. generalize (close t). induction ds as [|d ds IH]; intros t' S; [done|]. cbn. apply IH. eapply grows_on; [exact S|by apply grows_end].
Qed.
End Grows.

(** ** The handlers of the media and the events of the edge *)

Section Handlers.
Context `{SP : SipParams}.
Context {R Ctx : Type}.
Context (Unmarshal : gostring -> option SessionDescription).
Context (rand_read : Z -> R -> option (list Z) * R).
Context (newContext : SDESSuite -> list Z -> list Z -> option Ctx).
Context (KeyLen SaltLen : SDESSuite -> option Z).
Context (unprotectRTP unprotectRTCP protectRTP protectRTCP : Ctx -> list Z -> option (list Z) * Ctx).
Context (write_udp : list Z -> AddrPort -> option Z) (write_leg : list Z -> option Z).
Context (listen_ok : Addr -> Z -> bool).
Context (Value : header -> gostring).
Context (sv : server).
#[local] Abbreviation st := (@anchorState SP R Ctx).

(** Every operation but the bridging of an INVITE, at least. *)
Class Wide (f : op -> bool) : Prop := wide_in : forall o, noBridge o = true -> f o = true.
#[export] Instance wide_any : Wide anyOp.
Proof. done. Qed.
#[export] Instance wide_noBridge : Wide noBridge.
Proof. by intros o. Qed.
#[export] Instance wide_not_for d : Wide (not_for d).
Proof. by intros []. Qed.

Context (f : op -> bool) `{WF : !Wide f} (t0 : dialogTable).
#[local] Abbreviation G := (of_tab (R:=R) (Ctx:=Ctx) (grows f t0)).

#[export] Instance grown_stable : Stable G.
Proof.
  constructor; intros s; unfold of_tab; [done|done|done|]. intros o L B H. cbn [as_tab with_tab]. apply grows_step; [|done].
  apply wide_in. unfold noBridge. by rewrite B.
Qed.

Lemma grown_tabling {A} (g : dialogTable -> A * dialogTable) : (forall t, grows f t (g t).2) -> keeps G (tabling g).
Proof. intros H. apply tab_tabling. intros t K. eapply grows_on; [exact K|apply H]. Qed.
Lemma grown_op {A} (o : op) (g : dialogTable -> A * dialogTable) : noBridge o = true -> (forall t, (g t).2 = step o t) -> keeps G (tabling g).
Proof. intros N E. apply grown_tabling. intros t. rewrite E. by apply grows_step, grown_same; apply wide_in. Qed.

Lemma grown_new m : keeps G (new_media m).
Proof. by intros s H. Qed.
Lemma grown_attach d i : keeps G (attach_media d i).
Proof. unfold attach_media. apply keeps_bind; [by apply (grown_op (OAttach d i))|intros ok; apply keeps_ensure]. Qed.
Lemma grown_end d r : keeps G (tabling (end_ d r)).
Proof. apply grown_tabling. intros t. apply grows_end; [by apply wide_in|intros e; by apply wide_in]. Qed.
#[local] Hint Resolve tab_random tab_waiters tab_put tab_world grown_new grown_attach grown_end : anchor.

Lemma grown_browser {A} i (g : WebRTCSession -> world -> A * (WebRTCSession * world)) : keeps G (on_browser i g).
Proof. unfold on_browser. keep. Qed.
#[local] Hint Resolve grown_browser : anchor.

Lemma grown_build d b body : keeps G (build_offerless Unmarshal rand_read listen_ok sv d b body).
Proof.
  destruct b; unfold build_offerless, buildPublicOffer, buildUpstreamOffer, MediaAnchor.usable, ensure_open, allocatePublic, allocateOfferedWebRTC,
    allocateWebRTC, allocateRTP, allocate_rtp, allocate_browser, draw_credentials, requireRTCPMux, on_media, sdes_offer; keep.
Qed.
#[local] Hint Resolve grown_build : anchor.

Lemma grown_offerlessFork l b g res : keeps G (offerlessFork Unmarshal rand_read listen_ok Value sv l b g res).
Proof. unfold offerlessFork, answer_followed. keep. Qed.
#[local] Hint Resolve grown_offerlessFork : anchor.

Lemma grown_forkAnswer now l res : keeps G (MediaAnchor.forkAnswer Unmarshal rand_read newContext listen_ok Value sv now l res).
Proof. pose proof (keeps_negotiateFork Unmarshal rand_read newContext sv G) as N. unfold MediaAnchor.forkAnswer, answer_followed. keep. Qed.

Lemma grown_open_call now hs p limit admitted carrier pol offer :
  keeps G (open_call Unmarshal rand_read listen_ok sv now hs p limit admitted carrier pol offer).
Proof.
  pose proof (grown_op (OBegin now hs p limit) (begin_ now hs p limit) eq_refl (fun _ => eq_refl)) as B.
  pose proof (keeps_setCarrier G) as C. pose proof (keeps_setSRTP G) as S. unfold open_call. keep.
Qed.

Lemma grown_on_rtp i (g : @MediaSession.Session Ctx -> world -> MediaSession.Session * world) : keeps G (on_rtp i g).
Proof. unfold on_rtp. keep. Qed.

(** What any event does to the table is a run of operations; that of a bridging
    operation is the operation itself. *)
Lemma handle_grows e : (forall o, e = ETable o -> f o = true) ->
  keeps G (handle Unmarshal rand_read newContext KeyLen SaltLen unprotectRTP unprotectRTCP protectRTP protectRTCP write_udp write_leg
             listen_ok Value sv e).
Proof.
  intros T. destruct e; cbn [handle].
  - apply keeps_bind; [apply grown_open_call|intros; apply keeps_ret].
  - apply keeps_bind; [apply grown_forkAnswer|intros; apply keeps_ret].
  - apply keeps_bind; [apply keeps_rebuildOffer; (assumption || apply _)|intros; apply keeps_ret].
  - apply keeps_bind; [apply keeps_rebuildAnswer; (assumption || apply _)|intros; apply keeps_ret].
  - apply keeps_applyReInvite; (assumption || apply _).
  - apply keeps_bind; [apply keeps_prepareOwed; (assumption || apply _)|intros; apply keeps_ret].
  - apply keeps_applyOwed; (assumption || apply _).
  - destruct (life o); [apply keeps_ret|]. apply grown_tabling. intros t. apply grows_step; [by apply T|apply grown_same].
  - apply keeps_bind; [by apply (grown_op (OConfirm now d calleeTag r))|intros; apply keeps_ret].
  - apply keeps_bind; [apply grown_end|intros; apply keeps_ret].
  - apply grown_tabling. intros t. apply (grows_weaken noBridge); [apply wide_in|apply grows_closeAll].
  - apply keeps_waiter_begin; (assumption || apply _).
  - apply keeps_waiter_wake; (assumption || apply _).
  - apply grown_on_rtp.
  - apply grown_on_rtp.
  - apply keeps_bind; [apply grown_browser|intros; apply keeps_ret].
Qed.
End Handlers.

(** ** The logic of the INVITE handlers *)

(** The final response of the caller's transaction; a 2xx sent again is not
    another one. *)
Definition final_of `{SP : SipParams} (w : wire) : bool :=
  match w with WReply code _ _ => 200 <=? code | WRelay res => 200 <=? rs_status res | _ => false end.
(** What goes to the caller as a response of its own, what is not an INVITE,
    what is sent beside both and the forwarded requests, that without the 2xx
    sent again, and the CANCELs alone. *)
Definition to_caller `{SP : SipParams} (w : wire) : bool := match w with WReply _ _ _ | WRelay _ => true | _ => false end.
Definition uninviting `{SP : SipParams} (w : wire) : bool := match w with WInvite _ _ => false | _ => true end.
Definition aside `{SP : SipParams} (w : wire) : bool := match w with WAgain _ | WCancel _ | WAck _ | WBye _ => true | _ => false end.
Definition tearing `{SP : SipParams} (w : wire) : bool := match w with WCancel _ | WAck _ | WBye _ => true | _ => false end.
Definition cancelling `{SP : SipParams} (w : wire) : bool := match w with WCancel _ => true | _ => false end.
Definition finals `{SP : SipParams} (ws : list wire) : nat := length (List.filter final_of ws).

Section Logic.
Context `{SP : SipParams}.
Context {R Ctx : Type}.
#[local] Abbreviation st := (@inviteState SP R Ctx).
Definition tab (s : st) : dialogTable := as_tab (is_anchor s).

Definition follows {A} (P : st -> Prop) (m : flow A) (Q : A -> st -> Prop) : Prop := forall s, P s -> Q (m s).1 (m s).2.

Lemma follows_bind {A B} (P : st -> Prop) Q Q' (m : flow A) (k : A -> flow B) :
  follows P m Q -> (forall a, follows (Q a) (k a) Q') -> follows P (m ≫= k) Q'.
Proof. intros Hm Hk s Hs. specialize (Hm s Hs). unfold mbind, flow_bind. destruct (m s) as [a s']. by apply (Hk a). Qed.
Lemma follows_ret {A} (P : st -> Prop) (a : A) (Q : A -> st -> Prop) : (forall s, P s -> Q a s) -> follows P (mret a) Q.
Proof. intros H s. apply H. Qed.
Lemma follows_weaken {A} (P P' : st -> Prop) (m : flow A) (Q Q' : A -> st -> Prop) :
  follows P m Q -> (forall s, P' s -> P s) -> (forall a s, Q a s -> Q' a s) -> follows P' m Q'.
Proof. intros H HP HQ s Hs. apply HQ, H, HP, Hs. Qed.
Lemma follows_pure {A} (X : Prop) (P : st -> Prop) (m : flow A) Q : (X -> follows P m Q) -> follows (fun s => X /\ P s) m Q.
Proof. intros H s [HX Hs]. by apply (H HX). Qed.
Lemma follows_or {A} (P P' : st -> Prop) (m : flow A) Q : follows P m Q -> follows P' m Q -> follows (fun s => P s \/ P' s) m Q.
Proof. intros H H' s [Hs|Hs]; [by apply H|by apply H']. Qed.

Definition upholds {A} (I : st -> Prop) (m : flow A) : Prop := follows I m (fun _ => I).

Lemma follows_up {A} I (P : st -> Prop) (m : flow A) Q : upholds I m -> (forall s, P s -> I s) -> (forall a s, I s -> Q a s) -> follows P m Q.
Proof. intros U HP HQ. by eapply follows_weaken. Qed.
Lemma upholds_bind {A B} I (m : flow A) (k : A -> flow B) : upholds I m -> (forall a, upholds I (k a)) -> upholds I (m ≫= k).
Proof. apply follows_bind. Qed.
Lemma upholds_then {A B} I (m : flow A) (k : A -> flow B) Q : upholds I m -> (forall a, follows I (k a) Q) -> follows I (m ≫= k) Q.
Proof. apply follows_bind. Qed.
Lemma upholds_ret {A} I (a : A) : upholds I (mret a).
Proof. by apply follows_ret. Qed.
Lemma upholds_asks {A} I (f : st -> A) : upholds I (asks f).
Proof. by intros s. Qed.
Lemma upholds_reads {A} I (f : dialogTable -> A) : upholds I (reads f).
Proof. apply upholds_asks. Qed.
Lemma upholds_over I : upholds I ctx_over.
Proof. apply upholds_asks. Qed.

(** The assertions the steps of a handler keep, as long as what it sends is of
    [q] and the media and the table go from one state to another [V] relates. *)
Class Hush (V : @anchorState SP R Ctx -> @anchorState SP R Ctx -> Prop) (q : wire -> bool) (I : st -> Prop) : Prop := mkHush {
  quiet_cool : forall s c, I s -> I (set_cool c s);
  quiet_edge : forall s e, I s -> I (set_edge e s);
  quiet_limiter : forall s l, I s -> I (set_limiter l s);
  quiet_ctx : forall s c, c <> ctxLive -> I s -> I (set_ctx c s);
  quiet_wire : forall s w, q w = true -> I s -> I (set_wire (is_wire s ++ [w]) s);
  quiet_anchor : forall s a, V (is_anchor s) a -> I s -> I (set_anchor a s)
}.

(** The table went through operations of [f]. *)
Definition grown (f : op -> bool) (a a' : @anchorState SP R Ctx) : Prop := grows f (as_tab a) (as_tab a').

Lemma hush_weaken V V' (q r : wire -> bool) I : (forall a a', V a a' -> V' a a') -> (forall w, q w = true -> r w = true) -> Hush V' r I -> Hush V q I.
Proof. intros F Q []. constructor; auto. Qed.
Lemma quiet_weaken f q I : Hush (grown anyOp) q I -> Hush (grown f) q I.
Proof. apply hush_weaken; [|done]. intros a a'. apply grows_any. Qed.
#[export] Instance hush_tearing V I : Hush V aside I -> Hush V tearing I | 20.
Proof. apply hush_weaken; [done|]. by intros []. Qed.
#[export] Instance hush_cancelling V I : Hush V tearing I -> Hush V cancelling I | 20.
Proof. apply hush_weaken; [done|]. by intros []. Qed.
#[export] Instance hush_aside V I : Hush V uninviting I -> Hush V aside I | 20.
Proof. apply hush_weaken; [done|]. by intros []. Qed.
Definition everything (w : wire) : bool := true.
#[export] Instance hush_uninviting V I : Hush V everything I -> Hush V uninviting I | 20.
Proof. by apply hush_weaken. Qed.

(** How many finals the caller has been sent. *)
Definition counted (n : nat) (s : st) : Prop := finals (is_wire s) = n.
#[export] Instance counted_quiet f n : Hush (grown f) aside (counted n).
Proof.
  constructor; try done. intros s w F. unfold counted, finals. cbn. rewrite List.filter_app. cbn.
  assert (final_of w = false) as -> by (by destruct w). by rewrite app_nil_r.
Qed.
(** What the caller has been sent. *)
Definition sent (s : st) : list wire := List.filter to_caller (is_wire s).
#[export] Instance sent_quiet f ws : Hush (grown f) aside (fun s => sent s = ws).
Proof.
  constructor; try done. intros s w F. unfold sent. cbn. rewrite List.filter_app. cbn.
  assert (to_caller w = false) as -> by (by destruct w). by rewrite app_nil_r.
Qed.

(** An assertion on the table. *)
Definition on_tab (P : dialogTable -> Prop) (s : st) : Prop := P (tab s).
#[export] Instance on_tab_quiet f q P `{L : !Lasting f P} : Hush (grown f) q (on_tab P).
Proof. constructor; try done. intros s a G. by apply (lasts f P). Qed.

#[export] Instance quiet_pure V q (X : Prop) : Hush V q (fun _ => X).
Proof. by constructor. Qed.
#[export] Instance quiet_and V q I J : Hush V q I -> Hush V q J -> Hush V q (fun s => I s /\ J s).
Proof. intros [] []. constructor; intros; destruct_and!; eauto. Qed.
#[export] Instance quiet_or V q I J : Hush V q I -> Hush V q J -> Hush V q (fun s => I s \/ J s).
Proof. intros [] []. constructor; intros; destruct_or!; eauto. Qed.

Section Small.
Context (V : @anchorState SP R Ctx -> @anchorState SP R Ctx -> Prop) (q : wire -> bool) (I : st -> Prop) `{QI : !Hush V q I}.

Lemma up_tabling {A} (g : dialogTable -> A * dialogTable) : (forall a, V a (tabling g a).2) -> upholds I (table g).
Proof.
  intros H s Hs. unfold table. specialize (H (is_anchor s)). unfold tabling in H. destruct (g (as_tab (is_anchor s))) as [a t].
  by apply (quiet_anchor (V:=V) (q:=q)).
Qed.
Lemma up_anchored {A} (m : @anchor SP R Ctx A) : (forall a, V a (m a).2) -> upholds I (anchoring m).
Proof. intros K s Hs. unfold anchoring. specialize (K (is_anchor s)). destruct (m (is_anchor s)) as [r a]. by apply (quiet_anchor (V:=V) (q:=q)). Qed.
Lemma up_branch (NewBranch : R -> gostring * R) : (forall a r, V a (with_rnd r a)) -> upholds I (newBranch NewBranch).
Proof. intros H s Hs. unfold newBranch. destruct (NewBranch _) as [b r]. by apply (quiet_anchor (V:=V) (q:=q)). Qed.
Lemma up_emit w : q w = true -> upholds I (emit w).
Proof. intros F s Hs. by apply (quiet_wire (V:=V) (q:=q)). Qed.
Lemma up_cancel_ctx c : c <> ctxLive -> upholds I (cancel_ctx c).
Proof. intros C s Hs. unfold cancel_ctx, change. cbn. case_bool_decide; [by apply (quiet_ctx (V:=V) (q:=q))|done]. Qed.
Lemma up_set_edge (g : st -> edgeTables) : upholds I (change (fun s => set_edge (g s) s)).
Proof. intros s Hs. by apply (quiet_edge (V:=V) (q:=q)). Qed.
Lemma up_set_cool (g : st -> cooldownTable) : upholds I (change (fun s => set_cool (g s) s)).
Proof. intros s Hs. by apply (quiet_cool (V:=V) (q:=q)). Qed.
End Small.

Section SmallGrown.
Context (f : op -> bool) (q : wire -> bool) (I : st -> Prop) `{QI : !Hush (grown f) q I}.

Lemma up_table {A} (g : dialogTable -> A * dialogTable) : (forall t, grows f t (g t).2) -> upholds I (table g).
Proof.
  intros H. apply (up_tabling (grown f) q I). intros a. specialize (H (as_tab a)). unfold tabling, grown. destruct (g (as_tab a)) as [x t].
  cbn [fst snd] in *. by rewrite close_all_tab.
Qed.
Lemma up_op {A} (o : op) (g : dialogTable -> A * dialogTable) : f o = true -> (forall t, (g t).2 = step o t) -> upholds I (table g).
Proof. intros F E. apply up_table. intros t. rewrite E. apply grows_step; [done|apply grown_same]. Qed.
Lemma up_anchoring {A} (m : @anchor SP R Ctx A) : (forall t, keeps (of_tab (grows f t)) m) -> upholds I (anchoring m).
Proof. intros K. apply (up_anchored (grown f) q I). intros a. apply (K (as_tab a) a), grown_same. Qed.
Lemma up_newBranch (NewBranch : R -> gostring * R) : upholds I (newBranch NewBranch).
Proof. apply (up_branch (grown f) q I). intros a r. apply grown_same. Qed.
End SmallGrown.

(** The caller has its final, or has given up waiting for one. *)
Definition settled (n d : nat) (s : st) : Prop := counted (S n) s \/ (counted n s /\ on_tab (gone d) s).
#[export] Instance settled_quiet n d : Hush (grown anyOp) aside (settled n d).
Proof. apply quiet_or; [apply _|]. apply quiet_and; apply _. Qed.

(** The caller waits, and the call has a record. *)
Definition waiting (n d : nat) (s : st) : Prop := counted n s /\ on_tab (known d) s.
#[export] Instance waiting_quiet n d : Hush (grown anyOp) aside (waiting n d).
Proof. apply quiet_and; apply _. Qed.
#[export] Instance settled_any f n d : Hush (grown f) aside (settled n d) | 10.
Proof. apply quiet_weaken, _. Qed.
#[export] Instance waiting_any f n d : Hush (grown f) aside (waiting n d) | 10.
Proof. apply quiet_weaken, _. Qed.

Lemma up_provisional n d w : final_of w = false -> upholds (waiting n d) (emit w).
Proof.
  intros F s [C K]. split; [|done]. unfold counted, finals in *. cbn. rewrite List.filter_app. cbn. by rewrite F, app_nil_r.
Qed.
(** The call is open, and no attempt of it on record. *)
Definition ready (n d : nat) (s : st) : Prop := counted n s /\ on_tab (unspoken d) s.
#[export] Instance ready_quiet n d : Hush (grown (not_for d)) aside (ready n d).
Proof. apply quiet_and; apply _. Qed.
Lemma ready_waiting n d s : ready n d s -> waiting n d s.
Proof. intros (C & N & x & E & _). split; [done|]. split; [done|]. by exists x. Qed.

(** Where a handler may end; [beat]: sipgo had answered the CANCEL itself. *)
Definition verdict (n : nat) (beat : bool) (d : nat) (s : st) : Prop := settled n d s \/ (beat = true /\ counted n s).
#[export] Instance verdict_quiet n beat d : Hush (grown anyOp) aside (verdict n beat d).
Proof. apply quiet_or; [apply _|]. apply quiet_and; apply _. Qed.

Lemma table_at {A} (g : dialogTable -> A * dialogTable) s : let r := g (tab s) in
  (table g s).1 = r.1 /\ tab (table g s).2 = r.2 /\ is_wire (table g s).2 = is_wire s.
Proof.
  unfold table, tab. destruct (g (as_tab (is_anchor s))) as [a t]. cbn. split; [done|]. split; [|done].
  unfold tabling_, tabling. cbn [snd]. by rewrite close_all_tab.
Qed.

Lemma table__at g s : tab (table_ g s).2 = g (tab s) /\ is_wire (table_ g s).2 = is_wire s.
Proof. by destruct (table_at (fun t => (tt, g t)) s) as (_ & T & W). Qed.

Lemma ready_cancel n d why : why <> cancelBackstop -> upholds (ready n d) (table (cancelSeries d why)).
Proof.
  intros W s [C U]. destruct (table_at (cancelSeries d why) s) as (_ & T & Ws). split; [unfold counted; by rewrite Ws|].
  unfold on_tab. rewrite T. by apply unspoken_cancel.
Qed.

(** A track that is refused is of a call its caller cancelled. *)
Lemma ready_track n d req : follows (ready n d) (table (track d req)) (fun r s => match r with Some _ => waiting n d s | None => settled n d s end).
Proof.
  intros s H. pose proof (ready_waiting n d s H) as [C K]. destruct H as (_ & N & x & E & F & G).
  destruct (table_at (track d req) s) as (-> & T & Ws). assert (counted n (table (track d req) s).2) as C' by (unfold counted; by rewrite Ws).
  pose proof (gone_lasting d (OTrack d req) (tab s) eq_refl) as Gl. cbn [step] in Gl. destruct (track d req (tab s)) as [[a|] t] eqn:Tr; cbn [fst snd] in *.
  - split; [done|]. unfold on_tab. rewrite T. pose proof (known_lasting d (OTrack d req) (tab s) eq_refl K) as Kl. cbn [step] in Kl. by rewrite Tr in Kl.
  - right. split; [done|]. unfold on_tab. rewrite T. apply Gl. split; [done|]. exists x. split; [done|]. apply G. revert Tr. unfold track. rewrite E.
    destruct (d_cancelled x) eqn:D; [by intros _; cbn|by destruct (fresh (tab s))].
Qed.

(** The record a call opens is a new one. *)
Lemma ready_begin n now hs p limit d0 : follows (fun s => t_nextId (tab s) = d0 /\ counted n s) (table (begin_ now hs p limit))
  (fun r s => match r with beginOK d => d = d0 /\ ready n d s | _ => counted n s end).
Proof.
  intros s [D C]. destruct (table_at (begin_ now hs p limit) s) as (-> & T & Ws).
  assert (counted n (table (begin_ now hs p limit) s).2) as C' by (unfold counted; by rewrite Ws).
  destruct (begin_cases now hs p limit (tab s)) as [(r & B & N)|(t' & B & _ & _ & _ & Et)]; rewrite B in *; cbn [fst snd] in *.
  - destruct r; try done. exfalso. by eapply N.
  - split; [done|]. split; [done|]. unfold on_tab, unspoken, held. rewrite T, Et. cbn. split; [lia|]. eexists. rewrite lookup_insert_eq. split; [done|].
    by unfold bond, new_dialog.
Qed.

Lemma asked_gone n d : follows (waiting n d) (reads (callerCancelled d)) (fun b s => if b then settled n d s else waiting n d s).
Proof.
  intros s [C K]. cbn. destruct (callerCancelled d (as_tab (is_anchor s))) eqn:G; [|done]. right. split; [done|].
  apply cancelled_gone; [done|apply K].
Qed.

(** A final response sends an assertion about [n] finals to one about [S n]. *)
Lemma final_emit n w (P : st -> Prop) : final_of w = true -> (forall s, P s -> counted n s) -> follows P (emit w) (fun _ => counted (S n)).
Proof.
  intros F H s Hs. specialize (H s Hs). unfold counted, finals in *. cbn. rewrite List.filter_app, length_app. cbn. rewrite F. cbn. lia.
Qed.
End Logic.

Create HintDb invite.
#[export] Hint Extern 0 (Hush _ _ _) => typeclasses eauto : invite.
#[export] Hint Extern 0 (_ <> ctxLive) => discriminate : invite.
#[export] Hint Resolve upholds_ret upholds_asks upholds_reads upholds_over : invite.

(** A handler keeps an assertion when its steps do. *)
Ltac stay :=
  repeat first
    [ solve [eauto 3 with invite]
    | match goal with |- upholds _ (mbind _ _) => apply upholds_bind; [|intros ?] end
    | match goal with |- upholds _ (match ?x with _ => _ end) => destruct x end
    | match goal with |- upholds _ (let '_ := ?x in _) => destruct x end
    | match goal with |- upholds _ (if ?b then _ else _) => destruct b end ].
(** The first step of a handler keeps the assertion it starts from. *)
Ltac past := match goal with |- follows ?I (mbind _ _) _ => apply (upholds_then I); [stay|] end.

(** ** Events, as far as a handler is made of them *)

Section Moved.
Context `{SP : SipParams}.
Context {R Ctx : Type}.
Context (Unmarshal : gostring -> option SessionDescription).
Context (rand_read : Z -> R -> option (list Z) * R).
Context (newContext : SDESSuite -> list Z -> list Z -> option Ctx).
Context (KeyLen SaltLen : SDESSuite -> option Z).
Context (unprotectRTP unprotectRTCP protectRTP protectRTCP : Ctx -> list Z -> option (list Z) * Ctx).
Context (write_udp : list Z -> AddrPort -> option Z) (write_leg : list Z -> option Z).
Context (listen_ok : Addr -> Z -> bool).
Context (Value : header -> gostring).
Context (sv : server).
#[local] Abbreviation st := (@inviteState SP R Ctx).
#[local] Abbreviation handle := (handle Unmarshal rand_read newContext KeyLen SaltLen unprotectRTP unprotectRTCP protectRTP protectRTCP
  write_udp write_leg listen_ok Value sv).

(** The media and the table went through events of the edge, and the random
    source was drawn from. *)
Inductive moved (a : @anchorState SP R Ctx) : @anchorState SP R Ctx -> Prop :=
  | moved_refl : moved a a
  | moved_event b e : moved a b -> moved a (handle e b).2
  | moved_rnd b r : moved a b -> moved a (with_rnd r b).

Lemma moved_one e a : moved a (handle e a).2.
Proof. constructor. constructor. Qed.

Lemma moved_grown a a' : moved a a' -> grown anyOp a a'.
Proof.
  induction 1 as [|b e _ IH|b r _ IH]; [apply grown_same| |exact IH].
  by apply (handle_grows Unmarshal rand_read newContext KeyLen SaltLen unprotectRTP unprotectRTCP protectRTP protectRTCP write_udp write_leg listen_ok Value sv
    anyOp (as_tab a) e).
Qed.

#[export] Instance hush_moved q I : Hush (grown anyOp) q I -> Hush moved q I | 30.
Proof. apply hush_weaken; [apply moved_grown|done]. Qed.

Context (q : wire -> bool) (I : st -> Prop) `{QI : !Hush moved q I}.

Lemma mv_handle e : upholds I (anchoring (handle e)).
Proof. apply (up_anchored moved q I). intros a. apply moved_one. Qed.

Lemma bind_ret_state {A B} (m : @anchor SP R Ctx A) (b : B) a : (m ≫= fun _ => mret b) a = (match (m a).1 with inl _ => inl b | inr e => inr e end, (m a).2).
Proof. unfold mbind, anchor_bind. by destruct (m a) as [[x|e] a']. Qed.

Lemma mv_fork now l res : upholds I (anchoring (MediaAnchor.forkAnswer Unmarshal rand_read newContext listen_ok Value sv now l res)).
Proof.
  apply (up_anchored moved q I). intros a. pose proof (moved_one (EFork now l res) a) as M. cbn [AnchorRun.handle] in M.
  by rewrite bind_ret_state in M.
Qed.

Lemma mv_op {A} (o : op) (g : dialogTable -> A * dialogTable) : life o = false -> (forall t, (g t).2 = step o t) -> upholds I (table g).
Proof.
  intros L E. apply (up_tabling moved q I). intros a. rewrite (tabling_op o g a L E). pose proof (moved_one (ETable o) a) as M.
  cbn [AnchorRun.handle] in M. rewrite L in M. unfold tabling_ in M. by rewrite (tabling_op o (fun t => (tt, step o t)) a L) in M.
Qed.

Lemma mv_confirm now d tag r : upholds I (table (confirm now d tag r)).
Proof.
  apply (up_tabling moved q I). intros a. pose proof (moved_one (EConfirm now d tag r) a) as M. cbn [AnchorRun.handle] in M. by rewrite bind_ret_state in M.
Qed.
Lemma mv_end d r : upholds I (table (end_ d r)).
Proof.
  apply (up_tabling moved q I). intros a. pose proof (moved_one (EEnd d r) a) as M. cbn [AnchorRun.handle] in M. by rewrite bind_ret_state in M.
Qed.
Lemma mv_endUnlessUp d : upholds I (table_ (endUnlessUp d)).
Proof.
  apply (up_tabling moved q I). intros a. unfold tabling, endUnlessUp.
  assert (moved a (fold_left close_at (drop (length (t_closedMedia (as_tab a))) (t_closedMedia (as_tab a))) (with_tab (as_tab a) a))) as Id.
  { rewrite drop_all. cbn. destruct a. constructor. }
  destruct (t_heap (as_tab a) !! d) as [x|]; [|exact Id]. destruct (is_early x); [|exact Id].
  pose proof (moved_one (EEnd d endShutdown) a) as M. cbn [AnchorRun.handle] in M. rewrite bind_ret_state in M.
  unfold tabling in M. by destruct (end_ d endShutdown (as_tab a)).
Qed.
Lemma mv_newBranch (NewBranch : R -> gostring * R) : upholds I (newBranch NewBranch).
Proof. apply (up_branch moved q I). intros a r. constructor. constructor. Qed.
End Moved.
