(* ===== verification/InviteSafety.v ===== *)
(** What a call being placed owes its caller, its callee and the switch.

    Every INVITE is answered once and only once, whatever the far end sends and
    whoever cancels; a 2xx is confirmed before the caller sees it, or completed
    and torn down; the far end's SDP never reaches the caller; and once a node
    has been heard no second one is dialed. *)

From S2P Require Import Prelude GoTime GoText Netip PortPool Latch MediaSession SdpCodec SdpCrypto SdpParse Topology EdgeSdes SipMsg SipRequest.
From S2P Require Import WebRtcLeg WebRtcSession Dialog DialogInv DialogSafety MediaAnchor AnchorSafety AnchorRun AnchorBody.
From S2P Require Import SipAddr Config RateLimit Location Carriers Cooldown Forward Hide CarrierRoute InviteFlow InviteLogic.

Open Scope Z_scope.

Section Placing.
Context `{SP : SipParams} `{SH : !SipHeaders}.
Context {R Ctx : Type}.
Context (Unmarshal : gostring -> option SessionDescription).
Context (rand_read : Z -> R -> option (list Z) * R).
Context (newContext : SDESSuite -> list Z -> list Z -> option Ctx).
Context (KeyLen SaltLen : SDESSuite -> option Z).
Context (unprotectRTP unprotectRTCP protectRTP protectRTCP : Ctx -> list Z -> option (list Z) * Ctx).
Context (write_udp : list Z -> AddrPort -> option Z) (write_leg : list Z -> option Z).
Context (listen_ok : Addr -> Z -> bool).
Context (Value : header -> gostring) (NetworkToLower ToLower : gostring -> gostring).
Context (NewBranch : R -> gostring * R) (write_ok : request -> bool).
Context (sv : server).
#[local] Abbreviation st := (@inviteState SP R Ctx).
#[local] Abbreviation flow := (@flow SP R Ctx).
#[local] Abbreviation env_step := (env_step Unmarshal rand_read newContext KeyLen SaltLen unprotectRTP unprotectRTCP protectRTP protectRTCP
  write_udp write_leg listen_ok Value sv).
#[local] Abbreviation env_steps := (env_steps Unmarshal rand_read newContext KeyLen SaltLen unprotectRTP unprotectRTCP protectRTP protectRTCP
  write_udp write_leg listen_ok Value sv).
#[local] Abbreviation refuse2xx := (refuse2xx NewBranch write_ok sv).
#[local] Abbreviation drain := (drain Unmarshal rand_read newContext KeyLen SaltLen unprotectRTP unprotectRTCP protectRTP protectRTCP
  write_udp write_leg listen_ok Value NewBranch write_ok sv).
#[local] Abbreviation abandonAttempt := (abandonAttempt Unmarshal rand_read newContext KeyLen SaltLen unprotectRTP unprotectRTCP protectRTP protectRTCP
  write_udp write_leg listen_ok Value NewBranch write_ok sv).
#[local] Abbreviation caller_body := (caller_body Unmarshal rand_read newContext listen_ok Value sv).
#[local] Abbreviation late := (late Unmarshal rand_read newContext KeyLen SaltLen unprotectRTP unprotectRTCP protectRTP protectRTCP
  write_udp write_leg listen_ok Value NewBranch write_ok sv).

#[local] Abbreviation adapt := (adapt Unmarshal rand_read newContext KeyLen SaltLen unprotectRTP unprotectRTCP protectRTP protectRTCP
  write_udp write_leg listen_ok Value sv).
#[local] Abbreviation relay := (relayInviteResponse Unmarshal rand_read newContext KeyLen SaltLen unprotectRTP unprotectRTCP protectRTP protectRTCP
  write_udp write_leg listen_ok Value NetworkToLower ToLower NewBranch write_ok sv).

#[local] Abbreviation pump_step := (pump_step Unmarshal rand_read newContext KeyLen SaltLen unprotectRTP unprotectRTCP protectRTP protectRTCP
  write_udp write_leg listen_ok Value NetworkToLower ToLower NewBranch write_ok sv).
#[local] Abbreviation pump_pieces := (pump_pieces Unmarshal rand_read newContext KeyLen SaltLen unprotectRTP unprotectRTCP protectRTP protectRTCP
  write_udp write_leg listen_ok Value NetworkToLower ToLower NewBranch write_ok sv).
#[local] Abbreviation pump := (pump Unmarshal rand_read newContext KeyLen SaltLen unprotectRTP unprotectRTCP protectRTP protectRTCP
  write_udp write_leg listen_ok Value NetworkToLower ToLower NewBranch write_ok sv).
#[local] Abbreviation place := (place Unmarshal rand_read newContext KeyLen SaltLen unprotectRTP unprotectRTCP protectRTP protectRTCP
  write_udp write_leg listen_ok Value NetworkToLower ToLower NewBranch write_ok sv).

#[local] Abbreviation try_nodes := (try_nodes Unmarshal rand_read newContext KeyLen SaltLen unprotectRTP unprotectRTCP protectRTP protectRTCP
  write_udp write_leg listen_ok Value NetworkToLower ToLower NewBranch write_ok sv).
#[local] Abbreviation single_attempt := (single_attempt Unmarshal rand_read newContext KeyLen SaltLen unprotectRTP unprotectRTCP protectRTP protectRTCP
  write_udp write_leg listen_ok Value NetworkToLower ToLower NewBranch write_ok sv).

#[local] Abbreviation inviteToUpstream := (inviteToUpstream Unmarshal rand_read newContext KeyLen SaltLen unprotectRTP unprotectRTCP protectRTP
  protectRTCP write_udp write_leg listen_ok Value NetworkToLower ToLower NewBranch write_ok sv).
#[local] Abbreviation inviteToClient := (inviteToClient Unmarshal rand_read newContext KeyLen SaltLen unprotectRTP unprotectRTCP protectRTP
  protectRTCP write_udp write_leg listen_ok Value NetworkToLower ToLower NewBranch write_ok sv).
#[local] Abbreviation inviteToCarrier := (inviteToCarrier Unmarshal rand_read newContext KeyLen SaltLen unprotectRTP unprotectRTCP protectRTP
  protectRTCP write_udp write_leg listen_ok Value NetworkToLower ToLower NewBranch write_ok sv).
#[local] Abbreviation from_switch := (from_switch Unmarshal rand_read newContext KeyLen SaltLen unprotectRTP unprotectRTCP protectRTP
  protectRTCP write_udp write_leg listen_ok Value NetworkToLower ToLower NewBranch write_ok sv).

#[local] Abbreviation moved := (moved Unmarshal rand_read newContext KeyLen SaltLen unprotectRTP unprotectRTCP protectRTP protectRTCP
  write_udp write_leg listen_ok Value sv).
#[local] Abbreviation mv_op := (mv_op Unmarshal rand_read newContext KeyLen SaltLen unprotectRTP unprotectRTCP protectRTP protectRTCP
  write_udp write_leg listen_ok Value sv).
#[local] Abbreviation mv_handle := (mv_handle Unmarshal rand_read newContext KeyLen SaltLen unprotectRTP unprotectRTCP protectRTP protectRTCP
  write_udp write_leg listen_ok Value sv).
#[local] Abbreviation mv_fork := (mv_fork Unmarshal rand_read newContext KeyLen SaltLen unprotectRTP unprotectRTCP protectRTP protectRTCP
  write_udp write_leg listen_ok Value sv).
#[local] Abbreviation mv_confirm := (mv_confirm Unmarshal rand_read newContext KeyLen SaltLen unprotectRTP unprotectRTCP protectRTP protectRTCP
  write_udp write_leg listen_ok Value sv).
#[local] Abbreviation mv_newBranch := (mv_newBranch Unmarshal rand_read newContext KeyLen SaltLen unprotectRTP unprotectRTCP protectRTP protectRTCP
  write_udp write_leg listen_ok Value sv).
#[local] Abbreviation mv_endUnlessUp := (mv_endUnlessUp Unmarshal rand_read newContext KeyLen SaltLen unprotectRTP unprotectRTCP protectRTP protectRTCP
  write_udp write_leg listen_ok Value sv).
#[local] Abbreviation mv_end := (mv_end Unmarshal rand_read newContext KeyLen SaltLen unprotectRTP unprotectRTCP protectRTP protectRTCP
  write_udp write_leg listen_ok Value sv).

(** ** What the small steps keep *)

Section Events.
Context (I : st -> Prop) `{QI : !Hush moved cancelling I}.

Lemma up_cancelSeries d why : upholds I (table (cancelSeries d why)).
Proof. by apply (mv_op cancelling I (OCancel d why)). Qed.
Lemma up_sendCancel a : upholds I (sendCancel a).
Proof. pose proof (up_emit moved cancelling I) as E. pose proof (up_cancel_ctx moved cancelling I) as C. unfold sendCancel. stay. Qed.
#[local] Hint Resolve up_cancelSeries up_sendCancel : invite.
Lemma up_cancelCall d why : upholds I (cancelCall d why).
Proof. pose proof (up_cancel_ctx moved cancelling I) as C. unfold cancelCall. stay. Qed.
#[local] Hint Resolve up_cancelCall : invite.

Lemma up_handle e : upholds I (anchoring (handle Unmarshal rand_read newContext KeyLen SaltLen unprotectRTP unprotectRTCP protectRTP
  protectRTCP write_udp write_leg listen_ok Value sv e)).
Proof. by apply (mv_handle cancelling I). Qed.
#[local] Hint Resolve up_handle : invite.
Lemma up_env_step d e : upholds I (env_step d e).
Proof.
  pose proof (up_cancel_ctx moved cancelling I) as C. pose proof (up_set_edge moved cancelling I) as G. destruct e; unfold env_step; stay; apply G.
Qed.
#[local] Hint Resolve up_env_step : invite.
Lemma up_env_steps d es : upholds I (env_steps d es).
Proof. induction es as [|e es IH]; cbn; stay. Qed.
#[local] Hint Resolve up_env_step up_env_steps : invite.

Lemma up_note_fork now l res : upholds I (note_fork now l res).
Proof.
  assert (forall o, life o = false -> upholds I (table_ (step o))) as S by (intros o L; by apply (mv_op cancelling I o)).
  pose proof (S (OSetForkRoute now (il_d l) (ToTag (rs_headers res)) (legRoute l res)) eq_refl) as A.
  pose proof (fun u => S (OSetForkTo now (il_d l) (ToTag (rs_headers res)) u) eq_refl) as B. pose proof (fun u => S (OSetCalleeURI (il_d l) u) eq_refl) as C.
  unfold note_fork. stay.
Qed.
#[local] Hint Resolve up_note_fork : invite.
Lemma up_caller_body now l res out : upholds I (caller_body now l res out).
Proof. unfold caller_body. stay. by apply (mv_fork cancelling I). Qed.
#[local] Hint Resolve up_caller_body : invite.
Lemma up_adapt now l h out : upholds I (adapt now l h out).
Proof.
  assert (forall o, life o = false -> upholds I (table_ (step o))) as S by (intros o L; by apply (mv_op cancelling I o)).
  pose proof (S (OArmOwedTimer (il_d l)) eq_refl) as A. pose proof (fun c => S (OArmAckTimer (il_d l) c) eq_refl) as B.
  pose proof (fun o => S (OSetRelayed2xx (il_d l) o) eq_refl) as C.
  assert (upholds I (commit_call now l (h_res h))) as K.
  { by apply (mv_confirm cancelling I). }
  unfold InviteFlow.adapt. stay.
Qed.
End Events.
#[local] Hint Resolve up_cancelSeries up_sendCancel up_cancelCall up_handle up_env_step up_env_steps up_note_fork up_caller_body
  up_adapt : invite.

Section Tearing.
Context (I : st -> Prop) `{QI : !Hush moved tearing I}.

Lemma up_teardown m res from seq : upholds I (teardown NewBranch sv m res from seq).
Proof. pose proof (mv_newBranch tearing I NewBranch) as B. unfold teardown. stay. Qed.
#[local] Hint Resolve up_teardown : invite.
Lemma up_ack2xx res from : upholds I (ack2xx NewBranch write_ok sv res from).
Proof. pose proof (up_emit moved tearing I) as E. unfold ack2xx. stay. Qed.
#[local] Hint Resolve up_ack2xx : invite.
Lemma up_refuse2xx d far res : upholds I (refuse2xx d far res).
Proof.
  pose proof (up_emit moved tearing I) as E. pose proof (mv_op tearing I (OReject d (ToTag (rs_headers res))) (reject d (ToTag (rs_headers res))) eq_refl (fun _ => eq_refl)) as R'.
  unfold refuse2xx, ackThenBye. stay.
Qed.
End Tearing.
#[local] Hint Resolve up_refuse2xx : invite.

Section Steps.
Context (I : st -> Prop) `{QI : !Hush moved aside I}.

Lemma up_onLate2xx d src far res : upholds I (onLate2xx NewBranch write_ok sv d src far res).
Proof. pose proof (up_emit moved aside I) as E. unfold onLate2xx. stay. Qed.
#[local] Hint Resolve up_onLate2xx : invite.

Lemma up_late l script : upholds I (late l script).
Proof. induction script as [|[e|ahead h| |] script IH]; cbn; stay. Qed.
#[local] Hint Resolve up_late : invite.
Lemma up_drain l script : upholds I (drain l script).
Proof. induction script as [|[e|ahead h| |] script IH]; cbn; stay. Qed.
#[local] Hint Resolve up_drain : invite.
Lemma up_abandonAttempt l script : upholds I (abandonAttempt l script).
Proof. unfold InviteFlow.abandonAttempt. stay. Qed.
End Steps.
#[local] Hint Resolve up_onLate2xx up_late up_drain up_abandonAttempt : invite.

(** ** One final, or none for a caller that is gone *)

(** What the caller is given carries the status the far end sent. *)
Lemma adapted_status now l h out s out' : (adapt now l h out s).1 = Some out' -> rs_status out' = rs_status out.
Proof.
  unfold InviteFlow.adapt, mbind at 1, flow_bind at 1. destruct (note_fork _ _ _ s) as [u s1]. unfold mbind at 1, flow_bind at 1.
  assert (forall o1 s2, caller_body now l (h_res h) (caller_headers sv l (h_res h) out) s1 = (inl o1, s2) -> rs_status o1 = rs_status out) as B.
  { intros o1 s2. unfold InviteFlow.caller_body. destruct (_ && _).
    - intros [= <- <-]. unfold caller_headers. by destruct (_ && _).
    - unfold mbind, flow_bind. destruct (anchoring _ s1) as [[[b|]|e] s3]; [..|done]; intros [= <- <-].
      + unfold caller_headers. by destruct (_ && _).
      + destruct (beq _ _); unfold caller_headers; by destruct (_ && _). }
  destruct (caller_body _ _ _ _ s1) as [[o1|e] s2]; [|done]. specialize (B o1 s2 eq_refl). destruct (negb _); [by intros [= <-]|].
  unfold mbind, flow_bind. destruct (env_steps _ _ s2) as [u1 s3]. destruct (commit_call _ _ _ s3) as [ok s4]. destruct (negb ok); [done|].
  destruct (table_ _ s4) as [u2 s5]. destruct (table_ _ s5) as [u3 s6]. destruct (table_ _ s6) as [u4 s7]. by intros [= <-].
Qed.

Lemma relay_counts n d now l h :
  follows (waiting n d) (relay now l h) (fun r s => match r with
    | relayedOK => if 200 <=? rs_status (h_res h) then settled n d s else waiting n d s
    | _ => waiting n d s end).
Proof.
  unfold InviteFlow.relayInviteResponse. destruct (relayResponseHide _ _ _ _ _ _) as [out|] eqn:E; [|by apply follows_ret].
  apply relayResponse_spec in E as (_ & St & _).
  apply (follows_bind _ (fun r s => waiting n d s /\ (forall out', r = Some out' -> rs_status out' = rs_status out))).
  { intros s W. split; [by apply (up_adapt (waiting n d))|]. intros out'. apply adapted_status. }
  intros [out'|].
  - intros s [W H]. cbn. specialize (H out' eq_refl). destruct (200 <=? rs_status (h_res h)) eqn:F.
    + left. apply (final_emit n (WRelay out') (counted n)); [cbn; by rewrite H, St|done|apply W].
    + apply up_provisional; [cbn; by rewrite H, St|done].
  - apply (follows_bind _ (fun _ => waiting n d)); [|intros u; by apply follows_ret].
    apply (follows_up (waiting n d)); [stay|by intros s [W _]|done].
Qed.

(** Where a pump ends: the caller is settled, or nothing was decided. *)
Definition pump_post (n d : nat) (r : pumpResult) (s : st) : Prop :=
  if pr_finalised r then settled n d s else pr_final r = None /\ waiting n d s.

Lemma over_post n l b : follows (waiting n (il_d l)) (pump_over l b) (pump_post n (il_d l)).
Proof. eapply follows_bind; [apply asked_gone|]. intros g. apply follows_ret. by destruct g. Qed.

#[local] Abbreviation then_post n d := (fun r s => match r with None => waiting n d s | Some r => pump_post n d r s end).

Lemma step_post n now l h rest : follows (waiting n (il_d l)) (pump_step now l h rest) (then_post n (il_d l)).
Proof.
  unfold InviteFlow.pump_step. set (d := il_d l). set (W := waiting n d).
  past. intros _. past. intros over.
  past. intros cancelled. destruct (_ || _).
  - past. intros _. eapply follows_bind; [apply over_post|]. intros r. by apply follows_ret.
  - eapply follows_bind; [apply (relay_counts n d)|]. intros [].
    + apply follows_ret. intros s. by destruct (200 <=? _).
    + by apply follows_ret.
    + past. intros _. past. intros [].
      * eapply follows_bind; [apply over_post|]. intros r. by apply follows_ret.
      * apply (follows_bind W (fun _ => settled n d)).
        { intros s H. left. apply (final_emit n _ (counted n)); [done|done|apply H]. }
        intros _. past. intros _. by apply follows_ret.
Qed.

Lemma pieces_post n now l hs rest : follows (waiting n (il_d l)) (pump_pieces now l hs rest) (then_post n (il_d l)).
Proof.
  induction hs as [|h hs IH]; [by apply follows_ret|]. cbn. eapply follows_bind; [apply step_post|]. intros [r|]; [by apply follows_ret|exact IH].
Qed.

Lemma pump_posts n now l b script : follows (waiting n (il_d l)) (pump now l b script) (fun p => pump_post n (il_d l) p.1).
Proof.
  set (W := waiting n (il_d l)). revert b. induction script as [|[e|ahead h| |] script IH]; intros b; cbn [InviteFlow.pump].
  - past. intros _. past. intros _.
    eapply follows_bind; [apply over_post|]. intros r. by apply follows_ret.
  - past. intros _. apply IH.
  - destruct (negb _); [apply IH|]. eapply follows_bind; [apply pieces_post|]. intros [r|]; [by apply follows_ret|apply IH].
  - eapply follows_bind; [apply over_post|]. intros r. by apply follows_ret.
  - past. intros []; [|apply IH]. past. intros _.
    eapply follows_bind; [apply over_post|]. intros r. by apply follows_ret.
Qed.

Lemma post_quiet n d r : Hush (grown anyOp) aside (pump_post n d r).
Proof. unfold pump_post. destruct (pr_finalised r); [apply _|]. apply quiet_and; apply _. Qed.

Lemma place_post n now node l a dl : follows (waiting n (il_d l)) (place now node l a dl) (pump_post n (il_d l)).
Proof.
  set (W := waiting n (il_d l)). pose proof (up_provisional (R:=R) (Ctx:=Ctx) n (il_d l)) as E. pose proof (up_op anyOp aside W (OMarkSent a) (markSent a) eq_refl (fun _ => eq_refl)) as M.
  unfold InviteFlow.place. past. intros _. past. intros _.
  past. intros cancelNow. past. intros _.
  eapply follows_bind; [apply pump_posts|]. intros [r rest]. cbn [fst]. pose proof (post_quiet n (il_d l) r) as Q.
  past. intros _. by apply follows_ret.
Qed.

Lemma giveUp_settles n d code : 200 <= code -> follows (waiting n d) (giveUp d code : flow unit) (fun _ => settled n d).
Proof.
  intros C. unfold giveUp. eapply follows_bind; [apply asked_gone|]. intros g. set (P := fun s : st => if g then settled n d s else waiting n d s).
  past. intros ctx. past. intros cancelled.
  destruct g; [by apply follows_ret|].
  assert (forall w, final_of w = true -> follows P (emit w) (fun _ => settled n d)) as F.
  { intros w Fw s H. left. apply (final_emit n w (counted n)); [done|done|apply H]. }
  destruct ctx, cancelled; apply F; cbn; lia.
Qed.
#[local] Hint Resolve post_quiet : typeclass_instances.

Lemma reject_counts n (P : st -> Prop) code why : 200 <= code -> (forall s, P s -> counted n s) ->
  follows P (rejectInvite code why : flow unit) (fun _ => counted (S n)).
Proof. intros C H. apply final_emit; [cbn; lia|done]. Qed.

Section Handlers.
Context (now : Z) (cfg : callConfig) (req : request).

Lemma nodes_settle n d forward mk cooldown order dials : (forall name out, il_d (mk name out) = d) ->
  follows (waiting n d) (try_nodes now d forward mk cooldown order dials) (fun _ => settled n d).
Proof.
  intros D. assert (forall code, 200 <= code -> follows (waiting n d) (giveUp d code : flow unit) (fun _ => settled n d)) as G by (intros; by apply giveUp_settles).
  set (W := waiting n d : st -> Prop). pose proof (up_set_cool (grown anyOp) aside W) as C. pose proof (up_set_cool (grown anyOp) aside (settled n d : st -> Prop)) as C'.
  pose proof (up_newBranch anyOp aside W NewBranch) as B.
  revert dials. induction order as [|name order IH]; intros dials; cbn [InviteFlow.try_nodes]; [by apply G|].
  destruct (match dials with [] => _ | _ => _ end) as [dl rest]. past. intros _. past. intros []; [by apply G|].
  past. intros branch. destruct (forward name branch) as [out|].
  2: { intros s H. left. by apply (reject_counts n (counted n)), H. }
  apply (upholds_then W); [by apply (up_op anyOp aside W (OTrack d out))|]. intros [a|]; [|by apply G].
  past. intros _. destruct (negb (dl_opens dl)).
  - past. intros []; [by apply G|]. past. intros _. apply IH.
  - pose proof (place_post n now name (mk name out) a dl) as PP. rewrite D in PP. eapply follows_bind; [exact PP|]. intros r. unfold pump_post.
    destruct (pr_finalised r) eqn:F; [destruct (pr_final r); [apply C'|by apply follows_ret]|].
    destruct (pr_final r); [by intros s [? _]|]. apply follows_pure. intros _.
    destruct (_ || _); [by apply G|]. past. intros []; [by apply G|]. past. intros _. apply IH.
Qed.

(** *** The call until its first attempt *)

(** Any event but those an answer to the call itself has to come before: an
    attempt of this call put on record, or the proxy giving up on it. *)
Definition harmless (d : nat) (e : env) : bool :=
  match e with EGiveUp => false | EOther (ETable o) => not_for d o | _ => true end.

Lemma ready_env_steps n d es : forallb (harmless d) es = true -> upholds (ready n d : st -> Prop) (env_steps d es).
Proof.
  set (W := ready n d : st -> Prop). pose proof (up_cancel_ctx (grown (not_for d)) aside W) as C. pose proof (up_emit (grown (not_for d)) aside W) as E.
  pose proof (ready_cancel (R:=R) (Ctx:=Ctx) n d) as K.
  assert (forall a, upholds W (sendCancel a)) as S by (intros a; unfold sendCancel; stay).
  assert (forall why, why <> cancelBackstop -> upholds W (cancelCall d why)) as CC.
  { intros why N. unfold cancelCall. apply upholds_bind; [by apply K|]. intros [a now']. stay. }
  induction es as [|e es IH]; cbn; [stay|]. intros [H HS]%andb_true_iff. apply upholds_bind; [|intros _; by apply IH].
  destruct e as [| | | |o|adm|e]; unfold InviteFlow.env_step; [|..|].
  - apply upholds_bind; [stay|]. intros []; [|stay]. apply upholds_bind; [by apply CC|]. intros []; stay.
  - apply upholds_bind; [stay|]. intros []; [|stay]. apply upholds_bind; [by apply CC|]. stay.
  - done.
  - stay.
  - apply (up_set_edge (grown (not_for d)) aside W).
  - apply (up_set_edge (grown (not_for d)) aside W).
  - apply upholds_bind; [|stay]. apply (up_anchoring (not_for d) aside W). intros t. apply (handle_grows _ _ _ _ _ _ _ _ _ _ _ _ _ _ (not_for d)).
    by intros o ->.
Qed.

Lemma opens n plane carrierCall d0 : follows (fun s : st => t_nextId (tab s) = d0 /\ counted n s)
  (beginDialog now cfg req plane carrierCall) (fun o s => match o with Some d => d = d0 /\ ready n d s | None => counted (S n) s end).
Proof.
  assert (forall (P : st -> Prop) w, final_of w = true -> (forall s, P s -> counted n s) ->
    follows P (_ ← emit w; mret None) (fun o s => match o with Some d => d = d0 /\ ready n d s | None => counted (S n) s end)) as Rj.
  { intros P w F H. apply (follows_bind _ (fun _ => counted (S n))); [by apply final_emit|]. intros _. by apply follows_ret. }
  unfold beginDialog. destruct (_ && _); [apply Rj; [done|by intros s []]|].
  eapply follows_bind; [apply ready_begin|]. intros [d| | |]; [|by apply Rj..].
  apply follows_pure. intros ->. set (W := ready n d0 : st -> Prop). destruct (if bool_decide _ then _ else _) as [rl|]; [|by apply follows_ret].
  apply (upholds_then W).
  { intros s H. destruct (allow _ _ _ _ _ _) as [ok l]. by apply (quiet_limiter (V:=grown (not_for d0)) (q:=aside)). }
  intros []; [by apply follows_ret|]. apply (upholds_then W).
  { apply (up_table (not_for d0) aside W). intros t. by apply grows_end. }
  intros _. apply Rj; [done|by intros s []].
Qed.

Lemma offered n d b : follows (ready n d : st -> Prop) (offer_of Unmarshal rand_read listen_ok sv req d b)
  (fun o s => match o with Some _ => ready n d s | None => counted (S n) s end).
Proof.
  unfold offer_of. destruct (beq _ _); [by apply follows_ret|]. apply (upholds_then (ready n d)).
  { apply (up_anchoring (not_for d) aside (ready n d)). intros t. apply grown_build; (assumption || apply _). }
  intros [o|e]; [by apply follows_ret|]. apply (follows_bind _ (fun _ => counted (S n))); [|intros _; by apply follows_ret].
  apply reject_counts; [by destruct e|by intros s []].
Qed.

Lemma attempt_settles n d dest mk out code dl : 200 <= code -> (forall out, il_d (mk out) = d) ->
  follows (ready n d) (single_attempt now d dest mk out code dl) (fun _ => settled n d).
Proof.
  intros C D. unfold InviteFlow.single_attempt. eapply follows_bind; [apply ready_track|]. intros [a|]; [|by apply follows_ret].
  past. intros _. apply (follows_bind _ (fun _ => settled n d)).
  - destruct (negb _); [by apply giveUp_settles|]. pose proof (place_post n now dest (mk out) a dl) as PP. rewrite D in PP.
    eapply follows_bind; [exact PP|]. intros r. unfold pump_post. destruct (pr_finalised r); [by apply follows_ret|].
    apply follows_pure. intros _. apply giveUp_settles. by destruct (dl_end dl).
  - intros _. by apply (up_op anyOp aside (settled n d) (OUntrack d)).
Qed.

Lemma call_ends n beat d0 plane carrierCall body : follows (ready n d0 : st -> Prop) (body d0) (fun _ => verdict n beat d0) ->
  follows (fun s : st => t_nextId (tab s) = d0 /\ counted n s) (in_call now cfg req plane carrierCall body) (fun _ => verdict n beat d0).
Proof.
  intros B. unfold in_call. apply (upholds_then (fun s : st => t_nextId (tab s) = d0 /\ counted n s)); [by intros s|]. intros _.
  eapply follows_bind; [apply opens|]. intros [d|]; [|apply follows_ret; by left; left].
  apply follows_pure. intros ->. eapply follows_bind; [apply B|]. intros ?. apply (up_table anyOp aside (verdict n beat d0)).
  intros t. apply (grows_any noBridge), grows_endUnlessUp.
Qed.

Lemma upstream_ends n d0 src carrier regs cooldown before beat dials :
  follows (fun s : st => t_nextId (tab s) = d0 /\ counted n s) (inviteToUpstream now cfg req src carrier regs cooldown before beat dials)
    (fun _ => verdict n beat d0).
Proof.
  set (P := fun s : st => t_nextId (tab s) = d0 /\ counted n s). set (V := verdict n beat d0 : st -> Prop).
  assert (forall code why, 200 <= code -> follows P (rejectInvite code why : flow unit) (fun _ => V)) as Rj.
  { intros code why C s H. left. left. by apply (reject_counts n P code why C); [intros s' []|]. }
  unfold InviteFlow.inviteToUpstream. destruct (publicSideFor _ _ _) as [from|]; [|by apply Rj].
  apply (upholds_then P).
  { destruct (beq carrier []); [|stay]. intros s H. unfold admitEarly. by destruct (_ <=? _). }
  intros []; [|by apply Rj]. cbn [negb]. apply (follows_bind _ (fun _ => V)).
  2: { intros _. destruct (beq carrier []); [by intros s|by apply upholds_ret]. }
  apply call_ends. set (d := d0). set (W := ready n d : st -> Prop). apply (upholds_then W).
  { destruct (beq carrier []); [stay|]. by apply (up_op (not_for d) aside W (OSetCarrier d carrier)). }
  intros _. apply (upholds_then W); [by apply (up_op (not_for d) aside W (OSetSRTP d (legSRTPPolicy (cc_srtp cfg) carrier (sd_transport from))))|].
  intros _. eapply follows_bind; [apply offered|]. intros [offer|]; [|apply follows_ret; by left; left].
  apply (follows_weaken (waiting n d) _ _ (fun _ => verdict n beat d)); [|by intros s; apply ready_waiting|done].
  past. intros _. destruct beat; [apply follows_ret; intros s [C _]; by right|]. past. intros cool.
  apply (follows_bind _ (fun _ => settled n d)); [by apply nodes_settle|]. intros _ s H. left.
  by apply (up_op anyOp aside (settled n d) (OUntrack d)).
Qed.

Lemma switch_ends n d0 carrierCall carrier to dest transport browser srtp forward contact src callee code before beat dl :
  200 <= code -> forallb (harmless d0) before = true ->
  follows (fun s : st => t_nextId (tab s) = d0 /\ counted n s)
    (from_switch now cfg req carrierCall carrier to dest transport browser srtp forward contact src callee code before beat dl)
    (fun _ => verdict n beat d0).
Proof.
  intros C Hb. unfold InviteFlow.from_switch. apply call_ends. set (d := d0) in *. set (W := ready n d : st -> Prop). apply (upholds_then W).
  { destruct (beq carrier []); [stay|]. by apply (up_op (not_for d) aside W (OSetCarrier d carrier)). }
  intros _. apply (upholds_then W); [by apply (up_op (not_for d) aside W (OSetSRTP d srtp))|].
  intros _. eapply follows_bind; [apply offered|]. intros [offer|]; [|apply follows_ret; by left; left].
  apply (upholds_then W); [by apply (up_newBranch (not_for d) aside W)|]. intros branch. destruct (forward branch) as [out|].
  2: { intros s [H _]. left. left. by apply (reject_counts n (counted n)). }
  apply (upholds_then W); [by apply ready_env_steps|]. intros _. destruct beat; [apply follows_ret; intros s [H _]; by right|].
  eapply follows_weaken; [by apply attempt_settles|done|by left].
Qed.

(** C4: Every INVITE is answered, and once.  Whatever the far end answers, in any
    order and however often, and whatever happens to the edge meanwhile (the
    caller's CANCEL, an orphan CANCEL, the deadline, an UPDATE gone wrong, any
    event of other calls), each of the three handlers of an INVITE ends having
    sent its caller exactly one final response, or none to a caller whose CANCEL
    was taken (or was answered by the SIP stack itself, [beat]).  For a call to
    a client or a carrier two events are excluded while its INVITE is still
    being made, which both need an attempt of this very call already out
    ([harmless]): the proxy giving up on it, and its attempt being put on
    record by anyone but the handler. *)
Theorem invite_is_answered_once s before beat : let d := t_nextId (as_tab (is_anchor s)) in let n := finals (is_wire s) in
  let answered s' := finals (is_wire s') = S n \/
    (finals (is_wire s') = n /\ (beat = true \/ callerCancelled d (as_tab (is_anchor s')) = true)) in
  (forall src carrier regs cooldown dials, answered (inviteToUpstream now cfg req src carrier regs cooldown before beat dials s).2) /\
  (forallb (harmless d) before = true ->
    (forall loc dl, answered (inviteToClient now cfg req loc before beat dl s).2) /\
    (forall snap byName carrier dl, answered (inviteToCarrier now cfg req snap byName carrier before beat dl s).2)).
Proof.
  intros d n answered.
  assert (forall s', verdict n beat d s' -> answered s') as V.
  { intros s' [[H|[H G]]|[-> H]]; [by left|right; split; [done|right; by apply gone_cancelled]|right; by split; [|left]]. }
  assert (forall code why, 200 <= code -> answered ((rejectInvite code why : flow unit) s).2) as Rj.
  { intros code why C. left. by apply (reject_counts n (counted n)). }
  split; [intros; apply V; by apply upstream_ends|]. intros Hb. split; intros.
  - unfold InviteFlow.inviteToClient. destruct (bindingForRequest _ _ _ _) as [b|]; [|by apply Rj].
    destruct (publicSide _ _) as [to|]; [|by apply Rj]. cbv zeta. destruct (_ && _); [by apply Rj|]. apply V. by apply switch_ends.
  - unfold InviteFlow.inviteToCarrier. destruct (carrierDest _ _) as [dest|]; [|by apply Rj].
    destruct (carrierSide _ _ _) as [to|]; [|by apply Rj]. apply V. by apply switch_ends.
Qed.
End Handlers.

(** ** A 2xx is confirmed, or completed and torn down *)

(** The call is up with this callee. *)
Definition confirmed (d : nat) (tag : gostring) (t : dialogTable) : Prop :=
  exists x m, t_heap t !! d = Some x /\ is_confirmed x = true /\ d_calleeTag x = tag /\ d_cancelled x = false /\ d_media x = Some m.

Lemma commit_confirms now l res (s : st) : (commit_call now l res s).1 = true ->
  confirmed (il_d l) (ToTag (rs_headers res)) (tab (commit_call now l res s).2).
Proof.
  unfold commit_call. destruct (table_at (confirm now (il_d l) (ToTag (rs_headers res)) (legRoute l res)) s) as (-> & -> & _).
  destruct (confirm_cases now (il_d l) (ToTag (rs_headers res)) (legRoute l res) (tab s)) as [->|(x & x' & m & _ & _ & _ & _ & -> & _ & _ & T & S & M & C & _)]; [done|].
  intros _. exists x', m. cbn. rewrite lookup_insert_eq. split; [done|]. split; [unfold is_confirmed; by rewrite S|done].
Qed.

Lemma confirmed_same d tag t t' : same wide t t' -> confirmed d tag t -> confirmed d tag t'.
Proof.
  intros S (x & m & E & C & T & N & M). destruct (same_forth _ _ _ _ _ S E) as (y & E' & W). exists y, m. unfold wide, core in W. injection W as ? ? St Md Cn ? Tg ?.
  split; [done|]. split; [unfold is_confirmed in *; by rewrite St|]. by rewrite Tg, Cn, Md.
Qed.

Lemma confirmed_op d tag o (s : st) : life o = false -> bridge o = false -> confirmed d tag (tab s) -> confirmed d tag (tab (table_ (step o) s).2).
Proof. intros L B C. rewrite (proj1 (table__at (step o) s)). eapply confirmed_same; [by apply step_wide|done]. Qed.

Lemma stored_2xx d tag out t : confirmed d tag t -> relayed2xx d tag (setRelayed2xx d (Some out) t) = Some out.
Proof.
  intros (x & m & E & Cf & Tg & _). unfold relayed2xx, get, setRelayed2xx, upd. rewrite E. cbn. rewrite lookup_insert_eq.
  unfold is_confirmed in *. cbn. rewrite Cf. cbn. unfold beq. by rewrite bool_decide_eq_true_2.
Qed.

(** What the caller is about to be given, of a 2xx, belongs to a call that is up. *)
Definition up_with (ws : list wire) (d : nat) (tag : gostring) (s : st) : Prop := sent s = ws /\ on_tab (confirmed d tag) s.

Lemma up_with_op ws d tag o : life o = false -> bridge o = false -> upholds (up_with ws d tag) (table_ (step o)).
Proof.
  intros L B s [S C]. split; [|by apply confirmed_op].
  by apply (up_op anyOp aside (fun s => sent s = ws) o (fun t => (tt, step o t))).
Qed.

Lemma adapt_confirms ws now l h out : is_2xx (h_res h) = true -> let tag := ToTag (rs_headers (h_res h)) in
  follows (fun s => sent s = ws) (adapt now l h out) (fun r s => match r with
    | Some out' => up_with ws (il_d l) tag s /\ relayed2xx (il_d l) tag (tab s) = Some out'
    | None => sent s = ws end).
Proof.
  intros T tag. set (P := fun s : st => sent s = ws). pose proof (up_note_fork P) as N. pose proof (up_caller_body P) as B.
  unfold InviteFlow.adapt. past. intros _. past. intros [out'|e]; [|by apply follows_ret]. rewrite T. cbn [negb]. past. intros _.
  apply (follows_bind _ (fun ok s => if ok : bool then up_with ws (il_d l) tag s else P s)).
  { intros s H. pose proof (commit_confirms now l (h_res h) s) as C.
    pose proof (up_op anyOp aside P (OConfirm now (il_d l) tag (legRoute l (h_res h))) (confirm now (il_d l) tag (legRoute l (h_res h))) eq_refl (fun _ => eq_refl) s H) as S.
    unfold commit_call in *. fold tag in C |- *. destruct (table _ s).1; [split; [exact S|by apply C]|exact S]. }
  intros []; [|by apply follows_ret]. cbn [negb]. set (U := up_with ws (il_d l) tag).
  apply (upholds_then U); [by apply (up_with_op _ _ _ (OArmOwedTimer (il_d l)))|]. intros _.
  apply (upholds_then U); [by apply (up_with_op _ _ _ (OArmAckTimer (il_d l) (CSeqNumber (rq_headers (il_req l)))))|]. intros _.
  apply (follows_bind _ (fun _ s => U s /\ relayed2xx (il_d l) tag (tab s) = Some out')); [|intros _; by apply follows_ret].
  intros s H. split; [by apply (up_with_op _ _ _ (OSetRelayed2xx (il_d l) (Some out')))|].
  rewrite (proj1 (table__at _ s)). apply stored_2xx, H.
Qed.

(** What goes out for a 2xx that is not relayed. *)
Definition teardown_of (l : inviteLeg) (res : response) (method branch : gostring) (seq : Z) : request :=
  TeardownRequest method res (HVia (side_via (il_far l) branch)) seq (Some (isSelf (sv_topo sv))) (Some (sd_laddr (il_far l))).

(** This branch of the callee has not been refused before. *)
Definition first_refusal (d : nat) (tag : gostring) (t : dialogTable) : bool :=
  match t_heap t !! d with Some x => negb (bool_decide (tag ∈ d_rejected x)) | None => false end.

Definition torn_down (l : inviteLeg) (res : response) (s s' : st) : Prop :=
  let d := il_d l in let tag := ToTag (rs_headers res) in let seq := CSeqNumber (rs_headers res) in
  sent s' = sent s /\ (is_Some (t_heap (tab s) !! d) -> isRejected tag d (tab s') = true) /\
  exists b b', let ack := teardown_of l res (str "ACK") b seq in
   is_wire s' = is_wire s ++
    (if write_ok ack then
       WAck ack :: (if first_refusal d tag (tab s) then [WBye (teardown_of l res (str "BYE") b' (wrap_uint 32 (seq + 1)))] else [])
     else []).

Lemma reject_first d tag t : (reject d tag t).1 = first_refusal d tag t.
Proof. unfold reject, first_refusal. destruct (t_heap t !! d) as [x|]; [|done]. by case_bool_decide. Qed.
Lemma reject_rejects d tag t : is_Some (t_heap t !! d) -> isRejected tag d (reject d tag t).2 = true.
Proof.
  intros [x E]. unfold reject, isRejected, get. rewrite E. case_bool_decide as I; cbn [snd].
  - rewrite E. by apply bool_decide_eq_true_2.
  - unfold upd. rewrite E. cbn. rewrite lookup_insert_eq. cbn. apply bool_decide_eq_true_2. set_solver.
Qed.
Lemma ack_goes res from (s : st) : exists b, let ack := TeardownRequest (str "ACK") res (HVia (side_via from b)) (CSeqNumber (rs_headers res))
    (Some (isSelf (sv_topo sv))) (Some (sd_laddr from)) in
  (ack2xx NewBranch write_ok sv res from s).1 = write_ok ack /\ tab (ack2xx NewBranch write_ok sv res from s).2 = tab s /\
  is_wire (ack2xx NewBranch write_ok sv res from s).2 = is_wire s ++ (if write_ok ack then [WAck ack] else []).
Proof.
  unfold ack2xx, teardown, newBranch, mbind, flow_bind, mret, flow_ret. destruct (NewBranch _) as [b r]. exists b. cbn.
  destruct (write_ok _); cbn; by rewrite ?app_nil_r.
Qed.

Lemma refuse2xx_state d far res (s : st) : let tag := ToTag (rs_headers res) in let s1 := (table (reject d tag) s).2 in
  (refuse2xx d far res s).2 = if first_refusal d tag (tab s) then (ackThenBye NewBranch write_ok sv res far s1).2 else (ack2xx NewBranch write_ok sv res far s1).2.
Proof.
  intros tag s1. unfold InviteFlow.refuse2xx, mbind, flow_bind. rewrite <- reject_first, <- (proj1 (table_at (reject d tag) s)). unfold s1, tag.
  destruct (table _ s) as [[] s']; [done|]. cbn [fst snd]. by destruct (ack2xx _ _ _ _ _ s').
Qed.

Lemma refused_is_torn_down l res (s : st) : torn_down l res s (refuse2xx (il_d l) (il_far l) res s).2.
Proof.
  set (d := il_d l). set (tag := ToTag (rs_headers res)). split; [by apply (up_refuse2xx (fun s' => sent s' = sent s))|].
  rewrite refuse2xx_state. destruct (table_at (reject d tag) s) as (_ & T & W). pose proof (reject_rejects d tag (tab s)) as Rj.
  fold tag d. rewrite <- T in Rj. rewrite <- W. set (s1 := (table (reject d tag) s).2) in *.
  destruct (ack_goes res (il_far l) s1) as (b & A & T1 & W1). destruct (first_refusal d tag (tab s)).
  - unfold ackThenBye, mbind at 1 3, flow_bind at 1 3. destruct (ack2xx _ _ _ _ _ s1) as [ok s2]. cbn [fst snd] in *. subst ok.
    destruct (write_ok _) eqn:Ok.
    + unfold teardown, newBranch, emit, change, mbind, flow_bind, mret, flow_ret. destruct (NewBranch _) as [b' r']. cbn.
      split; [unfold tab in *; cbn; by rewrite T1|]. exists b, b'. unfold teardown_of. by rewrite Ok, W1, <- app_assoc.
    + split; [cbn; by rewrite T1|]. exists b, b. unfold teardown_of. by rewrite Ok.
  - rewrite T1. split; [done|]. exists b, b. unfold teardown_of. rewrite W1. by destruct (write_ok _).
Qed.

(** Since [ws] nothing went out but CANCELs. *)
Definition only_cancels (ws : list wire) (s : st) : Prop := exists cs, is_wire s = ws ++ cs /\ forallb cancelling cs = true.
#[local] Instance only_cancels_hush V ws : Hush V cancelling (only_cancels ws).
Proof.
  constructor; try done. intros s w F (cs & W & C). exists (cs ++ [w]). cbn. rewrite W, forallb_app, C. cbn. by rewrite F, app_assoc.
Qed.

(** C5: No call is left half up.  A 2xx of the callee is relayed only once the
    call's record is confirmed with that callee and holds the answer its
    retransmissions get, and then nothing follows it.  One that cannot be
    anchored, comes when the call is cancelled or its budget is spent, or comes
    late for a branch the call is not up with, does not reach the caller: its
    branch is marked refused (while the call has a record) and it is completed
    with an ACK, followed by a BYE exactly when the branch was not refused before (if the ACK cannot be
    written, neither goes out); a late one of the branch the call is up with
    gets the answer relayed before, and one of a branch still early nothing. *)
Theorem answers_are_confirmed_or_torn_down now l h s : is_2xx (h_res h) = true ->
  let d := il_d l in let res := h_res h in let tag := ToTag (rs_headers res) in
  (let '(r, s') := relay now l h s in
   match r with
   | relayedOK => exists out, sent s' = sent s ++ [WRelay out] /\ (exists ws, is_wire s' = ws ++ [WRelay out]) /\
       confirmed d tag (tab s') /\ relayed2xx d tag (tab s') = Some out
   | relayFailed => exists out mid, relayResponseHide Value NetworkToLower ToLower (sv_topo sv) (il_req l) res (il_resp l) = Some out /\
       adapt now l h out s = (None, mid) /\ only_cancels (is_wire s) mid /\ torn_down l res mid s'
   | relayDropped => s' = s
   end) /\
  (forall rest, let mid := (env_steps d (h_before h) s).2 in is_ctx mid <> ctxLive \/ wasCancelled d (tab mid) = true ->
     only_cancels (is_wire s) mid /\ torn_down l res mid (pump_step now l h rest s).2) /\
  (let s' := (onLate2xx NewBranch write_ok sv d (m_source (rq_msg (il_req l))) (il_far l) res s).2 in
   match is_hooked d (tab s), relayed2xx d tag (tab s) with
   | true, Some ok => is_wire s' = is_wire s ++ [WAgain (mkResponse (rs_status ok) (SetDestination (m_source (rq_msg (il_req l))) (rs_msg ok)))]
   | true, None => if get false is_early d (tab s) && negb (isRejected tag d (tab s)) then s' = s else torn_down l res s s'
   | false, _ => torn_down l res s s'
   end).
Proof.
  intros T d res tag. assert (only_cancels (is_wire s) s) as C0 by (exists []; by rewrite app_nil_r). split; [|split].
  - unfold InviteFlow.relayInviteResponse. fold res. destruct (relayResponseHide _ _ _ _ _ _) as [out|]; [|done].
    pose proof (adapt_confirms (sent s) now l h out T s eq_refl) as A. pose proof (up_adapt (only_cancels (is_wire s)) now l h out s C0) as Cs.
    unfold mbind at 1, flow_bind at 1. destruct (adapt now l h out s) as [[out'|] s1] eqn:Ea; cbn [fst snd] in A.
    + destruct A as [[S C] Rl]. cbn. exists out'. unfold sent in *. cbn. rewrite List.filter_app, S. cbn. split_and!; [done|by eexists|done..].
    + fold res in T. rewrite T. pose proof (refused_is_torn_down l res s1) as TD.
      unfold mbind, flow_bind. destruct (refuse2xx _ _ _ s1) as [u s2]. by exists out, s1.
  - intros rest mid Ov. split; [by apply (up_env_steps (only_cancels (is_wire s)))|]. unfold InviteFlow.pump_step, mbind at 1, flow_bind at 1.
    unfold mid in *. destruct (env_steps _ _ s) as [u s1]. cbn [snd] in *.
    assert (negb (bool_decide (is_ctx s1 = ctxLive)) || wasCancelled d (tab s1) = true) as E.
    { destruct Ov as [Ov|Ov]; [by rewrite (bool_decide_eq_false_2 _ Ov)|by rewrite Ov, orb_true_r]. }
    unfold mbind at 1 2, flow_bind at 1 2. cbn -[refuse2xx is_2xx wasCancelled]. fold d. change (as_tab (is_anchor s1)) with (tab s1). rewrite E.
    fold res in T |- *. rewrite T. pose proof (refused_is_torn_down l res s1) as TD.
    unfold mbind, flow_bind. fold d in TD. destruct (refuse2xx _ _ _ s1) as [u2 s2]. exact TD.
  - unfold onLate2xx. unfold mbind, flow_bind. cbn -[refuse2xx]. fold res tag d. change (as_tab (is_anchor s)) with (tab s).
    pose proof (refused_is_torn_down l res s) as TD. destruct (is_hooked d (tab s)); [|exact TD].
    destruct (relayed2xx d tag (tab s)); [done|]. by destruct (_ && _).
Qed.

(** ** No second node once one was heard *)

(** *** What no response can disturb *)

Section Replies.
Context (I : st -> Prop) `{QI : !Hush moved uninviting I}.

Lemma up_relay now l h : upholds I (relay now l h).
Proof. pose proof (up_emit moved uninviting I) as E. unfold InviteFlow.relayInviteResponse. stay. Qed.
Lemma up_over l b : upholds I (pump_over l b).
Proof. unfold pump_over. stay. Qed.
#[local] Hint Resolve up_relay up_over : invite.
Lemma up_pump_step now l h rest : upholds I (pump_step now l h rest).
Proof. pose proof (up_emit moved uninviting I) as E. unfold InviteFlow.pump_step, rejectInvite. stay. Qed.
#[local] Hint Resolve up_pump_step : invite.
Lemma up_pieces now l hs rest : upholds I (pump_pieces now l hs rest).
Proof. induction hs as [|h hs IH]; cbn; stay. Qed.
#[local] Hint Resolve up_pieces : invite.
Lemma up_pump now l b script : upholds I (pump now l b script).
Proof. revert b. induction script as [|[e|ahead h| |] script IH]; intros b; cbn [InviteFlow.pump]; stay. Qed.
Lemma up_giveUp d code : upholds I (giveUp d code).
Proof. pose proof (up_emit moved uninviting I) as E. unfold giveUp, rejectInvite, reject_. stay. Qed.
End Replies.
#[local] Hint Resolve up_pump up_giveUp : invite.

(** [dialed ws]: since [ws] only INVITEs and CANCELs went out.  [ended ws]: no
    INVITE followed anything else. *)
Definition dialing (w : wire) : bool := match w with WInvite _ _ | WCancel _ => true | _ => false end.
Definition dialed (ws : list wire) (s : st) : Prop := exists mid, is_wire s = ws ++ mid /\ forallb dialing mid = true.
Definition ended (ws : list wire) (s : st) : Prop := exists pre post,
  is_wire s = ws ++ pre ++ post /\ forallb dialing pre = true /\ forallb uninviting post = true.
Definition over (s : st) : Prop := is_ctx s <> ctxLive.
(** [dialed], unless the series is over. *)
Definition unheard (ws : list wire) (s : st) : Prop := ended ws s /\ (over s \/ dialed ws s).

Lemma dialed_emit ws w : dialing w = true -> upholds (dialed ws) (emit w).
Proof. intros Dw s (mid & W & F). exists (mid ++ [w]). cbn. rewrite W, forallb_app, F, app_assoc. cbn. by rewrite Dw. Qed.
Lemma dialed_ended ws s : dialed ws s -> ended ws s.
Proof. intros (mid & W & F). exists mid, []. by rewrite app_nil_r. Qed.
Lemma dialed_unheard ws s : dialed ws s -> unheard ws s.
Proof. intros H. split; [by apply dialed_ended|by right]. Qed.

#[local] Instance over_hush q : Hush (grown anyOp) q over.
Proof. by constructor. Qed.
#[local] Instance ended_hush ws : Hush (grown anyOp) uninviting (ended ws).
Proof.
  constructor; try done. intros s w U (pre & post & W & F & G). exists pre, (post ++ [w]). cbn. rewrite W, forallb_app, G, !app_assoc. cbn. by rewrite U.
Qed.
#[local] Instance dialed_hush ws : Hush (grown anyOp) cancelling (dialed ws).
Proof. constructor; try done. intros s w C. apply dialed_emit. by destruct w. Qed.
#[local] Instance unheard_hush ws : Hush (grown anyOp) cancelling (unheard ws).
Proof. apply quiet_and; [apply _|]. apply quiet_or; apply _. Qed.

Lemma deadline_over ws l : follows (unheard ws) (env_step (il_d l) EDeadline) (fun _ s => ended ws s /\ over s).
Proof.
  intros s [E O]. unfold InviteFlow.env_step, cancel_ctx, change, over in *. cbn. case_bool_decide as C; [by split|done].
Qed.

(** Nothing assumed, nothing kept: what a result says by itself. *)
Definition anyhow (s : st) : Prop := True.
Lemma anyhow_bind {A B} (m : flow A) (k : A -> flow B) Q : (forall a, follows anyhow (k a) Q) -> follows anyhow (m ≫= k) Q.
Proof. by apply follows_bind. Qed.
#[local] Ltac free := apply anyhow_bind; intros ?.

Lemma over_responded l b : follows anyhow (pump_over l b) (fun r _ => pr_responded r = b).
Proof. unfold pump_over. free. by apply follows_ret. Qed.
#[local] Abbreviation spoke := (fun (r : option pumpResult) (_ : st) => match r with Some r => pr_responded r = true | None => True end).
Lemma over_spoke l : follows anyhow (r ← pump_over l true; mret (Some r)) spoke.
Proof. eapply follows_bind; [apply over_responded|]. intros r. by apply follows_ret. Qed.
Lemma step_spoke now l h rest : follows anyhow (pump_step now l h rest) spoke.
Proof.
  unfold InviteFlow.pump_step. free. free. free. destruct (_ || _); [free; apply over_spoke|]. free. destruct a2.
  - apply follows_ret. by destruct (_ <=? _).
  - by apply follows_ret.
  - free. free. destruct a3; [apply over_spoke|]. free. free. by apply follows_ret.
Qed.
Lemma pieces_spoke now l hs rest : follows anyhow (pump_pieces now l hs rest) spoke.
Proof. induction hs as [|h hs IH]; [by apply follows_ret|]. cbn. eapply follows_bind; [apply step_spoke|]. intros [r|]; [by apply follows_ret|exact IH]. Qed.
Lemma pump_spoke now l script : follows anyhow (pump now l true script) (fun p _ => pr_responded p.1 = true).
Proof.
  assert (follows anyhow (r ← pump_over l true; mret (r, @nil stimulus)) (fun p _ => pr_responded p.1 = true)) as V.
  { eapply follows_bind; [apply over_responded|]. intros r. by apply follows_ret. }
  induction script as [|[e|ahead h| |] script IH]; cbn [InviteFlow.pump].
  - free. free. exact V.
  - free. exact IH.
  - destruct (negb _); [exact IH|]. eapply follows_bind; [apply pieces_spoke|]. intros [r|]; [by apply follows_ret|exact IH].
  - eapply follows_bind; [apply over_responded|]. intros r. by apply follows_ret.
  - free. destruct a; [|exact IH]. free. exact V.
Qed.

(** A pump that heard nothing leaves only CANCELs behind, or the series is over. *)
Definition silent (ws : list wire) (r : pumpResult) (s : st) : Prop :=
  ended ws s /\ (pr_responded r = false -> pr_final r = None /\ unheard ws s).

Lemma over_silent ws l b : follows (unheard ws) (pump_over l b) (silent ws).
Proof. intros s U. by split; [apply U|]. Qed.

Lemma pump_unheard ws now l script : follows (unheard ws) (pump now l false script) (fun p => silent ws p.1).
Proof.
  assert (forall rest, follows (fun s => ended ws s /\ over s) (_ ← abandonAttempt l rest; r ← pump_over l false; mret (r, @nil stimulus))
    (fun p => silent ws p.1)) as V.
  { intros rest. past. intros _. eapply follows_bind; [|intros r; by apply follows_ret].
    eapply follows_weaken; [apply (over_silent ws)|intros s [E O]; split; [done|by left]|done]. }
  induction script as [|[e|ahead h| |] script IH]; cbn [InviteFlow.pump].
  - eapply follows_bind; [apply deadline_over|]. intros ?. apply V.
  - past. intros _. exact IH.
  - destruct (negb _); [exact IH|]. intros s [E _]. split.
    + pose proof (up_pieces (ended ws) now l (pieces ahead h) script s E) as E1. unfold mbind, flow_bind. destruct (pump_pieces _ _ _ _ s) as [[r|] s1]; [done|].
      by apply (up_pump (ended ws)).
    + intros N. exfalso. revert N. unfold mbind, flow_bind. pose proof (pieces_spoke now l (pieces ahead h) script s I) as Sp.
      destruct (pump_pieces _ _ _ _ s) as [[r|] s1]; cbn in *; [congruence|]. by rewrite (pump_spoke now l script s1 I).
  - eapply follows_bind; [apply over_silent|]. intros r. by apply follows_ret.
  - apply (follows_bind _ (fun b s => unheard ws s /\ (b = true -> over s))).
    { intros s U. split; [done|]. unfold ctx_over, over. cbn. by case_bool_decide. }
    intros [].
    + eapply follows_weaken; [apply V| |done]. intros s [[E _] O]. split; [done|by apply O].
    + eapply follows_weaken; [exact IH|by intros s []|done].
Qed.

Lemma place_unheard ws now node l a dl : follows (dialed ws) (place now node l a dl) (silent ws).
Proof.
  pose proof (up_op anyOp cancelling (dialed ws) (OMarkSent a) (markSent a) eq_refl (fun _ => eq_refl)) as M. pose proof (dialed_emit ws) as De.
  unfold InviteFlow.place. past. intros _. past. intros _. past. intros cancelNow. past. intros _.
  eapply (follows_bind _ (fun p => silent ws p.1)).
  { eapply follows_weaken; [apply pump_unheard|by intros s; apply dialed_unheard|done]. }
  intros [r rest]. cbn [fst]. apply (follows_bind _ (fun _ => silent ws r)); [|intros _; by apply follows_ret].
  destruct (pr_final r) as [res|] eqn:Fi; [|by apply upholds_ret]. intros s [E N]. split; [destruct (is_2xx res); [by apply (up_late (ended ws))|done]|].
  intros S. destruct (N S). congruence.
Qed.

(** A node is dialed only while nothing was heard and the series is not over. *)
Lemma live_dialed ws : follows (unheard ws) ctx_over (fun b s => if b then ended ws s else dialed ws s).
Proof. intros s [E O]. unfold ctx_over. cbn. unfold over in O. case_bool_decide; cbn; [by destruct O|done]. Qed.

Lemma nodes_unheard ws now d forward mk cooldown order dials :
  follows (unheard ws) (try_nodes now d forward mk cooldown order dials) (fun _ => ended ws).
Proof.
  pose proof (up_set_cool (grown anyOp) cancelling (unheard ws)) as C. pose proof (up_set_cool (grown anyOp) cancelling (dialed ws)) as C'. pose proof (up_set_cool (grown anyOp) cancelling (ended ws)) as C''.
  pose proof (up_newBranch anyOp cancelling (dialed ws) NewBranch) as B.
  assert (forall code, follows (unheard ws) (giveUp d code : flow unit) (fun _ => ended ws)) as G.
  { intros code. eapply follows_up; [apply (up_giveUp (ended ws))|by intros s []|done]. }
  assert (forall code, follows (ended ws) (giveUp d code : flow unit) (fun _ => ended ws)) as G' by (intros code; apply (up_giveUp (ended ws))).
  revert dials. induction order as [|name order IH]; intros dials; cbn [InviteFlow.try_nodes]; [by apply G|].
  destruct (match dials with [] => _ | _ => _ end) as [dl rest]. past. intros _.
  eapply follows_bind; [apply live_dialed|]. intros []; [by apply G'|]. past. intros branch. destruct (forward name branch) as [out|].
  2: { eapply follows_up; [by apply (up_emit (grown anyOp) uninviting (ended ws))|intros s; apply dialed_ended|done]. }
  apply (upholds_then (dialed ws)); [by apply (up_op anyOp cancelling _ (OTrack d out))|].
  intros [a|]; [|by eapply follows_weaken; [apply G'|intros s; apply dialed_ended|]].
  past. intros _. destruct (negb (dl_opens dl)).
  - past. intros []; [by eapply follows_weaken; [apply G'|intros s; apply dialed_ended|]|]. past. intros _.
    eapply follows_weaken; [apply IH|intros s; apply dialed_unheard|done].
  - eapply follows_bind; [apply place_unheard|]. intros r. destruct (pr_final r) as [res|] eqn:Fi.
    { apply (follows_up (ended ws)); [apply C''|by intros s []|done]. }
    destruct (pr_finalised r); [by apply follows_ret; intros s []|]. destruct (pr_responded r) eqn:Re; cbn [orb].
    { eapply follows_weaken; [apply G'|by intros s []|done]. }
    apply (follows_weaken (unheard ws) _ _ (fun _ => ended ws)); [|by intros s [_ H]; apply H|done].
    destruct (dl_end dl); [apply G| |]; (past; intros []; [apply G|past; intros _; apply IH]).
Qed.

Section Series.
Context (now : Z) (cfg : callConfig) (req : request).

#[local] Abbreviation dialed_or ws := (fun (o : option _) s => match o with Some _ => dialed ws s | None => ended ws s end).

Lemma refused_ended {A} ws w : uninviting w = true -> follows (dialed ws) (_ ← emit w; mret (@None A)) (dialed_or ws).
Proof.
  intros U. apply (follows_bind _ (fun _ => ended ws)); [|intros _; by apply follows_ret].
  eapply follows_up; [by apply (up_emit (grown anyOp) uninviting (ended ws))|intros s; apply dialed_ended|done].
Qed.

Lemma begin_dialed ws plane carrierCall : follows (dialed ws) (beginDialog now cfg req plane carrierCall) (dialed_or ws).
Proof.
  unfold beginDialog. destruct (_ && _); [by apply refused_ended|]. set (lim := sessionLimit cfg).
  apply (upholds_then (dialed ws)).
  { by apply (up_op anyOp cancelling (dialed ws) (OBegin now (rq_headers req) plane lim) (begin_ now (rq_headers req) plane lim)). }
  intros [d| | |]; [|by apply refused_ended..]. destruct (if bool_decide _ then _ else _) as [rl|]; [|by apply follows_ret].
  apply (upholds_then (dialed ws)).
  { intros s H. destruct (allow _ _ _ _ _ _) as [ok l]. by apply (quiet_limiter (V:=grown anyOp) (q:=cancelling)). }
  intros []; [by apply follows_ret|]. apply (upholds_then (dialed ws)); [|intros ?; by apply refused_ended].
  apply (up_table anyOp cancelling (dialed ws)). intros t. by apply grows_end.
Qed.

Lemma offer_dialed ws d b : follows (dialed ws) (offer_of Unmarshal rand_read listen_ok sv req d b) (dialed_or ws).
Proof.
  unfold offer_of. destruct (beq _ _); [by apply follows_ret|]. apply (upholds_then (dialed ws)).
  { apply (up_anchoring anyOp cancelling (dialed ws)). intros t. apply grown_build; (assumption || apply _). }
  intros [o|e]; [by apply follows_ret|]. by apply refused_ended.
Qed.

(** C20: The switch's nodes are tried one at a time, and only while nobody has
    answered.  In everything a public client's or a carrier's INVITE puts on the
    wire, no INVITE to a node comes after anything but INVITEs and CANCELs:
    once a response was relayed, a 2xx completed or the caller answered, no
    further node is dialed. *)
Theorem no_node_is_dialed_after_an_answer s src carrier regs cooldown before beat dials :
  let s' := (inviteToUpstream now cfg req src carrier regs cooldown before beat dials s).2 in
  exists pre post, is_wire s' = is_wire s ++ pre ++ post /\
    Forall (fun w => match w with WInvite _ _ | WCancel _ => True | _ => False end) pre /\
    Forall (fun w => match w with WInvite _ _ => False | _ => True end) post.
Proof.
  set (ws := is_wire s). set (D := dialed ws : st -> Prop). set (E := ended ws : st -> Prop).
  assert (forall s', E s' -> exists pre post, is_wire s' = ws ++ pre ++ post /\
    Forall (fun w => match w with WInvite _ _ | WCancel _ => True | _ => False end) pre /\
    Forall (fun w => match w with WInvite _ _ => False | _ => True end) post) as W.
  { intros s' (pre & post & Ws & F & G). exists pre, post. split; [done|]. rewrite !Forall_forall. rewrite !forallb_forall in *.
    split; intros w Hw%list_elem_of_In; [specialize (F w Hw)|specialize (G w Hw)]; by destruct w. }
  apply W. clear W. enough (follows D (inviteToUpstream now cfg req src carrier regs cooldown before beat dials) (fun _ => E)) as H.
  { apply H. exists []. by rewrite app_nil_r. }
  assert (forall code why, follows D (rejectInvite code why : flow unit) (fun _ => E)) as Rj.
  { intros code why. eapply follows_up; [by apply (up_emit (grown anyOp) uninviting E)|intros s0; apply dialed_ended|done]. }
  unfold InviteFlow.inviteToUpstream. destruct (publicSideFor _ _ _) as [from|]; [|by apply Rj].
  apply (upholds_then D).
  { destruct (beq carrier []); [|stay]. intros s0 H. unfold admitEarly. by destruct (_ <=? _). }
  intros []; [|by apply Rj]. cbn [negb]. apply (follows_bind _ (fun _ => E)).
  2: { intros _. destruct (beq carrier []); [by intros s0|by apply upholds_ret]. }
  unfold in_call. apply (upholds_then D); [by intros s0|]. intros _. eapply follows_bind; [apply begin_dialed|].
  intros [d|]; [|by apply follows_ret]. apply (follows_bind _ (fun _ => E)).
  2: { intros _. apply (up_table anyOp uninviting E). intros t. apply (grows_any noBridge), grows_endUnlessUp. }
  apply (upholds_then D).
  { destruct (beq carrier []); [stay|]. by apply (up_op anyOp cancelling D (OSetCarrier d carrier)). }
  intros _. apply (upholds_then D); [by apply (up_op anyOp cancelling D (OSetSRTP d (legSRTPPolicy (cc_srtp cfg) carrier (sd_transport from))))|].
  intros _. eapply follows_bind; [apply offer_dialed|]. intros [offer|]; [|by apply follows_ret].
  past. intros _. destruct beat; [apply follows_ret; intros s0; apply dialed_ended|]. past. intros cool.
  apply (follows_bind _ (fun _ => E)); [eapply follows_weaken; [apply nodes_unheard|intros s0; apply dialed_unheard|done]|].
  intros _. by apply (up_op anyOp uninviting E (OUntrack d)).
Qed.
End Series.

(** ** The media of a call that comes to nothing *)

Section Whole.
Context (I : st -> Prop) `{QI : !Hush moved everything I}.

Lemma up_place now node l a dl : upholds I (place now node l a dl).
Proof.
  pose proof (up_emit moved everything I) as E. pose proof (mv_op everything I (OMarkSent a) (markSent a) eq_refl (fun _ => eq_refl)) as M.
  unfold InviteFlow.place. stay.
Qed.
#[local] Hint Resolve up_place : invite.
Lemma up_reject code why : upholds I (rejectInvite code why).
Proof. by apply (up_emit moved everything I). Qed.
#[local] Hint Resolve up_reject : invite.
Lemma up_try_nodes now d forward mk cooldown order dials : upholds I (try_nodes now d forward mk cooldown order dials).
Proof.
  pose proof (mv_newBranch everything I NewBranch) as B. pose proof (up_set_cool moved everything I) as C.
  assert (forall out, upholds I (table (track d out))) as T by (intros out; by apply (mv_op everything I (OTrack d out))).
  revert dials. induction order as [|name order IH]; intros dials; cbn [InviteFlow.try_nodes]; stay.
Qed.
Lemma up_single_attempt now d dest mk out code dl : upholds I (single_attempt now d dest mk out code dl).
Proof.
  pose proof (mv_op everything I (OTrack d out) (track d out) eq_refl (fun _ => eq_refl)) as T.
  assert (upholds I (table_ (untrack d))) as U by (by apply (mv_op everything I (OUntrack d))).
  unfold InviteFlow.single_attempt. stay.
Qed.
End Whole.

Section Media.
Context (pub_ok : params_ok (sv_pub sv)) (priv_ok : params_ok (sv_priv sv)).

(** The invariant of the media sessions, of a state of the handlers. *)
Definition sound (s : st) : Prop := ok [] None (is_anchor s).

Lemma moved_ok a a' : moved a a' -> ok [] None a -> ok [] None a'.
Proof.
  induction 1 as [|b e _ IH|b r _ IH]; intros K; [done| |by apply ok_rnd, IH].
  apply (handle_ok Unmarshal rand_read newContext KeyLen SaltLen unprotectRTP unprotectRTCP protectRTP protectRTCP write_udp write_leg listen_ok Value sv
    pub_ok priv_ok e b), IH, K.
Qed.
#[local] Instance sound_hush q : Hush moved q sound.
Proof. constructor; try done. intros s a M. by apply (moved_ok _ _ M). Qed.

(** The record a handler opened has come to something, or is gone. *)
Definition resolved (d : nat) (t : dialogTable) : Prop := forall x, t_heap t !! d = Some x -> is_early x = false.

Lemma end_resolves d r t : resolved d (end_ d r t).2.
Proof.
  intros x. unfold end_. destruct (end_cases d r t) as [[-> H]|(x0 & z & t' & E0 & _ & -> & S & _ & _ & _ & _ & _ & Hh & _)].
  - intros E. specialize (H x E). unfold live, is_ended, is_early in *. by destruct (d_state x).
  - destruct (end_rest_heap (mkEnding d r (is_confirmed x0) (d_media x0)) t') as [-> _]. unfold release_hook, upd. cbn.
    rewrite Hh, lookup_insert_eq. cbn. rewrite lookup_insert_eq. intros [= <-]. unfold is_early. cbn. by rewrite S.
Qed.
Lemma endUnlessUp_resolves d t : resolved d (endUnlessUp d t).
Proof.
  unfold endUnlessUp. destruct (t_heap t !! d) as [y|] eqn:E; [|intros x; congruence].
  destruct (is_early y) eqn:L; [apply end_resolves|intros x; congruence].
Qed.

(** A new record has no session yet. *)
Definition fresh_call (d : nat) (s : st) : Prop := unattached d (is_anchor s).

Lemma anchoring_at {A} (m : @anchor SP R Ctx A) s : is_anchor (anchoring m s).2 = (m (is_anchor s)).2 /\ (anchoring m s).1 = (m (is_anchor s)).1.
Proof. unfold anchoring. by destruct (m (is_anchor s)). Qed.
Lemma table_anchor {A} (g : dialogTable -> A * dialogTable) (s : st) : is_anchor (table g s).2 = (tabling g (is_anchor s)).2.
Proof. unfold table, tabling. by destruct (g (as_tab (is_anchor s))). Qed.

Section Call.
Context (now : Z) (cfg : callConfig) (req : request).

Lemma begin_sound d0 plane carrierCall : follows (fun s : st => t_nextId (tab s) = d0 /\ sound s)
  (beginDialog now cfg req plane carrierCall)
  (fun o s => match o with Some d => d = d0 /\ fresh_call d s | None => sound s /\ resolved d0 (tab s) end).
Proof.
  set (P := fun s : st => t_nextId (tab s) = d0 /\ sound s). set (N := fun s : st => sound s /\ resolved d0 (tab s)).
  assert (forall s : st, t_nextId (tab s) = d0 -> sound s -> resolved d0 (tab s)) as New.
  { intros s <- K x E. destruct (Nat.lt_irrefl _ (I_fresh _ (ok_tab _ _ _ K) (t_nextId (tab s)) (ex_intro _ x E))). }
  assert (forall w, follows N (_ ← emit w; mret (@None nat)) (fun o s => match o with Some d => d = d0 /\ fresh_call d s | None => N s end)) as Rj by (by intros w s H).
  unfold beginDialog. destruct (_ && _).
  { eapply follows_weaken; [apply Rj|intros s [D K]; split; [done|by apply New]|done]. }
  apply (follows_bind _ (fun r s => match r with beginOK d => d = d0 /\ fresh_call d s | _ => N s end)).
  { intros s [D K]. set (lim := sessionLimit cfg). destruct (table_at (begin_ now (rq_headers req) plane lim) s) as (Rs & T & _).
    assert (sound (table (begin_ now (rq_headers req) plane lim) s).2) as K'.
    { unfold sound. rewrite table_anchor. by apply keeps_begin. }
    rewrite Rs. destruct (begin_cases now (rq_headers req) plane lim (tab s)) as [(r & B & No)|(t' & B & _ & _ & _ & Et)]; rewrite B in *; cbn [fst snd] in *.
    - assert (N (table (begin_ now (rq_headers req) plane lim) s).2) as H by (split; [done|rewrite T; by apply New]).
      destruct r; try done. exfalso. by eapply No.
    - split; [done|]. split; [done|]. change (session (t_nextId (tab s)) (tab (table (begin_ now (rq_headers req) plane lim) s).2) = None).
      rewrite T, Et. unfold session, get. cbn. by rewrite lookup_insert_eq. }
  intros [d| | |]; try apply Rj. apply follows_pure. intros ->. set (F := fresh_call d0).
  destruct (if bool_decide _ then _ else _) as [rl|]; [|by apply follows_ret].
  apply (upholds_then F); [intros s H; by destruct (allow _ _ _ _ _ _)|]. intros []; [by apply follows_ret|].
  apply (follows_bind _ (fun _ => N)); [|intros _; apply Rj]. intros s [K _].
  split; [by apply (mv_end everything sound)|]. destruct (table_at (end_ d0 endShutdown) s) as (_ & -> & _).
  apply end_resolves.
Qed.

Lemma fresh_op d o : life o = false -> upholds (fresh_call d) (table_ (step o)).
Proof.
  intros L s H. unfold fresh_call, table_. rewrite table_anchor. by apply (unattached_op d o L).
Qed.

Lemma offer_sound d b : follows (fresh_call d) (offer_of Unmarshal rand_read listen_ok sv req d b) (fun _ => sound).
Proof.
  unfold offer_of. destruct (beq _ _); [apply follows_ret; by intros s []|]. apply (follows_bind _ (fun _ => sound)).
  { intros s H. unfold sound. rewrite (proj1 (anchoring_at _ s)).
    pose proof (build_offerless_ok Unmarshal rand_read newContext listen_ok sv pub_ok priv_ok d b (m_body (rq_msg req)) (is_anchor s) H) as T.
    by destruct (build_offerless _ _ _ _ _ _ _ _) as [[o|e] a]. }
  intros [o|e]; [by apply follows_ret|]. by intros s H.
Qed.

Lemma call_sound d0 plane carrierCall body : (forall d, follows (fresh_call d) (body d) (fun _ => sound)) ->
  follows (fun s : st => t_nextId (tab s) = d0 /\ sound s) (in_call now cfg req plane carrierCall body) (fun _ s => sound s /\ resolved d0 (tab s)).
Proof.
  intros B. unfold in_call. apply (upholds_then (fun s : st => t_nextId (tab s) = d0 /\ sound s)); [by intros s|]. intros _.
  eapply follows_bind; [apply begin_sound|]. intros [d|]; [|by apply follows_ret]. apply follows_pure. intros ->.
  eapply follows_bind; [apply B|]. intros ? s K. split; [by apply (mv_endUnlessUp everything sound)|].
  rewrite (proj1 (table__at _ s)). apply endUnlessUp_resolves.
Qed.

(** [t0]: the table a refusal leaves as it was. *)
Lemma upstream_sound t0 src carrier regs cooldown before beat dials :
  follows (fun s : st => tab s = t0 /\ sound s) (inviteToUpstream now cfg req src carrier regs cooldown before beat dials)
    (fun _ s => sound s /\ (resolved (t_nextId t0) (tab s) \/ tab s = t0)).
Proof.
  unfold InviteFlow.inviteToUpstream. set (P := fun s : st => tab s = t0 /\ sound s).
  assert (forall code why, follows P (rejectInvite code why : flow unit) (fun _ s => sound s /\ (resolved (t_nextId t0) (tab s) \/ tab s = t0))) as Rj.
  { intros code why s [T K]. split; [exact K|right; exact T]. }
  destruct (publicSideFor _ _ _) as [from|]; [|apply Rj].
  apply (upholds_then P); [destruct (beq carrier []); [|stay]; intros s H; unfold admitEarly; by destruct (_ <=? _)|].
  intros []; [|apply Rj]. cbn [negb]. apply (follows_weaken (fun s : st => t_nextId (tab s) = t_nextId t0 /\ sound s) _ _
    (fun _ s => sound s /\ resolved (t_nextId t0) (tab s))); [|intros s [-> K]; by split|intros ? s [K Rs]; split; [done|by left]].
  eapply follows_bind.
  2: { intros ?. destruct (beq carrier []); [intros s2 H; exact H|apply upholds_ret]. }
  apply call_sound. intros d. apply (upholds_then (fresh_call d)).
  { destruct (beq carrier []); [apply upholds_ret|]. by apply (fresh_op d (OSetCarrier d carrier)). }
  intros _. apply (upholds_then (fresh_call d)); [by apply (fresh_op d (OSetSRTP d (legSRTPPolicy (cc_srtp cfg) carrier (sd_transport from))))|].
  intros _. eapply follows_bind; [apply offer_sound|]. intros [offer|]; [|by apply follows_ret].
  pose proof (up_try_nodes sound) as T. assert (upholds sound (table_ (untrack d))) as U by (by apply (mv_op everything sound (OUntrack d))).
  past. intros _. destruct beat; [by apply follows_ret|]. past. intros cool. past. intros _. exact U.
Qed.

Lemma switch_sound d0 carrierCall carrier to dest transport browser srtp forward contact src callee code before beat dl :
  follows (fun s : st => t_nextId (tab s) = d0 /\ sound s)
    (from_switch now cfg req carrierCall carrier to dest transport browser srtp forward contact src callee code before beat dl)
    (fun _ s => sound s /\ resolved d0 (tab s)).
Proof.
  unfold InviteFlow.from_switch. apply call_sound. intros d. apply (upholds_then (fresh_call d)).
  { destruct (beq carrier []); [apply upholds_ret|]. by apply (fresh_op d (OSetCarrier d carrier)). }
  intros _. apply (upholds_then (fresh_call d)); [by apply (fresh_op d (OSetSRTP d srtp))|].
  intros _. eapply follows_bind; [apply offer_sound|]. intros [offer|]; [|by apply follows_ret].
  pose proof (up_single_attempt sound) as T. pose proof (mv_newBranch everything sound NewBranch) as B. pose proof (up_reject sound) as Rj.
  past. intros branch. destruct (forward branch) as [out|]; [|apply Rj]. past. intros _. destruct beat; [by apply follows_ret|apply T].
Qed.

(** C21: A call that comes to nothing keeps nothing.  From a state whose ports in
    use are exactly those of the open sessions of live calls (the invariant
    [ok]), each handler of an INVITE ends in such a state, whatever was sent,
    answered, cancelled or shut down meanwhile; and by the time it returns the
    record it opened is a confirmed call's, or its ports are given back. *)
Theorem failed_calls_keep_nothing s before beat : ok [] None (is_anchor s) -> let d := t_nextId (as_tab (is_anchor s)) in
  let clean s' := ok [] None (is_anchor s') /\
    (forall x, t_heap (as_tab (is_anchor s')) !! d = Some x -> is_confirmed x = true \/
       forall i m p, d_media x = Some i -> as_media (is_anchor s') !! i = Some m -> AnchorSafety.holds m p = None) in
  (forall src carrier regs cooldown dials, clean (inviteToUpstream now cfg req src carrier regs cooldown before beat dials s).2) /\
  (forall loc dl, clean (inviteToClient now cfg req loc before beat dl s).2) /\
  (forall snap byName carrier dl, clean (inviteToCarrier now cfg req snap byName carrier before beat dl s).2).
Proof.
  intros K d clean.
  assert (forall s', sound s' -> resolved d (tab s') \/ tab s' = tab s -> clean s') as Cl.
  { intros s' K' Rs. split; [done|]. intros x E. destruct (is_confirmed x) eqn:C; [by left|right]. intros i m p M Em.
    assert (live x = false) as L.
    { destruct Rs as [Rs|T]; [specialize (Rs x E); unfold live, is_ended, is_early, is_confirmed in *; by destruct (d_state x)|].
      unfold tab in T. rewrite T in E. destruct (Nat.lt_irrefl _ (I_fresh _ (ok_tab _ _ _ K) d (ex_intro _ x E))). }
    destruct (AnchorSafety.holds m p) as [z|] eqn:Hz; [exfalso|done].
    destruct (I_media _ (ok_tab _ _ _ K') d x i E L M) as [Cm|(e & Pe & _)]; [|rewrite (ok_pending _ _ _ K') in Pe; by apply elem_of_nil in Pe].
    destruct (ok_closed _ _ _ K' i m Em Cm) as [D|D]; [|by apply elem_of_nil in D].
    destruct (ok_wf _ _ _ K' i m Em) as [_ W]. by rewrite (W D) in Hz. }
  assert (forall code why, clean ((rejectInvite code why : flow unit) s).2) as Rj by (intros; apply Cl; [exact K|by right]).
  split; [|split]; intros.
  - destruct (upstream_sound (tab s) src carrier regs cooldown before beat dials s) as [K' Rs]; [by split|by apply Cl].
  - unfold InviteFlow.inviteToClient. destruct (bindingForRequest _ _ _ _) as [b|]; [|apply Rj].
    destruct (publicSide _ _) as [to|]; [|apply Rj]. cbv zeta. destruct (_ && _); [apply Rj|].
    match goal with |- clean (?m s).2 => assert (sound (m s).2 /\ resolved d (tab (m s).2)) as [K' Rs] by (by apply switch_sound) end.
    apply Cl; [done|by left].
  - unfold InviteFlow.inviteToCarrier. destruct (carrierDest _ _) as [dest|]; [|apply Rj]. destruct (carrierSide _ _ _) as [to|]; [|apply Rj].
    match goal with |- clean (?m s).2 => assert (sound (m s).2 /\ resolved d (tab (m s).2)) as [K' Rs] by (by apply switch_sound) end.
    apply Cl; [done|by left].
Qed.
End Call.
End Media.

Context `{SHL : !SipHeadersLaws}.

Lemma stripped m : m_body (stripBody m) = [].
Proof. unfold stripBody. cbn. apply set_body. Qed.

(** C6: The far end's SDP never reaches the caller.  Whatever a response carries,
    the body of what the caller is given for it is empty or the answer the
    proxy itself wrote for that callee branch. *)
Theorem far_sdp_never_passes now l h s s' : relay now l h s = (relayedOK, s') ->
  exists out, sent s' = sent s ++ [WRelay out] /\
   (body_of out = [] \/ exists a, MediaAnchor.forkAnswer Unmarshal rand_read newContext listen_ok Value sv now l (h_res h)
                                  (is_anchor (note_fork now l (h_res h) s).2) = (inl (Some (body_of out)), a)).
Proof.
  unfold InviteFlow.relayInviteResponse. destruct (relayResponseHide _ _ _ _ _ _) as [o|] eqn:E; [|done].
  apply relayResponse_spec in E as (_ & _ & Bo & _). pose proof (up_adapt (fun s' => sent s' = sent s) now l h o s eq_refl) as S.
  unfold mbind at 1, flow_bind at 1. destruct (adapt now l h o s) as [[out|] s1] eqn:A.
  2: { unfold mbind, flow_bind. destruct (_ s1) as [u s2]. done. }
  intros [= <-]. exists out. split; [unfold sent in *; cbn; rewrite List.filter_app; cbn in *; by rewrite S|].
  set (Q := fun b : gostring => b = [] \/ exists a, MediaAnchor.forkAnswer Unmarshal rand_read newContext listen_ok Value sv now l (h_res h)
                                  (is_anchor (note_fork now l (h_res h) s).2) = (inl (Some b), a)). change (Q (body_of out)).
  assert (H : forall o1 s2, caller_body now l (h_res h) (caller_headers sv l (h_res h) o) (note_fork now l (h_res h) s).2 = (inl o1, s2) -> Q (body_of o1)).
  { intros o1 s2. assert (body_of (caller_headers sv l (h_res h) o) = body_of (h_res h)) as Bc by (unfold body_of, caller_headers in *; by destruct (_ && _)).
    unfold InviteFlow.caller_body. destruct (beq (body_of (h_res h)) [] && _) eqn:Em.
    - intros [= <- <-]. left. rewrite Bc. apply andb_true_iff in Em as [Em _]. by apply bool_decide_eq_true_1 in Em.
    - unfold mbind, flow_bind, anchoring. unfold Q. destruct (MediaAnchor.forkAnswer _ _ _ _ _ _ _ _ _ _) as [[[b|]|e] a]; [..|done]; intros [= <- <-].
      + right. exists a. unfold body_of, on_msg, SetSDPBody. cbn. by rewrite (proj1 (set_body _ _)).
      + left. destruct (beq (body_of (caller_headers sv l (h_res h) o)) []) eqn:Z; [by apply bool_decide_eq_true_1 in Z|apply stripped]. }
  revert A. unfold InviteFlow.adapt, mbind at 1, flow_bind at 1. destruct (note_fork _ _ _ s) as [u0 s0]. unfold mbind at 1, flow_bind at 1. cbn [snd] in H.
  destruct (caller_body _ _ _ _ s0) as [[o1|e] s2]; [|done]. specialize (H o1 s2 eq_refl). destruct (negb _); [by intros [= <- _]|].
  unfold mbind, flow_bind. destruct (env_steps _ _ s2) as [u1 s3]. destruct (commit_call _ _ _ s3) as [ok s4]. destruct (negb ok); [done|].
  destruct (table_ _ s4) as [u2 s5]. destruct (table_ _ s5) as [u3 s6]. destruct (table_ _ s6) as [u4 s7]. by intros [= <- _].
Qed.
End Placing.
