(* ===== verification/InviteDemo.v ===== *)
(** A phone's call to the switch, placed: the first node does not answer, the
    second rings and picks up. *)

From S2P Require Import Prelude GoTime GoText Netip PortPool Latch MediaSession SdpCodec SdpCrypto SdpParse SdpBuild Topology EdgeSdes SipMsg SipRequest.
From S2P Require Import SipAddr Config RateLimit Location Carriers Cooldown Forward Hide CarrierRoute WebRtcLeg WebRtcSession.
From S2P Require Import RegisterText Dialog DialogInv DialogSafety MediaAnchor AnchorSafety AnchorRun AnchorBody AnchorDemo Subs AckMiss InviteFlow InviteLogic InviteSafety.
From S2P Require Admission.

Open Scope Z_scope.

#[local] Existing Instance ListImpl.list_params.
#[local] Existing Instance ListImpl.list_headers.
#[local] Existing Instance ListImpl.list_headers_laws.

Definition placed_uri : Uri := mkUri (str "bob") (str "203.0.113.5") 0 None false.
Definition placed_from : header := HFrom (mkNameAddr placed_uri (Some [(str "tag", str "x")])).

Definition placed_invite : request :=
  mkRequest (str "INVITE") placed_uri (str "SIP/2.0") None
    (mkMsg [HVia demo_via; HRoute (mkUri [] (str "203.0.113.5") 16060 None false); placed_from;
            HTo (mkNameAddr placed_uri None); HCallID (str "c"); HCSeq 1 (str "INVITE"); HMaxForwards 70;
            HContact (mkNameAddr placed_uri None)]
       demo_call_offer (str "UDP") [] (str "198.51.100.9:40000")).

(** A node's response, with the Via of attempt [n]. *)
Definition placed_branch (r : unit) : gostring * unit := (str "z9hG4bKx", r).
Definition placed_answer (status : Z) (tag body : gostring) : heard :=
  mkHeard (mkResponse status
    (mkMsg [HVia (side_via (private demo_topology) (str "z9hG4bKx")); HVia demo_via; placed_from;
            HTo (mkNameAddr placed_uri (Some [(str "tag", tag)])); HCallID (str "c"); HCSeq 1 (str "INVITE");
            HContact (mkNameAddr switch_uri None)] body (str "UDP") [] (str "10.0.0.12:5060"))) [] [] [].

Definition placed_cfg : callConfig := mkCallConfig 0 (mkRange 16384 16483) [] (mkSrtpConfig [] false []) false.

Abbreviation placed_start := (mkIS (first_state demo_world tt) (mkET Admission.demo_server newSubTable newMiss) ∅ (mkCooldown ∅ ∅ ∅) newRateLimiter ctxLive []).

Abbreviation demo_upstream := (inviteToUpstream (SP := ListImpl.list_params) demo_unmarshal demo_rand toy_context (fun _ => Some 16) (fun _ => Some 14)
  toy_open toy_open toy_seal toy_seal (fun p _ => Some (len p)) (fun p => Some (len p)) (fun _ _ => true) hide_text to_lower to_lower
  placed_branch (fun _ => true) demo_server 1000 placed_cfg placed_invite).
Abbreviation placed before dials := (demo_upstream (mkAddrPort demo_client 40000) [] ∅ 60 before false dials placed_start).

(** The first node refuses the connection; the second rings and answers, twice. *)
Definition placed_dials : list dial :=
  [mkDial [] [] false [] [] txTransport;
   mkDial [] [] true [] [SResponse [] (placed_answer 183 (str "z") demo_call_answer); SResponse [] (placed_answer 200 (str "z") []);
                         SResponse [] (placed_answer 200 (str "z") [])] txFine].

Definition wire_shape (w : wire) : gostring * Z * gostring :=
  match w with
  | WReply code _ _ => (str "reply", code, [])
  | WRelay res => (str "relay", rs_status res, [])
  | WAgain res => (str "again", rs_status res, [])
  | WInvite node _ => (str "invite", 0, node)
  | WCancel _ => (str "cancel", 0, [])
  | WAck _ => (str "ack", 0, [])
  | WBye _ => (str "bye", 0, [])
  | WForward _ => (str "forward", 0, [])
  end.

(** Three ways a call goes: answered by the second node (and the answer sent
    again), refused as busy, and cancelled while it rings. *)
Definition placed_busy : list dial := [mkDial [] [] true [] [SResponse [] (placed_answer 486 (str "z") [])] txFine].
Definition placed_cancelled : list dial :=
  [mkDial [] [] true [] [SResponse [] (placed_answer 180 (str "z") []); SEnv ECancel; SResponse [] (placed_answer 200 (str "z") demo_call_answer)] txFine].

Example placed_calls :
  map wire_shape (is_wire (placed [] placed_dials).2) =
    [(str "invite", 0, str "10.0.0.12:5060"); (str "relay", 183, []); (str "relay", 200, []); (str "again", 200, [])] /\
  map wire_shape (is_wire (placed [] placed_busy).2) = [(str "invite", 0, str "10.0.0.11:5060"); (str "relay", 486, [])] /\
  map wire_shape (is_wire (placed [] placed_cancelled).2) =
    [(str "invite", 0, str "10.0.0.11:5060"); (str "relay", 180, []); (str "cancel", 0, []); (str "ack", 0, []); (str "bye", 0, [])].
Proof. vm_compute. by split_and!. Qed.

(** A body on a refusal is taken for an answer: a 486 that says why becomes a
    488 of the proxy's own, and its transaction, already over, a CANCEL. *)
Example busy_with_a_body_becomes_488 :
  map wire_shape (is_wire (placed [] [mkDial [] [] true [] [SResponse [] (placed_answer 486 (str "z") (str "busy"))] txFine]).2) =
    [(str "invite", 0, str "10.0.0.11:5060"); (str "reply", 488, []); (str "cancel", 0, [])].
Proof. vm_compute. reflexivity. Qed.

(** The switch's call to a registered phone, which rings and is cancelled by
    nobody: an orphan CANCEL before its attempt goes nowhere. *)
Definition phone_loc : Location.Location :=
  (Location.Put 5 (str "t1") (Location.mkBinding [] (str "bob@x") (str "bob") (str "udp") (mkAddrPort demo_client 4000) 1000000 (str "r")) Location.NewLocation).2.
Definition phone_invite : request :=
  mkRequest (str "INVITE") (mkUri (str "bob") (str "10.0.0.1") 5060 (Some [(contactTokenParam, str "t1")]) false) (str "SIP/2.0") None
    (mkMsg [HVia (mkVia (str "UDP") (str "10.0.0.11") 5060 (Some [(str "branch", str "z9hG4bKs")]));
            HFrom (mkNameAddr switch_uri (Some [(str "tag", str "x")])); HTo (mkNameAddr switch_uri None); HCallID (str "c"); HCSeq 1 (str "INVITE");
            HMaxForwards 70; HContact (mkNameAddr switch_uri None)] demo_call_answer (str "UDP") [] (str "10.0.0.11:5060")).
Definition phone_answer (status : Z) (body : gostring) : heard :=
  mkHeard (mkResponse status
    (mkMsg [HVia (side_via demo_side (str "z9hG4bKx")); HFrom (mkNameAddr switch_uri (Some [(str "tag", str "x")]));
            HTo (mkNameAddr switch_uri (Some [(str "tag", str "p")])); HCallID (str "c"); HCSeq 1 (str "INVITE");
            HContact (mkNameAddr placed_uri None)] body (str "UDP") [] (str "198.51.100.9:4000"))) [] [] [].
Abbreviation demo_client_call := (inviteToClient (SP := ListImpl.list_params) demo_unmarshal demo_rand toy_context (fun _ => Some 16) (fun _ => Some 14)
  toy_open toy_open toy_seal toy_seal (fun p _ => Some (len p)) (fun p => Some (len p)) (fun _ _ => true) hide_text to_lower to_lower
  placed_branch (fun _ => true) demo_server 1000 placed_cfg phone_invite phone_loc).
Definition phone_dial : dial := mkDial [] [] true [] [SResponse [] (phone_answer 180 []); SResponse [] (phone_answer 200 demo_call_offer)] txFine.

Example phone_call :
  map wire_shape (is_wire (demo_client_call [EOrphan] false phone_dial placed_start).2) =
    [(str "invite", 0, str "198.51.100.9:4000"); (str "relay", 180, []); (str "relay", 200, [])].
Proof. vm_compute. reflexivity. Qed.

(** ** Witnesses *)

Abbreviation at_demo t := (t demo_unmarshal demo_rand toy_context (fun _ => Some 16) (fun _ => Some 14)
  toy_open toy_open toy_seal toy_seal (fun p _ => Some (len p)) (fun p => Some (len p)) (fun _ _ => true) hide_text to_lower to_lower
  placed_branch (fun _ => true) demo_server).

(** Before its INVITE is out: an orphan CANCEL, and another call that is dialed
    and given up on. *)
Definition phone_before : list env := [EOrphan; EOther (ETable (OTrack 7 phone_invite)); EOther (ETable (OCancel 7 cancelBackstop))].

Lemma invite_is_answered_once_witness :
  finals (is_wire (placed [] placed_dials).2) = 1%nat /\ finals (is_wire (demo_client_call phone_before false phone_dial placed_start).2) = 1%nat.
Proof.
  destruct (at_demo (invite_is_answered_once (SP := ListImpl.list_params)) 1000 placed_cfg placed_invite placed_start [] false) as [U _].
  destruct (at_demo (invite_is_answered_once (SP := ListImpl.list_params)) 1000 placed_cfg phone_invite placed_start phone_before false) as [_ H]. split.
  - destruct (U (mkAddrPort demo_client 40000) [] ∅ 60 placed_dials) as [A|[_ [A|A]]]; [exact A|discriminate|].
    exfalso. vm_compute in A. discriminate.
  - destruct (H eq_refl) as [C _]. destruct (C phone_loc phone_dial) as [A|[_ [A|A]]]; [exact A|discriminate|].
    exfalso. vm_compute in A. discriminate.
Defined.

(** The 200 of the call [AnchorDemo] opened. *)
Abbreviation called_start := (mkIS (demo_state demo_called) (mkET Admission.demo_server newSubTable newMiss) ∅ (mkCooldown ∅ ∅ ∅) newRateLimiter ctxLive []).
Definition called_answer : heard := placed_answer 200 (str "z") demo_call_answer.
Abbreviation demo_relayed := (relayInviteResponse (SP := ListImpl.list_params) demo_unmarshal demo_rand toy_context (fun _ => Some 16) (fun _ => Some 14)
  toy_open toy_open toy_seal toy_seal (fun p _ => Some (len p)) (fun p => Some (len p)) (fun _ _ => true) hide_text to_lower to_lower
  placed_branch (fun _ => true) demo_server 5 demo_leg called_answer called_start).

Lemma demo_relayed_ok : demo_relayed = (relayedOK, demo_relayed.2).
Proof. assert (demo_relayed.1 = relayedOK) as E by (vm_compute; reflexivity). destruct demo_relayed. cbn in *. congruence. Qed.

Lemma answers_are_confirmed_or_torn_down_witness :
  (exists out, confirmed 0 (str "z") (tab demo_relayed.2) /\ sent demo_relayed.2 = [WRelay out]) /\
  (let late := (onLate2xx placed_branch (fun _ => true) demo_server 0 (m_source (rq_msg (il_req demo_leg))) (il_far demo_leg)
                  (h_res called_answer) called_start).2 in
   match is_hooked 0 (tab called_start) with
   | true => late = called_start
   | false => torn_down (fun _ => true) demo_server demo_leg (h_res called_answer) called_start late
   end).
Proof.
  destruct (at_demo (answers_are_confirmed_or_torn_down (SP := ListImpl.list_params)) 5 demo_leg called_answer called_start eq_refl) as (H & _ & L). split.
  - rewrite demo_relayed_ok in H. destruct H as (out & S & _ & C & _). exists out. split; [exact C|exact S].
  - exact L.
Defined.

Lemma far_sdp_never_passes_witness : exists out, sent demo_relayed.2 = [WRelay out] /\ body_of out <> demo_call_answer.
Proof.
  destruct (at_demo (far_sdp_never_passes (SP := ListImpl.list_params)) 5 demo_leg called_answer called_start demo_relayed.2 demo_relayed_ok) as (out & S & _).
  exists out. split; [exact S|]. intros B.
  assert (match sent demo_relayed.2 with [WRelay o] => beq (body_of o) demo_call_answer | _ => true end = true) as T
    by (rewrite S; exact (bool_decide_eq_true_2 _ B)).
  vm_compute in T. discriminate.
Defined.

Lemma failed_calls_keep_nothing_witness : exists m, as_media (is_anchor (placed [] placed_busy).2) !! 0%nat = Some m /\
  AnchorSafety.holds m planePublic = None /\ AnchorSafety.holds m planePrivate = None.
Proof.
  destruct (at_demo (failed_calls_keep_nothing (SP := ListImpl.list_params)) (proj1 demo_planes_ok) (proj1 (proj2 demo_planes_ok)) 1000 placed_cfg placed_invite
    placed_start [] false (ok_first demo_world tt demo_idle)) as [U _].
  destruct (U (mkAddrPort demo_client 40000) [] ∅ 60 placed_busy) as [_ R].
  assert (exists x, t_heap (as_tab (is_anchor (placed [] placed_busy).2)) !! 0%nat = Some x /\ is_confirmed x = false /\ d_media x = Some 0%nat) as (x & E & C & M).
  { vm_compute. eexists. split; [reflexivity|]. split; reflexivity. }
  assert (exists m, as_media (is_anchor (placed [] placed_busy).2) !! 0%nat = Some m) as [m Em] by (vm_compute; eexists; reflexivity).
  exists m. split; [exact Em|]. destruct (R x E) as [D|D]; [congruence|]. split; by apply (D 0%nat).
Defined.
