(* ===== verification/Subscribe.v ===== *)
(** Requests forwarded outside a call, and SUBSCRIBE (internal/edge/forward.go's
    forwardAndRelay, subscribe.go, and the OPTIONS of carrier.go).

    A request other than INVITE goes out on a client transaction and every
    response is relayed until the final one ([forwardAndRelay]).  What the far
    end and the rest of the edge do meanwhile is a script, as in [InviteFlow],
    and the handlers are programs of the same state monad. *)

From S2P Require Import Prelude GoTime GoText GoEncoding Netip Float64 SipAddr Config RateLimit Location Carriers Cooldown PortPool Latch MediaSession.
From S2P Require Import SdpCodec SdpParse SipMsg SipRequest Topology EdgeSdes Forward Dialog Hide CarrierRoute WebRtcLeg WebRtcSession.
From S2P Require Import DialogInv MediaAnchor AnchorRun Subs AckMiss InviteFlow.
From S2P Require Admission Shield.

Open Scope Z_scope.

Section Subscribe.
Context `{SP : SipParams} `{SH : !SipHeaders}.
Context {R Ctx : Type}.
Context (Unmarshal : gostring -> option SessionDescription).
Context (rand_read : Z -> R -> option (list Z) * R).
Context (newContext : SDESSuite -> list Z -> list Z -> option Ctx).
Context (KeyLen SaltLen : SDESSuite -> option Z).
Context (unprotectRTP unprotectRTCP protectRTP protectRTCP : Ctx -> list Z -> option (list Z) * Ctx).
Context (write_udp : list Z -> AddrPort -> option Z) (write_leg : list Z -> option Z).
Context (listen_ok : Addr -> Z -> bool).
Context (Value : header -> gostring) (NetworkToLower ToLower : gostring -> gostring).
Context (NewBranch : R -> gostring * R) (write_ok : request -> bool).
Context (sv : server).
(** The shield section of the configuration, and the proof of sockets. *)
Context (shield : Shield.ShieldConfig) (vouched : gostring -> AddrPort -> bool).

#[local] Abbreviation st := (@inviteState SP R Ctx).
#[local] Abbreviation flow := (@flow SP R Ctx).
#[local] Abbreviation topo := (sv_topo sv).
#[local] Abbreviation env_step := (env_step Unmarshal rand_read newContext KeyLen SaltLen unprotectRTP unprotectRTCP protectRTP protectRTCP
  write_udp write_leg listen_ok Value sv).
#[local] Abbreviation newBranch := (newBranch NewBranch).

(** ** The other tables *)

Definition adm_of (s : st) : Admission.Server := et_adm (is_edge s).
Definition loc_of (s : st) : Location.Location := Admission.loc (adm_of s).
Definition snap_of (s : st) : carrierSnapshot := Admission.carriers (adm_of s).

Definition admission {A} (f : Admission.Server -> A * Admission.Server) : flow A := fun s =>
  let '(a, adm) := f (adm_of s) in (a, set_edge (mkET adm (et_subs (is_edge s)) (et_miss (is_edge s))) s).
Definition subs {A} (f : subTable -> A * subTable) : flow A := fun s =>
  let '(a, t) := f (et_subs (is_edge s)) in (a, set_edge (with_subs (fun _ => t) (is_edge s)) s).
Definition subs_ (f : subTable -> subTable) : flow unit := subs (fun t => (tt, f t)).

Definition source_of (req : request) : gostring := m_source (rq_msg req).
Definition src_of (req : request) : option AddrPort := SourceAddrPort (source_of req).

(** ** Headers and bodies *)

Definition lower (s : gostring) : gostring := if is_ascii s then to_lower s else ToLower s.

(** [GetHeader]: the first of that name. *)
Definition GetHeader (name : gostring) (hs : list header) : option header := head (GetHeaders name hs).

Definition isSDPBody (hs : list header) : bool :=
  existsb (fun h => contains (lower (Value h)) (str "application/sdp")) (GetHeaders (str "Content-Type") hs).

Definition has_contact (hs : list header) : bool := negb (bool_decide (GetHeaders (str "Contact") hs = [])).

(** A Contact the far end gave is replaced by the proxy's own. *)
Definition own_contact (u : Uri) (m : message) : message :=
  if has_contact (m_headers m) then set_headers (SetContact u (m_headers m)) m else m.

(** A body the proxy did not build, where it is SDP, is taken off. *)
Definition strip_sdp (m : message) : message := if isSDPBody (m_headers m) then stripBody m else m.

(** ** A request on a client transaction *)

(** What happens to it: the edge's other work, a response (with the time, and
    what happens between the proxy's looking at it and its answer), the end
    of the transaction, the end of the handler's patience. *)
Inductive far :=
  | FEnv (d : nat) (e : env)
  | FRes (now : Z) (res : response) (between : list (nat * env))
  | FDone (err expired : bool)
  | FExpired.

(** Whether the transaction starts; [tr_late]: the deadline passed meanwhile. *)
Record trip := mkTrip { tr_opens : bool; tr_late : bool; tr_script : list far }.

Fixpoint elsewhere (es : list (nat * env)) : flow unit :=
  match es with [] => mret tt | (d, e) :: es => _ ← env_step d e; elsewhere es end.

Record tripEnd := mkEnd { te_final : option response; te_err : bool; te_expired : bool }.

(** How one response is changed for the requester, or why it is not relayed;
    [A] is what the handler keeps from one response to the next. *)
Definition adapter (A : Type) : Type := Z -> list (nat * env) -> response -> A -> flow ((response + anchorError) * A).

(** relayResponseHide with its adapt function. *)
Definition relay_hide {A} (req : request) (mode : respHide) (adapt : adapter A) (now : Z) (between : list (nat * env)) (res : response) (x : A)
    : flow (relayed * A) :=
  match relayResponseHide Value NetworkToLower ToLower topo req res mode with
  | None => mret (relayDropped, x)
  | Some out =>
      '(r, x) ← adapt now between out x;
      match r with
      | inl out => _ ← emit (WRelay out); mret (relayedOK, x)
      | inr _ => mret (relayFailed, x)
      end
  end.

Fixpoint relay_all {A} (req : request) (mode : respHide) (adapt : adapter A) (script : list far) (x : A) : flow (tripEnd * A) :=
  match script with
  | [] => mret (mkEnd None true true, x)
  | FEnv d e :: script => _ ← env_step d e; relay_all req mode adapt script x
  | FDone err expired :: _ => mret (mkEnd None err expired, x)
  | FExpired :: _ => mret (mkEnd None true true, x)
  | FRes now res between :: script =>
      if negb (Forwardable res) then relay_all req mode adapt script x
      else
        '(_, x) ← relay_hide req mode adapt now between res x;
        if 200 <=? rs_status res then mret (mkEnd (Some res) false false, x) else relay_all req mode adapt script x
  end.

Definition forwardAndRelay {A} (req out : request) (mode : respHide) (adapt : adapter A) (tr : trip) (x : A) : flow (tripEnd * A) :=
  if tr_opens tr then _ ← emit (WForward out); relay_all req mode adapt (tr_script tr) x
  else mret (mkEnd None true (tr_late tr), x).

(** An adapt function that keeps nothing and never fails. *)
Definition plainly (f : message -> message) : adapter unit := fun _ between out x =>
  _ ← elsewhere between; mret (inl (on_msg f out), x).

(** The answer of a trip that failed, where the requester is owed one. *)
Definition trip_failed (e : tripEnd) : flow unit := reject_ (if te_expired e then 504 else 503).

(** ** What a subscription says of its time *)

Definition eventOf (hs : list header) : gostring :=
  match GetHeader (str "Event") hs with
  | None => []
  | Some h => let '(ev, _, _) := cut (Value h) 59 in trim_space ev
  end.

Definition header_delta (hs : list header) : option Z :=
  match GetHeader (str "Expires") hs with Some h => DeltaSeconds (Value h) | None => None end.

Definition subExpires (res req : list header) : Z :=
  match header_delta res with
  | Some d => d
  | None => match header_delta req with Some d => d | None => subDefaultExpires end
  end.

Fixpoint state_expires (ps : list gostring) : option Z :=
  match ps with
  | [] => None
  | p :: ps =>
      let '(k, val, _) := cut (trim_space p) 61 in
      if equal_fold (trim_space k) (str "expires")
      then match DeltaSeconds val with Some d => Some d | None => state_expires ps end
      else state_expires ps
  end.

(** The state, and the expires parameter where it has a valid one. *)
Definition subscriptionState (hs : list header) : gostring * option Z :=
  match GetHeader (str "Subscription-State") hs with
  | None => ([], None)
  | Some h => match split (Value h) 59 with
              | [] => ([], None)
              | p :: ps => (lower (trim_space p), state_expires ps)
              end
  end.

(** ** Requests along a subscription *)

(** The public end's latest address. *)
Definition follow_remote (now : Z) (req : request) (i : nat) (v : subscription) (senderPublic : bool) : flow subscription :=
  let move src := if beq src (r_publicRemote (s_route v)) then mret v
                  else _ ← subs_ (notePublicRemote i src); mret (set_sroute (set_publicRemote src (s_route v)) v) in
  if senderPublic then if beq (source_of req) [] then mret v else move (source_of req)
  else match s_subscriberPlane v with
       | planePublic => mret v
       | planePrivate =>
           b ← asks (fun s => Location.ByToken now (s_token v) (loc_of s));
           match b with
           | Some b => if beq (Location.Transport b) (r_transport (s_route v)) then move (addrport_string (Location.Source b)) else mret v
           | None => mret v
           end
       end.

(** From, to, destination and the far end's Contact. *)
Definition sub_sides (v : subscription) (senderPublic : bool) : option (side * side * gostring * Uri) :=
  let r := s_route v in
  match publicSide topo (r_transport r) with
  | None => None
  | Some pub =>
      let '(from, to, dest, contact) := if senderPublic then (pub, private topo, r_privateRemote r, r_privateContact r)
                                        else (private topo, pub, r_publicRemote r, r_publicContact r) in
      if beq dest [] then None else Some (from, to, dest, contact)
  end.

Definition sub_uri (v : subscription) (tag : gostring) : option Uri :=
  if beq tag (s_subTag v) then Some (s_subURI v) else if beq tag (s_notTag v) then Some (s_notURI v) else None.

(** The request as it leaves along a subscription. *)
Definition sub_request (req : request) (v : subscription) (senderPublic : bool) (from to : side) (dest : gostring) (contact : Uri) (branch : gostring)
    : option request :=
  let kind := if senderPublic then hideNone else hideClient in
  out ← prepareForwardFor Value ToLower topo req from to dest false kind branch;
  let out := if senderPublic then on_request (fun m => set_headers (restoreIdentity topo (sd_advIP from) (sub_uri v) (m_headers m)) m) out else out in
  let out := if bool_decide (u_host contact = []) then out else with_recipient contact out in
  Some (if has_contact (rq_headers req) then on_request (fun m => set_headers (SetContact (side_uri to) (m_headers m)) m) out else out).

(** The final response's word on the record; [now] is its time. *)
Definition sub_outcome (now : Z) (req : request) (i : nat) (final : response) : flow unit :=
  let m := rq_method req in
  if rs_status final =? 481 then subs_ (sub_end i)
  else if negb (is_2xx final) then mret tt
  else if beq m method_subscribe then subs_ (sub_refresh i (subExpires (rs_headers final) (rq_headers req)) now)
  else if beq m method_notify then
    let '(state, exp) := subscriptionState (rq_headers req) in
    if beq state (str "terminated") then subs_ (sub_end i)
    else match exp with Some d => subs_ (sub_refresh i d now) | None => mret tt end
  else mret tt.

(** The time of the final response. *)
Fixpoint final_time (now : Z) (script : list far) : Z :=
  match script with
  | [] => now
  | FRes t res _ :: script => if Forwardable res && (200 <=? rs_status res) then t else final_time now script
  | _ :: script => final_time now script
  end.

Definition forwardInSubscription (now : Z) (req : request) (i : nat) (v : subscription) (fromSub : bool) (tr : trip) : flow unit :=
  let senderPublic := Bool.eqb (bool_decide (s_subscriberPlane v = planePublic)) fromSub in
  v ← follow_remote now req i v senderPublic;
  match sub_sides v senderPublic with
  | None => reject_ 481
  | Some (from, to, dest, contact) =>
      _ ← (match s_state v, beq (rq_method req) method_notify, ContactURI (rq_headers req) with
           | subPending, true, Some u => subs_ (learnContact i u)
           | _, _, _ => mret tt
           end);
      branch ← newBranch;
      match sub_request req v senderPublic from to dest contact branch with
      | None => reject_ 483
      | Some out =>
          '(e, _) ← forwardAndRelay req out (if senderPublic then respToClient else respToSwitch)
                      (plainly (fun m => strip_sdp (own_contact (side_uri from) m))) tr tt;
          if te_err e then trip_failed e
          else match te_final e with
               | Some final => sub_outcome (final_time now (tr_script tr)) req i final
               | None => mret tt
               end
      end
  end.

(** ** A new subscription *)

(** The caps of the record; [goneCode] when the binding left meanwhile. *)
Definition beginSubscription (now : Z) (req : request) (event token : gostring) (subscriber : plane) (route : dialogRoute) (goneCode : Z)
    (meanwhile : list (nat * env)) : flow (option nat) :=
  let hs := rq_headers req in
  let uri o := match o with Some a => na_uri a | None => no_uri end in
  r ← subs (sub_begin (CallID hs) (FromTag hs) event token subscriber route (uri (From hs)) (uri (To hs)) now);
  match r with
  | subBeginOK i =>
      _ ← elsewhere meanwhile;
      b ← asks (fun s => Location.ByToken now token (loc_of s));
      match b with
      | Some _ => mret (Some i)
      | None => _ ← subs_ (sub_end i); _ ← reject_ goneCode; mret None
      end
  | subBeginClosed => _ ← reject_ 503; mret None
  | _ => _ ← emit (WReply 503 (Some subCapRetryAfter) None); mret None
  end.

(** What a response to a new SUBSCRIBE becomes; [x]: the record is confirmed. *)
Definition adapt_subscribe (req : request) (i : nat) (requester : side) (notifierPlane : plane) : adapter bool := fun now between out x =>
  let out := on_msg (fun m => strip_sdp (own_contact (side_uri requester) m)) out in
  let out := match sd_plane requester with
             | planePrivate => if is_2xx out then on_headers (addPrivateRecordRoute topo) out else out
             | planePublic => out
             end in
  if is_2xx out && negb x then
    _ ← elsewhere between;
    x ← subs (sub_confirm i (ToTag (rs_headers out)) (default no_uri (ContactURI (rs_headers out))) notifierPlane
                (subExpires (rs_headers out) (rq_headers req)) now);
    mret (inl out, x)
  else mret (inl out, x).

Definition relaySubscribe (req out : request) (i : nat) (requester : side) (notifierPlane : plane) (tr : trip) : flow unit :=
  let mode := match sd_plane requester with planePrivate => respToSwitch | planePublic => respToClient end in
  '(e, confirmed) ← forwardAndRelay req out mode (adapt_subscribe req i requester notifierPlane) tr false;
  _ ← (if te_err e then trip_failed e else mret tt);
  if (confirmed : bool) then mret tt else subs_ (sub_end i).

Definition admission_request (req : request) : Admission.request :=
  Admission.mkRequest (m_transport (rq_msg req)) ((fun a => u_user (na_uri a)) <$> From (rq_headers req)).

Definition admitted (now : Z) (reason : Admission.dropReason) (req : request) (src : AddrPort)
    : flow (option Location.Binding * Admission.outOfDialogVerdict) :=
  admission (Admission.admitPublicOutOfDialog NetworkToLower now shield vouched (admission_request req) src reason).

(** The switch node a request from outside any call goes to. *)
Definition selected (now : Z) (user : gostring) : flow (option endpoint) := asks (fun s =>
  match selectUpstream topo user (fun n => Available now n (is_cool s)) with Some (_, e) => e | None => None end).

(** [arrived] of a plane. *)
Definition plane_of (onPrivate : bool) : plane := if onPrivate then planePrivate else planePublic.

(** A SUBSCRIBE from the switch, to the client its token names. *)
Definition subscribeToClient (now : Z) (uris : gmap gostring gostring) (req : request) (meanwhile : list (nat * env)) (tr : trip) : flow unit :=
  match (classifySwitchRequest topo uris req).1 with
  | targetClient =>
      b ← asks (fun s => bindingForRequest now topo (loc_of s) req);
      match b with
      | None => reject_ 404
      | Some b =>
          match publicSide topo (Location.Transport b) with
          | None => reject_ 480
          | Some to =>
              let event := eventOf (rq_headers req) in
              if beq event [] then reject_ 489
              else
                let dest := addrport_string (Location.Source b) in
                let route := mkRoute dest (source_of req) (Location.Transport b) no_uri (default no_uri (ContactURI (rq_headers req))) in
                o ← beginSubscription now req event (Location.Token b) planePrivate route 404 meanwhile;
                match o with
                | None => mret tt
                | Some i =>
                    branch ← newBranch;
                    match prepareForwardFor Value ToLower topo req (private topo) to dest true hideClient branch with
                    | None => _ ← subs_ (sub_end i); reject_ 483
                    | Some out =>
                        let out := on_request (fun m => set_headers (SetContact (side_uri to) (m_headers m)) m) (with_recipient (clientRequestURI b) out) in
                        relaySubscribe req out i (private topo) planePublic tr
                    end
                end
          end
      end
  | targetCarrier => reject_ 405
  | _ => reject_ 404
  end.

(** A client's SUBSCRIBE, to the switch node of its user. *)
Definition subscribeToSwitch (now : Z) (req : request) (src : AddrPort) (meanwhile : list (nat * env)) (tr : trip) : flow unit :=
  '(b, verdict) ← admitted now Admission.dropSubscribeNotAdmitted req src;
  match verdict, b with
  | Admission.oodDropped, _ => mret tt
  | Admission.oodCarrier, _ => reject_ 405
  | Admission.oodAdmitted, b =>
      let event := eventOf (rq_headers req) in
      if beq event [] then reject_ 489
      else
        node ← selected now (hashUserFor req);
        match publicSideFor NetworkToLower topo req, node with
        | Some pub, Some entry =>
            let route := mkRoute (source_of req) (ep_host entry) (sd_transport pub) (default no_uri (ContactURI (rq_headers req))) no_uri in
            o ← beginSubscription now req event (match b with Some b => Location.Token b | None => [] end) planePublic route 480 meanwhile;
            match o with
            | None => mret tt
            | Some i =>
                branch ← newBranch;
                match prepareForward Value topo req pub (private topo) (ep_host entry) true branch with
                | None => _ ← subs_ (sub_end i); reject_ 483
                | Some out =>
                    relaySubscribe req (on_request (fun m => set_headers (SetContact (side_uri (private topo)) (m_headers m)) m) out) i pub planePrivate tr
                end
            end
        | _, _ => reject_ 503
        end
  end.

Definition onSubscribe (now : Z) (uris : gmap gostring gostring) (req : request) (src : AddrPort) (onPrivate : bool)
    (meanwhile : list (nat * env)) (tr : trip) : flow unit :=
  let hs := rq_headers req in
  if negb (beq (ToTag hs) []) then
    r ← subs (sub_lookup (CallID hs) (FromTag hs) (ToTag hs) (plane_of onPrivate) (rq_method req));
    match r with
    | None => reject_ 481
    | Some (i, v, fromSub) => forwardInSubscription now req i v fromSub tr
    end
  else if onPrivate then subscribeToClient now uris req meanwhile tr
  else subscribeToSwitch now req src meanwhile tr.

(** ** OPTIONS of the switch to a carrier (carrier.go) *)

Definition optionsToCarrier (byName : gmap gostring Carrier) (req : request) (carrier : gostring) (tr : trip) : flow unit :=
  dest ← asks (fun s => carrierDest (snap_of s) carrier);
  match dest, carrierSide topo byName carrier with
  | Some dest, Some pub =>
      branch ← newBranch;
      match prepareForwardHidden Value ToLower topo req (private topo) pub dest false branch with
      | None => reject_ 483
      | Some out =>
          '(e, _) ← forwardAndRelay req out respToSwitch (plainly strip_sdp) tr tt;
          if te_err e then trip_failed e else mret tt
      end
  | _, _ => reject_ 503
  end.
End Subscribe.
