(* ===== verification/InDialog.v ===== *)
(** Requests inside a call (internal/edge/indialog.go, update.go, prack.go,
    message.go, the handlers of offerless.go and ack.go, and the dispatch of
    edge.go).

    A request is routed by the dialog its tags name ([directionFor]).  A
    re-INVITE and an UPDATE carry an offer, which is rebuilt on the way out and
    its answer on the way back; an ACK or a PRACK may carry the answer to an
    offer the far end made; a BYE ends the dialog it names once its far end has
    agreed.  The timers of a missing ACK are handlers of their own.  Where the
    code would follow a nil dialog the handler panics, and [guard] answers. *)

From S2P Require Import Prelude GoTime GoText GoEncoding Netip Float64 SipAddr Config RateLimit Location Carriers Cooldown PortPool Latch MediaSession.
From S2P Require Import SdpCodec SdpParse SipMsg SipRequest Topology EdgeSdes Forward Dialog Hide CarrierRoute WebRtcLeg WebRtcSession.
From S2P Require Import DialogInv MediaAnchor AnchorRun Subs AckMiss InviteFlow Subscribe.
From S2P Require Admission Shield.

Open Scope Z_scope.

Section InDialog.
Context `{SP : SipParams} `{SH : !SipHeaders}.
Context {R Ctx : Type}.
Context (Unmarshal : gostring -> option SessionDescription).
Context (rand_read : Z -> R -> option (list Z) * R).
Context (newContext : SDESSuite -> list Z -> list Z -> option Ctx).
Context (KeyLen SaltLen : SDESSuite -> option Z).
Context (unprotectRTP unprotectRTCP protectRTP protectRTCP : Ctx -> list Z -> option (list Z) * Ctx).
Context (write_udp : list Z -> AddrPort -> option Z) (write_leg : list Z -> option Z).
Context (listen_ok : Addr -> Z -> bool).
Context (Value : header -> gostring) (NetworkToLower ToLower : gostring -> gostring).
(** sipgo's text of a URI. *)
Context (UriString : Uri -> gostring).
Context (NewBranch : R -> gostring * R) (write_ok : request -> bool).
Context (sv : server).
Context (shield : Shield.ShieldConfig) (vouched : gostring -> AddrPort -> bool).
(** The carriers' URIs, and the registrations of the switch at them. *)
Context (uris : gmap gostring gostring) (regs : carrierRegTable).

#[local] Abbreviation st := (@inviteState SP R Ctx).
#[local] Abbreviation flow := (@flow SP R Ctx).
#[local] Abbreviation topo := (sv_topo sv).
#[local] Abbreviation env_step := (env_step Unmarshal rand_read newContext KeyLen SaltLen unprotectRTP unprotectRTCP protectRTP protectRTCP
  write_udp write_leg listen_ok Value sv).
#[local] Abbreviation elsewhere := (elsewhere Unmarshal rand_read newContext KeyLen SaltLen unprotectRTP unprotectRTCP protectRTP protectRTCP
  write_udp write_leg listen_ok Value sv).
#[local] Abbreviation relay_hide := (relay_hide Value NetworkToLower ToLower sv).
#[local] Abbreviation forwardAndRelay := (forwardAndRelay Unmarshal rand_read newContext KeyLen SaltLen unprotectRTP unprotectRTCP protectRTP
  protectRTCP write_udp write_leg listen_ok Value NetworkToLower ToLower sv).
#[local] Abbreviation forwardInSubscription := (forwardInSubscription Unmarshal rand_read newContext KeyLen SaltLen unprotectRTP unprotectRTCP
  protectRTP protectRTCP write_udp write_leg listen_ok Value NetworkToLower ToLower NewBranch sv).
#[local] Abbreviation newBranch := (newBranch NewBranch).
#[local] Abbreviation ack2xx := (ack2xx NewBranch write_ok sv).

(** ** Where a request goes *)

(** From, to, destination, and the dialog it belongs to. *)
Definition direction : Type := side * side * gostring * option nat.

(** The dialog the tags name, its route and whether its caller sent the
    request; PRACK and UPDATE may name an early one. *)
Definition named_dialog (req : request) (t : dialogTable) : option (nat * dialogRoute * bool) :=
  let hs := rq_headers req in
  match lookup_ (CallID hs) (FromTag hs) (ToTag hs) t with
  | Some (d, fromCaller) => Some (d, routeSnapshot d t, fromCaller)
  | None =>
      if beq (rq_method req) (str "PRACK") || beq (rq_method req) (str "UPDATE")
      then lookupEarly (CallID hs) (FromTag hs) (ToTag hs) t else None
  end.

Definition callerPlaneOf : nat -> dialogTable -> plane := get planePublic d_callerPlane.

(** The named dialog, where the request came in on its sender's plane. *)
Definition owned_dialog (req : request) (onPrivate : bool) (t : dialogTable) : option (nat * dialogRoute) :=
  match named_dialog req t with
  | Some (d, r, fromCaller) =>
      let sender := if fromCaller then callerPlaneOf d t else otherPlane (callerPlaneOf d t) in
      if bool_decide (plane_of onPrivate = sender) then Some (d, r) else None
  | None => None
  end.

Definition dialog_direction (req : request) (onPrivate : bool) (d : nat) (r : dialogRoute) : option direction :=
  if onPrivate then
    match publicSide topo (r_transport r) with
    | Some to => if beq (r_publicRemote r) [] then None else Some (private topo, to, r_publicRemote r, Some d)
    | None => None
    end
  else
    match publicSideFor NetworkToLower topo req with
    | Some from => if beq (r_privateRemote r) [] then None else Some (from, private topo, r_privateRemote r, Some d)
    | None => None
    end.

(** Without a dialog: the binding token of a request from the switch, the
    node of the sender's hash for a public one. *)
Definition dialogless_direction (now : Z) (req : request) (onPrivate : bool) (s : st) : option direction :=
  if onPrivate then
    match bindingForRequest now topo (loc_of s) req with
    | Some b => match publicSide topo (Location.Transport b) with
                | Some to => Some (private topo, to, addrport_string (Location.Source b), None)
                | None => None
                end
    | None => None
    end
  else
    match publicSideFor NetworkToLower topo req with
    | None => None
    | Some from =>
        let node user := match selectUpstream topo user (fun n => Available now n (is_cool s)) with Some (_, e) => e | None => None end in
        match carrierFallback NetworkToLower now (loc_of s) (snap_of s) req (src_of req) with
        | Some _ => (fun e => (from, private topo, addrport_string (Topology.carrierAddr e), None)) <$> node (carrierHashUser req)
        | None => (fun e => (from, private topo, ep_host e, None)) <$> node (hashUserFor req)
        end
    end.

Definition direction_for (now : Z) (req : request) (onPrivate : bool) (s : st) : option direction :=
  match owned_dialog req onPrivate (as_tab (is_anchor s)) with
  | Some (d, r) => dialog_direction req onPrivate d r
  | None => dialogless_direction now req onPrivate s
  end.

Definition directionFor (now : Z) (req : request) (onPrivate : bool) : flow (option direction) := asks (direction_for now req onPrivate).

(** A NOTIFY of the switch whose tags name nothing, by its Call-ID. *)
Definition relaxedNotifyDirection (req : request) : flow (option direction) :=
  o ← reads (newestRoutedByCallID (CallID (rq_headers req)));
  match o with
  | None => mret None
  | Some (d, r) =>
      match publicSide topo (r_transport r) with
      | None => mret None
      | Some to =>
          _ ← table (noteRelaxedNotify d);
          mret (Some (private topo, to, r_publicRemote r, Some d))
      end
  end.

(** ** The request as it leaves *)

(** [hideLeg], with the carrier its dialog or its source names. *)
Definition leg_of (now : Z) (req : request) (d : option nat) (from to : side) (s : st) : hideKind * respHide :=
  let name := match d with
              | Some d => carrierName d (as_tab (is_anchor s))
              | None => match sd_plane from with
                        | planePublic => default [] (carrierFallback NetworkToLower now (loc_of s) (snap_of s) req (src_of req))
                        | planePrivate => []
                        end
              end in
  hideLeg name from to.

Definition on_rq_headers (f : list header -> list header) : request -> request := on_request (fun m => set_headers (f (m_headers m)) m).

Definition restoreToSwitch (d : option nat) (from to : side) (s : st) (out : request) : request :=
  match d, sd_plane to, sd_plane from with
  | Some d, planePrivate, planePublic => on_rq_headers (restoreIdentity topo (sd_advIP from) (fun tag => uriForTag d tag (as_tab (is_anchor s)))) out
  | _, _, _ => out
  end.

Definition retargetInDialog (now : Z) (req : request) (to : side) (d : option nat) (s : st) (out : request) : request :=
  let fallback := match sd_plane to with
                  | planePublic => match bindingForRequest now topo (loc_of s) req with Some b => with_recipient (clientRequestURI b) out | None => out end
                  | planePrivate => out
                  end in
  match d with
  | Some d =>
      let r := routeFor d (rq_headers req) (as_tab (is_anchor s)) in
      let u := match sd_plane to with planePublic => r_publicContact r | planePrivate => r_privateContact r end in
      if beq (u_host u) [] then fallback else with_recipient u out
  | None => fallback
  end.

Definition restore_ruri (now : Z) (req : request) (d : option nat) (onPrivate : bool) (s : st) (out : request) : request :=
  match d with
  | Some _ => out
  | None => if onPrivate then out else restoreCarrierRURI NetworkToLower now topo (loc_of s) (snap_of s) regs req (src_of req) out
  end.

Definition stamp (now : Z) (req : request) (d : option nat) (onPrivate : bool) (s : st) (out : request) : request :=
  if onPrivate then out
  else on_rq_headers (fun hs => stampCarrier NetworkToLower now (loc_of s) (snap_of s) hs req (src_of req)
                                  ((fun d => carrierName d (as_tab (is_anchor s))) <$> d)) out.

(** Everything but the body and the Contact; [None]: no hops left. *)
Definition in_dialog_request (now : Z) (req : request) (onPrivate : bool) (from to : side) (dest : gostring) (d : option nat) (branch : gostring) (s : st)
    : option (request * respHide) :=
  let '(kind, resp) := leg_of now req d from to s in
  out ← prepareForwardFor Value ToLower topo req from to dest false kind branch;
  let out := retargetInDialog now req to d s (restoreToSwitch d from to s out) in
  let out := restore_ruri now req d onPrivate s out in
  Some (stamp now req d onPrivate s out, resp).

(** ** Ending a call from the middle *)

Definition middle_bye (b : byeInfo) (branch : gostring) : option request :=
  let toward := match b_toward b with planePrivate => Some (private topo) | planePublic => publicSide topo (b_transport b) end in
  match toward with
  | None => None
  | Some toward =>
      if beq (b_remote b) [] then None
      else
        let ruri := if beq (u_host (b_contact b)) []
                    then match split_host_port (b_remote b) with
                         | Some (host, port) => Some (mkUri [] host (default 0 (atoi port)) None false)
                         | None => None
                         end
                    else Some (b_contact b) in
        match ruri with
        | None => None
        | Some ruri =>
            let mask u := match sd_plane toward with planePublic => maskURI topo (sd_advIP toward) u | planePrivate => u end in
            let party u tag := mkNameAddr (mask u) (Some (ParamAdd (str "tag") tag NewParams)) in
            let req := NewRequest (str "BYE") ruri in
            let hs := fold_left (fun hs h => AppendHeader h hs)
                        [HVia (side_via toward branch); HMaxForwards 70; HFrom (party (b_fromURI b) (b_fromTag b));
                         HTo (party (b_toURI b) (b_toTag b)); HCallID (b_callID b); HCSeq (b_cseq b) (str "BYE"); HContentLength 0] [] in
            let m := SetDestination (b_remote b) (SetTransport (upperTransport toward) (set_headers hs (rq_msg req))) in
            Some (mkRequest (rq_method req) ruri (rq_version req) (pinned (sd_laddr toward)) m)
        end
  end.

Definition sendMiddleBye (b : byeInfo) : flow unit :=
  branch ← newBranch;
  match middle_bye b branch with Some out => emit (WBye out) | None => mret tt end.

Definition byeBothEnds (d : nat) : flow unit :=
  o ← reads (byes d);
  match o with Some (b, b') => _ ← sendMiddleBye b; sendMiddleBye b' | None => mret tt end.

(** A call the proxy ends on its own. *)
Definition end_both (d : nat) (why : endReason) : flow unit :=
  ended ← table (end_ d why);
  if (ended : bool) then byeBothEnds d else mret tt.

(** The slot and the timer of an owed answer. *)
Definition finish (d : nat) (o : owedAnswer) : flow unit :=
  _ ← table_ (stop (w_timer o));
  if w_release o then table_ (hook_endReInviteOffer d) else mret tt.

(** *** A missing ACK (ack.go, offerless.go) *)

Definition advertisedFor (p : plane) (transport : gostring) : gostring :=
  match p with
  | planePrivate => UriString (side_uri (private topo))
  | planePublic =>
      match publicSide topo transport with
      | Some s => UriString (side_uri s)
      | None => match omap (publicSide topo) [str "udp"; str "tcp"; str "tls"; str "wss"; str "ws"] with
                | s :: _ => UriString (side_uri s)
                | [] => []
                end
      end
  end.

Definition noteAckMiss (now : Z) (d : nat) : flow unit :=
  o ← table (takeAckMiss d);
  match o with
  | None => mret tt
  | Some p =>
      r ← reads (routeSnapshot d);
      change (fun s => set_edge (mkET (et_adm (is_edge s)) (et_subs (is_edge s))
                                   (record_miss now p (advertisedFor p (r_transport r)) (et_miss (is_edge s))).2) s)
  end.

(** The backstop of the ACK [k]. *)
Definition ackExpired (now : Z) (d k : nat) : flow unit :=
  owed ← reads (ack_still_owed d k);
  if (owed : bool) then _ ← noteAckMiss now d; end_both d endAckTimeout else mret tt.

(** The backstop of an answer that never came. *)
Definition owedExpired (now : Z) (d : nat) (o : owedAnswer) : flow unit :=
  mine ← table (dropOwed d (w_id o));
  if (mine : bool) then
    _ ← (if w_release o then table_ (hook_endReInviteOffer d) else mret tt);
    _ ← noteAckMiss now d;
    end_both d endAnswerTimeout
  else mret tt.

(** ** Re-INVITE *)

(** What the handler keeps between responses: the answer and the far end's own
    form of it, the relayed 2xx, and whether the offer slot stays taken. *)
Record reState := mkRe { re_answer : option gostring; re_far : option SdpParse.Session; re_ok : option response; re_keep : bool }.
Definition re_start : reState := mkRe None None None false.
Definition re_relayed (out : response) (x : reState) : reState := mkRe (re_answer x) (re_far x) (Some out) (re_keep x).

(** The far end's offer in the 2xx of an offerless re-INVITE: the requester
    owes the answer from here. *)
Definition re_offer (d : nat) (req : request) (from to : side) (out : response) (x : reState) : flow ((gostring + anchorError) * reState) :=
  match re_answer x with
  | Some body => mret (inl body, x)
  | None =>
      r ← anchoring (rebuildInDialogOffer Unmarshal rand_read sv d None (body_of out) (sd_plane from));
      match r with
      | inr e => mret (inr e, x)
      | inl (body, offer) =>
          _ ← table_ (setOwed d (Some offer) (sd_plane to) (sd_plane from) None (CSeqNumber (rq_headers req)) true);
          mret (inl body, mkRe (Some body) (re_far x) (re_ok x) true)
      end
  end.

(** The answer to the requester's offer, built once. *)
Definition re_answered (d : nat) (offer : SdpParse.Session) (from : side) (out : response) (x : reState) : flow ((option gostring + anchorError) * reState) :=
  if beq (body_of out) [] then mret (inl None, x)
  else match re_answer x with
       | Some body => mret (inl (Some body), x)
       | None =>
           r ← anchoring (rebuildInDialogAnswer Unmarshal rand_read newContext sv d None offer (body_of out) (sd_plane from));
           match r with
           | inr e => mret (inr e, x)
           | inl (body, answer) => mret (inl (Some body), mkRe (Some body) (Some answer) (re_ok x) (re_keep x))
           end
       end.

Definition re_adapt (d : nat) (req : request) (offer : option SdpParse.Session) (from to : side) : adapter reState := fun now between out x =>
  let out := on_headers (SetContact (side_uri from)) out in
  match offer with
  | None =>
      if negb (is_2xx out) || beq (body_of out) [] then
        let out := on_msg stripBody out in
        mret (inl out, if is_2xx out then re_relayed out x else x)
      else
        '(r, x) ← re_offer d req from to out x;
        match r with
        | inr e => mret (inr e, x)
        | inl body => let out := on_msg (SetSDPBody body) out in mret (inl out, re_relayed out x)
        end
  | Some offer =>
      '(r, x) ← re_answered d offer from out x;
      match r with
      | inr e => mret (inr e, x)
      | inl body =>
          let out := match body with Some body => on_msg (SetSDPBody body) out | None => out end in
          if is_2xx out then
            _ ← elsewhere between;
            _ ← anchoring (applyReInvite now d (sd_plane from) (Some offer) (sd_plane to) (re_far x));
            mret (inl out, re_relayed out x)
          else mret (inl out, x)
      end
  end.

(** The 2xx sent again: one the proxy ACKed itself is ACKed again, the relayed
    one is relayed again. *)
Fixpoint re_late (req : request) (to : side) (refused : bool) (ok : option response) (script : list far) : flow unit :=
  match script with
  | [] => mret tt
  | FEnv d e :: script => _ ← env_step d e; re_late req to refused ok script
  | FRes _ res _ :: script =>
      _ ← (if negb (is_2xx res) then mret tt
           else if refused then _ ← ack2xx res to; mret tt
           else match ok with
                | Some ok => if beq (ToTag (rs_headers res)) (ToTag (rs_headers ok))
                             then emit (WAgain (mkResponse (rs_status ok) (SetDestination (source_of req) (rs_msg ok)))) else mret tt
                | None => mret tt
                end);
      re_late req to refused ok script
  | _ :: script => re_late req to refused ok script
  end.

(** [lingerForFinal]: the final the CANCEL provokes. *)
Fixpoint re_linger (req : request) (to : side) (script : list far) : flow unit :=
  match script with
  | [] | FDone _ _ :: _ => mret tt
  | FExpired :: script => re_linger req to script
  | FEnv d e :: script => _ ← env_step d e; re_linger req to script
  | FRes _ res _ :: script =>
      if negb (Forwardable res) then re_linger req to script
      else if is_2xx res then _ ← ack2xx res to; re_late req to true None script
      else if 200 <=? rs_status res then mret tt
      else re_linger req to script
  end.

Definition abandonReInvite (req out : request) (to : side) (script : list far) : flow unit :=
  _ ← reject_ 408;
  _ ← emit (WCancel (BuildCancel out));
  re_linger req to script.

(** The responses; the result says whether the offer slot stays taken. *)
Fixpoint re_pump (d : nat) (req out : request) (offer : option SdpParse.Session) (from to : side) (resp : respHide) (script : list far) (x : reState)
    : flow bool :=
  match script with
  | [] | FExpired :: _ =>
      _ ← abandonReInvite req out to (match script with _ :: script => script | [] => [] end);
      mret (re_keep x)
  | FDone _ _ :: _ => _ ← reject_ 408; mret (re_keep x)
  | FEnv d' e :: script => _ ← env_step d' e; re_pump d req out offer from to resp script x
  | FRes now res between :: script =>
      if negb (Forwardable res) then re_pump d req out offer from to resp script x
      else
        '(r, x) ← relay_hide req resp (re_adapt d req offer from to) now between res x;
        match r with
        | relayDropped => re_pump d req out offer from to resp script x
        | relayFailed =>
            _ ← reject_ 488;
            if is_2xx res then
              _ ← ack2xx res to;
              _ ← end_both d endReinviteRefused;
              _ ← re_late req to true None script;
              mret (re_keep x)
            else mret (re_keep x)
        | relayedOK =>
            if 200 <=? rs_status res then
              if is_2xx res then
                _ ← table_ (armOwedTimer d);
                _ ← re_late req to false (re_ok x) script;
                mret (re_keep x)
              else mret (re_keep x)
            else re_pump d req out offer from to resp script x
        end
  end.

(** The re-INVITE between taking the offer slot and giving it back. *)
Definition re_exchange (now : Z) (req : request) (onPrivate : bool) (from to : side) (dest : gostring) (d : nat) (tr : trip) : flow bool :=
  let body := m_body (rq_msg req) in
  o ← (if beq body [] then mret (inl None)
       else r ← anchoring (rebuildInDialogOffer Unmarshal rand_read sv d None body (sd_plane to));
            mret (match r with inl p => inl (Some p) | inr e => inr e end));
  match o with
  | inr e => _ ← reject_ (rejectMedia_code e); mret false
  | inl built =>
      branch ← newBranch;
      r ← asks (in_dialog_request now req onPrivate from to dest (Some d) branch);
      match r with
      | None => _ ← reject_ 483; mret false
      | Some (out, resp) =>
          let out := on_rq_headers (SetContact (side_uri to)) out in
          let out := on_request (match built with Some (body, _) => SetSDPBody body | None => stripBody end) out in
          if negb (tr_opens tr) then _ ← reject_ 503; mret false
          else
            _ ← emit (WForward out);
            re_pump d req out (snd <$> built) from to resp (tr_script tr) re_start
      end
  end.

Definition onReInvite (now : Z) (req : request) (onPrivate : bool) (tr : trip) : flow unit :=
  o ← directionFor now req onPrivate;
  match o with
  | Some (from, to, dest, Some d) =>
      sess ← reads (session d);
      if bool_decide (sess = None) then reject_ 481
      else
        _ ← table_ (noteCSeq d (rq_headers req));
        ok ← table (beginReInviteOffer d);
        if negb ok then reject_ 491
        else
          keep ← re_exchange now req onPrivate from to dest d tr;
          if (keep : bool) then mret tt else table_ (endReInviteOffer d)
  | _ => reject_ 481
  end.

(** ** ACK and CANCEL *)

(** The body of a forwarded ACK: the answer owed, the same once more, or none;
    [true]: the answer was missing or unusable. *)
Definition ack_body (now : Z) (req : request) (d : nat) (p : plane) (out : request) : flow (request * bool) :=
  let cseq := CSeqNumber (rq_headers req) in
  _ ← table_ (clearAck d p cseq);
  owed ← table (takeOwed d p cseq);
  match owed with
  | Some o =>
      r ← anchoring (answerFromACK Unmarshal rand_read newContext sv now d o (m_body (rq_msg req)));
      res ← (match r with
             | inl body => _ ← table_ (setAckAnswer d p (w_cseq o) body); mret (on_request (SetSDPBody body) out, false)
             | inr _ => mret (on_request stripBody out, true)
             end);
      _ ← finish d o;
      mret res
  | None =>
      again ← reads (ackAnswerFor d p cseq);
      mret (match again with
            | Some body => on_request (SetSDPBody body) out
            | None => if beq (m_body (rq_msg out)) [] then out else on_request stripBody out
            end, false)
  end.

Definition onAck (now : Z) (req : request) (onPrivate : bool) : flow unit :=
  o ← directionFor now req onPrivate;
  match o with
  | None => mret tt
  | Some (from, to, dest, d) =>
      branch ← newBranch;
      r ← asks (in_dialog_request now req onPrivate from to dest d branch);
      match r with
      | None => mret tt
      | Some (out, _) =>
          '(out, failed) ← (match d with
                            | Some d => ack_body now req d (sd_plane from) out
                            | None => mret (if beq (m_body (rq_msg out)) [] then out else on_request stripBody out, false)
                            end);
          _ ← (if write_ok out then emit (WAck out) else mret tt);
          match d with Some d => if (failed : bool) then end_both d endAnswerUnusable else mret tt | None => mret tt end
      end
  end.

Definition onCancel (req : request) : flow unit :=
  let hs := rq_headers req in
  o ← reads (early (CallID hs) (FromTag hs));
  ok ← (match o with Some d => cancelCall d cancelOrphan | None => mret false end);
  reject_ (if (ok : bool) then 200 else 481).

(** ** UPDATE with an offer (update.go) *)

Inductive updateError := updatePending | updateMedia (e : anchorError).

Record updateExchange := mkUx {
  ux_d : nat; ux_fork : option nat; ux_offerer : plane; ux_answerer : plane; ux_offer : SdpParse.Session; ux_offerBody : gostring
}.

Definition beginUpdate (req : request) (d : nat) (from to : side) : flow (updateExchange + updateError) :=
  sess ← reads (session d);
  if bool_decide (sess = None) then mret (inr (updateMedia errNoAnswer))
  else
    ok ← table (beginUpdateOffer d);
    if negb ok then mret (inr updatePending)
    else
      f ← reads (forkOf d (rq_headers req));
      r ← anchoring (rebuildInDialogOffer Unmarshal rand_read sv d f (m_body (rq_msg req)) (sd_plane to));
      match r with
      | inl (body, offer) => mret (inl (mkUx d f (sd_plane from) (sd_plane to) offer body))
      | inr e => _ ← table_ (endUpdateOffer d); mret (inr (updateMedia e))
      end.

(** The outcome on the early fork. *)
Definition noteFork (x : updateExchange) (f : nat) (answerToOfferer : gostring) (answer : SdpParse.Session) : @anchor SP R Ctx unit :=
  callerPlane ← look (callerPlaneOf (ux_d x));
  let '(callerBody, callee) := if bool_decide (ux_offerer x = callerPlane) then (answerToOfferer, answer) else (ux_offerBody x, ux_offer x) in
  let a := s_audio callee in
  let named := is_valid (a_address a) && negb (is_unspecified (a_address a)) && (0 <? a_port a) in
  let remote := if named then audio_remote a else ap_zero in
  let rtcp := if named then audio_rtcp a else ap_zero in
  i ← session_of (ux_d x);
  m ← media_at i;
  tabling_ (noteForkUpdate (ux_d x) (Some f) (Some callerBody) remote rtcp (ms_codecs m)).

Definition update_answered (now : Z) (between : list (nat * env)) (x : updateExchange) (out : response) : flow (response + anchorError) :=
  if beq (body_of out) [] then mret (inl out)
  else
    r ← anchoring (rebuildInDialogAnswer Unmarshal rand_read newContext sv (ux_d x) (ux_fork x) (ux_offer x) (body_of out) (ux_offerer x));
    match r with
    | inr e => mret (inr e)
    | inl (body, answer) =>
        _ ← elsewhere between;
        _ ← anchoring (applyReInvite now (ux_d x) (ux_offerer x) (Some (ux_offer x)) (ux_answerer x) (Some answer));
        _ ← (match ux_fork x with Some f => _ ← anchoring (noteFork x f body answer); mret tt | None => mret tt end);
        mret (inl (on_msg (SetSDPBody body) out))
    end.

(** ** The other requests of a dialog *)

Definition method_is (req : request) (m : gostring) : bool := beq (rq_method req) m.

(** The answer of a PRACK: the owed answer, its body for the callee, and what
    it says. *)
Definition prackAnswer : Type := owedAnswer * gostring * SdpParse.Session.

(** The response as the requester gets it, before bodies are looked at, and
    whether its body is one the proxy built. *)
Definition method_adapt (req : request) (from : side) (d : option nat) (pk : option prackAnswer) (ux : option updateExchange)
    (now : Z) (between : list (nat * env)) (out : response) (err : option anchorError)
    : flow ((response + anchorError) * option anchorError * bool) :=
  if method_is req (str "UPDATE") then
    let out := on_msg (own_contact (side_uri from)) out in
    match ux with
    | Some x =>
        if is_2xx out then
          let had := negb (beq (body_of out) []) in
          r ← update_answered now between x out;
          mret (match r with inl out => (inl out, None, had) | inr e => (inr e, Some e, false) end)
        else mret (inl out, err, false)
    | None => mret (inl out, err, false)
    end
  else if method_is req (str "REFER") || method_is req (str "MESSAGE") then mret (inl (on_msg (own_contact (side_uri from)) out), err, false)
  else match pk, d with
       | Some (o, _, answer), Some d =>
           mine ← (if is_2xx out then table (dropOwed d (w_id o)) else mret false);
           if (mine : bool) then
             _ ← finish d o;
             _ ← elsewhere between;
             r ← anchoring (applyOwed now d o answer);
             mret (match r with inl _ => (inl out, None, false) | inr e => (inr e, Some e, false) end)
           else mret (match err with Some e => (inr e, err, false) | None => (inl out, err, false) end)
       | _, _ => mret (inl out, err, false)
       end.

Definition dialog_adapt (req : request) (from : side) (d : option nat) (pk : option prackAnswer) (ux : option updateExchange)
    : adapter (option anchorError) := fun now between out err =>
  '(r, err, rebuilt) ← method_adapt req from d pk ux now between out err;
  match r with
  | inr e => mret (inr e, err)
  | inl out =>
      let strips := negb (beq (body_of out) []) && negb rebuilt &&
                    (method_is req (str "PRACK") || method_is req (str "UPDATE") || isSDPBody Value ToLower (rs_headers out)) in
      mret (inl (if strips then on_msg stripBody out else out), err)
  end.

Definition byeEndsDialog (final : option response) : bool :=
  match final with
  | None => true
  | Some f => is_2xx f || (rs_status f =? 481) || (rs_status f =? 408)
  end.

(** A BYE its far end agreed to.  [grace]: what happens in the time a crossing
    ACK is given. *)
Definition bye_ends (now : Z) (d : nat) (from : side) (err : bool) (grace : list (nat * env)) : flow unit :=
  caller ← reads (callerPlaneOf d);
  owed ← reads (ackOwedByOther d (sd_plane from));
  cleared ← (if (owed : bool) then
               k ← reads (get None d_ack d);
               _ ← elsewhere grace;
               gone ← reads (fun t => match k with Some k => bool_decide (k_id k ∈ t_cleared t) | None => false end);
               if (gone : bool) then mret true else still ← reads (ackOwedByOther d (sd_plane from)); mret (negb still)
             else mret true);
  why ← (if negb cleared then _ ← noteAckMiss now d; mret endAckTimeout
         else mret (if err then endByeUnanswered else if bool_decide (sd_plane from = caller) then endByeCaller else endByeCallee));
  _ ← table (end_ d why);
  mret tt.

(** Whether the request may go on although it names no dialog; [true] when it
    was refused. *)
Definition refuse_dialogless (now : Z) (req : request) (onPrivate : bool) (src : AddrPort) (d : option nat) : flow bool :=
  match d with
  | Some _ => mret false
  | None =>
      if method_is req (str "REFER") || ((method_is req (str "MESSAGE") || method_is req method_notify) && negb onPrivate)
      then _ ← reject_ 481; mret true
      else if negb onPrivate && (method_is req (str "BYE") || method_is req (str "INFO")) then
        ok ← admission (Admission.admitDialogless NetworkToLower now shield vouched (admission_request req) src);
        if (ok : bool) then mret false else _ ← reject_ 481; mret true
      else mret false
  end.

(** A handler ends, or panics. *)
Inductive ending_of := returned | panicked.
Definition returns (m : flow unit) : flow ending_of := _ ← m; mret returned.

(** The request with its body, on its client transaction, and what its final
    response means.  [grace] is of [bye_ends]. *)
Definition forward_in_dialog (now : Z) (req : request) (onPrivate : bool) (from to : side) (dest : gostring) (d : option nat)
    (pk : option prackAnswer) (ux : option updateExchange) (tr : trip) (grace : list (nat * env)) : flow unit :=
  branch ← newBranch;
  r ← asks (in_dialog_request now req onPrivate from to dest d branch);
  match r with
  | None => reject_ 483
  | Some (out, resp) =>
      let out := match pk with Some (_, body, _) => on_request (SetSDPBody body) out | None => out end in
      let out := if negb (method_is req (str "PRACK")) && (negb (method_is req (str "MESSAGE")) || has_contact (rq_headers req))
                 then on_rq_headers (SetContact (side_uri to)) out else out in
      let out := match ux with Some x => on_request (SetSDPBody (ux_offerBody x)) out | None => out end in
      '(e, err) ← forwardAndRelay req out resp (dialog_adapt req from d pk ux) tr None;
      _ ← (if te_err e && method_is req (str "BYE") then
             _ ← (if write_ok out then emit (WBye out) else mret tt); reject_ 200
           else mret tt);
      match err, d with
      | Some _, Some d =>
          _ ← reject_ 488;
          match ux with
          | Some x => if bool_decide (ux_fork x = None) then end_both d endAnswerUnusable else _ ← cancelCall d cancelBackstop; mret tt
          | None => _ ← cancelCall d cancelBackstop; mret tt
          end
      | _, Some d => if method_is req (str "BYE") && byeEndsDialog (te_final e) then bye_ends now d from (te_err e) grace else mret tt
      | _, None => mret tt
      end
  end.

(** Once the request has a direction. *)
Definition directed (now : Z) (req : request) (onPrivate : bool) (src : AddrPort) (dir : direction) (tr : trip) (grace : list (nat * env)) : flow ending_of :=
  let '(from, to, dest, d) := dir in
  refused ← refuse_dialogless now req onPrivate src d;
  if (refused : bool) then mret returned
  else
    carrier ← reads (fun t => match d with Some d => carrierName d t | None => [] end);
    if method_is req (str "REFER") && negb (beq carrier []) then returns (reject_ 603)
    else
      _ ← (match d with Some d => table_ (noteCSeq d (rq_headers req)) | None => mret tt end);
      let body := m_body (rq_msg req) in
      if beq body [] || negb (method_is req (str "UPDATE") || method_is req (str "PRACK"))
      then returns (forward_in_dialog now req onPrivate from to dest d None None tr grace)
      else match d with
      | None => mret panicked
      | Some d =>
          if method_is req (str "UPDATE") then
            r ← beginUpdate req d from to;
            match r with
            | inl x => _ ← forward_in_dialog now req onPrivate from to dest (Some d) None (Some x) tr grace; _ ← table_ (endUpdateOffer d); mret returned
            | inr updatePending => returns (reject_ 491)
            | inr (updateMedia e) => returns (reject_ (rejectMedia_code e))
            end
          else
            o ← reads (owedForPrack d (rq_headers req) (sd_plane from));
            match o with
            | None => returns (reject_ 488)
            | Some o =>
                r ← anchoring (prepareOwed Unmarshal rand_read newContext sv d o body);
                match r with
                | inr e => returns (reject_ (rejectMedia_code e))
                | inl (out, answer) => returns (forward_in_dialog now req onPrivate from to dest (Some d) (Some (o, out, answer)) None tr grace)
                end
            end
      end.

(** What a request from the switch outside any dialog names; [Some]: the
    status it is refused with. *)
Definition unnamed (req : request) (onPrivate : bool) : option Z :=
  if method_is req method_notify && beq (ToTag (rq_headers req)) [] && negb onPrivate then Some 481
  else
    let refused := if onPrivate && beq (ToTag (rq_headers req)) [] then
                     match (classifySwitchRequest topo uris req).1 with
                     | targetClient => None
                     | targetCarrier => Some 405
                     | _ => Some 404
                     end
                   else None in
    match refused with
    | Some code => Some code
    | None => if method_is req (str "REFER") && beq (ToTag (rq_headers req)) [] then Some 481 else None
    end.

Definition onInDialog (now : Z) (req : request) (onPrivate : bool) (src : AddrPort) (tr : trip) (grace : list (nat * env)) : flow ending_of :=
  let hs := rq_headers req in
  match unnamed req onPrivate with
  | Some code => returns (reject_ code)
  | None =>
      let tagged_notify := method_is req method_notify && negb (beq (ToTag hs) []) in
      sub ← (if tagged_notify then subs (sub_lookup (CallID hs) (FromTag hs) (ToTag hs) (plane_of onPrivate) (rq_method req)) else mret None);
      match sub with
      | Some (i, v, fromSub) => returns (forwardInSubscription now req i v fromSub tr)
      | None =>
          o ← directionFor now req onPrivate;
          o ← (match o with
               | Some dir => mret (Some dir)
               | None => if tagged_notify && onPrivate then relaxedNotifyDirection req else mret None
               end);
          match o with
          | None => returns (reject_ (if method_is req (str "MESSAGE") && onPrivate && beq (ToTag hs) [] then 404 else 481))
          | Some dir => directed now req onPrivate src dir tr grace
          end
      end
  end.

(** [meanwhile]: between the look here and the one of [onInDialog]. *)
Definition onPrackUpdate (now : Z) (req : request) (onPrivate : bool) (src : AddrPort) (meanwhile : list (nat * env)) (tr : trip)
    (grace : list (nat * env)) : flow ending_of :=
  if beq (ToTag (rq_headers req)) [] then returns (reject_ 481)
  else
    o ← directionFor now req onPrivate;
    match o with
    | Some (from, _, _, Some d) =>
        owed ← reads (owedForPrack d (rq_headers req) (sd_plane from));
        if method_is req (str "PRACK") && negb (beq (m_body (rq_msg req)) []) && bool_decide (owed = None) then returns (reject_ 488)
        else _ ← elsewhere meanwhile; onInDialog now req onPrivate src tr grace
    | _ => returns (reject_ 481)
    end.

(** ** MESSAGE (message.go) *)

Definition maxMessageBody : Z := 1300.

Definition tooLargeMessage (req : request) : bool :=
  (maxMessageBody <? len (m_body (rq_msg req))) ||
  match first_of (fun h => match h with HContentLength n => Some n | _ => None end) (rq_headers req) with Some n => maxMessageBody <? n | None => false end.

(** A client's message outside any dialog, to the switch node of its user. *)
Definition messageToSwitch (now : Z) (req : request) (src : AddrPort) (tr : trip) : flow unit :=
  '(_, verdict) ← admitted NetworkToLower shield vouched now Admission.dropMessageNotAdmitted req src;
  match verdict with
  | Admission.oodDropped => mret tt
  | Admission.oodCarrier => reject_ 405
  | Admission.oodAdmitted =>
      if tooLargeMessage req then reject_ 413
      else
        node ← selected sv now (hashUserFor req);
        match publicSideFor NetworkToLower topo req, node with
        | Some pub, Some entry =>
            branch ← newBranch;
            match prepareForward Value topo req pub (private topo) (ep_host entry) false branch with
            | None => reject_ 483
            | Some out =>
                let out := if has_contact (rq_headers req) then on_rq_headers (SetContact (side_uri (private topo))) out else out in
                '(e, _) ← forwardAndRelay req out respToClient
                            (plainly Unmarshal rand_read newContext KeyLen SaltLen unprotectRTP unprotectRTCP protectRTP protectRTCP write_udp write_leg
                               listen_ok Value sv (own_contact (side_uri pub))) tr tt;
                if te_err e then trip_failed e else mret tt
            end
        | _, _ => reject_ 503
        end
  end.

Definition onMessage (now : Z) (req : request) (onPrivate : bool) (src : AddrPort) (tr : trip) (grace : list (nat * env)) : flow ending_of :=
  if negb (beq (ToTag (rq_headers req)) []) || onPrivate
  then if tooLargeMessage req then returns (reject_ 413) else onInDialog now req onPrivate src tr grace
  else returns (messageToSwitch now req src tr).
End InDialog.
