(* ===== verification/Dispatch.v ===== *)
(** A request from the socket to its handler (internal/edge/edge.go, the entry
    points of invite.go and carrier.go, drain.go).

    [guard] takes the arrival marker off, drops what the shield bans and
    answers for a handler that panicked; [handle_request] is the handler of
    each method.  REGISTER has a state of its own ([Registration]) and is an
    argument here. *)

From S2P Require Import Prelude GoTime GoText GoEncoding Netip BanList Float64 SipAddr Config RateLimit Location Carriers Cooldown PortPool Latch MediaSession.
From S2P Require Import Arrival SdpCodec SdpParse SipMsg SipRequest Topology EdgeSdes Forward Dialog Hide CarrierRoute WebRtcLeg WebRtcSession.
From S2P Require Import DialogInv MediaAnchor AnchorRun Subs AckMiss InviteFlow Subscribe InDialog.
From S2P Require Admission Shield.

Open Scope Z_scope.

(** ** Drain mode *)

Record drainState := mkDrain { dr_flag : bool; dr_since : Z }.
Definition drain_on (d : drainState) : bool := dr_flag d.
Definition drain_set (now : Z) (on : bool) (d : drainState) : bool * drainState :=
  if Bool.eqb (dr_flag d) on then (false, d) else (true, mkDrain on (if on then now else zero_time)).
Definition drain_get (d : drainState) : bool * Z := (dr_flag d, dr_since d).

Section Dispatch.
Context `{SP : SipParams} `{SH : !SipHeaders}.
Context {R Ctx : Type}.
Context (Unmarshal : gostring -> option SessionDescription).
Context (rand_read : Z -> R -> option (list Z) * R).
Context (newContext : SDESSuite -> list Z -> list Z -> option Ctx).
Context (KeyLen SaltLen : SDESSuite -> option Z).
Context (unprotectRTP unprotectRTCP protectRTP protectRTCP : Ctx -> list Z -> option (list Z) * Ctx).
Context (write_udp : list Z -> AddrPort -> option Z) (write_leg : list Z -> option Z).
Context (listen_ok : Addr -> Z -> bool).
Context (Value : header -> gostring) (NetworkToLower ToLower : gostring -> gostring).
Context (UriString : Uri -> gostring).
Context (NewBranch : R -> gostring * R) (write_ok : request -> bool).
Context (sv : server).
Context (shield : Shield.ShieldConfig) (vouched : gostring -> AddrPort -> bool).
Context (uris : gmap gostring gostring) (regs : carrierRegTable).
(** The carriers by name, the configuration snapshot, drain mode, the cooldown
    of a node and the arrival marker. *)
Context (byName : gmap gostring Carrier) (cfg : callConfig) (drain : drainState) (cooldown : Z) (marker : arrivalMarker).

#[local] Abbreviation st := (@inviteState SP R Ctx).
#[local] Abbreviation flow := (@flow SP R Ctx).
#[local] Abbreviation topo := (sv_topo sv).

(** What happens to the requests a handler sends on. *)
Record far_side := mkFarSide {
  fs_trip : trip; fs_meanwhile : list (nat * env);         (* any request but an INVITE that opens a call *)
  fs_grace : list (nat * env);                             (* while a BYE waits for a crossing ACK *)
  fs_before : list env; fs_beat : bool; fs_dials : list dial; fs_dial : dial   (* a new call *)
}.

(** ** INVITE *)

Definition invitePrivate (now : Z) (req : request) (fs : far_side) : flow unit :=
  match classifySwitchRequest topo uris req with
  | (targetClient, _) =>
      l ← asks loc_of;
      inviteToClient Unmarshal rand_read newContext KeyLen SaltLen unprotectRTP unprotectRTCP protectRTP protectRTCP write_udp write_leg listen_ok Value
        NetworkToLower ToLower NewBranch write_ok sv now cfg req l (fs_before fs) (fs_beat fs) (fs_dial fs)
  | (targetCarrier, name) =>
      snap ← asks snap_of;
      inviteToCarrier Unmarshal rand_read newContext KeyLen SaltLen unprotectRTP unprotectRTCP protectRTP protectRTCP write_udp write_leg listen_ok Value
        NetworkToLower ToLower NewBranch write_ok sv now cfg req snap byName name (fs_before fs) (fs_beat fs) (fs_dial fs)
  | _ => rejectInvite 404 rejectNoTarget
  end.

Definition onInvite (now : Z) (req : request) (onPrivate : bool) (src : AddrPort) (fs : far_side) : flow unit :=
  if negb (beq (ToTag (rq_headers req)) []) then
    onReInvite Unmarshal rand_read newContext KeyLen SaltLen unprotectRTP unprotectRTCP protectRTP protectRTCP write_udp write_leg listen_ok Value
      NetworkToLower ToLower NewBranch write_ok sv regs now req onPrivate (fs_trip fs)
  else if onPrivate then invitePrivate now req fs
  else
    '(kind, carrier) ← admission (fun a => (Admission.admitPublicInvite NetworkToLower now (admission_request req) src a, a));
    match kind with
    | Admission.srcDrop =>
        _ ← admission (Admission.dropSilently NetworkToLower now shield vouched Admission.dropInviteNotAdmitted (admission_request req) src);
        mret tt
    | _ =>
        inviteToUpstream Unmarshal rand_read newContext KeyLen SaltLen unprotectRTP unprotectRTCP protectRTP protectRTCP write_udp write_leg listen_ok Value
          NetworkToLower ToLower NewBranch write_ok sv now cfg req src carrier regs cooldown (fs_before fs) (fs_beat fs) (fs_dials fs)
    end.

(** ** OPTIONS *)

Definition admitPublicOptions (now : Z) (req : request) (src : AddrPort) : flow bool :=
  let hs := rq_headers req in
  named ← reads (fun t => negb (beq (ToTag hs) []) && bool_decide (is_Some (lookup_ (CallID hs) (FromTag hs) (ToTag hs) t)));
  if (named : bool) then mret true
  else
    '(kind, _) ← admission (fun a => (Admission.admitPublicInvite NetworkToLower now (admission_request req) src a, a));
    match kind with
    | Admission.srcDrop =>
        _ ← admission (Admission.dropSilently NetworkToLower now shield vouched Admission.dropOptions (admission_request req) src);
        mret false
    | _ => mret true
    end.

Definition rejectOptionsDraining : flow unit := emit (WReply 503 (Some drainRetryAfter) None).

Definition onOptions (now : Z) (req : request) (onPrivate : bool) (src : AddrPort) (fs : far_side) : flow unit :=
  let outOfDialog := beq (ToTag (rq_headers req)) [] in
  let draining := outOfDialog && drain_on drain in
  ok ← (if onPrivate then mret true else admitPublicOptions now req src);
  if negb ok then mret tt
  else if onPrivate && outOfDialog then
    match classifySwitchRequest topo uris req with
    | (targetCarrier, name) =>
        if draining then rejectOptionsDraining
        else optionsToCarrier Unmarshal rand_read newContext KeyLen SaltLen unprotectRTP unprotectRTCP protectRTP protectRTCP write_udp write_leg listen_ok
               Value NetworkToLower ToLower NewBranch sv byName req name (fs_trip fs)
    | (targetNotFound, _) => reject_ 404
    | (targetClient, _) =>
        b ← asks (fun s => bindingForRequest now topo (loc_of s) req);
        reject_ (match b with Some _ => 200 | None => 404 end)
    | (targetSelf, _) => if draining then rejectOptionsDraining else reject_ 200
    end
  else
    carrier ← asks (fun s => carrierFallback NetworkToLower now (loc_of s) (snap_of s) req (src_of req));
    if draining && negb onPrivate && bool_decide (is_Some carrier) then rejectOptionsDraining else reject_ 200.

Definition onNoRoute : flow unit := reject_ 405.

(** ** The handler of each method *)

Definition handle_request (register : flow unit) (now : Z) (req : request) (onPrivate : bool) (src : AddrPort) (fs : far_side) : flow ending_of :=
  let m := rq_method req in
  let in_dialog := onInDialog Unmarshal rand_read newContext KeyLen SaltLen unprotectRTP unprotectRTCP protectRTP protectRTCP write_udp write_leg listen_ok
        Value NetworkToLower ToLower UriString NewBranch write_ok sv shield vouched uris regs now req onPrivate src (fs_trip fs) (fs_grace fs) in
  if existsb (beq m) [str "BYE"; str "INFO"; str "NOTIFY"; str "REFER"] then in_dialog
  else if existsb (beq m) [str "PRACK"; str "UPDATE"] then
    onPrackUpdate Unmarshal rand_read newContext KeyLen SaltLen unprotectRTP unprotectRTCP protectRTP protectRTCP write_udp write_leg listen_ok
      Value NetworkToLower ToLower UriString NewBranch write_ok sv shield vouched uris regs now req onPrivate src (fs_meanwhile fs) (fs_trip fs) (fs_grace fs)
  else if beq m (str "MESSAGE") then
    onMessage Unmarshal rand_read newContext KeyLen SaltLen unprotectRTP unprotectRTCP protectRTP protectRTCP write_udp write_leg listen_ok
      Value NetworkToLower ToLower UriString NewBranch write_ok sv shield vouched uris regs now req onPrivate src (fs_trip fs) (fs_grace fs)
  else if beq m (str "SUBSCRIBE") then
    returns (onSubscribe Unmarshal rand_read newContext KeyLen SaltLen unprotectRTP unprotectRTCP protectRTP protectRTCP write_udp write_leg listen_ok
      Value NetworkToLower ToLower NewBranch sv shield vouched now uris req src onPrivate (fs_meanwhile fs) (fs_trip fs))
  else if beq m (str "ACK") then
    returns (onAck Unmarshal rand_read newContext Value NetworkToLower ToLower NewBranch write_ok sv regs now req onPrivate)
  else if beq m (str "CANCEL") then returns (onCancel req)
  else if beq m (str "INVITE") then returns (onInvite now req onPrivate src fs)
  else if beq m (str "OPTIONS") then returns (onOptions now req onPrivate src fs)
  else if beq m (str "REGISTER") then returns register
  else returns onNoRoute.

Definition is_final_reply (w : wire) : bool :=
  match w with WReply code _ _ => 200 <=? code | WRelay res | WAgain res => 200 <=? rs_status res | _ => false end.

(** The shield's look at a public request; [true]: dropped without a word. *)
Definition scanned (now : Z) (req : request) (src : AddrPort) : flow bool :=
  admission (fun a =>
    match Admission.shield a with
    | None => (false, a)
    | Some sh =>
        let '(v, sh) := Shield.CheckScanner (Admission.env_of now shield vouched a) src (UserAgent Value (rq_headers req))
                          (NetworkToLower (m_transport (rq_msg req))) sh in
        (match v with Shield.Drop => true | _ => false end, Admission.set_shield (Some sh) a)
    end).

Definition guard (next : request -> bool -> AddrPort -> flow ending_of) (now : Z) (received : request) : flow unit :=
  let '(hs, arr) := take_arrival Value marker (rq_headers received) in
  let req := on_rq_headers (fun _ => hs) received in
  match src_of req with
  | None => mret tt
  | Some src =>
      let onPrivate := bool_decide (arr = arrPrivate) in
      dropped ← (if onPrivate then mret false else scanned now req src);
      if (dropped : bool) then mret tt
      else
        before ← asks is_wire;
        r ← next req onPrivate src;
        match r with
        | returned => mret tt
        | panicked =>
            after ← asks is_wire;
            if existsb is_final_reply (drop (length before) after) || beq (rq_method req) (str "ACK") then mret tt else reject_ 500
        end
  end.

Definition receive (register : flow unit) (now : Z) (received : request) (fs : far_side) : flow unit :=
  guard (fun req onPrivate src => handle_request register now req onPrivate src fs) now received.
End Dispatch.
