(* ===== verification/InDialogLogic.v ===== *)
(** Reasoning about requests inside a call.

    The steps of the handlers that neither answer the requester nor send a
    request on keep every assertion [Hush] allows ([Beside]); the rest are
    named by the theorems.  [moves]: a handler of the media whose every step is
    an event of the edge. *)

From S2P Require Import Prelude GoTime GoText Netip PortPool Latch MediaSession SdpCodec SdpCrypto SdpParse Topology EdgeSdes SipMsg SipRequest.
From S2P Require Import WebRtcLeg WebRtcSession Dialog DialogInv DialogSafety MediaAnchor AnchorSafety AnchorRun AnchorBody.
From S2P Require Import SipAddr Config RateLimit Location Carriers Cooldown Forward Hide CarrierRoute Subs AckMiss InviteFlow InviteLogic InviteSafety Subscribe InDialog.
From S2P Require Admission Shield.

Open Scope Z_scope.

(** A handler keeps an assertion whose steps do. *)
Ltac walk := stay; repeat (match goal with |- forall _, _ => intros ? end; stay).

Section Moves.
Context `{SP : SipParams} `{SH : !SipHeaders}.
Context {R Ctx : Type}.
Context (Unmarshal : gostring -> option SessionDescription).
Context (rand_read : Z -> R -> option (list Z) * R).
Context (newContext : SDESSuite -> list Z -> list Z -> option Ctx).
Context (KeyLen SaltLen : SDESSuite -> option Z).
Context (unprotectRTP unprotectRTCP protectRTP protectRTCP : Ctx -> list Z -> option (list Z) * Ctx).
Context (write_udp : list Z -> AddrPort -> option Z) (write_leg : list Z -> option Z).
Context (listen_ok : Addr -> Z -> bool).
Context (Value : header -> gostring) (NetworkToLower ToLower : gostring -> gostring).
Context (UriString : Uri -> gostring).
Context (NewBranch : R -> gostring * R) (write_ok : request -> bool).
Context (sv : server).
Context (shield : Shield.ShieldConfig) (vouched : gostring -> AddrPort -> bool).
Context (uris : gmap gostring gostring) (regs : carrierRegTable).
#[local] Abbreviation st := (@inviteState SP R Ctx).
#[local] Abbreviation flow := (@flow SP R Ctx).
#[local] Abbreviation moved := (moved Unmarshal rand_read newContext KeyLen SaltLen unprotectRTP unprotectRTCP protectRTP protectRTCP
  write_udp write_leg listen_ok Value sv).
#[local] Abbreviation handle := (handle Unmarshal rand_read newContext KeyLen SaltLen unprotectRTP unprotectRTCP protectRTP protectRTCP
  write_udp write_leg listen_ok Value sv).
#[local] Abbreviation mv_op := (mv_op Unmarshal rand_read newContext KeyLen SaltLen unprotectRTP unprotectRTCP protectRTP protectRTCP
  write_udp write_leg listen_ok Value sv).
#[local] Abbreviation mv_end := (mv_end Unmarshal rand_read newContext KeyLen SaltLen unprotectRTP unprotectRTCP protectRTP protectRTCP
  write_udp write_leg listen_ok Value sv).
#[local] Abbreviation mv_newBranch := (mv_newBranch Unmarshal rand_read newContext KeyLen SaltLen unprotectRTP unprotectRTCP protectRTP protectRTCP
  write_udp write_leg listen_ok Value sv).

(** ** Media handlers *)

Lemma moved_trans a b c : moved a b -> moved b c -> moved a c.
Proof. intros A B. induction B; [done|by constructor..]. Qed.

Definition moves {A} (m : @anchor SP R Ctx A) : Prop := forall a, moved a (m a).2.

Lemma moves_bind {A B} (m : @anchor SP R Ctx A) (k : A -> @anchor SP R Ctx B) : moves m -> (forall x, moves (k x)) -> moves (m ≫= k).
Proof.
  intros M K a. unfold mbind, anchor_bind. specialize (M a). destruct (m a) as [[x|e] b]; [|done]. eapply moved_trans; [exact M|apply K].
Qed.
Lemma moves_ret {A} (x : A) : moves (mret x).
Proof. intros a. constructor. Qed.
Lemma moves_gets {A} (f : anchorState -> A) : moves (gets f).
Proof. intros a. constructor. Qed.
Lemma moves_need {A} (o : option A) : moves (need o).
Proof. intros a. destruct o; constructor. Qed.
Lemma moves_session d : moves (session_of d).
Proof. apply moves_bind; [apply moves_gets|apply moves_need]. Qed.
Lemma moves_media i : moves (media_at i).
Proof. intros a. unfold media_at. apply moves_need. Qed.

Lemma moves_event {A} (m : @anchor SP R Ctx A) e : handle e = (m ≫= fun _ => mret tt) -> moves m.
Proof. intros E a. pose proof (moved_one Unmarshal rand_read newContext KeyLen SaltLen unprotectRTP unprotectRTCP protectRTP protectRTCP write_udp
  write_leg listen_ok Value sv e a) as M. rewrite E in M. by rewrite bind_ret_state in M. Qed.

Lemma moves_op o : life o = false -> moves (tabling_ (step o)).
Proof.
  intros L a. pose proof (moved_one Unmarshal rand_read newContext KeyLen SaltLen unprotectRTP unprotectRTCP protectRTP protectRTCP write_udp
    write_leg listen_ok Value sv (ETable o) a) as M. cbn [AnchorRun.handle] in M. by rewrite L in M.
Qed.

Lemma moves_reoffer d f body p : moves (rebuildInDialogOffer Unmarshal rand_read sv d f body p).
Proof. by apply (moves_event _ (EReOffer d f body p)). Qed.
Lemma moves_reanswer d f offer body p : moves (rebuildInDialogAnswer Unmarshal rand_read newContext sv d f offer body p).
Proof. by apply (moves_event _ (EReAnswer d f offer body p)). Qed.
Lemma moves_prepare d o body : moves (prepareOwed Unmarshal rand_read newContext sv d o body).
Proof. by apply (moves_event _ (EPrepareOwed d o body)). Qed.
Lemma moves_apply now d p offer q answer : moves (applyReInvite now d p offer q answer).
Proof. intros a. apply (moved_one Unmarshal rand_read newContext KeyLen SaltLen unprotectRTP unprotectRTCP protectRTP protectRTCP write_udp write_leg
  listen_ok Value sv (EApply now d p offer q answer)). Qed.
Lemma moves_owed now d o answer : moves (applyOwed now d o answer).
Proof. intros a. apply (moved_one Unmarshal rand_read newContext KeyLen SaltLen unprotectRTP unprotectRTCP protectRTP protectRTCP write_udp write_leg
  listen_ok Value sv (EApplyOwed now d o answer)). Qed.
Lemma moves_ack now d o body : moves (answerFromACK Unmarshal rand_read newContext sv now d o body).
Proof.
  apply moves_bind; [apply moves_prepare|]. intros [out answer]. apply moves_bind; [apply moves_owed|]. intros _. apply moves_ret.
Qed.
Lemma moves_noteFork x f body answer : moves (noteFork x f body answer).
Proof.
  unfold noteFork. apply moves_bind; [apply moves_gets|]. intros p. destruct (if bool_decide _ then _ else _) as [b c].
  apply moves_bind; [apply moves_session|]. intros i. apply moves_bind; [apply moves_media|]. intros m. by apply (moves_op (ONoteForkUpdate _ _ _ _ _ _)).
Qed.

(** ** Steps beside the requester's answer and the forwarded request *)

#[local] Abbreviation adapter := (@adapter SP R Ctx).
#[local] Abbreviation env_step := (InviteFlow.env_step Unmarshal rand_read newContext KeyLen SaltLen unprotectRTP unprotectRTCP protectRTP
  protectRTCP write_udp write_leg listen_ok Value sv).
#[local] Abbreviation ack2xx := (InviteFlow.ack2xx NewBranch write_ok sv).
#[local] Abbreviation teardown := (InviteFlow.teardown NewBranch sv).
#[local] Abbreviation elsewhere := (Subscribe.elsewhere Unmarshal rand_read newContext KeyLen SaltLen unprotectRTP unprotectRTCP protectRTP
  protectRTCP write_udp write_leg listen_ok Value sv).
#[local] Abbreviation plainly := (Subscribe.plainly Unmarshal rand_read newContext KeyLen SaltLen unprotectRTP unprotectRTCP protectRTP protectRTCP
  write_udp write_leg listen_ok Value sv).
#[local] Abbreviation sub_sides := (Subscribe.sub_sides sv).
#[local] Abbreviation adapt_subscribe := (Subscribe.adapt_subscribe Unmarshal rand_read newContext KeyLen SaltLen unprotectRTP unprotectRTCP
  protectRTP protectRTCP write_udp write_leg listen_ok Value ToLower sv).
#[local] Abbreviation directionFor := (InDialog.directionFor NetworkToLower sv).
#[local] Abbreviation relaxedNotifyDirection := (InDialog.relaxedNotifyDirection sv).
#[local] Abbreviation sendMiddleBye := (InDialog.sendMiddleBye NewBranch sv).
#[local] Abbreviation byeBothEnds := (InDialog.byeBothEnds NewBranch sv).
#[local] Abbreviation end_both := (InDialog.end_both NewBranch sv).
#[local] Abbreviation noteAckMiss := (InDialog.noteAckMiss UriString sv).
#[local] Abbreviation re_offer := (InDialog.re_offer Unmarshal rand_read sv).
#[local] Abbreviation re_answered := (InDialog.re_answered Unmarshal rand_read newContext sv).
#[local] Abbreviation re_adapt := (InDialog.re_adapt Unmarshal rand_read newContext KeyLen SaltLen unprotectRTP unprotectRTCP protectRTP protectRTCP
  write_udp write_leg listen_ok Value sv).
#[local] Abbreviation re_late := (InDialog.re_late Unmarshal rand_read newContext KeyLen SaltLen unprotectRTP unprotectRTCP protectRTP protectRTCP
  write_udp write_leg listen_ok Value NewBranch write_ok sv).
#[local] Abbreviation re_linger := (InDialog.re_linger Unmarshal rand_read newContext KeyLen SaltLen unprotectRTP unprotectRTCP protectRTP
  protectRTCP write_udp write_leg listen_ok Value NewBranch write_ok sv).
#[local] Abbreviation ack_body := (InDialog.ack_body Unmarshal rand_read newContext sv).
#[local] Abbreviation beginUpdate := (InDialog.beginUpdate Unmarshal rand_read sv).
#[local] Abbreviation update_answered := (InDialog.update_answered Unmarshal rand_read newContext KeyLen SaltLen unprotectRTP unprotectRTCP
  protectRTP protectRTCP write_udp write_leg listen_ok Value sv).
#[local] Abbreviation method_adapt := (InDialog.method_adapt Unmarshal rand_read newContext KeyLen SaltLen unprotectRTP unprotectRTCP protectRTP
  protectRTCP write_udp write_leg listen_ok Value sv).
#[local] Abbreviation dialog_adapt := (InDialog.dialog_adapt Unmarshal rand_read newContext KeyLen SaltLen unprotectRTP unprotectRTCP protectRTP
  protectRTCP write_udp write_leg listen_ok Value ToLower sv).
#[local] Abbreviation bye_ends := (InDialog.bye_ends Unmarshal rand_read newContext KeyLen SaltLen unprotectRTP unprotectRTCP protectRTP protectRTCP
  write_udp write_leg listen_ok Value UriString sv).

Section Beside.
Context (I : st -> Prop) `{QI : !Hush moved tearing I}.

Lemma up_set_edge_ (f : st -> edgeTables) : upholds I (change (fun s => set_edge (f s) s)).
Proof. by apply (up_set_edge moved tearing I). Qed.
Lemma up_admission {A} (f : Admission.Server -> A * Admission.Server) : upholds I (admission f).
Proof. intros s Hs. unfold admission. destruct (f (adm_of s)). by apply (quiet_edge (V:=moved) (q:=tearing)). Qed.
Lemma up_subs {A} (f : subTable -> A * subTable) : upholds I (subs f).
Proof. intros s Hs. unfold subs. destruct (f _). by apply (quiet_edge (V:=moved) (q:=tearing)). Qed.
Lemma up_subs_ f : upholds I (subs_ f).
Proof. apply up_subs. Qed.
Lemma up_moves {A} (m : @anchor SP R Ctx A) : moves m -> upholds I (anchoring m).
Proof. intros M. by apply (up_anchored moved tearing I). Qed.
Lemma up_step o : life o = false -> upholds I (table_ (step o)).
Proof. intros L. by apply (mv_op tearing I o). Qed.
Lemma up_beside w : tearing w = true -> upholds I (emit w).
Proof. apply (up_emit moved tearing I). Qed.
Lemma up_branch_ : upholds I (newBranch NewBranch).
Proof. apply (mv_newBranch tearing I). Qed.
#[local] Hint Resolve up_set_edge_ up_admission up_subs up_subs_ up_moves up_step up_beside up_branch_ moves_reoffer moves_reanswer moves_prepare
  moves_apply moves_owed moves_ack moves_noteFork : invite.

Lemma up_elsewhere es : upholds I (elsewhere es).
Proof. pose proof (up_env_step Unmarshal rand_read newContext KeyLen SaltLen unprotectRTP unprotectRTCP protectRTP protectRTCP write_udp write_leg listen_ok
  Value sv I) as E. induction es as [|[d e] es IH]; cbn; walk. Qed.
Lemma up_env d e : upholds I (env_step d e).
Proof. by apply (up_env_step Unmarshal rand_read newContext KeyLen SaltLen unprotectRTP unprotectRTCP protectRTP protectRTCP write_udp write_leg listen_ok
  Value sv I). Qed.
Lemma up_finish d o : upholds I (finish d o).
Proof. pose proof (up_step (OStop (w_timer o)) eq_refl) as S. pose proof (up_step (OHookEndReInviteOffer d) eq_refl) as H. unfold finish. walk. Qed.
Lemma up_ack res from : upholds I (ack2xx res from).
Proof. by apply (up_ack2xx _ _ _ _ _ _ _ _ _ _ _ _ _ _ _ _ I). Qed.
#[local] Hint Resolve up_elsewhere up_env up_finish up_ack : invite.

Lemma up_byeBothEnds d : upholds I (byeBothEnds d).
Proof. unfold InDialog.byeBothEnds, InDialog.sendMiddleBye. walk. Qed.
Lemma up_end d r : upholds I (table (end_ d r)).
Proof. apply (mv_end tearing I). Qed.
#[local] Hint Resolve up_byeBothEnds up_end : invite.
Lemma up_end_both d why : upholds I (end_both d why).
Proof. unfold InDialog.end_both. walk. Qed.
Lemma up_ackMiss now d : upholds I (noteAckMiss now d).
Proof.
  assert (upholds I (table (takeAckMiss d))) as T by (by apply (mv_op tearing I (OTakeAckMiss d))).
  unfold InDialog.noteAckMiss. walk; apply up_set_edge_.
Qed.
#[local] Hint Resolve up_end_both up_ackMiss : invite.

Lemma up_re_offer d req from to out x : upholds I (re_offer d req from to out x).
Proof.
  unfold InDialog.re_offer. destruct (re_answer x); [walk|]. apply upholds_bind; [apply up_moves, moves_reoffer|]. intros [[body offer]|e]; [|walk].
  apply upholds_bind; [by apply (up_step (OSetOwed _ _ _ _ _ _ _))|walk].
Qed.
Lemma up_re_answered d offer from out x : upholds I (re_answered d offer from out x).
Proof.
  unfold InDialog.re_answered. destruct (beq _ _); [walk|]. destruct (re_answer x); [walk|].
  apply upholds_bind; [apply up_moves, moves_reanswer|]. walk.
Qed.
#[local] Hint Resolve up_re_offer up_re_answered : invite.
Lemma up_re_adapt d req offer from to now between out x : upholds I (re_adapt d req offer from to now between out x).
Proof.
  unfold InDialog.re_adapt. destruct offer as [offer|].
  - apply upholds_bind; [walk|]. intros [[body|e] x']; [|walk]. destruct (is_2xx _); [|walk]. apply upholds_bind; [walk|]. intros ?.
    apply upholds_bind; [apply up_moves, moves_apply|]. walk.
  - destruct (_ || _); walk.
Qed.
(** What the 2xx relayed goes out as once more. *)
Lemma up_re_late req to refused ok script :
  (forall m, refused = false -> ok = Some m -> upholds I (emit (WAgain (mkResponse (rs_status m) (SetDestination (source_of req) (rs_msg m)))))) ->
  upholds I (re_late req to refused ok script).
Proof.
  intros A. induction script as [|[d e|now res between|err ex|] script IH]; cbn [InDialog.re_late]; [walk|walk| |exact IH|exact IH].
  apply upholds_bind; [|intros _; exact IH]. destruct (negb _); [walk|]. destruct refused; [walk|]. destruct ok as [m|]; [|walk].
  destruct (beq _ _); [by apply A|walk].
Qed.
Lemma up_re_refused req to ok script : upholds I (re_late req to true ok script).
Proof. by apply up_re_late. Qed.
#[local] Hint Resolve up_re_refused : invite.
Lemma up_re_linger req to script : upholds I (re_linger req to script).
Proof. induction script as [|[d e|now res between|err ex|] script IH]; cbn [InDialog.re_linger]; [walk..|exact IH]. Qed.

Lemma up_ack_body now req d p out : upholds I (ack_body now req d p out).
Proof.
  pose proof (up_step (OClearAck d p (CSeqNumber (rq_headers req))) eq_refl) as C.
  assert (upholds I (table (takeOwed d p (CSeqNumber (rq_headers req))))) as T by (by apply (mv_op tearing I (OTakeOwed d p (CSeqNumber (rq_headers req))))).
  pose proof (fun cseq body => up_step (OSetAckAnswer d p cseq body) eq_refl) as S.
  unfold InDialog.ack_body. apply upholds_bind; [exact C|]. intros _. apply upholds_bind; [exact T|]. intros [o|]; [|walk].
  apply upholds_bind; [apply up_moves, moves_ack|]. intros r. apply upholds_bind; [destruct r; [apply upholds_bind; [apply S|]|]; walk|]. walk.
Qed.

Lemma up_beginUpdate req d from to : upholds I (beginUpdate req d from to).
Proof.
  assert (upholds I (table (beginUpdateOffer d))) as B by (by apply (mv_op tearing I (OBeginUpdateOffer d))).
  pose proof (up_step (OEndUpdateOffer d) eq_refl) as E.
  unfold InDialog.beginUpdate. apply upholds_bind; [walk|]. intros sess. destruct (bool_decide _); [walk|]. apply upholds_bind; [exact B|]. intros ok.
  destruct (negb ok); [walk|]. apply upholds_bind; [walk|]. intros f. apply upholds_bind; [apply up_moves, moves_reoffer|]. intros [[body offer]|e]; [walk|].
  apply upholds_bind; [exact E|walk].
Qed.
Lemma up_update_answered now between x out : upholds I (update_answered now between x out).
Proof.
  unfold InDialog.update_answered. destruct (beq _ _); [walk|]. apply upholds_bind; [apply up_moves, moves_reanswer|]. intros [[body answer]|e]; [|walk].
  apply upholds_bind; [walk|]. intros _. apply upholds_bind; [apply up_moves, moves_apply|]. intros _.
  apply upholds_bind; [|walk]. destruct (ux_fork x); [|walk]. apply upholds_bind; [apply up_moves, moves_noteFork|walk].
Qed.
#[local] Hint Resolve up_update_answered : invite.
Lemma up_method_adapt req from d pk ux now between out err : upholds I (method_adapt req from d pk ux now between out err).
Proof.
  assert (forall d i, upholds I (table (dropOwed d i))) as D by (intros d' i; by apply (mv_op tearing I (ODropOwed d' i))).
  unfold InDialog.method_adapt. destruct (method_is req (str "UPDATE")); [walk|]. destruct (_ || _); [walk|].
  destruct pk as [[[o body] answer]|]; [|walk]. destruct d as [d|]; [|walk]. apply upholds_bind; [destruct (is_2xx out); [apply D|walk]|]. intros []; [|walk].
  apply upholds_bind; [walk|]. intros _. apply upholds_bind; [walk|]. intros _. apply upholds_bind; [apply up_moves, moves_owed|walk].
Qed.
#[local] Hint Resolve up_method_adapt : invite.
Lemma up_dialog_adapt req from d pk ux now between out err : upholds I (dialog_adapt req from d pk ux now between out err).
Proof. unfold InDialog.dialog_adapt. apply upholds_bind; [walk|]. intros [[r err'] rebuilt]. walk. Qed.
Lemma up_plainly f now between out x : upholds I (plainly f now between out x).
Proof. unfold Subscribe.plainly. walk. Qed.
Lemma up_adapt_subscribe req i requester p now between out x : upholds I (adapt_subscribe req i requester p now between out x).
Proof. unfold Subscribe.adapt_subscribe. destruct (_ && _); walk. Qed.

Lemma up_bye_ends now d from err grace : upholds I (bye_ends now d from err grace).
Proof.
  unfold InDialog.bye_ends. apply upholds_bind; [walk|]. intros caller. apply upholds_bind; [walk|]. intros owed. apply upholds_bind; [walk|].
  intros cleared. apply upholds_bind; [walk|]. intros why. walk.
Qed.
Lemma up_relaxed req : upholds I (relaxedNotifyDirection req).
Proof.
  assert (forall d, upholds I (table (noteRelaxedNotify d))) as N by (intros d; by apply (mv_op tearing I (ONoteRelaxedNotify d))).
  unfold InDialog.relaxedNotifyDirection. walk.
Qed.
Lemma up_sub_outcome now req i final : upholds I (sub_outcome Value ToLower now req i final).
Proof. unfold Subscribe.sub_outcome. destruct (subscriptionState _ _ _). walk. Qed.
Lemma up_follow now req i v b : upholds I (follow_remote now req i v b).
Proof. unfold follow_remote. walk. Qed.
End Beside.

Lemma up_re_again I `{QI : !Hush moved aside I} req to refused ok script : upholds I (re_late req to refused ok script).
Proof. apply up_re_late; [apply _|]. intros m _ _. by apply (up_emit moved aside I). Qed.
End Moves.
