(* ===== verification/InDialogSafety.v ===== *)
(** What a request inside a call is owed.

    A re-INVITE is answered, and no request is answered twice ([counted]); a
    request of nobody goes nowhere; and what is relayed of a call carries a body
    the proxy wrote itself. *)

From S2P Require Import Prelude GoTime GoText Netip SipAddr Config RateLimit BanList Location Carriers Cooldown PortPool Latch MediaSession.
From S2P Require Import SdpCodec SdpCrypto SdpParse Topology EdgeSdes SipMsg SipRequest Arrival WebRtcLeg WebRtcSession Dialog DialogInv DialogSafety.
From S2P Require Import MediaAnchor AnchorSafety AnchorRun AnchorBody Forward Hide CarrierRoute Subs AckMiss InviteFlow InviteLogic InviteSafety.
From S2P Require Import Subscribe InDialog Dispatch InDialogLogic.
From S2P Require Admission Shield.

Open Scope Z_scope.

Section InDialogSafety.
Context `{SP : SipParams} `{SH : !SipHeaders}.
Context {R Ctx : Type}.
Context (Unmarshal : gostring -> option SessionDescription).
Context (rand_read : Z -> R -> option (list Z) * R).
Context (newContext : SDESSuite -> list Z -> list Z -> option Ctx).
Context (KeyLen SaltLen : SDESSuite -> option Z).
Context (unprotectRTP unprotectRTCP protectRTP protectRTCP : Ctx -> list Z -> option (list Z) * Ctx).
Context (write_udp : list Z -> AddrPort -> option Z) (write_leg : list Z -> option Z).
Context (listen_ok : Addr -> Z -> bool).
Context (Value : header -> gostring) (NetworkToLower ToLower : gostring -> gostring).
Context (UriString : Uri -> gostring).
Context (NewBranch : R -> gostring * R) (write_ok : request -> bool).
Context (sv : server).
Context (shield : Shield.ShieldConfig) (vouched : gostring -> AddrPort -> bool).
Context (uris : gmap gostring gostring) (regs : carrierRegTable).
#[local] Abbreviation st := (@inviteState SP R Ctx).
#[local] Abbreviation flow := (@flow SP R Ctx).
#[local] Abbreviation adapter := (@adapter SP R Ctx).
#[local] Abbreviation moved := (moved Unmarshal rand_read newContext KeyLen SaltLen unprotectRTP unprotectRTCP protectRTP protectRTCP
  write_udp write_leg listen_ok Value sv).
#[local] Abbreviation env_step := (InviteFlow.env_step Unmarshal rand_read newContext KeyLen SaltLen unprotectRTP unprotectRTCP protectRTP
  protectRTCP write_udp write_leg listen_ok Value sv).
#[local] Abbreviation ack2xx := (InviteFlow.ack2xx NewBranch write_ok sv).
#[local] Abbreviation elsewhere := (Subscribe.elsewhere Unmarshal rand_read newContext KeyLen SaltLen unprotectRTP unprotectRTCP protectRTP
  protectRTCP write_udp write_leg listen_ok Value sv).
#[local] Abbreviation relay_hide := (Subscribe.relay_hide Value NetworkToLower ToLower sv).
#[local] Abbreviation relay_all := (Subscribe.relay_all Unmarshal rand_read newContext KeyLen SaltLen unprotectRTP unprotectRTCP protectRTP
  protectRTCP write_udp write_leg listen_ok Value NetworkToLower ToLower sv).
#[local] Abbreviation forwardAndRelay := (Subscribe.forwardAndRelay Unmarshal rand_read newContext KeyLen SaltLen unprotectRTP unprotectRTCP
  protectRTP protectRTCP write_udp write_leg listen_ok Value NetworkToLower ToLower sv).
#[local] Abbreviation plainly := (Subscribe.plainly Unmarshal rand_read newContext KeyLen SaltLen unprotectRTP unprotectRTCP protectRTP protectRTCP
  write_udp write_leg listen_ok Value sv).
#[local] Abbreviation forwardInSubscription := (Subscribe.forwardInSubscription Unmarshal rand_read newContext KeyLen SaltLen unprotectRTP
  unprotectRTCP protectRTP protectRTCP write_udp write_leg listen_ok Value NetworkToLower ToLower NewBranch sv).
#[local] Abbreviation beginSubscription := (Subscribe.beginSubscription Unmarshal rand_read newContext KeyLen SaltLen unprotectRTP unprotectRTCP
  protectRTP protectRTCP write_udp write_leg listen_ok Value sv).
#[local] Abbreviation adapt_subscribe := (Subscribe.adapt_subscribe Unmarshal rand_read newContext KeyLen SaltLen unprotectRTP unprotectRTCP
  protectRTP protectRTCP write_udp write_leg listen_ok Value ToLower sv).
#[local] Abbreviation relaySubscribe := (Subscribe.relaySubscribe Unmarshal rand_read newContext KeyLen SaltLen unprotectRTP unprotectRTCP protectRTP
  protectRTCP write_udp write_leg listen_ok Value NetworkToLower ToLower sv).
#[local] Abbreviation subscribeToClient := (Subscribe.subscribeToClient Unmarshal rand_read newContext KeyLen SaltLen unprotectRTP unprotectRTCP
  protectRTP protectRTCP write_udp write_leg listen_ok Value NetworkToLower ToLower NewBranch sv).
#[local] Abbreviation subscribeToSwitch := (Subscribe.subscribeToSwitch Unmarshal rand_read newContext KeyLen SaltLen unprotectRTP unprotectRTCP
  protectRTP protectRTCP write_udp write_leg listen_ok Value NetworkToLower ToLower NewBranch sv shield vouched).
#[local] Abbreviation onSubscribe := (Subscribe.onSubscribe Unmarshal rand_read newContext KeyLen SaltLen unprotectRTP unprotectRTCP protectRTP
  protectRTCP write_udp write_leg listen_ok Value NetworkToLower ToLower NewBranch sv shield vouched).
#[local] Abbreviation relaxedNotifyDirection := (InDialog.relaxedNotifyDirection sv).
#[local] Abbreviation end_both := (InDialog.end_both NewBranch sv).
#[local] Abbreviation noteAckMiss := (InDialog.noteAckMiss UriString sv).
#[local] Abbreviation re_offer := (InDialog.re_offer Unmarshal rand_read sv).
#[local] Abbreviation re_answered := (InDialog.re_answered Unmarshal rand_read newContext sv).
#[local] Abbreviation re_adapt := (InDialog.re_adapt Unmarshal rand_read newContext KeyLen SaltLen unprotectRTP unprotectRTCP protectRTP protectRTCP
  write_udp write_leg listen_ok Value sv).
#[local] Abbreviation re_late := (InDialog.re_late Unmarshal rand_read newContext KeyLen SaltLen unprotectRTP unprotectRTCP protectRTP protectRTCP
  write_udp write_leg listen_ok Value NewBranch write_ok sv).
#[local] Abbreviation re_linger := (InDialog.re_linger Unmarshal rand_read newContext KeyLen SaltLen unprotectRTP unprotectRTCP protectRTP
  protectRTCP write_udp write_leg listen_ok Value NewBranch write_ok sv).
#[local] Abbreviation abandonReInvite := (InDialog.abandonReInvite Unmarshal rand_read newContext KeyLen SaltLen unprotectRTP unprotectRTCP
  protectRTP protectRTCP write_udp write_leg listen_ok Value NewBranch write_ok sv).
#[local] Abbreviation re_pump := (InDialog.re_pump Unmarshal rand_read newContext KeyLen SaltLen unprotectRTP unprotectRTCP protectRTP protectRTCP
  write_udp write_leg listen_ok Value NetworkToLower ToLower NewBranch write_ok sv).
#[local] Abbreviation re_exchange := (InDialog.re_exchange Unmarshal rand_read newContext KeyLen SaltLen unprotectRTP unprotectRTCP protectRTP
  protectRTCP write_udp write_leg listen_ok Value NetworkToLower ToLower NewBranch write_ok sv regs).
#[local] Abbreviation onReInvite := (InDialog.onReInvite Unmarshal rand_read newContext KeyLen SaltLen unprotectRTP unprotectRTCP protectRTP
  protectRTCP write_udp write_leg listen_ok Value NetworkToLower ToLower NewBranch write_ok sv regs).
#[local] Abbreviation ack_body := (InDialog.ack_body Unmarshal rand_read newContext sv).
#[local] Abbreviation onAck := (InDialog.onAck Unmarshal rand_read newContext Value NetworkToLower ToLower NewBranch write_ok sv regs).
#[local] Abbreviation beginUpdate := (InDialog.beginUpdate Unmarshal rand_read sv).
#[local] Abbreviation update_answered := (InDialog.update_answered Unmarshal rand_read newContext KeyLen SaltLen unprotectRTP unprotectRTCP
  protectRTP protectRTCP write_udp write_leg listen_ok Value sv).
#[local] Abbreviation method_adapt := (InDialog.method_adapt Unmarshal rand_read newContext KeyLen SaltLen unprotectRTP unprotectRTCP protectRTP
  protectRTCP write_udp write_leg listen_ok Value sv).
#[local] Abbreviation dialog_adapt := (InDialog.dialog_adapt Unmarshal rand_read newContext KeyLen SaltLen unprotectRTP unprotectRTCP protectRTP
  protectRTCP write_udp write_leg listen_ok Value ToLower sv).
#[local] Abbreviation bye_ends := (InDialog.bye_ends Unmarshal rand_read newContext KeyLen SaltLen unprotectRTP unprotectRTCP protectRTP protectRTCP
  write_udp write_leg listen_ok Value UriString sv).
#[local] Abbreviation forward_in_dialog := (InDialog.forward_in_dialog Unmarshal rand_read newContext KeyLen SaltLen unprotectRTP unprotectRTCP
  protectRTP protectRTCP write_udp write_leg listen_ok Value NetworkToLower ToLower UriString NewBranch write_ok sv regs).
#[local] Abbreviation directed := (InDialog.directed Unmarshal rand_read newContext KeyLen SaltLen unprotectRTP unprotectRTCP protectRTP protectRTCP
  write_udp write_leg listen_ok Value NetworkToLower ToLower UriString NewBranch write_ok sv shield vouched regs).
#[local] Abbreviation onInDialog := (InDialog.onInDialog Unmarshal rand_read newContext KeyLen SaltLen unprotectRTP unprotectRTCP protectRTP
  protectRTCP write_udp write_leg listen_ok Value NetworkToLower ToLower UriString NewBranch write_ok sv shield vouched uris regs).
#[local] Abbreviation onPrackUpdate := (InDialog.onPrackUpdate Unmarshal rand_read newContext KeyLen SaltLen unprotectRTP unprotectRTCP protectRTP
  protectRTCP write_udp write_leg listen_ok Value NetworkToLower ToLower UriString NewBranch write_ok sv shield vouched uris regs).
#[local] Abbreviation messageToSwitch := (InDialog.messageToSwitch Unmarshal rand_read newContext KeyLen SaltLen unprotectRTP unprotectRTCP
  protectRTP protectRTCP write_udp write_leg listen_ok Value NetworkToLower ToLower NewBranch sv shield vouched).
#[local] Abbreviation onMessage := (InDialog.onMessage Unmarshal rand_read newContext KeyLen SaltLen unprotectRTP unprotectRTCP protectRTP
  protectRTCP write_udp write_leg listen_ok Value NetworkToLower ToLower UriString NewBranch write_ok sv shield vouched uris regs).
#[local] Hint Resolve up_elsewhere up_env up_re_adapt up_re_refused up_re_again
  up_re_linger up_update_answered up_method_adapt up_dialog_adapt up_plainly up_adapt_subscribe up_bye_ends : invite.

Section Again.
Context (I : st -> Prop) `{QI : !Hush moved tearing I}.
Lemma s_emit w : tearing w = true -> upholds I (emit w).
Proof. eapply up_beside; exact QI. Qed.
Lemma s_step o : life o = false -> upholds I (table_ (step o)).
Proof. eapply up_step; exact QI. Qed.
Lemma s_branch : upholds I (newBranch NewBranch).
Proof. apply (mv_newBranch Unmarshal rand_read newContext KeyLen SaltLen unprotectRTP unprotectRTCP protectRTP protectRTCP write_udp write_leg listen_ok
  Value sv tearing I). Qed.
Lemma s_admission {A} (f : Admission.Server -> A * Admission.Server) : upholds I (admission f).
Proof. eapply up_admission; exact QI. Qed.
Lemma s_subs {A} (f : subTable -> A * subTable) : upholds I (subs f).
Proof. eapply up_subs; exact QI. Qed.
Lemma s_op {A} (o : op) (g : dialogTable -> A * dialogTable) : life o = false -> (forall t, (g t).2 = step o t) -> upholds I (table g).
Proof. apply (mv_op Unmarshal rand_read newContext KeyLen SaltLen unprotectRTP unprotectRTCP protectRTP protectRTCP write_udp write_leg listen_ok
  Value sv tearing I). Qed.
Lemma s_end d r : upholds I (table (end_ d r)).
Proof. eapply up_end; exact QI. Qed.
Lemma s_moves {A} (m : @anchor SP R Ctx A) : moves Unmarshal rand_read newContext KeyLen SaltLen unprotectRTP unprotectRTCP protectRTP protectRTCP write_udp
  write_leg listen_ok Value sv m -> upholds I (anchoring m).
Proof. apply up_moves; exact QI. Qed.
Lemma s_finish d o : upholds I (finish d o).
Proof. eapply up_finish; exact QI. Qed.
Lemma s_ack res from : upholds I (ack2xx res from).
Proof. eapply up_ack; exact QI. Qed.
Lemma s_end_both d why : upholds I (end_both d why).
Proof. eapply up_end_both; exact QI. Qed.
Lemma s_ackMiss now d : upholds I (noteAckMiss now d).
Proof. eapply up_ackMiss; exact QI. Qed.
Lemma s_relaxed req : upholds I (relaxedNotifyDirection req).
Proof. eapply up_relaxed; exact QI. Qed.
Lemma s_sub_outcome now req i final : upholds I (sub_outcome Value ToLower now req i final).
Proof. eapply up_sub_outcome; exact QI. Qed.
Lemma s_follow now req i v b : upholds I (follow_remote now req i v b).
Proof. eapply up_follow; exact QI. Qed.
Lemma s_cancel d why : upholds I (cancelCall d why).
Proof. eapply up_cancelCall. eapply hush_cancelling; exact QI. Qed.
Lemma s_beginUpdate req d from to : upholds I (beginUpdate req d from to).
Proof. eapply up_beginUpdate; exact QI. Qed.
Lemma s_ack_body now req d p out : upholds I (ack_body now req d p out).
Proof. eapply up_ack_body; exact QI. Qed.
End Again.
#[local] Hint Resolve s_emit s_step s_branch s_admission s_subs s_end s_finish s_ack s_end_both s_ackMiss s_relaxed s_sub_outcome s_follow s_cancel s_beginUpdate s_ack_body
  s_moves moves_reoffer moves_reanswer moves_prepare moves_apply moves_owed moves_ack : invite.

(** ** The status of what is relayed *)

#[local] Abbreviation any := (fun _ : st => True).
Ltac skip := match goal with |- follows _ (mbind _ _) _ => apply (follows_bind _ (fun _ => any)); [by intros|intros ?] end.
Ltac settle := repeat first [progress skip | match goal with |- follows _ (mret _) _ => apply follows_ret; intros; cbn; by repeat case_match end
  | match goal with |- follows _ (match ?x with _ => _ end) _ => destruct x end ].

(** What an adapt function makes of a response has its status. *)
Definition status_kept (out : response) (r : response + anchorError) : Prop :=
  match r with inl o => rs_status o = rs_status out | inr _ => True end.

Lemma re_adapt_status d req offer from to now between out x s :
  status_kept out (re_adapt d req offer from to now between out x s).1.1.
Proof.
  assert (follows any (re_adapt d req offer from to now between out x) (fun r _ => status_kept out r.1)) as F; [|by apply F].
  unfold InDialog.re_adapt. destruct offer as [offer|]; settle.
Qed.

(** ** A re-INVITE is answered *)

Lemma counted_final n w (P : st -> Prop) : final_of w = true -> (forall s, P s -> counted n s) -> follows P (emit w) (fun _ => counted (S n)).
Proof. apply final_emit. Qed.
Lemma counted_other n w : final_of w = false -> upholds (counted n : st -> Prop) (emit w).
Proof. intros F s C. unfold counted, finals in *. cbn. rewrite List.filter_app. cbn. by rewrite F, app_nil_r. Qed.

(** A response relayed counts when it is final. *)
Lemma relay_hide_counts {A} n req mode (ad : adapter A) now between res x :
  (forall out, upholds (counted n) (ad now between out x)) ->
  (forall out s, status_kept out (ad now between out x s).1.1) ->
  follows (counted n) (relay_hide req mode ad now between res x)
    (fun r => match r.1 with relayedOK => counted (if 200 <=? rs_status res then S n else n) | _ => counted n end).
Proof.
  intros U K. unfold Subscribe.relay_hide. destruct (relayResponseHide _ _ _ _ _ _) as [out|] eqn:E; [|by apply follows_ret].
  apply relayResponse_spec in E as (_ & St & _).
  apply (follows_bind _ (fun r s => counted n s /\ status_kept out r.1)); [intros s C; split; [by apply U|apply K]|].
  intros [[o|e] x']; [|by apply follows_ret; intros s []]. intros s [C Ho]. cbn in Ho. cbn. rewrite St in Ho. destruct (200 <=? rs_status res) eqn:F.
  - apply (counted_final n (WRelay o) (counted n)); [cbn; by rewrite Ho|done|done].
  - apply counted_other; [cbn; by rewrite Ho|done].
Qed.

Lemma reject_counted n code : 200 <= code -> follows (counted n) (reject_ code : flow unit) (fun _ => counted (S n)).
Proof. intros C. apply counted_final; [cbn; lia|done]. Qed.

Lemma abandon_counted n req out to script : follows (counted n) (abandonReInvite req out to script) (fun _ => counted (S n)).
Proof.
  unfold InDialog.abandonReInvite. eapply follows_bind; [by apply reject_counted|]. intros ?; cbv beta.
  change (upholds (counted (S n) : st -> Prop) (_ ← emit (WCancel (BuildCancel out)); re_linger req to script)). walk.
Qed.

Lemma re_pump_counted n d req out offer from to resp script x :
  follows (counted n) (re_pump d req out offer from to resp script x) (fun _ => counted (S n)).
Proof.
  assert (forall code y, 200 <= code -> follows (counted n) (_ ← reject_ code; mret y : flow bool) (fun _ => counted (S n))) as Rj.
  { intros code y C. eapply follows_bind; [by apply reject_counted|]. intros ?; cbv beta. by apply follows_ret. }
  assert (forall sc y, follows (counted n) (_ ← abandonReInvite req out to sc; mret y : flow bool) (fun _ => counted (S n))) as Ab.
  { intros sc y. eapply follows_bind; [apply abandon_counted|]. intros ?; cbv beta. by apply follows_ret. }
  revert x. induction script as [|[d' e|now res between|err ex|] script IH]; intros x; cbn [InDialog.re_pump]; [apply Ab| | |by apply Rj|apply Ab].
  - past. intros _. apply IH.
  - destruct (negb (Forwardable res)); [apply IH|].
    eapply follows_bind; [apply (relay_hide_counts n); [intros ?; walk|intros ? s; apply re_adapt_status]|]. intros [r x']. destruct r; cbn [fst].
    + destruct (200 <=? rs_status res); [|apply IH].
      match goal with |- follows ?P ?m _ => assert (upholds P m) as U; [|exact U] end. pose proof (up_step Unmarshal rand_read newContext KeyLen SaltLen unprotectRTP
        unprotectRTCP protectRTP protectRTCP write_udp write_leg listen_ok Value sv (counted (S n)) (OArmOwedTimer d) eq_refl) as T. walk.
    + apply IH.
    + eapply follows_bind; [by apply reject_counted|]. intros ?; cbv beta.
      match goal with |- follows ?P ?m _ => assert (upholds P m) as U; [|exact U] end. walk.
Qed.

(** A handler whose last step answers. *)
#[local] Abbreviation answers n := (fun m : flow unit => follows (counted n) m (fun _ => counted (S n))).
Lemma answers_reject n code : 200 <= code -> answers n (reject_ code).
Proof. apply reject_counted. Qed.

Lemma re_exchange_counted n now req onPrivate from to dest d tr :
  follows (counted n) (re_exchange now req onPrivate from to dest d tr) (fun _ => counted (S n)).
Proof.
  assert (forall code y, 200 <= code -> follows (counted n) (_ ← reject_ code; mret y : flow bool) (fun _ => counted (S n))) as Rj.
  { intros code y C. eapply follows_bind; [by apply reject_counted|]. intros ?; cbv beta. by apply follows_ret. }
  pose proof (counted_other n) as O. assert (forall e, 200 <= rejectMedia_code e) as Code by (by intros []).
  unfold InDialog.re_exchange. set (C := counted n : st -> Prop). apply (upholds_then C).
  { destruct (beq _ _); [stay|]. apply upholds_bind; [apply (s_moves C), moves_reoffer|]. walk. }
  intros [built|e]; [|by apply Rj]. past. intros branch. past. intros [[out resp]|]; [|by apply Rj]. destruct (negb (tr_opens tr)); [by apply Rj|].
  apply (upholds_then C); [by apply O|]. intros _. apply re_pump_counted.
Qed.

(** C8: A re-INVITE is answered, and answered once.  Whatever dialog it names or
    does not, whatever its offer is and whatever the far end makes of it - no
    answer, provisionals only, an answer that cannot be anchored, a 2xx that
    crosses the CANCEL - the handler returns with exactly one more final response
    on the requester's transaction. *)
Theorem a_reinvite_is_answered_once now req onPrivate tr s :
  finals (is_wire (onReInvite now req onPrivate tr s).2) = S (finals (is_wire s)).
Proof.
  set (n := finals (is_wire s)). assert (follows (counted n) (onReInvite now req onPrivate tr) (fun _ => counted (S n))) as F; [|by apply (F s)].
  assert (forall code, 200 <= code -> follows (counted n) (reject_ code : flow unit) (fun _ => counted (S n))) as Rj by (intros; by apply reject_counted).
  unfold InDialog.onReInvite. set (C := counted n : st -> Prop). apply (upholds_then C); [stay|]. intros [[[[from to] dest] [d|]]|]; [|by apply Rj..].
  past. intros sess. destruct (bool_decide _); [by apply Rj|]. apply (upholds_then C); [by apply (s_step C (ONoteCSeq d (rq_headers req)))|]. intros _.
  apply (upholds_then C); [by apply (s_op C (OBeginReInviteOffer d))|]. intros []; [|by apply Rj]. cbn [negb].
  eapply follows_bind; [apply re_exchange_counted|]. intros keep; cbv beta.
  pose proof (s_step (counted (S n)) (OEndReInviteOffer d) eq_refl) as E. destruct keep; [by apply follows_ret|exact E].
Qed.

(** ** No request is answered twice *)

(** The answer is out, or not yet. *)
Definition atMostOne (n : nat) (s : st) : Prop := counted n s \/ counted (S n) s.
#[export] Instance atMostOne_hush V n : Hush V aside (counted n) -> Hush V aside (counted (S n)) -> Hush V aside (atMostOne n).
Proof. apply quiet_or. Qed.

Lemma most_before n s : counted n s -> atMostOne n s.
Proof. by left. Qed.
Lemma most_after n s : counted (S n) s -> atMostOne n s.
Proof. by right. Qed.

(** An adapt function that keeps the status of a response, fails only on a final
    one, and keeps [ok] as long as it does not fail. *)
Class Adapts {A} (ok : A -> Prop) (ad : adapter A) : Prop := mkAdapts {
  ad_counted : forall n now between out x, upholds (counted n) (ad now between out x);
  ad_outcome : forall now between out x s, ok x -> let r := (ad now between out x s).1 in
    match r.1 with inl o => rs_status o = rs_status out /\ ok r.2 | inr _ => 200 <= rs_status out end
}.

(** Where a trip ends: nothing relayed as final, or that and no complaint. *)
Definition trip_post {A} (ok : A -> Prop) (n : nat) (r : tripEnd * A) (s : st) : Prop :=
  (counted n s /\ (te_err r.1 = true -> ok r.2)) \/ (counted (S n) s /\ te_err r.1 = false /\ ok r.2).

Lemma relay_all_post {A} (ok : A -> Prop) n req mode (ad : adapter A) `{AD : !Adapts ok ad} script x : ok x ->
  follows (counted n) (relay_all req mode ad script x) (trip_post ok n).
Proof.
  revert x. induction script as [|[d' e|now res between|err ex|] script IH]; intros x Ok; cbn [Subscribe.relay_all].
  - apply follows_ret. intros s C. by left.
  - past. intros _. by apply IH.
  - destruct (negb (Forwardable res)); [by apply IH|].
    apply (follows_bind _ (fun r s => match r.1 with
      | relayedOK => counted (if 200 <=? rs_status res then S n else n) s /\ ok r.2
      | relayDropped => counted n s /\ ok r.2
      | relayFailed => counted n s /\ 200 <= rs_status res end)).
    + unfold Subscribe.relay_hide. destruct (relayResponseHide _ _ _ _ _ _) as [out|] eqn:E; [|by apply follows_ret].
      apply relayResponse_spec in E as (_ & St & _).
      apply (follows_bind _ (fun r s => counted n s /\ match r.1 with inl o => rs_status o = rs_status res /\ ok r.2 | inr _ => 200 <= rs_status res end)).
      { intros s C. split; [by apply ad_counted|]. rewrite <- St. by apply (ad_outcome now between out x s). }
      intros [[o|e] x']; [|by apply follows_ret; intros s []]. intros s (C & So & Ok'). cbn in So, Ok'. cbn [fst snd]. cbn. split; [|done].
      destruct (200 <=? rs_status res) eqn:F.
      * apply (counted_final n (WRelay o) (counted n)); [cbn; by rewrite So|done|done].
      * apply counted_other; [cbn; by rewrite So|done].
    + intros [r x']. cbn [fst snd]. destruct (200 <=? rs_status res) eqn:F.
      * apply follows_ret. intros s H. destruct r; cbn in H; [right|left|left]; by destruct H.
      * destruct r; [| |intros s [_ H]; lia]; intros s [C Ok']; by apply IH.
  - apply follows_ret. intros s C. by left.
  - apply follows_ret. intros s C. by left.
Qed.

Lemma forward_post {A} (ok : A -> Prop) n req out mode (ad : adapter A) `{AD : !Adapts ok ad} tr x : ok x ->
  follows (counted n) (forwardAndRelay req out mode ad tr x) (trip_post ok n).
Proof.
  intros Ok. unfold Subscribe.forwardAndRelay. destruct (tr_opens tr); [|by apply follows_ret; intros s C; left].
  apply (upholds_then (counted n)); [by apply counted_other|]. intros _. by apply (relay_all_post ok).
Qed.

Lemma success_final res : is_2xx res = true -> 200 <= rs_status res.
Proof. unfold is_2xx. intros H%Z.eqb_eq. pose proof (Z.quot_rem' (rs_status res) 100). pose proof (Z.rem_bound_pos (rs_status res) 100). destruct (decide (0 <= rs_status res)); [lia|].
  pose proof (Z.rem_bound_neg_pos (rs_status res) 100). lia. Qed.

#[export] Instance plainly_adapts f : Adapts (fun _ => True) (plainly f).
Proof.
  constructor; [intros; walk|]. intros now between out x s _. unfold Subscribe.plainly, mbind, flow_bind. by destruct (elsewhere between s).
Qed.

#[export] Instance subscribe_adapts req i requester p : Adapts (fun _ => True) (adapt_subscribe req i requester p).
Proof.
  constructor; [intros; walk|]. intros now between out x s _.
  assert (follows any (adapt_subscribe req i requester p now between out x)
    (fun r _ => match r.1 with inl o => rs_status o = rs_status out /\ True | inr _ => 200 <= rs_status out end)) as F; [|by apply F].
  unfold Subscribe.adapt_subscribe. destruct (_ && _); [skip; skip|]; apply follows_ret; intros; cbn; by repeat case_match.
Qed.

Lemma update_status now between x out s : status_kept out (update_answered now between x out s).1.
Proof.
  assert (follows any (update_answered now between x out) (fun r _ => status_kept out r)) as F; [|by apply F].
  unfold InDialog.update_answered. settle.
Qed.

(** What [method_adapt] makes of a response nothing failed before. *)
Definition made (out : response) (r : (response + anchorError) * option anchorError * bool) : Prop :=
  match r.1.1 with inl o => rs_status o = rs_status out /\ r.1.2 = None | inr _ => is_2xx out = true end.

Lemma method_outcome req from d pk ux now between out s : made out (method_adapt req from d pk ux now between out None s).1.
Proof.
  assert (follows any (method_adapt req from d pk ux now between out None) (fun r _ => made out r)) as F; [|by apply F].
  unfold InDialog.method_adapt. destruct (method_is req (str "UPDATE")).
  - destruct ux as [x|]; [|by apply follows_ret]. destruct (is_2xx (on_msg _ out)) eqn:T; [|by apply follows_ret].
    apply (follows_bind _ (fun r _ => status_kept (on_msg (own_contact (side_uri from)) out) r)); [intros s' _; apply update_status|].
    intros [o|e]; apply follows_ret; intros s' H; [by split|exact T].
  - destruct (_ || _); [by apply follows_ret|]. destruct pk as [[[o body] answer]|]; [|by apply follows_ret]. destruct d as [d|]; [|by apply follows_ret].
    apply (follows_bind _ (fun b _ => b = true -> is_2xx out = true)).
    { destruct (is_2xx out); [by intros s' _|by apply follows_ret]. }
    intros []; [|by apply follows_ret]. apply follows_weaken with (fun _ : st => is_2xx out = true) (fun r _ => made out r); [|by intros s' H; apply H|done].
    intros s1 T. apply (fun G : follows any _ (fun r _ => made out r) => G s1 I). settle.
Qed.

#[export] Instance dialog_adapts req from d pk ux : Adapts (fun x => x = None) (dialog_adapt req from d pk ux).
Proof.
  constructor; [intros; walk|]. intros now between out x s ->.
  assert (follows any (dialog_adapt req from d pk ux now between out None)
    (fun r _ => match r.1 with inl o => rs_status o = rs_status out /\ r.2 = None | inr _ => 200 <= rs_status out end)) as F; [|by apply F].
  unfold InDialog.dialog_adapt. apply (follows_bind _ (fun r _ => made out r)); [intros s' _; apply method_outcome|].
  intros [[[o|e] err] rebuilt]; apply follows_ret; intros s'.
  - intros [H E]. cbn in *. split; [|done]. by case_match.
  - intros T. by apply success_final.
Qed.

(** ** The handlers *)

#[local] Abbreviation most n := (fun m : flow _ => follows (counted n) m (fun _ => atMostOne n)).
#[local] Abbreviation most_ m := (forall n, follows (counted n) m (fun _ => atMostOne n)).

Lemma most_same {A} (m : flow A) n : upholds (counted n) m -> follows (counted n) m (fun _ => atMostOne n).
Proof. intros U. eapply follows_weaken; [exact U|done|intros ? ?; apply most_before]. Qed.
Lemma most_final {A} (m : flow A) n : follows (counted n) m (fun _ => counted (S n)) -> follows (counted n) m (fun _ => atMostOne n).
Proof. intros U. eapply follows_weaken; [exact U|done|intros ? ?; apply most_after]. Qed.
Lemma most_reject n code : 200 <= code -> follows (counted n) (reject_ code : flow unit) (fun _ => atMostOne n).
Proof. intros C. by apply most_final, reject_counted. Qed.
Lemma most_then {A B} n (m : flow A) (k : A -> flow B) : upholds (counted n) m -> (forall a, follows (counted n) (k a) (fun _ => atMostOne n)) ->
  follows (counted n) (m ≫= k) (fun _ => atMostOne n).
Proof. apply follows_bind. Qed.
Lemma trip_failed_most n e : follows (counted n) (trip_failed e : flow unit) (fun _ => counted (S n)).
Proof. apply reject_counted. by destruct (te_expired e). Qed.

(** A trip whose failure is answered. *)
Lemma most_trip n req out mode (ad : adapter unit) `{AD : !Adapts (fun _ => True) ad} tr (k : tripEnd -> flow unit) :
  (forall e m, te_err e = false -> upholds (counted m) (k e)) -> (forall e, te_err e = true -> follows (counted n) (k e) (fun _ => counted (S n))) ->
  follows (counted n) ('(e, _) ← forwardAndRelay req out mode ad tr tt; k e) (fun _ => atMostOne n).
Proof.
  intros K F. eapply follows_bind; [by apply (forward_post (fun _ => True))|]. intros [e x]. destruct (te_err e) eqn:E.
  - apply follows_weaken with (counted n) (fun _ : unit => counted (S n)); [by apply F| |intros ? ?; apply most_after].
    intros s [[C _]|(_ & Er & _)]; [done|]. cbn in Er. congruence.
  - intros s [[C _]|(C & _)]; [left|right]; by apply K.
Qed.

(** Where a handler ends. *)
Definition ending_post (n : nat) (r : ending_of) (s : st) : Prop := match r with returned => atMostOne n s | panicked => counted n s end.

Lemma ends_returns n (m : flow unit) : follows (counted n) m (fun _ => atMostOne n) -> follows (counted n) (returns m) (ending_post n).
Proof. intros M. unfold returns. eapply follows_bind; [exact M|]. intros u. by apply follows_ret. Qed.
Lemma ends_reject n code : 200 <= code -> follows (counted n) (returns (reject_ code : flow unit)) (ending_post n).
Proof. intros C. by apply ends_returns, most_reject. Qed.
#[local] Hint Resolve most_reject ends_reject : core.
(** From a state to the handler that goes through it. *)
Ltac through := match goal with C : ?P ?s |- ?Q (?m ?s).2 => assert (follows P m (fun _ => Q)) as F; [|by apply F]; clear dependent s end.

Lemma forward_in_dialog_most n now req onPrivate from to dest d pk ux tr grace :
  follows (counted n) (forward_in_dialog now req onPrivate from to dest d pk ux tr grace) (fun _ => atMostOne n).
Proof.
  unfold InDialog.forward_in_dialog. apply most_then; [stay|]. intros branch. apply most_then; [stay|]. intros [[out resp]|]; [|by apply most_reject].
  cbv zeta. eapply follows_bind; [apply (forward_post (fun x : option anchorError => x = None)); [apply _|done]|]. intros [e err].
  set (bye := te_err e && method_is req (str "BYE")).
  assert (forall m, upholds (counted m : st -> Prop) (match d with
      | Some d => if method_is req (str "BYE") && byeEndsDialog (te_final e) then bye_ends now d from (te_err e) grace else mret tt
      | None => mret tt end)) as Bye by (intros m; walk).
  unfold trip_post. cbn [fst snd]. intros s [[C Ok]|(C & Er & ->)].
  - destruct bye eqn:B; [|destruct err as [e'|]; [destruct d as [d|]|]].
    + apply andb_true_iff in B as [Er _]. rewrite (Ok Er). apply most_after. through.
      apply (follows_bind _ (fun _ => counted (S n))).
      { apply (upholds_then (counted n)); [|intros _; by apply reject_counted]. destruct (write_ok _); [|stay]. by apply counted_other. }
      intros _. exact (Bye (S n)).
    + apply most_after. through. past. intros _. eapply follows_bind; [by apply reject_counted|]. intros ?; cbv beta.
      match goal with |- follows ?P ?m _ => assert (upholds P m) as U; [|exact U] end. walk.
    + by left.
    + apply most_before. through. past. intros _. exact (Bye n).
  - unfold bye. rewrite Er in *. cbn [andb]. apply most_after. through. past. intros _. exact (Bye (S n)).
Qed.

Lemma directed_most n now req onPrivate src dir tr grace :
  follows (counted n) (directed now req onPrivate src dir tr grace) (ending_post n).
Proof.
  assert (forall e, 200 <= rejectMedia_code e) as Code by (by intros []).
  unfold InDialog.directed. destruct dir as [[[from to] dest] d]. set (C := counted n : st -> Prop).
  apply (follows_bind _ (fun b s => if b : bool then counted (S n) s else C s)).
  { assert (forall code, 200 <= code -> follows C (_ ← reject_ code; mret true : flow bool) (fun b s => if b : bool then counted (S n) s else C s)) as Rj.
    { intros code K. eapply follows_bind; [by apply reject_counted|]. intros ?; cbv beta. by apply follows_ret. }
    unfold refuse_dialogless. destruct d as [d|]; [by apply follows_ret|]. destruct (_ || _); [by apply Rj|]. destruct (_ && _); [|by apply follows_ret].
    past. intros []; [by apply follows_ret|by apply Rj]. }
  intros []; [apply follows_ret; intros s; apply most_after|]. past. intros carrier. destruct (_ && _); [by apply ends_reject|].
  apply (upholds_then C); [destruct d as [d|]; [by apply (s_step C (ONoteCSeq d (rq_headers req)))|stay]|]. intros _.
  pose proof (forward_in_dialog_most n) as F. destruct (_ || _); [apply ends_returns, F|]. destruct d as [d|]; [|by apply follows_ret].
  destruct (method_is req (str "UPDATE")).
  - apply (upholds_then C); [walk|]. intros [x|[|e]]; [|by apply ends_reject..]. eapply follows_bind; [apply F|]. intros ?; cbv beta.
    apply (upholds_then (atMostOne n)); [by apply (s_step (atMostOne n) (OEndUpdateOffer d))|]. intros _. by apply follows_ret.
  - past. intros [o|]; [|by apply ends_reject]. past. intros [[out answer]|e]; [apply ends_returns, F|by apply ends_reject].
Qed.

Lemma in_subscription_most n now req i v fromSub tr :
  follows (counted n) (forwardInSubscription now req i v fromSub tr) (fun _ => atMostOne n).
Proof.
  unfold Subscribe.forwardInSubscription. apply most_then; [stay|]. intros v'. destruct (sub_sides _ _ _) as [[[[from to] dest] contact]|]; [|by apply most_reject].
  apply most_then; [stay|]. intros _. apply most_then; [stay|]. intros branch. destruct (sub_request _ _ _ _ _ _ _ _ _ _ _) as [out|]; [|by apply most_reject].
  apply (most_trip n req out (if Bool.eqb (bool_decide (s_subscriberPlane v = planePublic)) fromSub then respToClient else respToSwitch) _ tr
    (fun e => if te_err e then trip_failed e else match te_final e with Some final => _ | None => mret tt end)).
  - intros e m ->. walk.
  - intros e ->. apply trip_failed_most.
Qed.

Lemma unnamed_code req onPrivate code : unnamed sv uris req onPrivate = Some code -> 200 <= code.
Proof. unfold unnamed. intros H. repeat case_match; simplify_eq; lia. Qed.

Lemma in_dialog_most n now req onPrivate src tr grace : follows (counted n) (onInDialog now req onPrivate src tr grace) (ending_post n).
Proof.
  unfold InDialog.onInDialog. destruct (unnamed _ _ _ _) as [code|] eqn:U; [apply ends_reject; by eapply unnamed_code|].
  set (C := counted n : st -> Prop). cbv zeta. apply (upholds_then C); [walk|]. intros [[[i v] fromSub]|]; [apply ends_returns, in_subscription_most|].
  apply (upholds_then C); [stay|]. intros o. apply (upholds_then C); [walk|]. intros [dir|]; [apply directed_most|apply ends_reject; by destruct (_ && _)].
Qed.

Lemma prack_update_most n now req onPrivate src meanwhile tr grace :
  follows (counted n) (onPrackUpdate now req onPrivate src meanwhile tr grace) (ending_post n).
Proof.
  unfold InDialog.onPrackUpdate. destruct (beq _ _); [by apply ends_reject|]. set (C := counted n : st -> Prop). apply (upholds_then C); [stay|].
  intros [[[[from to] dest] [d|]]|]; [|by apply ends_reject..]. past. intros owed. destruct (_ && _); [by apply ends_reject|].
  past. intros _. apply in_dialog_most.
Qed.

Lemma message_most n now req onPrivate src tr grace : follows (counted n) (onMessage now req onPrivate src tr grace) (ending_post n).
Proof.
  unfold InDialog.onMessage. destruct (_ || _); [destruct (tooLargeMessage req); [by apply ends_reject|apply in_dialog_most]|].
  apply ends_returns. unfold InDialog.messageToSwitch. apply most_then; [unfold Subscribe.admitted; stay|].
  intros [b []]; [|by apply most_reject|by apply most_same, upholds_ret]. destruct (tooLargeMessage req); [by apply most_reject|].
  apply most_then; [stay|]. intros node. destruct (publicSideFor _ _ _) as [pub|]; [|by apply most_reject]. destruct node as [entry|]; [|by apply most_reject].
  apply most_then; [stay|]. intros branch. destruct (prepareForward _ _ _ _ _ _ _ _) as [out|]; [|by apply most_reject].
  apply (most_trip n req _ _ _ tr (fun e => if te_err e then trip_failed e else mret tt)); intros e; [intros m ->; stay|intros ->; apply trip_failed_most].
Qed.

(** *** SUBSCRIBE *)

Lemma begin_subscription_most n now req event token subscriber route goneCode meanwhile : 200 <= goneCode ->
  follows (counted n) (beginSubscription now req event token subscriber route goneCode meanwhile) (fun o => counted (match o with Some _ => n | None => S n end)).
Proof.
  intros Gc. set (C := counted n : st -> Prop). set (Q := fun (o : option nat) => counted (match o with Some _ => n | None => S n end) : st -> Prop).
  assert (forall w, final_of w = true -> follows C (_ ← emit w; mret (@None nat) : flow _) Q) as Rj.
  { intros w F. apply (follows_bind _ (fun _ => counted (S n))); [by apply counted_final|]. intros _. by apply follows_ret. }
  unfold Subscribe.beginSubscription. past. intros [i| | |]; try by apply Rj. past. intros _. past. intros [b|]; [by apply follows_ret|].
  past. intros _. apply Rj. cbn. lia.
Qed.

Lemma relay_subscribe_most n req out i requester p tr :
  follows (counted n) (relaySubscribe req out i requester p tr) (fun _ => atMostOne n).
Proof.
  unfold Subscribe.relaySubscribe. eapply follows_bind.
  { apply (forward_post (fun _ : bool => True)); [apply _|done]. }
  intros [e confirmed]. unfold trip_post. cbn [fst snd].
  assert (forall m, upholds (counted m : st -> Prop) (if confirmed then mret tt else subs_ (sub_end i))) as E by (intros m; destruct confirmed; [stay|apply (s_subs (counted m))]).
  intros s [[C _]|(C & Er & _)].
  - destruct (te_err e).
    + apply most_after. through. eapply follows_bind; [apply trip_failed_most|]. intros ?; cbv beta. exact (E (S n)).
    + apply most_before. through. past. intros _. exact (E n).
  - rewrite Er. apply most_after. through. past. intros _. exact (E (S n)).
Qed.

Lemma subscribe_most n now req src onPrivate meanwhile tr :
  follows (counted n) (onSubscribe now uris req src onPrivate meanwhile tr) (fun _ => atMostOne n).
Proof.
  assert (forall i code, 200 <= code -> follows (counted n) (_ ← subs_ (sub_end i); reject_ code : flow unit) (fun _ => atMostOne n)) as Rj.
  { intros i code Cd. apply most_then; [apply (s_subs (counted n))|]. intros _. by apply most_reject. }
  assert (forall req event token subscriber route goneCode (k : nat -> flow unit), 200 <= goneCode -> (forall i, follows (counted n) (k i) (fun _ => atMostOne n)) ->
    follows (counted n) (o ← beginSubscription now req event token subscriber route goneCode meanwhile; match o with None => mret tt | Some i => k i end)
      (fun _ => atMostOne n)) as Begin.
  { intros r event token subscriber route goneCode k Gc K. eapply follows_bind; [by apply begin_subscription_most|].
    intros [i|]; [apply K|apply follows_ret, most_after]. }
  unfold Subscribe.onSubscribe. cbv zeta. destruct (negb _).
  { apply most_then; [stay|]. intros [[[i v] fromSub]|]; [apply in_subscription_most|by apply most_reject]. }
  destruct onPrivate.
  - unfold Subscribe.subscribeToClient. destruct (classifySwitchRequest _ _ _).1; try by apply most_reject. apply most_then; [stay|].
    intros [b|]; [|by apply most_reject]. destruct (publicSide _ _) as [to|]; [|by apply most_reject]. cbv zeta. destruct (beq _ _); [by apply most_reject|].
    apply Begin; [done|]. intros i. apply most_then; [stay|]. intros branch. destruct (prepareForwardFor _ _ _ _ _ _ _ _ _ _); [apply relay_subscribe_most|by apply Rj].
  - unfold Subscribe.subscribeToSwitch. apply most_then; [unfold Subscribe.admitted; stay|].
    intros [b []]; [|by destruct b; apply most_reject|by destruct b; apply most_same, upholds_ret]. cbv zeta. destruct (beq _ _); [by apply most_reject|].
    apply most_then; [stay|]. intros node. destruct (publicSideFor _ _ _) as [pub|]; [|by apply most_reject]. destruct node as [entry|]; [|by apply most_reject].
    apply Begin; [done|]. intros i. apply most_then; [stay|]. intros branch. destruct (prepareForward _ _ _ _ _ _ _ _); [apply relay_subscribe_most|by apply Rj].
Qed.

(** *** From the socket *)

Section Dispatched.
Context (byName : gmap gostring Carrier) (cfg : callConfig) (drain : drainState) (cooldown : Z) (marker : arrivalMarker).
#[local] Abbreviation optionsToCarrier := (Subscribe.optionsToCarrier Unmarshal rand_read newContext KeyLen SaltLen unprotectRTP unprotectRTCP
  protectRTP protectRTCP write_udp write_leg listen_ok Value NetworkToLower ToLower NewBranch sv byName).
#[local] Abbreviation onOptions := (Dispatch.onOptions Unmarshal rand_read newContext KeyLen SaltLen unprotectRTP unprotectRTCP protectRTP
  protectRTCP write_udp write_leg listen_ok Value NetworkToLower ToLower NewBranch sv shield vouched uris byName drain).
#[local] Abbreviation handle_request := (Dispatch.handle_request Unmarshal rand_read newContext KeyLen SaltLen unprotectRTP unprotectRTCP protectRTP
  protectRTCP write_udp write_leg listen_ok Value NetworkToLower ToLower UriString NewBranch write_ok sv shield vouched uris regs byName cfg drain
  cooldown).
#[local] Abbreviation guard := (Dispatch.guard Value NetworkToLower shield vouched marker).
#[local] Abbreviation receive := (Dispatch.receive Unmarshal rand_read newContext KeyLen SaltLen unprotectRTP unprotectRTCP protectRTP protectRTCP
  write_udp write_leg listen_ok Value NetworkToLower ToLower UriString NewBranch write_ok sv shield vouched uris regs byName cfg drain cooldown
  marker).
#[local] Abbreviation admitPublicOptions := (Dispatch.admitPublicOptions NetworkToLower shield vouched).
#[local] Abbreviation scanned := (Dispatch.scanned Value NetworkToLower shield vouched).

Lemma options_most n now req onPrivate src fs : follows (counted n) (onOptions now req onPrivate src fs) (fun _ => atMostOne n).
Proof.
  assert (follows (counted n) (rejectOptionsDraining : flow unit) (fun _ => atMostOne n)) as Dr by (by apply most_final, counted_final).
  unfold Dispatch.onOptions. cbv zeta. apply most_then; [unfold Dispatch.admitPublicOptions; stay|]. intros []; cbn [negb]; [|by apply most_same, upholds_ret].
  destruct (onPrivate && _).
  - destruct (classifySwitchRequest _ _ _) as [[] name]; try by apply most_reject.
    + apply most_then; [stay|]. intros b. apply most_reject. by destruct b.
    + destruct (_ && _); [done|]. unfold Subscribe.optionsToCarrier. apply most_then; [stay|]. intros [dest|]; [|by apply most_reject].
      destruct (carrierSide _ _ _) as [pub|]; [|by apply most_reject]. apply most_then; [stay|]. intros branch.
      destruct (prepareForwardHidden _ _ _ _ _ _ _ _ _) as [out|]; [|by apply most_reject].
      apply (most_trip n req _ _ _ (fs_trip fs) (fun e => if te_err e then trip_failed e else mret tt)); intros e; [intros m ->; stay|intros ->; apply trip_failed_most].
    + destruct (_ && _); [done|by apply most_reject].
  - apply most_then; [stay|]. intros carrier. destruct (_ && _); [done|by apply most_reject].
Qed.

Lemma ack_silent n now req onPrivate : upholds (counted n) (onAck now req onPrivate).
Proof. unfold InDialog.onAck. walk. Qed.

Lemma handled_once n register now req onPrivate src fs : rq_method req <> str "INVITE" -> rq_method req <> str "REGISTER" ->
  follows (counted n) (handle_request register now req onPrivate src fs) (ending_post n).
Proof.
  intros NI NR. assert (forall m, rq_method req <> m -> beq (rq_method req) m = false) as B by (by intros m; apply bool_decide_eq_false_2).
  unfold Dispatch.handle_request. cbv zeta. destruct (existsb _ _); [apply in_dialog_most|]. destruct (existsb _ _); [apply prack_update_most|].
  destruct (beq _ (str "MESSAGE")); [apply message_most|]. destruct (beq _ (str "SUBSCRIBE")); [apply ends_returns, subscribe_most|].
  destruct (beq _ (str "ACK")); [apply ends_returns, most_same, ack_silent|].
  destruct (beq _ (str "CANCEL")).
  { apply ends_returns. unfold onCancel. apply most_then; [stay|]. intros d. apply most_then; [stay|]. intros ok. apply most_reject. by destruct ok. }
  rewrite (B _ NI), (B _ NR). destruct (beq _ (str "OPTIONS")); [apply ends_returns, options_most|by apply ends_reject].
Qed.

Lemma ack_handled n register now req onPrivate src fs : rq_method req = str "ACK" ->
  upholds (counted n) (handle_request register now req onPrivate src fs).
Proof.
  intros M. unfold Dispatch.handle_request. cbv zeta. rewrite M. cbn [existsb orb].
  pose proof (ack_silent n now req onPrivate) as A. unfold returns. cbn. apply upholds_bind; [exact A|]. stay.
Qed.

(** C7: No request is answered twice.  Of the requests that arrive at a socket -
    any method but a REGISTER and an INVITE - each makes the proxy send at most
    one final response on its transaction: whatever the far end answers, whether
    its answer can be relayed, whether the call ends meanwhile, and whether the
    handler panics and the guard answers in its place.  An ACK is never
    answered. *)
Theorem no_request_is_answered_twice register now received fs s :
  rq_method received <> str "INVITE" -> rq_method received <> str "REGISTER" ->
  let s' := (receive register now received fs s).2 in
  (finals (is_wire s') = finals (is_wire s) \/ finals (is_wire s') = S (finals (is_wire s))) /\
  (rq_method received = str "ACK" -> finals (is_wire s') = finals (is_wire s)).
Proof.
  intros NI NR. set (n := finals (is_wire s)). split.
  - assert (follows (counted n) (receive register now received fs) (fun _ => atMostOne n)) as F; [|by apply (F s)].
    unfold Dispatch.receive, Dispatch.guard. destruct (take_arrival _ _ _) as [hs arr]. cbv zeta.
    destruct (src_of _) as [src|]; [|by apply most_same, upholds_ret].
    apply most_then; [unfold Dispatch.scanned; stay|]. intros []; [by apply most_same, upholds_ret|]. apply most_then; [stay|]. intros before.
    eapply follows_bind; [by apply handled_once|]. intros []; [by apply follows_ret|]. apply (most_then n); [stay|]. intros after.
    destruct (_ || _); [by apply most_same, upholds_ret|by apply most_reject].
  - intros A. assert (upholds (counted n) (receive register now received fs)) as F; [|by apply (F s)].
    unfold Dispatch.receive, Dispatch.guard. destruct (take_arrival _ _ _) as [hs arr]. cbv zeta.
    destruct (src_of _) as [src|]; [|stay]. apply upholds_bind; [unfold Dispatch.scanned; stay|]. intros []; [stay|]. apply upholds_bind; [stay|]. intros before.
    apply upholds_bind; [by apply ack_handled|]. intros []; [stay|]. apply upholds_bind; [stay|]. intros after.
    rewrite orb_comm. unfold beq. rewrite bool_decide_eq_true_2 by done. stay.
Qed.
End Dispatched.

(** ** Bodies *)

Section Bodies.
Context `{SHL : !SipHeadersLaws}.

(** A body the proxy wrote itself, for an offer, an answer or an owed answer. *)
Inductive ours (b : gostring) : Prop :=
  | ours_offer d f body p (a : @anchorState SP R Ctx) offer a' : rebuildInDialogOffer Unmarshal rand_read sv d f body p a = (inl (b, offer), a') -> ours b
  | ours_answer d f offer body p (a : @anchorState SP R Ctx) answer a' : rebuildInDialogAnswer Unmarshal rand_read newContext sv d f offer body p a = (inl (b, answer), a') -> ours b.

(** Nothing, or the proxy's own; or anything that is no SDP. *)
Definition strict (m : message) : Prop := m_body m = [] \/ ours (m_body m).
Definition lenient (m : message) : Prop := strict m \/ isSDPBody Value ToLower (m_headers m) = false.

(** What was sent from [ws] on carries such bodies: the responses relayed, those
    relayed again, and the requests where [fwd] says so. *)
Definition clean (ok : message -> Prop) (fwd : bool) (w : wire) : Prop :=
  match w with WRelay res | WAgain res => ok (rs_msg res) | WForward out => if fwd then ok (rq_msg out) else True | _ => True end.
Definition cleaned (ok : message -> Prop) (fwd : bool) (ws : list wire) (s : st) : Prop := exists new, is_wire s = ws ++ new /\ Forall (clean ok fwd) new.

#[local] Instance cleaned_hush V ok fwd ws : Hush V tearing (cleaned ok fwd ws).
Proof. constructor; try done. intros s w Q (new & E & F). exists (new ++ [w]). cbn. rewrite E, <- app_assoc. split; [done|]. apply Forall_app_2; [done|]. constructor; [|done]. by destruct w. Qed.

Lemma clean_emit ok fwd ws w : clean ok fwd w -> upholds (cleaned ok fwd ws : st -> Prop) (emit w).
Proof. intros C s (new & E & F). exists (new ++ [w]). cbn. rewrite E, <- app_assoc. split; [done|]. apply Forall_app_2; [done|by constructor]. Qed.

Lemma sdp_body b m : m_body (SetSDPBody b m) = b.
Proof. unfold SetSDPBody. apply set_body. Qed.

(** An adapt function whose responses are clean. *)
Definition cleans {A} (ok : message -> Prop) (X : A -> Prop) (ad : adapter A) : Prop := forall now between out x s, X x ->
  let r := (ad now between out x s).1 in match r.1 with inl o => ok (rs_msg o) | inr _ => True end /\ X r.2.

Lemma relay_hide_clean {A} ok fwd ws X req mode (ad : adapter A) now between res x : cleans ok X ad -> X x ->
  (forall out, upholds (cleaned ok fwd ws) (ad now between out x)) ->
  follows (cleaned ok fwd ws) (relay_hide req mode ad now between res x) (fun r s => cleaned ok fwd ws s /\ X r.2).
Proof.
  intros Cl Xx U. unfold Subscribe.relay_hide. destruct (relayResponseHide _ _ _ _ _ _) as [out|]; [|by apply follows_ret].
  apply (follows_bind _ (fun r s => cleaned ok fwd ws s /\ match r.1 with inl o => ok (rs_msg o) | inr _ => True end /\ X r.2)).
  { intros s C. split; [by apply U|by apply Cl]. }
  intros [[o|e] x']; cbn [fst snd]; [|by apply follows_ret; intros s (? & _ & ?)]. intros s (C & Ok & Xx'). cbn. split; [|done]. by apply (clean_emit ok fwd ws (WRelay o)).
Qed.

(** What the re-INVITE handler keeps between responses is the proxy's own. *)
Definition re_ours (x : reState) : Prop :=
  (forall b, re_answer x = Some b -> ours b) /\ (forall m, re_ok x = Some m -> strict (rs_msg m)).
Lemma ours_relayed out x : strict (rs_msg out) -> re_ours x -> re_ours (re_relayed out x).
Proof. intros S [X _]. split; [exact X|]. by intros m [= <-]. Qed.
Lemma ours_answered b f k x : ours b -> re_ours x -> re_ours (mkRe (Some b) f (re_ok x) k).
Proof. intros B [_ X]. split; [|exact X]. by intros b' [= <-]. Qed.

Lemma anchoring_inl {A} (m : @anchor SP R Ctx A) s x : (anchoring m s).1 = inl x -> exists a', m (is_anchor s) = (inl x, a').
Proof. unfold anchoring. destruct (m (is_anchor s)) as [r a']. cbn. intros ->. by exists a'. Qed.

Lemma re_offer_ours d req from to out x : re_ours x ->
  follows any (re_offer d req from to out x) (fun r _ => match r.1 with inl b => ours b | inr _ => True end /\ re_ours r.2).
Proof.
  intros X. unfold InDialog.re_offer. destruct (re_answer x) as [b|] eqn:E; [apply follows_ret; intros s _; split; [by apply X|done]|].
  apply (follows_bind _ (fun r _ => match r with inl (b, _) => ours b | inr _ => True end)).
  { intros s _. destruct (anchoring _ s) as [[[b o]|e] s'] eqn:Ea; [|done]. destruct (anchoring_inl _ _ _ (f_equal fst Ea)) as [a' H]. by eapply ours_offer. }
  intros [[b o]|e]; [|by apply follows_ret; intros s _; split]. apply (follows_bind _ (fun _ _ => ours b)); [by intros ? ?|]. intros _. apply follows_ret.
  intros s H. split; [done|]. by apply ours_answered.
Qed.

Lemma re_answered_ours d offer from out x : re_ours x ->
  follows any (re_answered d offer from out x)
    (fun r _ => match r.1 with inl (Some b) => ours b | inl None => body_of out = [] | inr _ => True end /\ re_ours r.2).
Proof.
  intros X. unfold InDialog.re_answered. destruct (beq (body_of out) []) eqn:B; [apply follows_ret; intros s _; split; [by apply bool_decide_eq_true_1 in B|done]|].
  destruct (re_answer x) as [b|] eqn:E; [apply follows_ret; intros s _; split; [by apply X|done]|].
  apply (follows_bind _ (fun r _ => match r with inl (b, _) => ours b | inr _ => True end)).
  { intros s _. destruct (anchoring _ s) as [[[b o]|e] s'] eqn:Ea; [|done]. destruct (anchoring_inl _ _ _ (f_equal fst Ea)) as [a' H]. by eapply ours_answer. }
  intros [[b o]|e]; apply follows_ret; intros s H; split; try done. by apply ours_answered.
Qed.

Lemma re_adapt_cleans d req offer from to : cleans strict re_ours (re_adapt d req offer from to).
Proof.
  intros now between out x s X.
  assert (follows any (re_adapt d req offer from to now between out x)
    (fun r _ => match r.1 with inl o => strict (rs_msg o) | inr _ => True end /\ re_ours r.2)) as F; [|by apply F].
  unfold InDialog.re_adapt. cbv zeta. destruct offer as [offer|].
  - eapply follows_bind; [by apply re_answered_ours|]. intros [[body|e] x']; cbn [fst snd]; [|by apply follows_ret; intros s' [_ ?]].
    set (P := fun _ : st => _). set (o := match body with Some b => on_msg (SetSDPBody b) (on_headers (SetContact (side_uri from)) out)
      | None => on_headers (SetContact (side_uri from)) out end).
    assert (forall y, (re_ours x' -> strict (rs_msg o) -> re_ours y) -> follows P (mret (inl o, y) : flow ((response + anchorError) * reState))
      (fun r _ => match r.1 with inl o => strict (rs_msg o) | inr _ => True end /\ re_ours r.2)) as Rt.
    { intros y E. apply follows_ret. intros s' [B Y]. cbn. assert (strict (rs_msg o)) as So; [|split; [exact So|by apply E]].
      subst o. destruct body as [b|]; [right|left; exact B]. cbn. by rewrite sdp_body. }
    fold o. destruct (is_2xx o); [|by apply Rt]. apply (follows_bind _ (fun _ => P)); [by intros ? ?|]. intros _. apply (follows_bind _ (fun _ => P)); [by intros ? ?|].
    intros _. apply Rt. intros Y So. by apply ours_relayed.
  - destruct (_ || _).
    + apply follows_ret. intros s' _. cbn [fst snd]. assert (strict (rs_msg (on_msg stripBody (on_headers (SetContact (side_uri from)) out)))) as So by (left; apply stripped).
      split; [exact So|]. destruct (is_2xx _); [by apply ours_relayed|done].
    + eapply follows_bind; [by apply re_offer_ours|]. intros [[b|e] x']; apply follows_ret; intros s' [B Y]; [|by split]. cbn [fst snd].
      assert (strict (rs_msg (on_msg (SetSDPBody b) (on_headers (SetContact (side_uri from)) out)))) as So by (right; cbn; by rewrite sdp_body).
      split; [exact So|by apply ours_relayed].
Qed.

Lemma re_pump_clean ws d req out offer from to resp script x : re_ours x -> let J := cleaned strict true ws in
  follows J (re_pump d req out offer from to resp script x) (fun _ => J).
Proof.
  intros X J. assert (forall code, upholds J (reject_ code)) as Rj by (by intros; apply clean_emit).
  assert (forall d, upholds J (table_ (armOwedTimer d))) as T by (intros d0; by apply (s_step J (OArmOwedTimer d0))).
  assert (forall sc, upholds J (abandonReInvite req out to sc)) as Ab by (intros sc; unfold InDialog.abandonReInvite; walk).
  revert x X. induction script as [|[d' e|now res between|err ex|] script IH]; intros x X; cbn [InDialog.re_pump].
  - change (upholds J (_ ← abandonReInvite req out to []; mret (re_keep x))). walk.
  - past. intros _. by apply IH.
  - destruct (negb (Forwardable res)); [by apply IH|].
    eapply follows_bind; [apply (relay_hide_clean strict true ws re_ours); [apply re_adapt_cleans|done|intros ?; walk]|].
    intros [r x']. cbn [snd]. apply (follows_weaken (fun s => re_ours x' /\ J s) _ _ (fun _ => J)); [|by intros s []|done]. apply follows_pure. intros X'.
    destruct r; [|by apply IH|match goal with |- follows _ ?m _ => change (upholds J m) end; walk].
    destruct (200 <=? rs_status res); [|by apply IH]. match goal with |- follows _ ?m _ => change (upholds J m) end.
    assert (upholds J (re_late req to false (re_ok x') script)) as L; [|walk].
    eapply up_re_late; [apply cleaned_hush|]. intros m _ M. apply clean_emit. exact (proj2 X' m M).
  - match goal with |- follows _ ?m _ => change (upholds J m) end; walk.
  - change (upholds J (_ ← abandonReInvite req out to script; mret (re_keep x))). walk.
Qed.

Lemma re_exchange_clean ws now req onPrivate from to dest d tr : let J := cleaned strict true ws in
  upholds J (re_exchange now req onPrivate from to dest d tr).
Proof.
  intros J. assert (forall code y, upholds J (_ ← reject_ code; mret y : flow bool)) as Rj.
  { intros code y. apply upholds_bind; [by apply clean_emit|]. stay. }
  unfold InDialog.re_exchange. cbv zeta.
  apply (follows_bind _ (fun o s => J s /\ match o with inl (Some (b, _)) => ours b | _ => True end)).
  { destruct (beq _ _); [by apply follows_ret|]. set (m := anchoring _).
    apply (follows_bind _ (fun r s => J s /\ match r with inl (b, _) => ours b | inr _ => True end)).
    { intros s H. split; [by apply (s_moves J); [apply moves_reoffer|]|]. destruct (m s) as [[[b o]|e] s'] eqn:E; [|done].
      destruct (anchoring_inl _ _ _ (f_equal fst E)) as [a' Ha]. by eapply ours_offer. }
    intros [[b o]|e]; by apply follows_ret. }
  intros [built|e]; [|by apply (follows_weaken J _ _ (fun _ => J)); [apply Rj|intros s []|]].
  apply (follows_weaken (fun s => match built with Some (b, _) => ours b | None => True end /\ J s) _ _ (fun _ => J)); [|by intros s [? ?]; destruct built as [[? ?]|]|done].
  apply follows_pure. intros B. past. intros branch. past. intros [[out resp]|]; [|apply Rj]. destruct (negb _); [apply Rj|].
  apply (upholds_then J); [|intros _; by apply re_pump_clean].
  apply clean_emit. cbn. destruct built as [[b o]|]; cbn; [right; by rewrite sdp_body|left; apply stripped].
Qed.

(** ** Every other request *)

#[local] Instance cleaned_wide V ok ws : Hush V (fun w => match w with WRelay _ | WAgain _ => false | _ => true end) (cleaned ok false ws) | 5.
Proof. constructor; try done. intros s w Q (new & E & F). exists (new ++ [w]). cbn. rewrite E, <- app_assoc. split; [done|]. apply Forall_app_2; [done|]. constructor; [|done]. by destruct w. Qed.

Lemma relay_all_clean {A} ok ws req mode (ad : adapter A) script x : cleans ok (fun _ => True) ad ->
  (forall now between out x, upholds (cleaned ok false ws) (ad now between out x)) -> upholds (cleaned ok false ws) (relay_all req mode ad script x).
Proof.
  intros Cl U. set (J := cleaned ok false ws : st -> Prop). revert x. induction script as [|[d' e|now res between|err ex|] script IH]; intros x; cbn [Subscribe.relay_all]; [stay| | |stay|stay].
  - apply upholds_bind; [stay|]. intros _. apply IH.
  - destruct (negb _); [apply IH|]. apply upholds_bind.
    + eapply follows_weaken; [by apply (relay_hide_clean ok false ws (fun _ => True))|done|by intros ? ? []].
    + intros [r x']. destruct (200 <=? _); [stay|apply IH].
Qed.
Lemma forward_clean {A} ok ws req out mode (ad : adapter A) tr x : cleans ok (fun _ => True) ad ->
  (forall now between out x, upholds (cleaned ok false ws) (ad now between out x)) ->
  upholds (cleaned ok false ws) (forwardAndRelay req out mode ad tr x).
Proof.
  intros Cl U. unfold Subscribe.forwardAndRelay. destruct (tr_opens tr); [|stay]. apply upholds_bind; [by apply clean_emit|]. intros _. by apply relay_all_clean.
Qed.

Lemma update_answered_ours now between x out : beq (body_of out) [] = false ->
  follows any (update_answered now between x out) (fun r _ => match r with inl o => ours (body_of o) | inr _ => True end).
Proof.
  intros B. unfold InDialog.update_answered. rewrite B. apply (follows_bind _ (fun r _ => match r with inl (b, _) => ours b | inr _ => True end)).
  { intros s _. destruct (anchoring _ s) as [[[b o]|e] s'] eqn:Ea; [|done]. destruct (anchoring_inl _ _ _ (f_equal fst Ea)) as [a' H]. by eapply ours_answer. }
  intros [[b answer]|e]; [|by apply follows_ret]. set (P := fun _ : st => ours b). do 3 (apply (follows_bind _ (fun _ => P)); [by intros ? ?|]; intros _).
  apply follows_ret. intros s H. unfold body_of. cbn. by rewrite sdp_body.
Qed.

(** A body said to be the proxy's own is. *)
Lemma method_adapt_ours req from d pk ux now between out x :
  follows any (method_adapt req from d pk ux now between out x) (fun r _ => match r with (inl o, _, true) => ours (body_of o) | _ => True end).
Proof.
  unfold InDialog.method_adapt. destruct (method_is req (str "UPDATE")).
  - destruct ux as [u|]; [|by apply follows_ret]. destruct (is_2xx _); [|by apply follows_ret]. cbv zeta. set (out' := on_msg _ out).
    destruct (beq (body_of out') []) eqn:B; cbn [negb].
    + skip. destruct a; by apply follows_ret.
    + eapply follows_bind; [by apply update_answered_ours|]. intros [o|e]; by apply follows_ret.
  - destruct (_ || _); [by apply follows_ret|]. destruct pk as [[[o body] answer]|]; [|by apply follows_ret]. destruct d as [d|]; [|by apply follows_ret].
    skip. destruct a; [|by destruct x; apply follows_ret]. skip. skip. skip. destruct a1; by apply follows_ret.
Qed.

Lemma dialog_adapt_cleans req from d pk ux : cleans lenient (fun _ => True) (dialog_adapt req from d pk ux).
Proof.
  intros now between out x s _. split; [|done].
  assert (follows any (dialog_adapt req from d pk ux now between out x) (fun r _ => match r.1 with inl o => lenient (rs_msg o) | inr _ => True end)) as F; [|by apply F].
  unfold InDialog.dialog_adapt. eapply follows_bind; [apply method_adapt_ours|]. intros [[[o|e] err] rebuilt]; apply follows_ret; intros s' H; [|done]. cbn [fst].
  destruct rebuilt; cbn [negb]; [rewrite andb_false_r; cbn; left; by right|]. rewrite andb_true_r. destruct (beq (body_of o) []) eqn:B; cbn [negb andb].
  - left; left. by apply bool_decide_eq_true_1 in B.
  - destruct (_ || _) eqn:S; [left; left; apply stripped|]. apply orb_false_iff in S as [_ S]. by right.
Qed.

Lemma strip_sdp_lenient m : lenient (strip_sdp Value ToLower m).
Proof. unfold strip_sdp. destruct (isSDPBody _ _ _) eqn:S; [left; left; apply stripped|by right]. Qed.

Lemma plainly_cleans f : (forall m, lenient (f m)) -> cleans lenient (fun _ => True) (plainly f).
Proof. intros L now between out x s _. unfold Subscribe.plainly, mbind, flow_bind. destruct (elsewhere between s). by split; [apply L|]. Qed.

Lemma in_subscription_clean ws now req i v fromSub tr : upholds (cleaned lenient false ws) (forwardInSubscription now req i v fromSub tr).
Proof.
  set (J := cleaned lenient false ws : st -> Prop). assert (forall code, upholds J (reject_ code)) as Rj by (by intros; apply clean_emit).
  pose proof (fun req out mode f tr L => forward_clean lenient ws req out mode (plainly f) tr tt (plainly_cleans f L)) as Fw.
  assert (forall req out mode tr u, upholds J (forwardAndRelay req out mode (plainly (fun m => strip_sdp Value ToLower (own_contact u m))) tr tt)) as Fw'.
  { intros. apply Fw; [intros m; apply strip_sdp_lenient|]. intros. walk. }
  unfold Subscribe.forwardInSubscription, trip_failed. walk.
Qed.

Lemma forward_in_dialog_clean ws now req onPrivate from to dest d pk ux tr grace :
  upholds (cleaned lenient false ws) (forward_in_dialog now req onPrivate from to dest d pk ux tr grace).
Proof.
  set (J := cleaned lenient false ws : st -> Prop). assert (forall code, upholds J (reject_ code)) as Rj by (by intros; apply clean_emit).
  assert (forall out mode tr x, upholds J (forwardAndRelay req out mode (dialog_adapt req from d pk ux) tr x)) as Fw.
  { intros. apply forward_clean; [apply dialog_adapt_cleans|]. intros. walk. }
  unfold InDialog.forward_in_dialog. cbv zeta. walk.
Qed.

Lemma in_dialog_clean ws now req onPrivate src tr grace : upholds (cleaned lenient false ws) (onInDialog now req onPrivate src tr grace).
Proof.
  set (J := cleaned lenient false ws : st -> Prop). assert (forall code, upholds J (reject_ code)) as Rj by (by intros; apply clean_emit).
  pose proof (forward_in_dialog_clean ws) as Fw. pose proof (in_subscription_clean ws) as Sb.
  assert (forall d, upholds J (table_ (noteCSeq d (rq_headers req)))) as N by (intros d; by apply (s_step J (ONoteCSeq d (rq_headers req)))).
  assert (forall d, upholds J (table_ (endUpdateOffer d))) as E by (intros d; by apply (s_step J (OEndUpdateOffer d))).
  unfold InDialog.onInDialog, InDialog.directed, refuse_dialogless, returns. cbv zeta. walk.
Qed.

Lemma prack_update_clean ws now req onPrivate src meanwhile tr grace : upholds (cleaned lenient false ws) (onPrackUpdate now req onPrivate src meanwhile tr grace).
Proof.
  set (J := cleaned lenient false ws : st -> Prop). assert (forall code, upholds J (reject_ code)) as Rj by (by intros; apply clean_emit).
  pose proof (in_dialog_clean ws) as D. unfold InDialog.onPrackUpdate, returns. cbv zeta. walk.
Qed.

(** The Record-Routes given to the private side leave the Content-Type alone. *)
Lemma lenient_routed o : lenient (rs_msg o) -> lenient (rs_msg (on_headers (addPrivateRecordRoute (sv_topo sv)) o)).
Proof.
  intros [S|S]; [by left|right]. change (isSDPBody Value ToLower (addPrivateRecordRoute (sv_topo sv) (m_headers (rs_msg o))) = false). unfold isSDPBody in *.
  enough (GetHeaders (str "Content-Type") (addPrivateRecordRoute (sv_topo sv) (m_headers (rs_msg o))) =
          GetHeaders (str "Content-Type") (m_headers (rs_msg o))) as -> by exact S.
  unfold addPrivateRecordRoute. cbv zeta. rewrite fold_append_headers. unfold GetHeaders at 1. rewrite List.filter_app.
  change (List.filter (named (str "Content-Type")) (RemoveHeaders (str "Record-Route") (m_headers (rs_msg o))))
    with (GetHeaders (str "Content-Type") (RemoveHeaders (str "Record-Route") (m_headers (rs_msg o)))).
  rewrite (Hide.get_remove (str "Content-Type") (str "Record-Route")) by done.
  match goal with |- _ ++ List.filter _ ?vs = _ => assert (List.filter (named (str "Content-Type")) vs = []) as -> end; [|by rewrite app_nil_r].
  rewrite !List.filter_app. cbn [List.filter]. assert (forall us, List.filter (named (str "Content-Type")) (map HRecordRoute us) = []) as E.
  { intros us. by induction us. }
  by rewrite !E.
Qed.

Lemma adapt_subscribe_cleans req i requester p : cleans lenient (fun _ => True) (adapt_subscribe req i requester p).
Proof.
  intros now between out x s _. split; [|done].
  assert (follows any (adapt_subscribe req i requester p now between out x) (fun r _ => match r.1 with inl o => lenient (rs_msg o) | inr _ => True end)) as F; [|by apply F].
  unfold Subscribe.adapt_subscribe. cbv zeta. set (o := on_msg _ out). assert (lenient (rs_msg o)) as L by apply strip_sdp_lenient.
  set (o' := match sd_plane requester with planePrivate => _ | planePublic => _ end).
  assert (lenient (rs_msg o')) as L'. { subst o'. destruct (sd_plane requester); [exact L|]. destruct (is_2xx o); [by apply lenient_routed|exact L]. }
  destruct (_ && _); [skip; skip|]; by apply follows_ret.
Qed.

Lemma subscribe_clean ws now req src onPrivate meanwhile tr : upholds (cleaned lenient false ws) (onSubscribe now uris req src onPrivate meanwhile tr).
Proof.
  set (J := cleaned lenient false ws : st -> Prop). assert (forall code, upholds J (reject_ code)) as Rj by (by intros; apply clean_emit).
  pose proof (in_subscription_clean ws) as Sb.
  assert (forall req out i from p tr, upholds J (relaySubscribe req out i from p tr)) as Rl.
  { intros. unfold Subscribe.relaySubscribe. apply upholds_bind; [apply forward_clean; [apply adapt_subscribe_cleans|intros; walk]|]. intros [e c]. unfold trip_failed. walk. }
  assert (forall req event token p route code, upholds J (beginSubscription now req event token p route code meanwhile)) as B1.
  { intros. unfold Subscribe.beginSubscription. assert (forall w, clean lenient false w -> upholds J (emit w)) as Em by (intros; by apply clean_emit). walk; by apply Em. }
  unfold Subscribe.onSubscribe, Subscribe.subscribeToClient, Subscribe.subscribeToSwitch, Subscribe.admitted, Subscribe.selected. cbv zeta. walk.
Qed.

(** C9: The far end's SDP stays where it is, inside a call too.  Of a re-INVITE,
    the request sent on and every response relayed, and the 2xx each time it is
    sent again, carry no body, or one the proxy built itself from an offer or an
    answer; of any other request of a dialog or a subscription (PRACK and UPDATE,
    BYE, INFO, NOTIFY, REFER, in-dialog MESSAGE; SUBSCRIBE, the first and the
    refreshes), every response relayed carries no body, one the proxy built, or
    one that is no SDP.  This holds whatever either end sends, however often, and
    whatever fails. *)
Theorem far_sdp_never_passes_in_a_call now req onPrivate src meanwhile tr grace s :
  cleaned strict true (is_wire s) (onReInvite now req onPrivate tr s).2 /\
  cleaned lenient false (is_wire s) (onPrackUpdate now req onPrivate src meanwhile tr grace s).2 /\
  cleaned lenient false (is_wire s) (onInDialog now req onPrivate src tr grace s).2 /\
  cleaned lenient false (is_wire s) (onSubscribe now uris req src onPrivate meanwhile tr s).2.
Proof.
  assert (forall ok fwd, cleaned ok fwd (is_wire s) s) as St by (intros; exists []; by rewrite app_nil_r).
  split_and!; [|by apply prack_update_clean|by apply in_dialog_clean|by apply subscribe_clean]. set (J := cleaned strict true (is_wire s) : st -> Prop).
  assert (upholds J (onReInvite now req onPrivate tr)) as F; [|apply F, St].
  assert (forall code, upholds J (reject_ code)) as Rj by (by intros; apply clean_emit). pose proof (re_exchange_clean (is_wire s)) as X.
  unfold InDialog.onReInvite. apply upholds_bind; [stay|]. intros [[[[from to] dest] [d|]]|]; [|apply Rj..].
  apply upholds_bind; [stay|]. intros sess. destruct (bool_decide _); [apply Rj|]. apply upholds_bind; [by apply (s_step J (ONoteCSeq d (rq_headers req)))|]. intros _.
  apply upholds_bind; [by apply (s_op J (OBeginReInviteOffer d))|]. intros []; [|apply Rj]. cbn [negb]. apply upholds_bind; [apply X|]. intros [].
  - stay.
  - by apply (s_step J (OEndReInviteOffer d)).
Qed.
End Bodies.

(** ** Requests of nobody *)

Section Strangers.
Context (byName : gmap gostring Carrier) (cfg : callConfig) (drain : drainState) (cooldown : Z).
#[local] Abbreviation handle_request := (Dispatch.handle_request Unmarshal rand_read newContext KeyLen SaltLen unprotectRTP unprotectRTCP protectRTP
  protectRTCP write_udp write_leg listen_ok Value NetworkToLower ToLower UriString NewBranch write_ok sv shield vouched uris regs byName cfg drain
  cooldown).

(** Refused with [code]: one answer, and the calls and their media as they were. *)
Definition refused_with (code : Z) (s s' : st) : Prop := is_wire s' = is_wire s ++ [WReply code None None] /\ is_anchor s' = is_anchor s.
Definition untouched (s s' : st) : Prop := is_wire s' = is_wire s /\ is_anchor s' = is_anchor s.

Lemma refusing (m : flow unit) code s s' : m = reject_ code -> untouched s s' -> refused_with code s (m s').2.
Proof. intros -> [W A]. unfold refused_with. cbn. by rewrite W. Qed.

Lemma dialogless_none now req onPrivate (s : st) f t dest d :
  dialogless_direction NetworkToLower sv now req onPrivate s = Some (f, t, dest, d) -> d = None.
Proof.
  unfold dialogless_direction. destruct onPrivate.
  - destruct (bindingForRequest _ _ _ _); [|done]. destruct (publicSide _ _); [|done]. by intros [= _ _ _ <-].
  - destruct (publicSideFor _ _ _); [|done]. destruct (carrierFallback _ _ _ _ _ _); intros (e & _ & [= _ _ _ <-])%fmap_Some; done.
Qed.

Lemma undirected now req onPrivate (s s' : st) f t dest d : owned_dialog req onPrivate (as_tab (is_anchor s)) = None -> untouched s s' ->
  direction_for NetworkToLower sv now req onPrivate s' = Some (f, t, dest, d) -> d = None.
Proof. intros O [_ A]. unfold direction_for. rewrite A, O. apply dialogless_none. Qed.

Lemma subs_untouched {A} (f : subTable -> A * subTable) s : untouched s (subs f s).2 /\ (subs f s).1 = (f (et_subs (is_edge s))).1.
Proof. unfold subs. by destruct (f _). Qed.
Lemma admission_untouched {A} (f : Admission.Server -> A * Admission.Server) s s' : untouched s s' -> untouched s (admission f s').2.
Proof. intros U. unfold admission. by destruct (f _). Qed.

(** Who may send a request that names no dialog on the public side: nobody. *)
Definition owed_nothing (now : Z) (req : request) (src : AddrPort) (s : st) : Prop :=
  let m := rq_method req in
  In m [str "INVITE"; str "NOTIFY"; str "REFER"; str "MESSAGE"; str "PRACK"; str "UPDATE"; str "SUBSCRIBE"] \/
  (In m [str "BYE"; str "INFO"] /\ (Admission.admitPublicInvite NetworkToLower now (admission_request req) src (adm_of s)).1 = Admission.srcDrop).

Lemma unnamed_tagged req : ToTag (rq_headers req) <> [] -> unnamed sv uris req false = None.
Proof. intros T. assert (beq (ToTag (rq_headers req)) [] = false) as E by (by apply bool_decide_eq_false_2). unfold unnamed. by rewrite E, !andb_false_r. Qed.

(** Such a request reaches [refuse_dialogless], or finds no direction. *)
Lemma dialogless_refused now req src s s' : owed_nothing now req src s -> rq_method req <> str "INVITE" -> rq_method req <> str "SUBSCRIBE" ->
  rq_method req <> str "PRACK" -> rq_method req <> str "UPDATE" -> untouched s s' -> adm_of s' = adm_of s ->
  let r := refuse_dialogless NetworkToLower shield vouched now req false src None s' in r.1 = true /\ refused_with 481 s r.2.
Proof.
  intros W NI NS NP NU U Ad. unfold refuse_dialogless, method_is, method_notify. cbn [negb].
  destruct W as [W|[W D]]; cbn [In] in W.
  - assert (beq (rq_method req) (str "REFER") || ((beq (rq_method req) (str "MESSAGE") || beq (rq_method req) (str "NOTIFY")) && true) = true) as ->.
    { repeat (destruct W as [M|W]; [first [congruence|by rewrite <- M]|]). done. }
    split; [done|]. by apply (refusing (reject_ 481)).
  - assert (beq (rq_method req) (str "REFER") || ((beq (rq_method req) (str "MESSAGE") || beq (rq_method req) (str "NOTIFY")) && true) = false /\
      beq (rq_method req) (str "BYE") || beq (rq_method req) (str "INFO") = true) as [-> ->] by (repeat (destruct W as [M|W]; [by rewrite <- M|]); done).
    cbn [andb]. unfold Admission.admitDialogless, mbind, flow_bind, admission. rewrite Ad.
    rewrite D. split; [done|]. apply (refusing (reject_ 481)); [done|]. exact U.
Qed.

Ltac methods := cbn [existsb orb];
  repeat match goal with |- context [beq (str ?a) (str ?b)] => let v := eval vm_compute in (beq (str a) (str b)) in change (beq (str a) (str b)) with v; cbn [orb] end.

Lemma in_dialog_refused now req src tr grace s : ToTag (rq_headers req) <> [] -> owned_dialog req false (as_tab (is_anchor s)) = None ->
  (sub_lookup (CallID (rq_headers req)) (FromTag (rq_headers req)) (ToTag (rq_headers req)) planePublic (rq_method req) (et_subs (is_edge s))).1 = None ->
  owed_nothing now req src s -> rq_method req <> str "INVITE" -> rq_method req <> str "SUBSCRIBE" -> rq_method req <> str "PRACK" -> rq_method req <> str "UPDATE" ->
  refused_with 481 s (onInDialog now req false src tr grace s).2.
Proof.
  intros T O Sb W NI NS NP NU. unfold InDialog.onInDialog. rewrite (unnamed_tagged req T). cbv zeta. unfold mbind at 1, flow_bind at 1.
  set (look := if _ : bool then _ else _).
  assert ((look s).1 = None /\ untouched s (look s).2 /\ adm_of (look s).2 = adm_of s) as (L & U & Ad).
  { subst look. destruct (_ && _); [|done]. unfold subs. cbn [plane_of]. destruct (sub_lookup _ _ _ _ _ _) as [o t]. cbn in Sb. by subst o. }
  destruct (look s) as [o s1]. cbn in L, U, Ad. subst o. unfold mbind at 1, flow_bind at 1, InDialog.directionFor, asks.
  pose proof (fun f t dest d => undirected now req false s s1 f t dest d O U) as Un.
  pose proof (dialogless_refused now req src s s1 W NI NS NP NU U Ad) as Rf.
  destruct (direction_for _ _ _ _ _ _) as [[[[f t] dest] d]|].
  - rewrite (Un f t dest d eq_refl). unfold mbind at 1, flow_bind at 1. cbn [mret flow_ret]. unfold InDialog.directed, mbind at 1, flow_bind at 1.
    destruct (refuse_dialogless _ _ _ _ _ _ _ _ s1) as [r s2]. cbv zeta in Rf. cbn [fst snd] in Rf. destruct Rf as [-> Rf]. exact Rf.
  - rewrite andb_false_r. unfold mbind, flow_bind. cbn [mret flow_ret]. rewrite andb_false_r. by apply (refusing (reject_ 481)).
Qed.

(** C10: A request of nobody goes nowhere.  A public INVITE, UPDATE, PRACK, REFER,
    NOTIFY, MESSAGE or SUBSCRIBE with a To tag that names no call its sender is in,
    and no subscription, is answered 481 (413 for a MESSAGE too large) and leaves
    every call and its media as they were: nothing is sent on.  So is such a BYE
    or INFO, which older equipment sends without a dialog the proxy knows, unless
    its source is a registered client or a carrier.  Other methods have other
    rules: an ACK is never answered, OPTIONS does not depend on a dialog, CANCEL
    belongs to its INVITE. *)
Theorem strangers_are_refused register now req src fs s :
  ToTag (rq_headers req) <> [] -> owned_dialog req false (as_tab (is_anchor s)) = None ->
  (sub_lookup (CallID (rq_headers req)) (FromTag (rq_headers req)) (ToTag (rq_headers req)) planePublic (rq_method req) (et_subs (is_edge s))).1 = None ->
  owed_nothing now req src s -> exists code, (code = 481 \/ (rq_method req = str "MESSAGE" /\ code = 413)) /\
    refused_with code s (handle_request register now req false src fs s).2.
Proof.
  intros T O Sb W. assert (beq (ToTag (rq_headers req)) [] = false) as Tt by (by apply bool_decide_eq_false_2).
  pose proof (fun tr grace => in_dialog_refused now req src tr grace s T O Sb W) as Ind.
  pose proof (fun f t dest d => undirected now req false s s f t dest d O (conj eq_refl eq_refl)) as Un.
  assert (forall m : flow unit, refused_with 481 s (m s).2 -> exists code, (code = 481 \/ (rq_method req = str "MESSAGE" /\ code = 413)) /\
    refused_with code s (returns m s).2) as Rt.
  { intros m H. exists 481. split; [by left|]. unfold returns, mbind, flow_bind. by destruct (m s). }
  assert (refused_with 481 s (reject_ 481 s : unit * st).2) as Rj by done.
  assert (refused_with 481 s (onReInvite now req false (fs_trip fs) s).2) as Re.
  { unfold InDialog.onReInvite, mbind at 1, flow_bind at 1, InDialog.directionFor, asks. destruct (direction_for _ _ _ _ _ _) as [[[[f t] dest] d]|]; [|done].
    by rewrite (Un f t dest d eq_refl). }
  assert (forall tr grace meanwhile, refused_with 481 s (onPrackUpdate now req false src meanwhile tr grace s).2) as Pu.
  { intros. unfold InDialog.onPrackUpdate. rewrite Tt. unfold mbind at 1, flow_bind at 1, InDialog.directionFor, asks.
    destruct (direction_for _ _ _ _ _ _) as [[[[f t] dest] d]|]; [|done]. by rewrite (Un f t dest d eq_refl). }
  assert (forall tr grace, rq_method req <> str "INVITE" -> rq_method req <> str "SUBSCRIBE" -> rq_method req <> str "PRACK" -> rq_method req <> str "UPDATE" ->
    exists code, (code = 481 \/ (rq_method req = str "MESSAGE" /\ code = 413)) /\ refused_with code s (onInDialog now req false src tr grace s).2) as Ind'.
  { intros tr grace NI NS NP NU. exists 481. split; [by left|]. by apply Ind. }
  destruct W as [W|[W D]]; cbn [In] in W; repeat (destruct W as [M|W]; [|try done]); unfold Dispatch.handle_request; cbv zeta; rewrite <- M in Ind', Rt, Sb |- *;
    methods; try (by apply Ind').
  - apply Rt. unfold Dispatch.onInvite. by rewrite Tt.
  - unfold InDialog.onMessage. rewrite Tt. cbn [negb orb]. destruct (tooLargeMessage req); [|by apply Ind']. exists 413. split; [by right|]. done.
  - exists 481. split; [by left|apply Pu].
  - exists 481. split; [by left|apply Pu].
  - apply Rt. unfold Subscribe.onSubscribe. rewrite Tt. cbn [negb]. rewrite <- M. unfold mbind, flow_bind, subs. cbn [plane_of].
    destruct (sub_lookup _ _ _ _ _ _) as [o t]. cbn in Sb. subst o. done.
Qed.
End Strangers.
End InDialogSafety.
