(* ===== verification/InDialogDemo.v ===== *)
(** A call that is up, and what is asked of it: the caller holds it, sends an
    INFO and hangs up; a stranger tries the same. *)

From S2P Require Import Prelude GoTime GoText Netip Arrival BanList SipAddr Config RateLimit Location Carriers Cooldown PortPool Latch MediaSession.
From S2P Require Import SdpCodec SdpCrypto SdpParse SdpBuild Topology EdgeSdes Forward Hide CarrierRoute WebRtcLeg WebRtcSession.
From S2P Require Import SipMsg SipRequest RegisterText Dialog DialogInv DialogSafety MediaAnchor AnchorSafety AnchorRun AnchorBody AnchorDemo.
From S2P Require Import Subs AckMiss InviteFlow InviteLogic InviteSafety InviteDemo Subscribe InDialog Dispatch InDialogLogic InDialogSafety.
From S2P Require Admission Shield.

Open Scope Z_scope.

#[local] Existing Instance ListImpl.list_params.
#[local] Existing Instance ListImpl.list_headers.
#[local] Existing Instance ListImpl.list_headers_laws.

(** The call of [InviteDemo], answered. *)
Definition up_state := (placed [] placed_dials).2.

Definition inside (m : gostring) (seq : Z) (tag body : gostring) : request :=
  mkRequest m placed_uri (str "SIP/2.0") None
    (mkMsg [HVia demo_via; HRoute (mkUri [] (str "203.0.113.5") 16060 None false); placed_from;
            HTo (mkNameAddr placed_uri (Some [(str "tag", tag)])); HCallID (str "c"); HCSeq seq m; HMaxForwards 70;
            HContact (mkNameAddr placed_uri None)]
       body (str "UDP") [] (str "198.51.100.9:40000")).
Definition inside_answer (status : Z) (m : gostring) (seq : Z) (body : gostring) : response :=
  mkResponse status
    (mkMsg [HVia (side_via (private demo_topology) (str "z9hG4bKx")); HVia demo_via; placed_from;
            HTo (mkNameAddr placed_uri (Some [(str "tag", str "z")])); HCallID (str "c"); HCSeq seq m;
            HContact (mkNameAddr switch_uri None)] body (str "UDP") [] (str "10.0.0.12:5060")).

Abbreviation in_demo t := (t demo_unmarshal demo_rand toy_context (fun _ => Some 16) (fun _ => Some 14)
  toy_open toy_open toy_seal toy_seal (fun p _ => Some (len p)) (fun p => Some (len p)) (fun _ _ => true) hide_text to_lower to_lower
  (fun _ => []) placed_branch (fun _ => true) demo_server Admission.demo_shield_cfg (fun _ _ => false) ∅ ∅).
Abbreviation demo_reinvite := (onReInvite (SP := ListImpl.list_params) demo_unmarshal demo_rand toy_context (fun _ => Some 16) (fun _ => Some 14)
  toy_open toy_open toy_seal toy_seal (fun p _ => Some (len p)) (fun p => Some (len p)) (fun _ _ => true) hide_text to_lower to_lower
  placed_branch (fun _ => true) demo_server ∅).
Abbreviation demo_handle := (in_demo (handle_request (SP := ListImpl.list_params)) ∅ placed_cfg (mkDrain false 0) 60 (mret tt)).
Abbreviation demo_receive := (in_demo (receive (SP := ListImpl.list_params)) ∅ placed_cfg (mkDrain false 0) 60 (mkMarker (str "m")) (mret tt)).

Definition plain_far (tr : trip) : far_side := mkFarSide tr [] [] [] false [] (mkDial [] [] false [] [] txFine).
Definition responds (rs : list response) : trip := mkTrip true false (map (fun r => FRes 2000 r []) rs).

Definition fresh_wires (s : @inviteState ListImpl.list_params unit unit) : list (gostring * Z * gostring) := map wire_shape (drop (length (is_wire up_state)) (is_wire s)).

(** The re-INVITE rings at the switch and is answered, twice; an INFO passes; a BYE of a
    stranger is refused and the caller's own ends the call. *)
Definition held_trip : trip := responds [inside_answer 183 (str "INVITE") 2 []; inside_answer 200 (str "INVITE") 2 demo_call_answer;
  inside_answer 200 (str "INVITE") 2 demo_call_answer].
Definition held := demo_reinvite 2000 (inside (str "INVITE") 2 (str "z") demo_call_offer) false held_trip up_state.

Definition says (m : gostring) (tag : gostring) (src : AddrPort) := demo_handle 2000 (inside m 2 tag []) false src
  (plain_far (responds [inside_answer 200 m 2 []])).
Definition caller_at : AddrPort := mkAddrPort demo_client 40000.
Definition stranger_at : AddrPort := mkAddrPort (ip4 192 0 2 8) 5060.
Definition up_calls (s : @inviteState ListImpl.list_params unit unit) : list (option bool) :=
  map (fun d => is_confirmed <$> (as_tab (is_anchor s)).(t_heap) !! d) [0%nat].

Example inside_a_call :
  fresh_wires held.2 = [(str "forward", 0, []); (str "relay", 183, []); (str "relay", 200, []); (str "again", 200, [])] /\
  fresh_wires (says (str "INFO") (str "z") caller_at up_state).2 = [(str "forward", 0, []); (str "relay", 200, [])] /\
  fresh_wires (says (str "BYE") (str "y") stranger_at up_state).2 = [(str "reply", 481, [])] /\
  up_calls (says (str "BYE") (str "y") stranger_at up_state).2 = [Some true] /\
  fresh_wires (says (str "BYE") (str "z") caller_at up_state).2 = [(str "forward", 0, []); (str "relay", 200, [])] /\
  up_calls (says (str "BYE") (str "z") caller_at up_state).2 = [Some false].
Proof. vm_compute. by split_and!. Qed.

(** Without a second look at the dialog an UPDATE of a call that has just ended
    stops the handler: it panics, and the guard answers 500. *)
Example ended_meanwhile :
  let ends := [(0%nat, EOther (EEnd 0 endByeCaller))] in
  let update := inside (str "UPDATE") 2 (str "z") demo_call_offer in
  (demo_handle 2000 update false caller_at (mkFarSide (responds []) ends [] [] false [] (mkDial [] [] false [] [] txFine)) up_state).1 = panicked /\
  fresh_wires (demo_receive 2000 update (mkFarSide (responds []) ends [] [] false [] (mkDial [] [] false [] [] txFine)) up_state).2 = [(str "reply", 500, [])].
Proof. vm_compute. by split. Qed.

(** The phone registered at [Admission.demo_server]. *)
Definition phone_at : AddrPort := mkAddrPort (ip4 192 0 2 7) 5060.

Definition watch (tag : option gostring) (seq : Z) : request :=
  mkRequest (str "SUBSCRIBE") placed_uri (str "SIP/2.0") None
    (mkMsg [HVia demo_via; HRoute (mkUri [] (str "203.0.113.5") 16060 None false); placed_from;
            HTo (mkNameAddr placed_uri ((fun t => [(str "tag", t)]) <$> tag)); HCallID (str "w"); HCSeq seq (str "SUBSCRIBE"); HMaxForwards 70;
            HContact (mkNameAddr placed_uri None); HOther (str "Event") (str "dialog")]
       [] (str "UDP") [] (str "192.0.2.7:5060")).
Definition watch_answer : response :=
  mkResponse 200
    (mkMsg [HVia (side_via (private demo_topology) (str "z9hG4bKx")); HVia demo_via; placed_from;
            HTo (mkNameAddr placed_uri (Some [(str "tag", str "n")])); HCallID (str "w"); HCSeq 1 (str "SUBSCRIBE");
            HContact (mkNameAddr switch_uri None)] [] (str "UDP") [] (str "10.0.0.12:5060")).
Definition watched := (demo_handle 2000 (watch None 1) false phone_at (plain_far (responds [watch_answer])) up_state).2.
Definition sent_to (s : @inviteState ListImpl.list_params unit unit) : list Uri :=
  omap (fun w => match w with WForward out => Some (rq_recipient out) | _ => None end) (drop (length (is_wire watched)) (is_wire s)).

(** A SUBSCRIBE of the phone is answered by the switch at [switch_uri]; the
    record keeps the proxy's own Contact for it, the one the phone was given, and
    the phone's refresh goes out to that. *)
Example refreshes_are_sent_to_the_proxy :
  (r_privateContact ∘ s_route <$> sb_heap (et_subs (is_edge watched)) !! 0%nat) = Some (side_uri demo_side) /\
  sent_to (demo_handle 3000 (watch (Some (str "n")) 2) false phone_at (plain_far (responds [])) watched).2 = [side_uri demo_side] /\
  ContactURI (rs_headers watch_answer) = Some switch_uri.
Proof. vm_compute. by split_and!. Qed.

(** ** Witnesses *)

Lemma no_request_is_answered_twice_witness :
  let s' := (demo_receive 2000 (inside (str "INFO") 2 (str "z") []) (plain_far (responds [inside_answer 200 (str "INFO") 2 []])) up_state).2 in
  finals (is_wire s') = S (finals (is_wire up_state)).
Proof.
  destruct (in_demo (no_request_is_answered_twice (SP := ListImpl.list_params)) ∅ placed_cfg (mkDrain false 0) 60 (mkMarker (str "m")) (mret tt) 2000
    (inside (str "INFO") 2 (str "z") []) (plain_far (responds [inside_answer 200 (str "INFO") 2 []])) up_state) as [[H|H] _]; [done|done| |exact H].
  exfalso. vm_compute in H. discriminate.
Defined.

Lemma strangers_are_refused_witness :
  refused_with 481 up_state (demo_handle 2000 (inside (str "BYE") 2 (str "y") []) false stranger_at (plain_far (responds [])) up_state).2.
Proof.
  destruct (in_demo (strangers_are_refused (SP := ListImpl.list_params)) ∅ placed_cfg (mkDrain false 0) 60 (mret tt) 2000
    (inside (str "BYE") 2 (str "y") []) stranger_at (plain_far (responds [])) up_state) as (code & [->|[M _]] & H).
  - done.
  - by vm_compute.
  - by vm_compute.
  - right. split; [by left|]. by vm_compute.
  - exact H.
  - discriminate.
Defined.

Lemma far_sdp_never_passes_in_a_call_witness : exists ws, is_wire held.2 = is_wire up_state ++ ws /\
  match ws with
  | [_; WRelay ringing; WRelay answer; WAgain once_more] =>
      body_of answer <> [] /\ body_of answer <> demo_call_answer /\ body_of once_more = body_of answer
  | _ => False
  end.
Proof.
  destruct (in_demo (far_sdp_never_passes_in_a_call (SP := ListImpl.list_params)) 2000 (inside (str "INVITE") 2 (str "z") demo_call_offer) false caller_at []
    held_trip [] up_state) as [(ws & E & _) _].
  exists ws. split; [exact E|]. apply (f_equal (drop (length (is_wire up_state)))) in E. rewrite drop_app_length in E. rewrite <- E. clear E ws.
  vm_compute. by split_and!.
Defined.
