(* ===== verification/ConfigSchema.v ===== *)
(** The configuration (internal/config/schema.go): the records freesbc.yaml
    decodes to, their defaults and their accessors.

    A Go pointer to a section is an [option] of its record; a slice or a map
    is an [option] too, [None] being nil, since [reflect.DeepEqual] (restart.go)
    tells a nil slice from an empty one.  [netip] values are those of [Netip];
    the fields that [validate] compiles are part of the record, as in the code. *)

From S2P Require Import Prelude GoTime Netip GoText GoEncoding Carriers Offenders Shield Config Topology.

Open Scope Z_scope.

Definition PrivateSIPPort : Z := 5060.
Definition MinBcryptCost : Z := 10.
Definition maxHEPNodeName : Z := 255.

(** edge.srtp and edge.carriers.<name>.srtp *)
Definition SRTPOff : gostring := str "off".
Definition SRTPOptional : gostring := str "optional".
Definition SRTPRequired : gostring := str "required".

(** The HEP transports are the carriers'. *)
Definition HEPUDP : gostring := str "udp".
Definition HEPTCP : gostring := str "tcp".
Definition HEPTLS : gostring := str "tls".

(** ** Sections *)

Record PublicConfig := mkPublic { pub_IP : gostring; pub_Bind : gostring }.
Record PrivateConfig := mkPrivate { priv_IP : gostring }.
Record TLSConfig := mkTLS { tls_Cert : gostring; tls_Key : gostring }.

Record ListenPorts := mkPorts { lp_UDP : Z; lp_TCP : Z; lp_TLS : Z; lp_WS : Z; lp_WSS : Z }.

(** [ListenPorts.Port] *)
Definition Port (l : ListenPorts) (transport : gostring) : Z :=
  if beq transport (str "udp") then lp_UDP l
  else if beq transport (str "tcp") then lp_TCP l
  else if beq transport (str "tls") then lp_TLS l
  else if beq transport (str "ws") then lp_WS l
  else if beq transport (str "wss") then lp_WSS l
  else 0.

Record CarrierConfig := mkCC {
  cc_Host : gostring; cc_Transport : gostring; cc_CAFile : gostring;
  cc_ClientCert : gostring; cc_ClientKey : gostring; cc_SRTP : gostring
}.

(** [CarrierConfig.Plain] *)
Definition Plain (c : CarrierConfig) : bool :=
  (beq (cc_Transport c) [] || beq (cc_Transport c) CarrierUDP) && beq (cc_CAFile c) [] &&
  beq (cc_ClientCert c) [] && beq (cc_ClientKey c) [] && (beq (cc_SRTP c) [] || beq (cc_SRTP c) SRTPOff).

(** [Carrier], with the settings only its TLS dialer and its SDES policy
    read; what the edge routes by is [Carriers.Carrier]. *)
Record ValidCarrier := mkVC {
  vc_Carrier : Carrier; vc_SRTP : gostring; vc_CAFile : gostring; vc_ClientCert : gostring; vc_ClientKey : gostring
}.

Record EdgeConfig := mkEdge {
  e_Switch : option (list gostring); e_SwitchCarrierPort : Z;
  e_Listen : ListenPorts; e_Advertise : ListenPorts;
  e_Carriers : option (gmap gostring CarrierConfig); e_CarrierSources : option (list gostring);
  e_SRTP : gostring; e_AllowInsecureSDES : bool; e_AllowRegisterAuthMismatch : bool;
  (* compiled by validate *)
  e_switches : list AddrPort; e_carrierNets : list Prefix; e_carriers : list ValidCarrier
}.

(** The shield section; the limits the security plane reads are
    [Shield.ShieldConfig]. *)
Record ShieldSection := mkSection { s_Shield : ShieldConfig; s_MaxSessions : Z; s_InviteRateLimit : gostring }.

Record AdminConfig := mkAdmin {
  a_Listen : gostring; a_PasswordHash : gostring; a_AllowRemote : bool;
  a_AllowedHosts : option (list gostring); a_Pprof : bool
}.

Record HEPTLSConfig := mkHepTLS { ht_CA : gostring; ht_Cert : gostring; ht_Key : gostring }.

Record HEPConfig := mkHEP {
  h_Address : gostring; h_Transport : gostring; h_TLS : option HEPTLSConfig;
  h_CaptureID : Z; h_NodeName : gostring; h_RedactAuth : option bool
}.

(** [envRedaction] (expand.go): what expansion put where. *)
Record envRedaction := mkRedact { r_fields : gmap gostring gostring; r_values : gmap gostring gostring }.

Record Config := mkConfig {
  Public : PublicConfig; Private : PrivateConfig; RTP : PortRange; TLS : option TLSConfig;
  Edge : EdgeConfig; ShieldCfg : ShieldSection; Admin : option AdminConfig; HEP : option HEPConfig;
  envRedact : envRedaction
}.

#[export] Instance PublicConfig_eq_dec : EqDecision PublicConfig.
Proof. solve_decision. Defined.
#[export] Instance PrivateConfig_eq_dec : EqDecision PrivateConfig.
Proof. solve_decision. Defined.
#[export] Instance PortRange_eq_dec : EqDecision PortRange.
Proof. solve_decision. Defined.
#[export] Instance TLSConfig_eq_dec : EqDecision TLSConfig.
Proof. solve_decision. Defined.
#[export] Instance ListenPorts_eq_dec : EqDecision ListenPorts.
Proof. solve_decision. Defined.
#[export] Instance CarrierConfig_eq_dec : EqDecision CarrierConfig.
Proof. solve_decision. Defined.
#[export] Instance AdminConfig_eq_dec : EqDecision AdminConfig.
Proof. solve_decision. Defined.
#[export] Instance HEPTLSConfig_eq_dec : EqDecision HEPTLSConfig.
Proof. solve_decision. Defined.
#[export] Instance HEPConfig_eq_dec : EqDecision HEPConfig.
Proof. solve_decision. Defined.

(** Ranging over a nil slice or map is ranging over nothing. *)
Definition of_slice {A} (s : option (list A)) : list A := default [] s.
Definition of_map {V} (m : option (gmap gostring V)) : gmap gostring V := default ∅ m.

(** Field updates *)
Definition with_edge (f : EdgeConfig -> EdgeConfig) (c : Config) : Config :=
  mkConfig (Public c) (Private c) (RTP c) (TLS c) (f (Edge c)) (ShieldCfg c) (Admin c) (HEP c) (envRedact c).
Definition set_switches (l : list AddrPort) (e : EdgeConfig) : EdgeConfig :=
  mkEdge (e_Switch e) (e_SwitchCarrierPort e) (e_Listen e) (e_Advertise e) (e_Carriers e) (e_CarrierSources e)
    (e_SRTP e) (e_AllowInsecureSDES e) (e_AllowRegisterAuthMismatch e) l (e_carrierNets e) (e_carriers e).
Definition set_nets (l : list Prefix) (e : EdgeConfig) : EdgeConfig :=
  mkEdge (e_Switch e) (e_SwitchCarrierPort e) (e_Listen e) (e_Advertise e) (e_Carriers e) (e_CarrierSources e)
    (e_SRTP e) (e_AllowInsecureSDES e) (e_AllowRegisterAuthMismatch e) (e_switches e) l (e_carriers e).
Definition set_carriers (l : list ValidCarrier) (e : EdgeConfig) : EdgeConfig :=
  mkEdge (e_Switch e) (e_SwitchCarrierPort e) (e_Listen e) (e_Advertise e) (e_Carriers e) (e_CarrierSources e)
    (e_SRTP e) (e_AllowInsecureSDES e) (e_AllowRegisterAuthMismatch e) (e_switches e) (e_carrierNets e) l.
Definition set_srtp (s : gostring) (e : EdgeConfig) : EdgeConfig :=
  mkEdge (e_Switch e) (e_SwitchCarrierPort e) (e_Listen e) (e_Advertise e) (e_Carriers e) (e_CarrierSources e)
    s (e_AllowInsecureSDES e) (e_AllowRegisterAuthMismatch e) (e_switches e) (e_carrierNets e) (e_carriers e).

(** ** Defaults *)

Definition DefaultRTP : PortRange := mkRange 20000 29999.
Definition DefaultRegisterBan : gostring := str "10/10m".
Definition DefaultRegisterBanAOR : gostring := str "10/10m".
Definition DefaultAdmissionBan : gostring := str "50/5m".

(** An unset string takes its default. *)
Definition or_text (s d : gostring) : gostring := if beq s [] then d else s.

Definition shieldDefaults (rtp : PortRange) (s : ShieldSection) : ShieldSection :=
  let l := s_Shield s in
  mkSection
    (mkSCfg (or_text (cfg_RateLimit l) (str "20/s per_ip")) (or_text (cfg_CarrierRateLimit l) (str "200/s per_ip"))
       (if cfg_Ban l =? 0 then hour else cfg_Ban l)
       (or_text (cfg_RegisterBan l) DefaultRegisterBan) (or_text (cfg_RegisterBanAOR l) DefaultRegisterBanAOR)
       (or_text (cfg_AdmissionBan l) DefaultAdmissionBan))
    (if s_MaxSessions s =? 0 then Pairs rtp else s_MaxSessions s) (s_InviteRateLimit s).

Definition hepDefaults (h : HEPConfig) : HEPConfig :=
  mkHEP (h_Address h) (or_text (h_Transport h) HEPUDP) (h_TLS h) (h_CaptureID h) (h_NodeName h)
    (match h_RedactAuth h with None => Some true | r => r end).

Definition withDefaults (c : Config) : Config :=
  let rtp := if bool_decide (RTP c = mkRange 0 0) then DefaultRTP else RTP c in
  mkConfig (mkPublic (pub_IP (Public c)) (or_text (pub_Bind (Public c)) (pub_IP (Public c)))) (Private c) rtp (TLS c)
    (set_srtp (or_text (e_SRTP (Edge c)) SRTPOff) (Edge c)) (shieldDefaults rtp (ShieldCfg c)) (Admin c)
    (hepDefaults <$> HEP c) (envRedact c).

(** ** Accessors *)

(** [mustAddr]: the zero address when the text is none. *)
Definition mustAddr (s : gostring) : Addr := match parse_addr s with Some a => unmap a | None => AddrZero end.

Definition PublicIP (c : Config) : Addr := mustAddr (pub_IP (Public c)).
Definition PublicBind (c : Config) : Addr := mustAddr (pub_Bind (Public c)).
Definition PrivateIP (c : Config) : Addr := mustAddr (priv_IP (Private c)).
Definition PrivateAddr (c : Config) : AddrPort := mkAddrPort (PrivateIP c) PrivateSIPPort.

Definition HEPRedact (c : Config) : bool :=
  match HEP c with None => true | Some h => match h_RedactAuth h with None => true | Some b => b end end.

Definition AdvertisedPort (c : Config) (transport : gostring) : Z :=
  let listen := Port (e_Listen (Edge c)) transport in
  if listen =? 0 then 0
  else let adv := Port (e_Advertise (Edge c)) transport in if negb (adv =? 0) then adv else listen.

Definition PortTranslated (c : Config) : bool :=
  existsb (fun tr => negb (AdvertisedPort c tr =? Port (e_Listen (Edge c)) tr)) Transports.

Definition CarrierSourceNets (c : Config) : list Prefix := e_carrierNets (Edge c).

Definition CarrierNets (c : Config) : list Prefix :=
  e_carrierNets (Edge c) ++
  map (fun k => host_prefix (c_addr (vc_Carrier k))) (List.filter (fun k => Literal (vc_Carrier k)) (e_carriers (Edge c))).

Definition WebRTC (c : Config) : bool := negb (lp_WS (e_Listen (Edge c)) =? 0) || negb (lp_WSS (e_Listen (Edge c)) =? 0).

(** What the edge builds its network model from (topology.go). *)
Definition topo_of (c : Config) : topoConfig :=
  mkTopoConfig (e_switches (Edge c)) (e_SwitchCarrierPort (Edge c)) (Port (e_Listen (Edge c))) (Port (e_Advertise (Edge c)))
    (PublicIP c) (PublicBind c) (map vc_Carrier (e_carriers (Edge c))).

Lemma topo_of_AdvertisedPort c tr : Topology.AdvertisedPort (topo_of c) tr = AdvertisedPort c tr.
Proof. reflexivity. Qed.
