(* ===== verification/EnvExpand.v ===== *)
(** Environment references in the configuration (internal/config/expand.go).

    [expandEnv] walks every string field in the order of the Go structs and
    replaces its [${NAME}] references; what it substituted is remembered as an
    [envRedaction], with which the validator's messages are rewritten
    ([apply]).  The environment is an argument, and so is the order in which
    the carriers' map is walked.  [strconv.Quote] is modelled on ASCII; a byte
    above 127 stands for itself. *)

From stdpp Require Import sorting.
From S2P Require Import Prelude Netip GoText GoEncoding Carriers Offenders Shield Topology Config ConfigSchema.

Open Scope Z_scope.

(** ** References *)

(** A text is literal bytes and references. *)
Inductive piece := PByte (c : Z) | PRef (name : gostring).

Definition name_byte (c : Z) : bool := is_alnum c || (c =? 95).
Definition name_start (c : Z) : bool := name_byte c && negb (is_digit c).

Fixpoint span (f : Z -> bool) (s : gostring) : gostring * gostring :=
  match s with
  | c :: s' => if f c then let '(a, b) := span f s' in (c :: a, b) else ([], s)
  | [] => ([], [])
  end.

(** [envRef] at the head of the text: the name and what follows. *)
Definition ref_at (s : gostring) : option (gostring * gostring) :=
  match s with
  | 36 :: 123 :: r =>
      match span name_byte r with
      | (n, 125 :: rest) => match n with c :: _ => if name_start c then Some (n, rest) else None | [] => None end
      | _ => None
      end
  | _ => None
  end.

(** The matches of [envRef], left to right; every piece takes a byte, so the
    length of the text is fuel enough. *)
Fixpoint pieces (fuel : nat) (s : gostring) : list piece :=
  match fuel, s with
  | S fuel, c :: s' =>
      match ref_at s with
      | Some (n, rest) => PRef n :: pieces fuel rest
      | None => PByte c :: pieces fuel s'
      end
  | _, _ => []
  end.

Definition env_pieces (s : gostring) : list piece := pieces (length s) s.

(** [envRef.ReplaceAllString(s, "")] *)
Definition strip_refs (s : gostring) : gostring :=
  flat_map (fun p => match p with PByte c => [c] | PRef _ => [] end) (env_pieces s).

Definition open_ref : gostring := str "${".

(** [malformedRef] *)
Definition malformedRef (s : gostring) : option gostring :=
  let stripped := strip_refs s in
  match index stripped open_ref with
  | None => None
  | Some i =>
      let rest := drop i stripped in
      match index_byte rest 125 with
      | Some e => Some (take (S e) rest)
      | None => if 40 <? len rest then Some (take 40 rest ++ str "...") else Some rest
      end
  end.

(** ** The walk *)

(** [envExpander] *)
Record envExpander := mkExp {
  x_missing : list gostring; x_malformed : list (gostring * gostring);
  x_seenMissing : gset gostring; x_redact : envRedaction
}.

Definition no_redaction : envRedaction := mkRedact ∅ ∅.
Definition new_expander : envExpander := mkExp [] [] ∅ no_redaction.

Definition X (A : Type) : Type := envExpander -> A * envExpander.
Definition xret {A} (a : A) : X A := fun e => (a, e).
Definition xbind {A B} (m : X A) (k : A -> X B) : X B := fun e => let '(a, e) := m e in k a e.

Declare Scope expand_scope.
Notation "'let*' x := m 'in' k" := (xbind m (fun x => k)) (at level 200, x name, m at level 100, k at level 200) : expand_scope.
Local Open Scope expand_scope.

Fixpoint xmap {A B} (f : nat -> A -> X B) (i : nat) (l : list A) : X (list B) :=
  match l with
  | [] => xret []
  | a :: l => let* b := f i a in let* bs := xmap f (S i) l in xret (b :: bs)
  end.

Definition xopt {A B} (f : A -> X B) (o : option A) : X (option B) :=
  match o with None => xret None | Some a => let* b := f a in xret (Some b) end.

Section Env.
(** os.LookupEnv *)
Variable LookupEnv : gostring -> option gostring.

Definition record_ (val name : gostring) (e : envExpander) : envExpander :=
  mkExp (x_missing e) (x_malformed e) (x_seenMissing e)
    (mkRedact (r_fields (x_redact e)) (<[val := name]> (r_values (x_redact e)))).

Definition miss (name : gostring) (e : envExpander) : envExpander :=
  if bool_decide (name ∈ x_seenMissing e) then e
  else mkExp (x_missing e ++ [name]) (x_malformed e) ({[name]} ∪ x_seenMissing e) (x_redact e).

Fixpoint replace_pieces (ps : list piece) : X gostring :=
  match ps with
  | [] => xret []
  | PByte c :: ps => let* r := replace_pieces ps in xret (c :: r)
  | PRef n :: ps => fun e =>
      match LookupEnv n with
      | None => (let* r := replace_pieces ps in xret (open_ref ++ n ++ 125 :: r)) (miss n e)
      | Some v => (let* r := replace_pieces ps in xret (v ++ r)) (record_ v n e)
      end
  end.

Definition expandString (path orig : gostring) : X gostring := fun e =>
  if negb (contains orig open_ref) then (orig, e)
  else match malformedRef orig with
       | Some snippet => (orig, mkExp (x_missing e) (x_malformed e ++ [(snippet, path)]) (x_seenMissing e) (x_redact e))
       | None =>
           let '(expanded, e) := replace_pieces (env_pieces orig) e in
           if beq expanded orig then (orig, e)
           else (expanded, mkExp (x_missing e) (x_malformed e) (x_seenMissing e)
                   (mkRedact (<[expanded := orig]> (r_fields (x_redact e))) (r_values (x_redact e))))
       end.

Definition sub (path key : gostring) : gostring := path ++ 46 :: key.
Definition at_ (path key : gostring) : gostring := path ++ 91 :: key ++ [93].

Definition field (path key : gostring) (s : gostring) : X gostring := expandString (sub path key) s.
Definition walk_list (path : gostring) (l : list gostring) : X (list gostring) :=
  xmap (fun i => expandString (at_ path (int_string (Z.of_nat i)))) 0 l.

Definition walk_carrier (path : gostring) (c : CarrierConfig) : X CarrierConfig :=
  let* host := field path (str "host") (cc_Host c) in
  let* tr := field path (str "transport") (cc_Transport c) in
  let* ca := field path (str "ca_file") (cc_CAFile c) in
  let* cert := field path (str "client_cert") (cc_ClientCert c) in
  let* key := field path (str "client_key") (cc_ClientKey c) in
  let* srtp := field path (str "srtp") (cc_SRTP c) in
  xret (mkCC host tr ca cert key srtp).

(** [walkMap]: a copy of each value is expanded and written back. *)
Fixpoint walkMap (path : gostring) (order : list gostring) (m : gmap gostring CarrierConfig) : X (gmap gostring CarrierConfig) :=
  match order with
  | [] => xret m
  | k :: order =>
      match m !! k with
      | None => walkMap path order m
      | Some v => let* v := walk_carrier (at_ path k) v in walkMap path order (<[k := v]> m)
      end
  end.

Definition walk_tls (path : gostring) (t : TLSConfig) : X TLSConfig :=
  let* cert := field path (str "cert") (tls_Cert t) in
  let* key := field path (str "key") (tls_Key t) in
  xret (mkTLS cert key).

Definition walk_edge (order : list gostring) (path : gostring) (e : EdgeConfig) : X EdgeConfig :=
  let* sw := xopt (walk_list (sub path (str "switch"))) (e_Switch e) in
  let* cs := xopt (walkMap (sub path (str "carriers")) order) (e_Carriers e) in
  let* src := xopt (walk_list (sub path (str "carrier_sources"))) (e_CarrierSources e) in
  let* srtp := field path (str "srtp") (e_SRTP e) in
  xret (mkEdge sw (e_SwitchCarrierPort e) (e_Listen e) (e_Advertise e) cs src srtp
          (e_AllowInsecureSDES e) (e_AllowRegisterAuthMismatch e) (e_switches e) (e_carrierNets e) (e_carriers e)).

Definition walk_shield (path : gostring) (s : ShieldSection) : X ShieldSection :=
  let l := s_Shield s in
  let* rate := field path (str "rate_limit") (cfg_RateLimit l) in
  let* crate := field path (str "carrier_rate_limit") (cfg_CarrierRateLimit l) in
  let* irate := field path (str "invite_rate_limit") (s_InviteRateLimit s) in
  let* rban := field path (str "register_ban") (cfg_RegisterBan l) in
  let* aban := field path (str "register_ban_aor") (cfg_RegisterBanAOR l) in
  let* dban := field path (str "admission_ban") (cfg_AdmissionBan l) in
  xret (mkSection (mkSCfg rate crate (cfg_Ban l) rban aban dban) (s_MaxSessions s) irate).

Definition walk_admin (path : gostring) (a : AdminConfig) : X AdminConfig :=
  let* listen := field path (str "listen") (a_Listen a) in
  let* hash := field path (str "password_hash") (a_PasswordHash a) in
  let* hosts := xopt (walk_list (sub path (str "allowed_hosts"))) (a_AllowedHosts a) in
  xret (mkAdmin listen hash (a_AllowRemote a) hosts (a_Pprof a)).

Definition walk_hep_tls (path : gostring) (t : HEPTLSConfig) : X HEPTLSConfig :=
  let* ca := field path (str "ca") (ht_CA t) in
  let* cert := field path (str "cert") (ht_Cert t) in
  let* key := field path (str "key") (ht_Key t) in
  xret (mkHepTLS ca cert key).

Definition walk_hep (path : gostring) (h : HEPConfig) : X HEPConfig :=
  let* addr := field path (str "address") (h_Address h) in
  let* tr := field path (str "transport") (h_Transport h) in
  let* tls := xopt (walk_hep_tls (sub path (str "tls"))) (h_TLS h) in
  let* node := field path (str "node_name") (h_NodeName h) in
  xret (mkHEP addr tr tls (h_CaptureID h) node (h_RedactAuth h)).

(** [walk] of the whole record, field by field. *)
Definition walk (order : list gostring) (c : Config) : X Config :=
  let root := str "config" in
  let* ip := field (sub root (str "public")) (str "ip") (pub_IP (Public c)) in
  let* bind := field (sub root (str "public")) (str "bind") (pub_Bind (Public c)) in
  let* priv := field (sub root (str "private")) (str "ip") (priv_IP (Private c)) in
  let* tls := xopt (walk_tls (sub root (str "tls"))) (TLS c) in
  let* edge := walk_edge order (sub root (str "edge")) (Edge c) in
  let* sh := walk_shield (sub root (str "shield")) (ShieldCfg c) in
  let* adm := xopt (walk_admin (sub root (str "admin"))) (Admin c) in
  let* hep := xopt (walk_hep (sub root (str "hep"))) (HEP c) in
  xret (mkConfig (mkPublic ip bind) (mkPrivate priv) (RTP c) tls edge sh adm hep (envRedact c)).

Inductive expandError := Malformed (l : list (gostring * gostring)) | Missing (l : list gostring).

Definition set_redact (r : envRedaction) (c : Config) : Config :=
  mkConfig (Public c) (Private c) (RTP c) (TLS c) (Edge c) (ShieldCfg c) (Admin c) (HEP c) r.

Definition expandEnv (order : list gostring) (c : Config) : expandError + Config :=
  let '(c, e) := walk order c new_expander in
  let c := set_redact (x_redact e) c in
  if negb (bool_decide (x_malformed e = [])) then inl (Malformed (x_malformed e))
  else if negb (bool_decide (x_missing e = [])) then inl (Missing (x_missing e))
  else inr c.
End Env.

(** ** Redaction *)

(** [tainted]: the value of a field that expansion changed. *)
Definition tainted (r : envRedaction) (value : gostring) : bool := bool_decide (is_Some (r_fields r !! value)).

(** [strings.ReplaceAll] of a non-empty [old]; [skip] is what is left of a match. *)
Fixpoint replace_from (old new : gostring) (skip : nat) (s : gostring) : gostring :=
  match s with
  | [] => []
  | c :: s' =>
      match skip with
      | S n => replace_from old new n s'
      | O => if has_prefix s old then new ++ replace_from old new (length old - 1) s'
             else c :: replace_from old new 0 s'
      end
  end.
Definition replace_all (s old new : gostring) : gostring := replace_from old new 0 s.

(** What [strconv.Quote] puts between its quotes. *)
Definition quote_byte (c : Z) : gostring :=
  if (c =? 34) || (c =? 92) then [92; c]
  else if c =? 7 then str "\a" else if c =? 8 then str "\b" else if c =? 12 then str "\f"
  else if c =? 10 then str "\n" else if c =? 13 then str "\r" else if c =? 9 then str "\t" else if c =? 11 then str "\v"
  else if (c <? 32) || (c =? 127) then str "\x" ++ [hex_digit (c / 16); hex_digit (c mod 16)]
  else [c].
Definition quote_body (s : gostring) : gostring := flat_map quote_byte s.

(** Longer keys first, then byte order. *)
Definition key_le (a b : gostring) : Prop :=
  (length b < length a)%nat \/ (length a = length b /\ str_le a b).

#[export] Instance key_le_dec : RelDecision key_le.
Proof. intros a b. unfold key_le. apply _. Defined.

Definition replace_key (f : gostring -> gostring) (msg : gostring) (kv : gostring * gostring) : gostring :=
  let '(k, v) := kv in
  let r := f v in
  let msg := replace_all msg k r in
  let q := quote_body k in
  if beq q k then msg else replace_all msg q r.

Definition replaceLongestFirst (msg : gostring) (m : gmap gostring gostring) (repl : gostring -> gostring) : gostring :=
  let keys := merge_sort key_le (List.filter (fun k => negb (beq k [])) (map_to_list m).*1) in
  fold_left (replace_key repl) (map (fun k => (k, default [] (m !! k))) keys) msg.

(** [envRedaction.apply] *)
Definition apply_redaction (r : envRedaction) (msg : gostring) : gostring :=
  if bool_decide (r_fields r = ∅) then msg
  else replaceLongestFirst (replaceLongestFirst msg (r_fields r) (fun t => t)) (r_values r)
         (fun name => open_ref ++ name ++ [125]).

Example env_reads :
  env_pieces (str "a${B_1}$c") = [PByte 97; PRef (str "B_1"); PByte 36; PByte 99]
  /\ malformedRef (str "x${V:-d}y") = Some (str "${V:-d}")
  /\ malformedRef (str "$${A}{b") = Some (str "${b")
  /\ malformedRef (str "${A}${B}") = None.
Proof. vm_compute. done. Qed.

Example redacted :
  apply_redaction (mkRedact {[ str "10.1.2.3:5060" := str "${A}:5060" ]} {[ str "10.1.2.3" := str "A" ]}) (str "10.1.2.3:5060 or 10.1.2.3")
  = str "${A}:5060 or ${A}".
Proof. vm_compute. reflexivity. Qed.

(** ** What expansion does

    [expandEnv] is one pass: each string field becomes the concatenation of
    its literal bytes and of the values of its references, and the first field
    it cannot do that for makes it fail. *)

Section Spec.
Variable LookupEnv : gostring -> option gostring.

Definition piece_text (p : piece) : gostring :=
  match p with PByte c => [c] | PRef n => default (open_ref ++ n ++ [125]) (LookupEnv n) end.

(** What a text stands for. *)
Definition subst (s : gostring) : gostring := flat_map piece_text (env_pieces s).

Definition text_ok (s : gostring) : Prop :=
  malformedRef s = None /\ Forall (fun p => match p with PByte _ => True | PRef n => is_Some (LookupEnv n) end) (env_pieces s).

(** The string fields of the configuration, and a function applied to each. *)
Definition carrier_texts (c : CarrierConfig) : list gostring :=
  [cc_Host c; cc_Transport c; cc_CAFile c; cc_ClientCert c; cc_ClientKey c; cc_SRTP c].
Definition edge_texts (e : EdgeConfig) : list gostring :=
  of_slice (e_Switch e) ++ flat_map (fun kv => carrier_texts kv.2) (map_to_list (of_map (e_Carriers e))) ++
  of_slice (e_CarrierSources e) ++ [e_SRTP e].
Definition shield_texts (s : ShieldSection) : list gostring :=
  let l := s_Shield s in
  [cfg_RateLimit l; cfg_CarrierRateLimit l; s_InviteRateLimit s; cfg_RegisterBan l; cfg_RegisterBanAOR l; cfg_AdmissionBan l].
Definition admin_texts (a : AdminConfig) : list gostring := a_Listen a :: a_PasswordHash a :: of_slice (a_AllowedHosts a).
Definition opt_texts {A} (f : A -> list gostring) (o : option A) : list gostring := match o with Some a => f a | None => [] end.
Definition hep_texts (h : HEPConfig) : list gostring :=
  h_Address h :: h_Transport h :: opt_texts (fun t => [ht_CA t; ht_Cert t; ht_Key t]) (h_TLS h) ++ [h_NodeName h].
Definition texts (c : Config) : list gostring :=
  pub_IP (Public c) :: pub_Bind (Public c) :: priv_IP (Private c) ::
  opt_texts (fun t => [tls_Cert t; tls_Key t]) (TLS c) ++ edge_texts (Edge c) ++ shield_texts (ShieldCfg c) ++
  opt_texts admin_texts (Admin c) ++ opt_texts hep_texts (HEP c).

Definition each_carrier (f : gostring -> gostring) (c : CarrierConfig) : CarrierConfig :=
  mkCC (f (cc_Host c)) (f (cc_Transport c)) (f (cc_CAFile c)) (f (cc_ClientCert c)) (f (cc_ClientKey c)) (f (cc_SRTP c)).
Definition each_edge (f : gostring -> gostring) (e : EdgeConfig) : EdgeConfig :=
  mkEdge (map f <$> e_Switch e) (e_SwitchCarrierPort e) (e_Listen e) (e_Advertise e) ((fun m : gmap gostring CarrierConfig => each_carrier f <$> m) <$> e_Carriers e)
    (map f <$> e_CarrierSources e) (f (e_SRTP e)) (e_AllowInsecureSDES e) (e_AllowRegisterAuthMismatch e)
    (e_switches e) (e_carrierNets e) (e_carriers e).
Definition each_shield (f : gostring -> gostring) (s : ShieldSection) : ShieldSection :=
  let l := s_Shield s in
  mkSection (mkSCfg (f (cfg_RateLimit l)) (f (cfg_CarrierRateLimit l)) (cfg_Ban l) (f (cfg_RegisterBan l))
               (f (cfg_RegisterBanAOR l)) (f (cfg_AdmissionBan l))) (s_MaxSessions s) (f (s_InviteRateLimit s)).
Definition each_admin (f : gostring -> gostring) (a : AdminConfig) : AdminConfig :=
  mkAdmin (f (a_Listen a)) (f (a_PasswordHash a)) (a_AllowRemote a) (map f <$> a_AllowedHosts a) (a_Pprof a).
Definition each_hep (f : gostring -> gostring) (h : HEPConfig) : HEPConfig :=
  mkHEP (f (h_Address h)) (f (h_Transport h)) ((fun t => mkHepTLS (f (ht_CA t)) (f (ht_Cert t)) (f (ht_Key t))) <$> h_TLS h)
    (h_CaptureID h) (f (h_NodeName h)) (h_RedactAuth h).
Definition each_text (f : gostring -> gostring) (c : Config) : Config :=
  mkConfig (mkPublic (f (pub_IP (Public c))) (f (pub_Bind (Public c)))) (mkPrivate (f (priv_IP (Private c)))) (RTP c)
    ((fun t => mkTLS (f (tls_Cert t)) (f (tls_Key t))) <$> TLS c) (each_edge f (Edge c)) (each_shield f (ShieldCfg c))
    (each_admin f <$> Admin c) (each_hep f <$> HEP c) (envRedact c).

(** *** The walk, as a specification of each step *)

Definition clean (e : envExpander) : Prop := x_missing e = [] /\ x_malformed e = [] /\ x_seenMissing e = ∅.

(** From a clean expander a step gives [a] and stays clean when [ok]; and it
    is clean afterwards only then. *)
Definition xspec {A} (m : X A) (a : A) (ok : Prop) : Prop :=
  (forall e, clean e -> ok -> (m e).1 = a /\ clean (m e).2) /\ (forall e, clean (m e).2 -> clean e /\ ok).

Lemma xspec_ret {A} (a : A) : xspec (xret a) a True.
Proof. split; [by intros e ? _|]. by intros e He. Qed.

Lemma xspec_bind {A B} (m : X A) (k : A -> X B) a b ok1 (ok2 : A -> Prop) :
  xspec m a ok1 -> (forall a', xspec (k a') (b a') (ok2 a')) -> xspec (xbind m k) (b a) (ok1 /\ ok2 a).
Proof.
  intros [Hm1 Hm2] Hk. unfold xbind. split.
  - intros e He [H1 H2]. destruct (Hm1 e He H1) as [Ha Hc]. destruct (m e) as [a0 e0]. cbn in *. subst a0.
    by apply (Hk a).
  - intros e. destruct (m e) as [a0 e0] eqn:E. intros Hc. destruct (proj2 (Hk a0) e0 Hc) as [Hc0 H2].
    specialize (Hm2 e). rewrite E in Hm2. destruct (Hm2 Hc0) as [He H1].
    destruct (Hm1 e He H1) as [Ha _]. rewrite E in Ha. cbn in Ha. subst a0. done.
Qed.

Lemma xspec_iff {A} (m : X A) a ok ok' : xspec m a ok -> (ok' <-> ok) -> xspec m a ok'.
Proof. intros [H1 H2] E. split; [intros e ? ?; apply H1; [done|by apply E]|]. intros e He. destruct (H2 e He). split; [done|by apply E]. Qed.

Lemma xspec_xmap {A B} (f : nat -> A -> X B) (g : A -> B) (ok : A -> Prop) l : (forall i x, xspec (f i x) (g x) (ok x)) ->
  forall i, xspec (xmap f i l) (map g l) (Forall ok l).
Proof.
  intros Hf. induction l as [|x l IH]; intros i; cbn [xmap map].
  - eapply xspec_iff; [apply xspec_ret|]. by rewrite Forall_nil.
  - eapply xspec_iff.
    + apply (xspec_bind _ _ _ (fun b => b :: map g l) _ (fun _ => Forall ok l) (Hf i x)). intros b.
      eapply xspec_iff; [apply (xspec_bind _ _ _ (fun bs => b :: bs) _ (fun _ => True) (IH (S i))); intros; apply xspec_ret|]. tauto.
    + by rewrite Forall_cons.
Qed.

Lemma xspec_xopt {A B} (f : A -> X B) (g : A -> B) (ok : A -> Prop) o : (forall x, xspec (f x) (g x) (ok x)) ->
  xspec (xopt f o) (g <$> o) (match o with Some x => ok x | None => True end).
Proof.
  intros Hf. destruct o as [x|]; [|apply xspec_ret]. cbn.
  eapply xspec_iff; [apply (xspec_bind _ _ _ Some _ (fun _ => True) (Hf x)); intros; apply xspec_ret|]. tauto.
Qed.

(** *** Texts *)

Lemma ref_at_prefix s n rest : ref_at s = Some (n, rest) -> has_prefix s open_ref = true.
Proof.
  unfold ref_at. intros H. destruct s as [|x [|y s]]; [done|by destruct (decide (x = 36)) as [->|]; repeat case_match| ].
  destruct (decide (x = 36)) as [->|Hx]; [|repeat case_match; congruence].
  destruct (decide (y = 123)) as [->|Hy]; [reflexivity|]. repeat case_match; congruence.
Qed.

Lemma contains_cons x s sub : contains (x :: s) sub = false -> has_prefix (x :: s) sub = false /\ contains s sub = false.
Proof.
  unfold contains. cbn [index]. destruct (has_prefix (x :: s) sub) eqn:E; [done|]. intros H. split; [done|].
  by destruct (index s sub).
Qed.

Lemma pieces_plain s : forall fuel, (length s <= fuel)%nat -> contains s open_ref = false -> pieces fuel s = map PByte s.
Proof.
  induction s as [|c s IH]; intros [|fuel] Hf Hc; cbn [length] in *; try done; [lia|].
  destruct (contains_cons _ _ _ Hc) as [Hp Hs]. cbn [pieces map].
  destruct (ref_at (c :: s)) as [[n rest]|] eqn:E.
  - apply ref_at_prefix in E. congruence.
  - rewrite IH; [done|lia|done].
Qed.

Lemma flat_map_bytes {A} (f : piece -> list A) (g : Z -> A) s : (forall c, f (PByte c) = [g c]) -> flat_map f (map PByte s) = map g s.
Proof. intros H. induction s as [|c s IH]; [done|]. cbn. by rewrite H, IH. Qed.

Lemma plain_text s : contains s open_ref = false -> subst s = s /\ text_ok s.
Proof.
  intros H. unfold subst, text_ok, malformedRef, strip_refs, env_pieces. rewrite (pieces_plain s _ (le_n _) H).
  rewrite (flat_map_bytes _ (fun c => c)), (flat_map_bytes _ (fun c => c)) by done. rewrite map_id. split; [done|]. split.
  - unfold contains in H. by destruct (index s open_ref).
  - apply List.Forall_map, List.Forall_forall. done.
Qed.

Lemma replace_pieces_spec ps :
  let ok := Forall (fun p => match p with PByte _ => True | PRef n => is_Some (LookupEnv n) end) ps in
  xspec (replace_pieces LookupEnv ps) (flat_map piece_text ps) ok.
Proof.
  cbv zeta. induction ps as [|[c|n] ps IH]; cbn [replace_pieces flat_map piece_text].
  - eapply xspec_iff; [apply xspec_ret|]. by rewrite Forall_nil.
  - eapply xspec_iff; [apply (xspec_bind _ _ _ (fun r => c :: r) _ (fun _ => True) IH); intros; apply xspec_ret|].
    rewrite Forall_cons. tauto.
  - assert (K : forall pre, xspec (let* r := replace_pieces LookupEnv ps in xret (pre ++ r)) (pre ++ flat_map piece_text ps)
        (Forall (fun p => match p with PByte _ => True | PRef n => is_Some (LookupEnv n) end) ps)).
    { intros pre. eapply xspec_iff; [apply (xspec_bind _ _ _ (fun r => pre ++ r) _ (fun _ => True) IH); intros; apply xspec_ret|]. tauto. }
    eapply xspec_iff; [|apply Forall_cons]. cbn beta iota. destruct (LookupEnv n) as [v|] eqn:En; cbn [default].
    + destruct (K v) as [K1 K2]. split.
      * intros e He [_ Hok]. apply K1; [|done]. destruct He as (? & ? & ?). by split.
      * intros e Hc. destruct (K2 _ Hc) as [(? & ? & ?) Hok]. split; [by split|]. split; [by eexists|done].
    + destruct (K (open_ref ++ n ++ [125])) as [K1 K2]. split; [by intros e He [[? ?] _]|].
      intros e Hc. exfalso. rewrite <- ?app_assoc in K2. cbn [app] in K2.
      assert (Hm : clean (miss n e)).
      { destruct IH as [_ IH2]. apply IH2. unfold xbind, xret in Hc. by destruct (replace_pieces LookupEnv ps (miss n e)). }
      destruct Hm as (Hm1 & _ & Hm3). unfold miss in Hm1, Hm3. case_bool_decide as Hs; [set_solver|].
      cbn in Hm1. by destruct (x_missing e).
Qed.

Lemma expandString_spec path s : xspec (expandString LookupEnv path s) (subst s) (text_ok s).
Proof.
  unfold expandString. destruct (contains s open_ref) eqn:Hc; cbn [negb].
  2: { destruct (plain_text s Hc) as [-> Hok]. split; [done|]. by intros e He. }
  unfold text_ok. destruct (malformedRef s) as [sn|] eqn:Em.
  { split; [by intros e He [? _]|]. intros e (_ & Hm & _). cbn in Hm. by destruct (x_malformed e). }
  destruct (replace_pieces_spec (env_pieces s)) as [R1 R2]. fold (subst s) in R1. split.
  - intros e He [_ Hok]. destruct (R1 e He Hok) as [Ha Hcl]. destruct (replace_pieces _ _ e) as [x e']. cbn in Ha, Hcl. subst x.
    case_if; [apply beq_eq in Heqb as ->; done|]. cbn. split; [done|]. destruct Hcl as (? & ? & ?). by split.
  - intros e H. specialize (R2 e). destruct (replace_pieces _ _ e) as [x e']. cbn in R2.
    assert (Hcl : clean e') by (case_if_in H; [done|]; destruct H as (? & ? & ?); by split). by destruct (R2 Hcl).
Qed.

(** *** The walk *)

Definition xmono {A} (m : X A) : Prop := forall e, clean (m e).2 -> clean e.

Lemma xspec_mono {A} (m : X A) a ok : xspec m a ok -> xmono m.
Proof. intros [_ H] e He. apply (H e He). Qed.

Lemma xmono_ret {A} (a : A) : xmono (xret a).
Proof. by intros e He. Qed.

Lemma xmono_bind {A B} (m : X A) (k : A -> X B) : xmono m -> (forall a, xmono (k a)) -> xmono (xbind m k).
Proof. intros Hm Hk e He. unfold xbind in He. destruct (m e) as [a e'] eqn:E. apply Hm. rewrite E. by apply (Hk a). Qed.

Lemma xspec_then {A B} (m : X A) (k : A -> X B) a b ok1 ok2 :
  xspec m a ok1 -> (forall a', xmono (k a')) -> xspec (k a) b ok2 -> xspec (xbind m k) b (ok1 /\ ok2).
Proof.
  intros [Hm1 Hm2] Hk [K1 K2]. unfold xbind. split.
  - intros e He [H1 H2]. destruct (Hm1 e He H1) as [Ha Hc]. destruct (m e) as [a0 e0]. cbn in *. subst a0. by apply K1.
  - intros e. specialize (Hm1 e). specialize (Hm2 e). destruct (m e) as [a0 e0]. cbn in *. intros Hc.
    destruct (Hm2 (Hk _ _ Hc)) as [He H1]. destruct (Hm1 He H1) as [-> _]. destruct (K2 _ Hc) as [_ H2]. done.
Qed.

Lemma field_spec path key s : xspec (field LookupEnv path key s) (subst s) (text_ok s).
Proof. apply expandString_spec. Qed.

Lemma walk_list_spec path l : xspec (walk_list LookupEnv path l) (map subst l) (Forall text_ok l).
Proof. apply xspec_xmap. intros i x. apply expandString_spec. Qed.

Create HintDb expand.
Hint Resolve field_spec walk_list_spec xspec_ret xmono_ret xmono_bind : expand.
Hint Extern 4 (xmono _) => (eapply xspec_mono; solve [eauto with expand]) : expand.

(** One step of a walk: its own spec, and that what follows is monotone. *)
Ltac xstep := eapply xspec_then; [solve [eauto with expand]|intros; solve [eauto 12 with expand]|].
Ltac xsteps := repeat xstep; apply xspec_ret.

Lemma walk_carrier_spec path c :
  xspec (walk_carrier LookupEnv path c) (each_carrier subst c) (Forall text_ok (carrier_texts c)).
Proof. unfold walk_carrier. eapply xspec_iff; [xsteps|]. unfold carrier_texts. rewrite ?Forall_cons, ?Forall_nil. tauto. Qed.

Lemma walk_tls_spec path t :
  xspec (walk_tls LookupEnv path t) (mkTLS (subst (tls_Cert t)) (subst (tls_Key t))) (Forall text_ok [tls_Cert t; tls_Key t]).
Proof. unfold walk_tls. eapply xspec_iff; [xsteps|]. rewrite ?Forall_cons, ?Forall_nil. tauto. Qed.

Lemma walk_shield_spec path s :
  xspec (walk_shield LookupEnv path s) (each_shield subst s) (Forall text_ok (shield_texts s)).
Proof. unfold walk_shield. eapply xspec_iff; [xsteps|]. unfold shield_texts. rewrite ?Forall_cons, ?Forall_nil. tauto. Qed.

Lemma xopt_list_spec path o : xspec (xopt (walk_list LookupEnv path) o) (map subst <$> o) (Forall text_ok (of_slice o)).
Proof.
  eapply xspec_iff; [apply (xspec_xopt _ (map subst) (Forall text_ok)), walk_list_spec|]. destruct o; [done|]. cbn. by rewrite Forall_nil.
Qed.
Hint Resolve walk_carrier_spec walk_tls_spec walk_shield_spec xopt_list_spec : expand.

Lemma xopt_texts {A B} (f : A -> X B) g (tx : A -> list gostring) o : (forall x, xspec (f x) (g x) (Forall text_ok (tx x))) ->
  xspec (xopt f o) (g <$> o) (Forall text_ok (opt_texts tx o)).
Proof.
  intros H. eapply xspec_iff; [apply (xspec_xopt _ g (fun x => Forall text_ok (tx x))), H|]. destruct o; [done|]. cbn. by rewrite Forall_nil.
Qed.

Lemma walk_admin_spec path a : xspec (walk_admin LookupEnv path a) (each_admin subst a) (Forall text_ok (admin_texts a)).
Proof. unfold walk_admin. eapply xspec_iff; [xsteps|]. unfold admin_texts. rewrite ?Forall_cons. tauto. Qed.

Lemma walk_hep_tls_spec path t :
  xspec (walk_hep_tls LookupEnv path t) (mkHepTLS (subst (ht_CA t)) (subst (ht_Cert t)) (subst (ht_Key t)))
    (Forall text_ok [ht_CA t; ht_Cert t; ht_Key t]).
Proof. unfold walk_hep_tls. eapply xspec_iff; [xsteps|]. rewrite ?Forall_cons, ?Forall_nil. tauto. Qed.

Lemma walk_hep_spec path h : xspec (walk_hep LookupEnv path h) (each_hep subst h) (Forall text_ok (hep_texts h)).
Proof.
  pose proof (fun p o => xopt_texts (walk_hep_tls LookupEnv p) _ _ o (walk_hep_tls_spec p)) as Ht.
  unfold walk_hep. eapply xspec_iff; [xsteps|]. unfold hep_texts. rewrite ?Forall_cons, ?Forall_app, ?Forall_cons, ?Forall_nil. tauto.
Qed.

(** The map: each key of [order] is visited once. *)
Lemma walkMap_spec path order : NoDup order -> forall m,
  xspec (walkMap LookupEnv path order m)
    (map_imap (fun k c => Some (if bool_decide (k ∈ order) then each_carrier subst c else c)) m)
    (forall k c, k ∈ order -> m !! k = Some c -> Forall text_ok (carrier_texts c)).
Proof.
  induction order as [|k order IH]; intros Hnd m; cbn [walkMap].
  - eapply xspec_iff; [|split; [intros _; exact I|intros _ k c Hk; by apply elem_of_nil in Hk]].
    replace (map_imap _ m) with m; [apply xspec_ret|]. apply map_eq. intros k. rewrite map_lookup_imap. by destruct (m !! k).
  - apply NoDup_cons in Hnd as [Hk Hnd]. specialize (IH Hnd). destruct (m !! k) as [v|] eqn:Ek.
    + eapply xspec_iff.
      * eapply xspec_then; [apply walk_carrier_spec|intros a'; eapply xspec_mono, IH|].
        assert (E : map_imap (fun k' c => Some (if bool_decide (k' ∈ order) then each_carrier subst c else c))
                      (<[k := each_carrier subst v]> m)
                  = map_imap (fun k' c => Some (if bool_decide (k' ∈ k :: order) then each_carrier subst c else c)) m).
        { apply map_eq. intros j. rewrite !map_lookup_imap. destruct (decide (k = j)) as [<-|Hj].
          - rewrite lookup_insert_eq, Ek. cbn. rewrite bool_decide_false by done. by rewrite bool_decide_true by (by left).
          - rewrite lookup_insert_ne by done. destruct (m !! j); [|done]. cbn.
            rewrite (bool_decide_ext (j ∈ order) (j ∈ k :: order)); [done|]. rewrite elem_of_cons. split; [by right|]. by intros [->|]. }
        rewrite <- E. apply IH.
      * split.
        -- intros H. split; [apply (H k); [by left|done]|]. intros j c Hj. rewrite lookup_insert_ne by (by intros ->).
           intros Hc. apply (H j); [by right|done].
        -- intros [H1 H2] j c [->|Hj]%elem_of_cons Hc; [congruence|]. apply (H2 j); [done|]. by rewrite lookup_insert_ne by (by intros ->).
    + eapply xspec_iff; [|].
      * replace (map_imap _ m) with (map_imap (fun k' c => Some (if bool_decide (k' ∈ order) then each_carrier subst c else c)) m); [apply IH|].
        apply map_eq. intros j. rewrite !map_lookup_imap. destruct (m !! j) eqn:Ej; [|done]. cbn.
        rewrite (bool_decide_ext (j ∈ order) (j ∈ k :: order)); [done|]. rewrite elem_of_cons. split; [by right|]. intros [->|]; [congruence|done].
      * split; [intros H j c Hj; apply H; by right|]. intros H j c [->|Hj]%elem_of_cons Hc; [congruence|by apply (H j)].
Qed.

(** An order in which the carriers' map may be walked. *)
Definition walk_order (order : list gostring) (c : Config) : Prop :=
  order ≡ₚ (map_to_list (of_map (e_Carriers (Edge c)))).*1.

Lemma carriers_spec path order o : order ≡ₚ (map_to_list (of_map o)).*1 ->
  xspec (xopt (walkMap LookupEnv path order) o) ((fun m : gmap gostring CarrierConfig => each_carrier subst <$> m) <$> o)
    (Forall text_ok (flat_map (fun kv => carrier_texts kv.2) (map_to_list (of_map o)))).
Proof.
  intros Ho. assert (Hnd : NoDup order) by (rewrite Ho; apply NoDup_fst_map_to_list).
  assert (Hin : forall k c, of_map o !! k = Some c -> k ∈ order).
  { intros k c Hc. rewrite Ho, list_elem_of_fmap. exists (k, c). split; [done|]. by apply elem_of_map_to_list. }
  destruct o as [m|]; cbn [of_map default from_option] in *; [|eapply xspec_iff; [apply xspec_ret|]; cbn; by rewrite map_to_list_empty].
  cbn [fmap option_fmap option_map].
  replace (each_carrier subst <$> m) with
    (map_imap (fun k c => Some (if bool_decide (k ∈ order) then each_carrier subst c else c)) m).
  - eapply xspec_iff.
    + eapply (xspec_then _ _ _ _ _ True); [by apply walkMap_spec|intros; apply xmono_ret|apply xspec_ret].
    + cbn. rewrite Forall_forall. setoid_rewrite list_elem_of_In. setoid_rewrite in_flat_map. split.
      * intros H. split; [|done]. intros k c _ Hc. rewrite Forall_forall. intros x Hx. apply H. exists (k, c).
        split; [apply list_elem_of_In; by apply elem_of_map_to_list|by apply list_elem_of_In].
      * intros [H _] x ([k c] & Hkc%list_elem_of_In & Hx). apply elem_of_map_to_list in Hkc.
        specialize (H k c (proj1 (list_elem_of_In _ _) (Hin _ _ Hkc)) Hkc). rewrite Forall_forall in H. apply H. by apply list_elem_of_In.
  - apply map_eq. intros k. rewrite map_lookup_imap, lookup_fmap. destruct (m !! k) as [c|] eqn:E; [|done]. cbn.
    by rewrite bool_decide_true by (by eapply Hin).
Qed.

Lemma walk_edge_spec path order e : order ≡ₚ (map_to_list (of_map (e_Carriers e))).*1 ->
  xspec (walk_edge LookupEnv order path e) (each_edge subst e) (Forall text_ok (edge_texts e)).
Proof.
  intros Ho. pose proof (fun p => carriers_spec p order _ Ho) as Hc.
  assert (Hm : forall p o, xmono (xopt (walkMap LookupEnv p order) o)).
  { intros p [m|]; [|apply xmono_ret]. cbn. apply xmono_bind; [|intros; apply xmono_ret]. eapply xspec_mono, walkMap_spec.
    rewrite Ho. apply NoDup_fst_map_to_list. }
  unfold walk_edge. eapply xspec_iff; [xsteps|]. unfold edge_texts. rewrite ?Forall_app, ?Forall_cons, ?Forall_nil. tauto.
Qed.

Lemma walk_spec order c : walk_order order c ->
  xspec (walk LookupEnv order c) (each_text subst c) (Forall text_ok (texts c)).
Proof.
  intros Ho. pose proof (fun p => walk_edge_spec p order _ Ho) as He.
  pose proof (fun p o => xopt_texts (walk_tls LookupEnv p) _ _ o (walk_tls_spec p)) as Ht.
  pose proof (fun p o => xopt_texts (walk_admin LookupEnv p) _ _ o (walk_admin_spec p)) as Ha.
  pose proof (fun p o => xopt_texts (walk_hep LookupEnv p) _ _ o (walk_hep_spec p)) as Hh.
  unfold walk. eapply xspec_iff; [xsteps|]. unfold texts. rewrite ?Forall_cons, ?Forall_app. tauto.
Qed.

(** *** What was seen missing is what is reported *)

Definition xkeeps {A} (m : X A) : Prop :=
  forall e, (x_missing e = [] -> x_seenMissing e = ∅) -> x_missing (m e).2 = [] -> x_seenMissing (m e).2 = ∅.

Lemma xkeeps_ret {A} (a : A) : xkeeps (xret a).
Proof. by intros e He. Qed.
Lemma xkeeps_bind {A B} (m : X A) (k : A -> X B) : xkeeps m -> (forall a, xkeeps (k a)) -> xkeeps (xbind m k).
Proof.
  intros Hm Hk e He. unfold xbind. specialize (Hm e He). destruct (m e) as [a e']. exact (Hk a e' Hm).
Qed.
Hint Resolve xkeeps_ret xkeeps_bind : expand.

Lemma xkeeps_xmap {A B} (f : nat -> A -> X B) l : (forall i x, xkeeps (f i x)) -> forall i, xkeeps (xmap f i l).
Proof. intros Hf. induction l as [|x l IH]; intros i; cbn [xmap]; auto with expand. Qed.
Lemma xkeeps_xopt {A B} (f : A -> X B) o : (forall x, xkeeps (f x)) -> xkeeps (xopt f o).
Proof. intros Hf. destruct o; cbn; auto with expand. Qed.
Hint Resolve xkeeps_xmap xkeeps_xopt : expand.

Lemma xkeeps_pieces ps : xkeeps (replace_pieces LookupEnv ps).
Proof.
  induction ps as [|[c|n] ps IH]; cbn [replace_pieces]; [auto with expand..|]. intros e He.
  assert (K : forall pre, xkeeps (let* r := replace_pieces LookupEnv ps in xret (pre ++ r))) by auto with expand.
  destruct (LookupEnv n) as [v|]; [by apply K|].
  assert (Hm : x_missing (miss n e) = [] -> x_seenMissing (miss n e) = ∅).
  { unfold miss. case_bool_decide; [done|]. cbn. by destruct (x_missing e). }
  specialize (IH _ Hm). unfold xbind, xret. by destruct (replace_pieces LookupEnv ps (miss n e)).
Qed.

Lemma xkeeps_string path s : xkeeps (expandString LookupEnv path s).
Proof.
  intros e He. unfold expandString. case_if; [done|]. destruct (malformedRef s); [done|].
  pose proof (xkeeps_pieces (env_pieces s) e He) as H. destruct (replace_pieces _ _ e) as [x e']. by case_if.
Qed.
Lemma xkeeps_field path key s : xkeeps (field LookupEnv path key s).
Proof. apply xkeeps_string. Qed.
Lemma xkeeps_list path l : xkeeps (walk_list LookupEnv path l).
Proof. apply xkeeps_xmap. intros. apply xkeeps_string. Qed.
Hint Resolve xkeeps_field xkeeps_list : expand.

Lemma xkeeps_map path order : forall m, xkeeps (walkMap LookupEnv path order m).
Proof.
  induction order as [|k order IH]; intros m; cbn [walkMap]; [auto with expand|]. destruct (m !! k); [|apply IH].
  unfold walk_carrier. auto 20 with expand.
Qed.
Hint Resolve xkeeps_map : expand.

Lemma xkeeps_walk order c : xkeeps (walk LookupEnv order c).
Proof.
  unfold walk, walk_edge, walk_shield. repeat (apply xkeeps_bind; [|intros]); auto with expand;
    apply xkeeps_xopt; intros; unfold walk_tls, walk_admin, walk_hep, walk_hep_tls; auto 20 with expand.
Qed.

(** *** Templates *)

(** A text as the operator writes it: no dollar sign but in references. *)
Definition piece_wf (p : piece) : Prop :=
  match p with
  | PByte c => c <> 36
  | PRef n => forallb name_byte n = true /\ match n with c :: _ => name_start c = true | [] => False end
  end.
Definition render (ps : list piece) : gostring :=
  flat_map (fun p => match p with PByte c => [c] | PRef n => open_ref ++ n ++ [125] end) ps.

Lemma span_name_app f n c rest : forallb f n = true -> f c = false -> span f (n ++ c :: rest) = (n, c :: rest).
Proof. intros Hn Hc. induction n as [|x n IH]; cbn in *; [by rewrite Hc|]. apply andb_true_iff in Hn as [-> Hn]. by rewrite IH. Qed.

Lemma ref_at_ref n rest : piece_wf (PRef n) -> ref_at (36 :: 123 :: n ++ 125 :: rest) = Some (n, rest).
Proof. intros [Hn Hs]. cbn. rewrite span_name_app by done. destruct n; [done|]. by rewrite Hs. Qed.

Lemma ref_at_other c s : c <> 36 -> ref_at (c :: s) = None.
Proof. intros H. unfold ref_at. repeat case_match; congruence. Qed.

Lemma pieces_render ps : Forall piece_wf ps -> forall fuel, (length (render ps) <= fuel)%nat -> pieces fuel (render ps) = ps.
Proof.
  induction 1 as [|p ps Hp Hps IH]; intros fuel Hf; [by destruct fuel|]. destruct p as [c|n].
  - change (render (PByte c :: ps)) with (c :: render ps) in *. cbn [length] in Hf. destruct fuel as [|fuel]; [lia|]. cbn [pieces]. rewrite ref_at_other by done. rewrite IH; [done|lia].
  - assert (E : render (PRef n :: ps) = 36 :: 123 :: n ++ 125 :: render ps).
    { unfold render. cbn [flat_map]. change open_ref with [36; 123]. by rewrite <- !app_assoc. }
    rewrite E in *. cbn [length] in Hf. rewrite length_app in Hf. cbn [length] in Hf. destruct fuel as [|fuel]; [lia|].
    cbn [pieces]. rewrite ref_at_ref by done. rewrite IH; [done|lia].
Qed.

Lemma no_ref s : Forall (fun c => c <> 36) s -> index s open_ref = None.
Proof.
  induction 1 as [|c s Hc Hs IH]; [done|]. cbn [index]. replace (has_prefix (c :: s) open_ref) with false; [by rewrite IH|].
  change open_ref with [36; 123]. cbn [has_prefix]. replace (36 =? c) with false by lia. reflexivity.
Qed.

Lemma template_ok ps : Forall piece_wf ps -> Forall (fun p => match p with PByte _ => True | PRef n => is_Some (LookupEnv n) end) ps ->
  text_ok (render ps) /\ subst (render ps) = flat_map piece_text ps.
Proof.
  intros Hw Hd. unfold text_ok, subst, env_pieces, malformedRef, strip_refs, env_pieces.
  rewrite (pieces_render ps Hw _ (le_n _)). split; [|done]. split; [|done].
  rewrite no_ref; [done|]. clear Hd. induction Hw as [|[c|n] ps Hp Hps IH]; cbn; auto.
Qed.

(** C19: A configuration is expanded in one pass, wherever a text is: when no
    field holds a malformed or an undefined reference, every string field of
    the result is what its text stands for and nothing else has changed; when
    one does, expansion fails.  What a text stands for is its bytes with each
    reference replaced by the variable's value as it is: a value that looks
    like a reference is not read again. *)
Theorem expansion_is_one_pass order c : walk_order order c ->
  (Forall text_ok (texts c) -> exists r, expandEnv LookupEnv order c = inr (set_redact r (each_text subst c))) /\
  (~ Forall text_ok (texts c) -> exists e, expandEnv LookupEnv order c = inl e) /\
  (forall ps, Forall piece_wf ps -> Forall (fun p => match p with PByte _ => True | PRef n => is_Some (LookupEnv n) end) ps ->
     text_ok (render ps) /\ subst (render ps) = flat_map piece_text ps).
Proof.
  intros Ho. destruct (walk_spec order c Ho) as [H1 H2]. pose proof (xkeeps_walk order c new_expander ltac:(done)) as Hk.
  unfold expandEnv. split; [|split; [|apply template_ok]].
  - intros Hok. destruct (H1 new_expander ltac:(done) Hok) as [Ha (Hm & Hf & _)].
    destruct (walk _ _ _ new_expander) as [c' e]. cbn in *. subst c'. rewrite Hm, Hf. by eexists.
  - intros Hno. specialize (H2 new_expander). destruct (walk _ _ _ new_expander) as [c' e]. cbn in *.
    case_bool_decide as Hf; [|by eexists]. case_bool_decide as Hm; [|by eexists]. exfalso.
    destruct (H2 ltac:(by split; [|split; [|apply Hk]])). done.
Qed.
End Spec.
