(* ===== verification/Validate.v ===== *)
(** Validation of the configuration (internal/config/validate.go) and what
    [Parse] (loader.go) does once the YAML decoder has run.

    [validate] collects every fault instead of stopping at the first, and
    compiles the switch nodes, the carrier list and the source prefixes.  A
    fault is the message's own constructor and its arguments, redacted as
    [fail] redacts them; an error passed as an argument stands for the values
    it quotes.  The cost of a bcrypt hash (golang.org/x/crypto) is an
    argument. *)

From S2P Require Import Prelude GoTime Netip GoText GoEncoding SipAddr SipScan SipMsg Carriers Offenders Shield Topology CarrierRoute.
From S2P Require Import Dialog MediaAnchor Config ConfigSchema EnvExpand.

Open Scope Z_scope.

(** ** Faults *)

Inductive reason :=
  | RRequired | RNotIP | RUnspecified | RSameSides
  | RRtpLow | RRtpNoPair
  | RTlsPair | RTlsForListen | RTlsForWss | RTlsForAdmin
  | RNoSwitch | RSwitchTwice | RSwitchIsPrivate | RSrtpPolicy | RSwitchCarrierPort | RNoListener | RPortRange | RListenTaken
  | RNotIPPort | RNotLiteral | RBadPort | RSwitchUnspecified
  | RNotPrefix | RMixedPrefix | RWidePrefix
  | RAdvertiseUnset | RAdvertiseTaken
  | RCarrierName | RCarrierTransport | RCarrierNeedsUDP | RCarrierTLSOnly | RCarrierSrtpPlain | RCarrierSrtp | RCarrierPair
  | RCarrierHost | RCarrierTaken | RCarrierIsSelf | RCarrierIsSwitch
  | RRateLimit | RBan | RMaxSessionsNegative | RMaxSessions | RInviteRate | RInvitePerIP | RStrikeLimit
  | RAdminListen | RAdminRemote | RAdminHost | RAdminHostTwice | RAdminHash | RAdminCost
  | RHepAddress | RHepSpecific | RHepTransport | RHepTlsOnly | RHepTlsPair | RHepNodeName
  | RAdminSocket.

Inductive arg :=
  | AStr (s : gostring) | AInt (n : Z)
  | AErr (quoted : list gostring)          (* an error and what it quotes *)
  | AWithheld (template : gostring).       (* detail's replacement of one *)

Record fault := mkFault { f_reason : reason; f_args : list arg }.

Abbreviation faults := (list fault).

(** [envRedaction.args] *)
Definition redact_arg (r : envRedaction) (a : arg) : arg :=
  match a with
  | AStr s => AStr (apply_redaction r s)
  | AInt n => AInt n
  | AErr q => AErr (map (apply_redaction r) q)
  | AWithheld t => AWithheld (apply_redaction r t)
  end.

(** [fail] *)
Definition fail (c : Config) (r : reason) (args : list arg) : faults := [mkFault r (map (redact_arg (envRedact c)) args)].

Definition fail_if (b : bool) (c : Config) (r : reason) (args : list arg) : faults := if b then fail c r args else [].

(** [envRedaction.detail] *)
Definition detail (c : Config) (value : gostring) (quoted : list gostring) : arg :=
  match r_fields (envRedact c) !! value with Some t => AWithheld t | None => AErr quoted end.

(** A result after further faults. *)
Definition after {A} (f : faults) (r : A * faults) : A * faults := (r.1, f ++ r.2).

(** ** Addresses *)

(** [specificIP] *)
Definition specificIP (c : Config) (label value : gostring) : option Addr * faults :=
  if beq value [] then (None, fail c RRequired [AStr label])
  else match parse_addr value with
       | None => (None, fail c RNotIP [AStr label; AStr value])
       | Some ip => if is_unspecified ip then (None, fail c RUnspecified [AStr label; AStr value]) else (Some (unmap ip), [])
       end.

(** [parseIPPort] *)
Definition parseIPPort (c : Config) (label address : gostring) : option AddrPort * faults :=
  match split_host_port address with
  | None => (None, fail c RNotIPPort [AStr label; AStr address])
  | Some (host, port) =>
      match parse_addr host with
      | None => (None, fail c RNotLiteral [AStr label; AStr host])
      | Some ip =>
          let bad := (None, fail c RBadPort [AStr label; AStr address]) in
          match atoi port with
          | None => bad
          | Some p =>
              if (p <? 1) || (65535 <? p) then bad
              else if is_unspecified ip then (None, fail c RSwitchUnspecified [AStr label; AStr address])
              else (Some (mkAddrPort (unmap ip) (to_port p)), [])
          end
      end
  end.

(** [checkPort] *)
Definition checkPort (c : Config) (label : gostring) (port : Z) : faults :=
  fail_if (negb (port =? 0) && ((port <? 1) || (65535 <? port))) c RPortRange [AStr label; AInt port].

(** [netip.PrefixFrom]; a prefix of impossible length has length -1. *)
Definition prefix_from (a : Addr) (bits : Z) : Prefix :=
  mkPrefix (with_zone a []) (if is_valid a && (0 <=? bits) && (bits <=? bit_len a) then bits else -1).

(** [netip.ParsePrefix] *)
Definition parse_prefix (s : gostring) : option Prefix :=
  match last_index_byte s 47 with
  | None => None
  | Some i =>
      match parse_addr (take i s) with
      | None => None
      | Some ip =>
          let bits := drop (S i) s in
          if match ip with V6 _ (_ :: _) => true | _ => false end then None
          else if (1 <? len bits) && match bits with c :: _ => (c <? 49) || (57 <? c) | [] => false end then None
          else match atoi bits with
               | None => None
               | Some n => if (n <? 0) || (bit_len ip <? n) then None else Some (prefix_from ip n)
               end
      end
  end.

(** [Prefix.Masked] *)
Definition masked (p : Prefix) : Prefix :=
  let mask w n := Z.shiftl (Z.shiftr n (w - p_bits p)) (w - p_bits p) in
  match p_addr p with
  | V4 n => mkPrefix (V4 (mask 32 n)) (p_bits p)
  | V6 n _ => mkPrefix (V6 (mask 128 n) []) (p_bits p)
  | AddrZero => p
  end.

Definition parsePrefixOrAddr (s : gostring) : option Prefix :=
  match parse_prefix s with
  | Some p => Some p
  | None => (fun a => prefix_from a (bit_len a)) <$> parse_addr s
  end.

Definition allowedPrefix (c : Config) (label s : gostring) : option Prefix * faults :=
  match parsePrefixOrAddr s with
  | None => (None, fail c RNotPrefix [AStr label; AErr [s]])
  | Some pfx =>
      if is4in6 (p_addr pfx) && (p_bits pfx <? 96) then (None, fail c RMixedPrefix [AStr label; AStr s])
      else
        let pfx := if is4in6 (p_addr pfx) then prefix_from (unmap (p_addr pfx)) (p_bits pfx - 96) else pfx in
        let minBits := if is6 (p_addr pfx) then 32 else 8 in
        if p_bits pfx <? minBits then (None, fail c RWidePrefix [AStr label; AStr s; AInt minBits])
        else (Some (masked pfx), [])
  end.

(** ** The sections *)

Definition validateTopology (c : Config) : faults :=
  let '(_, f1) := specificIP c (str "public.ip") (pub_IP (Public c)) in
  let '(bind, f2) := specificIP c (str "public.bind") (pub_Bind (Public c)) in
  let '(priv, f3) := specificIP c (str "private.ip") (priv_IP (Private c)) in
  f1 ++ f2 ++ f3 ++
  match bind, priv with
  | Some b, Some p => fail_if (addr_eqb b p) c RSameSides [AStr (priv_IP (Private c))]
  | _, _ => []
  end.

Definition validateRTP (c : Config) : faults :=
  let r := RTP c in
  if Min r <? 1024 then fail c RRtpLow [AInt (Min r); AInt (Max r)]
  else fail_if (Pairs r <? 1) c RRtpNoPair [AInt (Min r); AInt (Max r)].

Definition validateTLS (c : Config) : faults :=
  match TLS c with
  | Some t => fail_if (beq (tls_Cert t) [] || beq (tls_Key t) []) c RTlsPair []
  | None =>
      fail_if (negb (lp_TLS (e_Listen (Edge c)) =? 0)) c RTlsForListen [] ++
      fail_if (negb (lp_WSS (e_Listen (Edge c)) =? 0)) c RTlsForWss [] ++
      fail_if (match Admin c with Some a => a_AllowRemote a | None => false end) c RTlsForAdmin []
  end.

(** The loop over edge.switch. *)
Fixpoint switch_loop (c : Config) (i : Z) (l : list gostring) (seen : gset AddrPort) (out : list AddrPort) : list AddrPort * faults :=
  match l with
  | [] => (out, [])
  | s :: l =>
      let label := str "edge.switch[" ++ int_string i ++ str "]" in
      match parseIPPort c label s with
      | (None, f) => after f (switch_loop c (i + 1) l seen out)
      | (Some ap, _) =>
          if bool_decide (ap ∈ seen) then after (fail c RSwitchTwice [AStr label; AStr s]) (switch_loop c (i + 1) l seen out)
          else
            let seen := {[ap]} ∪ seen in
            if negb (beq (priv_IP (Private c)) []) && bool_decide (ap = PrivateAddr c)
            then after (fail c RSwitchIsPrivate [AStr label; AStr s]) (switch_loop c (i + 1) l seen out)
            else switch_loop c (i + 1) l seen (out ++ [ap])
      end
  end.

(** Two of the TCP listeners on one port: the first earlier one is named. *)
Fixpoint taken_ports (c : Config) (before l : list (gostring * Z)) : faults :=
  match l with
  | [] => []
  | (key, port) :: l =>
      match List.find (fun kp => negb (port =? 0) && (port =? kp.2)) before with
      | Some (other, _) => fail c RListenTaken [AStr key; AInt port; AStr other]
      | None => []
      end ++ taken_ports c (before ++ [(key, port)]) l
  end.

Definition listen_key (tr : gostring) : gostring := str "edge.listen." ++ tr.
Definition advertise_key (tr : gostring) : gostring := str "edge.advertise." ++ tr.

(** The transports that are TCP sockets. *)
Definition stream_transports : list gostring := [str "tcp"; str "tls"; str "ws"; str "wss"].

Fixpoint sources_loop (c : Config) (l : list gostring) (out : list Prefix) : list Prefix * faults :=
  match l with
  | [] => (out, [])
  | s :: l =>
      match allowedPrefix c (str "edge.carrier_sources") s with
      | (Some p, _) => sources_loop c l (out ++ [p])
      | (None, f) => after f (sources_loop c l out)
      end
  end.

Definition is_policy (s : gostring) : bool := beq s SRTPOff || beq s SRTPOptional || beq s SRTPRequired.

Definition validateEdge (c : Config) : Config * faults :=
  let e := Edge c in
  let '(sw, f1) := switch_loop c 0 (of_slice (e_Switch e)) ∅ [] in
  let '(nets, f2) := sources_loop c (of_slice (e_CarrierSources e)) [] in
  let l := e_Listen e in
  (with_edge (fun e => set_nets nets (set_switches sw e)) c,
   fail_if (bool_decide (of_slice (e_Switch e) = [])) c RNoSwitch [] ++ f1 ++
   fail_if (negb (is_policy (e_SRTP e))) c RSrtpPolicy [AStr (e_SRTP e)] ++
   fail_if ((e_SwitchCarrierPort e <? 0) || (65535 <? e_SwitchCarrierPort e)) c RSwitchCarrierPort [AInt (e_SwitchCarrierPort e)] ++
   fail_if (forallb (fun tr => Port l tr =? 0) Transports) c RNoListener [] ++
   flat_map (fun tr => checkPort c (listen_key tr) (Port l tr)) Transports ++
   taken_ports c [] (map (fun tr => (listen_key tr, Port l tr)) stream_transports) ++
   f2).

(** The pairs of TCP listeners that advertise one port. *)
Definition advertise_label (c : Config) (tr : gostring) : gostring :=
  if negb (Port (e_Advertise (Edge c)) tr =? 0) then advertise_key tr else listen_key tr.

Definition same_advertised (c : Config) (a b : gostring) : bool :=
  negb (AdvertisedPort c a =? 0) && (AdvertisedPort c a =? AdvertisedPort c b) &&
  negb ((Port (e_Advertise (Edge c)) a =? 0) && (Port (e_Advertise (Edge c)) b =? 0)).

Fixpoint taken_advertised (c : Config) (before l : list gostring) : faults :=
  match l with
  | [] => []
  | a :: l =>
      match List.find (same_advertised c a) before with
      | Some b => fail c RAdvertiseTaken [AStr (advertise_label c a); AInt (AdvertisedPort c a); AStr (advertise_label c b)]
      | None => []
      end ++ taken_advertised c (before ++ [a]) l
  end.

Definition validateAdvertise (c : Config) : faults :=
  let e := Edge c in
  flat_map (fun tr =>
      let p := Port (e_Advertise e) tr in
      if p =? 0 then []
      else checkPort c (advertise_key tr) p ++
           fail_if (Port (e_Listen e) tr =? 0) c RAdvertiseUnset [AStr (advertise_key tr); AStr tr]) Transports ++
  taken_advertised c [] stream_transports.

(** ** Carriers *)

(** [dnsLabel] and [carrierName] *)
Definition dns_byte (c : Z) : bool := is_alnum c || (c =? 45).
Definition dnsLabel (s : gostring) : bool :=
  (1 <=? len s) && (len s <=? 63) && forallb dns_byte s &&
  match s, last s with c :: _, Some d => is_alnum c && is_alnum d | _, _ => false end.
Definition carrierName (s : gostring) : bool :=
  negb (beq s []) && forallb (fun c => is_alnum c || (c =? 46) || (c =? 95) || (c =? 45)) s.

Definition count_byte (c : Z) (s : gostring) : nat := length (List.filter (Z.eqb c) s).

(** A parsed host: the value an error quotes, or the parts. *)
Definition finishCarrierHost (h : gostring) (port : Z) : gostring + gostring * Z * Addr :=
  match parse_addr h with
  | Some a => let a := unmap a in if is_unspecified a then inl h else inr (addr_string a, port, a)
  | None =>
      let h := to_lower (trim_dot h) in
      if beq h [] || (253 <? len h) || negb (forallb dnsLabel (split h 46)) then inl h else inr (h, port, AddrZero)
  end.

Definition ParseCarrierHost (s : gostring) : gostring + gostring * Z * Addr :=
  let s := trim_space s in
  if beq s [] then inl []
  else match parse_addr s with
       | Some a => finishCarrierHost (addr_string (unmap a)) DefaultCarrierPort
       | None =>
           if has_prefix s (str "[") || (count_byte 58 s =? 1)%nat then
             match split_host_port s with
             | None => inl s
             | Some (h, ps) =>
                 match atoi ps with
                 | None => inl s
                 | Some p => if (p <? 1) || (65535 <? p) then inl s else finishCarrierHost h p
                 end
             end
           else if has_byte 58 s then inl s
           else finishCarrierHost s DefaultCarrierPort
       end.

Definition carrierHasPort (s : gostring) : bool :=
  let s := trim_space s in
  match parse_addr s with
  | Some _ => false
  | None => has_prefix s (str "[") || (count_byte 58 s =? 1)%nat
  end.

Definition carrier_label (name : gostring) : gostring := str "edge.carriers." ++ name.

(** The address is the edge's own public socket for that transport. *)
Definition own_socket (c : Config) (tr : gostring) (ap : AddrPort) : bool :=
  let lp := Port (e_Listen (Edge c)) tr in
  negb (lp =? 0) &&
  (bool_decide (ap = mkAddrPort (PublicBind c) (to_port lp)) ||
   bool_decide (ap = mkAddrPort (PublicIP c) (to_port (AdvertisedPort c tr)))).

(** What one entry says about its settings, before its host is read. *)
Definition carrier_settings (c : Config) (name tr : gostring) (cc : CarrierConfig) : faults :=
  let label := carrier_label name in
  let srtp := or_text (cc_SRTP cc) SRTPOff in
  fail_if (beq tr CarrierUDP && (lp_UDP (e_Listen (Edge c)) =? 0)) c RCarrierNeedsUDP [AStr label] ++
  (if negb (beq tr CarrierTLS) then
     flat_map (fun kv => fail_if (negb (beq kv.2 [])) c RCarrierTLSOnly [AStr label; AStr kv.1])
       [(str "ca_file", cc_CAFile cc); (str "client_cert", cc_ClientCert cc); (str "client_key", cc_ClientKey cc)]
   else []) ++
  (if beq srtp SRTPOff then []
   else if beq srtp SRTPOptional || beq srtp SRTPRequired
   then fail_if (negb (beq tr CarrierTLS) && negb (e_AllowInsecureSDES (Edge c))) c RCarrierSrtpPlain [AStr label; AStr srtp]
   else fail c RCarrierSrtp [AStr label; AStr srtp]) ++
  fail_if (negb (eqb (beq (cc_ClientCert cc) []) (beq (cc_ClientKey cc) []))) c RCarrierPair [AStr label].

(** One entry: the names taken by [host:port], the carriers compiled so far. *)
Definition carrier_entry (c : Config) (name : gostring) (taken : gmap gostring gostring) (out : list ValidCarrier)
  : gmap gostring gostring * list ValidCarrier * faults :=
  let label := carrier_label name in
  if negb (carrierName name) then (taken, out, fail c RCarrierName [AStr name])
  else match of_map (e_Carriers (Edge c)) !! name with
  | None => (taken, out, [])
  | Some cc =>
      let tr := or_text (cc_Transport cc) CarrierUDP in
      if negb (beq tr CarrierUDP || beq tr CarrierTCP || beq tr CarrierTLS)
      then (taken, out, fail c RCarrierTransport [AStr label; AStr tr])
      else
        let f1 := carrier_settings c name tr cc in
        match ParseCarrierHost (cc_Host cc) with
        | inl q => (taken, out, f1 ++ fail c RCarrierHost [AStr label; detail c (cc_Host cc) [q]])
        | inr (host, port, addr) =>
            let key := join_host_port host (int_string port) in
            match taken !! key with
            | Some prev => (taken, out, f1 ++ fail c RCarrierTaken [AStr label; AStr key; AStr prev])
            | None =>
                let taken := <[key := name]> taken in
                let ap := mkAddrPort addr (to_port port) in
                if is_valid addr && own_socket c tr ap
                then (taken, out, f1 ++ fail c RCarrierIsSelf [AStr label; AStr key; AStr (to_upper tr)])
                else
                  let f2 := fail_if (is_valid addr && bool_decide (ap ∈ e_switches (Edge c))) c RCarrierIsSwitch [AStr label; AStr key] in
                  let k := mkVC (mkCarrier name host port (carrierHasPort (cc_Host cc)) addr tr)
                             (or_text (cc_SRTP cc) SRTPOff) (cc_CAFile cc) (cc_ClientCert cc) (cc_ClientKey cc) in
                  (taken, out ++ [k], f1 ++ f2)
            end
        end
  end.

Fixpoint carrier_loop (c : Config) (names : list gostring) (taken : gmap gostring gostring) (out : list ValidCarrier)
  : list ValidCarrier * faults :=
  match names with
  | [] => (out, [])
  | n :: names => let '(taken, out, f) := carrier_entry c n taken out in after f (carrier_loop c names taken out)
  end.

(** [sortedKeys] *)
Definition sortedKeys {V} (m : gmap gostring V) : list gostring := sort_strings (map_to_list m).*1.

Definition validateCarriers (c : Config) : Config * faults :=
  let '(ks, f) := carrier_loop c (sortedKeys (of_map (e_Carriers (Edge c)))) ∅ [] in
  (with_edge (set_carriers ks) c, f).

(** ** Shield, admin, HEP *)

Definition strike_fault (c : Config) (key s : gostring) : faults :=
  match ParseStrikeLimit s with None => fail c RStrikeLimit [AStr key; detail c s [s]] | Some _ => [] end.
Definition rate_fault (c : Config) (key s : gostring) : faults :=
  match ParseRateLimit s with None => fail c RRateLimit [AStr key; detail c s [s]] | Some _ => [] end.

Definition validateShield (c : Config) : faults :=
  let s := ShieldCfg c in let l := s_Shield s in
  let pairs := Pairs (RTP c) in
  rate_fault c (str "shield.rate_limit") (cfg_RateLimit l) ++
  rate_fault c (str "shield.carrier_rate_limit") (cfg_CarrierRateLimit l) ++
  fail_if (cfg_Ban l <=? 0) c RBan [AInt (cfg_Ban l)] ++
  (if s_MaxSessions s <? 0 then fail c RMaxSessionsNegative [AInt (s_MaxSessions s)]
   else fail_if ((1024 <=? Min (RTP c)) && (1 <=? pairs) && (pairs <? s_MaxSessions s)) c RMaxSessions
          [AInt (s_MaxSessions s); AInt pairs; AInt (Min (RTP c)); AInt (Max (RTP c))]) ++
  (if beq (s_InviteRateLimit s) [] then []
   else match ParseRateLimit (s_InviteRateLimit s) with
        | None => fail c RInviteRate [detail c (s_InviteRateLimit s) [s_InviteRateLimit s]]
        | Some rl => fail_if (PerIP rl) c RInvitePerIP []
        end) ++
  strike_fault c (str "shield.register_ban") (cfg_RegisterBan l) ++
  strike_fault c (str "shield.register_ban_aor") (cfg_RegisterBanAOR l) ++
  strike_fault c (str "shield.admission_ban") (cfg_AdmissionBan l).

(** [hostNameRE]: dot-separated labels and an optional last dot. *)
Definition word_byte (c : Z) : bool := is_alnum c || (c =? 95).
Definition host_label (s : gostring) : bool :=
  forallb (fun c => word_byte c || (c =? 45)) s &&
  match s, last s with c :: _, Some d => word_byte c && word_byte d | _, _ => false end.
Definition hostNameRE (s : gostring) : bool := forallb host_label (split (trim_dot s) 46).

Inductive hostFault := HEmpty | HURL | HWildcard | HPort | HInvalid.

(** [checkAllowedHost]; [None] is the empty message. *)
Definition checkAllowedHost (h : gostring) : option hostFault :=
  if beq h [] then Some HEmpty
  else if contains h (str "://") || contains h (str "/") then Some HURL
  else if contains h (str "*") then Some HWildcard
  else match parse_addr h with
       | Some _ => None
       | None => if contains_any h (str ":[]") then Some HPort else if negb (hostNameRE h) then Some HInvalid else None
       end.

Definition CanonicalHost (h : gostring) : gostring :=
  match parse_addr h with Some a => addr_string (unmap a) | None => to_lower (trim_dot h) end.

Fixpoint hosts_loop (c : Config) (i : Z) (l : list gostring) (seen : gset gostring) : faults :=
  match l with
  | [] => []
  | h :: l =>
      match checkAllowedHost h with
      | Some _ => fail c RAdminHost [AInt i; AStr h] ++ hosts_loop c (i + 1) l seen
      | None => fail_if (bool_decide (CanonicalHost h ∈ seen)) c RAdminHostTwice [AInt i; AStr h] ++
                hosts_loop c (i + 1) l ({[CanonicalHost h]} ∪ seen)
      end
  end.

(** [hostsCollide] *)
Definition wildcard (h : gostring) : bool :=
  beq h [] || match parse_addr h with Some ip => is_unspecified ip | None => false end.
Definition hostsCollide (a b : gostring) : bool :=
  if wildcard a || wildcard b then true
  else match parse_addr a, parse_addr b with
       | Some ia, Some ib => addr_eqb (unmap ia) (unmap ib)
       | _, _ => beq a b
       end.

Definition validateHEP (c : Config) : faults :=
  match HEP c with
  | None => []
  | Some h =>
      match ParseAddrPort (h_Address h) with
      | None => fail c RHepAddress [AStr (h_Address h)]
      | Some ap => fail_if (is_unspecified (ap_addr ap) || (ap_port ap =? 0)) c RHepSpecific [AStr (h_Address h)]
      end ++
      fail_if (negb (beq (h_Transport h) HEPUDP || beq (h_Transport h) HEPTCP || beq (h_Transport h) HEPTLS)) c RHepTransport
        [AStr (h_Transport h)] ++
      match h_TLS h with
      | None => []
      | Some t => fail_if (negb (beq (h_Transport h) HEPTLS)) c RHepTlsOnly [] ++
                  fail_if (negb (eqb (beq (ht_Cert t) []) (beq (ht_Key t) []))) c RHepTlsPair []
      end ++
      fail_if (maxHEPNodeName <? len (h_NodeName h)) c RHepNodeName [AInt maxHEPNodeName]
  end.

Definition validateSockets (c : Config) : faults :=
  match Admin c with
  | None => []
  | Some a =>
      match ParseAddrPort (a_Listen a) with
      | None => []
      | Some ap =>
          flat_map (fun tr =>
            let port := Port (e_Listen (Edge c)) tr in
            fail_if (negb (port =? 0) && (port =? ap_port ap) && hostsCollide (pub_Bind (Public c)) (addr_string (ap_addr ap)))
              c RAdminSocket [AStr (a_Listen a); AStr (listen_key tr)]) stream_transports
      end
  end.

Section Bcrypt.
(** bcrypt.Cost of a hash; [None] is its error. *)
Variable bcrypt_cost : gostring -> option Z.

Definition validateAdmin (c : Config) : faults :=
  match Admin c with
  | None => []
  | Some a =>
      match ParseAddrPort (a_Listen a) with
      | None => fail c RAdminListen [AStr (a_Listen a)]
      | Some ap => fail_if (negb (is_loopback (ap_addr ap)) && negb (a_AllowRemote a)) c RAdminRemote [AStr (a_Listen a)]
      end ++
      hosts_loop c 0 (of_slice (a_AllowedHosts a)) ∅ ++
      match bcrypt_cost (a_PasswordHash a) with
      | None => fail c RAdminHash [detail c (a_PasswordHash a) []]
      | Some cost => fail_if (cost <? MinBcryptCost) c RAdminCost [AInt cost; AInt MinBcryptCost]
      end
  end.

(** [Config.validate]: the compiled configuration and every fault. *)
Definition validate (c : Config) : Config * faults :=
  let f1 := validateTopology c ++ validateRTP c ++ validateTLS c in
  let '(c1, f2) := validateEdge c in
  let f3 := validateAdvertise c1 in
  let '(c2, f4) := validateCarriers c1 in
  (c2, f1 ++ f2 ++ f3 ++ f4 ++ validateShield c2 ++ validateAdmin c2 ++ validateHEP c2 ++ validateSockets c2).

(** ** Parse *)

Inductive parseError := ParseExpand (e : expandError) | ParseInvalid (f : faults).

(** [Parse], the document already decoded. *)
Definition Parse (LookupEnv : gostring -> option gostring) (order : list gostring) (decoded : Config) : parseError + Config :=
  match expandEnv LookupEnv order decoded with
  | inl e => inl (ParseExpand e)
  | inr c => match validate (withDefaults c) with
             | (c, []) => inr c
             | (_, f) => inl (ParseInvalid f)
             end
  end.
End Bcrypt.
