(* ===== verification/ValidConfig.v ===== *)
(** What a valid configuration is.

    [Valid c c'] says it declaratively: [c] is the configuration as read and
    [c'] the one with its compiled fields.  [Validate.validate] finds no fault
    exactly when it holds. *)

From stdpp Require Import sorting.
From S2P Require Import Prelude GoTime Netip GoText GoEncoding SipAddr SipScan SipMsg Carriers Offenders Shield Topology CarrierRoute.
From S2P Require Import Dialog MediaAnchor Config ConfigSchema EnvExpand Validate.

Open Scope Z_scope.

(** ** The parts *)

(** A text that names one address, not the wildcard. *)
Definition specific (s : gostring) : Prop := exists a, parse_addr s = Some a /\ is_unspecified a = false.

Definition port_ok (p : Z) : Prop := 0 <= p <= 65535.

(** A literal "IP:port". *)
Definition ip_port (s : gostring) (ap : AddrPort) : Prop :=
  exists host port ip, split_host_port s = Some (host, port) /\ parse_addr host = Some ip /\ is_unspecified ip = false /\
    atoi port = Some (ap_port ap) /\ 1 <= ap_port ap <= 65535 /\ ap_addr ap = unmap ip.

(** A source prefix: IPv4-mapped ones are the IPv4 prefix they map; no wider
    than /8 or /32; no host bits. *)
Definition plain_prefix (q : Prefix) : Prefix :=
  if is4in6 (p_addr q) then prefix_from (unmap (p_addr q)) (p_bits q - 96) else q.
Definition source_prefix (s : gostring) (p : Prefix) : Prop :=
  exists q, parsePrefixOrAddr s = Some q /\ (is4in6 (p_addr q) = true -> 96 <= p_bits q) /\
    (if is6 (p_addr (plain_prefix q)) then 32 else 8) <= p_bits (plain_prefix q) /\ p = masked (plain_prefix q).

(** No two of the TCP listeners on one port. *)
Definition apart (port : gostring -> Z) : Prop :=
  forall a b, a ∈ stream_transports -> b ∈ stream_transports -> a <> b -> port a <> 0 -> port a <> port b.

Definition advertised_only_if_open (c : Config) : Prop :=
  forall tr, tr ∈ Transports -> Port (e_Advertise (Edge c)) tr <> 0 ->
    port_ok (Port (e_Advertise (Edge c)) tr) /\ Port (e_Listen (Edge c)) tr <> 0.

Definition tls_ok (c : Config) : Prop :=
  match TLS c with
  | Some t => tls_Cert t <> [] /\ tls_Key t <> []
  | None => lp_TLS (e_Listen (Edge c)) = 0 /\ lp_WSS (e_Listen (Edge c)) = 0 /\ forall a, Admin c = Some a -> a_AllowRemote a = false
  end.

(** One carrier: its settings, and what it compiles to. *)
Definition carrier_transport (cc : CarrierConfig) : gostring := or_text (cc_Transport cc) CarrierUDP.
Definition carrier_srtp (cc : CarrierConfig) : gostring := or_text (cc_SRTP cc) SRTPOff.

Definition settings_ok (c : Config) (cc : CarrierConfig) : Prop :=
  let tr := carrier_transport cc in
  (tr = CarrierUDP \/ tr = CarrierTCP \/ tr = CarrierTLS) /\
  (tr = CarrierUDP -> lp_UDP (e_Listen (Edge c)) <> 0) /\
  (tr <> CarrierTLS -> cc_CAFile cc = [] /\ cc_ClientCert cc = [] /\ cc_ClientKey cc = []) /\
  is_policy (carrier_srtp cc) = true /\
  (carrier_srtp cc <> SRTPOff -> tr = CarrierTLS \/ e_AllowInsecureSDES (Edge c) = true) /\
  (cc_ClientCert cc = [] <-> cc_ClientKey cc = []).

Definition carrier_socket (k : ValidCarrier) : AddrPort :=
  mkAddrPort (c_addr (vc_Carrier k)) (to_port (c_port (vc_Carrier k))).

Definition carrier_ok (c : Config) (sw : list AddrPort) (name : gostring) (k : ValidCarrier) : Prop :=
  exists cc host port addr,
    of_map (e_Carriers (Edge c)) !! name = Some cc /\ carrierName name = true /\ settings_ok c cc /\
    ParseCarrierHost (cc_Host cc) = inr (host, port, addr) /\
    k = mkVC (mkCarrier name host port (carrierHasPort (cc_Host cc)) addr (carrier_transport cc))
          (carrier_srtp cc) (cc_CAFile cc) (cc_ClientCert cc) (cc_ClientKey cc) /\
    (is_valid addr = true -> own_socket c (carrier_transport cc) (carrier_socket k) = false /\ carrier_socket k ∉ sw).

(** The destination the switch names a carrier by. *)
Definition destination (k : ValidCarrier) : gostring * Z := (c_host (vc_Carrier k), c_port (vc_Carrier k)).

Definition shield_ok (c : Config) : Prop :=
  let s := ShieldCfg c in let l := s_Shield s in
  is_Some (ParseRateLimit (cfg_RateLimit l)) /\ is_Some (ParseRateLimit (cfg_CarrierRateLimit l)) /\ 0 < cfg_Ban l /\
  0 <= s_MaxSessions s <= Pairs (RTP c) /\
  (s_InviteRateLimit s <> [] -> exists rl, ParseRateLimit (s_InviteRateLimit s) = Some rl /\ PerIP rl = false) /\
  is_Some (ParseStrikeLimit (cfg_RegisterBan l)) /\ is_Some (ParseStrikeLimit (cfg_RegisterBanAOR l)) /\
  is_Some (ParseStrikeLimit (cfg_AdmissionBan l)).

Section Bcrypt.
Variable bcrypt_cost : gostring -> option Z.

Definition admin_ok (c : Config) : Prop :=
  forall a, Admin c = Some a ->
    (exists ap, ParseAddrPort (a_Listen a) = Some ap /\ (is_loopback (ap_addr ap) = false -> a_AllowRemote a = true) /\
       forall tr, tr ∈ stream_transports -> Port (e_Listen (Edge c)) tr <> 0 -> Port (e_Listen (Edge c)) tr = ap_port ap ->
         hostsCollide (pub_Bind (Public c)) (addr_string (ap_addr ap)) = false) /\
    Forall (fun h => checkAllowedHost h = None) (of_slice (a_AllowedHosts a)) /\
    NoDup (map CanonicalHost (of_slice (a_AllowedHosts a))) /\
    exists cost, bcrypt_cost (a_PasswordHash a) = Some cost /\ MinBcryptCost <= cost.

Definition hep_ok (c : Config) : Prop :=
  forall h, HEP c = Some h ->
    (exists ap, ParseAddrPort (h_Address h) = Some ap /\ is_unspecified (ap_addr ap) = false /\ ap_port ap <> 0) /\
    (h_Transport h = HEPUDP \/ h_Transport h = HEPTCP \/ h_Transport h = HEPTLS) /\
    (forall t, h_TLS h = Some t -> h_Transport h = HEPTLS /\ (ht_Cert t = [] <-> ht_Key t = [])) /\
    len (h_NodeName h) <= maxHEPNodeName.

Definition compiled (sw : list AddrPort) (nets : list Prefix) (ks : list ValidCarrier) (c : Config) : Config :=
  with_edge (fun e => set_carriers ks (set_nets nets (set_switches sw e))) c.

Record Valid (c c' : Config) : Prop := {
  (* the two sides *)
  v_public : specific (pub_IP (Public c));
  v_bind : specific (pub_Bind (Public c));
  v_private : specific (priv_IP (Private c));
  v_sides : PublicBind c <> PrivateIP c;
  (* media *)
  v_rtp : 1024 <= Min (RTP c) /\ 1 <= Pairs (RTP c);
  (* listeners *)
  v_tls : tls_ok c;
  v_open : exists tr, tr ∈ Transports /\ Port (e_Listen (Edge c)) tr <> 0;
  v_ports : forall tr, tr ∈ Transports -> port_ok (Port (e_Listen (Edge c)) tr);
  v_apart : apart (Port (e_Listen (Edge c)));
  v_advertise : advertised_only_if_open c;
  v_advertised : apart (AdvertisedPort c);
  v_policy : is_policy (e_SRTP (Edge c)) = true;
  v_carrier_port : port_ok (e_SwitchCarrierPort (Edge c));
  (* what is compiled *)
  v_compiled : exists sw nets ks, c' = compiled sw nets ks c /\
    Forall2 ip_port (of_slice (e_Switch (Edge c))) sw /\ sw <> [] /\ NoDup sw /\ PrivateAddr c ∉ sw /\
    Forall2 source_prefix (of_slice (e_CarrierSources (Edge c))) nets /\
    Forall2 (carrier_ok c sw) (sortedKeys (of_map (e_Carriers (Edge c)))) ks /\ NoDup (map destination ks);
  (* the rest *)
  v_shield : shield_ok c;
  v_admin : admin_ok c;
  v_hep : hep_ok c
}.

End Bcrypt.

(** ** Section by section *)

Lemma app_nil_iff {A} (l k : list A) : l ++ k = [] <-> l = [] /\ k = [].
Proof. split; [apply app_eq_nil|]. by intros [-> ->]. Qed.

Lemma fail_if_nil b c r args : fail_if b c r args = [] <-> b = false.
Proof. by destruct b. Qed.

Lemma flat_map_nil {A B} (f : A -> list B) l : flat_map f l = [] <-> forall x, x ∈ l -> f x = [].
Proof.
  induction l as [|a l IH]; cbn; [split; [by intros _ x ?%elem_of_nil|done]|].
  rewrite app_nil_iff, IH. setoid_rewrite elem_of_cons. split.
  - intros [H1 H2] x [->|Hx]; auto.
  - intros H. split; auto.
Qed.

Lemma after_spec {A} f (r : A * faults) a : after f r = (a, []) <-> f = [] /\ r = (a, []).
Proof.
  destruct r as [b g]. unfold after. cbn. split.
  - intros [= -> H]. by apply app_eq_nil in H as [-> ->].
  - by intros [-> [= -> ->]].
Qed.

Lemma eqb_nil_iff (a b : gostring) : eqb (beq a []) (beq b []) = true <-> (a = [] <-> b = []).
Proof.
  unfold beq. do 2 case_bool_decide; cbn; split; try done; tauto.
Qed.

#[local] Hint Rewrite @app_nil_iff fail_if_nil @flat_map_nil @after_spec andb_true_iff andb_false_iff orb_true_iff orb_false_iff
  negb_true_iff negb_false_iff bool_decide_eq_true bool_decide_eq_false beq_eq Z.ltb_lt Z.ltb_ge Z.leb_le Z.leb_gt Z.eqb_eq Z.eqb_neq : faults.

Lemma beq_false a b : beq a b = false <-> a <> b.
Proof. unfold beq. by rewrite bool_decide_eq_false. Qed.
#[local] Hint Rewrite beq_false : faults.

Lemma specificIP_ok c label s o : specificIP c label s = (o, []) <->
  exists a, parse_addr s = Some a /\ is_unspecified a = false /\ o = Some (unmap a).
Proof.
  unfold specificIP. destruct (beq s []) eqn:Eb.
  { apply beq_eq in Eb as ->. split; [done|]. by intros (a & Ha & _). }
  destruct (parse_addr s) as [a|]; [|split; [done|by intros (? & ? & _)]]. destruct (is_unspecified a) eqn:Eu.
  - split; [done|]. intros (? & [= <-] & ? & _). congruence.
  - split; [intros [= <-]; by exists a|]. by intros (? & [= <-] & _ & ->).
Qed.

Lemma specificIP_cases c label s :
  (exists a, parse_addr s = Some a /\ is_unspecified a = false /\ specificIP c label s = (Some (unmap a), [])) \/
  (~ specific s /\ exists f, specificIP c label s = (None, f) /\ f <> []).
Proof.
  destruct (specificIP c label s) as [o f] eqn:E. destruct f as [|x f].
  - left. apply specificIP_ok in E as (a & Ha & Hu & ->). by exists a.
  - right. split.
    + intros (a & Ha & Hu). assert (E' : specificIP c label s = (Some (unmap a), [])) by (apply specificIP_ok; by exists a). congruence.
    + exists (x :: f). split; [|done]. unfold specificIP in E. repeat case_match; congruence.
Qed.

Lemma topology_ok c : validateTopology c = [] <->
  specific (pub_IP (Public c)) /\ specific (pub_Bind (Public c)) /\ specific (priv_IP (Private c)) /\ PublicBind c <> PrivateIP c.
Proof.
  unfold validateTopology, PublicBind, PrivateIP, mustAddr, specific.
  destruct (specificIP_cases c (str "public.ip") (pub_IP (Public c))) as [(a1 & H1 & U1 & ->)|(N1 & f1 & -> & F1)];
  destruct (specificIP_cases c (str "public.bind") (pub_Bind (Public c))) as [(a2 & H2 & U2 & ->)|(N2 & f2 & -> & F2)];
  destruct (specificIP_cases c (str "private.ip") (priv_IP (Private c))) as [(a3 & H3 & U3 & ->)|(N3 & f3 & -> & F3)];
  unfold specific in *; try (split; [intros H; repeat apply app_eq_nil in H as [? H]; congruence|intros (? & ? & ? & _); contradiction]).
  cbn [app]. rewrite fail_if_nil, H2, H3. unfold addr_eqb. rewrite bool_decide_eq_false.
  split; [intros H; split_and!; [by exists a1|by exists a2|by exists a3|done]|]. by intros (_ & _ & _ & H).
Qed.

Lemma rtp_ok c : validateRTP c = [] <-> 1024 <= Min (RTP c) /\ 1 <= Pairs (RTP c).
Proof. unfold validateRTP. case_if; autorewrite with faults in *; [split; [done|lia]|lia]. Qed.

Lemma tls_ok_iff c : validateTLS c = [] <-> tls_ok c.
Proof.
  unfold validateTLS, tls_ok. destruct (TLS c) as [t|]; autorewrite with faults; [done|].
  destruct (Admin c) as [a|]; [|naive_solver]. split; [intros (? & ? & ?); split_and!; [done..|]; by intros ? [= <-]|].
  intros (? & ? & H). split_and!; auto.
Qed.

Lemma parseIPPort_cases c label s :
  (exists ap, ip_port s ap /\ parseIPPort c label s = (Some ap, [])) \/
  ((forall ap, ~ ip_port s ap) /\ exists f, parseIPPort c label s = (None, f) /\ f <> []).
Proof.
  unfold parseIPPort, ip_port. destruct (split_host_port s) as [[h p]|]; [|right; split; [by intros ap (?&?&?&?&_)|by eexists]].
  destruct (parse_addr h) as [ip|] eqn:Ei; [|right; split; [intros ap (?&?&?&[= <- <-]&?&_); congruence|by eexists]].
  destruct (atoi p) as [n|] eqn:En; [|right; split; [intros ap (?&?&?&[= <- <-]&?&?&?&_); congruence|by eexists]].
  destruct ((n <? 1) || (65535 <? n)) eqn:Er.
  { right. split; [|by eexists]. intros ap (?&?&?&[= <- <-]&?&?&E&?&_). rewrite En in E. injection E as ->. lia. }
  destruct (is_unspecified ip) eqn:Eu; [right; split; [intros ap (?&?&?&[= <- <-]&?&?&_); congruence|by eexists]|].
  left. exists (mkAddrPort (unmap ip) (to_port n)). assert (to_port n = n) as -> by (unfold to_port, wrap_uint; rewrite Z.mod_small; lia).
  split; [|done]. exists h, p, ip. split_and!; cbn; try done; lia.
Qed.

Lemma ip_port_fun s ap ap' : ip_port s ap -> ip_port s ap' -> ap = ap'.
Proof. destruct ap, ap'. unfold ip_port. cbn. naive_solver congruence. Qed.

Lemma switch_loop_ok c l : priv_IP (Private c) <> [] -> forall i seen out out',
  switch_loop c i l seen out = (out', []) <->
  exists sw, out' = out ++ sw /\ Forall2 ip_port l sw /\ NoDup sw /\ (forall ap, ap ∈ sw -> ap ∉ seen) /\ PrivateAddr c ∉ sw.
Proof.
  intros Hp. apply beq_false in Hp. induction l as [|s l IH]; intros i seen out out'; cbn [switch_loop].
  - split.
    + intros [= ->]. exists []. rewrite app_nil_r. split_and!; [done|constructor|constructor|by intros ? ?%elem_of_nil|by intros ?%elem_of_nil].
    + intros (sw & -> & H & _). inversion H. by rewrite app_nil_r.
  - destruct (parseIPPort_cases c (str "edge.switch[" ++ int_string i ++ str "]") s) as [(ap & Hap & ->)|(Hno & f & -> & Hf)].
    2: { rewrite after_spec. split; [by intros []|]. intros (sw & _ & H & _). inversion H; subst. by edestruct Hno. }
    assert (Hhead : forall sw, Forall2 ip_port (s :: l) sw -> exists sw', sw = ap :: sw' /\ Forall2 ip_port l sw').
    { intros sw H. inversion H as [|? ap' ? sw' H1 H2]; subst. exists sw'. by rewrite (ip_port_fun _ _ _ Hap H1). }
    case_bool_decide as Hs.
    { rewrite after_spec. split; [by intros []|]. intros (sw & _ & H & _ & Hd & _). destruct (Hhead _ H) as (sw' & -> & _).
      by destruct (Hd ap ltac:(by left)). }
    rewrite Hp. cbn [negb andb]. case_bool_decide as Hq.
    { rewrite after_spec. split; [by intros []|]. intros (sw & _ & H & _ & _ & Hd). destruct (Hhead _ H) as (sw' & -> & _).
      subst ap. by destruct Hd; left. }
    rewrite IH. split.
    + intros (sw & -> & H & Hnd & Hd & Hpr). exists (ap :: sw). rewrite <- app_assoc. split_and!; [done|by constructor|..].
      * constructor; [|done]. intros Hin. apply (Hd _ Hin). set_solver.
      * intros x [->|Hx]%elem_of_cons; [done|]. specialize (Hd _ Hx). set_solver.
      * intros [E|Hin]%elem_of_cons; [by subst|done].
    + intros (sw & -> & H & Hnd & Hd & Hpr). destruct (Hhead _ H) as (sw' & -> & H'). apply NoDup_cons in Hnd as [Hn Hnd].
      exists sw'. rewrite <- app_assoc. split_and!; [done..| |].
      * intros x Hx. specialize (Hd x ltac:(by right)). set_unfold. naive_solver.
      * intros Hin. apply Hpr. by right.
Qed.

Lemma allowedPrefix_cases c label s :
  (exists p, source_prefix s p /\ allowedPrefix c label s = (Some p, [])) \/
  ((forall p, ~ source_prefix s p) /\ exists f, allowedPrefix c label s = (None, f) /\ f <> []).
Proof.
  unfold allowedPrefix, source_prefix, plain_prefix.
  destruct (parsePrefixOrAddr s) as [q|]; [|right; split; [by intros p (?&?&_)|by eexists]].
  destruct (is4in6 (p_addr q) && (p_bits q <? 96)) eqn:E1.
  { right. split; [|by eexists]. intros p (? & [= <-] & H & _). breflect. specialize (H ltac:(done)). lia. }
  assert (H1 : is4in6 (p_addr q) = true -> 96 <= p_bits q) by (intros H; rewrite H in E1; cbn in E1; lia).
  set (q' := if is4in6 (p_addr q) then _ else q). destruct (p_bits q' <? _) eqn:E2.
  - right. split; [|by eexists]. intros p (? & [= <-] & _ & H & _). fold q' in H. lia.
  - left. exists (masked q'). split; [|done]. exists q. fold q'. split_and!; [done..|lia|done].
Qed.

Lemma source_prefix_fun s p p' : source_prefix s p -> source_prefix s p' -> p = p'.
Proof. unfold source_prefix. naive_solver congruence. Qed.

Lemma sources_loop_ok c l : forall out out',
  sources_loop c l out = (out', []) <-> exists nets, out' = out ++ nets /\ Forall2 source_prefix l nets.
Proof.
  induction l as [|s l IH]; intros out out'; cbn [sources_loop].
  - split; [intros [= ->]; exists []; by rewrite app_nil_r|]. intros (nets & -> & H). inversion H. by rewrite app_nil_r.
  - destruct (allowedPrefix_cases c (str "edge.carrier_sources") s) as [(p & Hp & ->)|(Hno & f & -> & Hf)].
    + rewrite IH. split.
      * intros (nets & -> & H). exists (p :: nets). rewrite <- app_assoc. split; [done|by constructor].
      * intros (nets & -> & H). inversion H as [|? p' ? nets' H1 H2]; subst. exists nets'.
        rewrite <- app_assoc, (source_prefix_fun _ _ _ Hp H1). done.
    + rewrite after_spec. split; [by intros []|]. intros (nets & _ & H). inversion H; subst. by edestruct Hno.
Qed.

(** *** Pairs of listeners *)

Section Pairwise.
Context {A : Type} (R : A -> A -> Prop) (Rsym : forall x y, R x y -> R y x).

Fixpoint pairwise (before l : list A) : Prop :=
  match l with
  | [] => True
  | x :: l => (forall y, y ∈ before -> R x y) /\ pairwise (before ++ [x]) l
  end.

Lemma pairwise_spec l : NoDup l -> forall before,
  pairwise before l <-> (forall x y, x ∈ l -> y ∈ before -> R x y) /\ (forall x y, x ∈ l -> y ∈ l -> x <> y -> R x y).
Proof.
  induction l as [|a l IH]; intros Hnd before; cbn [pairwise].
  - split; [|done]. intros _. split; intros x y ?%elem_of_nil; done.
  - apply NoDup_cons in Hnd as [Ha Hnd]. rewrite (IH Hnd). setoid_rewrite elem_of_app. setoid_rewrite elem_of_cons.
    split.
    + intros (H1 & H2 & H3). split; [naive_solver|]. intros x y [->|Hx] [->|Hy] Hne; [done| |naive_solver|naive_solver].
      apply Rsym. apply H2; [done|]. right. by left.
    + intros [H1 H2]. split; [naive_solver|]. split; [|naive_solver]. intros x y Hx [Hy|[->|Hy%elem_of_nil]]; [naive_solver| |done].
      apply H2; [by right|by left|]. by intros ->.
Qed.
End Pairwise.

Lemma find_none_iff {A} (f : A -> bool) l : List.find f l = None <-> forall x, x ∈ l -> f x = false.
Proof.
  induction l as [|a l IH]; cbn; [split; [by intros _ x ?%elem_of_nil|done]|]. setoid_rewrite elem_of_cons.
  destruct (f a) eqn:E; [|rewrite IH; naive_solver]. split; [done|]. intros H. specialize (H a ltac:(by left)). congruence.
Qed.

Definition differ (port : gostring -> Z) (a b : gostring) : Prop := port a <> 0 -> port a <> port b.

Lemma differ_sym port a b : differ port a b -> differ port b a.
Proof. unfold differ. intros H Hb E. rewrite E in *. by apply H. Qed.

Lemma stream_transports_NoDup : NoDup stream_transports.
Proof. apply (bool_decide_unpack _). vm_compute. exact I. Qed.

Lemma apart_pairwise port : apart port <-> pairwise (differ port) [] stream_transports.
Proof.
  rewrite (pairwise_spec _ (differ_sym port) _ stream_transports_NoDup). unfold apart, differ. split; [intros H|intros [_ H]].
  - split; [by intros x y _ ?%elem_of_nil|]. intros x y Hx Hy Hn. by apply H.
  - intros a b Ha Hb Hn. by apply H.
Qed.

Lemma taken_ports_ok c port l : forall before,
  taken_ports c (map (fun tr => (listen_key tr, port tr)) before) (map (fun tr => (listen_key tr, port tr)) l) = []
  <-> pairwise (differ port) before l.
Proof.
  induction l as [|a l IH]; intros before; cbn [map taken_ports pairwise]; [done|].
  rewrite app_nil_iff. change ([(listen_key a, port a)]) with (map (fun tr => (listen_key tr, port tr)) [a]).
  rewrite <- map_app, IH. apply and_iff_compat_r.
  destruct (List.find _ _) as [[k p]|] eqn:E.
  - split; [done|]. intros H. apply List.find_some in E as [Hin E]. apply in_map_iff in Hin as (b & [= <- <-] & Hb%list_elem_of_In).
    cbn in E. specialize (H b Hb). unfold differ in H. lia.
  - split; [|done]. intros _ b Hb H0 E'. rewrite find_none_iff in E.
    specialize (E (listen_key b, port b) ltac:(apply list_elem_of_In, in_map_iff; exists b; split; [done|by apply list_elem_of_In])).
    cbn in E. lia.
Qed.

Lemma taken_advertised_ok c l : forall before,
  taken_advertised c before l = [] <-> pairwise (fun a b => same_advertised c a b = false) before l.
Proof.
  induction l as [|a l IH]; intros before; cbn [taken_advertised pairwise]; [done|]. rewrite app_nil_iff, IH. apply and_iff_compat_r.
  destruct (List.find _ _) as [b|] eqn:E; [|by rewrite find_none_iff in E].
  split; [done|]. intros H. apply List.find_some in E as [Hin%list_elem_of_In E]. rewrite (H b Hin) in E. done.
Qed.

(** Two listeners without a port of their own to advertise are told apart
    already. *)
Lemma advertised_apart_ok c : apart (Port (e_Listen (Edge c))) ->
  taken_advertised c [] stream_transports = [] <-> apart (AdvertisedPort c).
Proof.
  intros Hl. rewrite taken_advertised_ok, pairwise_spec; [|unfold same_advertised; intros; lia|apply stream_transports_NoDup].
  unfold apart, same_advertised. split.
  - intros [_ H] a b Ha Hb Hn H0 E. specialize (H a b Ha Hb Hn). specialize (Hl a b Ha Hb Hn).
    unfold AdvertisedPort in *. cbv zeta in *.
    destruct (Port (e_Listen (Edge c)) a =? 0) eqn:?, (Port (e_Listen (Edge c)) b =? 0) eqn:?,
      (Port (e_Advertise (Edge c)) a =? 0) eqn:?, (Port (e_Advertise (Edge c)) b =? 0) eqn:?; cbn in *; lia.
  - intros H. split; [by intros x y _ ?%elem_of_nil|]. intros a b Ha Hb Hn. specialize (H a b Ha Hb Hn). lia.
Qed.

Lemma checkPort_ok c label p : checkPort c label p = [] <-> port_ok p.
Proof. unfold checkPort, port_ok. rewrite fail_if_nil. lia. Qed.

(** *** The edge section *)

Lemma edge_ok c c1 : specific (priv_IP (Private c)) -> validateEdge c = (c1, []) <->
  exists sw nets, c1 = with_edge (fun e => set_nets nets (set_switches sw e)) c /\
    Forall2 ip_port (of_slice (e_Switch (Edge c))) sw /\ sw <> [] /\ NoDup sw /\ PrivateAddr c ∉ sw /\
    Forall2 source_prefix (of_slice (e_CarrierSources (Edge c))) nets /\
    is_policy (e_SRTP (Edge c)) = true /\ port_ok (e_SwitchCarrierPort (Edge c)) /\
    (exists tr, tr ∈ Transports /\ Port (e_Listen (Edge c)) tr <> 0) /\
    (forall tr, tr ∈ Transports -> port_ok (Port (e_Listen (Edge c)) tr)) /\ apart (Port (e_Listen (Edge c))).
Proof.
  intros (a & Ha & _). assert (Hp : priv_IP (Private c) <> []) by (by intros E; rewrite E in Ha).
  assert (Hopen : forallb (fun tr => Port (e_Listen (Edge c)) tr =? 0) Transports = false <->
                  exists tr, tr ∈ Transports /\ Port (e_Listen (Edge c)) tr <> 0).
  { rewrite <- not_true_iff_false, forallb_forall. split.
    - intros H. destruct (List.Exists_dec (fun tr => Port (e_Listen (Edge c)) tr <> 0) Transports) as [E|E].
      + intros tr. destruct (Z.eq_dec (Port (e_Listen (Edge c)) tr) 0); [right|left]; lia.
      + apply List.Exists_exists in E as (tr & ?%list_elem_of_In & ?). eauto.
      + destruct H. intros tr Htr. destruct (Port (e_Listen (Edge c)) tr =? 0) eqn:E0; [done|]. destruct E. apply List.Exists_exists.
        exists tr. split; [done|lia].
    - intros (tr & Htr%list_elem_of_In & Hn) H. specialize (H tr Htr). lia. }
  unfold validateEdge. destruct (switch_loop c 0 _ ∅ []) as [sw f1] eqn:E1. destruct (sources_loop c _ []) as [nets f2] eqn:E2.
  pose proof (fun f => switch_loop_ok c (of_slice (e_Switch (Edge c))) Hp 0 ∅ [] f) as S1.
  pose proof (fun f => sources_loop_ok c (of_slice (e_CarrierSources (Edge c))) [] f) as S2. rewrite E1 in S1. rewrite E2 in S2.
  pose proof (taken_ports_ok c (Port (e_Listen (Edge c))) stream_transports []) as Ht. cbn [map] in Ht.
  rewrite pair_equal_spec, !app_nil_iff, !fail_if_nil, flat_map_nil, Ht, <- apart_pairwise, Hopen, negb_false_iff, bool_decide_eq_false.
  setoid_rewrite checkPort_ok. cbn [app] in *. split.
  - intros (<- & Hn & -> & Hpol & Hscp & Ho & Hr & Hapart & ->).
    destruct (proj1 (S1 sw) eq_refl) as (? & <- & F1 & N1 & _ & P1). destruct (proj1 (S2 nets) eq_refl) as (? & <- & F2).
    exists sw, nets. split_and!; try done; [|unfold port_ok; lia]. intros ->. by inversion F1.
  - intros (sw' & nets' & -> & F1 & Hn & N1 & P1 & F2 & Hpol & Hscp & Ho & Hr & Hapart).
    assert (X1 : (sw, f1) = (sw', [])) by (apply S1; exists sw'; split_and!; [done..| |done]; intros ap _; apply not_elem_of_empty).
    assert (X2 : (nets, f2) = (nets', [])) by (apply S2; by exists nets'). injection X1 as -> ->. injection X2 as -> ->.
    split_and!; try done; [|unfold port_ok in Hscp; lia]. intros E. rewrite E in F1. by inversion F1; subst.
Qed.

Lemma advertise_ok c : apart (Port (e_Listen (Edge c))) -> validateAdvertise c = [] <-> advertised_only_if_open c /\ apart (AdvertisedPort c).
Proof.
  intros Ha. unfold validateAdvertise, advertised_only_if_open. rewrite app_nil_iff, (advertised_apart_ok _ Ha), flat_map_nil.
  apply and_iff_compat_r. split; intros H tr Htr.
  - intros H0. specialize (H tr Htr). replace (_ =? 0) with false in H by lia.
    rewrite app_nil_iff, checkPort_ok, fail_if_nil in H. destruct H. split; [done|lia].
  - case_if; [done|]. destruct (H tr Htr) as [H1 H2]; [lia|]. rewrite app_nil_iff, checkPort_ok, fail_if_nil. split; [done|lia].
Qed.

(** *** Carriers *)

Lemma settings_iff c name cc : let tr := carrier_transport cc in
  tr = CarrierUDP \/ tr = CarrierTCP \/ tr = CarrierTLS -> carrier_settings c name tr cc = [] <-> settings_ok c cc.
Proof.
  cbv zeta. intros Ht. unfold carrier_settings, settings_ok. fold (carrier_srtp cc). set (tr := carrier_transport cc) in *.
  rewrite !app_nil_iff, !fail_if_nil, negb_false_iff, eqb_nil_iff.
  assert (H1 : beq tr CarrierUDP && (lp_UDP (e_Listen (Edge c)) =? 0) = false <-> (tr = CarrierUDP -> lp_UDP (e_Listen (Edge c)) <> 0)).
  { unfold beq. case_bool_decide; cbn; [split; [lia|intros H'; specialize (H' ltac:(done)); lia]|by split]. }
  assert (H2 : (if negb (beq tr CarrierTLS) then
       flat_map (fun kv => fail_if (negb (beq kv.2 [])) c RCarrierTLSOnly [AStr (carrier_label name); AStr kv.1])
         [(str "ca_file", cc_CAFile cc); (str "client_cert", cc_ClientCert cc); (str "client_key", cc_ClientKey cc)] else []) = []
     <-> (tr <> CarrierTLS -> cc_CAFile cc = [] /\ cc_ClientCert cc = [] /\ cc_ClientKey cc = [])).
  { unfold beq at 1. case_bool_decide; cbn; [by split|]. rewrite !app_nil_iff, !fail_if_nil, !negb_false_iff, !beq_eq. tauto. }
  assert (H3 : (if beq (carrier_srtp cc) SRTPOff then []
     else if beq (carrier_srtp cc) SRTPOptional || beq (carrier_srtp cc) SRTPRequired
     then fail_if (negb (beq tr CarrierTLS) && negb (e_AllowInsecureSDES (Edge c))) c RCarrierSrtpPlain
            [AStr (carrier_label name); AStr (carrier_srtp cc)]
     else fail c RCarrierSrtp [AStr (carrier_label name); AStr (carrier_srtp cc)]) = []
     <-> is_policy (carrier_srtp cc) = true /\ (carrier_srtp cc <> SRTPOff -> tr = CarrierTLS \/ e_AllowInsecureSDES (Edge c) = true)).
  { unfold is_policy. destruct (beq (carrier_srtp cc) SRTPOff) eqn:E0; [apply beq_eq in E0; tauto|]. apply beq_false in E0.
    destruct (_ || _); cbn; [|by split; [|intros []]]. rewrite fail_if_nil, andb_false_iff, !negb_false_iff, beq_eq. tauto. }
  rewrite H1, H2, H3. split.
  - intros (X1 & X2 & [X3 X4] & X5). exact (conj Ht (conj X1 (conj X2 (conj X3 (conj X4 X5))))).
  - intros (_ & X1 & X2 & X3 & X4 & X5). exact (conj X1 (conj X2 (conj (conj X3 X4) X5))).
Qed.

Lemma ParseCarrierHost_port s host port addr : ParseCarrierHost s = inr (host, port, addr) -> 1 <= port <= 65535.
Proof.
  assert (F : forall h p host port addr, finishCarrierHost h p = inr (host, port, addr) -> p = port).
  { intros h p ho po ad. unfold finishCarrierHost. repeat case_match; congruence. }
  unfold ParseCarrierHost. intros H. repeat case_match; try done; apply F in H; subst; unfold DefaultCarrierPort; lia.
Qed.

Definition carrier_key (k : ValidCarrier) : gostring :=
  join_host_port (c_host (vc_Carrier k)) (int_string (c_port (vc_Carrier k))).

Lemma carrier_entry_ok c name taken out taken' out' : is_Some (of_map (e_Carriers (Edge c)) !! name) ->
  carrier_entry c name taken out = (taken', out', []) <->
  exists k, carrier_ok c (e_switches (Edge c)) name k /\ taken !! carrier_key k = None /\
    taken' = <[carrier_key k := name]> taken /\ out' = out ++ [k].
Proof.
  intros [cc Hcc]. unfold carrier_entry. rewrite Hcc. fold (carrier_transport cc). fold (carrier_srtp cc).
  destruct (carrierName name) eqn:En; cbn [negb]; [|split; [done|]; intros (k & (?&?&?&?&_&?&_) & _); congruence].
  destruct (beq _ CarrierUDP || beq _ CarrierTCP || beq _ CarrierTLS) eqn:Et; cbn [negb].
  2: { split; [done|]. intros (k & (cc'&?&?&?&E&_&Hs&_) & _). rewrite Hcc in E. injection E as <-.
       destruct Hs as [[H|[H|H]] _]; rewrite H in Et; done. }
  rewrite !orb_true_iff, !beq_eq in Et. pose proof (settings_iff c name cc ltac:(tauto)) as Hset. cbv zeta in Hset.
  set (f1 := carrier_settings c name (carrier_transport cc) cc) in *.
  destruct (ParseCarrierHost (cc_Host cc)) as [q|[[host port] addr]] eqn:Eh.
  { split; [intros [= _ _ H]; by destruct f1|]. intros (k & (cc'&?&?&?&E&_&_&Hh&_) & _). congruence. }
  set (k := mkVC _ _ _ _ _). set (key := join_host_port host (int_string port)).
  assert (Hk : forall k', carrier_ok c (e_switches (Edge c)) name k' -> k' = k).
  { intros k' (cc'&?&?&?&E&_&_&Hh&->&_). rewrite Hcc in E. injection E as <-. rewrite Eh in Hh. by injection Hh as <- <- <-. }
  destruct (taken !! key) as [prev|] eqn:Etk.
  { split; [intros [= _ _ H]; by destruct f1|]. intros (k' & Hok & H & _). rewrite (Hk _ Hok) in H. unfold carrier_key in H. cbn in H.
    fold key in H. congruence. }
  assert (Hok : f1 = [] -> (is_valid addr = true -> own_socket c (carrier_transport cc) (carrier_socket k) = false /\
      carrier_socket k ∉ e_switches (Edge c)) -> carrier_ok c (e_switches (Edge c)) name k).
  { intros H1 H2. exists cc, host, port, addr. split_and!; try done. by apply Hset. }
  assert (Hok' : carrier_ok c (e_switches (Edge c)) name k -> f1 = [] /\ (is_valid addr = true ->
      own_socket c (carrier_transport cc) (carrier_socket k) = false /\ carrier_socket k ∉ e_switches (Edge c))).
  { intros (cc'&?&?&?&E&_&Hs&Hh&_&Hv). rewrite Hcc in E. injection E as <-. rewrite Eh in Hh. injection Hh as <- <- <-.
    split; [by apply Hset|done]. }
  unfold carrier_socket in Hok, Hok'. cbn [k vc_Carrier c_addr c_port] in Hok, Hok'.
  destruct (is_valid addr && own_socket c _ _) eqn:Eo.
  - split; [intros [= _ _ H]; by destruct f1|]. intros (k' & H & _). rewrite (Hk _ H) in H. destruct (Hok' H) as [_ Hv].
    apply andb_true_iff in Eo as [Ea Eo]. destruct (Hv Ea). congruence.
  - split.
    + intros [= <- <- H]. apply app_eq_nil in H as [H1 H2]. apply fail_if_nil in H2. exists k. split_and!; try done.
      apply Hok; [done|]. intros Ea. rewrite Ea in Eo, H2. cbn in Eo, H2. split; [done|]. by apply bool_decide_eq_false in H2.
    + intros (k' & H & _ & -> & ->). pose proof (Hk _ H) as Ek. rewrite Ek in H |- *. destruct (Hok' H) as [H1 Hv]. unfold carrier_key. cbn. fold key. rewrite H1.
      cbn. f_equal. apply fail_if_nil. destruct (is_valid addr); [|done]. destruct (Hv ltac:(done)). by rewrite bool_decide_false.
Qed.

Lemma carrier_loop_ok c names : Forall (fun n => is_Some (of_map (e_Carriers (Edge c)) !! n)) names -> forall taken out out',
  carrier_loop c names taken out = (out', []) <->
  exists ks, out' = out ++ ks /\ Forall2 (carrier_ok c (e_switches (Edge c))) names ks /\ NoDup (map carrier_key ks) /\
    Forall (fun k => taken !! carrier_key k = None) ks.
Proof.
  induction 1 as [|n names Hn Hns IH]; intros taken out out'; cbn [carrier_loop].
  - split; [intros [= ->]; exists []; rewrite app_nil_r; split_and!; constructor|].
    intros (ks & -> & H & _). inversion H. by rewrite app_nil_r.
  - pose proof (carrier_entry_ok c n taken out) as He. destruct (carrier_entry c n taken out) as [[taken1 out1] f].
    rewrite after_spec. split.
    + intros [-> H]. destruct (proj1 (He taken1 out1 Hn) eq_refl) as (k & Hk & Ht & -> & ->).
      apply IH in H as (ks & -> & F & Hnd & Hfresh). exists (k :: ks). rewrite <- app_assoc. split_and!; [done|by constructor| |].
      * cbn. constructor; [|done]. intros (k' & E & Hin)%list_elem_of_fmap. rewrite Forall_forall in Hfresh. specialize (Hfresh k' Hin).
        rewrite <- E, lookup_insert_eq in Hfresh. done.
      * constructor; [done|]. eapply Forall_impl; [exact Hfresh|]. cbn beta. intros k' H. destruct (decide (carrier_key k = carrier_key k')) as [E|E].
        -- rewrite E, lookup_insert_eq in H. done.
        -- by rewrite lookup_insert_ne in H.
    + intros (ks & -> & F & Hnd & Hfresh). inversion F as [|? k ? ks' Hk Hks]; subst.
      apply Forall_cons in Hfresh as [Hf Hfs]. cbn in Hnd. apply NoDup_cons in Hnd as [Hkn Hnd].
      assert (X : (taken1, out1, f) = (<[carrier_key k := n]> taken, out ++ [k], [])) by (apply He; [done|by exists k]).
      injection X as -> -> ->. split; [done|].
      apply IH. exists ks'. rewrite <- app_assoc. split_and!; try done. rewrite Forall_forall in Hfs |- *. intros k' Hin.
      rewrite lookup_insert_ne; [by apply Hfs|]. intros E. apply Hkn. rewrite E. apply list_elem_of_fmap. by exists k'.
Qed.

Lemma sortedKeys_in {V} (m : gmap gostring V) k : k ∈ sortedKeys m <-> is_Some (m !! k).
Proof.
  unfold sortedKeys, sort_strings. rewrite merge_sort_Permutation, list_elem_of_fmap. split.
  - intros ([k' v] & -> & H%elem_of_map_to_list). by exists v.
  - intros [v H]. exists (k, v). split; [done|]. by apply elem_of_map_to_list.
Qed.

Lemma destination_nodup c sw names ks : Forall2 (carrier_ok c sw) names ks -> NoDup (map carrier_key ks) <-> NoDup (map destination ks).
Proof.
  intros F. assert (Hp : Forall (fun k => 1 <= c_port (vc_Carrier k) <= 65535) ks).
  { clear -F. induction F as [|n k names ks Hk F IH]; [constructor|]. constructor; [|done].
    destruct Hk as (cc & h & p & a & _ & _ & _ & Hh & -> & _). cbn. by eapply ParseCarrierHost_port. }
  clear F. induction Hp as [|k ks Hk Hks IH]; cbn; [by rewrite !NoDup_nil|]. rewrite !NoDup_cons, IH. apply and_iff_compat_r, not_iff_compat.
  rewrite !list_elem_of_fmap. rewrite Forall_forall in Hks. split; intros (k' & E & Hin); exists k'; (split; [|done]); specialize (Hks k' Hin).
  - unfold carrier_key in E. apply join_host_port_inj in E as [E1 E2]; [|unfold max_int64, two63; lia..]. unfold destination. by rewrite E1, E2.
  - unfold destination in E. injection E as E1 E2. unfold carrier_key. by rewrite E1, E2.
Qed.

Lemma carriers_ok c c2 : validateCarriers c = (c2, []) <->
  exists ks, c2 = with_edge (set_carriers ks) c /\
    Forall2 (carrier_ok c (e_switches (Edge c))) (sortedKeys (of_map (e_Carriers (Edge c)))) ks /\ NoDup (map destination ks).
Proof.
  unfold validateCarriers. set (names := sortedKeys _).
  assert (Hn : Forall (fun n => is_Some (of_map (e_Carriers (Edge c)) !! n)) names) by (apply Forall_forall; intros n; apply sortedKeys_in).
  pose proof (carrier_loop_ok c names Hn ∅ []) as H. destruct (carrier_loop c names ∅ []) as [ks f].
  cbn [app] in H. split.
  - intros [= <- ->]. destruct (proj1 (H ks) eq_refl) as (? & <- & F & Hnd & _). exists ks. split_and!; [done..|].
    by apply (destination_nodup _ _ _ _ F).
  - intros (ks' & -> & F & Hnd). assert (X : (ks, f) = (ks', [])).
    { apply H. exists ks'. split_and!; [done..|by apply (destination_nodup _ _ _ _ F)|]. apply Forall_forall. intros k _. apply lookup_empty. }
    by injection X as -> ->.
Qed.

(** *** Shield, admin, HEP *)

Lemma rate_fault_ok c key s : rate_fault c key s = [] <-> is_Some (ParseRateLimit s).
Proof. unfold rate_fault. destruct (ParseRateLimit s); [by split; [eexists|]|]. by split; [|intros []]. Qed.
Lemma strike_fault_ok c key s : strike_fault c key s = [] <-> is_Some (ParseStrikeLimit s).
Proof. unfold strike_fault. destruct (ParseStrikeLimit s); [by split; [eexists|]|]. by split; [|intros []]. Qed.

Lemma shield_ok_iff c : 1024 <= Min (RTP c) -> 1 <= Pairs (RTP c) -> validateShield c = [] <-> shield_ok c.
Proof.
  intros Hr Hp. unfold validateShield, shield_ok. cbv zeta.
  rewrite !app_nil_iff, !rate_fault_ok, !strike_fault_ok, fail_if_nil, Z.leb_gt.
  assert (H1 : (if s_MaxSessions (ShieldCfg c) <? 0 then fail c RMaxSessionsNegative [AInt (s_MaxSessions (ShieldCfg c))]
       else fail_if ((1024 <=? Min (RTP c)) && (1 <=? Pairs (RTP c)) && (Pairs (RTP c) <? s_MaxSessions (ShieldCfg c))) c RMaxSessions
          [AInt (s_MaxSessions (ShieldCfg c)); AInt (Pairs (RTP c)); AInt (Min (RTP c)); AInt (Max (RTP c))]) = []
       <-> 0 <= s_MaxSessions (ShieldCfg c) <= Pairs (RTP c)).
  { case_if; [split; [done|lia]|]. rewrite fail_if_nil. lia. }
  assert (H2 : (if beq (s_InviteRateLimit (ShieldCfg c)) [] then [] else
       match ParseRateLimit (s_InviteRateLimit (ShieldCfg c)) with
       | None => fail c RInviteRate [detail c (s_InviteRateLimit (ShieldCfg c)) [s_InviteRateLimit (ShieldCfg c)]]
       | Some rl => fail_if (PerIP rl) c RInvitePerIP [] end) = []
       <-> (s_InviteRateLimit (ShieldCfg c) <> [] -> exists rl, ParseRateLimit (s_InviteRateLimit (ShieldCfg c)) = Some rl /\ PerIP rl = false)).
  { unfold beq. case_bool_decide as E; [by split|]. destruct (ParseRateLimit _) as [rl|].
    - rewrite fail_if_nil. split; [by eexists|]. by intros H; destruct (H E) as (? & [= <-] & ?).
    - split; [done|]. by intros H; destruct (H E) as (? & ? & ?). }
  rewrite H1, H2. done.
Qed.

Lemma hosts_loop_ok c l : forall i seen, hosts_loop c i l seen = [] <->
  Forall (fun h => checkAllowedHost h = None) l /\ NoDup (map CanonicalHost l) /\ forall h, h ∈ l -> CanonicalHost h ∉ seen.
Proof.
  induction l as [|h l IH]; intros i seen; cbn [hosts_loop map].
  - split; [|done]. intros _. split_and!; [constructor..|by intros h ?%elem_of_nil].
  - rewrite Forall_cons, NoDup_cons. destruct (checkAllowedHost h) as [e|]; [split; [done|by intros [[? _] _]]|].
    rewrite app_nil_iff, fail_if_nil, bool_decide_eq_false, IH, list_elem_of_fmap. setoid_rewrite elem_of_cons. split.
    + intros (H1 & H2 & H3 & H4). split_and!; try done.
      * intros (x & E & Hx). specialize (H4 x Hx). rewrite <- E in H4. set_solver.
      * intros x [->|Hx]; [done|]. specialize (H4 x Hx). set_solver.
    + intros ([_ H2] & [H3 H3'] & H4). split_and!; try done; [apply H4; by left|]. intros x Hx.
      rewrite elem_of_union, elem_of_singleton. intros [E|E]; [apply H3; by exists x|]. apply (H4 x); [by right|done].
Qed.

Lemma all_some {A} (a : A) (P : A -> Prop) : (forall x, Some a = Some x -> P x) <-> P a.
Proof. split; [by intros H; apply H|]. by intros H ? [= <-]. Qed.

Section Bcrypt.
Variable bcrypt_cost : gostring -> option Z.

Lemma admin_ok_iff c : validateAdmin bcrypt_cost c = [] /\ validateSockets c = [] <-> admin_ok bcrypt_cost c.
Proof.
  unfold validateAdmin, validateSockets, admin_ok. destruct (Admin c) as [a|]; [|by split].
  rewrite all_some, !app_nil_iff, hosts_loop_ok.
  destruct (ParseAddrPort (a_Listen a)) as [ap|]; [|split; [by intros [[? _] _]|by intros [(? & ? & _) _]]].
  rewrite fail_if_nil, flat_map_nil. setoid_rewrite fail_if_nil.
  destruct (bcrypt_cost (a_PasswordHash a)) as [cost|].
  2: { split; [by intros [(_ & _ & ?) _]|]. by intros (_ & _ & _ & ? & ? & _). }
  rewrite fail_if_nil. split.
  - intros [(H1 & (H2 & H3 & _) & H4) H5]. split_and!; try done; [|exists cost; split; [done|lia]].
    exists ap. split_and!; [done| |].
    + intros Hl. rewrite Hl in H1. by destruct (a_AllowRemote a).
    + intros tr Htr Hn He. specialize (H5 tr Htr). replace (Port _ tr =? 0) with false in H5 by lia.
      replace (Port _ tr =? ap_port ap) with true in H5 by lia. done.
  - intros ((ap' & [= <-] & Hl & Hs) & H2 & H3 & ? & [= <-] & Hc). split_and!; try done; [|lia|].
    + destruct (is_loopback (ap_addr ap)); [done|]. by rewrite Hl.
    + intros tr Htr. specialize (Hs tr Htr). destruct (Port _ tr =? 0) eqn:E0; [done|].
      destruct (Port _ tr =? ap_port ap) eqn:E1; [|done]. cbn. apply Hs; lia.
Qed.

Lemma hep_ok_iff c : validateHEP c = [] <-> hep_ok c.
Proof.
  unfold validateHEP, hep_ok. destruct (HEP c) as [h|]; [|by split]. rewrite all_some, !app_nil_iff, !fail_if_nil.
  assert (H1 : match ParseAddrPort (h_Address h) with
               | None => fail c RHepAddress [AStr (h_Address h)]
               | Some ap => fail_if (is_unspecified (ap_addr ap) || (ap_port ap =? 0)) c RHepSpecific [AStr (h_Address h)]
               end = [] <-> exists ap, ParseAddrPort (h_Address h) = Some ap /\ is_unspecified (ap_addr ap) = false /\ ap_port ap <> 0).
  { destruct (ParseAddrPort _) as [ap|]; [rewrite fail_if_nil, orb_false_iff, Z.eqb_neq; naive_solver|naive_solver]. }
  assert (H3 : match h_TLS h with
               | None => []
               | Some t => fail_if (negb (beq (h_Transport h) HEPTLS)) c RHepTlsOnly [] ++
                           fail_if (negb (eqb (beq (ht_Cert t) []) (beq (ht_Key t) []))) c RHepTlsPair []
               end = [] <-> forall t, h_TLS h = Some t -> h_Transport h = HEPTLS /\ (ht_Cert t = [] <-> ht_Key t = [])).
  { destruct (h_TLS h) as [t|]; [|by split]. rewrite app_nil_iff, !fail_if_nil, !negb_false_iff, beq_eq, eqb_nil_iff.
    split; [by intros H ? [= <-]|]. intros H. by apply H. }
  rewrite H1, H3, negb_false_iff, !orb_true_iff, !beq_eq, Z.ltb_ge. split.
  - intros (X1 & X2 & X3 & X4). split_and!; [done|tauto|done|done].
  - intros (X1 & X2 & X3 & X4). split_and!; [done|tauto|done|done].
Qed.

(** ** The whole *)

(** The compiled fields are read by no later check but the carriers' own. *)
Lemma compiled_edge sw nets c :
  let c1 := with_edge (fun e => set_nets nets (set_switches sw e)) c in
  forall ks, with_edge (set_carriers ks) c1 = compiled sw nets ks c.
Proof. reflexivity. Qed.

(** A configuration without faults is valid. *)
Lemma validate_sound c c' : validate bcrypt_cost c = (c', []) -> Valid bcrypt_cost c c'.
Proof.
  unfold validate. destruct (validateEdge c) as [c1 f2] eqn:E2. destruct (validateCarriers c1) as [c2 f4] eqn:E4.
  rewrite pair_equal_spec, !app_nil_iff, topology_ok, rtp_ok, tls_ok_iff.
  intros (<- & ((P1 & P2 & P3 & P4) & [R1 R2] & T) & -> & A & -> & S & D & H & K).
  apply (edge_ok c c1 P3) in E2 as (sw & nets & -> & F1 & N & ND & NP & F2 & Pol & SP & Op & Po & Ap).
  apply carriers_ok in E4 as (ks & -> & F4 & ND4). apply (advertise_ok _ Ap) in A as [A1 A2].
  rewrite compiled_edge in *. apply shield_ok_iff in S; [|done..]. pose proof (proj1 (admin_ok_iff _) (conj D K)) as DA.
  split; try done; [by exists sw, nets, ks|]. by apply hep_ok_iff.
Qed.

(** A valid configuration has no fault. *)
Lemma validate_complete c c' : Valid bcrypt_cost c c' -> validate bcrypt_cost c = (c', []).
Proof.
  unfold validate. destruct (validateEdge c) as [c1 f2] eqn:E2. destruct (validateCarriers c1) as [c2 f4] eqn:E4.
  rewrite pair_equal_spec, !app_nil_iff, topology_ok, rtp_ok, tls_ok_iff.
  intros []. destruct v_compiled0 as (sw & nets & ks & -> & F1 & N & ND & NP & F2 & F4 & ND4).
  assert (X2 : (c1, f2) = (with_edge (fun e => set_nets nets (set_switches sw e)) c, [])).
  { rewrite <- E2. apply edge_ok; [done|]. exists sw, nets. split_and!; done. }
  injection X2 as -> ->.
  assert (X4 : (c2, f4) = (compiled sw nets ks c, [])).
  { rewrite <- E4. apply carriers_ok. exists ks. by rewrite compiled_edge. }
  injection X4 as -> ->. destruct v_rtp0. split; [done|].
  assert (A : admin_ok bcrypt_cost (compiled sw nets ks c)) by done. apply admin_ok_iff in A as [A1 A2].
  split_and!; try done; [by apply advertise_ok|by apply shield_ok_iff|by apply hep_ok_iff].
Qed.

End Bcrypt.
