(* ===== verification/NatForwards.v ===== *)
(** The NAT checklist (internal/config/nat.go): what the router in front of the
    edge must forward, and the text operators are shown. *)

From S2P Require Import Prelude GoTime Netip GoText GoEncoding SipAddr SipScan SipMsg Carriers Offenders Shield Topology CarrierRoute.
From S2P Require Import Dialog MediaAnchor Config ConfigSchema EnvExpand Validate ValidConfig.

Open Scope Z_scope.

Record NATForward := mkFwd { f_Proto : gostring; f_Ports : gostring; f_To : Z; f_Label : gostring }.

(** [NATForward.String] *)
Definition fwd_String (f : NATForward) : gostring :=
  f_Proto f ++ str "/" ++ f_Ports f ++
  (if negb (f_To f =? 0) then str "->" ++ int_string (f_To f) else []) ++
  (if negb (beq (f_Label f) []) && negb (beq (f_Label f) (f_Proto f)) then str " (" ++ f_Label f ++ str ")" else []).

Definition NATMode (c : Config) : bool := negb (addr_eqb (PublicBind c) (PublicIP c)) || PortTranslated c.

(** The forward of one listener. *)
Definition listener_forward (c : Config) (tr : gostring) : NATForward :=
  let port := Port (e_Listen (Edge c)) tr in
  let adv := AdvertisedPort c tr in
  mkFwd (if beq tr (str "udp") then str "udp" else str "tcp") (int_string adv) (if adv =? port then 0 else port) tr.

Definition rtp_forward (c : Config) : NATForward :=
  mkFwd (str "udp") (int_string (Min (RTP c)) ++ str "-" ++ int_string (Max (RTP c))) 0 (str "rtp").

Definition NATForwards (c : Config) : list NATForward :=
  if negb (NATMode c) then []
  else map (listener_forward c) (List.filter (fun tr => negb (Port (e_Listen (Edge c)) tr =? 0)) Transports) ++ [rtp_forward c].

(** [strings.Join] with a text between. *)
Fixpoint join_text (sep : gostring) (l : list gostring) : gostring :=
  match l with [] => [] | [s] => s | s :: l => s ++ sep ++ join_text sep l end.

Definition newline : gostring := [10].

Definition NATChecklist (c : Config) : gostring :=
  let fw := NATForwards c in
  if bool_decide (length fw = 0%nat) then []
  else
    let adv := map fwd_String fw in
    let req := map (fun s => str "  " ++ s) adv in
    str "NAT mode: advertised public endpoint = " ++ pub_IP (Public c) ++ str " (" ++ join_text (str " ") adv ++ str ")" ++ newline ++
    (if PortTranslated c
     then str "REQUIRED forwards -> " ++ pub_Bind (Public c) ++
          str " (external->internal where shown, else the same port number; the rtp range is never translated):" ++ newline ++
          join_text newline req ++ newline
     else str "REQUIRED forwards -> " ++ pub_Bind (Public c) ++ str " (same port numbers):" ++ newline ++ join_text newline req ++ newline) ++
    str "in-dialog requests (2xx ACK, BYE) use Contact/Record-Route, not Via:" ++ newline ++
    str "these ports MUST be reachable from clients." ++ newline.

(** ** What the checklist is worth *)

(** The rule of a forward: the external port and the internal one. *)
Definition forwards_to (f : NATForward) (external internal : Z) : Prop :=
  f_Ports f = int_string external /\ (if f_To f =? 0 then external else f_To f) = internal.

Section Bcrypt.
Variable bcrypt_cost : gostring -> option Z.

Lemma valid_listen c c' tr : Valid bcrypt_cost c c' -> e_Listen (Edge c') = e_Listen (Edge c) /\ AdvertisedPort c' tr = AdvertisedPort c tr /\
  RTP c' = RTP c.
Proof. intros H. destruct (v_compiled _ _ _ H) as (sw & nets & ks & -> & _). done. Qed.

Lemma advertised_bounds c c' tr : Valid bcrypt_cost c c' -> tr ∈ Transports -> Port (e_Listen (Edge c)) tr <> 0 ->
  1 <= Port (e_Listen (Edge c)) tr <= 65535 /\ 1 <= AdvertisedPort c tr <= 65535.
Proof.
  intros H Htr Hn. pose proof (v_ports _ _ _ H tr Htr) as Hp. pose proof (v_advertise _ _ _ H tr Htr) as Ha. unfold port_ok in *.
  unfold AdvertisedPort. replace (_ =? 0) with false by lia. destruct (negb _) eqn:E; [|lia]. destruct Ha; lia.
Qed.

(** In NAT mode the checklist of a valid configuration is complete and can
    be carried out: every open listener has one forward, from the port the
    edge advertises to the port it binds, both real ports, the media range is
    forwarded as it is, there is nothing else, and no two TCP forwards have the
    same external port; outside NAT mode there is no checklist. *)
Theorem nat_checklist_is_complete c0 c : Valid bcrypt_cost c0 c ->
  (NATMode c = false -> NATForwards c = [] /\ NATChecklist c = []) /\
  (NATMode c = true ->
     exists open, open = List.filter (fun tr => negb (Port (e_Listen (Edge c)) tr =? 0)) Transports /\ open <> [] /\
       NATForwards c = map (listener_forward c) open ++ [rtp_forward c] /\
       (forall tr, tr ∈ open -> let f := listener_forward c tr in
          forwards_to f (AdvertisedPort c tr) (Port (e_Listen (Edge c)) tr) /\
          1 <= AdvertisedPort c tr <= 65535 /\ 1 <= Port (e_Listen (Edge c)) tr <= 65535) /\
       (forall a b, a ∈ open -> b ∈ open -> a <> b -> f_Proto (listener_forward c a) = str "tcp" -> f_Proto (listener_forward c b) = str "tcp" ->
          AdvertisedPort c a <> AdvertisedPort c b)).
Proof.
  intros H. pose proof (fun tr => valid_listen c0 c tr H) as Hc. split.
  - intros Hn. unfold NATChecklist, NATForwards. by rewrite Hn.
  - intros Hn. exists (List.filter (fun tr => negb (Port (e_Listen (Edge c)) tr =? 0)) Transports).
    assert (Hin : forall tr, tr ∈ List.filter (fun tr => negb (Port (e_Listen (Edge c)) tr =? 0)) Transports <->
                             tr ∈ Transports /\ Port (e_Listen (Edge c0)) tr <> 0).
    { intros tr. rewrite list_elem_of_In, filter_In, <- list_elem_of_In. destruct (Hc tr) as (-> & _). by rewrite negb_true_iff, Z.eqb_neq. }
    split_and!; [done| |by unfold NATForwards; rewrite Hn| |].
    + destruct (v_open _ _ _ H) as (tr & Htr & Ho). intros E. assert (Hx : tr ∈ ([] : list gostring)) by (rewrite <- E; by apply Hin).
      by apply elem_of_nil in Hx.
    + intros tr [Htr Ho]%Hin. cbv zeta. destruct (Hc tr) as (El & Ea & _). rewrite El, Ea.
      destruct (advertised_bounds c0 c tr H Htr Ho) as [B1 B2]. split_and!; try lia. unfold forwards_to, listener_forward. cbn.
      rewrite El, Ea. split; [done|]. destruct (AdvertisedPort c0 tr =? Port (e_Listen (Edge c0)) tr) eqn:E.
      * cbn. lia.
      * by replace (Port (e_Listen (Edge c0)) tr =? 0) with false by lia.
    + intros a b [Ha Hoa]%Hin [Hb Hob]%Hin Hne Ta Tb. destruct (Hc a) as (_ & -> & _), (Hc b) as (_ & -> & _).
      assert (Hs : forall x, x ∈ Transports -> f_Proto (listener_forward c x) = str "tcp" -> x ∈ stream_transports).
      { intros x Hx Hp. unfold listener_forward in Hp. cbn in Hp. unfold Transports in Hx. apply elem_of_cons in Hx as [->|Hx]; [done|exact Hx]. }
      apply (v_advertised _ _ _ H); [by apply Hs..|done|]. destruct (advertised_bounds c0 c a H Ha Hoa). lia.
Qed.
End Bcrypt.
