(* ===== verification/ConfigReload.v ===== *)
(** Reloading the configuration: what a running process cannot change
    (internal/config/restart.go), the published snapshot and the last outcome
    (store.go), and the watcher of the file (reload.go).

    The watcher is a state machine over the events its [select] can take; the
    debounce timer is armed, has fired and is about to signal, or has
    signalled.  What a load of the file gives, what its path resolves to and
    the clock are arguments of the events, and the events come in any order the
    machine allows. *)

From stdpp Require Import sorting.
From S2P Require Import Prelude GoTime Netip GoText GoEncoding Carriers Offenders Shield Topology Config ConfigSchema.

Open Scope Z_scope.

(** ** Restart-only settings *)

(** [restartOnly]: each key and whether its value differs ([reflect.DeepEqual]
    of what the entry extracts). *)
Definition restartOnly : list (gostring * (Config -> Config -> bool)) :=
  [ (str "public", fun a b => bool_decide (Public a = Public b));
    (str "private", fun a b => bool_decide (Private a = Private b));
    (str "rtp", fun a b => bool_decide (RTP a = RTP b));
    (str "tls", fun a b => bool_decide (TLS a = TLS b));
    (str "edge.switch", fun a b => bool_decide (e_Switch (Edge a) = e_Switch (Edge b)));
    (str "edge.switch_carrier_port", fun a b => bool_decide (e_SwitchCarrierPort (Edge a) = e_SwitchCarrierPort (Edge b)));
    (str "edge.listen", fun a b => bool_decide (e_Listen (Edge a) = e_Listen (Edge b)));
    (str "edge.advertise", fun a b => bool_decide (e_Advertise (Edge a) = e_Advertise (Edge b)));
    (str "edge.carriers", fun a b => bool_decide (e_Carriers (Edge a) = e_Carriers (Edge b)));
    (str "edge.srtp", fun a b => bool_decide (e_SRTP (Edge a) = e_SRTP (Edge b)));
    (str "edge.allow_insecure_sdes", fun a b => bool_decide (e_AllowInsecureSDES (Edge a) = e_AllowInsecureSDES (Edge b)));
    (str "edge.allow_register_auth_mismatch",
       fun a b => bool_decide (e_AllowRegisterAuthMismatch (Edge a) = e_AllowRegisterAuthMismatch (Edge b)));
    (str "edge.carrier_sources", fun a b => bool_decide (e_CarrierSources (Edge a) = e_CarrierSources (Edge b)));
    (str "admin", fun a b => bool_decide (Admin a = Admin b));
    (str "hep", fun a b => bool_decide (HEP a = HEP b)) ].

Definition RestartOnlyChanges (running next : Config) : list gostring :=
  sort_strings (map fst (List.filter (fun kg => negb (kg.2 running next)) restartOnly)).

#[global] Arguments RestartOnlyChanges : simpl never.

(** ** The store *)

Record ReloadStatus := mkStatus {
  LastOK : Z; RestartRequired : option (list gostring); LastError : gostring; LastErrorAt : Z
}.

Definition zero_status : ReloadStatus := mkStatus zero_time None [] zero_time.

(** The snapshot is one atomic pointer, the status is under the mutex. *)
Record Store := mkStore { snapshot : Config; reload : ReloadStatus }.

Definition NewStore (c : Config) : Store := mkStore c zero_status.
Definition Current (s : Store) : Config := snapshot s.
Definition Replace (c : Config) (s : Store) : Store := mkStore c (reload s).

(** [Store.ReloadStatus]: never a nil list. *)
Definition read_status (s : Store) : ReloadStatus :=
  let st := reload s in
  mkStatus (LastOK st) (match RestartRequired st with None => Some [] | r => r end) (LastError st) (LastErrorAt st).

Definition reloadOK (at_ : Z) (restartRequired : list gostring) (s : Store) : Store :=
  mkStore (snapshot s) (mkStatus at_ (match restartRequired with [] => None | l => Some l end) [] zero_time).

Definition reloadFailed (at_ : Z) (err : gostring) (s : Store) : Store :=
  let st := reload s in mkStore (snapshot s) (mkStatus (LastOK st) (RestartRequired st) err at_).

(** ** The link tracker *)

(** [linkTracker]: the path, its directory, what it resolves to ([[]] is
    nothing) and the directories watched besides. *)
Record linkTracker := mkLinks { lt_abs : gostring; lt_dir : gostring; lt_target : gostring; lt_watched : list gostring }.

Section Paths.
(** filepath.Dir *)
Variable Dir : gostring -> gostring.

(** [follow], the path resolved ([None] is EvalSymlinks' error). *)
Definition follow (resolved : option gostring) (t : linkTracker) : bool * linkTracker :=
  let target := default [] resolved in
  if beq target (lt_target t) then (false, t)
  else (true, mkLinks (lt_abs t) (lt_dir t) target
                (if negb (beq target []) && negb (beq (Dir target) (lt_dir t)) then lt_watched t ++ [Dir target] else lt_watched t)).

Definition newLinkTracker (abs : gostring) (dir resolved : option gostring) : linkTracker :=
  (follow resolved (mkLinks abs (default (Dir abs) dir) [] [])).2.

Definition affects (name : gostring) (resolved : option gostring) (t : linkTracker) : bool * linkTracker :=
  if beq name (lt_abs t) || (negb (beq (lt_target t) []) && beq name (lt_target t))
  then (true, (follow resolved t).2)
  else follow resolved t.

(** ** The watcher *)

(** The debounce timer: armed or not, callbacks that have started and not yet
    signalled, and the one-place channel. *)
Record watcher := mkWatcher {
  w_armed : bool; w_running : nat; w_fire : bool;
  w_links : linkTracker; w_store : Store; w_boot : Config; w_done : bool
}.

Inductive watch_event :=
  | EvFile (op_write op_create op_rename : bool) (name : gostring) (resolved : option gostring)
  | EvWatchError
  | EvExpire                                   (* the timer runs out: its callback starts *)
  | EvSignal                                   (* the callback reaches the channel *)
  | EvFire (now : Z) (load : gostring + Config)   (* the loop takes the signal and loads the file *)
  | EvDone.                                    (* the context ends, or the event stream closes *)

(** [schedule]: stop the timer, arm a new one. *)
Definition schedule (w : watcher) : watcher :=
  mkWatcher true (w_running w) (w_fire w) (w_links w) (w_store w) (w_boot w) (w_done w).

(** The body of [case <-fire]. *)
Definition reload_now (now : Z) (load : gostring + Config) (boot : Config) (s : Store) : Store :=
  match load with
  | inl err => reloadFailed now err s
  | inr cfg => reloadOK now (RestartOnlyChanges boot cfg) (Replace cfg s)
  end.

#[local] Arguments reload_now : simpl never.
#[local] Arguments affects : simpl never.

(** One event; [None] when it cannot happen. *)
Definition watch_step (w : watcher) (e : watch_event) : option watcher :=
  match e with
  | EvExpire =>
      if w_armed w then Some (mkWatcher false (S (w_running w)) (w_fire w) (w_links w) (w_store w) (w_boot w) (w_done w)) else None
  | EvSignal =>
      match w_running w with
      | O => None
      | S n => Some (mkWatcher (w_armed w) n true (w_links w) (w_store w) (w_boot w) (w_done w))
      end
  | _ =>
      if w_done w then None
      else match e with
           | EvFile wr cr mv name resolved =>
               if wr || cr || mv then
                 let '(hit, links) := affects name resolved (w_links w) in
                 let w := mkWatcher (w_armed w) (w_running w) (w_fire w) links (w_store w) (w_boot w) (w_done w) in
                 Some (if (hit : bool) then schedule w else w)
               else Some w
           | EvFire now load =>
               if w_fire w
               then Some (mkWatcher (w_armed w) (w_running w) false (w_links w) (reload_now now load (w_boot w) (w_store w)) (w_boot w) (w_done w))
               else None
           | EvDone => Some (mkWatcher false (w_running w) (w_fire w) (w_links w) (w_store w) (w_boot w) true)
           | _ => Some w
           end
  end.

(** [Watch]: its state when it starts. *)
Definition Watch (abs : gostring) (dir resolved : option gostring) (s : Store) : watcher :=
  mkWatcher false 0 false (newLinkTracker abs dir resolved) s (Current s) false.

Fixpoint watch_run (w : watcher) (es : list watch_event) : option watcher :=
  match es with
  | [] => Some w
  | e :: es => match watch_step w e with Some w' => watch_run w' es | None => None end
  end.

(** ** What a run of the watcher leaves *)

(** The loads of a run, oldest first. *)
Definition loads (es : list watch_event) : list (Z * (gostring + Config)) :=
  flat_map (fun e => match e with EvFire now load => [(now, load)] | _ => [] end) es.

(** What the store should say after those loads, having started with [boot]:
    the specification the watcher refines. *)
Definition last_good (boot : Config) (l : list (Z * (gostring + Config))) : Config :=
  fold_left (fun c x => match x.2 with inr c' => c' | inl _ => c end) l boot.

Definition last_good_at (l : list (Z * (gostring + Config))) : Z :=
  fold_left (fun t x => match x.2 with inr _ => x.1 | inl _ => t end) l zero_time.

Definition last_error (l : list (Z * (gostring + Config))) : gostring * Z :=
  match last l with Some (now, inl err) => (err, now) | _ => ([], zero_time) end.

(** A load is owed: the timer runs, or its signal is on its way. *)
Definition owed (w : watcher) : bool := w_armed w || (0 <? w_running w)%nat || w_fire w.

(** An event that may have changed the file, of a watcher in that state. *)
Definition touches (w : watcher) (e : watch_event) : bool :=
  match e with
  | EvFile wr cr mv name resolved => (wr || cr || mv) && (affects name resolved (w_links w)).1
  | _ => false
  end.

(** The cases of a step that can happen. *)
Ltac step_cases H :=
  unfold watch_step in H; repeat (case_match; try discriminate H); injection H as <-; cbn.

Lemma watch_step_boot w e w' : watch_step w e = Some w' -> w_boot w' = w_boot w.
Proof. intros H. destruct e; step_cases H; reflexivity. Qed.

Definition is_load (e : watch_event) : bool := match e with EvFire _ _ => true | _ => false end.

Lemma watch_step_owed w e w' : watch_step w e = Some w' -> owed w = true \/ touches w e = true ->
  is_load e = false -> e <> EvDone -> owed w' = true.
Proof.
  unfold owed. destruct e as [wr cr mv name res| | | |now load|]; cbn; intros H Ho Hl Hd; try done.
  - destruct (w_done w); [done|]. destruct (wr || cr || mv) eqn:Eo; [|injection H as <-; by destruct Ho].
    cbn in Ho. destruct (affects name res (w_links w)) as [hit links]. injection H as <-. cbn in Ho. destruct hit; cbn; [done|].
    by destruct Ho.
  - destruct (w_done w); [done|]. injection H as <-. by destruct Ho.
  - destruct (w_armed w); [|done]. injection H as <-. cbn. done.
  - destruct (w_running w); [done|]. injection H as <-. cbn. by rewrite orb_true_r.
Qed.

Lemma watch_step_store w e w' : watch_step w e = Some w' ->
  w_store w' = match e with EvFire now load => reload_now now load (w_boot w) (w_store w) | _ => w_store w end.
Proof. intros H. destruct e; step_cases H; reflexivity. Qed.

(** [s] says what the loads [l] made of it. *)
Definition store_says (boot : Config) (l : list (Z * (gostring + Config))) (s : Store) : Prop :=
  Current s = last_good boot l /\
  LastOK (read_status s) = last_good_at l /\
  (LastError (read_status s), LastErrorAt (read_status s)) = last_error l /\
  RestartRequired (read_status s) = Some (RestartOnlyChanges boot (last_good boot l)).

Lemma filter_negb_none {A} (f : A -> bool) l : Forall (fun x => f x = true) l -> List.filter (fun x => negb (f x)) l = [].
Proof. induction 1 as [|x l Hx Hl IH]; [done|]. cbn [List.filter]. by rewrite Hx. Qed.

Lemma changes_self c : RestartOnlyChanges c c = [].
Proof.
  unfold RestartOnlyChanges. rewrite (filter_negb_none (fun kg : gostring * (Config -> Config -> bool) => kg.2 c c)); [done|].
  unfold restartOnly. repeat (apply Forall_cons_2; [cbn [snd]; by apply bool_decide_eq_true|]). apply Forall_nil_2.
Qed.

Lemma reload_now_says boot l s now load : store_says boot l s -> store_says boot (l ++ [(now, load)]) (reload_now now load boot s).
Proof.
  unfold store_says, last_good, last_good_at, last_error. rewrite !fold_left_app, last_snoc. intros (H1 & H2 & H3 & H4).
  unfold reload_now. destruct load as [err|cfg]; cbn in *; split_and!; try done. by destruct (RestartOnlyChanges boot cfg).
Qed.

Lemma watch_run_says es : forall w w' l, watch_run w es = Some w' -> store_says (w_boot w) l (w_store w) ->
  store_says (w_boot w) (l ++ loads es) (w_store w').
Proof.
  induction es as [|e es IH]; intros w w' l Hr Hs; cbn in Hr.
  - injection Hr as <-. by rewrite app_nil_r.
  - destruct (watch_step w e) as [w1|] eqn:E; [|done]. pose proof (watch_step_boot _ _ _ E) as Hb.
    pose proof (watch_step_store _ _ _ E) as Hst. rewrite <- Hb.
    assert (Hl : loads (e :: es) = loads [e] ++ loads es) by (cbn; by rewrite app_nil_r). rewrite Hl, app_assoc.
    apply (IH w1); [done|]. rewrite Hb, Hst. destruct e; cbn; rewrite ?app_nil_r; try done. by apply reload_now_says.
Qed.

(** C17: Whatever happens to the file, in whatever order its events, the
    debounce timer and the loads come, the store says what the loads say:
    the snapshot is the last configuration that loaded (the one the process
    started with until then), so a file that does not load changes nothing
    but the error that is reported; the error reported is that of the last
    load, if it failed; and the settings reported as waiting for a restart are
    those in which the process's own configuration and the snapshot differ. *)
Theorem reloads_keep_the_last_good_config abs dir resolved c es w :
  watch_run (Watch abs dir resolved (NewStore c)) es = Some w ->
  Current (w_store w) = last_good c (loads es) /\
  LastOK (read_status (w_store w)) = last_good_at (loads es) /\
  (LastError (read_status (w_store w)), LastErrorAt (read_status (w_store w))) = last_error (loads es) /\
  RestartRequired (read_status (w_store w)) = Some (RestartOnlyChanges c (last_good c (loads es))).
Proof.
  intros H. apply (watch_run_says es _ _ [] H). unfold store_says. cbn. by rewrite changes_self.
Qed.

Lemma owed_until_load es : forall w w', watch_run w es = Some w' -> owed w = true -> existsb is_load es = false -> EvDone ∉ es -> owed w' = true.
Proof.
  induction es as [|e es IH]; intros w w' Hr Ho Hl Hd; cbn [watch_run existsb] in *; [by injection Hr as <-|].
  destruct (watch_step w e) as [w1|] eqn:E; [|done]. apply orb_false_iff in Hl as [Hl1 Hl2].
  rewrite elem_of_cons in Hd. apply (IH w1); try done; [|by intros Hx; apply Hd; right].
  apply (watch_step_owed w e); auto; intros ->; apply Hd; by left.
Qed.

(** From a state that owes a load the machine's own steps lead to one. *)
Lemma owed_leads w : owed w = true -> w_done w = false -> forall now load,
  exists es w1 w2, forallb (fun e => match e with EvExpire | EvSignal => true | _ => false end) es = true /\ (length es <= 2)%nat /\
    watch_run w es = Some w1 /\ watch_step w1 (EvFire now load) = Some w2.
Proof.
  unfold owed. intros Ho Hd now load. destruct (w_fire w) eqn:Ef.
  - exists [], w. cbn. rewrite Hd, Ef. eexists. split_and!; [done|lia|done..].
  - destruct (w_running w) as [|n] eqn:En.
    + destruct (w_armed w) eqn:Ea; [|done]. exists [EvExpire; EvSignal]. cbn. rewrite Ea. cbn. rewrite ?Hd. cbn.
      eexists _, _. split_and!; [done|lia|done|]. cbn. by rewrite ?Hd.
    + exists [EvSignal]. cbn. rewrite En. cbn. eexists _, _. split_and!; [done|lia|done|]. cbn. by rewrite ?Hd.
Qed.

(** C18: No change of the file is lost: after an event that may have changed it,
    and whatever follows, until the file is loaded again or the watcher is
    stopped a load stays due, and the timer and its signal alone lead to it. *)
Theorem no_change_is_missed w e w1 es w2 : watch_step w e = Some w1 -> touches w e = true ->
  watch_run w1 es = Some w2 -> existsb is_load es = false -> EvDone ∉ es -> w_done w = false ->
  owed w2 = true /\
  (forall now load, exists us w3 w4,
     forallb (fun e => match e with EvExpire | EvSignal => true | _ => false end) us = true /\ (length us <= 2)%nat /\
     watch_run w2 us = Some w3 /\ watch_step w3 (EvFire now load) = Some w4 /\
     w_store w4 = reload_now now load (w_boot w) (w_store w2)).
Proof.
  intros Hs Ht Hr Hl Hd Hn.
  assert (He : is_load e = false /\ e <> EvDone) by (destruct e; done). destruct He as [He1 He2].
  assert (Ho1 : owed w1 = true) by (apply (watch_step_owed w e); auto).
  assert (Ho2 : owed w2 = true) by (by apply (owed_until_load es w1)). split; [done|]. intros now load.
  assert (Hk : forall es w w', watch_run w es = Some w' -> EvDone ∉ es -> w_done w' = w_done w /\ w_boot w' = w_boot w).
  { clear. induction es as [|e es IH]; intros w w' Hr Hd; cbn in Hr; [by injection Hr as <-|].
    destruct (watch_step w e) as [w1|] eqn:E; [|done]. rewrite elem_of_cons in Hd.
    destruct (IH _ _ Hr ltac:(by intros ?; apply Hd; right)) as [-> ->]. split; [|by eapply watch_step_boot].
    destruct e; cbn in E; repeat case_match; try (injection E as <-); try done. destruct Hd. by left. }
  assert (K1 : w_done w1 = w_done w /\ w_boot w1 = w_boot w).
  { apply (Hk [e]); [cbn; by rewrite Hs|]. intros [E|E%elem_of_nil]%elem_of_cons; [congruence|done]. }
  destruct (Hk _ _ _ Hr Hd) as [D B]. destruct K1 as [D1 B1].
  destruct (owed_leads w2 Ho2 ltac:(congruence) now load) as (us & w3 & w4 & U & L & R3 & R4).
  exists us, w3, w4. split_and!; try done. rewrite (watch_step_store _ _ _ R4).
  assert (Hus : Forall (fun e => e = EvExpire \/ e = EvSignal) us).
  { apply Forall_forall. intros x Hx%list_elem_of_In. rewrite forallb_forall in U. specialize (U x Hx). destruct x; auto; done. }
  assert (S3 : w_store w3 = w_store w2 /\ w_boot w3 = w_boot w2).
  { clear -R3 Hus. revert w2 R3. induction Hus as [|x us Hx Hus IH]; intros w2 R3; cbn in R3; [by injection R3 as <-|].
    destruct (watch_step w2 x) as [w'|] eqn:E; [|done]. destruct (IH _ R3) as [-> ->].
    rewrite (watch_step_store _ _ _ E), (watch_step_boot _ _ _ E). by destruct Hx as [->| ->]. }
  destruct S3 as [-> ->]. by rewrite B, B1.
Qed.
End Paths.
