(* ===== verification/ConfigServe.v ===== *)
(** From the configuration to the edge: what a configuration that [Parse]
    accepted gives the components built from it ([Topology.buildTopology],
    [Carriers.newCarrierDirectory]), and configurations that are run. *)

From stdpp Require Import sorting.
From S2P Require Import Prelude GoTime Netip GoText GoEncoding SipAddr SipScan SipMsg SdpParse Offenders Shield Carriers Topology CarrierRoute.
From S2P Require Import Dialog MediaAnchor Config ConfigSchema EnvExpand Validate ValidConfig NatForwards ConfigReload.

Open Scope Z_scope.

(** ** The carrier directory *)

(** The directory the edge starts with. *)
Definition directory_of (c : Config) : carrierDirectory :=
  newCarrierDirectory (map vc_Carrier (e_carriers (Edge c))) (CarrierNets c) (CarrierSourceNets c).

Lemma fold_add_net l : forall ns q, q ∈ fold_left add_net l ns <-> q ∈ ns \/ q ∈ l.
Proof.
  induction l as [|p l IH]; intros ns q; cbn [fold_left].
  - split; [by left|]. by intros [?|?%elem_of_nil].
  - rewrite IH, add_net_in, elem_of_cons. tauto.
Qed.

Lemma publish_one_nets entries s c q : q ∈ nets s -> q ∈ nets (publish_one entries s c).
Proof.
  intros H. unfold publish_one. destruct (Literal c); [cbn; apply add_net_in; by left|].
  destruct (entries !! c_name c); [cbn; apply fold_add_hosts; by left|done].
Qed.

Lemma publish_fold_nets entries cs : forall s q, q ∈ nets s -> q ∈ nets (fold_left (publish_one entries) cs s).
Proof. induction cs as [|c cs IH]; intros s q H; [done|]. cbn [fold_left]. apply IH. by apply publish_one_nets. Qed.

(** Every static prefix is matched. *)
Lemma static_is_source carriers static extra p ip : p ∈ static -> prefix_contains p (plain ip) = true ->
  isSource (d_snap (newCarrierDirectory carriers static extra)) ip = true.
Proof.
  intros Hp Hc. unfold isSource, newCarrierDirectory, publish. cbn [d_snap nets d_static d_carriers d_entries d_extra].
  apply existsb_exists. exists p. split; [|done]. apply list_elem_of_In. rewrite merge_sort_Permutation.
  apply publish_fold_nets. cbn. apply fold_add_net. by right.
Qed.

(** Masking a prefix does not change what it contains. *)
Lemma mask_shift n b w : 0 <= b <= w -> Z.shiftr (Z.shiftl (Z.shiftr n (w - b)) (w - b)) (w - b) = Z.shiftr n (w - b).
Proof. intros H. rewrite Z.shiftr_shiftl_l by lia. rewrite Z.sub_diag. apply Z.shiftl_0_r. Qed.

Lemma masked_contains p ip : prefix_contains (masked p) ip = prefix_contains p ip.
Proof.
  unfold masked, prefix_contains. destruct (p_addr p) as [|n|n z] eqn:E; cbn; [by rewrite E|..].
  - destruct ip as [|m|m z']; try done. destruct ((0 <=? p_bits p) && (p_bits p <=? 32)) eqn:B; [|done]. rewrite mask_shift by lia. done.
  - destruct ip as [|m|m [|]]; try done. destruct ((0 <=? p_bits p) && (p_bits p <=? 128)) eqn:B; [|done]. rewrite mask_shift by lia. done.
Qed.

Lemma unmap_twice a : unmap (unmap a) = unmap a.
Proof.
  destruct a as [|n|n z]; try done. unfold unmap at 2 3. destruct (is4in6 (V6 n z)) eqn:E; [done|]. unfold unmap. by rewrite E.
Qed.

Lemma finishCarrierHost_addr h p host port addr : finishCarrierHost h p = inr (host, port, addr) -> unmap addr = addr.
Proof.
  unfold finishCarrierHost. destruct (parse_addr h) as [a|].
  - case_if; [done|]. intros [= _ _ <-]. apply unmap_twice.
  - cbv zeta. case_if; [done|]. by intros [= _ _ <-].
Qed.

Lemma ParseCarrierHost_addr s host port addr : ParseCarrierHost s = inr (host, port, addr) -> unmap addr = addr.
Proof. unfold ParseCarrierHost. intros H. repeat case_match; try done; by eapply finishCarrierHost_addr. Qed.

(** ** The network model *)

Lemma nodes_of_switches cfg l : forall (m : gmap gostring endpoint),
  (forall n e, m !! n = Some e -> n = addrport_string (ep_addr e)) ->
  let ups := fold_left (fun m ap => <[addrport_string ap := endpoint_of cfg ap]> m) l m in
  (forall n e, ups !! n = Some e -> ep_addr e ∈ l \/ m !! n = Some e) /\
  (forall ap, ap ∈ l -> is_Some (ups !! addrport_string ap)) /\ (forall n, is_Some (m !! n) -> is_Some (ups !! n)).
Proof.
  induction l as [|ap l IH]; intros m Hm; cbn [fold_left]; cbv zeta.
  - split; [by intros n e ?; right|]. split; [by intros ap ?%elem_of_nil|done].
  - destruct (IH (<[addrport_string ap := endpoint_of cfg ap]> m)) as (H1 & H2 & H3).
    { intros n e. destruct (decide (addrport_string ap = n)) as [<-|Hn]; [rewrite lookup_insert_eq; by intros [= <-]|].
      rewrite lookup_insert_ne by done. apply Hm. }
    split_and!.
    + intros n e He. destruct (H1 n e He) as [?|Hi]; [left; by right|].
      destruct (decide (addrport_string ap = n)) as [<-|Hn]; [rewrite lookup_insert_eq in Hi; injection Hi as <-; left; by left|].
      rewrite lookup_insert_ne in Hi by done. by right.
    + intros ap' [->|Hin]%elem_of_cons; [|by apply H2]. apply H3. rewrite lookup_insert_eq. by eexists.
    + intros n [e He]. apply H3. destruct (decide (addrport_string ap = n)) as [<-|Hn]; [rewrite lookup_insert_eq; by eexists|].
      rewrite lookup_insert_ne by done. by eexists.
Qed.

(** The public side of an open listener. *)
Lemma listeners_built cfg trs : NoDup trs -> forall (m : gmap gostring side) tr, tr ∈ trs -> Listen cfg tr <> 0 ->
  fold_left (fun m tr => if Listen cfg tr =? 0 then m else <[tr := listener_side cfg tr]> m) trs m !! tr = Some (listener_side cfg tr).
Proof.
  assert (K : forall trs (m : gmap gostring side) tr, tr ∉ trs ->
    fold_left (fun m tr => if Listen cfg tr =? 0 then m else <[tr := listener_side cfg tr]> m) trs m !! tr = m !! tr).
  { clear. induction trs as [|x trs IH]; intros m tr Hn; [done|]. cbn [fold_left]. apply not_elem_of_cons in Hn as [Hx Hn].
    rewrite IH by done. case_if; [done|]. by rewrite lookup_insert_ne. }
  induction 1 as [|x trs Hx Hnd IH]; intros m tr Hin Ho; [by apply elem_of_nil in Hin|]. cbn [fold_left].
  apply elem_of_cons in Hin as [->|Hin]; [|by apply IH]. rewrite K by done. replace (_ =? 0) with false by lia. by rewrite lookup_insert_eq.
Qed.

Lemma carriers_keep_sides cfg cs : forall (m : gmap gostring side) tr s, m !! tr = Some s ->
  fold_left (fun (m : gmap gostring side) c => if bool_decide (is_Some (m !! c_transport c)) || beq (c_transport c) CarrierUDP then m
                 else <[c_transport c := carrier_side cfg (c_transport c)]> m) cs m !! tr = Some s.
Proof.
  induction cs as [|c cs IH]; intros m tr s H; [done|]. cbn [fold_left]. apply IH.
  case_bool_decide as Hs; [done|]. cbn. case_if; [done|]. rewrite lookup_insert_ne; [done|]. intros E. apply Hs. rewrite E. by eexists.
Qed.

Section Bcrypt.
Variable bcrypt_cost : gostring -> option Z.

Lemma Forall2_in_r {A B} (R : A -> B -> Prop) l k y : Forall2 R l k -> y ∈ k -> exists x, x ∈ l /\ R x y.
Proof.
  induction 1 as [|a b l k Hab H IH]; [by intros ?%elem_of_nil|]. intros [->|Hy]%elem_of_cons; [exists a; split; [by left|done]|].
  destruct (IH Hy) as (x & Hx & Hr). exists x. split; [by right|done].
Qed.

(** C16: An edge built from a configuration that passed validation can serve:
    whatever user a call names and whichever nodes are cooling down, it has a
    switch node to go to, one of those configured: an address that is no
    wildcard as it is written (its IPv4-mapped form is not recognised), with a
    port, and never the edge's own private socket; every open listener has a
    side that names the public address and the port advertised for it; and every
    address inside a configured source prefix, as it was written, and every
    literal carrier is a known carrier source from the start. *)
Theorem a_valid_config_serves c0 c : Valid bcrypt_cost c0 c ->
  let t := buildTopology (topo_of c) (PrivateAddr c) in
  (forall user av, exists n e, selectUpstream t user av = Some (n, Some e) /\
     (exists s, s ∈ of_slice (e_Switch (Edge c)) /\ ip_port s (ep_addr e)) /\ ep_addr e <> PrivateAddr c) /\
  (forall tr, tr ∈ Transports -> Port (e_Listen (Edge c)) tr <> 0 ->
     exists s, public t !! tr = Some s /\ sd_advIP s = PublicIP c /\ sd_advPort s = AdvertisedPort c tr) /\
  (forall s q ip, s ∈ of_slice (e_CarrierSources (Edge c)) -> parsePrefixOrAddr s = Some q ->
     prefix_contains (plain_prefix q) (plain ip) = true -> isSource (d_snap (directory_of c)) ip = true) /\
  (forall k, k ∈ e_carriers (Edge c) -> Literal (vc_Carrier k) = true ->
     isSource (d_snap (directory_of c)) (c_addr (vc_Carrier k)) = true).
Proof.
  intros H. destruct (v_compiled _ _ _ H) as (sw & nets & ks & -> & F1 & N & ND & NP & F2 & F4 & ND4). cbv zeta.
  set (c := compiled sw nets ks c0) in *. set (t := buildTopology (topo_of c) (PrivateAddr c)).
  split_and!.
  - intros user av. destruct (nodes_of_switches (topo_of c) sw ∅ ltac:(intros n e; by rewrite lookup_empty)) as (U1 & U2 & _).
    destruct (buildTopology_names (topo_of c) (PrivateAddr c)) as [_ Hn]. fold t in Hn.
    assert (Hne : upstreamDialOrder t user av <> []).
    { intros E. pose proof (dial_order_perm t user av) as Hp. rewrite E in Hp. destruct sw as [|ap sw]; [done|].
      assert (Hx : addrport_string ap ∈ ([] : list gostring)) by (rewrite Hp; apply Hn, U2; by left). by apply elem_of_nil in Hx. }
    unfold selectUpstream. destruct (upstreamDialOrder t user av) as [|n ns] eqn:Eo; [done|].
    assert (Hin : n ∈ upstreamNames t) by (rewrite <- (dial_order_perm t user av), Eo; by left).
    apply Hn in Hin as [e He]. exists n, e. rewrite He. split; [done|].
    destruct (U1 n e He) as [Hsw|Hc]; [|by rewrite lookup_empty in Hc]. split; [by apply (Forall2_in_r _ _ _ _ F1)|].
    intros E. apply NP. by rewrite E in Hsw.
  - intros tr Htr Ho. exists (listener_side (topo_of c) tr). split; [|done].
    unfold t, buildTopology. cbn [public]. apply carriers_keep_sides, listeners_built; [|done..].
    apply (bool_decide_unpack _). vm_compute. exact I.
  - intros s q ip Hs Hq Hc. apply Forall2_flip in F2.
    destruct (Forall2_in_r _ _ _ _ F2 Hs) as (p & Hp & (q' & Hq' & _ & _ & ->)).
    rewrite Hq in Hq'. injection Hq' as <-. apply (static_is_source _ _ _ (masked (plain_prefix q))); [|by rewrite masked_contains].
    unfold CarrierNets. apply elem_of_app. by left.
  - intros k Hk Hl. destruct (Forall2_in_r _ _ _ _ F4 Hk) as (name & _ & (cc & ho & po & a & _ & _ & _ & Hh & -> & _)). cbn in Hl |- *.
    apply ParseCarrierHost_addr in Hh. apply (static_is_source _ _ _ (host_prefix a)).
    + unfold CarrierNets. apply elem_of_app. right. apply list_elem_of_In, in_map_iff. eexists. split; [|apply filter_In; split; [by apply list_elem_of_In|done]].
      done.
    + unfold plain. rewrite Hh. by apply host_prefix_contains.
Qed.
End Bcrypt.

(** ** Configurations that are run *)

Definition no_shield : ShieldSection := mkSection (mkSCfg [] [] 0 [] [] []) 0 [].

Definition demo_carriers : gmap gostring CarrierConfig :=
  {[ str "acme" := mkCC (str "SIP.acme.example.") [] [] [] [] [];
     str "beta" := mkCC (str "192.0.2.7:5070") (str "tls") [] [] [] (str "required") ]}.

Definition demo_edge : EdgeConfig :=
  mkEdge (Some [str "10.0.0.11:5060"; str "10.0.0.12:5060"]) 0 (mkPorts 5060 5060 5061 0 7443) (mkPorts 16060 0 0 0 0)
    (Some demo_carriers) (Some [str "198.51.100.9/24"; str "::ffff:203.0.113.0/120"]) [] false false [] [] [].

(** A file with a variable, and everything optional left out. *)
Definition demo_file : Config :=
  mkConfig (mkPublic (str "${PUB}") (str "192.168.1.5")) (mkPrivate (str "10.0.0.1")) (mkRange 0 0) (Some (mkTLS (str "c.pem") (str "k.pem")))
    demo_edge no_shield (Some (mkAdmin (str "127.0.0.1:8080") (str "hash") false None false)) None no_redaction.

Definition demo_env (n : gostring) : option gostring := if beq n (str "PUB") then Some (str "203.0.113.5") else None.
Definition demo_cost (h : gostring) : option Z := Some 12.
Definition demo_order : list gostring := [str "beta"; str "acme"].

Definition demo_read : Config :=
  withDefaults (match expandEnv demo_env demo_order demo_file with inr c => c | inl _ => demo_file end).
Definition demo_config : Config := (validate demo_cost demo_read).1.

Example demo_parses :
  match Parse demo_cost demo_env demo_order demo_file with
  | inr c => e_switches (Edge c) = [mkAddrPort (ip4 10 0 0 11) 5060; mkAddrPort (ip4 10 0 0 12) 5060] /\
             e_carrierNets (Edge c) = [mkPrefix (ip4 198 51 100 0) 24; mkPrefix (ip4 203 0 113 0) 24] /\
             map vc_Carrier (e_carriers (Edge c)) =
               [mkCarrier (str "acme") (str "sip.acme.example") 5060 false AddrZero (str "udp");
                mkCarrier (str "beta") (str "192.0.2.7") 5070 true (ip4 192 0 2 7) (str "tls")] /\
             s_MaxSessions (ShieldCfg c) = 5000
  | inl _ => False
  end.
Proof. vm_compute. done. Qed.

(** The faults of one file are reported together. *)
Example faults_are_collected :
  let bad := mkConfig (mkPublic (str "0.0.0.0") (str "10.0.0.1")) (mkPrivate (str "10.0.0.1")) (mkRange 20000 29999) None
               (mkEdge (Some [str "10.0.0.1:5060"; str "switch:5060"]) 0 (mkPorts 0 5060 0 5060 0) (mkPorts 16060 0 0 0 0) None None [] false false [] [] [])
               no_shield None None no_redaction in
  map f_reason (validate demo_cost (withDefaults bad)).2 =
    [RUnspecified; RSameSides; RSwitchIsPrivate; RNotLiteral; RListenTaken; RAdvertiseUnset].
Proof. vm_compute. reflexivity. Qed.

(** A mapped wildcard is taken for a specific address, and is the wildcard
    once unmapped. *)
Definition wildcard_config : Config :=
  mkConfig (mkPublic (str "203.0.113.5") (str "::ffff:0.0.0.0")) (mkPrivate (str "10.0.0.1")) (mkRange 0 0) None
    (mkEdge (Some [str "10.0.0.11:5060"]) 0 (mkPorts 5060 0 0 0 0) (mkPorts 0 0 0 0 0) None None [] false false [] [] [])
    no_shield None None no_redaction.

Example mapped_wildcard_is_bound :
  let '(c, f) := validate demo_cost (withDefaults wildcard_config) in f = [] /\ PublicBind c = V4 0 /\ is_unspecified (PublicBind c) = true.
Proof. vm_compute. done. Qed.

(** Part of an expanded value is in the message about a switch. *)
Definition secret_switch : Config :=
  mkConfig (mkPublic (str "203.0.113.5") []) (mkPrivate (str "10.0.0.1")) (mkRange 0 0) None
    (mkEdge (Some [str "${SW}"]) 0 (mkPorts 5060 0 0 0 0) (mkPorts 0 0 0 0 0) None None [] false false [] [] [])
    no_shield None None no_redaction.

Example switch_message_leaks :
  Parse demo_cost (fun n => if beq n (str "SW") then Some (str "s3cret.internal:5060") else None) [] secret_switch
  = inl (ParseInvalid [mkFault RNotLiteral [AStr (str "edge.switch[0]"); AStr (str "s3cret.internal")]]).
Proof. vm_compute. reflexivity. Qed.

(** A listener may advertise a port of the media range. *)
Definition overlapping_config : Config :=
  mkConfig (mkPublic (str "203.0.113.5") (str "192.168.1.5")) (mkPrivate (str "10.0.0.1")) (mkRange 20000 29999) None
    (mkEdge (Some [str "10.0.0.11:5060"]) 0 (mkPorts 5060 0 0 0 0) (mkPorts 20000 0 0 0 0) None None [] false false [] [] [])
    no_shield None None no_redaction.

Example media_port_is_advertised :
  let '(c, f) := validate demo_cost (withDefaults overlapping_config) in
  f = [] /\ map fwd_String (NATForwards c) = [str "udp/20000->5060"; str "udp/20000-29999 (rtp)"].
Proof. vm_compute. done. Qed.

(** ** Witnesses *)

Lemma expansion_is_one_pass_witness :
  walk_order demo_order demo_file /\
  expandEnv demo_env demo_order demo_file = inr (set_redact (envRedact demo_read) (each_text (subst demo_env) demo_file)) /\
  subst demo_env (str "${PUB}:5060") = str "203.0.113.5:5060".
Proof.
  assert (Ho : walk_order demo_order demo_file) by (unfold walk_order; apply (bool_decide_unpack _); vm_compute; exact I).
  destruct (expansion_is_one_pass demo_env demo_order demo_file Ho) as (H & _ & Ht). split; [exact Ho|]. split.
  - destruct H as [r Hr].
    + apply Forall_forall. intros s Hs. unfold text_ok. revert s Hs. apply Forall_forall.
      assert (E : forallb (fun s => bool_decide (malformedRef s = None) &&
                forallb (fun p => match p with PByte _ => true | PRef n => bool_decide (is_Some (demo_env n)) end) (env_pieces s)) (texts demo_file) = true)
        by (vm_compute; reflexivity).
      apply Forall_forall. intros s Hs%list_elem_of_In. rewrite forallb_forall in E. specialize (E s Hs).
      apply andb_true_iff in E as [E1 E2]. split; [by apply bool_decide_eq_true in E1|].
      apply Forall_forall. intros p Hp%list_elem_of_In. rewrite forallb_forall in E2. specialize (E2 p Hp).
      destruct p; [done|]. by apply bool_decide_eq_true in E2.
    + unfold demo_read, withDefaults. rewrite Hr. reflexivity.
  - destruct (Ht (PRef (str "PUB") :: map PByte (str ":5060"))) as [_ E].
    + repeat constructor; done.
    + repeat constructor. by eexists.
    + exact E.
Defined.

Lemma demo_valid : Valid demo_cost demo_read demo_config.
Proof. apply validate_sound. vm_compute. reflexivity. Qed.

Lemma a_valid_config_serves_witness :
  Valid demo_cost demo_read demo_config /\
  isSource (d_snap (directory_of demo_config)) (ip4 198 51 100 77) = true /\
  isSource (d_snap (directory_of demo_config)) (ip4 192 0 2 7) = true /\
  (exists n e, selectUpstream (buildTopology (topo_of demo_config) (PrivateAddr demo_config)) (str "alice") (fun _ => false) = Some (n, Some e) /\
     ep_addr e <> PrivateAddr demo_config).
Proof.
  destruct (a_valid_config_serves demo_cost demo_read demo_config demo_valid) as (H1 & _ & H3 & H4).
  split; [exact demo_valid|]. split; [|split].
  - apply (H3 (str "198.51.100.9/24") (mkPrefix (ip4 198 51 100 9) 24)); [|vm_compute; reflexivity..].
    vm_compute. apply elem_of_cons. by left.
  - apply (H4 (nth 1 (e_carriers (Edge demo_config)) (mkVC (mkCarrier [] [] 0 false AddrZero []) [] [] [] []))); [|vm_compute; reflexivity].
    apply list_elem_of_In, nth_In. vm_compute. lia.
  - destruct (H1 (str "alice") (fun _ => false)) as (n & e & E & _ & Hne). exists n, e. split; [exact E|exact Hne].
Defined.

Lemma nat_checklist_is_complete_witness :
  NATMode demo_config = true /\
  map fwd_String (NATForwards demo_config) =
    [str "udp/16060->5060"; str "tcp/5060"; str "tcp/5061 (tls)"; str "tcp/7443 (wss)"; str "udp/20000-29999 (rtp)"] /\
  AdvertisedPort demo_config (str "tls") <> AdvertisedPort demo_config (str "wss").
Proof.
  destruct (nat_checklist_is_complete demo_cost demo_read demo_config demo_valid) as [_ H].
  destruct H as (open & Ho & _ & Hf & _ & Hd); [vm_compute; reflexivity|]. split; [vm_compute; reflexivity|]. split.
  - rewrite Hf, Ho. vm_compute. reflexivity.
  - apply Hd; [subst open; apply (bool_decide_unpack _); vm_compute; exact I..|by apply beq_false|reflexivity|reflexivity].
Defined.

(** *** A run of the watcher *)

Definition demo_dir (p : gostring) : gostring := match last_index_byte p 47 with Some i => take i p | None => str "." end.
Definition demo_path : gostring := str "/etc/freesbc.yaml".
Definition other_ban : Config :=
  mkConfig (Public demo_config) (Private demo_config) (mkRange 30000 30999) (TLS demo_config) (Edge demo_config)
    (ShieldCfg demo_config) (Admin demo_config) (HEP demo_config) (envRedact demo_config).
Definition demo_events : list watch_event :=
  [EvFile true false false demo_path (Some demo_path); EvExpire; EvSignal; EvFire 100 (inl (str "bad"));
   EvFile false true false demo_path (Some demo_path); EvFile true false false demo_path (Some demo_path); EvExpire; EvSignal;
   EvFire 200 (inr other_ban)].
Definition demo_watch : watcher := Watch demo_dir demo_path (Some (str "/etc")) (Some demo_path) (NewStore demo_config).

Lemma reloads_keep_the_last_good_config_witness :
  exists w, watch_run demo_dir demo_watch demo_events = Some w /\ Current (w_store w) = other_ban /\
    RestartRequired (read_status (w_store w)) = Some [str "rtp"] /\ LastError (read_status (w_store w)) = [].
Proof.
  destruct (watch_run demo_dir demo_watch demo_events) as [w|] eqn:E; [|vm_compute in E; discriminate E]. exists w.
  destruct (reloads_keep_the_last_good_config demo_dir demo_path (Some (str "/etc")) (Some demo_path) demo_config demo_events w E)
    as (H1 & _ & H3 & H4). split; [reflexivity|]. split; [rewrite H1; reflexivity|]. split.
  - rewrite H4. vm_compute. reflexivity.
  - injection H3 as H3 _. exact H3.
Defined.

Lemma no_change_is_missed_witness :
  exists w1 w2, watch_step demo_dir demo_watch (EvFile true false false demo_path (Some demo_path)) = Some w1 /\
    watch_run demo_dir w1 [EvExpire; EvFile true false false (str "/etc/other") (Some demo_path); EvSignal] = Some w2 /\ owed w2 = true.
Proof.
  destruct (watch_step demo_dir demo_watch (EvFile true false false demo_path (Some demo_path))) as [w1|] eqn:E1; [|vm_compute in E1; discriminate E1].
  destruct (watch_run demo_dir w1 [EvExpire; EvFile true false false (str "/etc/other") (Some demo_path); EvSignal]) as [w2|] eqn:E2.
  2: { vm_compute in E1. injection E1 as <-. vm_compute in E2. discriminate E2. }
  exists w1, w2. split; [reflexivity|]. split; [exact E2|].
  refine (proj1 (no_change_is_missed demo_dir demo_watch _ w1 _ w2 E1 _ E2 _ _ _)); [vm_compute; reflexivity|reflexivity| |reflexivity].
  intros Hd. repeat (apply elem_of_cons in Hd as [Hd|Hd]; [discriminate Hd|]). by apply elem_of_nil in Hd.
Defined.
