(* ===== verification/AdminAuth.v ===== *)
(** Who may use the admin server (internal/admin: guard.go, session.go, the
    routes, the auth limiter and the verified credentials of server.go).

    - [hostPolicy], [originAllowed] and [guard]: the checks before any auth;
    - [authLimiter], [verifiedCreds], [sessionStore]: the three tables, each
      operation one critical section;
    - [admin_step]: requests served concurrently.  A request is a small
      program; a step runs one critical section of one of them, and the steps
      of different requests interleave freely.

    net/http hands a request over as its parsed fields.  The password hash
    comparison (golang.org/x/crypto/bcrypt), the random bytes, the clock and the
    order in which a Go map is walked are arguments.  The audit log and the
    handlers behind the authentication are not modelled here. *)

From S2P Require Import Prelude GoTime Netip GoText GoEncoding GoHash SipAddr SipScan SipMsg Carriers Offenders Shield Topology CarrierRoute.
From S2P Require Import Dialog MediaAnchor Config ConfigSchema EnvExpand Validate.

Open Scope Z_scope.

(** ** Requests *)

Record request := mkHReq {
  h_Path : gostring; h_Method : gostring; h_Host : gostring; h_RemoteAddr : gostring;
  h_Origin : gostring; h_FetchSite : gostring; h_FetchMode : gostring;     (* [[]]: no such header *)
  h_Basic : option (gostring * gostring); h_Cookie : gostring;
  h_Body : option gostring                                                  (* the password of a JSON body *)
}.

(** ** The Host and Origin checks *)

Record hostPolicy := mkPolicy { hp_port : gostring; hp_defPort : bool; hp_names : gset gostring; hp_anyIP : bool }.

Definition loopback_names : list gostring := [str "localhost"; str "127.0.0.1"; str "::1"].

Definition newHostPolicy (listen : gostring) (allowed : list gostring) (tls : bool) : hostPolicy :=
  match ParseAddrPort listen with
  | None => mkPolicy [] false ∅ false
  | Some ap =>
      let addr := unmap (ap_addr ap) in
      let names : gset gostring := if is_unspecified addr then ∅ else {[addr_string addr]} in
      let names := if is_loopback addr then list_to_set loopback_names ∪ names else names in
      mkPolicy (int_string (ap_port ap)) (ap_port ap =? (if tls then 443 else 80))
        (list_to_set (map CanonicalHost allowed) ∪ names) (is_unspecified addr)
  end.

(** [strings.Trim(s, "[]")] *)
Definition trim_brackets (s : gostring) : gostring :=
  trim_right (fun c => mem c [91; 93]) (trim_left (fun c => mem c [91; 93]) s).

(** [hostPolicy.allows] *)
Definition allows (p : hostPolicy) (hostport : gostring) : bool :=
  let '(host, port) := match split_host_port hostport with Some hp => hp | None => (trim_brackets hostport, []) end in
  if beq host [] then false
  else if (if beq port [] then negb (hp_defPort p) else negb (beq port (hp_port p))) then false
  else
    let host := CanonicalHost host in
    if bool_decide (host ∈ hp_names p) then true
    else hp_anyIP p && bool_decide (is_Some (parse_addr host)).

Definition originAllowed (r : request) (tls : bool) : bool :=
  if negb (beq (h_Origin r) [])
  then equal_fold (h_Origin r) ((if tls then str "https" else str "http") ++ str "://" ++ h_Host r)
  else beq (h_FetchSite r) (str "same-origin").

Definition safe_method (m : gostring) : bool := beq m (str "GET") || beq m (str "HEAD") || beq m (str "OPTIONS").

Definition healthz : gostring := str "/healthz".

(** [guardMW]: the refusal, if any. *)
Definition guard (p : hostPolicy) (tls : bool) (r : request) : option Z :=
  if beq (h_Path r) healthz then None
  else if negb (allows p (h_Host r)) then Some 421
  else if negb (safe_method (h_Method r)) && negb (originAllowed r tls) then Some 403
  else None.

(** What [handler]'s mux does with a path: everything but these is behind
    [requireAuth].  The redirects of a path the mux would clean are left out. *)
Inductive route := RtHealthz | RtLogin | RtLogout | RtLoginPage | RtAssets | RtAuth.

Definition route_of (path : gostring) : route :=
  if beq path healthz then RtHealthz
  else if beq path (str "/api/login") then RtLogin
  else if beq path (str "/api/logout") then RtLogout
  else if beq path (str "/login") then RtLoginPage
  else if has_prefix path (str "/assets/") then RtAssets
  else RtAuth.

(** ** The failure limiter *)

Definition authFailLimit : Z := 10.
Definition authFailWindow : Z := minute.
Definition authFailMaxIPs : nat := 4096.

Record authFailEntry := mkFail { fe_start : Z; fe_failures : Z; fe_denied : bool }.

Record authSlot := mkSlot { sl_key : gostring; sl_start : Z }.

Abbreviation authLimiter := (gmap gostring authFailEntry).

Definition limiterKey (ip : gostring) : gostring :=
  match parse_addr ip with
  | None => ip
  | Some a => let a := unmap a in
              if is4 a then addr_string a else addr_string (mask64 (with_zone a [])) ++ str "/64"
  end.

Definition in_window (now : Z) (w : authFailEntry) : bool := time_sub now (fe_start w) <? authFailWindow.

(** [over] *)
Definition over (l : authLimiter) (ip : gostring) (now : Z) : bool :=
  match l !! limiterKey ip with Some w => in_window now w && (authFailLimit <=? fe_failures w) | None => false end.

(** The first of the keys, in the order the map is walked, that no other beats. *)
Definition first_best {V} (better : V -> V -> bool) (order : list gostring) (m : gmap gostring V) : option gostring :=
  fst <$> fold_left (fun best k =>
    match m !! k with
    | None => best
    | Some v => match best with
                | None => Some (k, v)
                | Some (_, b) => if better v b then Some (k, v) else best
                end
    end) order None.

Definition drop_best {V} (better : V -> V -> bool) (order : list gostring) (m : gmap gostring V) : gmap gostring V :=
  match first_best better order m with Some k => delete k m | None => m end.

(** [evictLocked] *)
Definition matters_less (a b : authFailEntry) : bool :=
  (fe_failures a <? fe_failures b) || ((fe_failures a =? fe_failures b) && time_before (fe_start a) (fe_start b)).
Definition evictLocked (order : list gostring) (l : authLimiter) : authLimiter := drop_best matters_less order l.

(** [countLocked] *)
Definition countLocked (key : gostring) (now : Z) (order : list gostring) (l : authLimiter) : Z * authLimiter :=
  let fresh :=
    let l := filter (fun kv => in_window now kv.2 = true) l in
    let l := if bool_decide (l !! key = None) && (authFailMaxIPs <=? size l)%nat then evictLocked order l else l in
    (mkFail now 0 false, l) in
  let '(w, l) := match l !! key with
                 | Some w => if in_window now w then (w, l) else fresh
                 | None => fresh
                 end in
  (fe_start w, <[key := mkFail (fe_start w) (fe_failures w + 1) (fe_denied w)]> l).

(** [reserve]: a slot, or the refusal and whether it is the window's first. *)
Definition reserve (ip : gostring) (now : Z) (order : list gostring) (l : authLimiter) : (authSlot + bool) * authLimiter :=
  let key := limiterKey ip in
  let count := let '(start, l) := countLocked key now order l in (inl (mkSlot key start), l) in
  match l !! key with
  | Some w => if in_window now w && (authFailLimit <=? fe_failures w)
              then (inr (negb (fe_denied w)), <[key := mkFail (fe_start w) (fe_failures w) true]> l)
              else count
  | None => count
  end.

(** [refund] *)
Definition refund (s : authSlot) (l : authLimiter) : authLimiter :=
  match l !! sl_key s with
  | Some w => if (fe_start w =? sl_start s) && (0 <? fe_failures w)
              then <[sl_key s := mkFail (fe_start w) (fe_failures w - 1) (fe_denied w)]> l else l
  | None => l
  end.

(** ** Credentials already verified *)

Definition verifiedCredsMax : nat := 16.
Definition verifiedCredsTTL : Z := hour.

(** crypto/hmac with SHA-256, for a key of at most a block. *)
Definition hmac_sha256 (key msg : list Z) : list Z :=
  let pad x := map (fun b => Z.lxor b x) (key ++ replicate (64 - length key) 0) in
  Sum256 (pad 92 ++ Sum256 (pad 54 ++ msg)).

(** [digestLocked] *)
Definition cred_digest (key : list Z) (hash user pass : gostring) : gostring :=
  hmac_sha256 key (flat_map (fun part => be 8 (len part) ++ part) [hash; user; pass]).

Definition verified_has (d : gostring) (now : Z) (seen : gmap gostring Z) : bool * gmap gostring Z :=
  match seen !! d with
  | Some last => if verifiedCredsTTL <=? time_sub now last then (false, seen) else (true, <[d := now]> seen)
  | None => (false, seen)
  end.

Definition verified_add (d : gostring) (now : Z) (order : list gostring) (seen : gmap gostring Z) : gmap gostring Z :=
  let seen := if bool_decide (seen !! d = None) && (verifiedCredsMax <=? size seen)%nat then drop_best time_before order seen else seen in
  <[d := now]> seen.

(** ** Sessions *)

Definition sessionIdleTimeout : Z := 30 * minute.
Definition sessionMaxAge : Z := 12 * hour.
Definition sessionMax : nat := 8.

Record session := mkSession { se_created : Z; se_last : Z }.

Abbreviation sessionStore := (gmap gostring session).

Definition sessionKey (id : gostring) : gostring := Sum256 id.

Definition expiredLocked (s : session) (now : Z) : bool :=
  (sessionIdleTimeout <=? time_sub now (se_last s)) || (sessionMaxAge <=? time_sub now (se_created s)).

Definition pruneLocked (now : Z) (st : sessionStore) : sessionStore := filter (fun kv => expiredLocked kv.2 now = false) st.

(** [base64.RawURLEncoding] *)
Definition raw_url_encode (bs : list Z) : gostring :=
  flat_map (fun c => if c =? 43 then [45] else if c =? 47 then [95] else if c =? b64_pad then [] else [c]) (b64_encode bs).

Definition older (a b : session) : bool := time_before (se_created a) (se_created b).

(** The loop that makes room; each turn takes one out. *)
Fixpoint make_room (fuel : nat) (order : list gostring) (st : sessionStore) : sessionStore :=
  match fuel with
  | O => st
  | S fuel => if (sessionMax <=? size st)%nat then make_room fuel order (drop_best older order st) else st
  end.

(** [sessionStore.create] *)
Definition create (raw : list Z) (now : Z) (order : list gostring) (st : sessionStore) : gostring * sessionStore :=
  let id := raw_url_encode raw in
  let st := pruneLocked now st in
  (id, <[sessionKey id := mkSession now now]> (make_room (size st) order st)).

Definition valid (id : gostring) (now : Z) (st : sessionStore) : bool * sessionStore :=
  if beq id [] then (false, st)
  else match st !! sessionKey id with
       | None => (false, st)
       | Some s => if expiredLocked s now then (false, delete (sessionKey id) st)
                   else (true, <[sessionKey id := mkSession (se_created s) now]> st)
       end.

Definition drop_session (id : gostring) (now : Z) (st : sessionStore) : bool * sessionStore :=
  if beq id [] then (false, st)
  else match st !! sessionKey id with
       | None => (false, st)
       | Some s => (negb (expiredLocked s now), delete (sessionKey id) st)
       end.

(** ** Requests in flight *)

Definition AdminUser : gostring := str "admin".

(** [remoteIP] *)
Definition remoteIP (r : request) : gostring :=
  match split_host_port (h_RemoteAddr r) with Some (host, _) => host | None => h_RemoteAddr r end.

(** [noCredentials]: the status. *)
Definition noCredentials (r : request) : Z :=
  if beq (h_FetchMode r) (str "navigate") && (beq (h_Method r) (str "GET") || beq (h_Method r) (str "HEAD")) then 303 else 401.

(** What a request offers to the limiter: Basic credentials, or the form. *)
Inductive cred := CBasic (user pass : gostring) | CForm (pass : gostring).

(** The critical section a request is at. *)
Inductive phase :=
  | AtSession | AtVerified (user pass : gostring) | AtReserve (c : cred)
  | AtBcrypt (c : cred) (s : authSlot) (t : Z) | AtRefund (c : cred) (s : authSlot) | AtGrant (c : cred) | AtDrop.

(** What is said of a request, with the time it was said. *)
Inductive outcome :=
  | Public (r : request)                                (* /healthz, the login page, its assets *)
  | Answered (r : request) (code : Z)
  | Limited (r : request) (key : gostring) (now : Z)       (* 429 *)
  | BadGuess (r : request) (c : cred) (s : authSlot) (t : Z)  (* 401 after a comparison; the slot and when it was taken *)
  | GoodGuess (r : request) (c : cred)                      (* the comparison succeeded *)
  | LoggedIn (r : request) (id : gostring) (now : Z)
  | Remembered (user pass : gostring) (now : Z)
  | LoggedOut (r : request) (now : Z)
  | ServedSession (r : request) (now : Z)
  | ServedBasic (r : request) (user pass : gostring) (now : Z).

Record admin := mkAdminState {
  ad_limiter : authLimiter; ad_verified : gmap gostring Z; ad_sessions : sessionStore;
  ad_flight : gmap nat (request * phase); ad_log : list outcome       (* newest first *)
}.

Definition no_admin : admin := mkAdminState ∅ ∅ ∅ ∅ [].

Section Server.
(** bcrypt.CompareHashAndPassword gives no error; the per-process HMAC key. *)
Variable bcrypt_ok : gostring -> gostring -> bool.
Variable hmac_key : list Z.
(** The startup admin section and whether the listener serves TLS. *)
Variable cfg : AdminConfig.
Variable useTLS : bool.

Definition hosts : hostPolicy := newHostPolicy (a_Listen cfg) (of_slice (a_AllowedHosts cfg)) useTLS.
Definition hash : gostring := a_PasswordHash cfg.

(** A request as it reaches its handler: answered at once, or its first
    critical section. *)
Definition dispatch (r : request) : list outcome + phase :=
  match guard hosts useTLS r with
  | Some code => inl [Answered r code]
  | None =>
      match route_of (h_Path r) with
      | RtHealthz | RtLoginPage | RtAssets => inl [Public r]
      | RtAuth => inr AtSession
      | RtLogin =>
          if negb (beq (h_Method r) (str "POST")) then inl [Answered r 405]
          else match h_Body r with None => inl [Answered r 400] | Some p => inr (AtReserve (CForm p)) end
      | RtLogout => if negb (beq (h_Method r) (str "POST")) then inl [Answered r 405] else inr AtDrop
      end
  end.

(** The user and the password agree: the form's user is always admin. *)
Definition cred_ok (c : cred) : bool :=
  match c with CBasic u p => beq u AdminUser && bcrypt_ok hash p | CForm p => bcrypt_ok hash p end.

(** One critical section: what is said, and the next phase ([None]: done).
    The tables are changed in place. *)
Definition advance (r : request) (ph : phase) (now : Z) (order : list gostring) (raw : list Z) (a : admin)
  : list outcome * option phase * (authLimiter * gmap gostring Z * sessionStore) :=
  let l := ad_limiter a in let v := ad_verified a in let st := ad_sessions a in
  match ph with
  | AtSession =>
      let '(live, st) := valid (h_Cookie r) now st in
      if (live : bool) then ([ServedSession r now], None, (l, v, st))
      else match h_Basic r with
           | None => ([Answered r (noCredentials r)], None, (l, v, st))
           | Some (u, p) => ([], Some (AtVerified u p), (l, v, st))
           end
  | AtVerified u p =>
      let '(known, v) := verified_has (cred_digest hmac_key hash u p) now v in
      if (known : bool) then ([ServedBasic r u p now], None, (l, v, st))
      else ([], Some (AtReserve (CBasic u p)), (l, v, st))
  | AtReserve c =>
      match reserve (remoteIP r) now order l with
      | (inl s, l) => ([], Some (AtBcrypt c s now), (l, v, st))
      | (inr _, l) => ([Limited r (limiterKey (remoteIP r)) now], None, (l, v, st))
      end
  | AtBcrypt c s t =>
      if cred_ok c then ([GoodGuess r c], Some (AtRefund c s), (l, v, st)) else ([BadGuess r c s t], None, (l, v, st))
  | AtRefund c s => ([], Some (AtGrant c), (refund s l, v, st))
  | AtGrant (CBasic u p) =>
      ([ServedBasic r u p now; Remembered u p now], None, (l, verified_add (cred_digest hmac_key hash u p) now order v, st))
  | AtGrant (CForm p) =>
      let '(id, st) := create raw now order st in ([LoggedIn r id now], None, (l, v, st))
  | AtDrop => let '(_, st) := drop_session (h_Cookie r) now st in ([LoggedOut r now], None, (l, v, st))
  end.

Inductive admin_event :=
  | EArrive (i : nat) (r : request)
  | EStep (i : nat) (now : Z) (order : list gostring) (raw : list Z).

Definition admin_step (a : admin) (e : admin_event) : option admin :=
  match e with
  | EArrive i r =>
      match ad_flight a !! i with
      | Some _ => None
      | None =>
          match dispatch r with
          | inl out => Some (mkAdminState (ad_limiter a) (ad_verified a) (ad_sessions a) (ad_flight a) (out ++ ad_log a))
          | inr ph => Some (mkAdminState (ad_limiter a) (ad_verified a) (ad_sessions a) (<[i := (r, ph)]> (ad_flight a)) (ad_log a))
          end
      end
  | EStep i now order raw =>
      match ad_flight a !! i with
      | None => None
      | Some (r, ph) =>
          let '(out, next, (l, v, st)) := advance r ph now order raw a in
          Some (mkAdminState l v st (match next with Some ph => <[i := (r, ph)]> (ad_flight a) | None => delete i (ad_flight a) end)
                  (out ++ ad_log a))
      end
  end.

Fixpoint admin_run (a : admin) (es : list admin_event) : option admin :=
  match es with
  | [] => Some a
  | e :: es => match admin_step a e with Some a' => admin_run a' es | None => None end
  end.
End Server.
