(* ===== verification/AdminSafety.v ===== *)
(** What the admin server's authentication is worth.

    [every_served_request_was_authenticated] holds of every run of
    [AdminAuth.admin_step], that is of every interleaving of the requests'
    critical sections. *)

From S2P Require Import Prelude GoTime Netip GoText GoEncoding GoHash SipAddr SipScan SipMsg Carriers Offenders Shield Topology CarrierRoute.
From S2P Require Import Dialog MediaAnchor Config ConfigSchema EnvExpand Validate AdminAuth.

Open Scope Z_scope.

#[local] Arguments sessionKey : simpl never.
#[local] Arguments cred_digest : simpl never.
#[local] Arguments sessionMaxAge : simpl never.

Section Server.
Variable bcrypt_ok : gostring -> gostring -> bool.
Variable hmac_key : list Z.
Variable cfg : AdminConfig.
Variable useTLS : bool.

Abbreviation step := (admin_step bcrypt_ok hmac_key cfg useTLS).
Abbreviation run := (admin_run bcrypt_ok hmac_key cfg useTLS).
Abbreviation digest := (cred_digest hmac_key (hash cfg)).
Abbreviation good := (cred_ok bcrypt_ok cfg).

(** ** Authentication *)

(** The request passed the Host check and, unless its method is safe, the
    Origin check. *)
Definition guarded (r : request) : Prop :=
  allows (hosts cfg useTLS) (h_Host r) = true /\ (safe_method (h_Method r) = true \/ originAllowed r useTLS = true).

(** No logout of that session. *)
Definition not_logged_out (key : gostring) (l : list outcome) : Prop :=
  forall r now, LoggedOut r now ∈ l -> h_Cookie r <> [] -> sessionKey (h_Cookie r) <> key.

(** What each thing said owes to what was said before it. *)
Definition just (x : outcome) (before : list outcome) : Prop :=
  match x with
  | Public r => route_of (h_Path r) = RtHealthz \/ route_of (h_Path r) = RtLoginPage \/ route_of (h_Path r) = RtAssets
  | ServedSession r now =>
      guarded r /\ exists r' id t m1 m2, before = m1 ++ LoggedIn r' id t :: m2 /\ sessionKey id = sessionKey (h_Cookie r) /\
        not_logged_out (sessionKey id) m1 /\ now - t < sessionMaxAge
  | ServedBasic r u p now =>
      guarded r /\ h_Basic r = Some (u, p) /\
      exists r' p', GoodGuess r' (CBasic AdminUser p') ∈ before /\ bcrypt_ok (hash cfg) p' = true /\ digest u p = digest AdminUser p'
  | LoggedIn r id t => guarded r /\ exists p, h_Body r = Some p /\ bcrypt_ok (hash cfg) p = true
  | _ => True
  end.

Fixpoint log_ok (l : list outcome) : Prop := match l with [] => True | x :: l => just x l /\ log_ok l end.

Lemma log_ok_split l1 x l2 : log_ok (l1 ++ x :: l2) -> just x l2.
Proof. induction l1 as [|y l1 IH]; cbn; [by intros []|]. intros [_ H]. by apply IH. Qed.

Definition session_ok (log : list outcome) (key : gostring) (s : session) : Prop :=
  exists r id m1 m2, log = m1 ++ LoggedIn r id (se_created s) :: m2 /\ sessionKey id = key /\ not_logged_out key m1.

Definition verified_ok (log : list outcome) (d : gostring) : Prop :=
  exists r p, GoodGuess r (CBasic AdminUser p) ∈ log /\ bcrypt_ok (hash cfg) p = true /\ digest AdminUser p = d.

Definition cred_of (r : request) (c : cred) : Prop :=
  match c with CBasic u p => h_Basic r = Some (u, p) | CForm p => h_Body r = Some p end.

Definition phase_ok (log : list outcome) (r : request) (ph : phase) : Prop :=
  guarded r /\
  match ph with
  | AtSession | AtDrop => True
  | AtVerified u p => h_Basic r = Some (u, p)
  | AtReserve c | AtBcrypt c _ _ => cred_of r c
  | AtRefund c _ | AtGrant c => cred_of r c /\ good c = true /\ GoodGuess r c ∈ log
  end.

Record admin_inv (a : admin) : Prop := {
  ai_log : log_ok (ad_log a);
  ai_sessions : forall k s, ad_sessions a !! k = Some s -> session_ok (ad_log a) k s;
  ai_verified : forall d t, ad_verified a !! d = Some t -> verified_ok (ad_log a) d;
  ai_flight : forall i r ph, ad_flight a !! i = Some (r, ph) -> phase_ok (ad_log a) r ph
}.

(** *** The tables *)

Lemma drop_best_sub {V} (better : V -> V -> bool) order m k (v : V) : drop_best better order m !! k = Some v -> m !! k = Some v.
Proof. unfold drop_best. destruct (first_best better order m) as [x|]; [|done]. rewrite lookup_delete_Some. by intros []. Qed.

Lemma make_room_sub fuel order : forall st k s, make_room fuel order st !! k = Some s -> st !! k = Some s.
Proof.
  induction fuel as [|fuel IH]; intros st k s H; cbn in H; [done|]. case_if_in H; [|done]. apply IH in H. by apply drop_best_sub in H.
Qed.

Lemma create_sub raw now order st id st' k s : create raw now order st = (id, st') -> st' !! k = Some s ->
  (k = sessionKey id /\ s = mkSession now now) \/ st !! k = Some s.
Proof.
  unfold create. intros [= <- <-]. rewrite lookup_insert_Some. intros [[<- <-]|[_ H]]; [by left|]. right.
  apply make_room_sub in H. apply map_lookup_filter_Some in H. by destruct H.
Qed.

Lemma valid_spec id now st live st' : valid id now st = (live, st') ->
  (live = true -> exists s, st !! sessionKey id = Some s /\ now - se_created s < sessionMaxAge) /\
  (forall k s, st' !! k = Some s -> exists s0, st !! k = Some s0 /\ se_created s0 = se_created s).
Proof.
  unfold valid. case_if; [intros [= <- <-]; split; [done|by eauto]|].
  destruct (st !! sessionKey id) as [s|] eqn:E; [|intros [= <- <-]; split; [done|by eauto]].
  destruct (expiredLocked s now) eqn:Ex; intros [= <- <-].
  - split; [done|]. intros k s'. rewrite lookup_delete_Some. intros [_ H]. by eauto.
  - split.
    + intros _. exists s. split; [done|]. unfold expiredLocked in Ex. apply orb_false_iff in Ex as [_ Ex]. apply Z.leb_gt in Ex.
      by apply time_sub_lt_iff in Ex.
    + intros k s'. rewrite lookup_insert_Some. intros [[<- <-]|[_ H]]; [by exists s|by eauto].
Qed.

Lemma drop_session_spec id now st b st' : drop_session id now st = (b, st') ->
  (forall k s, st' !! k = Some s -> st !! k = Some s) /\ (id <> [] -> st' !! sessionKey id = None).
Proof.
  unfold drop_session. case_if; [apply beq_eq in Heqb0 as ->; intros [= <- <-]; by split|].
  destruct (st !! sessionKey id) as [s|] eqn:E; intros [= <- <-]; [|by split].
  split; [intros k s'; rewrite lookup_delete_Some; by intros []|]. intros _. apply lookup_delete_eq.
Qed.

Lemma verified_add_sub d now order seen k t : verified_add d now order seen !! k = Some t -> k = d \/ is_Some (seen !! k).
Proof.
  unfold verified_add. rewrite lookup_insert_Some. intros [[<- _]|[_ H]]; [by left|]. right.
  case_if_in H; [apply drop_best_sub in H|]; by eexists.
Qed.

Lemma verified_has_spec d now seen b seen' : verified_has d now seen = (b, seen') ->
  (b = true -> is_Some (seen !! d)) /\ (forall k t, seen' !! k = Some t -> is_Some (seen !! k)).
Proof.
  unfold verified_has. destruct (seen !! d) as [last|] eqn:E; [|intros [= <- <-]; split; [done|by eexists]].
  case_if; intros [= <- <-]; (split; [done|]); intros k t.
  - by eexists.
  - rewrite lookup_insert_Some. intros [[<- _]|[_ H]]; by eexists.
Qed.

(** *** More is said *)

Lemma session_ok_more log out k s : session_ok log k s -> not_logged_out k out -> session_ok (out ++ log) k s.
Proof.
  intros (r & id & m1 & m2 & -> & Hk & Hn) Ho. exists r, id, (out ++ m1), m2. rewrite <- app_assoc. split_and!; [done..|].
  intros r' now [H|H]%elem_of_app; [by apply (Ho r' now)|by apply (Hn r' now)].
Qed.

Lemma verified_ok_more log out d : verified_ok log d -> verified_ok (out ++ log) d.
Proof. intros (r & p & H & ? & ?). exists r, p. split_and!; try done. apply elem_of_app. by right. Qed.

Lemma phase_ok_more log out r ph : phase_ok log r ph -> phase_ok (out ++ log) r ph.
Proof.
  intros [Hg H]. split; [done|]. destruct ph; try done; destruct H as (? & ? & H); split_and!; try done; apply elem_of_app; by right.
Qed.

Lemma dispatch_ok r : match dispatch cfg useTLS r with
  | inl out => forall log, log_ok log -> log_ok (out ++ log)
  | inr ph => forall log, phase_ok log r ph
  end.
Proof.
  unfold dispatch, guard. destruct (beq (h_Path r) healthz) eqn:Eh.
  { apply beq_eq in Eh. rewrite Eh. replace (route_of healthz) with RtHealthz by done. intros log Hl. cbn. rewrite Eh. split; [by left|done]. }
  destruct (allows _ _) eqn:Ea; cbn [negb]; [|intros log Hl; by split].
  destruct (negb (safe_method (h_Method r)) && negb (originAllowed r useTLS)) eqn:Eo; [intros log Hl; by split|].
  assert (Hg : guarded r).
  { split; [done|]. destruct (safe_method (h_Method r)); [by left|]. right. by destruct (originAllowed r useTLS). }
  destruct (route_of (h_Path r)) eqn:Er; try (intros log Hl; cbn; rewrite Er; by split; auto).
  - case_if; [intros log Hl; by split|]. destruct (h_Body r) as [p|] eqn:Eb; [|intros log Hl; by split]. intros log. by split.
  - case_if; [intros log Hl; by split|]. intros log. by split.
  - intros log. by split.
Qed.

(** One critical section. *)
Lemma advance_ok a i r ph now order raw out next l v st :
  admin_inv a -> ad_flight a !! i = Some (r, ph) -> advance bcrypt_ok hmac_key cfg r ph now order raw a = (out, next, (l, v, st)) ->
  log_ok (out ++ ad_log a) /\
  (forall k s, st !! k = Some s -> session_ok (out ++ ad_log a) k s) /\
  (forall d t, v !! d = Some t -> verified_ok (out ++ ad_log a) d) /\
  (forall ph', next = Some ph' -> phase_ok (out ++ ad_log a) r ph').
Proof.
  intros [Hl Hs Hv Hf] Hi. pose proof (Hf _ _ _ Hi) as [Hg Hp].
  assert (Hs0 : forall out, (forall k, not_logged_out k out) -> forall k s, ad_sessions a !! k = Some s -> session_ok (out ++ ad_log a) k s).
  { intros out0 Hn k s H. apply session_ok_more; [by apply Hs|apply Hn]. }
  assert (Hv0 : forall out, forall d t, ad_verified a !! d = Some t -> verified_ok (out ++ ad_log a) d).
  { intros out0 d t H. apply verified_ok_more. by eapply Hv. }
  assert (Hq : forall x, (forall r' n, x <> LoggedOut r' n) -> forall k, not_logged_out k [x]).
  { intros x Hx k r' n [E|E%elem_of_nil]%elem_of_cons; [|done]. by apply eq_sym, Hx in E. }
  assert (Hq0 : forall k, not_logged_out k []) by (intros k r' n E%elem_of_nil; done).
  unfold advance. destruct ph as [|u p|c|c s t|c s|c|].
  - destruct (valid (h_Cookie r) now (ad_sessions a)) as [live st0] eqn:Ev. destruct (valid_spec _ _ _ _ _ Ev) as [V1 V2].
    assert (Hst : forall out, (forall k, not_logged_out k out) -> forall k s, st0 !! k = Some s -> session_ok (out ++ ad_log a) k s).
    { intros out0 Hn k s H. destruct (V2 k s H) as (s0 & H0 & E0). destruct (Hs0 out0 Hn k s0 H0) as (r' & id & m1 & m2 & E & ? & ?).
      exists r', id, m1, m2. by rewrite <- E0. }
    destruct live.
    + intros [= <- <- <- <- <-]. destruct (V1 eq_refl) as (s & Hk & Hage).
      refine (conj _ (conj (Hst _ (Hq _ _)) (conj (Hv0 [_]) _))); [|done..].
      cbn. split; [|done]. split; [done|]. destruct (Hs _ _ Hk) as (r' & id & m1 & m2 & E & Eid & Hn).
      exists r', id, (se_created s), m1, m2. by rewrite Eid.
    + destruct (h_Basic r) as [[u p]|] eqn:Eb; intros [= <- <- <- <- <-].
      * refine (conj _ (conj (Hst [] Hq0) (conj (Hv0 []) _))); [done|]. intros ph' [= <-]. by split.
      * by refine (conj _ (conj (Hst _ (Hq _ _)) (conj (Hv0 [_]) _))).
  - destruct (verified_has (digest u p) now (ad_verified a)) as [known v0] eqn:Ev. destruct (verified_has_spec _ _ _ _ _ Ev) as [V1 V2].
    assert (Hvv : forall out d t, v0 !! d = Some t -> verified_ok (out ++ ad_log a) d) by (intros out0 d t H; destruct (V2 d t H); by eauto).
    destruct known; intros [= <- <- <- <- <-].
    + refine (conj _ (conj (Hs0 _ (Hq _ _)) (conj (Hvv [_]) _))); [|done..].
      cbn. split; [|done]. split; [done|]. split; [done|]. destruct (V1 eq_refl) as [t Ht]. destruct (Hv _ _ Ht) as (r' & p' & ? & ? & E).
      exists r', p'. by rewrite E.
    + refine (conj _ (conj (Hs0 [] Hq0) (conj (Hvv []) _))); [done|]. intros ph' [= <-]. by split.
  - destruct (reserve (remoteIP r) now order (ad_limiter a)) as [[s|b] l0]; intros [= <- <- <- <- <-].
    + refine (conj _ (conj (Hs0 [] Hq0) (conj (Hv0 []) _))); [done|]. intros ph' [= <-]. by split.
    + by refine (conj _ (conj (Hs0 _ (Hq _ _)) (conj (Hv0 [_]) _))).
  - destruct (good c) eqn:Eg; intros [= <- <- <- <- <-].
    + refine (conj _ (conj (Hs0 _ (Hq _ _)) (conj (Hv0 [_]) _))); [done..|]. intros ph' [= <-]. split; [done|]. split_and!; [done..|]. by left.
    + by refine (conj _ (conj (Hs0 _ (Hq _ _)) (conj (Hv0 [_]) _))).
  - intros [= <- <- <- <- <-]. refine (conj _ (conj (Hs0 [] Hq0) (conj (Hv0 []) _))); [done|]. intros ph' [= <-]. by split.
  - destruct Hp as (Hc & Hgd & Hlog). destruct c as [u p|p].
    + cbn in Hgd. apply andb_true_iff in Hgd as [Hu Hb]. apply beq_eq in Hu as ->.
      intros [= <- <- <- <- <-]. refine (conj _ (conj (Hs0 _ _) (conj _ _))); [| | |done].
      * cbn. split_and!; try done. exists r, p. split_and!; try done. by right.
      * intros k r' n [E|[E|E%elem_of_nil]%elem_of_cons]%elem_of_cons; done.
      * intros d t H. destruct (verified_add_sub _ _ _ _ _ _ H) as [->|[t0 H0]]; [|by eapply Hv0].
        exists r, p. split_and!; try done. by right; right.
    + destruct (create raw now order (ad_sessions a)) as [id st0] eqn:Ec. intros [= <- <- <- <- <-].
      refine (conj _ (conj _ (conj (Hv0 [_]) _))); [| |done].
      * cbn. split; [|done]. split; [done|]. by exists p.
      * intros k s H. destruct (create_sub _ _ _ _ _ _ _ _ Ec H) as [[-> ->]|H0]; [|by apply Hs0; [apply Hq|]].
        exists r, id, [], (ad_log a). split_and!; [done..|apply Hq0].
  - destruct (drop_session (h_Cookie r) now (ad_sessions a)) as [b st0] eqn:Ed. destruct (drop_session_spec _ _ _ _ _ Ed) as [D1 D2].
    intros [= <- <- <- <- <-]. refine (conj _ (conj _ (conj (Hv0 [_]) _))); [done| |done].
    intros k s H. apply session_ok_more; [apply Hs; by apply D1|].
    intros r' n [[= -> ->]|E%elem_of_nil]%elem_of_cons Hne; [|done]. intros <-. by rewrite (D2 Hne) in H.
Qed.

Lemma step_inv a e a' : admin_inv a -> step a e = Some a' -> admin_inv a'.
Proof.
  intros H He. destruct e as [i r|i now order raw]; cbn in He.
  - destruct (ad_flight a !! i) as [?|] eqn:Ei; [done|]. pose proof (dispatch_ok r) as Hd. destruct H as [Hl Hs Hv Hf].
    unfold dispatch in *. destruct (match guard _ _ _ with Some _ => _ | None => _ end) as [out|ph] eqn:Ed; injection He as <-.
    + assert (Hn : forall k, not_logged_out k out).
      { intros k r' n Hin. exfalso. revert Ed Hin. repeat case_match; intros [= <-]; intros [E|E%elem_of_nil]%elem_of_cons; done. }
      split; cbn; [by apply Hd|intros; apply session_ok_more; auto|intros; eapply verified_ok_more, Hv; done|intros; eapply phase_ok_more, Hf; done].
    + split; cbn; [done..|]. intros j r' ph'. rewrite lookup_insert_Some. intros [[<- [= <- <-]]|[_ Hj]]; [apply Hd|by eapply Hf].
  - destruct (ad_flight a !! i) as [[r ph]|] eqn:Ei; [|done].
    destruct (advance bcrypt_ok hmac_key cfg r ph now order raw a) as [[out next] [[l v] st]] eqn:Ea. injection He as <-.
    destruct (advance_ok a i r ph now order raw out next l v st H Ei Ea) as (H1 & H2 & H3 & H4). destruct H as [Hl Hs Hv Hf].
    split; cbn; [done..|]. intros j r' ph' Hj. destruct next as [ph1|].
    + rewrite lookup_insert_Some in Hj. destruct Hj as [[<- [= <- <-]]|[_ Hj]]; [by apply H4|]. eapply phase_ok_more, Hf, Hj.
    + rewrite lookup_delete_Some in Hj. destruct Hj as [_ Hj]. eapply phase_ok_more, Hf, Hj.
Qed.

Lemma run_inv es : forall a a', admin_inv a -> run a es = Some a' -> admin_inv a'.
Proof.
  induction es as [|e es IH]; intros a a' H Hr; cbn in Hr; [by injection Hr as <-|].
  destruct (step a e) as [a1|] eqn:E; [|done]. eapply IH; [|done]. by eapply step_inv.
Qed.

Lemma no_admin_inv : admin_inv no_admin.
Proof. split; cbn; [done|intros ? ?; by rewrite lookup_empty..|]. intros ? ? ?. by rewrite lookup_empty. Qed.

(** C13: Every request that reaches a protected handler was authenticated: it
    passed the Host check and, if its method may change state, the Origin
    check, and either its cookie names the session of an earlier login that
    gave the right password, not logged out since and less than twelve hours
    old, or its Basic credentials are, up to the digest they are remembered
    by, admin's with a password that an earlier comparison accepted; what is
    served without authentication is the health check, the login page and its
    assets only.  This holds whatever requests come and however their critical
    sections interleave. *)
Theorem every_served_request_was_authenticated es a l1 x l2 : run no_admin es = Some a -> ad_log a = l1 ++ x :: l2 ->
  match x with
  | ServedSession r now => guarded r /\
      exists r' id t p m1 m2, l2 = m1 ++ LoggedIn r' id t :: m2 /\ h_Body r' = Some p /\ bcrypt_ok (hash cfg) p = true /\
        sessionKey id = sessionKey (h_Cookie r) /\ not_logged_out (sessionKey id) m1 /\ now - t < sessionMaxAge
  | ServedBasic r u p now => guarded r /\ h_Basic r = Some (u, p) /\
      exists r' p', GoodGuess r' (CBasic AdminUser p') ∈ l2 /\ bcrypt_ok (hash cfg) p' = true /\ digest u p = digest AdminUser p'
  | Public r => route_of (h_Path r) = RtHealthz \/ route_of (h_Path r) = RtLoginPage \/ route_of (h_Path r) = RtAssets
  | _ => True
  end.
Proof.
  intros Hr El. pose proof (run_inv es _ _ no_admin_inv Hr) as H. pose proof (ai_log _ H) as Hl. rewrite El in Hl.
  pose proof (log_ok_split _ _ _ Hl) as Hj. destruct x; try done. destruct Hj as (Hg & r' & id & t & m1 & m2 & E & Hk & Hn & Ht).
  split; [done|]. rewrite E in Hl. assert (Hl' : log_ok ((l1 ++ ServedSession r now :: m1) ++ LoggedIn r' id t :: m2)).
  { rewrite <- app_assoc. exact Hl. }
  destruct (log_ok_split _ _ _ Hl') as (_ & p & Hb & Hp). by exists r', id, t, p, m1, m2.
Qed.
End Server.
