(* ===== verification/AdminGuess.v ===== *)
(** How fast the admin password can be guessed.

    The failure limiter counts a guess before its comparison and gives the slot
    back after a success.  [windows_ok] relates what the limiter knows to the
    slots taken and not given back; [guess_inv] carries it through a run of
    [AdminAuth.admin_step]; [guesses_are_limited] reads the bound off. *)

From S2P Require Import Prelude GoTime Netip GoText GoEncoding GoHash SipAddr SipScan SipMsg Carriers Offenders Shield Topology CarrierRoute.
From S2P Require Import Dialog MediaAnchor Config ConfigSchema EnvExpand Validate AdminAuth.

Open Scope Z_scope.

#[local] Arguments sessionKey : simpl never.
#[local] Arguments cred_digest : simpl never.

Section Server.
Variable bcrypt_ok : gostring -> gostring -> bool.
Variable hmac_key : list Z.
Variable cfg : AdminConfig.
Variable useTLS : bool.

Abbreviation step := (admin_step bcrypt_ok hmac_key cfg useTLS).
Abbreviation run := (admin_run bcrypt_ok hmac_key cfg useTLS).

(** ** Guessing *)

Lemma in_window_iff now w : in_window now w = true <-> now - fe_start w < authFailWindow.
Proof. unfold in_window. rewrite Z.ltb_lt. apply time_sub_lt_iff. split; vm_compute; congruence. Qed.

Definition tracked (K : gset gostring) (l : authLimiter) : Prop := forall k, is_Some (l !! k) -> k ∈ K.

(** Room for one more key: nothing is evicted. *)
Lemma room (K : gset gostring) (l : authLimiter) key : tracked K l -> key ∈ K -> (size K <= authFailMaxIPs)%nat -> l !! key = None ->
  (size l < authFailMaxIPs)%nat.
Proof.
  intros Ht Hk Hs Hn. rewrite <- size_dom. assert (dom l ⊂ K).
  { split; [intros k Hd; apply Ht; by apply elem_of_dom|]. intros H. specialize (H key Hk). apply elem_of_dom in H as [? ?]. congruence. }
  apply subset_size in H. lia.
Qed.

(** Counting one failure, with room: the window goes on or starts at [now];
    what else goes is past its window. *)
Lemma countLocked_spec K key now order l start l' : tracked K l -> key ∈ K -> (size K <= authFailMaxIPs)%nat ->
  countLocked key now order l = (start, l') ->
  tracked K l' /\
  (exists w', l' !! key = Some w' /\ fe_start w' = start /\
     ((exists w, l !! key = Some w /\ in_window now w = true /\ start = fe_start w /\ fe_failures w' = fe_failures w + 1) \/
      (start = now /\ fe_failures w' = 1 /\ forall w, l !! key = Some w -> in_window now w = false))) /\
  (forall k, k <> key -> l' !! k = l !! k \/ (l' !! k = None /\ exists w, l !! k = Some w /\ in_window now w = false)).
Proof.
  intros Ht Hk Hs. unfold countLocked. cbv zeta.
  set (l1 := filter (fun kv => in_window now kv.2 = true) l).
  assert (Hfresh : (forall w, l !! key = Some w -> in_window now w = false) ->
    (if bool_decide (l1 !! key = None) && (authFailMaxIPs <=? size l1)%nat then evictLocked order l1 else l1) = l1).
  { intros Hn. assert (E : l1 !! key = None).
    { apply map_lookup_filter_None. right. intros w Hw. cbn. rewrite (Hn w Hw). done. }
    assert (Ht1 : tracked K l1). { intros k [w Hw]. apply map_lookup_filter_Some in Hw as [Hw _]. apply Ht. by exists w. }
    pose proof (room K l1 key Ht1 Hk Hs E). replace ((authFailMaxIPs <=? size l1)%nat) with false by (symmetry; apply Nat.leb_gt; lia).
    by rewrite andb_false_r. }
  assert (Hdone : forall w l2, l2 = l \/ l2 = l1 -> tracked K (<[key := w]> l2)).
  { intros w l2 Hl2 k. destruct (decide (k = key)) as [->|Hne]; [done|]. rewrite lookup_insert_ne by done.
    intros [w' Hw]. apply Ht. destruct Hl2 as [->| ->]; [by exists w'|]. apply map_lookup_filter_Some in Hw as [Hw _]. by exists w'. }
  assert (Hothers : forall w k, k <> key -> <[key := w]> l1 !! k = l !! k \/ (<[key := w]> l1 !! k = None /\ exists w, l !! k = Some w /\ in_window now w = false)).
  { intros w k Hne. rewrite lookup_insert_ne by done. unfold l1. destruct (l !! k) as [w0|] eqn:E0.
    - destruct (in_window now w0) eqn:Ew.
      + left. by apply map_lookup_filter_Some.
      + right. split; [|by exists w0]. apply map_lookup_filter_None. right. intros w1 E1. cbn. congruence.
    - left. apply map_lookup_filter_None. by left. }
  destruct (l !! key) as [w|] eqn:El; [destruct (in_window now w) eqn:Ew|].
  - intros [= <- <-]. split; [apply Hdone; auto|]. split.
    + eexists. rewrite lookup_insert_eq. split_and!; [done..|]. left. by exists w.
    + intros k Hne. left. by rewrite lookup_insert_ne.
  - rewrite Hfresh by (by intros ? [= <-]). intros [= <- <-]. split; [apply Hdone; auto|]. split; [|by apply Hothers].
    eexists. rewrite lookup_insert_eq. split_and!; [done..|]. right. split_and!; [done..|]. by intros ? [= <-].
  - rewrite Hfresh by done. intros [= <- <-]. split; [apply Hdone; auto|]. split; [|by apply Hothers].
    eexists. rewrite lookup_insert_eq. split_and!; [done..|]. by right.
Qed.

(** *** Slots *)

(** A request that holds the slot of key [k] and window [s]. *)
Definition holds (k : gostring) (s : Z) (ph : phase) : bool :=
  match ph with AtBcrypt _ sl _ | AtRefund _ sl => beq (sl_key sl) k && (sl_start sl =? s) | _ => false end.

Definition bad_in (k : gostring) (s : Z) (x : outcome) : bool :=
  match x with BadGuess _ _ sl _ => beq (sl_key sl) k && (sl_start sl =? s) | _ => false end.

Definition held (k : gostring) (s : Z) (m : gmap nat (request * phase)) : Z :=
  Z.of_nat (size (filter (fun ix => holds k s ix.2.2 = true) m)).

(** The slots taken and not given back. *)
Definition spent (k : gostring) (s : Z) (a : admin) : Z := len (List.filter (bad_in k s) (ad_log a)) + held k s (ad_flight a).

Definition b2z (b : bool) : Z := if b then 1 else 0.

Lemma held_fresh k s m i r ph : m !! i = None -> held k s (<[i := (r, ph)]> m) = held k s m + b2z (holds k s ph).
Proof.
  intros Hi. unfold held. destruct (holds k s ph) eqn:E; cbn [b2z].
  - rewrite map_filter_insert_True by done. rewrite map_size_insert_None; [lia|]. apply map_lookup_filter_None. by left.
  - rewrite map_filter_insert_False by (cbn; congruence). rewrite delete_id by done. lia.
Qed.

Lemma held_delete k s m i r ph : m !! i = Some (r, ph) -> held k s (delete i m) = held k s m - b2z (holds k s ph).
Proof.
  intros Hi. rewrite <- (insert_delete_id m i (r, ph) Hi) at 2. rewrite held_fresh by apply lookup_delete_eq. lia.
Qed.

Lemma held_replace k s m i r ph ph' : m !! i = Some (r, ph) ->
  held k s (<[i := (r, ph')]> m) = held k s m - b2z (holds k s ph) + b2z (holds k s ph').
Proof.
  intros Hi. rewrite <- insert_delete_eq. rewrite held_fresh by apply lookup_delete_eq. rewrite (held_delete _ _ _ _ _ _ Hi). lia.
Qed.

(** *** Windows *)

(** What the limiter [L] knows of the slots [f] taken by time [T]: at most ten
    in a window; the windows of one source are a minute apart; those of the
    current window are counted, the others are over. *)
Record windows_ok (K : gset gostring) (T : Z) (L : authLimiter) (f : gostring -> Z -> Z) : Prop := {
  wo_tracked : tracked K L;
  wo_entry : forall k w, L !! k = Some w -> fe_start w <= T /\ 0 <= fe_failures w <= authFailLimit;
  wo_spent : forall k s, 0 < f k s -> f k s <= authFailLimit /\
    ((exists w, L !! k = Some w /\ fe_start w = s /\ f k s <= fe_failures w) \/
     (s + authFailWindow <= T /\ forall w, L !! k = Some w -> s + authFailWindow <= fe_start w));
  wo_apart : forall k s s', 0 < f k s -> 0 < f k s' -> s = s' \/ s + authFailWindow <= s' \/ s' + authFailWindow <= s
}.

Definition one_slot (sl : authSlot) (k : gostring) (s : Z) : Z := b2z (beq (sl_key sl) k && (sl_start sl =? s)).

Lemma windows_later K T T' L f f' : windows_ok K T L f -> T <= T' -> (forall k s, f' k s = f k s) -> windows_ok K T' L f'.
Proof.
  intros [H1 H2 H3 H4] HT Hf. split; [done| | |].
  - intros k w Hw. destruct (H2 k w Hw). lia.
  - intros k s. rewrite Hf. intros Hp. destruct (H3 k s Hp) as [Hl [?|[? ?]]]; (split; [done|]); [by left|]. right. split; [lia|done].
  - intros k s s'. rewrite !Hf. apply H4.
Qed.

Lemma one_slot_cases sl k s : (one_slot sl k s = 1 /\ k = sl_key sl /\ s = sl_start sl) \/
  (one_slot sl k s = 0 /\ (k <> sl_key sl \/ s <> sl_start sl)).
Proof.
  unfold one_slot. destruct (beq (sl_key sl) k) eqn:E1; cbn.
  - apply beq_eq in E1. destruct (sl_start sl =? s) eqn:E2; cbn; [left; split_and!; [done..|lia]|right; split; [done|right; lia]].
  - right. split; [done|]. left. intros ->. by rewrite beq_refl in E1.
Qed.

Lemma authFailWindow_pos : 0 < authFailWindow.
Proof. done. Qed.

Lemma reserve_windows K T L f ip now order sl L' : windows_ok K T L f -> T <= now -> limiterKey ip ∈ K -> (size K <= authFailMaxIPs)%nat ->
  (forall k s, 0 <= f k s) -> reserve ip now order L = (inl sl, L') ->
  sl_start sl <= now < sl_start sl + authFailWindow /\ windows_ok K now L' (fun k s => f k s + one_slot sl k s).
Proof.
  intros [H1 H2 H3 H4] HT Hk Hs Hf0 Hr. pose proof authFailWindow_pos as HW. unfold reserve in Hr. set (key := limiterKey ip) in *.
  destruct (countLocked key now order L) as [start l'] eqn:Ec.
  assert (Hx : sl = mkSlot key start /\ L' = l' /\ forall w, L !! key = Some w -> in_window now w = true -> fe_failures w < authFailLimit).
  { destruct (L !! key) as [w|]; [destruct (in_window now w && (authFailLimit <=? fe_failures w)) eqn:Eb; [done|]|].
    - injection Hr as <- <-. split_and!; [done..|]. intros ? [= <-] Hw. rewrite Hw in Eb. cbn in Eb. lia.
    - by injection Hr as <- <-. }
  destruct Hx as (-> & -> & Hlim). clear Hr.
  destruct (countLocked_spec K key now order L start l' H1 Hk Hs Ec) as (C1 & (w' & Ew' & Es' & C2) & C3).
  assert (Hst : start <= now < start + authFailWindow).
  { destruct C2 as [(w & Ew & Hin & -> & _)|(-> & _)]; [|lia]. apply in_window_iff in Hin. destruct (H2 _ _ Ew). lia. }
  split; [exact Hst|].
  (* the windows of the key before this one *)
  assert (Hkey : forall s, 0 < f key s -> (s = start /\ f key s + 1 <= fe_failures w') \/ (s + authFailWindow <= now /\ s + authFailWindow <= start)).
  { intros s Hp. destruct (H3 key s Hp) as [_ [(w & Ew & <- & Hle)|[Hc Ho]]]; destruct C2 as [(w0 & Ew0 & Hin & -> & Ef)|(-> & Ef & Hn)].
    - rewrite Ew in Ew0. injection Ew0 as <-. left. split; [done|lia].
    - right. specialize (Hn _ Ew). assert (~ now - fe_start w < authFailWindow) by (intros X; apply in_window_iff in X; congruence). lia.
    - right. specialize (Ho _ Ew0). lia.
    - right. lia. }
  assert (Hw' : 1 <= fe_failures w' <= authFailLimit).
  { destruct C2 as [(w & Ew & Hin & _ & ->)|(_ & -> & _)]; [|by split]. specialize (Hlim _ Ew Hin). destruct (H2 _ _ Ew). lia. }
  split; [done| | |].
  - intros k w Hw. destruct (decide (k = key)) as [->|Hne].
    + rewrite Ew' in Hw. injection Hw as <-. lia.
    + destruct (C3 k Hne) as [E|[E _]]; rewrite E in Hw; [|done]. destruct (H2 k w Hw). lia.
  - intros k s Hp. destruct (one_slot_cases (mkSlot key start) k s) as [(-> & -> & ->)|(E0 & Hne)]; cbn [sl_key sl_start] in *.
    + assert (Hle : f key start + 1 <= fe_failures w').
      { destruct (Z.eq_dec (f key start) 0) as [->|Hn0]; [lia|]. pose proof (Hf0 key start).
        destruct (Hkey start ltac:(lia)) as [[_ ?]|?]; [done|lia]. }
      split; [lia|]. left. exists w'. by split_and!.
    + rewrite E0, Z.add_0_r in *. destruct (H3 k s Hp) as [Hl Hcase]. split; [done|]. destruct (decide (k = key)) as [->|Hnk].
      * destruct (Hkey s Hp) as [[-> _]|[Ha Hb]]; [by destruct Hne|]. right. split; [done|]. intros w. rewrite Ew'. intros [= <-]. lia.
      * destruct (C3 k Hnk) as [E|[E (w & Ew & Hout)]].
        -- rewrite E. destruct Hcase as [?|[? ?]]; [by left|]. right. split; [lia|done].
        -- rewrite E. right. split; [|done]. destruct Hcase as [(w0 & Ew0 & <- & _)|[? _]]; [|lia].
           rewrite Ew in Ew0. injection Ew0 as <-. assert (~ now - fe_start w < authFailWindow) by (intros X; apply in_window_iff in X; congruence). lia.
  - assert (Hnew : forall s, 0 < f key s -> s = start \/ s + authFailWindow <= start) by (intros s Hp; destruct (Hkey s Hp) as [[-> _]|[_ ?]]; auto).
    intros k s s' Hp Hp'. destruct (one_slot_cases (mkSlot key start) k s) as [(E & Ek0 & Es0)|(E & _)];
      destruct (one_slot_cases (mkSlot key start) k s') as [(E' & Ek & Es)|(E' & _)]; cbn [sl_key sl_start] in *.
    + left. congruence.
    + subst k s. rewrite E' in Hp'. destruct (Hnew s' ltac:(lia)) as [->|?]; auto.
    + subst k s'. rewrite E in Hp. destruct (Hnew s ltac:(lia)) as [->|?]; auto.
    + rewrite E, E' in *. apply (H4 k); lia.
Qed.

Lemma refuse_windows K T L f ip now order b L' : windows_ok K T L f -> reserve ip now order L = (inr b, L') -> windows_ok K T L' f.
Proof.
  intros [H1 H2 H3 H4] Hr. unfold reserve in Hr. set (key := limiterKey ip) in *.
  destruct (countLocked key now order L) as [start l'].
  destruct (L !! key) as [w|] eqn:Ew; [|done]. case_if_in Hr; [|done]. injection Hr as <- <-.
  split; [|..|done].
  - intros k. destruct (decide (k = key)) as [->|Hne]; [intros _; apply H1; by eexists|]. rewrite lookup_insert_ne by done. apply H1.
  - intros k w'. rewrite lookup_insert_Some. intros [[<- <-]|[_ Hw]]; [cbn; by apply (H2 _ _ Ew)|by apply (H2 k)].
  - intros k s Hp. destruct (H3 k s Hp) as [Hl Hcase]. split; [done|]. destruct (decide (k = key)) as [->|Hne].
    + rewrite lookup_insert_eq. destruct Hcase as [(w0 & E0 & ? & ?)|[? Hc]].
      * left. rewrite Ew in E0. injection E0 as <-. eexists. split; [done|]. by split.
      * right. split; [done|]. intros w0 [= <-]. cbn. by apply Hc.
    + rewrite lookup_insert_ne by done. exact Hcase.
Qed.

Lemma refund_windows K T L f sl f' : windows_ok K T L f -> 0 < f (sl_key sl) (sl_start sl) -> (forall k s, 0 <= f' k s) ->
  (forall k s, f' k s = f k s - one_slot sl k s) -> windows_ok K T (refund sl L) f'.
Proof.
  intros [H1 H2 H3 H4] Hpos Hf0 Hf. pose proof authFailWindow_pos as HW.
  assert (Hle : forall k s, 0 < f' k s -> 0 < f k s).
  { intros k s. rewrite Hf. destruct (one_slot_cases sl k s) as [(-> & _)|(-> & _)]; lia. }
  unfold refund. destruct (L !! sl_key sl) as [w|] eqn:Ew; [destruct ((fe_start w =? sl_start sl) && (0 <? fe_failures w)) eqn:Eb|].
  - assert (Es : fe_start w = sl_start sl) by lia. split.
    + intros k. destruct (decide (k = sl_key sl)) as [->|Hne]; [intros _; apply H1; by eexists|]. rewrite lookup_insert_ne by done. apply H1.
    + intros k w'. rewrite lookup_insert_Some. intros [[<- <-]|[_ Hw]]; [cbn; destruct (H2 _ _ Ew); lia|by apply (H2 k)].
    + intros k s Hp. destruct (H3 k s (Hle _ _ Hp)) as [Hl Hcase]. rewrite Hf in *.
      destruct (one_slot_cases sl k s) as [(E1 & -> & ->)|(E1 & Hne)]; rewrite E1 in *.
      * split; [lia|]. rewrite lookup_insert_eq. destruct Hcase as [(w0 & E0 & ? & ?)|[? Hc]].
        -- left. rewrite Ew in E0. injection E0 as <-. eexists. split; [done|]. cbn. lia.
        -- specialize (Hc _ Ew). lia.
      * split; [lia|]. rewrite Z.sub_0_r. destruct (decide (k = sl_key sl)) as [->|Hnk].
        -- rewrite lookup_insert_eq. destruct Hcase as [(w0 & E0 & <- & _)|[? Hc]].
           ++ rewrite Ew in E0. injection E0 as <-. by destruct Hne.
           ++ right. split; [done|]. intros w0 [= <-]. cbn. by apply Hc.
        -- by rewrite lookup_insert_ne by done.
    + intros k s s' Hp Hp'. apply (H4 k); by apply Hle.
  - split; [done..| |].
    + intros k s Hp. destruct (H3 k s (Hle _ _ Hp)) as [Hl Hcase]. rewrite Hf in *.
      destruct (one_slot_cases sl k s) as [(E1 & -> & ->)|(E1 & Hne)]; rewrite E1 in *; [|by rewrite Z.sub_0_r].
      split; [lia|]. destruct Hcase as [(w0 & E0 & Es & Hge)|Hc]; [|by right]. rewrite Ew in E0. injection E0 as <-. lia.
    + intros k s s' Hp Hp'. apply (H4 k); by apply Hle.
  - split; [done..| |].
    + intros k s Hp. destruct (H3 k s (Hle _ _ Hp)) as [Hl Hcase]. rewrite Hf in *.
      destruct (one_slot_cases sl k s) as [(E1 & -> & ->)|(E1 & Hne)]; rewrite E1 in *; [|by rewrite Z.sub_0_r].
      split; [lia|]. destruct Hcase as [(w0 & E0 & _)|Hc]; [congruence|by right].
    + intros k s s' Hp Hp'. apply (H4 k); by apply Hle.
Qed.

(** *** A run *)

(** The clock does not go back. *)
Fixpoint clock_from (T : Z) (es : list admin_event) : Prop :=
  match es with
  | [] => True
  | EArrive _ _ :: es => clock_from T es
  | EStep _ now _ _ :: es => T <= now /\ clock_from now es
  end.

(** The requests come from these sources. *)
Definition sources_in (K : gset gostring) (es : list admin_event) : Prop :=
  forall i r, EArrive i r ∈ es -> limiterKey (remoteIP r) ∈ K.

Record guess_inv (K : gset gostring) (T : Z) (a : admin) : Prop := {
  gi_windows : windows_ok K T (ad_limiter a) (fun k s => spent k s a);
  gi_sources : forall i r ph, ad_flight a !! i = Some (r, ph) -> limiterKey (remoteIP r) ∈ K;
  gi_flight : forall i r c sl t, ad_flight a !! i = Some (r, AtBcrypt c sl t) -> sl_start sl <= t < sl_start sl + authFailWindow;
  gi_log : forall r c sl t, BadGuess r c sl t ∈ ad_log a -> sl_start sl <= t < sl_start sl + authFailWindow
}.

Lemma spent_nonneg k s a : 0 <= spent k s a.
Proof. unfold spent, held. pose proof (len_nonneg (List.filter (bad_in k s) (ad_log a))). lia. Qed.

(** What one request holds is part of what is spent. *)
Lemma held_spent k s a i r ph : ad_flight a !! i = Some (r, ph) -> holds k s ph = true -> 0 < spent k s a.
Proof.
  intros Hi Hh. unfold spent. pose proof (len_nonneg (List.filter (bad_in k s) (ad_log a))).
  pose proof (held_delete k s _ _ _ _ Hi) as Hd. rewrite Hh in Hd. cbn in Hd. unfold held in *. lia.
Qed.

(** What a step of a request adds to what is spent. *)
Lemma spent_step k s a i r ph out next l v st : ad_flight a !! i = Some (r, ph) ->
  spent k s (mkAdminState l v st (match next with Some ph => <[i := (r, ph)]> (ad_flight a) | None => delete i (ad_flight a) end) (out ++ ad_log a)) =
  spent k s a + len (List.filter (bad_in k s) out) - b2z (holds k s ph) + (if next is Some ph' then b2z (holds k s ph') else 0).
Proof.
  intros Hi. unfold spent. cbn [ad_log ad_flight]. rewrite List.filter_app, len_app. destruct next as [ph'|].
  - rewrite (held_replace _ _ _ _ _ _ _ Hi). lia.
  - rewrite (held_delete _ _ _ _ _ _ Hi). lia.
Qed.

#[local] Ltac count_slots := intros; cbn; change (len (@nil outcome)) with 0; lia.

(** The limiter and what is spent, across one critical section. *)
Lemma advance_windows K T a i r ph now order raw out next l v st :
  guess_inv K T a -> (size K <= authFailMaxIPs)%nat -> T <= now -> ad_flight a !! i = Some (r, ph) ->
  advance bcrypt_ok hmac_key cfg r ph now order raw a = (out, next, (l, v, st)) ->
  windows_ok K now l (fun k s => spent k s a + len (List.filter (bad_in k s) out) - b2z (holds k s ph) +
                                  (if next is Some ph' then b2z (holds k s ph') else 0)).
Proof.
  intros [Hw Hk Hf Hl] Hs HT Hi. unfold advance.
  assert (Hsame : forall f', (forall k s, f' k s = spent k s a) -> windows_ok K now (ad_limiter a) f').
  { intros f' Hf'. by eapply windows_later. }
  destruct ph as [|u p|c|c sl t|c sl|c|].
  - destruct (valid (h_Cookie r) now (ad_sessions a)) as [[] st0]; [|destruct (h_Basic r) as [[u p]|]];
      intros [= <- <- <- <- <-]; apply Hsame; count_slots.
  - destruct (verified_has (cred_digest hmac_key (hash cfg) u p) now (ad_verified a)) as [[] v0];
      intros [= <- <- <- <- <-]; apply Hsame; count_slots.
  - destruct (reserve (remoteIP r) now order (ad_limiter a)) as [[sl|b] l0] eqn:Er; intros [= <- <- <- <- <-].
    + destruct (reserve_windows K T _ _ _ now order sl l0 Hw HT (Hk _ _ _ Hi) Hs ltac:(intros; apply spent_nonneg) Er) as [_ H].
      eapply windows_later; [exact H|lia|]. unfold one_slot; count_slots.
    + eapply windows_later; [eapply refuse_windows; [exact Hw|exact Er]|exact HT|]. count_slots.
  - destruct (cred_ok bcrypt_ok cfg c); intros [= <- <- <- <- <-]; apply Hsame; [count_slots|]. intros k s. cbn.
    destruct (beq (sl_key sl) k && (sl_start sl =? s)); cbn; rewrite ?len_cons; change (len (@nil outcome)) with 0; lia.
  - intros [= <- <- <- <- <-].
    assert (Hheld : forall k s, one_slot sl k s = 1 -> 0 < spent k s a).
    { intros k s H. apply (held_spent _ _ _ _ _ _ Hi). cbn. unfold one_slot in H. by destruct (_ && _). }
    eapply windows_later; [eapply (refund_windows K T _ _ sl (fun k s => spent k s a - one_slot sl k s)); [exact Hw| | |done]|exact HT|].
    + apply Hheld. unfold one_slot. by rewrite beq_refl, Z.eqb_refl.
    + intros k s. destruct (one_slot_cases sl k s) as [(E & _)|(E & _)]; [specialize (Hheld k s E)|pose proof (spent_nonneg k s a)]; lia.
    + unfold one_slot; count_slots.
  - destruct c as [u p|p]; [|destruct (create raw now order (ad_sessions a)) as [id st0]];
      intros [= <- <- <- <- <-]; apply Hsame; count_slots.
  - destruct (drop_session (h_Cookie r) now (ad_sessions a)) as [b st0]; intros [= <- <- <- <- <-]; apply Hsame; count_slots.
Qed.

Definition failed (x : outcome) : bool := match x with BadGuess _ _ _ _ => true | _ => false end.

Lemma none_failed out r c sl t : existsb failed out = false -> BadGuess r c sl t ∉ out.
Proof.
  intros H Hin. assert (existsb failed out = true); [|congruence].
  apply existsb_exists. exists (BadGuess r c sl t). split; [by apply list_elem_of_In|done].
Qed.

(** A slot is taken inside its window, and a failed guess keeps the time. *)
Lemma advance_times K T a i r ph now order raw out next l v st :
  guess_inv K T a -> (size K <= authFailMaxIPs)%nat -> T <= now -> ad_flight a !! i = Some (r, ph) ->
  advance bcrypt_ok hmac_key cfg r ph now order raw a = (out, next, (l, v, st)) ->
  (forall c sl t, next = Some (AtBcrypt c sl t) -> sl_start sl <= t < sl_start sl + authFailWindow) /\
  (forall r' c sl t, BadGuess r' c sl t ∈ out -> sl_start sl <= t < sl_start sl + authFailWindow).
Proof.
  intros [Hw Hk Hf Hl] Hs HT Hi. unfold advance.
  assert (Hnone : forall r' c sl t, existsb failed out = false -> BadGuess r' c sl t ∈ out -> sl_start sl <= t < sl_start sl + authFailWindow)
    by (intros r' c sl t H Hin; by apply none_failed in Hin).
  destruct ph as [|u p|c|c sl t|c sl|c|].
  - destruct (valid (h_Cookie r) now (ad_sessions a)) as [[] st0]; [|destruct (h_Basic r) as [[u p]|]];
      intros [= <- <- <- <- <-]; (split; [done|]); intros; by eapply Hnone.
  - destruct (verified_has (cred_digest hmac_key (hash cfg) u p) now (ad_verified a)) as [[] v0];
      intros [= <- <- <- <- <-]; (split; [done|]); intros; by eapply Hnone.
  - destruct (reserve (remoteIP r) now order (ad_limiter a)) as [[sl|b] l0] eqn:Er; intros [= <- <- <- <- <-];
      (split; [|intros; by eapply Hnone]); [|done]. intros c' sl' t' [= _ <- <-].
    by destruct (reserve_windows K T _ _ _ now order sl l0 Hw HT (Hk _ _ _ Hi) Hs ltac:(intros; apply spent_nonneg) Er).
  - destruct (cred_ok bcrypt_ok cfg c); intros [= <- <- <- <- <-]; (split; [done|]); [intros; by eapply Hnone|].
    intros r' c' sl' t' [[= -> -> -> ->]|H%elem_of_nil]%elem_of_cons; [by eapply Hf|done].
  - intros [= <- <- <- <- <-]. split; [done|]. intros; by eapply Hnone.
  - destruct c as [u p|p]; [|destruct (create raw now order (ad_sessions a)) as [id st0]];
      intros [= <- <- <- <- <-]; (split; [done|]); intros; by eapply Hnone.
  - destruct (drop_session (h_Cookie r) now (ad_sessions a)) as [b st0]; intros [= <- <- <- <- <-]; (split; [done|]); intros; by eapply Hnone.
Qed.

Lemma guess_step K T a i now order raw a' : guess_inv K T a -> (size K <= authFailMaxIPs)%nat -> T <= now ->
  step a (EStep i now order raw) = Some a' -> guess_inv K now a'.
Proof.
  intros H Hs HT He. cbn in He. destruct (ad_flight a !! i) as [[r ph]|] eqn:Ei; [|done].
  destruct (advance bcrypt_ok hmac_key cfg r ph now order raw a) as [[out next] [[l v] st]] eqn:Ea. injection He as <-.
  pose proof (advance_windows K T a i r ph now order raw out next l v st H Hs HT Ei Ea) as Hw.
  destruct (advance_times K T a i r ph now order raw out next l v st H Hs HT Ei Ea) as [Hn Ho].
  destruct H as [_ Hk Hf Hl]. split; cbn [ad_flight ad_log].
  - eapply windows_later; [exact Hw|lia|]. intros k s. by apply spent_step.
  - intros j r' ph' Hj. destruct next as [ph1|].
    + rewrite lookup_insert_Some in Hj. destruct Hj as [[<- [= <- <-]]|[_ Hj]]; by eapply Hk.
    + rewrite lookup_delete_Some in Hj. destruct Hj as [_ Hj]. by eapply Hk.
  - intros j r' c sl t Hj. destruct next as [ph1|].
    + rewrite lookup_insert_Some in Hj. destruct Hj as [[<- [= <- ->]]|[_ Hj]]; [by eapply Hn|by eapply Hf].
    + rewrite lookup_delete_Some in Hj. destruct Hj as [_ Hj]. by eapply Hf.
  - intros r' c sl t [Hj|Hj]%elem_of_app; [by eapply Ho|by eapply Hl].
Qed.

(** A request that arrives takes no slot and fails no guess. *)
Lemma dispatch_quiet r : match dispatch cfg useTLS r with
  | inl out => existsb failed out = false /\ forall k s, List.filter (bad_in k s) out = []
  | inr ph => forall k s, holds k s ph = false
  end.
Proof.
  unfold dispatch. destruct (guard _ _ _); [by split|]. destruct (route_of _); try by split.
  - destruct (negb _); [by split|]. by destruct (h_Body r).
  - by destruct (negb _).
Qed.

Lemma guess_arrive K T a i r a' : guess_inv K T a -> limiterKey (remoteIP r) ∈ K -> step a (EArrive i r) = Some a' -> guess_inv K T a'.
Proof.
  intros [Hw Hk Hf Hl] Hr He. cbn in He. destruct (ad_flight a !! i) eqn:Ei; [done|]. pose proof (dispatch_quiet r) as Hd.
  destruct (dispatch cfg useTLS r) as [out|ph] eqn:Ed; injection He as <-; split; cbn [ad_flight ad_log]; try done.
  - destruct Hd as [_ Hd]. eapply windows_later; [exact Hw|lia|]. intros k s. unfold spent. cbn. by rewrite List.filter_app, Hd.
  - intros r' c sl t [H|H]%elem_of_app; [exfalso; by eapply (none_failed out); [by destruct Hd|exact H]|by eapply Hl].
  - eapply windows_later; [exact Hw|lia|]. intros k s. unfold spent. cbn. rewrite held_fresh by done. rewrite Hd. cbn. lia.
  - intros j r' ph'. rewrite lookup_insert_Some. intros [[<- [= <- <-]]|[_ Hj]]; [done|by eapply Hk].
  - intros j r' c sl t. rewrite lookup_insert_Some. intros [[<- [= <- ->]]|[_ Hj]]; [|by eapply Hf].
    specialize (Hd (sl_key sl) (sl_start sl)). cbn in Hd. by rewrite beq_refl, Z.eqb_refl in Hd.
Qed.

Lemma guess_run K es : forall T a a', guess_inv K T a -> (size K <= authFailMaxIPs)%nat -> clock_from T es -> sources_in K es ->
  run a es = Some a' -> exists T', guess_inv K T' a'.
Proof.
  induction es as [|e es IH]; intros T a a' H Hs Hc Hk Hr; cbn [admin_run] in Hr; [injection Hr as <-; by exists T|].
  destruct (step a e) as [a1|] eqn:E; [|done].
  assert (Hk' : sources_in K es) by (intros i r Hin; apply (Hk i r); by right).
  destruct e as [i r|i now order raw].
  - apply (IH T a1); [|done..]. eapply guess_arrive; [done| |done]. apply (Hk i r). by left.
  - destruct Hc as [HT Hc]. apply (IH now a1); [|done..]. by eapply guess_step.
Qed.

Lemma no_guess K T : guess_inv K T no_admin.
Proof.
  split; cbn.
  - split; [intros k [w Hw]; by rewrite lookup_empty in Hw|intros k w; by rewrite lookup_empty|..];
      intros k s; unfold spent, held; cbn; rewrite map_filter_empty, map_size_empty; change (len (@nil outcome)) with 0; lia.
  - intros ???. by rewrite lookup_empty.
  - intros ?????. by rewrite lookup_empty.
  - intros ???? H%elem_of_nil. done.
Qed.

(** *** Any minute meets two windows at most *)

(** A failed guess of source [k] whose slot was taken in the minute from [from]. *)
Definition guess_in (k : gostring) (from : Z) (x : outcome) : bool :=
  match x with BadGuess _ _ sl t => beq (sl_key sl) k && (from <=? t) && (t <? from + authFailWindow) | _ => false end.

Lemma filter_two {A} (p q1 q2 : A -> bool) l : (forall x, x ∈ l -> p x = true -> q1 x = true \/ q2 x = true) ->
  len (List.filter p l) <= len (List.filter q1 l) + len (List.filter q2 l).
Proof.
  induction l as [|x l IH]; intros H; [done|]. specialize (IH (fun y Hy => H y (list_elem_of_further _ _ _ Hy))).
  specialize (H x (list_elem_of_here _ _)). cbn.
  destruct (p x); [destruct (H eq_refl) as [-> | ->]|]; repeat case_if; rewrite ?len_cons; lia.
Qed.

Lemma bad_in_refl r c sl t : bad_in (sl_key sl) (sl_start sl) (BadGuess r c sl t) = true.
Proof. cbn. by rewrite beq_refl, Z.eqb_refl. Qed.

Lemma seen_spent a r c sl t : BadGuess r c sl t ∈ ad_log a -> 0 < spent (sl_key sl) (sl_start sl) a.
Proof.
  intros H. unfold spent, held. assert (Hin : In (BadGuess r c sl t) (List.filter (bad_in (sl_key sl) (sl_start sl)) (ad_log a))).
  { apply filter_In. split; [by apply list_elem_of_In|apply bad_in_refl]. }
  destruct (List.filter _ _) as [|y rest]; [done|]. rewrite len_cons. pose proof (len_nonneg rest). lia.
Qed.

Lemma window_guesses K T a k s : guess_inv K T a -> len (List.filter (bad_in k s) (ad_log a)) <= authFailLimit.
Proof.
  intros [Hw _ _ _]. destruct (decide (0 < spent k s a)) as [Hp|Hn].
  - destruct (wo_spent _ _ _ _ Hw k s Hp) as [H _]. unfold spent, held in H. lia.
  - unfold spent, held in Hn. change authFailLimit with 10. lia.
Qed.

Lemma guess_in_spec k from x : guess_in k from x = true ->
  exists r c sl t, x = BadGuess r c sl t /\ sl_key sl = k /\ from <= t < from + authFailWindow.
Proof.
  destruct x; try done. cbn. intros H. apply andb_true_iff in H as [H H3]. apply andb_true_iff in H as [H1 H2].
  apply beq_eq in H1. eexists _, _, _, _. split_and!; [done..|lia|lia].
Qed.

(** Two starts cover what is guessed in a minute. *)
Lemma two_windows K T a k from : guess_inv K T a -> exists s1 s2, forall x, x ∈ ad_log a -> guess_in k from x = true ->
  bad_in k s1 x = true \/ bad_in k s2 x = true.
Proof.
  intros [Hw _ _ Hl]. pose proof (wo_apart _ _ _ _ Hw k) as Ha. pose proof authFailWindow_pos as HW.
  assert (Hat : forall x, x ∈ ad_log a -> guess_in k from x = true ->
    exists s, bad_in k s x = true /\ 0 < spent k s a /\ from - authFailWindow < s < from + authFailWindow).
  { intros x Hx (r & c & sl & t & -> & <- & Ht)%guess_in_spec. exists (sl_start sl). split_and!; [apply bad_in_refl|by eapply seen_spent|..];
      pose proof (Hl _ _ _ _ Hx); lia. }
  destruct (List.find (guess_in k from) (ad_log a)) as [x1|] eqn:E1.
  2: { exists 0, 0. intros x Hx Hg. apply list_elem_of_In in Hx. by rewrite (find_none _ _ E1 x Hx) in Hg. }
  apply find_some in E1 as [Hx1 Hg1]. destruct (Hat x1 ltac:(by apply list_elem_of_In) Hg1) as (s1 & _ & P1 & R1). exists s1.
  destruct (List.find (fun x => guess_in k from x && negb (bad_in k s1 x)) (ad_log a)) as [x2|] eqn:E2.
  2: { exists s1. intros x Hx Hg. apply list_elem_of_In in Hx. pose proof (find_none _ _ E2 x Hx) as H. cbn in H. rewrite Hg in H.
       left. by destruct (bad_in k s1 x). }
  apply find_some in E2 as [Hx2 Hg2]. apply andb_true_iff in Hg2 as [Hg2 Hne].
  destruct (Hat x2 ltac:(by apply list_elem_of_In) Hg2) as (s2 & B2 & P2 & R2). exists s2.
  assert (s2 <> s1) by (intros ->; by rewrite B2 in Hne). intros x Hx Hg. destruct (Hat x Hx Hg) as (s & B & P & R).
  destruct (Z.eq_dec s s1) as [->|N1]; [by left|]. destruct (Z.eq_dec s s2) as [->|N2]; [by right|]. exfalso.
  destruct (Ha s s1 P P1) as [?|[?|?]], (Ha s s2 P P2) as [?|[?|?]], (Ha s1 s2 P1 P2) as [?|[?|?]]; lia.
Qed.

(** C14: Password guessing is slow, however the requests are sent.  Take any run
    in which the clock does not go back and the requests come from at most 4096
    sources (an IPv4 address or an IPv6 /64 each).  Then, of the guesses of one
    source that failed, at most ten were counted in any one window, and at most
    twenty were made in any minute, whatever the minute and however many of the
    source's requests are in flight at once: a slot is taken before the password
    is compared, and given back only after a success. *)
Theorem guesses_are_limited K T es a k from s : (size K <= authFailMaxIPs)%nat -> sources_in K es -> clock_from T es ->
  run no_admin es = Some a ->
  len (List.filter (bad_in k s) (ad_log a)) <= 10 /\ len (List.filter (guess_in k from) (ad_log a)) <= 20.
Proof.
  intros Hs Hk Hc Hr. destruct (guess_run K es T _ _ (no_guess K T) Hs Hc Hk Hr) as [T' H].
  split; [by apply (window_guesses K T')|]. destruct (two_windows K T' a k from H) as (s1 & s2 & Hcov).
  pose proof (filter_two _ _ _ _ Hcov). pose proof (window_guesses K T' a k s1 H). pose proof (window_guesses K T' a k s2 H).
  change authFailLimit with 10 in *. lia.
Qed.
End Server.
