(* ===== verification/AdminDemo.v ===== *)
(** Runs of the admin server: a login and what it is good for, a scrape with
    Basic credentials, and a source that guesses. *)

From S2P Require Import Prelude GoTime Netip GoText GoEncoding GoHash SipAddr SipScan SipMsg Carriers Offenders Shield Topology CarrierRoute.
From S2P Require Import Dialog MediaAnchor Config ConfigSchema EnvExpand Validate AdminAuth AdminSafety AdminGuess.

Open Scope Z_scope.

(** The comparison, on a hash that is the password. *)
Definition plain_check (hash pass : gostring) : bool := beq hash pass.

Definition demo_key : list Z := replicate 32 7.

Definition demo_admin : AdminConfig := mkAdmin (str "127.0.0.1:8088") (str "secret") false None false.

Definition demo_request (path method remote : gostring) (basic : option (gostring * gostring)) (cookie : gostring) (body : option gostring) : request :=
  mkHReq path method (str "127.0.0.1:8088") remote (str "http://127.0.0.1:8088") [] [] basic cookie body.

Abbreviation demo_run := (admin_run plain_check demo_key demo_admin false no_admin).

Definition demo_state (es : list admin_event) : admin := match demo_run es with Some a => a | None => no_admin end.

(** [n] critical sections of request [i] at [now]. *)
Definition steps (i n : nat) (now : Z) : list admin_event := replicate n (EStep i now [] (replicate 32 9)).

(** ** A login, and a scrape *)

Definition login_request : request := demo_request (str "/api/login") (str "POST") (str "127.0.0.1:4000") None [] (Some (str "secret")).
Definition demo_id : gostring := raw_url_encode (replicate 32 9).
Definition page_request : request := demo_request (str "/api/status") (str "GET") (str "127.0.0.1:4000") None demo_id None.
Definition scrape_request : request :=
  demo_request (str "/metrics") (str "GET") (str "127.0.0.1:5000") (Some (AdminUser, str "secret")) [] None.

(** The page is served while the scrape is being compared. *)
Definition busy_day : list admin_event :=
  EArrive 0 login_request :: steps 0 4 1000 ++
  [EArrive 1 page_request; EArrive 2 scrape_request] ++ steps 2 3 2000 ++ steps 1 1 2000 ++ steps 2 3 3000 ++
  EArrive 3 scrape_request :: steps 3 2 4000.

Example busy_day_log : map (fun x => match x with
    | LoggedIn _ _ _ => 1 | ServedSession _ _ => 2 | ServedBasic _ _ _ _ => 3 | GoodGuess _ _ => 4 | Remembered _ _ _ => 5 | _ => 0 end)
  (rev (ad_log (demo_state busy_day))) = [4; 1; 2; 4; 5; 3; 3].
Proof. vm_compute. reflexivity. Qed.

(** A page of another origin cannot log in, nor can a rebound name. *)
Example foreign_pages_are_refused :
  let from origin host := mkHReq (str "/api/login") (str "POST") host (str "127.0.0.1:4000") origin [] [] None [] (Some (str "secret")) in
  dispatch demo_admin false (from (str "http://evil.example") (str "127.0.0.1:8088")) =
    inl [Answered (from (str "http://evil.example") (str "127.0.0.1:8088")) 403] /\
  dispatch demo_admin false (from (str "http://evil.example:8088") (str "evil.example:8088")) =
    inl [Answered (from (str "http://evil.example:8088") (str "evil.example:8088")) 421].
Proof. vm_compute. by split. Qed.

(** ** A source that guesses *)

Definition guess_request : request :=
  demo_request (str "/metrics") (str "GET") (str "192.0.2.7:5000") (Some (AdminUser, str "wrong")) [] None.

(** Twelve requests, all in flight at once. *)
Definition twelve_guesses : list admin_event :=
  map (fun i => EArrive i guess_request) (seq 0 12) ++
  flat_map (fun i => steps i 3 0) (seq 0 12) ++ flat_map (fun i => steps i 1 (50 * second)) (seq 0 10).

Definition demo_sources : gset gostring := {[str "192.0.2.7"]}.

(** ** Witnesses *)

Lemma sources_decide K es :
  forallb (fun e => match e with EArrive _ r => bool_decide (limiterKey (remoteIP r) ∈ K) | _ => true end) es = true -> sources_in K es.
Proof. intros H i r Hin%list_elem_of_In. rewrite forallb_forall in H. specialize (H _ Hin). by apply bool_decide_eq_true in H. Qed.

Lemma demo_ran es : match demo_run es with Some _ => true | None => false end = true -> demo_run es = Some (demo_state es).
Proof. unfold demo_state. by destruct (demo_run es). Qed.

Lemma every_served_request_was_authenticated_witness :
  let a := demo_state busy_day in
  exists l1 l2 : list outcome,
    demo_run busy_day = Some a /\ ad_log a = l1 ++ ServedSession page_request 2000 :: l2 /\
    guarded demo_admin false page_request /\
    exists r' id t p m1 m2, l2 = m1 ++ LoggedIn r' id t :: m2 /\ h_Body r' = Some p /\ plain_check (str "secret") p = true /\
      sessionKey id = sessionKey demo_id /\ not_logged_out (sessionKey id) m1 /\ 2000 - t < sessionMaxAge.
Proof.
  intros a. exists (take 4 (ad_log a)), (drop 5 (ad_log a)).
  assert (Hr : demo_run busy_day = Some a) by (apply demo_ran; vm_compute; reflexivity).
  assert (Hl : ad_log a = take 4 (ad_log a) ++ ServedSession page_request 2000 :: drop 5 (ad_log a)) by (vm_compute; reflexivity).
  split; [exact Hr|]. split; [exact Hl|].
  exact (every_served_request_was_authenticated plain_check demo_key demo_admin false busy_day a _ _ _ Hr Hl).
Defined.

Lemma guesses_are_limited_witness :
  let a := demo_state twelve_guesses in
  demo_run twelve_guesses = Some a /\
  len (List.filter (guess_in (str "192.0.2.7") 0) (ad_log a)) = 10 /\
  length (List.filter (fun x => match x with Limited _ _ _ => true | _ => false end) (ad_log a)) = 2%nat /\
  len (List.filter (bad_in (str "192.0.2.7") 0) (ad_log a)) <= 10 /\
  len (List.filter (guess_in (str "192.0.2.7") 0) (ad_log a)) <= 20.
Proof.
  intros a. assert (Hr : demo_run twelve_guesses = Some a) by (apply demo_ran; vm_compute; reflexivity).
  split; [exact Hr|]. split; [vm_compute; reflexivity|]. split; [vm_compute; reflexivity|].
  apply (guesses_are_limited plain_check demo_key demo_admin false demo_sources 0 twelve_guesses a (str "192.0.2.7") 0 0).
  - unfold demo_sources. rewrite size_singleton. unfold authFailMaxIPs. lia.
  - apply sources_decide. vm_compute. reflexivity.
  - vm_compute. repeat split; congruence.
  - exact Hr.
Defined.
